(* ===== verification/_CoqProject ===== *)
-Q . S2P
Prelude.v
Bisect.v
FreeQueue.v
Request.v
BlockHash.v
BlockPool.v
EncoderCache.v
CacheHit.v
MambaHit.v
SingleType.v
GroupManager.v
AttentionGroup.v
MambaManager.v
Coordinator.v
HybridHit.v
PyFloat.v
KVCacheManager.v
KVLifecycle.v
KVFrame.v
Heapq.v
RequestQueue.v
ChunkPlan.v
EncoderPlan.v
SchedMonad.v
SchedState.v
SchedOps.v
Schedule.v
SchedOutput.v
SchedFrame.v
SchedRunning.v
SchedWaiting.v
SchedAdmission.v
SchedStep.v
SchedUpdate.v
SchedTheorems.v
OffloadPolicy.v
LruPolicy.v
ArcPolicy.v
OffloadManager.v
OffloadCorrect.v
Ngram.v
CaptureSizes.v
CudaGraph.v
TurboGraph.v
Tokenizers.v
Detokenizer.v
SlowDetokenizer.v
Logprobs.v
LogprobsCorrect.v
RequestOutput.v
ParallelSampling.v
OutputProcessor.v
OutputStream.v
OutputIndex.v
OutputEdges.v
