(* ===== verification/Prelude.v ===== *)
(** * The engine core of the inference server, verified

    The repository is a fork of vLLM that serves one large language model on one
    GPU. This development models the part of its engine that decides, step by
    step, which requests run and who may use which piece of KV cache: the
    scheduler with its queues and what it needs of a request, the KV cache on the
    GPU and the encoder cache (v1/core, with v1/request.py and
    v1/kv_cache_interface.py), and the CPU tier behind the KV cache
    (v1/kv_offload). Around it, it models the Python code on a token's way: the
    drafts that are proposed for a step (v1/spec_decode/ngram_proposer.py), the
    captured CUDA graph a step runs (v1/cudagraph_dispatcher.py), and what becomes
    of the sampled tokens on their way to the client (v1/engine, outputs.py,
    logprobs.py, tokenizers/detokenizer_utils.py). All paths below are relative
    to src/upstream/vllm/.

    ** The program

    A request is a growing list of tokens. The engine runs in steps. In each,
    [schedule] hands out a budget of tokens: first to the requests that run,
    preempting some when blocks run out, then to waiting ones; the workers
    compute these tokens; and [update_from_output] appends what was sampled,
    takes back rejected drafts, stops and frees requests. A step's batch is
    padded to a size for which a CUDA graph was captured. The output processor
    turns the tokens of a step into text, looks for stop strings, collects log
    probabilities, and puts outputs into the queue of each client.

    The KV cache on the GPU is cut into blocks of a fixed number of tokens. A
    block that holds the KV of a full prefix block is filed under a chained hash
    of that prefix, so that a later request with the same prefix can reuse it.
    The scheduler asks, per request: which cached blocks can be reused, how many
    further blocks are needed, are they free; then it touches and allocates
    them, caches them as they fill up, nulls those an attention window has left
    behind and frees them at the end.

    ** The files

    Generic:
    - [Prelude]: exceptions and the result monad, loops whose body can raise,
      Python's integer division, list indexing and slicing, insertion-ordered
      dicts, bytes, and the tactics and hints of the development.
    - [PyFloat]: the binary64 arithmetic of Python's floats, on the Standard
      Library's [SpecFloat]. [Heapq]: Python's [heapq] on a list. [Bisect]: its
      [bisect_left].

    Blocks and the pool:
    - [FreeQueue] (v1/core/kv_cache_utils.py): [KVCacheBlock] objects in a store
      and [FreeKVCacheBlockQueue], the doubly linked list through them, pointer
      by pointer, refined to a list ([queue_repr]).
    - [Request] (v1/request.py, v1/core/sched/utils.py and
      [Scheduler._update_request_with_output]): requests, token appending, the
      queue order and the stop conditions.
    - [BlockHash] (v1/core/kv_cache_utils.py): block-hash keys, extra keys
      (multi-modal features, LoRA, salt, prompt embeddings), the incremental
      block hasher, views at a coarser block size, the block-size resolution.
    - [BlockPool] (v1/core/block_pool.py): the map from keys to blocks and every
      operation of the pool, with its invariant [pool_inv].

    The managers of KV-cache groups (v1/core/single_type_kv_cache_manager.py):
    - [CacheHit], [MambaHit]: the searches for the longest prefix hit per
      attention type, the tokens a window skips, the masks of blocks worth
      caching.
    - [SingleType]: the manager of one group of attention layers, on top of the
      pool: predicting, touching, allocating, copy-on-write, caching, nulling
      and freeing the blocks of requests.
    - [MambaManager]: the manager of one group of Mamba layers, with its running
      states and speculative blocks.
    - [GroupManager]: what the coordinator needs of a manager, as a class of
      operations and a class of laws; [AttentionGroup] and [MambaManager] give
      the instances for attention, cross-attention and Mamba groups.

    The KV cache as the scheduler sees it:
    - [Coordinator] (v1/core/kv_cache_coordinator.py): one pool shared by the
      managers of all groups; [HybridHit]: its hit search over all groups.
    - [KVCacheManager] (v1/core/kv_cache_manager.py): admission, lookups, pins.
    - [KVLifecycle]: the scheduler's calls as a step relation, and the accounting
      of references that every sequence of them keeps.
    - [KVFrame]: what these calls leave alone in any state.

    The scheduler (v1/core/sched/):
    - [RequestQueue] (request_queue.py): the interface of the waiting queues, its
      laws, and the two implementations.
    - [EncoderCache] (v1/core/encoder_cache_manager.py): both managers of encoder
      outputs and the encoder budget. [EncoderPlan]: which encoder inputs a step
      runs. [ChunkPlan]: how many tokens of a prefill it runs.
    - [SchedMonad]: programs with state, [continue], [break] and exceptions, their
      [while] loop and weakest preconditions.
    - [SchedState], [SchedOps], [Schedule], [SchedOutput] (scheduler.py and
      async_scheduler.py): the scheduler's state, its smaller methods,
      [schedule], and [update_from_output] with the other entry points.
    - [SchedFrame], [SchedRunning], [SchedWaiting], [SchedAdmission], [SchedStep],
      [SchedUpdate]: the proof about [schedule], loop by loop;
      [SchedTheorems]: what it promises, and two surprises.

    The CPU tier:
    - [OffloadPolicy] (v1/kv_offload/base.py, v1/kv_offload/cpu/policies/base.py):
      offload keys, the [BlockStatus] objects in a store, and the interface
      [CachePolicy] with its laws [CachePolicyLaws].
    - [LruPolicy], [ArcPolicy] (v1/kv_offload/cpu/policies/): the two policies,
      each an instance of the interface and of its laws.
    - [OffloadManager] (v1/kv_offload/cpu/manager.py): [CPUOffloadingManager] over
      any policy, its steps and its invariant; [OffloadCorrect]: what it promises.

    A step on the GPU:
    - [Ngram] (v1/spec_decode/ngram_proposer.py): the n-gram proposer, its buffers
      and its search.
    - [CaptureSizes] (config/vllm.py, config/compilation.py): the batch sizes for
      which graphs are captured. [CudaGraph] (v1/cudagraph_dispatcher.py): the
      padding table, the keys of the captured graphs and the dispatch of a batch.
    - [TurboGraph] (v1/worker/gpu_model_runner.py,
      v1/attention/backends/turboquant_attn.py): the context bucket and the
      shared-row variant that a TurboQuant step asks for.

    From tokens to outputs:
    - [Tokenizers] (tokenizers/detokenizer_utils.py): ids into pieces and text; the
      tokenizer itself is a record of functions.
    - [Detokenizer], [SlowDetokenizer] (v1/engine/detokenizer.py): incremental
      detokenization over any decoder ([Decoder]), stop strings, and the two decoders.
    - [Logprobs] (logprobs.py, v1/engine/logprobs.py): both containers of log
      probabilities and the processor that fills them; [LogprobsCorrect]: that
      they agree.
    - [RequestOutput] (outputs.py and [RequestOutputCollector]): outputs and the
      queue that merges them. [ParallelSampling]
      (v1/engine/parallel_sampling.py): a request for several completions.
    - [OutputProcessor] (v1/engine/output_processor.py): request states, adding,
      processing, aborting; queues and parent requests live in stores.
      [OutputStream], [OutputIndex], [OutputEdges]: what a streaming client
      receives, the index of client ids, and what goes wrong at the edges.

    Components meet through explicit state: a function that mutates an object in
    Python takes it and returns it. What is shared by reference lives in a store:
    blocks are indexed by block id, and queue, pool and managers only hold
    references ([bref]); requests are indexed by id, and the scheduler's queues
    and lists hold references ([ref]). What a component promises to the next one
    is its invariant and the lemmas about it ([queue_repr], [pool_inv], [owns]),
    or a class of laws ([GroupManagerLaws], [RequestQueueLaws],
    [CachePolicyLaws]); a client's proofs use nothing else. What lies outside
    the source, a hash function, the environment, the iteration order of a set,
    a KV connector, is an argument or a class ([PoolEnv], [SetOrder],
    [KVConnector]) with its documented properties as laws.

    ** What is proved

    - FreeQueue: any legal sequence of calls behaves like a deque.
    - Request: repetition detection, [check_stop] and the consumption of sampled
      tokens are characterised on every branch; the priority order is total.
    - BlockHash: keys round-trip; incremental hashing equals hashing from
      scratch, except where the code resumes inside the prompt, which is shown
      by a counterexample; equal hashes mean equal prefixes.
    - BlockPool: every reachable pool is consistent, and the exact effect of each
      operation on free list, reference counts, keys and events.
    - CacheHit, MambaHit: the reported hit is the longest one, its null blocks lie
      in tokens the attention no longer reads, and the mask marks what hits look
      at. HybridHit: the search over all groups ends with a length that every
      group can serve.
    - SingleType, MambaManager: every reference count is accounted for, a
      request's blocks are never on the free list, an admission that fits the
      prediction cannot fail. Coordinator, KVCacheManager: the same over all
      groups, and when exactly [allocate_slots] declines.
    - KVLifecycle: over any sequence of the scheduler's calls, no block that a
      table, a pin or a deferred free holds is on the free list.
    - EncoderCache: the slots are accounted for in every reachable state, and
      eviction takes the oldest unused entries and no more than needed.
      EncoderPlan: the tokens a step runs find the encoder outputs they read.
    - RequestQueue: the priority queue answers like a sorted list.
    - SchedTheorems: from any sound state ([sched_ok]) [schedule] ends without one
      of its own assertions failing, keeps every request in exactly one place,
      stays within its budgets, and under FCFS changes nobody's place; where it
      lets a request miss its turn, and where its LoRA assertion fails.
    - OffloadCorrect: CPU blocks are accounted for in every reachable state, for
      either policy; a store never evicts what it is about to store or what is
      being read; blocks read back are the ones stored.
    - Ngram: the linear scan proposes what the naive search would, in every call of
      the proposer. CaptureSizes, CudaGraph: the capture sizes are sound, a graph that
      is chosen fits its batch, and every batch of a captured size gets one.
      TurboGraph: bucket and sharing are those under which the frozen choices of
      the kernel are right, except that the bucket is a step late.
    - Detokenizer: several tokens at once stop where single tokens would;
      SlowDetokenizer: no text is lost between tokens. LogprobsCorrect: the flat
      container and the list of dicts give the same positions over any run, and a
      corrected token never ends inside a character.
    - ParallelSampling: the parent answers once, with every completion.
      OutputStream: over any interleaving of outputs and reads a client receives the
      generated text and tokens, each once. OutputIndex: the index of client ids is
      exact, and an abort removes exactly the requests of a client.

    ** Conventions, bounds and fuel

    Python integers are [Z]; the only machine widths in this code are the four
    bytes of a group id and the eight bytes of an external hash, with overflow
    modelled, and the 32-bit reader count of an offloaded block, bounded by a
    hypothesis of fewer than 2^31 readers. The floats of the adaptive policy are
    binary64 with rounding; its capacity is taken to be below 2^53. Exceptions
    are values of [exn]; state after an exception is not modelled, since the
    engine does not resume from one. In the scheduler an exception also says
    whether [schedule] itself raised it or a component it called.

    [Diverges] stands for a [while] loop out of fuel and is proved never to
    occur: the hasher loop gets one unit per token plus one, the encoder cache's
    eviction loop one per reclaimable entry plus one, [align_loop] one per block
    plus one, the walks of the free list one per counted free block plus one,
    [hybrid_loop] two more than the longest allowed hit (every round but the last
    shortens the hit), the sifts and [drain] of [Heapq] one per element, the
    bisection one per entry plus one, the n-gram scan two per token plus one (a round
    advances or shortens the match), the loop over the
    running requests and [allocate_or_preempt] one per running request plus one
    (a round advances the index or preempts), the loop over the waiting ones one
    per queued request plus one (a round takes one out of its queue). The fuel of
    [abort_requests] is the depth of its recursion, which is one for client ids and
    two for the id of a parent. Sizes and
    lengths the configuration guarantees (positive block sizes, non-negative
    token counts) are hypotheses.

    ** What is not modelled

    Within the modelled files: metrics, logging, wall-clock times; in the
    scheduler also the data copied for the workers ([NewRequestData],
    [CachedRequestData]), the EC connector, the finished-request dict of several
    engines, routed experts, and structured output beyond its effect on a
    request's status and draft tokens. [update_from_output] is modelled, with no
    theorem about it yet: that the counters of a request again satisfy
    [request_runs] after its output is the next part of the plan, and with it
    that [sched_ok] holds in every state of the loop (without LoRAs, for which
    [SchedTheorems] shows that it does not). Of KV offloading, the transfers
    themselves, the scheduler side of the connector and the secondary tiers are
    left out. The proposers of speculative decoding that run a model, and sampling,
    are tensor code. Of the graph choice, data and sequence parallelism are left out.
    Of the output side, statistics, tracing, LoRA counters, the asyncio event and its
    tasks; a cumulative output holds a copy of the token list, where the code shares
    the list with the detokenizer. Tokenizers and their decode streams are parameters.
    Kernels, models, workers, serving front ends and the distributed layers run
    on a GPU, do I/O or wrap libraries, and are left out. *)
From stdpp Require Export base list gmap strings numbers sets sorting.
From Stdlib Require Export ZArith Lia.
From Stdlib Require Import Strings.Byte.

Open Scope Z_scope.

(** * Python exceptions and the result monad *)

(** The exceptions the modelled code raises. [Diverges] is no Python exception:
    it is what a [while] loop of the model returns when its fuel runs out, and
    every theorem about such a loop shows that it does not happen. *)
Inductive exn :=
  | AssertionError
  | ValueError
  | RuntimeError
  | KeyError
  | IndexError
  | OverflowError
  | TypeError
  | AttributeError
  | ZeroDivisionError
  | StopIteration
  | NotImplementedError
  | Diverges.

Inductive result (A : Type) :=
  | Ok (a : A)
  | Raise (e : exn).
Global Arguments Ok {A} a.
Global Arguments Raise {A} e.

#[export] Instance exn_eq_dec : EqDecision exn.
Proof. solve_decision. Defined.

#[export] Instance result_eq_dec `{EqDecision A} : EqDecision (result A).
Proof. solve_decision. Defined.

#[export] Instance result_ret : MRet result := @Ok.
#[export] Instance result_bind : MBind result :=
  fun A B f m => match m with Ok a => f a | Raise e => Raise e end.
#[export] Instance result_fmap : FMap result :=
  fun A B f m => match m with Ok a => Ok (f a) | Raise e => Raise e end.

(** Python's [assert b]. *)
Definition assert_ (b : bool) : result unit :=
  if b then Ok tt else Raise AssertionError.

(** [d[k]] on a dict: [KeyError] when the key is missing. *)
Definition or_raise {A} (e : exn) (o : option A) : result A :=
  match o with Some a => Ok a | None => Raise e end.

Definition is_ok {A} (r : result A) : bool :=
  match r with Ok _ => true | Raise _ => false end.

Lemma bind_Ok_inv {A B} (m : result A) (f : A -> result B) b :
  m ≫= f = Ok b -> exists a, m = Ok a /\ f a = Ok b.
Proof. destruct m as [a|e]; simpl; [eauto|discriminate]. Qed.

Lemma or_raise_Ok_inv {A} e (o : option A) a : or_raise e o = Ok a -> o = Some a.
Proof. destruct o; simpl; congruence. Qed.

Lemma assert_true b : b = true -> assert_ b = Ok tt.
Proof. by intros ->. Qed.

Lemma assert_Ok_inv b u : assert_ b = Ok u -> b = true.
Proof. by destruct b. Qed.

Lemma result_bind_assoc {A B C} (m : result A) (f : A -> result B)
    (g : B -> result C) :
  (m ≫= f) ≫= g = m ≫= (fun a => f a ≫= g).
Proof. by destruct m. Qed.

(** * Loops over a list whose body can raise *)

Fixpoint for_each {A S} (f : A -> S -> result S) (xs : list A) (s : S)
    : result S :=
  match xs with
  | [] => Ok s
  | x :: xs' => s' ← f x s; for_each f xs' s'
  end.

Lemma for_each_app {A S} (f : A -> S -> result S) xs ys s :
  for_each f (xs ++ ys) s = for_each f xs s ≫= for_each f ys.
Proof.
  revert s. induction xs as [|x xs IH]; intros s; [done|].
  simpl. destruct (f x s); [apply IH|done].
Qed.

(** The rule a loop is verified with: an invariant indexed by the elements
    still to come. *)
Lemma for_each_inv {A S} (f : A -> S -> result S) (I : list A -> S -> Prop) xs s :
  I xs s ->
  (forall x xs' s0, I (x :: xs') s0 -> exists s1, f x s0 = Ok s1 /\ I xs' s1) ->
  exists s', for_each f xs s = Ok s' /\ I [] s'.
Proof.
  intros H0 Hstep. revert s H0.
  induction xs as [|x xs IH]; intros s H0; [by exists s|].
  destruct (Hstep _ _ _ H0) as (s1 & Hf & H1). simpl. rewrite Hf. simpl. auto.
Qed.

(** The same for a loop already known to have returned. *)
Lemma for_each_Ok_inv {A S} (f : A -> S -> result S) (I : S -> Prop) xs s s' :
  for_each f xs s = Ok s' -> I s ->
  (forall x s0 s1, I s0 -> f x s0 = Ok s1 -> I s1) -> I s'.
Proof.
  intros Hr H0 Hstep. revert s H0 Hr.
  induction xs as [|x xs IH]; intros s H0 Hr; simpl in Hr; [by simplify_eq|].
  apply bind_Ok_inv in Hr as (s1 & Hf & Hr). eauto.
Qed.

(** A loop that builds a list. *)
Lemma mapM_Ok {A B} (f : A -> result B) l l' : Forall2 (fun x y => f x = Ok y) l l' -> mapM f l = Ok l'.
Proof. induction 1 as [|x y l l' Hf _ IH]; [done|]. cbn. rewrite Hf. cbn. by rewrite IH. Qed.

(** * Integers *)

(** [vllm.utils.math_utils.cdiv]: [-(a // -b)]; Rocq's [Z.div] floors like
    Python's [//] for every sign of the divisor. *)
Definition cdiv (a b : Z) : Z := - (a / (- b)).

Lemma cdiv_bounds a b : 0 < b -> (cdiv a b - 1) * b < a <= cdiv a b * b.
Proof.
  intros Hb. unfold cdiv.
  pose proof (Z.div_mod a (- b) ltac:(lia)).
  pose proof (Z.mod_neg_bound a (- b) ltac:(lia)). nia.
Qed.

Lemma cdiv_0 b : cdiv 0 b = 0.
Proof. by destruct b. Qed.

Lemma cdiv_nonneg a b : 0 < b -> 0 <= a -> 0 <= cdiv a b.
Proof. intros Hb Ha. pose proof (cdiv_bounds a b Hb). nia. Qed.

Lemma cdiv_pos a b : 0 < b -> 0 < a -> 0 < cdiv a b.
Proof. intros Hb Ha. pose proof (cdiv_bounds a b Hb). nia. Qed.

Lemma cdiv_le_iff a b n : 0 < b -> cdiv a b <= n <-> a <= n * b.
Proof. intros Hb. pose proof (cdiv_bounds a b Hb). split; nia. Qed.

Lemma cdiv_mono a a' b : 0 < b -> a <= a' -> cdiv a b <= cdiv a' b.
Proof.
  intros Hb Ha. pose proof (cdiv_bounds a b Hb).
  pose proof (cdiv_bounds a' b Hb). nia.
Qed.

Lemma cdiv_mul n b : 0 < b -> cdiv (n * b) b = n.
Proof. intros Hb. pose proof (cdiv_bounds (n * b) b Hb). nia. Qed.

Lemma le_div_iff n a b : 0 < b -> n <= a / b <-> n * b <= a.
Proof.
  intros Hb. pose proof (Z.div_mod a b ltac:(lia)). pose proof (Z.mod_pos_bound a b Hb).
  split; nia.
Qed.

(** * Python lists *)

Abbreviation zlen l := (Z.of_nat (length l)).

(** [l[i]], negative indices counted from the end. *)
Definition py_index {A} (l : list A) (i : Z) : result A :=
  let j := if i <? 0 then i + zlen l else i in
  if j <? 0 then Raise IndexError else or_raise IndexError (l !! Z.to_nat j).

(** The clamping Python applies to a slice bound. *)
Definition slice_bound (n i : Z) : Z :=
  if i <? 0 then Z.max 0 (i + n) else Z.min i n.

(** [l[a:b]]. *)
Definition py_slice {A} (l : list A) (a b : Z) : list A :=
  let a' := slice_bound (zlen l) a in
  let b' := slice_bound (zlen l) b in
  take (Z.to_nat (b' - a')) (drop (Z.to_nat a') l).

(** [l[a:]]. *)
Definition py_from {A} (l : list A) (a : Z) : list A :=
  drop (Z.to_nat (slice_bound (zlen l) a)) l.

(** [l[:b]] (and, as [del l[b:]], what is left of [l]). *)
Definition py_upto {A} (l : list A) (b : Z) : list A :=
  take (Z.to_nat (slice_bound (zlen l) b)) l.

(** [l.pop()]: the last element; [IndexError] on an empty list. *)
Definition py_pop {A} (l : list A) : result (A * list A) :=
  match last l with
  | Some x => Ok (x, removelast l)
  | None => Raise IndexError
  end.

(** [l[i] = x]. *)
Definition py_set {A} (l : list A) (i : Z) (x : A) : result (list A) :=
  let j := if i <? 0 then i + zlen l else i in
  if (j <? 0) || (zlen l <=? j) then Raise IndexError else Ok (<[Z.to_nat j := x]> l).

(** [range(a, b)]. *)
Definition py_range (a b : Z) : list Z := seqZ a (b - a).

(** [enumerate(l)]. *)
Definition enumerate {A} (l : list A) : list (Z * A) := imap (fun i x => (Z.of_nat i, x)) l.

(** [range(a, b, -1)] runs [a], [a - 1], ... down to [b + 1]. *)
Definition py_range_down (a b : Z) : list Z := reverse (seqZ (b + 1) (a - b)).

Lemma py_index_nonneg {A} (l : list A) i :
  0 <= i -> py_index l i = or_raise IndexError (l !! Z.to_nat i).
Proof.
  intros Hi. unfold py_index. destruct (Z.ltb_spec i 0); [lia|].
  destruct (Z.ltb_spec i 0); [lia|done].
Qed.

Lemma py_index_Ok {A} (l : list A) i x :
  0 <= i -> l !! Z.to_nat i = Some x -> py_index l i = Ok x.
Proof. intros Hi Hx. by rewrite py_index_nonneg, Hx. Qed.

Lemma py_set_Ok {A} (l : list A) i x : 0 <= i < zlen l -> py_set l i x = Ok (<[Z.to_nat i := x]> l).
Proof.
  intros Hi. unfold py_set. destruct (Z.ltb_spec i 0); [lia|].
  destruct (Z.ltb_spec i 0), (Z.leb_spec (zlen l) i); try lia. done.
Qed.

Lemma py_index_is_Ok {A} (l : list A) i : 0 <= i < zlen l -> exists x, l !! Z.to_nat i = Some x /\ py_index l i = Ok x.
Proof.
  intros Hi. destruct (lookup_lt_is_Some_2 l (Z.to_nat i)) as [x Hx]; [lia|].
  exists x. split; [done|]. apply py_index_Ok; [lia|done].
Qed.

Lemma py_index_last {A} (l : list A) x : py_index (l ++ [x]) (-1) = Ok x.
Proof.
  unfold py_index. rewrite length_app. simpl.
  destruct (Z.ltb_spec (-1 + Z.of_nat (length l + 1)) 0); [lia|].
  replace (Z.to_nat _) with (length l + 0)%nat by lia.
  by rewrite lookup_app_r, Nat.add_0_r, Nat.sub_diag by lia.
Qed.

Lemma py_slice_nonneg {A} (l : list A) a b :
  0 <= a -> 0 <= b ->
  py_slice l a b = take (Z.to_nat b - Z.to_nat a) (drop (Z.to_nat a) l).
Proof.
  intros Ha Hb. unfold py_slice, slice_bound.
  destruct (Z.ltb_spec a 0); [lia|]. destruct (Z.ltb_spec b 0); [lia|].
  destruct (decide (zlen l <= a)) as [Hl|Hl].
  - rewrite !(drop_ge l) by lia. by rewrite !take_nil.
  - rewrite (Z.min_l a) by lia.
    destruct (decide (zlen l <= b)) as [Hlb|Hlb].
    + rewrite Z.min_r by lia.
      trans (drop (Z.to_nat a) l); [|symmetry]; apply take_ge; rewrite length_drop; lia.
    + rewrite Z.min_l by lia. f_equal. lia.
Qed.

Lemma py_from_nonneg {A} (l : list A) a :
  0 <= a -> py_from l a = drop (Z.to_nat a) l.
Proof.
  intros Ha. unfold py_from, slice_bound. destruct (Z.ltb_spec a 0); [lia|].
  destruct (decide (zlen l <= a)) as [Hl|Hl].
  - trans (@nil A); [|symmetry]; apply drop_ge; lia.
  - by rewrite Z.min_l by lia.
Qed.

Lemma py_upto_nonneg {A} (l : list A) b :
  0 <= b -> py_upto l b = take (Z.to_nat b) l.
Proof.
  intros Hb. unfold py_upto, slice_bound. destruct (Z.ltb_spec b 0); [lia|].
  destruct (decide (zlen l <= b)) as [Hl|Hl].
  - trans l; [|symmetry]; apply take_ge; lia.
  - by rewrite Z.min_l by lia.
Qed.

Lemma length_py_slice {A} (l : list A) a b :
  0 <= a <= b -> b <= zlen l -> zlen (py_slice l a b) = b - a.
Proof.
  intros Ha Hb. rewrite py_slice_nonneg by lia.
  rewrite length_take, length_drop. lia.
Qed.

Lemma py_pop_snoc {A} (l : list A) x : py_pop (l ++ [x]) = Ok (x, l).
Proof. unfold py_pop. by rewrite last_snoc, removelast_last. Qed.

Lemma drop_enumerate {A} (l : list A) n x rest : x :: rest = drop n (enumerate l) ->
  x.1 = Z.of_nat n /\ l !! n = Some x.2 /\ rest = drop (S n) (enumerate l).
Proof.
  destruct x as [i a]. intros Hd. pose proof (f_equal (.!! 0%nat) Hd) as Hx. rewrite lookup_drop, Nat.add_0_r in Hx.
  cbn in Hx. symmetry in Hx. unfold enumerate in Hx. rewrite list_lookup_imap in Hx. apply fmap_Some in Hx as (y & Hy & [= -> ->]).
  cbn [fst snd]. split; [done|]. split; [done|]. replace (S n) with (n + 1)%nat by lia. by rewrite <-drop_drop, <-Hd.
Qed.

Lemma elem_of_py_range a b i : i ∈ py_range a b <-> a <= i < b.
Proof. unfold py_range. rewrite elem_of_seqZ. lia. Qed.

Lemma py_range_nil a b : b <= a -> py_range a b = [].
Proof. intros. unfold py_range. by rewrite seqZ_nil by lia. Qed.

Lemma py_range_cons a b : a < b -> py_range a b = a :: py_range (a + 1) b.
Proof.
  intros. unfold py_range. rewrite seqZ_cons by lia.
  f_equal. f_equal; lia.
Qed.

Lemma py_range_sorted a b : StronglySorted Z.lt (py_range a b).
Proof.
  remember (Z.to_nat (b - a)) as n eqn:Hn. revert a Hn. induction n as [|n IH]; intros a Hn.
  - rewrite py_range_nil by lia. constructor.
  - rewrite py_range_cons by lia. constructor; [apply IH; lia|].
    apply Forall_forall. intros i Hi%elem_of_py_range. lia.
Qed.

Lemma py_range_down_nil a b : a <= b -> py_range_down a b = [].
Proof. intros. unfold py_range_down. by rewrite seqZ_nil by lia. Qed.

Lemma py_range_down_cons a b : b < a -> py_range_down a b = a :: py_range_down (a - 1) b.
Proof.
  intros. unfold py_range_down.
  replace (a - b) with ((a - 1 - b) + 1) by lia. rewrite seqZ_app by lia.
  rewrite reverse_app. replace (b + 1 + (a - 1 - b)) with a by lia. done.
Qed.

Lemma list_filter_all {A} (P : A -> Prop) `{!forall x, Decision (P x)} (l : list A) :
  (forall x, x ∈ l -> P x) -> filter P l = l.
Proof.
  induction l as [|x l IH]; [done|]. intros Hl.
  rewrite filter_cons_True by (apply Hl; by left). f_equal. apply IH.
  intros y Hy. apply Hl. by right.
Qed.

Lemma list_filter_none {A} (P : A -> Prop) `{!forall x, Decision (P x)} (l : list A) :
  (forall x, x ∈ l -> ~ P x) -> filter P l = [].
Proof.
  induction l as [|x l IH]; [done|]. intros Hl.
  rewrite filter_cons_False by (apply Hl; by left). apply IH.
  intros y Hy. apply Hl. by right.
Qed.

(** * Insertion-ordered dictionaries

    A Python [dict] or [OrderedDict] whose order the code reads ([next(iter(d))],
    [popitem(last=False)], [move_to_end]) is a list of pairs in insertion order
    with distinct keys. *)

Section odict.
Context `{EqDecision K} {V : Type}.
Implicit Types (d : list (K * V)) (k : K) (v : V).

Fixpoint od_get k d : option V :=
  match d with
  | [] => None
  | (k', v) :: d' => if decide (k = k') then Some v else od_get k d'
  end.

Definition od_mem k d : bool :=
  match od_get k d with Some _ => true | None => false end.

(** [d[k] = v]: an existing key keeps its position. *)
Fixpoint od_set k v d : list (K * V) :=
  match d with
  | [] => [(k, v)]
  | (k', v') :: d' =>
      if decide (k = k') then (k', v) :: d' else (k', v') :: od_set k v d'
  end.

Fixpoint od_del k d : list (K * V) :=
  match d with
  | [] => []
  | (k', v') :: d' => if decide (k = k') then d' else (k', v') :: od_del k d'
  end.

(** [d.move_to_end(k)]: [KeyError] when [k] is missing. *)
Definition od_move_to_end k d : result (list (K * V)) :=
  match od_get k d with
  | Some v => Ok (od_del k d ++ [(k, v)])
  | None => Raise KeyError
  end.

(** [d.popitem(last=False)]. *)
Definition od_popfirst d : result ((K * V) * list (K * V)) :=
  match d with [] => Raise KeyError | kv :: d' => Ok (kv, d') end.

(** [del d[k]]: [KeyError] when [k] is missing. *)
Definition od_remove k d : result (list (K * V)) :=
  if od_mem k d then Ok (od_del k d) else Raise KeyError.

Definition od_keys d : list K := d.*1.

Lemma od_get_elem_of k d : is_Some (od_get k d) <-> k ∈ od_keys d.
Proof.
  induction d as [|[k' v'] d IH]; csimpl.
  - rewrite elem_of_nil. split; [intros [? ?]; done|done].
  - rewrite elem_of_cons, <-IH. case_decide; [|tauto].
    split; [by left|by eauto].
Qed.

Lemma od_get_None k d : od_get k d = None <-> k ∉ od_keys d.
Proof. rewrite <-od_get_elem_of, eq_None_not_Some. done. Qed.

Lemma od_mem_true k d : od_mem k d = true <-> k ∈ od_keys d.
Proof.
  rewrite <-od_get_elem_of. unfold od_mem, is_Some. destruct (od_get k d); split; try done; [by eauto|by intros [? ?]].
Qed.

Lemma od_get_set k k' v d :
  od_get k (od_set k' v d) = if decide (k = k') then Some v else od_get k d.
Proof.
  induction d as [|[k0 v0] d IH]; csimpl.
  - repeat case_decide; congruence.
  - destruct (decide (k' = k0)) as [->|]; csimpl; [by repeat case_decide|].
    rewrite IH. repeat case_decide; congruence.
Qed.

Lemma od_keys_set k v d :
  od_keys (od_set k v d) =
    if decide (k ∈ od_keys d) then od_keys d else od_keys d ++ [k].
Proof.
  unfold od_keys in *. induction d as [|[k0 v0] d IH]; csimpl.
  - done.
  - destruct (decide (k = k0)) as [->|Hne]; csimpl.
    + rewrite decide_True; [done|]. by apply elem_of_cons; left.
    + rewrite IH. pose proof (elem_of_cons (d.*1) k k0).
      destruct (decide (k ∈ d.*1)); destruct (decide (k ∈ k0 :: d.*1)); tauto.
Qed.

Lemma od_set_NoDup k v d : NoDup (od_keys d) -> NoDup (od_keys (od_set k v d)).
Proof.
  intros Hd. rewrite od_keys_set. case_decide; [done|].
  apply NoDup_app. split_and!; [done| |apply NoDup_singleton]. set_solver.
Qed.

Lemma od_set_fresh k v d : k ∉ od_keys d -> od_set k v d = d ++ [(k, v)].
Proof.
  unfold od_keys in *. induction d as [|[k0 v0] d IH]; csimpl; [done|].
  intros Hk. apply not_elem_of_cons in Hk as [? ?].
  by rewrite decide_False, IH.
Qed.

Lemma od_keys_del_sub k k' d : k ∈ od_keys (od_del k' d) -> k ∈ od_keys d.
Proof.
  unfold od_keys in *. induction d as [|[k0 v0] d IH]; csimpl; [done|].
  case_decide; set_solver.
Qed.

Lemma od_del_fresh k d : k ∉ od_keys d -> od_del k d = d.
Proof.
  unfold od_keys in *. induction d as [|[k0 v0] d IH]; csimpl; [done|].
  intros Hk. apply not_elem_of_cons in Hk as [? ?]. by rewrite decide_False, IH.
Qed.

Lemma od_del_NoDup k d : NoDup (od_keys d) -> NoDup (od_keys (od_del k d)).
Proof.
  induction d as [|[k0 v0] d IH]; csimpl; [done|].
  intros [? ?]%NoDup_cons. case_decide; [done|]. csimpl. apply NoDup_cons.
  split; [|by apply IH]. intros ?%od_keys_del_sub. done.
Qed.

Lemma od_get_del k k' d :
  NoDup (od_keys d) ->
  od_get k (od_del k' d) = if decide (k = k') then None else od_get k d.
Proof.
  induction d as [|[k0 v0] d IH]; csimpl.
  - intros _. by case_decide.
  - intros [? ?]%NoDup_cons. destruct (decide (k' = k0)) as [->|].
    + repeat case_decide; simplify_eq; try done. by apply od_get_None.
    + csimpl. rewrite IH by done. repeat case_decide; congruence.
Qed.

Lemma elem_of_od_del k k' d :
  NoDup (od_keys d) -> k ∈ od_keys (od_del k' d) <-> k <> k' /\ k ∈ od_keys d.
Proof.
  intros Hd. rewrite <-!od_get_elem_of, od_get_del by done.
  case_decide; [|naive_solver].
  split; [intros [? ?]; done|naive_solver].
Qed.

Lemma od_get_Some_elem_of k v d : od_get k d = Some v -> (k, v) ∈ d.
Proof.
  induction d as [|[k0 v0] d IH]; csimpl; [done|].
  case_decide; intros; simplify_eq; [apply elem_of_cons; by left|].
  apply elem_of_cons; right; auto.
Qed.

Lemma od_elem_of_get k v d : NoDup (od_keys d) -> (k, v) ∈ d -> od_get k d = Some v.
Proof.
  induction d as [|[k0 v0] d IH]; csimpl; [by rewrite elem_of_nil|].
  intros [Hk0 ?]%NoDup_cons [?|Hin]%elem_of_cons; simplify_eq.
  - by rewrite decide_True.
  - rewrite decide_False; [auto|]. intros ->. apply Hk0.
    apply list_elem_of_fmap. by exists (k0, v).
Qed.

Lemma od_get_app k d1 d2 :
  od_get k (d1 ++ d2) = match od_get k d1 with Some v => Some v | None => od_get k d2 end.
Proof. induction d1 as [|[k0 v0] d1 IH]; csimpl; [done|]. by case_decide. Qed.

Lemma od_del_app k d1 d2 :
  k ∉ od_keys d1 -> od_del k (d1 ++ d2) = d1 ++ od_del k d2.
Proof.
  unfold od_keys in *. induction d1 as [|[k0 v0] d1 IH]; csimpl; [done|].
  intros Hk. apply not_elem_of_cons in Hk as [? ?]. by rewrite decide_False, IH.
Qed.

Lemma od_length_del k d :
  k ∈ od_keys d -> length d = S (length (od_del k d)).
Proof.
  unfold od_keys in *. induction d as [|[k0 v0] d IH]; csimpl; [by rewrite elem_of_nil|].
  intros Hk. case_decide; [done|]. csimpl. f_equal. apply IH. set_solver.
Qed.
Lemma od_elem_of_iff k v d : NoDup (od_keys d) -> (k, v) ∈ d <-> od_get k d = Some v.
Proof. intros Hd. split; [by apply od_elem_of_get|apply od_get_Some_elem_of]. Qed.

Lemma od_set_elem k v d k' v' :
  NoDup (od_keys d) ->
  (k', v') ∈ od_set k v d <-> (k' = k /\ v' = v) \/ (k' <> k /\ (k', v') ∈ d).
Proof.
  intros Hd. rewrite !od_elem_of_iff, od_get_set by auto using od_set_NoDup.
  case_decide; [|tauto]. split; [intros [= ->]; auto|]. intros [[_ ->]|[? _]]; done.
Qed.

Lemma od_del_elem k d k' v' :
  NoDup (od_keys d) -> (k', v') ∈ od_del k d <-> k' <> k /\ (k', v') ∈ d.
Proof.
  intros Hd. rewrite !od_elem_of_iff, od_get_del by auto using od_del_NoDup.
  case_decide; [|tauto]. split; [done|]. intros [? _]; done.
Qed.

Lemma od_del_perm k v d : od_get k d = Some v -> d ≡ₚ (k, v) :: od_del k d.
Proof.
  induction d as [|[k0 v0] d IH]; csimpl; [done|].
  case_decide; intros; simplify_eq; [done|].
  trans ((k0, v0) :: (k, v) :: od_del k d); [constructor; auto|constructor].
Qed.

Lemma od_keys_del_perm k d : k ∈ od_keys d -> od_keys d ≡ₚ k :: od_keys (od_del k d).
Proof.
  intros [v Hv]%od_get_elem_of. apply od_del_perm in Hv. unfold od_keys.
  exact (fmap_Permutation fst _ _ Hv).
Qed.

Lemma od_remove_Ok k d : k ∈ od_keys d -> od_remove k d = Ok (od_del k d).
Proof. intros Hk%od_mem_true. unfold od_remove. by rewrite Hk. Qed.

Lemma od_move_to_end_Ok k v d :
  od_get k d = Some v -> od_move_to_end k d = Ok (od_del k d ++ [(k, v)]).
Proof. intros Hk. unfold od_move_to_end. by rewrite Hk. Qed.

Lemma od_keys_app d1 d2 : od_keys (d1 ++ d2) = od_keys d1 ++ od_keys d2.
Proof. apply fmap_app. Qed.
End odict.

(** A dict whose order does not matter is a [gmap]. *)
Definition map_remove `{Countable K} {V} (k : K) (m : gmap K V) : result (gmap K V) :=
  match m !! k with Some _ => Ok (delete k m) | None => Raise KeyError end.

Lemma list_to_map_od_get `{Countable K} {V} (d : list (K * V)) k :
  (list_to_map d : gmap K V) !! k = od_get k d.
Proof.
  induction d as [|[k0 v0] d IH]; csimpl; [apply lookup_empty|].
  case_decide; subst; [apply lookup_insert_eq|]. by rewrite lookup_insert_ne.
Qed.

(** * Sums over a map *)

Section msum.
Context `{Countable K} {A : Type}.
Implicit Types (m : gmap K A) (k : K) (x y : A) (f g : K -> A -> Z).

Definition msum f m : Z := map_fold (fun k x acc => f k x + acc) 0 m.

Lemma msum_empty f : msum f ∅ = 0.
Proof. apply map_fold_empty. Qed.

Lemma msum_fresh f m k x : m !! k = None -> msum f (<[k := x]> m) = f k x + msum f m.
Proof.
  intros Hk. unfold msum.
  by rewrite (map_fold_insert_L (fun k x acc => f k x + acc) 0 k x m) by (intros; lia || done).
Qed.

Lemma msum_delete f m k x : m !! k = Some x -> msum f (delete k m) = msum f m - f k x.
Proof.
  intros Hk. unfold msum.
  rewrite (map_fold_delete_L (fun k x acc => f k x + acc) 0 k x m) by (intros; lia || done). lia.
Qed.

Lemma msum_update f m k x y : m !! k = Some x -> msum f (<[k := y]> m) = msum f m - f k x + f k y.
Proof.
  intros Hk. rewrite <-insert_delete_eq, msum_fresh by apply lookup_delete_eq.
  rewrite (msum_delete f m k x Hk). lia.
Qed.

Lemma msum_nonneg f m : (forall k x, m !! k = Some x -> 0 <= f k x) -> 0 <= msum f m.
Proof.
  induction m as [|k x m Hk IH] using map_ind; [by rewrite msum_empty|]. intros Hf.
  rewrite msum_fresh by done. specialize (Hf k x (lookup_insert_eq _ _ _)) as Hx.
  assert (0 <= msum f m); [|lia]. apply IH. intros k' x' Hk'. apply Hf.
  rewrite lookup_insert_ne; [done|]. intros ->. congruence.
Qed.

Lemma msum_lookup f m k x :
  (forall k x, 0 <= f k x) -> m !! k = Some x -> f k x <= msum f m.
Proof.
  intros Hf Hk. pose proof (msum_delete f m k x Hk).
  pose proof (msum_nonneg f (delete k m) (fun k x _ => Hf k x)). lia.
Qed.

Lemma msum_ext f g m : (forall k x, m !! k = Some x -> f k x = g k x) -> msum f m = msum g m.
Proof.
  induction m as [|k x m Hk IH] using map_ind; [by rewrite !msum_empty|]. intros Hf.
  rewrite !msum_fresh by done. rewrite (Hf k x) by apply lookup_insert_eq. f_equal.
  apply IH. intros k' x' Hk'. apply Hf. rewrite lookup_insert_ne; [done|]. intros ->. congruence.
Qed.
End msum.

(** * Bytes *)

Abbreviation bytes := (list byte).

#[export] Instance byte_eq_dec : EqDecision byte := Byte.byte_eq_dec.
#[export] Program Instance byte_countable : Countable byte :=
  inj_countable Byte.to_N Byte.of_N Byte.of_to_N.

Definition byte_of_Z (z : Z) : byte :=
  match Byte.of_N (Z.to_N (z `mod` 256)) with Some b => b | None => x00 end.
Definition Z_of_byte (b : byte) : Z := Z.of_N (Byte.to_N b).

Lemma Z_of_byte_bounds b : 0 <= Z_of_byte b < 256.
Proof. unfold Z_of_byte. pose proof (Byte.to_N_bounded b). lia. Qed.

Lemma Z_of_byte_of_Z z : Z_of_byte (byte_of_Z z) = z `mod` 256.
Proof.
  unfold byte_of_Z, Z_of_byte.
  pose proof (Z.mod_pos_bound z 256 ltac:(lia)).
  destruct (Byte.of_N _) as [b|] eqn:E.
  - apply Byte.to_of_N in E. rewrite E. lia.
  - apply Byte.of_N_None_iff in E. lia.
Qed.

(** [int.from_bytes(bs, "big", signed=False)]. *)
Definition from_bytes_big (bs : bytes) : Z :=
  fold_left (fun acc b => acc * 256 + Z_of_byte b) bs 0.

(** [z.to_bytes(n, "big", signed=False)]: [OverflowError] for a negative [z]
    or one that needs more than [n] bytes. *)
Fixpoint big_endian (n : nat) (z : Z) : bytes :=
  match n with
  | O => []
  | S n' => big_endian n' (z / 256) ++ [byte_of_Z z]
  end.

Definition to_bytes_big (n : nat) (z : Z) : result bytes :=
  if (z <? 0) || (256 ^ Z.of_nat n <=? z) then Raise OverflowError
  else Ok (big_endian n z).

Lemma length_big_endian n z : length (big_endian n z) = n.
Proof. revert z. induction n; intros; simpl; [done|]. rewrite length_app, IHn. simpl. lia. Qed.

Lemma from_bytes_big_app bs b :
  from_bytes_big (bs ++ [b]) = from_bytes_big bs * 256 + Z_of_byte b.
Proof. unfold from_bytes_big. by rewrite fold_left_app. Qed.

Lemma from_big_endian n z :
  0 <= z < 256 ^ Z.of_nat n -> from_bytes_big (big_endian n z) = z.
Proof.
  revert z. induction n as [|n IH]; intros z Hz; simpl big_endian.
  - rewrite Z.pow_0_r in Hz. assert (z = 0) as -> by lia. done.
  - rewrite Nat2Z.inj_succ, Z.pow_succ_r in Hz by lia.
    rewrite from_bytes_big_app, IH, Z_of_byte_of_Z.
    + pose proof (Z.div_mod z 256 ltac:(lia)). lia.
    + split; [apply Z.div_pos; lia|]. apply Z.div_lt_upper_bound; lia.
Qed.

(** * Automation *)

(** Facts about the arithmetic helpers that [eauto with vllm] may use. *)
Create HintDb vllm discriminated.
#[export] Hint Resolve cdiv_nonneg cdiv_pos cdiv_mono : vllm.
#[export] Hint Resolve od_set_NoDup od_del_NoDup : vllm.
#[export] Hint Constructors NoDup : vllm.

(** Turn boolean comparisons in hypotheses and goal into propositions. *)
Ltac bools :=
  repeat match goal with
  | H : (_ && _) = true |- _ => apply andb_true_iff in H as [? ?]
  | H : (_ || _) = false |- _ => apply orb_false_iff in H as [? ?]
  | H : negb _ = true |- _ => apply negb_true_iff in H
  | H : negb _ = false |- _ => apply negb_false_iff in H
  | H : (_ <? _) = true |- _ => apply Z.ltb_lt in H
  | H : (_ <? _) = false |- _ => apply Z.ltb_ge in H
  | H : (_ <=? _) = true |- _ => apply Z.leb_le in H
  | H : (_ <=? _) = false |- _ => apply Z.leb_gt in H
  | H : (_ =? _) = true |- _ => apply Z.eqb_eq in H
  | H : (_ =? _) = false |- _ => apply Z.eqb_neq in H
  | H : bool_decide _ = true |- _ => apply bool_decide_eq_true in H
  | H : bool_decide _ = false |- _ => apply bool_decide_eq_false in H
  end.

(** Decompose a hypothesis saying that a monadic computation returned. *)
Ltac inv_result :=
  repeat match goal with
  | H : _ ≫= _ = Ok _ |- _ =>
      let H' := fresh H in
      apply bind_Ok_inv in H as (? & H' & H); simpl in H
  | H : assert_ _ = Ok _ |- _ => apply assert_Ok_inv in H
  | H : Raise _ = Ok _ |- _ => discriminate H
  | H : Ok _ = Ok _ |- _ => injection H as H; subst
  | H : or_raise _ ?o = Ok _ |- _ =>
      let E := fresh "E" in destruct o eqn:E; simpl in H
  end.

(** Case analysis on the first [match] or [if] of the goal. *)
Ltac case_goal :=
  match goal with
  | |- context [match ?x with _ => _ end] => destruct x eqn:?
  end.

(** Case analysis on the first decision of the goal only. *)
Ltac decide_goal :=
  match goal with
  | |- context [decide ?P] => destruct (decide P)
  end.
