(* ===== verification/Bisect.v ===== *)
(** Python's [bisect.bisect_left], on a list of keys. *)
From S2P Require Import Prelude.
Open Scope Z_scope.

(** [bisect.bisect_left] with a key, on the list of keys; the interval shrinks in
    every round. *)
Fixpoint bisect_loop (fuel : nat) (keys : list Z) (x : Z) (lo hi : nat) : result nat :=
  match fuel with
  | O => Raise Diverges
  | S fuel =>
      if (lo <? hi)%nat then
        let mid := ((lo + hi) / 2)%nat in
        k ← or_raise IndexError (keys !! mid);
        if k <? x then bisect_loop fuel keys x (S mid) hi else bisect_loop fuel keys x lo mid
      else Ok lo
  end.
Definition bisect_left (keys : list Z) (x : Z) : result Z :=
  i ← bisect_loop (S (length keys)) keys x 0 (length keys); Ok (Z.of_nat i).

(** Keys that do not decrease. *)
Definition ascending (keys : list Z) : Prop :=
  forall i j a b, (i <= j)%nat -> keys !! i = Some a -> keys !! j = Some b -> a <= b.

Lemma bisect_loop_Ok keys x fuel : ascending keys -> forall lo hi,
  (hi - lo < fuel)%nat -> (lo <= hi <= length keys)%nat ->
  (forall j k, (j < lo)%nat -> keys !! j = Some k -> k < x) ->
  (forall j k, (hi <= j)%nat -> keys !! j = Some k -> x <= k) ->
  exists i, bisect_loop fuel keys x lo hi = Ok i /\ (i <= length keys)%nat /\
    forall j k, keys !! j = Some k -> (j < i)%nat <-> k < x.
Proof.
  intros Hasc. induction fuel as [|fuel IH]; intros lo hi Hf Hb Hlo Hhi; [lia|]. cbn [bisect_loop].
  destruct (Nat.ltb_spec lo hi) as [Hlt|Hge].
  2: { exists lo. split; [done|]. split; [lia|]. intros j k Hj. split; [intros Hl; exact (Hlo j k Hl Hj)|].
       intros Hk. destruct (Nat.lt_ge_cases j lo) as [|Hge']; [done|]. specialize (Hhi j k ltac:(lia) Hj). lia. }
  set (mid := ((lo + hi) / 2)%nat).
  assert (lo <= mid < hi)%nat as Hmid.
  { unfold mid. split; [apply Nat.div_le_lower_bound; lia|apply Nat.Div0.div_lt_upper_bound; lia]. }
  destruct (lookup_lt_is_Some_2 keys mid) as [k Hk]; [lia|]. rewrite Hk. cbn [or_raise mbind result_bind].
  destruct (Z.ltb_spec k x) as [Hkx|Hkx]; apply IH; try lia.
  - intros j k' Hj Hk'. pose proof (Hasc j mid k' k ltac:(lia) Hk' Hk). lia.
  - done.
  - done.
  - intros j k' Hj Hk'. pose proof (Hasc mid j k k' ltac:(lia) Hk Hk'). lia.
Qed.

Lemma bisect_left_Ok keys x : ascending keys ->
  exists i, bisect_left keys x = Ok (Z.of_nat i) /\ (i <= length keys)%nat /\
    forall j k, keys !! j = Some k -> (j < i)%nat <-> k < x.
Proof.
  intros Hasc. unfold bisect_left.
  destruct (bisect_loop_Ok keys x (S (length keys)) Hasc 0 (length keys)) as (i & -> & Hi & Hs);
    [lia|lia|lia| |by exists i].
  intros j k Hj Hk. apply lookup_lt_Some in Hk. lia.
Qed.
