(* ===== verification/FreeQueue.v ===== *)
(** The doubly linked free list of KV-cache blocks:
    [KVCacheBlock] and [FreeKVCacheBlockQueue] of
    src/upstream/vllm/v1/core/kv_cache_utils.py.

    Blocks are mutable Python objects shared by the pool, the queue, the prefix
    cache and the request tables, so the model keeps a store ([heap]) of block
    records indexed by references and the links are references. The queue
    methods are translated statement by statement as writes to that store; the
    theorems relate the pointer structure to the list of free block ids. *)
From S2P Require Import Prelude.

(** * Block objects *)

(** A reference to a block object. [Blk i] is [self.blocks[i]], whose
    [block_id] is [i] from its construction on; the two fake nodes of the queue
    have [block_id = -1]. *)
Inductive bref :=
  | FakeHead
  | FakeTail
  | Blk (i : nat).

#[export] Instance bref_eq_dec : EqDecision bref.
Proof. solve_decision. Defined.

Definition block_id (r : bref) : Z :=
  match r with Blk i => Z.of_nat i | _ => -1 end.

(** The mutable fields of [KVCacheBlock]; [block_id] never changes. *)
Record KVCacheBlock := mkBlock {
  ref_cnt : Z;
  block_hash : option bytes;
  block_hash_num_tokens : option Z;
  prev_free_block : option bref;
  next_free_block : option bref;
  is_null : bool
}.

(** [KVCacheBlock(block_id)]. *)
Definition new_block : KVCacheBlock := mkBlock 0 None None None None false.

Definition heap := bref -> KVCacheBlock.

Definition heap_upd (h : heap) (r : bref) (f : KVCacheBlock -> KVCacheBlock) : heap :=
  fun r' => if decide (r' = r) then f (h r') else h r'.

Definition with_prev (p : option bref) (b : KVCacheBlock) : KVCacheBlock :=
  mkBlock (ref_cnt b) (block_hash b) (block_hash_num_tokens b) p
    (next_free_block b) (is_null b).
Definition with_next (n : option bref) (b : KVCacheBlock) : KVCacheBlock :=
  mkBlock (ref_cnt b) (block_hash b) (block_hash_num_tokens b)
    (prev_free_block b) n (is_null b).
Definition with_ref_cnt (c : Z) (b : KVCacheBlock) : KVCacheBlock :=
  mkBlock c (block_hash b) (block_hash_num_tokens b) (prev_free_block b)
    (next_free_block b) (is_null b).
Definition with_null (v : bool) (b : KVCacheBlock) : KVCacheBlock :=
  mkBlock (ref_cnt b) (block_hash b) (block_hash_num_tokens b)
    (prev_free_block b) (next_free_block b) v.
Definition with_hash (k : option bytes) (n : option Z) (b : KVCacheBlock) : KVCacheBlock :=
  mkBlock (ref_cnt b) k n (prev_free_block b) (next_free_block b) (is_null b).

Definition set_prev (r : bref) (p : option bref) (h : heap) : heap :=
  heap_upd h r (with_prev p).
Definition set_next (r : bref) (n : option bref) (h : heap) : heap :=
  heap_upd h r (with_next n).

(** [KVCacheBlock.set_block_hash]. *)
Definition set_block_hash (r : bref) (k : bytes) (num_tokens : option Z) (h : heap)
    : result heap :=
  match block_hash (h r), block_hash_num_tokens (h r) with
  | None, None => Ok (heap_upd h r (with_hash (Some k) num_tokens))
  | _, _ => Raise AssertionError
  end.

(** [KVCacheBlock.reset_hash]. *)
Definition reset_hash (r : bref) (h : heap) : heap :=
  heap_upd h r (with_hash None None).

(** * The queue *)

Record FreeQueue := mkQueue {
  qheap : heap;
  num_free_blocks : Z
}.

(** [FreeKVCacheBlockQueue.__init__] on [n] freshly made blocks; the body of
    its [for i in range(n)] loop first. *)
Definition init_step (n : nat) (h : heap) (i : nat) : heap :=
  let h := if (0 <? i)%nat then set_prev (Blk i) (Some (Blk (i - 1))) h else h in
  if (i <? n - 1)%nat then set_next (Blk i) (Some (Blk (i + 1))) h else h.

Definition init_links (n : nat) (h : heap) : heap :=
  fold_left (init_step n) (seq 0 n) h.

Definition queue_init (n : nat) : FreeQueue :=
  let h := init_links n (fun _ => new_block) in
  let h :=
    if (0 <? n)%nat then
      let h := set_next FakeHead (Some (Blk 0)) h in
      let h := set_prev (Blk 0) (Some FakeHead) h in
      let h := set_prev FakeTail (Some (Blk (n - 1))) h in
      set_next (Blk (n - 1)) (Some FakeTail) h
    else
      let h := set_next FakeHead (Some FakeTail) h in
      set_prev FakeTail (Some FakeHead) h in
  mkQueue h (Z.of_nat n).

(** [popleft]. *)
Definition popleft (q : FreeQueue) : result (bref * FreeQueue) :=
  let h := qheap q in
  match next_free_block (h FakeHead) with
  | None | Some FakeTail =>
      if num_free_blocks q =? 0 then Raise ValueError else Raise AssertionError
  | Some first_block =>
      match next_free_block (h first_block) with
      | None => Raise RuntimeError
      | Some second =>
          let h := set_next FakeHead (Some second) h in
          let h := set_prev second (Some FakeHead) h in
          let h := set_next first_block None (set_prev first_block None h) in
          Ok (first_block, mkQueue h (num_free_blocks q - 1))
      end
  end.

(** The [for _ in range(n)] loop of [popleft_n], on the store and [curr_block]. *)
Fixpoint pop_loop (n : nat) (curr : option bref) (h : heap)
    : result (list bref * option bref * heap) :=
  match n with
  | O => Ok ([], curr, h)
  | S n' =>
      match curr with
      | None => Raise AssertionError
      | Some last_block =>
          let curr := next_free_block (h last_block) in
          let h := set_next last_block None (set_prev last_block None h) in
          '(ret, curr, h) ← pop_loop n' curr h;
          Ok (last_block :: ret, curr, h)
      end
  end.

(** [popleft_n]. *)
Definition popleft_n (n : Z) (q : FreeQueue) : result (list bref * FreeQueue) :=
  if n =? 0 then Ok ([], q) else
  _ ← assert_ (n <=? num_free_blocks q);
  let num := num_free_blocks q - n in
  '(ret, curr, h) ← pop_loop (Z.to_nat n) (next_free_block (qheap q FakeHead)) (qheap q);
  match curr with
  | Some c =>
      let h := set_next FakeHead (Some c) h in
      Ok (ret, mkQueue (set_prev c (Some FakeHead) h) num)
  | None => Ok (ret, mkQueue h num)
  end.

(** [remove]. *)
Definition remove (block : bref) (q : FreeQueue) : result FreeQueue :=
  let h := qheap q in
  match prev_free_block (h block), next_free_block (h block) with
  | Some p, Some n =>
      let h := set_next p (Some n) h in
      let h := set_prev n (Some p) h in
      let h := set_next block None (set_prev block None h) in
      Ok (mkQueue h (num_free_blocks q - 1))
  | _, _ => Raise RuntimeError
  end.

(** [append]. *)
Definition append (block : bref) (q : FreeQueue) : result FreeQueue :=
  let h := qheap q in
  match prev_free_block (h FakeTail) with
  | None => Raise RuntimeError
  | Some last_block =>
      let h := set_next last_block (Some block) h in
      let h := set_prev block (Some last_block) h in
      let h := set_next block (Some FakeTail) h in
      let h := set_prev FakeTail (Some block) h in
      Ok (mkQueue h (num_free_blocks q + 1))
  end.

(** The body shared by the [for block in blocks] loops of [prepend_n] and
    [append_n]: link [block] after [last] and move on. *)
Definition link_after (h_last : heap * bref) (block : bref) : heap * bref :=
  let '(h, last) := h_last in
  let h := set_prev block (Some last) h in
  (set_next last (Some block) h, block).

(** [prepend_n]. *)
Definition prepend_n (blocks : list bref) (q : FreeQueue) : result FreeQueue :=
  match blocks with
  | [] => Ok q
  | _ =>
      match next_free_block (qheap q FakeHead) with
      | None => Raise AssertionError
      | Some first_block =>
          let '(h, prev_block) := fold_left link_after blocks (qheap q, FakeHead) in
          let h := set_next prev_block (Some first_block) h in
          let h := set_prev first_block (Some prev_block) h in
          Ok (mkQueue h (num_free_blocks q + zlen blocks))
      end
  end.

(** [append_n]. *)
Definition append_n (blocks : list bref) (q : FreeQueue) : result FreeQueue :=
  match blocks with
  | [] => Ok q
  | _ =>
      match prev_free_block (qheap q FakeTail) with
      | None => Raise AssertionError
      | Some last_block =>
          let '(h, last) := fold_left link_after blocks (qheap q, last_block) in
          let h := set_next last (Some FakeTail) h in
          let h := set_prev FakeTail (Some last) h in
          Ok (mkQueue h (num_free_blocks q + zlen blocks))
      end
  end.

(** The [while curr_block.next_free_block is not None] loop. *)
Fixpoint walk (fuel : nat) (h : heap) (curr : bref) : result (list bref) :=
  match fuel with
  | O => Raise Diverges
  | S fuel' =>
      match next_free_block (h curr) with
      | None => Ok []
      | Some n => rest ← walk fuel' h n; Ok (curr :: rest)
      end
  end.

(** [get_all_free_blocks]; one unit of fuel per counted block and one for the
    fake tail are enough on a well-formed queue. *)
Definition get_all_free_blocks (q : FreeQueue) : result (list bref) :=
  match next_free_block (qheap q FakeHead) with
  | None => Raise RuntimeError
  | Some curr => walk (S (Z.to_nat (num_free_blocks q))) (qheap q) curr
  end.

(** The generator loop of [iter_blocks_after], run to its end. *)
Fixpoint iter_from (fuel : nat) (h : heap) (curr : option bref) : result (list bref) :=
  match fuel with
  | O => Raise Diverges
  | S fuel' =>
      match curr with
      | None | Some FakeTail => Ok []
      | Some c => rest ← iter_from fuel' h (next_free_block (h c)); Ok (c :: rest)
      end
  end.

Definition iter_blocks_after (cursor : option bref) (q : FreeQueue) : result (list bref) :=
  let curr := match cursor with
    | None => next_free_block (qheap q FakeHead)
    | Some c => next_free_block (qheap q c)
    end in
  iter_from (S (Z.to_nat (num_free_blocks q))) (qheap q) curr.

(** * Chains of links *)

Abbreviation nx h r := (next_free_block (h r)).
Abbreviation pv h r := (prev_free_block (h r)).

Section links.
Implicit Types (h : heap) (p q r : bref) (rs : list bref).

Lemma nx_set_next h r n r' :
  nx (set_next r n h) r' = if decide (r' = r) then n else nx h r'.
Proof. unfold set_next, heap_upd. by case_decide. Qed.
Lemma nx_set_prev h r n r' : nx (set_prev r n h) r' = nx h r'.
Proof. unfold set_prev, heap_upd. by case_decide. Qed.
Lemma pv_set_prev h r n r' :
  pv (set_prev r n h) r' = if decide (r' = r) then n else pv h r'.
Proof. unfold set_prev, heap_upd. by case_decide. Qed.
Lemma pv_set_next h r n r' : pv (set_next r n h) r' = pv h r'.
Proof. unfold set_next, heap_upd. by case_decide. Qed.

(** [chain h p rs]: the nodes [p :: rs] are linked in both directions. *)
Fixpoint chain h p rs : Prop :=
  match rs with
  | [] => True
  | r :: rs' => nx h p = Some r /\ pv h r = Some p /\ chain h r rs'
  end.

Fixpoint last_of p rs : bref :=
  match rs with [] => p | r :: rs' => last_of r rs' end.

Lemma last_of_snoc p rs r : last_of p (rs ++ [r]) = r.
Proof. revert p. by induction rs; simpl. Qed.

Lemma last_of_elem p rs : last_of p rs ∈ p :: rs.
Proof.
  revert p. induction rs as [|r rs IH]; intros p; [by apply elem_of_cons; left|].
  simpl. apply elem_of_cons. by right.
Qed.

Lemma chain_app h p rs1 rs2 :
  chain h p (rs1 ++ rs2) <-> chain h p rs1 /\ chain h (last_of p rs1) rs2.
Proof.
  revert p. induction rs1 as [|r rs1 IH]; intros p.
  - simpl. tauto.
  - simpl. rewrite IH. tauto.
Qed.

Lemma chain_frame h h' p rs :
  NoDup (p :: rs) ->
  (forall r, r ∈ p :: rs -> r <> last_of p rs -> nx h' r = nx h r) ->
  (forall r, r ∈ rs -> pv h' r = pv h r) ->
  chain h p rs -> chain h' p rs.
Proof.
  revert p. induction rs as [|r rs IH]; intros p Hnd Hn Hp; [done|].
  apply NoDup_cons in Hnd as [Hpr Hnd]. simpl in *.
  intros (H1 & H2 & H3). split_and!.
  - rewrite Hn; [done|by apply elem_of_cons; left|].
    intros ->. apply Hpr, last_of_elem.
  - rewrite Hp; [done|]. apply elem_of_cons; by left.
  - apply IH; [done| | |done].
    + intros r' Hr' Hne. apply Hn; [apply elem_of_cons; by right|done].
    + intros r' Hr'. apply Hp. apply elem_of_cons; by right.
Qed.

(** Replacing the part of a chain between two nodes, the rest of the links
    being unchanged: every queue operation is an instance. *)
Lemma chain_replace h h' p l1 mid mid' n l2 :
  NoDup (p :: l1 ++ mid ++ n :: l2) ->
  chain h p (l1 ++ mid ++ n :: l2) ->
  chain h' (last_of p l1) (mid' ++ [n]) ->
  (forall r, r ∈ p :: l1 -> r <> last_of p l1 -> nx h' r = nx h r) ->
  (forall r, r ∈ l1 -> pv h' r = pv h r) ->
  (forall r, r ∈ n :: l2 -> nx h' r = nx h r) ->
  (forall r, r ∈ l2 -> pv h' r = pv h r) ->
  chain h' p (l1 ++ mid' ++ n :: l2).
Proof.
  intros Hnd Hc Hmid Hn1 Hp1 Hn2 Hp2.
  rewrite chain_app in Hc. destruct Hc as [Hc1 Hc2].
  rewrite (cons_middle n mid l2), app_assoc, chain_app, last_of_snoc in Hc2.
  destruct Hc2 as [_ Hc2].
  replace (mid' ++ n :: l2) with ((mid' ++ [n]) ++ l2) by (by rewrite <-app_assoc).
  rewrite !chain_app, last_of_snoc, <-chain_app.
  rewrite app_comm_cons in Hnd. apply NoDup_app in Hnd as (Hnd1 & _ & Hnd2).
  apply NoDup_app in Hnd2 as (_ & _ & Hnd2).
  split_and!.
  - by apply (chain_frame h).
  - done.
  - apply (chain_frame h); auto.
Qed.
End links.

(** * The queue represents a list of block ids *)

Abbreviation nodes xs := (Blk <$> xs).

Definition first_of (rs : list bref) (q : bref) : bref :=
  match rs with [] => q | r :: _ => r end.

Record queue_repr (q : FreeQueue) (xs : list nat) : Prop := {
  qr_chain : chain (qheap q) FakeHead (nodes xs ++ [FakeTail]);
  qr_nodup : NoDup xs;
  qr_count : num_free_blocks q = zlen xs;
  qr_tail : nx (qheap q) FakeTail = None;
  qr_head : pv (qheap q) FakeHead = None;
  qr_out : forall i, i ∉ xs ->
    nx (qheap q) (Blk i) = None /\ pv (qheap q) (Blk i) = None
}.

Lemma elem_of_nodes i (xs : list nat) : Blk i ∈ nodes xs <-> i ∈ xs.
Proof. rewrite list_elem_of_fmap. split; [by intros (?&[=->]&?)|eauto]. Qed.

Lemma head_not_node (xs : list nat) : FakeHead ∉ nodes xs.
Proof. rewrite list_elem_of_fmap. by intros (?&?&?). Qed.

Lemma tail_not_node (xs : list nat) : FakeTail ∉ nodes xs.
Proof. rewrite list_elem_of_fmap. by intros (?&?&?). Qed.

Lemma first_of_split rs q : exists l, rs ++ [q] = first_of rs q :: l.
Proof. destruct rs; simpl; eauto. Qed.

Lemma first_of_elem rs q : first_of rs q ∈ rs ++ [q].
Proof. destruct (first_of_split rs q) as [l ->]. apply elem_of_cons. by left. Qed.

Lemma chain_first h p rs q :
  chain h p (rs ++ [q]) -> nx h p = Some (first_of rs q) /\ pv h (first_of rs q) = Some p.
Proof. destruct (first_of_split rs q) as [l ->]. simpl. tauto. Qed.

Lemma chain_last h p rs q :
  chain h p (rs ++ [q]) -> nx h (last_of p rs) = Some q /\ pv h q = Some (last_of p rs).
Proof. rewrite chain_app. simpl. tauto. Qed.

Lemma nodes_NoDup xs : NoDup xs -> NoDup (FakeHead :: nodes xs ++ [FakeTail]).
Proof.
  intros Hnd. apply NoDup_cons. split.
  - rewrite elem_of_app, list_elem_of_singleton. intros [H|H]; [|done].
    by eapply head_not_node.
  - apply NoDup_app. split_and!; [|intros r Hr|apply NoDup_singleton].
    + apply NoDup_fmap_2; [|done]. by intros ?? [=].
    + rewrite list_elem_of_singleton. intros ->. by eapply tail_not_node.
Qed.

Lemma NoDup_split3 {A} (p : A) l1 l2 l3 :
  NoDup (p :: l1 ++ l2 ++ l3) ->
  (forall r, r ∈ p :: l1 -> r ∉ l2 /\ r ∉ l3) /\ (forall r, r ∈ l3 -> r ∉ l2) /\ NoDup l3.
Proof.
  rewrite app_comm_cons. rewrite !NoDup_app. intros (_ & H1 & _ & H2 & H3).
  split_and!; [|naive_solver|done].
  intros r Hr. apply H1 in Hr. rewrite elem_of_app in Hr. tauto.
Qed.

(** Replacing a segment [mid] of the represented list by [mid'] when the links
    were changed only there: every queue operation is an instance. *)
Lemma repr_replace q q' l1 mid mid' l2 :
  let a := last_of FakeHead (nodes l1) in
  let b := first_of (nodes l2) FakeTail in
  queue_repr q (l1 ++ mid ++ l2) ->
  NoDup (l1 ++ mid' ++ l2) ->
  num_free_blocks q' = zlen (l1 ++ mid' ++ l2) ->
  chain (qheap q') a (nodes mid' ++ [b]) ->
  (forall r, r <> a -> r ∉ nodes (mid ++ mid') -> nx (qheap q') r = nx (qheap q) r) ->
  (forall r, r <> b -> r ∉ nodes (mid ++ mid') -> pv (qheap q') r = pv (qheap q) r) ->
  (forall x, x ∈ mid -> x ∉ mid' ->
    nx (qheap q') (Blk x) = None /\ pv (qheap q') (Blk x) = None) ->
  queue_repr q' (l1 ++ mid' ++ l2).
Proof.
  intros a b [Hc Hnd Hcnt Ht Hh Ho] Hnd' Hcnt' Hc' Hn Hp Hmid.
  pose proof ((last_of_elem FakeHead (nodes l1)) : (a ∈ _)) as Ha.
  pose proof ((first_of_elem (nodes l2) FakeTail) : (b ∈ _)) as Hb.
  destruct (first_of_split (nodes l2) FakeTail) as [l2' El2]. fold b in El2.
  pose proof (nodes_NoDup _ Hnd) as Hall. pose proof (nodes_NoDup _ Hnd') as Hall'.
  rewrite !fmap_app, <-!app_assoc in Hc, Hall, Hall'.
  destruct (NoDup_split3 _ _ _ _ Hall) as (S1 & S2 & S3).
  destruct (NoDup_split3 _ _ _ _ Hall') as (S1' & S2' & _).
  setoid_rewrite fmap_app in Hn. setoid_rewrite fmap_app in Hp.
  setoid_rewrite elem_of_app in Hn. setoid_rewrite elem_of_app in Hp.
  assert (Hl1 : forall r, r ∈ FakeHead :: nodes l1 ->
      r <> b /\ ~ (r ∈ nodes mid \/ r ∈ nodes mid')).
  { intros r Hr. destruct (S1 _ Hr) as [? Hr2], (S1' _ Hr).
    split; [intros ->; done|tauto]. }
  assert (Hl2 : forall r, r ∈ nodes l2 ++ [FakeTail] ->
      r <> a /\ ~ (r ∈ nodes mid \/ r ∈ nodes mid')).
  { intros r Hr. pose proof (S2 _ Hr). pose proof (S2' _ Hr).
    split; [intros ->; by destruct (S1 _ Ha)|tauto]. }
  split; [|done|done| | |].
  - rewrite !fmap_app, <-!app_assoc, El2 in *.
    apply (chain_replace (qheap q) _ _ _ (nodes mid)); try done; intros r Hr.
    + intros ?. apply Hn; [done|]. by apply Hl1.
    + apply Hp; apply Hl1; apply elem_of_cons; by right.
    + apply Hn; by apply Hl2.
    + apply Hp; [intros ->; by apply NoDup_cons in S3 as [? _]|].
      apply Hl2, elem_of_cons; by right.
  - rewrite Hn; [done|..]; apply Hl2, elem_of_app; right; by apply list_elem_of_singleton.
  - rewrite Hp; [done|..]; apply Hl1, elem_of_cons; by left.
  - intros x Hx. rewrite !elem_of_app in Hx.
    destruct (decide (x ∈ mid)) as [Hm|Hm]; [apply Hmid; tauto|].
    assert (Blk x <> a) as Hxa.
    { intros Heq. rewrite <-Heq, elem_of_cons, elem_of_nodes in Ha.
      destruct Ha as [[=]|Ha]; tauto. }
    assert (Blk x <> b) as Hxb.
    { intros Heq. rewrite <-Heq, elem_of_app, elem_of_nodes, list_elem_of_singleton in Hb.
      destruct Hb as [Hb|[=]]; tauto. }
    rewrite Hn, Hp by (rewrite ?elem_of_nodes; tauto).
    apply Ho. rewrite !elem_of_app. tauto.
Qed.

(** The fields the queue never writes. Two stores that agree on them are
    [same_data]: the pool's facts about reference counts and hashes survive any
    queue operation. *)
Definition data (b : KVCacheBlock) :=
  (ref_cnt b, block_hash b, block_hash_num_tokens b, is_null b).

Definition same_data (h h' : heap) : Prop := forall r, data (h r) = data (h' r).

#[export] Instance same_data_equiv : Equivalence same_data.
Proof.
  split; [by intros h r|by intros h h' H r|].
  intros h1 h2 h3 H1 H2 r. by rewrite H1.
Qed.

#[export] Instance set_next_same r n : Proper (same_data ==> same_data) (set_next r n).
Proof. intros h h' H r'. unfold set_next, heap_upd. case_decide; apply H. Qed.

#[export] Instance set_prev_same r n : Proper (same_data ==> same_data) (set_prev r n).
Proof. intros h h' H r'. unfold set_prev, heap_upd. case_decide; apply H. Qed.

Lemma same_set_next r n h : same_data (set_next r n h) h.
Proof. intros r'. unfold set_next, heap_upd. by case_decide. Qed.

Lemma same_set_prev r n h : same_data (set_prev r n h) h.
Proof. intros r'. unfold set_prev, heap_upd. by case_decide. Qed.

Ltac same_links := repeat first [rewrite same_set_next | rewrite same_set_prev]; reflexivity.

(** Case analysis on the links read back after a sequence of writes. *)
Ltac links :=
  repeat first [rewrite nx_set_next | rewrite nx_set_prev
               | rewrite pv_set_prev | rewrite pv_set_next];
  repeat case_decide; simplify_eq; try done.

Lemma repr_next q xs :
  queue_repr q xs -> nx (qheap q) FakeHead = Some (first_of (nodes xs) FakeTail).
Proof. intros [Hc _ _ _ _ _]. by destruct (chain_first _ _ _ _ Hc). Qed.

Lemma repr_prev q xs :
  queue_repr q xs -> pv (qheap q) FakeTail = Some (last_of FakeHead (nodes xs)).
Proof. intros [Hc _ _ _ _ _]. by destruct (chain_last _ _ _ _ Hc). Qed.

(** The neighbours of a queued block. *)
Lemma repr_neighbours q l1 x l2 :
  queue_repr q (l1 ++ x :: l2) ->
  pv (qheap q) (Blk x) = Some (last_of FakeHead (nodes l1)) /\
  nx (qheap q) (Blk x) = Some (first_of (nodes l2) FakeTail).
Proof.
  intros [Hc _ _ _ _ _].
  rewrite fmap_app, fmap_cons, <-app_assoc, chain_app in Hc. destruct Hc as [_ Hc].
  simpl in Hc. destruct Hc as (_ & H & Hc). apply chain_first in Hc. tauto.
Qed.

Lemma last_of_not_mid p l1 (x : bref) : x <> p -> x ∉ l1 -> last_of p l1 <> x.
Proof.
  intros Hp Hx Heq. pose proof (last_of_elem p l1) as H. rewrite Heq in H.
  apply elem_of_cons in H as [?|?]; done.
Qed.

Lemma first_of_not_mid q l2 (x : bref) : x <> q -> x ∉ l2 -> first_of l2 q <> x.
Proof.
  intros Hp Hx Heq. pose proof (first_of_elem l2 q) as H. rewrite Heq in H.
  apply elem_of_app in H as [?|?%list_elem_of_singleton]; done.
Qed.

Lemma remove_repr q l1 x l2 :
  queue_repr q (l1 ++ x :: l2) ->
  exists q', remove (Blk x) q = Ok q' /\ queue_repr q' (l1 ++ l2) /\
    same_data (qheap q') (qheap q).
Proof.
  intros Hq. destruct (repr_neighbours _ _ _ _ Hq) as [Hp Hn].
  unfold remove. rewrite Hp, Hn. eexists; split_and!; [done| |].
  2: { simpl. same_links. }
  pose proof (qr_nodup _ _ Hq) as Hnd. pose proof (qr_count _ _ Hq) as Hcnt.
  apply NoDup_app in Hnd as (Hd1 & Hd & [Hx Hd2]%NoDup_cons).
  assert (x ∉ l1) as Hx1 by (intros H%Hd; by apply not_elem_of_cons in H as [? _]).
  assert (last_of FakeHead (nodes l1) <> Blk x) as Ha.
  { apply last_of_not_mid; [done|]. by rewrite elem_of_nodes. }
  assert (first_of (nodes l2) FakeTail <> Blk x) as Hb.
  { apply first_of_not_mid; [done|]. by rewrite elem_of_nodes. }
  refine (repr_replace q _ l1 [x] [] l2 Hq _ _ _ _ _ _); simpl.
  - apply NoDup_app. split_and!; [done| |done]. intros y Hy%Hd.
    by apply not_elem_of_cons in Hy as [_ ?].
  - rewrite Hcnt, !length_app. simpl. lia.
  - split_and!; [links..|done].
  - intros r Hr Hr'. assert (r <> Blk x) by set_solver. links.
  - intros r Hr Hr'. assert (r <> Blk x) by set_solver. links.
  - intros y ->%list_elem_of_singleton _. split; links.
Qed.

Lemma remove_absent q xs x :
  queue_repr q xs -> x ∉ xs -> remove (Blk x) q = Raise RuntimeError.
Proof.
  intros Hq Hx. destruct (qr_out _ _ Hq x Hx) as [Hn Hp].
  unfold remove. by rewrite Hp.
Qed.

(** On a non-empty queue [popleft] writes exactly what [remove] of the first
    block writes. *)
Lemma popleft_remove q x xs :
  queue_repr q (x :: xs) ->
  exists q', popleft q = Ok (Blk x, q') /\ remove (Blk x) q = Ok q'.
Proof.
  intros Hq. destruct (repr_neighbours q [] x xs Hq) as [Hp Hn].
  pose proof (repr_next _ _ Hq) as Hf. simpl in Hf.
  unfold popleft, remove. rewrite Hf, Hn, Hp. eauto.
Qed.

(** ** [popleft_n] *)

Definition clear_all (rs : list bref) (h : heap) : heap :=
  fold_left (fun h r => set_next r None (set_prev r None h)) rs h.

Lemma nx_clear_all rs h r :
  nx (clear_all rs h) r = if decide (r ∈ rs) then None else nx h r.
Proof.
  revert h. induction rs as [|r0 rs IH]; intros h; [done|]. simpl. rewrite IH.
  destruct (decide (r ∈ rs)) as [Hr|Hr].
  - by rewrite decide_True by (apply elem_of_cons; tauto).
  - links; set_solver.
Qed.

Lemma pv_clear_all rs h r :
  pv (clear_all rs h) r = if decide (r ∈ rs) then None else pv h r.
Proof.
  revert h. induction rs as [|r0 rs IH]; intros h; [done|]. simpl. rewrite IH.
  destruct (decide (r ∈ rs)) as [Hr|Hr].
  - by rewrite decide_True by (apply elem_of_cons; tauto).
  - links; set_solver.
Qed.

Lemma same_clear_all rs h : same_data (clear_all rs h) h.
Proof.
  revert h. induction rs as [|r rs IH]; intros h; [done|]. simpl. rewrite IH. same_links.
Qed.

Lemma pop_loop_spec h0 p q rs1 rs2 h :
  NoDup rs1 -> chain h0 p (rs1 ++ rs2 ++ [q]) ->
  (forall r, r ∈ rs1 -> nx h r = nx h0 r) ->
  pop_loop (length rs1) (Some (first_of (rs1 ++ rs2) q)) h =
    Ok (rs1, Some (first_of rs2 q), clear_all rs1 h).
Proof.
  revert p h. induction rs1 as [|r rs1 IH]; intros p h Hnd Hc Heq; [done|].
  apply NoDup_cons in Hnd as [Hr Hnd]. destruct Hc as (_ & _ & Hc). simpl.
  assert (nx h r = Some (first_of (rs1 ++ rs2) q)) as ->.
  { rewrite Heq by (apply elem_of_cons; by left). rewrite app_assoc in Hc.
    by apply chain_first in Hc as [? _]. }
  rewrite (IH r); [done..|]. intros r' Hr'. links.
  apply Heq, elem_of_cons. by right.
Qed.

Lemma popleft_n_repr q l1 l2 :
  queue_repr q (l1 ++ l2) ->
  exists q', popleft_n (zlen l1) q = Ok (nodes l1, q') /\ queue_repr q' l2 /\
    same_data (qheap q') (qheap q).
Proof.
  intros Hq. destruct (decide (l1 = [])) as [->|Hne0]; [by exists q|].
  assert (zlen l1 <> 0) as Hne by (destruct l1; simpl in *; [done|lia]).
  pose proof (qr_chain _ _ Hq) as Hc. pose proof (qr_nodup _ _ Hq) as Hnd.
  pose proof (qr_count _ _ Hq) as Hcnt. pose proof (repr_next _ _ Hq) as Hf.
  rewrite fmap_app in Hc, Hf. rewrite <-app_assoc in Hc. rewrite length_app in Hcnt.
  apply NoDup_app in Hnd as (Hnd1 & Hd & Hnd2).
  unfold popleft_n. rewrite (proj2 (Z.eqb_neq _ _) Hne).
  rewrite assert_true by (apply Z.leb_le; lia). simpl.
  rewrite Nat2Z.id, Hf. rewrite <-(length_fmap Blk l1).
  rewrite (pop_loop_spec (qheap q) FakeHead); [|by apply NoDup_fmap_2; [intros ?? [=]|]|done..].
  simpl. eexists; split_and!; [done| |simpl; rewrite same_set_prev, same_set_next; apply same_clear_all].
  assert (forall r, r ∈ nodes l1 -> first_of (nodes l2) FakeTail <> r) as Hb.
  { intros r (y & -> & Hy)%list_elem_of_fmap. apply first_of_not_mid; [done|].
    rewrite elem_of_nodes. by apply Hd. }
  refine (repr_replace q _ [] l1 [] l2 Hq _ _ _ _ _ _); simpl; try done.
  - rewrite Hcnt. rewrite length_fmap. lia.
  - split_and!; [links..|done].
  - rewrite app_nil_r. intros r Hr Hr'. links. rewrite nx_clear_all. by rewrite decide_False.
  - rewrite app_nil_r. intros r Hr Hr'. links. rewrite pv_clear_all. by rewrite decide_False.
  - intros y Hy _. apply elem_of_nodes in Hy.
    split; links; try (by destruct (Hb _ Hy));
      rewrite ?nx_clear_all, ?pv_clear_all; by rewrite decide_True.
Qed.

(** ** [append], [append_n] and [prepend_n] *)

Lemma link_after_fold bs h p h' l :
  NoDup (p :: bs) ->
  fold_left link_after bs (h, p) = (h', l) ->
  l = last_of p bs /\ chain h' p bs /\ same_data h' h /\
  (forall r, r <> p -> r ∉ bs -> nx h' r = nx h r) /\
  (forall r, r ∉ bs -> pv h' r = pv h r).
Proof.
  revert h p. induction bs as [|b bs IH]; intros h p Hnd Hf; simpl in Hf.
  { simplify_eq. done. }
  apply NoDup_cons in Hnd as [Hp Hnd]. pose proof Hnd as [Hb _]%NoDup_cons.
  apply not_elem_of_cons in Hp as [Hpb Hp].
  destruct (IH _ _ Hnd Hf) as (-> & Hc & Hsame & Hn & Hv). split_and!; simpl.
  - done.
  - split_and!; [rewrite Hn by done|rewrite Hv by done|done]; links.
  - rewrite Hsame. same_links.
  - intros r Hr Hr'. apply not_elem_of_cons in Hr' as [? ?].
    destruct (decide (r = b)) as [->|]; [done|]. rewrite Hn by done. links.
  - intros r Hr'. apply not_elem_of_cons in Hr' as [? ?]. rewrite Hv by done. links.
Qed.

Lemma chain_close h a bs b :
  NoDup (a :: bs) -> b ∉ bs -> chain h a bs ->
  let l := last_of a bs in
  chain (set_prev b (Some l) (set_next l (Some b) h)) a (bs ++ [b]).
Proof.
  intros Hnd Hb Hc l. rewrite chain_app. split.
  - apply (chain_frame h); [done|intros; by links| |done]. intros r Hr. links.
  - simpl. split_and!; [links..|done].
Qed.

Lemma nodes_NoDup_cons p (bs : list nat) :
  p ∉ nodes bs -> NoDup bs -> NoDup (p :: nodes bs).
Proof.
  intros Hp Hnd. apply NoDup_cons. split; [done|].
  apply NoDup_fmap_2; [by intros ?? [=]|done].
Qed.

(** Splicing [bs] between the neighbours [a] and [b] of a queue position. *)
Lemma splice_repr q l1 l2 bs h l num :
  let a := last_of FakeHead (nodes l1) in
  let b := first_of (nodes l2) FakeTail in
  queue_repr q (l1 ++ l2) ->
  NoDup (l1 ++ bs ++ l2) ->
  fold_left link_after (nodes bs) (qheap q, a) = (h, l) ->
  num = num_free_blocks q + zlen bs ->
  let h' := set_prev b (Some l) (set_next l (Some b) h) in
  queue_repr (mkQueue h' num) (l1 ++ bs ++ l2) /\ same_data h' (qheap q).
Proof.
  intros a b Hq Hnd Hf -> h'.
  pose proof Hnd as (_ & Hd & (Hdb & Hd2 & _)%NoDup_app)%NoDup_app.
  assert (a ∉ nodes bs) as Ha.
  { intros (x & Hax & Hx)%list_elem_of_fmap. revert Hax. apply last_of_not_mid; [done|].
    rewrite elem_of_nodes. intros Hx'. apply (Hd x Hx'), elem_of_app. by left. }
  assert (b ∉ nodes bs) as Hb.
  { intros (x & Hax & Hx)%list_elem_of_fmap. revert Hax. apply first_of_not_mid; [done|].
    rewrite elem_of_nodes. by apply Hd2. }
  pose proof (nodes_NoDup_cons _ _ Ha Hdb) as Hab.
  destruct (link_after_fold _ _ _ _ _ Hab Hf) as (-> & Hc & Hsame & Hn & Hv).
  split; [|unfold h'; by rewrite same_set_prev, same_set_next].
  pose proof (last_of_elem a (nodes bs)) as Hl. rewrite elem_of_cons in Hl.
  refine (repr_replace q _ l1 [] bs l2 Hq Hnd _ _ _ _ _); simpl.
  - rewrite (qr_count _ _ Hq), !length_app. lia.
  - by apply chain_close.
  - intros r Hr Hr'. unfold h'. links; [|by apply Hn].
    exfalso. destruct Hl as [Hl|Hl]; [by apply Hr|by apply Hr'].
  - intros r Hr Hr'. unfold h'. links. by apply Hv.
  - intros x Hx. by apply not_elem_of_nil in Hx.
Qed.

Lemma append_n_repr q xs bs :
  queue_repr q xs -> NoDup (xs ++ bs) ->
  exists q', append_n (nodes bs) q = Ok q' /\ queue_repr q' (xs ++ bs) /\
    same_data (qheap q') (qheap q).
Proof.
  intros Hq Hnd. destruct (decide (bs = [])) as [->|Hne].
  { exists q. by rewrite app_nil_r. }
  unfold append_n. rewrite (repr_prev _ _ Hq), length_fmap.
  destruct (fold_left _ _ _) as [h l] eqn:Hf.
  rewrite <-(app_nil_r xs) in Hq at 1. rewrite <-(app_nil_r bs) in Hnd at 1.
  destruct (splice_repr q xs [] bs h l _ Hq Hnd Hf eq_refl) as [Hq' Hs].
  rewrite app_nil_r in Hq'. destruct bs as [|b bs]; [done|]. simpl. eauto.
Qed.

Lemma prepend_n_repr q xs bs :
  queue_repr q xs -> NoDup (bs ++ xs) ->
  exists q', prepend_n (nodes bs) q = Ok q' /\ queue_repr q' (bs ++ xs) /\
    same_data (qheap q') (qheap q).
Proof.
  intros Hq Hnd. destruct (decide (bs = [])) as [->|Hne]; [by exists q|].
  unfold prepend_n. rewrite (repr_next _ _ Hq), length_fmap.
  destruct (fold_left _ _ _) as [h l] eqn:Hf.
  destruct (splice_repr q [] xs bs h l _ Hq Hnd Hf eq_refl) as [Hq' Hs].
  destruct bs as [|b bs]; [done|]. simpl. eauto.
Qed.

Lemma append_repr q xs x :
  queue_repr q xs -> x ∉ xs ->
  exists q', append (Blk x) q = Ok q' /\ queue_repr q' (xs ++ [x]) /\
    same_data (qheap q') (qheap q).
Proof.
  intros Hq Hx. unfold append. rewrite (repr_prev _ _ Hq).
  eexists. split_and!; [done| |simpl; same_links].
  assert (last_of FakeHead (nodes xs) <> Blk x) as Ha.
  { apply last_of_not_mid; [done|]. by rewrite elem_of_nodes. }
  assert (NoDup (xs ++ [x] ++ [])) as Hnd.
  { rewrite NoDup_app. split_and!; [by apply Hq| |apply NoDup_singleton].
    intros y Hy ->%list_elem_of_singleton. done. }
  rewrite <-(app_nil_r xs) in Hq at 1.
  refine (repr_replace q _ xs [] [x] [] Hq Hnd _ _ _ _ _); simpl.
  - rewrite (qr_count _ _ Hq), !length_app. simpl. lia.
  - split_and!; [links..|done].
  - intros r Hr Hr'. apply not_elem_of_cons in Hr' as [? _]. links.
  - intros r Hr Hr'. apply not_elem_of_cons in Hr' as [? _]. links.
  - intros y Hy. by apply not_elem_of_nil in Hy.
Qed.

(** ** Construction and traversal *)

Lemma walk_chain h p xs fuel :
  chain h p (xs ++ [FakeTail]) -> nx h FakeTail = None ->
  (length xs < fuel)%nat ->
  walk fuel h (first_of xs FakeTail) = Ok xs.
Proof.
  revert p fuel. induction xs as [|x xs IH]; intros p fuel Hc Ht Hf;
    (destruct fuel as [|fuel]; [simpl in Hf; lia|]); simpl.
  - by rewrite Ht.
  - destruct Hc as (_ & _ & Hc). pose proof (chain_first _ _ _ _ Hc) as [-> _].
    rewrite (IH x); [done..|]. simpl in Hf. lia.
Qed.

Lemma iter_from_chain h p xs fuel :
  chain h p (xs ++ [FakeTail]) -> FakeTail ∉ xs ->
  (length xs < fuel)%nat ->
  iter_from fuel h (Some (first_of xs FakeTail)) = Ok xs.
Proof.
  revert p fuel. induction xs as [|x xs IH]; intros p fuel Hc Ht Hf;
    (destruct fuel as [|fuel]; [simpl in Hf; lia|]); simpl; [done|].
  destruct Hc as (_ & _ & Hc). pose proof (chain_first _ _ _ _ Hc) as [-> _].
  apply not_elem_of_cons in Ht as [Hx Ht].
  rewrite (IH x); [by destruct x|done..|]. simpl in Hf. lia.
Qed.

Lemma init_links_spec n k :
  (k <= n)%nat ->
  let h := fold_left (init_step n) (seq 0 k) (fun _ => new_block) in
  (forall r, nx h r = match r with
     | Blk i => if decide (i < k /\ i < n - 1)%nat then Some (Blk (i + 1)) else None
     | _ => None end) /\
  (forall r, pv h r = match r with
     | Blk i => if decide (0 < i < k)%nat then Some (Blk (i - 1)) else None
     | _ => None end) /\
  same_data h (fun _ => new_block).
Proof.
  induction k as [|k IH]; intros Hk.
  - simpl. split_and!; [intros [| |i]; try done; by rewrite decide_False by lia..|done].
  - rewrite seq_S, fold_left_app. simpl.
    destruct IH as (Hn & Hp & Hs); [lia|]. revert Hn Hp Hs.
    generalize (fold_left (init_step n) (seq 0 k) (fun _ => new_block)) as h.
    intros h Hn Hp Hs. unfold init_step.
    split_and!.
    1-2: intros [| |i]; [| |destruct (decide (i = k)) as [->|]];
      destruct (Nat.ltb_spec 0 k), (Nat.ltb_spec k (n - 1)); links;
      rewrite ?Hn, ?Hp; repeat case_decide; try done; lia.
    destruct (Nat.ltb_spec 0 k), (Nat.ltb_spec k (n - 1));
      rewrite ?same_set_next, ?same_set_prev; done.
Qed.

Lemma chain_seq h s m :
  (forall i, (s <= i < s + m)%nat ->
     nx h (Blk i) = Some (Blk (i + 1)) /\ pv h (Blk (i + 1)) = Some (Blk i)) ->
  chain h (Blk s) (nodes (seq (S s) m)).
Proof.
  revert s. induction m as [|m IH]; intros s H; [done|]. simpl.
  destruct (H s) as [H1 H2]; [lia|]. rewrite Nat.add_1_r in H1, H2.
  split_and!; [done..|]. apply IH. intros i Hi. apply H. lia.
Qed.

Lemma last_of_seq s m : last_of (Blk s) (nodes (seq (S s) m)) = Blk (s + m).
Proof.
  revert s. induction m as [|m IH]; intros s; simpl; [f_equal; lia|].
  rewrite IH. f_equal. lia.
Qed.

Lemma queue_init_repr n : queue_repr (queue_init n) (seq 0 n).
Proof.
  destruct (init_links_spec n n (le_n n)) as (Hn & Hp & _). unfold queue_init, init_links.
  revert Hn Hp. generalize (fold_left (init_step n) (seq 0 n) (fun _ => new_block)) as h.
  intros h Hn Hp.
  split; simpl; [|apply NoDup_seq|by rewrite length_seq| | |].
  2-3: destruct n; simpl; links; by rewrite ?Hn, ?Hp.
  2: { intros i Hi. rewrite elem_of_seq in Hi. destruct n as [|n]; simpl;
       split; links; rewrite ?Hn, ?Hp; rewrite ?decide_False; try done; lia. }
  destruct n as [|n]; simpl; [split_and!; [links..|done]|].
  rewrite Nat.sub_0_r.
  split_and!; [links..|]. rewrite chain_app, last_of_seq. simpl. split.
  - apply chain_seq. intros i Hi. rewrite Nat.add_0_l in Hi.
    split; links; rewrite ?Hn, ?Hp; repeat case_decide; try lia; do 2 f_equal; lia.
  - split_and!; [links..|done].
Qed.

Lemma queue_init_data n : same_data (qheap (queue_init n)) (fun _ => new_block).
Proof.
  destruct (init_links_spec n n (le_n n)) as (_ & _ & Hs). unfold queue_init, init_links.
  destruct (0 <? n)%nat; simpl;
    repeat first [rewrite same_set_next | rewrite same_set_prev]; exact Hs.
Qed.

(** * Writes that leave the links alone *)

Definition same_shape (h h' : heap) : Prop := forall r, nx h r = nx h' r /\ pv h r = pv h' r.

Lemma queue_repr_same_shape q xs h :
  queue_repr q xs -> same_shape h (qheap q) -> queue_repr (mkQueue h (num_free_blocks q)) xs.
Proof.
  intros [Hc Hnd Hcnt Ht Hh Hout] Hs. split; simpl; [|done|done|..].
  - revert Hc. generalize (nodes xs ++ [FakeTail]) as rs, FakeHead as p.
    induction rs as [|r rs IH]; intros p; simpl; [done|].
    intros (? & ? & ?). destruct (Hs p) as [-> _], (Hs r) as [_ ->]. auto.
  - by rewrite (proj1 (Hs _)).
  - by rewrite (proj2 (Hs _)).
  - intros i Hi. rewrite (proj1 (Hs _)), (proj2 (Hs _)). auto.
Qed.

Lemma heap_upd_lookup h r f r' :
  heap_upd h r f r' = if decide (r' = r) then f (h r') else h r'.
Proof. done. Qed.

Lemma heap_upd_eq h r f : heap_upd h r f r = f (h r).
Proof. unfold heap_upd. by rewrite decide_True. Qed.

Lemma heap_upd_ne h r f r' : r' <> r -> heap_upd h r f r' = h r'.
Proof. intros. unfold heap_upd. by rewrite decide_False. Qed.

Lemma same_shape_upd h r f :
  (forall b, next_free_block (f b) = next_free_block b /\ prev_free_block (f b) = prev_free_block b) ->
  same_shape (heap_upd h r f) h.
Proof. intros Hf r'. unfold heap_upd. case_decide; [apply Hf|done]. Qed.

(** The fields of one block, from [same_data]. *)
Lemma same_data_fields h h' r :
  same_data h h' ->
  ref_cnt (h r) = ref_cnt (h' r) /\ block_hash (h r) = block_hash (h' r) /\
  block_hash_num_tokens (h r) = block_hash_num_tokens (h' r) /\ is_null (h r) = is_null (h' r).
Proof. intros Hs. specialize (Hs r). unfold data in Hs. by injection Hs. Qed.

(** * Refinement of an abstract deque

    What the queue promises its only client, the block pool: the operations
    below on a list of block ids, errors included. [legal] is the caller's side
    of the contract (a block is appended only when it is not queued, and a
    count is not negative). *)
Inductive queue_op :=
  | PopLeft
  | PopLeftN (n : Z)
  | Remove (i : nat)
  | Append (i : nat)
  | AppendN (ids : list nat)
  | PrependN (ids : list nat).

Definition spec_op (op : queue_op) (xs : list nat) : result (list nat * list nat) :=
  match op with
  | PopLeft =>
      match xs with [] => Raise ValueError | x :: xs' => Ok ([x], xs') end
  | PopLeftN n =>
      if n <=? zlen xs then Ok (take (Z.to_nat n) xs, drop (Z.to_nat n) xs)
      else Raise AssertionError
  | Remove i =>
      if decide (i ∈ xs) then Ok ([], filter (fun j => j <> i) xs) else Raise RuntimeError
  | Append i => Ok ([], xs ++ [i])
  | AppendN ids => Ok ([], xs ++ ids)
  | PrependN ids => Ok ([], ids ++ xs)
  end.

Definition legal (op : queue_op) (xs : list nat) : Prop :=
  match op with
  | PopLeftN n => 0 <= n
  | Append i => i ∉ xs
  | AppendN ids | PrependN ids => NoDup ids /\ Forall (fun i => i ∉ xs) ids
  | _ => True
  end.

Definition run_op (op : queue_op) (q : FreeQueue) : result (list bref * FreeQueue) :=
  match op with
  | PopLeft => '(b, q) ← popleft q; Ok ([b], q)
  | PopLeftN n => popleft_n n q
  | Remove i => q ← remove (Blk i) q; Ok ([], q)
  | Append i => q ← append (Blk i) q; Ok ([], q)
  | AppendN ids => q ← append_n (nodes ids) q; Ok ([], q)
  | PrependN ids => q ← prepend_n (nodes ids) q; Ok ([], q)
  end.

Fixpoint spec_run (ops : list queue_op) (xs : list nat)
    : result (list (list nat) * list nat) :=
  match ops with
  | [] => Ok ([], xs)
  | op :: ops => '(out, xs) ← spec_op op xs; '(outs, xs) ← spec_run ops xs; Ok (out :: outs, xs)
  end.

Fixpoint run_ops (ops : list queue_op) (q : FreeQueue)
    : result (list (list bref) * FreeQueue) :=
  match ops with
  | [] => Ok ([], q)
  | op :: ops => '(out, q) ← run_op op q; '(outs, q) ← run_ops ops q; Ok (out :: outs, q)
  end.

(** Every operation of the trace is legal in the state it is run in. *)
Fixpoint legal_trace (ops : list queue_op) (xs : list nat) : Prop :=
  match ops with
  | [] => True
  | op :: ops => legal op xs /\
      match spec_op op xs with Ok (_, xs') => legal_trace ops xs' | Raise _ => True end
  end.

#[export] Instance legal_dec op xs : Decision (legal op xs).
Proof. destruct op; simpl; apply _. Defined.

#[export] Instance legal_trace_dec ops xs : Decision (legal_trace ops xs).
Proof.
  revert xs. induction ops as [|op ops IH]; intros xs; simpl; [apply _|].
  destruct (spec_op op xs) as [[??]|?]; apply _.
Defined.

Lemma filter_split (l1 : list nat) x l2 :
  NoDup (l1 ++ x :: l2) -> filter (fun j => j <> x) (l1 ++ x :: l2) = l1 ++ l2.
Proof.
  intros (_ & Hd & [Hx _]%NoDup_cons)%NoDup_app.
  rewrite filter_app, filter_cons_False by naive_solver.
  assert (forall l : list nat, x ∉ l -> filter (fun j => j <> x) l = l) as Hf.
  { intros l. induction l as [|y l IH]; [done|]. intros [? ?]%not_elem_of_cons.
    rewrite filter_cons_True, IH; done || congruence. }
  f_equal; apply Hf; [|done]. intros Hx1. apply (Hd _ Hx1), elem_of_cons. by left.
Qed.

Lemma run_op_refines op q xs :
  queue_repr q xs -> legal op xs ->
  match spec_op op xs with
  | Ok (out, xs') => exists q', run_op op q = Ok (nodes out, q') /\ queue_repr q' xs'
  | Raise e => run_op op q = Raise e
  end.
Proof.
  intros Hq Hl. destruct op as [|n|i|i|ids|ids]; simpl in *.
  - destruct xs as [|x xs].
    + unfold popleft. rewrite (repr_next _ _ Hq), (qr_count _ _ Hq). done.
    + destruct (popleft_remove _ _ _ Hq) as (q' & -> & Hr).
      destruct (remove_repr q [] x xs Hq) as (q'' & Hr' & Hq'' & _).
      rewrite Hr in Hr'. injection Hr' as <-. simpl. eauto.
  - destruct (Z.leb_spec n (zlen xs)) as [Hn|Hn].
    + rewrite <-(take_drop (Z.to_nat n) xs) in Hq.
      destruct (popleft_n_repr _ _ _ Hq) as (q' & Hp & Hq' & _).
      rewrite length_take, Nat.min_l, Z2Nat.id in Hp by lia. eauto.
    + unfold popleft_n. rewrite (qr_count _ _ Hq).
      rewrite (proj2 (Z.eqb_neq n 0)) by lia. by rewrite (proj2 (Z.leb_gt _ _)) by lia.
  - case_decide as Hi; [|by rewrite (remove_absent _ _ _ Hq Hi)].
    apply list_elem_of_split in Hi as (l1 & l2 & ->).
    rewrite filter_split by apply Hq.
    destruct (remove_repr _ _ _ _ Hq) as (q' & -> & Hq' & _). simpl. eauto.
  - destruct (append_repr _ _ _ Hq Hl) as (q' & -> & Hq' & _). simpl. eauto.
  - destruct Hl as [Hnd Hd]. destruct (append_n_repr _ xs ids Hq) as (q' & -> & Hq' & _).
    + rewrite Forall_forall in Hd. apply NoDup_app. split_and!; [apply Hq|firstorder|done].
    + simpl. eauto.
  - destruct Hl as [Hnd Hd]. rewrite Forall_forall in Hd. destruct (prepend_n_repr _ xs ids Hq) as (q' & -> & Hq' & _).
    + apply NoDup_app. split_and!; [done|done|apply Hq].
    + simpl. eauto.
Qed.

Lemma run_ops_refines ops q xs :
  queue_repr q xs -> legal_trace ops xs ->
  match spec_run ops xs with
  | Ok (outs, xs') =>
      exists q', run_ops ops q = Ok (map (map Blk) outs, q') /\ queue_repr q' xs'
  | Raise e => run_ops ops q = Raise e
  end.
Proof.
  revert q xs. induction ops as [|op ops IH]; intros q xs Hq Hl; simpl; [eauto|].
  destruct Hl as [Hl Hls]. pose proof (run_op_refines _ _ _ Hq Hl) as H.
  destruct (spec_op op xs) as [[out xs']|e]; simpl; [|by rewrite H].
  destruct H as (q' & -> & Hq'). simpl. specialize (IH _ _ Hq' Hls).
  destruct (spec_run ops xs') as [[outs xs'']|e]; simpl; [|by rewrite IH].
  destruct IH as (q'' & -> & Hq''). simpl. eauto.
Qed.

Lemma get_all_free_blocks_repr q xs :
  queue_repr q xs -> get_all_free_blocks q = Ok (nodes xs).
Proof.
  intros Hq. unfold get_all_free_blocks. rewrite (repr_next _ _ Hq).
  apply (walk_chain _ FakeHead); [by apply Hq..|].
  rewrite length_fmap, (qr_count _ _ Hq). lia.
Qed.

(** C32: the linked free list built by [__init__] over [n] blocks behaves, for
    every legal sequence of pops, removals, appends and prepends, as the list
    [0, ..., n-1] transformed by the same operations: it returns the same
    blocks, raises the same exceptions, and [get_all_free_blocks] then
    enumerates exactly the abstract list in eviction order. *)
Theorem queue_simulates_deque (n : nat) (ops : list queue_op)
    (Hlegal : legal_trace ops (seq 0 n)) :
  match spec_run ops (seq 0 n) with
  | Ok (outs, xs) => exists q,
      run_ops ops (queue_init n) = Ok (map (map Blk) outs, q) /\
      queue_repr q xs /\ get_all_free_blocks q = Ok (nodes xs)
  | Raise e => run_ops ops (queue_init n) = Raise e
  end.
Proof.
  pose proof (run_ops_refines ops _ _ (queue_init_repr n) Hlegal) as H.
  destruct (spec_run ops (seq 0 n)) as [[outs xs]|e]; [|done].
  destruct H as (q & Hr & Hq). exists q. split_and!; [done..|].
  by apply get_all_free_blocks_repr.
Qed.

Definition demo_ops : list queue_op :=
  [PopLeft; PopLeftN 2; Remove 4; Append 1; PrependN [0%nat; 4%nat]; AppendN [2%nat]].

Lemma queue_simulates_deque_witness :
  exists q, run_ops demo_ops (queue_init 6) =
      Ok ([[Blk 0]; [Blk 1; Blk 2]; []; []; []; []], q) /\
    queue_repr q [0; 4; 3; 5; 1; 2]%nat /\
    get_all_free_blocks q = Ok (nodes [0; 4; 3; 5; 1; 2]%nat).
Proof.
  apply (queue_simulates_deque 6 demo_ops).
  apply (bool_decide_unpack _). vm_compute. exact I.
Defined.

(** Iterating after a queued block yields the blocks behind it in eviction
    order, and iterating without a cursor yields the whole queue; the loop
    always ends. *)
Theorem iter_blocks_after_spec (q : FreeQueue) (l1 : list nat) (x : nat) (l2 : list nat)
    (Hq : queue_repr q (l1 ++ x :: l2)) :
  iter_blocks_after (Some (Blk x)) q = Ok (nodes l2) /\
  iter_blocks_after None q = Ok (nodes (l1 ++ x :: l2)).
Proof.
  unfold iter_blocks_after. rewrite (repr_next _ _ Hq).
  destruct (repr_neighbours _ _ _ _ Hq) as [_ ->].
  pose proof (qr_count _ _ Hq) as Hc. split.
  - apply (iter_from_chain _ (Blk x)); [|apply tail_not_node|].
    + destruct Hq as [Hch _ _ _ _ _].
      rewrite fmap_app, fmap_cons, <-app_assoc, chain_app in Hch. by apply Hch.
    + rewrite Hc, length_fmap, length_app. simpl. lia.
  - apply (iter_from_chain _ FakeHead); [apply Hq|apply tail_not_node|].
    rewrite Hc, length_fmap. lia.
Qed.

Lemma iter_blocks_after_spec_witness :
  iter_blocks_after (Some (Blk 1)) (queue_init 4) = Ok (nodes [2; 3]%nat) /\
  iter_blocks_after None (queue_init 4) = Ok (nodes [0; 1; 2; 3]%nat).
Proof. apply (iter_blocks_after_spec (queue_init 4) [0%nat] 1 [2; 3]%nat (queue_init_repr 4)). Defined.
