(* ===== verification/Request.v ===== *)
(** A request and its life cycle: [Request] and [RequestStatus] of
    src/upstream/vllm/v1/request.py and the stop conditions of
    src/upstream/vllm/v1/core/sched/utils.py.

    A [Request] object is a record passed through the operations that mutate
    it. Fields that none of the modelled code reads (trace headers, metrics,
    connector parameters, streaming queue) are left out. *)
From S2P Require Import Prelude.
From Stdlib Require Import QArith.Qcanon Structures.OrdersEx.
Open Scope Z_scope.

(** * Statuses *)

(** [RequestStatus], an [IntEnum] numbered by [enum.auto()] from 1. *)
Inductive RequestStatus :=
  | WAITING
  | WAITING_FOR_STRUCTURED_OUTPUT_GRAMMAR
  | WAITING_FOR_REMOTE_KVS
  | WAITING_FOR_STREAMING_REQ
  | RUNNING
  | PREEMPTED
  | FINISHED_STOPPED
  | FINISHED_LENGTH_CAPPED
  | FINISHED_ABORTED
  | FINISHED_IGNORED
  | FINISHED_ERROR
  | FINISHED_REPETITION.

#[export] Instance status_eq_dec : EqDecision RequestStatus.
Proof. solve_decision. Defined.

Definition status_value (s : RequestStatus) : Z :=
  match s with
  | WAITING => 1
  | WAITING_FOR_STRUCTURED_OUTPUT_GRAMMAR => 2
  | WAITING_FOR_REMOTE_KVS => 3
  | WAITING_FOR_STREAMING_REQ => 4
  | RUNNING => 5
  | PREEMPTED => 6
  | FINISHED_STOPPED => 7
  | FINISHED_LENGTH_CAPPED => 8
  | FINISHED_ABORTED => 9
  | FINISHED_IGNORED => 10
  | FINISHED_ERROR => 11
  | FINISHED_REPETITION => 12
  end.

(** [RequestStatus.is_finished]: [status > RequestStatus.PREEMPTED]. *)
Definition status_is_finished (s : RequestStatus) : bool :=
  status_value PREEMPTED <? status_value s.

Inductive FinishReason := STOP | LENGTH | ABORT | ERROR | REPETITION.

(** [_FINISHED_REASON_MAP.get(status)]. *)
Definition get_finished_reason (s : RequestStatus) : option FinishReason :=
  match s with
  | FINISHED_STOPPED => Some STOP
  | FINISHED_LENGTH_CAPPED => Some LENGTH
  | FINISHED_ABORTED => Some ABORT
  | FINISHED_IGNORED => Some LENGTH
  | FINISHED_ERROR => Some ERROR
  | WAITING_FOR_STREAMING_REQ => Some STOP
  | FINISHED_REPETITION => Some REPETITION
  | _ => None
  end.

(** * Data *)

Record RepetitionDetectionParams := mkRepetition {
  max_pattern_size : Z;
  min_pattern_size : Z;
  min_count : Z
}.

(** The fields of [SamplingParams] the modelled code reads;
    [structured_outputs] says whether [StructuredOutputRequest.from_sampling_params]
    returns an object. *)
Record SamplingParams := mkSampling {
  sp_max_tokens : option Z;
  min_tokens : Z;
  eos_token_id : option Z;
  stop_token_ids : option (list Z);
  repetition_detection : option RepetitionDetectionParams;
  sp_skip_reading_prefix_cache : option bool;
  structured_outputs : bool
}.

Record PoolingParams := mkPooling {
  pp_skip_reading_prefix_cache : option bool
}.

Record LoRARequest := mkLoRA {
  lora_name : string;
  lora_int_id : Z
}.

(** [PlaceholderRange]: [is_embed] is the boolean mask, when there is one. *)
Record PlaceholderRange := mkRange {
  offset : Z;
  plength : Z;
  is_embed : option (list bool)
}.

(** [PlaceholderRange.get_num_embeds]: the last entry of the cumulative sum of
    the mask, 0 for an empty mask. *)
Definition get_num_embeds (p : PlaceholderRange) : Z :=
  match is_embed p with
  | None => plength p
  | Some mask => zlen (filter (fun b : bool => b = true) mask)
  end.

Record MultiModalFeatureSpec := mkFeature {
  identifier : option string;
  mm_position : PlaceholderRange
}.

(** [stop_reason] is [int | str | None]. *)
Inductive StopReason := StopToken (t : Z) | StopString (s : string).

Record Request := mkRequest {
  request_id : string;
  priority : Z;
  arrival_time : Qc;
  py_id : Z;                       (** [id(self)], the object's identity *)
  status : RequestStatus;
  stop_reason : option StopReason;
  sampling_params : option SamplingParams;
  pooling_params : option PoolingParams;
  lora_request : option LoRARequest;
  max_tokens : Z;
  prompt_embeds : option (list bytes);      (** one row of raw bytes per token *)
  embeds_memo : gmap (Z * Z) bytes;          (** [_prompt_embeds_per_block_hashes] *)
  num_prompt_tokens : Z;
  output_token_ids : list Z;
  all_token_ids : list Z;
  spec_token_ids : list Z;
  num_computed_tokens : Z;
  num_in_flight_tokens : Z;
  cache_salt : option string;
  mm_features : list MultiModalFeatureSpec;
  shared_prefix_boundary : Z;
  num_preemptions : Z;
  block_hashes : list bytes;
  skip_reading_prefix_cache : bool
}.

(** Assignments to one field (or to the two token lists together). *)
Definition with_status (s : RequestStatus) (sr : option StopReason) (r : Request) : Request :=
  mkRequest (request_id r) (priority r) (arrival_time r) (py_id r) s sr
    (sampling_params r) (pooling_params r) (lora_request r) (max_tokens r)
    (prompt_embeds r) (embeds_memo r) (num_prompt_tokens r) (output_token_ids r)
    (all_token_ids r) (spec_token_ids r) (num_computed_tokens r)
    (num_in_flight_tokens r) (cache_salt r) (mm_features r)
    (shared_prefix_boundary r) (num_preemptions r) (block_hashes r)
    (skip_reading_prefix_cache r).
Definition with_tokens (out all : list Z) (r : Request) : Request :=
  mkRequest (request_id r) (priority r) (arrival_time r) (py_id r) (status r)
    (stop_reason r) (sampling_params r) (pooling_params r) (lora_request r)
    (max_tokens r) (prompt_embeds r) (embeds_memo r) (num_prompt_tokens r) out
    all (spec_token_ids r) (num_computed_tokens r) (num_in_flight_tokens r)
    (cache_salt r) (mm_features r) (shared_prefix_boundary r) (num_preemptions r)
    (block_hashes r) (skip_reading_prefix_cache r).
Definition with_memo (m : gmap (Z * Z) bytes) (r : Request) : Request :=
  mkRequest (request_id r) (priority r) (arrival_time r) (py_id r) (status r)
    (stop_reason r) (sampling_params r) (pooling_params r) (lora_request r)
    (max_tokens r) (prompt_embeds r) m (num_prompt_tokens r) (output_token_ids r)
    (all_token_ids r) (spec_token_ids r) (num_computed_tokens r)
    (num_in_flight_tokens r) (cache_salt r) (mm_features r)
    (shared_prefix_boundary r) (num_preemptions r) (block_hashes r)
    (skip_reading_prefix_cache r).
Definition with_block_hashes (hs : list bytes) (r : Request) : Request :=
  mkRequest (request_id r) (priority r) (arrival_time r) (py_id r) (status r)
    (stop_reason r) (sampling_params r) (pooling_params r) (lora_request r)
    (max_tokens r) (prompt_embeds r) (embeds_memo r) (num_prompt_tokens r)
    (output_token_ids r) (all_token_ids r) (spec_token_ids r)
    (num_computed_tokens r) (num_in_flight_tokens r) (cache_salt r)
    (mm_features r) (shared_prefix_boundary r) (num_preemptions r) hs
    (skip_reading_prefix_cache r).

(** * Accessors *)

Definition num_tokens (r : Request) : Z := zlen (all_token_ids r).
Definition num_tokens_with_spec (r : Request) : Z :=
  zlen (all_token_ids r) + zlen (spec_token_ids r).
Definition num_output_tokens (r : Request) : Z := zlen (output_token_ids r).
Definition num_encoder_inputs (r : Request) : Z := zlen (mm_features r).
Definition has_encoder_inputs (r : Request) : bool := 0 <? num_encoder_inputs r.
Definition is_finished (r : Request) : bool := status_is_finished (status r).

(** [get_num_encoder_embeds]. *)
Definition get_num_encoder_embeds (r : Request) (input_id : Z) : result Z :=
  _ ← assert_ (input_id <? zlen (mm_features r));
  f ← py_index (mm_features r) input_id;
  Ok (get_num_embeds (mm_position f)).

(** [get_skip_reading_prefix_cache]. *)
Definition get_skip_reading_prefix_cache (sp : option SamplingParams)
    (pp : option PoolingParams) : bool :=
  match sp ≫= sp_skip_reading_prefix_cache with
  | Some b => b
  | None =>
      match pp ≫= pp_skip_reading_prefix_cache with Some b => b | None => false end
  end.

(** [vllm.utils.length_from_prompt_token_ids_or_embeds]. *)
Definition length_from_prompt_token_ids_or_embeds
    (ids : option (list Z)) (embeds : option (list bytes)) : result Z :=
  match ids, embeds with
  | None, None => Raise ValueError
  | None, Some e => Ok (zlen e)
  | Some t, None => Ok (zlen t)
  | Some t, Some e => if zlen e =? zlen t then Ok (zlen t) else Raise ValueError
  end.

(** [Request.__lt__]: Python compares strings by code points, as [String.ltb]. *)
Definition request_lt (a b : Request) : bool :=
  if bool_decide (priority a <> priority b) then priority a <? priority b
  else if bool_decide (arrival_time a <> arrival_time b) then
    bool_decide (Qclt (arrival_time a) (arrival_time b))
  else if bool_decide (request_id a <> request_id b) then
    String.ltb (request_id a) (request_id b)
  else py_id a <? py_id b.

(** * Hashing hook *)

(** A block hasher maps a request to the hashes of its new full blocks; it also
    updates the request's memo of embedding digests. *)
Definition block_hasher := Request -> result (list bytes * Request).

(** [update_block_hashes]. *)
Definition update_block_hashes (h : option block_hasher) (r : Request) : result Request :=
  match h with
  | None => Ok r
  | Some hash => '(hs, r) ← hash r; Ok (with_block_hashes (block_hashes r ++ hs) r)
  end.

(** [append_output_token_ids] (an [int] argument is the one-element list). *)
Definition append_output_token_ids (h : option block_hasher) (ts : list Z) (r : Request)
    : result Request :=
  update_block_hashes h
    (with_tokens (output_token_ids r ++ ts) (all_token_ids r ++ ts) r).

(** [Request.__init__]. *)
Definition request_init (rid : string) (prompt_token_ids : option (list Z))
    (sp : option SamplingParams) (pp : option PoolingParams) (arrival : Qc) (pyid : Z)
    (embeds : option (list bytes)) (mm : option (list MultiModalFeatureSpec))
    (lora : option LoRARequest) (salt : option string) (prio : Z)
    (h : option block_hasher) : result Request :=
  '(mt, st) ←
    match pp, sp with
    | Some _, _ => Ok (1, WAITING)
    | None, Some p =>
        match sp_max_tokens p with
        | None => Raise AssertionError
        | Some m =>
            Ok (m, if structured_outputs p
                   then WAITING_FOR_STRUCTURED_OUTPUT_GRAMMAR else WAITING)
        end
    | None, None => Raise ValueError
    end;
  n ← length_from_prompt_token_ids_or_embeds prompt_token_ids embeds;
  let all := match prompt_token_ids with
    | Some t => t
    | None => replicate (Z.to_nat n) 0
    end in
  update_block_hashes h
    (mkRequest rid prio arrival pyid st None sp pp lora mt embeds ∅ n [] all [] 0 0
       salt (default [] mm) 0 0 [] (get_skip_reading_prefix_cache sp pp)).

(** * Stop conditions: src/upstream/vllm/v1/core/sched/utils.py *)

(** [all(body(i) for i in xs)] where the body may raise: the [for] loops of
    [_has_repeating_pattern] that [return False] at the first failing test. *)
Fixpoint all_ok {A} (f : A -> result bool) (xs : list A) : result bool :=
  match xs with
  | [] => Ok true
  | x :: xs' => b ← f x; if (b : bool) then all_ok f xs' else Ok false
  end.

(** [_has_repeating_pattern]. *)
Definition has_repeating_pattern (token_ids : list Z) (pattern_len min_cnt : Z)
    : result bool :=
  all_ok (fun n =>
    target_token ← py_index token_ids (- n);
    all_ok (fun m =>
      t ← py_index token_ids (- (pattern_len * m + n));
      Ok (bool_decide (t = target_token)))
      (py_range 1 min_cnt))
    (py_range 1 (pattern_len + 1)).

(** The [for pattern_len in range(...)] loop of [check_sequence_repetition]. *)
Fixpoint repetition_loop (token_ids : list Z) (min_cnt : Z) (lens : list Z) : result bool :=
  match lens with
  | [] => Ok false
  | pattern_len :: lens' =>
      if zlen token_ids <? pattern_len * min_cnt then Ok false else
      b ← has_repeating_pattern token_ids pattern_len min_cnt;
      if (b : bool) then Ok true else repetition_loop token_ids min_cnt lens'
  end.

(** [check_sequence_repetition]. *)
Definition check_sequence_repetition (token_ids : list Z)
    (params : RepetitionDetectionParams) : result bool :=
  let maxp := max_pattern_size params in
  let minp := if min_pattern_size params <=? 0 then 1 else min_pattern_size params in
  let cnt := min_count params in
  if (maxp <=? 0) || (cnt <? 2) || (maxp <? minp) then Ok false
  else repetition_loop token_ids cnt (py_range minp (maxp + 1)).

(** [remove_all]: the items are a set, given as a duplicate-free list; with one
    item only its first occurrence goes ([list.remove], a miss is suppressed). *)
Definition remove_all {A} `{EqDecision A} (lst items : list A) : list A :=
  match items with
  | [] => lst
  | [item] =>
      (fix remove_first l := match l with
        | [] => []
        | x :: l' => if decide (x = item) then l' else x :: remove_first l'
        end) lst
  | _ => filter (fun x => x ∉ items) lst
  end.

(** [check_stop]: whether the request stopped, and the request with its status
    and stop reason updated. *)
Definition check_stop (r : Request) (max_model_len : Z) : result (bool * Request) :=
  _ ← assert_ (bool_decide (pooling_params r = None));
  match sampling_params r with
  | None => Raise AssertionError
  | Some sp =>
      if num_output_tokens r <? min_tokens sp then Ok (false, r) else
      last_token_id ← py_index (output_token_ids r) (-1);
      if bool_decide (Some last_token_id = eos_token_id sp) then
        Ok (true, with_status FINISHED_STOPPED (stop_reason r) r)
      else if bool_decide (last_token_id ∈ default [] (stop_token_ids sp)) then
        Ok (true, with_status FINISHED_STOPPED (Some (StopToken last_token_id)) r)
      else if (max_model_len <=? num_tokens r) || (max_tokens r <=? num_output_tokens r) then
        Ok (true, with_status FINISHED_LENGTH_CAPPED (stop_reason r) r)
      else
        match repetition_detection sp with
        | None => Ok (false, r)
        | Some params =>
            rep ← check_sequence_repetition (output_token_ids r) params;
            if (rep : bool) then
              Ok (true, with_status FINISHED_REPETITION
                          (Some (StopString "repetition_detected")) r)
            else Ok (false, r)
        end
  end.

(** [Scheduler._update_request_with_output]
    (src/upstream/vllm/v1/core/sched/scheduler.py): append the sampled tokens
    one by one, stop at the first that ends the request and drop the rest.
    Returns the kept tokens, whether the request stopped, and the request. *)
Fixpoint output_loop (h : option block_hasher) (max_model_len : Z)
    (new_token_ids : list Z) (r : Request) : result (list Z * bool * Request) :=
  match new_token_ids with
  | [] => Ok ([], false, r)
  | t :: ts =>
      r ← append_output_token_ids h [t] r;
      '(stopped, r) ← check_stop r max_model_len;
      if (stopped : bool) then Ok ([t], true, r) else
      '(kept, stopped, r) ← output_loop h max_model_len ts r;
      Ok (t :: kept, stopped, r)
  end.

Definition update_request_with_output (h : option block_hasher) (max_model_len : Z)
    (r : Request) (new_token_ids : list Z) : result (list Z * bool * Request) :=
  output_loop h max_model_len new_token_ids r.

(** * Repetition detection *)

Lemma all_ok_forallb {A} (f : A -> result bool) (g : A -> bool) xs :
  (forall x, x ∈ xs -> f x = Ok (g x)) -> all_ok f xs = Ok (forallb g xs).
Proof.
  induction xs as [|x xs IH]; intros Hf; [done|]. simpl.
  rewrite (Hf x) by set_solver. simpl. destruct (g x); [|done].
  apply IH. set_solver.
Qed.

(** The last [k * cnt] tokens are [cnt] copies of one pattern of length [k]. *)
Definition tail_repeats (ts : list Z) (k cnt : Z) : Prop :=
  exists pre pat, ts = pre ++ concat (replicate (Z.to_nat cnt) pat) /\ zlen pat = k.

Lemma concat_replicate_lookup {A} (pat : list A) c m n :
  (m < c)%nat -> (n < length pat)%nat ->
  concat (replicate c pat) !! (length pat * m + n)%nat = pat !! n.
Proof.
  revert m. induction c as [|c IH]; intros m Hm Hn; [lia|]. simpl.
  destruct m as [|m].
  - rewrite Nat.mul_0_r. simpl. by rewrite lookup_app_l by lia.
  - rewrite lookup_app_r by lia.
    replace (length pat * S m + n - length pat)%nat with (length pat * m + n)%nat by lia.
    apply IH; lia.
Qed.

Lemma length_concat_replicate {A} (pat : list A) c :
  length (concat (replicate c pat)) = (c * length pat)%nat.
Proof. induction c; simpl; [done|]. rewrite length_app. lia. Qed.

(** A list whose first [c] blocks of [k] entries agree starts with [c] copies
    of its first block. *)
Lemma periodic_prefix {A} (l : list A) k c :
  (k * c <= length l)%nat ->
  (forall m n, (m < c)%nat -> (n < k)%nat -> l !! (k * m + n)%nat = l !! n) ->
  l = concat (replicate c (take k l)) ++ drop (k * c) l.
Proof.
  intros Hlen Hper.
  assert (forall m, (m <= c)%nat -> take (k * m) l = concat (replicate m (take k l))) as H.
  { induction m as [|m IH]; intros Hm; [by rewrite Nat.mul_0_r|].
    rewrite replicate_S_end, concat_app. simpl. rewrite app_nil_r, <-IH by lia.
    replace (k * S m)%nat with (k * m + k)%nat by lia.
    rewrite <-take_take_drop. f_equal. apply list_eq. intros n.
    destruct (decide (n < k)%nat).
    - rewrite !lookup_take_lt, lookup_drop by lia. apply Hper; lia.
    - by rewrite !lookup_take_ge by lia. }
  rewrite <-H by done. by rewrite take_drop.
Qed.

Lemma py_index_neg {A} (l : list A) i :
  0 < i <= zlen l ->
  py_index l (- i) = or_raise IndexError (reverse l !! Z.to_nat (i - 1)).
Proof.
  intros Hi. unfold py_index. destruct (Z.ltb_spec (- i) 0); [|lia].
  destruct (Z.ltb_spec (- i + zlen l) 0); [lia|].
  rewrite reverse_lookup by lia. do 2 f_equal. lia.
Qed.

Lemma has_repeating_pattern_spec ts k cnt :
  1 <= k -> 1 <= cnt -> k * cnt <= zlen ts ->
  exists b, has_repeating_pattern ts k cnt = Ok b /\ (b = true <-> tail_repeats ts k cnt).
Proof.
  intros Hk Hc Hlen. set (l := reverse ts).
  assert (length l = length ts) as Hl by apply length_reverse.
  set (same := fun n m : Z => bool_decide
    (l !! Z.to_nat (k * m + n - 1) = l !! Z.to_nat (n - 1))).
  exists (forallb (fun n => forallb (same n) (py_range 1 cnt)) (py_range 1 (k + 1))).
  split.
  - unfold has_repeating_pattern. apply all_ok_forallb. intros n Hn%elem_of_py_range.
    rewrite py_index_neg by nia. fold l.
    destruct (lookup_lt_is_Some_2 l (Z.to_nat (n - 1))) as [x Hx]; [nia|].
    rewrite Hx. simpl. apply all_ok_forallb. intros m Hm%elem_of_py_range.
    rewrite py_index_neg by nia. fold l.
    destruct (lookup_lt_is_Some_2 l (Z.to_nat (k * m + n - 1))) as [y Hy]; [nia|].
    unfold same. rewrite Hx, Hy. simpl. f_equal. apply bool_decide_ext. naive_solver.
  - assert (forallb (fun n => forallb (same n) (py_range 1 cnt)) (py_range 1 (k + 1)) = true
      <-> forall m n, (m < Z.to_nat cnt)%nat -> (n < Z.to_nat k)%nat ->
          l !! (Z.to_nat k * m + n)%nat = l !! n) as ->.
    { rewrite forallb_forall. setoid_rewrite forallb_forall.
      setoid_rewrite <-list_elem_of_In. setoid_rewrite elem_of_py_range. split.
      - intros H m n Hm Hn. destruct m as [|m]; [by rewrite Nat.mul_0_r|].
        specialize (H (Z.of_nat n + 1) ltac:(lia) (Z.of_nat (S m)) ltac:(lia)).
        apply bool_decide_eq_true in H.
        replace (Z.to_nat k * S m + n)%nat
          with (Z.to_nat (k * Z.of_nat (S m) + (Z.of_nat n + 1) - 1)) by nia.
        rewrite H. f_equal. lia.
      - intros H n Hn m Hm. apply bool_decide_eq_true.
        rewrite <-(H (Z.to_nat m) (Z.to_nat (n - 1))) by lia. f_equal. nia. }
    split.
    + intros Hper. apply periodic_prefix in Hper; [|nia].
      exists (reverse (drop (Z.to_nat k * Z.to_nat cnt) l)), (reverse (take (Z.to_nat k) l)).
      split; [|rewrite length_reverse, length_take; nia].
      rewrite <-(reverse_involutive ts). fold l. rewrite Hper at 1.
      rewrite reverse_app. f_equal.
      clear Hper. generalize (take (Z.to_nat k) l) as p. intros p.
      induction (Z.to_nat cnt) as [|c IH]; [done|].
      rewrite replicate_S_end at 1. rewrite concat_app. simpl.
      by rewrite app_nil_r, reverse_app, IH.
    + intros (pre & pat & Hts & Hpat) m n Hm Hn.
      assert (length pat = Z.to_nat k) as Hp by lia.
      pose proof (f_equal length Hts) as Hlts.
      rewrite length_app, length_concat_replicate in Hlts.
      unfold l. rewrite !reverse_lookup by nia.
      rewrite Hts, !lookup_app_r by (rewrite ?length_app, ?length_concat_replicate; nia).
      rewrite !length_app, length_concat_replicate.
      trans (pat !! (Z.to_nat k - 1 - n)%nat); [|symmetry].
      * rewrite <-(concat_replicate_lookup pat (Z.to_nat cnt) (Z.to_nat cnt - 1 - m)) by lia.
        f_equal. nia.
      * rewrite <-(concat_replicate_lookup pat (Z.to_nat cnt) (Z.to_nat cnt - 1)) by lia.
        f_equal. nia.
Qed.

Lemma tail_repeats_length ts k cnt : 0 <= cnt -> tail_repeats ts k cnt -> k * cnt <= zlen ts.
Proof.
  intros Hc (pre & pat & -> & <-). rewrite length_app, length_concat_replicate. nia.
Qed.

Lemma repetition_loop_spec ts cnt a b :
  1 <= a -> 2 <= cnt ->
  exists r, repetition_loop ts cnt (py_range a b) = Ok r /\
    (r = true <-> exists k, a <= k < b /\ tail_repeats ts k cnt).
Proof.
  intros Ha Hc. remember (Z.to_nat (b - a)) as n eqn:Hn. revert a Ha Hn.
  induction n as [|n IH]; intros a Ha Hn.
  - rewrite py_range_nil by lia. exists false. split; [done|].
    split; [done|]. intros (k & ? & _). lia.
  - rewrite py_range_cons by lia. simpl.
    destruct (Z.ltb_spec (zlen ts) (a * cnt)) as [Hs|Hs].
    + exists false. split; [done|]. split; [done|].
      intros (k & Hk & Hrep%tail_repeats_length); nia.
    + destruct (has_repeating_pattern_spec ts a cnt) as (r & -> & Hr); [lia..|].
      simpl. destruct r.
      * exists true. split; [done|]. split; [|done]. intros _. exists a. split; [lia|tauto].
      * destruct (IH (a + 1)) as (r & -> & Hr'); [lia..|].
        exists r. split; [done|]. rewrite Hr'. split; intros (k & Hk & Hrep).
        { exists k. split; [lia|done]. }
        exists k. split; [|done]. destruct (decide (k = a)) as [->|]; [|lia].
        apply Hr in Hrep. done.
Qed.

(** What [check_sequence_repetition] is asked to find. *)
Definition repetitive (ts : list Z) (p : RepetitionDetectionParams) : Prop :=
  2 <= min_count p /\
  exists k, Z.max 1 (min_pattern_size p) <= k <= max_pattern_size p /\
    tail_repeats ts k (min_count p).

Lemma check_sequence_repetition_Ok ts p :
  exists b, check_sequence_repetition ts p = Ok b /\ (b = true <-> repetitive ts p).
Proof.
  unfold check_sequence_repetition, repetitive.
  destruct p as [maxp minp cnt]; simpl.
  set (lo := if minp <=? 0 then 1 else minp).
  assert (lo = Z.max 1 minp) as Hlo by (unfold lo; destruct (Z.leb_spec minp 0); lia).
  destruct ((maxp <=? 0) || (cnt <? 2) || (maxp <? lo)) eqn:Hg.
  - exists false. split; [done|]. split; [done|]. intros (Hc & k & Hk & _).
    rewrite !orb_true_iff, Z.leb_le, !Z.ltb_lt in Hg. lia.
  - bools. destruct (repetition_loop_spec ts cnt lo (maxp + 1)) as (b & -> & Hb); [lia..|].
    exists b. split; [done|]. rewrite Hb. split.
    + intros (k & Hk & Hr). split; [lia|]. exists k. split; [lia|done].
    + intros (_ & k & Hk & Hr). exists k. split; [lia|done].
Qed.

(** Repetition detection never raises and returns [True] exactly when the
    sequence ends in [min_count] (at least two) copies of some pattern whose
    length lies between [max 1 min_pattern_size] and [max_pattern_size]. *)
Theorem check_sequence_repetition_spec ts p :
  exists b, check_sequence_repetition ts p = Ok b /\ (b = true <-> repetitive ts p).
Proof. apply check_sequence_repetition_Ok. Qed.

(** * Stop conditions *)

(** The conditions under which the newest token ends the request. *)
Definition stop_token (sp : SamplingParams) (t : Z) : Prop :=
  Some t = eos_token_id sp \/ t ∈ default [] (stop_token_ids sp).
Definition length_capped (max_model_len : Z) (r : Request) : Prop :=
  max_model_len <= num_tokens r \/ max_tokens r <= num_output_tokens r.
Definition repeats (sp : SamplingParams) (ts : list Z) : Prop :=
  exists p, repetition_detection sp = Some p /\ repetitive ts p.

(** [check_stop] on a sampling request with at least one output token. *)
Lemma check_stop_cases r max_model_len sp ts t :
  pooling_params r = None -> sampling_params r = Some sp ->
  output_token_ids r = ts ++ [t] ->
  (check_stop r max_model_len = Ok (false, r) /\
    ~ (min_tokens sp <= num_output_tokens r /\
       (stop_token sp t \/ length_capped max_model_len r \/ repeats sp (ts ++ [t])))) \/
  exists st sr, check_stop r max_model_len = Ok (true, with_status st sr r) /\
    min_tokens sp <= num_output_tokens r /\
    ((st = FINISHED_STOPPED /\ stop_token sp t) \/
     (st = FINISHED_LENGTH_CAPPED /\ ~ stop_token sp t /\ length_capped max_model_len r) \/
     (st = FINISHED_REPETITION /\ ~ stop_token sp t /\ ~ length_capped max_model_len r /\
      repeats sp (ts ++ [t]))).
Proof.
  intros Hpp Hsp Hout. unfold check_stop. rewrite Hpp, Hsp, Hout, py_index_last. simpl.
  destruct (Z.ltb_spec (num_output_tokens r) (min_tokens sp)) as [Hm|Hm].
  { left. split; [done|]. lia. }
  unfold stop_token. case_bool_decide as Heos.
  { right. do 2 eexists. split; [done|]. tauto. }
  case_bool_decide as Hst.
  { right. do 2 eexists. split; [done|]. tauto. }
  assert ((max_model_len <=? num_tokens r) || (max_tokens r <=? num_output_tokens r) = true
    <-> length_capped max_model_len r) as Hcap.
  { unfold length_capped. by rewrite orb_true_iff, !Z.leb_le. }
  destruct (_ || _) in Hcap |- *.
  { right. do 2 eexists. split; [done|]. tauto. }
  assert (~ length_capped max_model_len r) as Hncap by (rewrite <-Hcap; done).
  unfold repeats. destruct (repetition_detection sp) as [p|]; [|left; split; [done|naive_solver]].
  destruct (check_sequence_repetition_Ok (ts ++ [t]) p) as ([|] & -> & Hb); simpl.
  - right. do 2 eexists. split; [done|]. split; [done|]. do 2 right.
    split_and!; try tauto. exists p. tauto.
  - left. split; [done|]. intros (_ & [?|[?|(p' & [= <-] & Hp)]]); [tauto..|].
    apply Hb in Hp. done.
Qed.


(** * Consuming the sampled tokens *)

(** A hasher that returns and touches nothing of the request but its memo. *)
Definition hasher_frame (h : option block_hasher) : Prop :=
  forall f, h = Some f -> forall r, exists hs m, f r = Ok (hs, with_memo m r).

(** Everything [output_loop] may have changed. *)
Definition same_params (r r' : Request) : Prop :=
  pooling_params r' = pooling_params r /\ sampling_params r' = sampling_params r /\
  max_tokens r' = max_tokens r.

Lemma append_output_frame h t r :
  hasher_frame h ->
  exists r', append_output_token_ids h [t] r = Ok r' /\ same_params r r' /\
    output_token_ids r' = output_token_ids r ++ [t] /\
    all_token_ids r' = all_token_ids r ++ [t] /\ status r' = status r.
Proof.
  intros Hh. unfold append_output_token_ids, update_block_hashes.
  destruct h as [f|]; [|by eexists].
  destruct (Hh f eq_refl (with_tokens (output_token_ids r ++ [t]) (all_token_ids r ++ [t]) r))
    as (hs & m & ->).
  by eexists.
Qed.

Lemma length_snoc_lt {A} (l : list A) (x : A) n :
  (length l < n)%nat -> (length (l ++ [x]) <= n)%nat.
Proof. rewrite length_app. simpl. lia. Qed.

Lemma output_loop_spec h M sp ts r :
  hasher_frame h -> pooling_params r = None -> sampling_params r = Some sp ->
  is_finished r = false ->
  exists kept dropped stopped r',
    output_loop h M ts r = Ok (kept, stopped, r') /\ ts = kept ++ dropped /\
    output_token_ids r' = output_token_ids r ++ kept /\
    all_token_ids r' = all_token_ids r ++ kept /\
    same_params r r' /\
    is_finished r' = stopped /\ (stopped = false -> dropped = []) /\
    (min_tokens sp <= max_tokens r -> num_output_tokens r < max_tokens r ->
      num_output_tokens r' <= max_tokens r /\
      (stopped = false -> num_output_tokens r' < max_tokens r)).
Proof.
  intros Hh. revert r. induction ts as [|t ts IH]; intros r Hpp Hsp Hfin.
  { exists [], [], false, r. simpl. rewrite !app_nil_r. unfold same_params. split_and!; auto with lia. }
  simpl. destruct (append_output_frame h t r Hh) as (r1 & -> & (Hp1 & Hs1 & Hm1) & Ho1 & Ha1 & Hst1).
  simpl. rewrite Hpp in Hp1. rewrite Hsp in Hs1.
  assert (num_output_tokens r1 = num_output_tokens r + 1) as Hn1.
  { unfold num_output_tokens. rewrite Ho1, length_app. simpl. lia. }
  destruct (check_stop_cases r1 M sp (output_token_ids r) t Hp1 Hs1 Ho1)
    as [[-> Hno]|(st & sr & -> & Hmin & Hst)]; simpl.
  - assert (is_finished r1 = false) as Hf1 by (unfold is_finished; by rewrite Hst1).
    destruct (IH r1 Hp1 Hs1 Hf1)
      as (kept & dropped & stopped & r' & -> & -> & Ho & Ha & (Hp & Hs & Hm) & Hf & Hd & Hlen).
    simpl. exists (t :: kept), dropped, stopped, r'.
    rewrite Ho, Ha, Ho1, Ha1, <-!app_assoc. unfold same_params. split_and!; try done; try congruence.
    intros Hmm Hlt. rewrite Hm1 in Hlen. apply Hlen; [done|].
    unfold length_capped in Hno. rewrite Hm1 in Hno. lia.
  - eexists [t], ts, true, _. split; [done|]. simpl. unfold same_params; simpl.
    split_and!; try done; try congruence.
    + unfold is_finished. simpl. destruct Hst as [(-> & _)|[(-> & _)|(-> & _)]]; done.
    + intros _ Hlt. split; [|done]. unfold num_output_tokens in *. simpl. lia.
Qed.

(** C24: consuming a batch of sampled tokens never raises. The kept tokens are a
    prefix of the batch, appended to both token lists; the request is finished
    exactly when the call says it stopped, and nothing is dropped otherwise. A
    request that starts below [max_tokens] never exceeds it, and it stops when
    the batch holds as many tokens as it has left. *)
Theorem update_request_with_output_spec h max_model_len r sp new_token_ids :
  hasher_frame h -> pooling_params r = None -> sampling_params r = Some sp ->
  is_finished r = false ->
  min_tokens sp <= max_tokens r -> num_output_tokens r < max_tokens r ->
  exists kept dropped stopped r',
    update_request_with_output h max_model_len r new_token_ids = Ok (kept, stopped, r') /\
    new_token_ids = kept ++ dropped /\
    output_token_ids r' = output_token_ids r ++ kept /\
    all_token_ids r' = all_token_ids r ++ kept /\
    is_finished r' = stopped /\ (stopped = false -> dropped = []) /\
    num_output_tokens r' <= max_tokens r /\
    (max_tokens r - num_output_tokens r <= zlen new_token_ids -> stopped = true).
Proof.
  intros Hh Hpp Hsp Hfin Hmm Hlt. unfold update_request_with_output.
  destruct (output_loop_spec h max_model_len sp new_token_ids r Hh Hpp Hsp Hfin)
    as (kept & dropped & stopped & r' & -> & Hts & Ho & Ha & _ & Hf & Hd & Hlen).
  exists kept, dropped, stopped, r'. destruct (Hlen Hmm Hlt) as [Hle Hns].
  split_and!; try done. intros Hmany. destruct stopped; [done|exfalso].
  specialize (Hns eq_refl). rewrite (Hd eq_refl), app_nil_r in Hts. subst kept.
  unfold num_output_tokens in *. rewrite Ho, length_app in Hns. lia.
Qed.

(** * Priority order *)

Lemma string_ltb_lt a b : String.ltb a b = true <-> String_as_OT.lt a b.
Proof.
  assert (String_as_OT.compare a b = String.compare a b) as Hab.
  { revert b. induction a as [|x a IH]; intros [|y b]; done. }
  unfold String_as_OT.lt, String.ltb. rewrite Hab. by destruct (String.compare a b).
Qed.

Lemma string_ltb_irrefl a : String.ltb a a = false.
Proof. apply not_true_is_false. rewrite string_ltb_lt. apply StrictOrder_Irreflexive. Qed.

Lemma string_ltb_trans a b c :
  String.ltb a b = true -> String.ltb b c = true -> String.ltb a c = true.
Proof. rewrite !string_ltb_lt. apply StrictOrder_Transitive. Qed.

Lemma string_ltb_total a b : a <> b -> String.ltb a b = true \/ String.ltb b a = true.
Proof.
  rewrite !string_ltb_lt. intros Hab.
  destruct (String_as_OT.compare_spec a b) as [?|?|?]; [done|by left|by right].
Qed.

(** The comparison as a disjunction, one case per field. *)
Lemma request_lt_iff a b :
  request_lt a b = true <->
    priority a < priority b \/
    (priority a = priority b /\
      ((arrival_time a < arrival_time b)%Qc \/
       (arrival_time a = arrival_time b /\
         (String.ltb (request_id a) (request_id b) = true \/
          (request_id a = request_id b /\ py_id a < py_id b))))).
Proof.
  unfold request_lt.
  case_bool_decide as Hp; [rewrite Z.ltb_lt; intuition lia|].
  rewrite Hp.
  case_bool_decide as Ha.
  { rewrite bool_decide_eq_true. intuition lia. }
  rewrite Ha.
  pose proof (Qclt_not_eq (arrival_time b) (arrival_time b)) as Hirr.
  case_bool_decide as Hi; [intuition; try lia|].
  rewrite Hi, string_ltb_irrefl, Z.ltb_lt.
  intuition (lia || done).
Qed.

(** [Request.__lt__] is a strict total order on requests that are distinct
    objects: irreflexive, transitive, and any two are comparable. *)
Theorem request_lt_strict_total :
  (forall a, request_lt a a = false) /\
  (forall a b c, request_lt a b = true -> request_lt b c = true -> request_lt a c = true) /\
  (forall a b, py_id a <> py_id b -> request_lt a b = true \/ request_lt b a = true).
Proof.
  split_and!.
  - intros a. apply not_true_is_false. rewrite request_lt_iff, string_ltb_irrefl.
    pose proof (Qclt_not_eq (arrival_time a) (arrival_time a)). intuition (lia || done).
  - intros a b c. rewrite !request_lt_iff.
    intros [H1|(E1 & H1)] [H2|(E2 & H2)]; [left; lia..|].
    right. split; [lia|].
    destruct H1 as [H1|(E3 & H1)], H2 as [H2|(E4 & H2)].
    + left. by eapply Qclt_trans.
    + left. by rewrite <-E4.
    + left. by rewrite E3.
    + right. split; [congruence|].
      destruct H1 as [H1|(E5 & H1)], H2 as [H2|(E6 & H2)].
      * left. by eapply string_ltb_trans.
      * left. by rewrite <-E6.
      * left. by rewrite E5.
      * right. split; [congruence|lia].
  - intros a b Hne. rewrite !request_lt_iff.
    pose proof (eq_sym (x:=priority a) (y:=priority b)).
    destruct (Z.lt_total (priority a) (priority b)) as [?|[E1|?]]; [tauto| |tauto].
    destruct (Qc_dec (arrival_time a) (arrival_time b)) as [[?|?]|E2]; [tauto..|].
    destruct (decide (request_id a = request_id b)) as [E3|E3].
    + destruct (Z.lt_total (py_id a) (py_id b)) as [?|[E4|?]]; [tauto|done|].
      right. right. split; [done|]. right. split; [done|]. right. split; [done|lia].
    + destruct (string_ltb_total _ _ E3); [tauto|].
      right. right. split; [done|]. right. split; [done|]. by left.
Qed.

(** * Concrete inputs *)

Definition example_time : Qc := Q2Qc (QArith_base.inject_Z 0).

Definition example_sampling : SamplingParams :=
  mkSampling (Some 3) 1 (Some 2) (Some [7]) (Some (mkRepetition 2 1 2)) None false.

(** A request with the given outputs, after a three-token prompt. *)
Definition example_request (id : Z) (out : list Z) : Request :=
  mkRequest "r"%string 0 example_time id RUNNING None (Some example_sampling) None None 3 None ∅ 3
    out ([11; 12; 13] ++ out) [] 3 0 None [] 0 0 [] false.


Lemma update_request_with_output_spec_witness :
  exists kept stopped r',
    update_request_with_output None 100 (example_request 1 []) [4; 5; 6; 8] =
      Ok (kept, stopped, r') /\ stopped = true.
Proof.
  destruct (update_request_with_output_spec None 100 (example_request 1 [])
    example_sampling [4; 5; 6; 8]) as (kept & dropped & stopped & r' & Hu & _ & _ & _ & _ & _ & _ & Hs).
  - intros f Hf. discriminate Hf.
  - reflexivity.
  - reflexivity.
  - reflexivity.
  - vm_compute. discriminate.
  - vm_compute. reflexivity.
  - exists kept, stopped, r'. split; [exact Hu|]. apply Hs. vm_compute. discriminate.
Defined.

Lemma request_lt_strict_total_witness :
  request_lt (example_request 1 []) (example_request 2 []) = true \/
  request_lt (example_request 2 []) (example_request 1 []) = true.
Proof.
  apply (proj2 (proj2 request_lt_strict_total)). vm_compute. discriminate.
Defined.
