(* ===== verification/BlockHash.v ===== *)
(** Block hashing for prefix caching: the key packing, the extra keys, the
    chained block hashes of a request and the block-size views of
    src/upstream/vllm/v1/core/kv_cache_utils.py.

    The hash function given to the hasher, [hashlib.sha256] and the random or
    seeded [NONE_HASH] are parameters of the sections below. *)
From S2P Require Import Prelude Request.
Open Scope Z_scope.

(** * Keys: a block hash followed by four bytes of group id *)

(** [make_block_hash_with_group_id]. *)
Definition make_block_hash_with_group_id (block_hash : bytes) (group_id : Z) : result bytes :=
  g ← to_bytes_big 4 group_id;
  Ok (block_hash ++ g).

(** [get_block_hash]: [key[:-4]]. *)
Definition get_block_hash (key : bytes) : bytes := py_upto key (-4).

(** [get_group_id]. *)
Definition get_group_id (key : bytes) : Z := from_bytes_big (py_from key (-4)).

(** [ExternalBlockHash]. *)
Inductive ExternalBlockHash := ExtBytes (b : bytes) | ExtInt (z : Z).

(** [maybe_convert_block_hash]; the flag is
    [envs.VLLM_KV_EVENTS_USE_INT_BLOCK_HASHES]. *)
Definition maybe_convert_block_hash (use_int : bool) (hash_bytes : bytes) : ExternalBlockHash :=
  if negb use_int then ExtBytes hash_bytes
  else ExtInt (Z.land (from_bytes_big hash_bytes) (Z.shiftl 1 64 - 1)).

(** * Extra keys *)

(** The Python values an extra-key tuple holds. LoRA names and cache salts are
    both plain strings there. *)
Inductive extra_key :=
  | KStr (s : string)
  | KMM (identifier : string) (rel_offset : Z)
  | KBytes (b : bytes).

#[export] Instance extra_key_eq_dec : EqDecision extra_key.
Proof. solve_decision. Defined.

#[export] Program Instance extra_key_countable : Countable extra_key :=
  inj_countable'
    (fun k => match k with KStr s => inl s | KMM s o => inr (inl (s, o)) | KBytes b => inr (inr b) end)
    (fun x => match x with inl s => KStr s | inr (inl (s, o)) => KMM s o | inr (inr b) => KBytes b end) _.
Next Obligation. by intros []. Qed.

(** [need_extra_keys]. *)
Definition need_extra_keys (r : Request) : bool :=
  negb (bool_decide (mm_features r = [])) || bool_decide (is_Some (lora_request r))
  || bool_decide (is_Some (cache_salt r)).

(** The [while] loop of [_gen_mm_extra_hash_keys]; [fs] is
    [mm_features[curr_mm_idx:]]. *)
Fixpoint mm_loop (fs : list MultiModalFeatureSpec) (start_token_idx end_token_idx curr_mm_idx : Z)
    (extra_keys : list extra_key) : result (list extra_key * Z) :=
  match fs with
  | [] => Ok (extra_keys, curr_mm_idx)
  | mm_feature :: fs' =>
      match identifier mm_feature with
      | None => Raise AssertionError
      | Some ident =>
          let off := offset (mm_position mm_feature) in
          let len := plength (mm_position mm_feature) in
          if off <? end_token_idx then
            if off + len <=? start_token_idx then
              mm_loop fs' start_token_idx end_token_idx (curr_mm_idx + 1) extra_keys
            else
              let extra_keys := extra_keys ++ [KMM ident (off - start_token_idx)] in
              if off + len <=? end_token_idx then
                mm_loop fs' start_token_idx end_token_idx (curr_mm_idx + 1) extra_keys
              else Ok (extra_keys, curr_mm_idx)
          else Ok (extra_keys, curr_mm_idx)
      end
  end.

(** [_gen_mm_extra_hash_keys]. *)
Definition gen_mm_extra_hash_keys (r : Request)
    (start_token_idx end_token_idx start_mm_idx : Z) : result (list extra_key * Z) :=
  let fs := mm_features r in
  match last fs with
  | None => Ok ([], start_mm_idx)
  | Some f =>
      if offset (mm_position f) + plength (mm_position f) <=? start_token_idx then
        Ok ([], start_mm_idx)
      else
        idx ← (if start_mm_idx <? 0
               then _ ← assert_ (- start_mm_idx <=? zlen fs); Ok (zlen fs + start_mm_idx)
               else Ok start_mm_idx);
        mm_loop (drop (Z.to_nat idx) fs) start_token_idx end_token_idx idx []
  end.

(** [_gen_lora_extra_hash_keys]. *)
Definition gen_lora_extra_hash_keys (r : Request) : list extra_key :=
  match lora_request r with None => [] | Some l => [KStr (lora_name l)] end.

(** The salt part of [generate_block_hash_extra_keys]; the empty string is
    false in Python. *)
Definition cache_salt_keys (r : Request) (start_token_idx : Z) : list extra_key :=
  match cache_salt r with
  | Some s => if (start_token_idx =? 0) && negb (bool_decide (s = ""%string)) then [KStr s] else []
  | None => []
  end.

Section Hashing.
  (** [hashlib.sha256(data).digest()]. *)
  Variable sha256 : bytes -> bytes.

(** [_gen_prompt_embeds_extra_hash_keys]: the digest is memoised on the request. *)
Definition gen_prompt_embeds_extra_hash_keys (r : Request)
    (start_token_idx end_token_idx : Z) : list extra_key * Request :=
  match prompt_embeds r with
  | None => ([], r)
  | Some rows =>
      match embeds_memo r !! (start_token_idx, end_token_idx) with
      | Some embeds_hash => ([KBytes embeds_hash], r)
      | None =>
          let embeds_hash := sha256 (concat (py_slice rows start_token_idx end_token_idx)) in
          ([KBytes embeds_hash],
           with_memo (<[(start_token_idx, end_token_idx) := embeds_hash]> (embeds_memo r)) r)
      end
  end.

(** [generate_block_hash_extra_keys]. *)
Definition generate_block_hash_extra_keys (r : Request)
    (start_token_idx end_token_idx start_mm_idx : Z)
    : result (option (list extra_key) * Z * Request) :=
  '(mm_extra_keys, new_start_mm_idx) ←
    gen_mm_extra_hash_keys r start_token_idx end_token_idx start_mm_idx;
  let lora_extra_keys := gen_lora_extra_hash_keys r in
  let salt_keys := cache_salt_keys r start_token_idx in
  let '(prompt_embeds_keys, r) :=
    gen_prompt_embeds_extra_hash_keys r start_token_idx end_token_idx in
  let extra_keys := lora_extra_keys ++ mm_extra_keys ++ salt_keys ++ prompt_embeds_keys in
  Ok (if bool_decide (extra_keys = []) then None else Some extra_keys, new_start_mm_idx, r).

(** * Chained hashes *)

(** What the caching hash function is applied to: the seed string, or the
    tuple [(parent_block_hash, token ids, extra keys)]. *)
Inductive hash_input :=
  | HSeed (s : string)
  | HBlock (parent : bytes) (tokens : list Z) (extra : option (list extra_key)).

  Variable hash_function : hash_input -> bytes.

(** [init_none_hash]: the value of [NONE_HASH]; [urandom] stands for
    [os.urandom(32)], [seed] for [PYTHONHASHSEED]. *)
Definition init_none_hash (seed : option string) (urandom : bytes) : bytes :=
  match seed with None => urandom | Some s => hash_function (HSeed s) end.

  Variable NONE_HASH : bytes.

(** [hash_block_tokens]: a missing and an empty parent are both false. *)
Definition hash_block_tokens (parent_block_hash : option bytes)
    (curr_block_token_ids : list Z) (extra_keys : option (list extra_key)) : bytes :=
  let parent :=
    match parent_block_hash with None | Some [] => NONE_HASH | Some p => p end in
  hash_function (HBlock parent curr_block_token_ids extra_keys).

(** The [while True] loop of [request_block_hasher]. *)
Fixpoint hasher_loop (fuel : nat) (hash_block_size : Z) (r : Request)
    (start_token_idx curr_mm_idx : Z) (prev : option bytes) (new_block_hashes : list bytes)
    : result (list bytes * Request) :=
  match fuel with
  | O => Raise Diverges
  | S fuel' =>
      let end_token_idx := start_token_idx + hash_block_size in
      if num_tokens r <? end_token_idx then Ok (new_block_hashes, r) else
      '(extra_keys, curr_mm_idx, r) ←
        generate_block_hash_extra_keys r start_token_idx end_token_idx curr_mm_idx;
      let block_tokens := py_slice (all_token_ids r) start_token_idx end_token_idx in
      let block_hash := hash_block_tokens prev block_tokens extra_keys in
      hasher_loop fuel' hash_block_size r (start_token_idx + hash_block_size) curr_mm_idx
        (Some block_hash) (new_block_hashes ++ [block_hash])
  end.

(** [get_request_block_hasher]'s [request_block_hasher]. The fuel is one more
    than the number of blocks a positive block size allows. *)
Definition request_block_hasher (hash_block_size : Z) : block_hasher := fun r =>
  let start_token_idx := zlen (block_hashes r) * hash_block_size in
  if num_tokens r <? start_token_idx + hash_block_size then Ok ([], r) else
  let curr_mm_idx := if 0 <? start_token_idx then -1 else 0 in
  hasher_loop (S (length (all_token_ids r))) hash_block_size r start_token_idx curr_mm_idx
    (last (block_hashes r)) [].

End Hashing.

(** * Views at a coarser block size *)

(** [BlockHashList]: the plain list of hashes or a [BlockHashListWithBlockSize]. *)
Inductive BlockHashList :=
  | Hashes (hs : list bytes)
  | WithBlockSize (hs : list bytes) (scale_factor : Z).

(** [BlockHashListWithBlockSize.__init__]. *)
Definition with_block_size_init (block_hashes : list bytes) (hash_block_size target_block_size : Z)
    : result BlockHashList :=
  if hash_block_size =? 0 then Raise ZeroDivisionError else
  _ ← assert_ (target_block_size mod hash_block_size =? 0);
  Ok (WithBlockSize block_hashes (target_block_size / hash_block_size)).

(** [_get_value_at] (and list indexing). *)
Definition get_value_at (l : BlockHashList) (idx : Z) : result bytes :=
  match l with
  | Hashes hs => py_index hs idx
  | WithBlockSize hs scale_factor => py_index hs ((idx + 1) * scale_factor - 1)
  end.

(** [__len__]. *)
Definition hash_list_len (l : BlockHashList) : Z :=
  match l with
  | Hashes hs => zlen hs
  | WithBlockSize hs scale_factor => zlen hs / scale_factor
  end.

Fixpoint map_ok {A B} (f : A -> result B) (xs : list A) : result (list B) :=
  match xs with
  | [] => Ok []
  | x :: xs' => y ← f x; ys ← map_ok f xs'; Ok (y :: ys)
  end.

(** [__iter__], consumed whole. *)
Definition hash_list_iter (l : BlockHashList) : result (list bytes) :=
  map_ok (get_value_at l) (py_range 0 (hash_list_len l)).

(** [__getitem__] with a slice of step 1. *)
Definition hash_list_slice (l : BlockHashList) (a b : Z) : result (list bytes) :=
  match l with
  | Hashes hs => Ok (py_slice hs a b)
  | WithBlockSize _ _ =>
      map_ok (get_value_at l)
        (py_range (slice_bound (hash_list_len l) a) (slice_bound (hash_list_len l) b))
  end.

(** [resolve_block_hashes]. *)
Definition resolve_block_hashes (block_hashes : BlockHashList) (hash_block_size block_size : Z)
    (supports_fine_grained_hash_lookup : bool) (alignment_tokens : option Z)
    : result BlockHashList :=
  if block_size =? hash_block_size then Ok block_hashes else
  match block_hashes with
  | WithBlockSize _ scale_factor =>
      if hash_block_size =? 0 then Raise ZeroDivisionError else
      _ ← assert_ (scale_factor =? block_size / hash_block_size);
      Ok block_hashes
  | Hashes hs =>
      fine ← match alignment_tokens with
        | Some a =>
            if supports_fine_grained_hash_lookup && (a <? block_size) then
              if a =? 0 then Raise ZeroDivisionError else Ok (block_size mod a =? 0)
            else Ok false
        | None => Ok false
        end;
      if (fine : bool) then Ok block_hashes else
      if hash_block_size =? 0 then Raise ZeroDivisionError else
      _ ← assert_ (block_size mod hash_block_size =? 0);
      with_block_size_init hs hash_block_size block_size
  end.

(** * Scheduler and hash block sizes *)

(** What [resolve_kv_cache_block_sizes] asks of a group's spec: whether it is an
    [AttentionSpec], whether it is a [MambaSpec], and its block size. *)
Record group_spec := mkGroupSpec {
  gs_attention : bool;
  gs_mamba : bool;
  gs_block_size : Z
}.

Definition group_block_size (dcp : Z) (g : group_spec) : Z :=
  if gs_attention g then gs_block_size g * dcp else gs_block_size g.

(** [resolve_kv_cache_block_sizes]; [active] is
    [enable_prefix_caching or connector_enabled]. *)
Definition resolve_kv_cache_block_sizes (block_size dcp : Z) (groups : list group_spec)
    (enable_prefix_caching connector_enabled : bool) (prefix_match_unit : option Z)
    : result (Z * Z) :=
  if zlen groups <=? 1 then let bs := block_size * dcp in Ok (bs, bs) else
  let group_block_sizes := group_block_size dcp <$> groups in
  let scheduler_block_size := foldr Z.lcm 1 group_block_sizes in
  if negb (enable_prefix_caching || connector_enabled) then
    Ok (scheduler_block_size, scheduler_block_size)
  else if existsb (fun g => gs_mamba g && negb (gs_block_size g =? block_size)) groups then
    Ok (scheduler_block_size, scheduler_block_size)
  else
    let hash_block_size := default (foldr Z.gcd 0 group_block_sizes) prefix_match_unit in
    if hash_block_size =? 0 then Raise ZeroDivisionError
    else if existsb (fun bs => negb (bs mod hash_block_size =? 0)) group_block_sizes then
      Raise ValueError
    else Ok (scheduler_block_size, hash_block_size).

(** * Packing and unpacking keys *)

Lemma make_block_hash_with_group_id_Ok h g :
  0 <= g < 2 ^ 32 -> make_block_hash_with_group_id h g = Ok (h ++ big_endian 4 g).
Proof.
  intros Hg. unfold make_block_hash_with_group_id, to_bytes_big.
  destruct (Z.ltb_spec g 0); [lia|]. simpl.
  change (256 ^ _) with (2 ^ 32). destruct (Z.leb_spec (2 ^ 32) g); [lia|done].
Qed.

Lemma make_block_hash_with_group_id_Raise h g :
  ~ 0 <= g < 2 ^ 32 -> make_block_hash_with_group_id h g = Raise OverflowError.
Proof.
  intros Hg. unfold make_block_hash_with_group_id, to_bytes_big.
  destruct (Z.ltb_spec g 0); [done|]. change (256 ^ _) with (2 ^ 32). simpl.
  destruct (Z.leb_spec (2 ^ 32) g); [done|lia].
Qed.

Lemma slice_bound_neg n i : - n <= i < 0 -> slice_bound n i = n + i.
Proof. intros. unfold slice_bound. destruct (Z.ltb_spec i 0); lia. Qed.

Lemma get_parts h t :
  length t = 4%nat ->
  get_block_hash (h ++ t) = h /\ get_group_id (h ++ t) = from_bytes_big t.
Proof.
  intros Ht. unfold get_block_hash, get_group_id, py_upto, py_from.
  rewrite length_app, slice_bound_neg by lia.
  replace (Z.to_nat _) with (length h) by lia.
  by rewrite take_app_length, drop_app_length.
Qed.

Lemma get_parts_make h g key :
  make_block_hash_with_group_id h g = Ok key ->
  get_block_hash key = h /\ get_group_id key = g /\ 0 <= g < 2 ^ 32 /\
  key = h ++ big_endian 4 g.
Proof.
  destruct (decide (0 <= g < 2 ^ 32)) as [Hg|Hg];
    [rewrite make_block_hash_with_group_id_Ok by done
    |by rewrite make_block_hash_with_group_id_Raise by done].
  intros Hk. assert (key = h ++ big_endian 4 g) as -> by congruence.
  destruct (get_parts h (big_endian 4 g)) as [-> ->]; [done|].
  rewrite from_big_endian by done. done.
Qed.

Lemma make_block_hash_with_group_id_inj h h' g g' key :
  make_block_hash_with_group_id h g = Ok key ->
  make_block_hash_with_group_id h' g' = Ok key -> h = h' /\ g = g'.
Proof. intros (<- & <- & _)%get_parts_make (<- & <- & _)%get_parts_make. done. Qed.

(** A packed cache key exists exactly for a 32-bit unsigned group id
    ([OverflowError] otherwise), unpacks to the hash and the group id it was
    made from, and is therefore injective in both. *)
Theorem block_hash_key_roundtrip h g :
  match make_block_hash_with_group_id h g with
  | Ok key =>
      0 <= g < 2 ^ 32 /\ get_block_hash key = h /\ get_group_id key = g /\
      (forall h' g', make_block_hash_with_group_id h' g' = Ok key -> h' = h /\ g' = g)
  | Raise e => e = OverflowError /\ ~ 0 <= g < 2 ^ 32
  end.
Proof.
  destruct (make_block_hash_with_group_id h g) as [key|e] eqn:E.
  - pose proof (get_parts_make _ _ _ E) as (? & ? & ? & _). split_and!; [lia..|done|done|].
    intros h' g' E'. destruct (make_block_hash_with_group_id_inj _ _ _ _ _ E E'). done.
  - destruct (decide (0 <= g < 2 ^ 32)) as [Hg|Hg].
    + by rewrite make_block_hash_with_group_id_Ok in E.
    + rewrite make_block_hash_with_group_id_Raise in E by done. by simplify_eq.
Qed.

(** * Extra keys against a reference *)

(** The features a block overlaps, in order, each with its offset relative to
    the block. A zero-length feature counts when it lies strictly inside. *)
Definition overlaps (s e : Z) (f : MultiModalFeatureSpec) : Prop :=
  offset (mm_position f) < e /\ s < offset (mm_position f) + plength (mm_position f).
#[export] Instance overlaps_dec s e f : Decision (overlaps s e f).
Proof. unfold overlaps. apply _. Defined.

Definition mm_keys (fs : list MultiModalFeatureSpec) (s e : Z) : list extra_key :=
  (fun f => KMM (default ""%string (identifier f)) (offset (mm_position f) - s)) <$>
  filter (overlaps s e) fs.

(** What the code assumes of [mm_features]: identified, sorted by offset, not
    overlapping. *)
Definition feature_end (f : MultiModalFeatureSpec) : Z :=
  offset (mm_position f) + plength (mm_position f).

Fixpoint features_sorted (fs : list MultiModalFeatureSpec) : Prop :=
  match fs with
  | [] => True
  | f :: fs' =>
      identifier f <> None /\ 0 <= plength (mm_position f) /\
      (forall f', f' ∈ fs' -> feature_end f <= offset (mm_position f')) /\
      features_sorted fs'
  end.

Definition ended (t : Z) (f : MultiModalFeatureSpec) : Prop := feature_end f <= t.

Lemma mm_keys_app fs1 fs2 s e : mm_keys (fs1 ++ fs2) s e = mm_keys fs1 s e ++ mm_keys fs2 s e.
Proof. unfold mm_keys. by rewrite filter_app, fmap_app. Qed.

Lemma mm_keys_ended fs s e : Forall (ended s) fs -> mm_keys fs s e = [].
Proof.
  unfold mm_keys. induction 1 as [|f fs Hf _ IH]; [done|].
  rewrite filter_cons_False; [done|]. unfold overlaps, ended, feature_end in *. lia.
Qed.

Lemma mm_keys_later fs s e :
  Forall (fun f => e <= offset (mm_position f)) fs -> mm_keys fs s e = [].
Proof.
  unfold mm_keys. induction 1 as [|f fs Hf _ IH]; [done|].
  rewrite filter_cons_False; [done|]. unfold overlaps. lia.
Qed.

Lemma features_sorted_app fs1 fs2 : features_sorted (fs1 ++ fs2) -> features_sorted fs2.
Proof. induction fs1; simpl; tauto. Qed.

(** Sorted features end in order. *)
Lemma features_sorted_ended t fs f :
  features_sorted (fs ++ [f]) -> ended t f -> Forall (ended t) (fs ++ [f]).
Proof.
  induction fs as [|f0 fs IH]; simpl; intros Hs Hf; [by repeat constructor|].
  destruct Hs as (_ & _ & Hle & Hs). constructor; [|by apply IH].
  specialize (Hle f ltac:(set_solver)).
  apply features_sorted_app in Hs as (_ & ? & _).
  unfold ended, feature_end in *. lia.
Qed.

Lemma mm_loop_spec fs s e idx acc :
  s <= e -> features_sorted fs ->
  exists n, mm_loop fs s e idx acc = Ok (acc ++ mm_keys fs s e, idx + Z.of_nat n) /\
    (n <= length fs)%nat /\ Forall (ended e) (take n fs).
Proof.
  intros Hse. revert idx acc. induction fs as [|f fs IH]; intros idx acc Hs.
  { exists 0%nat. simpl. rewrite app_nil_r, Z.add_0_r. split_and!; [done|lia|constructor]. }
  destruct Hs as (Hid & Hlen & Hle & Hs). simpl.
  destruct (identifier f) as [ident|] eqn:Eid; [clear Hid|done].
  fold (feature_end f).
  assert (forall n, feature_end f <= e -> Forall (ended e) (take n fs) ->
    Forall (ended e) (take (S n) (f :: fs))) as Htake by (intros; by constructor).
  unfold mm_keys. destruct (Z.ltb_spec (offset (mm_position f)) e) as [Ho|Ho]; simpl.
  - destruct (Z.leb_spec (feature_end f) s) as [Hend|Hend].
    + rewrite filter_cons_False by (unfold overlaps, feature_end in *; lia).
      destruct (IH (idx + 1) acc Hs) as (n & -> & Hn & Hall).
      exists (S n). split_and!; [f_equal; f_equal; lia|simpl; lia|apply Htake; [lia|done]].
    + rewrite filter_cons_True by (unfold overlaps, feature_end in *; lia).
      rewrite fmap_cons, Eid. simpl. destruct (Z.leb_spec (feature_end f) e) as [He|He].
      * destruct (IH (idx + 1) (acc ++ [KMM ident (offset (mm_position f) - s)]) Hs)
          as (n & -> & Hn & Hall).
        exists (S n). rewrite <-app_assoc.
        split_and!; [f_equal; f_equal; lia|simpl; lia|apply Htake; [lia|done]].
      * exists 0%nat. fold (mm_keys fs s e).
        rewrite mm_keys_later, Z.add_0_r
          by (apply Forall_forall; intros f' Hf'; specialize (Hle f' Hf'); lia).
        split_and!; [done|lia|constructor].
  - exists 0%nat. fold (mm_keys (f :: fs) s e).
    rewrite mm_keys_later, app_nil_r, Z.add_0_r.
    + split_and!; [done|lia|constructor].
    + constructor; [done|]. apply Forall_forall. intros f' Hf'.
      specialize (Hle f' Hf'). unfold feature_end in Hle. lia.
Qed.

(** The indices a hasher may start a block at: every feature before it has
    ended, counting [-1] as the index of the last feature. *)
Definition mm_index_ok (fs : list MultiModalFeatureSpec) (s idx : Z) : Prop :=
  -1 <= idx <= zlen fs /\
  Forall (ended s) (take (Z.to_nat (if idx <? 0 then zlen fs + idx else idx)) fs).

Lemma ended_mono s e fs : s <= e -> Forall (ended s) fs -> Forall (ended e) fs.
Proof. intros ? Hf. eapply Forall_impl; [exact Hf|]. unfold ended. lia. Qed.

Lemma gen_mm_extra_hash_keys_spec r s e idx :
  s <= e -> features_sorted (mm_features r) -> mm_index_ok (mm_features r) s idx ->
  exists idx', gen_mm_extra_hash_keys r s e idx = Ok (mm_keys (mm_features r) s e, idx') /\
    mm_index_ok (mm_features r) e idx'.
Proof.
  intros Hse Hs [Hidx Hend]. unfold gen_mm_extra_hash_keys.
  assert (mm_index_ok (mm_features r) e idx) as Hok
    by (split; [done|by eapply ended_mono]).
  destruct (mm_features r) as [|f fs _] eqn:Efs using rev_ind; simpl.
  { by exists idx. }
  rewrite last_snoc. fold (feature_end f).
  destruct (Z.leb_spec (feature_end f) s) as [Hl|Hl].
  { exists idx. split; [|done]. by rewrite mm_keys_ended by (by apply features_sorted_ended). }
  set (all := fs ++ [f]) in *.
  assert (exists j, (if idx <? 0 then _ ← assert_ (- idx <=? zlen all); Ok (zlen all + idx)
      else Ok idx) = Ok (Z.of_nat j) /\ (j <= length all)%nat /\ Forall (ended s) (take j all))
    as (j & -> & Hj & Htake).
  { assert (0 < zlen all) by (unfold all; rewrite length_app; simpl; lia).
    destruct (Z.ltb_spec idx 0).
    - exists (Z.to_nat (zlen all + idx)). rewrite assert_true by (apply Z.leb_le; lia).
      simpl. split_and!; [f_equal; lia|lia|done].
    - exists (Z.to_nat idx). split_and!; [f_equal; lia|lia|done]. }
  simpl. rewrite Nat2Z.id.
  assert (features_sorted (drop j all)) as Hsd.
  { apply (features_sorted_app (take j all)). by rewrite take_drop. }
  destruct (mm_loop_spec (drop j all) s e (Z.of_nat j) [] Hse Hsd) as (n & -> & Hn & Hall).
  rewrite length_drop in Hn.
  eexists. split.
  - simpl. do 2 f_equal. rewrite <-(take_drop j all) at 2.
    by rewrite mm_keys_app, (mm_keys_ended (take j all)).
  - split; [lia|]. destruct (Z.ltb_spec (Z.of_nat j + Z.of_nat n) 0); [lia|].
    replace (Z.to_nat _) with (j + n)%nat by lia.
    rewrite <-take_take_drop. apply Forall_app. split; [by eapply ended_mono|done].
Qed.

(** * The reference: hash the content of every full block *)

Section Reference.
Variable sha256 : bytes -> bytes.
Variable hash_function : hash_input -> bytes.
Variable NONE_HASH : bytes.
Variable bs : Z.
Hypothesis bs_pos : 0 < bs.

Implicit Types r : Request.

Abbreviation hasher := (request_block_hasher sha256 hash_function NONE_HASH bs).
Abbreviation hash_tokens := (hash_block_tokens hash_function NONE_HASH).

Definition embeds_keys r (s e : Z) : list extra_key :=
  match prompt_embeds r with
  | None => []
  | Some rows => [KBytes (sha256 (concat (py_slice rows s e)))]
  end.

Definition block_extra r (s e : Z) : option (list extra_key) :=
  let ks := gen_lora_extra_hash_keys r ++ mm_keys (mm_features r) s e ++
            cache_salt_keys r s ++ embeds_keys r s e in
  if bool_decide (ks = []) then None else Some ks.

Definition block_content r (k : nat) : list Z * option (list extra_key) :=
  let s := Z.of_nat k * bs in
  (py_slice (all_token_ids r) s (s + bs), block_extra r s (s + bs)).

(** The hashes of a list of contents, each chained to the one before. *)
Fixpoint chain (prev : option bytes) (cs : list (list Z * option (list extra_key)))
    : list bytes :=
  match cs with
  | [] => []
  | (tokens, extra) :: cs' =>
      let h := hash_tokens prev tokens extra in h :: chain (Some h) cs'
  end.

Definition num_full_blocks r : nat := Z.to_nat (num_tokens r / bs).

Definition first_hashes r (n : nat) : list bytes :=
  chain None (block_content r <$> seq 0 n).
Definition reference_hashes r : list bytes := first_hashes r (num_full_blocks r).

(** The memoised digests are the digests. *)
Definition memo_ok r : Prop :=
  forall s e d rows, embeds_memo r !! (s, e) = Some d -> prompt_embeds r = Some rows ->
    d = sha256 (concat (py_slice rows s e)).

(** ** One block *)

Lemma with_memo_with_memo m m' r : with_memo m' (with_memo m r) = with_memo m' r.
Proof. done. Qed.

Lemma with_memo_id r : with_memo (embeds_memo r) r = r.
Proof. by destruct r. Qed.

Lemma gen_prompt_embeds_spec r s e :
  memo_ok r ->
  exists m, gen_prompt_embeds_extra_hash_keys sha256 r s e = (embeds_keys r s e, with_memo m r)
    /\ memo_ok (with_memo m r).
Proof.
  intros Hm. unfold gen_prompt_embeds_extra_hash_keys, embeds_keys.
  destruct (prompt_embeds r) as [rows|] eqn:Er.
  2:{ exists (embeds_memo r). by rewrite with_memo_id. }
  destruct (embeds_memo r !! (s, e)) as [d|] eqn:Ed.
  { exists (embeds_memo r). rewrite with_memo_id, (Hm _ _ _ _ Ed Er). done. }
  eexists. split; [done|]. intros s' e' d rows'. simpl. rewrite Er. intros Hd [= <-].
  rewrite lookup_insert in Hd. case_decide; simplify_eq; [done|]. by eapply Hm.
Qed.

Lemma generate_spec r s e idx :
  s <= e -> features_sorted (mm_features r) -> mm_index_ok (mm_features r) s idx ->
  memo_ok r ->
  exists idx' m,
    generate_block_hash_extra_keys sha256 r s e idx =
      Ok (block_extra r s e, idx', with_memo m r) /\
    mm_index_ok (mm_features r) e idx' /\ memo_ok (with_memo m r).
Proof.
  intros Hse Hs Hidx Hm. unfold generate_block_hash_extra_keys.
  destruct (gen_mm_extra_hash_keys_spec r s e idx Hse Hs Hidx) as (idx' & -> & Hidx').
  simpl. destruct (gen_prompt_embeds_spec r s e Hm) as (m & -> & Hm').
  exists idx', m. done.
Qed.

(** ** The loop *)

Lemma num_full_blocks_le r n :
  (n <= num_full_blocks r)%nat <-> Z.of_nat n * bs <= num_tokens r.
Proof.
  unfold num_full_blocks, num_tokens.
  pose proof (Z.div_mod (zlen (all_token_ids r)) bs ltac:(lia)).
  pose proof (Z.mod_pos_bound (zlen (all_token_ids r)) bs bs_pos).
  pose proof (Z.div_pos (zlen (all_token_ids r)) bs ltac:(lia) ltac:(lia)).
  split; intros; [nia|]. apply Nat2Z.inj_le. rewrite Z2Nat.id by lia. nia.
Qed.

Lemma hasher_loop_spec fuel r n k idx prev acc :
  num_full_blocks r = (n + k)%nat -> (k < fuel)%nat ->
  features_sorted (mm_features r) -> mm_index_ok (mm_features r) (Z.of_nat n * bs) idx ->
  memo_ok r ->
  exists m,
    hasher_loop sha256 hash_function NONE_HASH fuel bs r (Z.of_nat n * bs) idx prev acc =
      Ok (acc ++ chain prev (block_content r <$> seq n k), with_memo m r) /\
    memo_ok (with_memo m r).
Proof.
  revert fuel r n idx prev acc.
  induction k as [|k IH]; intros [|fuel] r n idx prev acc HN Hf Hs Hidx Hm; try lia;
    simpl; pose proof (num_full_blocks_le r (S n)) as Hle.
  - destruct (Z.ltb_spec (num_tokens r) (Z.of_nat n * bs + bs)); [|lia].
    exists (embeds_memo r). by rewrite app_nil_r, with_memo_id.
  - destruct (Z.ltb_spec (num_tokens r) (Z.of_nat n * bs + bs)); [lia|].
    destruct (generate_spec r (Z.of_nat n * bs) (Z.of_nat n * bs + bs) idx)
      as (idx' & m & -> & Hidx' & Hm'); [lia|done..|]. simpl.
    set (h := hash_tokens _ _ _).
    replace (Z.of_nat n * bs + bs) with (Z.of_nat (S n) * bs) in * by lia.
    destruct (IH fuel (with_memo m r) (S n) idx' (Some h) (acc ++ [h]))
      as (m' & -> & Hm''); [change (num_full_blocks (with_memo m r)) with (num_full_blocks r); lia|lia|done..|].
    exists m'. rewrite <-app_assoc. split; [|done].
    unfold h. simpl. replace (Z.of_nat n * bs + bs) with (Z.of_nat (S n) * bs) by lia. done.
Qed.

Lemma hash_chain_app prev cs1 cs2 :
  chain prev (cs1 ++ cs2) =
    chain prev cs1 ++ chain (match last (chain prev cs1) with Some h => Some h | None => prev end) cs2.
Proof.
  revert prev. induction cs1 as [|[ts ex] cs1 IH]; intros prev; [done|].
  simpl. f_equal. rewrite IH. do 2 f_equal.
  rewrite last_cons. by destruct (last _).
Qed.

Lemma length_chain prev cs : length (chain prev cs) = length cs.
Proof. revert prev. induction cs as [|[ts ex] cs IH]; intros; simpl; auto. Qed.

Lemma length_first_hashes r n : length (first_hashes r n) = n.
Proof. unfold first_hashes. by rewrite length_chain, length_fmap, length_seq. Qed.

Lemma first_hashes_add r n k :
  first_hashes r (n + k) =
    first_hashes r n ++ chain (last (first_hashes r n)) (block_content r <$> seq n k).
Proof.
  unfold first_hashes. rewrite seq_app, fmap_app, hash_chain_app, Nat.add_0_l.
  by destruct (last _).
Qed.

(** All features but the last lie in the first [t] tokens. *)
Definition only_last_open (fs : list MultiModalFeatureSpec) (t : Z) : Prop :=
  Forall (ended t) (take (pred (length fs)) fs).

Lemma request_block_hasher_Ok r n :
  features_sorted (mm_features r) -> memo_ok r ->
  (n <= num_full_blocks r)%nat -> block_hashes r = first_hashes r n ->
  n = 0%nat \/ only_last_open (mm_features r) (Z.of_nat n * bs) ->
  exists hs m, hasher r = Ok (hs, with_memo m r) /\
    block_hashes r ++ hs = reference_hashes r /\ memo_ok (with_memo m r).
Proof.
  intros Hs Hm Hn Hbh Hopen. unfold request_block_hasher.
  assert (length (block_hashes r) = n) as Hlen by (by rewrite Hbh, length_first_hashes).
  rewrite Hlen. set (k := (num_full_blocks r - n)%nat).
  assert (num_full_blocks r = n + k)%nat as HN by lia.
  assert (reference_hashes r = block_hashes r ++
    chain (last (block_hashes r)) (block_content r <$> seq n k)) as Href.
  { unfold reference_hashes. by rewrite HN, first_hashes_add, Hbh. }
  pose proof (num_full_blocks_le r (S n)) as Hle.
  rewrite Nat2Z.inj_succ, Z.mul_succ_l in Hle.
  destruct (Z.ltb_spec (num_tokens r) (Z.of_nat n * bs + bs)) as [Hlt|Hlt].
  { exists [], (embeds_memo r). rewrite with_memo_id, Href.
    assert (k = 0)%nat as -> by lia. done. }
  destruct (hasher_loop_spec (S (length (all_token_ids r))) r n k
    (if 0 <? Z.of_nat n * bs then -1 else 0) (last (block_hashes r)) [])
    as (m & -> & Hm'); [done| |done| |done|].
  - pose proof (proj1 (num_full_blocks_le r (n + k)) ltac:(lia)) as Hb.
    unfold num_tokens in Hb. nia.
  - split; [destruct (0 <? _); lia|]. destruct (Z.ltb_spec 0 (Z.of_nat n * bs)) as [Hp|Hp].
    + destruct Hopen as [->|Hopen]; [lia|]. simpl.
      replace (Z.to_nat _) with (pred (length (mm_features r))) by lia. done.
    + constructor.
  - do 2 eexists. split; [done|]. simpl. rewrite Href. done.
Qed.
End Reference.

(** * Hashing as tokens arrive *)

Lemma py_slice_app_l {A} (l l' : list A) a b :
  0 <= a -> 0 <= b <= zlen l -> py_slice (l ++ l') a b = py_slice l a b.
Proof.
  intros Ha Hb. rewrite !py_slice_nonneg by lia.
  destruct (decide (a <= b)).
  - rewrite drop_app_le by lia. rewrite take_app_le; [done|]. rewrite length_drop. lia.
  - by replace (Z.to_nat b - Z.to_nat a)%nat with 0%nat by lia.
Qed.

Lemma first_hashes_append sha256 hf NH bs r out ts n :
  0 < bs -> Z.of_nat n * bs <= num_tokens r ->
  first_hashes sha256 hf NH bs (with_tokens out (all_token_ids r ++ ts) r) n =
    first_hashes sha256 hf NH bs r n.
Proof.
  intros Hbs Hn. unfold first_hashes. f_equal. apply list_fmap_ext.
  intros i k Hk. apply lookup_seq in Hk as [-> Hi]. unfold block_content.
  f_equal. simpl. apply py_slice_app_l; unfold num_tokens in Hn; nia.
Qed.


(** The first pass, when the request is created. *)
Lemma fresh_request_hashes sha256 hash_function NONE_HASH bs r :
  0 < bs -> features_sorted (mm_features r) -> memo_ok sha256 r -> block_hashes r = [] ->
  exists r', update_block_hashes
      (Some (request_block_hasher sha256 hash_function NONE_HASH bs)) r = Ok r' /\
    all_token_ids r' = all_token_ids r /\ mm_features r' = mm_features r /\ memo_ok sha256 r' /\
    block_hashes r' = reference_hashes sha256 hash_function NONE_HASH bs r'.
Proof.
  intros Hbs Hs Hm Hbh.
  destruct (request_block_hasher_Ok sha256 hash_function NONE_HASH bs Hbs r 0)
    as (hs & m & Heq & Href & Hm'); [done|done|lia|by rewrite Hbh|by left|].
  eexists. unfold update_block_hashes. rewrite Heq. split; [done|]. done.
Qed.

(** Creating a request hashes every full block of its prompt: the block
    hashes are the from-scratch reference, whatever the features (sorted and
    disjoint), prompt embeddings, LoRA and salt. *)
Theorem request_init_hashes sha256 hash_function NONE_HASH bs rid ids sp arrival pyid embeds
    mm lora salt prio n m :
  0 < bs -> features_sorted (default [] mm) ->
  length_from_prompt_token_ids_or_embeds ids embeds = Ok n -> sp_max_tokens sp = Some m ->
  exists r, request_init rid ids (Some sp) None arrival pyid embeds mm lora salt prio
      (Some (request_block_hasher sha256 hash_function NONE_HASH bs)) = Ok r /\
    num_tokens r = n /\ num_prompt_tokens r = n /\ output_token_ids r = [] /\
    zlen (block_hashes r) = n / bs /\
    block_hashes r = reference_hashes sha256 hash_function NONE_HASH bs r.
Proof.
  intros Hbs Hs Hn Hmax. unfold request_init. rewrite Hmax, Hn.
  cbn beta iota zeta delta [mbind result_bind].
  match goal with |- context [update_block_hashes ?h ?r] => set (r0 := r) end.
  assert (num_tokens r0 = n /\ 0 <= n) as [Hnum Hn0].
  { unfold num_tokens, r0. simpl. unfold length_from_prompt_token_ids_or_embeds in Hn.
    destruct ids as [t|], embeds as [e|]; [destruct (Z.eqb_spec (zlen e) (zlen t))| | |];
      simplify_eq; rewrite ?length_replicate; lia. }
  destruct (request_block_hasher_Ok sha256 hash_function NONE_HASH bs Hbs r0 0)
    as (hs & m' & Heq & Href & Hm'); [done| |lia|done|by left|].
  { intros s e d rows Hd. simpl in Hd. by rewrite lookup_empty in Hd. }
  eexists. unfold update_block_hashes. rewrite Heq. split; [done|].
  split; [done|]. split; [done|]. split; [done|]. split; [|done].
  change (zlen (block_hashes r0 ++ hs) = n / bs). rewrite Href.
  unfold reference_hashes. rewrite length_first_hashes. unfold num_full_blocks.
  rewrite Hnum. apply Z2Nat.id, Z.div_pos; lia.
Qed.

(** * Block-size views *)

Lemma resolve_Ok_inv hs bs target v :
  0 < bs -> 0 < target ->
  resolve_block_hashes (Hashes hs) bs target false None = Ok v ->
  exists k, 0 < k /\ target = k * bs /\ hash_list_len v = zlen hs / k /\
    forall i, 0 <= i -> get_value_at v i = or_raise IndexError (hs !! Z.to_nat ((i + 1) * k - 1)).
Proof.
  intros Hbs Ht. unfold resolve_block_hashes, with_block_size_init. simpl.
  destruct (Z.eqb_spec target bs) as [->|Hne].
  - intros [= <-]. exists 1. simpl. rewrite Z.div_1_r. split_and!; [lia..|].
    intros i Hi. rewrite py_index_nonneg by lia. do 3 f_equal. lia.
  - destruct (Z.eqb_spec bs 0); [lia|]. destruct (Z.eqb_spec (target mod bs) 0) as [Hm|]; [|done].
    simpl. intros [= <-]. exists (target / bs).
    pose proof (Z.div_mod target bs ltac:(lia)).
    assert (0 < target / bs) by nia. split_and!; [done|lia|done|].
    intros i Hi. simpl. rewrite py_index_nonneg by nia. done.
Qed.

Lemma resolve_multiple hs bs k :
  0 < bs -> 0 < k -> exists v, resolve_block_hashes (Hashes hs) bs (k * bs) false None = Ok v.
Proof.
  intros Hbs Hk. unfold resolve_block_hashes, with_block_size_init. simpl.
  destruct (Z.eqb_spec (k * bs) bs); [by eexists|].
  destruct (Z.eqb_spec bs 0); [lia|]. rewrite Z.mod_mul by lia. by eexists.
Qed.

Lemma map_ok_lookup {A B} (f : A -> result B) xs :
  (forall x, x ∈ xs -> exists y, f x = Ok y) ->
  exists ys, map_ok f xs = Ok ys /\ length ys = length xs /\
    forall i x, xs !! i = Some x -> exists y, f x = Ok y /\ ys !! i = Some y.
Proof.
  induction xs as [|x xs IH]; intros Hf; [by exists []|].
  destruct (Hf x) as [y Hy]; [set_solver|].
  destruct IH as (ys & Hys & Hlen & Hall); [set_solver|].
  exists (y :: ys). simpl. rewrite Hy. simpl. rewrite Hys. simpl.
  split_and!; [done|lia|]. intros [|i] x' Hx'; simpl in *; [simplify_eq; eauto|eauto].
Qed.

(** Viewing hashes of [bs]-token blocks at [k * bs] tokens never fails;
    the view has one entry per complete group of [k] hashes, and entry [i] is
    the hash at the group's last boundary. *)
Theorem block_size_view hs bs k :
  0 < bs -> 0 < k ->
  exists v view, resolve_block_hashes (Hashes hs) bs (k * bs) false None = Ok v /\
    hash_list_len v = zlen hs / k /\
    hash_list_iter v = Ok view /\ zlen view = zlen hs / k /\
    forall i h, 0 <= i < zlen hs / k ->
      view !! Z.to_nat i = Some h <-> hs !! Z.to_nat ((i + 1) * k - 1) = Some h.
Proof.
  intros Hbs Hk. destruct (resolve_multiple hs bs k Hbs Hk) as [v Hv].
  destruct (resolve_Ok_inv hs bs (k * bs) v Hbs ltac:(nia) Hv) as (k' & Hk' & Heq & Hlen & Hget).
  assert (k' = k) as -> by nia. exists v.
  pose proof (Z.div_mod (zlen hs) k ltac:(lia)). pose proof (Z.mod_pos_bound (zlen hs) k Hk).
  assert (forall i, 0 <= i < zlen hs / k ->
    is_Some (hs !! Z.to_nat ((i + 1) * k - 1))) as Hin.
  { intros i Hi. apply lookup_lt_is_Some_2. nia. }
  destruct (map_ok_lookup (get_value_at v) (py_range 0 (hash_list_len v)))
    as (view & Hview & Hvlen & Hall).
  { intros i Hi%elem_of_py_range. rewrite Hlen in Hi. rewrite Hget by lia.
    destruct (Hin i Hi) as [h ->]. by eexists. }
  assert (0 <= zlen hs / k) by (apply Z.div_pos; lia).
  exists view. split_and!; [done|done|done| |].
  - rewrite Hvlen. unfold py_range. rewrite length_seqZ, Hlen. lia.
  - intros i h Hi. destruct (Hall (Z.to_nat i) i) as (h' & Hh' & ->).
    { unfold py_range. apply lookup_seqZ. rewrite Hlen. lia. }
    rewrite Hget in Hh' by lia. destruct (Hin i Hi) as [h0 Hh0]. rewrite Hh0 in *.
    simpl in Hh'. by simplify_eq.
Qed.

(** * Soundness of the chained hashes *)

Section Soundness.
Variable hash_function : hash_input -> bytes.
Variable NONE_HASH : bytes.
(** The hash function is collision-free, never empty, and never yields the
    [NONE_HASH] of a chain's start on a block. *)
Hypothesis hash_inj : forall x y, hash_function x = hash_function y -> x = y.
Hypothesis hash_nonempty : forall x, hash_function x <> [].
Hypothesis none_fresh : forall p ts ex, hash_function (HBlock p ts ex) <> NONE_HASH.

Abbreviation the_chain := (chain hash_function NONE_HASH).

Lemma chain_lookup prev cs i h :
  the_chain prev cs !! i = Some h ->
  exists ts ex, cs !! i = Some (ts, ex) /\
    h = hash_block_tokens hash_function NONE_HASH
          (match i with O => prev | S j => the_chain prev cs !! j end) ts ex.
Proof.
  revert prev i. induction cs as [|[ts ex] cs IH]; intros prev [|i]; simpl; try done.
  - intros [= <-]. by exists ts, ex.
  - intros (ts' & ex' & Hc & ->)%IH. exists ts', ex'. split; [done|]. by destruct i.
Qed.

Lemma parent_inj (p q : option bytes) ts ex ts' ex' :
  hash_block_tokens hash_function NONE_HASH p ts ex =
    hash_block_tokens hash_function NONE_HASH q ts' ex' ->
  (forall b, p = Some b -> exists t e c, b = hash_function (HBlock c t e)) ->
  (forall b, q = Some b -> exists t e c, b = hash_function (HBlock c t e)) ->
  p = q /\ ts = ts' /\ ex = ex'.
Proof.
  intros Heq Hp Hq. apply hash_inj in Heq. injection Heq as Hpq -> ->.
  split; [|done]. destruct p as [p|], q as [q|]; [..|done].
  - destruct (Hp p eq_refl) as (t & e & c & ->), (Hq q eq_refl) as (t' & e' & c' & ->).
    pose proof (hash_nonempty (HBlock c t e)). pose proof (hash_nonempty (HBlock c' t' e')).
    destruct (hash_function (HBlock c t e)), (hash_function (HBlock c' t' e')); by simplify_eq.
  - destruct (Hp p eq_refl) as (t & e & c & ->).
    pose proof (hash_nonempty (HBlock c t e)). pose proof (none_fresh c t e).
    destruct (hash_function (HBlock c t e)); congruence.
  - destruct (Hq q eq_refl) as (t & e & c & ->).
    pose proof (hash_nonempty (HBlock c t e)). pose proof (none_fresh c t e).
    destruct (hash_function (HBlock c t e)); congruence.
Qed.

(** Equal chained hashes mean equal positions and equal contents so far. *)
Lemma chain_inj cs cs' i j h :
  the_chain None cs !! i = Some h -> the_chain None cs' !! j = Some h ->
  i = j /\ take (S i) cs = take (S j) cs'.
Proof.
  revert j h. induction i as [|i IH]; intros j h Hi Hj;
    destruct (chain_lookup _ _ _ _ Hi) as (ts & ex & Hc & Hh);
    destruct (chain_lookup _ _ _ _ Hj) as (ts' & ex' & Hc' & Hh'); rewrite Hh in Hh';
    apply parent_inj in Hh' as (Hp & -> & ->).
  - destruct j as [|j].
    + split; [done|]. by rewrite (take_S_r _ _ _ Hc), (take_S_r _ _ _ Hc').
    + apply lookup_lt_Some in Hj. symmetry in Hp. apply lookup_ge_None in Hp. lia.
  - done.
  - intros b Hb. destruct j as [|j]; [done|].
    apply chain_lookup in Hb as (? & ? & _ & ->). do 3 eexists. done.
  - destruct j as [|j].
    + apply lookup_lt_Some in Hi. apply lookup_ge_None in Hp. lia.
    + destruct (the_chain None cs !! i) as [hi|] eqn:Ei.
      * symmetry in Hp. destruct (IH j hi eq_refl Hp) as [<- Ht].
        split; [done|]. by rewrite (take_S_r _ _ _ Hc), (take_S_r _ _ _ Hc'), Ht.
      * apply lookup_lt_Some in Hi. apply lookup_ge_None in Ei. lia.
  - intros b Hb. apply chain_lookup in Hb as (? & ? & _ & ->). do 3 eexists. done.
  - intros b Hb. destruct j as [|j]; [done|].
    apply chain_lookup in Hb as (? & ? & _ & ->). do 3 eexists. done.
Qed.
End Soundness.

Lemma take_slices (l : list Z) bs n :
  0 < bs ->
  take (Z.to_nat (Z.of_nat n * bs)) l =
    concat ((fun k => py_slice l (Z.of_nat k * bs) (Z.of_nat k * bs + bs)) <$> seq 0 n).
Proof.
  intros Hbs. induction n as [|n IH]; [done|].
  rewrite seq_S, fmap_app, concat_app, <-IH. simpl. rewrite app_nil_r.
  rewrite py_slice_nonneg by nia. rewrite take_take_drop. f_equal. nia.
Qed.

Lemma content_slices r bs sha256 n :
  (fun k => py_slice (all_token_ids r) (Z.of_nat k * bs) (Z.of_nat k * bs + bs)) <$> seq 0 n =
  (block_content sha256 bs r <$> seq 0 n).*1.
Proof. rewrite <-list_fmap_compose. done. Qed.

Lemma first_hashes_inj sha256 hash_function NONE_HASH bs r1 r2 n1 n2 i j h :
  0 < bs ->
  (forall x y, hash_function x = hash_function y -> x = y) ->
  (forall x, hash_function x <> []) ->
  (forall p ts ex, hash_function (HBlock p ts ex) <> NONE_HASH) ->
  first_hashes sha256 hash_function NONE_HASH bs r1 n1 !! i = Some h ->
  first_hashes sha256 hash_function NONE_HASH bs r2 n2 !! j = Some h ->
  i = j /\
  take (Z.to_nat (Z.of_nat (S i) * bs)) (all_token_ids r1) =
    take (Z.to_nat (Z.of_nat (S i) * bs)) (all_token_ids r2) /\
  forall k, (k <= i)%nat ->
    block_extra sha256 r1 (Z.of_nat k * bs) (Z.of_nat k * bs + bs) =
    block_extra sha256 r2 (Z.of_nat k * bs) (Z.of_nat k * bs + bs).
Proof.
  intros Hbs Hinj Hne Hnf Hi Hj.
  assert (i < n1)%nat by (apply lookup_lt_Some in Hi; by rewrite length_first_hashes in Hi).
  assert (j < n2)%nat by (apply lookup_lt_Some in Hj; by rewrite length_first_hashes in Hj).
  destruct (chain_inj hash_function NONE_HASH Hinj Hne Hnf _ _ _ _ _ Hi Hj) as [<- Ht].
  rewrite <-!fmap_take, !take_seq, !Nat.min_l in Ht by lia.
  split; [done|]. split.
  - by rewrite !take_slices, !(content_slices _ _ sha256), Ht by done.
  - intros k Hk. apply (f_equal (fun l => l !! k)) in Ht.
    rewrite !list_lookup_fmap, !lookup_seq_lt in Ht by lia. simpl in Ht.
    by injection Ht.
Qed.


(** * Scheduler and hash block sizes *)

Lemma divide_foldr_lcm x xs : x ∈ xs -> (x | foldr Z.lcm 1 xs).
Proof.
  induction xs as [|y xs IH]; [by intros ?%elem_of_nil|].
  intros [->|Hx]%elem_of_cons; simpl; [apply Z.divide_lcm_l|].
  trans (foldr Z.lcm 1 xs); [by apply IH|apply Z.divide_lcm_r].
Qed.

Lemma foldr_lcm_pos xs : Forall (fun x => 0 < x) xs -> 0 < foldr Z.lcm 1 xs.
Proof.
  induction 1 as [|x xs Hx _ IH]; simpl; [lia|].
  pose proof (Z.lcm_nonneg x (foldr Z.lcm 1 xs)).
  destruct (Z.eq_dec (Z.lcm x (foldr Z.lcm 1 xs)) 0) as [Hz|]; [|lia].
  apply Z.lcm_eq_0 in Hz. lia.
Qed.

Lemma foldr_gcd_divide x xs : x ∈ xs -> (foldr Z.gcd 0 xs | x).
Proof.
  induction xs as [|y xs IH]; [by intros ?%elem_of_nil|].
  intros [->|Hx]%elem_of_cons; simpl; [apply Z.gcd_divide_l|].
  trans (foldr Z.gcd 0 xs); [apply Z.gcd_divide_r|by apply IH].
Qed.

Lemma foldr_gcd_pos x xs : x ∈ xs -> 0 < x -> 0 < foldr Z.gcd 0 xs.
Proof.
  intros Hx Hpos. pose proof (foldr_gcd_divide x xs Hx) as Hd.
  assert (0 <= foldr Z.gcd 0 xs) by (destruct xs; simpl; [lia|apply Z.gcd_nonneg]).
  destruct (Z.eq_dec (foldr Z.gcd 0 xs) 0) as [Hz|]; [|lia].
  rewrite Hz in Hd. apply Z.divide_0_l in Hd. lia.
Qed.

(** With positive sizes, [resolve_kv_cache_block_sizes] returns a positive
    hash block size that divides the scheduler block size, which is a multiple
    of every group's effective block size; a hash block size finer than the
    scheduler's divides every group's. It fails only with [ValueError], for a
    [prefix_match_unit] that does not divide some group's block size. *)
Theorem resolve_block_sizes_spec block_size dcp groups caching connector unit_ :
  0 < block_size -> 0 < dcp -> Forall (fun g => 0 < gs_block_size g) groups ->
  (forall u, unit_ = Some u -> 0 < u) ->
  match resolve_kv_cache_block_sizes block_size dcp groups caching connector unit_ with
  | Ok (s, h) =>
      0 < h /\ (h | s) /\
      (1 < zlen groups -> Forall (fun g => (group_block_size dcp g | s)) groups) /\
      (h <> s -> Forall (fun g => (h | group_block_size dcp g)) groups)
  | Raise e =>
      e = ValueError /\ exists u g, unit_ = Some u /\ g ∈ groups /\ ~ (u | group_block_size dcp g)
  end.
Proof.
  intros Hb Hd Hg Hu. unfold resolve_kv_cache_block_sizes.
  destruct (Z.leb_spec (zlen groups) 1) as [Hlen|Hlen].
  { split_and!; [nia|done|lia|done]. }
  set (sizes := group_block_size dcp <$> groups).
  assert (Forall (fun x => 0 < x) sizes) as Hpos.
  { apply Forall_fmap. eapply Forall_impl; [exact Hg|]. cbn beta. intros g Hgg.
    unfold compose, group_block_size. destruct (gs_attention g); nia. }
  assert (Forall (fun g => (group_block_size dcp g | foldr Z.lcm 1 sizes)) groups) as Hs.
  { apply Forall_forall. intros g Hin. apply divide_foldr_lcm, list_elem_of_fmap. eauto. }
  pose proof (foldr_lcm_pos sizes Hpos).
  destruct (negb _); [split_and!; done|].
  destruct (existsb _ groups); [split_and!; done|].
  destruct groups as [|g0 gs]; [simpl in Hlen; lia|].
  set (h := default _ _).
  assert (0 < h) as Hh.
  { unfold h. destruct unit_ as [u|]; simpl; [auto|].
    apply (foldr_gcd_pos (group_block_size dcp g0) sizes); [by left|].
    by apply Forall_cons in Hpos as [? _]. }
  destruct (Z.eqb_spec h 0); [lia|].
  destruct (existsb _ sizes) eqn:E.
  - split; [done|]. apply existsb_exists in E as (x & Hx & Hmod).
    apply list_elem_of_In, list_elem_of_fmap in Hx as (g & -> & Hin).
    apply negb_true_iff, Z.eqb_neq in Hmod.
    assert (~ (h | group_block_size dcp g)) as Hnd by (rewrite <-Z.mod_divide by lia; done).
    destruct unit_ as [u|]; [eauto|]. exfalso. apply Hnd. unfold h. simpl.
    apply (foldr_gcd_divide _ sizes), list_elem_of_fmap. eauto.
  - assert (Forall (fun g => (h | group_block_size dcp g)) (g0 :: gs)) as Hall.
    { apply Forall_forall. intros g Hin. apply Z.mod_divide; [lia|].
      apply not_true_iff_false in E. destruct (Z.eq_dec (group_block_size dcp g mod h) 0); [done|].
      exfalso. apply E. apply existsb_exists. exists (group_block_size dcp g). split.
      - apply list_elem_of_In, list_elem_of_fmap. eauto.
      - by apply negb_true_iff, Z.eqb_neq. }
    split_and!; try done. apply Forall_cons in Hall as [Hall _].
    trans (group_block_size dcp g0); [done|]. apply divide_foldr_lcm. by left.
Qed.

(** * External hashes *)

(** With integer hashes enabled an external hash is the low 64 bits of the
    block hash, read as a big-endian number: it only depends on, and is exactly,
    the last eight bytes. *)
Theorem external_hash_last_bytes (h tl : bytes) :
  length tl = 8%nat ->
  maybe_convert_block_hash true (h ++ tl) = ExtInt (from_bytes_big tl) /\
  0 <= from_bytes_big tl < 2 ^ 64 /\ maybe_convert_block_hash false h = ExtBytes h.
Proof.
  intros Hlen.
  assert (forall l acc, fold_left (fun a b => a * 256 + Z_of_byte b) l acc =
    acc * 256 ^ zlen l + from_bytes_big l) as Hfold.
  { intros l. unfold from_bytes_big. induction l as [|b l IH]; intros acc; [cbn; lia|].
    cbn [fold_left]. rewrite IH, (IH (0 * 256 + Z_of_byte b)). cbn [length].
    rewrite Nat2Z.inj_succ, Z.pow_succ_r by lia. ring. }
  assert (forall l, 0 <= from_bytes_big l < 256 ^ zlen l) as Hrange.
  { intros l. induction l as [|b l IH] using rev_ind; [unfold from_bytes_big; cbn; lia|].
    rewrite from_bytes_big_app, length_app, Nat2Z.inj_add, Z.pow_add_r by lia.
    pose proof (Z_of_byte_bounds b). change (256 ^ zlen [b]) with 256. lia. }
  pose proof (Hrange tl) as Htl. rewrite Hlen in Htl. change (256 ^ _) with (2 ^ 64) in Htl.
  split; [|by split]. unfold maybe_convert_block_hash. simpl negb. cbn iota. f_equal.
  change (Z.shiftl 1 64 - 1) with (Z.ones 64). rewrite Z.land_ones by lia.
  unfold from_bytes_big at 1. rewrite fold_left_app. fold (from_bytes_big h).
  rewrite Hfold, Hlen. change (256 ^ Z.of_nat 8) with (2 ^ 64).
  rewrite Z.add_comm, Z.mod_add by lia. by apply Z.mod_small.
Qed.

(** * Two ways in which different requests share a block hash *)

Definition example_mm (image : string) : list MultiModalFeatureSpec :=
  [mkFeature (Some image) (mkRange 4 1 None); mkFeature (Some "second"%string) (mkRange 5 1 None)].

(** A seven-token prompt with two one-token images at positions 4 and 5, hashed
    in blocks of four tokens, then one sampled token completing block 1. *)
Definition two_image_run sha256 hash_function NONE_HASH (image : string) : result Request :=
  let h := Some (request_block_hasher sha256 hash_function NONE_HASH 4) in
  r ← request_init "r" (Some [1; 2; 3; 4; 0; 0; 5]) (Some example_sampling) None
        example_time 1 None (Some (example_mm image)) None None 0 h;
  append_output_token_ids h [6] r.

(** When a block that lies in the prompt is completed by the first
    generated token, hashing resumes at the last multi-modal feature only, so an
    earlier feature of the same block is left out of its hash: requests that
    differ in that image get the same block hashes, although the extra keys a
    from-scratch pass would use are different. *)
Theorem resumed_hashing_skips_feature sha256 hash_function NONE_HASH :
  exists rA rB,
    two_image_run sha256 hash_function NONE_HASH "A" = Ok rA /\
    two_image_run sha256 hash_function NONE_HASH "B" = Ok rB /\
    features_sorted (mm_features rA) /\ features_sorted (mm_features rB) /\
    zlen (block_hashes rA) = 2 /\ block_hashes rA = block_hashes rB /\
    block_extra sha256 rA 4 8 <> block_extra sha256 rB 4 8.
Proof.
  do 2 eexists. do 2 (split; [reflexivity|]). simpl.
  split_and!; try done; try (intros f Hf; apply list_elem_of_singleton in Hf as ->;
    unfold feature_end; simpl; lia); set_solver.
Qed.

Definition one_block_run sha256 hash_function NONE_HASH lora salt : result Request :=
  request_init "r" (Some [1; 2; 3; 4]) (Some example_sampling) None
    example_time 1 None None lora salt 0
    (Some (request_block_hasher sha256 hash_function NONE_HASH 4)).

(** Extra keys are untagged strings, so a LoRA request and a base-model
    request whose cache salt equals the LoRA's name give the first block the
    same hash. *)
Theorem lora_name_collides_with_salt sha256 hash_function NONE_HASH :
  exists rL rS,
    one_block_run sha256 hash_function NONE_HASH (Some (mkLoRA "x" 1)) None = Ok rL /\
    one_block_run sha256 hash_function NONE_HASH None (Some "x"%string) = Ok rS /\
    lora_request rL <> lora_request rS /\
    zlen (block_hashes rL) = 1 /\ block_hashes rL = block_hashes rS.
Proof. do 2 eexists. do 2 (split; [reflexivity|]). split_and!; done. Qed.

(** * Concrete inputs *)

#[export] Instance hash_input_eq_dec : EqDecision hash_input.
Proof. solve_decision. Defined.

#[export] Program Instance hash_input_countable : Countable hash_input :=
  inj_countable'
    (fun k => match k with HSeed s => inl s | HBlock p t e => inr (p, t, e) end)
    (fun x => match x with inl s => HSeed s | inr (p, t, e) => HBlock p t e end) _.
Next Obligation. by intros []. Qed.

(** A collision-free hash function: the input's number in unary. *)
Definition unary_hash (x : hash_input) : bytes :=
  Byte.x01 :: replicate (Pos.to_nat (encode x)) Byte.x00.

Lemma unary_hash_inj x y : unary_hash x = unary_hash y -> x = y.
Proof.
  intros Heq. apply (inj encode). injection Heq as Heq.
  apply (f_equal length) in Heq. rewrite !length_replicate in Heq. lia.
Qed.

(** A text request whose hashes of four-token blocks are up to date. *)
Definition hashed_request (tokens : list Z) (features : list MultiModalFeatureSpec) : Request :=
  let r := mkRequest "r"%string 0 example_time 1 WAITING None (Some example_sampling) None
    None 3 None ∅ (zlen tokens) [] tokens [] 0 0 None features 0 0 [] false in
  with_block_hashes (reference_hashes (fun b => b) unary_hash [] 4 r) r.


Lemma request_init_hashes_witness :
  exists r, request_init "r" (Some [1; 2; 3; 4; 5]) (Some example_sampling) None example_time 1
      None None None None 0 (Some (request_block_hasher (fun b => b) unary_hash [] 4)) = Ok r /\
    zlen (block_hashes r) = 5 / 4.
Proof.
  destruct (request_init_hashes (fun b => b) unary_hash [] 4 "r" (Some [1; 2; 3; 4; 5])
    example_sampling example_time 1 None None None None 0 5 3) as (r & Hr & _ & _ & _ & Hl & _).
  - lia.
  - exact I.
  - reflexivity.
  - reflexivity.
  - exists r. split; [exact Hr|exact Hl].
Defined.

Lemma block_size_view_witness :
  exists v view, resolve_block_hashes (Hashes [[Byte.x01]; [Byte.x02]; [Byte.x03]]) 16 (2 * 16)
      false None = Ok v /\ hash_list_iter v = Ok view /\ view !! 0%nat = Some [Byte.x02].
Proof.
  destruct (block_size_view [[Byte.x01]; [Byte.x02]; [Byte.x03]] 16 2)
    as (v & view & Hv & _ & Hi & _ & Hl); [lia|lia|].
  exists v, view. split; [exact Hv|]. split; [exact Hi|]. apply (Hl 0); [|reflexivity].
  split; [lia|reflexivity].
Defined.


Lemma resolve_block_sizes_spec_witness :
  exists s h, resolve_kv_cache_block_sizes 16 1
      [mkGroupSpec true false 16; mkGroupSpec true false 24] true false None = Ok (s, h) /\
    (h | s).
Proof.
  pose proof (resolve_block_sizes_spec 16 1
    [mkGroupSpec true false 16; mkGroupSpec true false 24] true false None) as H.
  exists 48, 8. split; [reflexivity|]. apply H.
  - lia.
  - lia.
  - repeat constructor.
  - discriminate.
Defined.

Lemma external_hash_last_bytes_witness :
  maybe_convert_block_hash true (replicate 24 Byte.xff ++ replicate 8 Byte.x01) =
    ExtInt (from_bytes_big (replicate 8 Byte.x01)).
Proof. apply (external_hash_last_bytes (replicate 24 Byte.xff) (replicate 8 Byte.x01)). reflexivity. Defined.
