(* ===== verification/BlockPool.v ===== *)
(** The block pool of src/upstream/vllm/v1/core/block_pool.py: the map from
    block-hash keys to cached blocks, and the pool that allocates, shares,
    frees, caches and evicts KV-cache blocks.

    The blocks live in the heap of the free queue. The environment flag, the
    SHA-256 function of the extra keys and the iteration order of Python sets
    are the parameters of [PoolEnv]. The optional metrics collector is absent,
    and [get_usage], a float for monitoring, is not modelled. *)
From S2P Require Import Prelude FreeQueue Request BlockHash.
Open Scope Z_scope.

Class PoolEnv := {
  use_int_block_hashes : bool;          (** [envs.VLLM_KV_EVENTS_USE_INT_BLOCK_HASHES] *)
  env_sha256 : bytes -> bytes;
  set_iter : gset bytes -> list bytes;  (** the order [for x in set] visits *)
  set_iter_perm s : set_iter s ≡ₚ elements s
}.

(** * [BlockHashToBlockMap] *)

(** The values of the map: one block, or a dict from block ids to blocks. *)
Inductive CacheEntry :=
  | Single (b : bref)
  | Multi (d : list (Z * bref)).

Abbreviation BlockHashToBlockMap := (gmap bytes CacheEntry).

(** [get_one_block]. *)
Definition get_one_block (m : BlockHashToBlockMap) (key : bytes) : result (option bref) :=
  match m !! key with
  | None => Ok None
  | Some (Single b) => Ok (Some b)
  | Some (Multi ((_, b) :: _)) => Ok (Some b)
  | Some (Multi []) => Raise StopIteration
  end.

(** [contain]. *)
Definition contain (m : BlockHashToBlockMap) (key : bytes) (id : Z) : bool :=
  match m !! key with
  | None => false
  | Some (Single b) => block_id b =? id
  | Some (Multi d) => od_mem id d
  end.

(** [insert]. *)
Definition map_insert (key : bytes) (b : bref) (m : BlockHashToBlockMap) : BlockHashToBlockMap :=
  match m !! key with
  | None => <[key := Single b]> m
  | Some (Single b0) =>
      <[key := Multi (od_set (block_id b) b [(block_id b0, b0)])]> m
  | Some (Multi d) => <[key := Multi (od_set (block_id b) b d)]> m
  end.

(** [pop]. *)
Definition map_pop (key : bytes) (id : Z) (m : BlockHashToBlockMap)
    : option bref * BlockHashToBlockMap :=
  match m !! key with
  | None => (None, m)
  | Some (Single b) =>
      if block_id b =? id then (Some b, delete key m)
      else (None, <[key := Single b]> (delete key m))
  | Some (Multi d) =>
      let d' := od_del id d in
      (od_get id d,
       if 0 <? zlen d' then <[key := Multi d']> (delete key m) else delete key m)
  end.

(** * Events *)

(** [BlockStored], [BlockRemoved] and [AllBlocksCleared]; the medium is always
    [MEDIUM_GPU]. *)
Inductive KVCacheEvent :=
  | BlockStored (hashes : list ExternalBlockHash) (parent : option ExternalBlockHash)
      (tokens : list Z) (size : Z) (lora_id : option Z) (lora : option string)
      (extra_keys : option (list (option (list extra_key)))) (group_idx : Z)
  | BlockRemoved (hashes : list ExternalBlockHash) (group_idx : Z)
  | AllBlocksCleared.

(** * The pool *)

Record BlockPool := mkPool {
  num_gpu_blocks : Z;
  enable_caching : bool;
  pool_hash_block_size : Z;
  free_block_queue : FreeQueue;
  cached_block_hash_to_block : BlockHashToBlockMap;
  cached_block_hashes_by_block : gmap Z (gset bytes);
  enable_kv_cache_events : bool;
  kv_event_queue : list KVCacheEvent
}.

(** The block objects. *)
Definition pheap (p : BlockPool) : heap := qheap (free_block_queue p).

Definition null_block : bref := Blk 0.

Definition with_queue (q : FreeQueue) (p : BlockPool) : BlockPool :=
  mkPool (num_gpu_blocks p) (enable_caching p) (pool_hash_block_size p) q
    (cached_block_hash_to_block p) (cached_block_hashes_by_block p)
    (enable_kv_cache_events p) (kv_event_queue p).
Definition with_heap (h : heap) (p : BlockPool) : BlockPool :=
  with_queue (mkQueue h (num_free_blocks (free_block_queue p))) p.
Definition with_cache (m : BlockHashToBlockMap) (x : gmap Z (gset bytes)) (p : BlockPool)
    : BlockPool :=
  mkPool (num_gpu_blocks p) (enable_caching p) (pool_hash_block_size p)
    (free_block_queue p) m x (enable_kv_cache_events p) (kv_event_queue p).
Definition with_events (es : list KVCacheEvent) (p : BlockPool) : BlockPool :=
  mkPool (num_gpu_blocks p) (enable_caching p) (pool_hash_block_size p)
    (free_block_queue p) (cached_block_hash_to_block p) (cached_block_hashes_by_block p)
    (enable_kv_cache_events p) es.

(** [BlockPool.__init__]. *)
Definition pool_init (n : Z) (caching : bool) (hash_block_size : Z) (events : bool)
    : result BlockPool :=
  _ ← assert_ (0 <? n);
  '(b, q) ← popleft (queue_init (Z.to_nat n));
  let q := mkQueue (heap_upd (qheap q) b (with_null true)) (num_free_blocks q) in
  Ok (mkPool n caching hash_block_size q ∅ ∅ events []).

(** [self.blocks]. *)
Definition pool_blocks (p : BlockPool) : list bref := Blk <$> seq 0 (Z.to_nat (num_gpu_blocks p)).

(** [get_num_free_blocks]. *)
Definition get_num_free_blocks (p : BlockPool) : Z := num_free_blocks (free_block_queue p).

(** [get_cached_block]. *)
Fixpoint get_cached_block_loop (p : BlockPool) (hash : bytes) (gids : list Z)
    (cached_blocks : list bref) : result (option (list bref)) :=
  match gids with
  | [] => Ok (Some cached_blocks)
  | group_id :: gids' =>
      key ← make_block_hash_with_group_id hash group_id;
      block ← get_one_block (cached_block_hash_to_block p) key;
      match block with
      | None => Ok None
      | Some b => get_cached_block_loop p hash gids' (cached_blocks ++ [b])
      end
  end.
Definition get_cached_block (p : BlockPool) (hash : bytes) (kv_cache_group_ids : list Z)
    : result (option (list bref)) :=
  get_cached_block_loop p hash kv_cache_group_ids [].

(** [_get_partial_block_hash]. *)
Definition get_partial_block_hash (p : BlockPool) (r : Request) (num_tokens : Z) : result bytes :=
  if pool_hash_block_size p =? 0 then Raise ZeroDivisionError else
  _ ← assert_ (num_tokens mod pool_hash_block_size p =? 0);
  let num_hash_blocks := num_tokens / pool_hash_block_size p in
  _ ← assert_ ((0 <? num_hash_blocks) && (num_hash_blocks <=? zlen (block_hashes r)));
  py_index (block_hashes r) (num_hash_blocks - 1).

(** [_get_partial_block_parent_hash_and_start]. *)
Definition get_partial_block_parent_hash_and_start (p : BlockPool) (r : Request) (num_tokens : Z)
    : result (option bytes * Z) :=
  if pool_hash_block_size p =? 0 then Raise ZeroDivisionError else
  let num_hash_blocks := num_tokens / pool_hash_block_size p in
  parent_hash ←
    (if 1 <? num_hash_blocks then h ← py_index (block_hashes r) (num_hash_blocks - 2); Ok (Some h)
     else Ok None);
  Ok (parent_hash, (num_hash_blocks - 1) * pool_hash_block_size p).

Section Pool.
Context `{PoolEnv}.

Definition convert_hash (h : bytes) : ExternalBlockHash :=
  maybe_convert_block_hash use_int_block_hashes h.

(** [_remove_cached_block_hashes]. *)
Fixpoint pop_all (keys : list bytes) (id : Z) (m : BlockHashToBlockMap)
    : list bytes * BlockHashToBlockMap :=
  match keys with
  | [] => ([], m)
  | k :: keys' =>
      let '(popped, m) := map_pop k id m in
      let '(removed, m) := pop_all keys' id m in
      (if bool_decide (is_Some popped) then k :: removed else removed, m)
  end.

Definition remove_cached_block_hashes (b : bref) (p : BlockPool) : list bytes * BlockPool :=
  let block_hashes :=
    option_list (block_hash (pheap p b)) ++
    match cached_block_hashes_by_block p !! block_id b with Some s => set_iter s | None => [] end in
  let extra := delete (block_id b) (cached_block_hashes_by_block p) in
  match block_hashes with
  | [] => ([], with_cache (cached_block_hash_to_block p) extra p)
  | _ =>
      let '(removed, m) := pop_all block_hashes (block_id b) (cached_block_hash_to_block p) in
      (removed, with_heap (reset_hash b (pheap p)) (with_cache m extra p))
  end.

(** [_emit_block_removed_events]. *)
Definition emit_block_removed_events (keys : list bytes) (p : BlockPool) : BlockPool :=
  if negb (enable_kv_cache_events p) then p else
  with_events (kv_event_queue p ++
    ((fun k => BlockRemoved [convert_hash (get_block_hash k)] (get_group_id k)) <$> keys)) p.

(** [_insert_block_hash]. *)
Definition insert_block_hash (key : bytes) (b : bref) (num_tokens : option Z) (p : BlockPool)
    : result BlockPool :=
  if bool_decide (block_hash (pheap p b) = Some key) then Ok p else
  if contain (cached_block_hash_to_block p) key (block_id b) then Ok p else
  p ← match block_hash (pheap p b) with
    | None => h ← set_block_hash b key num_tokens (pheap p); Ok (with_heap h p)
    | Some _ =>
        let x := cached_block_hashes_by_block p in
        Ok (with_cache (cached_block_hash_to_block p)
              (<[block_id b := {[key]} ∪ default ∅ (x !! block_id b)]> x) p)
    end;
  Ok (with_cache (map_insert key b (cached_block_hash_to_block p))
        (cached_block_hashes_by_block p) p).

(** [_maybe_evict_cached_block]. *)
Definition maybe_evict_cached_block (b : bref) (p : BlockPool) : bool * BlockPool :=
  let '(evicted_hashes, p) := remove_cached_block_hashes b p in
  match evicted_hashes with
  | [] => (false, p)
  | _ => (true, emit_block_removed_events evicted_hashes p)
  end.

(** [_build_block_stored_event]. *)
Definition build_block_stored_event (r : Request) (hashes : list ExternalBlockHash)
    (parent : option ExternalBlockHash) (start_token_idx end_token_idx block_size group_id : Z)
    (extra_keys_list : list (option (list extra_key))) : KVCacheEvent :=
  BlockStored hashes parent (py_slice (all_token_ids r) start_token_idx end_token_idx) block_size
    (lora_int_id <$> lora_request r) (lora_name <$> lora_request r)
    (if bool_decide (extra_keys_list = []) then None else Some extra_keys_list) group_id.

(** Whether [cache_full_blocks] skips entry [i]: a null block, or masked out. *)
Definition skip_block (p : BlockPool) (mask : option (list bool)) (i : Z) (b : bref) : result bool :=
  if is_null (pheap p b) then Ok true else
  match mask with
  | None => Ok false
  | Some mask => m ← py_index mask i; Ok (negb m)
  end.

(** The body of the [for i, blk in enumerate(new_full_blocks)] loop. *)
Definition cache_one_block (num_cached_blocks block_size group_id : Z) (mask : option (list bool))
    (new_block_hashes : list bytes) (ib : Z * bref) (s : BlockPool * list ExternalBlockHash)
    : result (BlockPool * list ExternalBlockHash) :=
  let '(i, b) := ib in let '(p, new_hashes) := s in
  skip ← skip_block p mask i b;
  if (skip : bool) then Ok (p, new_hashes) else
  hash ← py_index new_block_hashes i;
  let num_hash_tokens := (num_cached_blocks + i + 1) * block_size in
  key ← make_block_hash_with_group_id hash group_id;
  p ← match block_hash (pheap p b) with
    | None => Ok p
    | Some _ =>
        _ ← assert_ (match block_hash_num_tokens (pheap p b) with
                     | Some n => n <? num_hash_tokens | None => false end);
        let '(removed, p) := remove_cached_block_hashes b p in
        Ok (emit_block_removed_events removed p)
    end;
  p ← insert_block_hash key b (Some num_hash_tokens) p;
  Ok (p, if enable_kv_cache_events p then new_hashes ++ [convert_hash hash] else new_hashes).

(** The loop of [cache_full_blocks] that collects the extra keys of the event. *)
Definition collect_extra_keys (p : BlockPool) (blocks : list bref) (num_cached_blocks block_size : Z)
    (mask : option (list bool)) (i : Z)
    (s : list (option (list extra_key)) * Z * Request)
    : result (list (option (list extra_key)) * Z * Request) :=
  let '(extra_keys_list, curr_mm_idx, r) := s in
  b ← py_index blocks i;
  skip ← skip_block p mask (i - num_cached_blocks) b;
  if (skip : bool) then Ok (extra_keys_list, curr_mm_idx, r) else
  let block_start := i * block_size in
  '(extra_keys, curr_mm_idx, r) ←
    generate_block_hash_extra_keys env_sha256 r block_start (block_start + block_size) curr_mm_idx;
  Ok (extra_keys_list ++ [extra_keys], curr_mm_idx, r).

(** [block_hashes[num_cached_blocks:]]. *)
Definition hash_list_from (l : BlockHashList) (a : Z) : result (list bytes) :=
  match l with
  | Hashes hs => Ok (py_from hs a)
  | WithBlockSize _ _ => hash_list_slice l a (hash_list_len l)
  end.

(** [cache_full_blocks]. *)
Definition cache_full_blocks (r : Request) (blocks : list bref)
    (num_cached_blocks num_full_blocks block_size kv_cache_group_id : Z)
    (block_mask : option (list bool)) (p : BlockPool) : result (Request * BlockPool) :=
  if num_full_blocks <=? num_cached_blocks then Ok (r, p) else
  let new_full_blocks := py_slice blocks num_cached_blocks num_full_blocks in
  _ ← assert_ (match block_mask with
               | None => true | Some m => zlen m =? zlen new_full_blocks end);
  hashes ← resolve_block_hashes (Hashes (block_hashes r)) (pool_hash_block_size p) block_size
             false None;
  new_block_hashes ← hash_list_from hashes num_cached_blocks;
  '(p, new_hashes) ←
    for_each (cache_one_block num_cached_blocks block_size kv_cache_group_id block_mask
                new_block_hashes) (enumerate new_full_blocks) (p, []);
  if negb (enable_kv_cache_events p) then Ok (r, p) else
  parent ← (if num_cached_blocks =? 0 then Ok None
            else h ← get_value_at hashes (num_cached_blocks - 1); Ok (Some (convert_hash h)));
  '(extra_keys_list, _, r) ←
    for_each (collect_extra_keys p blocks num_cached_blocks block_size block_mask)
      (py_range num_cached_blocks num_full_blocks) ([], 0, r);
  Ok (r, with_events (kv_event_queue p ++
    [build_block_stored_event r new_hashes parent (num_cached_blocks * block_size)
       (num_full_blocks * block_size) block_size kv_cache_group_id extra_keys_list]) p).

(** [emit_cached_block_events]. *)
Definition emit_cached_block_events (r : Request) (num_cached_blocks block_size kv_cache_group_id : Z)
    (p : BlockPool) : result (Request * BlockPool) :=
  if negb (enable_kv_cache_events p) || (num_cached_blocks =? 0) then Ok (r, p) else
  hashes ← resolve_block_hashes (Hashes (block_hashes r)) (pool_hash_block_size p) block_size
             false None;
  '(cached_hashes, extra_keys_list, _, r) ←
    for_each (fun i '(cached_hashes, extra_keys_list, curr_mm_idx, r) =>
        let block_start := i * block_size in
        h ← get_value_at hashes i;
        '(extra_keys, curr_mm_idx, r) ←
          generate_block_hash_extra_keys env_sha256 r block_start (block_start + block_size)
            curr_mm_idx;
        Ok (cached_hashes ++ [convert_hash h], extra_keys_list ++ [extra_keys], curr_mm_idx, r))
      (py_range 0 num_cached_blocks) ([], [], 0, r);
  if bool_decide (cached_hashes = []) then Ok (r, p) else
  Ok (r, with_events (kv_event_queue p ++
    [build_block_stored_event r cached_hashes None 0 (num_cached_blocks * block_size) block_size
       kv_cache_group_id extra_keys_list]) p).

(** [cache_partial_block]. *)
Definition cache_partial_block (r : Request) (b : bref) (num_tokens kv_cache_group_id block_size : Z)
    (p : BlockPool) : result (option bytes * Request * BlockPool) :=
  if is_null (pheap p b) then Ok (None, r, p) else
  _ ← assert_ (pool_hash_block_size p <? block_size);
  _ ← (if pool_hash_block_size p =? 0 then Raise ZeroDivisionError
       else assert_ (block_size mod pool_hash_block_size p =? 0));
  _ ← (if block_size =? 0 then Raise ZeroDivisionError
       else assert_ (negb (num_tokens mod block_size =? 0)));
  hash ← get_partial_block_hash p r num_tokens;
  let num_hash_blocks := num_tokens / pool_hash_block_size p in
  let boundary := num_hash_blocks * pool_hash_block_size p in
  key ← make_block_hash_with_group_id hash kv_cache_group_id;
  let already_cached := bool_decide (block_hash (pheap p b) = Some key)
    || contain (cached_block_hash_to_block p) key (block_id b) in
  let outgrown := match block_hash (pheap p b), block_hash_num_tokens (pheap p b) with
    | Some _, Some n => n <? boundary | _, _ => false end in
  let p := if negb already_cached && outgrown
    then let '(removed, p) := remove_cached_block_hashes b p in
         emit_block_removed_events removed p
    else p in
  p ← insert_block_hash key b (Some boundary) p;
  if enable_kv_cache_events p && negb already_cached then
    '(parent_hash, block_start) ← get_partial_block_parent_hash_and_start p r num_tokens;
    '(extra_keys, _, r) ←
      generate_block_hash_extra_keys env_sha256 r block_start num_tokens
        (if 0 <? block_start then -1 else 0);
    Ok (Some key, r, with_events (kv_event_queue p ++
      [BlockStored [convert_hash hash] (convert_hash <$> parent_hash)
         (py_slice (all_token_ids r) block_start num_tokens) (num_tokens - block_start)
         (lora_int_id <$> lora_request r) (lora_name <$> lora_request r)
         (Some [extra_keys]) kv_cache_group_id]) p)
  else Ok (Some key, r, p).

(** [move_block_hashes]. *)
Definition move_block_hashes (src_block dst_block : bref) (p : BlockPool) : result BlockPool :=
  _ ← assert_ (bool_decide (block_hash (pheap p dst_block) = None));
  _ ← assert_ (bool_decide (cached_block_hashes_by_block p !! block_id dst_block = None));
  let num_tokens := block_hash_num_tokens (pheap p src_block) in
  let '(removed, p) := remove_cached_block_hashes src_block p in
  for_each (fun k p => insert_block_hash k dst_block num_tokens p) removed p.

(** The body of [get_new_blocks]'s loop. *)
Definition allocate_block (b : bref) (p : BlockPool) : result BlockPool :=
  let p := if enable_caching p then snd (maybe_evict_cached_block b p) else p in
  _ ← assert_ (ref_cnt (pheap p b) =? 0);
  Ok (with_heap (heap_upd (pheap p) b (with_ref_cnt (ref_cnt (pheap p b) + 1))) p).

(** [get_new_blocks]. *)
Definition get_new_blocks (num_blocks : Z) (p : BlockPool) : result (list bref * BlockPool) :=
  if get_num_free_blocks p <? num_blocks then Raise ValueError else
  '(ret, q) ← popleft_n num_blocks (free_block_queue p);
  p ← for_each allocate_block ret (with_queue q p);
  Ok (ret, p).

(** [touch]. *)
Definition touch_one (b : bref) (p : BlockPool) : result BlockPool :=
  q ← (if (ref_cnt (pheap p b) =? 0) && negb (is_null (pheap p b))
       then remove b (free_block_queue p) else Ok (free_block_queue p));
  let p := with_queue q p in
  Ok (with_heap (heap_upd (pheap p) b (with_ref_cnt (ref_cnt (pheap p b) + 1))) p).
Definition touch (blocks : list bref) (p : BlockPool) : result BlockPool :=
  for_each touch_one blocks p.

(** [free_blocks]. *)
Definition free_one (caching : bool) (b : bref) (s : heap * list bref * list bref)
    : heap * list bref * list bref :=
  let '(h, blocks_with_hash, blocks_without_hash) := s in
  let h := heap_upd h b (with_ref_cnt (ref_cnt (h b) - 1)) in
  if (ref_cnt (h b) =? 0) && negb (is_null (h b)) then
    if bool_decide (block_hash (h b) = None) && caching
    then (h, blocks_with_hash, blocks_without_hash ++ [b])
    else (h, blocks_with_hash ++ [b], blocks_without_hash)
  else (h, blocks_with_hash, blocks_without_hash).
Definition free_blocks (ordered_blocks : list bref) (p : BlockPool) : result BlockPool :=
  let '(h, blocks_with_hash, blocks_without_hash) :=
    fold_left (fun s b => free_one (enable_caching p) b s) ordered_blocks (pheap p, [], []) in
  q ← prepend_n blocks_without_hash (mkQueue h (num_free_blocks (free_block_queue p)));
  q ← append_n blocks_with_hash q;
  Ok (with_queue q p).

(** [evict_blocks]; [block_ids] lists the set in its iteration order. *)
Definition evict_blocks (block_ids : list Z) (p : BlockPool) : result BlockPool :=
  for_each (fun id p =>
      _ ← assert_ (id <? zlen (pool_blocks p));
      b ← py_index (pool_blocks p) id;
      Ok (snd (maybe_evict_cached_block b p)))
    block_ids p.

(** [reset_prefix_cache]. *)
Definition reset_prefix_cache (p : BlockPool) : bool * BlockPool :=
  if negb (num_gpu_blocks p - get_num_free_blocks p =? 1) then (false, p) else
  let h := fold_left (fun h b => reset_hash b h) (pool_blocks p) (pheap p) in
  let p := with_heap h (with_cache ∅ ∅ p) in
  (true, if enable_kv_cache_events p
         then with_events (kv_event_queue p ++ [AllBlocksCleared]) p else p).

(** [take_events]. *)
Definition take_events (p : BlockPool) : list KVCacheEvent * BlockPool :=
  if negb (enable_kv_cache_events p) then ([], p)
  else (kv_event_queue p, with_events [] p).

End Pool.

(** * The map from keys to blocks *)

Definition entry_blocks (e : CacheEntry) : list bref :=
  match e with Single b => [b] | Multi d => d.*2 end.

(** [key] maps to [b] (among others). *)
Definition cached_at (m : BlockHashToBlockMap) (key : bytes) (b : bref) : Prop :=
  exists e, m !! key = Some e /\ b ∈ entry_blocks e.

(** Dicts are not empty and file each block under its id. *)
Definition entry_wf (e : CacheEntry) : Prop :=
  match e with
  | Single b => exists i, b = Blk i
  | Multi d =>
      d <> [] /\ NoDup (od_keys d) /\
      forall id b, (id, b) ∈ d -> exists i, b = Blk i /\ id = Z.of_nat i
  end.

Definition map_wf (m : BlockHashToBlockMap) : Prop :=
  forall key e, m !! key = Some e -> entry_wf e.

Lemma entry_blocks_multi d i :
  entry_wf (Multi d) -> Blk i ∈ entry_blocks (Multi d) <-> (Z.of_nat i, Blk i) ∈ d.
Proof.
  intros (_ & _ & Hd). simpl. rewrite list_elem_of_fmap. split.
  - intros ([id b] & Hb & Hin). simpl in Hb. subst b.
    destruct (Hd _ _ Hin) as (j & [= ->] & ->). done.
  - intros Hin. by exists (Z.of_nat i, Blk i).
Qed.

Lemma cached_at_block m key b : map_wf m -> cached_at m key b -> exists i, b = Blk i.
Proof.
  intros Hm (e & He & Hb). pose proof (Hm _ _ He) as Hwf. destruct e as [b0|d]; simpl in *.
  - apply list_elem_of_singleton in Hb as ->. done.
  - destruct Hwf as (_ & _ & Hd). apply list_elem_of_fmap in Hb as ([id b'] & -> & Hin).
    destruct (Hd _ _ Hin) as (i & -> & _). by exists i.
Qed.

Lemma get_one_block_spec m key :
  map_wf m ->
  (get_one_block m key = Ok None /\ forall b, ~ cached_at m key b) \/
  exists b, get_one_block m key = Ok (Some b) /\ cached_at m key b.
Proof.
  intros Hm. unfold get_one_block, cached_at. destruct (m !! key) as [e|] eqn:E.
  - right. pose proof (Hm _ _ E) as Hwf.
    destruct e as [b|[|[id b] d]]; simpl in *; [..|].
    + exists b. split; [done|]. exists (Single b). split; [done|]. by apply list_elem_of_singleton.
    + by destruct Hwf.
    + exists b. split; [done|]. eexists. split; [done|]. csimpl. by apply elem_of_cons; left.
  - left. split; [done|]. intros b (e & ? & _). done.
Qed.

Lemma contain_spec m key i :
  map_wf m -> contain m key (Z.of_nat i) = true <-> cached_at m key (Blk i).
Proof.
  intros Hm. unfold contain, cached_at. destruct (m !! key) as [e|] eqn:E.
  2:{ split; [done|]. by intros (e & ? & _). }
  pose proof (Hm _ _ E) as Hwf. trans (Blk i ∈ entry_blocks e).
  2:{ split; [by eauto|]. by intros (e' & [= <-] & ?). }
  destruct e as [b|d].
  - destruct Hwf as [j ->]. simpl. rewrite Z.eqb_eq, list_elem_of_singleton.
    split; [intros ->%Nat2Z.inj; done|congruence].
  - rewrite entry_blocks_multi, od_mem_true by done. destruct Hwf as (_ & Hnd & Hd).
    split.
    + intros Hk. apply list_elem_of_fmap in Hk as ([id b] & Hid & Hin). simpl in Hid. subst id.
      destruct (Hd _ _ Hin) as (j & -> & ->%Nat2Z.inj). done.
    + intros Hin. apply list_elem_of_fmap. by exists (Z.of_nat i, Blk i).
Qed.

Lemma map_wf_insert m key e : map_wf m -> entry_wf e -> map_wf (<[key := e]> m).
Proof.
  intros Hm He k e'. rewrite lookup_insert_Some. intros [[_ <-]|[_ ?]]; [done|by eapply Hm].
Qed.

Lemma map_wf_delete m key : map_wf m -> map_wf (delete key m).
Proof. intros Hm k e. rewrite lookup_delete_Some. intros [_ ?]. by eapply Hm. Qed.

Lemma cached_at_insert m key e k b :
  cached_at (<[key := e]> m) k b <-> (k = key /\ b ∈ entry_blocks e) \/ (k <> key /\ cached_at m k b).
Proof.
  unfold cached_at. destruct (decide (k = key)) as [->|Hne].
  - rewrite lookup_insert_eq. naive_solver.
  - rewrite lookup_insert_ne by done. naive_solver.
Qed.

Lemma cached_at_delete m key k b :
  cached_at (delete key m) k b <-> k <> key /\ cached_at m k b.
Proof.
  unfold cached_at. destruct (decide (k = key)) as [->|Hne].
  - rewrite lookup_delete_eq. naive_solver.
  - rewrite lookup_delete_ne by done. naive_solver.
Qed.

Lemma map_insert_spec m key i :
  map_wf m ->
  map_wf (map_insert key (Blk i) m) /\
  forall k j, cached_at (map_insert key (Blk i) m) k (Blk j) <->
    cached_at m k (Blk j) \/ (k = key /\ j = i).
Proof.
  intros Hm. unfold map_insert.
  destruct (m !! key) as [e|] eqn:E.
  2:{ split; [apply map_wf_insert; [done|by exists i]|]. intros k j.
      rewrite cached_at_insert. simpl. rewrite list_elem_of_singleton.
      destruct (decide (k = key)) as [->|]; [|naive_solver].
      assert (~ cached_at m key (Blk j)) by (intros (? & ? & _); congruence).
      split; [intros [[_ [= ->]]|]; tauto|]. intros [?|[_ ->]]; [done|tauto]. }
  pose proof (Hm _ _ E) as Hwf.
  set (d := match e with Single b0 => [(block_id b0, b0)] | Multi d => d end).
  assert (entry_wf (Multi d) /\ forall j, Blk j ∈ entry_blocks (Multi d) <-> cached_at m key (Blk j))
    as [Hd Hdm].
  { split.
    - unfold d. destruct e as [b0|d0]; [|done]. destruct Hwf as [j ->].
      split; [done|]. split; [apply NoDup_singleton|].
      intros id b [= -> ->]%list_elem_of_singleton. by exists j.
    - intros j. unfold cached_at. rewrite E. unfold d.
      destruct e as [b0|d0]; simpl; naive_solver. }
  assert (entry_wf (Multi (od_set (Z.of_nat i) (Blk i) d))) as Hd'.
  { destruct Hd as (Hne & Hnd & Hin). split; [|split; [by apply od_set_NoDup|]].
    - destruct d as [|[]]; simpl; [done|]. by case_decide.
    - intros id b [[-> ->]|[_ ?]]%od_set_elem; [by exists i|by apply Hin|done]. }
  assert (match e with
    | Single b0 => <[key := Multi (od_set (block_id (Blk i)) (Blk i) [(block_id b0, b0)])]> m
    | Multi d => <[key := Multi (od_set (block_id (Blk i)) (Blk i) d)]> m
    end = <[key := Multi (od_set (Z.of_nat i) (Blk i) d)]> m) as -> by (unfold d; by destruct e).
  split; [by apply map_wf_insert|]. intros k j. rewrite cached_at_insert.
  destruct (decide (k = key)) as [->|]; [|tauto].
  rewrite <-Hdm, !entry_blocks_multi by done. destruct Hd as (_ & Hnd & _).
  rewrite od_set_elem by done.
  destruct (decide (j = i)) as [->|Hji]; [tauto|].
  assert (Z.of_nat j <> Z.of_nat i) by lia. naive_solver.
Qed.

Lemma map_pop_spec m key i popped m' :
  map_wf m -> map_pop key (Z.of_nat i) m = (popped, m') ->
  map_wf m' /\
  (popped = if bool_decide (contain m key (Z.of_nat i) = true) then Some (Blk i) else None) /\
  forall k j, cached_at m' k (Blk j) <-> cached_at m k (Blk j) /\ ~ (k = key /\ j = i).
Proof.
  intros Hm. unfold map_pop, contain. destruct (m !! key) as [e|] eqn:E.
  2:{ intros [= <- <-]. split_and!; [done|by rewrite bool_decide_false|].
      intros k j. split; [|tauto]. intros Hc. split; [done|]. intros [-> ->].
      destruct Hc as (e & ? & _). congruence. }
  pose proof (Hm _ _ E) as Hwf.
  assert (forall j, cached_at m key (Blk j) <-> Blk j ∈ entry_blocks e) as Hat.
  { intros j. unfold cached_at. rewrite E. naive_solver. }
  destruct e as [b|d].
  - destruct Hwf as [i0 ->]. simpl.
    destruct (Z.eqb_spec (Z.of_nat i0) (Z.of_nat i)) as [Heq%Nat2Z.inj|Hne].
    + intros [= <- <-]. subst i0. split_and!; [by apply map_wf_delete|by rewrite bool_decide_true|].
      intros k j. rewrite cached_at_delete. destruct (decide (k = key)) as [->|]; [|tauto].
      rewrite Hat. simpl. rewrite list_elem_of_singleton. naive_solver.
    + intros [= <- <-]. rewrite insert_delete_eq, insert_id by done.
      split_and!; [done|by rewrite bool_decide_false|].
      intros k j. split; [|tauto]. intros Hc. split; [done|]. intros [-> ->].
      apply Hat, list_elem_of_singleton in Hc. naive_solver.
  - intros [= <- <-]. pose proof Hwf as (Hne & Hnd & Hd).
    assert (forall j, (Z.of_nat j, Blk j) ∈ od_del (Z.of_nat i) d <->
      cached_at m key (Blk j) /\ j <> i) as Hdel.
    { intros j. rewrite od_del_elem, Hat, entry_blocks_multi by done.
      split; intros [? ?]; split; try done; naive_solver lia. }
    assert (entry_wf (Multi (od_del (Z.of_nat i) d)) \/ od_del (Z.of_nat i) d = []) as Hwf'.
    { destruct (decide (od_del (Z.of_nat i) d = [])); [by right|left].
      split; [done|]. split; [by apply od_del_NoDup|].
      intros id b [_ ?]%od_del_elem; [by apply Hd|done]. }
    split_and!.
    + destruct (Z.ltb_spec 0 (zlen (od_del (Z.of_nat i) d))) as [Hl|Hl];
        [|by apply map_wf_delete].
      apply map_wf_insert; [by apply map_wf_delete|].
      destruct Hwf' as [|Hnil]; [done|]. rewrite Hnil in Hl. simpl in Hl. lia.
    + unfold od_mem. destruct (od_get (Z.of_nat i) d) as [b|] eqn:Eb.
      * rewrite bool_decide_true by done. apply od_get_Some_elem_of in Eb.
        destruct (Hd _ _ Eb) as (j & -> & ->%Nat2Z.inj). done.
      * by rewrite bool_decide_false.
    + intros k j. destruct (Z.ltb_spec 0 (zlen (od_del (Z.of_nat i) d))) as [Hl|Hl].
      * rewrite cached_at_insert, cached_at_delete.
        destruct (decide (k = key)) as [->|]; [|tauto].
        destruct Hwf' as [Hwf'|Hnil]; [|rewrite Hnil in Hl; simpl in Hl; lia].
        rewrite entry_blocks_multi, Hdel by done. naive_solver.
      * rewrite cached_at_delete. destruct (decide (k = key)) as [->|]; [|tauto].
        specialize (Hdel j). assert (od_del (Z.of_nat i) d = []) as Hnil
          by (destruct (od_del (Z.of_nat i) d); simpl in *; [done|lia]).
        rewrite Hnil, elem_of_nil in Hdel. naive_solver.
Qed.

Lemma pheap_with_heap h p : pheap (with_heap h p) = h.
Proof. done. Qed.
Lemma pheap_with_cache m x p : pheap (with_cache m x p) = pheap p.
Proof. done. Qed.

(** * The hashes of the blocks and the map agree *)

(** All keys of block [i]: its primary hash and the extra ones. *)
Definition keys_at (h : heap) (x : gmap Z (gset bytes)) (i : nat) : gset bytes :=
  list_to_set (option_list (block_hash (h (Blk i)))) ∪ default ∅ (x !! Z.of_nat i).

Definition pool_keys (p : BlockPool) (i : nat) : gset bytes :=
  keys_at (pheap p) (cached_block_hashes_by_block p) i.

Record hash_inv (n : Z) (h : heap) (x : gmap Z (gset bytes)) (m : BlockHashToBlockMap) : Prop := {
  hi_map : map_wf m;
  hi_cached : forall key i, cached_at m key (Blk i) <-> key ∈ keys_at h x i;
  hi_range : forall i key, key ∈ keys_at h x i -> (0 < i)%nat /\ Z.of_nat i < n;
  hi_extra : forall i s, x !! Z.of_nat i = Some s ->
    exists k, block_hash (h (Blk i)) = Some k /\ k ∉ s;
  hi_tokens : forall i,
    block_hash (h (Blk i)) = None <-> block_hash_num_tokens (h (Blk i)) = None
}.

Definition pool_hash_inv (p : BlockPool) : Prop :=
  hash_inv (num_gpu_blocks p) (pheap p) (cached_block_hashes_by_block p)
    (cached_block_hash_to_block p).

(** Two stores with the same hashes. *)
Definition same_hashes (h h' : heap) : Prop :=
  forall r, block_hash (h r) = block_hash (h' r) /\
    block_hash_num_tokens (h r) = block_hash_num_tokens (h' r).

Lemma keys_at_same h h' x i : same_hashes h h' -> keys_at h x i = keys_at h' x i.
Proof. intros Hs. unfold keys_at. by rewrite (proj1 (Hs _)). Qed.

Lemma hash_inv_same n h h' x m : same_hashes h' h -> hash_inv n h x m -> hash_inv n h' x m.
Proof.
  intros Hs [Hm Hc Hr Hx Ht]. split.
  - done.
  - intros. by rewrite (keys_at_same h' h), Hc.
  - intros i key. rewrite (keys_at_same h' h) by done. apply Hr.
  - intros i s Hi. rewrite (proj1 (Hs _)). by apply Hx.
  - intros i. by rewrite (proj1 (Hs _)), (proj2 (Hs _)).
Qed.

Lemma same_data_hashes h h' : same_data h h' -> same_hashes h h'.
Proof. intros Hs r. destruct (same_data_fields _ _ r Hs) as (_ & ? & ? & _). done. Qed.

(** What the hash bookkeeping leaves alone. *)
Record hash_frame (p p' : BlockPool) : Prop := {
  hf_num : num_gpu_blocks p' = num_gpu_blocks p;
  hf_caching : enable_caching p' = enable_caching p;
  hf_size : pool_hash_block_size p' = pool_hash_block_size p;
  hf_enabled : enable_kv_cache_events p' = enable_kv_cache_events p;
  hf_free : num_free_blocks (free_block_queue p') = num_free_blocks (free_block_queue p);
  hf_shape : same_shape (pheap p') (pheap p);
  hf_ref : forall r, ref_cnt (pheap p' r) = ref_cnt (pheap p r);
  hf_null : forall r, is_null (pheap p' r) = is_null (pheap p r)
}.

#[export] Instance hash_frame_refl : Reflexive hash_frame.
Proof. by split. Qed.

#[export] Instance hash_frame_trans : Transitive hash_frame.
Proof.
  intros p1 p2 p3 [] []. split; try congruence.
  intros r. destruct (hf_shape0 r), (hf_shape1 r). split; congruence.
Qed.

Section PoolHashes.
Context `{PoolEnv}.

Lemma pop_all_spec keys i m removed m' :
  map_wf m -> pop_all keys (Z.of_nat i) m = (removed, m') ->
  map_wf m' /\
  (forall k j, cached_at m' k (Blk j) <-> cached_at m k (Blk j) /\ ~ (j = i /\ k ∈ keys)) /\
  (NoDup keys -> (forall k, k ∈ keys -> cached_at m k (Blk i)) -> removed = keys).
Proof.
  revert m removed m'. induction keys as [|key keys IH]; intros m removed m' Hm; simpl.
  { intros [= <- <-]. split_and!; [done|set_solver|done]. }
  destruct (map_pop key (Z.of_nat i) m) as [popped m1] eqn:E1.
  destruct (pop_all keys (Z.of_nat i) m1) as [removed1 m2] eqn:E2.
  destruct (map_pop_spec _ _ _ _ _ Hm E1) as (Hm1 & Hpop & Hc1).
  destruct (IH _ _ _ Hm1 E2) as (Hm2 & Hc2 & Hrem).
  intros [= <- <-]. split_and!; [done| |].
  - intros k j. rewrite Hc2, Hc1, elem_of_cons. naive_solver.
  - intros [Hk Hnd]%NoDup_cons Hall.
    rewrite bool_decide_true in Hpop by (apply contain_spec; set_solver). subst popped.
    rewrite bool_decide_true by done. f_equal. apply Hrem; [done|].
    intros k Hin. apply Hc1. split; [set_solver|]. intros [-> _]. done.
Qed.

Lemma set_iter_elem (s : gset bytes) k : k ∈ set_iter s <-> k ∈ s.
Proof. by rewrite set_iter_perm, elem_of_elements. Qed.

Lemma set_iter_NoDup (s : gset bytes) : NoDup (set_iter s).
Proof. rewrite set_iter_perm. apply NoDup_elements. Qed.

(** The keys of a block in the order [_remove_cached_block_hashes] visits. *)
Definition key_list (p : BlockPool) (b : bref) : list bytes :=
  option_list (block_hash (pheap p b)) ++
  match cached_block_hashes_by_block p !! block_id b with Some s => set_iter s | None => [] end.

Lemma key_list_spec p i :
  pool_hash_inv p ->
  NoDup (key_list p (Blk i)) /\ forall k, k ∈ key_list p (Blk i) <-> k ∈ pool_keys p i.
Proof.
  intros [_ _ _ Hx _]. unfold key_list, pool_keys, keys_at. simpl.
  specialize (Hx i). split.
  - destruct (_ !! Z.of_nat i) as [s|] eqn:Es.
    + destruct (Hx s eq_refl) as (k & Hk & Hnot). rewrite Hk. simpl.
      apply NoDup_cons. rewrite set_iter_elem. split; [done|apply set_iter_NoDup].
    + rewrite app_nil_r. destruct (block_hash _); simpl; [apply NoDup_singleton|apply NoDup_nil_2].
  - intros k. rewrite elem_of_app, elem_of_union, elem_of_list_to_set.
    destruct (_ !! Z.of_nat i) as [s|]; simpl; [by rewrite set_iter_elem|set_solver].
Qed.

Lemma keys_at_reset h x i j :
  keys_at (reset_hash (Blk i) h) (delete (Z.of_nat i) x) j =
    if decide (j = i) then ∅ else keys_at h x j.
Proof.
  unfold keys_at, reset_hash. rewrite heap_upd_lookup.
  destruct (decide (j = i)) as [->|Hne].
  - rewrite decide_True, lookup_delete_eq by done. simpl. set_solver.
  - rewrite decide_False, lookup_delete_ne by (congruence || lia). done.
Qed.

Lemma remove_cached_block_hashes_spec p i removed p' :
  pool_hash_inv p -> remove_cached_block_hashes (Blk i) p = (removed, p') ->
  pool_hash_inv p' /\ hash_frame p p' /\ removed = key_list p (Blk i) /\
  kv_event_queue p' = kv_event_queue p /\
  block_hash (pheap p' (Blk i)) = None /\
  (forall r, r <> Blk i -> pheap p' r = pheap p r) /\
  (forall j, pool_keys p' j = if decide (j = i) then ∅ else pool_keys p j).
Proof.
  intros Hinv. destruct (key_list_spec p i Hinv) as [Hnd Hkeys].
  unfold remove_cached_block_hashes. fold (key_list p (Blk i)).
  destruct (key_list p (Blk i)) as [|k0 ks] eqn:Ekl.
  - intros [= <- <-].
    assert (block_hash (pheap p (Blk i)) = None) as Hnone.
    { unfold key_list in Ekl. by destruct (block_hash (pheap p (Blk i))). }
    assert (cached_block_hashes_by_block p !! Z.of_nat i = None) as Hx.
    { destruct (_ !! Z.of_nat i) as [s|] eqn:Es; [|done].
      destruct (hi_extra _ _ _ _ Hinv i s Es) as (k & ? & _). congruence. }
    simpl block_id. rewrite (delete_id _ _ Hx).
    assert (with_cache (cached_block_hash_to_block p) (cached_block_hashes_by_block p) p = p) as ->
      by (by destruct p).
    split_and!; try done. intros j. case_decide; [subst j|done].
    apply set_eq. intros k. rewrite <-Hkeys. set_solver.
  - rewrite <-Ekl in *. simpl block_id.
    destruct (pop_all _ _ _) as [rem m] eqn:Epop.
    destruct (pop_all_spec _ _ _ _ _ (hi_map _ _ _ _ Hinv) Epop) as (Hm & Hc & Hrem).
    assert (rem = key_list p (Blk i)) as ->.
    { apply Hrem; [done|]. intros k Hk. apply (hi_cached _ _ _ _ Hinv). by apply Hkeys. }
    intros [= <- <-]. simpl.
    split; [|split; [|split_and!]]; try done.
    + pose proof (keys_at_reset (pheap p) (cached_block_hashes_by_block p) i) as Hka.
      split; simpl.
      * done.
      * intros key j. change (pheap _) with (reset_hash (Blk i) (pheap p)).
        rewrite Hka, Hc, (hi_cached _ _ _ _ Hinv).
        destruct (decide (j = i)) as [->|]; [|naive_solver].
        rewrite (Hkeys key). unfold pool_keys. set_solver.
      * intros j key. change (pheap _) with (reset_hash (Blk i) (pheap p)).
        rewrite Hka. case_decide; [set_solver|]. apply (hi_range _ _ _ _ Hinv).
      * intros j s. rewrite lookup_delete_Some. intros [Hne Hs].
        change (pheap _) with (reset_hash (Blk i) (pheap p)). unfold reset_hash.
        rewrite heap_upd_ne by congruence. by apply (hi_extra _ _ _ _ Hinv).
      * intros j. change (pheap _) with (reset_hash (Blk i) (pheap p)). unfold reset_hash.
        rewrite heap_upd_lookup. case_decide; [done|]. apply (hi_tokens _ _ _ _ Hinv).
    + split; try done; intros r; rewrite ?pheap_with_heap, ?pheap_with_cache;
        unfold reset_hash; rewrite ?heap_upd_lookup; by case_decide.
    + rewrite pheap_with_heap. unfold reset_hash.
      by rewrite heap_upd_eq.
    + intros r Hr. rewrite pheap_with_heap. unfold reset_hash.
      by rewrite heap_upd_ne.
    + intros j. apply keys_at_reset.
Qed.

Lemma insert_block_hash_spec p i key nt :
  pool_hash_inv p -> (0 < i)%nat -> Z.of_nat i < num_gpu_blocks p ->
  exists p', insert_block_hash key (Blk i) (Some nt) p = Ok p' /\
    pool_hash_inv p' /\ hash_frame p p' /\ kv_event_queue p' = kv_event_queue p /\
    (forall r, r <> Blk i -> pheap p' r = pheap p r) /\
    (forall j, pool_keys p' j = if decide (j = i) then {[key]} ∪ pool_keys p i else pool_keys p j) /\
    (block_hash (pheap p' (Blk i)) = match block_hash (pheap p (Blk i)) with
                                     | None => Some key | Some k => Some k end) /\
    (block_hash_num_tokens (pheap p' (Blk i)) = match block_hash (pheap p (Blk i)) with
        | None => Some nt | Some _ => block_hash_num_tokens (pheap p (Blk i)) end).
Proof.
  intros Hinv Hi Hn. unfold insert_block_hash.
  assert (forall q : BlockPool, (key ∈ pool_keys p i) ->
    forall j, pool_keys p j = if decide (j = i) then {[key]} ∪ pool_keys p i else pool_keys p j)
    as Hsame by (intros _ Hin j; case_decide; [subst; set_solver|done]).
  case_bool_decide as Hk.
  { exists p. rewrite Hk. split_and!; try done. apply (Hsame p). unfold pool_keys, keys_at.
    rewrite Hk. simpl. set_solver. }
  destruct (contain _ _ _) eqn:Econt.
  { apply contain_spec in Econt; [|apply (hi_map _ _ _ _ Hinv)].
    apply (hi_cached _ _ _ _ Hinv) in Econt.
    assert (is_Some (block_hash (pheap p (Blk i)))) as [k Hbk].
    { unfold keys_at in Econt. destruct (block_hash (pheap p (Blk i))) eqn:Eb; [by eexists|].
      destruct (_ !! Z.of_nat i) as [s|] eqn:Es; simpl in Econt; [|set_solver].
      destruct (hi_extra _ _ _ _ Hinv i s Es) as (k & ? & _). congruence. }
    exists p. rewrite Hbk. split_and!; try done. by apply (Hsame p). }
  destruct (map_insert_spec (cached_block_hash_to_block p) key i (hi_map _ _ _ _ Hinv)) as [Hm Hc].
  assert (key ∉ pool_keys p i) as Hfresh.
  { intros Hin. apply (hi_cached _ _ _ _ Hinv) in Hin.
    apply contain_spec in Hin; [|apply (hi_map _ _ _ _ Hinv)].
    simpl in Econt. congruence. }
  destruct (block_hash (pheap p (Blk i))) as [k|] eqn:Eb; simpl.
  - eexists. split; [done|].
    set (x' := <[Z.of_nat i := _]> (cached_block_hashes_by_block p)).
    assert (forall j, keys_at (pheap p) x' j =
      if decide (j = i) then {[key]} ∪ pool_keys p i else pool_keys p j) as Hka.
    { intros j. unfold pool_keys, keys_at, x'. destruct (decide (j = i)) as [->|Hne].
      - rewrite lookup_insert_eq. simpl. set_solver.
      - rewrite lookup_insert_ne by lia. done. }
    split_and!; try done.
    split; simpl; change (pheap _) with (pheap p).
    + done.
    + intros k' j. rewrite Hc, Hka, (hi_cached _ _ _ _ Hinv). unfold pool_keys.
      case_decide; [subst|]; set_solver.
    + intros j k'. rewrite Hka. case_decide; [by subst|]. apply (hi_range _ _ _ _ Hinv).
    + intros j s. unfold x'. rewrite lookup_insert_Some. intros [[Hj%Nat2Z.inj <-]|[_ Hs]].
      * subst j. exists k. split; [done|]. rewrite not_elem_of_union, not_elem_of_singleton.
        split; [congruence|]. destruct (_ !! Z.of_nat i) as [s|] eqn:Es; simpl; [|set_solver].
        destruct (hi_extra _ _ _ _ Hinv i s Es) as (k' & ? & ?). congruence.
      * by apply (hi_extra _ _ _ _ Hinv).
    + apply (hi_tokens _ _ _ _ Hinv).
  - unfold set_block_hash. rewrite Eb.
    rewrite (proj1 (hi_tokens _ _ _ _ Hinv i) Eb). simpl.
    eexists. split; [done|].
    set (h' := heap_upd (pheap p) (Blk i) (with_hash (Some key) (Some nt))).
    assert (cached_block_hashes_by_block p !! Z.of_nat i = None) as Hx.
    { destruct (_ !! Z.of_nat i) as [s|] eqn:Es; [|done].
      destruct (hi_extra _ _ _ _ Hinv i s Es) as (k & ? & _). congruence. }
    assert (forall j, keys_at h' (cached_block_hashes_by_block p) j =
      if decide (j = i) then {[key]} ∪ pool_keys p i else pool_keys p j) as Hka.
    { intros j. unfold pool_keys, keys_at, h'. destruct (decide (j = i)) as [->|Hne].
      - rewrite heap_upd_eq, Eb. simpl. set_solver.
      - rewrite heap_upd_ne by congruence. done. }
    split_and!; try done.
    + split; simpl; change (pheap _) with h'.
      * done.
      * intros k' j. rewrite Hc, Hka, (hi_cached _ _ _ _ Hinv). unfold pool_keys.
        case_decide; [subst|]; set_solver.
      * intros j k'. rewrite Hka. case_decide; [by subst|]. apply (hi_range _ _ _ _ Hinv).
      * intros j s Hs. unfold h'. rewrite heap_upd_ne by congruence.
        by apply (hi_extra _ _ _ _ Hinv).
      * intros j. unfold h'. rewrite heap_upd_lookup. case_decide; [done|].
        apply (hi_tokens _ _ _ _ Hinv).
    + split; try done; intros r; rewrite ?pheap_with_cache, ?pheap_with_heap; unfold h';
        rewrite ?heap_upd_lookup; by case_decide.
    + intros r Hr. rewrite ?pheap_with_cache, ?pheap_with_heap. unfold h'. by rewrite heap_upd_ne.
    + rewrite ?pheap_with_cache, ?pheap_with_heap. unfold h'. by rewrite heap_upd_eq.
    + rewrite ?pheap_with_cache, ?pheap_with_heap. unfold h'. by rewrite heap_upd_eq.
Qed.
End PoolHashes.

(** * The pool's invariant *)

(** Block ids the pool hands out; id 0 is the null block. *)
Definition valid_block (p : BlockPool) (i : nat) : Prop :=
  (0 < i)%nat /\ Z.of_nat i < num_gpu_blocks p.

(** [xs] is the free list in eviction order; [pending] are blocks taken off it
    whose reference count is still to be raised. Every other block but the null
    block is in use, and the hash bookkeeping is consistent. *)
Record pool_inv_pending (p : BlockPool) (xs pending : list nat) : Prop := {
  pi_queue : queue_repr (free_block_queue p) xs;
  pi_num : 0 < num_gpu_blocks p;
  pi_nodup : NoDup (xs ++ pending);
  pi_free : forall i, i ∈ xs ++ pending <->
    valid_block p i /\ ref_cnt (pheap p (Blk i)) = 0;
  pi_ref : forall i, valid_block p i -> 0 <= ref_cnt (pheap p (Blk i));
  pi_null : forall i, is_null (pheap p (Blk i)) = bool_decide (i = 0%nat);
  pi_hash : pool_hash_inv p
}.

Definition pool_inv (p : BlockPool) (xs : list nat) : Prop := pool_inv_pending p xs [].

(** The pool's constants. *)
Definition same_config (p p' : BlockPool) : Prop :=
  num_gpu_blocks p' = num_gpu_blocks p /\ enable_caching p' = enable_caching p /\
  pool_hash_block_size p' = pool_hash_block_size p /\
  enable_kv_cache_events p' = enable_kv_cache_events p.

#[export] Instance same_config_refl : Reflexive same_config.
Proof. done. Qed.
#[export] Instance same_config_trans : Transitive same_config.
Proof. unfold same_config. intros p1 p2 p3. intuition congruence. Qed.

Lemma hash_frame_config p p' : hash_frame p p' -> same_config p p'.
Proof. by intros []. Qed.

Lemma valid_block_config p p' i : same_config p p' -> valid_block p' i <-> valid_block p i.
Proof. intros (Hn & _). unfold valid_block. by rewrite Hn. Qed.

Lemma pool_inv_free p xs : pool_inv p xs -> get_num_free_blocks p = zlen xs.
Proof. intros Hi. apply (qr_count _ _ (pi_queue _ _ _ Hi)). Qed.

Lemma pool_inv_hash_frame p p' xs ps :
  pool_inv_pending p xs ps -> hash_frame p p' -> pool_hash_inv p' -> pool_inv_pending p' xs ps.
Proof.
  intros [Hq Hn Hnd Hf Hr Hnull Hh] Hframe Hh'.
  pose proof (hash_frame_config _ _ Hframe) as Hcfg. destruct Hframe. split.
  - pose proof (queue_repr_same_shape _ _ _ Hq hf_shape0) as Hq'.
    rewrite <-hf_free0 in Hq'. unfold pheap in Hq'. by destruct (free_block_queue p').
  - by rewrite hf_num0.
  - done.
  - intros i. by rewrite Hf, hf_ref0, (valid_block_config p p').
  - intros i. rewrite hf_ref0, (valid_block_config p p') by done. apply Hr.
  - intros i. by rewrite hf_null0.
  - done.
Qed.

(** Replacing the queue by one that agrees on the data. *)
Lemma pool_inv_with_queue p xs ps xs' ps' q :
  pool_inv_pending p xs ps -> queue_repr q xs' -> same_data (qheap q) (pheap p) ->
  xs' ++ ps' ≡ₚ xs ++ ps -> pool_inv_pending (with_queue q p) xs' ps'.
Proof.
  intros [Hq Hn Hnd Hf Hr Hnull Hh] Hq' Hs Hperm.
  assert (forall r, ref_cnt (qheap q r) = ref_cnt (pheap p r)) as Href
    by (intros r; by destruct (same_data_fields _ _ r Hs)).
  split; unfold pheap; simpl; try done.
  - by rewrite Hperm.
  - intros i. rewrite Hperm, Hf, Href. done.
  - intros i Hi. rewrite Href. by apply Hr.
  - intros i. destruct (same_data_fields _ _ (Blk i) Hs) as (_ & _ & _ & ->). apply Hnull.
  - unfold pool_hash_inv. simpl. eapply hash_inv_same; [|exact Hh]. by apply same_data_hashes.
Qed.

(** Writing one reference count. *)
Lemma pheap_ref_upd p i c r :
  pheap (with_heap (heap_upd (pheap p) (Blk i) (with_ref_cnt c)) p) r =
    if decide (r = Blk i) then with_ref_cnt c (pheap p r) else pheap p r.
Proof. done. Qed.

Lemma pool_hash_inv_ref_upd p i c :
  pool_hash_inv p -> pool_hash_inv (with_heap (heap_upd (pheap p) (Blk i) (with_ref_cnt c)) p).
Proof.
  intros Hh. unfold pool_hash_inv. simpl. eapply hash_inv_same; [|exact Hh].
  intros r. rewrite pheap_ref_upd. by case_decide.
Qed.

Lemma pool_keys_ref_upd p i c j :
  pool_keys (with_heap (heap_upd (pheap p) (Blk i) (with_ref_cnt c)) p) j = pool_keys p j.
Proof.
  unfold pool_keys. simpl. apply keys_at_same. intros r. rewrite pheap_ref_upd. by case_decide.
Qed.

Lemma queue_repr_ref_upd q xs i c :
  queue_repr q xs ->
  queue_repr (mkQueue (heap_upd (qheap q) (Blk i) (with_ref_cnt c)) (num_free_blocks q)) xs.
Proof. intros Hq. apply queue_repr_same_shape; [done|]. by apply same_shape_upd. Qed.

Lemma pool_inv_events p es xs ps :
  pool_inv_pending p xs ps -> pool_inv_pending (with_events es p) xs ps.
Proof. by intros []. Qed.

(** Raising the count of a pending block, or changing that of a block in use. *)
Lemma pool_inv_set_ref p xs b ps ps' c :
  pool_inv_pending p xs ps ->
  ps = b :: ps' \/ (b ∉ xs ++ ps /\ ps' = ps) -> b = 0%nat \/ 0 < c ->
  pool_inv_pending (with_heap (heap_upd (pheap p) (Blk b) (with_ref_cnt c)) p) xs ps'.
Proof.
  intros [Hq Hn Hnd Hfree Hr Hnull Hh] Hps Hc.
  set (p2 := with_heap _ p).
  assert (forall i, ref_cnt (pheap p2 (Blk i)) =
    if decide (i = b) then c else ref_cnt (pheap p (Blk i))) as Href.
  { intros i. unfold p2. rewrite pheap_ref_upd.
    destruct (decide (i = b)) as [->|]; [by rewrite decide_True|by rewrite decide_False by congruence]. }
  assert (b ∉ xs ++ ps') as Hb.
  { destruct Hps as [->|[Hb ->]]; [|done]. apply NoDup_app in Hnd as (_ & Hd & [? _]%NoDup_cons).
    rewrite elem_of_app. intros [Hin|]; [|done]. apply (Hd b Hin). by apply elem_of_cons; left. }
  assert (forall i, i <> b -> i ∈ xs ++ ps' <-> i ∈ xs ++ ps) as Hother.
  { intros i Hi. destruct Hps as [->|[_ ->]]; [|done]. rewrite !elem_of_app, elem_of_cons. tauto. }
  split; simpl.
  - by apply queue_repr_ref_upd.
  - done.
  - destruct Hps as [->|[_ ->]]; [|done]. revert Hnd. rewrite !NoDup_app, NoDup_cons. set_solver.
  - intros i. fold p2. rewrite Href. change (valid_block p2 i) with (valid_block p i).
    destruct (decide (i = b)) as [->|Hi]; [|by rewrite Hother].
    split; [done|]. intros [[? _] ?]. destruct Hc; lia.
  - intros i Hi. fold p2. rewrite Href. destruct (decide (i = b)) as [->|]; [|by apply Hr].
    destruct Hi, Hc; lia.
  - intros i. unfold p2. rewrite pheap_ref_upd. decide_goal; apply Hnull.
  - by apply pool_hash_inv_ref_upd.
Qed.

Lemma ref_cnt_set_ref p b c i :
  ref_cnt (pheap (with_heap (heap_upd (pheap p) (Blk b) (with_ref_cnt c)) p) (Blk i)) =
    if decide (i = b) then c else ref_cnt (pheap p (Blk i)).
Proof.
  rewrite pheap_ref_upd.
  destruct (decide (i = b)) as [->|]; [by rewrite decide_True|by rewrite decide_False by congruence].
Qed.

Section PoolOps.
Context `{PoolEnv}.

Lemma pool_keys_with_queue q p i :
  same_data (qheap q) (pheap p) -> pool_keys (with_queue q p) i = pool_keys p i.
Proof. intros Hs. unfold pool_keys. simpl. apply keys_at_same. by apply same_data_hashes. Qed.

(** ** Creation *)

Lemma pool_init_spec n caching hbs events :
  0 < n ->
  exists p, pool_init n caching hbs events = Ok p /\
    pool_inv p (seq 1 (Z.to_nat n - 1)) /\ num_gpu_blocks p = n /\
    enable_caching p = caching /\ pool_hash_block_size p = hbs /\
    enable_kv_cache_events p = events /\ kv_event_queue p = [] /\ forall i, pool_keys p i = ∅.
Proof.
  intros Hn. unfold pool_init. rewrite assert_true by (by apply Z.ltb_lt). simpl.
  pose proof (queue_init_repr (Z.to_nat n)) as Hq. pose proof (queue_init_data (Z.to_nat n)) as Hd.
  destruct (Z.to_nat n) as [|m] eqn:Em; [lia|]. rewrite <-Em in *.
  assert (seq 0 (Z.to_nat n) = 0%nat :: seq 1 m) as Hseq by (by rewrite Em).
  rewrite Hseq in Hq. destruct (popleft_remove _ _ _ Hq) as (q & -> & Hrem).
  destruct (remove_repr _ [] 0 _ Hq) as (q' & Hrem' & Hq' & Hs). rewrite Hrem' in Hrem.
  injection Hrem as ->. simpl in Hq'. simpl.
  eexists. split; [done|].
  set (h := heap_upd (qheap q) (Blk 0) (with_null true)).
  assert (forall r, ref_cnt (h r) = 0 /\ block_hash (h r) = None /\
    block_hash_num_tokens (h r) = None /\ is_null (h r) = bool_decide (r = Blk 0)) as Hdata.
  { intros r. destruct (same_data_fields _ _ r (transitivity Hs Hd)) as (E1 & E2 & E3 & E4).
    unfold h, heap_upd. destruct (decide (r = Blk 0)) as [->|Hne]; simpl;
      rewrite ?E1, ?E2, ?E3, ?E4; [done|]. by rewrite bool_decide_false. }
  assert (forall i : nat, keys_at h (∅ : gmap Z (gset bytes)) i = ∅) as Hkeys.
  { intros i. unfold keys_at. destruct (Hdata (Blk i)) as (_ & -> & _). by rewrite lookup_empty. }
  replace (Z.to_nat n - 1)%nat with m by lia.
  split_and!; try done. split; simpl.
  - apply (queue_repr_same_shape q); [done|]. apply same_shape_upd. done.
  - done.
  - rewrite app_nil_r. apply NoDup_seq.
  - intros i. rewrite app_nil_r, elem_of_seq. unfold valid_block. simpl.
    change (pheap _) with h. destruct (Hdata (Blk i)) as (-> & _). lia.
  - intros i _. change (pheap _) with h. destruct (Hdata (Blk i)) as (-> & _). done.
  - intros i. change (pheap _) with h. destruct (Hdata (Blk i)) as (_ & _ & _ & ->).
    apply bool_decide_ext. naive_solver.
  - unfold pool_hash_inv. change (pheap _) with h. split; simpl.
    + intros k e. by rewrite lookup_empty.
    + intros k i. rewrite Hkeys. split; [|set_solver]. intros (e & He & _). by rewrite lookup_empty in He.
    + intros i k. rewrite Hkeys. set_solver.
    + intros i s. by rewrite lookup_empty.
    + intros i. destruct (Hdata (Blk i)) as (_ & -> & -> & _). done.
Qed.

(** ** Eviction of one block *)

Lemma maybe_evict_spec p i :
  pool_hash_inv p ->
  pool_hash_inv (snd (maybe_evict_cached_block (Blk i) p)) /\
  hash_frame p (snd (maybe_evict_cached_block (Blk i) p)) /\
  block_hash (pheap (snd (maybe_evict_cached_block (Blk i) p)) (Blk i)) = None /\
  (forall j, pool_keys (snd (maybe_evict_cached_block (Blk i) p)) j =
    if decide (j = i) then ∅ else pool_keys p j) /\
  (fst (maybe_evict_cached_block (Blk i) p) = true <-> pool_keys p i <> ∅).
Proof.
  intros Hinv. unfold maybe_evict_cached_block.
  destruct (remove_cached_block_hashes (Blk i) p) as [removed p1] eqn:E.
  destruct (remove_cached_block_hashes_spec _ _ _ _ Hinv E) as (Hinv1 & Hf & Hrem & _ & Hb & _ & Hk).
  destruct (key_list_spec p i Hinv) as [_ Hkl]. rewrite <-Hrem in Hkl.
  destruct removed as [|k ks]; simpl.
  - split_and!; try done. split; [done|]. intros Hne. exfalso. apply Hne. apply set_eq.
    intros k. rewrite <-Hkl. set_solver.
  - assert (pool_keys p i <> ∅) by (specialize (Hkl k); set_solver).
    unfold emit_block_removed_events. destruct (negb _); [done|].
    split_and!; try done. etrans; [exact Hf|]. by split.
Qed.

(** ** Allocation *)

Definition alloc_effect (p p' : BlockPool) (bs : list nat) : Prop :=
  same_config p p' /\
  (forall i, ref_cnt (pheap p' (Blk i)) =
    if decide (i ∈ bs) then 1 else ref_cnt (pheap p (Blk i))) /\
  (forall i, pool_keys p' i = if decide (enable_caching p = true /\ i ∈ bs) then ∅ else pool_keys p i).

Lemma allocate_block_spec p xs b ps :
  pool_inv_pending p xs (b :: ps) ->
  exists p', allocate_block (Blk b) p = Ok p' /\ pool_inv_pending p' xs ps /\
    alloc_effect p p' [b].
Proof.
  intros Hinv. unfold allocate_block.
  set (p1 := if enable_caching p then _ else p).
  assert (pool_inv_pending p1 xs (b :: ps) /\ hash_frame p p1 /\
    forall j, pool_keys p1 j = if decide (enable_caching p = true /\ j ∈ [b]) then ∅ else pool_keys p j)
    as (Hinv1 & Hf & Hk).
  { unfold p1. destruct (enable_caching p).
    - destruct (maybe_evict_spec p b (pi_hash _ _ _ Hinv)) as (Hh & Hf & _ & Hk & _).
      split_and!; [by eapply pool_inv_hash_frame|done|].
      intros j. rewrite Hk. pose proof (list_elem_of_singleton j b).
      repeat decide_goal; tauto || done.
    - split_and!; [done|done|]. intros j. rewrite decide_False; [done|]. by intros [? _]. }
  assert (valid_block p1 b /\ ref_cnt (pheap p1 (Blk b)) = 0) as [Hvalid Hzero].
  { apply (pi_free _ _ _ Hinv1). rewrite elem_of_app, elem_of_cons. tauto. }
  rewrite Hzero. simpl. eexists. split; [done|].
  pose proof (hash_frame_config _ _ Hf) as Hcfg. split; [|split_and!].
  - eapply pool_inv_set_ref; [exact Hinv1|by left|by right].
  - done.
  - intros i. rewrite ref_cnt_set_ref, (hf_ref _ _ Hf). pose proof (list_elem_of_singleton i b).
    repeat decide_goal; tauto || done.
  - intros i. by rewrite pool_keys_ref_upd, Hk.
Qed.

Lemma alloc_effect_cons p p1 p2 b bs :
  alloc_effect p p1 [b] -> alloc_effect p1 p2 bs -> alloc_effect p p2 (b :: bs).
Proof.
  intros (Hc1 & Hr1 & Hk1) (Hc2 & Hr2 & Hk2). pose proof Hc1 as (_ & Hcach & _).
  split_and!; [by etrans|..]; intros i; [rewrite Hr2, Hr1|rewrite Hk2, Hk1, Hcach];
    pose proof (elem_of_cons bs i b); pose proof (list_elem_of_singleton i b);
    repeat decide_goal; tauto || done.
Qed.

Lemma allocate_blocks_spec bs p xs :
  pool_inv_pending p xs bs ->
  exists p', for_each allocate_block (Blk <$> bs) p = Ok p' /\ pool_inv p' xs /\
    alloc_effect p p' bs.
Proof.
  revert p. induction bs as [|b bs IH]; intros p Hinv.
  - exists p. split; [done|]. split; [done|]. split_and!; [done|..]; intros i; [done|].
    rewrite decide_False by set_solver. done.
  - destruct (allocate_block_spec _ _ _ _ Hinv) as (p1 & Hp1 & Hinv1 & He1).
    destruct (IH _ Hinv1) as (p2 & Hp2 & Hinv2 & He2).
    exists p2. rewrite fmap_cons. simpl. rewrite Hp1. simpl. rewrite Hp2.
    split_and!; [done|done|]. by eapply alloc_effect_cons.
Qed.

Lemma get_new_blocks_Ok p xs n :
  pool_inv p xs -> 0 <= n <= zlen xs ->
  exists p', get_new_blocks n p = Ok (Blk <$> take (Z.to_nat n) xs, p') /\
    pool_inv p' (drop (Z.to_nat n) xs) /\ alloc_effect p p' (take (Z.to_nat n) xs).
Proof.
  intros Hinv Hn. unfold get_new_blocks. rewrite (pool_inv_free _ _ Hinv).
  destruct (Z.ltb_spec (zlen xs) n); [lia|].
  set (l1 := take (Z.to_nat n) xs). set (l2 := drop (Z.to_nat n) xs).
  assert (xs = l1 ++ l2) as Hxs by (symmetry; apply take_drop).
  assert (zlen l1 = n) as Hl1 by (unfold l1; rewrite length_take; lia).
  pose proof (pi_queue _ _ _ Hinv) as Hq. rewrite Hxs in Hq.
  destruct (popleft_n_repr _ _ _ Hq) as (q & Hpop & Hq' & Hs). rewrite Hl1 in Hpop. rewrite Hpop.
  simpl.
  assert (pool_inv_pending (with_queue q p) l2 l1) as Hinv'.
  { eapply pool_inv_with_queue; [exact Hinv|done|done|].
    rewrite app_nil_r, Hxs. apply Permutation_app_comm. }
  destruct (allocate_blocks_spec _ _ _ Hinv') as (p' & -> & Hp' & (Hc & Hr & Hk)).
  simpl. exists p'. split_and!; [done|done|]. split_and!; [done|..].
  - intros i. rewrite Hr. destruct (same_data_fields _ _ (Blk i) Hs) as [He _].
    change (pheap (with_queue q p)) with (qheap q). unfold pheap. by rewrite He.
  - intros i. rewrite Hk. change (enable_caching (with_queue q p)) with (enable_caching p).
    by rewrite pool_keys_with_queue.
Qed.

(** ** Touch *)

Lemma filter_ne_absent (i : nat) (xs : list nat) : i ∉ xs -> filter (fun j => j <> i) xs = xs.
Proof.
  induction xs as [|x xs IH]; [done|]. intros [? ?]%not_elem_of_cons.
  rewrite filter_cons_True by done. f_equal. auto.
Qed.

Lemma filter_ne_mid (i : nat) (l1 l2 : list nat) :
  NoDup (l1 ++ i :: l2) -> filter (fun j => j <> i) (l1 ++ i :: l2) = l1 ++ l2.
Proof.
  intros (_ & Hd & [Hi _]%NoDup_cons)%NoDup_app.
  assert (i ∉ l1) by (intros Hin; apply (Hd i Hin); by apply elem_of_cons; left).
  rewrite filter_app, filter_cons_False, !filter_ne_absent by (done || tauto). done.
Qed.

(** [touch] on one block: it leaves the free list if it was there. *)
Definition touch_effect (p p' : BlockPool) (bs : list nat) : Prop :=
  same_config p p' /\ kv_event_queue p' = kv_event_queue p /\
  (forall i, ref_cnt (pheap p' (Blk i)) =
    ref_cnt (pheap p (Blk i)) + zlen (filter (fun j => j = i) bs)) /\
  (forall i, pool_keys p' i = pool_keys p i).

Lemma touch_one_spec p xs i :
  pool_inv p xs -> valid_block p i \/ i = 0%nat ->
  exists p', touch_one (Blk i) p = Ok p' /\ pool_inv p' (filter (fun j => j <> i) xs) /\
    touch_effect p p' [i].
Proof.
  intros Hinv Hi. unfold touch_one.
  pose proof (pi_free _ _ _ Hinv i) as Hfree. rewrite app_nil_r in Hfree.
  pose proof (pi_null _ _ _ Hinv i) as Hnull. pose proof (pi_nodup _ _ _ Hinv) as Hnd.
  rewrite app_nil_r in Hnd.
  assert (forall q, exists p', p' = with_heap (heap_upd (pheap (with_queue q p)) (Blk i)
      (with_ref_cnt (ref_cnt (pheap (with_queue q p) (Blk i)) + 1))) (with_queue q p)) as Hex
    by (intros; eauto).
  destruct (decide (i ∈ xs)) as [Hin|Hout].
  - destruct (proj1 Hfree Hin) as [Hv Hz].
    rewrite Hz, Hnull, bool_decide_false by (destruct Hv; lia). simpl.
    apply list_elem_of_split in Hin as (l1 & l2 & ->). rewrite filter_ne_mid by done.
    destruct (remove_repr _ _ _ _ (pi_queue _ _ _ Hinv)) as (q & -> & Hq & Hs). simpl.
    eexists. split; [done|].
    assert (pool_inv_pending (with_queue q p) (l1 ++ l2) [i]) as Hinv'.
    { eapply pool_inv_with_queue; [exact Hinv|done|done|].
      rewrite app_nil_r, <-app_assoc. f_equiv. symmetry. apply Permutation_cons_append. }
    assert (forall r, ref_cnt (pheap (with_queue q p) r) = ref_cnt (pheap p r)) as Href
      by (intros r; by destruct (same_data_fields _ _ r Hs)).
    rewrite Href, Hz. split; [|split_and!].
    + eapply pool_inv_set_ref; [exact Hinv'|by left|right; lia].
    + done.
    + done.
    + intros j. rewrite ref_cnt_set_ref, Href, filter_cons, filter_nil.
      destruct (decide (j = i)) as [->|]; [rewrite decide_True by done; simpl; lia|].
      rewrite decide_False by done. simpl. lia.
    + intros j. rewrite pool_keys_ref_upd. by apply pool_keys_with_queue.
  - assert (((ref_cnt (pheap p (Blk i)) =? 0) && negb (is_null (pheap p (Blk i)))) = false) as ->.
    { rewrite Hnull. destruct (Z.eqb_spec (ref_cnt (pheap p (Blk i))) 0) as [Hz|]; [|done].
      rewrite bool_decide_true; [done|]. destruct Hi as [Hv|]; [|done]. exfalso. tauto. }
    simpl. assert (with_queue (free_block_queue p) p = p) as -> by (by destruct p).
    rewrite filter_ne_absent by done. eexists. split; [done|]. split; [|split_and!].
    + eapply pool_inv_set_ref; [exact Hinv|right; by rewrite app_nil_r|].
      destruct Hi as [Hv|]; [right|by left]. pose proof (pi_ref _ _ _ Hinv i Hv).
      assert (ref_cnt (pheap p (Blk i)) <> 0) by tauto. lia.
    + done.
    + done.
    + intros j. rewrite ref_cnt_set_ref, filter_cons, filter_nil.
      destruct (decide (j = i)) as [->|]; [rewrite decide_True by done; simpl; lia|].
      rewrite decide_False by done. simpl. lia.
    + intros j. apply pool_keys_ref_upd.
Qed.

Lemma touch_Ok bs p xs :
  pool_inv p xs -> (forall i, i ∈ bs -> valid_block p i \/ i = 0%nat) ->
  exists p', touch (Blk <$> bs) p = Ok p' /\ pool_inv p' (filter (fun j => j ∉ bs) xs) /\
    touch_effect p p' bs.
Proof.
  revert p xs. induction bs as [|b bs IH]; intros p xs Hinv Hbs.
  - exists p. split; [done|]. split.
    + replace (filter (fun j => j ∉ []) xs) with xs; [done|].
      clear. induction xs as [|x xs IH]; [done|]. rewrite filter_cons_True by apply not_elem_of_nil.
      by f_equal.
    + split_and!; try done. intros i. rewrite filter_nil. simpl. lia.
  - destruct (touch_one_spec p xs b Hinv) as (p1 & Hp1 & Hinv1 & (Hc1 & Hev1 & Hr1 & Hk1)).
    { apply Hbs. set_solver. }
    destruct (IH _ _ Hinv1) as (p2 & Hp2 & Hinv2 & (Hc2 & Hev2 & Hr2 & Hk2)).
    { intros i Hi. rewrite (valid_block_config p p1) by done. apply Hbs. set_solver. }
    exists p2. unfold touch in *. rewrite fmap_cons. simpl. rewrite Hp1. simpl. split; [done|].
    split.
    + rewrite list_filter_filter in Hinv2.
      erewrite list_filter_iff; [exact Hinv2|]. intros j. simpl. rewrite not_elem_of_cons. tauto.
    + split_and!; [by etrans|congruence| |].
      * intros i. rewrite Hr2, Hr1, !filter_cons, filter_nil. repeat decide_goal; simpl; lia.
      * intros i. by rewrite Hk2, Hk1.
Qed.
End PoolOps.

(** ** Freeing *)

Lemma filter_ext_in {A} (P Q : A -> Prop) `{!forall x, Decision (P x), !forall x, Decision (Q x)} (l : list A) :
  (forall x, x ∈ l -> P x <-> Q x) -> filter P l = filter Q l.
Proof.
  induction l as [|x l IH]; intros Hl; [done|]. rewrite !filter_cons, IH by set_solver.
  specialize (Hl x ltac:(set_solver)). repeat decide_goal; tauto || done.
Qed.

(** The blocks of [bs] whose last reference is dropped, with and without a hash
    ([caching] off: all count as hashed). *)
Definition freed_hashed (caching : bool) (h : heap) (i : nat) : Prop :=
  (i <> 0%nat /\ ref_cnt (h (Blk i)) = 1) /\ ~ (block_hash (h (Blk i)) = None /\ caching = true).
Definition freed_unhashed (caching : bool) (h : heap) (i : nat) : Prop :=
  (i <> 0%nat /\ ref_cnt (h (Blk i)) = 1) /\ (block_hash (h (Blk i)) = None /\ caching = true).

#[export] Instance freed_hashed_dec c h i : Decision (freed_hashed c h i).
Proof. unfold freed_hashed. apply _. Defined.
#[export] Instance freed_unhashed_dec c h i : Decision (freed_unhashed c h i).
Proof. unfold freed_unhashed. apply _. Defined.

(** Distinct blocks, the null block excepted. *)
Definition distinct_blocks (bs : list nat) : Prop := NoDup (filter (fun i => i <> 0%nat) bs).

(** Stores that differ in reference counts only. *)
Definition refs_only (h h' : heap) : Prop :=
  same_shape h' h /\ same_hashes h' h /\ forall r, is_null (h' r) = is_null (h r).

#[export] Instance refs_only_refl : Reflexive refs_only.
Proof. by repeat split. Qed.
#[export] Instance refs_only_trans : Transitive refs_only.
Proof.
  intros h1 h2 h3 (S1 & H1 & N1) (S2 & H2 & N2). split_and!.
  - intros r. destruct (S1 r), (S2 r). split; congruence.
  - intros r. destruct (H1 r), (H2 r). split; congruence.
  - intros r. by rewrite N2, N1.
Qed.

Lemma refs_only_upd h b c : refs_only h (heap_upd h b (with_ref_cnt c)).
Proof. split_and!; intros r; rewrite heap_upd_lookup; by decide_goal. Qed.

Lemma free_fold_spec caching bs (h : heap) wh woh :
  (forall i, is_null (h (Blk i)) = bool_decide (i = 0%nat)) -> distinct_blocks bs ->
  exists h', fold_left (fun s b => free_one caching b s) (Blk <$> bs) (h, wh, woh) =
      (h', wh ++ (Blk <$> filter (freed_hashed caching h) bs),
       woh ++ (Blk <$> filter (freed_unhashed caching h) bs)) /\
    refs_only h h' /\
    forall i, i <> 0%nat -> ref_cnt (h' (Blk i)) =
      ref_cnt (h (Blk i)) - (if decide (i ∈ bs) then 1 else 0).
Proof.
  revert h wh woh. induction bs as [|b bs IH]; intros h wh woh Hnull Hd.
  { exists h. rewrite !filter_nil, !app_nil_r. split_and!; try done.
    intros i _. rewrite decide_False by apply not_elem_of_nil. lia. }
  unfold distinct_blocks in Hd. rewrite filter_cons in Hd.
  rewrite fmap_cons. cbn [fold_left].
  set (h1 := heap_upd h (Blk b) (with_ref_cnt (ref_cnt (h (Blk b)) - 1))).
  assert (refs_only h h1) as Hro by apply refs_only_upd.
  assert (forall i, i <> b -> h1 (Blk i) = h (Blk i)) as Hother
    by (intros; apply heap_upd_ne; congruence).
  assert (ref_cnt (h1 (Blk b)) = ref_cnt (h (Blk b)) - 1) as Hb
    by (unfold h1; by rewrite heap_upd_eq).
  destruct Hro as (Hsh & Hhash & Hnull1). pose proof (Hnull1 (Blk b)) as Hnb.
  rewrite Hnull in Hnb.
  assert (distinct_blocks bs /\ (b <> 0%nat -> b ∉ bs)) as [Hd' Hbbs].
  { unfold distinct_blocks. destruct (decide (b <> 0%nat)) as [Hb0|Hb0]; [|split; [done|tauto]].
    apply NoDup_cons in Hd as [Hnin ?]. split; [done|]. intros _ Hin. apply Hnin.
    by apply list_elem_of_filter. }
  assert (filter (freed_hashed caching h1) bs = filter (freed_hashed caching h) bs /\
    filter (freed_unhashed caching h1) bs = filter (freed_unhashed caching h) bs) as [Hfh Hfu].
  { split; apply filter_ext_in; intros i Hi; unfold freed_hashed, freed_unhashed;
      destruct (decide (i = b)) as [->|]; [|by rewrite Hother| |by rewrite Hother];
      destruct (decide (b = 0%nat)); tauto. }
  assert (forall wh1 woh1, exists h',
    fold_left (fun s b => free_one caching b s) (Blk <$> bs) (h1, wh1, woh1) =
      (h', wh1 ++ (Blk <$> filter (freed_hashed caching h) bs),
       woh1 ++ (Blk <$> filter (freed_unhashed caching h) bs)) /\
    refs_only h h' /\
    forall i, i <> 0%nat -> ref_cnt (h' (Blk i)) =
      ref_cnt (h (Blk i)) - (if decide (i ∈ b :: bs) then 1 else 0)) as Hrest.
  { intros wh1 woh1. destruct (IH h1 wh1 woh1) as (h' & Hf & Hro' & Hr').
    - intros i. by rewrite Hnull1.
    - done.
    - exists h'. rewrite Hfh, Hfu in Hf. split; [exact Hf|]. split.
      + etrans; [|exact Hro']. done.
      + intros i Hi. rewrite Hr' by done. pose proof (elem_of_cons bs i b).
        destruct (decide (i = b)) as [->|Hne]; [rewrite Hb|rewrite Hother by done];
          repeat decide_goal; tauto || lia. }
  clear IH. rewrite !filter_cons.
  destruct (free_one caching (Blk b) (h, wh, woh)) as [[h2 wh2] woh2] eqn:Estep.
  unfold free_one in Estep. fold h1 in Estep. rewrite Hb, (proj1 (Hhash (Blk b))) in Estep.
  destruct (decide (b = 0%nat)) as [->|Hb0].
  { rewrite bool_decide_true in Hnb by done. rewrite Hnb, andb_false_r in Estep.
    injection Estep as <- <- <-.
    rewrite !decide_False by (unfold freed_hashed, freed_unhashed; tauto). apply Hrest. }
  rewrite bool_decide_false in Hnb by done. rewrite Hnb, andb_true_r in Estep.
  destruct (Z.eqb_spec (ref_cnt (h (Blk b)) - 1) 0) as [Hz|Hz].
  2:{ injection Estep as <- <- <-.
      rewrite !decide_False by (unfold freed_hashed, freed_unhashed; lia). apply Hrest. }
  assert (bool_decide (block_hash (h (Blk b)) = None) && caching = true <->
    block_hash (h (Blk b)) = None /\ caching = true) as Hcond.
  { rewrite andb_true_iff, bool_decide_eq_true. done. }
  destruct (bool_decide _ && caching); injection Estep as <- <- <-.
  - rewrite decide_False, decide_True by (unfold freed_hashed, freed_unhashed; intuition lia).
    destruct (Hrest wh (woh ++ [Blk b])) as (h' & -> & ?). exists h'.
    rewrite fmap_cons, <-app_assoc. done.
  - rewrite decide_True, decide_False by (unfold freed_hashed, freed_unhashed; intuition lia).
    destruct (Hrest (wh ++ [Blk b]) woh) as (h' & -> & ?). exists h'.
    rewrite fmap_cons, <-app_assoc. done.
Qed.

(** How often [i] occurs. *)
Definition occurs (i : nat) (bs : list nat) : Z := zlen (filter (fun j => j = i) bs).

Lemma occurs_cons i b bs : occurs i (b :: bs) = (if decide (b = i) then 1 else 0) + occurs i bs.
Proof. unfold occurs. rewrite filter_cons. destruct (decide (b = i)); rewrite ?length_cons; lia. Qed.

Lemma occurs_nonneg i bs : 0 <= occurs i bs.
Proof. unfold occurs. lia. Qed.

Lemma occurs_elem i bs : 1 <= occurs i bs <-> i ∈ bs.
Proof.
  induction bs as [|b bs IH]; [split; [by unfold occurs|by intros ?%not_elem_of_nil]|].
  rewrite occurs_cons, elem_of_cons, <-IH. pose proof (occurs_nonneg i bs).
  destruct (decide (b = i)) as [->|]; [split; [by left|lia]|].
  split; [right; lia|]. intros [->|?]; [done|lia].
Qed.

(** The same loop on a list that may name a block several times, at most as often
    as it is referenced. *)
Lemma free_fold_any caching bs (h : heap) wh woh :
  (forall i, is_null (h (Blk i)) = bool_decide (i = 0%nat)) ->
  (forall i, i <> 0%nat -> i ∈ bs -> occurs i bs <= ref_cnt (h (Blk i))) ->
  exists h' hs us, fold_left (fun s b => free_one caching b s) (Blk <$> bs) (h, wh, woh) =
      (h', wh ++ (Blk <$> hs), woh ++ (Blk <$> us)) /\
    refs_only h h' /\ NoDup (us ++ hs) /\
    (forall i, i <> 0%nat -> ref_cnt (h' (Blk i)) = ref_cnt (h (Blk i)) - occurs i bs) /\
    (forall i, i ∈ us ++ hs <-> i <> 0%nat /\ i ∈ bs /\ ref_cnt (h (Blk i)) = occurs i bs).
Proof.
  revert h wh woh. induction bs as [|b bs IH]; intros h wh woh Hnull Hle.
  { exists h, [], []. rewrite !app_nil_r. split_and!; try done; [apply NoDup_nil_2|intros; unfold occurs; simpl; lia|].
    intros i. split; [by intros ?%not_elem_of_nil|]. by intros (_ & ?%not_elem_of_nil & _). }
  rewrite fmap_cons. cbn [fold_left].
  set (h1 := heap_upd h (Blk b) (with_ref_cnt (ref_cnt (h (Blk b)) - 1))).
  assert (refs_only h h1) as Hro by apply refs_only_upd.
  assert (forall i, ref_cnt (h1 (Blk i)) = ref_cnt (h (Blk i)) - (if decide (b = i) then 1 else 0)) as Hr1.
  { intros i. unfold h1. destruct (decide (b = i)) as [->|Hne].
    - rewrite heap_upd_eq. done.
    - rewrite heap_upd_ne by congruence. lia. }
  destruct Hro as (Hsh & Hhash & Hnull1).
  assert (forall wh1 woh1, exists h' hs us,
    fold_left (fun s b => free_one caching b s) (Blk <$> bs) (h1, wh1, woh1) =
      (h', wh1 ++ (Blk <$> hs), woh1 ++ (Blk <$> us)) /\
    refs_only h h' /\ NoDup (us ++ hs) /\
    (forall i, i <> 0%nat -> ref_cnt (h' (Blk i)) = ref_cnt (h (Blk i)) - occurs i (b :: bs)) /\
    (forall i, i ∈ us ++ hs <-> i <> 0%nat /\ i ∈ bs /\ ref_cnt (h (Blk i)) = occurs i (b :: bs))) as Hrest.
  { intros wh1 woh1. destruct (IH h1 wh1 woh1) as (h' & hs & us & Hf & Hro' & Hnd & Hr' & Hin).
    - intros i. by rewrite Hnull1.
    - intros i Hi Hib. rewrite Hr1. specialize (Hle i Hi ltac:(by right)). rewrite occurs_cons in Hle. lia.
    - exists h', hs, us. split_and!; try done; [etrans; [|exact Hro']; done|..].
      + intros i Hi. rewrite Hr', Hr1 by done. rewrite occurs_cons. lia.
      + intros i. rewrite Hin, Hr1, occurs_cons. intuition lia. }
  clear IH. destruct (free_one caching (Blk b) (h, wh, woh)) as [[h2 wh2] woh2] eqn:Estep.
  unfold free_one in Estep. fold h1 in Estep.
  pose proof (Hnull1 (Blk b)) as Hnb. rewrite Hnull in Hnb. rewrite Hnb in Estep.
  assert (ref_cnt (h1 (Blk b)) = ref_cnt (h (Blk b)) - 1) as Hb by (rewrite Hr1; by rewrite decide_True).
  rewrite Hb in Estep.
  destruct (decide (b <> 0%nat /\ ref_cnt (h (Blk b)) = 1)) as [[Hb0 Hone]|Hkeep].
  - assert (~ b ∈ bs) as Hnin.
    { intros Hin. apply occurs_elem in Hin. specialize (Hle b Hb0 ltac:(by left)).
      rewrite occurs_cons, decide_True in Hle by done. lia. }
    assert (forall i, (i <> 0%nat /\ i ∈ b :: bs /\ ref_cnt (h (Blk i)) = occurs i (b :: bs)) <->
      i = b \/ (i <> 0%nat /\ i ∈ bs /\ ref_cnt (h (Blk i)) = occurs i (b :: bs))) as Hsplit.
    { intros i. rewrite elem_of_cons, occurs_cons. split; [tauto|]. intros [->|?]; [|tauto].
      split_and!; [done|by left|]. rewrite decide_True by done.
      pose proof (occurs_nonneg b bs). destruct (decide (1 <= occurs b bs)) as [Hx|]; [|lia].
      by apply occurs_elem in Hx. }
    rewrite (bool_decide_false _ Hb0) in Estep. rewrite Hone in Estep. simpl in Estep.
    destruct (bool_decide _ && caching); injection Estep as <- <- <-.
    + destruct (Hrest wh (woh ++ [Blk b])) as (h' & hs & us & Hf & ? & Hnd & ? & Hin).
      exists h', hs, (b :: us). rewrite Hf, fmap_cons, <-app_assoc. split_and!; try done.
      * simpl. apply NoDup_cons. split; [rewrite Hin; tauto|done].
      * intros i. rewrite Hsplit, <-Hin. simpl. by rewrite elem_of_cons.
    + destruct (Hrest (wh ++ [Blk b]) woh) as (h' & hs & us & Hf & ? & Hnd & ? & Hin).
      exists h', (b :: hs), us. rewrite Hf, fmap_cons, <-app_assoc. split_and!; try done.
      * rewrite <-Permutation_middle. apply NoDup_cons. split; [rewrite Hin; tauto|done].
      * intros i. rewrite Hsplit, <-Hin, <-Permutation_middle. by rewrite elem_of_cons.
  - assert ((ref_cnt (h (Blk b)) - 1 =? 0) && negb (bool_decide (b = 0%nat)) = false) as Ec.
    { destruct (Z.eqb_spec (ref_cnt (h (Blk b)) - 1) 0); [|done]. simpl.
      rewrite bool_decide_true; [done|]. destruct (decide (b = 0%nat)); [done|]. exfalso. apply Hkeep. split; [done|lia]. }
    rewrite Ec in Estep. injection Estep as <- <- <-.
    destruct (Hrest wh woh) as (h' & hs & us & Hf & ? & Hnd & ? & Hin).
    exists h', hs, us. split_and!; try done. intros i. rewrite Hin, elem_of_cons.
    split; [tauto|]. intros (Hi & [->|?] & Hrc); [|tauto].
    split_and!; [done| |done]. apply occurs_elem. rewrite occurs_cons, decide_True in Hrc by done.
    pose proof (occurs_nonneg b bs). destruct (decide (occurs b bs = 0)) as [Hz|]; [|lia].
    exfalso. apply Hkeep. split; [done|lia].
Qed.

Section PoolFree.
Context `{PoolEnv}.

Definition free_effect (p p' : BlockPool) (bs : list nat) : Prop :=
  same_config p p' /\ kv_event_queue p' = kv_event_queue p /\
  (forall i, i <> 0%nat -> ref_cnt (pheap p' (Blk i)) =
    ref_cnt (pheap p (Blk i)) - (if decide (i ∈ bs) then 1 else 0)) /\
  (forall i, pool_keys p' i = pool_keys p i).

Lemma freed_NoDup (P : nat -> Prop) `{!forall i, Decision (P i)} bs :
  distinct_blocks bs -> (forall i, P i -> i <> 0%nat) -> NoDup (filter P bs).
Proof.
  intros Hd HP. replace (filter P bs) with (filter P (filter (fun i => i <> 0%nat) bs)).
  - by apply NoDup_filter.
  - rewrite list_filter_filter. apply list_filter_iff. intros i. naive_solver.
Qed.

Lemma free_blocks_Ok bs p xs :
  pool_inv p xs -> distinct_blocks bs ->
  (forall i, i ∈ bs -> i <> 0%nat -> valid_block p i /\ 1 <= ref_cnt (pheap p (Blk i))) ->
  exists p', free_blocks (Blk <$> bs) p = Ok p' /\
    pool_inv p' (filter (freed_unhashed (enable_caching p) (pheap p)) bs ++ xs ++
                 filter (freed_hashed (enable_caching p) (pheap p)) bs) /\
    free_effect p p' bs.
Proof.
  intros Hinv Hd Hbs. unfold free_blocks.
  destruct (free_fold_spec (enable_caching p) bs (pheap p) [] [] (pi_null _ _ _ Hinv) Hd)
    as (h & -> & (Hsh & Hhash & Hnull) & Href). rewrite !app_nil_l.
  set (us := filter (freed_unhashed _ _) bs). set (hs := filter (freed_hashed _ _) bs).
  pose proof Hinv as [Hq Hn Hnd Hfree Hr Hnull0 Hh]. rewrite app_nil_r in Hnd.
  setoid_rewrite app_nil_r in Hfree.
  assert (forall i, i ∈ us ++ hs <-> i ∈ bs /\ i <> 0%nat /\ ref_cnt (pheap p (Blk i)) = 1) as Huh.
  { intros i. unfold us, hs. rewrite elem_of_app, !list_elem_of_filter.
    unfold freed_unhashed, freed_hashed.
    destruct (decide (block_hash (pheap p (Blk i)) = None /\ enable_caching p = true)); tauto. }
  assert (NoDup (us ++ xs ++ hs)) as Hnd'.
  { rewrite (Permutation_app_comm xs hs), app_assoc. apply NoDup_app. split_and!; [|..|done].
    - apply NoDup_app. split_and!.
      + apply freed_NoDup; [done|]. unfold freed_unhashed. tauto.
      + intros i. unfold us, hs, freed_unhashed, freed_hashed. rewrite !list_elem_of_filter. tauto.
      + apply freed_NoDup; [done|]. unfold freed_hashed. tauto.
    - intros i (_ & _ & H1)%Huh Hx. apply Hfree in Hx as [_ ?]. lia. }
  pose proof (queue_repr_same_shape _ _ _ Hq Hsh) as Hq0.
  destruct (prepend_n_repr _ _ us Hq0) as (q1 & Hp1 & Hq1 & Hs1).
  { rewrite app_assoc in Hnd'. by apply NoDup_app in Hnd' as (? & _). }
  simpl. rewrite Hp1. simpl.
  destruct (append_n_repr _ _ hs Hq1) as (q2 & Hp2 & Hq2 & Hs2); [by rewrite <-app_assoc|].
  rewrite Hp2. simpl. rewrite <-app_assoc in Hq2.
  assert (same_data (qheap q2) h) as Hs by (etrans; [exact Hs2|exact Hs1]).
  assert (forall i, i <> 0%nat -> ref_cnt (qheap q2 (Blk i)) =
    ref_cnt (pheap p (Blk i)) - (if decide (i ∈ bs) then 1 else 0)) as Href2.
  { intros i Hi. destruct (same_data_fields _ _ (Blk i) Hs) as [-> _]. by apply Href. }
  assert (same_hashes (qheap q2) (pheap p)) as Hhash2.
  { intros r. destruct (same_data_hashes _ _ Hs r), (Hhash r). split; congruence. }
  eexists. split; [done|]. split.
  - split; unfold pheap; simpl; try done.
    + by rewrite app_nil_r.
    + intros i. rewrite app_nil_r.
      assert (i ∈ us ++ xs ++ hs <-> i ∈ us ++ hs \/ i ∈ xs) as -> by (rewrite !elem_of_app; tauto).
      rewrite Huh, Hfree. unfold valid_block. simpl.
      destruct (decide (i = 0%nat)) as [->|Hi]; [intuition lia|]. rewrite Href2 by done.
      specialize (Hbs i). unfold valid_block in Hbs.
      destruct (decide (i ∈ bs)) as [Hin|Hout]; [|intuition lia].
      specialize (Hbs Hin Hi). intuition lia.
    + intros i Hi. specialize (Hr i Hi). destruct Hi as [Hi0 Hi].
      rewrite Href2 by lia. destruct (decide (i ∈ bs)) as [Hin|]; [|lia].
      destruct (Hbs i Hin); lia.
    + intros i. destruct (same_data_fields _ _ (Blk i) Hs) as (_ & _ & _ & ->).
      by rewrite Hnull.
    + unfold pool_hash_inv. simpl. by eapply hash_inv_same.
  - split_and!; try done. intros i. unfold pool_keys. simpl. by apply keys_at_same.
Qed.
(** Freeing any list of the pool's blocks, each at most as often as it is
    referenced. *)
Lemma free_any_Ok bs p xs :
  pool_inv p xs ->
  (forall i, i ∈ bs -> i <> 0%nat -> valid_block p i /\ occurs i bs <= ref_cnt (pheap p (Blk i))) ->
  exists p' xs', free_blocks (Blk <$> bs) p = Ok p' /\ pool_inv p' xs' /\ same_config p p' /\
    (forall i, i <> 0%nat -> ref_cnt (pheap p' (Blk i)) = ref_cnt (pheap p (Blk i)) - occurs i bs) /\
    (forall i, pool_keys p' i = pool_keys p i).
Proof.
  intros Hinv Hbs. unfold free_blocks.
  destruct (free_fold_any (enable_caching p) bs (pheap p) [] [] (pi_null _ _ _ Hinv))
    as (h & hs & us & -> & (Hsh & Hhash & Hnull) & Hndu & Href & Huh).
  { intros i Hi Hin. by destruct (Hbs i Hin Hi). }
  rewrite !app_nil_l. pose proof Hinv as [Hq Hn Hnd Hfree Hr Hnull0 Hh]. rewrite app_nil_r in Hnd.
  setoid_rewrite app_nil_r in Hfree.
  assert (NoDup (us ++ xs ++ hs)) as Hnd'.
  { rewrite (Permutation_app_comm xs hs), app_assoc. apply NoDup_app. split_and!; [done| |done].
    intros i (Hi & Hin & Hone)%Huh Hx. apply Hfree in Hx as [_ Hz]. apply occurs_elem in Hin. lia. }
  pose proof (queue_repr_same_shape _ _ _ Hq Hsh) as Hq0.
  destruct (prepend_n_repr _ _ us Hq0) as (q1 & Hp1 & Hq1 & Hs1).
  { rewrite app_assoc in Hnd'. by apply NoDup_app in Hnd' as (? & _). }
  simpl. rewrite Hp1. simpl.
  destruct (append_n_repr _ _ hs Hq1) as (q2 & Hp2 & Hq2 & Hs2); [by rewrite <-app_assoc|].
  rewrite Hp2. simpl. rewrite <-app_assoc in Hq2.
  assert (same_data (qheap q2) h) as Hs by (etrans; [exact Hs2|exact Hs1]).
  assert (forall i, i <> 0%nat -> ref_cnt (qheap q2 (Blk i)) = ref_cnt (pheap p (Blk i)) - occurs i bs) as Href2.
  { intros i Hi. destruct (same_data_fields _ _ (Blk i) Hs) as [-> _]. by apply Href. }
  assert (same_hashes (qheap q2) (pheap p)) as Hhash2.
  { intros r. destruct (same_data_hashes _ _ Hs r), (Hhash r). split; congruence. }
  assert (forall i, i ∉ bs -> occurs i bs = 0) as Hout.
  { intros i Hi. pose proof (occurs_nonneg i bs). destruct (decide (occurs i bs = 0)); [done|].
    exfalso. apply Hi, occurs_elem. lia. }
  eexists _, _. split; [done|]. split.
  - split; unfold pheap; simpl; try done.
    + by rewrite app_nil_r.
    + intros i. rewrite app_nil_r.
      assert (i ∈ us ++ xs ++ hs <-> i ∈ us ++ hs \/ i ∈ xs) as -> by (rewrite !elem_of_app; tauto).
      rewrite Huh, Hfree. unfold valid_block. simpl.
      destruct (decide (i = 0%nat)) as [->|Hi]; [intuition lia|]. rewrite Href2 by done.
      specialize (Hbs i). unfold valid_block in Hbs. destruct (decide (i ∈ bs)) as [Hin|Hno].
      * specialize (Hbs Hin Hi). apply occurs_elem in Hin as Hpos. intuition lia.
      * rewrite Hout by done. intuition lia.
    + intros i Hi. specialize (Hr i Hi). destruct Hi as [Hi0 Hi]. rewrite Href2 by lia.
      destruct (decide (i ∈ bs)) as [Hin|Hno]; [|rewrite Hout by done; lia]. destruct (Hbs i Hin); lia.
    + intros i. destruct (same_data_fields _ _ (Blk i) Hs) as (_ & _ & _ & ->). by rewrite Hnull.
    + unfold pool_hash_inv. simpl. by eapply hash_inv_same.
  - split_and!; try done. intros i. unfold pool_keys. simpl. by apply keys_at_same.
Qed.
End PoolFree.

(** ** Looking up, evicting, resetting, moving *)

Section PoolCache.
Context `{PoolEnv}.

Lemma get_cached_block_Ok p xs h gids :
  pool_inv p xs -> Forall (fun g => 0 <= g < 2 ^ 32) gids ->
  exists res, get_cached_block p h gids = Ok res /\
    match res with
    | Some bs => Forall2 (fun g b => exists i key, b = Blk i /\ valid_block p i /\
        make_block_hash_with_group_id h g = Ok key /\ key ∈ pool_keys p i) gids bs
    | None => exists g key, g ∈ gids /\ make_block_hash_with_group_id h g = Ok key /\
        forall i, key ∉ pool_keys p i
    end.
Proof.
  intros Hinv Hg. unfold get_cached_block.
  set (good := fun g b => exists i key, b = Blk i /\ valid_block p i /\
    make_block_hash_with_group_id h g = Ok key /\ key ∈ pool_keys p i).
  assert (forall pre acc, Forall2 good pre acc ->
    exists res, get_cached_block_loop p h gids acc = Ok res /\
      match res with
      | Some bs => Forall2 good (pre ++ gids) bs
      | None => exists g key, g ∈ gids /\ make_block_hash_with_group_id h g = Ok key /\
          forall i, key ∉ pool_keys p i
      end) as Hloop; [|by apply (Hloop [] []); constructor].
  pose proof (pi_hash _ _ _ Hinv) as Hh.
  induction Hg as [|g gids Hg _ IH]; intros pre acc Hacc; cbn [get_cached_block_loop].
  { exists (Some acc). by rewrite app_nil_r. }
  rewrite make_block_hash_with_group_id_Ok by done. set (key := h ++ big_endian 4 g). simpl.
  assert (make_block_hash_with_group_id h g = Ok key) as Hkey
    by (by apply make_block_hash_with_group_id_Ok).
  destruct (get_one_block_spec _ key (hi_map _ _ _ _ Hh)) as [[-> Hno]|(b & -> & Hb)]; simpl.
  - exists None. split; [done|]. exists g, key. split; [by apply elem_of_cons; left|].
    split; [done|]. intros i Hi. apply (Hno (Blk i)). by apply (hi_cached _ _ _ _ Hh).
  - destruct (cached_at_block _ _ _ (hi_map _ _ _ _ Hh) Hb) as [i ->].
    apply (hi_cached _ _ _ _ Hh) in Hb.
    destruct (IH (pre ++ [g]) (acc ++ [Blk i])) as (res & Hres & Hgood).
    { apply Forall2_app; [done|]. apply Forall2_cons_2; [|constructor].
      exists i, key. split_and!; try done; by apply (hi_range _ _ _ _ Hh i key). }
    exists res. split; [done|]. destruct res as [bs|].
    + by rewrite <-app_assoc in Hgood.
    + destruct Hgood as (g' & key' & Hin & ?). exists g', key'. split; [|done].
      by apply elem_of_cons; right.
Qed.

Lemma pool_blocks_index p id :
  0 <= id < num_gpu_blocks p -> py_index (pool_blocks p) id = Ok (Blk (Z.to_nat id)).
Proof.
  intros Hid. unfold pool_blocks. apply py_index_Ok; [lia|].
  rewrite list_lookup_fmap, lookup_seq_lt by lia. done.
Qed.

Lemma length_pool_blocks p : 0 < num_gpu_blocks p -> zlen (pool_blocks p) = num_gpu_blocks p.
Proof. intros. unfold pool_blocks. rewrite length_fmap, length_seq. lia. Qed.

Lemma evict_blocks_Ok ids p xs :
  pool_inv p xs -> Forall (fun id => 0 <= id < num_gpu_blocks p) ids ->
  exists p', evict_blocks ids p = Ok p' /\ pool_inv p' xs /\ hash_frame p p' /\
    forall j, pool_keys p' j = if decide (Z.of_nat j ∈ ids) then ∅ else pool_keys p j.
Proof.
  unfold evict_blocks. revert p. induction ids as [|id ids IH]; intros p Hinv Hids.
  { by exists p. }
  apply Forall_cons in Hids as [Hid Hids]. simpl.
  pose proof (pi_num _ _ _ Hinv). rewrite length_pool_blocks by done.
  rewrite assert_true by (apply Z.ltb_lt; lia). simpl. rewrite pool_blocks_index by done. simpl.
  destruct (maybe_evict_spec p (Z.to_nat id) (pi_hash _ _ _ Hinv)) as (Hh & Hf & _ & Hk & _).
  set (p1 := snd _) in *. pose proof (pool_inv_hash_frame _ _ _ _ Hinv Hf Hh) as Hinv1.
  destruct (IH p1 Hinv1) as (p' & -> & Hinv' & Hf' & Hk').
  { by rewrite (hf_num _ _ Hf). }
  exists p'. split_and!; [done|done|by etrans|].
  intros j. rewrite Hk', Hk. pose proof (elem_of_cons ids (Z.of_nat j) id).
  destruct (decide (j = Z.to_nat id)) as [->|Hj].
  - rewrite Z2Nat.id in * by lia. repeat decide_goal; tauto || done.
  - assert (Z.of_nat j <> id) by lia. repeat decide_goal; tauto || done.
Qed.

(** The same for any ids, when it returns. *)
Lemma evict_blocks_inv ids p p' xs :
  pool_inv p xs -> evict_blocks ids p = Ok p' -> pool_inv p' xs /\ hash_frame p p'.
Proof.
  unfold evict_blocks. revert p. induction ids as [|id ids IH]; intros p Hinv He; simpl in He.
  { by injection He as <-. }
  apply bind_Ok_inv in He as (p1 & H1 & He). apply bind_Ok_inv in H1 as ([] & _ & H1).
  apply bind_Ok_inv in H1 as (b & Hb & [= <-]).
  assert (exists i, b = Blk i) as [i ->].
  { unfold py_index in Hb. destruct (_ <? 0); [done|]. apply or_raise_Ok_inv in Hb.
    apply list_lookup_fmap_Some in Hb as (i & -> & _). by exists i. }
  destruct (maybe_evict_spec p i (pi_hash _ _ _ Hinv)) as (Hh & Hf & _).
  destruct (IH _ (pool_inv_hash_frame _ _ _ _ Hinv Hf Hh) He) as [? ?]. split; [done|by etrans].
Qed.

Lemma reset_fold_lookup bs h r :
  fold_left (fun h b => reset_hash b h) bs h r =
    if decide (r ∈ bs) then with_hash None None (h r) else h r.
Proof.
  revert h. induction bs as [|b bs IH]; intros h; simpl.
  { done. }
  rewrite IH. unfold reset_hash. rewrite heap_upd_lookup.
  pose proof (elem_of_cons bs r b). repeat decide_goal; tauto || done.
Qed.

Lemma free_list_le p xs : pool_inv p xs -> zlen xs <= num_gpu_blocks p - 1.
Proof.
  intros Hinv. pose proof (pi_num _ _ _ Hinv) as Hn. pose proof (pi_nodup _ _ _ Hinv) as Hnd.
  pose proof (pi_free _ _ _ Hinv) as Hf. rewrite app_nil_r in Hnd. setoid_rewrite app_nil_r in Hf.
  assert (length xs <= length (seq 1 (Z.to_nat (num_gpu_blocks p) - 1)))%nat as Hle.
  { apply submseteq_length, NoDup_submseteq; [done|].
    intros i [[? ?] _]%Hf. apply elem_of_seq. lia. }
  rewrite length_seq in Hle. lia.
Qed.

Lemma all_free_iff p xs :
  pool_inv p xs ->
  zlen xs = num_gpu_blocks p - 1 <-> forall i, valid_block p i -> ref_cnt (pheap p (Blk i)) = 0.
Proof.
  intros Hinv. pose proof (pi_num _ _ _ Hinv) as Hn. pose proof (pi_nodup _ _ _ Hinv) as Hnd.
  pose proof (pi_free _ _ _ Hinv) as Hf. rewrite app_nil_r in Hnd. setoid_rewrite app_nil_r in Hf.
  set (all := seq 1 (Z.to_nat (num_gpu_blocks p) - 1)).
  assert (forall i, i ∈ all <-> valid_block p i) as Hall
    by (intros i; unfold all, valid_block; rewrite elem_of_seq; lia).
  assert (zlen all = num_gpu_blocks p - 1) as Hlen by (unfold all; rewrite length_seq; lia).
  assert (xs ⊆+ all) as Hsub
    by (apply NoDup_submseteq; [done|]; intros i [Hv _]%Hf; by apply Hall).
  split.
  - intros Hx i Hv. assert (xs ≡ₚ all) as Hp.
    { apply submseteq_length_Permutation; [done|]. lia. }
    apply Hf. rewrite Hp. by apply Hall.
  - intros Hz. rewrite <-Hlen. f_equal. apply Permutation_length, (anti_symm submseteq); [done|].
    apply NoDup_submseteq; [apply NoDup_seq|]. intros i Hi%Hall. apply Hf. auto.
Qed.

Lemma reset_prefix_cache_Ok p xs :
  pool_inv p xs ->
  (reset_prefix_cache p = (false, p) /\
   exists i, valid_block p i /\ ref_cnt (pheap p (Blk i)) <> 0) \/
  (exists p', reset_prefix_cache p = (true, p') /\ pool_inv p' xs /\ same_config p p' /\
   (forall i, valid_block p i -> ref_cnt (pheap p (Blk i)) = 0) /\
   cached_block_hash_to_block p' = ∅ /\ (forall i, pool_keys p' i = ∅) /\
   (forall r, ref_cnt (pheap p' r) = ref_cnt (pheap p r))).
Proof.
  intros Hinv. unfold reset_prefix_cache. rewrite (pool_inv_free _ _ Hinv).
  pose proof (all_free_iff _ _ Hinv) as Hall. pose proof (free_list_le _ _ Hinv).
  destruct (Z.eqb_spec (num_gpu_blocks p - zlen xs) 1) as [He|He]; simpl.
  2:{ left. split; [done|].
      destruct (decide (Exists (fun i => ref_cnt (pheap p (Blk i)) <> 0)
        (seq 1 (Z.to_nat (num_gpu_blocks p) - 1)))) as [Hex|Hno].
      - apply Exists_exists in Hex as (i & Hi & ?). exists i. split; [|done].
        apply elem_of_seq in Hi. unfold valid_block. lia.
      - exfalso. apply He. enough (zlen xs = num_gpu_blocks p - 1) by lia.
        apply Hall. intros i [? ?]. destruct (decide (ref_cnt (pheap p (Blk i)) = 0)); [done|].
        exfalso. apply Hno, Exists_exists. exists i. rewrite elem_of_seq. split; [lia|done]. }
  right. set (h := fold_left _ _ _).
  assert (forall r, h r = if decide (r ∈ pool_blocks p) then with_hash None None (pheap p r) else pheap p r)
    as Hh by (intros r; apply reset_fold_lookup).
  set (p1 := with_heap h (with_cache ∅ ∅ p)).
  assert (forall i, pool_keys p1 i = ∅ /\ block_hash (pheap p1 (Blk i)) = None /\
    block_hash_num_tokens (pheap p1 (Blk i)) = None) as Hk.
  { intros i. change (pheap p1) with h. unfold pool_keys, keys_at. simpl.
    change (pheap p1) with h. rewrite Hh, lookup_empty.
    destruct (decide (Blk i ∈ pool_blocks p)) as [Hi|Hi]; [done|].
    assert (block_hash (pheap p (Blk i)) = None) as Hb.
    { pose proof (hi_range _ _ _ _ (pi_hash _ _ _ Hinv) i) as Hr. unfold keys_at in Hr.
      destruct (block_hash (pheap p (Blk i))) as [k|]; [|done].
      destruct (Hr k) as [? ?]; [simpl; set_solver|]. exfalso. apply Hi.
      apply list_elem_of_fmap. exists i. rewrite elem_of_seq. split; [done|lia]. }
    rewrite Hb. split; [set_solver|]. split; [done|].
    by apply (hi_tokens _ _ _ _ (pi_hash _ _ _ Hinv)). }
  assert (pool_hash_inv p1) as Hhi.
  { split; simpl.
    - intros k e. by rewrite lookup_empty.
    - intros k i. change (keys_at (pheap p1) ∅ i) with (pool_keys p1 i).
      rewrite (proj1 (Hk i)). split; [|set_solver].
      intros (e & He' & _). by rewrite lookup_empty in He'.
    - intros i k. change (keys_at (pheap p1) ∅ i) with (pool_keys p1 i).
      rewrite (proj1 (Hk i)). set_solver.
    - intros i s. by rewrite lookup_empty.
    - intros i. destruct (Hk i) as (_ & -> & ->). done. }
  assert (hash_frame p p1) as Hf.
  { split; try done; intros r; change (pheap p1) with h; rewrite Hh; by decide_goal. }
  pose proof (pool_inv_hash_frame _ _ _ _ Hinv Hf Hhi) as Hinv1.
  change (enable_kv_cache_events p1) with (enable_kv_cache_events p).
  eexists. split; [reflexivity|].
  assert (forall i, valid_block p i -> ref_cnt (pheap p (Blk i)) = 0) as Hz by (apply Hall; lia).
  destruct (enable_kv_cache_events p); (split; [first [done|by apply pool_inv_events]|]);
    do 2 (split; [done|]); (split; [done|]); (split; [intros i; apply Hk|]);
    intros r; apply (hf_ref _ _ Hf).
Qed.

Lemma move_block_hashes_Ok p xs i j :
  pool_inv p xs -> valid_block p j -> i <> j -> pool_keys p j = ∅ ->
  exists p', move_block_hashes (Blk i) (Blk j) p = Ok p' /\ pool_inv p' xs /\ hash_frame p p' /\
    kv_event_queue p' = kv_event_queue p /\
    pool_keys p' i = ∅ /\ pool_keys p' j = pool_keys p i /\
    forall k, k <> i -> k <> j -> pool_keys p' k = pool_keys p k.
Proof.
  intros Hinv [Hj Hjn] Hij Hempty. pose proof (pi_hash _ _ _ Hinv) as Hh.
  assert (block_hash (pheap p (Blk j)) = None) as Hbj.
  { unfold pool_keys, keys_at in Hempty. destruct (block_hash (pheap p (Blk j))); [|done].
    simpl in Hempty. set_solver. }
  assert (cached_block_hashes_by_block p !! Z.of_nat j = None) as Hxj.
  { destruct (_ !! Z.of_nat j) as [s|] eqn:Es; [|done].
    destruct (hi_extra _ _ _ _ Hh j s Es) as (k & ? & _). congruence. }
  unfold move_block_hashes. rewrite Hbj. simpl block_id. rewrite Hxj. simpl.
  destruct (remove_cached_block_hashes (Blk i) p) as [removed p1] eqn:E.
  destruct (remove_cached_block_hashes_spec _ _ _ _ Hh E) as (Hh1 & Hf1 & Hrem & Hev & _ & _ & Hk1).
  destruct (key_list_spec p i Hh) as [_ Hkl]. rewrite <-Hrem in Hkl.
  assert (removed <> [] -> exists nt, block_hash_num_tokens (pheap p (Blk i)) = Some nt) as Hnt.
  { intros Hne. destruct removed as [|k ks]; [done|].
    assert (k ∈ pool_keys p i) as Hin by (apply Hkl; set_solver).
    destruct (block_hash_num_tokens (pheap p (Blk i))) as [nt|] eqn:Et; [eauto|].
    apply (hi_tokens _ _ _ _ Hh) in Et. unfold pool_keys, keys_at in Hin. rewrite Et in Hin.
    destruct (_ !! Z.of_nat i) as [s|] eqn:Es; simpl in Hin; [|set_solver].
    destruct (hi_extra _ _ _ _ Hh i s Es) as (k' & ? & _). congruence. }
  assert (forall ks q, (ks <> [] -> removed <> []) -> pool_hash_inv q ->
    num_gpu_blocks q = num_gpu_blocks p ->
    exists q', for_each (fun k q => insert_block_hash k (Blk j)
        (block_hash_num_tokens (pheap p (Blk i))) q) ks q = Ok q' /\
      pool_hash_inv q' /\ hash_frame q q' /\ kv_event_queue q' = kv_event_queue q /\
      forall k, pool_keys q' k =
        if decide (k = j) then list_to_set ks ∪ pool_keys q j else pool_keys q k) as Hloop.
  { induction ks as [|k ks IH]; intros q Hne Hq Hn.
    - exists q. split_and!; try done. intros k. decide_goal; [subst; simpl; set_solver|done].
    - destruct Hnt as [nt Hnt]; [by apply Hne|]. simpl. rewrite Hnt in IH |- *.
      destruct (insert_block_hash_spec q j k nt Hq Hj) as (q1 & -> & Hq1 & Hfq & Hevq & _ & Hkq & _);
        [lia|]. simpl.
      destruct (IH q1) as (q' & -> & Hq' & Hf' & Hev' & Hk'); [intros _; by apply Hne|done| |].
      { by rewrite (hf_num _ _ Hfq). }
      exists q'. split_and!; [done|done|by etrans|congruence|].
      intros k'. rewrite Hk', !Hkq. rewrite (decide_True _ _ (eq_refl j)).
      decide_goal; [set_solver|done]. }
  destruct (Hloop removed p1) as (p' & -> & Hh' & Hf' & Hev' & Hk'); [done|done|by apply (hf_num _ _ Hf1)|].
  assert (hash_frame p p') as Hf by (by etrans).
  exists p'. split_and!; [done|by eapply pool_inv_hash_frame|done|congruence|..].
  - rewrite Hk', !Hk1. by repeat decide_goal.
  - rewrite Hk', !Hk1, (decide_True _ _ (eq_refl j)), decide_False, Hempty by done.
    apply set_eq. intros k. rewrite elem_of_union, elem_of_list_to_set, Hkl. set_solver.
  - intros k Hki Hkj. rewrite Hk', !Hk1. by repeat decide_goal.
Qed.
End PoolCache.

(** ** Caching full blocks *)

(** Entry [k] of the cached range, holding block [j], is skipped. *)
Definition skipped (mask : option (list bool)) (k j : nat) : bool :=
  bool_decide (j = 0%nat) ||
  match mask with
  | None => false
  | Some m => match m !! k with Some b => negb b | None => false end
  end.

Section PoolFull.
Context `{PoolEnv}.

Lemma skip_block_Ok p xs mask k j :
  pool_inv p xs -> (forall m, mask = Some m -> (k < length m)%nat) ->
  skip_block p mask (Z.of_nat k) (Blk j) = Ok (skipped mask k j).
Proof.
  intros Hinv Hm. unfold skip_block, skipped. rewrite (pi_null _ _ _ Hinv).
  case_bool_decide; [done|]. destruct mask as [m|]; [|done].
  destruct (lookup_lt_is_Some_2 m k (Hm m eq_refl)) as [b Hb].
  rewrite (py_index_Ok m (Z.of_nat k) b) by (lia || by rewrite Nat2Z.id). by rewrite Hb.
Qed.

Lemma pool_keys_no_hash p i :
  pool_hash_inv p -> block_hash (pheap p (Blk i)) = None -> pool_keys p i = ∅.
Proof.
  intros Hh Hb. unfold pool_keys, keys_at. rewrite Hb.
  destruct (_ !! Z.of_nat i) as [s|] eqn:Es; simpl; [|set_solver].
  destruct (hi_extra _ _ _ _ Hh i s Es) as (k & ? & _). congruence.
Qed.

Lemma emit_removed_frame removed p :
  hash_frame p (emit_block_removed_events removed p) /\
  (pool_hash_inv p -> pool_hash_inv (emit_block_removed_events removed p)) /\
  pheap (emit_block_removed_events removed p) = pheap p /\
  forall i, pool_keys (emit_block_removed_events removed p) i = pool_keys p i.
Proof. unfold emit_block_removed_events. destruct (negb _); split_and!; done. Qed.

Lemma pool_keys_empty p i : pool_keys p i = ∅ -> block_hash (pheap p (Blk i)) = None.
Proof.
  unfold pool_keys, keys_at. destruct (block_hash (pheap p (Blk i))); [|done]. simpl. set_solver.
Qed.

(** What caching one block under [key] does: afterwards [key] is its only key. *)
Definition cached_as (p p' : BlockPool) (j : nat) (key : bytes) : Prop :=
  hash_frame p p' /\ (forall r, r <> Blk j -> pheap p' r = pheap p r) /\
  forall j', pool_keys p' j' = if decide (j' = j) then {[key]} else pool_keys p j'.

Lemma cache_one_block_Ok p xs nc bsz gid mask hashes k j hash key nh :
  pool_inv p xs -> (forall m, mask = Some m -> (k < length m)%nat) ->
  skipped mask k j = false -> valid_block p j ->
  hashes !! k = Some hash -> make_block_hash_with_group_id hash gid = Ok key ->
  match block_hash_num_tokens (pheap p (Blk j)) with
  | Some n => n < (nc + Z.of_nat k + 1) * bsz | None => True end ->
  exists p', cache_one_block nc bsz gid mask hashes (Z.of_nat k, Blk j) (p, nh) =
      Ok (p', if enable_kv_cache_events p then nh ++ [convert_hash hash] else nh) /\
    pool_inv p' xs /\ cached_as p p' j key.
Proof.
  intros Hinv Hm Hskip [Hj Hjn] Hhash Hkey Htok. unfold cache_one_block.
  rewrite (skip_block_Ok _ _ _ _ _ Hinv Hm), Hskip. simpl.
  rewrite (py_index_Ok hashes (Z.of_nat k) hash) by (lia || by rewrite Nat2Z.id). simpl.
  rewrite Hkey. simpl. pose proof (pi_hash _ _ _ Hinv) as Hh.
  set (nt := (nc + Z.of_nat k + 1) * bsz) in *.
  assert (exists p1, (match block_hash (pheap p (Blk j)) with
    | None => Ok p
    | Some _ =>
        _ ← assert_ (match block_hash_num_tokens (pheap p (Blk j)) with
                     | Some n => n <? nt | None => false end);
        let '(removed, p) := remove_cached_block_hashes (Blk j) p in
        Ok (emit_block_removed_events removed p)
    end) = Ok p1 /\ pool_hash_inv p1 /\ hash_frame p p1 /\
    (forall r, r <> Blk j -> pheap p1 r = pheap p r) /\
    forall j', pool_keys p1 j' = if decide (j' = j) then ∅ else pool_keys p j')
    as (p1 & -> & Hh1 & Hf1 & Hheap1 & Hk1).
  { destruct (block_hash (pheap p (Blk j))) as [k0|] eqn:Eb.
    - destruct (block_hash_num_tokens (pheap p (Blk j))) as [n|] eqn:Et.
      2:{ apply (hi_tokens _ _ _ _ Hh) in Et. congruence. }
      rewrite assert_true by (by apply Z.ltb_lt). simpl.
      destruct (remove_cached_block_hashes (Blk j) p) as [removed p0] eqn:E.
      destruct (remove_cached_block_hashes_spec _ _ _ _ Hh E) as (Hh0 & Hf0 & _ & _ & _ & Hheap0 & Hk0).
      destruct (emit_removed_frame removed p0) as (Hfe & Hhe & Hpe & Hke).
      eexists. split; [done|]. split_and!; [auto|by etrans|intros; rewrite Hpe; auto|].
      intros j'. by rewrite Hke.
    - exists p. split_and!; try done. intros j'. decide_goal; [subst|done].
      by apply pool_keys_no_hash. }
  simpl. destruct (insert_block_hash_spec p1 j key nt Hh1 Hj)
    as (p2 & -> & Hh2 & Hf2 & _ & Hheap2 & Hk2 & _); [by rewrite (hf_num _ _ Hf1)|].
  simpl. assert (hash_frame p p2) as Hf by (by etrans).
  rewrite (hf_enabled _ _ Hf). exists p2. split; [done|].
  split; [by eapply pool_inv_hash_frame|]. split_and!; [done| |].
  - intros r Hr. by rewrite Hheap2, Hheap1.
  - intros j'. rewrite Hk2, !Hk1. rewrite (decide_True _ _ (eq_refl j)).
    decide_goal; [set_solver|done].
Qed.

(** The hashes stored for a range of blocks that starts at entry [o]. *)
Definition stored_hashes (mask : option (list bool)) (hashes : list bytes) (o : nat)
    (js : list nat) : list bytes :=
  imap (fun k j => (o + k, j)%nat) js ≫= fun '(k, j) =>
    if skipped mask k j then [] else option_list (hashes !! k).

(** The keys of the blocks afterwards: exactly the new one where an entry was
    cached, the old ones elsewhere. *)
Definition range_cached (p p' : BlockPool) (mask : option (list bool)) (hashes : list bytes)
    (gid : Z) (o : nat) (js : list nat) : Prop :=
  (forall k j, js !! k = Some j -> skipped mask (o + k) j = false ->
    exists hash key, hashes !! (o + k)%nat = Some hash /\
      make_block_hash_with_group_id hash gid = Ok key /\ pool_keys p' j = {[key]}) /\
  (forall j, (forall k, js !! k = Some j -> skipped mask (o + k) j = true) ->
    pool_keys p' j = pool_keys p j).

(** What the callers guarantee for the blocks of the range, from entry [o] on. *)
Definition range_ok (p : BlockPool) (js : list nat) (mask : option (list bool))
    (nc bsz : Z) (o : nat) : Prop :=
  forall k j, js !! k = Some j -> skipped mask (o + k) j = false ->
    valid_block p j /\
    match block_hash_num_tokens (pheap p (Blk j)) with
    | Some n => n < (nc + Z.of_nat (o + k) + 1) * bsz | None => True end /\
    (forall k', js !! k' = Some j -> skipped mask (o + k') j = false -> k' = k).

Lemma cache_loop_Ok xs nc bsz gid mask hashes js o p nh :
  pool_inv p xs -> 0 <= gid < 2 ^ 32 ->
  (forall m, mask = Some m -> (o + length js <= length m)%nat) ->
  (o + length js <= length hashes)%nat -> range_ok p js mask nc bsz o ->
  exists p', for_each (cache_one_block nc bsz gid mask hashes)
      (imap (fun k b => (Z.of_nat (o + k), Blk b)) js) (p, nh) =
      Ok (p', if enable_kv_cache_events p
              then nh ++ (convert_hash <$> stored_hashes mask hashes o js) else nh) /\
    pool_inv p' xs /\ hash_frame p p' /\ range_cached p p' mask hashes gid o js.
Proof.
  unfold stored_hashes, range_cached. intros Hinv Hgid. revert o p nh Hinv.
  induction js as [|j js IH]; intros o p nh Hinv Hm Hlen Hok.
  { exists p. simpl. split; [by case_match; rewrite ?app_nil_r|]. split_and!; try done. }
  simpl in Hm, Hlen. rewrite !imap_cons. cbn [for_each].
  rewrite Nat.add_0_r.
  assert (forall m, mask = Some m -> (o < length m)%nat) as Hm0
    by (intros m Em; specialize (Hm m Em); lia).
  destruct (lookup_lt_is_Some_2 hashes o) as [hash Hhash]; [lia|].
  assert (exists p1 key, cache_one_block nc bsz gid mask hashes (Z.of_nat o, Blk j) (p, nh) =
      Ok (p1, if enable_kv_cache_events p
              then nh ++ (convert_hash <$> (if skipped mask o j then [] else [hash])) else nh) /\
    pool_inv p1 xs /\ hash_frame p p1 /\
    (skipped mask o j = true -> p1 = p) /\
    (skipped mask o j = false -> make_block_hash_with_group_id hash gid = Ok key /\
      cached_as p p1 j key)) as (p1 & key & -> & Hinv1 & Hf1 & Hskip & Hcache).
  { destruct (skipped mask o j) eqn:Es.
    - exists p, []. unfold cache_one_block. rewrite (skip_block_Ok _ _ _ _ _ Hinv Hm0), Es. simpl.
      rewrite app_nil_r. split; [by case_match|]. done.
    - destruct (Hok 0%nat j eq_refl) as (Hv & Ht & _); [by rewrite Nat.add_0_r|].
      rewrite Nat.add_0_r in Ht.
      set (key := hash ++ big_endian 4 gid).
      assert (make_block_hash_with_group_id hash gid = Ok key) as Hkey
        by (by apply make_block_hash_with_group_id_Ok).
      destruct (cache_one_block_Ok p xs nc bsz gid mask hashes o j hash key nh)
        as (p1 & -> & Hinv1 & Hc); [done..|].
      exists p1, key. split; [done|]. split; [done|]. split; [apply Hc|]. done. }
  simpl.
  assert (range_ok p1 js mask nc bsz (S o)) as Hok1.
  { intros k j' Hj' Hs. replace (S o + k)%nat with (o + S k)%nat in * by lia.
    destruct (Hok (S k) j' Hj' Hs) as (Hv & Ht & Huniq).
    rewrite (valid_block_config p p1) by (by apply hash_frame_config).
    split; [done|]. split.
    - assert (pheap p1 (Blk j') = pheap p (Blk j')) as ->; [|done].
      destruct (skipped mask o j) eqn:Es; [by rewrite Hskip|].
      destruct (Hcache eq_refl) as (_ & _ & Hheap & _). apply Hheap. intros [= ->].
      specialize (Huniq 0%nat eq_refl). rewrite Nat.add_0_r in Huniq. by specialize (Huniq Es).
    - intros k' Hk' Hs'. replace (S o + k')%nat with (o + S k')%nat in * by lia.
      specialize (Huniq (S k') Hk' Hs'). lia. }
  destruct (IH (S o) p1 (if enable_kv_cache_events p
      then nh ++ (convert_hash <$> (if skipped mask o j then [] else [hash])) else nh) Hinv1)
    as (p' & Hfor & Hinv' & Hf' & Hcached & Hrest);
    [intros m Em; specialize (Hm m Em); lia|lia|done|].
  assert (imap (fun k b => (Z.of_nat (S o + k), Blk b)) js =
    imap ((fun k b => (Z.of_nat (o + k), Blk b)) ∘ S) js) as Himap.
  { apply imap_ext. intros k b _. simpl. do 2 f_equal. lia. }
  rewrite Himap in Hfor. exists p'. rewrite Hfor. split; [|split_and!].
  - rewrite (hf_enabled _ _ Hf1). destruct (enable_kv_cache_events p); [|done].
    do 2 f_equal. rewrite <-app_assoc. f_equal. simpl. rewrite <-fmap_app. f_equal.
    f_equal; [destruct (skipped mask o j); [done|by rewrite Hhash]|].
    f_equal. apply imap_ext. intros k b _. simpl. f_equal. lia.
  - done.
  - by etrans.
  - intros k j' Hk Hs. destruct k as [|k].
    + injection Hk as <-. rewrite Nat.add_0_r in *.
      destruct (Hcache Hs) as (Hkey & _ & _ & Hkeys). exists hash, key. split_and!; [done|done|].
      rewrite Hrest; [by rewrite Hkeys, decide_True|].
      intros k Hk. destruct (skipped mask (S o + k) j) eqn:Es; [done|exfalso].
      destruct (Hok 0%nat j eq_refl) as (_ & _ & Huniq); [by rewrite Nat.add_0_r|].
      specialize (Huniq (S k) Hk). replace (o + S k)%nat with (S o + k)%nat in Huniq by lia.
      by specialize (Huniq Es).
    + replace (o + S k)%nat with (S o + k)%nat in * by lia. by apply Hcached.
  - intros j' Hall. rewrite Hrest.
    + destruct (skipped mask o j) eqn:Es; [by rewrite Hskip|].
      destruct (Hcache eq_refl) as (_ & _ & _ & Hkeys). rewrite Hkeys, decide_False; [done|].
      intros ->. specialize (Hall 0%nat eq_refl). rewrite Nat.add_0_r in Hall. congruence.
    + intros k Hk. replace (S o + k)%nat with (o + S k)%nat by lia. by apply Hall.
Qed.
End PoolFull.

(** ** [cache_full_blocks] *)

(** The hashes of a view from entry [nc] on. *)
Lemma hash_list_from_Ok hs hbs k v nc :
  0 < hbs -> 0 < k -> resolve_block_hashes (Hashes hs) hbs (k * hbs) false None = Ok v ->
  0 <= nc -> nc * k <= zlen hs ->
  exists l, hash_list_from v nc = Ok l /\ zlen l = zlen hs / k - nc /\
    forall i : nat, (nc + Z.of_nat i + 1) * k <= zlen hs ->
      l !! i = hs !! Z.to_nat ((nc + Z.of_nat i + 1) * k - 1).
Proof.
  intros Hb Hk Hv Hnc Hle.
  pose proof (Z.div_mod (zlen hs) k ltac:(lia)). pose proof (Z.mod_pos_bound (zlen hs) k Hk).
  destruct (resolve_Ok_inv hs hbs (k * hbs) v Hb ltac:(nia) Hv) as (k' & Hk' & Heq & Hlen & Hget).
  assert (k' = k) as -> by nia. unfold hash_list_from. destruct v as [hs'|hs' sf].
  - assert (hs' = hs /\ k = 1) as [-> ->].
    { unfold resolve_block_hashes in Hv. destruct (Z.eqb_spec (k * hbs) hbs).
      - injection Hv as ->. split; [done|nia].
      - simpl in Hv. destruct (Z.eqb_spec hbs 0); [lia|]. rewrite Z.mod_mul in Hv by lia.
        unfold with_block_size_init in Hv. simpl in Hv.
        destruct (Z.eqb_spec hbs 0); [lia|]. rewrite Z.mod_mul in Hv by lia. done. }
    rewrite py_from_nonneg by lia. eexists. split; [done|]. split; [rewrite length_drop; nia|].
    intros i Hi. rewrite lookup_drop. f_equal. lia.
  - unfold hash_list_slice. rewrite Hlen in *. unfold slice_bound.
    destruct (Z.ltb_spec nc 0); [lia|]. destruct (Z.ltb_spec (zlen hs / k) 0); [nia|].
    rewrite !Z.min_l by nia.
    destruct (map_ok_lookup (get_value_at (WithBlockSize hs' sf)) (py_range nc (zlen hs / k)))
      as (l & -> & Hll & Hl).
    { intros x Hx%elem_of_py_range. rewrite Hget by lia.
      destruct (lookup_lt_is_Some_2 hs (Z.to_nat ((x + 1) * k - 1))) as [h ->]; [nia|]. eauto. }
    exists l. split; [done|]. unfold py_range in *. rewrite length_seqZ in Hll. split; [nia|].
    intros i Hi. destruct (Hl i (nc + Z.of_nat i)) as (h & Hh & ->).
    { apply lookup_seqZ. nia. }
    rewrite Hget in Hh by lia. by apply or_raise_Ok_inv in Hh.
Qed.

Section PoolFullBlocks.
Context `{PoolEnv}.

Lemma mm_index_ok_mono fs s e idx : s <= e -> mm_index_ok fs s idx -> mm_index_ok fs e idx.
Proof. intros Hse [? ?]. split; [done|]. by eapply ended_mono. Qed.

(** The extra keys of the entries that are not skipped, as the event lists them. *)
Definition stored_extra_keys (r : Request) (mask : option (list bool)) (nc bsz : Z) (o : nat)
    (js : list nat) : list (option (list extra_key)) :=
  imap (fun k j => (o + k, j)%nat) js ≫= fun '(k, j) =>
    if skipped mask k j then []
    else [block_extra env_sha256 r ((nc + Z.of_nat k) * bsz) ((nc + Z.of_nat k) * bsz + bsz)].

Lemma collect_extra_keys_Ok p xs blocks r mask nc bsz js o acc idx :
  pool_inv p xs -> 0 <= nc -> 0 < bsz ->
  (forall m, mask = Some m -> (o + length js <= length m)%nat) ->
  (forall k j, js !! k = Some j -> blocks !! (Z.to_nat nc + o + k)%nat = Some (Blk j)) ->
  features_sorted (mm_features r) -> memo_ok env_sha256 r ->
  mm_index_ok (mm_features r) ((nc + Z.of_nat o) * bsz) idx ->
  exists idx' m, for_each (collect_extra_keys p blocks nc bsz mask)
      (py_range (nc + Z.of_nat o) (nc + Z.of_nat (o + length js))) (acc, idx, r) =
      Ok (acc ++ stored_extra_keys r mask nc bsz o js, idx', with_memo m r) /\
    memo_ok env_sha256 (with_memo m r).
Proof.
  intros Hinv Hnc Hbsz. revert o acc idx r.
  induction js as [|j js IH]; intros o acc idx r Hm Hbl Hs Hmemo Hidx.
  { exists idx, (embeds_memo r). rewrite py_range_nil by (simpl; lia). simpl.
    by rewrite app_nil_r, with_memo_id. }
  simpl in Hm. rewrite py_range_cons by (simpl; lia). cbn [for_each].
  assert (forall m, mask = Some m -> (o < length m)%nat) as Hm0
    by (intros m Em; specialize (Hm m Em); lia).
  assert (exists idx1 m1, collect_extra_keys p blocks nc bsz mask (nc + Z.of_nat o) (acc, idx, r) =
      Ok (acc ++ (if skipped mask o j then []
           else [block_extra env_sha256 r ((nc + Z.of_nat o) * bsz) ((nc + Z.of_nat o) * bsz + bsz)]),
          idx1, with_memo m1 r) /\
    mm_index_ok (mm_features r) ((nc + Z.of_nat (S o)) * bsz) idx1 /\
    memo_ok env_sha256 (with_memo m1 r)) as (idx1 & m1 & -> & Hidx1 & Hmemo1).
  { unfold collect_extra_keys.
    rewrite (py_index_Ok blocks (nc + Z.of_nat o) (Blk j)); [|lia|].
    2:{ specialize (Hbl 0%nat j eq_refl). rewrite <-Hbl. f_equal. lia. }
    simpl. replace (nc + Z.of_nat o - nc) with (Z.of_nat o) by lia.
    rewrite (skip_block_Ok _ _ _ _ _ Hinv Hm0). simpl. destruct (skipped mask o j).
    - exists idx, (embeds_memo r). rewrite app_nil_r, with_memo_id. split; [done|].
      split; [|done]. eapply mm_index_ok_mono; [|exact Hidx]. nia.
    - destruct (generate_spec env_sha256 r ((nc + Z.of_nat o) * bsz)
        ((nc + Z.of_nat o) * bsz + bsz) idx) as (idx1 & m1 & -> & Hi1 & Hm1); [lia|done..|].
      exists idx1, m1. split; [done|]. split; [|done].
      replace ((nc + Z.of_nat (S o)) * bsz) with ((nc + Z.of_nat o) * bsz + bsz) by lia. done. }
  simpl. destruct (IH (S o) (acc ++ (if skipped mask o j then []
      else [block_extra env_sha256 r ((nc + Z.of_nat o) * bsz) ((nc + Z.of_nat o) * bsz + bsz)]))
      idx1 (with_memo m1 r)) as (idx' & m & Hfor & Hmemo').
  - intros m Em. specialize (Hm m Em). lia.
  - intros k j' Hk. specialize (Hbl (S k) j' Hk). rewrite <-Hbl. f_equal. lia.
  - done.
  - done.
  - done.
  - exists idx', m. replace (nc + Z.of_nat o + 1) with (nc + Z.of_nat (S o)) by lia.
    replace (nc + Z.of_nat (o + S (length js))) with (nc + Z.of_nat (S o + length js)) by lia.
    rewrite Hfor. split; [|done]. rewrite <-app_assoc. do 4 f_equal.
    unfold stored_extra_keys. rewrite imap_cons, Nat.add_0_r. simpl. f_equal. f_equal.
    apply imap_ext. intros k b _. simpl. f_equal. lia.
Qed.

Lemma enumerate_blocks (js : list nat) :
  enumerate (Blk <$> js) = imap (fun k b => (Z.of_nat (0 + k), Blk b)) js.
Proof. unfold enumerate. by rewrite imap_fmap. Qed.

Lemma cache_full_blocks_Ok p xs r ids nc nf k gid mask :
  pool_inv p xs -> 0 <= nc < nf -> nf <= zlen ids -> 0 < pool_hash_block_size p -> 0 < k ->
  nf * k <= zlen (block_hashes r) -> 0 <= gid < 2 ^ 32 ->
  (forall m, mask = Some m -> zlen m = nf - nc) ->
  features_sorted (mm_features r) -> memo_ok env_sha256 r ->
  let bsz := k * pool_hash_block_size p in
  let js := py_slice ids nc nf in
  range_ok p js mask nc bsz 0 ->
  exists m p' hashes parent,
    cache_full_blocks r (Blk <$> ids) nc nf bsz gid mask p = Ok (with_memo m r, p') /\
    memo_ok env_sha256 (with_memo m r) /\
    pool_inv p' xs /\ same_config p p' /\
    (forall b, ref_cnt (pheap p' b) = ref_cnt (pheap p b)) /\
    (forall i : nat, nc + Z.of_nat i < nf ->
      hashes !! i = block_hashes r !! Z.to_nat ((nc + Z.of_nat i + 1) * k - 1)) /\
    range_cached p p' mask hashes gid 0 js /\
    (if enable_kv_cache_events p then exists es, kv_event_queue p' = es ++
      [build_block_stored_event r (convert_hash <$> stored_hashes mask hashes 0 js) parent
        (nc * bsz) (nf * bsz) bsz gid (stored_extra_keys r mask nc bsz 0 js)]
     else True) /\
    parent = (if nc =? 0 then None
              else convert_hash <$> block_hashes r !! Z.to_nat (nc * k - 1)).
Proof.
  intros Hinv Hn Hnf Hhbs Hk Hbh Hgid Hmask Hfs Hmemo bsz js Hok.
  unfold cache_full_blocks. destruct (Z.leb_spec nf nc); [lia|].
  assert (py_slice (Blk <$> ids) nc nf = Blk <$> js) as Hslice.
  { unfold js. rewrite !py_slice_nonneg by lia. by rewrite fmap_take, fmap_drop. }
  assert (zlen js = nf - nc) as Hjs by (apply length_py_slice; lia).
  rewrite Hslice, length_fmap, Hjs.
  rewrite assert_true by (destruct mask as [m|]; [by apply Z.eqb_eq, Hmask|done]). simpl.
  destruct (resolve_multiple (block_hashes r) _ k Hhbs Hk) as [v Hv].
  destruct (resolve_Ok_inv _ _ (k * pool_hash_block_size p) _ Hhbs ltac:(nia) Hv)
    as (k' & Hk' & Heq & Hvlen & Hget). assert (k' = k) as -> by nia.
  fold bsz in Hv |- *. rewrite Hv. simpl.
  destruct (hash_list_from_Ok _ _ _ _ nc Hhbs Hk Hv) as (hashes & Hfrom & Hhlen & Hhl);
    [lia|nia|]. rewrite Hfrom. simpl. rewrite enumerate_blocks.
  pose proof (Z.div_mod (zlen (block_hashes r)) k ltac:(lia)).
  pose proof (Z.mod_pos_bound (zlen (block_hashes r)) k Hk).
  destruct (cache_loop_Ok xs nc bsz gid mask hashes js 0 p [] Hinv Hgid)
    as (p1 & -> & Hinv1 & Hf1 & Hcached); [|simpl; nia|done|].
  { intros m Em. specialize (Hmask m Em). simpl. lia. }
  simpl. rewrite (hf_enabled _ _ Hf1).
  assert (forall i : nat, nc + Z.of_nat i < nf ->
    hashes !! i = block_hashes r !! Z.to_nat ((nc + Z.of_nat i + 1) * k - 1)) as Hhashes
    by (intros i Hi; apply Hhl; nia).
  set (parent := if nc =? 0 then None else _ <$> _).
  destruct (enable_kv_cache_events p) eqn:Een; simpl.
  2:{ exists (embeds_memo r), p1, hashes, parent. rewrite with_memo_id.
      split_and!; try done; [by apply hash_frame_config|apply (hf_ref _ _ Hf1)]. }
  assert ((if nc =? 0 then Ok None
    else h ← get_value_at v (nc - 1); Ok (Some (convert_hash h))) = Ok parent) as ->.
  { unfold parent. destruct (Z.eqb_spec nc 0); [done|]. rewrite Hget by lia.
    replace (nc - 1 + 1) with nc by lia.
    destruct (lookup_lt_is_Some_2 (block_hashes r) (Z.to_nat (nc * k - 1))) as [h ->]; [nia|done]. }
  simpl.
  destruct (collect_extra_keys_Ok p1 xs (Blk <$> ids) r mask nc bsz js 0 [] 0)
    as (idx' & m & Hfor & Hmemo'); [done|lia|nia| | |done|done| |].
  - intros m Em. specialize (Hmask m Em). lia.
  - intros i j Hi. unfold js in Hi. rewrite py_slice_nonneg in Hi by lia.
    assert (i < Z.to_nat nf - Z.to_nat nc)%nat as Hlt.
    { apply lookup_lt_Some in Hi. rewrite length_take in Hi. lia. }
    rewrite lookup_take_lt, lookup_drop in Hi by done.
    rewrite list_lookup_fmap. replace (Z.to_nat nc + 0 + i)%nat with (Z.to_nat nc + i)%nat by lia.
    by rewrite Hi.
  - split; [lia|]. constructor.
  - replace (nc + Z.of_nat 0) with nc in Hfor by lia. simpl in Hfor.
    replace (nc + zlen js) with nf in Hfor by lia. rewrite Hfor. simpl.
    exists m. eexists. exists hashes, parent. split; [reflexivity|].
    split_and!; try done.
    + by apply pool_inv_events.
    + etrans; [by apply hash_frame_config|done].
    + apply (hf_ref _ _ Hf1).
    + eexists. reflexivity.
Qed.
End PoolFullBlocks.

(** ** Preservation by the caching operations, whatever their arguments *)

Section PoolPreserve.
Context `{PoolEnv}.

Definition block_of_pool (p : BlockPool) (i : nat) : Prop := valid_block p i \/ i = 0%nat.

(** Inserting any key on a non-null block. *)
Lemma insert_block_hash_inv p xs j key nt p' :
  pool_inv p xs -> valid_block p j -> insert_block_hash key (Blk j) (Some nt) p = Ok p' ->
  pool_inv p' xs /\ hash_frame p p' /\
  forall j', pool_keys p' j' = if decide (j' = j) then {[key]} ∪ pool_keys p j else pool_keys p j'.
Proof.
  intros Hinv [Hj Hjn] Hins.
  destruct (insert_block_hash_spec p j key nt (pi_hash _ _ _ Hinv) Hj Hjn)
    as (p1 & Heq & Hh & Hf & _ & _ & Hk & _).
  rewrite Heq in Hins. injection Hins as <-.
  split; [by eapply pool_inv_hash_frame|done].
Qed.

Lemma drop_hashes_inv p xs j removed p1 :
  pool_inv p xs -> remove_cached_block_hashes (Blk j) p = (removed, p1) ->
  pool_inv (emit_block_removed_events removed p1) xs /\
  hash_frame p (emit_block_removed_events removed p1) /\
  forall j', pool_keys (emit_block_removed_events removed p1) j' =
    if decide (j' = j) then ∅ else pool_keys p j'.
Proof.
  intros Hinv E.
  destruct (remove_cached_block_hashes_spec _ _ _ _ (pi_hash _ _ _ Hinv) E)
    as (Hh & Hf & _ & _ & _ & _ & Hk).
  destruct (emit_removed_frame removed p1) as (Hfe & Hhe & _ & Hke).
  assert (hash_frame p (emit_block_removed_events removed p1)) as Hf' by (by etrans).
  split_and!; [eapply pool_inv_hash_frame; [exact Hinv|done|auto]|done|].
  intros j'. by rewrite Hke.
Qed.

Lemma cache_one_block_inv nc bsz gid mask hashes i j p nh xs p' nh' :
  pool_inv p xs -> block_of_pool p j ->
  cache_one_block nc bsz gid mask hashes (i, Blk j) (p, nh) = Ok (p', nh') ->
  pool_inv p' xs /\ hash_frame p p'.
Proof.
  intros Hinv Hj Hc. unfold cache_one_block in Hc. simpl in Hc.
  apply bind_Ok_inv in Hc as (skip & Hskip & Hc).
  destruct skip; [by simplify_eq|].
  assert (valid_block p j) as Hv.
  { destruct Hj as [?| ->]; [done|exfalso]. unfold skip_block in Hskip.
    by rewrite (pi_null _ _ _ Hinv) in Hskip. }
  apply bind_Ok_inv in Hc as (hash & _ & Hc). apply bind_Ok_inv in Hc as (key & _ & Hc).
  apply bind_Ok_inv in Hc as (p1 & Hp1 & Hc). apply bind_Ok_inv in Hc as (p2 & Hp2 & Hc).
  injection Hc as <- _.
  assert (pool_inv p1 xs /\ hash_frame p p1) as [Hinv1 Hf1].
  { destruct (block_hash (pheap p (Blk j))); [|by injection Hp1 as <-].
    apply bind_Ok_inv in Hp1 as (u & _ & Hp1).
    destruct (remove_cached_block_hashes (Blk j) p) as [removed p0] eqn:E.
    injection Hp1 as <-. destruct (drop_hashes_inv _ _ _ _ _ Hinv E) as (? & ? & _). done. }
  assert (valid_block p1 j) as Hv1 by (by apply (valid_block_config p p1); [apply hash_frame_config|]).
  destruct (insert_block_hash_inv _ _ _ _ _ _ Hinv1 Hv1 Hp2) as (? & Hf2 & _).
  split; [done|by etrans].
Qed.

Lemma for_each_blocks_inv {S} (f : Z * bref -> BlockPool * S -> result (BlockPool * S)) xs l p s p' s' :
  (forall i j q t q' t', pool_inv q xs -> hash_frame p q -> block_of_pool p j ->
     f (i, Blk j) (q, t) = Ok (q', t') -> pool_inv q' xs /\ hash_frame q q') ->
  pool_inv p xs -> Forall (fun ib => exists j, snd ib = Blk j /\ block_of_pool p j) l ->
  for_each f l (p, s) = Ok (p', s') -> pool_inv p' xs /\ hash_frame p p'.
Proof.
  intros Hf Hinv Hl.
  enough (forall q t, pool_inv q xs -> hash_frame p q -> for_each f l (q, t) = Ok (p', s') ->
    pool_inv p' xs /\ hash_frame p p') as Hgen by (by apply (Hgen p s)).
  induction Hl as [|[i b] l (j & Hb & Hj) _ IH]; intros q t Hq Hfr Hfor; simpl in Hfor.
  { injection Hfor as <- <-. done. }
  simpl in Hb. subst b.
  apply bind_Ok_inv in Hfor as ([q1 t1] & Hstep & Hfor).
  destruct (Hf _ _ _ _ _ _ Hq Hfr Hj Hstep) as [Hq1 Hf1].
  eapply IH; [exact Hq1|by etrans|exact Hfor].
Qed.

Lemma enumerate_Forall {A} (P : A -> Prop) (l : list A) :
  Forall P l -> Forall (fun ia => P (snd ia)) (enumerate l).
Proof.
  intros Hl. apply Forall_lookup_2. intros k [i x]. unfold enumerate.
  rewrite list_lookup_imap. destruct (l !! k) eqn:E; simpl; [|done].
  intros [= <- <-]. simpl. by eapply Forall_lookup_1.
Qed.

Lemma cache_full_blocks_inv r ids nc nf bsz gid mask p xs r' p' :
  pool_inv p xs -> Forall (block_of_pool p) ids ->
  cache_full_blocks r (Blk <$> ids) nc nf bsz gid mask p = Ok (r', p') ->
  pool_inv p' xs /\ same_config p p' /\ forall b, ref_cnt (pheap p' b) = ref_cnt (pheap p b).
Proof.
  intros Hinv Hids Hc. unfold cache_full_blocks in Hc.
  destruct (nf <=? nc); [by injection Hc as <- <-|].
  apply bind_Ok_inv in Hc as (u & _ & Hc). apply bind_Ok_inv in Hc as (v & _ & Hc).
  apply bind_Ok_inv in Hc as (hs & _ & Hc). apply bind_Ok_inv in Hc as ([p1 nh] & Hloop & Hc).
  assert (pool_inv p1 xs /\ hash_frame p p1) as [Hinv1 Hf1].
  { eapply for_each_blocks_inv; [|exact Hinv| |exact Hloop].
    - intros i j q t q' t' Hq Hfq Hj. apply cache_one_block_inv; [done|].
      destruct Hj as [Hj| ->]; [left|by right].
      by apply (valid_block_config p q); [apply hash_frame_config|].
    - apply (enumerate_Forall (fun b => exists j, b = Blk j /\ block_of_pool p j)).
      unfold py_slice. apply Forall_take, Forall_drop, Forall_fmap.
      eapply Forall_impl; [exact Hids|]. intros j Hj. by exists j. }
  simpl in Hc. destruct (negb _).
  { injection Hc as <- <-. split_and!; [done|by apply hash_frame_config|apply (hf_ref _ _ Hf1)]. }
  apply bind_Ok_inv in Hc as (parent & _ & Hc). apply bind_Ok_inv in Hc as ([[es idx] r1] & _ & Hc).
  injection Hc as <- <-. split_and!; [by apply pool_inv_events| |apply (hf_ref _ _ Hf1)].
  etrans; [by apply hash_frame_config|done].
Qed.

Lemma cache_partial_block_inv r j ntok gid bsz p xs res r' p' :
  pool_inv p xs -> block_of_pool p j ->
  cache_partial_block r (Blk j) ntok gid bsz p = Ok (res, r', p') ->
  pool_inv p' xs /\ same_config p p' /\
  (forall b, ref_cnt (pheap p' b) = ref_cnt (pheap p b)) /\
  (res = None <-> j = 0%nat) /\
  (forall j', j' <> j -> pool_keys p' j' = pool_keys p j') /\
  match res with
  | None => pool_keys p' j = pool_keys p j
  | Some key => exists hash,
      block_hashes r !! Z.to_nat (ntok / pool_hash_block_size p - 1) = Some hash /\
      make_block_hash_with_group_id hash gid = Ok key /\
      key ∈ pool_keys p' j /\ pool_keys p' j ⊆ {[key]} ∪ pool_keys p j
  end.
Proof.
  intros Hinv Hj Hc. unfold cache_partial_block in Hc. rewrite (pi_null _ _ _ Hinv) in Hc.
  case_bool_decide as Hj0.
  { injection Hc as <- <- <-. done. }
  assert (valid_block p j) as Hv by (by destruct Hj).
  apply bind_Ok_inv in Hc as (u1 & _ & Hc). apply bind_Ok_inv in Hc as (u2 & _ & Hc).
  apply bind_Ok_inv in Hc as (u3 & _ & Hc). apply bind_Ok_inv in Hc as (hash & Hhash & Hc).
  apply bind_Ok_inv in Hc as (key & Hkey & Hc).
  assert (block_hashes r !! Z.to_nat (ntok / pool_hash_block_size p - 1) = Some hash) as Hlk.
  { unfold get_partial_block_hash in Hhash. destruct (_ =? 0); [done|].
    apply bind_Ok_inv in Hhash as (v1 & _ & Hhash). apply bind_Ok_inv in Hhash as (v2 & Hr & Hhash).
    apply assert_Ok_inv in Hr. bools. rewrite py_index_nonneg in Hhash by lia.
    by apply or_raise_Ok_inv in Hhash. }
  match type of Hc with context [if negb ?a && ?o then _ else _] => set (outgrown := negb a && o) in Hc end.
  cbv zeta in Hc.
  set (p1 := if outgrown then _ else p) in Hc.
  assert (pool_inv p1 xs /\ hash_frame p p1 /\
    (forall j', j' <> j -> pool_keys p1 j' = pool_keys p j') /\ pool_keys p1 j ⊆ pool_keys p j)
    as (Hinv1 & Hf1 & Hk1 & Hk1j).
  { unfold p1. destruct outgrown; [|done].
    destruct (remove_cached_block_hashes (Blk j) p) as [removed p0] eqn:E.
    destruct (drop_hashes_inv _ _ _ _ _ Hinv E) as (? & ? & Hk). split_and!; try done.
    - intros j' Hne. by rewrite Hk, decide_False.
    - rewrite Hk, decide_True by done. set_solver. }
  apply bind_Ok_inv in Hc as (p2 & Hp2 & Hc).
  assert (valid_block p1 j) as Hv1 by (by apply (valid_block_config p p1); [apply hash_frame_config|]).
  destruct (insert_block_hash_inv _ _ _ _ _ _ Hinv1 Hv1 Hp2) as (Hinv2 & Hf2 & Hk2).
  assert (exists es, res = Some key /\ (p' = p2 \/ p' = with_events es p2)) as (es & -> & Hp').
  { destruct (_ && _) in Hc.
    - apply bind_Ok_inv in Hc as ([ph bstart] & _ & Hc).
      apply bind_Ok_inv in Hc as ([[ek idx] r1] & _ & Hc). injection Hc as <- _ <-. eauto.
    - injection Hc as <- _ <-. exists []. auto. }
  assert (pool_inv p' xs /\ same_config p p' /\ forall i, pool_keys p' i = pool_keys p2 i)
    as (Hinv' & Hc' & Hk').
  { assert (same_config p p2) by (apply hash_frame_config; by etrans).
    destruct Hp' as [->| ->]; [done|]. split; [by apply pool_inv_events|done]. }
  split_and!; [done|done| |split; congruence|..].
  - intros b. assert (ref_cnt (pheap p2 b) = ref_cnt (pheap p b)) as <-.
    { by rewrite (hf_ref _ _ Hf2), (hf_ref _ _ Hf1). }
    by destruct Hp' as [->| ->].
  - intros j' Hne. rewrite Hk', Hk2, decide_False by done. auto.
  - exists hash. rewrite Hk', Hk2, decide_True by done. split_and!; [done|done|set_solver|set_solver].
Qed.

Lemma emit_cached_block_events_inv r n bsz gid p xs r' p' :
  pool_inv p xs -> emit_cached_block_events r n bsz gid p = Ok (r', p') ->
  pool_inv p' xs /\ same_config p p' /\ forall i, pool_keys p' i = pool_keys p i.
Proof.
  intros Hinv Hc. unfold emit_cached_block_events in Hc. destruct (_ || _); [by injection Hc as _ <-|].
  apply bind_Ok_inv in Hc as (v & _ & Hc). apply bind_Ok_inv in Hc as ([[[ch ek] idx] r1] & _ & Hc).
  destruct (bool_decide _); injection Hc as _ <-; [done|].
  split; [by apply pool_inv_events|done].
Qed.

(** ** Reachable pools *)

(** One call from a client that respects the protocol: it names blocks of the
    pool, frees only blocks it holds a reference to (each once per call, the
    null block any number of times) and never moves hashes onto the null block. *)
Inductive pool_step (p : BlockPool) : BlockPool -> Prop :=
  | step_get n bs p' : 0 <= n -> get_new_blocks n p = Ok (bs, p') -> pool_step p p'
  | step_touch ids p' : Forall (block_of_pool p) ids -> touch (Blk <$> ids) p = Ok p' ->
      pool_step p p'
  | step_free ids p' : distinct_blocks ids ->
      Forall (fun i => i <> 0%nat -> valid_block p i /\ 1 <= ref_cnt (pheap p (Blk i))) ids ->
      free_blocks (Blk <$> ids) p = Ok p' -> pool_step p p'
  | step_cache_full r ids nc nf bsz gid mask r' p' : Forall (block_of_pool p) ids ->
      cache_full_blocks r (Blk <$> ids) nc nf bsz gid mask p = Ok (r', p') -> pool_step p p'
  | step_cache_partial r i ntok gid bsz res r' p' : block_of_pool p i ->
      cache_partial_block r (Blk i) ntok gid bsz p = Ok (res, r', p') -> pool_step p p'
  | step_emit r n bsz gid r' p' :
      emit_cached_block_events r n bsz gid p = Ok (r', p') -> pool_step p p'
  | step_evict ids p' : Forall (fun id => 0 <= id < num_gpu_blocks p) ids ->
      evict_blocks ids p = Ok p' -> pool_step p p'
  | step_move i j p' : valid_block p j -> i <> j -> pool_keys p j = ∅ ->
      move_block_hashes (Blk i) (Blk j) p = Ok p' -> pool_step p p'
  | step_reset : pool_step p (snd (reset_prefix_cache p))
  | step_take : pool_step p (snd (take_events p)).

Inductive reachable : BlockPool -> Prop :=
  | reachable_init n caching hbs events p :
      pool_init n caching hbs events = Ok p -> reachable p
  | reachable_step p p' : reachable p -> pool_step p p' -> reachable p'.

Lemma pool_step_inv p p' xs : pool_inv p xs -> pool_step p p' -> exists xs', pool_inv p' xs'.
Proof.
  intros Hinv Hstep.
  destruct Hstep as [n bs p' Hn E|ids p' Hids E|ids p' Hd Hids E|r ids nc nf bsz gid mask r' p' Hids E
    |r i ntok gid bsz res r' p' Hi E|r n bsz gid r' p' E|ids p' Hids E|i j p' Hj Hij Hk E| |].
  - destruct (Z.le_gt_cases n (zlen xs)) as [Hle|Hgt].
    + destruct (get_new_blocks_Ok p xs n Hinv) as (p1 & E1 & Hp1 & _); [lia|].
      rewrite E1 in E. injection E as <- <-. eauto.
    + unfold get_new_blocks in E. rewrite (pool_inv_free _ _ Hinv) in E.
      destruct (Z.ltb_spec (zlen xs) n); [done|lia].
  - rewrite Forall_forall in Hids.
    destruct (touch_Ok ids p xs Hinv Hids) as (p1 & E1 & Hp1 & _).
    rewrite E1 in E. injection E as <-. eauto.
  - rewrite Forall_forall in Hids. destruct (free_blocks_Ok ids p xs Hinv Hd Hids) as (p1 & E1 & Hp1 & _).
    rewrite E1 in E. injection E as <-. eauto.
  - destruct (cache_full_blocks_inv _ _ _ _ _ _ _ _ _ _ _ Hinv Hids E). eauto.
  - destruct (cache_partial_block_inv _ _ _ _ _ _ _ _ _ _ Hinv Hi E). eauto.
  - destruct (emit_cached_block_events_inv _ _ _ _ _ _ _ _ Hinv E). eauto.
  - destruct (evict_blocks_Ok ids p xs Hinv Hids) as (p1 & E1 & Hp1 & _).
    rewrite E1 in E. injection E as <-. eauto.
  - destruct (move_block_hashes_Ok p xs i j Hinv Hj Hij Hk) as (p1 & E1 & Hp1 & _).
    rewrite E1 in E. injection E as <-. eauto.
  - destruct (reset_prefix_cache_Ok p xs Hinv) as [[-> _]|(p1 & -> & Hp1 & _)]; eauto.
  - unfold take_events. destruct (negb _); [eauto|]. exists xs. by apply pool_inv_events.
Qed.

Lemma reachable_pool_inv p : reachable p -> exists xs, pool_inv p xs.
Proof.
  induction 1 as [n caching hbs events p E|p p' _ [xs Hinv] Hstep].
  - destruct (Z.lt_ge_cases 0 n) as [Hn|Hn].
    + destruct (pool_init_spec n caching hbs events Hn) as (p1 & E1 & Hp1 & _).
      rewrite E1 in E. injection E as <-. eauto.
    + unfold pool_init in E. destruct (Z.ltb_spec 0 n); [lia|done].
  - by eapply pool_step_inv.
Qed.
End PoolPreserve.

(** * The pool's properties *)

Section Properties.
Context `{PoolEnv}.

(** C9: in every reachable pool state the pointer structure of the free queue
    is a duplicate-free list [xs] whose members are exactly the blocks (the null
    block excepted) with reference count zero, no count is negative, the counter
    of free blocks is right, and the hash map and the blocks' own keys describe
    the same relation: a key maps to a block exactly when the block carries it. *)
Theorem reachable_pool_consistent p :
  reachable p ->
  exists xs, queue_repr (free_block_queue p) xs /\ NoDup xs /\
    get_num_free_blocks p = zlen xs /\
    (forall i, i ∈ xs <-> valid_block p i /\ ref_cnt (pheap p (Blk i)) = 0) /\
    (forall i, valid_block p i -> 0 <= ref_cnt (pheap p (Blk i))) /\
    (forall key i, cached_at (cached_block_hash_to_block p) key (Blk i) <-> key ∈ pool_keys p i) /\
    (forall key i, key ∈ pool_keys p i -> valid_block p i).
Proof.
  intros (xs & Hinv)%reachable_pool_inv. pose proof (pool_inv_free _ _ Hinv) as Hlen.
  destruct Hinv as [Hq _ Hnd Hf Hr _ Hh]. rewrite app_nil_r in Hnd. setoid_rewrite app_nil_r in Hf.
  exists xs. split_and!; try done; [apply (hi_cached _ _ _ _ Hh)|].
  intros key i Hk. by apply (hi_range _ _ _ _ Hh i key).
Qed.

(** Asking for at most the free blocks returns that many from the head of
    the eviction order: distinct, not the null block, previously unreferenced;
    each leaves the free list, gets reference count one and, with caching on,
    loses every hash key, while all other blocks keep counts and keys. Asking
    for more raises [ValueError]. *)
Theorem get_new_blocks_spec p xs n :
  pool_inv p xs -> 0 <= n ->
  if zlen xs <? n then get_new_blocks n p = Raise ValueError
  else exists p', let ys := take (Z.to_nat n) xs in
    get_new_blocks n p = Ok (Blk <$> ys, p') /\ zlen ys = n /\ NoDup ys /\
    pool_inv p' (drop (Z.to_nat n) xs) /\ same_config p p' /\
    (forall i, i ∈ ys -> valid_block p i /\ ref_cnt (pheap p (Blk i)) = 0) /\
    (forall i, ref_cnt (pheap p' (Blk i)) =
      if decide (i ∈ ys) then 1 else ref_cnt (pheap p (Blk i))) /\
    (forall i, pool_keys p' i =
      if decide (enable_caching p = true /\ i ∈ ys) then ∅ else pool_keys p i).
Proof.
  intros Hinv Hn. destruct (Z.ltb_spec (zlen xs) n) as [Hlt|Hge].
  - unfold get_new_blocks. rewrite (pool_inv_free _ _ Hinv).
    destruct (Z.ltb_spec (zlen xs) n); [done|lia].
  - destruct (get_new_blocks_Ok p xs n Hinv) as (p' & Hget & Hinv' & (Hc & Hr & Hk)); [lia|].
    exists p'. simpl. pose proof (pi_nodup _ _ _ Hinv) as Hnd. rewrite app_nil_r in Hnd.
    split_and!; try done.
    + rewrite length_take. lia.
    + rewrite <-(take_drop (Z.to_nat n) xs) in Hnd. by apply NoDup_app in Hnd as [? _].
    + intros i Hi. apply (pi_free _ _ _ Hinv). rewrite app_nil_r.
      rewrite <-(take_drop (Z.to_nat n) xs). apply elem_of_app. by left.
Qed.

(** Freeing distinct blocks one holds a reference to (the null block may
    come along any number of times) drops one reference of each. Blocks that
    reach zero join the free list: with caching on, those without a hash at the
    front, in the given order, so that they are reused first; the others at the
    back, in the given order. No hash is lost. *)
Theorem free_blocks_spec p xs bs :
  pool_inv p xs -> distinct_blocks bs ->
  (forall i, i ∈ bs -> i <> 0%nat -> valid_block p i /\ 1 <= ref_cnt (pheap p (Blk i))) ->
  exists p', free_blocks (Blk <$> bs) p = Ok p' /\
    pool_inv p' (filter (freed_unhashed (enable_caching p) (pheap p)) bs ++ xs ++
                 filter (freed_hashed (enable_caching p) (pheap p)) bs) /\
    (forall i, i <> 0%nat -> ref_cnt (pheap p' (Blk i)) =
      ref_cnt (pheap p (Blk i)) - (if decide (i ∈ bs) then 1 else 0)) /\
    (forall i, pool_keys p' i = pool_keys p i).
Proof.
  intros Hinv Hd Hbs. destruct (free_blocks_Ok bs p xs Hinv Hd Hbs) as (p' & ? & ? & (_ & _ & ? & ?)).
  by exists p'.
Qed.

(** Touching blocks of the pool never fails: every occurrence adds one
    reference, the blocks leave the free list (the rest keeps its order), and
    no key changes. *)
Theorem touch_spec p xs bs :
  pool_inv p xs -> (forall i, i ∈ bs -> block_of_pool p i) ->
  exists p', touch (Blk <$> bs) p = Ok p' /\
    pool_inv p' (filter (fun j => j ∉ bs) xs) /\
    (forall i, ref_cnt (pheap p' (Blk i)) =
      ref_cnt (pheap p (Blk i)) + zlen (filter (fun j => j = i) bs)) /\
    (forall i, pool_keys p' i = pool_keys p i).
Proof.
  intros Hinv Hbs. destruct (touch_Ok bs p xs Hinv Hbs) as (p' & ? & ? & (_ & _ & ? & ?)).
  by exists p'.
Qed.

(** A lookup never fails; a hit returns, for every group asked for, a
    non-null block of the pool that carries the hash's key for that group, and
    a miss means that for some group no block carries it. *)
Theorem get_cached_block_spec p xs h gids :
  pool_inv p xs -> Forall (fun g => 0 <= g < 2 ^ 32) gids ->
  exists res, get_cached_block p h gids = Ok res /\
    match res with
    | Some bs => Forall2 (fun g b => exists i key, b = Blk i /\ valid_block p i /\
        make_block_hash_with_group_id h g = Ok key /\ key ∈ pool_keys p i) gids bs
    | None => exists g key, g ∈ gids /\ make_block_hash_with_group_id h g = Ok key /\
        forall i, key ∉ pool_keys p i
    end.
Proof. apply get_cached_block_Ok. Qed.

(** C25: caching the full blocks [nc .. nf) of a request whose hashes cover them
    never fails. Every entry that is neither null nor masked out afterwards
    carries exactly one key, the request's hash at the end of that block packed
    with the group id, whatever partial keys it had before; all other blocks
    keep their keys, and reference counts and the free list do not change. With
    events on, the last event stores exactly the hashes of those entries, the
    parent's hash, the token range and each entry's from-scratch extra keys. *)
Theorem cache_full_blocks_spec p xs r ids nc nf k gid mask :
  pool_inv p xs -> 0 <= nc < nf -> nf <= zlen ids -> 0 < pool_hash_block_size p -> 0 < k ->
  nf * k <= zlen (block_hashes r) -> 0 <= gid < 2 ^ 32 ->
  (forall m, mask = Some m -> zlen m = nf - nc) ->
  features_sorted (mm_features r) -> memo_ok env_sha256 r ->
  let bsz := k * pool_hash_block_size p in
  let js := py_slice ids nc nf in
  range_ok p js mask nc bsz 0 ->
  exists m p' hashes parent,
    cache_full_blocks r (Blk <$> ids) nc nf bsz gid mask p = Ok (with_memo m r, p') /\
    pool_inv p' xs /\
    (forall b, ref_cnt (pheap p' b) = ref_cnt (pheap p b)) /\
    (forall i : nat, nc + Z.of_nat i < nf ->
      hashes !! i = block_hashes r !! Z.to_nat ((nc + Z.of_nat i + 1) * k - 1)) /\
    range_cached p p' mask hashes gid 0 js /\
    (if enable_kv_cache_events p then exists es, kv_event_queue p' = es ++
      [build_block_stored_event r (convert_hash <$> stored_hashes mask hashes 0 js) parent
        (nc * bsz) (nf * bsz) bsz gid (stored_extra_keys r mask nc bsz 0 js)]
     else True) /\
    parent = (if nc =? 0 then None
              else convert_hash <$> block_hashes r !! Z.to_nat (nc * k - 1)).
Proof.
  intros Hinv Hn Hnf Hh Hk Hb Hg Hm Hfs Hmemo bsz js Hok.
  destruct (cache_full_blocks_Ok p xs r ids nc nf k gid mask Hinv Hn Hnf Hh Hk Hb Hg Hm Hfs Hmemo Hok)
    as (m & p' & hashes & parent & ? & _ & ? & _ & ? & ? & ? & ? & ?).
  by exists m, p', hashes, parent.
Qed.

(** The prefix cache is reset exactly when no block is in use; then no
    block carries a key, the map is empty and the free list is unchanged.
    Otherwise nothing changes. *)
Theorem reset_prefix_cache_spec p xs :
  pool_inv p xs ->
  (reset_prefix_cache p = (false, p) /\
   exists i, valid_block p i /\ ref_cnt (pheap p (Blk i)) <> 0) \/
  (exists p', reset_prefix_cache p = (true, p') /\ pool_inv p' xs /\
   (forall i, valid_block p i -> ref_cnt (pheap p (Blk i)) = 0) /\
   cached_block_hash_to_block p' = ∅ /\ forall i, pool_keys p' i = ∅).
Proof.
  intros Hinv. destruct (reset_prefix_cache_Ok p xs Hinv) as [?|(p' & ? & ? & _ & ? & ? & ? & _)].
  - by left.
  - right. by exists p'.
Qed.

(** Moving hashes to a hash-free block re-points every key of the source
    and touches no other block, count or the event queue. *)
Theorem move_block_hashes_spec p xs i j :
  pool_inv p xs -> valid_block p j -> i <> j -> pool_keys p j = ∅ ->
  exists p', move_block_hashes (Blk i) (Blk j) p = Ok p' /\ pool_inv p' xs /\
    kv_event_queue p' = kv_event_queue p /\
    (forall b, ref_cnt (pheap p' b) = ref_cnt (pheap p b)) /\
    pool_keys p' i = ∅ /\ pool_keys p' j = pool_keys p i /\
    forall k, k <> i -> k <> j -> pool_keys p' k = pool_keys p k.
Proof.
  intros Hinv Hj Hij Hk.
  destruct (move_block_hashes_Ok p xs i j Hinv Hj Hij Hk) as (p' & ? & ? & Hf & ? & ? & ? & ?).
  exists p'. split_and!; try done. apply (hf_ref _ _ Hf).
Qed.
End Properties.

(** * Concrete inputs *)

#[export] Instance demo_env : PoolEnv := {|
  use_int_block_hashes := false;
  env_sha256 := fun b => b;
  set_iter := elements;
  set_iter_perm s := Permutation_refl _
|}.

Lemma reachable_pool_consistent_witness :
  exists p, pool_init 4 true 16 false = Ok p /\
    exists xs, queue_repr (free_block_queue p) xs /\ get_num_free_blocks p = zlen xs.
Proof.
  destruct (pool_init_spec 4 true 16 false ltac:(lia)) as (p & Hp & _).
  exists p. split; [exact Hp|].
  destruct (reachable_pool_consistent p (reachable_init _ _ _ _ _ Hp)) as (xs & Hq & _ & Hn & _).
  exists xs. split; [exact Hq|exact Hn].
Defined.

Lemma get_new_blocks_spec_witness :
  exists p p', pool_init 4 true 16 false = Ok p /\
    get_new_blocks 2 p = Ok ([Blk 1; Blk 2], p') /\ pool_inv p' [3%nat].
Proof.
  destruct (pool_init_spec 4 true 16 false ltac:(lia)) as (p & Hp & Hinv & _).
  destruct (get_new_blocks_spec p [1; 2; 3]%nat 2 Hinv ltac:(lia)) as (p' & Hg & _ & _ & Hi & _).
  exists p, p'. split; [exact Hp|]. split; [exact Hg|exact Hi].
Defined.

Lemma free_blocks_spec_witness :
  exists p p' p'', pool_init 4 true 16 false = Ok p /\
    get_new_blocks 2 p = Ok ([Blk 1; Blk 2], p') /\
    free_blocks (Blk <$> [2; 0; 1; 0]%nat) p' = Ok p'' /\ pool_inv p'' [2; 1; 3]%nat.
Proof.
  destruct (pool_init_spec 4 true 16 false ltac:(lia)) as (p & Hp & Hinv & Hnum & Hcach & _ & _ & _ & Hkeys).
  destruct (get_new_blocks_Ok p [1; 2; 3]%nat 2 Hinv ltac:(simpl; lia)) as (p' & Hg & Hi & (Hc & Hr & Hk)).
  assert (num_gpu_blocks p' = 4 /\ enable_caching p' = true) as [Hn' Hc'].
  { destruct Hc as (-> & -> & _). done. }
  assert (forall i, block_hash (pheap p' (Blk i)) = None) as Hb.
  { intros i. apply pool_keys_empty. rewrite Hk, Hkeys. by decide_goal. }
  destruct (free_blocks_spec p' [3]%nat [2; 0; 1; 0]%nat Hi) as (p'' & Hf & Hi'' & _).
  - apply (bool_decide_unpack _). vm_compute. exact I.
  - intros i Hin Hne. unfold valid_block. rewrite Hn', Hr.
    assert (i = 1 \/ i = 2)%nat as [-> | ->] by set_solver; simpl; lia.
  - exists p, p', p''. split; [exact Hp|]. split; [exact Hg|]. split; [exact Hf|].
    rewrite Hc' in Hi''.
    rewrite (filter_ext_in (freed_unhashed true (pheap p')) (fun i => i <> 0%nat)),
      (filter_ext_in (freed_hashed true (pheap p')) (fun _ => False)) in Hi'';
      [exact Hi''|..]; intros i Hin; unfold freed_unhashed, freed_hashed; rewrite Hb, Hr;
      (assert (i = 0 \/ i = 1 \/ i = 2)%nat as [-> | [-> | ->]] by set_solver);
      simpl; intuition lia.
Defined.

Lemma touch_spec_witness :
  exists p p', pool_init 4 true 16 false = Ok p /\
    touch (Blk <$> [2; 2]%nat) p = Ok p' /\ ref_cnt (pheap p' (Blk 2)) = 2.
Proof.
  destruct (pool_init_spec 4 true 16 false ltac:(lia)) as (p & Hp & Hinv & Hnum & _).
  destruct (touch_spec p [1; 2; 3]%nat [2; 2]%nat Hinv) as (p' & Ht & _ & Hr & _).
  - intros i Hi. left. unfold valid_block. rewrite Hnum. assert (i = 2)%nat as -> by set_solver. lia.
  - exists p, p'. split; [exact Hp|]. split; [exact Ht|]. rewrite Hr.
    assert (valid_block p 2 /\ ref_cnt (pheap p (Blk 2)) = 0) as [_ ->].
    { apply (pi_free _ _ _ Hinv). simpl. set_solver. }
    reflexivity.
Defined.

Lemma get_cached_block_spec_witness :
  exists p, pool_init 4 true 16 false = Ok p /\
    exists res, get_cached_block p [Byte.x01] [0] = Ok res.
Proof.
  destruct (pool_init_spec 4 true 16 false ltac:(lia)) as (p & Hp & Hinv & _).
  destruct (get_cached_block_spec p _ [Byte.x01] [0] Hinv) as (res & Hres & _).
  - repeat constructor; discriminate.
  - exists p. split; [exact Hp|]. exists res. exact Hres.
Defined.

(** A request with two hashed blocks of 16 tokens. *)
Definition two_block_request : Request :=
  with_block_hashes [[Byte.x0a]; [Byte.x0b]] (hashed_request (py_range 0 40) []).

Lemma cache_full_blocks_spec_witness :
  exists p r' p', pool_init 4 true 16 true = Ok p /\
    cache_full_blocks two_block_request (Blk <$> [2; 3]%nat) 0 2 (1 * pool_hash_block_size p) 0 None p
      = Ok (r', p').
Proof.
  destruct (pool_init_spec 4 true 16 true ltac:(lia)) as (p & Hp & Hinv & Hnum & _ & Hs & _ & _ & Hk).
  destruct (cache_full_blocks_spec p _ two_block_request [2; 3]%nat 0 2 1 0 None Hinv)
    as (m & p' & _ & _ & Hc & _).
  - lia.
  - simpl. lia.
  - rewrite Hs. lia.
  - lia.
  - simpl. lia.
  - lia.
  - discriminate.
  - exact I.
  - intros s e d rows Hd. discriminate Hd.
  - intros k j Hkj _.
    assert (block_hash_num_tokens (pheap p (Blk j)) = None) as ->.
    { apply (hi_tokens _ _ _ _ (pi_hash _ _ _ Hinv)). apply pool_keys_empty, Hk. }
    change (py_slice [2; 3]%nat 0 2) with [2; 3]%nat in *. unfold valid_block. rewrite Hnum.
    destruct k as [|[|k]]; simplify_eq/=; (split; [lia|]); (split; [exact I|]);
      intros [|[|k']] Hk' _; simplify_eq/=; reflexivity.
  - exists p, (with_memo m two_block_request), p'. split; [exact Hp|exact Hc].
Defined.

Lemma reset_prefix_cache_spec_witness :
  exists p, pool_init 4 true 16 false = Ok p /\ fst (reset_prefix_cache p) = true.
Proof.
  destruct (pool_init_spec 4 true 16 false ltac:(lia)) as (p & Hp & Hinv & Hnum & _).
  exists p. split; [exact Hp|].
  destruct (reset_prefix_cache_spec p _ Hinv) as [[_ (i & Hv & Hne)]|(p' & Hr & _)].
  - exfalso. apply Hne, (pi_free _ _ _ Hinv). rewrite app_nil_r. apply elem_of_seq.
    destruct Hv as [Hi Hn]. rewrite Hnum in Hn. lia.
  - rewrite Hr. reflexivity.
Defined.

Lemma move_block_hashes_spec_witness :
  exists p p', pool_init 4 true 16 false = Ok p /\ move_block_hashes (Blk 1) (Blk 2) p = Ok p'.
Proof.
  destruct (pool_init_spec 4 true 16 false ltac:(lia)) as (p & Hp & Hinv & Hnum & _ & _ & _ & _ & Hk).
  destruct (move_block_hashes_spec p _ 1 2 Hinv) as (p' & Hm & _).
  - unfold valid_block. rewrite Hnum. lia.
  - discriminate.
  - apply Hk.
  - exists p, p'. split; [exact Hp|exact Hm].
Defined.
