(* ===== verification/EncoderCache.v ===== *)
(** The encoder cache accounting of
    src/upstream/vllm/v1/core/encoder_cache_manager.py: [EncoderCacheManager],
    [EncoderDecoderCacheManager] and [compute_mm_encoder_budget].

    Keys are the features' identifiers ([None] included, as in the code). The
    order in which Python iterates a set of input ids is a parameter of [free]. *)
From S2P Require Import Prelude Request.
Open Scope Z_scope.

Abbreviation mm_hash := (option string).

(** * [EncoderCacheManager] *)

Record EncoderCacheManager := mkEnc {
  cache_size : Z;
  num_free_slots : Z;
  num_freeable_slots : Z;
  cached : gmap mm_hash (gset string);
  request_cached_ids : gmap string (gset Z);
  freeable : list (mm_hash * Z);         (** an [OrderedDict] *)
  freed : list mm_hash
}.

(** [__init__]. *)
Definition encoder_cache_init (size : Z) : EncoderCacheManager :=
  mkEnc size size size ∅ ∅ [] [].

(** [reset]. *)
Definition encoder_cache_reset (s : EncoderCacheManager) : EncoderCacheManager :=
  mkEnc (cache_size s) (cache_size s) (cache_size s) ∅ ∅ [] [].

(** [request.mm_features[input_id].identifier]. *)
Definition input_hash (r : Request) (input_id : Z) : result mm_hash :=
  f ← py_index (mm_features r) input_id; Ok (identifier f).

(** [d.setdefault(k, set()).add(x)]. *)
Definition add_to {K V} `{Countable K, Countable V} (k : K) (x : V) (d : gmap K (gset V))
    : gmap K (gset V) := <[k := {[x]} ∪ default ∅ (d !! k)]> d.

(** [check_and_update_cache]. *)
Definition check_and_update_cache (r : Request) (input_id : Z) (s : EncoderCacheManager)
    : result (bool * EncoderCacheManager) :=
  h ← input_hash r input_id;
  match cached s !! h with
  | None => Ok (false, s)
  | Some refs =>
      '(fs, nf) ←
        (if bool_decide (refs = ∅) then
           num_encoder_embeds ← or_raise KeyError (od_get h (freeable s));
           Ok (od_del h (freeable s), num_freeable_slots s - num_encoder_embeds)
         else Ok (freeable s, num_freeable_slots s));
      Ok (true, mkEnc (cache_size s) (num_free_slots s) nf
                  (<[h := {[request_id r]} ∪ refs]> (cached s))
                  (add_to (request_id r) input_id (request_cached_ids s)) fs (freed s))
  end.

(** The eviction loop of [can_allocate]; every round pops one entry. *)
Fixpoint evict_loop (fuel : nat) (num_embeds : Z) (s : EncoderCacheManager)
    : result EncoderCacheManager :=
  if num_embeds <=? num_free_slots s then Ok s else
  match fuel with
  | O => Raise Diverges
  | S fuel' =>
      '((h, num_free_embeds), fs) ← od_popfirst (freeable s);
      match cached s !! h with
      | None => Raise KeyError
      | Some _ =>
          evict_loop fuel' num_embeds
            (mkEnc (cache_size s) (num_free_slots s + num_free_embeds) (num_freeable_slots s)
               (delete h (cached s)) (request_cached_ids s) fs (freed s ++ [h]))
      end
  end.

(** [can_allocate]. A round either raises or shortens [freeable], so its length
    (plus one for the round that raises) is fuel enough. *)
Definition can_allocate (r : Request) (input_id encoder_compute_budget num_embeds_to_schedule : Z)
    (s : EncoderCacheManager) : result (bool * EncoderCacheManager) :=
  num_embeds ← get_num_encoder_embeds r input_id;
  if encoder_compute_budget <? num_embeds then Ok (false, s) else
  let num_embeds := num_embeds + num_embeds_to_schedule in
  if num_embeds <=? num_free_slots s then Ok (true, s) else
  if num_freeable_slots s <? num_embeds then Ok (false, s) else
  s ← evict_loop (S (length (freeable s))) num_embeds s;
  Ok (true, s).

(** [allocate]. *)
Definition encoder_allocate (r : Request) (input_id : Z) (s : EncoderCacheManager)
    : result EncoderCacheManager :=
  h ← input_hash r input_id;
  let c := match cached s !! h with None => <[h := ∅]> (cached s) | Some _ => cached s end in
  num_encoder_embeds ← get_num_encoder_embeds r input_id;
  _ ← assert_ (num_encoder_embeds <=? num_free_slots s);
  _ ← assert_ (num_encoder_embeds <=? num_freeable_slots s);
  Ok (mkEnc (cache_size s) (num_free_slots s - num_encoder_embeds)
        (num_freeable_slots s - num_encoder_embeds) (add_to h (request_id r) c)
        (add_to (request_id r) input_id (request_cached_ids s)) (freeable s) (freed s)).

(** [get_cached_input_ids]. *)
Definition get_cached_input_ids (r : Request) (s : EncoderCacheManager) : gset Z :=
  default ∅ (request_cached_ids s !! request_id r).

(** [free_encoder_input]. *)
Definition free_encoder_input (r : Request) (input_id : Z) (s : EncoderCacheManager)
    : result EncoderCacheManager :=
  h ← input_hash r input_id;
  let ids := request_cached_ids s in
  let ids := match ids !! request_id r with
    | None => ids
    | Some is_ =>
        let is_ := is_ ∖ {[input_id]} in
        if bool_decide (is_ = ∅) then delete (request_id r) ids else <[request_id r := is_]> ids
    end in
  match cached s !! h with
  | None =>
      Ok (mkEnc (cache_size s) (num_free_slots s) (num_freeable_slots s) (cached s) ids
            (freeable s) (freed s))
  | Some refs =>
      if bool_decide (refs = ∅) then
        Ok (mkEnc (cache_size s) (num_free_slots s) (num_freeable_slots s) (cached s) ids
              (freeable s) (freed s))
      else
        let refs := refs ∖ {[request_id r]} in
        let c := <[h := refs]> (cached s) in
        if bool_decide (refs = ∅) then
          num_encoder_embeds ← get_num_encoder_embeds r input_id;
          Ok (mkEnc (cache_size s) (num_free_slots s) (num_freeable_slots s + num_encoder_embeds)
                c ids (od_set h num_encoder_embeds (freeable s)) (freed s))
        else
          Ok (mkEnc (cache_size s) (num_free_slots s) (num_freeable_slots s) c ids
                (freeable s) (freed s))
  end.

(** [free]; [iter] is the order in which the set of input ids is visited. *)
Definition encoder_free (iter : gset Z -> list Z) (r : Request) (s : EncoderCacheManager)
    : result EncoderCacheManager :=
  for_each (free_encoder_input r) (iter (get_cached_input_ids r s)) s.

(** [get_freed_mm_hashes]. *)
Definition get_freed_mm_hashes (s : EncoderCacheManager) : list mm_hash * EncoderCacheManager :=
  (freed s, mkEnc (cache_size s) (num_free_slots s) (num_freeable_slots s) (cached s)
              (request_cached_ids s) (freeable s) []).

(** * [compute_mm_encoder_budget]

    The scheduler configuration's fields are arguments; [max(...)] of the
    non-empty dict's values is a fold from its first value. *)
Definition compute_mm_encoder_budget (disable_chunked_mm_input : bool)
    (max_num_batched_tokens max_num_encoder_input_tokens encoder_cache_size : Z)
    (mm_max_toks_per_item : list (string * Z)) : result (Z * Z) :=
  match mm_max_toks_per_item with
  | [] => Ok (0, 0)
  | (_, t) :: rest =>
      let max_tokens_per_mm_item := fold_left Z.max rest.*2 t in
      if disable_chunked_mm_input && (max_num_batched_tokens <? max_tokens_per_mm_item)
      then Raise ValueError
      else Ok (Z.max max_num_encoder_input_tokens max_tokens_per_mm_item,
               Z.max encoder_cache_size max_tokens_per_mm_item)
  end.

(** * [EncoderDecoderCacheManager] *)

Record EncoderDecoderCacheManager := mkEncDec {
  ed_cache_size : Z;
  ed_num_free_slots : Z;
  allocated : list mm_hash;
  to_free : list mm_hash
}.

(** [__init__] and [reset]. *)
Definition ed_init (size : Z) : EncoderDecoderCacheManager := mkEncDec size size [] [].
Definition ed_reset (s : EncoderDecoderCacheManager) : EncoderDecoderCacheManager :=
  mkEncDec (ed_cache_size s) (ed_cache_size s) [] [].

(** [check_and_update_cache]. *)
Definition ed_check_and_update_cache (r : Request) (input_id : Z) : bool := false.

(** [can_allocate]. *)
Definition ed_can_allocate (r : Request) (input_id encoder_compute_budget num_embeds_to_schedule : Z)
    (s : EncoderDecoderCacheManager) : result bool :=
  num_encoder_embeds ← get_num_encoder_embeds r input_id;
  if encoder_compute_budget <? num_encoder_embeds then Ok false
  else Ok (num_encoder_embeds + num_embeds_to_schedule <=? ed_num_free_slots s).

(** [allocate]. *)
Definition ed_allocate (r : Request) (input_id : Z) (s : EncoderDecoderCacheManager)
    : result EncoderDecoderCacheManager :=
  num_encoder_embeds ← get_num_encoder_embeds r input_id;
  h ← input_hash r input_id;
  Ok (mkEncDec (ed_cache_size s) (ed_num_free_slots s - num_encoder_embeds)
        (allocated s ++ [h]) (to_free s)).

(** [free_encoder_input]. *)
Definition ed_free_encoder_input (r : Request) (input_id : Z) (s : EncoderDecoderCacheManager)
    : result EncoderDecoderCacheManager :=
  num_encoder_embeds ← get_num_encoder_embeds r input_id;
  Ok (mkEncDec (ed_cache_size s) (ed_num_free_slots s + num_encoder_embeds)
        (allocated s) (to_free s)).

(** [free]. *)
Definition ed_free (r : Request) (s : EncoderDecoderCacheManager)
    : result EncoderDecoderCacheManager :=
  for_each (ed_free_encoder_input r) (py_range 0 (zlen (mm_features r))) s.

(** [get_cached_input_ids]. *)
Definition ed_get_cached_input_ids (r : Request) : gset Z :=
  list_to_set (py_range 0 (zlen (mm_features r))).

(** [get_freed_mm_hashes]. *)
Definition ed_get_freed_mm_hashes (s : EncoderDecoderCacheManager)
    : list mm_hash * EncoderDecoderCacheManager :=
  (to_free s, mkEncDec (ed_cache_size s) (ed_num_free_slots s) [] (allocated s)).

(** * The sum of the sizes of the cached entries *)

Section Total.
Variable sz : mm_hash -> Z.

Definition total {A} (m : gmap mm_hash A) : Z := msum (fun h _ => sz h) m.

Lemma total_empty {A} : total (∅ : gmap mm_hash A) = 0.
Proof. apply msum_empty. Qed.

Lemma total_insert {A} (m : gmap mm_hash A) h x :
  m !! h = None -> total (<[h := x]> m) = sz h + total m.
Proof. apply msum_fresh. Qed.

Lemma total_delete {A} (m : gmap mm_hash A) h x :
  m !! h = Some x -> total m = sz h + total (delete h m).
Proof. intros Hm. unfold total. rewrite (msum_delete _ m h x Hm). lia. Qed.

Lemma total_update {A} (m : gmap mm_hash A) h x y :
  m !! h = Some x -> total (<[h := y]> m) = total m.
Proof. intros Hm. unfold total. rewrite (msum_update _ m h x y Hm). lia. Qed.
End Total.

(** * The accounting invariant

    [sz] is the number of embeddings behind a hash and [feats] the features of a
    request id: equal hashes mean equal data, and a request keeps its features. *)

Section Invariant.
Variable sz : mm_hash -> Z.
Variable feats : string -> list MultiModalFeatureSpec.
Hypothesis sz_nonneg : forall h, 0 <= sz h.

(** The embeddings an entry list can give back. *)
Definition reclaimable (fs : list (mm_hash * Z)) : Z := foldr (fun hn acc => snd hn + acc) 0 fs.

Record enc_inv (s : EncoderCacheManager) : Prop := {
  ei_free : num_free_slots s = cache_size s - total sz (cached s);
  ei_nonneg : 0 <= num_free_slots s;
  ei_freeable : num_freeable_slots s = num_free_slots s + reclaimable (freeable s);
  ei_nodup : NoDup (od_keys (freeable s));
  ei_entries : forall h n, (h, n) ∈ freeable s <-> cached s !! h = Some ∅ /\ n = sz h;
  ei_links : forall h refs rid, cached s !! h = Some refs -> rid ∈ refs ->
    exists ids i f, request_cached_ids s !! rid = Some ids /\ i ∈ ids /\ 0 <= i /\
      feats rid !! Z.to_nat i = Some f /\ identifier f = h
}.

(** A request seen by the manager. *)
Definition known (r : Request) : Prop :=
  mm_features r = feats (request_id r) /\
  forall f, f ∈ mm_features r -> get_num_embeds (mm_position f) = sz (identifier f).

(** Input [i] of [r] exists and has hash [h]. *)
Definition input_at (r : Request) (i : Z) (h : mm_hash) : Prop :=
  0 <= i /\ exists f, mm_features r !! Z.to_nat i = Some f /\ identifier f = h.

Lemma input_at_ops r i h :
  known r -> input_at r i h ->
  input_hash r i = Ok h /\ get_num_encoder_embeds r i = Ok (sz h) /\
  exists f, feats (request_id r) !! Z.to_nat i = Some f /\ identifier f = h.
Proof.
  intros [Hf Hsz] (Hi & f & Hlk & <-). unfold input_hash, get_num_encoder_embeds.
  rewrite (py_index_Ok _ _ f) by done. apply lookup_lt_Some in Hlk as Hlt.
  rewrite assert_true by (apply Z.ltb_lt; lia). simpl.
  rewrite Hsz by (by eapply list_elem_of_lookup_2). rewrite <-Hf. eauto.
Qed.

Lemma reclaimable_app fs gs : reclaimable (fs ++ gs) = reclaimable fs + reclaimable gs.
Proof. unfold reclaimable. induction fs as [|x fs IH]; simpl; [done|]. rewrite IH. lia. Qed.

Lemma reclaimable_del fs h n :
  NoDup (od_keys fs) -> (h, n) ∈ fs -> reclaimable fs = n + reclaimable (od_del h fs).
Proof.
  unfold od_keys. induction fs as [|[h0 n0] fs IH]; csimpl; [by rewrite elem_of_nil|].
  intros [Hh0 Hnd]%NoDup_cons [Hin|Hin]%elem_of_cons; simplify_eq.
  - by rewrite decide_True.
  - assert (h <> h0) as Hne.
    { intros ->. apply Hh0, list_elem_of_fmap. by exists (h0, n). }
    rewrite decide_False by done. simpl. rewrite (IH Hnd Hin). lia.
Qed.

Lemma reclaimable_nonneg s : enc_inv s -> 0 <= reclaimable (freeable s).
Proof.
  intros Hinv. assert (forall hn, hn ∈ freeable s -> 0 <= snd hn) as Hall.
  { intros [h n] Hin. apply (ei_entries _ Hinv) in Hin as [_ ->]. simpl. auto. }
  revert Hall. generalize (freeable s) as fs. induction fs as [|hn fs IH]; intros Hall; [done|].
  simpl. pose proof (Hall hn ltac:(set_solver)). pose proof (IH ltac:(set_solver)). lia.
Qed.

Lemma encoder_cache_init_inv size : 0 <= size -> enc_inv (encoder_cache_init size).
Proof.
  intros Hs. split; simpl; rewrite ?total_empty; try lia; [constructor|..].
  - intros h n. rewrite elem_of_nil, lookup_empty. naive_solver.
  - intros h refs rid. by rewrite lookup_empty.
Qed.

(** Replacing the references of an entry keeps the links. *)
Lemma add_to_lookup (rid rid' : string) (i : Z) ids :
  exists ids', add_to rid i ids !! rid = Some ids' /\ i ∈ ids' /\
    (forall s, ids !! rid = Some s -> s ⊆ ids') /\
    (rid' <> rid -> add_to rid i ids !! rid' = ids !! rid').
Proof.
  unfold add_to. exists ({[i]} ∪ default ∅ (ids !! rid)). rewrite lookup_insert_eq.
  split_and!; [done|set_solver| |].
  - intros s ->. simpl. set_solver.
  - intros Hne. by rewrite lookup_insert_ne.
Qed.

Lemma links_add (r : Request) (i : Z) (h : mm_hash) (refs0 : gset string) (c c' : gmap mm_hash (gset string))
    (ids : gmap string (gset Z)) :
  known r -> input_at r i h ->
  (forall (h : mm_hash) (refs : gset string) rid, c !! h = Some refs -> rid ∈ refs ->
    exists s j f, ids !! rid = Some s /\ j ∈ s /\ 0 <= j /\
      feats rid !! Z.to_nat j = Some f /\ identifier f = h) ->
  (forall rid, rid ∈ refs0 -> exists refs, c !! h = Some refs /\ rid ∈ refs) ->
  c' = <[h := {[request_id r]} ∪ refs0]> c ->
  forall (h' : mm_hash) (refs : gset string) rid, c' !! h' = Some refs -> rid ∈ refs ->
    exists s j f, add_to (request_id r) i ids !! rid = Some s /\ j ∈ s /\ 0 <= j /\
      feats rid !! Z.to_nat j = Some f /\ identifier f = h'.
Proof.
  intros Hk Hin Hlinks Hrefs0 -> h' refs rid Hc Hrid.
  destruct (input_at_ops r i h Hk Hin) as (_ & _ & f & Hf & Hid). destruct Hin as [Hi _].
  destruct (add_to_lookup (request_id r) rid i ids) as (s & Hs & His & Hsub & Hother).
  assert ((rid = request_id r /\ h' = h) \/ exists refs', c !! h' = Some refs' /\ rid ∈ refs') as Hcase.
  { apply lookup_insert_Some in Hc as [[<- <-]|[Hne Hc]]; [|by right; eauto].
    apply elem_of_union in Hrid as [Hrid%elem_of_singleton|Hrid]; [by left|right; auto]. }
  destruct Hcase as [[-> ->]|(refs' & Hc' & Hr')].
  - exists s, i, f. done.
  - destruct (Hlinks _ _ _ Hc' Hr') as (s' & j & f' & Hs' & Hj & ?).
    destruct (decide (rid = request_id r)) as [->|Hne].
    + exists s, j, f'. split; [done|]. split; [by apply (Hsub s')|done].
    + exists s', j, f'. rewrite Hother by done. done.
Qed.

(** ** The operations *)

Lemma check_and_update_cache_Ok r i h s :
  enc_inv s -> known r -> input_at r i h ->
  exists s', check_and_update_cache r i s = Ok (bool_decide (is_Some (cached s !! h)), s') /\
    enc_inv s' /\ cache_size s' = cache_size s /\ freed s' = freed s /\
    num_free_slots s' = num_free_slots s /\
    match cached s !! h with
    | None => s' = s
    | Some refs => cached s' = <[h := {[request_id r]} ∪ refs]> (cached s)
    end.
Proof.
  intros Hinv Hk Hin. destruct (input_at_ops _ _ _ Hk Hin) as (Hh & _ & _).
  unfold check_and_update_cache. rewrite Hh. simpl.
  destruct (cached s !! h) as [refs|] eqn:Ec.
  2:{ by exists s. }
  rewrite (bool_decide_true (is_Some (Some refs))) by (by eexists).
  assert (exists fs, (if bool_decide (refs = ∅) then
      num_encoder_embeds ← or_raise KeyError (od_get h (freeable s));
      Ok (od_del h (freeable s), num_freeable_slots s - num_encoder_embeds)
    else Ok (freeable s, num_freeable_slots s)) = Ok (fs, num_free_slots s + reclaimable fs) /\
    NoDup (od_keys fs) /\
    forall h' n, (h', n) ∈ fs <-> (h' <> h /\ (h', n) ∈ freeable s)) as (fs & -> & Hnd & Hfs).
  { pose proof (ei_nodup _ Hinv) as Hnd. pose proof (ei_freeable _ Hinv) as Hfr.
    case_bool_decide as Hr.
    - assert ((h, sz h) ∈ freeable s) as Hin' by (apply (ei_entries _ Hinv); by subst).
      rewrite (od_elem_of_get _ _ _ Hnd Hin'). simpl. exists (od_del h (freeable s)).
      split; [do 2 f_equal; rewrite Hfr, (reclaimable_del _ _ _ Hnd Hin'); lia|].
      split; [by apply od_del_NoDup|]. intros h' n. by apply od_del_elem.
    - exists (freeable s). split; [by rewrite <-Hfr|]. split; [done|]. intros h' n.
      split; [|tauto]. intros Hin'. split; [|done]. intros ->.
      apply (ei_entries _ Hinv) in Hin' as [? _]. congruence. }
  simpl. eexists. split; [done|]. simpl. split_and!; try done.
  split; simpl; try apply Hinv.
  - rewrite (total_update sz _ _ refs) by done. apply Hinv.
  - done.
  - done.
  - intros h' n. rewrite Hfs, (ei_entries _ Hinv).
    destruct (decide (h' = h)) as [->|Hne].
    + rewrite lookup_insert_eq. split; [tauto|]. intros [[= Hbad] _]. set_solver.
    + rewrite lookup_insert_ne by done. tauto.
  - eapply links_add; [done|done|apply (ei_links _ Hinv)| |done].
    intros rid Hrid. eauto.
Qed.

(** ** Eviction *)

(** Entries move from [freeable] to [freed], oldest first, until enough slots
    are free; entries in use stay. *)
Lemma evict_loop_Ok fuel n s :
  enc_inv s -> (length (freeable s) < fuel)%nat -> n <= num_freeable_slots s ->
  exists k s', evict_loop fuel n s = Ok s' /\ enc_inv s' /\ cache_size s' = cache_size s /\
    freeable s = take k (freeable s) ++ freeable s' /\ (k <= length (freeable s))%nat /\
    freed s' = freed s ++ (take k (freeable s)).*1 /\
    num_freeable_slots s' = num_freeable_slots s /\
    num_free_slots s' = num_free_slots s + reclaimable (take k (freeable s)) /\
    n <= num_free_slots s' /\
    (forall j, (j < k)%nat -> num_free_slots s + reclaimable (take j (freeable s)) < n) /\
    (forall h, cached s' !! h =
      if decide (h ∈ (take k (freeable s)).*1) then None else cached s !! h).
Proof.
  revert s. induction fuel as [|fuel IH]; intros s Hinv Hf Hn; [lia|]. simpl.
  destruct (Z.leb_spec n (num_free_slots s)) as [Hle|Hgt].
  { exists 0%nat, s. rewrite take_0. simpl. rewrite app_nil_r.
    split_and!; try done; try lia. }
  pose proof (ei_freeable _ Hinv) as Hfr. pose proof (ei_nodup _ Hinv) as Hnd.
  destruct (freeable s) as [|[h m] fs] eqn:Efs; [simpl in Hfr; lia|].
  simpl. destruct (proj1 (ei_entries _ Hinv h m)) as [Hc ->]; [rewrite Efs; by left|].
  rewrite Hc. simpl in Hfr. unfold od_keys in Hnd. csimpl in Hnd.
  apply NoDup_cons in Hnd as [Hh Hnd].
  set (s1 := mkEnc _ _ _ _ _ _ _).
  assert (enc_inv s1) as Hinv1.
  { split; unfold s1; simpl; try done.
    - rewrite (ei_free _ Hinv), (total_delete sz _ _ _ Hc). lia.
    - pose proof (ei_nonneg _ Hinv). pose proof (sz_nonneg h). lia.
    - lia.
    - intros h' m'. destruct (decide (h' = h)) as [->|Hne].
      + rewrite lookup_delete_eq. split; [|by intros [? _]].
        intros Hin. destruct Hh. apply list_elem_of_fmap. by exists (h, m').
      + rewrite lookup_delete_ne, <-(ei_entries _ Hinv), Efs by done. rewrite elem_of_cons.
        split; [by right|]. intros [?|?]; [congruence|done].
    - intros h' refs rid. rewrite lookup_delete_Some. intros [_ ?]. by apply (ei_links _ Hinv). }
  destruct (IH s1 Hinv1) as (k & s' & Hs' & Hinv' & Hsz & Hsplit & Hk & Hfreed & Hfb & Hfree & Hlast & Hmin & Hcd);
    [simpl in *; lia|simpl; lia|].
  simpl in *. exists (S k), s'. rewrite Hs'. simpl. split_and!; try done.
  - by rewrite Hsplit at 1.
  - lia.
  - by rewrite Hfreed, <-app_assoc.
  - lia.
  - intros [|j] Hj; simpl; [lia|]. specialize (Hmin j ltac:(lia)). lia.
  - intros h'. rewrite Hcd. destruct (decide (h' = h)) as [->|Hne].
    + rewrite (decide_True (P := h ∈ h :: _)) by (by left). rewrite lookup_delete_eq. by decide_goal.
    + rewrite lookup_delete_ne by done. repeat decide_goal; set_solver.
Qed.

Lemma can_allocate_Ok r i h budget sched s :
  enc_inv s -> known r -> input_at r i h ->
  exists b s', can_allocate r i budget sched s = Ok (b, s') /\ enc_inv s' /\
    cache_size s' = cache_size s /\
    (b = true <-> sz h <= budget /\ sz h + sched <= num_freeable_slots s) /\
    (b = false -> s' = s) /\ (b = true -> sz h + sched <= num_free_slots s') /\
    num_freeable_slots s' = num_freeable_slots s /\
    exists k, freeable s = take k (freeable s) ++ freeable s' /\
      freed s' = freed s ++ (take k (freeable s)).*1 /\
      (forall j, (j < k)%nat -> num_free_slots s + reclaimable (take j (freeable s)) < sz h + sched) /\
      (forall h', cached s' !! h' =
        if decide (h' ∈ (take k (freeable s)).*1) then None else cached s !! h').
Proof.
  intros Hinv Hk Hin. destruct (input_at_ops _ _ _ Hk Hin) as (_ & Hn & _).
  unfold can_allocate. rewrite Hn. cbn beta iota zeta delta [mbind result_bind].
  pose proof (reclaimable_nonneg _ Hinv). pose proof (ei_freeable _ Hinv).
  assert (forall b, (b = true <-> sz h <= budget /\ sz h + sched <= num_freeable_slots s) ->
    (b = true -> sz h + sched <= num_free_slots s) ->
    exists b' s', Ok (b, s) = Ok (b', s') /\ enc_inv s' /\ cache_size s' = cache_size s /\
      (b' = true <-> sz h <= budget /\ sz h + sched <= num_freeable_slots s) /\
      (b' = false -> s' = s) /\ (b' = true -> sz h + sched <= num_free_slots s') /\
      num_freeable_slots s' = num_freeable_slots s /\
      exists k, freeable s = take k (freeable s) ++ freeable s' /\
        freed s' = freed s ++ (take k (freeable s)).*1 /\
        (forall j, (j < k)%nat -> num_free_slots s + reclaimable (take j (freeable s)) < sz h + sched) /\
        (forall h', cached s' !! h' =
          if decide (h' ∈ (take k (freeable s)).*1) then None else cached s !! h')) as Hsame.
  { intros b Hb Hb'. exists b, s. split_and!; try done.
    exists 0%nat. rewrite take_0. simpl. rewrite app_nil_r. split_and!; done || lia. }
  destruct (Z.ltb_spec budget (sz h)); [apply Hsame; [split; [done|lia]|done]|].
  destruct (Z.leb_spec (sz h + sched) (num_free_slots s)); [apply Hsame; [split; [lia|done]|done]|].
  destruct (Z.ltb_spec (num_freeable_slots s) (sz h + sched)); [apply Hsame; [split; [done|lia]|done]|].
  destruct (evict_loop_Ok (S (length (freeable s))) (sz h + sched) s Hinv)
    as (k & s' & He & Hinv' & ? & ? & _ & ? & ? & ? & ? & ? & ?); [lia|lia|].
  rewrite He. simpl. exists true, s'. split_and!; try done; try lia.
  exists k. done.
Qed.

(** ** Allocation and release *)

Lemma encoder_allocate_Ok r i h s :
  enc_inv s -> known r -> input_at r i h -> cached s !! h = None ->
  sz h <= num_free_slots s ->
  exists s', encoder_allocate r i s = Ok s' /\ enc_inv s' /\ cache_size s' = cache_size s /\
    cached s' = <[h := {[request_id r]}]> (cached s) /\ freed s' = freed s /\
    freeable s' = freeable s /\ num_free_slots s' = num_free_slots s - sz h.
Proof.
  intros Hinv Hk Hin Hc Hsz. destruct (input_at_ops _ _ _ Hk Hin) as (Hh & Hn & _).
  unfold encoder_allocate. rewrite Hh. simpl. rewrite Hn, Hc. simpl.
  pose proof (reclaimable_nonneg _ Hinv). pose proof (ei_freeable _ Hinv).
  rewrite !assert_true by (apply Z.leb_le; lia). simpl.
  assert (add_to h (request_id r) (<[h := ∅]> (cached s)) = <[h := {[request_id r]}]> (cached s)) as ->.
  { unfold add_to. rewrite lookup_insert_eq, insert_insert_eq. simpl. f_equal. set_solver. }
  eexists. split; [done|]. simpl. split; [|done].
  split; simpl; try apply Hinv.
  - rewrite total_insert by done. rewrite (ei_free _ Hinv). lia.
  - lia.
  - lia.
  - intros h' m. rewrite (ei_entries _ Hinv). destruct (decide (h' = h)) as [->|Hne].
    + rewrite lookup_insert_eq, Hc. split; intros [? _]; [done|]. exfalso. set_solver.
    + by rewrite lookup_insert_ne.
  - eapply (links_add r i h ∅ (cached s)); [done|done|apply (ei_links _ Hinv)|set_solver|].
    f_equal. set_solver.
Qed.

(** Removing input [i] from the ids of [r]. *)
Definition drop_input (rid : string) (i : Z) (ids : gmap string (gset Z)) : gmap string (gset Z) :=
  match ids !! rid with
  | None => ids
  | Some is_ => if bool_decide (is_ ∖ {[i]} = ∅) then delete rid ids else <[rid := is_ ∖ {[i]}]> ids
  end.

Lemma drop_input_lookup rid i ids rid' :
  default ∅ (drop_input rid i ids !! rid') =
    if decide (rid' = rid) then default ∅ (ids !! rid) ∖ {[i]} else default ∅ (ids !! rid').
Proof.
  unfold drop_input. destruct (ids !! rid) as [is_|] eqn:E.
  - case_bool_decide as He; destruct (decide (rid' = rid)) as [->|Hne].
    + rewrite lookup_delete_eq. simpl. set_solver.
    + by rewrite lookup_delete_ne.
    + by rewrite lookup_insert_eq.
    + by rewrite lookup_insert_ne.
  - destruct (decide (rid' = rid)) as [->|Hne]; [|done]. rewrite E. simpl. set_solver.
Qed.

Lemma default_elem (ids : gmap string (gset Z)) rid j :
  j ∈ default ∅ (ids !! rid) <-> exists s, ids !! rid = Some s /\ j ∈ s.
Proof. destruct (ids !! rid); simpl; set_solver. Qed.

Lemma links_drop (r : Request) (i : Z) (h : mm_hash) (c c' : gmap mm_hash (gset string)) (ids : gmap string (gset Z)) :
  known r -> input_at r i h ->
  (forall (h : mm_hash) (refs : gset string) rid, c !! h = Some refs -> rid ∈ refs ->
    exists s j f, ids !! rid = Some s /\ j ∈ s /\ 0 <= j /\
      feats rid !! Z.to_nat j = Some f /\ identifier f = h) ->
  (forall (h' : mm_hash) (refs' : gset string) rid, c' !! h' = Some refs' -> rid ∈ refs' ->
     (h' <> h \/ rid <> request_id r) /\
     exists refs, c !! h' = Some refs /\ rid ∈ refs) ->
  forall (h' : mm_hash) (refs' : gset string) rid, c' !! h' = Some refs' -> rid ∈ refs' ->
    exists s j f, drop_input (request_id r) i ids !! rid = Some s /\ j ∈ s /\ 0 <= j /\
      feats rid !! Z.to_nat j = Some f /\ identifier f = h'.
Proof.
  intros Hk Hin Hlinks Hc' h' refs' rid Hl Hr.
  destruct (input_at_ops r i h Hk Hin) as (_ & _ & f0 & Hf0 & Hid0).
  destruct (Hc' _ _ _ Hl Hr) as (Hdiff & refs0 & Hc & Hr0).
  destruct (Hlinks _ _ _ Hc Hr0) as (s & j & f & Hs & Hj & Hj0 & Hf & Hid).
  assert (j ∈ default ∅ (drop_input (request_id r) i ids !! rid)) as Hjd.
  { rewrite drop_input_lookup. decide_goal; [|rewrite Hs; done]. subst rid. rewrite Hs. simpl.
    apply elem_of_difference. split; [done|]. intros ->%elem_of_singleton.
    destruct Hdiff as [Hne|?]; [|done]. congruence. }
  apply default_elem in Hjd as (s' & ? & ?). exists s', j, f. done.
Qed.

Lemma free_encoder_input_Ok r i h s :
  enc_inv s -> known r -> input_at r i h ->
  exists s', free_encoder_input r i s = Ok s' /\ enc_inv s' /\ cache_size s' = cache_size s /\
    num_free_slots s' = num_free_slots s /\ freed s' = freed s /\
    request_cached_ids s' = drop_input (request_id r) i (request_cached_ids s) /\
    (forall h', cached s' !! h' =
      if decide (h' = h) then (fun refs => refs ∖ {[request_id r]}) <$> cached s !! h
      else cached s !! h').
Proof.
  intros Hinv Hk Hin. destruct (input_at_ops _ _ _ Hk Hin) as (Hh & Hn & _).
  unfold free_encoder_input. rewrite Hh. simpl.
  fold (drop_input (request_id r) i (request_cached_ids s)).
  assert (forall (c : gmap mm_hash (gset string)),
    (forall h', c !! h' = if decide (h' = h) then (fun refs => refs ∖ {[request_id r]}) <$> cached s !! h
      else cached s !! h') ->
    forall h' refs rid, c !! h' = Some refs -> rid ∈ refs ->
      exists ids i0 f, drop_input (request_id r) i (request_cached_ids s) !! rid = Some ids /\
        i0 ∈ ids /\ 0 <= i0 /\ feats rid !! Z.to_nat i0 = Some f /\ identifier f = h') as Hlinks.
  { intros c Hc. eapply (links_drop r i h (cached s) c); [done|done|apply (ei_links _ Hinv)|].
    intros h' refs' rid. rewrite Hc. destruct (decide (h' = h)) as [->|Hne].
    - destruct (cached s !! h) as [refs|] eqn:Ec; simpl; [|done].
      intros [= <-] [? ?%not_elem_of_singleton]%elem_of_difference. split; [by right|]. by exists refs.
    - intros Hc' Hr. split; [by left|]. by exists refs'. }
  destruct (cached s !! h) as [refs|] eqn:Ec.
  2:{ assert (forall h', cached s !! h' = if decide (h' = h)
        then (fun refs => refs ∖ {[request_id r]}) <$> @None (gset string) else cached s !! h') as Hsame
        by (intros h'; decide_goal; [by subst|done]).
      eexists. split; [done|]. simpl. split_and!; try done.
      split; simpl; try apply Hinv. by apply Hlinks. }
  case_bool_decide as Hr.
  { subst refs. assert (forall h', cached s !! h' = if decide (h' = h)
      then (fun refs => refs ∖ {[request_id r]}) <$> Some (∅ : gset string) else cached s !! h') as Hsame.
    { intros h'. decide_goal; [subst; simpl; rewrite Ec; f_equal; set_solver|done]. }
    eexists. split; [done|]. simpl. split_and!; try done.
    split; simpl; try apply Hinv. by apply Hlinks. }
  set (c := <[h := refs ∖ {[request_id r]}]> (cached s)).
  assert (forall h', c !! h' = if decide (h' = h)
    then (fun refs => refs ∖ {[request_id r]}) <$> Some refs else cached s !! h') as Hcl.
  { intros h'. unfold c. destruct (decide (h' = h)) as [->|]; [by rewrite lookup_insert_eq|].
    by rewrite lookup_insert_ne. }
  assert (total sz c = total sz (cached s)) as Htot by (by apply (total_update sz _ _ refs)).
  assert (forall n, (h, n) ∉ freeable s) as Hnot.
  { intros n Hn'. apply (ei_entries _ Hinv) in Hn' as [? _]. congruence. }
  assert (h ∉ od_keys (freeable s)) as Hnk.
  { intros Hk'. apply list_elem_of_fmap in Hk' as ([h' n] & -> & Hin'). by apply (Hnot n). }
  case_bool_decide as Hr'; simpl.
  - rewrite Hn. simpl. eexists. split; [done|]. simpl. split_and!; try done.
    pose proof (ei_freeable _ Hinv) as Hfr.
    split; simpl; try apply Hinv.
    + rewrite Htot. apply Hinv.
    + rewrite od_set_fresh, reclaimable_app by done. simpl. lia.
    + by apply od_set_NoDup, Hinv.
    + intros h' m. rewrite od_set_elem, (ei_entries _ Hinv), Hcl by apply Hinv.
      destruct (decide (h' = h)) as [->|]; simpl; [|tauto].
      rewrite Hr'. split; [intros [[_ ?]|[? _]]; done|]. intros [_ ?]. by left.
    + by apply Hlinks.
  - eexists. split; [done|]. simpl. split_and!; try done.
    split; simpl; try apply Hinv.
    + rewrite Htot. apply Hinv.
    + intros h' m. rewrite (ei_entries _ Hinv), Hcl.
      destruct (decide (h' = h)) as [->|]; simpl; [|tauto]. rewrite Ec.
      split; intros [[= Hbad] _]; congruence.
    + by apply Hlinks.
Qed.

(** Releasing a request: every input id it has is visited once. *)
Lemma free_inputs_Ok r ids s :
  enc_inv s -> known r ->
  (forall i, i ∈ ids -> exists h, input_at r i h) ->
  exists s', for_each (free_encoder_input r) ids s = Ok s' /\ enc_inv s' /\
    cache_size s' = cache_size s /\ num_free_slots s' = num_free_slots s /\ freed s' = freed s /\
    (forall i, i ∈ get_cached_input_ids r s' <-> i ∈ get_cached_input_ids r s /\ i ∉ ids) /\
    (forall h rid, rid <> request_id r ->
      (exists refs, cached s' !! h = Some refs /\ rid ∈ refs) <->
      (exists refs, cached s !! h = Some refs /\ rid ∈ refs)) /\
    (forall h, is_Some (cached s' !! h) <-> is_Some (cached s !! h)).
Proof.
  intros Hinv Hk. revert s Hinv. induction ids as [|i ids IH]; intros s Hinv Hids.
  { exists s. split_and!; try done. intros i. pose proof (not_elem_of_nil i). tauto. }
  destruct (Hids i) as [h Hin]; [set_solver|].
  destruct (free_encoder_input_Ok r i h s Hinv Hk Hin)
    as (s1 & Hs1 & Hinv1 & Hsz1 & Hfs1 & Hfd1 & Hids1 & Hc1).
  destruct (IH s1 Hinv1) as (s' & Hs' & Hinv' & Hsz' & Hfs' & Hfd' & Hids' & Hc' & Hd'); [set_solver|].
  exists s'. simpl. rewrite Hs1. simpl. split_and!; try done; try congruence.
  - intros j. rewrite Hids'. unfold get_cached_input_ids. rewrite Hids1, drop_input_lookup.
    rewrite decide_True by done. rewrite elem_of_difference, elem_of_singleton, not_elem_of_cons. tauto.
  - intros h' rid Hne. rewrite (Hc' h' rid Hne), Hc1.
    destruct (decide (h' = h)) as [->|]; [|done].
    destruct (cached s !! h) as [refs|]; simpl; [|naive_solver].
    split; intros (refs' & [= <-] & ?); (eexists; split; [done|]); set_solver.
  - intros h'. rewrite Hd', Hc1. destruct (decide (h' = h)) as [->|]; [|done].
    rewrite fmap_is_Some. done.
Qed.

Lemma encoder_free_Ok iter r s :
  enc_inv s -> known r -> (forall x : gset Z, iter x ≡ₚ elements x) ->
  (forall i, i ∈ get_cached_input_ids r s -> exists h, input_at r i h) ->
  exists s', encoder_free iter r s = Ok s' /\ enc_inv s' /\
    num_free_slots s' = num_free_slots s /\ freed s' = freed s /\
    get_cached_input_ids r s' = ∅ /\
    (forall h refs, cached s' !! h = Some refs -> request_id r ∉ refs) /\
    (forall h rid, rid <> request_id r ->
      (exists refs, cached s' !! h = Some refs /\ rid ∈ refs) <->
      (exists refs, cached s !! h = Some refs /\ rid ∈ refs)) /\
    (forall h, is_Some (cached s' !! h) <-> is_Some (cached s !! h)).
Proof.
  intros Hinv Hk Hiter Hids. unfold encoder_free.
  assert (forall (x : gset Z) i, i ∈ iter x <-> i ∈ x) as Hel.
  { intros x i. by rewrite (Hiter x), elem_of_elements. }
  destruct (free_inputs_Ok r (iter (get_cached_input_ids r s)) s Hinv Hk)
    as (s' & Hs' & Hinv' & _ & Hfs & Hfd & Hids' & Hc & Hd).
  { intros i Hi. by apply Hids, Hel. }
  assert (get_cached_input_ids r s' = ∅) as Hempty.
  { apply set_eq. intros i. rewrite Hids', Hel. set_solver. }
  exists s'. split_and!; try done. intros h refs Hl Hr.
  destruct (ei_links _ Hinv' _ _ _ Hl Hr) as (ids & i & f & Hi & Hin & _).
  unfold get_cached_input_ids in Hempty. rewrite Hi in Hempty. simpl in Hempty. set_solver.
Qed.
End Invariant.

(** * Reachable states and the properties *)

Section EncoderProperties.
Variable sz : mm_hash -> Z.
Variable feats : string -> list MultiModalFeatureSpec.
Hypothesis sz_nonneg : forall h, 0 <= sz h.

(** The scheduler's use of the manager: inputs exist; an input is allocated only
    when its hash is not cached and its embeddings fit the free slots, which is
    what a successful [can_allocate] establishes. *)
Inductive enc_step (s : EncoderCacheManager) : EncoderCacheManager -> Prop :=
  | enc_check r i h b s' : known sz feats r -> input_at r i h ->
      check_and_update_cache r i s = Ok (b, s') -> enc_step s s'
  | enc_can r i h budget sched b s' : known sz feats r -> input_at r i h ->
      can_allocate r i budget sched s = Ok (b, s') -> enc_step s s'
  | enc_allocate r i h s' : known sz feats r -> input_at r i h -> cached s !! h = None ->
      sz h <= num_free_slots s -> encoder_allocate r i s = Ok s' -> enc_step s s'
  | enc_free_input r i h s' : known sz feats r -> input_at r i h ->
      free_encoder_input r i s = Ok s' -> enc_step s s'
  | enc_take : enc_step s (snd (get_freed_mm_hashes s))
  | enc_reset : enc_step s (encoder_cache_reset s).

Inductive enc_reachable (size : Z) : EncoderCacheManager -> Prop :=
  | enc_start : enc_reachable size (encoder_cache_init size)
  | enc_more s s' : enc_reachable size s -> enc_step s s' -> enc_reachable size s'.

Lemma enc_step_inv s s' : enc_inv sz feats s -> 0 <= cache_size s -> enc_step s s' ->
  enc_inv sz feats s' /\ cache_size s' = cache_size s.
Proof.
  intros Hinv Hsz Hstep.
  destruct Hstep as [r i h b s' Hk Hi E|r i h budget sched b s' Hk Hi E|r i h s' Hk Hi Hc Hf E
    |r i h s' Hk Hi E| |].
  - destruct (check_and_update_cache_Ok sz feats sz_nonneg r i h s Hinv Hk Hi) as (s1 & E1 & ? & ? & _).
    rewrite E1 in E. by injection E as _ <-.
  - destruct (can_allocate_Ok sz feats sz_nonneg r i h budget sched s Hinv Hk Hi)
      as (b1 & s1 & E1 & ? & ? & _).
    rewrite E1 in E. by injection E as _ <-.
  - destruct (encoder_allocate_Ok sz feats sz_nonneg r i h s Hinv Hk Hi Hc Hf) as (s1 & E1 & ? & ? & _).
    rewrite E1 in E. by injection E as <-.
  - destruct (free_encoder_input_Ok sz feats sz_nonneg r i h s Hinv Hk Hi) as (s1 & E1 & ? & ? & _).
    rewrite E1 in E. by injection E as <-.
  - split; [|done]. destruct Hinv. by split.
  - split; [|done]. by apply (encoder_cache_init_inv sz feats (cache_size s)).
Qed.

Lemma enc_reachable_inv size s :
  0 <= size -> enc_reachable size s -> enc_inv sz feats s /\ cache_size s = size.
Proof.
  intros Hsize. induction 1 as [|s s' _ [Hinv Heq] Hstep].
  - split; [by apply encoder_cache_init_inv|done].
  - destruct (enc_step_inv s s' Hinv) as [? ?]; [lia|done|]. split; [done|congruence].
Qed.

(** Unreferenced entries account for at most the cached total. *)
Lemma reclaimable_le_total (fs : list (mm_hash * Z)) (m : gmap mm_hash (gset string)) :
  NoDup (od_keys fs) -> (forall h n, (h, n) ∈ fs -> m !! h = Some ∅ /\ n = sz h) ->
  reclaimable fs <= total sz m.
Proof.
  revert m. induction fs as [|[h n] fs IH]; intros m Hnd Hfs; simpl.
  - unfold total. apply (map_fold_weak_ind (fun z (m : gmap mm_hash (gset string)) => 0 <= z));
      [done|]. intros h x m' z _ ?. pose proof (sz_nonneg h). lia.
  - unfold od_keys in Hnd. csimpl in Hnd. apply NoDup_cons in Hnd as [Hh Hnd].
    destruct (Hfs h n) as [Hm ->]; [by left|].
    rewrite (total_delete sz m h ∅ Hm).
    enough (reclaimable fs <= total sz (delete h m)) by lia.
    apply IH; [done|]. intros h' n' Hin. rewrite lookup_delete_ne; [apply Hfs; by right|].
    intros ->. apply Hh, list_elem_of_fmap. by exists (h', n').
Qed.

(** C29: in every state the scheduler can drive the manager to, the free slots
    and the sizes of the cached entries add up to the cache size, slot counts
    satisfy [0 <= free <= freeable <= size], the reclaimable list holds exactly
    the entries no request references (each once, with its size), and every
    reference is backed by an input id recorded for its request. *)
Theorem encoder_cache_accounting size s :
  0 <= size -> enc_reachable size s ->
  num_free_slots s + total sz (cached s) = size /\
  0 <= num_free_slots s <= num_freeable_slots s /\ num_freeable_slots s <= size /\
  NoDup (od_keys (freeable s)) /\
  (forall h n, (h, n) ∈ freeable s <-> cached s !! h = Some ∅ /\ n = sz h) /\
  (forall h refs rid, cached s !! h = Some refs -> rid ∈ refs ->
    exists ids, request_cached_ids s !! rid = Some ids /\ ids <> ∅).
Proof.
  intros Hsize Hr. destruct (enc_reachable_inv size s Hsize Hr) as [Hinv Heq].
  pose proof (reclaimable_nonneg sz feats sz_nonneg s Hinv) as Hrec.
  pose proof (reclaimable_le_total (freeable s) (cached s) (ei_nodup _ _ _ Hinv)
    (fun h n Hin => proj1 (ei_entries _ _ _ Hinv h n) Hin)) as Hle.
  destruct Hinv as [Hf Hn Hfr Hnd He Hl]. split_and!; try done; try lia.
  intros h refs rid Hc Hrid. destruct (Hl _ _ _ Hc Hrid) as (ids & i & f & Hids & Hi & _).
  exists ids. split; [done|]. set_solver.
Qed.

(** [can_allocate] never raises. It accepts exactly when the input fits the
    compute budget and, with what is already scheduled, the free plus reclaimable
    slots; accepting, it leaves enough slots free by evicting the oldest
    unreferenced entries only, and no more of them than needed; each evicted hash
    is reported in [freed]. Refusing, it changes nothing. *)
Theorem can_allocate_spec size s r i h budget sched :
  0 <= size -> enc_reachable size s -> known sz feats r -> input_at r i h ->
  exists b s', can_allocate r i budget sched s = Ok (b, s') /\
    (b = true <-> sz h <= budget /\ sz h + sched <= num_freeable_slots s) /\
    (b = false -> s' = s) /\ (b = true -> sz h + sched <= num_free_slots s') /\
    exists k, freeable s = take k (freeable s) ++ freeable s' /\
      freed s' = freed s ++ (take k (freeable s)).*1 /\
      (forall j, (j < k)%nat -> num_free_slots s + reclaimable (take j (freeable s)) < sz h + sched) /\
      (forall h', cached s' !! h' =
        if decide (h' ∈ (take k (freeable s)).*1) then None else cached s !! h') /\
      (forall h' refs, cached s !! h' = Some refs -> refs <> ∅ -> cached s' !! h' = Some refs).
Proof.
  intros Hsize Hr Hk Hi. destruct (enc_reachable_inv size s Hsize Hr) as [Hinv _].
  destruct (can_allocate_Ok sz feats sz_nonneg r i h budget sched s Hinv Hk Hi)
    as (b & s' & ? & _ & _ & ? & ? & ? & _ & k & ? & ? & ? & Hc).
  exists b, s'. split_and!; try done. exists k. split_and!; try done.
  intros h' refs Hl Hne. rewrite Hc. destruct (decide (h' ∈ (take k (freeable s)).*1)) as [Hin|]; [|done].
  apply list_elem_of_fmap in Hin as ([h0 n] & -> & Hin). simpl in *.
  assert ((h0, n) ∈ freeable s) as Hin'.
  { rewrite <-(take_drop k (freeable s)). apply elem_of_app. by left. }
  apply (ei_entries _ _ _ Hinv) in Hin' as [? _]. congruence.
Qed.

(** Releasing a request whose recorded inputs exist never raises, whatever
    the order its inputs are visited in: afterwards no input is recorded for it
    and no entry references it, references of other requests are as before, and
    no entry is dropped and no slot freed until an eviction. *)
Theorem encoder_free_spec (iter : gset Z -> list Z) size s r :
  (forall x : gset Z, iter x ≡ₚ elements x) ->
  0 <= size -> enc_reachable size s -> known sz feats r ->
  (forall i, i ∈ get_cached_input_ids r s -> exists h, input_at r i h) ->
  exists s', encoder_free iter r s = Ok s' /\ enc_inv sz feats s' /\
    num_free_slots s' = num_free_slots s /\ freed s' = freed s /\
    get_cached_input_ids r s' = ∅ /\
    (forall h refs, cached s' !! h = Some refs -> request_id r ∉ refs) /\
    (forall h rid, rid <> request_id r ->
      (exists refs, cached s' !! h = Some refs /\ rid ∈ refs) <->
      (exists refs, cached s !! h = Some refs /\ rid ∈ refs)) /\
    (forall h, is_Some (cached s' !! h) <-> is_Some (cached s !! h)).
Proof.
  intros iter_perm Hsize Hr Hk Hids. destruct (enc_reachable_inv size s Hsize Hr) as [Hinv _].
  exact (encoder_free_Ok sz feats sz_nonneg iter r s Hinv Hk iter_perm Hids).
Qed.
End EncoderProperties.

(** * Concrete inputs *)

Definition demo_features (rid : string) : list MultiModalFeatureSpec :=
  if bool_decide (rid = "r"%string)
  then [mkFeature (Some "a"%string) (mkRange 0 4 None); mkFeature (Some "b"%string) (mkRange 8 3 None)]
  else [].

Definition demo_size (h : mm_hash) : Z :=
  if bool_decide (h = Some "a"%string) then 4
  else if bool_decide (h = Some "b"%string) then 3 else 0.

Definition demo_mm_request : Request :=
  mkRequest "r"%string 0 example_time 1 WAITING None (Some example_sampling) None None 3 None ∅ 16
    [] (replicate 16 0) [] 0 0 None (demo_features "r") 0 0 [] false.

Lemma demo_size_nonneg h : 0 <= demo_size h.
Proof. unfold demo_size. repeat case_bool_decide; lia. Qed.

Lemma demo_known : known demo_size demo_features demo_mm_request.
Proof.
  split; [reflexivity|]. intros f Hf. simpl in Hf.
  apply elem_of_cons in Hf as [->|Hf]; [reflexivity|].
  apply list_elem_of_singleton in Hf as ->. reflexivity.
Qed.

Lemma demo_input_a : input_at demo_mm_request 0 (Some "a"%string).
Proof. split; [lia|]. eexists. split; reflexivity. Qed.
Lemma demo_input_b : input_at demo_mm_request 1 (Some "b"%string).
Proof. split; [lia|]. eexists. split; reflexivity. Qed.

Definition or_init (r : result EncoderCacheManager) : EncoderCacheManager :=
  match r with Ok s => s | Raise _ => encoder_cache_init 0 end.

(** Five slots: the image of four is cached, then released. *)
Definition demo_s1 : EncoderCacheManager :=
  or_init (encoder_allocate demo_mm_request 0 (encoder_cache_init 5)).
Definition demo_s2 : EncoderCacheManager := or_init (free_encoder_input demo_mm_request 0 demo_s1).

Lemma demo_s1_reachable : enc_reachable demo_size demo_features 5 demo_s1.
Proof.
  eapply enc_more; [apply enc_start|].
  eapply enc_allocate; [apply demo_known|apply demo_input_a|reflexivity|vm_compute; discriminate|].
  vm_compute. reflexivity.
Qed.

Lemma demo_s2_reachable : enc_reachable demo_size demo_features 5 demo_s2.
Proof.
  eapply enc_more; [apply demo_s1_reachable|].
  eapply enc_free_input; [apply demo_known|apply demo_input_a|]. vm_compute. reflexivity.
Qed.

Lemma encoder_cache_accounting_witness :
  num_free_slots demo_s2 + total demo_size (cached demo_s2) = 5.
Proof.
  apply (encoder_cache_accounting demo_size demo_features demo_size_nonneg 5 demo_s2).
  - lia.
  - exact demo_s2_reachable.
Defined.

Lemma can_allocate_spec_witness :
  exists s', can_allocate demo_mm_request 1 8 0 demo_s2 = Ok (true, s') /\ 3 <= num_free_slots s'.
Proof.
  destruct (can_allocate_spec demo_size demo_features demo_size_nonneg 5 demo_s2 demo_mm_request 1
    (Some "b"%string) 8 0) as (b & s' & Hc & Hb & _ & Hfree & _).
  - lia.
  - exact demo_s2_reachable.
  - exact demo_known.
  - exact demo_input_b.
  - assert (b = true) as -> by (apply Hb; split; vm_compute; discriminate).
    exists s'. split; [exact Hc|]. specialize (Hfree eq_refl). vm_compute in Hfree |- *. exact Hfree.
Defined.

Lemma encoder_free_spec_witness :
  exists s', encoder_free elements demo_mm_request demo_s1 = Ok s' /\
    get_cached_input_ids demo_mm_request s' = ∅.
Proof.
  destruct (encoder_free_spec demo_size demo_features demo_size_nonneg elements 5 demo_s1 demo_mm_request) as (s' & Hf & _ & _ & _ & Hids & _).
  - intros x. reflexivity.
  - lia.
  - exact demo_s1_reachable.
  - exact demo_known.
  - intros i Hi. exists (Some "a"%string).
    assert (i = 0) as ->; [|exact demo_input_a].
    change (get_cached_input_ids demo_mm_request demo_s1) with ({[0]} ∪ ∅ : gset Z) in Hi.
    set_solver.
  - exists s'. split; [exact Hf|exact Hids].
Defined.
