(* ===== verification/CacheHit.v ===== *)
(** Prefix-cache hits per attention type, of
    src/upstream/vllm/v1/core/single_type_kv_cache_manager.py and the specs of
    src/upstream/vllm/v1/kv_cache_interface.py: the three searches for the
    longest hit (full attention with interior hash boundaries, sliding window,
    chunked local attention), the number of tokens an attention type no longer
    reads, and the mask of the blocks worth caching.

    [computed_blocks], the Python tuple of one list per KV-cache group, is a
    list of lists; [table] relates it to a function from group and position to
    the block there. *)
From S2P Require Import Prelude FreeQueue Request BlockHash BlockPool.
Open Scope Z_scope.

(** * Specs *)

(** [MambaCacheMode]. *)
Inductive MambaCacheMode := MambaNone | MambaAll | MambaAlign.

(** The specs that the modelled managers serve: the attention specs, and the
    recurrent state of Mamba layers. *)
Inductive AttentionKind :=
  | FullAttentionSpec
  | TQFullAttentionSpec
  | MLAAttentionSpec
  | HiddenStateCacheSpec
  | RSWASpec (rswa_window : Z)
  | ChunkedLocalAttentionSpec (attention_chunk_size : Z)
  | SlidingWindowSpec (sliding_window : Z)
  | SlidingWindowMLASpec (sliding_window : Z)
  | MambaSpec (mamba_cache_mode : MambaCacheMode) (num_speculative_blocks : Z)
  | CrossAttentionSpec.

Record KVCacheSpec := mkSpec { spec_block_size : Z; spec_kind : AttentionKind }.

(** [isinstance(spec, FullAttentionSpec)]: subclasses included. *)
Definition is_full_attention (k : AttentionKind) : bool :=
  match k with
  | FullAttentionSpec | TQFullAttentionSpec | MLAAttentionSpec | HiddenStateCacheSpec
  | RSWASpec _ => true
  | _ => false
  end.

(** [spec.sliding_window] of a [SlidingWindowSpec], subclasses included. *)
Definition window_of (k : AttentionKind) : option Z :=
  match k with SlidingWindowSpec w | SlidingWindowMLASpec w => Some w | _ => None end.

Definition chunk_of (k : AttentionKind) : option Z :=
  match k with ChunkedLocalAttentionSpec c => Some c | _ => None end.

(** [max_admission_blocks_per_request] of the two specs that have it. *)
Definition sliding_max_admission_blocks (block_size sliding_window max_in_flight_tokens max_model_len : Z)
    : Z :=
  let num_tokens := Z.min (sliding_window - 1 + max_in_flight_tokens) max_model_len in
  cdiv num_tokens block_size + 1.
Definition chunked_max_admission_blocks (block_size attention_chunk_size max_in_flight_tokens
    max_model_len : Z) : Z :=
  let num_tokens := Z.min (attention_chunk_size + max_in_flight_tokens) max_model_len in
  cdiv num_tokens block_size.

(** [get_num_skipped_tokens], by the manager class of the spec. *)
Definition sliding_num_skipped_tokens (sliding_window num_computed_tokens : Z) : Z :=
  Z.max 0 (num_computed_tokens - sliding_window + 1).
Definition chunked_num_skipped_tokens (attention_chunk_size num_computed_tokens : Z) : Z :=
  num_computed_tokens / attention_chunk_size * attention_chunk_size.
Definition get_num_skipped_tokens (k : AttentionKind) (num_computed_tokens : Z) : Z :=
  match k with
  | SlidingWindowSpec w | SlidingWindowMLASpec w => sliding_num_skipped_tokens w num_computed_tokens
  | ChunkedLocalAttentionSpec c => chunked_num_skipped_tokens c num_computed_tokens
  | MambaSpec _ _ => num_computed_tokens - 1
  | _ => 0
  end.

(** * Operations on [computed_blocks] *)

Abbreviation Computed := (list (list bref)).

(** [a % b] with Python's [ZeroDivisionError]. *)
Definition py_mod (a b : Z) : result Z :=
  if b =? 0 then Raise ZeroDivisionError else Ok (a mod b).
Definition py_div (a b : Z) : result Z :=
  if b =? 0 then Raise ZeroDivisionError else Ok (a / b).

(** [for computed, cached in zip(computed_blocks, cached_block): ...]. *)
Fixpoint each_group (f : list bref -> bref -> list bref) (computed : Computed) (cached : list bref)
    : Computed :=
  match computed, cached with
  | c :: computed', b :: cached' => f c b :: each_group f computed' cached'
  | _, _ => computed
  end.

Definition append_hit (computed : Computed) (cached : list bref) : Computed :=
  each_group (fun c b => c ++ [b]) computed cached.

(** [computed[i] = cached]. *)
Definition store_hit (i : nat) (computed : Computed) (cached : list bref) : Computed :=
  each_group (fun c b => <[i := b]> c) computed cached.

(** [del computed[n:]] in every group. *)
Definition trim (n : Z) (computed : Computed) : Computed := (fun c => py_upto c n) <$> computed.

(** [computed.pop()] in every group. *)
Definition pop_each (computed : Computed) : result Computed :=
  map_ok (fun c : list bref =>
    match c with [] => Raise IndexError | _ => Ok (removelast c) end) computed.

(** [len(computed_blocks[0])]. *)
Definition head_len (computed : Computed) : result Z :=
  c ← py_index computed 0; Ok (zlen c).

(** [if cached_block := get_cached_block(...)]: an empty list is false. *)
Definition truthy (o : option (list bref)) : option (list bref) :=
  match o with Some [] => None | _ => o end.

(** * Full attention *)

(** Phase 1, over the block indices [range(min(max_length // block_size, len))]. *)
Fixpoint full_hit_loop (p : BlockPool) (gids : list Z) (full_block_hashes : BlockHashList)
    (idxs : list Z) (computed : Computed) : result Computed :=
  match idxs with
  | [] => Ok computed
  | i :: idxs' =>
      block_hash ← get_value_at full_block_hashes i;
      cached_block ← get_cached_block p block_hash gids;
      match truthy cached_block with
      | None => Ok computed
      | Some cached => full_hit_loop p gids full_block_hashes idxs' (append_hit computed cached)
      end
  end.

(** Phase 2, probing the interior hash boundaries of the first partial block. *)
Fixpoint tail_hit_loop (p : BlockPool) (gids : list Z) (hs : list bytes) (alignment_tokens : Z)
    (idxs : list Z) (computed : Computed) (hit_length : Z) : result (Computed * Z) :=
  match idxs with
  | [] => Ok (computed, hit_length)
  | fine_idx :: idxs' =>
      block_hash ← py_index hs fine_idx;
      cached_tail ← get_cached_block p block_hash gids;
      match truthy cached_tail with
      | None => tail_hit_loop p gids hs alignment_tokens idxs' computed hit_length
      | Some cached => Ok (append_hit computed cached, (fine_idx + 1) * alignment_tokens)
      end
  end.

(** [FullAttentionManager.find_longest_cache_hit]. *)
Definition full_find_longest_cache_hit (hashes : BlockHashList) (max_length : Z) (gids : list Z)
    (p : BlockPool) (spec : KVCacheSpec) (drop_eagle_block : bool)
    (alignment_tokens dcp_world_size : Z) : result (Computed * Z) :=
  _ ← assert_ (is_full_attention (spec_kind spec) || bool_decide (is_Some (chunk_of (spec_kind spec))));
  let block_size := if 1 <? dcp_world_size then spec_block_size spec * dcp_world_size
                    else spec_block_size spec in
  hashes ← resolve_block_hashes hashes (pool_hash_block_size p) block_size true
             (Some alignment_tokens);
  fine_grained ← (if alignment_tokens <? block_size
                  then m ← py_mod block_size alignment_tokens; Ok (m =? 0) else Ok false);
  full_block_hashes ←
    (if (fine_grained : bool) then
       match hashes with
       | Hashes hs => with_block_size_init hs alignment_tokens block_size
       | WithBlockSize _ _ => Raise AssertionError
       end
     else Ok hashes);
  max_num_blocks ← py_div max_length block_size;
  if max_num_blocks <? 0 then Raise ValueError else
  computed ← full_hit_loop p gids full_block_hashes
    (py_range 0 (Z.min max_num_blocks (hash_list_len full_block_hashes))) (replicate (length gids) []);
  n ← head_len computed;
  '(computed, hit_length) ←
    (if (fine_grained : bool) then
       match hashes with
       | WithBlockSize _ _ => Raise AssertionError
       | Hashes hs =>
           let scale_factor := block_size / alignment_tokens in
           let first_partial_idx := n * scale_factor in
           let max_partial_idx := Z.min (Z.min (first_partial_idx + scale_factor - 1)
             (max_length / alignment_tokens)) (zlen hs) in
           tail_hit_loop p gids hs alignment_tokens
             (py_range_down (max_partial_idx - 1) (first_partial_idx - 1)) computed (n * block_size)
       end
     else Ok (computed, n * block_size));
  let hit_length := if drop_eagle_block && (0 <? hit_length)
    then hit_length - Z.min alignment_tokens block_size else hit_length in
  r ← py_mod hit_length alignment_tokens;
  let hit_length := hit_length - r in
  Ok (trim (cdiv hit_length block_size) computed, hit_length).

(** * Sliding window *)

(** [_contiguous_blocks_for_hit]. *)
Definition contiguous_blocks_for_hit (window_size block_size : Z) (use_eagle : bool) : Z :=
  let blocks := cdiv (window_size - 1) block_size in
  if use_eagle then blocks + 1 else blocks.

(** The search from block [n - 1] down to block 0. *)
Fixpoint window_loop (p : BlockPool) (gids : list Z) (hashes : BlockHashList) (need : Z)
    (drop_eagle_block : bool) (block_size alignment_tokens : Z) (n : nat) (computed : Computed)
    (num_contiguous_blocks : Z) : result (Computed * Z * bool) :=
  match n with
  | O => Ok (computed, num_contiguous_blocks, false)
  | S i =>
      block_hash ← get_value_at hashes (Z.of_nat i);
      cached_block ← get_cached_block p block_hash gids;
      match truthy cached_block with
      | Some cached =>
          let post_pop_blocks := if drop_eagle_block then Z.of_nat i else Z.of_nat i + 1 in
          unaligned ← (if (num_contiguous_blocks =? 0) && negb (block_size =? alignment_tokens)
            then m ← py_mod (post_pop_blocks * block_size) alignment_tokens; Ok (negb (m =? 0))
            else Ok false);
          if (unaligned : bool) then
            window_loop p gids hashes need drop_eagle_block block_size alignment_tokens i computed
              num_contiguous_blocks
          else
          let computed := store_hit i computed cached in
          let num_contiguous_blocks := num_contiguous_blocks + 1 in
          if need <=? num_contiguous_blocks
          then Ok (trim (Z.of_nat i + num_contiguous_blocks) computed, num_contiguous_blocks, true)
          else window_loop p gids hashes need drop_eagle_block block_size alignment_tokens i computed
                 num_contiguous_blocks
      | None =>
          window_loop p gids hashes need drop_eagle_block block_size alignment_tokens i computed 0
      end
  end.

(** [while block_size != alignment_tokens and ... % alignment_tokens != 0: pop]. *)
Fixpoint align_loop (fuel : nat) (block_size alignment_tokens : Z) (computed : Computed)
    : result Computed :=
  match fuel with
  | O => Raise Diverges
  | S fuel =>
      if block_size =? alignment_tokens then Ok computed else
      n ← head_len computed;
      m ← py_mod (n * block_size) alignment_tokens;
      if m =? 0 then Ok computed else
      computed ← pop_each computed;
      align_loop fuel block_size alignment_tokens computed
  end.
Definition align_blocks (block_size alignment_tokens : Z) (computed : Computed) : result Computed :=
  align_loop (S (length (default [] (head computed)))) block_size alignment_tokens computed.

(** [SlidingWindowManager.find_longest_cache_hit]. *)
Definition window_find_longest_cache_hit (hashes : BlockHashList) (max_length : Z) (gids : list Z)
    (p : BlockPool) (spec : KVCacheSpec) (drop_eagle_block : bool)
    (alignment_tokens dcp_world_size pcp_world_size : Z) : result (Computed * Z) :=
  sliding_window ← or_raise AssertionError (window_of (spec_kind spec));
  _ ← assert_ (dcp_world_size =? 1);
  _ ← assert_ (pcp_world_size =? 1);
  let block_size := spec_block_size spec in
  m ← py_mod alignment_tokens block_size;
  _ ← assert_ (m =? 0);
  hashes ← resolve_block_hashes hashes (pool_hash_block_size p) block_size false
             (Some alignment_tokens);
  let need := contiguous_blocks_for_hit sliding_window block_size drop_eagle_block in
  let max_num_blocks := Z.to_nat (max_length / block_size) in
  '(computed, num_contiguous_blocks, match_found) ←
    window_loop p gids hashes need drop_eagle_block block_size alignment_tokens max_num_blocks
      (replicate (length gids) (replicate max_num_blocks null_block)) 0;
  computed ← (if (match_found : bool) then Ok computed
              else align_blocks block_size alignment_tokens (trim num_contiguous_blocks computed));
  computed ← (if drop_eagle_block then
      n ← head_len computed;
      if n =? 0 then Ok computed else
      computed ← pop_each computed;
      align_blocks block_size alignment_tokens computed
    else Ok computed);
  n ← head_len computed;
  Ok (computed, n * block_size).

(** * Chunked local attention *)

(** [ChunkedLocalAttentionManager.find_longest_cache_hit]; its loop is the one
    of full attention. *)
Definition chunked_find_longest_cache_hit (hashes : BlockHashList) (max_length : Z) (gids : list Z)
    (p : BlockPool) (spec : KVCacheSpec) (drop_eagle_block : bool)
    (alignment_tokens dcp_world_size pcp_world_size : Z) : result (Computed * Z) :=
  attention_chunk_size ← or_raise AssertionError (chunk_of (spec_kind spec));
  _ ← assert_ (negb drop_eagle_block);
  _ ← assert_ (dcp_world_size =? 1);
  _ ← assert_ (pcp_world_size =? 1);
  let block_size := spec_block_size spec in
  _ ← assert_ (block_size =? alignment_tokens);
  hashes ← resolve_block_hashes hashes (pool_hash_block_size p) block_size false
             (Some alignment_tokens);
  max_num_blocks ← py_div max_length block_size;
  local_attention_start_idx ←
    (if 0 <? max_length
     then q ← py_div max_length attention_chunk_size; Ok (q * attention_chunk_size) else Ok 0);
  let start := local_attention_start_idx / block_size in
  computed ← full_hit_loop p gids hashes (py_range start max_num_blocks)
    (replicate (length gids) (replicate (Z.to_nat start) null_block));
  n ← head_len computed;
  Ok (computed, n * block_size).

(** * The mask of the blocks worth caching *)

(** [mask[i - start] = True] for the [i] of a range that satisfy a test. *)
Definition mark (start : Z) (test : Z -> bool) (idxs : list Z) (mask : list bool) : list bool :=
  fold_left (fun mask i => if test i then <[Z.to_nat (i - start) := true]> mask else mask) idxs mask.

(** [SlidingWindowManager.reachable_block_mask]. *)
Definition window_reachable_block_mask (start_block end_block : Z) (alignment_tokens : option Z)
    (spec : KVCacheSpec) (use_eagle : bool) (retention_interval : option Z)
    (reachable_boundaries : list Z) : result (option (list bool)) :=
  sliding_window ← or_raise AssertionError (window_of (spec_kind spec));
  match alignment_tokens with
  | None => Ok None
  | Some alignment_tokens =>
      let block_size := spec_block_size spec in
      m ← py_mod alignment_tokens block_size;
      _ ← assert_ (m =? 0);
      let need := contiguous_blocks_for_hit sliding_window block_size use_eagle in
      let shift := if use_eagle then 1 else 0 in
      let mask := replicate (Z.to_nat (end_block - start_block)) false in
      let segment_tokens := match retention_interval with
        | None => Some alignment_tokens
        | Some r => if r =? 0 then None else Some r
        end in
      let boundary_tails (mask : list bool) : result (option (list bool)) :=
        match retention_interval with
        | None => Ok (Some mask)
        | Some _ =>
            mask ← for_each (fun boundary_tokens mask =>
                q ← py_div boundary_tokens alignment_tokens;
                let aligned := q * alignment_tokens in
                let end_ := aligned / block_size + shift in
                Ok (mark start_block (fun _ => true)
                      (py_range (Z.max start_block (end_ - need)) (Z.min end_block end_)) mask))
              reachable_boundaries mask;
            Ok (Some mask)
        end in
      match segment_tokens with
      | None => boundary_tails mask
      | Some segment_tokens =>
          let per_segment := segment_tokens / block_size in
          if per_segment <=? need then Ok None else
          boundary_tails (mark start_block
            (fun i => (shift <=? i) && (per_segment - need <=? (i - shift) mod per_segment))
            (py_range start_block end_block) mask)
      end
  end.

(** * Tables of blocks *)

(** Each of the [ng] lists has [n] entries, entry [i] of list [g] being [cell g i]. *)
Definition table (ng : nat) (computed : Computed) (n : nat) (cell : nat -> nat -> option bref) : Prop :=
  length computed = ng /\
  forall g c, computed !! g = Some c ->
    length c = n /\ forall i, (i < n)%nat -> c !! i = cell g i.

Lemma each_group_lookup f computed cached g :
  length cached = length computed ->
  each_group f computed cached !! g =
    match computed !! g, cached !! g with Some c, Some b => Some (f c b) | _, _ => None end.
Proof.
  revert cached g. induction computed as [|c computed IH]; intros [|b cached] g Hl; simpl in *;
    try done. destruct g as [|g]; simpl; [done|]. apply IH. lia.
Qed.

Lemma length_each_group f computed cached : length (each_group f computed cached) = length computed.
Proof. revert cached. induction computed; intros [|]; simpl; auto. Qed.

Lemma table_ext ng computed n cell cell' :
  table ng computed n cell ->
  (forall g i, (g < ng)%nat -> (i < n)%nat -> cell g i = cell' g i) -> table ng computed n cell'.
Proof.
  intros [Hl Hc] He. split; [done|]. intros g c Hg. destruct (Hc g c Hg) as [Hn Hi].
  split; [done|]. intros i Hin. rewrite <-He; [by apply Hi| |done].
  rewrite <-Hl. by eapply lookup_lt_Some.
Qed.

Lemma table_replicate ng n x : table ng (replicate ng (replicate n x)) n (fun _ _ => Some x).
Proof.
  split; [apply length_replicate|]. intros g c [-> _]%lookup_replicate.
  split; [apply length_replicate|]. intros i Hi. by apply lookup_replicate_2.
Qed.

Lemma table_append ng computed n cell cached :
  table ng computed n cell -> length cached = ng ->
  table ng (append_hit computed cached) (S n)
    (fun g i => if (i =? n)%nat then cached !! g else cell g i).
Proof.
  intros [Hl Hc] Hlen. unfold append_hit. split; [by rewrite length_each_group|].
  intros g c'. rewrite each_group_lookup by congruence.
  destruct (computed !! g) as [c|] eqn:Eg; [|done]. destruct (cached !! g) as [b|] eqn:Eb; [|done].
  intros [= <-]. destruct (Hc g c Eg) as [Hn Hi]. split; [rewrite length_app; simpl; lia|].
  intros i Hin. destruct (Nat.eqb_spec i n) as [->|].
  - rewrite <-Hn, list_lookup_middle; done.
  - rewrite lookup_app_l by lia. apply Hi. lia.
Qed.

Lemma table_store ng computed n cell cached i :
  table ng computed n cell -> length cached = ng -> (i < n)%nat ->
  table ng (store_hit i computed cached) n (fun g j => if (j =? i)%nat then cached !! g else cell g j).
Proof.
  intros [Hl Hc] Hlen Hin. unfold store_hit. split; [by rewrite length_each_group|].
  intros g c'. rewrite each_group_lookup by congruence.
  destruct (computed !! g) as [c|] eqn:Eg; [|done]. destruct (cached !! g) as [b|] eqn:Eb; [|done].
  intros [= <-]. destruct (Hc g c Eg) as [Hn Hi]. split; [by rewrite length_insert|].
  intros j Hj. destruct (Nat.eqb_spec j i) as [->|].
  - by rewrite list_lookup_insert_eq by lia.
  - rewrite list_lookup_insert_ne by done. by apply Hi.
Qed.

Lemma table_trim ng computed n cell k :
  table ng computed n cell -> (k <= n)%nat -> table ng (trim (Z.of_nat k) computed) k cell.
Proof.
  intros [Hl Hc] Hk. unfold trim. split; [by rewrite length_fmap|].
  intros g c'. rewrite list_lookup_fmap. destruct (computed !! g) as [c|] eqn:Eg; [|done].
  intros [= <-]. destruct (Hc g c Eg) as [Hn Hi]. rewrite py_upto_nonneg, Nat2Z.id by lia.
  split; [rewrite length_take; lia|]. intros i Hin. rewrite lookup_take_lt by lia. apply Hi. lia.
Qed.

Lemma table_head ng computed n cell : (0 < ng)%nat -> table ng computed n cell ->
  head_len computed = Ok (Z.of_nat n) /\ length (default [] (head computed)) = n.
Proof.
  intros Hng [Hl Hc]. destruct computed as [|c computed]; [simpl in *; lia|].
  destruct (Hc 0%nat c eq_refl) as [Hn _]. unfold head_len. simpl. by rewrite Hn.
Qed.

Lemma table_pop ng computed n cell : table ng computed (S n) cell ->
  exists computed', pop_each computed = Ok computed' /\ table ng computed' n cell.
Proof.
  intros [Hl Hc]. unfold pop_each.
  edestruct (map_ok_lookup (fun c : list bref =>
      match c with [] => Raise IndexError | _ => Ok (removelast c) end) computed)
    as (computed' & -> & Hlen & Hall).
  { intros c (g & Hg)%list_elem_of_lookup. destruct (Hc g c Hg) as [Hn _]. destruct c; [done|eauto]. }
  exists computed'. split; [done|]. split; [congruence|]. intros g c' Hg.
  destruct (lookup_lt_is_Some_2 computed g) as [c Hcg].
  { rewrite <-Hlen. by eapply lookup_lt_Some. }
  destruct (Hall g c Hcg) as (c2 & Hc2 & Hg2). destruct (Hc g c Hcg) as [Hn Hi].
  assert (c' = removelast c) as -> by (destruct c; congruence).
  rewrite removelast_firstn_len, Hn. simpl.
  split; [rewrite length_take; lia|]. intros i Hin. rewrite lookup_take_lt by lia. apply Hi. lia.
Qed.

(** * Lookups that cannot fail *)

(** The blocks a lookup returns, one per group. *)
Definition cached_blocks (p : BlockPool) (gids : list Z) (h : bytes) : option (list bref) :=
  match get_cached_block p h gids with Ok o => o | Raise _ => None end.

(** The groups of a lookup: at least one, ids of 32 bits. *)
Definition groups_ok (gids : list Z) : Prop :=
  gids <> [] /\ Forall (fun g => 0 <= g < 2 ^ 32) gids.

(** The same for an optional hash, the result as a cell per group, and as a test. *)
Definition lookup_hash (p : BlockPool) (gids : list Z) (h : option bytes) : option (list bref) :=
  match h with Some h => cached_blocks p gids h | None => None end.
Definition hit_cell (p : BlockPool) (gids : list Z) (h : option bytes) (g : nat) : option bref :=
  match lookup_hash p gids h with Some bs => bs !! g | None => None end.
Definition is_cached (p : BlockPool) (gids : list Z) (h : option bytes) : bool :=
  match lookup_hash p gids h with Some _ => true | None => false end.

Lemma groups_pos gids : groups_ok gids -> (0 < length gids)%nat.
Proof. intros [Hne _]. destruct gids; simpl; [done|lia]. Qed.

Section Hits.
Context `{PoolEnv}.
Context (p : BlockPool) (xs : list nat) (gids : list Z).
Context (Hinv : pool_inv p xs) (Hgids : groups_ok gids).

Lemma get_cached_block_total h :
  get_cached_block p h gids = Ok (cached_blocks p gids h) /\
  truthy (cached_blocks p gids h) = cached_blocks p gids h /\
  forall bs, cached_blocks p gids h = Some bs -> length bs = length gids.
Proof.
  destruct Hgids as [Hne Hr]. unfold cached_blocks.
  destruct (get_cached_block_Ok p xs h gids Hinv Hr) as (res & -> & Hres). split; [done|].
  destruct res as [bs|]; [|done]. apply Forall2_length in Hres.
  split; [|intros bs' [= <-]; done]. destruct bs, gids; simpl in *; congruence.
Qed.

(** A run of lookups at consecutive block indices. *)
Lemma full_hit_loop_Ok l (H0 : nat -> option bytes) s e computed cell :
  (s <= e)%nat ->
  (forall i, (s <= i < e)%nat -> exists h, get_value_at l (Z.of_nat i) = Ok h /\ H0 i = Some h) ->
  table (length gids) computed s cell ->
  exists n computed',
    full_hit_loop p gids l (py_range (Z.of_nat s) (Z.of_nat e)) computed = Ok computed' /\
    (s <= n <= e)%nat /\
    table (length gids) computed' n
      (fun g i => if (i <? s)%nat then cell g i else hit_cell p gids (H0 i) g) /\
    (forall i, (s <= i < n)%nat -> is_cached p gids (H0 i) = true) /\
    ((n < e)%nat -> is_cached p gids (H0 n) = false).
Proof.
  intros Hse. remember (e - s)%nat as d eqn:Hd.
  revert s Hse Hd computed cell. induction d as [|d IH]; intros s Hse Hd computed cell Hh Ht.
  - rewrite py_range_nil by lia. exists s, computed. split_and!; try done; try lia.
    eapply table_ext; [exact Ht|]. intros g i _ Hi. by destruct (Nat.ltb_spec i s); [|lia].
  - rewrite py_range_cons by lia. simpl.
    destruct (Hh s ltac:(lia)) as (h & -> & Hs). simpl.
    destruct (get_cached_block_total h) as (-> & Htr & Hlen). simpl. rewrite Htr.
    destruct (cached_blocks p gids h) as [bs|] eqn:Eb.
    + destruct (IH (S s) ltac:(lia) ltac:(lia) (append_hit computed bs)
          (fun g i => if (i =? s)%nat then bs !! g else cell g i))
        as (n & computed' & Hl & Hn & Ht' & Hc & Hu).
      { intros i Hi. apply Hh. lia. }
      { apply table_append; auto. }
      replace (Z.of_nat s + 1) with (Z.of_nat (S s)) by lia.
      exists n, computed'. split_and!; [done|lia|lia| | |done].
      * eapply table_ext; [exact Ht'|]. intros g i _ _. simpl.
        destruct (Nat.ltb_spec i (S s)), (Nat.ltb_spec i s); try lia; try done;
          destruct (Nat.eqb_spec i s) as [->|]; try lia; try done.
        unfold hit_cell, lookup_hash. by rewrite Hs, Eb.
      * intros i Hi. destruct (decide (i = s)) as [->|]; [|apply Hc; lia].
        unfold is_cached, lookup_hash. by rewrite Hs, Eb.
    + exists s, computed. split_and!; try done; try lia.
      * eapply table_ext; [exact Ht|]. intros g i _ Hi. by destruct (Nat.ltb_spec i s); [|lia].
      * intros _. unfold is_cached, lookup_hash. by rewrite Hs, Eb.
Qed.

(** Probing hash indices from [m - 1] down to [f]. *)
Lemma tail_hit_loop_Ok hs a f m computed hit_length :
  (m <= length hs)%nat ->
  let r := tail_hit_loop p gids hs a (py_range_down (Z.of_nat m - 1) (Z.of_nat f - 1))
             computed hit_length in
  (r = Ok (computed, hit_length) /\
   forall t, (f <= t < m)%nat -> is_cached p gids (hs !! t) = false) \/
  exists t cached, (f <= t < m)%nat /\ lookup_hash p gids (hs !! t) = Some cached /\
    length cached = length gids /\ r = Ok (append_hit computed cached, (Z.of_nat t + 1) * a) /\
    forall t', (t < t' < m)%nat -> is_cached p gids (hs !! t') = false.
Proof.
  induction m as [|m IH]; intros Hm.
  - left. rewrite py_range_down_nil by lia. split; [done|]. lia.
  - destruct (decide (f <= m)%nat) as [Hf|Hf].
    2:{ left. rewrite py_range_down_nil by lia. split; [done|]. lia. }
    replace (Z.of_nat (S m) - 1) with (Z.of_nat m) by lia. rewrite py_range_down_cons by lia.
    destruct (lookup_lt_is_Some_2 hs m ltac:(lia)) as [h Hh]. simpl.
    rewrite (py_index_Ok hs (Z.of_nat m) h) by (rewrite ?Nat2Z.id; (lia || done)). simpl.
    destruct (get_cached_block_total h) as (-> & Htr & Hlen). simpl. rewrite Htr.
    destruct (cached_blocks p gids h) as [bs|] eqn:Eb.
    + right. exists m, bs. split_and!; [lia..| |by apply Hlen|done|lia].
      unfold lookup_hash. by rewrite Hh.
    + destruct (IH ltac:(lia)) as [[-> Hu]|(t & cached & Ht & Hc & Hlc & -> & Hu)].
      * left. split; [done|]. intros t Ht. destruct (decide (t = m)) as [->|]; [|apply Hu; lia].
        unfold is_cached, lookup_hash. by rewrite Hh, Eb.
      * right. exists t, cached. split_and!; try done; try lia. intros t' Ht'.
        destruct (decide (t' = m)) as [->|]; [|apply Hu; lia].
        unfold is_cached, lookup_hash. by rewrite Hh, Eb.
Qed.
End Hits.

(** * Full attention: the longest run of cached blocks, and its tail *)

Lemma resolve_aligned hs bs target sup a :
  a <> 0 ->
  resolve_block_hashes (Hashes hs) bs target sup (Some a) =
    if negb (target =? bs) && sup && (a <? target) && (target mod a =? 0) then Ok (Hashes hs)
    else resolve_block_hashes (Hashes hs) bs target false None.
Proof.
  intros Ha. unfold resolve_block_hashes. destruct (target =? bs); [done|]. simpl.
  destruct (sup && (a <? target)) eqn:E; [|done]. simpl.
  destruct (Z.eqb_spec a 0); [done|]. simpl. by destruct (target mod a =? 0).
Qed.

(** What the full-attention search reports, for hashes [hs] of [bs] tokens and
    blocks of [k] hashes: [L] full blocks, the hit ending at hash boundary [F]. *)
Record longest_hit (p : BlockPool) (gids : list Z) (hs : list bytes) (bs max_length : Z)
    (k : nat) (fine : bool) (L F : nat) : Prop := {
  lh_cached i : (i < L)%nat -> is_cached p gids (hs !! ((i + 1) * k - 1)%nat) = true;
  lh_next : ((L + 1) * k <= length hs)%nat -> Z.of_nat ((L + 1) * k) * bs <= max_length ->
    is_cached p gids (hs !! ((L + 1) * k - 1)%nat) = false;
  lh_range : (L * k <= F < (L + 1) * k)%nat /\ (F <= length hs)%nat /\ Z.of_nat F * bs <= max_length;
  lh_tail : F = (L * k)%nat \/ fine = true /\ is_cached p gids (hs !! (F - 1)%nat) = true;
  lh_last t : fine = true -> (F < t < (L + 1) * k)%nat -> (t <= length hs)%nat ->
    Z.of_nat t * bs <= max_length -> is_cached p gids (hs !! (t - 1)%nat) = false
}.

(** The block that covers position [i] of a hit that ends at boundary [F]. *)
Definition full_cell (p : BlockPool) (gids : list Z) (hs : list bytes) (k F g i : nat) : option bref :=
  hit_cell p gids (hs !! (Nat.min ((i + 1) * k) F - 1)%nat) g.

Section FullHit.
Context `{PoolEnv}.
Context (p : BlockPool) (xs : list nat) (gids : list Z).
Context (Hinv : pool_inv p xs) (Hgids : groups_ok gids).
Context (hs : list bytes) (bs max_length : Z) (k : nat).
Context (Hbs : 0 < bs) (Hk : (0 < k)%nat) (Hmax : 0 <= max_length).

(** The number of blocks phase 1 looks at. *)
Lemma phase1_bound e :
  e = Z.to_nat (Z.min (max_length / (Z.of_nat k * bs)) (zlen hs / Z.of_nat k)) ->
  forall L : nat, (L <= e)%nat <->
    (L * k <= length hs)%nat /\ Z.of_nat (L * k) * bs <= max_length.
Proof.
  intros -> L.
  assert (0 <= max_length / (Z.of_nat k * bs)) by (apply Z.div_pos; nia).
  assert (0 <= zlen hs / Z.of_nat k) by (apply Z.div_pos; lia).
  trans (Z.of_nat L <= max_length / (Z.of_nat k * bs) /\ Z.of_nat L <= zlen hs / Z.of_nat k);
    [lia|].
  rewrite !le_div_iff by nia. rewrite Nat2Z.inj_mul. split; intros [? ?]; split; nia.
Qed.

(** Both phases, on a view [v] of the hashes at the block size. *)
Lemma full_phases v fine :
  hash_list_len v = zlen hs / Z.of_nat k ->
  (forall i, 0 <= i ->
    get_value_at v i = or_raise IndexError (hs !! Z.to_nat ((i + 1) * Z.of_nat k - 1))) ->
  exists (L F : nat) c1 c2,
    full_hit_loop p gids v
      (py_range 0 (Z.min (max_length / (Z.of_nat k * bs)) (hash_list_len v)))
      (replicate (length gids) []) = Ok c1 /\
    head_len c1 = Ok (Z.of_nat L) /\
    (if fine : bool then
      tail_hit_loop p gids hs bs
        (py_range_down (Z.min (Z.min (Z.of_nat L * Z.of_nat k + Z.of_nat k - 1) (max_length / bs))
            (zlen hs) - 1) (Z.of_nat L * Z.of_nat k - 1)) c1 (Z.of_nat L * (Z.of_nat k * bs))
     else Ok (c1, Z.of_nat L * (Z.of_nat k * bs))) = Ok (c2, Z.of_nat F * bs) /\
    longest_hit p gids hs bs max_length k fine L F /\
    table (length gids) c2 (if (F =? L * k)%nat then L else S L) (full_cell p gids hs k F).
Proof.
  intros Hlen Hget. rewrite Hlen.
  set (e := Z.to_nat (Z.min (max_length / (Z.of_nat k * bs)) (zlen hs / Z.of_nat k))).
  pose proof (phase1_bound e eq_refl) as He.
  assert (Z.min (max_length / (Z.of_nat k * bs)) (zlen hs / Z.of_nat k) = Z.of_nat e) as ->.
  { unfold e. rewrite Z2Nat.id; [done|]. apply Z.min_glb; apply Z.div_pos; nia. }
  assert (forall i, (i < e)%nat -> exists h, get_value_at v (Z.of_nat i) = Ok h /\
      hs !! ((i + 1) * k - 1)%nat = Some h) as Hh.
  { intros i Hi. destruct (proj1 (He (i + 1)%nat) ltac:(lia)) as [Hi1 _].
    destruct (lookup_lt_is_Some_2 hs ((i + 1) * k - 1)%nat ltac:(nia)) as [h Hh].
    exists h. split; [|done]. rewrite Hget by lia.
    replace (Z.to_nat _) with ((i + 1) * k - 1)%nat by nia. by rewrite Hh. }
  destruct (full_hit_loop_Ok p xs gids Hinv Hgids v (fun i => hs !! ((i + 1) * k - 1)%nat) 0 e
              (replicate (length gids) []) (fun _ _ => None))
    as (L & c1 & Hl & HL & Ht & Hc & Hu).
  { lia. }
  { intros i Hi. apply Hh. lia. }
  { split; [apply length_replicate|]. intros g c [-> _]%lookup_replicate. split; [done|]. lia. }
  change (Z.of_nat 0) with 0 in Hl. destruct (proj1 (He L) ltac:(lia)) as [HLk HLm].
  assert (table (length gids) c1 L (full_cell p gids hs k (L * k))) as Ht1.
  { eapply table_ext; [exact Ht|]. intros g i _ Hi. simpl. unfold full_cell.
    by rewrite Nat.min_l by nia. }
  assert (forall (F' : nat), (L * k <= F' < (L + 1) * k)%nat /\ (F' <= length hs)%nat /\
      Z.of_nat F' * bs <= max_length ->
    (F' = (L * k)%nat \/ fine = true /\ is_cached p gids (hs !! (F' - 1)%nat) = true) ->
    (forall t, fine = true -> (F' < t < (L + 1) * k)%nat -> (t <= length hs)%nat ->
      Z.of_nat t * bs <= max_length -> is_cached p gids (hs !! (t - 1)%nat) = false) ->
    longest_hit p gids hs bs max_length k fine L F') as Hmk.
  { intros F' HF1 HF2 HF3. split; [|..]; try done.
    - intros i Hi. apply Hc. lia.
    - intros H1 H2. apply Hu. pose proof (proj2 (He (L + 1)%nat) (conj H1 H2)). lia. }
  exists L. destruct (table_head _ _ _ _ (groups_pos gids Hgids) Ht1) as [Hhead _].
  assert (Z.of_nat L * (Z.of_nat k * bs) = Z.of_nat (L * k) * bs) as HLbs by nia.
  destruct fine.
  - set (m := Z.to_nat (Z.min (Z.min (Z.of_nat (L * k) + Z.of_nat k - 1) (max_length / bs)) (zlen hs))).
    assert (0 <= max_length / bs) by (apply Z.div_pos; lia).
    assert (forall t, (t <= m)%nat <->
      (t < (L + 1) * k)%nat /\ (t <= length hs)%nat /\ Z.of_nat t * bs <= max_length) as Hm.
    { intros t. unfold m. rewrite <-le_div_iff by done. split; [intros Hle|intros (? & ? & ?)]; nia. }
    assert (Z.of_nat L * Z.of_nat k = Z.of_nat (L * k)) as -> by lia.
    assert (Z.min (Z.min (Z.of_nat (L * k) + Z.of_nat k - 1) (max_length / bs)) (zlen hs) = Z.of_nat m)
      as -> by (unfold m; lia).
    pose proof (proj1 (Hm m) ltac:(lia)) as (Hm1 & Hm2 & Hm3).
    destruct (tail_hit_loop_Ok p xs gids Hinv Hgids hs bs (L * k) m c1 (Z.of_nat L * (Z.of_nat k * bs))
      Hm2) as [[Hr Hno]|(t & cached & Htm & Hlook & Hcl & Hr & Hno)].
    + exists (L * k)%nat, c1, c1. split_and!; [done|done|by rewrite Hr, HLbs| |by rewrite Nat.eqb_refl].
      apply Hmk; [nia|by left|]. intros t _ Ht2 Ht3 Ht4. apply Hno.
      pose proof (proj2 (Hm t)) as Htm. nia.
    + destruct (proj1 (Hm (S t)) ltac:(lia)) as (Ht1' & Ht2' & Ht3').
      exists (S t), c1, (append_hit c1 cached). split_and!; [done|done| | |].
      * rewrite Hr. repeat f_equal. lia.
      * apply Hmk; [lia| |].
        -- right. split; [done|]. unfold is_cached. replace (S t - 1)%nat with t by lia.
           by rewrite Hlook.
        -- intros t' _ Ht5 Ht6 Ht7. apply Hno.
           pose proof (proj2 (Hm t')) as Htm'. nia.
      * destruct (Nat.eqb_spec (S t) (L * k)); [lia|].
        eapply table_ext; [apply table_append; [exact Ht1|done]|]. intros g i _ Hi.
        unfold full_cell, hit_cell. destruct (Nat.eqb_spec i L) as [->|].
        -- rewrite Nat.min_r by lia. replace (S t - 1)%nat with t by lia. by rewrite Hlook.
        -- by rewrite !Nat.min_l by nia.
  - exists (L * k)%nat, c1, c1. split_and!; [done|done|by rewrite HLbs| |by rewrite Nat.eqb_refl].
    apply Hmk; [nia|by left|done].
Qed.

(** The views of the hashes that the search works on. *)
Lemma full_views a :
  a = bs \/ 0 < a /\ a mod (Z.of_nat k * bs) = 0 ->
  let bsz := Z.of_nat k * bs in
  let fine := a <? bsz in
  exists view v,
    resolve_block_hashes (Hashes hs) bs bsz true (Some a) = Ok view /\
    (if a <? bsz then m ← py_mod bsz a; Ok (m =? 0) else Ok false) = Ok fine /\
    (fine = true -> a = bs /\ view = Hashes hs /\ with_block_size_init hs a bsz = Ok v) /\
    (fine = false -> view = v) /\
    hash_list_len v = zlen hs / Z.of_nat k /\
    forall i, 0 <= i ->
      get_value_at v i = or_raise IndexError (hs !! Z.to_nat ((i + 1) * Z.of_nat k - 1)).
Proof.
  intros Ha bsz fine. assert (0 < bsz) as Hbsz by (unfold bsz; nia).
  assert (a <> 0) as Ha0 by (destruct Ha; lia).
  rewrite resolve_aligned by done. unfold fine, py_mod. clear fine.
  destruct (Z.eqb_spec a 0); [done|]. destruct (Z.ltb_spec a bsz) as [Efine|Efine].
  - assert (a = bs) as ->.
    { destruct Ha as [?|[? Hm]]; [done|]. fold bsz in Hm. rewrite Z.mod_small in Hm by lia. lia. }
    assert (bsz mod bs = 0) as Hm by (unfold bsz; by rewrite Z.mod_mul by lia).
    rewrite Hm, Z.eqb_refl. destruct (Z.eqb_spec bsz bs); [lia|]. simpl.
    exists (Hashes hs), (WithBlockSize hs (bsz / bs)). split_and!; try done.
    + intros _. split_and!; try done. unfold with_block_size_init.
      destruct (Z.eqb_spec bs 0); [lia|]. by rewrite Hm.
    + simpl. unfold bsz. by rewrite Z.div_mul by lia.
    + intros i Hi. simpl. unfold bsz. rewrite Z.div_mul by lia. by rewrite py_index_nonneg by nia.
  - rewrite andb_false_r. simpl.
    destruct (resolve_multiple hs bs (Z.of_nat k) Hbs ltac:(lia)) as [v Hv].
    destruct (resolve_Ok_inv hs bs bsz v Hbs Hbsz Hv) as (k' & Hk' & Heq & Hlen & Hget).
    assert (k' = Z.of_nat k) as -> by (unfold bsz in Heq; nia).
    exists v, v. by split_and!.
Qed.

Lemma eagle_bounds (drop : bool) a L F :
  a = bs \/ 0 < a /\ a mod (Z.of_nat k * bs) = 0 ->
  longest_hit p gids hs bs max_length k (a <? Z.of_nat k * bs) L F ->
  0 <= Z.of_nat F * bs - (if drop && (0 <? F)%nat then Z.min a (Z.of_nat k * bs) else 0)
    <= Z.of_nat F * bs.
Proof.
  intros Ha [_ _ ([HF1 HF2] & _) Htail _].
  assert (0 < a) by (destruct Ha; lia). destruct (drop && (0 <? F)%nat) eqn:E; [|nia].
  apply andb_true_iff in E as [_ E%Nat.ltb_lt]. destruct Htail as [HFL|[Hfine _]].
  - assert (1 <= L)%nat by nia. nia.
  - apply Z.ltb_lt in Hfine. destruct Ha as [->|[? Hm]]; [nia|].
    rewrite Z.mod_small in Hm by lia. lia.
Qed.

Lemma full_find_Ok spec a drop dcp :
  pool_hash_block_size p = bs ->
  (if 1 <? dcp then spec_block_size spec * dcp else spec_block_size spec) = Z.of_nat k * bs ->
  a = bs \/ 0 < a /\ a mod (Z.of_nat k * bs) = 0 ->
  is_full_attention (spec_kind spec) || bool_decide (is_Some (chunk_of (spec_kind spec))) = true ->
  exists computed hit L F,
    full_find_longest_cache_hit (Hashes hs) max_length gids p spec drop a dcp = Ok (computed, hit) /\
    longest_hit p gids hs bs max_length k (a <? Z.of_nat k * bs) L F /\
    hit = (let e := Z.of_nat F * bs -
              (if drop && (0 <? F)%nat then Z.min a (Z.of_nat k * bs) else 0) in e - e mod a) /\
    0 <= hit <= Z.of_nat F * bs /\
    table (length gids) computed (Z.to_nat (cdiv hit (Z.of_nat k * bs))) (full_cell p gids hs k F).
Proof.
  intros Hp Hsz Ha Hkind. unfold full_find_longest_cache_hit. rewrite Hkind, Hsz, Hp. simpl.
  set (bsz := Z.of_nat k * bs). assert (0 < bsz) as Hbsz by (unfold bsz; nia).
  pose proof (full_views a Ha) as HV. cbv zeta in HV. fold bsz in HV.
  destruct HV as (view & v & -> & Hf & Hfine & Hcoarse & Hlen & Hget). simpl. rewrite Hf. simpl.
  destruct (full_phases v (a <? bsz) Hlen Hget) as (L & F & c1 & c2 & Hl & Hhead & Hph2 & Hlong & Ht).
  fold bsz in Hl, Hph2.
  assert ((if a <? bsz then match view with
      | Hashes hs => with_block_size_init hs a bsz
      | WithBlockSize _ _ => Raise AssertionError end else Ok view) = Ok v) as ->.
  { destruct (a <? bsz); [|by rewrite Hcoarse]. by destruct (Hfine eq_refl) as (_ & -> & ->). }
  simpl. unfold py_div. destruct (Z.eqb_spec bsz 0); [lia|]. simpl.
  pose proof (Z.div_pos max_length bsz Hmax Hbsz). destruct (Z.ltb_spec (max_length / bsz) 0); [lia|].
  rewrite Hl. simpl. rewrite Hhead. simpl.
  assert ((if a <? bsz then match view with
      | Hashes hs0 => tail_hit_loop p gids hs0 a
          (py_range_down (Z.min (Z.min (Z.of_nat L * (bsz / a) + bsz / a - 1) (max_length / a))
            (zlen hs0) - 1) (Z.of_nat L * (bsz / a) - 1)) c1 (Z.of_nat L * bsz)
      | WithBlockSize _ _ => Raise AssertionError end
    else Ok (c1, Z.of_nat L * bsz)) = Ok (c2, Z.of_nat F * bs)) as ->.
  { destruct (a <? bsz); [|done]. destruct (Hfine eq_refl) as (-> & -> & _). rewrite <-Hph2.
    unfold bsz. by rewrite !Z.div_mul by lia. }
  cbn beta iota zeta delta [mbind result_bind].
  replace (0 <? Z.of_nat F * bs) with (0 <? F)%nat.
  2:{ destruct (Nat.ltb_spec 0 F), (Z.ltb_spec 0 (Z.of_nat F * bs)); try done; nia. }
  set (e := Z.of_nat F * bs - (if drop && (0 <? F)%nat then Z.min a bsz else 0)).
  assert ((if drop && (0 <? F)%nat then Z.of_nat F * bs - Z.min a bsz else Z.of_nat F * bs) = e)
    as -> by (unfold e; destruct (drop && (0 <? F)%nat); lia).
  assert (0 < a) as Ha0 by (destruct Ha; lia). unfold py_mod. destruct (Z.eqb_spec a 0); [lia|].
  simpl. pose proof (eagle_bounds drop a L F Ha Hlong) as He. fold bsz e in He.
  pose proof (Z.mod_pos_bound e a Ha0). pose proof (Z.mod_le e a ltac:(lia) Ha0).
  eexists _, _, L, F. split_and!; [reflexivity|exact Hlong|reflexivity|lia|lia|].
  set (nb := cdiv (e - e mod a) bsz). pose proof (cdiv_nonneg (e - e mod a) bsz Hbsz ltac:(lia)).
  rewrite <-(Z2Nat.id nb) at 1 by done. eapply table_trim; [exact Ht|].
  destruct (lh_range _ _ _ _ _ _ _ _ _ Hlong) as (HF & _ & _).
  destruct (Nat.eqb_spec F (L * k)) as [HFe|].
  - enough (nb <= Z.of_nat L) by lia. apply cdiv_le_iff; [done|]. unfold bsz. nia.
  - enough (nb <= Z.of_nat (S L)) by lia. apply cdiv_le_iff; [done|]. unfold bsz. nia.
Qed.
End FullHit.

(** * Sliding window: the last aligned run of cached blocks *)

Section WindowHit.
Context `{PoolEnv}.
Context (p : BlockPool) (xs : list nat) (gids : list Z).
Context (Hinv : pool_inv p xs) (Hgids : groups_ok gids).
Context (v : BlockHashList) (N : nat) (H0 : nat -> option bytes).
Context (Hview : forall i, (i < N)%nat ->
  exists h, get_value_at v (Z.of_nat i) = Ok h /\ H0 i = Some h).
Context (need : Z) (drop : bool) (bsz a : Z).
Context (Hbsz : 0 < bsz) (Ha : 0 < a).

Let shift : Z := if drop then 1 else 0.

(** A run that ends after block [m] may end a hit: the boundary left after the
    EAGLE pop is a multiple of the alignment. *)
Definition ends_aligned (m : nat) : Prop := ((Z.of_nat m - shift) * bsz) mod a = 0.

(** Among the last [max 1 need] blocks before [m], one from [n] on is missing. *)
Definition window_missing (n m : nat) : Prop :=
  exists j, (n <= j < m)%nat /\ Z.of_nat m - Z.max 1 need <= Z.of_nat j /\
    is_cached p gids (H0 j) = false.

(** The search has looked at blocks [n ..]; the current run is [n .. n + num). *)
Record window_inv (n num : nat) (computed : Computed) : Prop := {
  wi_le : (n + num <= N)%nat;
  wi_table : exists cell, table (length gids) computed N cell /\
    (forall g i, (i < n)%nat -> cell g i = Some null_block) /\
    (forall g i, (n <= i < n + num)%nat -> cell g i = hit_cell p gids (H0 i) g);
  wi_cached i : (n <= i < n + num)%nat -> is_cached p gids (H0 i) = true;
  wi_aligned : (0 < num)%nat -> ends_aligned (n + num);
  wi_best m : (n + num < m <= N)%nat -> ends_aligned m -> window_missing n m
}.

Lemma window_missing_mono n n' m : (n' <= n)%nat -> window_missing n m -> window_missing n' m.
Proof. clear. intros Hn (j & Hj & ? & ?). exists j. split_and!; try done. lia. lia. Qed.

Lemma window_miss i num computed :
  num = 0%nat \/ Z.of_nat num < need -> is_cached p gids (H0 i) = false ->
  window_inv (S i) num computed -> window_inv i 0 computed.
Proof.
  intros Hnum Hu [Hle (cell & Ht & Hnull & _) _ _ Hbest]. split; try lia.
  - exists cell. split_and!; [done| |intros; lia]. intros g j Hj. apply Hnull. lia.
  - intros m Hm Hal. destruct (decide (S i + num < m)%nat) as [Hlt|Hge].
    + eapply window_missing_mono; [|apply Hbest; [lia|done]]. lia.
    + exists i. split_and!; [lia|lia|lia|done].
Qed.

Lemma window_skip i computed :
  ~ ends_aligned (S i) -> window_inv (S i) 0 computed -> window_inv i 0 computed.
Proof.
  intros Hna [Hle (cell & Ht & Hnull & _) _ _ Hbest]. split; try lia.
  - exists cell. split_and!; [done| |intros; lia]. intros g j Hj. apply Hnull. lia.
  - intros m Hm Hal. destruct (decide (m = S i)) as [->|]; [done|].
    eapply window_missing_mono; [|apply Hbest; [lia|done]]. lia.
Qed.

Lemma window_hit i num computed cached :
  lookup_hash p gids (H0 i) = Some cached -> length cached = length gids ->
  (num = 0%nat -> ends_aligned (S i)) ->
  window_inv (S i) num computed -> window_inv i (S num) (store_hit i computed cached).
Proof.
  intros Hlook Hlen Hal0 [Hle (cell & Ht & Hnull & Hhit) Hc Hal Hbest]. split.
  - lia.
  - eexists. split_and!; [apply table_store; [exact Ht|done|lia]|..].
    + intros g j Hj. simpl. destruct (Nat.eqb_spec j i); [lia|]. apply Hnull. lia.
    + intros g j Hj. simpl. destruct (Nat.eqb_spec j i) as [->|]; [|apply Hhit; lia].
      unfold hit_cell. by rewrite Hlook.
  - intros j Hj. destruct (decide (j = i)) as [->|]; [|apply Hc; lia].
    unfold is_cached. by rewrite Hlook.
  - intros _. replace (i + S num)%nat with (S i + num)%nat by lia.
    destruct num; [|apply Hal; lia]. rewrite Nat.add_0_r. auto.
  - intros m Hm Hm'. eapply window_missing_mono; [|apply Hbest; [lia|done]]. lia.
Qed.

(** What the search returns: a run [s .. s + num), long enough, or the prefix. *)
Definition window_result (r : result (Computed * Z * bool)) : Prop :=
  exists (s num : nat) computed (found : bool),
    r = Ok (computed, Z.of_nat num, found) /\
    table (length gids) computed (if found then s + num else N)%nat
      (fun g i => if (i <? s)%nat then Some null_block else
                  if (i <? s + num)%nat then hit_cell p gids (H0 i) g else
                  match computed !! g with Some c => c !! i | None => None end) /\
    (s + num <= N)%nat /\
    (forall i, (s <= i < s + num)%nat -> is_cached p gids (H0 i) = true) /\
    ((0 < num)%nat -> ends_aligned (s + num)) /\
    (forall m, (s + num < m <= N)%nat -> ends_aligned m -> window_missing s m) /\
    (if found then (0 < num)%nat /\ need <= Z.of_nat num
     else s = 0%nat /\ (num = 0%nat \/ Z.of_nat num < need)).

Lemma window_inv_table n num computed :
  window_inv n num computed ->
  table (length gids) computed N
    (fun g i => if (i <? n)%nat then Some null_block else
                if (i <? n + num)%nat then hit_cell p gids (H0 i) g else
                match computed !! g with Some c => c !! i | None => None end).
Proof.
  intros [_ (cell & [Hl Ht] & Hnull & Hhit) _ _ _]. split; [done|]. intros g c Hg.
  destruct (Ht g c Hg) as [Hn Hi]. split; [done|]. intros i Hin.
  destruct (Nat.ltb_spec i n); [rewrite Hi by done; by apply Hnull|].
  destruct (Nat.ltb_spec i (n + num)); [rewrite Hi by done; apply Hhit; lia|]. by rewrite Hg.
Qed.

Lemma ends_aligned_test (i num : nat) :
  exists unaligned : bool,
    (if (Z.of_nat num =? 0) && negb (bsz =? a)
     then m ← py_mod ((if drop then Z.of_nat i else Z.of_nat i + 1) * bsz) a; Ok (negb (m =? 0))
     else Ok false) = Ok unaligned /\
    if unaligned then num = 0%nat /\ ~ ends_aligned (S i)
    else num = 0%nat -> ends_aligned (S i).
Proof.
  unfold ends_aligned, shift, py_mod. destruct (Z.eqb_spec a 0); [lia|].
  replace (Z.of_nat (S i) - (if drop then 1 else 0)) with (if drop then Z.of_nat i else Z.of_nat i + 1)
    by (destruct drop; lia).
  set (x := if drop then _ else _).
  destruct (Z.eqb_spec (Z.of_nat num) 0), (Z.eqb_spec bsz a) as [->|]; simpl;
    try (exists false; split; [done|]; lia).
  - exists false. split; [done|]. intros _. by apply Z.mod_mul.
  - exists (negb ((x * bsz) mod a =? 0)). split; [done|].
    destruct (Z.eqb_spec ((x * bsz) mod a) 0); simpl; [done|]. split; [lia|done].
Qed.

Lemma window_loop_Ok n : forall num computed,
  num = 0%nat \/ Z.of_nat num < need -> window_inv n num computed ->
  window_result (window_loop p gids v need drop bsz a n computed (Z.of_nat num)).
Proof.
  induction n as [|i IH]; intros num computed Hnum Hw.
  - exists 0%nat, num, computed, false. pose proof (window_inv_table _ _ _ Hw).
    destruct Hw. by split_and!.
  - simpl. pose proof (wi_le _ _ _ Hw) as Hle. destruct (Hview i ltac:(lia)) as (h & -> & Hh). simpl.
    destruct (get_cached_block_total p xs gids Hinv Hgids h) as (-> & Htr & Hlen). simpl. rewrite Htr.
    destruct (cached_blocks p gids h) as [cached|] eqn:Eb.
    + assert (lookup_hash p gids (H0 i) = Some cached) as Hlook
        by (unfold lookup_hash; by rewrite Hh).
      destruct (ends_aligned_test i num) as ([] & -> & Htest); simpl.
      * destruct Htest as [-> Hna]. apply (IH 0%nat); [by left|]. by apply window_skip.
      * pose proof (window_hit i num computed cached Hlook (Hlen _ eq_refl) Htest Hw) as Hw'.
        replace (Z.of_nat num + 1) with (Z.of_nat (S num)) by lia.
        destruct (Z.leb_spec need (Z.of_nat (S num))); [|apply IH; [by right|done]].
        pose proof (window_inv_table _ _ _ Hw') as Ht. destruct Hw' as [Hle' _ Hc Hal Hbest].
        exists i, (S num), (trim (Z.of_nat (i + S num)) (store_hit i computed cached)), true.
        replace (Z.of_nat i + Z.of_nat (S num)) with (Z.of_nat (i + S num)) by lia.
        split_and!; try done; try lia.
        eapply table_ext; [eapply table_trim; [exact Ht|lia]|]. intros g j _ Hj. simpl.
        destruct (Nat.ltb_spec j i); [done|]. destruct (Nat.ltb_spec j (i + S num)); [done|lia].
    + apply (IH 0%nat); [by left|]. eapply window_miss; [exact Hnum| |exact Hw].
      unfold is_cached, lookup_hash. by rewrite Hh, Eb.
Qed.
End WindowHit.

Section WindowFind.
Context `{PoolEnv}.
Context (p : BlockPool) (xs : list nat) (gids : list Z).
Context (Hinv : pool_inv p xs) (Hgids : groups_ok gids).
Context (bsz a : Z) (Hbsz : 0 < bsz) (Ha : 0 < a).

Lemma align_loop_Ok fuel n computed cell :
  (n < fuel)%nat -> table (length gids) computed n cell ->
  exists n' computed', align_loop fuel bsz a computed = Ok computed' /\
    table (length gids) computed' n' cell /\ (n' <= n)%nat /\ (Z.of_nat n' * bsz) mod a = 0 /\
    ((Z.of_nat n * bsz) mod a = 0 -> n' = n).
Proof.
  revert n computed. induction fuel as [|fuel IH]; intros n computed Hn Ht; [lia|].
  simpl. destruct (Z.eqb_spec bsz a) as [->|Hne].
  { exists n, computed. split_and!; try done. by apply Z.mod_mul; lia. }
  destruct (table_head _ _ _ _ (groups_pos gids Hgids) Ht) as [-> _].
  cbn beta iota zeta delta [mbind result_bind].
  unfold py_mod. destruct (Z.eqb_spec a 0); [lia|]. simpl.
  destruct (Z.eqb_spec ((Z.of_nat n * bsz) mod a) 0) as [Hm|Hm].
  { exists n, computed. by split_and!. }
  destruct n as [|n]; [by rewrite Z.mul_0_l, Z.mod_0_l in Hm by lia|].
  destruct (table_pop _ _ _ _ Ht) as (c' & -> & Ht'). simpl.
  destruct (IH n c' ltac:(lia) Ht') as (n' & c'' & -> & Ht'' & Hn' & Hal & _).
  exists n', c''. split_and!; try done; lia.
Qed.

Lemma align_blocks_Ok n computed cell :
  table (length gids) computed n cell ->
  exists n' computed', align_blocks bsz a computed = Ok computed' /\
    table (length gids) computed' n' cell /\ (n' <= n)%nat /\ (Z.of_nat n' * bsz) mod a = 0 /\
    ((Z.of_nat n * bsz) mod a = 0 -> n' = n).
Proof.
  intros Ht. unfold align_blocks. apply align_loop_Ok; [|done].
  destruct (table_head _ _ _ _ (groups_pos gids Hgids) Ht) as [_ ->]. lia.
Qed.

(** The EAGLE pop after the search. *)
Definition eagle_pop (computed : Computed) : result Computed :=
  n ← head_len computed;
  if n =? 0 then Ok computed else computed ← pop_each computed; align_blocks bsz a computed.

Lemma eagle_pop_Ok n computed cell :
  table (length gids) computed n cell ->
  exists n' computed', eagle_pop computed = Ok computed' /\
    table (length gids) computed' n' cell /\ (n' <= n - 1)%nat /\ (Z.of_nat n' * bsz) mod a = 0 /\
    (((Z.of_nat n - 1) * bsz) mod a = 0 -> n' = (n - 1)%nat).
Proof.
  intros Ht. unfold eagle_pop. destruct (table_head _ _ _ _ (groups_pos gids Hgids) Ht) as [-> _].
  cbn beta iota zeta delta [mbind result_bind].
  destruct (Z.eqb_spec (Z.of_nat n) 0) as [Hn|Hn].
  { exists n, computed. assert (n = 0%nat) as -> by lia. split_and!; done. }
  destruct n as [|n]; [lia|]. destruct (table_pop _ _ _ _ Ht) as (c' & -> & Ht'). simpl mbind.
  destruct (align_blocks_Ok n c' cell Ht') as (n' & c'' & ? & ? & ? & ? & Hex).
  exists n', c''. split_and!; try done; try lia.
  intros Hm. replace (S n - 1)%nat with n by lia. apply Hex.
  by replace (Z.of_nat n) with (Z.of_nat (S n) - 1) by lia.
Qed.

(** What the sliding-window search reports: [n] blocks, the first [s] null. *)
Record window_hit_result (hash : nat -> option bytes) (N : nat) (w : Z) (drop : bool)
    (computed : Computed) (n s : nat) : Prop := {
  wr_range : (n <= if drop then N - 1 else N)%nat /\ (s <= n)%nat;
  wr_aligned : (Z.of_nat n * bsz) mod a = 0;
  wr_table : table (length gids) computed n
    (fun g i => if (i <? s)%nat then Some null_block else hit_cell p gids (hash i) g);
  wr_cached i : (s <= i < n)%nat -> is_cached p gids (hash i) = true;
  wr_skipped : Z.of_nat s <= sliding_num_skipped_tokens w (Z.of_nat n * bsz) / bsz;
  wr_longest m : drop = false \/ bsz = a ->
    let m' := if drop then S m else m in
    (n < m)%nat -> (m' <= N)%nat -> (Z.of_nat m * bsz) mod a = 0 ->
    window_missing p gids hash (contiguous_blocks_for_hit w bsz drop) 0 m'
}.

Lemma window_skipped (s num n : nat) w (drop : bool) :
  1 <= w -> contiguous_blocks_for_hit w bsz drop <= Z.of_nat num ->
  n = (s + num - (if drop then 1 else 0))%nat ->
  Z.of_nat s <= sliding_num_skipped_tokens w (Z.of_nat n * bsz) / bsz.
Proof.
  intros Hw Hneed ->. unfold sliding_num_skipped_tokens, contiguous_blocks_for_hit in *.
  apply le_div_iff; [done|]. pose proof (cdiv_bounds (w - 1) bsz Hbsz).
  pose proof (cdiv_nonneg (w - 1) bsz Hbsz ltac:(lia)). destruct drop; nia.
Qed.

(** The common end of the two cases of the search. *)
Lemma window_finish hash N w drop need (s num : nat) c1 c2 (found : bool) cell :
  1 <= w -> need = contiguous_blocks_for_hit w bsz drop ->
  table (length gids) c1 (if found then s + num else N)%nat
    (fun g i => if (i <? s)%nat then Some null_block else
                if (i <? s + num)%nat then hit_cell p gids (hash i) g else cell g i) ->
  (s + num <= N)%nat ->
  (forall i, (s <= i < s + num)%nat -> is_cached p gids (hash i) = true) ->
  ((0 < num)%nat -> ends_aligned drop bsz a (s + num)) ->
  (forall m, (s + num < m <= N)%nat -> ends_aligned drop bsz a m ->
     window_missing p gids hash need s m) ->
  (if found then (0 < num)%nat /\ need <= Z.of_nat num
   else s = 0%nat /\ (num = 0%nat \/ Z.of_nat num < need)) ->
  (if found then Ok c1 else align_blocks bsz a (trim (Z.of_nat num) c1)) = Ok c2 ->
  exists c3 n s', (if drop then eagle_pop c2 else Ok c2) = Ok c3 /\
    window_hit_result hash N w drop c3 n s'.
Proof.
  intros Hw Hneed Ht Hle Hc Hal Hbest Hfound Hc2.
  pose (cellf := fun g i => if (i <? s)%nat then Some null_block else hit_cell p gids (hash i) g).
  assert (exists n2, table (length gids) c2 n2 cellf /\ (n2 <= s + num)%nat /\
    (found = true \/ drop = false \/ bsz = a -> n2 = (s + num)%nat) /\
    (drop = false -> (Z.of_nat n2 * bsz) mod a = 0)) as (n2 & Ht2 & Hn2 & Heq2 & Hal2).
  { destruct found.
    - injection Hc2 as <-. exists (s + num)%nat. split_and!; [|lia|done|].
      + eapply table_ext; [exact Ht|]. intros g i _ Hi. simpl. unfold cellf.
        destruct (Nat.ltb_spec i s); [done|]. by destruct (Nat.ltb_spec i (s + num)); [|lia].
      + intros ->. destruct Hfound as [Hn _]. specialize (Hal Hn). unfold ends_aligned in Hal.
        by rewrite Z.sub_0_r in Hal.
    - destruct Hfound as [-> _]. simpl in *.
      destruct (align_blocks_Ok num (trim (Z.of_nat num) c1) cellf) as (n2 & c & Hc' & Htc & Hle2 & Hm & Hex).
      { eapply table_ext; [eapply table_trim; [exact Ht|lia]|]. intros g i _ Hi. simpl. unfold cellf.
        simpl. by destruct (Nat.ltb_spec i num); [|lia]. }
      rewrite Hc' in Hc2. injection Hc2 as <-. exists n2. split_and!; [done|lia| |done].
      intros Hor. apply Hex. destruct Hor as [|[->|Heq]]; [done| |].
      + destruct num; [by rewrite Z.mul_0_l, Z.mod_0_l by lia|].
        specialize (Hal ltac:(lia)). unfold ends_aligned in Hal. by rewrite Z.sub_0_r in Hal.
      + rewrite Heq. by apply Z.mod_mul; lia. }
  destruct drop.
  - destruct (eagle_pop_Ok n2 c2 cellf Ht2) as (n3 & c3 & Hpop & Ht3 & Hn3 & Hal3 & Hex3).
    exists c3, n3, s. split; [done|].
    assert (found = true \/ bsz = a -> (0 < num)%nat -> n3 = (s + num - 1)%nat) as Hn3'.
    { intros Hor Hnum. rewrite Heq2 in Hex3 by tauto. apply Hex3. specialize (Hal Hnum).
      unfold ends_aligned in Hal. by rewrite Nat2Z.inj_add in *. }
    assert ((s <= n3)%nat) as Hs3.
    { destruct found; [|destruct Hfound; lia]. destruct Hfound. rewrite Hn3' by (tauto || lia). lia. }
    split; [lia|done|exact Ht3| | |].
    + intros i Hi. apply Hc. lia.
    + destruct found; [|destruct Hfound as [-> _]; simpl; apply le_div_iff;
        unfold sliding_num_skipped_tokens; lia].
      destruct Hfound as [Hnum Hneed2]. eapply (window_skipped s num _ w true); [done|by rewrite <-Hneed|].
      apply Hn3'; tauto.
    + intros m [?|Hba] m' Hnm Hm' Hmal; [done|]. cbn in m'; subst m'. rewrite <-Hneed.
      apply (window_missing_mono p gids hash need s); [lia|]; apply Hbest.
      * destruct (decide (num = 0)%nat); [destruct found; destruct Hfound; lia|].
        rewrite Hn3' in Hnm by (tauto || lia). lia.
      * unfold ends_aligned. by replace (Z.of_nat (S m) - 1) with (Z.of_nat m) by lia.
  - exists c2, n2, s. split; [done|]. specialize (Heq2 ltac:(tauto)). subst n2.
    split; [lia|by apply Hal2|exact Ht2| | |].
    + intros i Hi. apply Hc. lia.
    + destruct found; [|destruct Hfound as [-> _]; simpl; apply le_div_iff;
        unfold sliding_num_skipped_tokens; lia].
      destruct Hfound as [Hnum Hneed2]. eapply (window_skipped s num _ w false); [done|by rewrite <-Hneed|lia].
    + intros m _ m' Hnm Hm' Hmal. cbn in m'; subst m'. rewrite <-Hneed.
      apply (window_missing_mono p gids hash need s); [lia|]; apply Hbest; [lia|].
      unfold ends_aligned. by rewrite Z.sub_0_r.
Qed.

Context (hs : list bytes) (k : nat) (max_length : Z).
Context (Hk : (0 < k)%nat) (Hbs : 0 < pool_hash_block_size p).
Context (Hsz : bsz = Z.of_nat k * pool_hash_block_size p) (Hmax : 0 <= max_length).
Context (Hlen : max_length / bsz * Z.of_nat k <= zlen hs).

(** The view of the hashes at the block size. *)
Lemma window_view : exists v,
  resolve_block_hashes (Hashes hs) (pool_hash_block_size p) bsz false (Some a) = Ok v /\
  forall i, (i < Z.to_nat (max_length / bsz))%nat -> exists h,
    get_value_at v (Z.of_nat i) = Ok h /\ hs !! ((i + 1) * k - 1)%nat = Some h.
Proof.
  rewrite resolve_aligned, andb_false_r by lia. simpl.
  destruct (resolve_multiple hs (pool_hash_block_size p) (Z.of_nat k) Hbs ltac:(lia)) as [v Hv].
  rewrite <-Hsz in Hv.
  destruct (resolve_Ok_inv hs (pool_hash_block_size p) bsz v Hbs Hbsz Hv) as (k' & Hk' & Heq & _ & Hget).
  assert (k' = Z.of_nat k) as -> by nia. exists v. split; [done|]. intros i Hi.
  destruct (lookup_lt_is_Some_2 hs ((i + 1) * k - 1)%nat) as [h Hh]; [nia|].
  exists h. split; [|done]. rewrite Hget by lia.
  replace (Z.to_nat _) with ((i + 1) * k - 1)%nat by nia. by rewrite Hh.
Qed.

Lemma window_find_Ok spec w drop :
  window_of (spec_kind spec) = Some w -> 1 <= w -> spec_block_size spec = bsz -> a mod bsz = 0 ->
  exists computed n s,
    window_find_longest_cache_hit (Hashes hs) max_length gids p spec drop a 1 1 =
      Ok (computed, Z.of_nat n * bsz) /\
    window_hit_result (fun i => hs !! ((i + 1) * k - 1)%nat) (Z.to_nat (max_length / bsz)) w drop
      computed n s.
Proof.
  intros Hwin Hw Hspec Hab. unfold window_find_longest_cache_hit. rewrite Hwin, Hspec. simpl.
  unfold py_mod. destruct (Z.eqb_spec bsz 0); [lia|]. simpl. rewrite Hab. simpl.
  destruct window_view as (v & -> & Hview). simpl.
  set (N := Z.to_nat (max_length / bsz)) in *. set (need := contiguous_blocks_for_hit w bsz drop).
  destruct (window_loop_Ok p xs gids Hinv Hgids v N (fun i => hs !! ((i + 1) * k - 1)%nat) Hview need
    drop bsz a Hbsz Ha N 0 (replicate (length gids) (replicate N null_block)))
    as (s & num & c1 & found & Hr & Ht & Hle & Hc & Hal & Hbest & Hfound).
  { by left. }
  { split; try lia. exists (fun _ _ => Some null_block).
    split_and!; [apply table_replicate|done|lia]. }
  change (Z.of_nat 0) with 0 in Hr. rewrite Hr. cbn beta iota zeta delta [mbind result_bind].
  destruct (if found then Ok c1 else align_blocks bsz a (trim (Z.of_nat num) c1)) as [c2|e] eqn:Hc2.
  2:{ exfalso. destruct found; [done|]. destruct Hfound as [-> _].
      edestruct (align_blocks_Ok num (trim (Z.of_nat num) c1)) as (? & ? & Hok & _);
        [eapply table_trim; [exact Ht|lia]|]. congruence. }
  cbn beta iota zeta delta [mbind result_bind].
  destruct (window_finish _ N w drop need s num c1 c2 found _ Hw eq_refl Ht Hle Hc Hal Hbest Hfound Hc2)
    as (c3 & n3 & s' & Hpop & Hres).
  unfold eagle_pop in Hpop. rewrite Hpop. simpl.
  destruct (table_head _ _ _ _ (groups_pos gids Hgids) (wr_table _ _ _ _ _ _ _ Hres)) as [-> _].
  simpl. by exists c3, n3, s'.
Qed.

(** * Chunked local attention *)

Lemma chunked_start chunk :
  0 < chunk -> chunk mod bsz = 0 ->
  let start := max_length / chunk * chunk / bsz in
  0 <= start <= max_length / bsz /\
  forall n, start <= n -> start <= chunked_num_skipped_tokens chunk (n * bsz) / bsz.
Proof.
  intros Hc Hm start. assert (exists c, chunk = c * bsz /\ 0 < c) as (c & -> & Hc0).
  { exists (chunk / bsz). pose proof (Z.div_mod chunk bsz ltac:(lia)). split; nia. }
  assert (start = max_length / (c * bsz) * c) as Hs.
  { unfold start. by rewrite Z.mul_assoc, Z.div_mul by lia. }
  pose proof (Z.div_pos max_length (c * bsz) Hmax ltac:(lia)).
  rewrite Hs. split.
  - split; [nia|]. apply le_div_iff; [done|].
    pose proof (Z.mul_div_le max_length (c * bsz) ltac:(lia)). nia.
  - intros n Hn. unfold chunked_num_skipped_tokens.
    rewrite Z.mul_assoc, Z.div_mul by lia. apply Z.mul_le_mono_nonneg_r; [lia|].
    apply le_div_iff; [lia|]. nia.
Qed.

Lemma chunked_find_Ok spec chunk :
  chunk_of (spec_kind spec) = Some chunk -> spec_block_size spec = bsz -> bsz = a ->
  0 < chunk -> chunk mod bsz = 0 ->
  let N := Z.to_nat (max_length / bsz) in
  let start := Z.to_nat (max_length / chunk * chunk / bsz) in
  exists computed (n : nat),
    chunked_find_longest_cache_hit (Hashes hs) max_length gids p spec false a 1 1 =
      Ok (computed, Z.of_nat n * bsz) /\
    (start <= n <= N)%nat /\
    table (length gids) computed n (fun g i => if (i <? start)%nat then Some null_block
                                       else hit_cell p gids (hs !! ((i + 1) * k - 1)%nat) g) /\
    (forall i, (start <= i < n)%nat -> is_cached p gids (hs !! ((i + 1) * k - 1)%nat) = true) /\
    ((n < N)%nat -> is_cached p gids (hs !! ((n + 1) * k - 1)%nat) = false) /\
    Z.of_nat start <= chunked_num_skipped_tokens chunk (Z.of_nat n * bsz) / bsz.
Proof.
  intros Hchunk Hspec Hba Hc Hcm N start. unfold chunked_find_longest_cache_hit.
  rewrite Hchunk, Hspec. simpl. rewrite (proj2 (Z.eqb_eq bsz a) Hba). simpl.
  destruct window_view as (v & -> & Hview). simpl. unfold py_div.
  destruct (Z.eqb_spec bsz 0); [lia|]. destruct (Z.eqb_spec chunk 0); [lia|]. simpl.
  assert ((if 0 <? max_length then Ok (max_length / chunk * chunk) else Ok 0)
    = Ok (max_length / chunk * chunk)) as ->.
  { destruct (Z.ltb_spec 0 max_length); [done|].
    assert (max_length = 0) as -> by lia. by rewrite Z.div_0_l by lia. }
  simpl. destruct (chunked_start chunk Hc Hcm) as [[Hs0 HsN] Hskip].
  destruct (full_hit_loop_Ok p xs gids Hinv Hgids v (fun i => hs !! ((i + 1) * k - 1)%nat) start N
    (replicate (length gids) (replicate start null_block)) (fun _ _ => Some null_block))
    as (n3 & c & Hl & Hn & Ht & Hc' & Hu).
  { lia. }
  { intros i Hi. apply Hview. lia. }
  { apply table_replicate. }
  unfold N, start in Hl. rewrite !Z2Nat.id in Hl by lia. rewrite Hl. simpl.
  destruct (table_head _ _ _ _ (groups_pos gids Hgids) Ht) as [-> _]. simpl.
  exists c, n3. split_and!; try done; try lia.
  unfold start. rewrite Z2Nat.id by lia. apply Hskip. lia.
Qed.
End WindowFind.

(** * The mask *)

Lemma py_div_Ok a b : b <> 0 -> py_div a b = Ok (a / b).
Proof. intros Hb. unfold py_div. by destruct (Z.eqb_spec b 0). Qed.

Lemma mark_spec start test idxs mask i :
  (forall j, j ∈ idxs -> start <= j) ->
  length (mark start test idxs mask) = length mask /\
  (mark start test idxs mask !! i = Some true <->
   mask !! i = Some true \/
   (i < length mask)%nat /\ start + Z.of_nat i ∈ idxs /\ test (start + Z.of_nat i) = true).
Proof.
  unfold mark. revert mask. induction idxs as [|j idxs IH]; intros mask Hj; cbn [fold_left].
  { split; [done|]. rewrite elem_of_nil. tauto. }
  assert (start <= j) as Hsj by (apply Hj; set_solver).
  destruct (IH (if test j then <[Z.to_nat (j - start) := true]> mask else mask)) as [Hlen Hiff];
    [set_solver|].
  rewrite Hlen, Hiff. destruct (test j) eqn:Et.
  2:{ split; [done|]. rewrite elem_of_cons. naive_solver congruence. }
  rewrite length_insert. split; [done|]. rewrite elem_of_cons.
  destruct (decide (Z.to_nat (j - start) = i)) as [<-|Hne].
  - replace (start + Z.of_nat (Z.to_nat (j - start))) with j by lia.
    destruct (decide (Z.to_nat (j - start) < length mask)%nat) as [Hlt|Hge].
    + rewrite list_lookup_insert_eq by done. tauto.
    + rewrite list_insert_ge by lia. tauto.
  - rewrite list_lookup_insert_ne by done. split; [tauto|].
    intros [?|(? & [Heq|?] & ?)]; [tauto| |tauto]. exfalso. apply Hne. lia.
Qed.

(** Block [i] is among the [need] blocks that end [shift] blocks after block
    boundary [b]: the blocks a hit of [b] blocks looks at. *)
Definition tail_block (need shift b i : Z) : Prop := b + shift - need <= i < b + shift.

Lemma segment_tail need shift per i :
  0 <= need < per ->
  (shift <= i /\ per - need <= (i - shift) mod per) <->
  exists q, 1 <= q /\ tail_block need shift (q * per) i.
Proof.
  intros Hneed. unfold tail_block. split.
  - intros [Hi Hm]. exists ((i - shift) / per + 1).
    pose proof (Z.div_mod (i - shift) per ltac:(lia)).
    pose proof (Z.mod_pos_bound (i - shift) per ltac:(lia)).
    pose proof (Z.div_pos (i - shift) per ltac:(lia) ltac:(lia)). split; [lia|nia].
  - intros (q & Hq & Hlo & Hhi).
    rewrite <-(Z.mod_unique_pos (i - shift) per (q - 1) (i - shift - (q - 1) * per)) by nia.
    split; nia.
Qed.

Lemma boundary_marks start end_ a bsz need shift bds mask i :
  a <> 0 -> start + zlen mask = end_ ->
  exists mask',
    for_each (fun boundary_tokens mask =>
        q ← py_div boundary_tokens a;
        let e := q * a / bsz + shift in
        Ok (mark start (fun _ => true) (py_range (Z.max start (e - need)) (Z.min end_ e)) mask))
      bds mask = Ok mask' /\ length mask' = length mask /\
    ((i < length mask)%nat -> mask' !! i = Some true <-> mask !! i = Some true \/
      exists b, b ∈ bds /\ tail_block need shift (b / a * a / bsz) (start + Z.of_nat i)).
Proof.
  intros Ha. revert mask. induction bds as [|b bds IH]; intros mask Hlen; cbn [for_each].
  { exists mask. split_and!; [done|done|]. intros _. split; [by left|].
    intros [?|(b & Hb & _)]; [done|]. by apply elem_of_nil in Hb. }
  rewrite py_div_Ok by done. cbn [mbind result_bind].
  set (e := b / a * a / bsz + shift).
  destruct (mark_spec start (fun _ => true) (py_range (Z.max start (e - need)) (Z.min end_ e)) mask i)
    as [Hl Hiff].
  { intros j Hj%elem_of_py_range. lia. }
  destruct (IH (mark start (fun _ => true) (py_range (Z.max start (e - need)) (Z.min end_ e)) mask))
    as (mask' & Hf & Hl' & Hiff'); [by rewrite Hl|].
  exists mask'. split_and!; [exact Hf|congruence|]. intros Hi.
  rewrite Hiff' by congruence. rewrite Hiff, elem_of_py_range.
  unfold tail_block in *. setoid_rewrite elem_of_cons. split.
  - intros [[?|(_ & Hr & _)]|(b' & Hb' & Ht)]; [by left| |right; exists b'; tauto].
    right. exists b. split; [by left|]. fold e. lia.
  - intros [?|(b' & [->|Hb'] & Ht)]; [by do 2 left| |right; by exists b'].
    left. right. fold e in Ht. split_and!; [done|lia|lia|done].
Qed.

(** The boundaries the mask serves: every segment end, and under sparse retention
    each requested token position rounded down to the alignment. *)
Definition segment_size (retention_interval : option Z) (a : Z) : option Z :=
  match retention_interval with
  | None => Some a
  | Some r => if r =? 0 then None else Some r
  end.

Definition kept_boundary (ri : option Z) (a bsz : Z) (bds : list Z) (b : Z) : Prop :=
  (exists t q, segment_size ri a = Some t /\ 1 <= q /\ b = q * (t / bsz)) \/
  (ri <> None /\ exists x, x ∈ bds /\ b = x / a * a / bsz).

Section Mask.
Context (start end_ a bsz w : Z) (spec : KVCacheSpec) (eagle : bool) (ri : option Z) (bds : list Z).
Context (Hbsz : 0 < bsz) (Ha : 0 < a) (Hab : a mod bsz = 0) (Hw : 1 <= w) (Hse : 0 <= start <= end_).
Context (Hspec : spec_block_size spec = bsz) (Hwin : window_of (spec_kind spec) = Some w).

Let need := contiguous_blocks_for_hit w bsz eagle.
Let shift := if eagle then 1 else 0.

Lemma window_mask_Ok :
  match window_reachable_block_mask start end_ (Some a) spec eagle ri bds with
  | Raise _ => False
  | Ok None => exists t, segment_size ri a = Some t /\ t / bsz <= need
  | Ok (Some mask) => zlen mask = end_ - start /\
      forall i, start <= i < end_ ->
        mask !! Z.to_nat (i - start) = Some true <->
        exists b, kept_boundary ri a bsz bds b /\ tail_block need shift b i
  end.
Proof.
  unfold window_reachable_block_mask. rewrite Hwin, Hspec. simpl. unfold py_mod.
  destruct (Z.eqb_spec bsz 0); [lia|]. simpl. rewrite Hab. simpl. fold need shift.
  assert (0 <= need) as Hneed.
  { unfold need, contiguous_blocks_for_hit. pose proof (cdiv_nonneg (w - 1) bsz Hbsz ltac:(lia)).
    destruct eagle; lia. }
  set (mask0 := replicate (Z.to_nat (end_ - start)) false).
  assert (zlen mask0 = end_ - start) as Hl0 by (unfold mask0; rewrite length_replicate; lia).
  assert (forall i, mask0 !! i <> Some true) as Hm0.
  { intros i Hi. unfold mask0 in Hi. by apply lookup_replicate in Hi as [? _]. }
  fold (segment_size ri a).
  assert (forall mask1 : list bool, zlen mask1 = end_ - start ->
    (forall i, start <= i < end_ -> mask1 !! Z.to_nat (i - start) = Some true <->
      exists t q, segment_size ri a = Some t /\ 1 <= q /\ tail_block need shift (q * (t / bsz)) i) ->
    match match ri with
      | None => Ok (Some mask1)
      | Some _ => mask ← for_each (fun boundary_tokens mask =>
            q ← py_div boundary_tokens a;
            Ok (mark start (fun _ => true) (py_range (Z.max start (q * a / bsz + shift - need))
              (Z.min end_ (q * a / bsz + shift))) mask)) bds mask1; Ok (Some mask)
      end with
    | Raise _ => False
    | Ok None => exists t, segment_size ri a = Some t /\ t / bsz <= need
    | Ok (Some mask) => zlen mask = end_ - start /\
        forall i, start <= i < end_ ->
          mask !! Z.to_nat (i - start) = Some true <->
          exists b, kept_boundary ri a bsz bds b /\ tail_block need shift b i
    end) as Hfin.
  { intros mask1 Hl1 Hm1. unfold kept_boundary. destruct ri as [r|] eqn:Eri.
    - edestruct (boundary_marks start end_ a bsz need shift bds mask1 0) as (mask' & Hf & Hl' & _);
        [lia|lia|].
      cbv zeta in Hf. rewrite Hf. simpl. split; [lia|]. intros i Hi.
      destruct (boundary_marks start end_ a bsz need shift bds mask1 (Z.to_nat (i - start)))
        as (mask2 & Hf2 & _ & Hiff); [lia|lia|].
      cbv zeta in Hf2. rewrite Hf in Hf2. injection Hf2 as <-. rewrite Hiff by lia.
      replace (start + Z.of_nat (Z.to_nat (i - start))) with i by lia. rewrite Hm1 by done.
      split.
      + intros [(t & q & ? & ? & ?)|(x & ? & ?)]; eexists; (split; [|eassumption]).
        * left. eauto.
        * right. split; [done|]. eauto.
      + intros (b & [(t & q & ? & ? & ->)|(_ & x & ? & ->)] & ?); [left|right]; eauto.
    - split; [done|]. intros i Hi. rewrite Hm1 by done. split.
      + intros (t & q & ? & ? & ?). eexists. split; [|eassumption]. left. eauto.
      + intros (b & [(t & q & ? & ? & ->)|(? & _)] & ?); [|done]. eauto. }
  destruct (segment_size ri a) as [t|] eqn:Et.
  - destruct (Z.leb_spec (t / bsz) need); [by eauto|].
    apply Hfin.
    + edestruct (mark_spec start) with (i := 0%nat) as [-> _]; [|done]. intros j Hj%elem_of_py_range. lia.
    + intros i Hi. edestruct (mark_spec start) as [_ ->].
      { intros j Hj%elem_of_py_range. lia. }
      replace (start + Z.of_nat (Z.to_nat (i - start))) with i by lia.
      rewrite elem_of_py_range, andb_true_iff, !Z.leb_le, (segment_tail need shift (t / bsz) i) by lia.
      split.
      * intros [?%Hm0|(_ & _ & q & ? & ?)]; [done|]. eauto.
      * intros (t' & q & [= <-] & ? & ?). right. split; [lia|]. eauto.
  - apply Hfin; [done|]. intros i Hi. split; [by intros ?%Hm0|]. by intros (t & q & ? & _).
Qed.
End Mask.

(** * Properties *)

Section Properties.
Context `{PoolEnv}.

(** C13: the full-attention search never fails and finds the longest hit: [L]
    full blocks, every one cached for all groups and the next one missing or out
    of reach, then, when the alignment is finer than a block, the largest cached
    interior boundary [F]. The hit ends at [F] hashes, less the EAGLE unit,
    rounded down to the alignment, and each group's list holds exactly the
    blocks that cover it, each the one cached for the hash at its end. *)
Theorem full_attention_hit_spec p xs gids hs spec (k : nat) dcp a drop max_length :
  let bs := pool_hash_block_size p in
  let bsz := Z.of_nat k * bs in
  pool_inv p xs -> groups_ok gids -> 0 < bs -> (0 < k)%nat -> 0 <= max_length ->
  (if 1 <? dcp then spec_block_size spec * dcp else spec_block_size spec) = bsz ->
  a = bs \/ 0 < a /\ a mod bsz = 0 ->
  is_full_attention (spec_kind spec) || bool_decide (is_Some (chunk_of (spec_kind spec))) = true ->
  exists computed hit L F,
    full_find_longest_cache_hit (Hashes hs) max_length gids p spec drop a dcp = Ok (computed, hit) /\
    longest_hit p gids hs bs max_length k (a <? bsz) L F /\
    hit = (let e := Z.of_nat F * bs - (if drop && (0 <? F)%nat then Z.min a bsz else 0) in
           e - e mod a) /\
    0 <= hit <= max_length /\
    table (length gids) computed (Z.to_nat (cdiv hit bsz)) (full_cell p gids hs k F).
Proof.
  intros bs bsz Hinv Hg Hbs Hk Hmax Hsz Ha Hkind.
  destruct (full_find_Ok p xs gids Hinv Hg hs bs max_length k Hbs Hk Hmax spec a drop dcp eq_refl
    Hsz Ha Hkind) as (c & hit & L & F & ? & Hl & ? & ? & ?).
  exists c, hit, L, F. pose proof (lh_range _ _ _ _ _ _ _ _ _ Hl). split_and!; try done; lia.
Qed.


(** For chunks of whole blocks (which the attention backend asserts), the
    chunked search never fails: null blocks up to the chunk that [max_length]
    lies in, then the cached blocks up to the first miss. Every null block lies
    in the tokens [get_num_skipped_tokens] skips at the length of the hit. *)
Theorem chunked_local_hit_spec p xs gids hs spec chunk (k : nat) max_length :
  let bsz := Z.of_nat k * pool_hash_block_size p in
  let start := Z.to_nat (max_length / chunk * chunk / bsz) in
  pool_inv p xs -> groups_ok gids -> 0 < pool_hash_block_size p -> (0 < k)%nat -> 0 <= max_length ->
  spec_block_size spec = bsz -> chunk_of (spec_kind spec) = Some chunk ->
  0 < chunk -> chunk mod bsz = 0 -> max_length / bsz * Z.of_nat k <= zlen hs ->
  exists computed (n : nat),
    chunked_find_longest_cache_hit (Hashes hs) max_length gids p spec false bsz 1 1 =
      Ok (computed, Z.of_nat n * bsz) /\
    (start <= n <= Z.to_nat (max_length / bsz))%nat /\
    table (length gids) computed n (fun g i => if (i <? start)%nat then Some null_block
                                       else hit_cell p gids (hs !! ((i + 1) * k - 1)%nat) g) /\
    (forall i, (start <= i < n)%nat -> is_cached p gids (hs !! ((i + 1) * k - 1)%nat) = true) /\
    ((n < Z.to_nat (max_length / bsz))%nat ->
      is_cached p gids (hs !! ((n + 1) * k - 1)%nat) = false) /\
    Z.of_nat start <= get_num_skipped_tokens (spec_kind spec) (Z.of_nat n * bsz) / bsz.
Proof.
  intros bsz start Hinv Hg Hbs Hk Hmax Hsz Hchunk Hc Hcm Hlen.
  assert (0 < bsz) as Hbsz by (unfold bsz; nia).
  destruct (chunked_find_Ok p xs gids Hinv Hg bsz bsz Hbsz Hbsz hs k max_length
    Hk Hbs eq_refl Hmax Hlen spec chunk Hchunk Hsz eq_refl Hc Hcm)
    as (c & n & ? & [? ?] & ? & ? & ? & ?).
  exists c, n. split_and!; try done. by destruct (spec_kind spec); simplify_eq/=.
Qed.

(** The sliding-window mask never fails; it is absent (cache every block)
    only when the blocks a hit needs fill a whole segment, and otherwise marks
    exactly the blocks that a hit ending at a kept boundary looks at: the
    segment ends, and under sparse retention the requested positions. *)
Theorem window_mask_spec start end_ a bsz w spec eagle ri bds :
  0 < bsz -> 0 < a -> a mod bsz = 0 -> 1 <= w -> 0 <= start <= end_ ->
  spec_block_size spec = bsz -> window_of (spec_kind spec) = Some w ->
  let need := contiguous_blocks_for_hit w bsz eagle in
  match window_reachable_block_mask start end_ (Some a) spec eagle ri bds with
  | Raise _ => False
  | Ok None => exists t, segment_size ri a = Some t /\ t / bsz <= need
  | Ok (Some mask) => zlen mask = end_ - start /\
      forall i, start <= i < end_ ->
        mask !! Z.to_nat (i - start) = Some true <->
        exists b, kept_boundary ri a bsz bds b /\ tail_block need (if eagle then 1 else 0) b i
  end.
Proof. intros. by eapply window_mask_Ok. Qed.

(** With EAGLE and an alignment of several blocks, a hit on a short prefix loses
    a whole segment: the search aligns before it pops the lookahead block, so
    five cached blocks, a four-block segment and its lookahead, give no hit. *)
Theorem sliding_window_eagle_loses_segment p xs gids hs spec w (k : nat) :
  let bsz := Z.of_nat k * pool_hash_block_size p in
  pool_inv p xs -> groups_ok gids -> 0 < pool_hash_block_size p -> (0 < k)%nat ->
  spec_block_size spec = bsz -> window_of (spec_kind spec) = Some w -> 5 * bsz < w ->
  5 * Z.of_nat k <= zlen hs ->
  (forall i, (i < 5)%nat -> is_cached p gids (hs !! ((i + 1) * k - 1)%nat) = true) ->
  exists computed,
    window_find_longest_cache_hit (Hashes hs) (5 * bsz) gids p spec true (4 * bsz) 1 1 =
      Ok (computed, 0).
Proof.
  intros bsz Hinv Hg Hbs Hk Hsz Hwin Hw Hlen Hcached.
  assert (0 < bsz) as Hbsz by (unfold bsz; nia). assert (0 < 4 * bsz) as Ha by lia.
  assert (5 * bsz / bsz = 5) as H5 by (by rewrite Z.div_mul by lia).
  unfold window_find_longest_cache_hit. rewrite Hwin, Hsz. simpl. unfold py_mod at 1.
  destruct (Z.eqb_spec bsz 0); [lia|]. simpl. rewrite Z.mod_mul by lia. simpl.
  destruct (window_view p bsz (4 * bsz) Hbsz Ha hs k (5 * bsz) Hk Hbs eq_refl) as (v & Hv & Hview);
    [by rewrite H5|].
  rewrite Hv. cbn beta iota zeta delta [mbind result_bind]. rewrite H5 in *. change (Z.to_nat 5) with 5%nat in *.
  change (cdiv (w - 1) bsz + 1) with (contiguous_blocks_for_hit w bsz true).
  set (need := contiguous_blocks_for_hit w bsz true).
  assert (5 < need) as Hneed.
  { unfold need, contiguous_blocks_for_hit. pose proof (cdiv_bounds (w - 1) bsz Hbsz). nia. }
  assert (forall x, (x * bsz) mod (4 * bsz) = x mod 4 * bsz) as Hmod
    by (intros x; by rewrite Z.mul_mod_distr_r by lia).
  destruct (window_loop_Ok p xs gids Hinv Hg v 5 (fun i => hs !! ((i + 1) * k - 1)%nat) Hview need
    true bsz (4 * bsz) Hbsz Ha 5 0 (replicate (length gids) (replicate 5 null_block)))
    as (s & num & c1 & found & Hr & Ht & Hle & _ & _ & Hbest & Hfound).
  { by left. }
  { split; try lia. exists (fun _ _ => Some null_block).
    split_and!; [apply table_replicate|done|lia]. }
  change (Z.of_nat 0) with 0 in Hr. rewrite Hr.
  cbn beta iota zeta delta [mbind result_bind]. destruct found; [lia|].
  destruct Hfound as [-> _]. assert (num = 5%nat) as ->.
  { destruct (decide (num < 5)%nat); [|lia]. exfalso.
    destruct (Hbest 5%nat) as (j & Hj & _ & Hno); [lia| |].
    - unfold ends_aligned. rewrite Hmod. done.
    - rewrite Hcached in Hno by lia. done. }
  destruct (align_blocks_Ok gids Hg bsz (4 * bsz) Hbsz Ha 5 (trim (Z.of_nat 5) c1) _
    (table_trim _ _ _ _ 5 Ht ltac:(lia))) as (n1 & c2 & Hc2 & Ht2 & Hn1 & Hm1 & _).
  rewrite Hc2. cbn beta iota zeta delta [mbind result_bind].
  destruct (eagle_pop_Ok gids Hg bsz (4 * bsz) Hbsz Ha n1 c2 _ Ht2)
    as (n2 & c3 & Hpop & Ht3 & Hn2 & Hm2 & _).
  unfold eagle_pop in Hpop. rewrite Hpop. simpl.
  destruct (table_head _ _ _ _ (groups_pos gids Hg) Ht3) as [-> _]. simpl.
  rewrite Hmod in Hm1, Hm2. assert (n2 = 0%nat) as ->; [|by exists c3].
  assert (forall x : nat, Z.of_nat x mod 4 * bsz = 0 -> exists q, x = (4 * q)%nat) as Hq.
  { intros x Hx. exists (Z.to_nat (Z.of_nat x / 4)). pose proof (Z.div_mod (Z.of_nat x) 4 ltac:(lia)).
    pose proof (Z.mod_pos_bound (Z.of_nat x) 4 ltac:(lia)). nia. }
  destruct (Hq n1 Hm1) as [q1 ->], (Hq n2 Hm2) as [q2 ->]. lia.
Qed.
End Properties.

(** * Concrete inputs *)

Lemma one_group_ok : groups_ok [0].
Proof. split; [done|]. repeat constructor; discriminate. Qed.

(** Six hashes of 16 tokens, the block size being 32. *)
Definition six_hashes : list bytes := replicate 6 [Byte.x01].

Lemma full_attention_hit_spec_witness :
  exists p c hit, pool_init 4 true 16 false = Ok p /\
    full_find_longest_cache_hit (Hashes six_hashes) 95 [0] p (mkSpec 32 FullAttentionSpec) true 16 1
      = Ok (c, hit).
Proof.
  destruct (pool_init_spec 4 true 16 false ltac:(lia)) as (p & Hp & Hinv & _ & _ & Hbs & _).
  destruct (full_attention_hit_spec p _ [0] six_hashes (mkSpec 32 FullAttentionSpec) 2 1 16 true 95
    Hinv one_group_ok) as (c & hit & L & F & Hc & _).
  - rewrite Hbs. reflexivity.
  - lia.
  - lia.
  - rewrite Hbs. reflexivity.
  - left. rewrite Hbs. reflexivity.
  - reflexivity.
  - exists p, c, hit. split; [exact Hp|exact Hc].
Defined.


(** A pool in which one block carries the hash used five times below. *)
Lemma pool_with_hash :
  exists p xs, pool_inv p xs /\ pool_hash_block_size p = 16 /\
    is_cached p [0] (Some [Byte.x01]) = true.
Proof.
  destruct (pool_init_spec 4 true 16 false ltac:(lia)) as (p & Hp & Hinv & Hnum & _ & Hbs & _).
  destruct (make_block_hash_with_group_id [Byte.x01] 0) as [key|] eqn:Ekey; [|done].
  destruct (insert_block_hash_spec p 1 key 16 (pi_hash _ _ _ Hinv)) as (p' & Hins & _); [lia|lia|].
  destruct (insert_block_hash_inv p _ 1 key 16 p' Hinv) as (Hinv' & Hf & Hk);
    [unfold valid_block; lia|done|].
  exists p', (seq 1 (Z.to_nat 4 - 1)). split; [done|]. split.
  - destruct (hash_frame_config _ _ Hf) as (_ & _ & -> & _). done.
  - unfold is_cached, lookup_hash, cached_blocks.
    destruct (get_cached_block_Ok p' _ [Byte.x01] [0] Hinv') as (res & -> & Hres).
    { repeat constructor; discriminate. }
    destruct res; [done|]. destruct Hres as (g & key' & ->%list_elem_of_singleton & Hkey & Hno).
    rewrite Ekey in Hkey. injection Hkey as <-. exfalso. apply (Hno 1%nat).
    rewrite Hk, decide_True by done. set_solver.
Qed.

Lemma sliding_window_eagle_loses_segment_witness :
  exists p c, (forall i, (i < 5)%nat ->
      is_cached p [0] (replicate 5 [Byte.x01] !! ((i + 1) * 1 - 1)%nat) = true) /\
    window_find_longest_cache_hit (Hashes (replicate 5 [Byte.x01])) 80 [0] p
      (mkSpec 16 (SlidingWindowSpec 1000)) true 64 1 1 = Ok (c, 0).
Proof.
  destruct pool_with_hash as (p & xs & Hinv & Hbs & Hc).
  assert (forall i, (i < 5)%nat ->
    is_cached p [0] (replicate 5 [Byte.x01] !! ((i + 1) * 1 - 1)%nat) = true) as Hall.
  { intros i Hi. rewrite lookup_replicate_2 by lia. exact Hc. }
  destruct (sliding_window_eagle_loses_segment p xs [0] (replicate 5 [Byte.x01])
    (mkSpec 16 (SlidingWindowSpec 1000)) 1000 1 Hinv one_group_ok) as (c & Hw).
  - rewrite Hbs. reflexivity.
  - lia.
  - rewrite Hbs. reflexivity.
  - reflexivity.
  - rewrite Hbs. reflexivity.
  - simpl. lia.
  - exact Hall.
  - exists p, c. split; [exact Hall|]. rewrite Hbs in Hw. exact Hw.
Defined.

Lemma chunked_local_hit_spec_witness :
  exists p c n, pool_init 4 true 16 false = Ok p /\
    chunked_find_longest_cache_hit (Hashes six_hashes) 95 [0] p
      (mkSpec 32 (ChunkedLocalAttentionSpec 64)) false (Z.of_nat 2 * pool_hash_block_size p) 1 1
      = Ok (c, n).
Proof.
  destruct (pool_init_spec 4 true 16 false ltac:(lia)) as (p & Hp & Hinv & _ & _ & Hbs & _).
  destruct (chunked_local_hit_spec p _ [0] six_hashes (mkSpec 32 (ChunkedLocalAttentionSpec 64)) 64 2 95
    Hinv one_group_ok) as (c & n & Hc & _).
  - rewrite Hbs. reflexivity.
  - lia.
  - lia.
  - rewrite Hbs. reflexivity.
  - reflexivity.
  - lia.
  - rewrite Hbs. reflexivity.
  - rewrite Hbs. discriminate.
  - exists p, c. eexists. split; [exact Hp|exact Hc].
Defined.

Lemma window_mask_spec_witness :
  window_reachable_block_mask 0 8 (Some 64) (mkSpec 16 (SlidingWindowSpec 20)) true None [] =
    Ok (Some [false; false; true; true; true; false; true; true]) /\
  (exists b, kept_boundary None 64 16 [] b /\ tail_block 3 1 b 4) /\
  window_reachable_block_mask 0 8 (Some 128) (mkSpec 16 (SlidingWindowSpec 20)) false (Some 0) [200]
    = Ok (Some [false; false; false; false; false; false; true; true]).
Proof.
  pose proof (window_mask_spec 0 8 64 16 20 (mkSpec 16 (SlidingWindowSpec 20)) true None []
    ltac:(lia) ltac:(lia) eq_refl ltac:(lia) ltac:(lia) eq_refl eq_refl) as Hm.
  split; [reflexivity|]. split; [|reflexivity]. destruct Hm as [_ Hm].
  apply (Hm 4); [lia|reflexivity].
Defined.
