(* ===== verification/MambaHit.v ===== *)
(** The cache-hit search and the retention mask of Mamba layers, of
    src/upstream/vllm/v1/core/single_type_kv_cache_manager.py
    ([MambaManager.find_longest_cache_hit] and
    [MambaManager.reachable_block_mask]). A recurrent state summarises the whole
    prefix, so a hit needs one block only: the one whose state ends on the
    boundary of the hit. *)
From S2P Require Import Prelude FreeQueue Request BlockHash BlockPool CacheHit.
Open Scope Z_scope.

(** * The search *)

(** [computed.extend([null_block] * i); computed.append(cached)]. *)
Definition pad_hit (i : Z) (computed : Computed) (cached : list bref) : Computed :=
  each_group (fun c b => (c ++ replicate (Z.to_nat i) null_block) ++ [b]) computed cached.

(** The search over hash units, from the right, when hits may end inside a block. *)
Fixpoint mamba_fine_loop (p : BlockPool) (gids : list Z) (hs : list bytes)
    (scale_factor hash_block_size : Z) (idxs : list Z) (computed : Computed) : result (Computed * Z) :=
  match idxs with
  | [] => Ok (computed, 0)
  | fine_idx :: idxs' =>
      let num_tokens := (fine_idx + 1) * hash_block_size in
      block_hash ← py_index hs fine_idx;
      cached_block ← get_cached_block p block_hash gids;
      match truthy cached_block with
      | Some cached => Ok (pad_hit (fine_idx / scale_factor) computed cached, num_tokens)
      | None => mamba_fine_loop p gids hs scale_factor hash_block_size idxs' computed
      end
  end.

(** The search over whole blocks, from the right. *)
Fixpoint mamba_block_loop (p : BlockPool) (gids : list Z) (hashes : BlockHashList)
    (block_size alignment_tokens : Z) (idxs : list Z) (computed : Computed) : result (Computed * Z) :=
  match idxs with
  | [] => Ok (computed, 0)
  | i :: idxs' =>
      block_hash ← get_value_at hashes i;
      cached_block ← get_cached_block p block_hash gids;
      match truthy cached_block with
      | Some cached =>
          unaligned ← (if negb (block_size =? alignment_tokens)
            then m ← py_mod ((i + 1) * block_size) alignment_tokens; Ok (negb (m =? 0))
            else Ok false);
          if (unaligned : bool)
          then mamba_block_loop p gids hashes block_size alignment_tokens idxs' computed
          else Ok (pad_hit i computed cached, (i + 1) * block_size)
      | None => mamba_block_loop p gids hashes block_size alignment_tokens idxs' computed
      end
  end.

(** [isinstance(spec, MambaSpec)]. *)
Definition is_mamba (k : AttentionKind) : bool :=
  match k with MambaSpec _ _ => true | _ => false end.

(** [MambaManager.find_longest_cache_hit]. *)
Definition mamba_find_longest_cache_hit (hashes : BlockHashList) (max_length : Z) (gids : list Z)
    (p : BlockPool) (spec : KVCacheSpec) (drop_eagle_block : bool)
    (alignment_tokens dcp_world_size pcp_world_size : Z) : result (Computed * Z) :=
  _ ← assert_ (is_mamba (spec_kind spec));
  _ ← assert_ (dcp_world_size =? 1);
  _ ← assert_ (pcp_world_size =? 1);
  let block_size := spec_block_size spec in
  hashes ← resolve_block_hashes hashes (pool_hash_block_size p) block_size true
             (Some alignment_tokens);
  let computed_blocks := replicate (length gids) [] in
  fine_grained ← (if alignment_tokens <? block_size
                  then m ← py_mod block_size alignment_tokens; Ok (m =? 0) else Ok false);
  if (fine_grained : bool) then
    match hashes with
    | WithBlockSize _ _ => Raise AssertionError
    | Hashes hs =>
        let scale_factor := block_size / alignment_tokens in
        let max_num_partial_units := Z.min (max_length / alignment_tokens) (zlen hs) in
        mamba_fine_loop p gids hs scale_factor alignment_tokens
          (py_range_down (max_num_partial_units - 1) (-1)) computed_blocks
    end
  else
    max_num_blocks ← py_div max_length block_size;
    mamba_block_loop p gids hashes block_size alignment_tokens
      (py_range_down (max_num_blocks - 1) (-1)) computed_blocks.

(** * The mask *)

(** [range(lo, hi, step)] for a positive step. *)
Definition py_range_by (lo hi step : Z) : list Z :=
  (fun j : nat => lo + Z.of_nat j * step) <$> seq 0 (Z.to_nat (cdiv (hi - lo) step)).

(** [MambaManager.reachable_block_mask]; [use_eagle] is not read. *)
Definition mamba_reachable_block_mask (start_block end_block : Z) (alignment_tokens : option Z)
    (spec : KVCacheSpec) (retention_interval : option Z) (reachable_boundaries : list Z)
    : result (option (list bool)) :=
  match retention_interval, alignment_tokens with
  | None, _ | _, None => Ok None
  | Some retention_interval, Some alignment_tokens =>
      _ ← assert_ (is_mamba (spec_kind spec));
      let block_size := spec_block_size spec in
      let mask := replicate (Z.to_nat (end_block - start_block)) false in
      let boundary_states (mask : list bool) : result (option (list bool)) :=
        mask ← for_each (fun boundary_tokens mask =>
            q ← py_div boundary_tokens alignment_tokens;
            let aligned := q * alignment_tokens in
            q ← py_div aligned block_size;
            let boundary_block := q - 1 in
            Ok (if (start_block <=? boundary_block) && (boundary_block <? end_block)
                then <[Z.to_nat (boundary_block - start_block) := true]> mask else mask))
          reachable_boundaries mask;
        Ok (Some mask) in
      if retention_interval =? 0 then boundary_states mask else
      per_segment ← py_div retention_interval block_size;
      if per_segment <=? 1 then Ok None else
      let first_boundary := (start_block + per_segment) / per_segment * per_segment - 1 in
      boundary_states (mark 0 (fun _ => true)
        (py_range_by (first_boundary - start_block) (zlen mask) per_segment) mask)
  end.

(** * The hit is the longest one *)

(** Unit [n] is the last of the units [1 .. N] that may end a hit and whose hash
    is cached; 0 if there is none. *)
Record last_hit (p : BlockPool) (gids : list Z) (hash : nat -> option bytes) (may_end : nat -> Prop)
    (N n : nat) : Prop := {
  ls_range : (n <= N)%nat;
  ls_cached : n = 0%nat \/ may_end n /\ is_cached p gids (hash (n - 1)%nat) = true;
  ls_last m : (n < m <= N)%nat -> may_end m -> is_cached p gids (hash (m - 1)%nat) = false
}.

(** What a loop returns when the hit ends after unit [n], in block [blk n]. *)
Definition found_at (p : BlockPool) (gids : list Z) (hash : nat -> option bytes) (blk : Z)
    (tokens : Z) (computed : Computed) (n : nat) (r : result (Computed * Z)) : Prop :=
  if decide (n = 0%nat) then r = Ok (computed, 0)
  else exists cached, lookup_hash p gids (hash (n - 1)%nat) = Some cached /\
    length cached = length gids /\ r = Ok (pad_hit blk computed cached, tokens).

Section Search.
Context `{PoolEnv}.
Context (p : BlockPool) (xs : list nat) (gids : list Z).
Context (Hinv : pool_inv p xs) (Hgids : groups_ok gids).

Lemma last_hit_here hash may_end N cached :
  may_end (S N) -> lookup_hash p gids (hash N) = Some cached ->
  last_hit p gids hash may_end (S N) (S N).
Proof.
  intros Hm Hc. split; [lia| |lia]. right. split; [done|]. unfold is_cached.
  replace (S N - 1)%nat with N by lia. by rewrite Hc.
Qed.

Lemma last_hit_skip hash may_end N n :
  last_hit p gids hash may_end N n ->
  (may_end (S N) -> is_cached p gids (hash N) = false) ->
  last_hit p gids hash may_end (S N) n.
Proof.
  intros [Hr Hc Hl] Hn. split; [lia|done|]. intros m Hm He.
  destruct (decide (m = S N)) as [->|]; [|apply Hl; [lia|done]].
  replace (S N - 1)%nat with N by lia. auto.
Qed.

Lemma mamba_fine_loop_Ok hs scale hbs m computed :
  (m <= length hs)%nat ->
  exists n, last_hit p gids (fun i => hs !! i) (fun _ => True) m n /\
    found_at p gids (fun i => hs !! i) ((Z.of_nat n - 1) / scale) (Z.of_nat n * hbs) computed n
      (mamba_fine_loop p gids hs scale hbs (py_range_down (Z.of_nat m - 1) (-1)) computed).
Proof.
  induction m as [|m IH]; intros Hm.
  - exists 0%nat. split; [split; [lia|by left|lia]|]. by rewrite py_range_down_nil by lia.
  - replace (Z.of_nat (S m) - 1) with (Z.of_nat m) by lia. rewrite py_range_down_cons by lia.
    destruct (lookup_lt_is_Some_2 hs m ltac:(lia)) as [h Hh]. cbn [mamba_fine_loop].
    rewrite (py_index_Ok hs (Z.of_nat m) h) by (rewrite ?Nat2Z.id; (lia || done)).
    cbn [mbind result_bind]. destruct (get_cached_block_total p xs gids Hinv Hgids h) as (-> & Htr & Hlen).
    cbn [mbind result_bind]. rewrite Htr. destruct (cached_blocks p gids h) as [bs|] eqn:Eb.
    + exists (S m). assert (lookup_hash p gids (hs !! m) = Some bs) as Hl by (by rewrite Hh).
      split; [by eapply (last_hit_here (fun i => hs !! i))|]. unfold found_at. rewrite decide_False by lia.
      exists bs. replace (S m - 1)%nat with m by lia. split_and!; [done|by apply Hlen|].
      repeat f_equal; lia.
    + destruct (IH ltac:(lia)) as (n & Hlast & Hf). exists n. split; [|done].
      apply last_hit_skip; [done|]. intros _. unfold is_cached. by rewrite Hh; simpl; rewrite Eb.
Qed.

Lemma mamba_block_loop_Ok v N (H0 : nat -> option bytes) bsz a computed :
  a <> 0 ->
  (forall i, (i < N)%nat -> exists h, get_value_at v (Z.of_nat i) = Ok h /\ H0 i = Some h) ->
  exists n, last_hit p gids H0 (fun m => (Z.of_nat m * bsz) mod a = 0 \/ bsz = a) N n /\
    found_at p gids H0 (Z.of_nat n - 1) (Z.of_nat n * bsz) computed n
      (mamba_block_loop p gids v bsz a (py_range_down (Z.of_nat N - 1) (-1)) computed).
Proof.
  intros Ha. induction N as [|m IH]; intros Hv.
  - exists 0%nat. split; [split; [lia|by left|lia]|]. by rewrite py_range_down_nil by lia.
  - replace (Z.of_nat (S m) - 1) with (Z.of_nat m) by lia. rewrite py_range_down_cons by lia.
    destruct (Hv m ltac:(lia)) as (h & Hget & Hh). cbn [mamba_block_loop]. rewrite Hget.
    cbn [mbind result_bind]. destruct (get_cached_block_total p xs gids Hinv Hgids h) as (-> & Htr & Hlen).
    cbn [mbind result_bind]. rewrite Htr.
    destruct (IH ltac:(intros; apply Hv; lia)) as (n & Hlast & Hf).
    destruct (cached_blocks p gids h) as [bs|] eqn:Eb.
    + assert ((if negb (bsz =? a) then m0 ← py_mod ((Z.of_nat m + 1) * bsz) a; Ok (negb (m0 =? 0))
        else Ok false) = Ok (negb (bsz =? a) && negb ((Z.of_nat (S m) * bsz) mod a =? 0))) as ->.
      { destruct (bsz =? a); simpl; [done|]. unfold py_mod. destruct (Z.eqb_spec a 0); [done|].
        simpl. repeat f_equal. lia. }
      cbn [mbind result_bind]. destruct (negb (bsz =? a) && _) eqn:Eu.
      * exists n. split; [|done]. apply last_hit_skip; [done|]. bools. intros [?|?]; congruence.
      * exists (S m). assert (lookup_hash p gids (H0 m) = Some bs) as Hl by (by rewrite Hh).
        split; [eapply (last_hit_here H0); [|done]|].
        { destruct (Z.eqb_spec bsz a); [by right|]. left.
          by destruct (Z.eqb_spec ((Z.of_nat (S m) * bsz) mod a) 0). }
        unfold found_at. rewrite decide_False by lia. exists bs.
        replace (S m - 1)%nat with m by lia. split_and!; [done|by apply Hlen|]. repeat f_equal; lia.
    + exists n. split; [|done]. apply last_hit_skip; [done|]. intros _. unfold is_cached.
      by rewrite Hh; simpl; rewrite Eb.
Qed.

(** The lists of a hit that ends in block [nb - 1]: null blocks, then the cached one. *)
Lemma table_pad blk cached :
  0 <= blk -> length cached = length gids ->
  table (length gids) (pad_hit blk (replicate (length gids) []) cached) (S (Z.to_nat blk))
    (fun g i => if (i =? Z.to_nat blk)%nat then cached !! g else Some null_block).
Proof.
  intros Hb Hlen. unfold pad_hit. split; [by rewrite length_each_group, length_replicate|].
  intros g c. rewrite each_group_lookup by (by rewrite length_replicate).
  destruct (replicate (length gids) [] !! g) as [c0|] eqn:Eg; [|done].
  apply lookup_replicate in Eg as [-> _]. destruct (cached !! g) as [b|] eqn:Ec; [|done].
  intros [= <-]. simpl. split; [rewrite length_app, length_replicate; simpl; lia|]. intros i Hi.
  destruct (Nat.eqb_spec i (Z.to_nat blk)) as [->|].
  - rewrite lookup_app_r by (rewrite length_replicate; lia). by rewrite length_replicate, Nat.sub_diag.
  - rewrite lookup_app_l by (rewrite length_replicate; lia). apply lookup_replicate_2. lia.
Qed.
End Search.

Section Find.
Context `{PoolEnv}.
Context (p : BlockPool) (xs : list nat) (gids : list Z).
Context (Hinv : pool_inv p xs) (Hgids : groups_ok gids).
Context (hs : list bytes) (max_length : Z) (k : nat) (a : Z).
Let bs := pool_hash_block_size p.
Let bsz := Z.of_nat k * bs.
Context (Hbs : 0 < bs) (Hk : (0 < k)%nat) (Hmax : 0 <= max_length).
Context (Ha : a = bs \/ 0 < a /\ a mod bsz = 0).

(** Hash boundaries in reach of the search, and those a hit may end on. *)
Definition units_in_reach : nat := Z.to_nat (Z.min (max_length / bs) (zlen hs)).
Definition unit_aligned (t : nat) : Prop := (Z.of_nat t * bs) mod a = 0.

Lemma units_in_reach_iff t :
  (t <= units_in_reach)%nat <-> Z.of_nat t * bs <= max_length /\ (t <= length hs)%nat.
Proof.
  unfold units_in_reach. assert (0 <= max_length / bs) by (apply Z.div_pos; lia).
  rewrite <-le_div_iff by done. lia.
Qed.

(** From block indices to hash units, when the alignment is whole blocks. *)
Lemma last_hit_units n :
  bsz <= a -> max_length / bsz * Z.of_nat k <= zlen hs ->
  last_hit p gids (fun i => hs !! ((i + 1) * k - 1)%nat)
    (fun m => (Z.of_nat m * bsz) mod a = 0 \/ bsz = a) (Z.to_nat (max_length / bsz)) n ->
  last_hit p gids (fun i => hs !! i) unit_aligned units_in_reach (n * k).
Proof.
  intros Hba Hlen [Hr Hc Hl]. assert (0 < bsz) as Hbsz by (unfold bsz; nia).
  assert (0 <= max_length / bsz) by (by apply Z.div_pos).
  assert (0 < a /\ a mod bsz = 0) as [Ha0 Ham].
  { destruct Ha as [->|?]; [|done]. split; [done|]. assert (bsz = bs) as -> by (unfold bsz in *; nia).
    apply Z_mod_same_full. }
  assert (exists c, a = c * bsz /\ 0 < c) as (c & Hac & Hc0).
  { exists (a / bsz). pose proof (Z.div_mod a bsz ltac:(lia)). split; nia. }
  assert (Z.of_nat n <= max_length / bsz) as Hn by lia.
  split.
  - apply units_in_reach_iff. apply le_div_iff in Hn; [|done]. unfold bsz in Hn. split; nia.
  - destruct Hc as [->|[He Hc]]; [by left|]. destruct (decide (n = 0%nat)) as [->|]; [by left|].
    right. split.
    + unfold unit_aligned. replace (Z.of_nat (n * k) * bs) with (Z.of_nat n * bsz) by (unfold bsz; lia).
      destruct He as [?|<-]; [done|]. apply Z.mod_mul. lia.
    + by replace (n - 1 + 1)%nat with n in Hc by lia.
  - intros t Ht Hal. unfold unit_aligned in Hal.
    assert (exists m, t = (m * k)%nat) as [m ->].
    { apply Z.mod_divide in Hal as [q Hq]; [|lia]. rewrite Hac in Hq. exists (Z.to_nat (q * c)).
      unfold bsz in Hq. assert (Z.of_nat t = q * c * Z.of_nat k) by nia.
      assert (0 <= q * c) by nia. nia. }
    assert (m * k <= units_in_reach)%nat as Hm by lia. apply units_in_reach_iff in Hm as [Hm _].
    assert (Z.of_nat m <= max_length / bsz) by (apply le_div_iff; [done|unfold bsz; nia]).
    specialize (Hl m ltac:(nia)).
    assert (m <> 0%nat) by lia. replace (m - 1 + 1)%nat with m in Hl by lia. apply Hl. left.
    replace (Z.of_nat m * bsz) with (Z.of_nat (m * k) * bs) by (unfold bsz; lia). done.
Qed.

(** The blocks of a hit that ends at hash boundary [F]. *)
Definition mamba_cell (F g i : nat) : option bref :=
  if (i =? Z.to_nat (cdiv (Z.of_nat F * bs) bsz) - 1)%nat
  then hit_cell p gids (hs !! (F - 1)%nat) g else Some null_block.

Lemma found_table (n F : nat) hash blk tokens r :
  (n = 0%nat <-> F = 0%nat) -> (n <> 0%nat -> hash (n - 1)%nat = hs !! (F - 1)%nat) ->
  (n <> 0%nat -> blk = cdiv (Z.of_nat F * bs) bsz - 1) -> tokens = Z.of_nat F * bs ->
  found_at p gids hash blk tokens (replicate (length gids) []) n r ->
  exists computed, r = Ok (computed, tokens) /\
    table (length gids) computed (Z.to_nat (cdiv tokens bsz)) (mamba_cell F).
Proof.
  intros HF Hh Hblk -> Hf. assert (0 < bsz) as Hbsz by (unfold bsz; nia).
  unfold found_at in Hf. destruct (decide (n = 0%nat)) as [->|Hn].
  - assert (F = 0%nat) as -> by tauto. subst r. eexists. split; [done|].
    rewrite Z.mul_0_l, cdiv_0 by done. apply table_ext with (cell := fun _ _ => None); [|lia].
    split; [apply length_replicate|]. intros g c [-> _]%lookup_replicate. split; [done|lia].
  - destruct Hf as (cached & Hl & Hlen & ->). eexists. split; [done|].
    rewrite (Hblk Hn). assert (0 < F)%nat by lia.
    assert (1 <= cdiv (Z.of_nat F * bs) bsz) as Hcd.
    { destruct (Z.le_gt_cases (cdiv (Z.of_nat F * bs) bsz) 0) as [Hle|]; [|lia].
      apply cdiv_le_iff in Hle; [|done]. nia. }
    replace (Z.to_nat (cdiv (Z.of_nat F * bs) bsz))
      with (S (Z.to_nat (cdiv (Z.of_nat F * bs) bsz - 1))) by lia.
    eapply table_ext; [apply table_pad; [lia|done]|]. intros g i _ _. unfold mamba_cell.
    replace (Z.to_nat (cdiv (Z.of_nat F * bs) bsz - 1))
      with (Z.to_nat (cdiv (Z.of_nat F * bs) bsz) - 1)%nat by lia.
    destruct (_ =? _)%nat; [|done]. unfold hit_cell. by rewrite <-Hh, Hl.
Qed.

(** The search never fails, and its hit ends on the last boundary in reach that
    is aligned and cached. *)
Lemma mamba_find_Ok spec drop :
  is_mamba (spec_kind spec) = true -> spec_block_size spec = bsz ->
  (a < bsz \/ max_length / bsz * Z.of_nat k <= zlen hs) ->
  exists computed F,
    mamba_find_longest_cache_hit (Hashes hs) max_length gids p spec drop a 1 1 =
      Ok (computed, Z.of_nat F * bs) /\
    last_hit p gids (fun i => hs !! i) unit_aligned units_in_reach F /\
    table (length gids) computed (Z.to_nat (cdiv (Z.of_nat F * bs) bsz)) (mamba_cell F).
Proof.
  intros Hkind Hspec Hlen. assert (0 < bsz) as Hbsz by (unfold bsz; nia).
  unfold mamba_find_longest_cache_hit. rewrite Hkind, Hspec. simpl.
  pose proof (full_views hs bs k Hbs Hk a Ha) as HV. cbv zeta in HV. fold bsz in HV.
  destruct HV as (view & v & Hres & Hf & Hfine & Hcoarse & _ & Hget). fold bs.
  rewrite Hres. simpl. rewrite Hf. simpl. destruct (Z.ltb_spec a bsz) as [Hab|Hab].
  - destruct (Hfine eq_refl) as (Ha1 & -> & _).
    assert (bsz / a = Z.of_nat k) as -> by (unfold bsz; rewrite Ha1; by rewrite Z.div_mul by lia).
    destruct (mamba_fine_loop_Ok p xs gids Hinv Hgids hs (Z.of_nat k) a units_in_reach
      (replicate (length gids) [])) as (F & Hlast & Hfound).
    { apply (units_in_reach_iff units_in_reach). lia. }
    assert (Z.min (max_length / a) (zlen hs) = Z.of_nat units_in_reach) as ->.
    { unfold units_in_reach. rewrite Ha1. assert (0 <= max_length / bs) by (by apply Z.div_pos). lia. }
    apply (found_table F F) in Hfound; [|done..| |by rewrite Ha1].
    + destruct Hfound as (computed & -> & Ht). exists computed, F. rewrite Ha1 in *.
      split_and!; [done| |done]. destruct Hlast as [? Hc Hl].
      split; [done| |intros m Hm _; by apply Hl].
      destruct Hc as [?|[_ ?]]; [by left|]. right. split; [|done]. unfold unit_aligned. rewrite Ha1. apply Z.mod_mul. lia.
    + intros HF. unfold bsz. enough (cdiv (Z.of_nat F * bs) (Z.of_nat k * bs) - 1 = (Z.of_nat F - 1) / Z.of_nat k)
        by done. pose proof (cdiv_bounds (Z.of_nat F * bs) (Z.of_nat k * bs) ltac:(nia)) as Hcd.
      apply Z.div_unique with (r := Z.of_nat F - 1 - Z.of_nat k * (cdiv (Z.of_nat F * bs) (Z.of_nat k * bs) - 1));
        [|lia]. left. nia.
  - unfold py_div. destruct (Z.eqb_spec bsz 0) as [|_]; [lia|]. simpl.
    assert (0 <= max_length / bsz) as Hq by (by apply Z.div_pos).
    destruct (mamba_block_loop_Ok p xs gids Hinv Hgids v (Z.to_nat (max_length / bsz))
      (fun i => hs !! ((i + 1) * k - 1)%nat) bsz a (replicate (length gids) []))
      as (n & Hlast & Hfound).
    { destruct Ha; lia. }
    { intros i Hi. destruct (lookup_lt_is_Some_2 hs ((i + 1) * k - 1)%nat) as [h Hh]; [nia|].
      exists h. split; [|done]. rewrite Hget by lia.
      replace (Z.to_nat _) with ((i + 1) * k - 1)%nat by nia. by rewrite Hh. }
    rewrite Z2Nat.id in Hfound by done. rewrite Hcoarse by done.
    apply (found_table n (n * k)) in Hfound; [|nia| | |unfold bsz; lia].
    + destruct Hfound as (computed & -> & Ht). exists computed, (n * k)%nat.
      assert (Z.of_nat n * bsz = Z.of_nat (n * k) * bs) as Heq by (unfold bsz; lia).
      rewrite Heq in *. split_and!; [done| |done].
      apply last_hit_units; [lia| |exact Hlast]. destruct Hlen; [lia|done].
    + intros Hn. cbn beta. by replace (n - 1 + 1)%nat with n by lia.
    + intros Hn. replace (Z.of_nat (n * k) * bs) with (Z.of_nat n * bsz) by (unfold bsz; lia).
      by rewrite cdiv_mul.
Qed.
End Find.

(** * The mask marks the states a hit can end on *)

Lemma elem_of_py_range_by lo hi step i :
  0 < step -> i ∈ py_range_by lo hi step <-> exists j, 0 <= j /\ i = lo + j * step /\ i < hi.
Proof.
  intros Hs. unfold py_range_by. rewrite list_elem_of_fmap. split.
  - intros (j & -> & [_ Hj]%elem_of_seq). exists (Z.of_nat j). split_and!; [lia|done|].
    destruct (Z.le_gt_cases hi (lo + Z.of_nat j * step)) as [Hle|]; [|done].
    pose proof (cdiv_le_iff (hi - lo) step (Z.of_nat j) Hs). lia.
  - intros (j & Hj & -> & Hi). exists (Z.to_nat j). rewrite Z2Nat.id by done. split; [done|].
    apply elem_of_seq. split; [lia|].
    pose proof (cdiv_le_iff (hi - lo) step j Hs). lia.
Qed.

(** The first boundary after [start], and every [per]-th block from there. *)
Lemma segment_ends start per i :
  0 < per -> 0 <= start <= i ->
  (exists j, 0 <= j /\ i - start = (start + per) / per * per - 1 - start + j * per) <->
  exists q, 1 <= q /\ i + 1 = q * per.
Proof.
  intros Hp Hi. pose proof (Z.div_mod (start + per) per ltac:(lia)).
  pose proof (Z.mod_pos_bound (start + per) per Hp). set (Q := (start + per) / per) in *.
  assert (1 <= Q) by (apply Z.div_le_lower_bound; lia). split.
  - intros (j & Hj & Heq). exists (Q + j). split; [lia|nia].
  - intros (q & Hq & Heq). exists (q - Q). split; [nia|nia].
Qed.

Section Mask.
Context (start end_ a bsz : Z) (spec : KVCacheSpec) (bds : list Z).
Context (Hbsz : 0 < bsz) (Ha : 0 < a) (Hse : 0 <= start <= end_).
Context (Hspec : spec_block_size spec = bsz) (Hkind : is_mamba (spec_kind spec) = true).

Lemma boundary_states mask :
  zlen mask = end_ - start ->
  exists mask',
    for_each (fun boundary_tokens mask =>
        q ← py_div boundary_tokens a;
        let aligned := q * a in
        q ← py_div aligned bsz;
        let boundary_block := q - 1 in
        Ok (if (start <=? boundary_block) && (boundary_block <? end_)
            then <[Z.to_nat (boundary_block - start) := true]> mask else mask)) bds mask = Ok mask' /\
    zlen mask' = end_ - start /\
    forall i, start <= i < end_ ->
      mask' !! Z.to_nat (i - start) = Some true <->
      mask !! Z.to_nat (i - start) = Some true \/ exists x, x ∈ bds /\ i + 1 = x / a * a / bsz.
Proof.
  revert mask. induction bds as [|b bds' IH]; intros mask Hlen; cbn [for_each].
  { exists mask. split_and!; [done|done|]. intros i _. split; [by left|].
    intros [?|(x & Hx & _)]; [done|]. by apply elem_of_nil in Hx. }
  rewrite !py_div_Ok by lia. cbn [mbind result_bind]. rewrite py_div_Ok by lia. cbn [mbind result_bind].
  set (bb := b / a * a / bsz - 1).
  set (mask1 := if (start <=? bb) && (bb <? end_) then <[Z.to_nat (bb - start) := true]> mask else mask).
  assert (zlen mask1 = end_ - start) as Hlen1.
  { unfold mask1. destruct (_ && _); [by rewrite length_insert|done]. }
  destruct (IH mask1 Hlen1) as (mask' & Hf & Hl & Hiff). exists mask'. split_and!; [exact Hf|done|].
  intros i Hi. rewrite (Hiff i Hi). setoid_rewrite elem_of_cons.
  enough (mask1 !! Z.to_nat (i - start) = Some true <->
    mask !! Z.to_nat (i - start) = Some true \/ i + 1 = b / a * a / bsz) as ->.
  { split.
    - intros [[?|?]|(x & ? & ?)]; [by left|right; exists b; tauto|right; exists x; tauto].
    - intros [?|(x & [->|?] & ?)]; [tauto|tauto|right; by exists x]. }
  unfold mask1. destruct (decide (bb = i)) as [<-|Hne].
  - rewrite (proj2 (Z.leb_le start bb)), (proj2 (Z.ltb_lt bb end_)) by lia. simpl.
    rewrite list_lookup_insert_eq by lia. unfold bb. split; [right; lia|done].
  - assert (i + 1 <> b / a * a / bsz) by (unfold bb in Hne; lia).
    destruct (Z.leb_spec start bb), (Z.ltb_spec bb end_); simpl; try tauto.
    rewrite list_lookup_insert_ne by lia. tauto.
Qed.

Lemma mamba_mask_Ok ri :
  match mamba_reachable_block_mask start end_ (Some a) spec ri bds with
  | Raise _ => False
  | Ok None => ri = None \/ exists t, segment_size ri a = Some t /\ t / bsz <= 1
  | Ok (Some mask) => ri <> None /\ zlen mask = end_ - start /\
      forall i, start <= i < end_ ->
        mask !! Z.to_nat (i - start) = Some true <-> kept_boundary ri a bsz bds (i + 1)
  end.
Proof.
  destruct ri as [r|]; [|by left]. unfold mamba_reachable_block_mask. rewrite Hkind, Hspec. simpl.
  set (mask0 := replicate (Z.to_nat (end_ - start)) false).
  assert (zlen mask0 = end_ - start) as Hl0 by (unfold mask0; rewrite length_replicate; lia).
  assert (forall i, mask0 !! i <> Some true) as Hm0.
  { intros i Hi. unfold mask0 in Hi. by apply lookup_replicate in Hi as [? _]. }
  unfold kept_boundary, segment_size. destruct (Z.eqb_spec r 0) as [->|Hr].
  - destruct (boundary_states mask0 Hl0) as (mask' & Hf & Hl & Hiff). cbv zeta in Hf. rewrite Hf. simpl.
    split_and!; [done|done|]. intros i Hi. rewrite (Hiff i Hi). split.
    + intros [?%Hm0|(x & ? & ?)]; [done|]. right. split; [done|]. by exists x.
    + intros [(t & q & ? & _)|(_ & x & ? & ?)]; [done|]. right. by exists x.
  - rewrite py_div_Ok by lia. cbn [mbind result_bind]. destruct (Z.leb_spec (r / bsz) 1) as [Hp|Hp].
    { right. by exists r. }
    set (per := r / bsz) in *. rewrite Hl0.
    set (mask1 := mark _ _ _ _).
    assert (zlen mask1 = end_ - start /\ forall i, start <= i < end_ ->
      mask1 !! Z.to_nat (i - start) = Some true <-> exists q, 1 <= q /\ i + 1 = q * per) as [Hl1 Hm1].
    { assert (forall j, j ∈ py_range_by ((start + per) / per * per - 1 - start) (end_ - start) per ->
        0 <= j) as Hnn.
      { intros j (n & Hn & -> & _)%elem_of_py_range_by; [|lia].
        pose proof (Z.div_mod (start + per) per ltac:(lia)).
        pose proof (Z.mod_pos_bound (start + per) per ltac:(lia)). nia. }
      split; [unfold mask1; edestruct (mark_spec 0) with (i := 0%nat) as [-> _]; done|].
      intros i Hi. unfold mask1. edestruct (mark_spec 0) as [_ ->]; [exact Hnn|].
      replace (0 + Z.of_nat (Z.to_nat (i - start))) with (i - start) by lia.
      rewrite elem_of_py_range_by by lia. rewrite <-(segment_ends start per i) by lia. split.
      - intros [?%Hm0|(_ & (j & ? & ? & _) & _)]; [done|]. by exists j.
      - intros (j & ? & ?). right. split; [lia|]. split; [|done]. exists j. split_and!; [done|lia|lia]. }
    destruct (boundary_states mask1 Hl1) as (mask' & Hf & Hl & Hiff). cbv zeta in Hf. rewrite Hf. simpl.
    split_and!; [done|done|]. intros i Hi. rewrite (Hiff i Hi), (Hm1 i Hi). split.
    + intros [(q & ? & ?)|(x & ? & ?)]; [left; by exists r, q|]. right. split; [done|]. by exists x.
    + intros [(t & q & [= <-] & ? & ?)|(_ & x & ? & ?)]; [left; by exists q|]. right. by exists x.
Qed.
End Mask.

(** * Properties *)

(** C15: the Mamba search never fails. Its hit ends on the last hash boundary in
    reach, among the aligned ones, whose state is cached for every group (0 if
    there is none), inside a block if the alignment is finer than a block; each
    group's list covers the hit with null blocks and, last, the block that the
    state is cached in. *)
Theorem mamba_hit_spec `{PoolEnv} p xs gids hs spec (k : nat) a drop max_length :
  let bs := pool_hash_block_size p in
  let bsz := Z.of_nat k * bs in
  pool_inv p xs -> groups_ok gids -> 0 < bs -> (0 < k)%nat -> 0 <= max_length ->
  is_mamba (spec_kind spec) = true -> spec_block_size spec = bsz ->
  a = bs \/ 0 < a /\ a mod bsz = 0 ->
  a < bsz \/ max_length / bsz * Z.of_nat k <= zlen hs ->
  exists computed F,
    mamba_find_longest_cache_hit (Hashes hs) max_length gids p spec drop a 1 1 =
      Ok (computed, Z.of_nat F * bs) /\
    last_hit p gids (fun i => hs !! i) (fun t => (Z.of_nat t * bs) mod a = 0)
      (Z.to_nat (Z.min (max_length / bs) (zlen hs))) F /\
    table (length gids) computed (Z.to_nat (cdiv (Z.of_nat F * bs) bsz))
      (fun g i => if (i =? Z.to_nat (cdiv (Z.of_nat F * bs) bsz) - 1)%nat
                  then hit_cell p gids (hs !! (F - 1)%nat) g else Some null_block).
Proof.
  intros bs bsz Hinv Hg Hbs Hk Hmax Hkind Hspec Ha Hlen.
  by apply (mamba_find_Ok p xs gids Hinv Hg hs max_length k a Hbs Hk Hmax Ha spec drop).
Qed.

(** Blocks of four hash units: a partial block's state is found. *)
Lemma mamba_hit_spec_witness :
  exists p xs computed, pool_inv p xs /\ is_cached p [0] (Some [Byte.x01]) = true /\
    mamba_find_longest_cache_hit (Hashes (replicate 6 [Byte.x01])) 95 [0] p
      (mkSpec 64 (MambaSpec MambaAlign 0)) false 16 1 1 = Ok (computed, 80).
Proof.
  destruct pool_with_hash as (p & xs & Hinv & Hbs & Hc).
  destruct (mamba_hit_spec p xs [0] (replicate 6 [Byte.x01]) (mkSpec 64 (MambaSpec MambaAlign 0)) 4 16
    false 95 Hinv one_group_ok) as (c & F & Hok & [Hr _ Hl] & _).
  - rewrite Hbs. reflexivity.
  - lia.
  - lia.
  - reflexivity.
  - rewrite Hbs. reflexivity.
  - left. by rewrite Hbs.
  - left. rewrite Hbs. reflexivity.
  - exists p, xs, c. split; [exact Hinv|]. split; [exact Hc|]. rewrite Hbs in *.
    assert (F = 5%nat) as ->; [|exact Hok].
    change (Z.to_nat (Z.min (95 / 16) (zlen (replicate 6 [Byte.x01])))) with 5%nat in *.
    destruct (decide (F = 5%nat)) as [|Hne]; [done|]. exfalso.
    assert (is_cached p [0] (replicate 6 [Byte.x01] !! (5 - 1)%nat) = false) as Hn.
    { apply Hl; [lia|]. reflexivity. }
    change (replicate 6 [Byte.x01] !! (5 - 1)%nat) with (Some [Byte.x01]) in Hn. congruence.
Defined.
