(* ===== verification/SingleType.v ===== *)
(** [SingleTypeKVCacheManager] of
    src/upstream/vllm/v1/core/single_type_kv_cache_manager.py with the managers
    of full, R-SWA, sliding-window and chunked-local attention: which blocks of
    the pool each request holds, how many a request will need, and the
    operations that touch, allocate, redirect, cache, null out and free them.

    The pool is shared between the managers and is passed along explicitly. A
    manager's class is the one registered for its spec, so the methods a
    subclass overrides dispatch on the spec. Block sizes and chunk sizes are
    positive, as the specs are built; division by zero is not modelled here. *)
From S2P Require Import Prelude FreeQueue Request BlockHash BlockPool CacheHit MambaHit.
Open Scope Z_scope.

(** * State *)

Record Manager := mkManager {
  kv_cache_spec : KVCacheSpec;
  scheduler_block_size : Z;
  mgr_block_size : Z;                             (** [self.block_size] *)
  mgr_enable_caching : bool;
  max_admission : option Z;                       (** [_max_admission_blocks_per_request] *)
  record_new_block_ids : bool;
  new_block_ids : list Z;
  req_to_blocks : gmap string (list bref);        (** a [defaultdict(list)] *)
  num_cached_block : gmap string Z;
  kv_cache_group_id : Z;
  use_eagle : bool;
  partial_hit_reqs : gmap string (Z * bref);
  pending_cow_copies : list (bref * bref)
}.

Definition set_blocks (t : gmap string (list bref)) (m : Manager) : Manager :=
  mkManager (kv_cache_spec m) (scheduler_block_size m) (mgr_block_size m) (mgr_enable_caching m)
    (max_admission m) (record_new_block_ids m) (new_block_ids m) t (num_cached_block m)
    (kv_cache_group_id m) (use_eagle m) (partial_hit_reqs m) (pending_cow_copies m).
Definition set_num_cached (c : gmap string Z) (m : Manager) : Manager :=
  mkManager (kv_cache_spec m) (scheduler_block_size m) (mgr_block_size m) (mgr_enable_caching m)
    (max_admission m) (record_new_block_ids m) (new_block_ids m) (req_to_blocks m) c
    (kv_cache_group_id m) (use_eagle m) (partial_hit_reqs m) (pending_cow_copies m).
Definition set_new_ids (l : list Z) (m : Manager) : Manager :=
  mkManager (kv_cache_spec m) (scheduler_block_size m) (mgr_block_size m) (mgr_enable_caching m)
    (max_admission m) (record_new_block_ids m) l (req_to_blocks m) (num_cached_block m)
    (kv_cache_group_id m) (use_eagle m) (partial_hit_reqs m) (pending_cow_copies m).
Definition set_partial (h : gmap string (Z * bref)) (m : Manager) : Manager :=
  mkManager (kv_cache_spec m) (scheduler_block_size m) (mgr_block_size m) (mgr_enable_caching m)
    (max_admission m) (record_new_block_ids m) (new_block_ids m) (req_to_blocks m)
    (num_cached_block m) (kv_cache_group_id m) (use_eagle m) h (pending_cow_copies m).
Definition set_cow (l : list (bref * bref)) (m : Manager) : Manager :=
  mkManager (kv_cache_spec m) (scheduler_block_size m) (mgr_block_size m) (mgr_enable_caching m)
    (max_admission m) (record_new_block_ids m) (new_block_ids m) (req_to_blocks m)
    (num_cached_block m) (kv_cache_group_id m) (use_eagle m) (partial_hit_reqs m) l.

Definition set_use_eagle (e : bool) (m : Manager) : Manager :=
  mkManager (kv_cache_spec m) (scheduler_block_size m) (mgr_block_size m) (mgr_enable_caching m)
    (max_admission m) (record_new_block_ids m) (new_block_ids m) (req_to_blocks m)
    (num_cached_block m) (kv_cache_group_id m) e (partial_hit_reqs m) (pending_cow_copies m).

(** [__init__], with the override of [MambaManager]: every rank holds the whole
    recurrent state. *)
Definition manager_init (spec : KVCacheSpec) (caching : bool) (group_id scheduler_block_size dcp : Z)
    (needs_kv_cache_zeroing : bool) (max_admission : option Z) : Manager :=
  mkManager spec scheduler_block_size
    (if (1 <? dcp) && negb (is_mamba (spec_kind spec)) then spec_block_size spec * dcp
     else spec_block_size spec)
    caching max_admission
    (needs_kv_cache_zeroing && match spec_kind spec with
     | FullAttentionSpec | TQFullAttentionSpec | MLAAttentionSpec | HiddenStateCacheSpec => true
     | _ => false end)
    [] ∅ ∅ group_id false ∅ [].

(** [self.req_to_blocks[rid]], and [.get(rid, ())]. *)
Definition blocks_of (m : Manager) (rid : string) : list bref := default [] (req_to_blocks m !! rid).

(** What [self.req_to_blocks[rid]] leaves in the [defaultdict]. *)
Definition ensure (rid : string) (m : Manager) : Manager :=
  set_blocks (<[rid := blocks_of m rid]> (req_to_blocks m)) m.

Definition set_table (rid : string) (blocks : list bref) (m : Manager) : Manager :=
  set_blocks (<[rid := blocks]> (req_to_blocks m)) m.

(** [get_num_skipped_tokens(n)] of the manager, and the whole blocks in it. *)
Definition skipped_tokens (m : Manager) (n : Z) : Z :=
  get_num_skipped_tokens (spec_kind (kv_cache_spec m)) n.

(** * Predicting the blocks a request needs *)

(** [_get_num_evictable_blocks]. *)
Definition get_num_evictable_blocks (p : BlockPool) (blocks : list bref) : Z :=
  foldr (fun b acc =>
    (if (ref_cnt (pheap p b) =? 0) && negb (is_null (pheap p b)) then 1 else 0) + acc) 0 blocks.

(** [_has_partial_local_hit]. *)
Definition has_partial_local_hit (m : Manager) (new_computed_blocks : list bref)
    (num_local_computed_tokens : Z) : bool :=
  (0 <? zlen new_computed_blocks) && negb (num_local_computed_tokens mod mgr_block_size m =? 0).

(** [get_num_blocks_to_allocate]. *)
Definition get_num_blocks_to_allocate (m : Manager) (p : BlockPool) (rid : string) (num_tokens : Z)
    (new_computed_blocks : list bref) (total_computed_tokens num_local_computed_tokens : Z)
    (apply_admission_cap : bool) : result Z :=
  let num_required_blocks := cdiv num_tokens (mgr_block_size m) in
  let num_required_blocks := match max_admission m with
    | Some cap => if apply_admission_cap then Z.min num_required_blocks cap else num_required_blocks
    | None => num_required_blocks end in
  let num_req_blocks := zlen (blocks_of m rid) in
  match num_cached_block m !! rid with
  | Some _ =>
      _ ← assert_ (zlen new_computed_blocks =? 0);
      Ok (Z.max (num_required_blocks - num_req_blocks) 0)
  | None =>
      let num_skipped_tokens := skipped_tokens m total_computed_tokens in
      let num_local_computed_blocks := zlen new_computed_blocks + num_req_blocks in
      let num_skipped_blocks := num_skipped_tokens / mgr_block_size m in
      let num_new_blocks :=
        Z.max (num_required_blocks - Z.max num_skipped_blocks num_local_computed_blocks) 0 in
      let num_skipped_new_computed_blocks := Z.max 0 (num_skipped_blocks - num_req_blocks) in
      let num_evictable_blocks := get_num_evictable_blocks p
        (py_from new_computed_blocks num_skipped_new_computed_blocks) in
      let num_new_blocks :=
        if has_partial_local_hit m new_computed_blocks num_local_computed_tokens
        then num_new_blocks + 1 else num_new_blocks in
      Ok (num_new_blocks + num_evictable_blocks)
  end.

Section Operations.
Context `{PoolEnv}.

(** * Giving blocks to a request *)

(** [add_local_computed_blocks]. *)
Definition add_local_computed_blocks (rid : string) (new_computed_blocks : list bref)
    (num_local_computed_tokens num_external_computed_tokens : Z) (m : Manager) (p : BlockPool)
    : result (Manager * BlockPool) :=
  let m := ensure rid m in
  _ ← assert_ (zlen (blocks_of m rid) =? 0);
  let num_total_computed_tokens := num_local_computed_tokens + num_external_computed_tokens in
  let num_skipped_blocks := skipped_tokens m num_total_computed_tokens / mgr_block_size m in
  let new_computed_blocks := if 0 <? num_skipped_blocks
    then py_from new_computed_blocks num_skipped_blocks else new_computed_blocks in
  p ← (if mgr_enable_caching m then touch new_computed_blocks p
       else _ ← assert_ (bool_decide (new_computed_blocks = [])); Ok p);
  let req_blocks := replicate (Z.to_nat num_skipped_blocks) null_block ++ new_computed_blocks in
  let m := set_table rid req_blocks m in
  let m := set_num_cached (<[rid := zlen req_blocks]> (num_cached_block m)) m in
  if has_partial_local_hit m new_computed_blocks num_local_computed_tokens then
    let block_idx := num_local_computed_tokens / mgr_block_size m in
    tail ← py_index new_computed_blocks (-1);
    let m := set_partial (<[rid := (block_idx, tail)]> (partial_hit_reqs m)) m in
    Ok (set_num_cached (<[rid := block_idx]> (num_cached_block m)) m, p)
  else Ok (m, p).

(** Append freshly allocated blocks to the table and, if recorded, their ids. *)
Definition extend_table (rid : string) (allocated_blocks : list bref) (m : Manager) : Manager :=
  let m := set_table rid (blocks_of m rid ++ allocated_blocks) m in
  if record_new_block_ids m
  then set_new_ids (new_block_ids m ++ (block_id <$> allocated_blocks)) m else m.

(** [allocate_external_computed_blocks]. *)
Definition allocate_external_computed_blocks (rid : string)
    (num_local_computed_tokens num_external_computed_tokens : Z) (m : Manager) (p : BlockPool)
    : result (Manager * BlockPool) :=
  let num_total_computed_tokens := num_local_computed_tokens + num_external_computed_tokens in
  let num_skipped_tokens := skipped_tokens m num_total_computed_tokens in
  let num_external_computed_tokens := if 0 <? num_skipped_tokens
    then Z.min (num_total_computed_tokens - num_skipped_tokens) num_external_computed_tokens
    else num_external_computed_tokens in
  if num_external_computed_tokens <=? 0 then Ok (m, p) else
  let m := ensure rid m in
  '(allocated_blocks, p) ← get_new_blocks
    (cdiv num_total_computed_tokens (mgr_block_size m) - zlen (blocks_of m rid)) p;
  Ok (extend_table rid allocated_blocks m, p).

(** [_apply_cow]. *)
Definition apply_cow (rid : string) (block_idx : Z) (source_block cow_block : bref)
    (m : Manager) (p : BlockPool) : result (Manager * BlockPool) :=
  let m := ensure rid m in
  let req_blocks := blocks_of m rid in
  _ ← assert_ (block_idx <? zlen req_blocks);
  b ← py_index req_blocks block_idx;
  _ ← assert_ (bool_decide (b = source_block));
  _ ← assert_ (negb (is_null (pheap p source_block)) && (0 <? ref_cnt (pheap p source_block)));
  let m := set_table rid (<[Z.to_nat block_idx := cow_block]> req_blocks) m in
  let m := set_cow (pending_cow_copies m ++ [(source_block, cow_block)]) m in
  Ok (m, with_heap (heap_upd (pheap p) cow_block (with_ref_cnt (ref_cnt (pheap p cow_block) + 1))) p).

(** [allocate_new_blocks]. *)
Definition allocate_new_blocks (rid : string) (num_tokens : Z) (m : Manager) (p : BlockPool)
    : result (list bref * Manager * BlockPool) :=
  '(cow_blocks, m, p) ←
    match partial_hit_reqs m !! rid with
    | None => Ok ([], m, p)
    | Some (block_idx, source_block) =>
        let m := set_partial (delete rid (partial_hit_reqs m)) m in
        '(l, p) ← get_new_blocks 1 p;
        cow_block ← py_index l 0;
        '(m, p) ← apply_cow rid block_idx source_block cow_block m p;
        Ok ([cow_block], set_new_ids (new_block_ids m ++ [block_id cow_block]) m, p)
    end;
  let m := ensure rid m in
  let num_new_blocks := cdiv num_tokens (mgr_block_size m) - zlen (blocks_of m rid) in
  if num_new_blocks <=? 0 then Ok (cow_blocks, m, p) else
  '(new_blocks, p) ← get_new_blocks num_new_blocks p;
  Ok (cow_blocks ++ new_blocks, extend_table rid new_blocks m, p).

(** [take_new_block_ids] and [take_pending_cow_copies]. *)
Definition take_new_block_ids (m : Manager) : list Z * Manager := (new_block_ids m, set_new_ids [] m).
Definition take_pending_cow_copies (m : Manager) : list (bref * bref) * Manager :=
  (pending_cow_copies m, set_cow [] m).

(** * Caching *)

(** [reachable_block_mask] by manager class: sliding window and Mamba have one. *)
Definition reachable_block_mask (m : Manager) (start_block end_block : Z)
    (retention_interval : option Z) (reachable_boundaries : list Z) : result (option (list bool)) :=
  match spec_kind (kv_cache_spec m) with
  | SlidingWindowSpec _ | SlidingWindowMLASpec _ =>
      window_reachable_block_mask start_block end_block (Some (scheduler_block_size m))
        (kv_cache_spec m) (use_eagle m) retention_interval reachable_boundaries
  | MambaSpec _ _ =>
      mamba_reachable_block_mask start_block end_block (Some (scheduler_block_size m))
        (kv_cache_spec m) retention_interval reachable_boundaries
  | _ => Ok None
  end.

(** [SingleTypeKVCacheManager.cache_blocks]. *)
Definition base_cache_blocks (r : Request) (num_tokens : Z) (retention_interval : option Z)
    (m : Manager) (p : BlockPool) : result (Request * Manager * BlockPool) :=
  let num_cached_blocks := default 0 (num_cached_block m !! request_id r) in
  let num_full_blocks := num_tokens / mgr_block_size m in
  if num_full_blocks <=? num_cached_blocks then Ok (r, m, p) else
  let reachable_boundaries := (num_prompt_tokens r - 1) ::
    (if shared_prefix_boundary r =? 0 then [] else [shared_prefix_boundary r]) in
  block_mask ← reachable_block_mask m num_cached_blocks num_full_blocks retention_interval
    reachable_boundaries;
  let m := ensure (request_id r) m in
  '(r, p) ← cache_full_blocks r (blocks_of m (request_id r)) num_cached_blocks num_full_blocks
    (mgr_block_size m) (kv_cache_group_id m) block_mask p;
  Ok (r, set_num_cached (<[request_id r := num_full_blocks]> (num_cached_block m)) m, p).

(** [_cache_partial_tail_block]. *)
Definition cache_partial_tail_block (r : Request) (num_tokens : Z) (m : Manager) (p : BlockPool)
    : result (Request * Manager * BlockPool) :=
  let hash_block_size := pool_hash_block_size p in
  q ← py_div (num_prompt_tokens r) hash_block_size;
  let boundary_tokens := q * hash_block_size in
  if (boundary_tokens =? 0) || (num_tokens <? boundary_tokens) then Ok (r, m, p) else
  if boundary_tokens mod mgr_block_size m =? 0 then Ok (r, m, p) else
  let m := ensure (request_id r) m in
  let blocks := blocks_of m (request_id r) in
  let block_idx := boundary_tokens / mgr_block_size m in
  if zlen blocks <=? block_idx then Ok (r, m, p) else
  b ← py_index blocks block_idx;
  '(_, r, p) ← cache_partial_block r b boundary_tokens (kv_cache_group_id m) (mgr_block_size m) p;
  Ok (r, m, p).

(** [cache_blocks] by manager class. *)
Definition cache_blocks (r : Request) (num_tokens : Z) (retention_interval : option Z)
    (m : Manager) (p : BlockPool) : result (Request * Manager * BlockPool) :=
  '(r, m, p) ← base_cache_blocks r num_tokens retention_interval m p;
  if negb (is_full_attention (spec_kind (kv_cache_spec m))) then Ok (r, m, p) else
  if mgr_block_size m =? pool_hash_block_size p then Ok (r, m, p) else
  cache_partial_tail_block r num_tokens m p.

(** * Taking blocks back *)

(** [pop_blocks_for_free]. *)
Definition pop_blocks_for_free (rid : string) (m : Manager) : list bref * Manager :=
  (blocks_of m rid,
   set_partial (delete rid (partial_hit_reqs m))
     (set_num_cached (delete rid (num_cached_block m))
       (set_blocks (delete rid (req_to_blocks m)) m))).

(** [free]. *)
Definition free (rid : string) (m : Manager) (p : BlockPool) : result (Manager * BlockPool) :=
  let '(blocks, m) := pop_blocks_for_free rid m in
  p ← free_blocks (reverse blocks) p;
  Ok (m, p).

(** The loop of [_remove_blocks_in_range], over the indices from the right. *)
Fixpoint null_out (idxs : list Z) (blocks freed : list bref) : result (list bref * list bref) :=
  match idxs with
  | [] => Ok (blocks, freed)
  | i :: idxs' =>
      b ← py_index blocks i;
      if bool_decide (b = null_block) then Ok (blocks, freed)
      else null_out idxs' (<[Z.to_nat i := null_block]> blocks) (freed ++ [b])
  end.

(** [_remove_blocks_in_range]. *)
Definition remove_blocks_in_range (rid : string) (first_block last_block : Z) (m : Manager)
    (p : BlockPool) : result (Manager * BlockPool) :=
  match req_to_blocks m !! rid with
  | None => Ok (m, p)
  | Some blocks =>
      if last_block <=? first_block then Ok (m, p) else
      let last_block := Z.min last_block (zlen blocks) in
      '(blocks, freed) ← null_out (py_range_down (last_block - 1) (first_block - 1)) blocks [];
      let m := set_table rid blocks m in
      match freed with
      | [] => Ok (m, p)
      | _ => p ← free_blocks freed p; Ok (m, p)
      end
  end.

(** [SingleTypeKVCacheManager.remove_skipped_blocks]. *)
Definition base_remove_skipped_blocks (rid : string) (processed_computed_tokens : Z) (m : Manager)
    (p : BlockPool) : result (Manager * BlockPool) :=
  let num_skipped_tokens := skipped_tokens m processed_computed_tokens in
  if num_skipped_tokens <=? 0 then Ok (m, p) else
  let m := ensure rid m in
  let num_skipped_blocks := Z.min (num_skipped_tokens / mgr_block_size m) (zlen (blocks_of m rid)) in
  remove_blocks_in_range rid 0 num_skipped_blocks m p.

(** [RSWAManager.remove_skipped_blocks] with a prompt length. *)
Definition rswa_remove_skipped_blocks (rswa_window : Z) (rid : string)
    (processed_computed_tokens num_prompt_tokens : Z) (m : Manager) (p : BlockPool)
    : result (Manager * BlockPool) :=
  let bs := mgr_block_size m in
  let first_gap_block := cdiv num_prompt_tokens bs in
  let window_start := Z.max num_prompt_tokens (processed_computed_tokens - rswa_window) in
  let last_gap_block := window_start / bs in
  remove_blocks_in_range rid first_gap_block last_gap_block m p.

(** [remove_skipped_blocks] by manager class. *)
Definition remove_skipped_blocks (rid : string) (processed_computed_tokens : Z)
    (num_prompt_tokens : option Z) (m : Manager) (p : BlockPool) : result (Manager * BlockPool) :=
  match spec_kind (kv_cache_spec m), num_prompt_tokens with
  | RSWASpec w, Some n => rswa_remove_skipped_blocks w rid processed_computed_tokens n m p
  | _, _ => base_remove_skipped_blocks rid processed_computed_tokens m p
  end.

End Operations.

(** [get_num_common_prefix_blocks] by manager class. *)
Fixpoint leading_blocks (p : BlockPool) (n : Z) (blocks : list bref) : Z :=
  match blocks with
  | [] => 0
  | b :: blocks' => if ref_cnt (pheap p b) =? n then 1 + leading_blocks p n blocks' else 0
  end.
Definition get_num_common_prefix_blocks (rid : string) (m : Manager) (p : BlockPool) : Z * Manager :=
  if is_full_attention (spec_kind (kv_cache_spec m)) then
    let m := ensure rid m in
    (leading_blocks p (Z.of_nat (size (req_to_blocks m))) (blocks_of m rid), m)
  else (0, m).

(** * Who holds which block *)

(** How often block [i] occurs in a list of blocks. *)
Definition refs_in (i : nat) (blocks : list bref) : Z := zlen (filter (fun b => b = Blk i) blocks).

Lemma refs_in_app i l1 l2 : refs_in i (l1 ++ l2) = refs_in i l1 + refs_in i l2.
Proof. unfold refs_in. rewrite filter_app, length_app. lia. Qed.

Lemma refs_in_nonneg i l : 0 <= refs_in i l.
Proof. unfold refs_in. lia. Qed.

Lemma refs_in_pos i l : Blk i ∈ l -> 1 <= refs_in i l.
Proof.
  intros Hin. unfold refs_in. assert (Blk i ∈ filter (fun b => b = Blk i) l) as Hf
    by (by apply list_elem_of_filter).
  destruct (filter _ l); [by apply elem_of_nil in Hf|]. simpl. lia.
Qed.

Lemma refs_in_cons i b l : refs_in i (b :: l) = (if decide (b = Blk i) then 1 else 0) + refs_in i l.
Proof. unfold refs_in. rewrite filter_cons. case_decide; simpl; lia. Qed.

Lemma refs_in_absent i l : Blk i ∉ l -> refs_in i l = 0.
Proof.
  induction l as [|b l IH]; intros Hi; [done|]. apply not_elem_of_cons in Hi as [? ?].
  rewrite refs_in_cons, decide_False, IH by congruence. done.
Qed.

Lemma refs_in_ids i ids : refs_in i (Blk <$> ids) = zlen (filter (fun j => j = i) ids).
Proof.
  induction ids as [|j ids IH]; [done|]. rewrite fmap_cons, refs_in_cons, IH, filter_cons.
  destruct (decide (j = i)) as [->|].
  - rewrite decide_True by done. simpl. lia.
  - by rewrite decide_False by congruence.
Qed.

Lemma refs_in_distinct i ids :
  distinct_blocks ids -> i <> 0%nat ->
  refs_in i (Blk <$> ids) = if decide (i ∈ ids) then 1 else 0.
Proof.
  intros Hd Hi. induction ids as [|j ids IH]; [done|].
  assert (distinct_blocks ids) as Hd'.
  { clear IH. unfold distinct_blocks in *. rewrite filter_cons in Hd.
    destruct (decide (j <> 0%nat)); [by apply NoDup_cons in Hd as [_ ?]|done]. }
  rewrite fmap_cons, refs_in_cons, IH by done.
  destruct (decide (j = i)) as [->|Hne].
  - destruct (decide (Blk i = Blk i)); [|done].
    destruct (decide (i ∈ i :: ids)) as [_|Hn]; [|by destruct Hn; apply elem_of_cons; left].
    rewrite decide_False; [done|]. intros Hin. unfold distinct_blocks in Hd.
    rewrite filter_cons_True in Hd by done. apply NoDup_cons in Hd as [Hd _].
    apply Hd. by apply list_elem_of_filter.
  - rewrite decide_False by congruence. simpl.
    destruct (decide (i ∈ ids)) as [Hin|Hin].
    + by rewrite decide_True by (by apply elem_of_cons; right).
    + rewrite decide_False; [done|]. intros [?|?]%elem_of_cons; done.
Qed.

Lemma refs_in_null i n : i <> 0%nat -> refs_in i (replicate n null_block) = 0.
Proof.
  intros Hi. apply refs_in_absent. intros [Heq _]%elem_of_replicate. unfold null_block in Heq.
  congruence.
Qed.

Lemma refs_in_insert i (k : nat) b b' l :
  l !! k = Some b ->
  refs_in i (<[k := b']> l) = refs_in i l - (if decide (b = Blk i) then 1 else 0)
    + (if decide (b' = Blk i) then 1 else 0).
Proof.
  revert k. induction l as [|c l IH]; intros [|k] Hk; simplify_eq/=.
  - rewrite !refs_in_cons. lia.
  - rewrite !refs_in_cons, (IH k) by done. lia.
Qed.

(** The sum of the occurrences over all requests. *)
Definition table_refs (t : gmap string (list bref)) (i : nat) : Z := msum (fun _ l => refs_in i l) t.

Lemma table_refs_delete t i rid :
  table_refs (delete rid t) i = table_refs t i - refs_in i (default [] (t !! rid)).
Proof.
  unfold table_refs. destruct (t !! rid) as [l|] eqn:E; [by rewrite (msum_delete _ t rid l E)|].
  rewrite delete_id by done. simpl. unfold refs_in at 3. simpl. lia.
Qed.

Lemma table_refs_insert t i rid l :
  table_refs (<[rid := l]> t) i = table_refs t i - refs_in i (default [] (t !! rid)) + refs_in i l.
Proof.
  unfold table_refs. rewrite <-insert_delete_eq, msum_fresh by apply lookup_delete_eq.
  pose proof (table_refs_delete t i rid). unfold table_refs in *. lia.
Qed.

Lemma table_refs_nonneg t i : 0 <= table_refs t i.
Proof. apply msum_nonneg. intros. apply refs_in_nonneg. Qed.

Lemma table_refs_lookup t i rid l : t !! rid = Some l -> refs_in i l <= table_refs t i.
Proof. apply (msum_lookup (fun _ l => refs_in i l)). intros. apply refs_in_nonneg. Qed.

(** References a manager accounts for: its tables, and both ends of each copy
    that is still to be handed to the worker. *)
Definition cow_refs (l : list (bref * bref)) (i : nat) : Z := refs_in i l.*1 + refs_in i l.*2.
Definition manager_refs (m : Manager) (i : nat) : Z :=
  table_refs (req_to_blocks m) i + cow_refs (pending_cow_copies m) i.

Lemma manager_refs_nonneg m i : 0 <= manager_refs m i.
Proof.
  unfold manager_refs, cow_refs. pose proof (table_refs_nonneg (req_to_blocks m) i).
  pose proof (refs_in_nonneg i (pending_cow_copies m).*1).
  pose proof (refs_in_nonneg i (pending_cow_copies m).*2). lia.
Qed.

(** A list of the pool's blocks, the real ones distinct. *)
Definition block_list (p : BlockPool) (l : list bref) : Prop :=
  exists ids, l = Blk <$> ids /\ Forall (block_of_pool p) ids /\ distinct_blocks ids.

(** [others i] references to block [i] are held outside the manager; the rest of
    its reference count is exactly the manager's. *)
Record owns (m : Manager) (p : BlockPool) (others : nat -> Z) : Prop := {
  ow_tables rid l : req_to_blocks m !! rid = Some l -> block_list p l;
  ow_refs i : valid_block p i -> ref_cnt (pheap p (Blk i)) = manager_refs m i + others i;
  ow_others i : 0 <= others i;
  ow_partial rid idx b : partial_hit_reqs m !! rid = Some (idx, b) ->
    exists l j, req_to_blocks m !! rid = Some l /\ b = Blk j /\ valid_block p j /\ 0 <= idx /\
      l !! Z.to_nat idx = Some b
}.

Lemma block_list_config p p' l : same_config p p' -> block_list p l -> block_list p' l.
Proof.
  intros Hc (ids & -> & Hb & Hd). exists ids. split_and!; [done| |done].
  eapply Forall_impl; [exact Hb|]. intros i [?|?]; [left; by apply (valid_block_config p p')|by right].
Qed.

Lemma block_list_nil p : block_list p [].
Proof. exists []. split_and!; [done|done|]. apply NoDup_nil_2. Qed.

Lemma owns_blocks_of m p others rid : owns m p others -> block_list p (blocks_of m rid).
Proof.
  intros Ho. unfold blocks_of. destruct (req_to_blocks m !! rid) eqn:E; simpl.
  - by eapply ow_tables.
  - apply block_list_nil.
Qed.

(** A block in a table is real and referenced, so it is not on the free list. *)
Lemma owns_in_use m p xs others rid j :
  pool_inv p xs -> owns m p others -> valid_block p j -> Blk j ∈ blocks_of m rid ->
  1 <= ref_cnt (pheap p (Blk j)) /\ j ∉ xs.
Proof.
  intros Hinv Ho Hv Hin. assert (1 <= ref_cnt (pheap p (Blk j))) as Hr.
  { rewrite (ow_refs _ _ _ Ho j Hv). pose proof (ow_others _ _ _ Ho j).
    unfold blocks_of in Hin. destruct (req_to_blocks m !! rid) as [l|] eqn:E; simpl in Hin.
    2:{ by apply elem_of_nil in Hin. }
    pose proof (table_refs_lookup _ j _ _ E). pose proof (refs_in_pos j l Hin).
    unfold manager_refs, cow_refs. pose proof (refs_in_nonneg j (pending_cow_copies m).*1).
    pose proof (refs_in_nonneg j (pending_cow_copies m).*2). lia. }
  split; [done|]. intros Hx. assert (j ∈ xs ++ []) as Hx' by (by rewrite app_nil_r).
  apply (pi_free _ _ _ Hinv) in Hx' as [_ ?]. lia.
Qed.

(** A free block occurs nowhere. *)
Lemma owns_free m p xs others rid j :
  pool_inv p xs -> owns m p others -> j ∈ xs -> Blk j ∉ blocks_of m rid /\
  valid_block p j /\ manager_refs m j = 0 /\ others j = 0.
Proof.
  intros Hinv Ho Hx. assert (j ∈ xs ++ []) as Hx' by (by rewrite app_nil_r).
  apply (pi_free _ _ _ Hinv) in Hx' as [Hv Hr]. split_and!; [|done|..].
  - intros Hin. by destruct (owns_in_use _ _ _ _ _ _ Hinv Ho Hv Hin).
  - rewrite (ow_refs _ _ _ Ho j Hv) in Hr. pose proof (ow_others _ _ _ Ho j).
    pose proof (manager_refs_nonneg m j). lia.
  - rewrite (ow_refs _ _ _ Ho j Hv) in Hr. pose proof (ow_others _ _ _ Ho j).
    pose proof (manager_refs_nonneg m j). lia.
Qed.

(** The rule every operation is verified with: it rewrites the table of one
    request and changes the counts by exactly the difference. *)
Lemma owns_change m p others m' p' rid l' :
  owns m p others -> same_config p p' ->
  req_to_blocks m' = <[rid := l']> (req_to_blocks m) -> block_list p l' ->
  (forall i, valid_block p i -> ref_cnt (pheap p' (Blk i)) = ref_cnt (pheap p (Blk i))
    + refs_in i l' - refs_in i (blocks_of m rid)
    + cow_refs (pending_cow_copies m') i - cow_refs (pending_cow_copies m) i) ->
  (forall rid', rid' <> rid -> partial_hit_reqs m' !! rid' = partial_hit_reqs m !! rid') ->
  (forall idx b, partial_hit_reqs m' !! rid = Some (idx, b) ->
    exists j, b = Blk j /\ valid_block p j /\ 0 <= idx /\ l' !! Z.to_nat idx = Some b) ->
  owns m' p' others.
Proof.
  intros Ho Hc Ht Hl Hr Hp Hprid. split.
  - intros rid' l. rewrite Ht, lookup_insert_Some. intros [[_ <-]|[_ Hl2]].
    + by eapply block_list_config.
    + eapply block_list_config; [done|]. by eapply ow_tables.
  - intros i Hv%(valid_block_config p p'); [|done]. rewrite Hr by done.
    rewrite (ow_refs _ _ _ Ho i Hv). unfold manager_refs. rewrite Ht, table_refs_insert.
    unfold blocks_of. lia.
  - apply (ow_others _ _ _ Ho).
  - intros rid' idx b Hpart. rewrite Ht. destruct (decide (rid' = rid)) as [->|Hne].
    + destruct (Hprid _ _ Hpart) as (j & -> & Hv & ? & ?). exists l', j. rewrite lookup_insert_eq.
      split_and!; try done. by apply (valid_block_config p p').
    + rewrite Hp in Hpart by done.
      destruct (ow_partial _ _ _ Ho _ _ _ Hpart) as (l & j & ? & -> & ? & ? & ?).
      exists l, j. rewrite lookup_insert_ne by done. split_and!; try done.
      by apply (valid_block_config p p').
Qed.

(** * The operations keep the ownership *)

(** The constants of a manager. *)
Definition same_manager (m m' : Manager) : Prop :=
  kv_cache_spec m' = kv_cache_spec m /\ mgr_block_size m' = mgr_block_size m /\
  mgr_enable_caching m' = mgr_enable_caching m /\ max_admission m' = max_admission m /\
  kv_cache_group_id m' = kv_cache_group_id m.

#[export] Instance same_manager_refl : Reflexive same_manager.
Proof. done. Qed.
#[export] Instance same_manager_trans : Transitive same_manager.
Proof. unfold same_manager. intros m1 m2 m3. intuition congruence. Qed.

(** Positive sizes. *)
Definition spec_ok (m : Manager) : Prop :=
  0 < mgr_block_size m /\
  match spec_kind (kv_cache_spec m) with
  | ChunkedLocalAttentionSpec c => 0 < c | _ => True end.

Lemma spec_ok_same m m' : same_manager m m' -> spec_ok m -> spec_ok m'.
Proof. intros (Hs & Hb & _). unfold spec_ok. by rewrite Hs, Hb. Qed.

(** Mamba skips all but the last token, which of no token is -1. *)
Lemma skipped_tokens_bounds m n : spec_ok m -> 0 <= n ->
  -1 <= skipped_tokens m n /\
  match window_of (spec_kind (kv_cache_spec m)) with
  | Some w => 1 <= w -> skipped_tokens m n <= n | None => skipped_tokens m n <= n end.
Proof.
  intros [_ Hk] Hn. unfold skipped_tokens, get_num_skipped_tokens, sliding_num_skipped_tokens,
    chunked_num_skipped_tokens.
  destruct (spec_kind (kv_cache_spec m)) as [| | | |w|c|w|w|? ?|]; simpl; try lia.
  pose proof (Z.div_pos n c Hn Hk). pose proof (Z.mul_div_le n c Hk). nia.
Qed.

Lemma skipped_blocks_ge m n :
  spec_ok m -> 0 <= n -> -1 <= skipped_tokens m n / mgr_block_size m.
Proof.
  intros Hs Hn. destruct (skipped_tokens_bounds m n Hs Hn) as [H0 _].
  apply Z.div_le_lower_bound; [apply Hs|]. destruct Hs as [Hbs _]. lia.
Qed.

Lemma distinct_drop n ids : distinct_blocks ids -> distinct_blocks (drop n ids).
Proof.
  unfold distinct_blocks. rewrite <-(take_drop n ids) at 1. rewrite filter_app, NoDup_app. tauto.
Qed.

Lemma distinct_app ids ids' :
  distinct_blocks ids -> distinct_blocks ids' ->
  (forall i, i <> 0%nat -> i ∈ ids -> i ∈ ids' -> False) -> distinct_blocks (ids ++ ids').
Proof.
  unfold distinct_blocks. intros H1 H2 H3. rewrite filter_app. apply NoDup_app.
  split_and!; [done| |done]. intros i [? ?]%list_elem_of_filter [_ ?]%list_elem_of_filter. eauto.
Qed.

Lemma distinct_null n : distinct_blocks (replicate n 0%nat).
Proof.
  unfold distinct_blocks. replace (filter _ _) with (@nil nat); [apply NoDup_nil_2|].
  symmetry. induction n as [|n IH]; [done|]. simpl. by rewrite filter_cons_False by tauto.
Qed.

Lemma block_list_app p l l' :
  block_list p l -> block_list p l' ->
  (forall i, i <> 0%nat -> Blk i ∈ l -> Blk i ∈ l' -> False) -> block_list p (l ++ l').
Proof.
  intros (ids & -> & Hb & Hd) (ids' & -> & Hb' & Hd') Hx. exists (ids ++ ids').
  rewrite fmap_app. split_and!; [done|by apply Forall_app|].
  apply distinct_app; [done..|]. intros i Hi H1 H2. apply (Hx i Hi); by apply list_elem_of_fmap_2.
Qed.

Lemma block_list_null p n : block_list p (replicate n null_block).
Proof.
  exists (replicate n 0%nat). rewrite fmap_replicate. split_and!; [done| |apply distinct_null].
  apply Forall_replicate. by right.
Qed.

Lemma distinct_insert ids k c :
  distinct_blocks ids -> c ∉ ids -> distinct_blocks (<[k := c]> ids).
Proof.
  intros Hd Hc. destruct (decide (k < length ids)%nat) as [Hk|Hk];
    [|by rewrite list_insert_ge by lia].
  destruct (lookup_lt_is_Some_2 ids k Hk) as [x Hx].
  pose proof (take_drop_middle ids k x Hx) as Heq. rewrite insert_take_drop by done.
  rewrite <-Heq in Hd, Hc.
  apply not_elem_of_app in Hc as [Hc1 [_ Hc2]%not_elem_of_cons].
  unfold distinct_blocks in *. rewrite filter_app in *. apply NoDup_app in Hd as (H1 & H2 & H3).
  assert (NoDup (filter (fun i => i <> 0%nat) (drop (S k) ids))) as H3'.
  { rewrite filter_cons in H3. destruct (decide (x <> 0%nat)); [by apply NoDup_cons in H3 as [_ ?]|done]. }
  apply NoDup_app. split_and!; [done| |].
  - intros i Hi. specialize (H2 i Hi). apply list_elem_of_filter in Hi as [Hi0 Hi].
    rewrite list_elem_of_filter, elem_of_cons in *. intros [_ [->|?]]; [done|]. apply H2. tauto.
  - rewrite filter_cons. destruct (decide (c <> 0%nat)); [|done].
    apply NoDup_cons. split; [|done]. by intros [_ ?]%list_elem_of_filter.
Qed.

Lemma block_list_insert p l k c :
  block_list p l -> block_of_pool p c -> Blk c ∉ l -> block_list p (<[k := Blk c]> l).
Proof.
  intros (ids & -> & Hb & Hd) Hc Hin. exists (<[k := c]> ids). rewrite list_fmap_insert.
  split_and!; [done|by apply Forall_insert|]. apply distinct_insert; [done|].
  intros Hci. apply Hin. by apply list_elem_of_fmap_2.
Qed.

Lemma block_list_drop p l n : block_list p l -> block_list p (drop n l).
Proof.
  intros (ids & -> & Hb & Hd). exists (drop n ids). rewrite fmap_drop.
  split_and!; [done|by apply Forall_drop|by apply distinct_drop].
Qed.

Lemma partial_cdiv n b : 0 < b -> n mod b <> 0 -> cdiv n b = n / b + 1.
Proof.
  intros Hb Hm. pose proof (cdiv_bounds n b Hb). pose proof (Z.div_mod n b ltac:(lia)).
  pose proof (Z.mod_pos_bound n b Hb). nia.
Qed.

Lemma py_index_neg1 {A} (l : list A) x : last l = Some x -> py_index l (-1) = Ok x.
Proof. intros [l' ->]%last_Some. apply py_index_last. Qed.

Lemma last_drop_lt {A} (l : list A) k : (k < length l)%nat -> last (drop k l) = last l.
Proof.
  intros Hk. rewrite <-(take_drop k l) at 2. rewrite last_app.
  destruct (last (drop k l)) eqn:E; [done|]. apply last_None in E.
  apply (f_equal length) in E. rewrite length_drop in E. simpl in E. lia.
Qed.

Section Ownership.
Context `{PoolEnv}.

Lemma touch_list_Ok l p xs :
  pool_inv p xs -> block_list p l ->
  exists p', touch l p = Ok p' /\ pool_inv p' (filter (fun j => Blk j ∉ l) xs) /\ same_config p p' /\
    (forall i, ref_cnt (pheap p' (Blk i)) = ref_cnt (pheap p (Blk i)) + refs_in i l) /\
    (forall i, pool_keys p' i = pool_keys p i).
Proof.
  intros Hinv (ids & -> & Hb & _).
  destruct (touch_Ok ids p xs Hinv) as (p' & Ht & Hi & (Hc & _ & Hr & Hk)).
  { intros i Hi. by eapply Forall_forall in Hb. }
  exists p'. split_and!; try done.
  - rewrite (filter_ext_in (fun j => Blk j ∉ Blk <$> ids) (fun j => j ∉ ids)); [done|].
    intros j _. rewrite list_elem_of_fmap. split; [|intros ? (? & [= ->] & ?); done].
    intros Hn Hj. apply Hn. by exists j.
  - intros i. by rewrite Hr, refs_in_ids.
Qed.

(** The blocks of a local hit that stay, after the skipped ones. *)
Definition kept_blocks (m : Manager) (l : list bref) (total : Z) : list bref :=
  drop (Z.to_nat (skipped_tokens m total / mgr_block_size m)) l.

(** What the caller of [add_local_computed_blocks] passes: cached blocks that
    cover exactly the local computed tokens, the last one real if it is partial. *)
Definition local_hit_ok (m : Manager) (p : BlockPool) (l : list bref) (local : Z) : Prop :=
  block_list p l /\ zlen l = cdiv local (mgr_block_size m) /\
  (mgr_enable_caching m = true \/ l = []) /\
  (local mod mgr_block_size m <> 0 -> exists j, valid_block p j /\ last l = Some (Blk j)).

Lemma add_local_Ok m p xs others rid l local ext :
  pool_inv p xs -> owns m p others -> spec_ok m -> blocks_of m rid = [] -> 0 <= local -> 0 <= ext ->
  local_hit_ok m p l local ->
  let skip := Z.to_nat (skipped_tokens m (local + ext) / mgr_block_size m) in
  let kept := kept_blocks m l (local + ext) in
  exists m' p', add_local_computed_blocks rid l local ext m p = Ok (m', p') /\
    pool_inv p' (filter (fun j => Blk j ∉ kept) xs) /\ same_config p p' /\ owns m' p' others /\
    same_manager m m' /\ blocks_of m' rid = replicate skip null_block ++ kept /\
    partial_hit_reqs m' !! rid =
      (if has_partial_local_hit m kept local
       then (fun b => (local / mgr_block_size m, b)) <$> last kept else None) /\
    pending_cow_copies m' = pending_cow_copies m /\
    (forall i, ref_cnt (pheap p' (Blk i)) = ref_cnt (pheap p (Blk i)) + refs_in i kept) /\
    forall rid', rid' <> rid -> blocks_of m' rid' = blocks_of m rid'.
Proof.
  intros Hinv Ho Hspec Hnil Hloc Hext (Hl & Hlen & Hcach & Htail) skip kept.
  pose proof (proj1 Hspec) as Hbs. set (bs := mgr_block_size m) in *.
  pose proof (skipped_blocks_ge m (local + ext) Hspec ltac:(lia)) as Hsk'. fold bs in Hsk'.
  assert (partial_hit_reqs m !! rid = None) as Hnone.
  { destruct (partial_hit_reqs m !! rid) as [[idx b]|] eqn:E; [|done].
    destruct (ow_partial _ _ _ Ho _ _ _ E) as (l0 & j & Ht & _ & _ & _ & Hlk).
    unfold blocks_of in Hnil. rewrite Ht in Hnil. simpl in Hnil. by rewrite Hnil in Hlk. }
  assert (block_list p kept) as Hkept by (by apply block_list_drop).
  unfold add_local_computed_blocks.
  assert (blocks_of (ensure rid m) rid = []) as ->
    by (unfold ensure, blocks_of at 1; simpl; by rewrite lookup_insert_eq).
  cbn [length Z.of_nat Z.eqb assert_ mbind result_bind].
  change (skipped_tokens (ensure rid m) (local + ext)) with (skipped_tokens m (local + ext)).
  change (mgr_block_size (ensure rid m)) with bs.
  assert ((if 0 <? skipped_tokens m (local + ext) / bs
           then py_from l (skipped_tokens m (local + ext) / bs) else l) = kept) as ->.
  { unfold kept, kept_blocks. fold bs. destruct (Z.ltb_spec 0 (skipped_tokens m (local + ext) / bs)).
    - by rewrite py_from_nonneg by lia.
    - by replace (Z.to_nat (skipped_tokens m (local + ext) / bs)) with 0%nat by lia. }
  destruct (touch_list_Ok kept p xs Hinv Hkept) as (p' & Ht & Hinv' & Hc & Hr & _).
  assert ((if mgr_enable_caching (ensure rid m) then touch kept p
           else _ ← assert_ (bool_decide (kept = [])); Ok p) = Ok p') as ->.
  { change (mgr_enable_caching (ensure rid m)) with (mgr_enable_caching m).
    destruct (mgr_enable_caching m); [done|]. destruct Hcach as [?| ->]; [done|].
    assert (kept = []) as Hk by (unfold kept, kept_blocks; by rewrite drop_nil).
    rewrite Hk in Ht |- *. simpl in *. done. }
  cbn [mbind result_bind]. fold skip. set (req := replicate skip null_block ++ kept).
  assert (block_list p req) as Hreq.
  { apply block_list_app; [apply block_list_null|done|]. intros i Hi Hin _.
    apply elem_of_replicate in Hin as [Heq _]. unfold null_block in Heq. congruence. }
  assert (forall i, valid_block p i -> refs_in i req = refs_in i kept) as Hreqr.
  { intros i [Hi _]. unfold req. rewrite refs_in_app, refs_in_null by lia. lia. }
  assert (forall idx b, has_partial_local_hit m kept local = true -> last kept = Some b ->
    idx = local / bs -> exists j, b = Blk j /\ valid_block p j /\ 0 <= idx /\
    req !! Z.to_nat idx = Some b) as Hpart.
  { intros idx b Hp Hlast ->. unfold has_partial_local_hit in Hp. fold bs in Hp. bools.
    pose proof (Z.div_pos local bs Hloc Hbs).
    destruct (Htail ltac:(done)) as (j & Hv & Hj).
    pose proof (partial_cdiv local bs Hbs ltac:(done)) as Hcd. rewrite <-Hlen in Hcd.
    assert (length kept = length l - skip)%nat as Hkl by (unfold kept, kept_blocks; apply length_drop).
    assert (last kept = Some (Blk j)) as Hj2.
    { unfold kept, kept_blocks. rewrite last_drop_lt; [done|]. fold bs. unfold skip in Hkl. lia. }
    rewrite Hj2 in Hlast. injection Hlast as <-. exists j. split_and!; [done|done|done|].
    unfold req. rewrite lookup_app_r; rewrite length_replicate; [|lia].
    rewrite last_lookup in Hj2. rewrite <-Hj2. f_equal. lia. }
  change (has_partial_local_hit (set_num_cached _ _) kept local) with (has_partial_local_hit m kept local).
  destruct (has_partial_local_hit m kept local) eqn:Ep.
  - destruct (last kept) as [b|] eqn:Elast.
    2:{ apply last_None in Elast. unfold has_partial_local_hit in Ep. by rewrite Elast in Ep. }
    rewrite (py_index_neg1 kept b Elast). cbn [mbind result_bind].
    eexists _, p'. split; [reflexivity|].
    split_and!; [done|done| |done| | |done|done|by intros; unfold blocks_of; simpl; rewrite !lookup_insert_ne by done].
    + eapply (owns_change m p others _ p' rid req); [done|done| |done| | |].
      * simpl. by rewrite insert_insert_eq.
      * intros i Hv. rewrite Hr, Hnil, Hreqr by done. simpl. unfold refs_in at 3. simpl. lia.
      * intros rid' Hne. simpl. by rewrite lookup_insert_ne.
      * intros idx b' Hlk. simpl in Hlk. rewrite lookup_insert_eq in Hlk. injection Hlk as <- <-.
        by apply Hpart.
    + unfold blocks_of. simpl. by rewrite lookup_insert_eq.
    + simpl. by rewrite lookup_insert_eq.
  - eexists _, p'. split; [reflexivity|].
    split_and!; [done|done| |done| |done|done|done|by intros; unfold blocks_of; simpl; rewrite !lookup_insert_ne by done].
    + eapply (owns_change m p others _ p' rid req); [done|done| |done| |done|].
      * simpl. by rewrite insert_insert_eq.
      * intros i Hv. rewrite Hr, Hnil, Hreqr by done. simpl. unfold refs_in at 3. simpl. lia.
      * intros idx b' Hlk. simpl in Hlk. by rewrite Hnone in Hlk.
    + unfold blocks_of. simpl. by rewrite lookup_insert_eq.
Qed.

(** Blocks taken from the pool are distinct, real, and nobody's. *)
Lemma fresh_blocks m p xs others n :
  pool_inv p xs -> owns m p others -> 0 <= n <= zlen xs ->
  let ids := take (Z.to_nat n) xs in
  exists p', get_new_blocks n p = Ok (Blk <$> ids, p') /\ pool_inv p' (drop (Z.to_nat n) xs) /\
    alloc_effect p p' ids /\ block_list p (Blk <$> ids) /\ distinct_blocks ids /\
    forall i, i ∈ ids -> (forall rid, Blk i ∉ blocks_of m rid) /\ valid_block p i /\
      ref_cnt (pheap p (Blk i)) = 0.
Proof.
  intros Hinv Ho Hn ids. destruct (get_new_blocks_Ok p xs n Hinv Hn) as (p' & Hg & Hi & Heff).
  assert (forall i, i ∈ ids -> (forall rid, Blk i ∉ blocks_of m rid) /\ valid_block p i /\
    ref_cnt (pheap p (Blk i)) = 0) as Hfree.
  { intros i Hin. apply elem_of_take in Hin as (k & Hin%list_elem_of_lookup_2 & _).
    split; [intros rid; by destruct (owns_free m p xs others rid i Hinv Ho Hin)|].
    destruct (owns_free m p xs others "" i Hinv Ho Hin) as (_ & ? & ? & ?).
    split; [done|]. rewrite (ow_refs _ _ _ Ho) by done. lia. }
  assert (distinct_blocks ids) as Hd.
  { apply NoDup_filter. pose proof (pi_nodup _ _ _ Hinv) as Hnd. rewrite app_nil_r in Hnd.
    rewrite <-(take_drop (Z.to_nat n) xs) in Hnd. by apply NoDup_app in Hnd as [? _]. }
  exists p'. split_and!; try done. exists ids. split_and!; [done| |done].
  apply Forall_forall. intros i Hin. left. by apply Hfree.
Qed.

(** Taking [n] blocks from the pool and appending them to a table. *)
Lemma extend_Ok m p xs others rid n :
  pool_inv p xs -> owns m p others -> 0 <= n <= zlen xs ->
  let new := Blk <$> take (Z.to_nat n) xs in
  exists p', get_new_blocks n p = Ok (new, p') /\ pool_inv p' (drop (Z.to_nat n) xs) /\
    same_config p p' /\ owns (extend_table rid new m) p' others /\
    same_manager m (extend_table rid new m) /\
    blocks_of (extend_table rid new m) rid = blocks_of m rid ++ new /\
    forall rid', rid' <> rid -> blocks_of (extend_table rid new m) rid' = blocks_of m rid'.
Proof.
  intros Hinv Ho Hn new.
  destruct (fresh_blocks m p xs others n Hinv Ho Hn) as (p' & Hg & Hi & (Hc & Hr & _) & Hnew & Hd & Hfree).
  fold new in Hg, Hnew. exists p'.
  assert (req_to_blocks (extend_table rid new m) =
    <[rid := blocks_of m rid ++ new]> (req_to_blocks m)) as Hreq.
  { unfold extend_table. simpl. by destruct (record_new_block_ids m). }
  split_and!; [done|done|done| | | |].
  - eapply (owns_change m p others _ p' rid); [done|done|exact Hreq| | | |].
    + apply block_list_app; [by eapply owns_blocks_of|done|].
      intros i _ Hin (j & [= ->] & Hj)%list_elem_of_fmap. by destruct (Hfree j Hj) as [Hno _]; destruct (Hno rid).
    + intros i Hv. rewrite Hr, refs_in_app. unfold extend_table.
      unfold new. rewrite refs_in_distinct by (done || (destruct Hv; lia)).
      destruct (decide (i ∈ take (Z.to_nat n) xs)) as [Hin|];
        [destruct (Hfree i Hin) as (_ & _ & ->)|];
        destruct (record_new_block_ids _); simpl; lia.
    + intros rid' _. unfold extend_table. by destruct (record_new_block_ids _).
    + intros idx b Hlk. assert (partial_hit_reqs m !! rid = Some (idx, b)) as Hp.
      { unfold extend_table in Hlk. by destruct (record_new_block_ids _). }
      destruct (ow_partial _ _ _ Ho _ _ _ Hp) as (l & j & Hl & -> & Hv & Hidx & Hlook).
      exists j. split_and!; [done|done|done|]. unfold blocks_of. rewrite Hl. simpl.
      by apply lookup_app_l_Some.
  - unfold extend_table. by destruct (record_new_block_ids _).
  - unfold blocks_of at 1. rewrite Hreq. by rewrite lookup_insert_eq.
  - intros rid' Hne. unfold blocks_of at 1. rewrite Hreq. by rewrite lookup_insert_ne.
Qed.

(** [_apply_cow] on a source block that is in use: the table entry is replaced,
    the copy is queued and the target referenced once more. *)
Lemma apply_cow_eval m p rid idx source cow :
  0 <= idx -> blocks_of m rid !! Z.to_nat idx = Some source ->
  is_null (pheap p source) = false -> 0 < ref_cnt (pheap p source) ->
  apply_cow rid idx source cow m p =
    Ok (set_cow (pending_cow_copies m ++ [(source, cow)])
          (set_table rid (<[Z.to_nat idx := cow]> (blocks_of m rid)) (ensure rid m)),
        with_heap (heap_upd (pheap p) cow (with_ref_cnt (ref_cnt (pheap p cow) + 1))) p).
Proof.
  intros Hidx Hlook Hnull Href. unfold apply_cow.
  assert (blocks_of (ensure rid m) rid = blocks_of m rid) as ->
    by (unfold ensure, blocks_of; simpl; by rewrite lookup_insert_eq).
  assert ((Z.to_nat idx < length (blocks_of m rid))%nat) as Hlt by (by eapply lookup_lt_Some).
  rewrite (assert_true (idx <? zlen (blocks_of m rid))) by (apply Z.ltb_lt; lia).
  cbn [mbind result_bind]. rewrite (py_index_Ok _ idx source) by done. cbn [mbind result_bind].
  rewrite (assert_true (bool_decide (source = source))) by (by apply bool_decide_eq_true).
  cbn [mbind result_bind]. rewrite Hnull, (assert_true _) by (by apply Z.ltb_lt). done.
Qed.

(** Redirecting a partial hit: the request gets a private block in place of the
    shared one, and both ends of the copy stay referenced. *)
Lemma cow_Ok m p xs others rid idx source c :
  pool_inv p (c :: xs) -> owns m p others -> partial_hit_reqs m !! rid = Some (idx, source) ->
  exists p1 m' p',
    get_new_blocks 1 p = Ok ([Blk c], p1) /\
    apply_cow rid idx source (Blk c) (set_partial (delete rid (partial_hit_reqs m)) m) p1
      = Ok (m', p') /\
    pool_inv p' xs /\ same_config p p' /\ owns m' p' others /\ same_manager m m' /\
    blocks_of m' rid = <[Z.to_nat idx := Blk c]> (blocks_of m rid) /\
    partial_hit_reqs m' !! rid = None /\
    pending_cow_copies m' = pending_cow_copies m ++ [(source, Blk c)].
Proof.
  intros Hinv Ho Hpart.
  destruct (ow_partial _ _ _ Ho _ _ _ Hpart) as (l & j & Hl & -> & Hv & Hidx & Hlook).
  destruct (get_new_blocks_Ok p (c :: xs) 1 Hinv ltac:(simpl; lia)) as (p1 & Hg & Hi1 & (Hc1 & Hr1 & _)).
  simpl in Hg, Hi1, Hr1.
  assert (blocks_of m rid = l) as Hbl by (unfold blocks_of; by rewrite Hl).
  assert (c ∈ c :: xs) as Hcin by (by apply elem_of_cons; left).
  destruct (owns_free m p _ others rid c Hinv Ho Hcin) as (Hcl & Hvc & Hmc & Hoc).
  assert (Blk j ∈ l) as Hjl by (by eapply list_elem_of_lookup_2).
  assert (j <> c) as Hjc by (intros ->; by rewrite Hbl in Hcl).
  destruct (owns_in_use m p _ others rid j Hinv Ho Hv) as [Hjr _]; [by rewrite Hbl|].
  exists p1.
  set (m1 := set_partial (delete rid (partial_hit_reqs m)) m).
  assert (ref_cnt (pheap p1 (Blk j)) = ref_cnt (pheap p (Blk j))) as Hrj.
  { rewrite Hr1, decide_False; [done|]. by rewrite list_elem_of_singleton. }
  rewrite (apply_cow_eval m1 p1 rid idx (Blk j)); [|done|by change (blocks_of m1 rid) with (blocks_of m rid); rewrite Hbl| |lia].
  2:{ rewrite (pi_null _ _ _ Hi1). apply bool_decide_eq_false_2. destruct Hv; lia. }
  change (blocks_of m1 rid) with (blocks_of m rid). rewrite Hbl.
  assert (valid_block p1 c) as Hvc1 by (by apply (valid_block_config p p1)).
  assert (c ∉ xs) as Hcxs.
  { pose proof (pi_nodup _ _ _ Hinv) as Hnd. rewrite app_nil_r in Hnd. by apply NoDup_cons in Hnd as [? _]. }
  assert (ref_cnt (pheap p1 (Blk c)) = 1) as Hrc.
  { rewrite Hr1, decide_True; [done|]. by apply list_elem_of_singleton. }
  rewrite Hrc. eexists _, _. split; [done|]. split; [reflexivity|].
  assert (pool_inv (with_heap (heap_upd (pheap p1) (Blk c) (with_ref_cnt (1 + 1))) p1) xs) as Hi2.
  { apply (pool_inv_set_ref p1 xs c [] []); [done| |right; lia]. right. by rewrite app_nil_r. }
  split_and!; [done|done| |done| | |done].
  - eapply (owns_change m p others _ _ rid (<[Z.to_nat idx := Blk c]> l)); [done|done| | | | |].
    + simpl. rewrite insert_insert_eq. done.
    + rewrite <-Hbl. apply block_list_insert; [by eapply owns_blocks_of|by left|done].
    + intros i Hvi. rewrite ref_cnt_set_ref, Hbl. simpl. unfold cow_refs.
      rewrite !fmap_app, !refs_in_app. simpl. rewrite !refs_in_cons.
      rewrite (refs_in_insert i _ (Blk j)) by done. rewrite Hr1.
      change (refs_in i []) with 0. destruct (decide (i = c)) as [->|Hic].
      * rewrite (ow_refs _ _ _ Ho) by done. rewrite (decide_False (P := Blk j = Blk c)) by congruence.
        rewrite (decide_True (P := Blk c = Blk c)) by done. lia.
      * rewrite (decide_False (P := i ∈ [c])) by (by rewrite list_elem_of_singleton).
        rewrite (decide_False (P := Blk c = Blk i)) by congruence. destruct (decide (Blk j = Blk i)); lia.
    + intros rid' Hne. simpl. by rewrite lookup_delete_ne.
    + intros idx' b' Hlk. simpl in Hlk. by rewrite lookup_delete_eq in Hlk.
  - unfold blocks_of. simpl. rewrite lookup_insert_eq. simpl. done.
  - simpl. by rewrite lookup_delete_eq.
Qed.

Lemma blocks_of_ensure m rid rid' : blocks_of (ensure rid m) rid' = blocks_of m rid'.
Proof.
  unfold ensure, blocks_of. simpl. destruct (decide (rid' = rid)) as [->|].
  - by rewrite lookup_insert_eq.
  - by rewrite lookup_insert_ne.
Qed.

Lemma owns_ensure m p others rid : owns m p others -> owns (ensure rid m) p others.
Proof.
  intros Ho. eapply (owns_change m p others _ p rid (blocks_of m rid)); try done.
  - by eapply owns_blocks_of.
  - intros i _. simpl. lia.
  - intros idx b Hp. destruct (ow_partial _ _ _ Ho _ _ _ Hp) as (l & j & Hl & ? & ? & ? & ?).
    exists j. unfold blocks_of. rewrite Hl. done.
Qed.

Lemma allocate_external_Ok m p xs others rid local ext :
  pool_inv p xs -> owns m p others ->
  let n := cdiv (local + ext) (mgr_block_size m) - zlen (blocks_of m rid) in
  0 <= n <= zlen xs ->
  exists k m' p', allocate_external_computed_blocks rid local ext m p = Ok (m', p') /\
    (k = 0%nat \/ Z.of_nat k = n) /\ pool_inv p' (drop k xs) /\ same_config p p' /\
    owns m' p' others /\ same_manager m m' /\
    blocks_of m' rid = blocks_of m rid ++ (Blk <$> take k xs) /\
    partial_hit_reqs m' = partial_hit_reqs m /\
    forall rid', rid' <> rid -> blocks_of m' rid' = blocks_of m rid'.
Proof.
  intros Hinv Ho n Hn. unfold allocate_external_computed_blocks.
  match goal with |- context [if ?c then Ok (m, p) else _] => destruct c end.
  - exists 0%nat, m, p. rewrite take_0, drop_0, app_nil_r. split_and!; try done. by left.
  - change (mgr_block_size (ensure rid m)) with (mgr_block_size m). rewrite blocks_of_ensure. fold n.
    destruct (extend_Ok (ensure rid m) p xs others rid n Hinv (owns_ensure _ _ _ rid Ho) Hn)
      as (p' & -> & Hi & Hc & Ho' & Hs & Hb & Hoth).
    simpl. exists (Z.to_nat n). eexists _, p'. split; [done|].
    split_and!; [right; lia|done|done|done|done|by rewrite Hb, blocks_of_ensure| |].
    + unfold extend_table. by destruct (record_new_block_ids _).
    + intros rid' Hne. by rewrite Hoth, blocks_of_ensure.
Qed.

(** The table after the redirect of a partial hit, if there is one. *)
Definition redirected (m : Manager) (rid : string) (xs : list nat) : list bref :=
  match partial_hit_reqs m !! rid, xs with
  | Some (idx, _), c :: _ => <[Z.to_nat idx := Blk c]> (blocks_of m rid)
  | _, _ => blocks_of m rid
  end.
Definition cow_count (m : Manager) (rid : string) : nat :=
  match partial_hit_reqs m !! rid with Some _ => 1 | None => 0 end.

(** The second half of [allocate_new_blocks]. *)
Lemma allocate_tail_Ok m p xs others rid num_tokens cow :
  pool_inv p xs -> owns m p others ->
  let n := Z.to_nat (cdiv num_tokens (mgr_block_size m) - zlen (blocks_of m rid)) in
  (n <= length xs)%nat ->
  exists m' p',
    (let m := ensure rid m in
     let num_new_blocks := cdiv num_tokens (mgr_block_size m) - zlen (blocks_of m rid) in
     if num_new_blocks <=? 0 then Ok (cow, m, p) else
     '(new_blocks, p) ← get_new_blocks num_new_blocks p;
     Ok (cow ++ new_blocks, extend_table rid new_blocks m, p)) =
      Ok (cow ++ (Blk <$> take n xs), m', p') /\
    pool_inv p' (drop n xs) /\ same_config p p' /\ owns m' p' others /\ same_manager m m' /\
    blocks_of m' rid = blocks_of m rid ++ (Blk <$> take n xs) /\
    partial_hit_reqs m' = partial_hit_reqs m.
Proof.
  intros Hinv Ho n Hn. cbv zeta. rewrite blocks_of_ensure.
  change (mgr_block_size (ensure rid m)) with (mgr_block_size m).
  destruct (Z.leb_spec (cdiv num_tokens (mgr_block_size m) - zlen (blocks_of m rid)) 0).
  - assert (n = 0%nat) as -> by lia. rewrite take_0, drop_0. simpl. rewrite !app_nil_r.
    exists (ensure rid m), p. rewrite blocks_of_ensure. split_and!; try done. by apply owns_ensure.
  - destruct (extend_Ok (ensure rid m) p xs others rid
      (cdiv num_tokens (mgr_block_size m) - zlen (blocks_of m rid)) Hinv
      (owns_ensure _ _ _ rid Ho) ltac:(lia)) as (p' & -> & Hi & Hc & Ho' & Hs & Hb & _).
    simpl. fold n in Hi, Ho', Hs, Hb |- *. eexists _, p'. split; [done|].
    split_and!; [done|done|done|done|by rewrite Hb, blocks_of_ensure|].
    unfold extend_table. by destruct (record_new_block_ids _).
Qed.

Lemma allocate_new_Ok m p xs others rid num_tokens :
  pool_inv p xs -> owns m p others ->
  let c := cow_count m rid in
  let n := Z.to_nat (cdiv num_tokens (mgr_block_size m) - zlen (blocks_of m rid)) in
  (c + n <= length xs)%nat ->
  exists m' p', allocate_new_blocks rid num_tokens m p = Ok (Blk <$> take (c + n) xs, m', p') /\
    pool_inv p' (drop (c + n) xs) /\ same_config p p' /\ owns m' p' others /\ same_manager m m' /\
    blocks_of m' rid = redirected m rid xs ++ (Blk <$> take n (drop c xs)) /\
    partial_hit_reqs m' !! rid = None.
Proof.
  intros Hinv Ho c n Hn. unfold allocate_new_blocks, redirected, cow_count in *.
  destruct (partial_hit_reqs m !! rid) as [[idx source]|] eqn:Epart.
  - destruct xs as [|x xs]; [simpl in *; lia|].
    destruct (cow_Ok m p xs others rid idx source x Hinv Ho Epart)
      as (p1 & m1 & p2 & Hg & Hcow & Hi & Hc & Ho1 & Hs & Hb & Hpart & _).
    rewrite Hg. cbn [mbind result_bind]. change (py_index [Blk x] 0) with (Ok (Blk x)).
    cbn [mbind result_bind]. rewrite Hcow. cbn [mbind result_bind].
    set (m2 := set_new_ids _ m1).
    assert (owns m2 p2 others) as Ho2 by (by destruct Ho1).
    assert (blocks_of m2 rid = <[Z.to_nat idx := Blk x]> (blocks_of m rid)) as Hb2 by done.
    assert (same_manager m m2) as Hs2 by done.
    assert (Z.to_nat (cdiv num_tokens (mgr_block_size m2) - zlen (blocks_of m2 rid)) = n) as Hn2.
    { rewrite Hb2, length_insert. unfold n. destruct Hs2 as (_ & -> & _). done. }
    destruct (allocate_tail_Ok m2 p2 xs others rid num_tokens [Blk x] Hi Ho2)
      as (m' & p' & Heq & Hi' & Hc' & Ho' & Hs' & Hb' & Hp'); [rewrite Hn2; simpl in Hn; lia|].
    rewrite Hn2 in *. exists m', p'. split; [exact Heq|]. change (c + n)%nat with (S n).
    split_and!; [done|by etrans|done|by etrans| |by rewrite Hp'].
    rewrite Hb', Hb2. done.
  - destruct (allocate_tail_Ok m p xs others rid num_tokens [] Hinv Ho)
      as (m' & p' & Heq & Hi' & Hc' & Ho' & Hs' & Hb' & Hp'); [fold n; lia|].
    fold n in Heq, Hi', Hb'. change (c + n)%nat with n. exists m', p'.
    split; [exact Heq|]. split_and!; [done|done|done|done|done|by rewrite Hp'].
Qed.

(** The eviction candidates among a request's hit are the blocks touching them
    takes off the free list. *)
Lemma evictable_count p xs l :
  pool_inv p xs -> block_list p l ->
  get_num_evictable_blocks p l = zlen xs - zlen (filter (fun j => Blk j ∉ l) xs).
Proof.
  intros Hinv (ids & -> & Hb & Hd).
  assert (NoDup xs) as Hnd by (pose proof (pi_nodup _ _ _ Hinv) as Hn; by rewrite app_nil_r in Hn).
  assert (forall i, i ∈ xs <-> valid_block p i /\ ref_cnt (pheap p (Blk i)) = 0) as Hfree.
  { intros i. pose proof (pi_free _ _ _ Hinv i) as Hf. by rewrite app_nil_r in Hf. }
  assert (get_num_evictable_blocks p (Blk <$> ids) = zlen (filter (fun i => i ∈ xs) ids)) as ->.
  { clear Hd. induction Hb as [|i ids Hi _ IH]; [done|]. rewrite fmap_cons, filter_cons.
    unfold get_num_evictable_blocks in *. cbn [foldr]. rewrite IH, (pi_null _ _ _ Hinv).
    destruct (decide (i ∈ xs)) as [Hx|Hx].
    - apply Hfree in Hx as [[? ?] ->]. rewrite bool_decide_eq_false_2 by lia. simpl. lia.
    - destruct Hi as [Hv| ->].
      + destruct (Z.eqb_spec (ref_cnt (pheap p (Blk i))) 0); [|simpl; lia].
        exfalso. apply Hx, Hfree. done.
      + rewrite bool_decide_eq_true_2, andb_false_r by done. simpl. lia. }
  assert (filter (fun i => i ∈ xs) ids ≡ₚ filter (fun j => Blk j ∈ Blk <$> ids) xs) as ->.
  { apply NoDup_Permutation.
    - replace (filter (fun i => i ∈ xs) ids)
        with (filter (fun i => i ∈ xs) (filter (fun i => i <> 0%nat) ids)); [by apply NoDup_filter|].
      rewrite list_filter_filter. apply list_filter_iff. intros i. split; [tauto|].
      intros Hx. split; [done|]. apply Hfree in Hx as [[? _] _]. lia.
    - by apply NoDup_filter.
    - intros i. rewrite !list_elem_of_filter. split.
      + intros [? ?]. split; [by apply list_elem_of_fmap_2|done].
      + intros [(j & [= ->] & ?)%list_elem_of_fmap ?]. done. }
  assert (forall (Q : nat -> Prop) `{!forall x, Decision (Q x)} (l : list nat),
    zlen (filter Q l) + zlen (filter (fun x => ~ Q x) l) = zlen l) as Hsplit.
  { intros Q HQ l. induction l as [|x l IH]; [done|]. rewrite !filter_cons.
    destruct (decide (Q x)), (decide (~ Q x)); simpl; try tauto; lia. }
  pose proof (Hsplit (fun j => Blk j ∈ Blk <$> ids) _ xs). lia.
Qed.

(** The admission of a new request: hits touched, external and new blocks
    allocated. *)
Definition admit_request (rid : string) (l : list bref) (local ext num_tokens : Z)
    (m : Manager) (p : BlockPool) : result (list bref * Manager * BlockPool) :=
  '(m, p) ← add_local_computed_blocks rid l local ext m p;
  '(m, p) ← allocate_external_computed_blocks rid local ext m p;
  allocate_new_blocks rid num_tokens m p.

(** A new request: no blocks, not yet counted as cached. *)
Definition new_request (m : Manager) (rid : string) : Prop :=
  blocks_of m rid = [] /\ num_cached_block m !! rid = None.

(** The sliding window, if there is one, holds at least one token. *)
Definition window_ok (m : Manager) : Prop :=
  match window_of (spec_kind (kv_cache_spec m)) with Some w => 1 <= w | None => True end.

Lemma skipped_blocks_le m total :
  spec_ok m -> window_ok m -> 0 <= total ->
  -1 <= skipped_tokens m total / mgr_block_size m <= cdiv total (mgr_block_size m).
Proof.
  intros Hs Hw Ht. pose proof (skipped_blocks_ge m total Hs Ht).
  destruct (skipped_tokens_bounds m total Hs Ht) as [_ Hsk].
  assert (skipped_tokens m total <= total) as Hle
    by (unfold window_ok in Hw; destruct (window_of _); auto).
  destruct Hs as [Hbs _]. split; [done|].
  pose proof (cdiv_bounds total _ Hbs). pose proof (Z.mul_div_le (skipped_tokens m total) _ Hbs). nia.
Qed.

Lemma predicted_new m p rid num_tokens l local ext :
  spec_ok m -> 0 <= local -> 0 <= ext -> new_request m rid ->
  get_num_blocks_to_allocate m p rid num_tokens l (local + ext) local false =
    Ok (Z.max (cdiv num_tokens (mgr_block_size m) -
          Z.max (skipped_tokens m (local + ext) / mgr_block_size m) (zlen l)) 0
        + (if has_partial_local_hit m l local then 1 else 0)
        + get_num_evictable_blocks p (kept_blocks m l (local + ext))).
Proof.
  intros Hs Hl He [Hb Hc]. unfold get_num_blocks_to_allocate. rewrite Hc, Hb. simpl.
  pose proof (skipped_blocks_ge m (local + ext) Hs ltac:(lia)).
  assert (match max_admission m with Some cap => cdiv num_tokens (mgr_block_size m)
    | None => cdiv num_tokens (mgr_block_size m) end = cdiv num_tokens (mgr_block_size m)) as ->
    by (by destruct (max_admission m)).
  rewrite Z.add_0_r, Z.sub_0_r, py_from_nonneg by lia. unfold kept_blocks.
  replace (Z.to_nat (Z.max 0 _)) with (Z.to_nat (skipped_tokens m (local + ext) / mgr_block_size m))
    by lia.
  destruct (has_partial_local_hit m l local); f_equal; lia.
Qed.

Lemma admit_request_Ok m p xs others rid l local ext num_tokens n :
  pool_inv p xs -> owns m p others -> spec_ok m -> window_ok m -> new_request m rid ->
  0 <= local -> 0 <= ext -> local + ext <= num_tokens -> local_hit_ok m p l local ->
  get_num_blocks_to_allocate m p rid num_tokens l (local + ext) local false = Ok n ->
  n <= get_num_free_blocks p ->
  exists new m' p' xs', admit_request rid l local ext num_tokens m p = Ok (new, m', p') /\
    pool_inv p' xs' /\ owns m' p' others /\
    get_num_free_blocks p - get_num_free_blocks p' =
      n - (if has_partial_local_hit m l local &&
              negb (has_partial_local_hit m (kept_blocks m l (local + ext)) local) then 1 else 0) /\
    num_tokens <= zlen (blocks_of m' rid) * mgr_block_size m.
Proof.
  intros Hinv Ho Hs Hw Hnew Hl0 He0 Htot Hhit Hpred Hn. pose proof (proj1 Hs) as Hbs.
  rewrite predicted_new in Hpred by done. injection Hpred as <-.
  rewrite (pool_inv_free _ _ Hinv) in *. destruct Hhit as (Hl & Hlen & Hrest).
  rewrite (evictable_count p xs) in * by (done || by apply block_list_drop).
  destruct (skipped_blocks_le m (local + ext) Hs Hw ltac:(lia)) as [Hsk Hskle].
  destruct (add_local_Ok m p xs others rid l local ext Hinv Ho Hs (proj1 Hnew) Hl0 He0)
    as (m1 & p1 & Hadd & Hi1 & Hc1 & Ho1 & Hs1 & Hb1 & Hp1 & _); [done|].
  set (kept := kept_blocks m l (local + ext)) in *. set (xs1 := filter _ xs) in *.
  set (bs := mgr_block_size m) in *. set (skip := skipped_tokens m (local + ext) / bs) in *.
  set (req := cdiv num_tokens bs) in *.
  assert (mgr_block_size m1 = bs) as Hbs1 by (by destruct Hs1 as (_ & ? & _)).
  assert (zlen (blocks_of m1 rid) = Z.max skip (zlen l)) as Hlen1.
  { rewrite Hb1, length_app, length_replicate. unfold kept, kept_blocks. rewrite length_drop.
    fold bs. fold skip. lia. }
  assert (Z.of_nat (cow_count m1 rid) = if has_partial_local_hit m kept local then 1 else 0) as Hcow.
  { unfold cow_count. rewrite Hp1. destruct (has_partial_local_hit m kept local) eqn:E; [|done].
    unfold has_partial_local_hit in E. bools. destruct (last kept) eqn:El; [done|].
    apply last_None in El. rewrite El in *. simpl in *. lia. }
  assert (has_partial_local_hit m kept local = true -> has_partial_local_hit m l local = true) as Hpp.
  { unfold has_partial_local_hit. intros E. bools. apply andb_true_iff. split; [|by apply negb_true_iff, Z.eqb_neq].
    apply Z.ltb_lt. unfold kept, kept_blocks in *. rewrite length_drop in *. lia. }
  pose proof (cdiv_mono local (local + ext) bs Hbs ltac:(lia)) as Hcd1.
  pose proof (cdiv_mono (local + ext) num_tokens bs Hbs Htot) as Hcd2. fold req in Hcd2.
  destruct (allocate_external_Ok m1 p1 xs1 others rid local ext Hi1 Ho1)
    as (k & m2 & p2 & Hext & Hk & Hi2 & Hc2 & Ho2 & Hs2 & Hb2 & Hp2 & _).
  { rewrite Hbs1, Hlen1. destruct (has_partial_local_hit m l local); lia. }
  rewrite Hbs1, Hlen1 in Hk.
  assert (mgr_block_size m2 = bs) as Hbs2 by (destruct Hs2 as (_ & -> & _); done).
  assert ((k <= length xs1)%nat) as Hkx by (destruct (has_partial_local_hit m l local); lia).
  assert (zlen (blocks_of m2 rid) = Z.max skip (zlen l) + Z.of_nat k) as Hlen2.
  { rewrite Hb2, length_app, length_fmap, length_take. lia. }
  assert (cow_count m2 rid = cow_count m1 rid) as Hcow2 by (unfold cow_count; by rewrite Hp2).
  assert (length (drop k xs1) = (length xs1 - k)%nat) as Hlx by apply length_drop.
  destruct (allocate_new_Ok m2 p2 (drop k xs1) others rid num_tokens Hi2 Ho2)
    as (m3 & p3 & Hal & Hi3 & Hc3 & Ho3 & Hs3 & Hb3 & Hp3).
  { rewrite Hbs2, Hcow2, Hlx, Hlen2. fold req.
    destruct (has_partial_local_hit m l local), (has_partial_local_hit m kept local); lia. }
  rewrite Hbs2, Hcow2, Hlen2 in *. fold req in Hal, Hi3, Hb3 |- *.
  eexists _, m3, p3, _. unfold admit_request. rewrite Hadd. cbn [mbind result_bind].
  rewrite Hext. cbn [mbind result_bind]. split; [exact Hal|]. split_and!; [exact Hi3|done| |].
  - rewrite (pool_inv_free _ _ Hi3), length_drop, Hlx.
    destruct (has_partial_local_hit m l local), (has_partial_local_hit m kept local); simpl;
      try (specialize (Hpp eq_refl)); lia.
  - rewrite Hb3, length_app, length_fmap, length_take, length_drop, Hlx.
    assert (length (redirected m2 rid (drop k xs1)) = length (blocks_of m2 rid)) as ->.
    { unfold redirected. destruct (partial_hit_reqs m2 !! rid) as [[? ?]|]; [|done].
      destruct (drop k xs1); [done|]. by rewrite length_insert. }
    apply cdiv_le_iff; [done|]. fold req.
    destruct (has_partial_local_hit m l local), (has_partial_local_hit m kept local); lia.
Qed.

(** ** Freeing *)

Lemma refs_in_reverse i l : refs_in i (reverse l) = refs_in i l.
Proof. unfold refs_in. by rewrite reverse_Permutation. Qed.

Lemma block_list_reverse p l : block_list p l -> block_list p (reverse l).
Proof.
  intros (ids & -> & Hb & Hd). exists (reverse ids). rewrite fmap_reverse.
  split_and!; [done|by apply Forall_reverse|]. unfold distinct_blocks. by rewrite reverse_Permutation.
Qed.

Lemma free_list_Ok l p xs :
  pool_inv p xs -> block_list p l ->
  (forall i, valid_block p i -> Blk i ∈ l -> 1 <= ref_cnt (pheap p (Blk i))) ->
  exists p' xs', free_blocks l p = Ok p' /\ pool_inv p' xs' /\ same_config p p' /\
    (forall i, valid_block p i ->
      ref_cnt (pheap p' (Blk i)) = ref_cnt (pheap p (Blk i)) - refs_in i l) /\
    (forall i, pool_keys p' i = pool_keys p i).
Proof.
  intros Hinv (ids & -> & Hb & Hd) Hr.
  destruct (free_blocks_Ok ids p xs Hinv Hd) as (p' & Hf & Hi & (Hc & _ & Hr' & Hk)).
  { intros i Hin Hi. eapply Forall_forall in Hb as [Hv|?]; [|done|exact Hin].
    split; [done|]. apply Hr; [done|]. by apply list_elem_of_fmap_2. }
  exists p'. eexists. split_and!; [done|exact Hi|done| |done].
  intros i [Hi0 Hv]. rewrite Hr' by lia. by rewrite refs_in_distinct by (done || lia).
Qed.

(** Any list of the pool's blocks, repetitions included. *)
Definition pool_list (p : BlockPool) (l : list bref) : Prop :=
  exists ids, l = Blk <$> ids /\ Forall (block_of_pool p) ids.

Lemma pool_list_nil p : pool_list p [].
Proof. exists []. split; [done|constructor]. Qed.

Lemma pool_list_app p l l' : pool_list p l -> pool_list p l' -> pool_list p (l ++ l').
Proof.
  intros (ids & -> & H1) (ids' & -> & H2). exists (ids ++ ids'). rewrite fmap_app.
  split; [done|by apply Forall_app].
Qed.

Lemma pool_list_concat p ls : Forall (pool_list p) ls -> pool_list p (concat ls).
Proof. induction 1; [apply pool_list_nil|by apply pool_list_app]. Qed.

Lemma pool_list_config p p' l : same_config p p' -> pool_list p l -> pool_list p' l.
Proof.
  intros Hc (ids & -> & H1). exists ids. split; [done|]. eapply Forall_impl; [exact H1|].
  intros i [Hv|?]; [left; by apply (valid_block_config p p')|by right].
Qed.

Lemma block_list_pool p l : block_list p l -> pool_list p l.
Proof. intros (ids & -> & H1 & _). by exists ids. Qed.

Lemma free_pool_list_Ok l p xs :
  pool_inv p xs -> pool_list p l ->
  (forall i, valid_block p i -> refs_in i l <= ref_cnt (pheap p (Blk i))) ->
  exists p' xs', free_blocks l p = Ok p' /\ pool_inv p' xs' /\ same_config p p' /\
    (forall i, valid_block p i ->
      ref_cnt (pheap p' (Blk i)) = ref_cnt (pheap p (Blk i)) - refs_in i l) /\
    (forall i, pool_keys p' i = pool_keys p i).
Proof.
  intros Hinv (ids & -> & Hb) Hr.
  destruct (free_any_Ok ids p xs Hinv) as (p' & xs' & Hf & Hi & Hc & Hr' & Hk).
  { intros i Hin Hi. eapply Forall_forall in Hb as [Hv|?]; [|done|exact Hin].
    split; [done|]. specialize (Hr i Hv). by rewrite refs_in_ids in Hr. }
  exists p', xs'. split_and!; try done.
  intros i [Hi0 Hv]. rewrite refs_in_ids. apply Hr'. lia.
Qed.

Lemma touch_pool_list_Ok l p xs :
  pool_inv p xs -> pool_list p l ->
  exists p' xs', touch l p = Ok p' /\ pool_inv p' xs' /\ same_config p p' /\
    (forall i, ref_cnt (pheap p' (Blk i)) = ref_cnt (pheap p (Blk i)) + refs_in i l) /\
    (forall i, pool_keys p' i = pool_keys p i).
Proof.
  intros Hinv (ids & -> & Hb).
  destruct (touch_Ok ids p xs Hinv) as (p' & Ht & Hi & (Hc & _ & Hr & Hk)).
  { intros i Hi. by eapply Forall_forall in Hb. }
  exists p'. eexists. split_and!; [done|exact Hi|done| |done]. intros i. by rewrite Hr, refs_in_ids.
Qed.

Lemma free_Ok m p xs others rid :
  pool_inv p xs -> owns m p others ->
  exists m' p' xs', free rid m p = Ok (m', p') /\ pool_inv p' xs' /\ same_config p p' /\
    owns m' p' others /\ same_manager m m' /\ req_to_blocks m' = delete rid (req_to_blocks m) /\
    num_cached_block m' !! rid = None /\ partial_hit_reqs m' !! rid = None /\
    (forall i, valid_block p i ->
      ref_cnt (pheap p' (Blk i)) = ref_cnt (pheap p (Blk i)) - refs_in i (blocks_of m rid)) /\
    (forall i, pool_keys p' i = pool_keys p i).
Proof.
  intros Hinv Ho. pose proof (owns_blocks_of m p others rid Ho) as Hl.
  destruct (free_list_Ok (reverse (blocks_of m rid)) p xs Hinv (block_list_reverse _ _ Hl))
    as (p' & xs' & Hf & Hi & Hc & Hr & Hk).
  { intros i Hv Hin. rewrite elem_of_reverse in Hin. by eapply owns_in_use. }
  unfold free, pop_blocks_for_free. rewrite Hf. simpl. eexists _, p', xs'. split; [reflexivity|].
  assert (forall i, valid_block p i -> ref_cnt (pheap p' (Blk i)) =
    ref_cnt (pheap p (Blk i)) - refs_in i (blocks_of m rid)) as Hr'.
  { intros i Hv. by rewrite Hr, refs_in_reverse. }
  split_and!; try done; [|simpl; apply lookup_delete_eq|simpl; apply lookup_delete_eq]. split.
  - simpl. intros rid' l [_ Hlk]%lookup_delete_Some. eapply block_list_config; [done|].
    by eapply ow_tables.
  - intros i Hv%(valid_block_config p p'); [|done]. rewrite Hr', (ow_refs _ _ _ Ho i Hv) by done.
    unfold manager_refs. simpl. rewrite table_refs_delete. unfold blocks_of. lia.
  - apply (ow_others _ _ _ Ho).
  - simpl. intros rid' idx b [Hne Hp]%lookup_delete_Some.
    destruct (ow_partial _ _ _ Ho _ _ _ Hp) as (l & j & Hlk & -> & Hv & ? & ?).
    exists l, j. rewrite lookup_delete_ne by done. split_and!; try done.
    by apply (valid_block_config p p').
Qed.

(** ** Nulling out skipped blocks *)

(** The loop stops at the first null block from the right. *)
Lemma null_out_Ok f n : forall blocks freed,
  (f <= n <= length blocks)%nat ->
  exists t, (f <= t <= n)%nat /\
    null_out (py_range_down (Z.of_nat n - 1) (Z.of_nat f - 1)) blocks freed =
      Ok (take t blocks ++ replicate (n - t) null_block ++ drop n blocks,
          freed ++ reverse (take (n - t) (drop t blocks))) /\
    (t = f \/ blocks !! (t - 1)%nat = Some null_block).
Proof.
  remember (n - f)%nat as d eqn:Hd. revert n Hd. induction d as [|d IH]; intros n Hd blocks freed Hn.
  - exists n. rewrite py_range_down_nil by lia. rewrite Nat.sub_diag. simpl.
    rewrite take_drop, app_nil_r. split_and!; [lia|lia|done|left; lia].
  - rewrite py_range_down_cons by lia. simpl.
    destruct (lookup_lt_is_Some_2 blocks (n - 1)%nat ltac:(lia)) as [b Hb].
    rewrite (py_index_Ok blocks (Z.of_nat n - 1) b);
      [|lia|by replace (Z.to_nat _) with (n - 1)%nat by lia]. simpl.
    case_bool_decide as Hnull.
    + exists n. rewrite Nat.sub_diag. simpl. rewrite take_drop, app_nil_r.
      split_and!; [lia|lia|done|right; congruence].
    + replace (Z.to_nat (Z.of_nat n - 1)) with (n - 1)%nat by lia.
      destruct (IH (n - 1)%nat ltac:(lia) (<[(n - 1)%nat := null_block]> blocks) (freed ++ [b]))
        as (t & Ht & Heq & Hstop); [rewrite length_insert; lia|].
      replace (Z.of_nat (n - 1) - 1) with (Z.of_nat n - 1 - 1) in Heq by lia.
      exists t. split; [lia|]. split.
      * rewrite Heq. f_equal. f_equal.
        -- rewrite take_insert_ge by lia. f_equal.
           replace (n - t)%nat with (S (n - 1 - t)) by lia. rewrite replicate_S_end, <-app_assoc.
           f_equal. rewrite (drop_S _ null_block) by (apply list_lookup_insert_eq; lia).
           simpl. f_equal. replace (S (n - 1)) with n by lia. by rewrite drop_insert_lt by lia.
        -- rewrite <-app_assoc. f_equal.
           replace (n - t)%nat with (S (n - 1 - t)) by lia.
           rewrite (take_S_r _ _ b) by (rewrite lookup_drop; replace (t + (n - 1 - t))%nat with (n - 1)%nat by lia; done).
           rewrite reverse_app. simpl. f_equal. f_equal.
           rewrite !take_drop_commute. f_equal.
           replace (t + (n - 1 - t))%nat with (n - 1)%nat by lia. by rewrite take_insert_ge by lia.
      * destruct (decide (t = f)) as [?|Htf]; [by left|].
        destruct Hstop as [?|Hs]; [done|]. right.
        rewrite list_lookup_insert_ne in Hs by lia. done.
Qed.

Lemma distinct_middle ids1 ids2 ids3 k :
  distinct_blocks (ids1 ++ ids2 ++ ids3) -> distinct_blocks (ids1 ++ replicate k 0%nat ++ ids3).
Proof.
  intros Hd. apply distinct_app; [..|intros i Hi H1 H2].
  - unfold distinct_blocks in *. rewrite filter_app in Hd. by apply NoDup_app in Hd as [? _].
  - apply distinct_app; [apply distinct_null|..].
    + unfold distinct_blocks in *. rewrite !filter_app, !NoDup_app in Hd. tauto.
    + intros i Hi [Heq _]%elem_of_replicate. done.
  - unfold distinct_blocks in Hd. rewrite !filter_app, !NoDup_app in Hd.
    destruct Hd as (_ & Hd & _). apply (Hd i); [by apply list_elem_of_filter|].
    apply elem_of_app in H2 as [[Heq _]%elem_of_replicate|H2]; [done|].
    apply elem_of_app. right. by apply list_elem_of_filter.
Qed.

Lemma free_opt_Ok (m : Manager) freed p xs :
  pool_inv p xs -> block_list p freed ->
  (forall i, valid_block p i -> Blk i ∈ freed -> 1 <= ref_cnt (pheap p (Blk i))) ->
  exists p' xs',
    match freed with [] => Ok (m, p) | _ => p ← free_blocks freed p; Ok (m, p) end = Ok (m, p') /\
    pool_inv p' xs' /\ same_config p p' /\
    (forall i, valid_block p i ->
      ref_cnt (pheap p' (Blk i)) = ref_cnt (pheap p (Blk i)) - refs_in i freed) /\
    (forall i, pool_keys p' i = pool_keys p i).
Proof.
  intros Hinv Hl Hr. destruct freed as [|b freed].
  - exists p, xs. split_and!; try done. intros i _. change (refs_in i []) with 0. lia.
  - destruct (free_list_Ok _ p xs Hinv Hl Hr) as (p' & xs' & -> & ?). by exists p', xs'.
Qed.

(** [_remove_blocks_in_range] nulls a range [t .. e) of the table, where it
    stopped at [t], and drops exactly the references of the blocks there. *)
Record removed_range (m m' : Manager) (p p' : BlockPool) (rid : string) (first : Z) (t e : nat)
    : Prop := {
  rr_le : (t <= e <= length (blocks_of m rid))%nat;
  rr_first : t = e \/ first <= Z.of_nat t;
  rr_stop : Z.of_nat t = first \/ Z.of_nat e <= first \/
    blocks_of m rid !! (t - 1)%nat = Some null_block;
  rr_table : blocks_of m' rid =
    take t (blocks_of m rid) ++ replicate (e - t) null_block ++ drop e (blocks_of m rid);
  rr_other rid' : rid' <> rid -> blocks_of m' rid' = blocks_of m rid';
  rr_refs i : valid_block p i -> ref_cnt (pheap p' (Blk i)) =
    ref_cnt (pheap p (Blk i)) - refs_in i (take (e - t) (drop t (blocks_of m rid)));
  rr_keys i : pool_keys p' i = pool_keys p i;
  rr_cached : num_cached_block m' = num_cached_block m;
  rr_partial : partial_hit_reqs m' = partial_hit_reqs m
}.

Lemma removed_nothing m m' p rid first e :
  (forall rid', blocks_of m' rid' = blocks_of m rid') ->
  num_cached_block m' = num_cached_block m /\ partial_hit_reqs m' = partial_hit_reqs m ->
  Z.of_nat e <= first ->
  (e <= length (blocks_of m rid))%nat -> removed_range m m' p p rid first e e.
Proof.
  intros Hb [? ?] He Hle. split; try done; try lia.
  - rewrite Hb, Nat.sub_diag. simpl. by rewrite take_drop.
  - intros i _. rewrite Nat.sub_diag, take_0. change (refs_in i []) with 0. lia.
Qed.

Lemma remove_range_Ok m p xs others rid first last :
  pool_inv p xs -> owns m p others ->
  (forall idx b, partial_hit_reqs m !! rid = Some (idx, b) -> last <= idx) -> 0 <= first ->
  exists m' p' xs' t, remove_blocks_in_range rid first last m p = Ok (m', p') /\
    pool_inv p' xs' /\ same_config p p' /\ owns m' p' others /\ same_manager m m' /\
    removed_range m m' p p' rid first t (Z.to_nat (Z.min last (zlen (blocks_of m rid)))).
Proof.
  intros Hinv Ho Hpart Hf. set (e := Z.to_nat (Z.min last (zlen (blocks_of m rid)))).
  unfold remove_blocks_in_range.
  destruct (req_to_blocks m !! rid) as [l|] eqn:Etab.
  2:{ assert (blocks_of m rid = []) as Hnil by (unfold blocks_of; by rewrite Etab).
      exists m, p, xs, e. split_and!; try done. unfold e. rewrite Hnil.
      apply removed_nothing; rewrite ?Hnil; simpl; (done || lia). }
  assert (blocks_of m rid = l) as Hl by (unfold blocks_of; by rewrite Etab).
  destruct (Z.leb_spec last first).
  { exists m, p, xs, e. split_and!; try done. apply removed_nothing; [done|done|unfold e; lia|unfold e; lia]. }
  assert (e = Z.to_nat (Z.min last (zlen l))) as He by (unfold e; by rewrite Hl). clearbody e.
  assert (e <= length l)%nat as Hel by lia.
  destruct (decide (Z.of_nat e <= first)) as [Hef|Hef].
  { rewrite py_range_down_nil by lia. simpl.
    assert (forall rid', blocks_of (set_table rid l m) rid' = blocks_of m rid') as Hsame.
    { intros rid'. unfold set_table. rewrite <-Hl. apply blocks_of_ensure. }
    exists (set_table rid l m), p, xs, e. split_and!; try done.
    - unfold set_table. rewrite <-Hl. by apply owns_ensure.
    - apply removed_nothing; [done|done|done|by rewrite Hl]. }
  destruct (null_out_Ok (Z.to_nat first) e l []) as (t & Ht & Hnull & Hstop); [lia|].
  replace (Z.of_nat e - 1) with (Z.min last (zlen l) - 1) in Hnull by lia.
  rewrite Z2Nat.id in Hnull by done. rewrite Hnull. cbn [mbind result_bind app].
  set (l' := take t l ++ replicate (e - t) null_block ++ drop e l).
  set (mid := take (e - t) (drop t l)).
  assert (l = take t l ++ mid ++ drop e l) as Hsplit.
  { unfold mid. rewrite <-(take_drop t l) at 1. f_equal.
    rewrite <-(take_drop (e - t) (drop t l)) at 1. f_equal. rewrite drop_drop. f_equal. lia. }
  assert (block_list p l) as Hbl by (by eapply ow_tables).
  assert (block_list p l' /\ block_list p mid) as [Hbl' Hmid].
  { destruct Hbl as (ids & -> & Hb & Hd).
    assert (ids = take t ids ++ take (e - t) (drop t ids) ++ drop e ids) as Hids.
    { rewrite <-(take_drop t ids) at 1. f_equal.
      rewrite <-(take_drop (e - t) (drop t ids)) at 1. f_equal. rewrite drop_drop. f_equal. lia. }
    split.
    - exists (take t ids ++ replicate (e - t) 0%nat ++ drop e ids).
      rewrite !fmap_app, fmap_take, fmap_drop, fmap_replicate. split_and!; [done| |].
      + rewrite Hids in Hb. rewrite !Forall_app in Hb. rewrite !Forall_app.
        split_and!; [tauto| |tauto]. apply Forall_replicate. by right.
      + rewrite Hids in Hd. by eapply distinct_middle.
    - exists (take (e - t) (drop t ids)). unfold mid. rewrite fmap_take, fmap_drop.
      split_and!; [done|by apply Forall_take, Forall_drop|].
      rewrite Hids in Hd. unfold distinct_blocks in *. rewrite !filter_app, !NoDup_app in Hd. tauto. }
  destruct (free_opt_Ok (set_table rid l' m) (reverse mid) p xs Hinv (block_list_reverse _ _ Hmid))
    as (p' & xs' & Hfree & Hi & Hc & Hr & Hk).
  { intros i Hv Hin. rewrite elem_of_reverse in Hin.
    apply (owns_in_use m p xs others rid i Hinv Ho Hv). rewrite Hl, Hsplit.
    rewrite !elem_of_app. tauto. }
  exists (set_table rid l' m), p', xs', t. split; [exact Hfree|].
  assert (blocks_of (set_table rid l' m) rid = l') as Hbm
    by (unfold blocks_of; simpl; by rewrite lookup_insert_eq).
  split_and!; [done|done| |done|].
  - eapply (owns_change m p others _ p' rid l'); [done|done|done|done| |done|].
    + intros i Hv. rewrite Hr, refs_in_reverse, Hl by done. rewrite Hsplit at 1. unfold l'.
      rewrite !refs_in_app, refs_in_null by (destruct Hv; lia). simpl. lia.
    + intros idx b Hp. simpl in Hp. specialize (Hpart _ _ Hp).
      destruct (ow_partial _ _ _ Ho _ _ _ Hp) as (l0 & j & Hl0 & -> & Hv & Hidx & Hlook).
      exists j. split_and!; [done|done|done|]. rewrite Etab in Hl0. injection Hl0 as <-.
      unfold l'. rewrite app_assoc, lookup_app_r; rewrite length_app, length_take, length_replicate; [|lia].
      rewrite lookup_drop. rewrite <-Hlook. f_equal. lia.
  - split; rewrite ?Hl, ?Hbm; try done; try lia.
    + destruct Hstop as [->|?]; [left; lia|by right; right].
    + intros rid' Hne. unfold blocks_of. simpl. by rewrite lookup_insert_ne.
    + intros i Hv. by rewrite Hr, refs_in_reverse.
Qed.

(** ** Caching *)

Lemma owns_pool m p p' others :
  owns m p others -> same_config p p' ->
  (forall b, ref_cnt (pheap p' b) = ref_cnt (pheap p b)) -> owns m p' others.
Proof.
  intros [Ht Hr Ho Hp] Hc Href. split; [|..].
  - intros rid l Hl. eapply block_list_config; [done|]. by eapply Ht.
  - intros i Hv. rewrite Href. apply Hr. by apply (valid_block_config p p').
  - done.
  - intros rid idx b Hl. destruct (Hp _ _ _ Hl) as (l & j & ? & ? & ? & ? & ?).
    exists l, j. split_and!; try done. by apply (valid_block_config p p').
Qed.

Lemma owns_num_cached m p others c : owns m p others -> owns (set_num_cached c m) p others.
Proof. by intros []. Qed.

Lemma base_cache_blocks_inv r n ri m p xs others r' m' p' :
  pool_inv p xs -> owns m p others -> base_cache_blocks r n ri m p = Ok (r', m', p') ->
  pool_inv p' xs /\ same_config p p' /\ owns m' p' others /\ same_manager m m' /\
  (forall rid, blocks_of m' rid = blocks_of m rid) /\ partial_hit_reqs m' = partial_hit_reqs m.
Proof.
  intros Hinv Ho Hb. unfold base_cache_blocks in Hb. destruct (_ <=? _); [by injection Hb as <- <- <-|].
  apply bind_Ok_inv in Hb as (mask & _ & Hb). apply bind_Ok_inv in Hb as ([r2 p2] & Hfull & Hb).
  injection Hb as <- <- <-. rewrite blocks_of_ensure in Hfull.
  destruct (owns_blocks_of m p others (request_id r) Ho) as (ids & Heq & Hids & _).
  rewrite Heq in Hfull.
  destruct (cache_full_blocks_inv _ _ _ _ _ _ _ _ _ _ _ Hinv Hids Hfull) as (? & ? & Hr).
  split_and!; try done; [|intros rid; apply (blocks_of_ensure m (request_id r))].
  apply owns_num_cached. eapply owns_pool; [|done|done]. by apply owns_ensure.
Qed.

Lemma cache_blocks_inv r n ri m p xs others r' m' p' :
  pool_inv p xs -> owns m p others -> cache_blocks r n ri m p = Ok (r', m', p') ->
  pool_inv p' xs /\ same_config p p' /\ owns m' p' others /\ same_manager m m'.
Proof.
  intros Hinv Ho Hc. unfold cache_blocks in Hc. apply bind_Ok_inv in Hc as ([[r1 m1] p1] & Hb & Hc).
  destruct (base_cache_blocks_inv _ _ _ _ _ _ _ _ _ _ Hinv Ho Hb) as (Hi1 & Hc1 & Ho1 & Hs1 & _).
  simpl in Hc. destruct (negb _); [by injection Hc as <- <- <-|].
  destruct (mgr_block_size m1 =? pool_hash_block_size p1); [by injection Hc as <- <- <-|].
  unfold cache_partial_tail_block in Hc. apply bind_Ok_inv in Hc as (q & _ & Hc).
  destruct (_ || _); [by injection Hc as <- <- <-|]. destruct (_ =? 0); [by injection Hc as <- <- <-|].
  assert (owns (ensure (request_id r1) m1) p1 others) as Ho2 by (by apply owns_ensure).
  destruct (_ <=? _); [by injection Hc as <- <- <-|]. rewrite blocks_of_ensure in Hc.
  apply bind_Ok_inv in Hc as (b & Hidx & Hc). apply bind_Ok_inv in Hc as ([[k r2] p2] & Hpart & Hc).
  injection Hc as <- <- <-.
  destruct (owns_blocks_of m1 p1 others (request_id r1) Ho1) as (ids & Heq & Hids & _).
  assert (exists j, b = Blk j /\ block_of_pool p1 j) as (j & -> & Hj).
  { unfold py_index in Hidx. destruct (_ <? 0); [done|]. apply or_raise_Ok_inv in Hidx.
    rewrite Heq in Hidx. apply list_elem_of_lookup_2, list_elem_of_fmap in Hidx as (j & -> & Hj).
    exists j. split; [done|]. by eapply Forall_forall in Hids. }
  destruct (cache_partial_block_inv _ _ _ _ _ _ _ _ _ _ Hi1 Hj Hpart) as (? & ? & Hr & _).
  split_and!; [done|by etrans|by eapply owns_pool|done].
Qed.

(** ** Every step of the protocol *)

(** The range of block indices [remove_skipped_blocks] nulls. *)
Definition skipped_range (m : Manager) (rid : string) (processed : Z) (num_prompt : option Z) : Z * Z :=
  match spec_kind (kv_cache_spec m), num_prompt with
  | RSWASpec w, Some n =>
      (cdiv n (mgr_block_size m), Z.max n (processed - w) / mgr_block_size m)
  | _, _ => (0, Z.min (skipped_tokens m processed / mgr_block_size m) (zlen (blocks_of m rid)))
  end.

(** [SingleTypeKVCacheManager.remove_skipped_blocks]; a pending partial hit must
    lie behind the skipped blocks. *)
Lemma base_remove_skipped_Ok m p xs others rid processed :
  pool_inv p xs -> owns m p others -> 0 < mgr_block_size m ->
  let last := Z.min (skipped_tokens m processed / mgr_block_size m) (zlen (blocks_of m rid)) in
  (forall idx b, partial_hit_reqs m !! rid = Some (idx, b) -> last <= idx) ->
  exists m' p' xs' t, base_remove_skipped_blocks rid processed m p = Ok (m', p') /\
    pool_inv p' xs' /\ same_config p p' /\ owns m' p' others /\ same_manager m m' /\
    removed_range m m' p p' rid 0 t (Z.to_nat (Z.min last (zlen (blocks_of m rid)))).
Proof.
  intros Hinv Ho Hbs last Hp. unfold base_remove_skipped_blocks.
  destruct (Z.leb_spec (skipped_tokens m processed) 0).
  - assert (last <= 0).
    { unfold last. pose proof (Z.div_le_mono (skipped_tokens m processed) 0 _ Hbs ltac:(done)).
      rewrite Z.div_0_l in * by lia. lia. }
    exists m, p, xs, 0%nat. split_and!; try done.
    replace (Z.to_nat _) with 0%nat by lia. apply removed_nothing; [done|done|lia|lia].
  - rewrite blocks_of_ensure. change (mgr_block_size (ensure rid m)) with (mgr_block_size m).
    fold last. destruct (remove_range_Ok (ensure rid m) p xs others rid 0 last Hinv
      (owns_ensure _ _ _ rid Ho) Hp ltac:(lia)) as (m' & p' & xs' & t & Hr & Hi & Hc & Ho' & Hs' & Hrr).
    rewrite blocks_of_ensure in Hrr. exists m', p', xs', t. split_and!; try done.
    destruct Hrr as [? ? ? ? ? ? ? ? ?]. rewrite !blocks_of_ensure in *.
    split; try done. intros rid' Hne. rewrite rr_other0, blocks_of_ensure; done.
Qed.

Lemma remove_skipped_Ok m p xs others rid processed num_prompt :
  pool_inv p xs -> owns m p others -> spec_ok m -> partial_hit_reqs m !! rid = None ->
  0 <= processed -> (forall n, num_prompt = Some n -> 0 <= n) ->
  let '(first, last) := skipped_range m rid processed num_prompt in
  exists m' p' xs' t, remove_skipped_blocks rid processed num_prompt m p = Ok (m', p') /\
    pool_inv p' xs' /\ same_config p p' /\ owns m' p' others /\ same_manager m m' /\
    removed_range m m' p p' rid first t (Z.to_nat (Z.min last (zlen (blocks_of m rid)))).
Proof.
  intros Hinv Ho Hs Hp Hproc Hprompt.
  pose proof (base_remove_skipped_Ok m p xs others rid processed Hinv Ho (proj1 Hs)
    ltac:(by rewrite Hp)) as Hbase.
  unfold skipped_range, remove_skipped_blocks.
  destruct (spec_kind (kv_cache_spec m)) as [| | | |w|c|w|w|? ?|]; [exact Hbase..| |exact Hbase|exact Hbase|exact Hbase|exact Hbase|exact Hbase].
  destruct num_prompt as [n|]; [|exact Hbase]. unfold rswa_remove_skipped_blocks.
  apply (remove_range_Ok m p xs others); [done|done|by rewrite Hp|].
  apply cdiv_nonneg; [apply Hs|by apply Hprompt].
Qed.

Lemma get_new_blocks_enough n p xs r : pool_inv p xs -> get_new_blocks n p = Ok r -> n <= zlen xs.
Proof.
  intros Hinv. unfold get_new_blocks. rewrite (pool_inv_free _ _ Hinv).
  destruct (Z.ltb_spec (zlen xs) n); [done|lia].
Qed.

Lemma allocate_external_inv m p xs others rid local ext m' p' :
  pool_inv p xs -> owns m p others ->
  0 <= cdiv (local + ext) (mgr_block_size m) - zlen (blocks_of m rid) ->
  allocate_external_computed_blocks rid local ext m p = Ok (m', p') ->
  exists xs', pool_inv p' xs' /\ owns m' p' others /\ same_manager m m'.
Proof.
  intros Hinv Ho Hn Hok.
  destruct (decide (cdiv (local + ext) (mgr_block_size m) - zlen (blocks_of m rid) <= zlen xs)).
  - destruct (allocate_external_Ok m p xs others rid local ext Hinv Ho ltac:(lia))
      as (k & m1 & p1 & Heq & _ & Hi & _ & Ho' & Hs & _). rewrite Heq in Hok. injection Hok as <- <-. eauto.
  - unfold allocate_external_computed_blocks in Hok. revert Hok.
    match goal with |- context [if ?c then Ok (m, p) else _] => destruct c end.
    { intros [= <- <-]. by exists xs. }
    rewrite blocks_of_ensure. change (mgr_block_size (ensure rid m)) with (mgr_block_size m).
    intros ([l1 p1] & Hg & _)%bind_Ok_inv. pose proof (get_new_blocks_enough _ _ _ _ Hinv Hg). lia.
Qed.

Lemma allocate_new_inv m p xs others rid num_tokens new m' p' :
  pool_inv p xs -> owns m p others ->
  allocate_new_blocks rid num_tokens m p = Ok (new, m', p') ->
  exists xs', pool_inv p' xs' /\ owns m' p' others /\ same_manager m m'.
Proof.
  intros Hinv Ho Hok.
  destruct (decide (cow_count m rid +
    Z.to_nat (cdiv num_tokens (mgr_block_size m) - zlen (blocks_of m rid)) <= length xs)%nat) as [Hle|Hgt].
  - destruct (allocate_new_Ok m p xs others rid num_tokens Hinv Ho Hle)
      as (m1 & p1 & Heq & Hi & _ & Ho' & Hs & _). rewrite Heq in Hok. injection Hok as <- <- <-. eauto.
  - exfalso. unfold allocate_new_blocks, cow_count in *.
    destruct (partial_hit_reqs m !! rid) as [[idx source]|] eqn:Epart.
    + apply bind_Ok_inv in Hok as ([[cb m1] p1] & Hcow & Hok).
      apply bind_Ok_inv in Hcow as ([l1 p2] & Hg & Hcow).
      pose proof (get_new_blocks_enough _ _ _ _ Hinv Hg) as Hone.
      destruct xs as [|x xs]; [simpl in Hone; lia|].
      destruct (cow_Ok m p xs others rid idx source x Hinv Ho Epart)
        as (p3 & m3 & p4 & Hg' & Hap & Hi & _ & _ & Hs & Hb & _).
      rewrite Hg' in Hg. injection Hg as <- <-. change (py_index [Blk x] 0) with (Ok (Blk x)) in Hcow.
      cbn [mbind result_bind] in Hcow. rewrite Hap in Hcow. injection Hcow as <- <- <-.
      cbv zeta in Hok. rewrite blocks_of_ensure in Hok.
      change (mgr_block_size (ensure rid (set_new_ids _ m3))) with (mgr_block_size m3) in Hok.
      change (blocks_of (set_new_ids _ m3) rid) with (blocks_of m3 rid) in Hok.
      rewrite Hb, length_insert in Hok. destruct Hs as (_ & Hbs & _). rewrite Hbs in Hok.
      simpl in Hgt. destruct (Z.leb_spec (cdiv num_tokens (mgr_block_size m) - zlen (blocks_of m rid)) 0);
        [lia|].
      apply bind_Ok_inv in Hok as ([l2 p5] & Hg2 & _).
      pose proof (get_new_blocks_enough _ _ _ _ Hi Hg2). lia.
    + cbn [mbind result_bind] in Hok. rewrite blocks_of_ensure in Hok.
      change (mgr_block_size (ensure rid m)) with (mgr_block_size m) in Hok.
      destruct (Z.leb_spec (cdiv num_tokens (mgr_block_size m) - zlen (blocks_of m rid)) 0); [lia|].
      apply bind_Ok_inv in Hok as ([l2 p5] & Hg2 & _).
      pose proof (get_new_blocks_enough _ _ _ _ Hinv Hg2). lia.
Qed.
End Ownership.

Section Properties.
Context `{PoolEnv}.

(** One call that returned, from a coordinator that respects the protocol: local
    hits are added to requests without blocks, external tokens only extend a
    table, and no partial hit is pending when blocks are nulled out. The last
    two rules hand the copies to the worker, which then holds their references,
    and let every other user of the pool (the other groups' managers, the
    connectors) change its own references. *)
Inductive manager_step (m : Manager) (p : BlockPool) (others : nat -> Z)
    : Manager -> BlockPool -> (nat -> Z) -> Prop :=
  | step_local rid l local ext m' p' :
      blocks_of m rid = [] -> 0 <= local -> 0 <= ext -> local_hit_ok m p l local ->
      add_local_computed_blocks rid l local ext m p = Ok (m', p') ->
      manager_step m p others m' p' others
  | step_external rid local ext m' p' :
      0 <= cdiv (local + ext) (mgr_block_size m) - zlen (blocks_of m rid) ->
      allocate_external_computed_blocks rid local ext m p = Ok (m', p') ->
      manager_step m p others m' p' others
  | step_allocate rid n new m' p' :
      allocate_new_blocks rid n m p = Ok (new, m', p') -> manager_step m p others m' p' others
  | step_cache r n ri r' m' p' :
      cache_blocks r n ri m p = Ok (r', m', p') -> manager_step m p others m' p' others
  | step_remove rid processed np m' p' :
      partial_hit_reqs m !! rid = None -> 0 <= processed -> (forall n, np = Some n -> 0 <= n) ->
      remove_skipped_blocks rid processed np m p = Ok (m', p') -> manager_step m p others m' p' others
  | step_free_request rid m' p' :
      free rid m p = Ok (m', p') -> manager_step m p others m' p' others
  | step_common rid : manager_step m p others (snd (get_num_common_prefix_blocks rid m p)) p others
  | step_take_ids : manager_step m p others (snd (take_new_block_ids m)) p others
  | step_take_copies :
      manager_step m p others (snd (take_pending_cow_copies m)) p
        (fun i => others i + cow_refs (fst (take_pending_cow_copies m)) i)
  | step_others p' others' xs' :
      same_config p p' -> pool_inv p' xs' -> (forall i, 0 <= others' i) ->
      (forall i, valid_block p i -> ref_cnt (pheap p' (Blk i)) - others' i =
        ref_cnt (pheap p (Blk i)) - others i) ->
      manager_step m p others m p' others'.

Inductive managed : Manager -> BlockPool -> (nat -> Z) -> Prop :=
  | managed_init spec caching gid sched dcp zeroing cap p xs others :
      pool_inv p xs -> spec_ok (manager_init spec caching gid sched dcp zeroing cap) ->
      (forall i, 0 <= others i) ->
      (forall i, valid_block p i -> ref_cnt (pheap p (Blk i)) = others i) ->
      managed (manager_init spec caching gid sched dcp zeroing cap) p others
  | managed_step m p others m' p' others' :
      managed m p others -> manager_step m p others m' p' others' -> managed m' p' others'.


Lemma manager_step_Ok m p others m' p' others' xs :
  pool_inv p xs -> owns m p others -> spec_ok m -> manager_step m p others m' p' others' ->
  exists xs', pool_inv p' xs' /\ owns m' p' others' /\ same_manager m m'.
Proof.
  intros Hinv Ho Hs Hstep.
  destruct Hstep as [rid l local ext m' p' Hnil Hl He Hhit Hok|rid local ext m' p' Hn Hok
    |rid n new m' p' Hok|r n ri r' m' p' Hok|rid processed np m' p' Hpart Hproc Hnp Hok
    |rid m' p' Hok|rid| | |p' others' xs' Hc Hi Hnn Hr].
  - destruct (add_local_Ok m p xs others rid l local ext Hinv Ho Hs Hnil Hl He Hhit)
      as (m1 & p1 & Heq & Hi & _ & Ho' & Hs' & _). rewrite Heq in Hok. injection Hok as <- <-. eauto.
  - by eapply allocate_external_inv.
  - by eapply allocate_new_inv.
  - destruct (cache_blocks_inv _ _ _ _ _ _ _ _ _ _ Hinv Ho Hok) as (? & _ & ? & ?). eauto.
  - pose proof (remove_skipped_Ok m p xs others rid processed np Hinv Ho Hs Hpart Hproc Hnp) as Hrm.
    destruct (skipped_range m rid processed np) as [first last].
    destruct Hrm as (m1 & p1 & xs' & t & Heq & Hi & _ & Ho' & Hs' & _).
    rewrite Heq in Hok. injection Hok as <- <-. eauto.
  - destruct (free_Ok m p xs others rid Hinv Ho) as (m1 & p1 & xs' & Heq & Hi & _ & Ho' & Hs' & _).
    rewrite Heq in Hok. injection Hok as <- <-. eauto.
  - exists xs. unfold get_num_common_prefix_blocks. destruct (is_full_attention _); simpl; [|done].
    split_and!; [done|by apply owns_ensure|done].
  - exists xs. split_and!; [done|by destruct Ho|done].
  - exists xs. split_and!; [done| |done]. destruct Ho as [Ht Hr Hn Hp]. split; simpl; try done.
    + intros i Hv. rewrite Hr by done. unfold manager_refs. simpl. unfold cow_refs at 2. simpl.
      change (refs_in i []) with 0. lia.
    + intros i. specialize (Hn i). unfold cow_refs.
      pose proof (refs_in_nonneg i (pending_cow_copies m).*1).
      pose proof (refs_in_nonneg i (pending_cow_copies m).*2). lia.
  - exists xs'. split_and!; [done| |done]. destruct Ho as [Ht Hr0 Hn Hp]. split; [| |done|].
    + intros rid l Hl. eapply block_list_config; [done|]. by eapply Ht.
    + intros i Hv%(valid_block_config p p'); [|done]. specialize (Hr i Hv). specialize (Hr0 i Hv). lia.
    + intros rid idx b Hl. destruct (Hp _ _ _ Hl) as (l & j & ? & ? & ? & ? & ?).
      exists l, j. split_and!; try done. by apply (valid_block_config p p').
Qed.

Lemma managed_inv m p others :
  managed m p others -> exists xs, pool_inv p xs /\ owns m p others /\ spec_ok m.
Proof.
  induction 1 as [spec caching gid sched dcp zeroing cap p xs others Hinv Hs Hn Hr
    |m p others m' p' others' _ (xs & Hinv & Ho & Hs) Hstep].
  - exists xs. split_and!; [done| |done]. by split.
  - destruct (manager_step_Ok _ _ _ _ _ _ _ Hinv Ho Hs Hstep) as (xs' & ? & ? & ?).
    exists xs'. split_and!; try done. by eapply spec_ok_same.
Qed.

(** Whatever requests come and go, a manager and its pool agree on who holds
    what: the blocks in a request's table are distinct blocks of the pool (or
    null), none of them is on the free list, so none can be handed to another
    request or evicted, and every reference count is exactly the number of table
    entries and pending copies of the manager plus the references held
    elsewhere: nothing leaks and nothing is freed early. *)
Theorem requests_own_their_blocks m p others :
  managed m p others ->
  exists xs, pool_inv p xs /\
    (forall rid, block_list p (blocks_of m rid)) /\
    (forall rid i, i <> 0%nat -> Blk i ∈ blocks_of m rid ->
      i ∉ xs /\ 1 <= ref_cnt (pheap p (Blk i))) /\
    (forall i, valid_block p i ->
      ref_cnt (pheap p (Blk i)) = manager_refs m i + others i /\ 0 <= others i).
Proof.
  intros (xs & Hinv & Ho & _)%managed_inv. exists xs. split_and!; [done|..].
  - intros rid. by eapply owns_blocks_of.
  - intros rid i Hi Hin. destruct (owns_blocks_of m p others rid Ho) as (ids & Heq & Hb & _).
    assert (valid_block p i) as Hv.
    { rewrite Heq in Hin. apply list_elem_of_fmap in Hin as (j & [= ->] & Hj).
      eapply Forall_forall in Hb as [?|?]; done. }
    destruct (owns_in_use m p xs others rid i Hinv Ho Hv Hin). done.
  - intros i Hv. split; [by apply (ow_refs _ _ _ Ho)|apply (ow_others _ _ _ Ho)].
Qed.

(** If the pool has at least the blocks that [get_num_blocks_to_allocate]
    predicts for a new request, then touching its local hits, allocating for the
    external tokens and allocating the new blocks all succeed; together they take
    exactly the predicted number of blocks off the free list (one less when the
    partial tail of the hit is itself skipped), and the request ends up with
    slots for all its tokens. *)
Theorem admission_takes_predicted_blocks m p xs others rid l local ext num_tokens n :
  pool_inv p xs -> owns m p others -> spec_ok m -> window_ok m -> new_request m rid ->
  0 <= local -> 0 <= ext -> local + ext <= num_tokens -> local_hit_ok m p l local ->
  get_num_blocks_to_allocate m p rid num_tokens l (local + ext) local false = Ok n ->
  n <= get_num_free_blocks p ->
  exists new m' p' xs', admit_request rid l local ext num_tokens m p = Ok (new, m', p') /\
    pool_inv p' xs' /\ owns m' p' others /\
    get_num_free_blocks p - get_num_free_blocks p' =
      n - (if has_partial_local_hit m l local &&
              negb (has_partial_local_hit m (kept_blocks m l (local + ext)) local) then 1 else 0) /\
    num_tokens <= zlen (blocks_of m' rid) * mgr_block_size m.
Proof. apply admit_request_Ok. Qed.

(** Removing skipped blocks never fails. It nulls a range of the request's
    table that ends at the last block lying wholly in the skipped tokens (the
    decode gap after the prompt for R-SWA) and goes back to the range's start or
    to a null block; the entries outside it, the other requests and all hash
    keys are untouched, and exactly the nulled blocks lose one reference. *)
Theorem remove_skipped_blocks_spec m p xs others rid processed num_prompt :
  pool_inv p xs -> owns m p others -> spec_ok m -> partial_hit_reqs m !! rid = None ->
  0 <= processed -> (forall n, num_prompt = Some n -> 0 <= n) ->
  let '(first, last) := skipped_range m rid processed num_prompt in
  exists m' p' xs' t, remove_skipped_blocks rid processed num_prompt m p = Ok (m', p') /\
    pool_inv p' xs' /\ owns m' p' others /\
    removed_range m m' p p' rid first t (Z.to_nat (Z.min last (zlen (blocks_of m rid)))).
Proof.
  intros Hinv Ho Hs Hp Hproc Hnp.
  pose proof (remove_skipped_Ok m p xs others rid processed num_prompt Hinv Ho Hs Hp Hproc Hnp) as Hrm.
  destruct (skipped_range m rid processed num_prompt) as [first last].
  destruct Hrm as (m' & p' & xs' & t & ? & ? & _ & ? & _ & ?). by exists m', p', xs', t.
Qed.

(** Freeing a request never fails: its table and its bookkeeping are gone,
    every block of the table loses exactly one reference and keeps its keys for
    later hits, and the other requests keep their blocks. *)
Theorem free_request_spec m p xs others rid :
  pool_inv p xs -> owns m p others ->
  exists m' p' xs', free rid m p = Ok (m', p') /\ pool_inv p' xs' /\ owns m' p' others /\
    req_to_blocks m' = delete rid (req_to_blocks m) /\
    num_cached_block m' !! rid = None /\ partial_hit_reqs m' !! rid = None /\
    (forall i, valid_block p i ->
      ref_cnt (pheap p' (Blk i)) = ref_cnt (pheap p (Blk i)) - refs_in i (blocks_of m rid)) /\
    (forall i, pool_keys p' i = pool_keys p i).
Proof.
  intros Hinv Ho. destruct (free_Ok m p xs others rid Hinv Ho)
    as (m' & p' & xs' & ? & ? & _ & ? & _ & ? & ? & ? & ? & ?). by exists m', p', xs'.
Qed.
End Properties.

(** * Concrete inputs *)

Definition demo_manager (k : AttentionKind) : Manager :=
  manager_init (mkSpec 16 k) true 0 16 1 false None.

Lemma demo_owned k :
  exists p, pool_init 8 true 16 false = Ok p /\ pool_inv p [1; 2; 3; 4; 5; 6; 7]%nat /\
    owns (demo_manager k) p (fun _ => 0) /\
    forall i, valid_block p i -> ref_cnt (pheap p (Blk i)) = 0.
Proof.
  destruct (pool_init_spec 8 true 16 false ltac:(lia)) as (p & Hp & Hinv & Hnum & _).
  exists p. split; [exact Hp|]. split; [exact Hinv|].
  assert (forall i, valid_block p i -> ref_cnt (pheap p (Blk i)) = 0) as Hr.
  { intros i Hv. assert (i ∈ [1; 2; 3; 4; 5; 6; 7]%nat ++ []) as Hin.
    { rewrite app_nil_r. destruct Hv as [Hi Hn]. rewrite Hnum in Hn.
      apply (elem_of_seq 1 7 i). lia. }
    by apply (pi_free _ _ _ Hinv) in Hin as [_ ?]. }
  split; [by split|exact Hr].
Qed.

Lemma demo_ok k :
  match k with ChunkedLocalAttentionSpec _ | MambaSpec _ _ => False | _ => True end ->
  spec_ok (demo_manager k).
Proof. intros Hk. split; simpl; [lia|]. by destruct k. Qed.

Lemma requests_own_their_blocks_witness :
  exists m p xs, managed m p (fun _ => 0) /\ pool_inv p xs.
Proof.
  destruct (demo_owned FullAttentionSpec) as (p & Hp & Hinv & Ho & Hr).
  destruct (allocate_new_Ok (demo_manager FullAttentionSpec) p _ _ "a" 64 Hinv Ho)
    as (m' & p' & Hal & _); [vm_compute; lia|].
  assert (managed m' p' (fun _ => 0)) as Hm.
  { eapply managed_step; [|eapply step_allocate; exact Hal].
    apply (managed_init _ _ _ _ _ _ _ _ _ _ Hinv); [by apply demo_ok|done|exact Hr]. }
  destruct (requests_own_their_blocks m' p' _ Hm) as (xs & Hi & _).
  exists m', p', xs. split; [exact Hm|exact Hi].
Defined.

Lemma admission_takes_predicted_blocks_witness :
  exists p new m' p', pool_init 8 true 16 false = Ok p /\
    get_num_blocks_to_allocate (demo_manager FullAttentionSpec) p "a" 40 [] 16 0 false = Ok 3 /\
    admit_request "a" [] 0 16 40 (demo_manager FullAttentionSpec) p = Ok (new, m', p').
Proof.
  destruct (demo_owned FullAttentionSpec) as (p & Hp & Hinv & Ho & _).
  destruct (admission_takes_predicted_blocks (demo_manager FullAttentionSpec) p _ _ "a" [] 0 16 40 3
    Hinv Ho) as (new & m' & p' & _ & Hok & _).
  - by apply demo_ok.
  - exact I.
  - split; reflexivity.
  - lia.
  - lia.
  - lia.
  - split; [apply block_list_nil|]. split; [reflexivity|]. split; [by left|]. intros Hm. by destruct Hm.
  - reflexivity.
  - rewrite (pool_inv_free _ _ Hinv). simpl. lia.
  - exists p, new, m', p'. split; [exact Hp|]. split; [reflexivity|exact Hok].
Defined.

Lemma remove_skipped_blocks_spec_witness :
  exists m p m' p', blocks_of m "a" = [Blk 1; Blk 2; Blk 3; Blk 4] /\
    remove_skipped_blocks "a" 64 None m p = Ok (m', p') /\
    skipped_tokens m 64 = 48.
Proof.
  destruct (demo_owned (SlidingWindowSpec 17)) as (p & Hp & Hinv & Ho & _).
  destruct (allocate_new_Ok (demo_manager (SlidingWindowSpec 17)) p _ _ "a" 64 Hinv Ho)
    as (m1 & p1 & _ & Hi & _ & Ho1 & Hs & Hb & Hpart); [vm_compute; lia|].
  pose proof (remove_skipped_blocks_spec m1 p1 _ _ "a" 64 None Hi Ho1) as Hrm.
  destruct (skipped_range m1 "a" 64 None) as [first last].
  destruct Hrm as (m' & p' & xs' & t & Hok & _).
  - eapply spec_ok_same; [exact Hs|]. by apply demo_ok.
  - exact Hpart.
  - lia.
  - discriminate.
  - exists m1, p1, m', p'. split; [exact Hb|]. split; [exact Hok|].
    unfold skipped_tokens. destruct Hs as (-> & _). reflexivity.
Defined.

Lemma free_request_spec_witness :
  exists m p m' p', blocks_of m "a" = [Blk 1; Blk 2; Blk 3; Blk 4] /\
    free "a" m p = Ok (m', p') /\ req_to_blocks m' = delete "a" (req_to_blocks m).
Proof.
  destruct (demo_owned FullAttentionSpec) as (p & Hp & Hinv & Ho & _).
  destruct (allocate_new_Ok (demo_manager FullAttentionSpec) p _ _ "a" 64 Hinv Ho)
    as (m1 & p1 & _ & Hi & _ & Ho1 & Hs & Hb & Hpart); [vm_compute; lia|].
  destruct (free_request_spec m1 p1 _ _ "a" Hi Ho1) as (m' & p' & xs' & Hok & _ & _ & Hreq & _).
  exists m1, p1, m', p'. split; [exact Hb|]. split; [exact Hok|exact Hreq].
Defined.
