(* ===== verification/GroupManager.v ===== *)
(** What the KV-cache coordinator needs of the manager of one group: the methods
    of [SingleTypeKVCacheManager] that
    src/upstream/vllm/v1/core/kv_cache_coordinator.py and kv_cache_manager.py
    call, as a class of operations, and the contract of those operations, as a
    class of laws. The coordinator is written and verified against the two
    classes; the managers of the source are their instances. *)
From S2P Require Import Prelude FreeQueue Request BlockHash BlockPool CacheHit MambaHit SingleType.
Open Scope Z_scope.

(** * Operations *)

Class GroupManager (M : Type) := {
  gm_is_cross : M -> bool;                              (** [isinstance(_, CrossAttentionManager)] *)
  gm_spec : M -> KVCacheSpec;                           (** [kv_cache_spec] *)
  gm_block_size : M -> Z;                               (** [block_size] *)
  gm_use_eagle : M -> bool;                             (** [use_eagle] *)
  gm_set_use_eagle : bool -> M -> M;
  gm_records_new_block_ids : M -> bool;                 (** [records_new_block_ids] *)
  gm_blocks : M -> string -> list bref;                 (** [req_to_blocks.get(rid) or []] *)
  gm_is_tracked : M -> string -> bool;                  (** [rid in num_cached_block] *)
  gm_predict : M -> BlockPool -> string -> Z -> list bref -> Z -> Z -> Z -> bool -> result Z;
  gm_add_local : string -> list bref -> Z -> Z -> M -> BlockPool -> result (M * BlockPool);
  gm_allocate_external : string -> Z -> Z -> M -> BlockPool -> result (M * BlockPool);
  gm_allocate_new : string -> Z -> Z -> M -> BlockPool -> result (list bref * M * BlockPool);
  gm_cache : Request -> Z -> option Z -> M -> BlockPool -> result (Request * M * BlockPool);
  gm_remove_skipped : string -> Z -> option Z -> M -> BlockPool -> result (M * BlockPool);
  gm_pop : string -> M -> list bref * M;
  gm_free : string -> M -> BlockPool -> result (M * BlockPool);
  gm_common_prefix : string -> M -> BlockPool -> Z * M;
  gm_new_step : M -> M;
  gm_take_new_block_ids : M -> list Z * M;
  gm_extend_new_block_ids : list Z -> M -> M;
  gm_take_cow_copies : M -> list (bref * bref) * M;
  gm_take_offloads : M -> list (string * Z * bref * Z) * M
}.

(** What a request asks for: its id, the tokens found in the local cache and at a
    connector, the token slots it needs, those of the main model among them, and
    the encoder tokens of cross-attention. *)
Record Slots := mkSlots {
  sl_request : string;
  sl_local : Z;
  sl_external : Z;
  sl_tokens : Z;
  sl_main : Z;
  sl_encoder : Z
}.
Definition sl_total (s : Slots) : Z := sl_local s + sl_external s.

Section Calls.
Context `{GroupManager M}.

(** The two calls for which the coordinator singles out cross-attention: it gets
    one static allocation for the encoder tokens. *)
Definition group_predict (m : M) (p : BlockPool) (rid : string) (num_tokens : Z)
    (new_computed_blocks : list bref)
    (num_encoder_tokens total_computed_tokens num_local_computed_tokens num_tokens_main_model : Z)
    (apply_admission_cap : bool) : result Z :=
  if gm_is_cross m
  then gm_predict m p rid num_encoder_tokens [] 0 0 num_encoder_tokens apply_admission_cap
  else gm_predict m p rid num_tokens new_computed_blocks total_computed_tokens
         num_local_computed_tokens num_tokens_main_model apply_admission_cap.
Definition group_allocate (rid : string) (num_tokens num_tokens_main_model num_encoder_tokens : Z)
    (m : M) (p : BlockPool) : result (list bref * M * BlockPool) :=
  gm_allocate_new rid (if gm_is_cross m then num_encoder_tokens else num_tokens)
    num_tokens_main_model m p.
End Calls.

(** * Laws *)

(** No block of the pool lost references. *)
Definition refs_grow (p p' : BlockPool) : Prop :=
  forall i, ref_cnt (pheap p (Blk i)) <= ref_cnt (pheap p' (Blk i)).

#[export] Instance refs_grow_refl : Reflexive refs_grow.
Proof. intros p i. lia. Qed.
#[export] Instance refs_grow_trans : Transitive refs_grow.
Proof. intros p1 p2 p3 H1 H2 i. specialize (H1 i). specialize (H2 i). lia. Qed.

(** [gm_owns m p others]: the manager's bookkeeping fits the pool, [others] being
    the references held outside it; [gm_refs] counts its own.

    A request goes through [gm_new] (unknown to the manager), [gm_waiting]
    (hits touched) and [gm_open] (external tokens allocated); the last two carry
    the number of blocks the rest of the admission takes at most. [gm_hit] is
    what a hit must satisfy, [gm_resumed] what holds of a request that already
    has its blocks, [gm_removable] what removing its skipped blocks needs,
    [gm_covered] what an allocation establishes. *)
Class GroupManagerLaws (M : Type) `{GroupManager M} := {
  gm_owns : M -> BlockPool -> (nat -> Z) -> Prop;
  gm_refs : M -> nat -> Z;
  gm_new : M -> string -> Prop;
  gm_hit : M -> BlockPool -> list bref -> Slots -> Prop;
  gm_waiting : M -> Slots -> Z -> Prop;
  gm_open : M -> Slots -> Z -> Prop;
  gm_resumed : M -> Slots -> Prop;
  gm_removable : M -> string -> Z -> option Z -> Prop;
  gm_covered : M -> Slots -> Prop;

  gm_refs_nonneg m i : 0 <= gm_refs m i;
  gm_owns_refs m p others i : gm_owns m p others -> valid_block p i ->
    ref_cnt (pheap p (Blk i)) = gm_refs m i + others i;
  gm_owns_others m p others i : gm_owns m p others -> 0 <= others i;
  gm_owns_size m p others : gm_owns m p others -> 0 < gm_block_size m;
  gm_owns_blocks m p others rid : gm_owns m p others -> block_list p (gm_blocks m rid);
  gm_blocks_refs m rid i : refs_in i (gm_blocks m rid) <= gm_refs m i;
  gm_owns_frame m p p' others others' : gm_owns m p others -> same_config p p' ->
    (forall i, 0 <= others' i) ->
    (forall i, valid_block p i ->
      ref_cnt (pheap p' (Blk i)) - others' i = ref_cnt (pheap p (Blk i)) - others i) ->
    gm_owns m p' others';
  gm_hit_config m p p' l s : gm_hit m p l s -> same_config p p' -> gm_hit m p' l s;
  gm_set_use_eagle_ok e m p others : gm_owns m p others -> gm_owns (gm_set_use_eagle e m) p others;

  (** Only a tracked request with hits makes a prediction fail. *)
  gm_predict_total m p rid tokens l enc total local main cap : l = [] \/ gm_new m rid ->
    exists n, group_predict m p rid tokens l enc total local main cap = Ok n;
  gm_predict_nonneg m p xs others l s n :
    pool_inv p xs -> gm_owns m p others -> gm_new m (sl_request s) -> gm_hit m p l s ->
    group_predict m p (sl_request s) (sl_tokens s) l (sl_encoder s) (sl_total s) (sl_local s)
      (sl_main s) false = Ok n -> 0 <= n;
  (** Touching the hits takes at most what was predicted before, in a pool that
      had that many free blocks and has only gained references since. *)
  gm_add_local_ok m p0 xs0 p xs others l s n :
    pool_inv p0 xs0 -> same_config p0 p -> refs_grow p0 p ->
    pool_inv p xs -> gm_owns m p others -> gm_new m (sl_request s) -> gm_hit m p l s ->
    group_predict m p0 (sl_request s) (sl_tokens s) l (sl_encoder s) (sl_total s) (sl_local s)
      (sl_main s) false = Ok n -> n <= zlen xs0 ->
    exists m' p' xs' k,
      gm_add_local (sl_request s) l (sl_local s) (sl_external s) m p = Ok (m', p') /\
      pool_inv p' xs' /\ same_config p p' /\ refs_grow p p' /\ gm_owns m' p' others /\
      gm_waiting m' s k /\ k + (zlen xs - zlen xs') <= n;
  gm_new_untracked m rid : gm_new m rid -> gm_is_tracked m rid = false;
  gm_waiting_nonneg m s k : gm_waiting m s k -> 0 <= k;
  gm_waiting_open m s k : gm_waiting m s k -> sl_external s = 0 -> gm_open m s k;
  gm_allocate_external_ok m p xs others s k :
    pool_inv p xs -> gm_owns m p others -> gm_waiting m s k -> k <= zlen xs ->
    exists m' p' xs' k',
      gm_allocate_external (sl_request s) (sl_local s) (sl_external s) m p = Ok (m', p') /\
      pool_inv p' xs' /\ same_config p p' /\ gm_owns m' p' others /\
      gm_open m' s k' /\ k' + (zlen xs - zlen xs') <= k;
  gm_open_nonneg m s k : gm_open m s k -> 0 <= k;
  gm_allocate_new_ok m p xs others s k :
    pool_inv p xs -> gm_owns m p others -> gm_open m s k -> k <= zlen xs ->
    exists new m' p' xs',
      group_allocate (sl_request s) (sl_tokens s) (sl_main s) (sl_encoder s) m p = Ok (new, m', p') /\
      pool_inv p' xs' /\ same_config p p' /\ gm_owns m' p' others /\
      zlen xs - zlen xs' <= k /\ gm_covered m' s;
  gm_resumed_open m p s n :
    gm_resumed m s -> sl_external s = 0 ->
    group_predict m p (sl_request s) (sl_tokens s) [] (sl_encoder s) (sl_total s) (sl_local s)
      (sl_main s) false = Ok n -> gm_open m s n;

  gm_remove_skipped_ok m p xs others rid processed np :
    pool_inv p xs -> gm_owns m p others -> gm_removable m rid processed np ->
    exists m' p' xs', gm_remove_skipped rid processed np m p = Ok (m', p') /\
      pool_inv p' xs' /\ same_config p p' /\ gm_owns m' p' others /\
      (gm_new m rid -> gm_new m' rid) /\
      (forall s, sl_request s = rid -> gm_resumed m s -> gm_resumed m' s) /\
      (forall q l s, gm_hit m q l s -> gm_hit m' q l s);
  gm_free_ok m p xs others rid :
    pool_inv p xs -> gm_owns m p others ->
    exists m' p' xs', gm_free rid m p = Ok (m', p') /\ pool_inv p' xs' /\ same_config p p' /\
      gm_owns m' p' others /\ gm_blocks m' rid = [] /\
      forall rid', rid' <> rid -> gm_blocks m' rid' = gm_blocks m rid';
  gm_pop_ok m p others rid :
    gm_owns m p others ->
    let '(blocks, m') := gm_pop rid m in
    blocks = gm_blocks m rid /\ gm_blocks m' rid = [] /\
    (forall rid', rid' <> rid -> gm_blocks m' rid' = gm_blocks m rid') /\
    gm_owns m' p (fun i => others i + refs_in i blocks);
  gm_cache_inv r n ri m p xs others r' m' p' :
    0 <= n -> pool_inv p xs -> gm_owns m p others -> gm_cache r n ri m p = Ok (r', m', p') ->
    pool_inv p' xs /\ same_config p p' /\ gm_owns m' p' others;
  gm_common_prefix_ok m p others rid :
    gm_owns m p others -> gm_owns (snd (gm_common_prefix rid m p)) p others;
  gm_new_step_ok m p others : gm_owns m p others -> gm_owns (gm_new_step m) p others;
  gm_take_new_block_ids_ok m p others :
    gm_owns m p others -> gm_owns (snd (gm_take_new_block_ids m)) p others;
  gm_extend_new_block_ids_ok ids m p others :
    gm_owns m p others -> gm_owns (gm_extend_new_block_ids ids m) p others;
  gm_take_cow_copies_ok m p others :
    gm_owns m p others ->
    gm_owns (snd (gm_take_cow_copies m)) p
      (fun i => others i + cow_refs (fst (gm_take_cow_copies m)) i);
  gm_take_offloads_ok m p others :
    gm_owns m p others -> gm_owns (snd (gm_take_offloads m)) p others
}.

(** * Groups of different kinds *)

(** A list of managers of several classes: a manager of [A + B] is one of either
    class and every call goes to its own. *)
Section Sum.
Context `{GA : GroupManager A, GB : GroupManager B}.

Definition pick {C} (f : A -> C) (g : B -> C) (m : A + B) : C :=
  match m with inl a => f a | inr b => g b end.
Definition lift_pool {C} (inject : C -> A + B) (r : result (C * BlockPool))
    : result ((A + B) * BlockPool) := '(m, p) ← r; Ok (inject m, p).
Definition lift_new {C} (inject : C -> A + B) (r : result (list bref * C * BlockPool))
    : result (list bref * (A + B) * BlockPool) := '(new, m, p) ← r; Ok (new, inject m, p).
Definition lift_cached {C} (inject : C -> A + B) (r : result (Request * C * BlockPool))
    : result (Request * (A + B) * BlockPool) := '(q, m, p) ← r; Ok (q, inject m, p).
Definition lift_pair {C D} (inject : C -> A + B) (r : D * C) : D * (A + B) := (r.1, inject r.2).

#[export] Instance sum_group : GroupManager (A + B) := {|
  gm_is_cross := pick gm_is_cross gm_is_cross;
  gm_spec := pick gm_spec gm_spec;
  gm_block_size := pick gm_block_size gm_block_size;
  gm_use_eagle := pick gm_use_eagle gm_use_eagle;
  gm_set_use_eagle e := pick (fun a => inl (gm_set_use_eagle e a)) (fun b => inr (gm_set_use_eagle e b));
  gm_records_new_block_ids := pick gm_records_new_block_ids gm_records_new_block_ids;
  gm_blocks := pick gm_blocks gm_blocks;
  gm_is_tracked := pick gm_is_tracked gm_is_tracked;
  gm_predict := pick gm_predict gm_predict;
  gm_add_local rid l local ext m p :=
    pick (fun a => lift_pool inl (gm_add_local rid l local ext a p))
      (fun b => lift_pool inr (gm_add_local rid l local ext b p)) m;
  gm_allocate_external rid local ext m p :=
    pick (fun a => lift_pool inl (gm_allocate_external rid local ext a p))
      (fun b => lift_pool inr (gm_allocate_external rid local ext b p)) m;
  gm_allocate_new rid n main m p :=
    pick (fun a => lift_new inl (gm_allocate_new rid n main a p))
      (fun b => lift_new inr (gm_allocate_new rid n main b p)) m;
  gm_cache r n ri m p :=
    pick (fun a => lift_cached inl (gm_cache r n ri a p)) (fun b => lift_cached inr (gm_cache r n ri b p)) m;
  gm_remove_skipped rid processed np m p :=
    pick (fun a => lift_pool inl (gm_remove_skipped rid processed np a p))
      (fun b => lift_pool inr (gm_remove_skipped rid processed np b p)) m;
  gm_pop rid := pick (fun a => lift_pair inl (gm_pop rid a)) (fun b => lift_pair inr (gm_pop rid b));
  gm_free rid m p :=
    pick (fun a => lift_pool inl (gm_free rid a p)) (fun b => lift_pool inr (gm_free rid b p)) m;
  gm_common_prefix rid m p :=
    pick (fun a => lift_pair inl (gm_common_prefix rid a p))
      (fun b => lift_pair inr (gm_common_prefix rid b p)) m;
  gm_new_step := pick (fun a => inl (gm_new_step a)) (fun b => inr (gm_new_step b));
  gm_take_new_block_ids :=
    pick (fun a => lift_pair inl (gm_take_new_block_ids a)) (fun b => lift_pair inr (gm_take_new_block_ids b));
  gm_extend_new_block_ids ids :=
    pick (fun a => inl (gm_extend_new_block_ids ids a)) (fun b => inr (gm_extend_new_block_ids ids b));
  gm_take_cow_copies :=
    pick (fun a => lift_pair inl (gm_take_cow_copies a)) (fun b => lift_pair inr (gm_take_cow_copies b));
  gm_take_offloads :=
    pick (fun a => lift_pair inl (gm_take_offloads a)) (fun b => lift_pair inr (gm_take_offloads b))
|}.

Context `{!GroupManagerLaws A, !GroupManagerLaws B}.

Ltac lifted :=
  cbn; repeat match goal with |- exists _, _ => eexists end; split; [reflexivity|eassumption].

#[export] Program Instance sum_laws : GroupManagerLaws (A + B) := {|
  gm_owns := pick gm_owns gm_owns;
  gm_refs := pick gm_refs gm_refs;
  gm_new := pick gm_new gm_new;
  gm_hit := pick gm_hit gm_hit;
  gm_waiting := pick gm_waiting gm_waiting;
  gm_open := pick gm_open gm_open;
  gm_resumed := pick gm_resumed gm_resumed;
  gm_removable := pick gm_removable gm_removable;
  gm_covered := pick gm_covered gm_covered
|}.
Next Obligation. intros [m|m]; [apply (gm_refs_nonneg (M:=A))|apply (gm_refs_nonneg (M:=B))]. Qed.
Next Obligation. intros [m|m]; [apply (gm_owns_refs (M:=A))|apply (gm_owns_refs (M:=B))]. Qed.
Next Obligation. intros [m|m]; [apply (gm_owns_others (M:=A))|apply (gm_owns_others (M:=B))]. Qed.
Next Obligation. intros [m|m]; [apply (gm_owns_size (M:=A))|apply (gm_owns_size (M:=B))]. Qed.
Next Obligation. intros [m|m]; [apply (gm_owns_blocks (M:=A))|apply (gm_owns_blocks (M:=B))]. Qed.
Next Obligation. intros [m|m]; [apply (gm_blocks_refs (M:=A))|apply (gm_blocks_refs (M:=B))]. Qed.
Next Obligation. intros [m|m]; [apply (gm_owns_frame (M:=A))|apply (gm_owns_frame (M:=B))]. Qed.
Next Obligation. intros [m|m]; [apply (gm_hit_config (M:=A))|apply (gm_hit_config (M:=B))]. Qed.
Next Obligation. intros e [m|m]; [apply (gm_set_use_eagle_ok (M:=A))|apply (gm_set_use_eagle_ok (M:=B))]. Qed.
Next Obligation. intros [m|m]; [exact (gm_predict_total (M:=A) m)|exact (gm_predict_total (M:=B) m)]. Qed.
Next Obligation. intros [m|m] p xs others l s n; [exact (gm_predict_nonneg (M:=A) m p xs others l s n)|exact (gm_predict_nonneg (M:=B) m p xs others l s n)]. Qed.
Next Obligation.
  intros [m|m] p0 xs0 p xs others l s n H1 H2 H3 H4 H5 H6 H7 H8 H9.
  - edestruct (gm_add_local_ok (M:=A) m p0 xs0 p xs others l s n H1 H2 H3 H4 H5 H6 H7 H8 H9)
      as (m' & ? & ? & ? & Hr & ?).
    cbn. rewrite Hr. lifted.
  - edestruct (gm_add_local_ok (M:=B) m p0 xs0 p xs others l s n H1 H2 H3 H4 H5 H6 H7 H8 H9)
      as (m' & ? & ? & ? & Hr & ?).
    cbn. rewrite Hr. lifted.
Qed.
Next Obligation. intros [m|m]; [apply (gm_new_untracked (M:=A))|apply (gm_new_untracked (M:=B))]. Qed.
Next Obligation. intros [m|m]; [apply (gm_waiting_nonneg (M:=A))|apply (gm_waiting_nonneg (M:=B))]. Qed.
Next Obligation. intros [m|m]; [apply (gm_waiting_open (M:=A))|apply (gm_waiting_open (M:=B))]. Qed.
Next Obligation.
  intros [m|m] p xs others s k H1 H2 H3 H4.
  - edestruct (gm_allocate_external_ok (M:=A) m p xs others s k H1 H2 H3 H4) as (m' & ? & ? & ? & Hr & ?).
    cbn. rewrite Hr. lifted.
  - edestruct (gm_allocate_external_ok (M:=B) m p xs others s k H1 H2 H3 H4) as (m' & ? & ? & ? & Hr & ?).
    cbn. rewrite Hr. lifted.
Qed.
Next Obligation. intros [m|m]; [apply (gm_open_nonneg (M:=A))|apply (gm_open_nonneg (M:=B))]. Qed.
Next Obligation.
  intros [m|m] p xs others s k H1 H2 H3 H4.
  - edestruct (gm_allocate_new_ok (M:=A) m p xs others s k H1 H2 H3 H4) as (new & m' & ? & ? & Hr & ?).
    unfold group_allocate in *. cbn. rewrite Hr. lifted.
  - edestruct (gm_allocate_new_ok (M:=B) m p xs others s k H1 H2 H3 H4) as (new & m' & ? & ? & Hr & ?).
    unfold group_allocate in *. cbn. rewrite Hr. lifted.
Qed.
Next Obligation. intros [m|m]; [apply (gm_resumed_open (M:=A))|apply (gm_resumed_open (M:=B))]. Qed.
Next Obligation.
  intros [m|m] p xs others rid processed np H1 H2 H3.
  - edestruct (gm_remove_skipped_ok (M:=A) m p xs others rid processed np H1 H2 H3) as (m' & ? & ? & Hr & ?).
    cbn. rewrite Hr. lifted.
  - edestruct (gm_remove_skipped_ok (M:=B) m p xs others rid processed np H1 H2 H3) as (m' & ? & ? & Hr & ?).
    cbn. rewrite Hr. lifted.
Qed.
Next Obligation.
  intros [m|m] p xs others rid H1 H2.
  - edestruct (gm_free_ok (M:=A) m p xs others rid H1 H2) as (m' & ? & ? & Hr & ?).
    cbn. rewrite Hr. lifted.
  - edestruct (gm_free_ok (M:=B) m p xs others rid H1 H2) as (m' & ? & ? & Hr & ?).
    cbn. rewrite Hr. lifted.
Qed.
Next Obligation.
  intros [m|m] p others rid Ho; [pose proof (gm_pop_ok (M:=A) m p others rid Ho)
    |pose proof (gm_pop_ok (M:=B) m p others rid Ho)]; cbn; by destruct (gm_pop rid m).
Qed.
Next Obligation.
  intros r n ri [m|m] p xs others r' m' p' Hn Hi Ho Hc; cbn in Hc;
    unfold lift_cached in Hc; apply bind_Ok_inv in Hc as ([[? ?] ?] & Hc & [= <- <- <-]);
    [by eapply (gm_cache_inv (M:=A))|by eapply (gm_cache_inv (M:=B))].
Qed.
Next Obligation. intros [m|m] p others rid; [exact (gm_common_prefix_ok (M:=A) m p others rid)|exact (gm_common_prefix_ok (M:=B) m p others rid)]. Qed.
Next Obligation. intros [m|m]; [apply (gm_new_step_ok (M:=A))|apply (gm_new_step_ok (M:=B))]. Qed.
Next Obligation. intros [m|m] p others; [exact (gm_take_new_block_ids_ok (M:=A) m p others)|exact (gm_take_new_block_ids_ok (M:=B) m p others)]. Qed.
Next Obligation. intros ids [m|m]; [apply (gm_extend_new_block_ids_ok (M:=A))|apply (gm_extend_new_block_ids_ok (M:=B))]. Qed.
Next Obligation. intros [m|m] p others; [exact (gm_take_cow_copies_ok (M:=A) m p others)|exact (gm_take_cow_copies_ok (M:=B) m p others)]. Qed.
Next Obligation. intros [m|m] p others; [exact (gm_take_offloads_ok (M:=A) m p others)|exact (gm_take_offloads_ok (M:=B) m p others)]. Qed.
End Sum.
