(* ===== verification/AttentionGroup.v ===== *)
(** The managers of attention groups and of cross-attention groups as instances
    of [GroupManager] and of its laws. *)
From S2P Require Import Prelude FreeQueue Request BlockHash BlockPool CacheHit MambaHit SingleType GroupManager.
Open Scope Z_scope.

(** * The phases of an admission *)

Lemma evictable_refs_grow p0 xs0 p xs l :
  pool_inv p0 xs0 -> pool_inv p xs -> same_config p0 p -> refs_grow p0 p -> block_list p l ->
  get_num_evictable_blocks p l <= get_num_evictable_blocks p0 l.
Proof.
  intros Hi0 Hi Hc Hg (ids & -> & Hb & _). unfold get_num_evictable_blocks.
  induction Hb as [|i ids Hi1 _ IH]; [done|]. rewrite fmap_cons. cbn [foldr].
  rewrite (pi_null _ _ _ Hi), (pi_null _ _ _ Hi0). case_bool_decide as Hi2; simpl.
  - rewrite !andb_false_r. lia.
  - rewrite !andb_true_r. destruct Hi1 as [Hv|?]; [|done]. specialize (Hg i).
    pose proof (pi_ref _ _ _ Hi0 i ltac:(by apply (valid_block_config p0 p))).
    destruct (Z.eqb_spec (ref_cnt (pheap p (Blk i))) 0), (Z.eqb_spec (ref_cnt (pheap p0 (Blk i))) 0); lia.
Qed.

(** The blocks the rest of an admission takes: a copy-on-write target, and the
    blocks that the table is short of. *)
Definition blocks_short (m : Manager) (rid : string) (num_tokens : Z) : Z :=
  Z.of_nat (cow_count m rid) +
  Z.max 0 (cdiv num_tokens (mgr_block_size m) - zlen (blocks_of m rid)).

Section Phases.
Context `{PoolEnv}.

(** What holds between touching the hits and the end of the admission. *)
Definition table_waits (m : Manager) (rid : string) (total num_tokens k : Z) : Prop :=
  total <= num_tokens /\ zlen (blocks_of m rid) <= cdiv total (mgr_block_size m) /\
  0 < mgr_block_size m /\ blocks_short m rid num_tokens <= k.

Lemma kept_cow_count m m' l rid local ext :
  partial_hit_reqs m' !! rid =
    (if has_partial_local_hit m (kept_blocks m l (local + ext)) local
     then (fun b => (local / mgr_block_size m, b)) <$> last (kept_blocks m l (local + ext)) else None) ->
  Z.of_nat (cow_count m' rid) <= if has_partial_local_hit m l local then 1 else 0.
Proof.
  intros Hp. unfold cow_count. rewrite Hp. set (kept := kept_blocks m l (local + ext)).
  destruct (has_partial_local_hit m kept local) eqn:E; [|destruct (has_partial_local_hit m l local); lia].
  assert (has_partial_local_hit m l local = true) as ->; [|destruct (_ <$> _); lia].
  unfold has_partial_local_hit in *. bools. apply andb_true_iff.
  split; [|by apply negb_true_iff, Z.eqb_neq]. apply Z.ltb_lt. unfold kept, kept_blocks in *.
  rewrite length_drop in *. lia.
Qed.

Lemma add_local_phase m p0 xs0 p xs others rid l local ext num_tokens n :
  pool_inv p0 xs0 -> same_config p0 p -> refs_grow p0 p ->
  pool_inv p xs -> owns m p others -> spec_ok m -> window_ok m -> new_request m rid ->
  0 <= local -> 0 <= ext -> local + ext <= num_tokens -> local_hit_ok m p l local ->
  get_num_blocks_to_allocate m p0 rid num_tokens l (local + ext) local false = Ok n ->
  exists m' p' xs' k, add_local_computed_blocks rid l local ext m p = Ok (m', p') /\
    pool_inv p' xs' /\ same_config p p' /\ refs_grow p p' /\ owns m' p' others /\
    same_manager m m' /\ table_waits m' rid (local + ext) num_tokens k /\
    k + (zlen xs - zlen xs') <= n.
Proof.
  intros Hi0 Hc0 Hg0 Hinv Ho Hs Hw Hnew Hl0 He0 Htot Hhit Hpred. pose proof (proj1 Hs) as Hbs.
  rewrite predicted_new in Hpred by done. injection Hpred as <-.
  destruct (skipped_blocks_le m (local + ext) Hs Hw ltac:(lia)) as [Hsk Hskle].
  destruct (add_local_Ok m p xs others rid l local ext Hinv Ho Hs (proj1 Hnew) Hl0 He0 Hhit)
    as (m1 & p1 & Hadd & Hi1 & Hc1 & Ho1 & Hs1 & Hb1 & Hp1 & _ & Hr1 & _).
  destruct Hhit as (Hl & Hlen & Hrest). set (kept := kept_blocks m l (local + ext)) in *.
  assert (block_list p kept) as Hkl by (by apply block_list_drop).
  pose proof (evictable_refs_grow p0 xs0 p xs kept Hi0 Hinv Hc0 Hg0 Hkl) as Hev.
  rewrite (evictable_count p xs) in Hev by done.
  set (bs := mgr_block_size m) in *. set (skip := skipped_tokens m (local + ext) / bs) in *.
  assert (mgr_block_size m1 = bs) as Hbs1 by (by destruct Hs1 as (_ & ? & _)).
  assert (zlen (blocks_of m1 rid) = Z.max skip (zlen l)) as Hlen1.
  { rewrite Hb1, length_app, length_replicate. unfold kept, kept_blocks. rewrite length_drop.
    fold bs. fold skip. lia. }
  pose proof (cdiv_mono local (local + ext) bs Hbs ltac:(lia)) as Hcd.
  eexists m1, p1, _, _. split_and!; [exact Hadd|exact Hi1|exact Hc1| |exact Ho1|exact Hs1| |].
  - intros i. rewrite Hr1. pose proof (refs_in_nonneg i kept). lia.
  - split_and!; [done|rewrite Hlen1, Hbs1; lia|by rewrite Hbs1|apply Z.le_refl].
  - unfold blocks_short. rewrite Hlen1, Hbs1.
    pose proof (kept_cow_count m m1 l rid local ext Hp1). lia.
Qed.

Lemma external_phase m p xs others rid local ext num_tokens k :
  pool_inv p xs -> owns m p others -> table_waits m rid (local + ext) num_tokens k -> k <= zlen xs ->
  exists m' p' xs', allocate_external_computed_blocks rid local ext m p = Ok (m', p') /\
    pool_inv p' xs' /\ same_config p p' /\ owns m' p' others /\ same_manager m m' /\
    blocks_short m' rid num_tokens + (zlen xs - zlen xs') <= k.
Proof.
  intros Hinv Ho (Htot & Hlen & Hbs & Hk) Hxs. unfold blocks_short in Hk.
  pose proof (cdiv_mono (local + ext) num_tokens _ Hbs Htot).
  destruct (allocate_external_Ok m p xs others rid local ext Hinv Ho) as
    (n & m' & p' & Hext & Hn & Hi & Hc & Ho' & Hs & Hb & Hp & _); [lia|].
  exists m', p', (drop n xs). split_and!; try done. unfold blocks_short.
  assert (cow_count m' rid = cow_count m rid) as -> by (unfold cow_count; by rewrite Hp).
  destruct Hs as (_ & -> & _). rewrite Hb, length_app, length_fmap, length_take, length_drop. lia.
Qed.

Lemma evictable_nonneg p l : 0 <= get_num_evictable_blocks p l.
Proof.
  unfold get_num_evictable_blocks. induction l as [|b l IH]; cbn [foldr]; [done|].
  destruct (_ && _); lia.
Qed.

Lemma predicted_nonneg m p rid num_tokens l total local n :
  get_num_blocks_to_allocate m p rid num_tokens l total local false = Ok n -> 0 <= n.
Proof.
  unfold get_num_blocks_to_allocate. destruct (num_cached_block m !! rid).
  - destruct (assert_ (zlen l =? 0)) as [[]|]; [|done]. intros [= <-]. lia.
  - match goal with |- context [get_num_evictable_blocks p ?k] => pose proof (evictable_nonneg p k) end.
    destruct (has_partial_local_hit m l local); intros [= <-]; lia.
Qed.

Lemma predicted_total m p rid num_tokens l total local cap :
  l = [] \/ new_request m rid ->
  exists n, get_num_blocks_to_allocate m p rid num_tokens l total local cap = Ok n.
Proof.
  intros Hl. unfold get_num_blocks_to_allocate. destruct (num_cached_block m !! rid) eqn:E; [|eauto].
  destruct Hl as [->|[_ Hn]]; [eauto|congruence].
Qed.

Lemma redirected_length m rid xs : length (redirected m rid xs) = length (blocks_of m rid).
Proof.
  unfold redirected. destruct (partial_hit_reqs m !! rid) as [[? ?]|]; [|done].
  destruct xs; [done|]. by rewrite length_insert.
Qed.

Lemma allocate_phase m p xs others rid num_tokens :
  pool_inv p xs -> owns m p others -> 0 < mgr_block_size m -> blocks_short m rid num_tokens <= zlen xs ->
  exists new m' p' xs', allocate_new_blocks rid num_tokens m p = Ok (new, m', p') /\
    pool_inv p' xs' /\ same_config p p' /\ owns m' p' others /\ same_manager m m' /\
    zlen xs - zlen xs' <= blocks_short m rid num_tokens /\
    num_tokens <= zlen (blocks_of m' rid) * mgr_block_size m'.
Proof.
  intros Hinv Ho Hbs Hk. unfold blocks_short in *.
  destruct (allocate_new_Ok m p xs others rid num_tokens Hinv Ho) as
    (m' & p' & Hal & Hi & Hc & Ho' & Hs & Hb & _); [lia|].
  eexists _, m', p', _. split; [exact Hal|]. split_and!; [exact Hi|done|done|done| |].
  - rewrite length_drop. lia.
  - destruct Hs as (_ & -> & _). apply cdiv_le_iff; [done|].
    rewrite Hb, length_app, redirected_length, length_fmap, length_take, length_drop. lia.
Qed.

(** A request that has its blocks: no partial hit is pending, and either it is
    counted as cached or its table covers the tokens its attention skips. *)
Definition table_resumed (m : Manager) (rid : string) (total : Z) : Prop :=
  partial_hit_reqs m !! rid = None /\
  (is_Some (num_cached_block m !! rid) \/
   skipped_tokens m total / mgr_block_size m <= zlen (blocks_of m rid)).

Lemma resumed_phase m p rid num_tokens total local n :
  table_resumed m rid total ->
  get_num_blocks_to_allocate m p rid num_tokens [] total local false = Ok n ->
  blocks_short m rid num_tokens <= n.
Proof.
  intros [Hp Hcase] Hn. unfold get_num_blocks_to_allocate, blocks_short, cow_count in *. rewrite Hp.
  assert (match max_admission m with Some cap => cdiv num_tokens (mgr_block_size m)
    | None => cdiv num_tokens (mgr_block_size m) end = cdiv num_tokens (mgr_block_size m)) as Hcap
    by (by destruct (max_admission m)).
  rewrite Hcap in Hn. destruct (num_cached_block m !! rid).
  - injection Hn as <-. lia.
  - destruct Hcase as [[? ?]|Hskip]; [done|]. change (zlen (@nil bref)) with 0 in Hn.
    unfold has_partial_local_hit in Hn. simpl in Hn. injection Hn as <-.
    unfold py_from. rewrite drop_nil. simpl. lia.
Qed.

(** What the removal of skipped blocks keeps. *)
Lemma removed_keeps m m' p p' rid first t e :
  removed_range m m' p p' rid first t e -> same_manager m m' ->
  zlen (blocks_of m' rid) = zlen (blocks_of m rid) /\
  (new_request m rid -> new_request m' rid) /\
  (forall total, table_resumed m rid total -> table_resumed m' rid total).
Proof.
  intros [Hle _ _ Ht _ _ _ Hc Hp] (Hs & Hb & _).
  assert (zlen (blocks_of m' rid) = zlen (blocks_of m rid)) as Hlen.
  { rewrite Ht, !length_app, length_take, length_replicate, length_drop. lia. }
  split_and!; [done|..].
  - intros [Hnil Hnew]. rewrite Hnil in Hlen. split; [|by rewrite Hc].
    apply nil_length_inv. simpl in Hlen. lia.
  - intros total [? ?]. unfold table_resumed, skipped_tokens. by rewrite Hp, Hc, Hlen, Hb, Hs.
Qed.
End Phases.

(** * Draining and popping *)

Lemma owns_pop m p others rid :
  owns m p others ->
  let '(blocks, m') := pop_blocks_for_free rid m in
  blocks = blocks_of m rid /\ blocks_of m' rid = [] /\
  (forall rid', rid' <> rid -> blocks_of m' rid' = blocks_of m rid') /\
  owns m' p (fun i => others i + refs_in i blocks) /\ same_manager m m'.
Proof.
  intros [Ht Hr Hn Hp]. unfold pop_blocks_for_free. unfold blocks_of at 3. simpl.
  split_and!; [done|by rewrite lookup_delete_eq| |split|done..]; simpl.
  - intros rid' Hne. unfold blocks_of. simpl. by rewrite lookup_delete_ne.
  - intros rid' l [_ ?]%lookup_delete_Some. by eapply Ht.
  - intros i Hv. rewrite Hr by done. unfold manager_refs. simpl. rewrite table_refs_delete.
    unfold blocks_of. lia.
  - intros i. specialize (Hn i). pose proof (refs_in_nonneg i (blocks_of m rid)). lia.
  - intros rid' idx b [Hne Hl]%lookup_delete_Some.
    destruct (Hp _ _ _ Hl) as (l & j & ? & ? & ? & ? & ?). exists l, j.
    rewrite lookup_delete_ne by done. done.
Qed.

Lemma owns_take_cow m p others :
  owns m p others ->
  owns (snd (take_pending_cow_copies m)) p
    (fun i => others i + cow_refs (fst (take_pending_cow_copies m)) i).
Proof.
  intros [Ht Hr Hn Hp]. split; simpl; try done.
  - intros i Hv. rewrite Hr by done. unfold manager_refs. simpl. unfold cow_refs at 2. simpl.
    change (refs_in i []) with 0. lia.
  - intros i. specialize (Hn i). unfold cow_refs.
    pose proof (refs_in_nonneg i (pending_cow_copies m).*1).
    pose proof (refs_in_nonneg i (pending_cow_copies m).*2). lia.
Qed.

Lemma owns_new_ids m p others ids : owns m p others -> owns (set_new_ids ids m) p others.
Proof. by intros []. Qed.

Lemma owns_frame m p p' others others' :
  owns m p others -> same_config p p' -> (forall i, 0 <= others' i) ->
  (forall i, valid_block p i ->
    ref_cnt (pheap p' (Blk i)) - others' i = ref_cnt (pheap p (Blk i)) - others i) ->
  owns m p' others'.
Proof.
  intros [Ht Hr0 Hn Hp] Hc Hnn Hr. split; [| |done|].
  - intros rid l Hl. eapply block_list_config; [done|]. by eapply Ht.
  - intros i Hv%(valid_block_config p p'); [|done]. specialize (Hr i Hv). specialize (Hr0 i Hv). lia.
  - intros rid idx b Hl. destruct (Hp _ _ _ Hl) as (l & j & ? & ? & ? & ? & ?).
    exists l, j. split_and!; try done. by apply (valid_block_config p p').
Qed.

Lemma blocks_refs_le m rid i : refs_in i (blocks_of m rid) <= manager_refs m i.
Proof.
  unfold manager_refs, cow_refs, blocks_of. pose proof (refs_in_nonneg i (pending_cow_copies m).*1).
  pose proof (refs_in_nonneg i (pending_cow_copies m).*2).
  destruct (req_to_blocks m !! rid) as [l|] eqn:E; simpl.
  - pose proof (table_refs_lookup _ i _ _ E). lia.
  - change (refs_in i []) with 0. pose proof (table_refs_nonneg (req_to_blocks m) i). lia.
Qed.

Lemma local_hit_config m p p' l local : local_hit_ok m p l local -> same_config p p' -> local_hit_ok m p' l local.
Proof.
  intros (Hl & ? & ? & Ht) Hc. split_and!; [by eapply block_list_config|done|done|].
  intros Hm. destruct (Ht Hm) as (j & ? & ?). exists j. split; [by apply (valid_block_config p p')|done].
Qed.

Lemma same_manager_hit m m' p l local : same_manager m m' -> local_hit_ok m p l local -> local_hit_ok m' p l local.
Proof. intros (_ & Hb & Hc & _) Hh. unfold local_hit_ok. by rewrite Hb, Hc. Qed.

(** Positive sizes and windows, kept by every operation. *)
Definition config_ok (m : Manager) : Prop := spec_ok m /\ window_ok m.

Lemma config_ok_same m m' : same_manager m m' -> config_ok m -> config_ok m'.
Proof.
  intros Hs [? ?]. split; [by eapply spec_ok_same|]. destruct Hs as (Hs & _). unfold window_ok. by rewrite Hs.
Qed.

(** * Attention groups *)

Section Attention.
Context `{PoolEnv}.

#[export] Instance attention_group : GroupManager Manager := {|
  gm_is_cross m := false;
  gm_spec := kv_cache_spec;
  gm_block_size := mgr_block_size;
  gm_use_eagle := use_eagle;
  gm_set_use_eagle := set_use_eagle;
  gm_records_new_block_ids := record_new_block_ids;
  gm_blocks := blocks_of;
  gm_is_tracked m rid := bool_decide (is_Some (num_cached_block m !! rid));
  gm_predict m p rid num_tokens blocks total local main cap :=
    get_num_blocks_to_allocate m p rid num_tokens blocks total local cap;
  gm_add_local := add_local_computed_blocks;
  gm_allocate_external := allocate_external_computed_blocks;
  gm_allocate_new rid num_tokens main := allocate_new_blocks rid num_tokens;
  gm_cache := cache_blocks;
  gm_remove_skipped := remove_skipped_blocks;
  gm_pop := pop_blocks_for_free;
  gm_free := free;
  gm_common_prefix := get_num_common_prefix_blocks;
  gm_new_step m := m;
  gm_take_new_block_ids := take_new_block_ids;
  gm_extend_new_block_ids ids m := set_new_ids (new_block_ids m ++ ids) m;
  gm_take_cow_copies := take_pending_cow_copies;
  gm_take_offloads m := ([], m)
|}.

#[export] Program Instance attention_laws : GroupManagerLaws Manager := {|
  gm_owns m p others := owns m p others /\ config_ok m;
  gm_refs := manager_refs;
  gm_new := new_request;
  gm_hit m p l s := local_hit_ok m p l (sl_local s) /\ 0 <= sl_local s /\ 0 <= sl_external s /\
    sl_total s <= sl_tokens s;
  gm_waiting m s := table_waits m (sl_request s) (sl_total s) (sl_tokens s);
  gm_open m s k := 0 < mgr_block_size m /\ blocks_short m (sl_request s) (sl_tokens s) <= k;
  gm_resumed m s := 0 < mgr_block_size m /\ table_resumed m (sl_request s) (sl_total s);
  gm_removable m rid processed np := partial_hit_reqs m !! rid = None /\ 0 <= processed /\
    (forall n, np = Some n -> 0 <= n);
  gm_covered m s := sl_tokens s <= zlen (blocks_of m (sl_request s)) * mgr_block_size m
|}.
Next Obligation. apply manager_refs_nonneg. Qed.
Next Obligation. simpl. intros m p others i [Ho _] Hv. by apply (ow_refs _ _ _ Ho). Qed.
Next Obligation. simpl. intros m p others i [Ho _]. apply (ow_others _ _ _ Ho). Qed.
Next Obligation. simpl. intros m p others [_ Hk]. apply Hk. Qed.
Next Obligation. simpl. intros m p others rid [Ho _]. by eapply owns_blocks_of. Qed.
Next Obligation. apply blocks_refs_le. Qed.
Next Obligation. simpl. intros m p p' others others' [Ho Hk] Hc Hn Hr. split; [by eapply owns_frame|done]. Qed.
Next Obligation. simpl. intros m p p' l s (? & ?) Hc. split; [by eapply local_hit_config|done]. Qed.
Next Obligation. simpl. intros e m p others [Ho Hk]. split; [by destruct Ho|done]. Qed.
Next Obligation. unfold group_predict. simpl. intros. by apply predicted_total. Qed.
Next Obligation. unfold group_predict. simpl. intros m p xs others l s n _ _ _ _. apply predicted_nonneg. Qed.
Next Obligation.
  simpl. intros m p0 xs0 p xs others l s n Hi0 Hc Hg Hi [Ho [Hs Hw]] Hnew (Hhit & Hl & He & Ht) Hp _.
  destruct (add_local_phase m p0 xs0 p xs others _ l _ _ _ n Hi0 Hc Hg Hi Ho Hs Hw Hnew Hl He Ht Hhit Hp)
    as (m' & p' & xs' & k & ? & ? & ? & ? & ? & Hs' & ? & ?).
  exists m', p', xs', k. split_and!; try done; by eapply config_ok_same.
Qed.
Next Obligation. simpl. intros m rid [_ Hn]. by rewrite Hn. Qed.
Next Obligation. simpl. intros m s k (_ & _ & _ & Hk). unfold blocks_short in Hk. lia. Qed.
Next Obligation. simpl. intros m s k (_ & _ & ? & ?) _. done. Qed.
Next Obligation.
  simpl. intros m p xs others s k Hi [Ho Hk] Hw Hxs. pose proof Hw as (_ & _ & Hbs & _).
  destruct (external_phase m p xs others _ _ _ _ k Hi Ho Hw Hxs)
    as (m' & p' & xs' & ? & ? & ? & ? & Hs' & ?).
  exists m', p', xs', (blocks_short m' (sl_request s) (sl_tokens s)).
  assert (config_ok m') by (by eapply config_ok_same).
  assert (0 < mgr_block_size m') by (by destruct Hs' as (_ & -> & _)). by split_and!.
Qed.
Next Obligation. simpl. intros m s k [_ Hk]. unfold blocks_short in Hk. lia. Qed.
Next Obligation.
  unfold group_allocate. simpl. intros m p xs others s k Hi [Ho Hk] [Hbs Hsh] Hxs.
  destruct (allocate_phase m p xs others (sl_request s) (sl_tokens s) Hi Ho Hbs ltac:(lia))
    as (new & m' & p' & xs' & ? & ? & ? & ? & Hs' & ? & ?).
  exists new, m', p', xs'. split_and!; try done; [by eapply config_ok_same|lia].
Qed.
Next Obligation.
  unfold group_predict. simpl. intros m p s n [Hbs Hr] _ Hp. split; [done|by eapply resumed_phase].
Qed.
Next Obligation.
  simpl. intros m p xs others rid processed np Hi [Ho Hk] (Hp & Hpr & Hnp).
  pose proof (remove_skipped_Ok m p xs others rid processed np Hi Ho (proj1 Hk) Hp Hpr Hnp) as Hrm.
  destruct (skipped_range m rid processed np) as [first last].
  destruct Hrm as (m' & p' & xs' & t & ? & ? & ? & ? & Hs & Hrr).
  destruct (removed_keeps _ _ _ _ _ _ _ _ Hrr Hs) as (_ & ? & Hres).
  exists m', p', xs'. split_and!; try done; [by eapply config_ok_same|..].
  - intros s <- [? ?]. split; [by destruct Hs as (_ & -> & _)|by apply Hres].
  - intros q l s (? & ?). split; [by eapply same_manager_hit|done].
Qed.
Next Obligation.
  simpl. intros m p xs others rid Hi [Ho Hk].
  destruct (free_Ok m p xs others rid Hi Ho) as (m' & p' & xs' & ? & ? & ? & ? & ? & Hreq & _).
  exists m', p', xs'. split_and!; try done; [by eapply config_ok_same|..]; unfold blocks_of; rewrite Hreq.
  - by rewrite lookup_delete_eq.
  - intros rid' Hne. by rewrite lookup_delete_ne.
Qed.
Next Obligation.
  intros m p others rid [Ho Hk]. pose proof (owns_pop m p others rid Ho) as Hpop.
  revert Hpop. cbn -[pop_blocks_for_free]. destruct (pop_blocks_for_free rid m) as [blocks m'].
  intros (? & ? & ? & ? & ?). assert (config_ok m') by (by eapply config_ok_same). by split_and!.
Qed.
Next Obligation.
  simpl. intros r n ri m p xs others r' m' p' _ Hi [Ho Hk] Hc.
  destruct (cache_blocks_inv _ _ _ _ _ _ _ _ _ _ Hi Ho Hc) as (? & ? & ? & ?).
  split_and!; try done. by eapply config_ok_same.
Qed.
Next Obligation.
  simpl. intros m p others rid [Ho Hk]. unfold get_num_common_prefix_blocks.
  destruct (is_full_attention _); [|done]. split; [by apply owns_ensure|done].
Qed.
Next Obligation. simpl. intros m p others [? ?]. by split. Qed.
Next Obligation. simpl. intros m p others [? ?]. split; [by apply owns_new_ids|done]. Qed.
Next Obligation. simpl. intros ids m p others [? ?]. split; [by apply owns_new_ids|done]. Qed.
Next Obligation. simpl. intros m p others [? ?]. split; [by apply owns_take_cow|done]. Qed.
Next Obligation. simpl. intros m p others [? ?]. by split. Qed.
End Attention.

(** * Cross-attention groups *)

(** [CrossAttentionManager]: encoder states belong to one request, are computed
    once and never cached. *)
Record CrossManager := mkCross { cross_base : Manager }.

Lemma empty_no_partial m p others rid :
  owns m p others -> blocks_of m rid = [] -> partial_hit_reqs m !! rid = None.
Proof.
  intros Ho Hnil. destruct (partial_hit_reqs m !! rid) as [[idx b]|] eqn:E; [|done].
  destruct (ow_partial _ _ _ Ho _ _ _ E) as (l0 & j & Ht & _ & _ & _ & Hlk).
  unfold blocks_of in Hnil. rewrite Ht in Hnil. simpl in Hnil. by rewrite Hnil in Hlk.
Qed.

Section Cross.
Context `{PoolEnv}.

Definition on_cross {A} (f : Manager -> A * Manager) (m : CrossManager) : A * CrossManager :=
  let '(a, b) := f (cross_base m) in (a, mkCross b).
Definition on_cross_pool (f : Manager -> BlockPool -> result (Manager * BlockPool)) (m : CrossManager)
    (p : BlockPool) : result (CrossManager * BlockPool) :=
  '(b, p) ← f (cross_base m) p; Ok (mkCross b, p).

(** The overrides of [CrossAttentionManager]. *)
Definition cross_add_local_computed_blocks (new_computed_blocks : list bref) (m : CrossManager)
    (p : BlockPool) : result (CrossManager * BlockPool) :=
  _ ← assert_ (zlen new_computed_blocks =? 0); Ok (m, p).
Definition cross_allocate_external_computed_blocks (m : CrossManager) (p : BlockPool)
    : result (CrossManager * BlockPool) := Ok (m, p).
Definition cross_cache_blocks (m : CrossManager) (p : BlockPool)
    : result (Request * CrossManager * BlockPool) := Raise ValueError.

#[export] Instance cross_group : GroupManager CrossManager := {|
  gm_is_cross m := true;
  gm_spec m := kv_cache_spec (cross_base m);
  gm_block_size m := mgr_block_size (cross_base m);
  gm_use_eagle m := use_eagle (cross_base m);
  gm_set_use_eagle e m := mkCross (set_use_eagle e (cross_base m));
  gm_records_new_block_ids m := record_new_block_ids (cross_base m);
  gm_blocks m := blocks_of (cross_base m);
  gm_is_tracked m rid := bool_decide (is_Some (num_cached_block (cross_base m) !! rid));
  gm_predict m p rid num_tokens blocks total local main cap :=
    get_num_blocks_to_allocate (cross_base m) p rid num_tokens blocks total local cap;
  gm_add_local rid blocks local ext := cross_add_local_computed_blocks blocks;
  gm_allocate_external rid local ext := cross_allocate_external_computed_blocks;
  gm_allocate_new rid num_tokens main m p :=
    '(new_blocks, b, p) ← allocate_new_blocks rid num_tokens (cross_base m) p;
    Ok (new_blocks, mkCross b, p);
  gm_cache r n ri := cross_cache_blocks;
  gm_remove_skipped rid processed np := on_cross_pool (remove_skipped_blocks rid processed np);
  gm_pop rid := on_cross (pop_blocks_for_free rid);
  gm_free rid := on_cross_pool (free rid);
  gm_common_prefix rid m p := (0, m);
  gm_new_step m := m;
  gm_take_new_block_ids := on_cross take_new_block_ids;
  gm_extend_new_block_ids ids m :=
    mkCross (set_new_ids (new_block_ids (cross_base m) ++ ids) (cross_base m));
  gm_take_cow_copies := on_cross take_pending_cow_copies;
  gm_take_offloads m := ([], m)
|}.

Definition is_cross_manager (m : Manager) : Prop :=
  config_ok m /\ spec_kind (kv_cache_spec m) = CrossAttentionSpec.

Lemma is_cross_same m m' : same_manager m m' -> is_cross_manager m -> is_cross_manager m'.
Proof.
  intros Hs [? Hk]. split; [by eapply config_ok_same|]. by destruct Hs as (-> & _).
Qed.

Lemma cross_resumed m rid :
  is_cross_manager m -> partial_hit_reqs m !! rid = None -> table_resumed m rid 0.
Proof.
  intros [[[Hbs _] _] Hk] Hp. split; [done|right]. unfold skipped_tokens. rewrite Hk. simpl.
  rewrite Z.div_0_l by lia. lia.
Qed.

#[export] Program Instance cross_laws : GroupManagerLaws CrossManager := {|
  gm_owns m p others := owns (cross_base m) p others /\ is_cross_manager (cross_base m);
  gm_refs m := manager_refs (cross_base m);
  gm_new m := new_request (cross_base m);
  gm_hit m p l s := l = [];
  gm_waiting m s k := 0 < mgr_block_size (cross_base m) /\
    blocks_short (cross_base m) (sl_request s) (sl_encoder s) <= k;
  gm_open m s k := 0 < mgr_block_size (cross_base m) /\
    blocks_short (cross_base m) (sl_request s) (sl_encoder s) <= k;
  gm_resumed m s := is_cross_manager (cross_base m) /\
    partial_hit_reqs (cross_base m) !! sl_request s = None;
  gm_removable m rid processed np := partial_hit_reqs (cross_base m) !! rid = None /\ 0 <= processed;
  gm_covered m s := sl_encoder s <=
    zlen (blocks_of (cross_base m) (sl_request s)) * mgr_block_size (cross_base m)
|}.
Next Obligation. intros. apply manager_refs_nonneg. Qed.
Next Obligation. simpl. intros m p others i [Ho _] Hv. by apply (ow_refs _ _ _ Ho). Qed.
Next Obligation. simpl. intros m p others i [Ho _]. apply (ow_others _ _ _ Ho). Qed.
Next Obligation. simpl. intros m p others [_ Hk]. apply Hk. Qed.
Next Obligation. simpl. intros m p others rid [Ho _]. by eapply owns_blocks_of. Qed.
Next Obligation. intros. apply blocks_refs_le. Qed.
Next Obligation. simpl. intros m p p' others others' [Ho Hk] Hc Hn Hr. split; [by eapply owns_frame|done]. Qed.
Next Obligation. simpl. done. Qed.
Next Obligation. simpl. intros e m p others [Ho Hk]. split; [by destruct Ho|done]. Qed.
Next Obligation. unfold group_predict. simpl. intros. apply predicted_total. by left. Qed.
Next Obligation. unfold group_predict. simpl. intros m p xs others l s n _ _ _ _. apply predicted_nonneg. Qed.
Next Obligation.
  unfold group_predict. simpl. intros m p0 xs0 p xs others l s n _ _ _ Hi [Ho Hk] Hnew -> Hp _.
  exists m, p, xs, n. split_and!; try done; try (by destruct Hk as [[[? _] _] _]); [|lia].
  eapply resumed_phase; [|exact Hp]. apply cross_resumed; [done|by eapply empty_no_partial; [|apply Hnew]].
Qed.
Next Obligation. simpl. intros m rid [_ Hn]. by rewrite Hn. Qed.
Next Obligation. simpl. intros m s k [_ Hk]. unfold blocks_short in Hk. lia. Qed.
Next Obligation. simpl. done. Qed.
Next Obligation.
  simpl. intros m p xs others s k Hi Ho Hw Hxs. exists m, p, xs, k. split_and!; try done; try tauto. lia.
Qed.
Next Obligation. simpl. intros m s k [_ Hk]. unfold blocks_short in Hk. lia. Qed.
Next Obligation.
  unfold group_allocate. simpl. intros m p xs others s k Hi [Ho Hk] [Hbs Hsh] Hxs.
  destruct (allocate_phase (cross_base m) p xs others (sl_request s) (sl_encoder s) Hi Ho Hbs ltac:(lia))
    as (new & m' & p' & xs' & -> & ? & ? & ? & Hs' & ? & ?).
  exists new, (mkCross m'), p', xs'. assert (is_cross_manager m') by (by eapply is_cross_same).
  split_and!; try done; lia.
Qed.
Next Obligation.
  unfold group_predict. simpl. intros m p s n [Hk Hp] _ Hn. split; [by destruct Hk as [[[? _] _] _]|].
  eapply resumed_phase; [|exact Hn]. by apply cross_resumed.
Qed.
Next Obligation.
  cbn -[remove_skipped_blocks]. unfold on_cross_pool. intros m p xs others rid processed np Hi [Ho Hk] (Hp & Hpr).
  pose proof (base_remove_skipped_Ok (cross_base m) p xs others rid processed Hi Ho
    (proj1 (proj1 (proj1 Hk))) ltac:(by rewrite Hp)) as (m' & p' & xs' & t & Hr & ? & ? & ? & Hs & Hrr).
  destruct (removed_keeps _ _ _ _ _ _ _ _ Hrr Hs) as (Hlen & ? & _).
  assert (remove_skipped_blocks rid processed np (cross_base m) p = Ok (m', p')) as ->.
  { unfold remove_skipped_blocks. by rewrite (proj2 Hk). }
  assert (is_cross_manager m') by (by eapply is_cross_same).
  exists (mkCross m'), p', xs'. split_and!; try done; cbn.
  - intros s <- [_ Hps]. split; [done|]. by rewrite (rr_partial _ _ _ _ _ _ _ _ Hrr).
Qed.
Next Obligation.
  cbn -[free]. unfold on_cross_pool. intros m p xs others rid Hi [Ho Hk].
  destruct (free_Ok (cross_base m) p xs others rid Hi Ho) as (m' & p' & xs' & -> & ? & ? & ? & ? & Hreq & _).
  assert (is_cross_manager m') by (by eapply is_cross_same).
  exists (mkCross m'), p', xs'. split_and!; try done; unfold blocks_of; simpl; rewrite Hreq.
  - by rewrite lookup_delete_eq.
  - intros rid' Hne. by rewrite lookup_delete_ne.
Qed.
Next Obligation.
  intros m p others rid [Ho Hk]. pose proof (owns_pop _ p others rid Ho) as Hpop.
  revert Hpop. cbn -[pop_blocks_for_free]. unfold on_cross.
  destruct (pop_blocks_for_free rid (cross_base m)) as [blocks m'].
  intros (? & ? & ? & ? & ?). assert (is_cross_manager m') by (by eapply is_cross_same). by split_and!.
Qed.
Next Obligation. done. Qed.
Next Obligation. simpl. done. Qed.
Next Obligation. simpl. done. Qed.
Next Obligation. simpl. intros m p others [? ?]. split; [by apply owns_new_ids|done]. Qed.
Next Obligation. simpl. intros ids m p others [? ?]. split; [by apply owns_new_ids|done]. Qed.
Next Obligation. simpl. intros m p others [? ?]. split; [by apply owns_take_cow|done]. Qed.
Next Obligation. simpl. done. Qed.
End Cross.
