(* ===== verification/MambaManager.v ===== *)
(** [MambaManager] of
    src/upstream/vllm/v1/core/single_type_kv_cache_manager.py: the manager of a
    group of Mamba layers. A block holds a recurrent state instead of the KV of
    its tokens, so a request keeps only its last states: in "align" mode its
    table holds null blocks, one running state and the speculative blocks, which
    the next step moves to the end of the table instead of allocating new ones.

    [MambaManager] inherits from [SingleTypeKVCacheManager]: the inherited state
    is the field [base] and the inherited methods are the definitions of
    [SingleType], which dispatch on the spec where a subclass overrides them. *)
From S2P Require Import Prelude FreeQueue Request BlockHash BlockPool CacheHit MambaHit SingleType GroupManager AttentionGroup.
Open Scope Z_scope.

(** * State *)

Record MambaManager := mkMambaManager {
  base : Manager;
  cached_blocks_this_step : gset bytes;
  last_state_block_idx : gmap string Z;
  allocated_block_reqs : gset string;
  producer_partial_tail_reqs : gmap string Z;
  pending_partial_tail_offloads : list (string * Z * bref * Z)
}.

Definition with_base (b : Manager) (m : MambaManager) : MambaManager :=
  mkMambaManager b (cached_blocks_this_step m) (last_state_block_idx m) (allocated_block_reqs m)
    (producer_partial_tail_reqs m) (pending_partial_tail_offloads m).
Definition with_cached_step (s : gset bytes) (m : MambaManager) : MambaManager :=
  mkMambaManager (base m) s (last_state_block_idx m) (allocated_block_reqs m)
    (producer_partial_tail_reqs m) (pending_partial_tail_offloads m).
Definition with_last_state (l : gmap string Z) (m : MambaManager) : MambaManager :=
  mkMambaManager (base m) (cached_blocks_this_step m) l (allocated_block_reqs m)
    (producer_partial_tail_reqs m) (pending_partial_tail_offloads m).
Definition with_allocated (s : gset string) (m : MambaManager) : MambaManager :=
  mkMambaManager (base m) (cached_blocks_this_step m) (last_state_block_idx m) s
    (producer_partial_tail_reqs m) (pending_partial_tail_offloads m).
Definition with_producers (r : gmap string Z) (m : MambaManager) : MambaManager :=
  mkMambaManager (base m) (cached_blocks_this_step m) (last_state_block_idx m)
    (allocated_block_reqs m) r (pending_partial_tail_offloads m).
Definition with_offloads (l : list (string * Z * bref * Z)) (m : MambaManager) : MambaManager :=
  mkMambaManager (base m) (cached_blocks_this_step m) (last_state_block_idx m)
    (allocated_block_reqs m) (producer_partial_tail_reqs m) l.

(** [self.mamba_cache_mode] and [self.num_speculative_blocks], from the spec. *)
Definition is_align (m : MambaManager) : bool :=
  match spec_kind (kv_cache_spec (base m)) with MambaSpec MambaAlign _ => true | _ => false end.
Definition speculative_blocks (m : MambaManager) : Z :=
  match spec_kind (kv_cache_spec (base m)) with MambaSpec _ n => n | _ => 0 end.

(** [__init__]. *)
Definition mamba_init (spec : KVCacheSpec) (caching : bool)
    (group_id scheduler_block_size dcp : Z) (needs_kv_cache_zeroing : bool) : MambaManager :=
  mkMambaManager
    (manager_init spec caching group_id scheduler_block_size dcp needs_kv_cache_zeroing None)
    ∅ ∅ ∅ ∅ [].

(** [block.block_hash in self.cached_blocks_this_step]. *)
Definition cached_this_step (m : MambaManager) (p : BlockPool) (b : bref) : bool :=
  match block_hash (pheap p b) with
  | Some h => bool_decide (h ∈ cached_blocks_this_step m) | None => false end.

(** [self.cached_blocks_this_step.add(block.block_hash)]. *)
Definition note_cached (h : option bytes) (m : MambaManager) : MambaManager :=
  match h with
  | Some h => with_cached_step ({[h]} ∪ cached_blocks_this_step m) m | None => m end.

(** * Predicting *)

(** [num_tokens] outside "align" mode: room for the speculative blocks. *)
Definition with_lookahead (m : MambaManager) (num_tokens : Z) : Z :=
  if 0 <? speculative_blocks m
  then num_tokens + spec_block_size (kv_cache_spec (base m)) * speculative_blocks m else num_tokens.

(** [get_num_blocks_to_allocate]. The entry that reading the [defaultdict] leaves
    for a new request is the empty list, which no later step tells from a
    missing one, and is not recorded. *)
Definition mamba_get_num_blocks_to_allocate (m : MambaManager) (p : BlockPool) (rid : string)
    (num_tokens : Z) (new_computed_blocks : list bref)
    (total_computed_tokens num_local_computed_tokens num_tokens_main_model : Z)
    (apply_admission_cap : bool) : result Z :=
  let deferred := match last new_computed_blocks with
    | Some b => cached_this_step m p b | None => false end in
  if deferred then Ok (num_gpu_blocks p + 1) else
  if negb (is_align m) then
    get_num_blocks_to_allocate (base m) p rid (with_lookahead m num_tokens) new_computed_blocks
      total_computed_tokens num_local_computed_tokens apply_admission_cap
  else
    let num_tokens := num_tokens_main_model in
    let num_required_blocks := cdiv num_tokens (mgr_block_size (base m)) + speculative_blocks m in
    let num_new_blocks :=
      num_required_blocks - zlen new_computed_blocks - zlen (blocks_of (base m) rid) in
    let has_partial_hit := has_partial_local_hit (base m) new_computed_blocks num_local_computed_tokens
      || bool_decide (is_Some (partial_hit_reqs (base m) !! rid)) in
    let num_new_blocks :=
      if has_partial_hit then Z.max num_new_blocks 0 + 1 else num_new_blocks in
    let num_new_blocks :=
      if 0 <? num_new_blocks then
        if bool_decide (rid ∈ allocated_block_reqs m)
        then 1 + Z.b2z has_partial_hit
        else 1 + speculative_blocks m + Z.b2z has_partial_hit
      else num_new_blocks in
    Ok (num_new_blocks + get_num_evictable_blocks p new_computed_blocks).

Section Operations.
Context `{PoolEnv}.

(** * Allocating *)

(** Reusing the speculative blocks of the previous step: those in front of the
    new running state move to the end of the table. *)
Fixpoint reuse_speculative (num_skipped_blocks : Z) (idxs : list Z) (req_blocks : list bref)
    : result (list bref) :=
  match idxs with
  | [] => Ok req_blocks
  | block_idx :: idxs' =>
      if block_idx <? num_skipped_blocks then
        b ← py_index req_blocks block_idx;
        req_blocks ← py_set (req_blocks ++ [b]) block_idx null_block;
        reuse_speculative num_skipped_blocks idxs' req_blocks
      else Ok req_blocks
  end.

(** The redirect of a partial hit of a running request: the hash keys move to the
    fresh block, the request stays on the old one. *)
Definition move_cow (rid : string) (block_idx : Z) (source_block cow_block : bref)
    (m : MambaManager) (p : BlockPool) : result (MambaManager * BlockPool) :=
  b ← py_index (blocks_of (base m) rid) block_idx;
  _ ← assert_ (bool_decide (b = source_block));
  p ← move_block_hashes source_block cow_block p;
  let m := with_base (set_cow (pending_cow_copies (base m) ++ [(source_block, cow_block)]) (base m)) m in
  let p := with_heap (heap_upd (pheap p) source_block
    (with_ref_cnt (ref_cnt (pheap p source_block) + 1))) p in
  let m := match producer_partial_tail_reqs m !! rid with
    | None => m
    | Some boundary_tokens =>
        with_offloads (pending_partial_tail_offloads m ++
            [(rid, kv_cache_group_id (base m), cow_block, boundary_tokens)])
          (with_producers (delete rid (producer_partial_tail_reqs m)) m)
    end in
  Ok (note_cached (block_hash (pheap p cow_block)) m, p).

(** The table before any block is allocated: nulls for the skipped states, then
    the reused speculative blocks. *)
Definition align_table (m : MambaManager) (rid : string) (num_skipped_blocks : Z)
    : result (list bref) :=
  let req_blocks := blocks_of (base m) rid in
  let prev_block_len := zlen req_blocks in
  let req_blocks := if prev_block_len <? num_skipped_blocks
    then req_blocks ++ replicate (Z.to_nat (num_skipped_blocks - prev_block_len)) null_block
    else req_blocks in
  if bool_decide (rid ∈ allocated_block_reqs m)
  then reuse_speculative num_skipped_blocks
         (py_range (prev_block_len - speculative_blocks m) prev_block_len) req_blocks
  else Ok req_blocks.

(** [self.last_state_block_idx] of the request, before its table changes. *)
Definition record_last_state (rid : string) (m : MambaManager) : MambaManager :=
  let prev_block_len := zlen (blocks_of (base m) rid) in
  if bool_decide (rid ∈ allocated_block_reqs m) then
    with_last_state (<[rid := prev_block_len - 1 - speculative_blocks m]> (last_state_block_idx m)) m
  else if 0 <? prev_block_len then
    with_last_state (<[rid := prev_block_len - 1]> (last_state_block_idx m)) m
  else m.

(** The end of [allocate_new_blocks]: the table is extended, the request noted. *)
Definition finish_allocation (rid : string) (new_blocks : list bref) (m : MambaManager)
    : MambaManager :=
  let b := set_table rid (blocks_of (base m) rid ++ new_blocks) (base m) in
  with_allocated ({[rid]} ∪ allocated_block_reqs m)
    (with_base (set_partial (delete rid (partial_hit_reqs b)) b) m).

(** The second half of [allocate_new_blocks] in "align" mode, when the table has
    been rewritten: the new blocks, and the redirect of a partial hit. *)
Definition complete_allocation (rid : string) (n : Z) (returned_blocks : list bref) (m : MambaManager)
    (p : BlockPool) : result (list bref * MambaManager * BlockPool) :=
  '(new_blocks, p) ← get_new_blocks n p;
  match partial_hit_reqs (base m) !! rid with
  | None => Ok (returned_blocks ++ new_blocks, finish_allocation rid new_blocks m, p)
  | Some (block_idx, source_block) =>
      cow_block ← py_index new_blocks 0;
      let new_blocks := py_from new_blocks 1 in
      if bool_decide (rid ∈ allocated_block_reqs m) then
        '(m, p) ← move_cow rid block_idx source_block cow_block m p;
        Ok (returned_blocks ++ new_blocks, finish_allocation rid new_blocks m, p)
      else
        '(b, p) ← apply_cow rid block_idx source_block cow_block (base m) p;
        Ok (([cow_block] ++ returned_blocks) ++ new_blocks,
            finish_allocation rid new_blocks (with_base b m), p)
  end.

(** [allocate_new_blocks] in "align" mode. *)
Definition align_allocate_new_blocks (rid : string) (num_tokens_main_model : Z)
    (m : MambaManager) (p : BlockPool) : result (list bref * MambaManager * BlockPool) :=
  let m := with_base (ensure rid (base m)) m in
  let num_required_blocks :=
    cdiv num_tokens_main_model (mgr_block_size (base m)) + speculative_blocks m in
  let has_partial_hit := bool_decide (is_Some (partial_hit_reqs (base m) !! rid)) in
  let prev_block_len := zlen (blocks_of (base m) rid) in
  if (num_required_blocks <=? prev_block_len) && negb has_partial_hit then Ok ([], m, p) else
  let blocks_allocated := bool_decide (rid ∈ allocated_block_reqs m) in
  let num_skipped_blocks := num_required_blocks - speculative_blocks m - 1 in
  req_blocks ← align_table m rid num_skipped_blocks;
  let m := record_last_state rid m in
  let num_new_blocks := num_required_blocks - zlen req_blocks in
  let num_new_blocks := if has_partial_hit then Z.max num_new_blocks 0 + 1 else num_new_blocks in
  _ ← assert_ (if blocks_allocated then num_new_blocks <=? 1 + Z.b2z has_partial_hit
               else num_new_blocks <=? speculative_blocks m + 1 + Z.b2z has_partial_hit);
  complete_allocation rid num_new_blocks (py_from req_blocks prev_block_len)
    (with_base (set_table rid req_blocks (base m)) m) p.

(** [allocate_new_blocks]. *)
Definition mamba_allocate_new_blocks (rid : string) (num_tokens num_tokens_main_model : Z)
    (m : MambaManager) (p : BlockPool) : result (list bref * MambaManager * BlockPool) :=
  if negb (is_align m) then
    '(new_blocks, b, p) ← allocate_new_blocks rid (with_lookahead m num_tokens) (base m) p;
    Ok (new_blocks, with_base b m, p)
  else align_allocate_new_blocks rid num_tokens_main_model m p.

(** * Caching *)

(** [_cache_partial_tail_block]. *)
Definition mamba_cache_partial_tail_block (r : Request) (num_tokens : Z) (m : MambaManager)
    (p : BlockPool) : result (option bytes * Request * MambaManager * BlockPool) :=
  let rid := request_id r in
  let hash_block_size := pool_hash_block_size p in
  let bs := mgr_block_size (base m) in
  if bs =? hash_block_size then Ok (None, r, m, p) else
  if num_tokens mod bs =? 0 then Ok (None, r, m, p) else
  rest ← py_mod num_tokens hash_block_size;
  if negb (rest =? 0) then Ok (None, r, m, p) else
  q ← py_div (num_prompt_tokens r) hash_block_size;
  let latest_prompt_hash_boundary := q * hash_block_size in
  if negb (num_tokens =? latest_prompt_hash_boundary) then Ok (None, r, m, p) else
  let block_idx := num_tokens / bs in
  let m := with_base (ensure rid (base m)) m in
  let blocks := blocks_of (base m) rid in
  if zlen blocks <=? block_idx then Ok (None, r, m, p) else
  source_block ← py_index blocks block_idx;
  if is_null (pheap p source_block) then Ok (None, r, m, p) else
  '(partial_hash, r, p) ← cache_partial_block r source_block num_tokens (kv_cache_group_id (base m)) bs p;
  match partial_hash with
  | None => Ok (None, r, m, p)
  | Some _ =>
      let b := set_partial (<[rid := (block_idx, source_block)]> (partial_hit_reqs (base m)))
                 (base m) in
      let b := set_num_cached (<[rid := block_idx]> (num_cached_block b)) b in
      Ok (partial_hash, r,
        with_producers (<[rid := num_tokens]> (producer_partial_tail_reqs m)) (with_base b m),
        p)
  end.

(** Noting the blocks that were cached in this step; a null block has no hash. *)
Definition note_new_blocks (p : BlockPool) (blocks : list bref) (m : MambaManager) : MambaManager :=
  fold_left (fun m b => if is_null (pheap p b) then m else note_cached (block_hash (pheap p b)) m)
    blocks m.

(** [cache_blocks]. *)
Definition mamba_cache_blocks (r : Request) (num_tokens : Z) (retention_interval : option Z)
    (m : MambaManager) (p : BlockPool) : result (Request * MambaManager * BlockPool) :=
  let num_cached_blocks_before := default 0 (num_cached_block (base m) !! request_id r) in
  '(r, b, p) ← base_cache_blocks r num_tokens retention_interval (base m) p;
  let m := with_base b m in
  let num_cached_blocks_after := default 0 (num_cached_block (base m) !! request_id r) in
  '(r, m, p) ←
    (if is_align m then
       '(partial_hash, r, m, p) ← mamba_cache_partial_tail_block r num_tokens m p;
       Ok (r, note_cached partial_hash m, p)
     else Ok (r, m, p));
  if num_cached_blocks_before <? num_cached_blocks_after then
    let m := with_base (ensure (request_id r) (base m)) m in
    Ok (r, note_new_blocks p (py_slice (blocks_of (base m) (request_id r))
             num_cached_blocks_before num_cached_blocks_after) m, p)
  else Ok (r, m, p).

(** * Taking blocks back *)

(** [remove_skipped_blocks]: also the state two steps back, which the previous
    step copied from. *)
Definition mamba_remove_skipped_blocks (rid : string) (processed_computed_tokens : Z)
    (m : MambaManager) (p : BlockPool) : result (MambaManager * BlockPool) :=
  '(b, p) ← base_remove_skipped_blocks rid processed_computed_tokens (base m) p;
  let m := with_base b m in
  if negb (is_align m) then Ok (m, p) else
  match last_state_block_idx m !! rid with
  | None => Ok (m, p)
  | Some idx =>
      if idx <? cdiv processed_computed_tokens (mgr_block_size (base m)) - 1 then
        let m := with_base (ensure rid (base m)) m in
        let blocks := blocks_of (base m) rid in
        b ← py_index blocks idx;
        if bool_decide (b = null_block) then Ok (m, p) else
        p ← free_blocks [b] p;
        blocks ← py_set blocks idx null_block;
        Ok (with_base (set_table rid blocks (base m)) m, p)
      else Ok (m, p)
  end.

(** [pop_blocks_for_free]. *)
Definition mamba_pop_blocks_for_free (rid : string) (m : MambaManager) : list bref * MambaManager :=
  let m := if is_align m then
      with_offloads (filter (fun e => e.1.1.1 <> rid) (pending_partial_tail_offloads m))
        (with_producers (delete rid (producer_partial_tail_reqs m))
          (with_last_state (delete rid (last_state_block_idx m))
            (with_allocated (allocated_block_reqs m ∖ {[rid]}) m)))
    else m in
  let '(blocks, b) := pop_blocks_for_free rid (base m) in (blocks, with_base b m).

(** [free], inherited: it pops through the override. *)
Definition mamba_free (rid : string) (m : MambaManager) (p : BlockPool)
    : result (MambaManager * BlockPool) :=
  let '(blocks, m) := mamba_pop_blocks_for_free rid m in
  p ← free_blocks (reverse blocks) p;
  Ok (m, p).

(** [new_step_starts] and [take_pending_partial_tail_offloads]. *)
Definition mamba_new_step_starts (m : MambaManager) : MambaManager := with_cached_step ∅ m.
Definition take_pending_partial_tail_offloads (m : MambaManager)
    : list (string * Z * bref * Z) * MambaManager :=
  (pending_partial_tail_offloads m, with_offloads [] m).
End Operations.

(** * The table of a step *)

Lemma reuse_speculative_Ok s l0 L f :
  (f <= l0 <= length L)%nat -> 0 <= s ->
  let t := Nat.max f (Nat.min l0 (Z.to_nat s)) in
  reuse_speculative s (py_range (Z.of_nat f) (Z.of_nat l0)) L =
    Ok (take f L ++ replicate (t - f) null_block ++ drop t L ++ take (t - f) (drop f L)).
Proof.
  intros Hf Hs. remember (l0 - f)%nat as d eqn:Hd. revert f L Hd Hf.
  induction d as [|d IH]; intros f L Hd Hf t.
  - assert (t = f) as -> by lia. rewrite py_range_nil by lia. simpl.
    rewrite Nat.sub_diag. simpl. by rewrite app_nil_r, take_drop.
  - rewrite py_range_cons by lia. simpl. destruct (Z.ltb_spec (Z.of_nat f) s) as [Hlt|Hge].
    2:{ assert (t = f) as -> by lia. rewrite Nat.sub_diag. simpl. by rewrite app_nil_r, take_drop. }
    destruct (lookup_lt_is_Some_2 L f ltac:(lia)) as [b Hb].
    rewrite (py_index_Ok L (Z.of_nat f) b) by (rewrite ?Nat2Z.id; (lia || done)).
    cbn [mbind result_bind]. unfold py_set. destruct (Z.ltb_spec (Z.of_nat f) 0); [lia|].
    rewrite length_app. destruct (Z.leb_spec (Z.of_nat (length L + length [b])) (Z.of_nat f)); [lia|].
    destruct (Z.ltb_spec (Z.of_nat f) 0); [lia|]. simpl. rewrite Nat2Z.id.
    set (L' := <[f:=null_block]> (L ++ [b])).
    replace (Z.of_nat f + 1) with (Z.of_nat (S f)) by lia.
    assert (length L' = S (length L)) as HL' by (unfold L'; rewrite length_insert, length_app; simpl; lia).
    rewrite (IH (S f) L') by lia.
    assert (Nat.max (S f) (Nat.min l0 (Z.to_nat s)) = t) as -> by lia.
    assert (S f <= t <= length L)%nat as Ht by lia.
    assert (take (S f) L' = take f L ++ [null_block]) as ->.
    { rewrite (take_S_r _ _ null_block) by (unfold L'; apply list_lookup_insert_eq; rewrite length_app; simpl; lia).
      unfold L'. rewrite take_insert_ge by lia. by rewrite take_app_le by lia. }
    assert (drop t L' = drop t L ++ [b]) as ->.
    { unfold L'. rewrite drop_insert_lt by lia. by rewrite drop_app_le by lia. }
    assert (take (t - S f) (drop (S f) L') = take (t - S f) (drop (S f) L)) as ->.
    { unfold L'. rewrite drop_insert_lt by lia. rewrite drop_app_le by lia.
      rewrite take_app_le; [done|]. rewrite length_drop. lia. }
    assert (take (t - f) (drop f L) = b :: take (t - S f) (drop (S f) L)) as ->.
    { rewrite (drop_S _ b) by done. replace (t - f)%nat with (S (t - S f)) by lia. done. }
    replace (t - f)%nat with (S (t - S f)) by lia. f_equal. rewrite <-!app_assoc. simpl. done.
Qed.

(** Moving blocks to the end of a table changes neither its references nor that
    its blocks are distinct. *)
Lemma move_refs i (L : list bref) f t :
  i <> 0%nat -> (f <= t <= length L)%nat ->
  refs_in i (take f L ++ replicate (t - f) null_block ++ drop t L ++ take (t - f) (drop f L)) =
  refs_in i L.
Proof.
  intros Hi Ht. rewrite !refs_in_app, refs_in_null by done.
  rewrite <-(take_drop f L) at 4. rewrite <-(take_drop (t - f) (drop f L)) at 2.
  rewrite drop_drop, !refs_in_app. replace (f + (t - f))%nat with t by lia. lia.
Qed.

Lemma move_distinct ids f t :
  (f <= t <= length ids)%nat -> distinct_blocks ids ->
  distinct_blocks (take f ids ++ replicate (t - f) 0%nat ++ drop t ids ++ take (t - f) (drop f ids)).
Proof.
  intros Ht Hd. unfold distinct_blocks in *.
  assert (filter (fun i => i <> 0%nat) (replicate (t - f) 0%nat) = []) as Hz.
  { apply list_filter_none. intros x [-> _]%elem_of_replicate. tauto. }
  rewrite !filter_app, Hz. simpl.
  rewrite <-(take_drop f ids) in Hd. rewrite <-(take_drop (t - f) (drop f ids)) in Hd.
  rewrite drop_drop, !filter_app in Hd. replace (f + (t - f))%nat with t in Hd by lia.
  by rewrite (Permutation_app_comm (filter _ (drop t ids))).
Qed.

Lemma block_list_move p L f t :
  (f <= t <= length L)%nat -> block_list p L ->
  block_list p (take f L ++ replicate (t - f) null_block ++ drop t L ++ take (t - f) (drop f L)).
Proof.
  intros Ht (ids & -> & Hb & Hd). rewrite length_fmap in Ht.
  exists (take f ids ++ replicate (t - f) 0%nat ++ drop t ids ++ take (t - f) (drop f ids)).
  rewrite !fmap_app, !fmap_take, !fmap_drop, fmap_replicate. split_and!; [done| |by apply move_distinct].
  rewrite !Forall_app. split_and!.
  - by apply Forall_take.
  - apply Forall_replicate. by right.
  - by apply Forall_drop.
  - by apply Forall_take, Forall_drop.
Qed.

(** The speculative blocks that a request carries over from its last step. *)
Definition carried (m : MambaManager) (rid : string) : Z :=
  if bool_decide (rid ∈ allocated_block_reqs m) then speculative_blocks m else 0.

Lemma align_table_Ok m p rid s :
  block_list p (blocks_of (base m) rid) -> 0 <= s ->
  0 <= carried m rid <= zlen (blocks_of (base m) rid) ->
  exists L', align_table m rid s = Ok L' /\ block_list p L' /\
    (forall i, i <> 0%nat -> refs_in i L' = refs_in i (blocks_of (base m) rid)) /\
    zlen L' = Z.max (zlen (blocks_of (base m) rid)) (s + carried m rid) /\
    forall k : nat, Z.of_nat k < zlen (blocks_of (base m) rid) - carried m rid ->
      L' !! k = blocks_of (base m) rid !! k.
Proof.
  intros Hl Hs Hcar. unfold align_table. set (blocks := blocks_of (base m) rid) in *.
  set (L := if zlen blocks <? s then _ else _).
  assert (L = blocks ++ replicate (Z.to_nat (s - zlen blocks)) null_block) as HL.
  { unfold L. destruct (Z.ltb_spec (zlen blocks) s); [done|].
    replace (Z.to_nat (s - zlen blocks)) with 0%nat by lia. by rewrite app_nil_r. }
  clearbody L. subst L. set (L := blocks ++ _).
  assert (block_list p L) as HLl.
  { apply block_list_app; [done|apply block_list_null|]. intros i Hi _ [Heq _]%elem_of_replicate.
    unfold null_block in Heq. congruence. }
  assert (forall i, i <> 0%nat -> refs_in i L = refs_in i blocks) as HLr.
  { intros i Hi. unfold L. rewrite refs_in_app, refs_in_null by done. lia. }
  assert (zlen L = Z.max (zlen blocks) s) as HLlen.
  { unfold L. rewrite length_app, length_replicate. lia. }
  unfold carried in *. case_bool_decide as Hal.
  - set (f := Z.to_nat (zlen blocks - speculative_blocks m)).
    replace (zlen blocks - speculative_blocks m) with (Z.of_nat f) by (unfold f; lia).
    set (t := Nat.max f (Nat.min (length blocks) (Z.to_nat s))).
    assert (f <= length blocks)%nat as Hf by (unfold f; lia).
    assert (length blocks <= length L)%nat by lia.
    rewrite (reuse_speculative_Ok s (length blocks) L f) by lia. fold t.
    eexists. split; [reflexivity|]. split_and!.
    + apply block_list_move; [lia|done].
    + intros i Hi. rewrite move_refs by lia. by apply HLr.
    + rewrite !length_app, length_take, length_replicate, length_drop, length_take, length_drop.
      unfold f in *. lia.
    + intros k Hk. rewrite lookup_app_l by (rewrite length_take; lia).
      rewrite lookup_take_lt by lia. unfold L. by rewrite lookup_app_l by lia.
  - exists L. split_and!; try done; [lia|]. intros k Hk. unfold L. by rewrite lookup_app_l by lia.
Qed.

(** ** An allocation in "align" mode *)

(** The blocks that [align_allocate_new_blocks] takes from the pool, at most. *)
Definition align_short (m : MambaManager) (rid : string) (num_tokens_main_model : Z) : Z :=
  let running := cdiv num_tokens_main_model (mgr_block_size (base m)) in
  Z.max 0 (running + speculative_blocks m -
    Z.max (zlen (blocks_of (base m) rid)) (running - 1 + carried m rid)) +
  Z.of_nat (cow_count (base m) rid).

(** What an allocation needs of the request's table: it has the speculative
    blocks of its last step at its end, and a pending partial hit lies before
    them and came from a lookup in the cache. *)
Definition align_ready (m : MambaManager) (rid : string) : Prop :=
  0 < mgr_block_size (base m) /\ 0 <= speculative_blocks m /\
  (rid ∈ allocated_block_reqs m -> speculative_blocks m < zlen (blocks_of (base m) rid)) /\
  (forall idx b, partial_hit_reqs (base m) !! rid = Some (idx, b) ->
    idx < zlen (blocks_of (base m) rid) - carried m rid /\ mgr_enable_caching (base m) = true).

Section Align.
Context `{PoolEnv}.
Context (p : BlockPool) (xs : list nat) (others : nat -> Z) (rid : string).
Context (Hinv : pool_inv p xs).

(** The table is rewritten, no reference moves. *)
Lemma owns_retable m L' :
  owns m p others -> block_list p L' ->
  (forall i, i <> 0%nat -> refs_in i L' = refs_in i (blocks_of m rid)) ->
  (forall idx b, partial_hit_reqs m !! rid = Some (idx, b) ->
    L' !! Z.to_nat idx = blocks_of m rid !! Z.to_nat idx) ->
  owns (set_table rid L' m) p others.
Proof.
  intros Ho Hl Hr Hp. eapply (owns_change m p others _ p rid L'); try done.
  - intros i [Hi _]. rewrite Hr by lia. simpl. lia.
  - intros idx b Hlk. destruct (ow_partial _ _ _ Ho _ _ _ Hlk) as (l & j & Hl' & -> & Hv & Hidx & Hlook).
    exists j. split_and!; [done..|]. rewrite (Hp _ _ Hlk). unfold blocks_of. by rewrite Hl'.
Qed.

(** Fresh blocks at the end of the table. *)
Lemma owns_append m n :
  owns m p others -> 0 <= n <= zlen xs -> partial_hit_reqs m !! rid = None ->
  let new := Blk <$> take (Z.to_nat n) xs in
  exists p', get_new_blocks n p = Ok (new, p') /\ pool_inv p' (drop (Z.to_nat n) xs) /\
    same_config p p' /\ owns (set_table rid (blocks_of m rid ++ new) m) p' others.
Proof.
  intros Ho Hn Hp new.
  destruct (fresh_blocks m p xs others n Hinv Ho Hn) as (p' & Hg & Hi & (Hc & Hr & _) & Hnew & Hd & Hfree).
  exists p'. split_and!; [done|done|done|].
  eapply (owns_change m p others _ p' rid); [done|done|done| | |done|].
  - apply block_list_app; [by eapply owns_blocks_of|done|].
    intros i _ Hin (j & [= ->] & Hj)%list_elem_of_fmap. by destruct (Hfree j Hj) as [Hno _]; destruct (Hno rid).
  - intros i [Hi0 Hv]. rewrite Hr, refs_in_app. unfold new. rewrite refs_in_distinct by (done || lia).
    destruct (decide (i ∈ take (Z.to_nat n) xs)) as [Hin|]; simpl; [|lia].
    destruct (Hfree i Hin) as (_ & _ & ->). lia.
  - simpl. rewrite Hp. done.
Qed.

(** A pending partial hit: its source block is in the table, so in use and not
    among the fresh blocks. *)
Lemma partial_source m idx source :
  owns m p others -> partial_hit_reqs m !! rid = Some (idx, source) ->
  exists j, source = Blk j /\ valid_block p j /\ 0 <= idx /\
    blocks_of m rid !! Z.to_nat idx = Some source /\ 1 <= ref_cnt (pheap p (Blk j)) /\ j ∉ xs.
Proof.
  intros Ho Hp. destruct (ow_partial _ _ _ Ho _ _ _ Hp) as (l & j & Hl & -> & Hv & Hidx & Hlook).
  assert (blocks_of m rid = l) as Hbl by (unfold blocks_of; by rewrite Hl).
  destruct (owns_in_use m p xs others rid j Hinv Ho Hv) as [? ?].
  { rewrite Hbl. by eapply list_elem_of_lookup_2. }
  exists j. split_and!; try done. by rewrite Hbl.
Qed.

(** The final state of an allocation with a partial hit: [q] differs from the
    pool after [get_new_blocks] in the reference counts of the copy's ends. *)
Lemma owns_copied m c rest source idx l' p1 q :
  owns m p others -> partial_hit_reqs m !! rid = Some (idx, source) ->
  take (S (length rest)) xs = c :: rest ->
  alloc_effect p p1 (c :: rest) -> same_config p1 q ->
  block_list p (l' ++ (Blk <$> rest)) ->
  (forall i, valid_block p i -> ref_cnt (pheap q (Blk i)) - ref_cnt (pheap p1 (Blk i)) =
    refs_in i l' - refs_in i (blocks_of m rid) + refs_in i [source]) ->
  let m' := set_cow (pending_cow_copies m ++ [(source, Blk c)])
    (set_table rid (l' ++ (Blk <$> rest)) (set_partial (delete rid (partial_hit_reqs m)) m)) in
  owns m' q others.
Proof.
  intros Ho Hp Htake (Hc & Hr & _) Hc' Hl Hdiff m'.
  assert (forall i, i ∈ c :: rest -> valid_block p i /\ ref_cnt (pheap p (Blk i)) = 0) as Hfree.
  { intros i Hin. rewrite <-Htake in Hin. apply elem_of_take in Hin as (k & Hin%list_elem_of_lookup_2 & _).
    destruct (owns_free m p xs others rid i Hinv Ho Hin) as (_ & ? & ? & ?).
    split; [done|]. rewrite (ow_refs _ _ _ Ho) by done. lia. }
  assert (NoDup (c :: rest)) as Hnd.
  { rewrite <-Htake. pose proof (pi_nodup _ _ _ Hinv) as Hnd. rewrite app_nil_r in Hnd.
    eapply sublist_NoDup; [done|apply sublist_take]. }
  assert (distinct_blocks rest) as Hd by (apply NoDup_cons in Hnd as [_ ?]; by apply NoDup_filter).
  apply NoDup_cons in Hnd as [Hcr _].
  eapply (owns_change m p others _ q rid); [done|by etrans|done|done| | |].
  - intros i Hv. specialize (Hdiff i Hv). pose proof (Hr i) as Hri. destruct Hv as [Hi0 _].
    simpl. unfold cow_refs. rewrite !fmap_app, !refs_in_app. simpl.
    rewrite refs_in_distinct by (done || lia).
    destruct (decide (i ∈ c :: rest)) as [Hin|Hin].
    + destruct (Hfree i Hin) as [_ Hz]. rewrite Hz. apply elem_of_cons in Hin as [->|Hin].
      * rewrite (decide_False (P := c ∈ rest)) by done.
        rewrite (refs_in_cons c (Blk c)), decide_True by done. change (refs_in c []) with 0. lia.
      * rewrite (decide_True (P := i ∈ rest)) by done.
        assert (i <> c) by (by intros ->).
        rewrite (refs_in_absent i [Blk c]) by (rewrite list_elem_of_singleton; congruence). lia.
    + apply not_elem_of_cons in Hin as [Hne Hin].
      rewrite (decide_False (P := i ∈ rest)) by done.
      rewrite (refs_in_absent i [Blk c]) by (rewrite list_elem_of_singleton; congruence). lia.
  - intros rid' Hne. simpl. by rewrite lookup_delete_ne.
  - intros idx' b Hlk. simpl in Hlk. by rewrite lookup_delete_eq in Hlk.
Qed.
End Align.

(** [owns] reads the tables, the pending partial hits and the queued copies only. *)
Lemma owns_ext m m' p others :
  req_to_blocks m' = req_to_blocks m -> partial_hit_reqs m' = partial_hit_reqs m ->
  pending_cow_copies m' = pending_cow_copies m -> owns m p others -> owns m' p others.
Proof.
  intros H1 H2 H3 [Ht Hr Hn Hp]. split; rewrite ?H1, ?H2; try done.
  intros i Hv. rewrite Hr by done. unfold manager_refs. by rewrite H1, H3.
Qed.

Section Redirect.
Context `{PoolEnv}.
Context (p : BlockPool) (xs : list nat) (others : nat -> Z) (rid : string).
Context (Hinv : pool_inv p xs).

(** One block for the copy and [n] more. *)
Lemma copy_blocks m n idx source :
  owns m p others -> 0 <= n -> 1 + n <= zlen xs -> partial_hit_reqs m !! rid = Some (idx, source) ->
  exists j c rest p1, source = Blk j /\ get_new_blocks (1 + n) p = Ok (Blk <$> c :: rest, p1) /\
    pool_inv p1 (drop (Z.to_nat (1 + n)) xs) /\ alloc_effect p p1 (c :: rest) /\
    zlen rest = n /\ take (S (length rest)) xs = c :: rest /\ block_list p (Blk <$> rest) /\ c ∉ rest /\
    valid_block p j /\ valid_block p c /\ j <> c /\ c ∉ drop (Z.to_nat (1 + n)) xs /\
    j ∉ drop (Z.to_nat (1 + n)) xs /\
    0 <= idx /\ blocks_of m rid !! Z.to_nat idx = Some source /\
    1 <= ref_cnt (pheap p1 (Blk j)) /\ ref_cnt (pheap p1 (Blk c)) = 1 /\
    (forall i, i ∈ c :: rest -> Blk i ∉ blocks_of m rid).
Proof.
  intros Ho Hn0 Hn Hp.
  destruct (partial_source p xs others rid Hinv m idx source Ho Hp) as (j & -> & Hv & Hidx & Hlook & Hj & Hjx).
  destruct (fresh_blocks m p xs others (1 + n) Hinv Ho ltac:(lia))
    as (p1 & Hg & Hi1 & Heff & Hnew & Hd & Hfree).
  destruct (take (Z.to_nat (1 + n)) xs) as [|c rest] eqn:Etake.
  { apply (f_equal length) in Etake. rewrite length_take in Etake. simpl in Etake. lia. }
  assert (zlen rest = n) as Hrl.
  { apply (f_equal length) in Etake. rewrite length_take in Etake. simpl in Etake. lia. }
  pose proof Heff as (Hc1 & Hr1 & _).
  assert (j ∉ c :: rest) as Hjc.
  { intros Hin. destruct (Hfree j Hin) as [Hno _]. apply (Hno rid). by eapply list_elem_of_lookup_2. }
  assert (NoDup xs) as Hnd by (pose proof (pi_nodup _ _ _ Hinv) as Hnd; by rewrite app_nil_r in Hnd).
  assert (forall i, i ∈ drop (Z.to_nat (1 + n)) xs -> i ∈ xs /\ i ∉ c :: rest) as Hdrop.
  { intros i Hi. rewrite <-(take_drop (Z.to_nat (1 + n)) xs), Etake in Hnd |- *.
    apply NoDup_app in Hnd as (_ & Hnd & _). split; [apply elem_of_app; by right|].
    intros Hin. by apply (Hnd i). }
  destruct (Hfree c ltac:(by left)) as (_ & Hvc & _).
  assert (NoDup (c :: rest)) as Hndr.
  { rewrite <-Etake. eapply sublist_NoDup; [done|apply sublist_take]. }
  apply NoDup_cons in Hndr as [Hcr Hndr].
  exists j, c, rest, p1. split_and!; try done.
  - replace (S (length rest)) with (Z.to_nat (1 + n)) by lia. done.
  - exists rest. split_and!; [done| |by apply NoDup_filter]. apply Forall_forall. intros i Hi. left.
    apply Hfree. by right.
  - intros ->. apply Hjc. by left.
  - intros [_ Hin]%Hdrop. apply Hin. by left.
  - by intros [? _]%Hdrop.
  - rewrite Hr1, decide_False by done. done.
  - rewrite Hr1, decide_True by (by left). done.
  - intros i Hin. by apply Hfree.
Qed.

(** A new request: the table entry is redirected to the copy. *)
Lemma owns_redirect m n idx source :
  owns m p others -> 0 <= n -> 1 + n <= zlen xs -> partial_hit_reqs m !! rid = Some (idx, source) ->
  exists c rest p1 p2 b, get_new_blocks (1 + n) p = Ok (Blk <$> c :: rest, p1) /\
    zlen rest = n /\ apply_cow rid idx source (Blk c) m p1 = Ok (b, p2) /\
    pool_inv p2 (drop (Z.to_nat (1 + n)) xs) /\ same_config p p2 /\
    zlen (blocks_of b rid) = zlen (blocks_of m rid) /\ same_manager m b /\
    (forall rid', rid' <> rid -> blocks_of b rid' = blocks_of m rid') /\
    let b2 := set_table rid (blocks_of b rid ++ (Blk <$> rest)) b in
    owns (set_partial (delete rid (partial_hit_reqs b2)) b2) p2 others.
Proof.
  intros Ho Hn0 Hn Hp.
  destruct (copy_blocks m n idx source Ho Hn0 Hn Hp) as (j & c & rest & p1 & -> & Hg & Hi1 & Heff & Hrl
    & Htake & Hnew & Hcr & Hv & Hvc & Hjc & Hcx & _ & Hidx & Hlook & Hj & Hcref & Hfree).
  pose proof Heff as (Hc1 & Hr1 & _).
  set (p2 := with_heap (heap_upd (pheap p1) (Blk c) (with_ref_cnt (1 + 1))) p1).
  exists c, rest, p1, p2. eexists. split; [exact Hg|]. split; [exact Hrl|].
  rewrite apply_cow_eval; [|done|done| |lia].
  2:{ rewrite (pi_null _ _ _ Hi1). apply bool_decide_eq_false_2. destruct Hv; lia. }
  rewrite Hcref. split; [reflexivity|]. set (b := set_cow _ _).
  assert (blocks_of b rid = <[Z.to_nat idx := Blk c]> (blocks_of m rid)) as Hb.
  { unfold b, blocks_of. simpl. by rewrite lookup_insert_eq. }
  split_and!.
  - apply (pool_inv_set_ref p1 _ c [] []); [done| |right; lia]. right. by rewrite app_nil_r.
  - done.
  - by rewrite Hb, length_insert.
  - done.
  - intros rid' Hne. unfold b, blocks_of. simpl. by rewrite !lookup_insert_ne.
  - rewrite Hb. set (l' := <[Z.to_nat idx := Blk c]> (blocks_of m rid)).
    eapply owns_ext; [| | |apply (owns_copied p xs others rid Hinv m c rest (Blk j) idx l' p1 p2)]; try done.
    + simpl. by rewrite !insert_insert_eq.
    + apply block_list_app; [apply block_list_insert; [by eapply owns_blocks_of|by left|apply Hfree; by left]
        |done|].
      intros i Hi Hin (i' & [= <-] & Hi')%list_elem_of_fmap.
      apply list_elem_of_lookup in Hin as [k Hk]. unfold l' in Hk.
      apply list_lookup_insert_Some in Hk as [(_ & [= ->] & _)|[_ Hk]]; [done|].
      apply (Hfree i); [by right|]. by eapply list_elem_of_lookup_2.
    + intros i Hvi. unfold p2. rewrite ref_cnt_set_ref. unfold l'.
      rewrite (refs_in_insert i _ (Blk j)) by done. rewrite !refs_in_cons. change (refs_in i []) with 0.
      destruct (decide (i = c)) as [->|Hne].
      * rewrite (decide_False (P := Blk j = Blk c)), (decide_True (P := Blk c = Blk c)) by congruence. lia.
      * rewrite (decide_False (P := Blk c = Blk i)) by congruence.
        destruct (decide (Blk j = Blk i)); lia.
Qed.

(** A running request: the keys move to the copy, the table stays. *)
Lemma owns_moved m n idx source :
  owns (base m) p others -> 0 <= n -> 1 + n <= zlen xs ->
  partial_hit_reqs (base m) !! rid = Some (idx, source) -> enable_caching p = true ->
  exists c rest p1 p2 m', get_new_blocks (1 + n) p = Ok (Blk <$> c :: rest, p1) /\
    zlen rest = n /\ move_cow rid idx source (Blk c) m p1 = Ok (m', p2) /\
    pool_inv p2 (drop (Z.to_nat (1 + n)) xs) /\ same_config p p2 /\
    base m' = set_cow (pending_cow_copies (base m) ++ [(source, Blk c)]) (base m) /\
    allocated_block_reqs m' = allocated_block_reqs m /\
    last_state_block_idx m' = last_state_block_idx m /\
    let b2 := set_table rid (blocks_of (base m') rid ++ (Blk <$> rest)) (base m') in
    owns (set_partial (delete rid (partial_hit_reqs b2)) b2) p2 others.
Proof.
  intros Ho Hn0 Hn Hp Hcaching.
  destruct (copy_blocks (base m) n idx source Ho Hn0 Hn Hp) as (j & c & rest & p1 & -> & Hg & Hi1 & Heff
    & Hrl & Htake & Hnew & Hcr & Hv & Hvc & Hjc & Hcx & Hjx & Hidx & Hlook & Hj & Hcref & Hfree).
  pose proof Heff as (Hc1 & Hr1 & Hk1).
  destruct (move_block_hashes_Ok p1 _ j c Hi1) as (q & Hmove & Hiq & Hf & _).
  { by apply (valid_block_config p p1). }
  { done. }
  { rewrite Hk1, decide_True; [done|]. split; [done|by left]. }
  pose proof (hash_frame_config _ _ Hf) as Hcq.
  exists c, rest, p1. eexists _, _. split; [exact Hg|]. split; [exact Hrl|].
  unfold move_cow. rewrite (py_index_Ok _ idx (Blk j)) by done. cbn [mbind result_bind].
  rewrite bool_decide_eq_true_2 by done. cbn [assert_ mbind result_bind]. rewrite Hmove.
  cbn [mbind result_bind]. split; [reflexivity|].
  match goal with |- context [note_cached ?h ?x] => set (m2 := x); set (m3 := note_cached h m2) end.
  assert (base m3 = set_cow (pending_cow_copies (base m) ++ [(Blk j, Blk c)]) (base m)) as Hb3.
  { unfold m3, note_cached. by destruct (block_hash _); unfold m2; simpl;
      destruct (producer_partial_tail_reqs m !! rid). }
  assert (allocated_block_reqs m3 = allocated_block_reqs m /\
    last_state_block_idx m3 = last_state_block_idx m) as [Ha3 Hl3].
  { unfold m3, note_cached. by destruct (block_hash _); unfold m2; simpl;
      destruct (producer_partial_tail_reqs m !! rid). }
  split_and!; [|by etrans|done|done|done|].
  - apply (pool_inv_set_ref q _ j [] []); [done| |right; rewrite (hf_ref _ _ Hf); lia].
    right. by rewrite app_nil_r.
  - rewrite Hb3. change (blocks_of (set_cow _ (base m)) rid) with (blocks_of (base m) rid).
    set (q2 := with_heap _ q).
    eapply owns_ext; [| | |apply (owns_copied p xs others rid Hinv (base m) c rest (Blk j) idx
      (blocks_of (base m) rid) p1 q2)]; try done.
    + apply block_list_app; [by eapply owns_blocks_of|done|].
      intros i Hi Hin (i' & [= <-] & Hi')%list_elem_of_fmap. apply (Hfree i); [by right|done].
    + intros i Hvi. unfold q2. rewrite ref_cnt_set_ref, !(hf_ref _ _ Hf), refs_in_cons.
      change (refs_in i []) with 0. destruct (decide (i = j)) as [->|Hne].
      * rewrite decide_True by done. lia.
      * rewrite decide_False by congruence. lia.
Qed.
End Redirect.

(** What every allocation of a Mamba group establishes. *)
Record allocated_from (m m' : MambaManager) (p p' : BlockPool) (xs xs' : list nat) (others : nat -> Z)
    (rid : string) (k : Z) : Prop := {
  af_inv : pool_inv p' xs';
  af_config : same_config p p';
  af_owns : owns (base m') p' others;
  af_same : same_manager (base m) (base m');
  af_taken : zlen xs - zlen xs' <= k;
  af_other rid' : rid' <> rid -> blocks_of (base m') rid' = blocks_of (base m) rid';
  af_known rid' : rid' ∈ allocated_block_reqs m' -> rid' = rid \/ rid' ∈ allocated_block_reqs m;
  af_grow : zlen (blocks_of (base m) rid) <= zlen (blocks_of (base m') rid);
  af_last rid' i : last_state_block_idx m' !! rid' = Some i ->
    last_state_block_idx m !! rid' = Some i \/
    rid' = rid /\ 0 <= i < zlen (blocks_of (base m) rid)
}.

Lemma finish_base rid new m :
  base (finish_allocation rid new m) =
    let b := set_table rid (blocks_of (base m) rid ++ new) (base m) in
    set_partial (delete rid (partial_hit_reqs b)) b.
Proof. done. Qed.

Lemma finish_tables rid new m rid' :
  blocks_of (base (finish_allocation rid new m)) rid' =
    if decide (rid' = rid) then blocks_of (base m) rid ++ new else blocks_of (base m) rid'.
Proof.
  rewrite finish_base. unfold blocks_of. simpl.
  destruct (decide (rid' = rid)) as [->|]; [by rewrite lookup_insert_eq|by rewrite lookup_insert_ne].
Qed.

Lemma record_last_state_keeps rid m :
  base (record_last_state rid m) = base m /\
  allocated_block_reqs (record_last_state rid m) = allocated_block_reqs m.
Proof. unfold record_last_state. destruct (bool_decide _); [done|]. by destruct (_ <? _). Qed.

Section Allocate.
Context `{PoolEnv}.

Lemma complete_allocation_Ok m p xs others rid n returned :
  pool_inv p xs -> owns (base m) p others ->
  (is_Some (partial_hit_reqs (base m) !! rid) -> enable_caching p = true) ->
  0 <= n -> n + Z.of_nat (cow_count (base m) rid) <= zlen xs ->
  exists new m' p' xs',
    complete_allocation rid (n + Z.of_nat (cow_count (base m) rid)) returned m p = Ok (new, m', p') /\
    allocated_from m m' p p' xs xs' others rid (n + Z.of_nat (cow_count (base m) rid)) /\
    zlen (blocks_of (base m') rid) = zlen (blocks_of (base m) rid) + n /\
    last_state_block_idx m' = last_state_block_idx m.
Proof.
  intros Hinv Ho Hcaching Hn Hxs. unfold complete_allocation, cow_count in *.
  destruct (partial_hit_reqs (base m) !! rid) as [[idx source]|] eqn:Ep.
  - change (Z.of_nat 1) with 1 in *. rewrite (Z.add_comm n 1) in *.
    destruct (bool_decide (rid ∈ allocated_block_reqs m)) eqn:Eal.
    + destruct (owns_moved p xs others rid Hinv m n idx source Ho Hn Hxs Ep (Hcaching ltac:(eauto)))
        as (c & rest & p1 & p2 & m' & Hg & Hrl & Hmv & Hi & Hc & Hb & Hal & Hla & Hown).
      rewrite Hg. cbn [mbind result_bind]. change (py_index (Blk <$> c :: rest) 0) with (Ok (Blk c)).
      cbn [mbind result_bind]. rewrite py_from_nonneg by lia. change (drop (Z.to_nat 1) (Blk <$> c :: rest))
        with (Blk <$> rest). rewrite Hmv. cbn [mbind result_bind].
      eexists _, _, p2, _. split; [reflexivity|].
      assert (forall rid', blocks_of (base m') rid' = blocks_of (base m) rid') as Htab by (by rewrite Hb).
      split; [split|split; [|done]].
      * exact Hi.
      * done.
      * exact Hown.
      * rewrite finish_base, Hb. done.
      * rewrite length_drop. lia.
      * intros rid' Hne. by rewrite finish_tables, decide_False, Htab by done.
      * intros rid' Hin. unfold finish_allocation in Hin. simpl in Hin. rewrite Hal in Hin. set_solver.
      * rewrite finish_tables, decide_True, Htab, length_app by done. lia.
      * unfold finish_allocation. simpl. rewrite Hla. by left.
      * rewrite finish_tables, decide_True, Htab, length_app, length_fmap by done. lia.
    + destruct (owns_redirect p xs others rid Hinv (base m) n idx source Ho Hn Hxs Ep)
        as (c & rest & p1 & p2 & b & Hg & Hrl & Hcow & Hi & Hc & Hlen & Hs & Hoth & Hown).
      rewrite Hg. cbn [mbind result_bind]. change (py_index (Blk <$> c :: rest) 0) with (Ok (Blk c)).
      cbn [mbind result_bind]. rewrite py_from_nonneg by lia. change (drop (Z.to_nat 1) (Blk <$> c :: rest))
        with (Blk <$> rest). rewrite Hcow. cbn [mbind result_bind].
      eexists _, _, p2, _. split; [reflexivity|]. split; [split|split; [|done]].
      * exact Hi.
      * done.
      * exact Hown.
      * by rewrite finish_base.
      * rewrite length_drop. lia.
      * intros rid' Hne. rewrite finish_tables, decide_False by done. by apply Hoth.
      * intros rid' Hin. unfold finish_allocation in Hin. simpl in Hin. set_solver.
      * rewrite finish_tables, decide_True, length_app by done. simpl. lia.
      * by left.
      * rewrite finish_tables, decide_True, length_app, length_fmap by done. simpl. lia.
  - change (Z.of_nat 0) with 0 in *. rewrite Z.add_0_r in *.
    destruct (owns_append p xs others rid Hinv (base m) n Ho ltac:(lia) Ep) as (p' & Hg & Hi & Hc & Hown).
    rewrite Hg. cbn [mbind result_bind]. eexists _, _, p', _. split; [reflexivity|].
    assert (zlen (Blk <$> take (Z.to_nat n) xs) = n) as Hlen by (rewrite length_fmap, length_take; lia).
    split; [split|split; [|done]].
    + exact Hi.
    + done.
    + rewrite finish_base. eapply owns_ext; [..|exact Hown]; try done. simpl. by rewrite delete_id.
    + by rewrite finish_base.
    + rewrite length_drop. lia.
    + intros rid' Hne. by rewrite finish_tables, decide_False by done.
    + intros rid' Hin. unfold finish_allocation in Hin. simpl in Hin. set_solver.
    + rewrite finish_tables, decide_True, length_app by done. lia.
    + by left.
    + rewrite finish_tables, decide_True, length_app by done. lia.
Qed.

(** An allocation in "align" mode never fails if the pool has the blocks that the
    table is short of, and gives the request its running state and all its
    speculative blocks. *)
Lemma align_allocate_Ok m p xs others rid main :
  pool_inv p xs -> owns (base m) p others -> align_ready m rid -> 0 < main ->
  (mgr_enable_caching (base m) = true -> enable_caching p = true) ->
  align_short m rid main <= zlen xs ->
  exists new m' p' xs', align_allocate_new_blocks rid main m p = Ok (new, m', p') /\
    allocated_from m m' p p' xs xs' others rid (align_short m rid main) /\
    cdiv main (mgr_block_size (base m)) + speculative_blocks m <= zlen (blocks_of (base m') rid).
Proof.
  intros Hinv Ho (Hbs & Hspec & Hcar & Hpart) Hmain Hcaching Hxs.
  unfold align_allocate_new_blocks. set (m0 := with_base (ensure rid (base m)) m).
  assert (forall rid', blocks_of (base m0) rid' = blocks_of (base m) rid') as Htab
    by (intros rid'; apply blocks_of_ensure).
  assert (owns (base m0) p others) as Ho0 by (by apply owns_ensure).
  change (speculative_blocks m0) with (speculative_blocks m).
  change (mgr_block_size (base m0)) with (mgr_block_size (base m)).
  change (partial_hit_reqs (base m0)) with (partial_hit_reqs (base m)).
  change (allocated_block_reqs m0) with (allocated_block_reqs m). rewrite Htab.
  unfold align_short in *. set (running := cdiv main (mgr_block_size (base m))) in *.
  assert (1 <= running) as Hrun.
  { pose proof (cdiv_pos main _ Hbs Hmain). unfold running. lia. }
  assert (0 <= carried m rid <= speculative_blocks m) as Hcar0.
  { unfold carried. case_bool_decide; lia. }
  assert (carried m rid <= zlen (blocks_of (base m) rid)) as Hcarp.
  { unfold carried. case_bool_decide; [specialize (Hcar ltac:(done))|]; lia. }
  set (prev := zlen (blocks_of (base m) rid)) in *.
  set (partial := bool_decide (is_Some (partial_hit_reqs (base m) !! rid))).
  assert (Z.of_nat (cow_count (base m) rid) = Z.b2z partial) as Hcow.
  { unfold cow_count, partial. by destruct (partial_hit_reqs (base m) !! rid). }
  rewrite Hcow in *.
  destruct ((running + speculative_blocks m <=? prev) && negb partial) eqn:Eearly.
  { bools. exists [], m0, p, xs. split; [done|]. split; [split|]; try done; try lia.
    - by right.
    - by rewrite Htab.
    - by left.
    - rewrite Htab. fold prev. lia. }
  destruct (align_table_Ok m0 p rid (running - 1)) as (L' & HL & Hl & Hrefs & Hlen & Hlook).
  { rewrite Htab. by eapply owns_blocks_of. }
  { lia. }
  { rewrite Htab. change (carried m0 rid) with (carried m rid). lia. }
  change (carried m0 rid) with (carried m rid) in *. rewrite Htab in Hrefs, Hlen, Hlook. fold prev in Hlen, Hlook.
  replace (running + speculative_blocks m - speculative_blocks m - 1) with (running - 1) by lia.
  rewrite HL. cbn [mbind result_bind]. rewrite Hlen.
  destruct (record_last_state_keeps rid m0) as [Hrb Hra]. set (m1 := record_last_state rid m0) in *.
  set (n := Z.max 0 (running + speculative_blocks m - Z.max prev (running - 1 + carried m rid))) in *.
  assert ((if partial then Z.max (running + speculative_blocks m - Z.max prev (running - 1 + carried m rid)) 0 + 1
    else running + speculative_blocks m - Z.max prev (running - 1 + carried m rid)) = n + Z.b2z partial) as ->.
  { unfold n. destruct partial; simpl in *; [lia|]. rewrite andb_true_r in Eearly. bools.
    apply Z.leb_gt in Eearly. lia. }
  assert (n <= speculative_blocks m - carried m rid + 1) as Hn by lia.
  rewrite assert_true.
  2:{ unfold carried in Hn. change (speculative_blocks m1) with (speculative_blocks m1).
      assert (speculative_blocks m1 = speculative_blocks m) as -> by (unfold speculative_blocks; by rewrite Hrb).
      case_bool_decide; apply Z.leb_le; lia. }
  cbn [mbind result_bind]. set (m2 := with_base (set_table rid L' (base m1)) m1).
  assert (owns (base m2) p others) as Ho2.
  { change (owns (set_table rid L' (base m1)) p others). rewrite Hrb.
    apply (owns_retable p others rid (base m0)); [done|done|by rewrite Htab|].
    intros idx b Hp. destruct (Hpart idx b Hp) as [Hidx _].
    destruct (partial_source p xs others rid Hinv (base m) idx b Ho Hp) as (_ & _ & _ & Hidx0 & _).
    rewrite Htab. apply Hlook. lia. }
  assert (partial_hit_reqs (base m2) = partial_hit_reqs (base m)) as Hp2 by (unfold m2; simpl; by rewrite Hrb).
  assert (cow_count (base m2) rid = cow_count (base m) rid) as Hcow2 by (unfold cow_count; by rewrite Hp2).
  rewrite <-Hcow, <-Hcow2.
  destruct (complete_allocation_Ok m2 p xs others rid n (py_from L' prev) Hinv Ho2)
    as (new & m' & p' & xs' & Hok & Haf & Hlen' & Hlast).
  { rewrite Hp2. intros [[idx b] Hp]. apply Hcaching. by destruct (Hpart idx b Hp). }
  { lia. }
  { rewrite Hcow2, Hcow. lia. }
  assert (blocks_of (base m2) rid = L') as Hb2 by (unfold blocks_of; simpl; by rewrite lookup_insert_eq).
  rewrite Hb2, Hlen in Hlen'.
  exists new, m', p', xs'. split; [exact Hok|]. split; [|lia].
  destruct Haf as [Hi Hc Hown Hs Htk Hoth Hkn _ Hla]. split; try done.
  - etrans; [|exact Hs]. unfold m2. simpl. by rewrite Hrb.
  - intros rid' Hne. rewrite Hoth by done. unfold m2, blocks_of. simpl. rewrite lookup_insert_ne, Hrb by done.
    apply Htab.
  - intros rid' Hin. destruct (Hkn rid' Hin) as [?|Hin']; [by left|right].
    unfold m2 in Hin'. simpl in Hin'. by rewrite Hra in Hin'.
  - fold prev. lia.
  - intros rid' i Hlk. fold prev. rewrite Hlast in Hlk.
    unfold m2, m1, record_last_state in Hlk. rewrite Htab in Hlk. fold prev in Hlk.
    revert Hlk. case_bool_decide as Hal; [|destruct (Z.ltb_spec 0 prev)]; simpl; [| |by left];
      rewrite lookup_insert_Some; intros [[<- <-]|[_ ?]]; try (by left); right; (split; [done|]).
    + specialize (Hcar Hal). change (speculative_blocks m0) with (speculative_blocks m). lia.
    + lia.
Qed.
End Allocate.

(** * Removing, freeing and caching *)

(** The recorded state block lies in the table, and no pending partial hit lies in
    what is removed. *)
Definition mamba_removable (m : MambaManager) (rid : string) (processed : Z) : Prop :=
  (forall idx b, partial_hit_reqs (base m) !! rid = Some (idx, b) ->
    Z.min (skipped_tokens (base m) processed / mgr_block_size (base m))
      (zlen (blocks_of (base m) rid)) <= idx /\
    forall i, last_state_block_idx m !! rid = Some i -> i <> idx) /\
  forall i, last_state_block_idx m !! rid = Some i -> 0 <= i < zlen (blocks_of (base m) rid).

(** Nothing but tables changed, and those kept their lengths. *)
Definition same_lengths (m m' : MambaManager) : Prop :=
  same_manager (base m) (base m') /\
  (forall rid, zlen (blocks_of (base m') rid) = zlen (blocks_of (base m) rid)) /\
  partial_hit_reqs (base m') = partial_hit_reqs (base m) /\
  num_cached_block (base m') = num_cached_block (base m) /\
  allocated_block_reqs m' = allocated_block_reqs m /\
  last_state_block_idx m' = last_state_block_idx m.

Section Remove.
Context `{PoolEnv}.

Lemma block_list_null_insert p l k : block_list p l -> block_list p (<[k := null_block]> l).
Proof.
  intros (ids & -> & Hb & Hd). exists (<[k := 0%nat]> ids).
  rewrite list_fmap_insert. split_and!; [done|apply Forall_insert; [done|by right]|].
  destruct (decide (k < length ids)%nat) as [Hk|Hk]; [|by rewrite list_insert_ge by lia].
  destruct (lookup_lt_is_Some_2 ids k Hk) as [x Hx]. rewrite insert_take_drop by done.
  rewrite <-(take_drop_middle ids k x Hx) in Hd. by apply (distinct_middle (take k ids) [x] _ 1).
Qed.

(** Freeing one entry of a table. *)
Lemma free_entry_Ok m p xs others rid i b :
  pool_inv p xs -> owns m p others -> 0 <= i -> blocks_of m rid !! Z.to_nat i = Some b ->
  b <> null_block -> (forall idx b', partial_hit_reqs m !! rid = Some (idx, b') -> idx <> i) ->
  exists p' xs', free_blocks [b] p = Ok p' /\ pool_inv p' xs' /\ same_config p p' /\
    owns (set_table rid (<[Z.to_nat i := null_block]> (blocks_of m rid)) m) p' others.
Proof.
  intros Hinv Ho Hi Hb Hnn Hp.
  destruct (owns_blocks_of m p others rid Ho) as (ids & Heq & Hids & Hd).
  assert (exists j, b = Blk j /\ valid_block p j) as (j & -> & Hv).
  { rewrite Heq in Hb. apply list_lookup_fmap_Some in Hb as (j & -> & Hj). exists j. split; [done|].
    by destruct (Forall_lookup_1 _ _ _ _ Hids Hj) as [?| ->]. }
  assert (Blk j ∈ blocks_of m rid) as Hin by (by eapply list_elem_of_lookup_2).
  destruct (owns_in_use m p xs others rid j Hinv Ho Hv Hin) as [Href _].
  destruct (free_list_Ok [Blk j] p xs Hinv) as (p' & xs' & Hf & Hi' & Hc & Hr & _).
  { exists [j]. split_and!; [done|apply Forall_singleton; by left|]. apply NoDup_filter, NoDup_singleton. }
  { intros i' Hv' Hin'. apply list_elem_of_singleton in Hin'. injection Hin' as ->. done. }
  exists p', xs'. split_and!; try done.
  eapply (owns_change m p others _ p' rid); [done|done|done| | |done|].
  - apply block_list_null_insert. by eapply owns_blocks_of.
  - intros i' Hv'. rewrite Hr by done. rewrite (refs_in_insert i' _ (Blk j)) by done.
    rewrite refs_in_cons. change (refs_in i' []) with 0.
    rewrite (decide_False (P := null_block = Blk i')); [simpl; destruct (decide (Blk j = Blk i')); lia|].
    destruct Hv' as [? _]. unfold null_block. intros [= <-]. lia.
  - intros idx b' Hlk. simpl in Hlk. specialize (Hp _ _ Hlk).
    destruct (ow_partial _ _ _ Ho _ _ _ Hlk) as (l & j' & Hl & -> & Hv' & Hidx & Hlook).
    exists j'. split_and!; [done..|]. rewrite list_lookup_insert_ne by lia. unfold blocks_of. by rewrite Hl.
Qed.

Lemma mamba_remove_Ok m p xs others rid processed :
  pool_inv p xs -> owns (base m) p others -> 0 < mgr_block_size (base m) ->
  mamba_removable m rid processed ->
  exists m' p' xs', mamba_remove_skipped_blocks rid processed m p = Ok (m', p') /\
    pool_inv p' xs' /\ same_config p p' /\ owns (base m') p' others /\ same_lengths m m'.
Proof.
  intros Hinv Ho Hbs [Hp Hl]. unfold mamba_remove_skipped_blocks.
  destruct (base_remove_skipped_Ok (base m) p xs others rid processed Hinv Ho Hbs)
    as (b & p1 & xs1 & t & -> & Hi1 & Hc1 & Ho1 & Hs1 & Hrr).
  { intros idx b Hb. by apply (Hp idx b). }
  cbn [mbind result_bind]. set (m1 := with_base b m).
  assert (same_lengths m m1) as Hsl.
  { split_and!; try done; [|apply (rr_partial _ _ _ _ _ _ _ _ Hrr)|apply (rr_cached _ _ _ _ _ _ _ _ Hrr)].
    intros rid'. destruct (decide (rid' = rid)) as [->|Hne].
    - by destruct (removed_keeps _ _ _ _ _ _ _ _ Hrr Hs1) as (? & _).
    - unfold m1. simpl. by rewrite (rr_other _ _ _ _ _ _ _ _ Hrr rid' Hne). }
  assert (owns (base m1) p1 others) as Ho1' by done.
  destruct (negb (is_align m1)).
  { exists m1, p1, xs1. by split_and!. }
  change (last_state_block_idx m1) with (last_state_block_idx m).
  destruct (last_state_block_idx m !! rid) as [i|] eqn:Elast; [|exists m1, p1, xs1; by split_and!].
  destruct (_ <? _); [|exists m1, p1, xs1; by split_and!].
  destruct (Hl i eq_refl) as [Hi0 Hilen].
  destruct Hsl as (Hsm & Hlen & Hpart & Hnum & Hal & Hla).
  change (base (with_base (ensure rid (base m1)) m1)) with (ensure rid (base m1)).
  rewrite blocks_of_ensure.
  destruct (lookup_lt_is_Some_2 (blocks_of (base m1) rid) (Z.to_nat i)) as [x Hx];
    [rewrite <-Hlen in Hilen; lia|].
  rewrite (py_index_Ok _ i x) by done. cbn [mbind result_bind]. case_bool_decide as Hnull.
  { exists (with_base (ensure rid (base m1)) m1), p1, xs1. split_and!; try done.
    - by apply owns_ensure.
    - split_and!; try done. intros rid'. simpl. by rewrite blocks_of_ensure. }
  destruct (free_entry_Ok (ensure rid (base m1)) p1 xs1 others rid i x Hi1) as (p2 & xs2 & -> & Hi2 & Hc2 & Ho2).
  { by apply owns_ensure. }
  { done. }
  { by rewrite blocks_of_ensure. }
  { done. }
  { intros idx b' Hlk. change (partial_hit_reqs (base m1) !! rid = Some (idx, b')) in Hlk.
    rewrite Hpart in Hlk. destruct (Hp _ _ Hlk) as [_ Hne].
    intros ->. by apply (Hne i). }
  cbn [mbind result_bind]. rewrite blocks_of_ensure in Ho2. unfold py_set.
  destruct (Z.ltb_spec i 0); [lia|]. destruct (Z.ltb_spec i 0); [lia|].
  rewrite <-Hlen in Hilen. destruct (Z.leb_spec (zlen (blocks_of (base m1) rid)) i); [lia|].
  cbn [orb mbind result_bind].
  eexists _, p2, xs2. split_and!; [reflexivity|done|by etrans|exact Ho2|].
  split_and!; try done.
  intros rid'. unfold blocks_of at 1. simpl. destruct (decide (rid' = rid)) as [->|Hne].
  - rewrite lookup_insert_eq. simpl. by rewrite length_insert.
  - rewrite !lookup_insert_ne by done. apply Hlen.
Qed.

(** ** Caching *)

(** Only cached counts, pending partial hits and the notes of a step changed. *)
Definition same_tables (m m' : MambaManager) : Prop :=
  same_manager (base m) (base m') /\
  (forall rid, blocks_of (base m') rid = blocks_of (base m) rid) /\
  allocated_block_reqs m' = allocated_block_reqs m /\
  last_state_block_idx m' = last_state_block_idx m.

#[export] Instance same_tables_trans : Transitive same_tables.
Proof.
  intros m1 m2 m3 (H1 & H2 & H3 & H4) (H1' & H2' & H3' & H4').
  split_and!; [by etrans|intros rid; by rewrite H2', H2|congruence|congruence].
Qed.

Lemma note_cached_keeps h m : base (note_cached h m) = base m /\ same_tables m (note_cached h m).
Proof. by destruct h. Qed.

Lemma note_new_blocks_keeps p blocks m :
  base (note_new_blocks p blocks m) = base m /\ same_tables m (note_new_blocks p blocks m).
Proof.
  unfold note_new_blocks. revert m. induction blocks as [|b blocks IH]; intros m; [done|]. simpl.
  destruct (is_null (pheap p b)); [apply IH|].
  destruct (note_cached_keeps (block_hash (pheap p b)) m) as [Hb Ht].
  destruct (IH (note_cached (block_hash (pheap p b)) m)) as [Hb' Ht']. split; [congruence|by etrans].
Qed.

Lemma partial_tail_inv r n m p xs others res r' m' p' :
  pool_inv p xs -> owns (base m) p others -> 0 <= n / mgr_block_size (base m) ->
  mamba_cache_partial_tail_block r n m p = Ok (res, r', m', p') ->
  pool_inv p' xs /\ same_config p p' /\ owns (base m') p' others /\ same_tables m m'.
Proof.
  intros Hinv Ho Hn Hc. unfold mamba_cache_partial_tail_block in Hc.
  destruct (_ =? pool_hash_block_size p); [by injection Hc as <- <- <- <-|].
  destruct (_ =? 0); [by injection Hc as <- <- <- <-|].
  apply bind_Ok_inv in Hc as (rest & _ & Hc). destruct (negb _); [by injection Hc as <- <- <- <-|].
  apply bind_Ok_inv in Hc as (q & _ & Hc). destruct (negb _); [by injection Hc as <- <- <- <-|].
  set (rid := request_id r) in *.
  set (m1 := with_base (ensure rid (base m)) m) in *.
  assert (owns (base m1) p others) as Ho1 by (by apply owns_ensure).
  assert (same_tables m m1) as Ht1 by (split_and!; try done; intros rid'; apply blocks_of_ensure).
  destruct (_ <=? _) eqn:Elen; [by injection Hc as <- <- <- <-|]. apply Z.leb_gt in Elen.
  change (mgr_block_size (base m1)) with (mgr_block_size (base m)) in *.
  apply bind_Ok_inv in Hc as (b & Hidx & Hc). destruct (is_null (pheap p b)) eqn:Enull;
    [by injection Hc as <- <- <- <-|].
  apply bind_Ok_inv in Hc as ([[key r2] p2] & Hpart & Hc).
  assert (blocks_of (base m1) rid !! Z.to_nat (n / mgr_block_size (base m)) = Some b) as Hlook.
  { unfold py_index in Hidx. destruct (Z.ltb_spec (n / mgr_block_size (base m)) 0); [lia|].
    destruct (Z.ltb_spec (n / mgr_block_size (base m)) 0); [lia|]. by apply or_raise_Ok_inv in Hidx. }
  assert (exists j, b = Blk j /\ block_of_pool p j) as (j & -> & Hj).
  { destruct (owns_blocks_of (base m1) p others rid Ho1) as (ids & Heq & Hids & _).
    rewrite Heq in Hlook. apply list_lookup_fmap_Some in Hlook as (j & -> & Hj). exists j. split; [done|].
    by eapply Forall_lookup_1. }
  rewrite (pi_null _ _ _ Hinv) in Enull. apply bool_decide_eq_false in Enull.
  destruct (cache_partial_block_inv _ _ _ _ _ _ _ _ _ _ Hinv Hj Hpart) as (Hi2 & Hc2 & Hr2 & _).
  assert (owns (base m1) p2 others) as Ho2 by (by eapply owns_pool).
  destruct key as [key|]; [|by injection Hc as <- <- <- <-]. injection Hc as <- <- <- <-.
  split_and!; try done. simpl. destruct Ho2 as [Ht Hr Hoth Hp].
  split; [exact Ht|exact Hr|exact Hoth|]. simpl. intros rid' idx b'. destruct (decide (rid' = rid)) as [->|Hne].
  - rewrite lookup_insert_eq. intros [= <- <-]. exists (blocks_of (base m) rid), j.
    rewrite lookup_insert_eq. split_and!; [done|done| |done|].
    + apply (valid_block_config p p2); [done|]. by destruct Hj.
    + unfold m1 in Hlook. simpl in Hlook. by rewrite blocks_of_ensure in Hlook.
  - rewrite !lookup_insert_ne by done. intros Hlk. destruct (Hp rid' idx b') as (l & j' & Hl & ?); [done|].
    simpl in Hl. rewrite lookup_insert_ne in Hl by done. by exists l, j'.
Qed.

Lemma mamba_cache_inv r n ri m p xs others r' m' p' :
  pool_inv p xs -> owns (base m) p others -> 0 < mgr_block_size (base m) -> 0 <= n ->
  mamba_cache_blocks r n ri m p = Ok (r', m', p') ->
  pool_inv p' xs /\ same_config p p' /\ owns (base m') p' others /\ same_tables m m'.
Proof.
  intros Hinv Ho Hbs Hn Hc. unfold mamba_cache_blocks in Hc.
  apply bind_Ok_inv in Hc as ([[r1 b1] p1] & Hb & Hc).
  destruct (base_cache_blocks_inv _ _ _ _ _ _ _ _ _ _ Hinv Ho Hb) as (Hi1 & Hc1 & Ho1 & Hs1 & Ht1 & _).
  cbn beta iota zeta in Hc. set (m1 := with_base b1 m) in *.
  assert (same_tables m m1) as Hm1 by done.
  apply bind_Ok_inv in Hc as ([[r2 m2] p2] & Htail & Hc).
  assert (pool_inv p2 xs /\ same_config p p2 /\ owns (base m2) p2 others /\ same_tables m m2)
    as (Hi2 & Hc2 & Ho2 & Hm2).
  { destruct (is_align m1); [|injection Htail as <- <- <-; by split_and!].
    apply bind_Ok_inv in Htail as ([[[h r3] m3] p3] & Hpt & Htail). injection Htail as <- <- <-.
    assert (mgr_block_size (base m1) = mgr_block_size (base m)) as Hbs1 by (by destruct Hs1 as (_ & ? & _)).
    destruct (partial_tail_inv r1 n m1 p1 xs others h r3 m3 p3 Hi1 Ho1) as (? & ? & ? & ?);
      [by apply Z.div_pos; [|rewrite Hbs1]|done|].
    destruct (note_cached_keeps h m3) as [Hb3 ?]. rewrite Hb3.
    split_and!; [done|by etrans|done|]. etrans; [exact Hm1|]. by etrans. }
  destruct (_ <? _); [|injection Hc as <- <- <-; by split_and!]. injection Hc as <- <- <-.
  match goal with |- context [note_new_blocks p2 ?bs ?x] =>
    destruct (note_new_blocks_keeps p2 bs x) as [Hb4 Ht4] end.
  rewrite Hb4. split_and!; [done|done|by apply owns_ensure|]. etrans; [exact Hm2|]. etrans; [|exact Ht4].
  split_and!; try done. intros rid. simpl. by rewrite blocks_of_ensure.
Qed.
End Remove.

(** * Mamba groups *)

(** The manager's own invariant: sizes, the agreement with the pool on caching,
    and, of every request that went through an allocation, that its table has the
    running state and the speculative blocks. *)
Record mamba_ok (m : MambaManager) (p : BlockPool) : Prop := {
  mo_config : config_ok (base m);
  mo_spec : 0 <= speculative_blocks m;
  mo_size : spec_block_size (kv_cache_spec (base m)) = mgr_block_size (base m);
  mo_caching : mgr_enable_caching (base m) = true -> enable_caching p = true;
  mo_allocated rid : rid ∈ allocated_block_reqs m ->
    speculative_blocks m < zlen (blocks_of (base m) rid);
  mo_last rid i : last_state_block_idx m !! rid = Some i -> 0 <= i < zlen (blocks_of (base m) rid);
  mo_dense : is_align m = false -> allocated_block_reqs m = ∅ /\ last_state_block_idx m = ∅
}.

Lemma same_speculative m m' : same_manager (base m) (base m') ->
  speculative_blocks m' = speculative_blocks m /\ is_align m' = is_align m.
Proof. intros (Hs & _). unfold speculative_blocks, is_align. by rewrite Hs. Qed.

(** The invariant survives what keeps the recorded requests' tables long enough. *)
Lemma mamba_ok_change m m' p p' :
  mamba_ok m p -> same_manager (base m) (base m') -> same_config p p' ->
  (forall rid, rid ∈ allocated_block_reqs m' ->
    speculative_blocks m < zlen (blocks_of (base m') rid)) ->
  (forall rid i, last_state_block_idx m' !! rid = Some i -> 0 <= i < zlen (blocks_of (base m') rid)) ->
  (is_align m = false -> allocated_block_reqs m' = ∅ /\ last_state_block_idx m' = ∅) ->
  mamba_ok m' p'.
Proof.
  intros [Hc Hs Hsz Hcach _ _ _] Hsm Hcfg Hal Hla Hd.
  destruct (same_speculative m m' Hsm) as [Hsp Hia]. pose proof Hsm as (Hk & Hb & He & _).
  split; rewrite ?Hsp, ?Hia, ?Hk, ?Hb, ?He; try done.
  - by eapply config_ok_same.
  - intros ?. destruct Hcfg as (_ & -> & _). auto.
Qed.

Lemma mamba_ok_lengths m m' p p' :
  mamba_ok m p -> same_manager (base m) (base m') -> same_config p p' ->
  (forall rid, zlen (blocks_of (base m) rid) <= zlen (blocks_of (base m') rid)) ->
  allocated_block_reqs m' = allocated_block_reqs m ->
  last_state_block_idx m' = last_state_block_idx m -> mamba_ok m' p'.
Proof.
  intros Hok Hsm Hcfg Hlen Hal Hla. eapply mamba_ok_change; [done|done|done|..]; rewrite ?Hal, ?Hla.
  - intros rid Hin. specialize (Hlen rid). pose proof (mo_allocated _ _ Hok rid Hin). lia.
  - intros rid i Hlk. specialize (Hlen rid). pose proof (mo_last _ _ Hok rid i Hlk). lia.
  - apply (mo_dense _ _ Hok).
Qed.

(** The slots a Mamba table must have room for. *)
Definition mamba_slots (m : MambaManager) (s : Slots) : Z := with_lookahead m (sl_tokens s).

(** An admission in "align" mode: no external tokens, or none but those. *)
Definition mamba_hit (m : MambaManager) (p : BlockPool) (l : list bref) (s : Slots) : Prop :=
  local_hit_ok (base m) p l (sl_local s) /\ 0 <= sl_local s /\ 0 <= sl_external s /\
  0 < sl_main s /\ sl_total s <= sl_main s /\ sl_total s <= sl_tokens s /\
  (is_align m = true -> sl_external s = 0 \/
    cdiv (sl_main s) (mgr_block_size (base m)) = cdiv (sl_total s) (mgr_block_size (base m))).

(** What the rest of the admission takes, while external blocks are outstanding. *)
Definition align_waits (m : MambaManager) (s : Slots) (k : Z) : Prop :=
  let rid := sl_request s in
  let prev := zlen (blocks_of (base m) rid) in
  let total := cdiv (sl_total s) (mgr_block_size (base m)) in
  align_ready m rid /\ rid ∉ allocated_block_reqs m /\ 0 < sl_main s /\ prev <= total /\
  (sl_external s = 0 /\ align_short m rid (sl_main s) <= k /\ total - prev <= 0 \/
   cdiv (sl_main s) (mgr_block_size (base m)) = total /\
   speculative_blocks m + Z.of_nat (cow_count (base m) rid) + (total - prev) <= k).

Definition mamba_waiting (m : MambaManager) (s : Slots) (k : Z) : Prop :=
  if is_align m then align_waits m s k
  else table_waits (base m) (sl_request s) (sl_total s) (mamba_slots m s) k.
Definition mamba_open (m : MambaManager) (s : Slots) (k : Z) : Prop :=
  if is_align m then
    align_ready m (sl_request s) /\ 0 < sl_main s /\ align_short m (sl_request s) (sl_main s) <= k
  else 0 < mgr_block_size (base m) /\ blocks_short (base m) (sl_request s) (mamba_slots m s) <= k.

(** A request that has its blocks, and in "align" mode does not need fewer. *)
Definition mamba_resumed (m : MambaManager) (s : Slots) : Prop :=
  let rid := sl_request s in
  if is_align m then
    align_ready m rid /\ 0 < sl_main s /\
    (is_Some (partial_hit_reqs (base m) !! rid) \/ zlen (blocks_of (base m) rid) <=
      cdiv (sl_main s) (mgr_block_size (base m)) + speculative_blocks m)
  else 0 < mgr_block_size (base m) /\ table_resumed (base m) rid (sl_total s).

(** The running state and the speculative blocks have room. *)
Definition mamba_covered (m : MambaManager) (s : Slots) : Prop :=
  let len := zlen (blocks_of (base m) (sl_request s)) in
  if is_align m then cdiv (sl_main s) (mgr_block_size (base m)) + speculative_blocks m <= len
  else mamba_slots m s <= len * mgr_block_size (base m).

Lemma mamba_slots_same m b s : same_manager (base m) b -> mamba_slots (with_base b m) s = mamba_slots m s.
Proof.
  intros Hs. unfold mamba_slots, with_lookahead. destruct (same_speculative m (with_base b m) Hs) as [-> _].
  simpl. by destruct Hs as (-> & _).
Qed.

(** Outside "align" mode nothing is recorded. *)
Lemma mamba_ok_dense m b p p' :
  mamba_ok m p -> is_align m = false -> same_manager (base m) b -> same_config p p' ->
  mamba_ok (with_base b m) p'.
Proof.
  intros Hk Hal Hs Hc. destruct (mo_dense _ _ Hk Hal) as [Ha Hl].
  eapply mamba_ok_change; [done|done|done|..]; simpl.
  - intros rid Hin. set_solver.
  - intros rid i. by rewrite Hl, lookup_empty.
  - done.
Qed.

Section Predict.
Context `{PoolEnv}.

Lemma lookahead_ge m n p : mamba_ok m p -> n <= with_lookahead m n.
Proof.
  intros Hok. unfold with_lookahead. destruct (Z.ltb_spec 0 (speculative_blocks m)); [|lia].
  rewrite (mo_size _ _ Hok). pose proof (proj1 (proj1 (mo_config _ _ Hok))). nia.
Qed.

Lemma evictable_drop p l k : get_num_evictable_blocks p (drop k l) <= get_num_evictable_blocks p l.
Proof.
  revert k. induction l as [|b l IH]; intros [|k]; try done. simpl drop.
  specialize (IH k). unfold get_num_evictable_blocks in *. cbn [foldr]. destruct (_ && _); lia.
Qed.

(** A request that was never allocated has no speculative blocks. *)
Lemma carried_fresh m rid : rid ∉ allocated_block_reqs m -> carried m rid = 0.
Proof. intros. unfold carried. by rewrite bool_decide_eq_false_2. Qed.

Lemma cdiv_pred n b : 0 < b -> cdiv n b = (n - 1) / b + 1.
Proof.
  intros Hb. pose proof (cdiv_bounds n b Hb).
  assert ((n - 1) / b = cdiv n b - 1); [|lia].
  symmetry. apply Z.div_unique with (r := n - 1 - b * (cdiv n b - 1)); [left; lia|lia].
Qed.

Lemma align_skipped m n : is_align m = true -> skipped_tokens (base m) n = n - 1.
Proof.
  unfold is_align, skipped_tokens. destruct (spec_kind _) as [| | | | | | | |[] ?|]; done.
Qed.

(** The prediction in "align" mode for a request that is new to the manager. *)
Lemma align_predicted m p rid num_tokens l total local main n :
  is_align m = true -> 0 <= speculative_blocks m -> rid ∉ allocated_block_reqs m ->
  blocks_of (base m) rid = [] -> partial_hit_reqs (base m) !! rid = None ->
  zlen l <= cdiv main (mgr_block_size (base m)) -> n <= num_gpu_blocks p ->
  mamba_get_num_blocks_to_allocate m p rid num_tokens l total local main false = Ok n ->
  let partial := has_partial_local_hit (base m) l local in
  let short := cdiv main (mgr_block_size (base m)) + speculative_blocks m - zlen l in
  n = (if partial then 2 + speculative_blocks m else if 0 <? short then 1 + speculative_blocks m else 0)
    + get_num_evictable_blocks p l.
Proof.
  intros Hal Hsp Hnal Hnil Hnone Hlen Hn Hp partial short. unfold mamba_get_num_blocks_to_allocate in Hp.
  destruct (match last l with Some b => cached_this_step m p b | None => false end).
  { injection Hp as <-. lia. }
  rewrite Hal, Hnil, Hnone in Hp. cbn [negb] in Hp. fold partial in Hp.
  rewrite (bool_decide_eq_false_2 (rid ∈ _)) in Hp by done.
  rewrite (bool_decide_eq_false_2 (is_Some None)) in Hp by (by intros [? ?]).
  rewrite orb_false_r, Z.sub_0_r in Hp. fold short in Hp. injection Hp as <-.
  destruct partial; simpl.
  - destruct (Z.ltb_spec 0 (Z.max short 0 + 1)); lia.
  - destruct (Z.ltb_spec 0 short); lia.
Qed.

(** Touching the hits of a request in "align" mode. *)
Lemma align_add_phase m p0 xs0 p xs others l s n :
  pool_inv p0 xs0 -> same_config p0 p -> refs_grow p0 p ->
  pool_inv p xs -> owns (base m) p others -> mamba_ok m p -> is_align m = true ->
  new_request (base m) (sl_request s) -> mamba_hit m p l s -> n <= zlen xs0 ->
  mamba_get_num_blocks_to_allocate m p0 (sl_request s) (sl_tokens s) l (sl_total s) (sl_local s)
    (sl_main s) false = Ok n ->
  exists b p' xs' k,
    add_local_computed_blocks (sl_request s) l (sl_local s) (sl_external s) (base m) p = Ok (b, p') /\
    pool_inv p' xs' /\ same_config p p' /\ refs_grow p p' /\ owns b p' others /\
    same_manager (base m) b /\
    (forall rid, zlen (blocks_of (base m) rid) <= zlen (blocks_of b rid)) /\
    align_waits (with_base b m) s k /\ k + (zlen xs - zlen xs') <= n.
Proof.
  intros Hi0 Hc0 Hg0 Hinv Ho Hok Hal [Hnil Hnc] (Hhit & Hl0 & He0 & Hmain & Htot & _ & Hadm) Hn Hpred.
  destruct (mo_config _ _ Hok) as [Hs Hw]. pose proof (proj1 Hs) as Hbs. pose proof (mo_spec _ _ Hok) as Hsp.
  set (rid := sl_request s) in *. set (bs := mgr_block_size (base m)) in *.
  assert (rid ∉ allocated_block_reqs m) as Hnal.
  { intros Hin%(mo_allocated _ _ Hok). rewrite Hnil in Hin. simpl in Hin. lia. }
  pose proof (empty_no_partial _ _ _ _ Ho Hnil) as Hnone.
  destruct (add_local_Ok (base m) p xs others rid l _ _ Hinv Ho Hs Hnil Hl0 He0 Hhit)
    as (b & p1 & Hadd & Hi1 & Hc1 & Ho1 & Hs1 & Hb1 & Hp1 & _ & Hr1 & Hoth).
  destruct Hhit as (Hl & Hlen & Hcach & Htail).
  set (kept := kept_blocks (base m) l (sl_local s + sl_external s)) in *.
  pose proof (kept_cow_count (base m) b l rid _ _ Hp1) as Hcow.
  assert (block_list p kept) as Hkl by (by apply block_list_drop).
  pose proof (evictable_refs_grow p0 xs0 p xs kept Hi0 Hinv Hc0 Hg0 Hkl) as Hev.
  rewrite (evictable_count p xs) in Hev by done.
  pose proof (evictable_drop p0 l (Z.to_nat (skipped_tokens (base m) (sl_local s + sl_external s) / bs))) as Hev2.
  change (get_num_evictable_blocks p0 kept <= get_num_evictable_blocks p0 l) in Hev2.
  pose proof (cdiv_mono (sl_local s) (sl_main s) bs Hbs ltac:(unfold sl_total in *; lia)) as Hcd.
  pose proof (cdiv_mono (sl_local s) (sl_total s) bs Hbs ltac:(unfold sl_total in *; lia)) as Hcd2.
  fold bs in Hlen. apply align_predicted in Hpred; [|done|done|done|done|done|fold bs; lia|pose proof (free_list_le p0 xs0 Hi0); lia].
  fold bs in Hpred. set (R := cdiv (sl_main s) bs) in *. set (T := cdiv (sl_total s) bs) in *.
  assert (zlen (blocks_of b rid) = Z.max (T - 1) (zlen l)) as Hprev.
  { rewrite Hb1, length_app, length_replicate. unfold kept, kept_blocks. rewrite length_drop. fold bs.
    rewrite align_skipped by done. unfold T. rewrite cdiv_pred by done. unfold sl_total. lia. }
  set (m1 := with_base b m).
  assert (carried m1 rid = 0) as Hcar by (by apply carried_fresh).
  assert (mgr_block_size b = bs) as Hbs1 by (by destruct Hs1 as (_ & ? & _)).
  assert (speculative_blocks m1 = speculative_blocks m) as Hsp1 by (by apply same_speculative).
  assert (align_ready m1 rid) as Hready.
  { unfold align_ready. change (base m1) with b. rewrite Hbs1, Hsp1, Hcar.
    split_and!; [done|done|done|]. intros idx x Hx.
    destruct (ow_partial _ _ _ Ho1 _ _ _ Hx) as (tab & j & Htab & _ & _ & Hidx & Hlk).
    apply lookup_lt_Some in Hlk. unfold blocks_of. rewrite Htab. simpl. split; [lia|].
    destruct Hs1 as (_ & _ & -> & _). destruct Hcach as [?| ->]; [done|]. exfalso.
    rewrite Hp1 in Hx. unfold kept, kept_blocks in Hx. rewrite drop_nil in Hx. done. }
  set (k := if sl_external s =? 0 then align_short m1 rid (sl_main s)
            else speculative_blocks m + Z.of_nat (cow_count b rid) + (T - Z.max (T - 1) (zlen l))).
  assert (align_waits m1 s k) as Hwaits.
  { unfold align_waits. cbv zeta. fold rid. change (base m1) with b. rewrite Hbs1, Hsp1, Hprev. fold R T.
    split; [done|]. split; [done|]. split; [done|]. split; [lia|]. unfold k. destruct (Z.eqb_spec (sl_external s) 0) as [He|He].
    - left. split_and!; [done|lia|]. unfold T, sl_total. rewrite He, Z.add_0_r, <-Hlen. lia.
    - right. destruct (Hadm Hal) as [?|Heq]; [done|]. split; [exact Heq|lia]. }
  exists b, p1, (filter (fun j => Blk j ∉ kept) xs), k.
  split_and!; [exact Hadd|exact Hi1|exact Hc1| |exact Ho1|exact Hs1| |exact Hwaits|].
  - intros i. rewrite Hr1. pose proof (refs_in_nonneg i kept). lia.
  - intros rid'. destruct (decide (rid' = rid)) as [->|Hne]; [rewrite Hnil; simpl; lia|by rewrite Hoth].
  - assert (k <= if has_partial_local_hit (base m) l (sl_local s) then 2 + speculative_blocks m
      else if 0 <? R + speculative_blocks m - zlen l then 1 + speculative_blocks m else 0);
      [|cbv zeta in Hpred; fold bs in Hpred; fold R in Hpred; lia].
    unfold k, align_short. change (base m1) with b. rewrite Hbs1, Hsp1, Hprev, Hcar. fold R.
    destruct (Z.eqb_spec (sl_external s) 0) as [He|He].
    + assert (T <= zlen l) by (unfold T, sl_total; rewrite He, Z.add_0_r, <-Hlen; lia).
      destruct (has_partial_local_hit (base m) l (sl_local s)); [lia|].
      destruct (Z.ltb_spec 0 (R + speculative_blocks m - zlen l)); lia.
    + destruct (Hadm Hal) as [?|Heq]; [done|]. fold R T in Heq.
      destruct (has_partial_local_hit (base m) l (sl_local s)); [lia|].
      destruct (Z.ltb_spec 0 (R + speculative_blocks m - zlen l)); lia.
Qed.

(** The external blocks: after them nothing but the running state, the
    speculative blocks and the copy of a partial hit is outstanding. *)
Lemma align_external_phase m p xs others s k :
  pool_inv p xs -> owns (base m) p others -> align_waits m s k -> k <= zlen xs ->
  exists b p' xs',
    allocate_external_computed_blocks (sl_request s) (sl_local s) (sl_external s) (base m) p = Ok (b, p') /\
    pool_inv p' xs' /\ same_config p p' /\ owns b p' others /\ same_manager (base m) b /\
    (forall rid, zlen (blocks_of (base m) rid) <= zlen (blocks_of b rid)) /\
    align_ready (with_base b m) (sl_request s) /\
    align_short (with_base b m) (sl_request s) (sl_main s) + (zlen xs - zlen xs') <= k.
Proof.
  intros Hinv Ho (Hready & Hnal & Hmain & Hprev & Hcase) Hk. pose proof Hready as (Hbs & Hsp & _ & Hpart).
  set (rid := sl_request s) in *. set (T := cdiv (sl_total s) (mgr_block_size (base m))) in *.
  assert (T - zlen (blocks_of (base m) rid) <= zlen xs) as Hxs by lia.
  destruct (allocate_external_Ok (base m) p xs others rid (sl_local s) (sl_external s) Hinv Ho)
    as (n & b & p' & Hal & Hn & Hi & Hc & Ho' & Hs & Hb & Hp & Hoth).
  { fold (sl_total s). fold T. lia. }
  fold (sl_total s) in Hn. fold T in Hn.
  assert (zlen (blocks_of b rid) = zlen (blocks_of (base m) rid) + Z.of_nat n) as Hlen.
  { rewrite Hb, length_app, length_fmap, length_take. lia. }
  destruct (same_speculative m (with_base b m) Hs) as [Hsp' Hal'].
  assert (mgr_block_size b = mgr_block_size (base m)) as Hbs' by (by destruct Hs as (_ & ? & _)).
  assert (carried (with_base b m) rid = 0) as Hcar by (by apply carried_fresh).
  assert (carried m rid = 0) as Hcar0 by (by apply carried_fresh).
  assert (align_ready (with_base b m) rid) as Hr'.
  { unfold align_ready. change (base (with_base b m)) with b. rewrite Hbs', Hsp', Hcar, Hlen.
    split_and!; [done|done|done|]. intros idx x Hx. rewrite Hp in Hx.
    destruct (Hpart idx x Hx) as [? ?]. destruct Hs as (_ & _ & -> & _). split; [lia|done]. }
  exists b, p', (drop n xs). split_and!; [exact Hal|exact Hi|exact Hc|exact Ho'|exact Hs| |exact Hr'|].
  - intros rid'. destruct (decide (rid' = rid)) as [->|Hne]; [lia|by rewrite Hoth].
  - unfold align_short. fold rid. change (base (with_base b m)) with b. rewrite Hbs', Hsp', Hcar, Hlen.
    assert (cow_count b rid = cow_count (base m) rid) as -> by (unfold cow_count; by rewrite Hp).
    rewrite length_drop. destruct Hcase as [(_ & Hk1 & Hz)|[HR Hk1]].
    + unfold align_short in Hk1. rewrite Hcar0 in Hk1. lia.
    + rewrite HR. lia.
Qed.

Lemma resumed_phase_align m p rid num_tokens total local main n :
  is_align m = true -> align_ready m rid ->
  (is_Some (partial_hit_reqs (base m) !! rid) \/ zlen (blocks_of (base m) rid) <=
    cdiv main (mgr_block_size (base m)) + speculative_blocks m) ->
  mamba_get_num_blocks_to_allocate m p rid num_tokens [] total local main false = Ok n ->
  align_short m rid main <= n.
Proof.
  intros Hal (Hbs & Hsp & Hcar & Hpart) Hcase Hn. unfold mamba_get_num_blocks_to_allocate in Hn.
  cbn [last] in Hn. rewrite Hal in Hn. cbn [negb] in Hn.
  unfold has_partial_local_hit in Hn. rewrite orb_false_l in Hn.
  change (get_num_evictable_blocks p []) with 0 in Hn. change (zlen (@nil bref)) with 0 in Hn.
  rewrite Z.sub_0_r in Hn. unfold align_short, carried, cow_count in *.
  set (R := cdiv main (mgr_block_size (base m))) in *. set (prev := zlen (blocks_of (base m) rid)) in *.
  destruct (partial_hit_reqs (base m) !! rid) as [[idx b]|].
  - rewrite (bool_decide_eq_true_2 (is_Some (Some _))) in Hn by done. cbn [Z.b2z] in Hn.
    destruct (Z.ltb_spec 0 (Z.max (R + speculative_blocks m - prev) 0 + 1)); [|lia].
    injection Hn as <-. case_bool_decide; lia.
  - rewrite (bool_decide_eq_false_2 (is_Some None)) in Hn by (by intros [? ?]). cbn [Z.b2z] in Hn.
    destruct Hcase as [[? ?]|Hcase]; [done|].
    destruct (Z.ltb_spec 0 (R + speculative_blocks m - prev)); injection Hn as <-; case_bool_decide; lia.
Qed.
End Predict.

(** * The manager of a Mamba group as an instance *)

Section GroupInstance.
Context `{PoolEnv}.

(** Popping a request's blocks also forgets what was recorded of it. *)
Lemma mamba_pop_Ok m p others rid :
  owns (base m) p others -> mamba_ok m p ->
  let '(blocks, m') := mamba_pop_blocks_for_free rid m in
  blocks = blocks_of (base m) rid /\ blocks_of (base m') rid = [] /\
  (forall rid', rid' <> rid -> blocks_of (base m') rid' = blocks_of (base m) rid') /\
  owns (base m') p (fun i => others i + refs_in i blocks) /\ same_manager (base m) (base m') /\
  mamba_ok m' p.
Proof.
  intros Ho Hk. unfold mamba_pop_blocks_for_free.
  match goal with |- context [pop_blocks_for_free rid (base ?x)] => set (m1 := x) end.
  assert (base m1 = base m) as Hb by (unfold m1; by destruct (is_align m)). rewrite Hb.
  pose proof (owns_pop (base m) p others rid Ho) as Hpop.
  destruct (pop_blocks_for_free rid (base m)) as [blocks b].
  destruct Hpop as (Hbl & Hnil & Hoth & Ho' & Hs). split_and!; try done.
  eapply mamba_ok_change; [exact Hk|done|done|..]; simpl; unfold m1; destruct (is_align m) eqn:Hal; simpl.
  - intros rid' [Hin Hne]%elem_of_difference. rewrite Hoth by set_solver. by apply (mo_allocated _ _ Hk).
  - intros rid' Hin. destruct (mo_dense _ _ Hk Hal) as [He _]. set_solver.
  - intros rid' i [Hne Hlk]%lookup_delete_Some. rewrite Hoth by done. by apply (mo_last _ _ Hk).
  - intros rid' i Hlk. destruct (mo_dense _ _ Hk Hal) as [_ He]. by rewrite He, lookup_empty in Hlk.
  - done.
  - intros _. by apply (mo_dense _ _ Hk).
Qed.

#[export] Instance mamba_group : GroupManager MambaManager := {|
  gm_is_cross m := false;
  gm_spec m := kv_cache_spec (base m);
  gm_block_size m := mgr_block_size (base m);
  gm_use_eagle m := use_eagle (base m);
  gm_set_use_eagle e m := with_base (set_use_eagle e (base m)) m;
  gm_records_new_block_ids m := record_new_block_ids (base m);
  gm_blocks m := blocks_of (base m);
  gm_is_tracked m rid := bool_decide (is_Some (num_cached_block (base m) !! rid));
  gm_predict := mamba_get_num_blocks_to_allocate;
  gm_add_local rid l local ext m p :=
    '(b, p) ← add_local_computed_blocks rid l local ext (base m) p; Ok (with_base b m, p);
  gm_allocate_external rid local ext m p :=
    '(b, p) ← allocate_external_computed_blocks rid local ext (base m) p; Ok (with_base b m, p);
  gm_allocate_new := mamba_allocate_new_blocks;
  gm_cache := mamba_cache_blocks;
  gm_remove_skipped rid processed np := mamba_remove_skipped_blocks rid processed;
  gm_pop := mamba_pop_blocks_for_free;
  gm_free := mamba_free;
  gm_common_prefix rid m p := (0, m);
  gm_new_step := mamba_new_step_starts;
  gm_take_new_block_ids m := let '(ids, b) := take_new_block_ids (base m) in (ids, with_base b m);
  gm_extend_new_block_ids ids m := with_base (set_new_ids (new_block_ids (base m) ++ ids) (base m)) m;
  gm_take_cow_copies m := let '(l, b) := take_pending_cow_copies (base m) in (l, with_base b m);
  gm_take_offloads := take_pending_partial_tail_offloads
|}.

#[export] Program Instance mamba_laws : GroupManagerLaws MambaManager := {|
  gm_owns m p others := owns (base m) p others /\ mamba_ok m p;
  gm_refs m := manager_refs (base m);
  gm_new m := new_request (base m);
  gm_hit := mamba_hit;
  gm_waiting := mamba_waiting;
  gm_open := mamba_open;
  gm_resumed := mamba_resumed;
  gm_removable m rid processed np := mamba_removable m rid processed;
  gm_covered := mamba_covered
|}.
Next Obligation. intros. apply manager_refs_nonneg. Qed.
Next Obligation. simpl. intros m p others i [Ho _] Hv. by apply (ow_refs _ _ _ Ho). Qed.
Next Obligation. simpl. intros m p others i [Ho _]. apply (ow_others _ _ _ Ho). Qed.
Next Obligation. simpl. intros m p others [_ Hk]. apply (mo_config _ _ Hk). Qed.
Next Obligation. simpl. intros m p others rid [Ho _]. by eapply owns_blocks_of. Qed.
Next Obligation. intros. apply blocks_refs_le. Qed.
Next Obligation.
  simpl. intros m p p' others others' [Ho Hk] Hc Hn Hr. split; [by eapply owns_frame|].
  by eapply mamba_ok_lengths.
Qed.
Next Obligation.
  unfold mamba_hit. simpl. intros m p p' l s (? & ?) Hc. split; [by eapply local_hit_config|done].
Qed.
Next Obligation.
  simpl. intros e m p others [Ho Hk]. split; [by destruct Ho|]. by destruct Hk.
Qed.
Next Obligation.
  unfold group_predict. simpl. intros. unfold mamba_get_num_blocks_to_allocate.
  destruct (match last l with Some _ => _ | None => _ end); [by eexists|].
  destruct (negb (is_align m)); [by apply predicted_total|by eexists].
Qed.
Next Obligation.
  unfold group_predict. simpl. intros m p xs others l s n Hi [Ho Hk] [Hnil Hnc] (Hhit & Hl0 & He0 & Hm & Ht & Hts & _) Hp.
  destruct (is_align m) eqn:Hal.
  - pose proof (pi_num _ _ _ Hi). destruct (Z.le_gt_cases n (num_gpu_blocks p)); [|lia].
    pose proof (proj1 (proj1 (mo_config _ _ Hk))) as Hbs. destruct Hhit as (_ & Hlen & _).
    pose proof (cdiv_mono (sl_local s) (sl_main s) _ Hbs ltac:(unfold sl_total in *; lia)).
    pose proof (mo_spec _ _ Hk).
    assert (sl_request s ∉ allocated_block_reqs m).
    { intros Hin%(mo_allocated _ _ Hk). rewrite Hnil in Hin. simpl in Hin. lia. }
    apply align_predicted in Hp; [|done..|by eapply empty_no_partial|lia|done].
    pose proof (evictable_nonneg p l). cbv zeta in Hp. repeat case_match; lia.
  - unfold mamba_get_num_blocks_to_allocate in Hp. rewrite Hal in Hp.
    pose proof (pi_num _ _ _ Hi). destruct (match last l with Some _ => _ | None => _ end).
    + injection Hp as <-. lia.
    + by apply predicted_nonneg in Hp.
Qed.
Next Obligation.
  unfold group_predict. simpl. intros m p0 xs0 p xs others l s n Hi0 Hc Hg Hi [Ho Hk] Hnew Hhit Hp Hn.
  unfold mamba_waiting. destruct (is_align m) eqn:Hal.
  - destruct (align_add_phase m p0 xs0 p xs others l s n) as (b & p' & xs' & k & -> & ? & ? & ? & ? & Hs & ? & ? & ?);
      try done.
    assert (mamba_ok (with_base b m) p') by (by eapply mamba_ok_lengths).
    exists (with_base b m), p', xs', k. rewrite (proj2 (same_speculative m (with_base b m) Hs)), Hal. by split_and!.
  - destruct Hhit as (Hhit & Hl & He & _ & _ & Ht & _). destruct (mo_config _ _ Hk) as [Hs Hw].
    pose proof (lookahead_ge m (sl_tokens s) p Hk).
    assert (get_num_blocks_to_allocate (base m) p0 (sl_request s) (mamba_slots m s) l
      (sl_local s + sl_external s) (sl_local s) false = Ok n) as Hp'.
    { unfold mamba_get_num_blocks_to_allocate in Hp. rewrite Hal in Hp.
      destruct (match last l with Some _ => _ | None => _ end); [|exact Hp].
      injection Hp as <-. pose proof (free_list_le p0 xs0 Hi0). lia. }
    destruct (add_local_phase (base m) p0 xs0 p xs others (sl_request s) l (sl_local s) (sl_external s)
      (mamba_slots m s) n) as (b & p' & xs' & k & Hadd & ? & ? & ? & ? & Hsm & Hw' & ?); try done.
    { unfold mamba_slots, sl_total in *. lia. }
    destruct (same_speculative m (with_base b m) Hsm) as [Hsp' Hal'].
    rewrite Hadd. exists (with_base b m), p', xs', k. rewrite Hal', Hal.
    rewrite (mamba_slots_same m b) by done. assert (mamba_ok (with_base b m) p') by (by eapply mamba_ok_dense).
    by split_and!.
Qed.
Next Obligation. simpl. intros m rid [_ Hn]. by rewrite Hn. Qed.
Next Obligation.
  simpl. intros m s k. unfold mamba_waiting. destruct (is_align m).
  - intros ((_ & ? & _) & _ & _ & ? & [(_ & Hk & _)|[_ Hk]]); cbv zeta in *; unfold align_short in *; lia.
  - intros (_ & _ & _ & Hk). unfold blocks_short in Hk. lia.
Qed.
Next Obligation.
  simpl. intros m s k. unfold mamba_waiting, mamba_open. destruct (is_align m).
  - intros (Hr & Hnal & Hm & Hprev & Hcase) He. split_and!; [done|done|].
    destruct Hcase as [(_ & ? & _)|[HR Hk]]; [done|]. unfold align_short. rewrite carried_fresh by done.
    destruct Hr as (_ & ? & _). rewrite HR. lia.
  - intros (_ & _ & ? & ?) _. done.
Qed.
Next Obligation.
  simpl. unfold mamba_waiting, mamba_open. intros m p xs others s k Hi [Ho Hk] Hw Hxs. destruct (is_align m) eqn:Hal.
  - destruct (align_external_phase m p xs others s k Hi Ho Hw Hxs)
      as (b & p' & xs' & -> & ? & ? & ? & Hs & ? & ? & ?).
    eexists (with_base b m), p', xs', _. rewrite (proj2 (same_speculative m (with_base b m) Hs)), Hal.
    split_and!; try done; [by eapply mamba_ok_lengths|by destruct Hw as (_ & _ & ? & _)].
  - pose proof Hw as (_ & _ & Hbs & _).
    destruct (external_phase (base m) p xs others _ _ _ _ k Hi Ho Hw Hxs)
      as (b & p' & xs' & -> & ? & ? & ? & Hs & Hle).
    eexists (with_base b m), p', xs', _. rewrite (proj2 (same_speculative m (with_base b m) Hs)), Hal.
    rewrite (mamba_slots_same m b) by done. assert (mamba_ok (with_base b m) p') by (by eapply mamba_ok_dense).
    split_and!; try done. simpl. by destruct Hs as (_ & -> & _).
Qed.
Next Obligation.
  simpl. unfold mamba_open, align_short, blocks_short. intros m s k. destruct (is_align m); intros; lia.
Qed.
Next Obligation.
  unfold group_allocate. simpl. unfold mamba_open, mamba_covered, mamba_allocate_new_blocks.
  intros m p xs others s k Hi [Ho Hk] Hop Hxs. destruct (is_align m) eqn:Hal; cbn [negb].
  - destruct Hop as (Hr & Hm & Hsh). pose proof Hr as (Hbs & Hsp & _).
    destruct (align_allocate_Ok m p xs others (sl_request s) (sl_main s) Hi Ho Hr Hm (mo_caching _ _ Hk) ltac:(lia))
      as (new & m' & p' & xs' & -> & [Hi' Hc Ho' Hs Htk Hoth Hkn Hgr Hla] & Hcov).
    destruct (same_speculative m m' Hs) as [Hsp' Hal'].
    pose proof (cdiv_pos _ _ Hbs Hm).
    exists new, m', p', xs'. split_and!; try done; [|lia|].
    + eapply mamba_ok_change; [done|done|done|..].
      * intros rid Hin. destruct (decide (rid = sl_request s)) as [->|Hne]; [lia|].
        rewrite Hoth by done. apply (mo_allocated _ _ Hk). by destruct (Hkn rid Hin).
      * intros rid i Hlk. destruct (Hla rid i Hlk) as [Hlk'|[-> ?]]; [|lia].
        pose proof (mo_last _ _ Hk rid i Hlk').
        destruct (decide (rid = sl_request s)) as [->|Hne]; [lia|by rewrite Hoth].
      * by rewrite Hal.
    + rewrite Hal', Hal, Hsp'. by destruct Hs as (_ & -> & _).
  - destruct Hop as [Hbs Hsh].
    destruct (allocate_phase (base m) p xs others (sl_request s) (mamba_slots m s) Hi Ho Hbs ltac:(lia))
      as (new & b & p' & xs' & Ha & ? & ? & ? & Hs & ? & ?).
    unfold mamba_slots in Ha. rewrite Ha. exists new, (with_base b m), p', xs'.
    rewrite (proj2 (same_speculative m (with_base b m) Hs)), Hal, (mamba_slots_same m b) by done.
    assert (mamba_ok (with_base b m) p') by (by eapply mamba_ok_dense). split_and!; try done. lia.
Qed.
Next Obligation.
  unfold group_predict. simpl. unfold mamba_resumed, mamba_open. intros m p s n Hr _ Hp.
  destruct (is_align m) eqn:Hal.
  - destruct Hr as (? & ? & ?). split_and!; [done|done|by eapply resumed_phase_align].
  - destruct Hr as (? & ?). split; [done|]. unfold mamba_get_num_blocks_to_allocate in Hp. cbn [last] in Hp.
    rewrite Hal in Hp. eapply resumed_phase; [done|exact Hp].
Qed.
Next Obligation.
  simpl. intros m p xs others rid processed _ Hi [Ho Hk] Hrm.
  destruct (mamba_remove_Ok m p xs others rid processed Hi Ho (proj1 (proj1 (mo_config _ _ Hk))) Hrm)
    as (m' & p' & xs' & ? & ? & ? & ? & Hs & Hlen & Hp & Hn & Ha & Hl).
  destruct (same_speculative m m' Hs) as [Hsp Hal].
  assert (mgr_block_size (base m') = mgr_block_size (base m)) as Hbs by (by destruct Hs as (_ & ? & _)).
  exists m', p', xs'. split_and!; try done.
  - eapply mamba_ok_lengths; try done. intros rid'. rewrite Hlen. lia.
  - intros [Hnil Hnc]. split; [|by rewrite Hn]. apply nil_length_inv. specialize (Hlen rid). rewrite Hnil in Hlen.
    simpl in Hlen. lia.
  - intros s Hid. unfold mamba_resumed, align_ready, table_resumed, carried, skipped_tokens.
    rewrite Hal, Hsp, Ha, Hp, Hn, !Hlen, Hbs. destruct Hs as (-> & _ & -> & _). exact (fun x => x).
  - intros q l s. unfold mamba_hit. rewrite Hal, Hbs. intros (Hh & ?). split; [by apply (same_manager_hit (base m))|done].
Qed.
Next Obligation.
  simpl. unfold mamba_free. intros m p xs others rid Hi [Ho Hk].
  pose proof (mamba_pop_Ok m p others rid Ho Hk) as Hpop.
  destruct (mamba_pop_blocks_for_free rid m) as [blocks m'].
  destruct Hpop as (-> & Hnil & Hoth & Ho' & Hs & Hk').
  pose proof (owns_blocks_of (base m) p others rid Ho) as Hl.
  destruct (free_list_Ok (reverse (blocks_of (base m) rid)) p xs Hi (block_list_reverse _ _ Hl))
    as (p' & xs' & -> & Hi' & Hc & Hr & _).
  { intros i Hv Hin. rewrite elem_of_reverse in Hin. by apply (owns_in_use (base m) p xs others rid i Hi Ho). }
  exists m', p', xs'. split_and!; try done; [|by eapply (mamba_ok_lengths m' m' p p')].
  eapply owns_frame; [done|done|by apply (ow_others _ _ _ Ho)|].
  intros i Hv. rewrite Hr by done. rewrite refs_in_reverse. lia.
Qed.
Next Obligation.
  intros m p others rid [Ho Hk]. pose proof (mamba_pop_Ok m p others rid Ho Hk) as Hpop. revert Hpop.
  cbn -[mamba_pop_blocks_for_free]. destruct (mamba_pop_blocks_for_free rid m) as [blocks m'].
  intros (? & ? & ? & ? & ? & ?). by split_and!.
Qed.
Next Obligation.
  simpl. intros r n ri m p xs others r' m' p' Hn Hi [Ho Hk] Hc.
  destruct (mamba_cache_inv r n ri m p xs others r' m' p' Hi Ho (proj1 (proj1 (mo_config _ _ Hk))) Hn Hc)
    as (? & ? & ? & Hs & Hb & Ha & Hl).
  split_and!; try done. eapply mamba_ok_lengths; try done. intros rid. by rewrite Hb.
Qed.
Next Obligation. simpl. done. Qed.
Next Obligation. simpl. intros m p others [? []]. by split. Qed.
Next Obligation. simpl. intros m p others [? []]. split; [by apply owns_new_ids|done]. Qed.
Next Obligation. simpl. intros ids m p others [? []]. split; [by apply owns_new_ids|done]. Qed.
Next Obligation. simpl. intros m p others [? []]. split; [by apply owns_take_cow|done]. Qed.
Next Obligation. simpl. intros m p others [? []]. by split. Qed.
End GroupInstance.

(** * Properties *)


Definition demo_mamba : MambaManager :=
  mamba_init (mkSpec 16 (MambaSpec MambaAlign 2)) true 0 16 1 false.

