(* ===== verification/Coordinator.v ===== *)
(** [KVCacheCoordinator] of src/upstream/vllm/v1/core/kv_cache_coordinator.py:
    one block pool shared by the managers of all KV-cache groups, and the
    operations that go through the groups one after the other. Its hit search is
    in HybridHit.

    The operations are written against the classes of GroupManager. The managers
    the source creates are those of [AnyManager]. *)
From S2P Require Import Prelude FreeQueue Request BlockHash BlockPool CacheHit MambaHit SingleType GroupManager AttentionGroup MambaManager.
Open Scope Z_scope.

(** * Configuration *)

(** [KVCacheGroupSpec]. The equality of specs also compares fields that only the
    workers read (head counts, data types, page sizes); [kg_layout] stands for
    them. *)
Record KVCacheGroupSpec := mkGroupSpec {
  kg_spec : KVCacheSpec;
  kg_layout : string;
  is_eagle_group : bool
}.

#[export] Instance mamba_mode_eq : EqDecision MambaCacheMode.
Proof. solve_decision. Defined.
#[export] Instance attention_kind_eq : EqDecision AttentionKind.
Proof. solve_decision. Defined.
#[export] Instance kv_cache_spec_eq : EqDecision KVCacheSpec.
Proof. solve_decision. Defined.

(** [isinstance(spec, (SlidingWindowSpec, MambaSpec))]. *)
Definition is_sparse (k : AttentionKind) : bool :=
  bool_decide (is_Some (window_of k)) || is_mamba k.

(** [_validate_prefix_cache_retention_interval]. *)
Definition validate_prefix_cache_retention_interval (retention_interval : option Z)
    (scheduler_block_size : Z) (groups : list KVCacheGroupSpec) : result () :=
  match retention_interval with
  | None => Ok tt
  | Some ri =>
      if negb (existsb (fun g => is_sparse (spec_kind (kg_spec g))) groups) then Raise ValueError else
      if ri <? 0 then Raise ValueError else
      m ← py_mod ri scheduler_block_size;
      if m =? 0 then Ok tt else Raise ValueError
  end.

(** [SpecGroup]: the groups that share a spec; its manager class is the one of the
    spec. *)
Record SpecGroup := mkSpecGroup {
  sg_spec : KVCacheSpec;
  sg_layout : string;
  sg_group_ids : list nat;
  sg_use_eagle : bool
}.

Inductive CoordinatorKind := NoPrefixCache | Unitary | Hybrid.

(** The coordinator; [attention_groups], [enable_partial_hash_hits] and
    [full_attention_group_id] are read by [Hybrid] only, [unit_block_size] by
    [Unitary] only. *)
Record Coordinator (M : Type) := mkCoordinator {
  co_kind : CoordinatorKind;
  kv_cache_groups : list KVCacheGroupSpec;
  block_pool : BlockPool;
  single_type_managers : list M;
  co_scheduler_block_size : Z;
  co_hash_block_size : Z;
  co_dcp_world_size : Z;
  co_pcp_world_size : Z;
  eagle_group_ids : list nat;
  retention_interval : option Z;
  unit_block_size : Z;
  attention_groups : list SpecGroup;
  enable_partial_hash_hits : bool;
  full_attention_group_id : option nat
}.
Arguments mkCoordinator {M}.
Arguments co_kind {M}. Arguments kv_cache_groups {M}. Arguments block_pool {M}.
Arguments single_type_managers {M}. Arguments co_scheduler_block_size {M}.
Arguments co_hash_block_size {M}. Arguments co_dcp_world_size {M}. Arguments co_pcp_world_size {M}.
Arguments eagle_group_ids {M}. Arguments retention_interval {M}. Arguments unit_block_size {M}.
Arguments attention_groups {M}. Arguments enable_partial_hash_hits {M}.
Arguments full_attention_group_id {M}.

(** The managers and the pool after an operation. *)
Definition with_managers {M} (ms : list M) (p : BlockPool) (c : Coordinator M) : Coordinator M :=
  mkCoordinator (co_kind c) (kv_cache_groups c) p ms (co_scheduler_block_size c)
    (co_hash_block_size c) (co_dcp_world_size c) (co_pcp_world_size c) (eagle_group_ids c)
    (retention_interval c) (unit_block_size c) (attention_groups c) (enable_partial_hash_hits c)
    (full_attention_group_id c).

(** Only managers and pool changed. *)
Definition same_shape {M} (c c' : Coordinator M) : Prop :=
  c' = with_managers (single_type_managers c') (block_pool c') c /\
  length (single_type_managers c') = length (single_type_managers c).

#[export] Instance same_shape_trans {M} : Transitive (@same_shape M).
Proof.
  intros c1 c2 c3 [H1 L1] [H2 L2]. split; [|congruence]. rewrite H2 at 1. rewrite H1. done.
Qed.

Lemma same_shape_managers {M} (c : Coordinator M) ms p :
  length ms = length (single_type_managers c) -> same_shape c (with_managers ms p c).
Proof. done. Qed.

(** * Creation *)

(** The members of a spec group: the first group with the same spec takes the new
    group id, or a new one is appended. *)
Fixpoint add_to_spec_group (g : KVCacheGroupSpec) (i : nat) (use_eagle : bool) (sgs : list SpecGroup)
    : list SpecGroup :=
  match sgs with
  | [] => [mkSpecGroup (kg_spec g) (kg_layout g) [i] use_eagle]
  | sg :: sgs' =>
      if bool_decide (sg_spec sg = kg_spec g) && bool_decide (sg_layout sg = kg_layout g)
      then mkSpecGroup (sg_spec sg) (sg_layout sg) (sg_group_ids sg ++ [i])
             (use_eagle || sg_use_eagle sg) :: sgs'
      else sg :: add_to_spec_group g i use_eagle sgs'
  end.

Definition is_full_group (sg : SpecGroup) : bool := is_full_attention (spec_kind (sg_spec sg)).

Fixpoint split_groups (eagle_ids : list nat) (i : nat) (groups : list KVCacheGroupSpec)
    (sgs : list SpecGroup) : list SpecGroup :=
  match groups with
  | [] => sgs
  | g :: groups' =>
      split_groups eagle_ids (S i) groups' (add_to_spec_group g i (bool_decide (i ∈ eagle_ids)) sgs)
  end.

(** [verify_and_split_kv_cache_groups]: the attention groups, full attention first
    ([list.sort] is stable), and the id of the dense reference group. *)
Definition verify_and_split_kv_cache_groups (eagle_ids : list nat) (groups : list KVCacheGroupSpec)
    : result (list SpecGroup * option nat) :=
  let sgs := split_groups eagle_ids 0 groups [] in
  _ ← assert_ (1 <? zlen sgs);
  let sgs := filter (fun sg => is_full_group sg = true) sgs ++
             filter (fun sg => is_full_group sg = false) sgs in
  first ← or_raise IndexError (head sgs);
  first_id ← or_raise IndexError (head (sg_group_ids first));
  Ok (sgs, if is_full_group first then Some first_id else None).

(** The managers of the source. *)
Definition AnyManager : Type := Manager + (MambaManager + CrossManager).

(** [get_manager_for_kv_cache_spec] and the constructor it calls. *)
Definition get_manager_for_kv_cache_spec (spec : KVCacheSpec) (max_in_flight_tokens max_model_len : Z)
    (caching : bool) (group_id dcp scheduler_block_size : Z) (needs_kv_cache_zeroing : bool)
    : AnyManager :=
  let bs := spec_block_size spec in
  let cap := match spec_kind spec with
    | SlidingWindowSpec w | SlidingWindowMLASpec w =>
        Some (sliding_max_admission_blocks bs w max_in_flight_tokens max_model_len)
    | ChunkedLocalAttentionSpec c =>
        Some (chunked_max_admission_blocks bs c max_in_flight_tokens max_model_len)
    | _ => None end in
  let init := manager_init spec caching group_id scheduler_block_size dcp needs_kv_cache_zeroing in
  match spec_kind spec with
  | MambaSpec _ _ =>
      inr (inl (mamba_init spec caching group_id scheduler_block_size dcp needs_kv_cache_zeroing))
  | CrossAttentionSpec => inr (inr (mkCross (init None)))
  | _ => inl (init cap)
  end.

Definition set_eagle_of `{GroupManager M} (e : bool) (gid : nat) (ms : list M) : list M :=
  alter (gm_set_use_eagle e) gid ms.
Definition set_eagle_group `{GroupManager M} (ms : list M) (sg : SpecGroup) : list M :=
  if sg_use_eagle sg then foldl (fun ms gid => set_eagle_of true gid ms) ms (sg_group_ids sg) else ms.

Section Creation.
Context `{PoolEnv}.

(** [KVCacheCoordinator.__init__], [get_kv_cache_coordinator] and the constructors
    of the three classes. *)
Definition coordinator_init (groups : list KVCacheGroupSpec) (num_blocks : Z)
    (needs_kv_cache_zeroing : bool) (max_model_len max_in_flight_tokens : Z)
    (use_eagle enable_caching enable_kv_cache_events : bool)
    (dcp_world_size pcp_world_size scheduler_block_size hash_block_size : Z)
    (interval : option Z) : result (Coordinator AnyManager) :=
  rest ← py_mod scheduler_block_size hash_block_size;
  rests ← map_ok (fun g => py_mod scheduler_block_size (spec_block_size (kg_spec g))) groups;
  _ ← assert_ ((rest =? 0) && forallb (fun m => m =? 0) rests);
  p ← pool_init num_blocks enable_caching hash_block_size enable_kv_cache_events;
  let flagged := fst <$> filter (fun ig => is_eagle_group (snd ig) = true) (imap pair groups) in
  let eagle_ids := if use_eagle && bool_decide (flagged = []) then seq 0 (length groups) else flagged in
  let ms := imap (fun i g => get_manager_for_kv_cache_spec (kg_spec g) max_in_flight_tokens max_model_len
      enable_caching (Z.of_nat i) dcp_world_size scheduler_block_size needs_kv_cache_zeroing) groups in
  _ ← validate_prefix_cache_retention_interval interval scheduler_block_size groups;
  let make kind ms unit_bs sgs partial full_id :=
    mkCoordinator kind groups p ms scheduler_block_size hash_block_size dcp_world_size pcp_world_size
      eagle_ids interval unit_bs sgs partial full_id in
  if negb enable_caching then Ok (make NoPrefixCache ms 0 [] false None) else
  if zlen groups =? 1 then
    g ← or_raise IndexError (head groups);
    let bs := spec_block_size (kg_spec g) in
    let bs := if 1 <? dcp_world_size then bs * dcp_world_size else bs in
    _ ← assert_ (hash_block_size =? bs);
    Ok (make Unitary (set_eagle_of (bool_decide (0%nat ∈ eagle_ids)) 0 ms) bs [] false None)
  else
    sizes ← map_ok (fun m => py_mod (gm_block_size m) hash_block_size) ms;
    _ ← assert_ (forallb (fun m => m =? 0) sizes);
    _ ← assert_ (pcp_world_size =? 1);
    _ ← assert_ (negb (1 <? dcp_world_size) || forallb (fun g =>
          is_full_attention (spec_kind (kg_spec g)) || is_mamba (spec_kind (kg_spec g))) groups);
    let partial := (dcp_world_size =? 1) && existsb (fun g =>
        match spec_kind (kg_spec g) with
        | MambaSpec MambaAlign _ => hash_block_size <? spec_block_size (kg_spec g)
        | _ => false end) groups in
    '(sgs, full_id) ← verify_and_split_kv_cache_groups eagle_ids groups;
    Ok (make Hybrid (foldl set_eagle_group ms sgs) 0 sgs partial full_id).
End Creation.

(** * Going through the managers *)

Section Loops.
Context {M : Type}.

(** [for i, manager in enumerate(self.single_type_managers)], with what each call
    returns. *)
Fixpoint over_managers {A} (f : nat -> M -> BlockPool -> result (A * M * BlockPool)) (i : nat)
    (ms : list M) (p : BlockPool) : result (list A * list M * BlockPool) :=
  match ms with
  | [] => Ok ([], [], p)
  | m :: ms' =>
      '(a, m, p) ← f i m p;
      '(rest, ms', p) ← over_managers f (S i) ms' p;
      Ok (a :: rest, m :: ms', p)
  end.

(** The same for a call that returns nothing. *)
Definition each_manager (f : nat -> M -> BlockPool -> result (M * BlockPool)) (ms : list M)
    (p : BlockPool) : result (list M * BlockPool) :=
  '(_, ms, p) ← over_managers (fun i m p => '(m, p) ← f i m p; Ok (tt, m, p)) 0 ms p;
  Ok (ms, p).

(** The same for a call that takes and changes the request. *)
Fixpoint cache_managers (f : Request -> M -> BlockPool -> result (Request * M * BlockPool))
    (r : Request) (ms : list M) (p : BlockPool) : result (Request * list M * BlockPool) :=
  match ms with
  | [] => Ok (r, [], p)
  | m :: ms' =>
      '(r, m, p) ← f r m p;
      '(r, ms', p) ← cache_managers f r ms' p;
      Ok (r, m :: ms', p)
  end.
End Loops.

(** * Operations *)

Section Operations.
Context `{GroupManager M}.
Implicit Types (c : Coordinator M) (ms : list M).

(** The sum in [get_num_blocks_to_allocate]. *)
Fixpoint sum_predictions (i : nat) ms (p : BlockPool) (request_id : string) (num_tokens : Z)
    (new_computed_blocks : list (list bref))
    (num_encoder_tokens total_computed_tokens num_local_computed_tokens num_tokens_main_model : Z)
    (apply_admission_cap : bool) (acc : Z) : result Z :=
  match ms with
  | [] => Ok acc
  | m :: ms' =>
      blocks ← (if gm_is_cross m then Ok [] else or_raise IndexError (new_computed_blocks !! i));
      n ← group_predict m p request_id num_tokens blocks num_encoder_tokens total_computed_tokens
            num_local_computed_tokens num_tokens_main_model apply_admission_cap;
      sum_predictions (S i) ms' p request_id num_tokens new_computed_blocks num_encoder_tokens
        total_computed_tokens num_local_computed_tokens num_tokens_main_model apply_admission_cap (acc + n)
  end.

(** [get_num_blocks_to_allocate]. *)
Definition co_get_num_blocks_to_allocate (request_id : string) (num_tokens : Z)
    (new_computed_blocks : list (list bref))
    (num_encoder_tokens total_computed_tokens num_local_computed_tokens num_tokens_main_model : Z)
    (apply_admission_cap : bool) c : result Z :=
  sum_predictions 0 (single_type_managers c) (block_pool c) request_id num_tokens new_computed_blocks
    num_encoder_tokens total_computed_tokens num_local_computed_tokens num_tokens_main_model
    apply_admission_cap 0.

(** The two phases of [allocate_new_computed_blocks]: every group's hits are
    touched before any group takes blocks for external tokens. *)
Definition touch_hits (request_id : string) (new_computed_blocks : list (list bref))
    (num_local_computed_tokens num_external_computed_tokens : Z) ms (p : BlockPool)
    : result (list M * BlockPool) :=
  each_manager (fun i m p =>
    blocks ← or_raise IndexError (new_computed_blocks !! i);
    gm_add_local request_id blocks num_local_computed_tokens num_external_computed_tokens m p) ms p.
Definition allocate_external (request_id : string)
    (num_local_computed_tokens num_external_computed_tokens : Z) ms (p : BlockPool)
    : result (list M * BlockPool) :=
  each_manager (fun _ m p =>
    gm_allocate_external request_id num_local_computed_tokens num_external_computed_tokens m p) ms p.

(** [allocate_new_computed_blocks]. *)
Definition allocate_new_computed_blocks (request_id : string) (new_computed_blocks : list (list bref))
    (num_local_computed_tokens num_external_computed_tokens : Z) c : result (Coordinator M) :=
  if existsb (fun m => gm_is_tracked m request_id) (single_type_managers c) then
    _ ← assert_ (forallb (fun blocks : list bref => zlen blocks =? 0) new_computed_blocks);
    Ok c
  else
    '(ms, p) ← touch_hits request_id new_computed_blocks num_local_computed_tokens
                 num_external_computed_tokens (single_type_managers c) (block_pool c);
    '(ms, p) ← (if 0 <? num_external_computed_tokens
                then allocate_external request_id num_local_computed_tokens
                       num_external_computed_tokens ms p
                else Ok (ms, p));
    Ok (with_managers ms p c).

(** [allocate_new_blocks]. *)
Definition co_allocate_new_blocks (request_id : string)
    (num_tokens num_tokens_main_model num_encoder_tokens : Z) c
    : result (list (list bref) * Coordinator M) :=
  '(new_blocks, ms, p) ← over_managers (fun _ =>
      group_allocate request_id num_tokens num_tokens_main_model num_encoder_tokens) 0
      (single_type_managers c) (block_pool c);
  Ok (new_blocks, with_managers ms p c).

(** [HybridKVCacheCoordinator.cache_blocks]: the tokens up to the last boundary a
    hit may have, and for EAGLE groups the block behind it. *)
Definition num_tokens_to_cache c (num_computed_tokens : Z) (m : M) : Z :=
  let aligned := if enable_partial_hash_hits c then num_computed_tokens
    else num_computed_tokens / co_scheduler_block_size c * co_scheduler_block_size c in
  if gm_use_eagle m && (0 <? aligned)
  then Z.min num_computed_tokens (aligned + gm_block_size m) else aligned.

(** [cache_blocks], and the override of [HybridKVCacheCoordinator]. *)
Definition co_cache_blocks (r : Request) (num_computed_tokens : Z) c
    : result (Request * Coordinator M) :=
  let tokens m := match co_kind c with
    | Hybrid => num_tokens_to_cache c num_computed_tokens m | _ => num_computed_tokens end in
  '(r, ms, p) ← cache_managers (fun r m => gm_cache r (tokens m) (retention_interval c) m) r
      (single_type_managers c) (block_pool c);
  Ok (r, with_managers ms p c).

(** [free]. *)
Definition co_free (request_id : string) c : result (Coordinator M) :=
  '(ms, p) ← each_manager (fun _ => gm_free request_id) (single_type_managers c) (block_pool c);
  Ok (with_managers ms p c).

(** [pop_blocks_for_free]. *)
Definition co_pop_blocks_for_free (request_id : string) c : list bref * Coordinator M :=
  let popped := gm_pop request_id <$> single_type_managers c in
  (concat popped.*1, with_managers popped.*2 (block_pool c) c).

(** [get_num_common_prefix_blocks]. *)
Definition co_get_num_common_prefix_blocks (running_request_id : string) c : list Z * Coordinator M :=
  match co_kind c with
  | NoPrefixCache => (replicate (length (single_type_managers c)) 0, c)
  | _ =>
      let counted := (fun m => gm_common_prefix running_request_id m (block_pool c))
        <$> single_type_managers c in
      (counted.*1, with_managers counted.*2 (block_pool c) c)
  end.

(** [remove_skipped_blocks]. *)
Definition co_remove_skipped_blocks (request_id : string) (processed_computed_tokens : Z)
    (num_prompt_tokens : option Z) c : result (Coordinator M) :=
  '(ms, p) ← each_manager (fun _ =>
      gm_remove_skipped request_id processed_computed_tokens num_prompt_tokens)
      (single_type_managers c) (block_pool c);
  Ok (with_managers ms p c).

(** [get_blocks]. *)
Definition co_get_blocks (request_id : string) c : list (list bref) :=
  (fun m => gm_blocks m request_id) <$> single_type_managers c.

(** [new_step_starts]. *)
Definition co_new_step_starts c : Coordinator M :=
  with_managers (gm_new_step <$> single_type_managers c) (block_pool c) c.
End Operations.

(** * Who owns the references *)

Section Ownership.
Context `{GroupManagerLaws M}.
Implicit Types (ms : list M) (p : BlockPool) (others : nat -> Z).

Definition total_refs ms (i : nat) : Z := foldr (fun m acc => gm_refs m i + acc) 0 ms.

(** Every reference to a block is a manager's or one of [others], and every
    manager's bookkeeping fits. *)
Record owned ms p others : Prop := {
  od_member m j : ms !! j = Some m ->
    gm_owns m p (fun i => others i + (total_refs ms i - gm_refs m i));
  od_refs i : valid_block p i -> ref_cnt (pheap p (Blk i)) = total_refs ms i + others i;
  od_others i : 0 <= others i
}.

Lemma total_refs_app ms ms' i : total_refs (ms ++ ms') i = total_refs ms i + total_refs ms' i.
Proof. induction ms as [|m ms IH]; [done|]. simpl. lia. Qed.

Lemma total_refs_nonneg ms i : 0 <= total_refs ms i.
Proof. induction ms as [|m ms IH]; [done|]. simpl. pose proof (gm_refs_nonneg m i). lia. Qed.

Lemma total_refs_middle ms ms' m i :
  total_refs (ms ++ m :: ms') i = total_refs ms i + gm_refs m i + total_refs ms' i.
Proof. rewrite total_refs_app. simpl. lia. Qed.

Lemma total_refs_member ms m j i : ms !! j = Some m -> gm_refs m i <= total_refs ms i.
Proof.
  intros Hj%list_elem_of_lookup_2. induction ms as [|x l IH]; [by apply not_elem_of_nil in Hj|]. simpl.
  pose proof (gm_refs_nonneg x i). pose proof (total_refs_nonneg l i).
  apply elem_of_cons in Hj as [->|Hj]; [lia|]. specialize (IH Hj). lia.
Qed.

Lemma owned_middle ms ms' m p others :
  owned (ms ++ m :: ms') p others ->
  gm_owns m p (fun i => others i + (total_refs (ms ++ m :: ms') i - gm_refs m i)).
Proof. intros Ho. apply (od_member _ _ _ Ho m (length ms)). by apply list_lookup_middle. Qed.

(** One manager's step, the references of the others being outside it. *)
Lemma owned_step ms ms' m m' p p' others others' :
  owned (ms ++ m :: ms') p others -> same_config p p' -> (forall i, 0 <= others' i) ->
  gm_owns m' p' (fun i => others' i + (total_refs (ms ++ m :: ms') i - gm_refs m i)) ->
  owned (ms ++ m' :: ms') p' others'.
Proof.
  intros Ho Hc Hnn Hm.
  assert (forall i, valid_block p i ->
    ref_cnt (pheap p' (Blk i)) = total_refs (ms ++ m' :: ms') i + others' i) as Hr.
  { intros i Hv. rewrite (gm_owns_refs _ _ _ i Hm) by (by apply (valid_block_config p p')).
    rewrite !total_refs_middle. lia. }
  split; [|intros i Hv; apply Hr; by apply (valid_block_config p p')|done].
  intros m1 j Hj. destruct (decide (j = length ms)) as [->|Hne].
  - rewrite list_lookup_middle in Hj by done. injection Hj as <-.
    eapply gm_owns_frame; [exact Hm|done| |].
    + intros i. rewrite total_refs_middle. specialize (Hnn i).
      pose proof (total_refs_nonneg ms i). pose proof (total_refs_nonneg ms' i). lia.
    + intros i Hv. rewrite !total_refs_middle. lia.
  - assert ((ms ++ m :: ms') !! j = Some m1) as Hj'.
    { destruct (decide (j < length ms)%nat).
      - by rewrite lookup_app_l in Hj |- * by done.
      - rewrite lookup_app_r in Hj |- * by lia.
        destruct (j - length ms)%nat eqn:E; [lia|done]. }
    eapply gm_owns_frame; [exact (od_member _ _ _ Ho _ _ Hj')|done| |].
    + intros i. specialize (Hnn i).
      pose proof (total_refs_member _ _ _ i Hj). lia.
    + intros i Hv. rewrite (Hr i Hv), (od_refs _ _ _ Ho i Hv). lia.
Qed.
End Ownership.

(** * Admitting a request *)

Section Admission.
Context `{GroupManagerLaws M}.
Implicit Types (ms : list M) (p : BlockPool) (others : nat -> Z) (s : Slots).

Definition sum_Z (ks : list Z) : Z := foldr Z.add 0 ks.

(** [B i m k] for every manager [m] at position [i] and its number [k]. *)
Fixpoint waits (B : nat -> M -> Z -> Prop) (i : nat) ms (ks : list Z) : Prop :=
  match ms, ks with
  | [], [] => True
  | m :: ms', k :: ks' => B i m k /\ waits B (S i) ms' ks'
  | _, _ => False
  end.

Lemma waits_impl (B B' : nat -> M -> Z -> Prop) i ms ks :
  (forall j m k, B j m k -> B' j m k) -> waits B i ms ks -> waits B' i ms ks.
Proof.
  intros HB. revert i ks. induction ms as [|m ms IH]; intros i [|k ks]; try done.
  intros [? ?]. split; auto.
Qed.

Lemma waits_nonneg B i ms ks :
  (forall j m k, B j m k -> 0 <= k) -> waits B i ms ks -> 0 <= sum_Z ks.
Proof.
  intros HB. revert i ks. induction ms as [|m ms IH]; intros i [|k ks]; try done.
  intros [Hk Hw]. specialize (HB _ _ _ Hk). specialize (IH _ _ Hw). simpl. lia.
Qed.

Lemma waits_Forall (B : nat -> M -> Z -> Prop) (P : M -> Prop) i ms ks :
  (forall j m k, B j m k -> P m) -> waits B i ms ks -> Forall P ms.
Proof.
  intros HB. revert i ks. induction ms as [|m ms IH]; intros i [|k ks]; try done.
  intros [? ?]. constructor; eauto.
Qed.

(** A loop in which every manager takes blocks against what it waits for: if the
    pool has what all of them wait for, no call fails, and what is then still
    waited for is there. [P] is what the loop keeps of the pool. *)
Lemma phase_Ok {A} (f : nat -> M -> BlockPool -> result (A * M * BlockPool)) (P : BlockPool -> Prop)
    (Before After : nat -> M -> Z -> Prop) others :
  (forall i m p xs o k, pool_inv p xs -> P p -> gm_owns m p o -> Before i m k -> k <= zlen xs ->
    exists a m' p' xs' k', f i m p = Ok (a, m', p') /\ pool_inv p' xs' /\ same_config p p' /\ P p' /\
      gm_owns m' p' o /\ After i m' k' /\ k' + (zlen xs - zlen xs') <= k) ->
  (forall i m k, Before i m k -> 0 <= k) -> (forall i m k, After i m k -> 0 <= k) ->
  forall ms pre i ks p xs,
  pool_inv p xs -> P p -> owned (pre ++ ms) p others -> waits Before i ms ks -> sum_Z ks <= zlen xs ->
  exists results ms' p' xs' ks', over_managers f i ms p = Ok (results, ms', p') /\
    pool_inv p' xs' /\ same_config p p' /\ P p' /\ owned (pre ++ ms') p' others /\
    waits After i ms' ks' /\ sum_Z ks' + (zlen xs - zlen xs') <= sum_Z ks /\
    length results = length ms /\ length ms' = length ms.
Proof.
  intros Hstep Hb Ha ms. induction ms as [|m ms IH]; intros pre i [|k ks] p xs Hi HP Ho Hw Hsum; try done.
  { exists [], [], p, xs, []. split_and!; try done. simpl. lia. }
  destruct Hw as [Hk Hw]. simpl in Hsum. pose proof (waits_nonneg _ _ _ _ Hb Hw).
  pose proof (Hb _ _ _ Hk).
  destruct (Hstep i m p xs _ k Hi HP (owned_middle _ _ _ _ _ Ho) Hk ltac:(lia))
    as (a & m' & p' & xs' & k' & Hf & Hi' & Hc & HP' & Ho' & Hk' & Hle).
  pose proof (Ha _ _ _ Hk').
  assert (owned ((pre ++ [m']) ++ ms) p' others) as Hown.
  { rewrite <-app_assoc. eapply owned_step; [exact Ho|done|apply (od_others _ _ _ Ho)|exact Ho']. }
  destruct (IH (pre ++ [m']) (S i) ks p' xs' Hi' HP' Hown Hw ltac:(lia))
    as (rs & ms2 & p2 & xs2 & ks2 & Hr & Hi2 & Hc2 & HP2 & Ho2 & Hw2 & Hle2 & Hl & Hl').
  exists (a :: rs), (m' :: ms2), p2, xs2, (k' :: ks2). simpl. rewrite Hf. cbn [mbind result_bind].
  rewrite Hr. cbn [mbind result_bind]. rewrite <-app_assoc in Ho2.
  split_and!; try done; [by etrans|lia|by rewrite Hl|by rewrite Hl'].
Qed.

(** The same for [each_manager]. *)
Lemma each_phase_Ok (f : nat -> M -> BlockPool -> result (M * BlockPool)) (P : BlockPool -> Prop)
    (Before After : nat -> M -> Z -> Prop) others ms ks p xs :
  (forall i m p xs o k, pool_inv p xs -> P p -> gm_owns m p o -> Before i m k -> k <= zlen xs ->
    exists m' p' xs' k', f i m p = Ok (m', p') /\ pool_inv p' xs' /\ same_config p p' /\ P p' /\
      gm_owns m' p' o /\ After i m' k' /\ k' + (zlen xs - zlen xs') <= k) ->
  (forall i m k, Before i m k -> 0 <= k) -> (forall i m k, After i m k -> 0 <= k) ->
  pool_inv p xs -> P p -> owned ms p others -> waits Before 0 ms ks -> sum_Z ks <= zlen xs ->
  exists ms' p' xs' ks', each_manager f ms p = Ok (ms', p') /\
    pool_inv p' xs' /\ same_config p p' /\ P p' /\ owned ms' p' others /\
    waits After 0 ms' ks' /\ sum_Z ks' + (zlen xs - zlen xs') <= sum_Z ks /\ length ms' = length ms.
Proof.
  intros Hstep Hb Ha Hi HP Ho Hw Hsum. unfold each_manager.
  destruct (phase_Ok (fun i m p => '(m, p) ← f i m p; Ok (tt, m, p)) P Before After others)
    with (ms := ms) (pre := @nil M) (i := 0%nat) (ks := ks) (p := p) (xs := xs)
    as (rs & ms' & p' & xs' & ks' & -> & ? & ? & ? & ? & ? & ? & _ & ?); try done.
  { intros i m q ys o k Hi1 HP1 Ho1 Hk1 Hle1.
    destruct (Hstep i m q ys o k Hi1 HP1 Ho1 Hk1 Hle1) as (m' & p' & xs' & k' & -> & Hrest).
    by exists tt, m', p', xs', k'. }
  by exists ms', p', xs', ks'.
Qed.

(** A request that is new to every manager, with a hit in every group. *)
Definition admissible ms p s (hits : list (list bref)) : Prop :=
  forall j m, ms !! j = Some m -> exists l, hits !! j = Some l /\
    gm_new m (sl_request s) /\ gm_hit m p l s.

Definition predicted p s (hits : list (list bref)) (n : Z) (i : nat) (m : M) (k : Z) : Prop :=
  exists l, hits !! i = Some l /\ gm_new m (sl_request s) /\ gm_hit m p l s /\ 0 <= k <= n /\
    group_predict m p (sl_request s) (sl_tokens s) l (sl_encoder s) (sl_total s) (sl_local s)
      (sl_main s) false = Ok k.

Lemma predicted_weaken p s hits n n' i m k :
  n <= n' -> predicted p s hits n i m k -> predicted p s hits n' i m k.
Proof. intros Hn (l & ? & ? & ? & ? & ?). exists l. split_and!; try done; lia. Qed.

(** [sum_predictions] of such a request. *)
Lemma sum_predictions_new ms p s hits i acc n xs others pre :
  pool_inv p xs -> owned (pre ++ ms) p others ->
  (forall j m, ms !! j = Some m -> exists l, hits !! (i + j)%nat = Some l /\
    gm_new m (sl_request s) /\ gm_hit m p l s) ->
  sum_predictions i ms p (sl_request s) (sl_tokens s) hits (sl_encoder s) (sl_total s) (sl_local s)
    (sl_main s) false acc = Ok n ->
  exists ks, waits (predicted p s hits (n - acc)) i ms ks /\ acc + sum_Z ks = n.
Proof.
  intros Hi. revert pre i acc. induction ms as [|m ms IH]; intros pre i acc Ho Had Hs; simpl in Hs.
  { injection Hs as <-. exists []. split; [done|simpl; lia]. }
  destruct (Had 0%nat m eq_refl) as (l & Hl & Hnew & Hhit). rewrite Nat.add_0_r in Hl.
  apply bind_Ok_inv in Hs as (blocks & Hb & Hs). apply bind_Ok_inv in Hs as (k & Hk & Hs).
  assert (group_predict m p (sl_request s) (sl_tokens s) l (sl_encoder s) (sl_total s) (sl_local s)
    (sl_main s) false = Ok k) as Hk'.
  { rewrite <-Hk. unfold group_predict. destruct (gm_is_cross m); [done|].
    rewrite Hl in Hb. by injection Hb as <-. }
  pose proof (gm_predict_nonneg m p xs _ l s k Hi (owned_middle _ _ _ _ _ Ho) Hnew Hhit Hk') as Hk0.
  destruct (IH (pre ++ [m]) (S i) (acc + k)) as (ks & Hw & Hsum); [by rewrite <-app_assoc| |exact Hs|].
  { intros j m' Hj. destruct (Had (S j) m' Hj) as (l' & ? & ?). exists l'.
    by rewrite Nat.add_succ_r in *. }
  assert (0 <= sum_Z ks) as Hnn.
  { eapply waits_nonneg; [|exact Hw]. by intros ? ? ? (? & _ & _ & _ & [? _] & _). }
  exists (k :: ks). split; [|simpl; lia]. split.
  - exists l. split_and!; try done; lia.
  - eapply waits_impl; [|exact Hw]. intros j m' k'. apply predicted_weaken. lia.
Qed.

(** Touching the hits of all groups. *)
Lemma touch_hits_Ok ms p xs others s hits n ks :
  pool_inv p xs -> owned ms p others -> waits (predicted p s hits n) 0 ms ks -> n <= zlen xs ->
  sum_Z ks <= zlen xs ->
  exists ms' p' xs' ks', touch_hits (sl_request s) hits (sl_local s) (sl_external s) ms p = Ok (ms', p') /\
    pool_inv p' xs' /\ same_config p p' /\ owned ms' p' others /\
    waits (fun _ m => gm_waiting m s) 0 ms' ks' /\ sum_Z ks' + (zlen xs - zlen xs') <= sum_Z ks /\
    length ms' = length ms.
Proof.
  intros Hi Ho Hw Hn Hsum. unfold touch_hits.
  destruct (each_phase_Ok (fun i m p => blocks ← or_raise IndexError (hits !! i);
      gm_add_local (sl_request s) blocks (sl_local s) (sl_external s) m p)
    (fun q => same_config p q /\ refs_grow p q) (predicted p s hits n) (fun _ m => gm_waiting m s)
    others ms ks p xs) as (ms' & p' & xs' & ks' & ? & ? & ? & ? & ? & ? & ? & ?); try done.
  - intros i m q ys o k Hiq [Hcq Hgq] Hoq (l & Hl & Hnew & Hhit & Hk & Hp) Hle. rewrite Hl. simpl.
    destruct (gm_add_local_ok m p xs q ys o l s k) as (m' & p' & xs' & k' & ? & ? & ? & ? & ? & ? & ?);
      try done; [by eapply gm_hit_config|lia|].
    exists m', p', xs', k'. split_and!; try done; by etrans.
  - by intros i m k (? & _ & _ & _ & [? _] & _).
  - intros i m k. apply gm_waiting_nonneg.
  - by exists ms', p', xs', ks'.
Qed.

(** The blocks for the external tokens, if there are any. *)
Lemma external_Ok ms p xs others s ks :
  pool_inv p xs -> owned ms p others -> waits (fun _ m => gm_waiting m s) 0 ms ks ->
  0 <= sl_external s -> sum_Z ks <= zlen xs ->
  exists ms' p' xs' ks',
    (if 0 <? sl_external s then allocate_external (sl_request s) (sl_local s) (sl_external s) ms p
     else Ok (ms, p)) = Ok (ms', p') /\
    pool_inv p' xs' /\ same_config p p' /\ owned ms' p' others /\
    waits (fun _ m => gm_open m s) 0 ms' ks' /\ sum_Z ks' + (zlen xs - zlen xs') <= sum_Z ks /\
    length ms' = length ms.
Proof.
  intros Hi Ho Hw He Hsum. destruct (Z.ltb_spec 0 (sl_external s)).
  - destruct (each_phase_Ok (fun _ m p => gm_allocate_external (sl_request s) (sl_local s) (sl_external s) m p)
      (fun _ => True) (fun _ m => gm_waiting m s) (fun _ m => gm_open m s) others ms ks p xs)
      as (ms' & p' & xs' & ks' & ? & ? & ? & _ & ? & ? & ? & ?); try done.
    + intros i m q ys o k Hiq _ Hoq Hk Hle.
      destruct (gm_allocate_external_ok m q ys o s k) as (m' & p' & xs' & k' & ? & ? & ? & ? & ? & ?);
        try done. by exists m', p', xs', k'.
    + intros i m k. apply gm_waiting_nonneg.
    + intros i m k. apply gm_open_nonneg.
    + by exists ms', p', xs', ks'.
  - exists ms, p, xs, ks. split_and!; try done; [|lia]. eapply waits_impl; [|exact Hw].
    intros i m k Hk. apply gm_waiting_open; [done|lia].
Qed.

(** The new blocks of all groups. *)
Lemma new_blocks_Ok (c : Coordinator M) xs others s ks :
  pool_inv (block_pool c) xs -> owned (single_type_managers c) (block_pool c) others ->
  waits (fun _ m => gm_open m s) 0 (single_type_managers c) ks -> sum_Z ks <= zlen xs ->
  exists new c' xs',
    co_allocate_new_blocks (sl_request s) (sl_tokens s) (sl_main s) (sl_encoder s) c = Ok (new, c') /\
    pool_inv (block_pool c') xs' /\ same_config (block_pool c) (block_pool c') /\
    owned (single_type_managers c') (block_pool c') others /\
    zlen xs - zlen xs' <= sum_Z ks /\
    Forall (fun m => gm_covered m s) (single_type_managers c') /\
    length new = length (single_type_managers c) /\ same_shape c c'.
Proof.
  intros Hi Ho Hw Hsum. unfold co_allocate_new_blocks.
  destruct (phase_Ok (fun _ => group_allocate (sl_request s) (sl_tokens s) (sl_main s) (sl_encoder s))
    (fun _ => True) (fun _ m => gm_open m s) (fun _ m k => k = 0 /\ gm_covered m s) others)
    with (ms := single_type_managers c) (pre := @nil M) (i := 0%nat) (ks := ks) (p := block_pool c) (xs := xs)
    as (new & ms' & p' & xs' & ks' & -> & ? & ? & _ & ? & Hw' & ? & ? & ?); try done.
  - intros i m q ys o k Hiq _ Hoq Hk Hle.
    destruct (gm_allocate_new_ok m q ys o s k) as (a & m' & p' & xs' & ? & ? & ? & ? & ? & ?); try done.
    exists a, m', p', xs', 0. split_and!; try done.
  - intros i m k. apply gm_open_nonneg.
  - by intros i m k [-> _].
  - assert (0 <= sum_Z ks') by (eapply waits_nonneg; [|exact Hw']; by intros i m k [-> _]).
    exists new, (with_managers ms' p' c), xs'. simpl. split_and!; try done; [lia|].
    eapply waits_Forall; [|exact Hw']. by intros i m k [_ ?].
Qed.

Lemma sum_predictions_total ms p rid tokens hits enc total local main cap i acc :
  (forall j m, ms !! j = Some m -> exists l, hits !! (i + j)%nat = Some l /\ (l = [] \/ gm_new m rid)) ->
  exists n, sum_predictions i ms p rid tokens hits enc total local main cap acc = Ok n.
Proof.
  revert i acc. induction ms as [|m ms IH]; intros i acc Hh; [by eexists|]. simpl.
  destruct (Hh 0%nat m eq_refl) as (l & Hl & Hcase). rewrite Nat.add_0_r in Hl.
  assert (exists blocks, (if gm_is_cross m then Ok [] else or_raise IndexError (hits !! i)) = Ok blocks /\
    (blocks = [] \/ gm_new m rid)) as (blocks & -> & Hb).
  { destruct (gm_is_cross m); [exists []; split; [done|by left]|]. rewrite Hl. by exists l. }
  cbn [mbind result_bind].
  destruct (gm_predict_total m p rid tokens blocks enc total local main cap Hb) as [n ->].
  cbn [mbind result_bind]. apply IH. intros j m' Hj. destruct (Hh (S j) m' Hj) as (l' & ? & ?).
  exists l'. by rewrite Nat.add_succ_r in *.
Qed.

(** The whole admission of a new request. *)
Lemma admission_Ok (c : Coordinator M) xs others s hits n :
  pool_inv (block_pool c) xs -> owned (single_type_managers c) (block_pool c) others ->
  admissible (single_type_managers c) (block_pool c) s hits -> 0 <= sl_external s ->
  co_get_num_blocks_to_allocate (sl_request s) (sl_tokens s) hits (sl_encoder s) (sl_total s)
    (sl_local s) (sl_main s) false c = Ok n -> n <= zlen xs ->
  exists c1 new c2 xs',
    allocate_new_computed_blocks (sl_request s) hits (sl_local s) (sl_external s) c = Ok c1 /\
    co_allocate_new_blocks (sl_request s) (sl_tokens s) (sl_main s) (sl_encoder s) c1 = Ok (new, c2) /\
    pool_inv (block_pool c2) xs' /\ same_config (block_pool c) (block_pool c2) /\
    owned (single_type_managers c2) (block_pool c2) others /\
    zlen xs - zlen xs' <= n /\ Forall (fun m => gm_covered m s) (single_type_managers c2) /\
    length new = length (single_type_managers c) /\ same_shape c c2.
Proof.
  intros Hi Ho Had He Hp Hn. unfold co_get_num_blocks_to_allocate in Hp.
  destruct (sum_predictions_new _ _ s hits 0 0 n xs others [] Hi Ho Had Hp) as (ks & Hw & Hsum).
  unfold allocate_new_computed_blocks.
  assert (existsb (fun m => gm_is_tracked m (sl_request s)) (single_type_managers c) = false) as ->.
  { apply not_true_iff_false. rewrite existsb_exists. intros (m & Hin & Ht).
    apply list_elem_of_In, list_elem_of_lookup_1 in Hin as [j Hj].
    destruct (Had j m Hj) as (l & _ & Hnew & _). by rewrite gm_new_untracked in Ht. }
  destruct (touch_hits_Ok _ _ xs others s hits (n - 0) ks Hi Ho Hw) as
    (ms1 & p1 & xs1 & ks1 & -> & Hi1 & Hc1 & Ho1 & Hw1 & Hs1 & Hl1); [lia|lia|].
  cbn [mbind result_bind].
  destruct (external_Ok ms1 p1 xs1 others s ks1 Hi1 Ho1 Hw1 He ltac:(lia))
    as (ms2 & p2 & xs2 & ks2 & -> & Hi2 & Hc2 & Ho2 & Hw2 & Hs2 & Hl2).
  cbn [mbind result_bind].
  destruct (new_blocks_Ok (with_managers ms2 p2 c) xs2 others s ks2 Hi2 Ho2 Hw2 ltac:(lia))
    as (new & c2 & xs3 & Hal & Hi3 & Hc3 & Ho3 & Hs3 & Hcov & Hl & Hsh).
  exists (with_managers ms2 p2 c), new, c2, xs3. split_and!; try done.
  - etrans; [exact Hc1|]. etrans; [exact Hc2|done].
  - lia.
  - rewrite Hl. simpl. congruence.
  - etrans; [|exact Hsh]. apply same_shape_managers. congruence.
Qed.

(** A request that has its blocks in every manager. *)
Lemma sum_predictions_resumed ms p s hits i acc n :
  sl_external s = 0 -> Forall (fun m => gm_resumed m s) ms ->
  (forall j l, hits !! j = Some l -> l = []) ->
  sum_predictions i ms p (sl_request s) (sl_tokens s) hits (sl_encoder s) (sl_total s) (sl_local s)
    (sl_main s) false acc = Ok n ->
  exists ks, waits (fun _ m => gm_open m s) i ms ks /\ acc + sum_Z ks = n.
Proof.
  intros He Hres Hnil. revert i acc. induction Hres as [|m ms Hm _ IH]; intros i acc Hs; simpl in Hs.
  { injection Hs as <-. exists []. split; [done|simpl; lia]. }
  apply bind_Ok_inv in Hs as (blocks & Hb & Hs). apply bind_Ok_inv in Hs as (k & Hk & Hs).
  assert (blocks = []) as ->.
  { destruct (gm_is_cross m); [by injection Hb as <-|]. apply or_raise_Ok_inv in Hb. eauto. }
  destruct (IH _ _ Hs) as (ks & Hw & Hsum). exists (k :: ks). split; [|simpl; lia]. split; [|done].
  by apply (gm_resumed_open m p s k).
Qed.

Lemma resumed_Ok (c : Coordinator M) xs others s hits n :
  pool_inv (block_pool c) xs -> owned (single_type_managers c) (block_pool c) others ->
  sl_external s = 0 -> Forall (fun m => gm_resumed m s) (single_type_managers c) ->
  (forall j l, hits !! j = Some l -> l = []) ->
  co_get_num_blocks_to_allocate (sl_request s) (sl_tokens s) hits (sl_encoder s) (sl_total s)
    (sl_local s) (sl_main s) false c = Ok n -> n <= zlen xs ->
  exists new c' xs',
    co_allocate_new_blocks (sl_request s) (sl_tokens s) (sl_main s) (sl_encoder s) c = Ok (new, c') /\
    pool_inv (block_pool c') xs' /\ same_config (block_pool c) (block_pool c') /\
    owned (single_type_managers c') (block_pool c') others /\
    zlen xs - zlen xs' <= n /\ Forall (fun m => gm_covered m s) (single_type_managers c') /\
    length new = length (single_type_managers c) /\ same_shape c c'.
Proof.
  intros Hi Ho He Hres Hnil Hp Hn. unfold co_get_num_blocks_to_allocate in Hp.
  destruct (sum_predictions_resumed _ _ s hits 0 0 n He Hres Hnil Hp) as (ks & Hw & Hsum).
  destruct (new_blocks_Ok c xs others s ks Hi Ho Hw ltac:(lia)) as (new & c' & xs' & ? & ? & ? & ? & ? & ? & ? & ?).
  exists new, c', xs'. assert (zlen xs - zlen xs' <= n) by lia. by split_and!.
Qed.
End Admission.

(** * The other operations *)

Section Rest.
Context `{GroupManagerLaws M}.
Implicit Types (ms : list M) (p : BlockPool) (others : nat -> Z).

(** A loop of calls that cannot fail; [R] relates a manager to its successor. *)
Lemma each_owned_from (f : nat -> M -> BlockPool -> result (M * BlockPool)) (Pre : M -> Prop)
    (R : M -> M -> Prop) others :
  (forall i m p xs o, pool_inv p xs -> gm_owns m p o -> Pre m ->
    exists m' p' xs', f i m p = Ok (m', p') /\ pool_inv p' xs' /\ same_config p p' /\
      gm_owns m' p' o /\ R m m') ->
  forall ms pre i p xs,
  pool_inv p xs -> owned (pre ++ ms) p others -> Forall Pre ms ->
  exists us ms' p' xs',
    over_managers (fun i m p => '(m, p) ← f i m p; Ok (tt, m, p)) i ms p = Ok (us, ms', p') /\
    pool_inv p' xs' /\ same_config p p' /\ owned (pre ++ ms') p' others /\ Forall2 R ms ms'.
Proof.
  intros Hstep ms. induction ms as [|m ms IH]; intros pre i p xs Hi Ho HP.
  { by exists [], [], p, xs. }
  apply Forall_cons in HP as [Hm HP].
  destruct (Hstep i m p xs _ Hi (owned_middle _ _ _ _ _ Ho) Hm) as (m' & p' & xs' & Hf & Hi' & Hc & Ho' & HR).
  destruct (IH (pre ++ [m']) (S i) p' xs' Hi') as (us & ms2 & p2 & xs2 & Hr & Hi2 & Hc2 & Ho2 & HR2); [|done|].
  { rewrite <-app_assoc. eapply owned_step; [exact Ho|done|apply (od_others _ _ _ Ho)|exact Ho']. }
  exists (tt :: us), (m' :: ms2), p2, xs2. simpl. rewrite Hf. cbn [mbind result_bind]. rewrite Hr.
  cbn [mbind result_bind]. rewrite <-app_assoc in Ho2.
  split_and!; try done; [by etrans|by constructor].
Qed.

Lemma each_owned (f : nat -> M -> BlockPool -> result (M * BlockPool)) (Pre : M -> Prop)
    (R : M -> M -> Prop) others ms p xs :
  (forall i m p xs o, pool_inv p xs -> gm_owns m p o -> Pre m ->
    exists m' p' xs', f i m p = Ok (m', p') /\ pool_inv p' xs' /\ same_config p p' /\
      gm_owns m' p' o /\ R m m') ->
  pool_inv p xs -> owned ms p others -> Forall Pre ms ->
  exists ms' p' xs', each_manager f ms p = Ok (ms', p') /\
    pool_inv p' xs' /\ same_config p p' /\ owned ms' p' others /\ Forall2 R ms ms'.
Proof.
  intros Hstep Hi Ho HP. unfold each_manager.
  destruct (each_owned_from f Pre R others Hstep ms [] 0 p xs Hi Ho HP)
    as (us & ms' & p' & xs' & -> & ?). by exists ms', p', xs'.
Qed.

(** Steps that do not touch the pool; [t m] is what a manager hands out. *)
Lemma owned_map (g : M -> M) (t : M -> nat -> Z) ms p others :
  (forall m o, gm_owns m p o -> gm_owns (g m) p (fun i => o i + t m i)) ->
  (forall m i, 0 <= t m i) -> owned ms p others ->
  owned (g <$> ms) p (fun i => others i + foldr (fun m acc => t m i + acc) 0 ms).
Proof.
  intros Hg Ht. change (g <$> ms) with ([] ++ (g <$> ms)). change (owned ms) with (owned ([] ++ ms)).
  generalize (@nil M) as pre. revert others. induction ms as [|m ms IH]; intros others pre Ho.
  { rewrite app_nil_r in *. destruct Ho as [Hm Hr Hn]. split.
    - intros m j Hj. eapply gm_owns_frame; [exact (Hm _ _ Hj)|done| |].
      + intros i. pose proof (gm_owns_others _ _ _ i (Hm _ _ Hj)). simpl in *. lia.
      + intros i Hv. simpl. lia.
    - intros i Hv. rewrite Hr by done. simpl. lia.
    - intros i. specialize (Hn i). simpl. lia. }
  rewrite fmap_cons. assert (owned ((pre ++ [g m]) ++ ms) p (fun i => others i + t m i)) as Ho1.
  { rewrite <-app_assoc. eapply owned_step; [exact Ho|done| |].
    - intros i. pose proof (od_others _ _ _ Ho i). specialize (Ht m i). lia.
    - eapply gm_owns_frame; [apply Hg; by apply owned_middle|done| |].
      + intros i. simpl. pose proof (od_others _ _ _ Ho i). specialize (Ht m i).
        rewrite total_refs_middle. pose proof (total_refs_nonneg pre i).
        pose proof (total_refs_nonneg ms i). lia.
      + intros i Hv. simpl. lia. }
  apply IH in Ho1. rewrite <-app_assoc in Ho1. simpl in Ho1. destruct Ho1 as [Hm Hr Hn]. split.
  - intros m' j Hj. eapply gm_owns_frame; [exact (Hm _ _ Hj)|done| |].
    + intros i. pose proof (gm_owns_others _ _ _ i (Hm _ _ Hj)). simpl in *. lia.
    + intros i Hv. simpl. lia.
  - intros i Hv. rewrite Hr by done. simpl. lia.
  - intros i. specialize (Hn i). simpl in *. lia.
Qed.

Lemma owned_others ms p others others' :
  (forall i, others' i = others i) -> owned ms p others -> owned ms p others'.
Proof.
  intros He [Hm Hr Hn]. split.
  - intros m j Hj. eapply gm_owns_frame; [exact (Hm _ _ Hj)|done| |].
    + intros i. rewrite He. apply (gm_owns_others _ _ _ i (Hm _ _ Hj)).
    + intros i Hv. rewrite He. lia.
  - intros i Hv. rewrite Hr, He by done. lia.
  - intros i. by rewrite He.
Qed.

(** Someone else changed references of his own. *)
Lemma owned_frame ms p p' others others' :
  owned ms p others -> same_config p p' -> (forall i, 0 <= others' i) ->
  (forall i, valid_block p i ->
    ref_cnt (pheap p' (Blk i)) - others' i = ref_cnt (pheap p (Blk i)) - others i) ->
  owned ms p' others'.
Proof.
  intros [Hm Hr Hn] Hc Hn' Hd. split; [| |done].
  - intros m j Hj. eapply gm_owns_frame; [exact (Hm _ _ Hj)|done| |].
    + intros i. pose proof (gm_owns_others _ _ _ i (Hm _ _ Hj)). specialize (Hn i). specialize (Hn' i).
      pose proof (total_refs_member ms m j i Hj). simpl. lia.
    + intros i Hv. specialize (Hd i Hv). simpl. lia.
  - intros i Hv%(valid_block_config p p'); [|done]. specialize (Hd i Hv). rewrite Hr in Hd by done. lia.
Qed.

(** The same when nothing is handed out. *)
Lemma owned_map_same (g : M -> M) ms p others :
  (forall m o, gm_owns m p o -> gm_owns (g m) p o) -> owned ms p others -> owned (g <$> ms) p others.
Proof.
  intros Hg Ho. eapply owned_others; [|apply (owned_map g (fun _ _ => 0) ms p others); [|done|exact Ho]].
  - intros i. simpl. assert (foldr (fun (_ : M) acc => 0 + acc) 0 ms = 0) as ->; [|lia].
    clear. by induction ms.
  - intros m o Hm. eapply gm_owns_frame; [apply Hg; exact Hm|done| |].
    + intros i. pose proof (gm_owns_others _ _ _ i Hm). lia.
    + intros i Hv. lia.
Qed.

(** [remove_skipped_blocks]. *)
Lemma co_remove_skipped_Ok (c : Coordinator M) xs others rid processed np :
  pool_inv (block_pool c) xs -> owned (single_type_managers c) (block_pool c) others ->
  Forall (fun m => gm_removable m rid processed np) (single_type_managers c) ->
  exists ms' p' xs', co_remove_skipped_blocks rid processed np c = Ok (with_managers ms' p' c) /\
    pool_inv p' xs' /\ same_config (block_pool c) p' /\ owned ms' p' others /\
    Forall2 (fun m m' => (gm_new m rid -> gm_new m' rid) /\
      (forall s, sl_request s = rid -> gm_resumed m s -> gm_resumed m' s) /\
      (forall q l s, gm_hit m q l s -> gm_hit m' q l s)) (single_type_managers c) ms'.
Proof.
  intros Hi Ho HP. unfold co_remove_skipped_blocks.
  destruct (each_owned (fun _ => gm_remove_skipped rid processed np)
    (fun m => gm_removable m rid processed np)
    (fun m m' => (gm_new m rid -> gm_new m' rid) /\
      (forall s, sl_request s = rid -> gm_resumed m s -> gm_resumed m' s) /\
      (forall q l s, gm_hit m q l s -> gm_hit m' q l s)) others (single_type_managers c) (block_pool c) xs)
    as (ms' & p' & xs' & -> & ? & ? & ? & ?); try done.
  - intros i m p ys o Hip Hop Hrm. by apply (gm_remove_skipped_ok m p ys o rid processed np).
  - by exists ms', p', xs'.
Qed.

(** [free]. *)
Lemma co_free_Ok (c : Coordinator M) xs others rid :
  pool_inv (block_pool c) xs -> owned (single_type_managers c) (block_pool c) others ->
  exists ms' p' xs', co_free rid c = Ok (with_managers ms' p' c) /\
    pool_inv p' xs' /\ same_config (block_pool c) p' /\ owned ms' p' others /\
    Forall2 (fun m m' => gm_blocks m' rid = [] /\
      forall rid', rid' <> rid -> gm_blocks m' rid' = gm_blocks m rid') (single_type_managers c) ms'.
Proof.
  intros Hi Ho. unfold co_free.
  destruct (each_owned (fun _ => gm_free rid) (fun _ => True)
    (fun m m' => gm_blocks m' rid = [] /\ forall rid', rid' <> rid -> gm_blocks m' rid' = gm_blocks m rid')
    others (single_type_managers c) (block_pool c) xs)
    as (ms' & p' & xs' & -> & ? & ? & ? & ?); try done.
  - intros i m p ys o Hip Hop _. by apply (gm_free_ok m p ys o rid).
  - by apply Forall_true.
  - by exists ms', p', xs'.
Qed.

(** [pop_blocks_for_free]: the references move to the caller with the blocks. *)
Lemma co_pop_Ok (c : Coordinator M) others rid :
  owned (single_type_managers c) (block_pool c) others ->
  let '(blocks, c') := co_pop_blocks_for_free rid c in
  blocks = concat (co_get_blocks rid c) /\ block_pool c' = block_pool c /\
  owned (single_type_managers c') (block_pool c') (fun i => others i + refs_in i blocks) /\
  Forall2 (fun m m' => gm_blocks m' rid = [] /\
    forall rid', rid' <> rid -> gm_blocks m' rid' = gm_blocks m rid')
    (single_type_managers c) (single_type_managers c').
Proof.
  intros Ho. unfold co_pop_blocks_for_free, co_get_blocks. simpl.
  set (ms := single_type_managers c) in *. set (p := block_pool c) in *.
  assert (forall m, m ∈ ms -> exists o, gm_owns m p o) as Hex.
  { intros m [j Hj]%list_elem_of_lookup_1. eexists. exact (od_member _ _ _ Ho m j Hj). }
  assert ((gm_pop rid <$> ms).*1 = (fun m => gm_blocks m rid) <$> ms) as Hbl.
  { rewrite <-list_fmap_compose. apply list_fmap_ext. intros j m Hj. unfold compose.
    destruct (Hex m ltac:(by eapply list_elem_of_lookup_2)) as [o Hm].
    pose proof (gm_pop_ok m p o rid Hm) as Hp. destruct (gm_pop rid m). by destruct Hp as (-> & _). }
  rewrite Hbl. split_and!; [done|done| |].
  - rewrite <-list_fmap_compose. eapply owned_others;
      [|apply (owned_map (snd ∘ gm_pop rid) (fun m i => refs_in i (gm_blocks m rid)))].
    + intros i. cbn beta. f_equal. generalize ms. intros l. induction l as [|m l IH]; [done|].
      rewrite fmap_cons. simpl concat. rewrite refs_in_app, IH. done.
    + intros m o Hm. pose proof (gm_pop_ok m p o rid Hm) as Hp. unfold compose.
      destruct (gm_pop rid m) as [blocks m']. by destruct Hp as (-> & _ & _ & ?).
    + intros m i. apply refs_in_nonneg.
    + done.
  - clear Ho Hbl. induction ms as [|m ms IH]; [by constructor|]. rewrite !fmap_cons. constructor.
    + destruct (Hex m ltac:(by left)) as [o Hm].
      pose proof (gm_pop_ok m p o rid Hm) as Hp. destruct (gm_pop rid m). by destruct Hp as (_ & ? & ? & _).
    + apply IH. intros m' Hm'. apply Hex. by right.
Qed.

(** [cache_blocks], when it returns. *)
Lemma cache_managers_inv (f : M -> Z) ri others ms pre r p xs r' ms' p' :
  (forall m, m ∈ ms -> 0 <= f m) -> pool_inv p xs -> owned (pre ++ ms) p others ->
  cache_managers (fun r m => gm_cache r (f m) ri m) r ms p = Ok (r', ms', p') ->
  pool_inv p' xs /\ same_config p p' /\ owned (pre ++ ms') p' others /\ length ms' = length ms.
Proof.
  revert pre r p ms'. induction ms as [|m ms IH]; intros pre r p ms' Hf Hi Ho Hc; simpl in Hc.
  { by injection Hc as <- <- <-. }
  apply bind_Ok_inv in Hc as ([[r1 m1] p1] & H1 & Hc). apply bind_Ok_inv in Hc as ([[r2 ms2] p2] & H2 & Hc).
  injection Hc as <- <- <-.
  destruct (gm_cache_inv _ _ _ _ _ _ _ _ _ _ (Hf m ltac:(by left)) Hi (owned_middle _ _ _ _ _ Ho) H1)
    as (Hi1 & Hc1 & Ho1).
  destruct (IH (pre ++ [m1]) r1 p1 ms2) as (? & ? & Ho2 & Hl2); [| done| |exact H2|].
  - intros m' Hm'. apply Hf. by right.
  - rewrite <-app_assoc. eapply owned_step; [exact Ho|done|apply (od_others _ _ _ Ho)|exact Ho1].
  - rewrite <-app_assoc in Ho2. split_and!; [done|by etrans|done|simpl; congruence].
Qed.

Lemma co_cache_inv (c : Coordinator M) others r n xs r' c' :
  0 <= n -> 0 < co_scheduler_block_size c ->
  pool_inv (block_pool c) xs -> owned (single_type_managers c) (block_pool c) others ->
  co_cache_blocks r n c = Ok (r', c') ->
  pool_inv (block_pool c') xs /\ same_config (block_pool c) (block_pool c') /\
  owned (single_type_managers c') (block_pool c') others /\ same_shape c c'.
Proof.
  intros Hn Hs Hi Ho Hc. unfold co_cache_blocks in Hc.
  apply bind_Ok_inv in Hc as ([[r1 ms] p] & Hc & [= <- <-]).
  eapply (cache_managers_inv _ _ others _ []) in Hc; [|  |done|done].
  { destruct Hc as (? & ? & ? & ?). by split_and!. }
  intros m Hm. destruct (co_kind c); [done|done|]. unfold num_tokens_to_cache.
  apply list_elem_of_lookup_1 in Hm as [j Hj].
  pose proof (gm_owns_size _ _ _ (od_member _ _ _ Ho _ _ Hj)) as Hb.
  assert (0 <= n / co_scheduler_block_size c) by (by apply Z.div_pos).
  destruct (enable_partial_hash_hits c); destruct (gm_use_eagle m && _); nia.
Qed.

(** [new_step_starts] and [get_num_common_prefix_blocks]. *)
Lemma co_new_step_Ok (c : Coordinator M) others :
  owned (single_type_managers c) (block_pool c) others ->
  owned (single_type_managers (co_new_step_starts c)) (block_pool c) others.
Proof. intros Ho. simpl. apply owned_map_same; [|done]. intros m o. apply gm_new_step_ok. Qed.

Lemma co_common_prefix_Ok (c : Coordinator M) others rid :
  owned (single_type_managers c) (block_pool c) others ->
  let '(counts, c') := co_get_num_common_prefix_blocks rid c in
  length counts = length (single_type_managers c) /\ block_pool c' = block_pool c /\
  owned (single_type_managers c') (block_pool c') others.
Proof.
  intros Ho. unfold co_get_num_common_prefix_blocks. destruct (co_kind c); simpl.
  - by rewrite length_replicate.
  - rewrite !length_fmap, <-list_fmap_compose. split_and!; [done|done|]. apply owned_map_same; [|done].
    intros m o. apply gm_common_prefix_ok.
  - rewrite !length_fmap, <-list_fmap_compose. split_and!; [done|done|]. apply owned_map_same; [|done].
    intros m o. apply gm_common_prefix_ok.
Qed.
End Rest.

(** * The initial coordinator *)

(** What the constructors of the specs ensure. *)
Definition group_spec_ok (spec : KVCacheSpec) : Prop :=
  0 < spec_block_size spec /\
  match spec_kind spec with
  | ChunkedLocalAttentionSpec c => 0 < c
  | SlidingWindowSpec w | SlidingWindowMLASpec w => 1 <= w
  | MambaSpec _ n => 0 <= n
  | _ => True end.

Lemma manager_init_Ok spec caching gid sbs dcp zeroing cap p others :
  group_spec_ok spec -> (forall i, valid_block p i -> ref_cnt (pheap p (Blk i)) = others i) ->
  (forall i, 0 <= others i) ->
  let m := manager_init spec caching gid sbs dcp zeroing cap in
  config_ok m /\ owns m p others.
Proof.
  intros [Hbs Hk] Hr Hn m. split.
  - split; [split|]; unfold m, window_ok; simpl.
    + destruct (Z.ltb_spec 1 dcp); simpl; [destruct (negb _); nia|done].
    + by destruct (spec_kind spec).
    + by destruct (spec_kind spec).
  - split; unfold m, manager_refs, cow_refs; simpl; try done.
Qed.

Section Init.
Context `{PoolEnv}.

Lemma get_manager_Ok spec mift mml caching gid dcp sbs zeroing p others :
  group_spec_ok spec -> (caching = true -> enable_caching p = true) ->
  (forall i, valid_block p i -> ref_cnt (pheap p (Blk i)) = others i) -> (forall i, 0 <= others i) ->
  let m := get_manager_for_kv_cache_spec spec mift mml caching gid dcp sbs zeroing in
  gm_owns m p others /\ forall i, gm_refs m i = 0.
Proof.
  intros Hs Hca Hr Hn. unfold get_manager_for_kv_cache_spec.
  destruct (spec_kind spec) eqn:Ek; cbv zeta; simpl;
    match goal with |- context [manager_init spec caching gid sbs dcp zeroing ?cap] =>
      destruct (manager_init_Ok spec caching gid sbs dcp zeroing cap p others Hs Hr Hn) as [Hc Ho] end.
  1-8: by split_and!.
  - split; [|done]. split; [done|]. destruct Hs as [Hbs Hk]. rewrite Ek in Hk.
    split; simpl; try done.
    + unfold speculative_blocks. simpl. by rewrite Ek.
    + rewrite Ek, andb_false_r. done.
  - by split_and!.
Qed.

Lemma owned_alter `{GroupManagerLaws M} (g : M -> M) gid (ms : list M) p others :
  (forall m o, gm_owns m p o -> gm_owns (g m) p o) -> owned ms p others ->
  owned (alter g gid ms) p others.
Proof.
  intros Hg Ho. destruct (ms !! gid) as [m|] eqn:Hm.
  - pose proof (take_drop_middle ms gid m Hm) as Heq. rewrite <-Heq in Ho.
    assert (alter g gid ms = take gid ms ++ g m :: drop (S gid) ms) as ->.
    { rewrite <-Heq at 1. apply lookup_lt_Some in Hm.
      pose proof (alter_app_r_alt g (take gid ms) (m :: drop (S gid) ms) gid) as Ha.
      rewrite length_take_le in Ha by lia. rewrite Ha by lia. by rewrite Nat.sub_diag. }
    eapply owned_step; [exact Ho|done|apply (od_others _ _ _ Ho)|]. apply Hg. by apply owned_middle.
  - assert (alter g gid ms = ms) as ->; [|done]. apply list_eq. intros i.
    destruct (decide (i = gid)) as [->|Hne]; [by rewrite list_lookup_alter_eq, Hm|by rewrite list_lookup_alter_ne].
Qed.

(** A list of managers of which none holds anything. *)
Lemma owned_empty `{GroupManagerLaws M} (ms : list M) p others :
  (forall m, m ∈ ms -> gm_owns m p others /\ forall i, gm_refs m i = 0) ->
  (forall i, valid_block p i -> ref_cnt (pheap p (Blk i)) = others i) -> (forall i, 0 <= others i) ->
  owned ms p others.
Proof.
  intros Hms Hr Hn. assert (forall i, total_refs ms i = 0) as Ht.
  { intros i. clear Hr Hn. induction ms as [|m ms IH]; [done|]. simpl.
    rewrite IH by (intros m' Hm'; apply Hms; by right). by rewrite (proj2 (Hms m ltac:(by left))). }
  split; [|intros i Hv; rewrite Ht; auto|done].
  intros m j Hj%list_elem_of_lookup_2. destruct (Hms m Hj) as [Ho Hz].
  eapply gm_owns_frame; [exact Ho|done| |].
  - intros i. rewrite Ht, Hz. specialize (Hn i). lia.
  - intros i Hv. rewrite Ht, Hz. lia.
Qed.

(** A coordinator that was just created owns nothing, over a pool of which only
    the null block is taken. *)
Lemma coordinator_init_Ok groups num_blocks zeroing mml mift eagle caching events dcp pcp sbs hbs ri c :
  Forall (fun g => group_spec_ok (kg_spec g)) groups ->
  coordinator_init groups num_blocks zeroing mml mift eagle caching events dcp pcp sbs hbs ri = Ok c ->
  pool_inv (block_pool c) (seq 1 (Z.to_nat num_blocks - 1)) /\
  owned (single_type_managers c) (block_pool c) (fun _ => 0) /\
  enable_caching (block_pool c) = caching /\
  (forall i, valid_block (block_pool c) i -> ref_cnt (pheap (block_pool c) (Blk i)) = 0) /\
  kv_cache_groups c = groups /\ length (single_type_managers c) = length groups /\
  co_scheduler_block_size c = sbs.
Proof.
  intros Hg Hc. unfold coordinator_init in Hc.
  apply bind_Ok_inv in Hc as (rest & _ & Hc). apply bind_Ok_inv in Hc as (rests & _ & Hc).
  apply bind_Ok_inv in Hc as ([] & _ & Hc). apply bind_Ok_inv in Hc as (p & Hp & Hc).
  assert (0 < num_blocks) as Hn.
  { unfold pool_init in Hp. apply bind_Ok_inv in Hp as ([] & Ha & _). apply assert_Ok_inv in Ha. by apply Z.ltb_lt. }
  destruct (pool_init_spec num_blocks caching hbs events Hn) as (p' & Hp' & Hi & Hnum & Hca & _ & _ & _ & _).
  rewrite Hp in Hp'. injection Hp' as <-.
  assert (forall i, valid_block p i -> ref_cnt (pheap p (Blk i)) = 0) as Hr.
  { intros i Hv. apply (pi_free _ _ _ Hi i). rewrite app_nil_r. apply elem_of_seq.
    destruct Hv as [? Hv]. rewrite Hnum in Hv. lia. }
  apply bind_Ok_inv in Hc as ([] & _ & Hc).
  match type of Hc with context [imap ?f groups] => set (ms := imap f groups) in Hc end.
  assert (owned ms p (fun _ => 0)) as Ho.
  { apply owned_empty; [|done|done]. intros m Hm. unfold ms in Hm.
    apply list_elem_of_lookup_1 in Hm as [j Hj]. rewrite list_lookup_imap in Hj.
    destruct (groups !! j) as [g|] eqn:Eg; [|done]. injection Hj as <-.
    apply get_manager_Ok; [by apply (Forall_lookup_1 _ _ _ _ Hg Eg)|by intros ->|done|done]. }
  assert (length ms = length groups) as Hlen by apply length_imap.
  clearbody ms. destruct (negb caching); [by injection Hc as <-|].
  destruct (zlen groups =? 1).
  - apply bind_Ok_inv in Hc as (g & _ & Hc). apply bind_Ok_inv in Hc as ([] & _ & [= <-]).
    simpl. unfold set_eagle_of. rewrite length_alter. split_and!; try done.
    apply owned_alter; [|done]. intros m o. apply gm_set_use_eagle_ok.
  - repeat (apply bind_Ok_inv in Hc as ([sgs fid] & _ & Hc) || apply bind_Ok_inv in Hc as (? & _ & Hc)).
    injection Hc as <-.
    simpl. cut (owned (foldl set_eagle_group ms sgs) p (fun _ => 0) /\
      length (foldl set_eagle_group ms sgs) = length groups).
    { intros [? ?]. by split_and!. }
    clear -Ho Hlen. revert ms Ho Hlen. induction sgs as [|sg sgs IH]; intros ms Ho Hlen; [done|]. simpl.
    apply IH; clear IH; unfold set_eagle_group; destruct (sg_use_eagle sg); try done.
    all: revert ms Ho Hlen; induction (sg_group_ids sg) as [|gid gids IHg]; intros ms Ho Hlen; [done|].
    + apply IHg; [|by unfold set_eagle_of; rewrite length_alter].
      apply owned_alter; [|done]. intros m o. apply gm_set_use_eagle_ok.
    + apply IHg; [|by unfold set_eagle_of; rewrite length_alter].
      apply owned_alter; [|done]. intros m o. apply gm_set_use_eagle_ok.
Qed.
End Init.

(** * Properties *)

Section Properties.
Context `{PoolEnv}.

(** What a manager keeps of its spec. *)
Definition manages (m : AnyManager) (g : KVCacheGroupSpec) : Prop :=
  gm_spec m = kg_spec g /\
  gm_is_cross m = bool_decide (spec_kind (kg_spec g) = CrossAttentionSpec).

Lemma set_eagle_manages e gid (groups : list KVCacheGroupSpec) (ms : list AnyManager) :
  Forall2 manages ms groups -> Forall2 manages (set_eagle_of e gid ms) groups.
Proof.
  intros Hall. unfold set_eagle_of. revert gid. induction Hall as [|m g ms gs Hm Hall IH]; intros gid; [constructor|].
  destruct gid as [|gid]; simpl; constructor; [|done|done|exact (IH gid)]. by destruct m as [|[|]].
Qed.

Lemma set_eagle_group_manages groups (ms : list AnyManager) sg :
  Forall2 manages ms groups -> Forall2 manages (set_eagle_group ms sg) groups.
Proof.
  intros Hall. unfold set_eagle_group. destruct (sg_use_eagle sg); [|done].
  revert ms Hall. induction (sg_group_ids sg) as [|gid gids IH]; intros ms Hall; [done|].
  apply IH. by apply set_eagle_manages.
Qed.

Lemma coordinator_init_manages groups num_blocks zeroing mml mift eagle caching events dcp pcp sbs hbs ri c :
  coordinator_init groups num_blocks zeroing mml mift eagle caching events dcp pcp sbs hbs ri = Ok c ->
  Forall2 manages (single_type_managers c) groups.
Proof.
  intros Hc. unfold coordinator_init in Hc.
  apply bind_Ok_inv in Hc as (rest & _ & Hc). apply bind_Ok_inv in Hc as (rests & _ & Hc).
  apply bind_Ok_inv in Hc as ([] & _ & Hc). apply bind_Ok_inv in Hc as (p & _ & Hc).
  apply bind_Ok_inv in Hc as ([] & _ & Hc).
  match type of Hc with context [imap ?f groups] => set (ms := imap f groups) in Hc end.
  assert (Forall2 manages ms groups) as Hms.
  { apply Forall2_same_length_lookup_2; [unfold ms; by rewrite length_imap|].
    intros j m g Hm Hg. unfold ms in Hm. rewrite list_lookup_imap, Hg in Hm. injection Hm as <-.
    unfold get_manager_for_kv_cache_spec, manages. by destruct (spec_kind (kg_spec g)). }
  clearbody ms. destruct (negb caching); [by injection Hc as <-|].
  destruct (zlen groups =? 1).
  - apply bind_Ok_inv in Hc as (g & _ & Hc). apply bind_Ok_inv in Hc as ([] & _ & [= <-]).
    by apply set_eagle_manages.
  - repeat (apply bind_Ok_inv in Hc as ([sgs fid] & _ & Hc) || apply bind_Ok_inv in Hc as (? & _ & Hc)).
    injection Hc as <-. simpl. revert ms Hms.
    induction sgs as [|sg sgs IH]; intros ms Hms; [done|]. apply IH. by apply set_eagle_group_manages.
Qed.


(** C8: if the pool has the blocks predicted for a request that is new to every
    group, its admission cannot fail in any of them, although the groups take
    from the same pool one after the other: the hits of all groups are touched
    before any group takes a block, together they take at most the predicted
    number, and every group ends up with slots for the request. *)
Theorem coordinator_admission_spec `{GroupManagerLaws M} (c : Coordinator M) xs others s hits n :
  pool_inv (block_pool c) xs -> owned (single_type_managers c) (block_pool c) others ->
  admissible (single_type_managers c) (block_pool c) s hits -> 0 <= sl_external s ->
  co_get_num_blocks_to_allocate (sl_request s) (sl_tokens s) hits (sl_encoder s) (sl_total s)
    (sl_local s) (sl_main s) false c = Ok n -> n <= get_num_free_blocks (block_pool c) ->
  exists c1 new c2 xs',
    allocate_new_computed_blocks (sl_request s) hits (sl_local s) (sl_external s) c = Ok c1 /\
    co_allocate_new_blocks (sl_request s) (sl_tokens s) (sl_main s) (sl_encoder s) c1 = Ok (new, c2) /\
    pool_inv (block_pool c2) xs' /\ owned (single_type_managers c2) (block_pool c2) others /\
    get_num_free_blocks (block_pool c) - get_num_free_blocks (block_pool c2) <= n /\
    Forall (fun m => gm_covered m s) (single_type_managers c2) /\
    length new = length (single_type_managers c).
Proof.
  intros Hi Ho Had He Hn Hle. rewrite (pool_inv_free _ _ Hi) in *.
  destruct (admission_Ok c xs others s hits n Hi Ho Had He Hn Hle)
    as (c1 & new & c2 & xs' & ? & ? & Hi2 & _ & ? & ? & ? & ? & _).
  exists c1, new, c2, xs'. rewrite (pool_inv_free _ _ Hi2). by split_and!.
Qed.
End Properties.

(** * Concrete inputs *)

Definition pair_groups : list KVCacheGroupSpec :=
  [mkGroupSpec (mkSpec 16 FullAttentionSpec) "wide" false;
   mkGroupSpec (mkSpec 16 (SlidingWindowSpec 40)) "wide" false].
Abbreviation pair_coordinator :=
  (coordinator_init pair_groups 8 false 1024 256 false true false 1 1 16 16 None).
Definition pair_managers : list AnyManager :=
  imap (fun i g => get_manager_for_kv_cache_spec (kg_spec g) 256 1024 true (Z.of_nat i) 1 16 false) pair_groups.
Definition pair_slots : Slots := mkSlots "a" 0 0 40 40 0.

Lemma pair_init : exists c, pair_coordinator = Ok c /\ single_type_managers c = pair_managers /\
  co_get_num_blocks_to_allocate (sl_request pair_slots) (sl_tokens pair_slots) [[]; []]
    (sl_encoder pair_slots) (sl_total pair_slots) (sl_local pair_slots) (sl_main pair_slots) false c = Ok 6 /\
  get_num_free_blocks (block_pool c) = 7.
Proof.
  assert (match pair_coordinator with
    | Ok c => Some (single_type_managers c,
        co_get_num_blocks_to_allocate (sl_request pair_slots) (sl_tokens pair_slots) [[]; []]
          (sl_encoder pair_slots) (sl_total pair_slots) (sl_local pair_slots) (sl_main pair_slots) false c,
        get_num_free_blocks (block_pool c))
    | Raise _ => None end = Some (pair_managers, Ok 6, 7)) as Hd by (vm_compute; reflexivity).
  destruct pair_coordinator as [c|e]; [|discriminate]. injection Hd as ? ? ?. by exists c.
Qed.


Lemma coordinator_admission_spec_witness :
  exists c c1 new c2, pair_coordinator = Ok c /\
    allocate_new_computed_blocks "a" [[]; []] 0 0 c = Ok c1 /\
    co_allocate_new_blocks "a" 40 40 0 c1 = Ok (new, c2) /\ length new = 2%nat.
Proof.
  destruct pair_init as (c & Hc & Hm & Hn & Hf).
  pose proof Hc as Hc0. apply coordinator_init_Ok in Hc0 as (Hi & Ho & _); [|by repeat constructor].
  destruct (coordinator_admission_spec c _ _ pair_slots [[]; []] 6 Hi Ho)
    as (c1 & new & c2 & xs' & Ha & Hb & _ & _ & _ & _ & Hl).
  - rewrite Hm. intros j m Hj. exists []. destruct j as [|[|j]]; [| |done]; injection Hj as <-.
    all: split; [done|]; split; [done|]; split; [|done].
    all: split_and!; [apply block_list_nil|done|by right|intros Hmod; by destruct Hmod].
  - vm_compute. discriminate.
  - exact Hn.
  - rewrite Hf. lia.
  - rewrite Hm in Hl. exists c, c1, new, c2. split; [exact Hc|]. split; [exact Ha|]. split; [exact Hb|exact Hl].
Defined.
