(* ===== verification/HybridHit.v ===== *)
(** [find_longest_cache_hit] of the coordinators of
    src/upstream/vllm/v1/core/kv_cache_coordinator.py: a hit that every group of
    layers can serve. The hybrid coordinator searches for it by going through
    the groups again and again, each group accepting the candidate length or
    reducing it. *)
From S2P Require Import Prelude FreeQueue Request BlockHash BlockPool CacheHit MambaHit SingleType GroupManager AttentionGroup MambaManager Coordinator.
Open Scope Z_scope.

(** * The search of one group *)

(** [manager_cls.find_longest_cache_hit], the class being the one registered for
    the spec, and its [supports_fine_grained_hash_lookup]. *)
Definition spec_find_longest_cache_hit (hashes : BlockHashList) (max_length : Z) (gids : list Z)
    (p : BlockPool) (spec : KVCacheSpec) (drop_eagle_block : bool)
    (alignment_tokens dcp_world_size pcp_world_size : Z) : result (Computed * Z) :=
  match spec_kind spec with
  | SlidingWindowSpec _ | SlidingWindowMLASpec _ =>
      window_find_longest_cache_hit hashes max_length gids p spec drop_eagle_block alignment_tokens
        dcp_world_size pcp_world_size
  | ChunkedLocalAttentionSpec _ =>
      chunked_find_longest_cache_hit hashes max_length gids p spec drop_eagle_block alignment_tokens
        dcp_world_size pcp_world_size
  | MambaSpec _ _ =>
      mamba_find_longest_cache_hit hashes max_length gids p spec drop_eagle_block alignment_tokens
        dcp_world_size pcp_world_size
  | CrossAttentionSpec => Raise NotImplementedError
  | _ => full_find_longest_cache_hit hashes max_length gids p spec drop_eagle_block alignment_tokens
           dcp_world_size
  end.
Definition supports_fine_grained_hash_lookup (k : AttentionKind) : bool :=
  is_full_attention k || is_mamba k.

(** * The search of the hybrid coordinator *)

(** [hit_blocks_by_group], [hit_length_by_group], [longest_hit_length] and
    [eagle_verified]. *)
Record Search := mkSearch {
  hit_blocks : list (option (list bref));
  hit_lengths : list Z;
  longest_hit_length : Z;
  eagle_verified : gset nat
}.

(** [for group_id, blocks in zip(group_ids, hit_blocks)]. *)
Fixpoint store_hits (group_ids : list nat) (computed : Computed) (new_hit_length : Z)
    (blocks : list (option (list bref))) (lengths : list Z)
    : list (option (list bref)) * list Z :=
  match group_ids, computed with
  | gid :: group_ids', c :: computed' =>
      store_hits group_ids' computed' new_hit_length (<[gid := Some c]> blocks)
        (<[gid := new_hit_length]> lengths)
  | _, _ => (blocks, lengths)
  end.

(** [blocks if blocks is not None else []]. *)
Definition group_blocks (blocks : list (option (list bref))) : Computed :=
  (fun o : option (list bref) => default [] o) <$> blocks.

Section Search.
Context `{PoolEnv} `{GroupManager M}.
Implicit Types (c : Coordinator M).

(** [_cache_hit_alignment_tokens]. *)
Definition cache_hit_alignment_tokens c : Z :=
  if enable_partial_hash_hits c then co_hash_block_size c else co_scheduler_block_size c.

(** The length a group is searched up to: EAGLE groups match one unit more, which
    they then drop. *)
Definition search_bound c (max_cache_hit_length curr_hit_length group_block_size : Z)
    (k : AttentionKind) (drop_eagle_block : bool) : Z :=
  if drop_eagle_block && negb (is_mamba k) then
    let eagle_margin :=
      if enable_partial_hash_hits c && supports_fine_grained_hash_lookup k
         && (co_hash_block_size c <? group_block_size)
      then co_hash_block_size c else group_block_size in
    Z.min (curr_hit_length + eagle_margin) max_cache_hit_length
  else curr_hit_length.

(** The body of the loop over the attention groups. *)
Definition visit_group c (hashes : BlockHashList) (max_cache_hit_length : Z) (idx : nat)
    (sg : SpecGroup) (curr_hit_length : Z) (st : Search) : result (Z * Search) :=
  let k := spec_kind (sg_spec sg) in
  first_group_id ← or_raise IndexError (head (sg_group_ids sg));
  m ← or_raise IndexError (single_type_managers c !! first_group_id);
  cached_blocks ← or_raise IndexError (hit_blocks st !! first_group_id);
  if is_full_attention k && bool_decide (is_Some cached_blocks) then
    n ← or_raise IndexError (hit_lengths st !! first_group_id);
    Ok (Z.min curr_hit_length n, st)
  else
    let drop_eagle_block := sg_use_eagle sg && bool_decide (idx ∉ eagle_verified st) in
    '(computed, new_hit_length) ← spec_find_longest_cache_hit hashes
      (search_bound c max_cache_hit_length curr_hit_length (gm_block_size m) k drop_eagle_block)
      (Z.of_nat <$> sg_group_ids sg) (block_pool c) (sg_spec sg) drop_eagle_block
      (cache_hit_alignment_tokens c)
      (if is_full_attention k then co_dcp_world_size c else 1) 1;
    let verified := if drop_eagle_block then {[idx]} ∪ eagle_verified st
      else if new_hit_length <? curr_hit_length then ∅ else eagle_verified st in
    let '(blocks, lengths) :=
      store_hits (sg_group_ids sg) computed new_hit_length (hit_blocks st) (hit_lengths st) in
    Ok (new_hit_length,
        mkSearch blocks lengths (Z.max (longest_hit_length st) new_hit_length) verified).

Fixpoint visit_groups c (hashes : BlockHashList) (max_cache_hit_length : Z) (idx : nat)
    (sgs : list SpecGroup) (curr_hit_length : Z) (st : Search) : result (Z * Search) :=
  match sgs with
  | [] => Ok (curr_hit_length, st)
  | sg :: sgs' =>
      '(curr_hit_length, st) ← visit_group c hashes max_cache_hit_length idx sg curr_hit_length st;
      visit_groups c hashes max_cache_hit_length (S idx) sgs' curr_hit_length st
  end.

(** [while True]. *)
Fixpoint hybrid_loop (fuel : nat) c (hashes : BlockHashList) (max_cache_hit_length : Z)
    (is_simple_hybrid : bool) (hit_length : Z) (st : Search) : result (Z * Search) :=
  match fuel with
  | O => Raise Diverges
  | S fuel =>
      '(curr_hit_length, st) ← visit_groups c hashes max_cache_hit_length 0 (attention_groups c)
                                 hit_length st;
      if hit_length <=? curr_hit_length then Ok (hit_length, st) else
      if is_simple_hybrid then Ok (curr_hit_length, st) else
      hybrid_loop fuel c hashes max_cache_hit_length is_simple_hybrid curr_hit_length st
  end.

(** [del blks[num_blocks:]] in the groups of the first spec. *)
Fixpoint truncate_groups (num_blocks : Z) (group_ids : list nat)
    (blocks : list (option (list bref))) : list (option (list bref)) :=
  match group_ids with
  | [] => blocks
  | gid :: group_ids' =>
      truncate_groups num_blocks group_ids'
        (alter (fmap (fun l : list bref => py_upto l num_blocks)) gid blocks)
  end.

Definition truncate_full c (first_group : SpecGroup) (hit_length : Z)
    (blocks : list (option (list bref))) : result (list (option (list bref))) :=
  if is_full_group first_group then
    gid ← or_raise IndexError (head (sg_group_ids first_group));
    m ← or_raise IndexError (single_type_managers c !! gid);
    Ok (truncate_groups (cdiv hit_length (gm_block_size m)) (sg_group_ids first_group) blocks)
  else Ok blocks.

(** [HybridKVCacheCoordinator.find_longest_cache_hit]; the length falls in every
    round, so [max_cache_hit_length + 2] rounds are enough. *)
Definition hybrid_find_longest_cache_hit c (hashes : BlockHashList) (max_cache_hit_length : Z)
    : result (Computed * Z * Z) :=
  let num_groups := length (kv_cache_groups c) in
  first_group ← or_raise IndexError (head (attention_groups c));
  let is_simple_hybrid := (zlen (attention_groups c) =? 2) && is_full_group first_group in
  '(hit_length, st) ← hybrid_loop (S (S (Z.to_nat max_cache_hit_length))) c hashes
    max_cache_hit_length is_simple_hybrid max_cache_hit_length
    (mkSearch (replicate num_groups None) (replicate num_groups 0) 0 ∅);
  blocks ← truncate_full c first_group hit_length (hit_blocks st);
  Ok (group_blocks blocks, hit_length, longest_hit_length st - hit_length).

(** [find_longest_cache_hit] of the three coordinators. *)
Definition co_find_longest_cache_hit c (hashes : BlockHashList) (max_cache_hit_length : Z)
    : result (Computed * Z * Z) :=
  match co_kind c with
  | NoPrefixCache => Ok (replicate (length (single_type_managers c)) [], 0, 0)
  | Unitary =>
      g ← or_raise IndexError (head (kv_cache_groups c));
      '(hit_blocks, hit_length) ← spec_find_longest_cache_hit hashes max_cache_hit_length [0]
        (block_pool c) (kg_spec g) (bool_decide (0%nat ∈ eagle_group_ids c)) (unit_block_size c)
        (co_dcp_world_size c) (co_pcp_world_size c);
      Ok (hit_blocks, hit_length, 0)
  | Hybrid => hybrid_find_longest_cache_hit c hashes max_cache_hit_length
  end.

(** [find_longest_cache_hit_per_group]: every group on its own. *)
Fixpoint per_group_hits c (hashes : BlockHashList) (max_cache_hit_length : Z) (sgs : list SpecGroup)
    (blocks : list (option (list bref))) (lengths : list Z)
    : result (list (option (list bref)) * list Z) :=
  match sgs with
  | [] => Ok (blocks, lengths)
  | sg :: sgs' =>
      '(computed, group_hit) ← spec_find_longest_cache_hit hashes max_cache_hit_length
        (Z.of_nat <$> sg_group_ids sg) (block_pool c) (sg_spec sg) (sg_use_eagle sg)
        (cache_hit_alignment_tokens c) 1 1;
      let '(blocks, lengths) := store_hits (sg_group_ids sg) computed group_hit blocks lengths in
      per_group_hits c hashes max_cache_hit_length sgs' blocks lengths
  end.
Definition find_longest_cache_hit_per_group c (hashes : BlockHashList) (max_cache_hit_length : Z)
    : result (Computed * list Z) :=
  let num_groups := length (kv_cache_groups c) in
  '(blocks, lengths) ← per_group_hits c hashes max_cache_hit_length (attention_groups c)
    (replicate num_groups None) (replicate num_groups 0);
  Ok (group_blocks blocks, lengths).
End Search.

(** * The search of a group never fails *)

(** A spec group the hybrid coordinator accepts: its managers' blocks are whole
    numbers of hash units, and hits end where its kind of layer allows it. *)
Definition spec_group_ok `{GroupManager M} (c : Coordinator M) (sg : SpecGroup) : Prop :=
  exists gid m (k : nat), head (sg_group_ids sg) = Some gid /\ single_type_managers c !! gid = Some m /\
    (0 < k)%nat /\ gm_block_size m = Z.of_nat k * co_hash_block_size c /\
    (if is_full_group sg && (1 <? co_dcp_world_size c)
     then spec_block_size (sg_spec sg) * co_dcp_world_size c else spec_block_size (sg_spec sg))
      = gm_block_size m /\
    Forall (fun gid => Z.of_nat gid < 2 ^ 32) (sg_group_ids sg) /\
    (enable_partial_hash_hits c = true \/ cache_hit_alignment_tokens c mod gm_block_size m = 0) /\
    match spec_kind (sg_spec sg) with
    | SlidingWindowSpec w | SlidingWindowMLASpec w =>
        1 <= w /\ cache_hit_alignment_tokens c mod gm_block_size m = 0
    | ChunkedLocalAttentionSpec n => 0 < n /\ n mod gm_block_size m = 0 /\
        gm_block_size m = cache_hit_alignment_tokens c /\ sg_use_eagle sg = false
    | CrossAttentionSpec => False
    | _ => True
    end.

(** A group's blocks for a hit of [h] tokens. *)
Definition covers (ng : nat) (computed : Computed) (bsz h : Z) : Prop :=
  length computed = ng /\ Forall (fun l : list bref => zlen l = cdiv h bsz) computed.

Lemma table_covers ng computed n cell bsz h :
  table ng computed n cell -> Z.of_nat n = cdiv h bsz -> covers ng computed bsz h.
Proof.
  intros [Hl Ht] Hn. split; [done|]. apply Forall_lookup_2. intros g l Hg.
  destruct (Ht g l Hg) as [-> _]. done.
Qed.

Section Find.
Context `{PoolEnv} `{GroupManager M}.
Implicit Types (c : Coordinator M).

Lemma div_mul_le x (k : nat) b : 0 < b -> (0 < k)%nat -> x / (Z.of_nat k * b) * Z.of_nat k <= x / b.
Proof.
  intros Hb Hk. apply le_div_iff; [done|]. assert (0 < Z.of_nat k * b) as Hkb by (apply Z.mul_pos_pos; lia).
  pose proof (Z.mul_div_le x (Z.of_nat k * b) Hkb). lia.
Qed.

(** Sliding windows: with EAGLE the search goes one block further and drops it. *)
Lemma window_covers p xs gids hs spec w (k : nat) a bsz curr bound (drop : bool) :
  pool_inv p xs -> groups_ok gids -> 0 < pool_hash_block_size p -> (0 < k)%nat ->
  0 <= curr <= bound -> bsz = Z.of_nat k * pool_hash_block_size p -> spec_block_size spec = bsz ->
  window_of (spec_kind spec) = Some w -> 1 <= w -> 0 < a -> a mod bsz = 0 ->
  bound / bsz * Z.of_nat k <= zlen hs -> (drop = false -> bound = curr) -> bound <= curr + bsz ->
  exists computed h,
    window_find_longest_cache_hit (Hashes hs) bound gids p spec drop a 1 1 = Ok (computed, h) /\
    0 <= h <= curr /\ covers (length gids) computed bsz h.
Proof.
  intros Hi Hg Hhb Hk Hcurr Hsz Hspec Hwin Hw Ha Hab Hlen Hsame Hmargin.
  assert (0 < bsz) as Hbsz by (rewrite Hsz; nia).
  destruct (window_find_Ok p xs gids Hi Hg bsz a Hbsz Ha hs k bound Hk Hhb Hsz Hlen spec w drop Hwin Hw
    Hspec Hab) as (computed & n & s & Hr & Hres).
  exists computed, (Z.of_nat n * bsz). split_and!; [exact Hr|nia| |].
  - destruct (wr_range _ _ _ _ _ _ _ _ _ _ _ Hres) as [Hn _].
    pose proof (Z.mul_div_le bound bsz Hbsz). assert (0 <= bound / bsz) by (apply Z.div_pos; lia).
    destruct drop; [|rewrite Hsame in * by done; nia].
    assert (Z.of_nat n <= Z.max 0 (bound / bsz - 1)) by lia. nia.
  - eapply table_covers; [exact (wr_table _ _ _ _ _ _ _ _ _ _ _ Hres)|by rewrite cdiv_mul].
Qed.

Lemma find_Ok c xs sg hs max curr (drop : bool) gid m :
  pool_inv (block_pool c) xs -> pool_hash_block_size (block_pool c) = co_hash_block_size c ->
  0 < co_hash_block_size c -> 0 < cache_hit_alignment_tokens c -> spec_group_ok c sg ->
  max / co_hash_block_size c <= zlen hs -> 0 <= curr <= max ->
  (drop = true -> sg_use_eagle sg = true) ->
  head (sg_group_ids sg) = Some gid -> single_type_managers c !! gid = Some m ->
  exists computed h,
    spec_find_longest_cache_hit (Hashes hs)
      (search_bound c max curr (gm_block_size m) (spec_kind (sg_spec sg)) drop)
      (Z.of_nat <$> sg_group_ids sg) (block_pool c) (sg_spec sg) drop (cache_hit_alignment_tokens c)
      (if is_full_attention (spec_kind (sg_spec sg)) then co_dcp_world_size c else 1) 1
      = Ok (computed, h) /\
    0 <= h <= curr /\ covers (length (sg_group_ids sg)) computed (gm_block_size m) h.
Proof.
  intros Hi Hph Hhb Ha (gid' & m' & k & Hhd & Hm & Hk & Hbs & Hsz & Hids & Hal & Hkind) Hlen Hcurr Hdrop Hhd' Hm'.
  rewrite Hhd in Hhd'. injection Hhd' as <-. rewrite Hm in Hm'. injection Hm' as <-.
  set (p := block_pool c) in *. set (a := cache_hit_alignment_tokens c) in *.
  set (bsz := gm_block_size m') in *. set (gids := Z.of_nat <$> sg_group_ids sg).
  assert (0 < bsz) as Hbsz by (rewrite Hbs; nia).
  assert (length gids = length (sg_group_ids sg)) as <- by (apply length_fmap).
  assert (groups_ok gids) as Hg.
  { split; [unfold gids; by destruct (sg_group_ids sg)|]. apply Forall_fmap.
    eapply Forall_impl; [exact Hids|]. intros g Hlt. unfold compose. split; [lia|exact Hlt]. }
  assert (enable_partial_hash_hits c = true /\ a = co_hash_block_size c \/
    enable_partial_hash_hits c = false /\ a mod bsz = 0) as Hpart.
  { destruct (enable_partial_hash_hits c) eqn:E; [|right; split; [done|]; by destruct Hal].
    left. split; [done|]. unfold a, cache_hit_alignment_tokens. by rewrite E. }
  assert (a = co_hash_block_size c \/ 0 < a /\ a mod bsz = 0) as Ha' by tauto.
  set (bound := search_bound c max curr bsz (spec_kind (sg_spec sg)) drop).
  assert (0 <= bound <= max /\ curr <= bound) as Hbd.
  { unfold bound, search_bound. destruct (drop && _); [|lia].
    destruct (enable_partial_hash_hits c && _ && _); lia. }
  assert (bound / bsz * Z.of_nat k <= zlen hs) as Hcov.
  { pose proof (div_mul_le bound k _ Hhb Hk).
    pose proof (Z.div_le_mono bound max (co_hash_block_size c) Hhb ltac:(lia)). rewrite Hbs. lia. }
  assert (is_full_attention (spec_kind (sg_spec sg)) = true ->
    drop = true -> bound <= curr + Z.min a bsz) as Hfull.
  { intros Hf ->. unfold bound, search_bound, supports_fine_grained_hash_lookup. rewrite Hf.
    assert (is_mamba (spec_kind (sg_spec sg)) = false) as -> by (by destruct (spec_kind (sg_spec sg))).
    cbn [negb andb orb]. destruct Hpart as [[-> Haeq]|[-> Hm0]]; cbn [andb].
    - destruct (Z.ltb_spec (co_hash_block_size c) bsz); lia.
    - apply Z.mod_divide in Hm0; [|lia]. destruct Hm0 as [q Hq].
      assert (1 <= q) by nia. assert (bsz <= a) by nia. lia. }
  assert (drop = false \/ is_mamba (spec_kind (sg_spec sg)) = true -> bound = curr) as Hsame.
  { unfold bound, search_bound. intros [->| ->]; [done|]. by rewrite andb_false_r. }
  assert (bound <= curr + bsz) as Hmargin.
  { unfold bound, search_bound. destruct (drop && _); [|lia].
    destruct (enable_partial_hash_hits c && _); cbn [andb]; [|lia].
    destruct (Z.ltb_spec (co_hash_block_size c) bsz); lia. }
  clearbody bound. unfold is_full_group in Hsz. unfold spec_find_longest_cache_hit.
  destruct (is_full_attention (spec_kind (sg_spec sg))) eqn:Efull.
  - destruct (full_find_Ok p xs gids Hi Hg hs (co_hash_block_size c) bound k Hhb Hk ltac:(lia)
      (sg_spec sg) a drop (co_dcp_world_size c) Hph) as (computed & h & L & F & Hr & Hlh & Hh & Hhr & Ht).
    { rewrite <-Hbs, <-Hsz. by rewrite andb_true_l. }
    { by rewrite <-Hbs. }
    { by rewrite Efull. }
    rewrite <-Hbs in *. pose proof (lh_range _ _ _ _ _ _ _ _ _ Hlh) as (_ & _ & HF).
    assert (h <= curr) as Hle.
    { destruct drop; cbn [andb] in Hh; [|lia]. specialize (Hfull eq_refl eq_refl).
      destruct (Nat.ltb_spec 0 F) as [HF0|HF0].
      - pose proof (Z.mod_pos_bound (Z.of_nat F * co_hash_block_size c - Z.min a bsz) a Ha). lia.
      - assert (F = 0%nat) as -> by lia. lia. }
    exists computed, h. split_and!; [|lia|done|eapply table_covers; [exact Ht|]].
    + by destruct (spec_kind (sg_spec sg)).
    + pose proof (cdiv_nonneg h bsz Hbsz ltac:(lia)). lia.
  - cbn [andb] in Hsz. destruct (spec_kind (sg_spec sg)) as [| | | |rw|ch|w|w|mode n|] eqn:Ek; try done.
    + destruct Hkind as (Hch & Hcm & Hba & Heag).
      assert (drop = false) as -> by (destruct drop; [by rewrite Hdrop in Heag|done]).
      rewrite Hsame in * by (by left).
      destruct (chunked_find_Ok p xs gids Hi Hg bsz a Hbsz Ha hs k curr Hk ltac:(by rewrite Hph)
        ltac:(by rewrite Hph) ltac:(lia) Hcov (sg_spec sg) ch) as (computed & nb & Hr & Hn & Ht & _);
        [by rewrite Ek|done..|].
      exists computed, (Z.of_nat nb * bsz). split_and!; [exact Hr|nia| |].
      * pose proof (Z.mul_div_le curr bsz Hbsz). assert (0 <= curr / bsz) by (apply Z.div_pos; lia). nia.
      * eapply table_covers; [exact Ht|by rewrite cdiv_mul].
    + destruct Hkind as [Hw Hab]. apply (window_covers p xs gids hs (sg_spec sg) w k a bsz curr bound drop Hi Hg); rewrite ?Hph;
        [done|done|lia|done|done|by rewrite Ek|done|done|done|done|intros; apply Hsame; by left|done].
    + destruct Hkind as [Hw Hab]. apply (window_covers p xs gids hs (sg_spec sg) w k a bsz curr bound drop Hi Hg); rewrite ?Hph;
        [done|done|lia|done|done|by rewrite Ek|done|done|done|done|intros; apply Hsame; by left|done].
    + rewrite Hsame in * by (by right).
      destruct (mamba_find_Ok p xs gids Hi Hg hs curr k a ltac:(by rewrite Hph) Hk ltac:(lia)
        ltac:(by rewrite Hph, <-Hbs) (sg_spec sg) drop) as (computed & F & Hr & Hlast & Ht);
        [by rewrite Ek|by rewrite Hph, <-Hbs|right; by rewrite Hph, <-Hbs|].
      rewrite Hph, <-?Hbs in *. exists computed, (Z.of_nat F * co_hash_block_size c). split_and!; [exact Hr|lia| |].
      * pose proof (ls_range _ _ _ _ _ _ Hlast) as HF. unfold units_in_reach in HF. rewrite Hph in HF.
        pose proof (Z.mul_div_le curr (co_hash_block_size c) Hhb).
        assert (0 <= curr / co_hash_block_size c) by (apply Z.div_pos; lia). nia.
      * eapply table_covers; [exact Ht|].
        pose proof (cdiv_nonneg (Z.of_nat F * co_hash_block_size c) bsz Hbsz ltac:(lia)). lia.
Qed.
End Find.

(** * The groups agree *)

Lemma Forall2_impl_elem {A B} (P Q : A -> B -> Prop) xs ys :
  Forall2 P xs ys -> (forall x y, x ∈ xs -> P x y -> Q x y) -> Forall2 Q xs ys.
Proof.
  induction 1 as [|x y xs ys HP _ IH]; intros HQ; constructor; [by apply HQ; [left|]|].
  apply IH. intros x' y' Hx. apply HQ. by right.
Qed.

Section Agree.
Context `{PoolEnv} `{GroupManager M}.
Context (c : Coordinator M) (xs : list nat) (hs : list bytes) (max : Z).
Context (Hinv : pool_inv (block_pool c) xs).
Context (Hph : pool_hash_block_size (block_pool c) = co_hash_block_size c).
Context (Hhb : 0 < co_hash_block_size c) (Ha : 0 < cache_hit_alignment_tokens c).
Context (Hmax : 0 <= max) (Hlen : max / co_hash_block_size c <= zlen hs).
Context (Hgroups : Forall (spec_group_ok c) (attention_groups c)).
Context (Hids : NoDup (concat (sg_group_ids <$> attention_groups c))).
Context (Hrange : Forall (fun gid => (gid < length (kv_cache_groups c))%nat)
  (concat (sg_group_ids <$> attention_groups c))).

(** [computed] is what the search of [sg] finds below some length, [h] tokens. *)
Definition found_hit (sg : SpecGroup) (computed : Computed) (h : Z) : Prop :=
  exists gid m len (drop : bool), head (sg_group_ids sg) = Some gid /\
    single_type_managers c !! gid = Some m /\ (drop = true -> sg_use_eagle sg = true) /\
    spec_find_longest_cache_hit (Hashes hs) len (Z.of_nat <$> sg_group_ids sg) (block_pool c)
      (sg_spec sg) drop (cache_hit_alignment_tokens c)
      (if is_full_attention (spec_kind (sg_spec sg)) then co_dcp_world_size c else 1) 1
      = Ok (computed, h) /\
    covers (length (sg_group_ids sg)) computed (gm_block_size m) h.

Definition recorded (st : Search) (sg : SpecGroup) (computed : Computed) (h : Z) : Prop :=
  Forall2 (fun gid l => hit_blocks st !! gid = Some (Some l) /\ hit_lengths st !! gid = Some h)
    (sg_group_ids sg) computed.

Record search_inv (st : Search) : Prop := {
  si_blocks : length (hit_blocks st) = length (kv_cache_groups c);
  si_lengths : length (hit_lengths st) = length (kv_cache_groups c);
  si_longest : 0 <= longest_hit_length st <= max;
  si_group sg : sg ∈ attention_groups c ->
    (forall gid, gid ∈ sg_group_ids sg -> hit_blocks st !! gid = Some None) \/
    exists computed h, found_hit sg computed h /\ recorded st sg computed h /\
      0 <= h <= longest_hit_length st
}.

Lemma store_hits_lookup ids computed h blocks lengths :
  NoDup ids -> length computed = length ids -> length lengths = length blocks ->
  Forall (fun gid => (gid < length blocks)%nat) ids ->
  let '(blocks', lengths') := store_hits ids computed h blocks lengths in
  length blocks' = length blocks /\ length lengths' = length lengths /\
  (forall gid, gid ∉ ids -> blocks' !! gid = blocks !! gid /\ lengths' !! gid = lengths !! gid) /\
  Forall2 (fun gid l => blocks' !! gid = Some (Some l) /\ lengths' !! gid = Some h) ids computed.
Proof.
  intros Hnd Hl Hll Hr. revert computed blocks lengths Hl Hll Hr.
  induction ids as [|gid ids IH]; intros [|l computed] blocks lengths Hl Hll Hr; try done.
  apply NoDup_cons in Hnd as [Hni Hnd]. apply Forall_cons in Hr as [Hg Hr]. simpl.
  specialize (IH Hnd computed (<[gid:=Some l]> blocks) (<[gid:=h]> lengths) ltac:(by injection Hl)).
  rewrite !length_insert in IH. specialize (IH Hll Hr).
  destruct (store_hits ids computed h _ _) as [blocks' lengths'].
  destruct IH as (Hb & Hle & Hoth & Hrec). split_and!; [done|done| |].
  - intros gid' [Hne Hni']%not_elem_of_cons. destruct (Hoth gid' Hni') as [-> ->].
    by rewrite !list_lookup_insert_ne by done.
  - constructor; [|done]. destruct (Hoth gid Hni) as [-> ->].
    rewrite !list_lookup_insert_eq by lia. done.
Qed.

Lemma group_facts sg : sg ∈ attention_groups c ->
  NoDup (sg_group_ids sg) /\ Forall (fun gid => (gid < length (kv_cache_groups c))%nat) (sg_group_ids sg).
Proof.
  intros [j Hj]%list_elem_of_lookup_1. apply take_drop_middle in Hj. rewrite <-Hj in Hids, Hrange.
  rewrite fmap_app, fmap_cons, concat_app in Hids, Hrange. simpl in Hids, Hrange.
  apply NoDup_app in Hids as (_ & _ & Hn). apply NoDup_app in Hn as (Hn & _).
  apply Forall_app in Hrange as [_ Hr]. by apply Forall_app in Hr as [Hr _].
Qed.

Lemma groups_disjoint i j sg sg' gid :
  attention_groups c !! i = Some sg -> attention_groups c !! j = Some sg' -> i <> j ->
  gid ∈ sg_group_ids sg -> gid ∉ sg_group_ids sg'.
Proof.
  assert (forall i j sg sg', (i < j)%nat -> attention_groups c !! i = Some sg ->
    attention_groups c !! j = Some sg' -> gid ∈ sg_group_ids sg -> gid ∈ sg_group_ids sg' -> False) as Hlt.
  { clear i j sg sg'. intros i j sg sg' Hij Hi Hj Hg Hg'.
    apply take_drop_middle in Hi as Hs. rewrite <-Hs in Hids.
    rewrite fmap_app, fmap_cons, concat_app in Hids. simpl in Hids.
    apply NoDup_app in Hids as (_ & _ & Hn). apply NoDup_app in Hn as (_ & Hn & _).
    apply (Hn gid Hg). apply list_elem_of_In, in_concat. exists (sg_group_ids sg').
    split; [|by apply list_elem_of_In]. apply list_elem_of_In, list_elem_of_fmap_2.
    apply (list_elem_of_lookup_2 _ (j - S i)). rewrite lookup_drop. by replace (S i + (j - S i))%nat with j by lia. }
  intros Hi Hj Hne Hg Hg'. destruct (decide (i < j)%nat); [by eapply (Hlt i j)|].
  eapply (Hlt j i); eauto; lia.
Qed.

(** One group: it accepts the candidate length or reduces it. *)
Lemma visit_group_Ok st idx sg curr :
  search_inv st -> attention_groups c !! idx = Some sg -> 0 <= curr <= max ->
  exists curr' st', visit_group c (Hashes hs) max idx sg curr st = Ok (curr', st') /\
    search_inv st' /\ 0 <= curr' <= curr /\
    (exists computed h, found_hit sg computed h /\ recorded st' sg computed h /\ curr' <= h /\
      h <= longest_hit_length st' /\ (is_full_group sg = false -> h = curr')) /\
    longest_hit_length st <= longest_hit_length st' /\
    (forall gid, gid ∉ sg_group_ids sg ->
      hit_blocks st' !! gid = hit_blocks st !! gid /\ hit_lengths st' !! gid = hit_lengths st !! gid).
Proof.
  intros Hst Hidx Hcurr. pose proof (list_elem_of_lookup_2 _ _ _ Hidx) as Hin.
  destruct (group_facts sg Hin) as [Hnd Hr].
  pose proof (Forall_lookup_1 _ _ _ _ Hgroups Hidx) as Hok.
  pose proof Hok as (gid & m & k & Hhd & Hm & _).
  assert (gid ∈ sg_group_ids sg) as Hgid.
  { destruct (sg_group_ids sg); [done|]. injection Hhd as <-. by left. }
  pose proof (proj1 (Forall_forall _ _) Hr gid Hgid) as Hlt. simpl in Hlt.
  destruct (lookup_lt_is_Some_2 (hit_blocks st) gid) as [cached Hcached]; [by rewrite (si_blocks _ Hst)|].
  unfold visit_group. rewrite Hhd. cbn [or_raise mbind result_bind]. rewrite Hm. cbn [or_raise mbind result_bind].
  rewrite Hcached. cbn [or_raise mbind result_bind].
  destruct (is_full_attention (spec_kind (sg_spec sg)) && bool_decide (is_Some cached)) eqn:Efull.
  - apply andb_true_iff in Efull as [Hfull Hc%bool_decide_eq_true].
    destruct (si_group _ Hst sg Hin) as [Hnone|(computed & h & Hf & Hrec & Hh)].
    { rewrite (Hnone gid Hgid) in Hcached. injection Hcached as <-. by destruct Hc. }
    assert (hit_lengths st !! gid = Some h) as ->.
    { unfold recorded in Hrec. destruct (sg_group_ids sg); [done|]. injection Hhd as ->. by inversion Hrec as [|? ? ? ? [? ?]]. }
    cbn [or_raise mbind result_bind]. exists (Z.min curr h), st. split_and!; try done; try lia.
    exists computed, h. split_and!; try done; try lia. unfold is_full_group. by rewrite Hfull.
  - set (drop := sg_use_eagle sg && bool_decide (idx ∉ eagle_verified st)).
    destruct (find_Ok c xs sg hs max curr drop gid m) as (computed & h & Hr' & Hh & Hcov); try done.
    { unfold drop. by intros [? _]%andb_true_iff. }
    rewrite Hr'. cbn [mbind result_bind].
    pose proof (store_hits_lookup (sg_group_ids sg) computed h (hit_blocks st) (hit_lengths st) Hnd
      (proj1 Hcov)) as Hsto.
    rewrite (si_blocks _ Hst), (si_lengths _ Hst) in Hsto. specialize (Hsto eq_refl Hr).
    destruct (store_hits _ computed h _ _) as [blocks lengths].
    destruct Hsto as (Hb & Hl & Hoth & Hrec). cbn beta iota zeta.
    eexists h, _. split; [reflexivity|].
    assert (found_hit sg computed h) as Hfound by (eexists gid, m, _, drop; split_and!; try done; unfold drop; by intros [? _]%andb_true_iff).
    assert (0 <= h <= Z.max (longest_hit_length st) h) as Hhl by (pose proof (si_longest _ Hst); lia).
    split_and!; try (simpl; done || lia).
    + split; simpl; [by rewrite Hb|by rewrite Hl|pose proof (si_longest _ Hst); lia|].
      intros sg' Hin'. destruct (list_elem_of_lookup_1 _ _ Hin') as [j Hj].
      destruct (decide (j = idx)) as [->|Hne].
      { rewrite Hidx in Hj. injection Hj as <-. right. by exists computed, h. }
      assert (forall g, g ∈ sg_group_ids sg' -> blocks !! g = hit_blocks st !! g /\
        lengths !! g = hit_lengths st !! g) as Hsame.
      { intros g Hg. apply Hoth. eapply groups_disjoint; [exact Hj|exact Hidx|done|done]. }
      destruct (si_group _ Hst sg' Hin') as [Hnone|(c' & h' & Hf' & Hrec' & Hh')].
      * left. intros g Hg. destruct (Hsame g Hg) as [-> _]. by apply Hnone.
      * right. exists c', h'. split_and!; try done; [|lia|lia].
        unfold recorded in *. eapply Forall2_impl_elem; [exact Hrec'|]. simpl.
        intros g l Hg [? ?]. by destruct (Hsame g Hg) as [-> ->].
    + exists computed, h. simpl. split_and!; try done; lia.
Qed.

(** One round: the length only falls, and no group reports less than what is left. *)
Lemma visit_groups_Ok sgs idx st curr :
  search_inv st -> (forall j sg, sgs !! j = Some sg -> attention_groups c !! (idx + j)%nat = Some sg) ->
  0 <= curr <= max ->
  exists curr' st', visit_groups c (Hashes hs) max idx sgs curr st = Ok (curr', st') /\
    search_inv st' /\ 0 <= curr' <= curr /\ longest_hit_length st <= longest_hit_length st' /\
    (forall j sg, sgs !! j = Some sg -> exists computed h, found_hit sg computed h /\
      recorded st' sg computed h /\ curr' <= h <= longest_hit_length st' /\
      (is_full_group sg = false -> h <= curr /\ (S j = length sgs -> h = curr'))) /\
    (forall gid, (forall sg, sg ∈ sgs -> gid ∉ sg_group_ids sg) ->
      hit_blocks st' !! gid = hit_blocks st !! gid /\ hit_lengths st' !! gid = hit_lengths st !! gid).
Proof.
  revert idx st curr. induction sgs as [|sg sgs IH]; intros idx st curr Hst Hsgs Hcurr.
  { exists curr, st. simpl. split_and!; try done. lia. }
  pose proof (Hsgs 0%nat sg eq_refl) as Hidx. rewrite Nat.add_0_r in Hidx.
  destruct (visit_group_Ok st idx sg curr Hst Hidx Hcurr) as
    (curr1 & st1 & Hv & Hst1 & Hc1 & (computed & h & Hf & Hrec & Hh & Hhl & Hnf) & Hl1 & Hoth1).
  destruct (IH (S idx) st1 curr1 Hst1) as (curr' & st' & Hvs & Hst' & Hc' & Hl' & Hall & Hoth').
  { intros j sg' Hj. specialize (Hsgs (S j) sg' Hj). by rewrite Nat.add_succ_r in Hsgs. }
  { lia. }
  cbn [visit_groups]. rewrite Hv. cbn [mbind result_bind]. exists curr', st'.
  split_and!; try done; try lia.
  - intros [|j] sg' Hj.
    + simpl in Hj. injection Hj as <-. exists computed, h. split_and!; try done; try lia.
      * unfold recorded in *. eapply Forall2_impl_elem; [exact Hrec|]. intros g l Hg [? ?].
        destruct (Hoth' g) as [-> ->]; [|done]. intros sg' [j Hj]%list_elem_of_lookup_1.
        eapply groups_disjoint; [exact Hidx|exact (Hsgs (S j) sg' Hj)|lia|done].
      * intros Hfull. specialize (Hnf Hfull). split; [lia|]. intros Hlast. simpl in Hlast.
        destruct sgs; [|done]. simpl in Hvs. injection Hvs as <- <-. lia.
    + destruct (Hall j sg' Hj) as (cm & h' & ? & ? & ? & Hn). exists cm, h'. split_and!; try done; try lia.
      intros Hfull. destruct (Hn Hfull) as [? Hlast]. split; [lia|]. intros Hlen'. apply Hlast.
      simpl in Hlen'. lia.
  - intros gid Hg. destruct (Hoth' gid) as [-> ->]; [intros; apply Hg; by right|].
    apply Hoth1, Hg. by left.
Qed.

(** What the search ends with. *)
Definition agreed (hit : Z) (st : Search) : Prop :=
  search_inv st /\ 0 <= hit <= max /\
  forall j sg, attention_groups c !! j = Some sg -> exists computed h, found_hit sg computed h /\
    recorded st sg computed h /\ hit <= h <= longest_hit_length st /\ (is_full_group sg = false -> h = hit).

(** Every round but the last shortens the hit: the search ends. *)
Lemma hybrid_loop_Ok fuel hit st :
  search_inv st -> 0 <= hit <= max -> (Z.to_nat hit < fuel)%nat ->
  exists hit' st', hybrid_loop fuel c (Hashes hs) max
      ((zlen (attention_groups c) =? 2) && match attention_groups c with [] => false | sg :: _ => is_full_group sg end)
      hit st = Ok (hit', st') /\ agreed hit' st'.
Proof.
  revert hit st. induction fuel as [|fuel IH]; intros hit st Hst Hhit Hf; [lia|].
  destruct (visit_groups_Ok (attention_groups c) 0 st hit Hst) as
    (curr & st1 & Hv & Hst1 & Hc1 & _ & Hall & _); [done|done|].
  cbn [hybrid_loop]. rewrite Hv. cbn [mbind result_bind].
  destruct (Z.leb_spec hit curr) as [Hle|Hlt].
  { exists hit, st1. split; [done|]. split_and!; try done; try lia. intros j sg Hj.
    destruct (Hall j sg Hj) as (computed & h & ? & ? & ? & Hn). exists computed, h.
    split_and!; try done; try lia. intros Hfull. destruct (Hn Hfull). lia. }
  match goal with |- context [if ?b then Ok (curr, st1) else _] => destruct b eqn:Esimple end.
  { exists curr, st1. split; [done|]. split_and!; try done; try lia. intros j sg Hj.
    destruct (Hall j sg Hj) as (computed & h & ? & ? & ? & Hn). exists computed, h.
    split_and!; try done; try lia. intros Hfull. apply (Hn Hfull).
    apply andb_true_iff in Esimple as [Htwo%Z.eqb_eq Hfst].
    destruct (attention_groups c) as [|sg0 [|sg1 [|]]]; try done; [|simpl in Htwo; lia].
    destruct j as [|[|]]; [|done|done]. simpl in Hj. injection Hj as ->.
    congruence. }
  apply IH; [done|lia|lia].
Qed.

Lemma truncate_groups_lookup n ids blocks gid :
  NoDup ids ->
  length (truncate_groups n ids blocks) = length blocks /\
  truncate_groups n ids blocks !! gid =
    if decide (gid ∈ ids) then fmap (fun l : list bref => py_upto l n) <$> blocks !! gid
    else blocks !! gid.
Proof.
  intros Hnd. revert blocks. induction Hnd as [|g ids Hg Hnd IH]; intros blocks; [done|]. simpl.
  destruct (IH (alter (fmap (fun l : list bref => py_upto l n)) g blocks)) as [-> ->].
  rewrite length_alter. split; [done|].
  destruct (decide (gid = g)) as [->|Hne].
  - rewrite decide_False by done. rewrite decide_True by (by left). by rewrite list_lookup_alter_eq.
  - rewrite list_lookup_alter_ne by done.
    destruct (decide (gid ∈ ids)); [by rewrite decide_True by (by right)|].
    rewrite decide_False; [done|]. by intros [?|?]%elem_of_cons.
Qed.

(** A group's blocks in the result: those it found, the first full-attention spec's
    cut to the hit. *)
Definition kept_blocks_of (j : nat) (sg : SpecGroup) (bsz hit : Z) (l : list bref) : list bref :=
  if is_full_group sg && (j =? 0)%nat then take (Z.to_nat (cdiv hit bsz)) l else l.

Lemma hybrid_find_Ok :
  attention_groups c <> [] ->
  exists blocks hit uncached,
    hybrid_find_longest_cache_hit c (Hashes hs) max = Ok (blocks, hit, uncached) /\
    length blocks = length (kv_cache_groups c) /\ 0 <= hit /\ 0 <= uncached /\ hit + uncached <= max /\
    forall j sg, attention_groups c !! j = Some sg -> exists computed h gid m,
      found_hit sg computed h /\ hit <= h <= hit + uncached /\ (is_full_group sg = false -> h = hit) /\
      head (sg_group_ids sg) = Some gid /\ single_type_managers c !! gid = Some m /\
      forall g gid' l, sg_group_ids sg !! g = Some gid' -> computed !! g = Some l ->
        blocks !! gid' = Some (kept_blocks_of j sg (gm_block_size m) hit l).
Proof.
  intros Hne. unfold hybrid_find_longest_cache_hit.
  assert (exists sg0 sgs, attention_groups c = sg0 :: sgs) as (sg0 & sgs & Egs)
    by (clear -Hne; destruct (attention_groups c); [done|eauto]).
  assert (head (attention_groups c) = Some sg0) as -> by (by rewrite Egs).
  cbn [or_raise mbind result_bind].
  set (st0 := mkSearch (replicate (length (kv_cache_groups c)) None)
    (replicate (length (kv_cache_groups c)) 0) 0 ∅).
  assert (search_inv st0) as Hst0.
  { split; simpl; [by rewrite length_replicate|by rewrite length_replicate|lia|].
    intros sg Hin. left. intros gid Hgid. destruct (group_facts sg Hin) as [_ Hr].
    pose proof (proj1 (Forall_forall _ _) Hr gid Hgid) as Hlt. simpl in Hlt.
    by apply lookup_replicate_2. }
  destruct (hybrid_loop_Ok (S (S (Z.to_nat max))) max st0 Hst0) as (hit & st & Hloop & Hst & Hhit & Hall);
    [lia|lia|].
  assert (match attention_groups c with [] => false | sg :: _ => is_full_group sg end = is_full_group sg0)
    as Hfst by (by rewrite Egs).
  rewrite Hfst in Hloop. rewrite Hloop. cbn [mbind result_bind].
  assert (sg0 ∈ attention_groups c) as Hin0 by (rewrite Egs; by left).
  destruct (group_facts sg0 Hin0) as [Hnd0 _].
  destruct (Hall 0%nat sg0 ltac:(by rewrite Egs)) as (computed0 & h0 & Hf0 & Hrec0 & Hh0 & _).
  pose proof Hf0 as (gid0 & m0 & _ & _ & Hhd0 & Hm0 & _).
  assert (exists blocks, truncate_full c sg0 hit (hit_blocks st) = Ok blocks /\
    length blocks = length (hit_blocks st) /\ forall gid,
    blocks !! gid = if decide (gid ∈ sg_group_ids sg0 /\ is_full_group sg0 = true)
      then fmap (fun l : list bref => py_upto l (cdiv hit (gm_block_size m0))) <$> hit_blocks st !! gid
      else hit_blocks st !! gid) as (blocks & Htr & Hlb & Hlook).
  { unfold truncate_full. rewrite Hhd0. cbn [or_raise mbind result_bind]. rewrite Hm0.
    cbn [or_raise mbind result_bind]. destruct (is_full_group sg0).
    - eexists. split; [reflexivity|].
      split; [by destruct (truncate_groups_lookup (cdiv hit (gm_block_size m0)) _ (hit_blocks st) 0 Hnd0)|].
      intros gid. destruct (truncate_groups_lookup (cdiv hit (gm_block_size m0)) _ (hit_blocks st) gid Hnd0) as [_ ->].
      destruct (decide (gid ∈ sg_group_ids sg0)); [by rewrite decide_True|].
      rewrite decide_False; [done|]. by intros [? _].
    - exists (hit_blocks st). split_and!; try done. intros gid. rewrite decide_False; [done|]. by intros [_ ?]. }
  rewrite Htr. cbn [mbind result_bind]. pose proof (si_longest _ Hst).
  eexists _, hit, _. split; [reflexivity|].
  split_and!; [unfold group_blocks; by rewrite length_fmap, Hlb, (si_blocks _ Hst)|lia|lia|lia|].
  intros j sg Hj. destruct (Hall j sg Hj) as (computed & h & Hf & Hrec & Hh & Hnf).
  pose proof Hf as (gid & m & len & drop & Hhd & Hm & _ & _ & Hcov).
  exists computed, h, gid, m. split_and!; try done; try lia.
  intros g gid' l Hg Hl.
  destruct (Forall2_lookup_lr _ _ _ _ _ _ Hrec Hg Hl) as [Hb _].
  assert (0 < gm_block_size m) as Hbsz.
  { pose proof (Forall_lookup_1 _ _ _ _ Hgroups Hj) as (g1 & m1 & k & Hhd1 & Hm1 & Hk & Hbs & _).
    rewrite Hhd in Hhd1. injection Hhd1 as <-. rewrite Hm in Hm1. injection Hm1 as <-. nia. }
  unfold group_blocks. rewrite list_lookup_fmap, Hlook. unfold kept_blocks_of.
  destruct (Nat.eqb_spec j 0) as [->|Hj0].
  - rewrite Egs in Hj. injection Hj as <-. rewrite Hhd0 in Hhd. injection Hhd as ->.
    rewrite Hm0 in Hm. injection Hm as ->. rewrite andb_true_r. destruct (is_full_group sg0) eqn:Ef.
    + rewrite decide_True by (split; [by eapply list_elem_of_lookup_2|done]). rewrite Hb. simpl.
      rewrite py_upto_nonneg by (apply cdiv_nonneg; lia). done.
    + rewrite decide_False by (by intros [_ ?]). by rewrite Hb.
  - rewrite andb_false_r, decide_False; [by rewrite Hb|]. intros [Hin _].
    eapply (groups_disjoint 0 j sg0 sg gid'); [by rewrite Egs|done|done|done|].
    by eapply list_elem_of_lookup_2.
Qed.
End Agree.

(** * Properties *)

(** C6: the hybrid search ends, never fails, and the groups agree: the hit is at
    most the length asked for, every group found at least that much at some
    length it was searched to, a group that is not full attention found exactly
    that much, and the result holds what the groups found, the lists of the
    first full-attention spec cut to the hit. So every list but those of a
    second full-attention spec has exactly the blocks that cover the hit. *)
Theorem hybrid_hit_spec `{PoolEnv} `{GroupManager M} (c : Coordinator M) xs hs max :
  pool_inv (block_pool c) xs -> pool_hash_block_size (block_pool c) = co_hash_block_size c ->
  0 < co_hash_block_size c -> 0 < cache_hit_alignment_tokens c ->
  0 <= max -> max / co_hash_block_size c <= zlen hs ->
  attention_groups c <> [] -> Forall (spec_group_ok c) (attention_groups c) ->
  NoDup (concat (sg_group_ids <$> attention_groups c)) ->
  Forall (fun gid => (gid < length (kv_cache_groups c))%nat)
    (concat (sg_group_ids <$> attention_groups c)) ->
  exists blocks hit uncached,
    hybrid_find_longest_cache_hit c (Hashes hs) max = Ok (blocks, hit, uncached) /\
    length blocks = length (kv_cache_groups c) /\ 0 <= hit /\ 0 <= uncached /\ hit + uncached <= max /\
    forall j sg, attention_groups c !! j = Some sg -> exists computed h gid m,
      found_hit c hs sg computed h /\ hit <= h <= hit + uncached /\
      (is_full_group sg = false -> h = hit) /\
      head (sg_group_ids sg) = Some gid /\ single_type_managers c !! gid = Some m /\
      forall g gid' l, sg_group_ids sg !! g = Some gid' -> computed !! g = Some l ->
        blocks !! gid' = Some (kept_blocks_of j sg (gm_block_size m) hit l) /\
        (is_full_group sg = false \/ j = 0%nat ->
          zlen (kept_blocks_of j sg (gm_block_size m) hit l) = cdiv hit (gm_block_size m)).
Proof.
  intros Hi Hph Hhb Ha Hmax Hlen Hne Hg Hids Hr.
  destruct (hybrid_find_Ok c xs hs max Hi Hph Hhb Ha Hmax Hlen Hg Hids Hr Hne)
    as (blocks & hit & un & Hf & Hl & Hh & Hu & Hhu & Hall).
  exists blocks, hit, un. split_and!; try done. intros j sg Hj.
  destruct (Hall j sg Hj) as (computed & h & gid & m & Hfound & Hhh & Hnf & Hhd & Hm & Hb).
  exists computed, h, gid, m. split_and!; try done; try lia. intros g gid' l Hgid Hlk.
  split; [by eapply Hb|]. intros Hcase.
  destruct Hfound as (gid1 & m1 & _ & _ & Hhd1 & Hm1 & _ & _ & _ & Hcov).
  rewrite Hhd in Hhd1. injection Hhd1 as <-. rewrite Hm in Hm1. injection Hm1 as <-.
  pose proof (Forall_lookup_1 _ _ _ _ Hcov Hlk) as Hcl. simpl in Hcl.
  pose proof (Forall_lookup_1 _ _ _ _ Hg Hj) as (g2 & m2 & k & Hhd2 & Hm2 & Hk & Hbs & _).
  rewrite Hhd in Hhd2. injection Hhd2 as <-. rewrite Hm in Hm2. injection Hm2 as <-.
  assert (0 < gm_block_size m) as Hbsz by nia. unfold kept_blocks_of.
  destruct (is_full_group sg) eqn:Ef; simpl.
  - destruct Hcase as [?| ->]; [done|]. simpl. rewrite length_take.
    pose proof (cdiv_mono hit h _ Hbsz ltac:(lia)). pose proof (cdiv_nonneg hit _ Hbsz Hh). lia.
  - by rewrite <-(Hnf eq_refl).
Qed.

(** * Concrete inputs *)

Definition demo_groups : list KVCacheGroupSpec :=
  [mkGroupSpec (mkSpec 16 FullAttentionSpec) "wide" false;
   mkGroupSpec (mkSpec 16 MLAAttentionSpec) "narrow" false;
   mkGroupSpec (mkSpec 16 (SlidingWindowSpec 40)) "wide" false].
Abbreviation demo_coordinator :=
  (coordinator_init demo_groups 8 false 1024 256 false true false 1 1 16 16 None).

Lemma demo_init : exists c, demo_coordinator = Ok c.
Proof.
  assert (match demo_coordinator with Ok _ => true | Raise _ => false end = true) as Hd
    by (vm_compute; reflexivity).
  destruct demo_coordinator as [c|e]; [by exists c|discriminate].
Qed.

Definition demo_shape (r : result (Coordinator AnyManager)) :=
  match r with
  | Ok c => Some (attention_groups c, co_hash_block_size c, cache_hit_alignment_tokens c,
      co_dcp_world_size c, enable_partial_hash_hits c, length (kv_cache_groups c),
      single_type_managers c, pool_hash_block_size (block_pool c))
  | Raise _ => None
  end.
Definition demo_specs : list SpecGroup :=
  [mkSpecGroup (mkSpec 16 FullAttentionSpec) "wide" [0%nat] false;
   mkSpecGroup (mkSpec 16 MLAAttentionSpec) "narrow" [1%nat] false;
   mkSpecGroup (mkSpec 16 (SlidingWindowSpec 40)) "wide" [2%nat] false].

Definition demo_managers : list AnyManager :=
  imap (fun i g => get_manager_for_kv_cache_spec (kg_spec g) 256 1024 true (Z.of_nat i) 1 16 false) demo_groups.

Lemma demo_shape_eq : demo_shape demo_coordinator =
  Some (demo_specs, 16, 16, 1, false, 3%nat, demo_managers, 16).
Proof. vm_compute. reflexivity. Qed.

Lemma demo_facts c : demo_coordinator = Ok c ->
  attention_groups c = demo_specs /\ co_hash_block_size c = 16 /\ cache_hit_alignment_tokens c = 16 /\
  co_dcp_world_size c = 1 /\ enable_partial_hash_hits c = false /\ length (kv_cache_groups c) = 3%nat /\
  pool_hash_block_size (block_pool c) = 16 /\
  single_type_managers c = demo_managers /\ pool_inv (block_pool c) (seq 1 7) /\ owned (single_type_managers c) (block_pool c) (fun _ => 0).
Proof.
  intros Hc. pose proof demo_shape_eq as Hs. rewrite Hc in Hs. cbn [demo_shape] in Hs.
  injection Hs as Hg Hh Ha Hd Hp Hn Hb Hph. split_and!; try done.
  - apply coordinator_init_Ok in Hc as (Hi & _); [exact Hi|by repeat constructor].
  - apply coordinator_init_Ok in Hc as (_ & Ho & _); [exact Ho|by repeat constructor].
Qed.

Lemma hybrid_hit_spec_witness :
  exists c blocks hit uncached, demo_coordinator = Ok c /\
    hybrid_find_longest_cache_hit c (Hashes (replicate 6 [Byte.x01])) 95 = Ok (blocks, hit, uncached).
Proof.
  destruct demo_init as [c Hc].
  destruct (demo_facts c Hc) as (Hg & Hh & Ha & Hd & Hp & Hn & Hph & Hm & Hi & _).
  destruct (hybrid_hit_spec c _ (replicate 6 [Byte.x01]) 95 Hi) as (blocks & hit & un & Hok & _).
  - by rewrite Hph, Hh.
  - by rewrite Hh.
  - by rewrite Ha.
  - lia.
  - rewrite Hh. vm_compute. discriminate.
  - by rewrite Hg.
  - rewrite Hg. unfold demo_specs.
    repeat apply List.Forall_cons; try apply List.Forall_nil; unfold spec_group_ok;
      rewrite Hh, Ha, Hd, Hp; cbn [sg_group_ids sg_spec sg_use_eagle spec_kind].
    all: rewrite Hm; match goal with |- context [head [?g] = _] => eexists g, _, 1%nat end.
    all: split; [done|]; split; [reflexivity|]; split_and!; try done; try lia; try (by repeat constructor); by right.
  - rewrite Hg. repeat constructor; set_solver.
  - rewrite Hg, Hn. simpl. repeat constructor.
  - exists c, blocks, hit, un. split; [exact Hc|exact Hok].
Defined.

(** The search over [demo_groups] when the hash of the first five blocks is cached
    for both full-attention groups and for no sliding window. *)
Definition demo_pool (p : BlockPool) : result BlockPool :=
  key0 ← make_block_hash_with_group_id [Byte.x01] 0;
  key1 ← make_block_hash_with_group_id [Byte.x01] 1;
  p ← insert_block_hash key0 (Blk 1) (Some 16) p;
  insert_block_hash key1 (Blk 2) (Some 16) p.
Definition list_lengths (r : Computed * Z * Z) : list Z * Z :=
  ((fun l : list bref => zlen l) <$> r.1.1, r.1.2).
Definition demo_search : result (list Z * Z) :=
  match demo_coordinator with
  | Ok c =>
      match demo_pool (block_pool c) with
      | Ok p =>
          match hybrid_find_longest_cache_hit (with_managers (single_type_managers c) p c)
                  (Hashes (replicate 6 [Byte.x01])) 95 with
          | Ok r => Ok (list_lengths r) | Raise e => Raise e end
      | Raise e => Raise e end
  | Raise e => Raise e end.

(** Only the first full-attention spec is cut to the final hit: with two of
    them and a third kind of layer that has nothing cached, the hit is 0 tokens
    and the second full-attention group still reports five cached blocks. *)
Theorem second_full_group_is_not_truncated : demo_search = Ok ([0; 5; 0], 0).
Proof. vm_compute. reflexivity. Qed.
