(* ===== verification/PyFloat.v ===== *)
(** * Python floats

    IEEE 754 binary64 numbers as the Standard Library specifies them, with the
    operators the modelled code applies to them. An [int] next to a [float] is
    converted first, which is exact below [2 ^ 53]; [int / int] is then the
    correctly rounded quotient.

    The lemmas bound the size of the results: a number of at most 53 bits with
    exponent [0] or less ([in_range]) stays one under the two updates
    [min(x + d, c)] and [max(x - d, 0)], so it never becomes infinite or NaN. *)
From Stdlib Require Import Floats.SpecFloat.
From S2P Require Import Prelude.

Abbreviation float := spec_float.

Definition float_of_int (n : Z) : float := binary_normalize 53 1024 n 0 false.
Definition fadd : float -> float -> float := SFadd 53 1024.
Definition fsub : float -> float -> float := SFsub 53 1024.
Definition fdiv : float -> float -> float := SFdiv 53 1024.
Definition fmul : float -> float -> float := SFmul 53 1024.

(** [a < b]. *)
Definition flt (a b : float) : bool := SFltb a b.

(** [a <= b]. *)
Definition fle (a b : float) : bool := SFleb a b.

(** [min(a, b)] and [max(a, b)] return their first argument unless the second
    is smaller (greater). *)
Definition fmin (a b : float) : float := if flt b a then b else a.
Definition fmax (a b : float) : float := if flt a b then b else a.

(** [int(x)] truncates towards zero. *)
Definition int_of_float (x : float) : result Z :=
  match x with
  | S754_zero _ => Ok 0
  | S754_finite s m e =>
      let n := if 0 <=? e then Zpos m * 2 ^ e else Zpos m / 2 ^ (- e) in
      Ok (if s then - n else n)
  | S754_infinity _ => Raise OverflowError
  | S754_nan => Raise ValueError
  end.

(** [a / b] on integers. *)
Definition int_div (a b : Z) : result float :=
  if b =? 0 then Raise ZeroDivisionError
  else Ok (fdiv (float_of_int a) (float_of_int b)).

Example one_third : int_div 1 3 = Ok (S754_finite false 6004799503160661 (-54)).
Proof. vm_compute. reflexivity. Qed.
Example seven_halves : (x ← int_div 7 2; int_of_float (fadd x (float_of_int 1))) = Ok 4.
Proof. vm_compute. reflexivity. Qed.

(** ** Sizes *)

Lemma Zdigits2_log2 m : 0 < m -> Zdigits2 m = Z.log2 m + 1.
Proof.
  destruct m as [|p|p]; [lia| |lia]. intros _. cbn [Zdigits2].
  induction p as [p IH|p IH|]; cbn [digits2_pos]; [| |done].
  - rewrite Pos2Z.inj_succ, IH, (Pos2Z.inj_xI p), Z.log2_succ_double by lia. lia.
  - rewrite Pos2Z.inj_succ, IH, (Pos2Z.inj_xO p), Z.log2_double by lia. lia.
Qed.

Lemma Zdigits2_lt m : 0 <= m -> 0 <= Zdigits2 m /\ m < 2 ^ Zdigits2 m.
Proof.
  intros Hm. destruct (decide (m = 0)) as [->|]; [done|].
  rewrite Zdigits2_log2 by lia. pose proof (Z.log2_spec m ltac:(lia)).
  pose proof (Z.log2_nonneg m). unfold Z.succ in *. lia.
Qed.

Lemma Zdigits2_le m k : 0 <= k -> 0 <= m < 2 ^ k -> Zdigits2 m <= k.
Proof.
  intros Hk Hm. destruct (decide (m = 0)) as [->|]; [done|].
  rewrite Zdigits2_log2 by lia. pose proof (Z.log2_lt_pow2 m k ltac:(lia)). lia.
Qed.

Lemma iter_pos_nat {A} (f : A -> A) n x : SpecFloat.iter_pos f n x = Nat.iter (Pos.to_nat n) f x.
Proof.
  revert x. induction n as [n IH|n IH|]; intros x; cbn [SpecFloat.iter_pos]; [| |done].
  - rewrite !IH, Pos2Nat.inj_xI, <-Nat.iter_add, <-Nat.iter_succ_r. f_equal. lia.
  - rewrite !IH, Pos2Nat.inj_xO, <-Nat.iter_add. f_equal. lia.
Qed.

(** One shift to the right halves the mantissa, and loses nothing if it is even. *)
Lemma shr_1_m r : 0 <= shr_m r -> shr_m (shr_1 r) = shr_m r / 2.
Proof.
  destruct r as [[|[p|p|]|[p|p|]] ? ?]; cbn; intros; try lia;
    rewrite <-Z.div2_div; reflexivity.
Qed.

Lemma shr_1_even m : 0 <= m -> shr_1 (Build_shr_record (2 * m) false false) = Build_shr_record m false false.
Proof. by destruct m. Qed.

Lemma shr_iter_m n r : 0 <= shr_m r -> shr_m (Nat.iter n shr_1 r) = shr_m r / 2 ^ Z.of_nat n.
Proof.
  intros Hr. induction n as [|n IH]; [cbn; by rewrite Z.div_1_r|].
  rewrite Nat.iter_succ, shr_1_m, IH by (rewrite IH; apply Z.div_pos; lia).
  rewrite Z.div_div by lia. f_equal. rewrite Nat2Z.inj_succ, Z.pow_succ_r by lia. lia.
Qed.

Lemma shr_iter_exact n m :
  0 <= m -> Nat.iter n shr_1 (Build_shr_record (m * 2 ^ Z.of_nat n) false false)
            = Build_shr_record m false false.
Proof.
  intros Hm. induction n as [|n IH]; [cbn; f_equal; lia|].
  rewrite Nat.iter_succ_r.
  replace (m * 2 ^ Z.of_nat (S n)) with (2 * (m * 2 ^ Z.of_nat n))
    by (rewrite Nat2Z.inj_succ, Z.pow_succ_r by lia; lia).
  rewrite shr_1_even by lia. exact IH.
Qed.

(** ** Rounding *)

Lemma fexp_bounds e E : e <= 53 + E -> -1074 <= E -> -1074 <= fexp 53 1024 e <= E.
Proof. unfold fexp, emin. lia. Qed.

(** Rounding to 53 bits shifts the mantissa right until it fits. *)
Lemma shr_fexp_spec m e l :
  0 <= m ->
  let e' := Z.max e (fexp 53 1024 (Zdigits2 m + e)) in
  exists r, shr_fexp 53 1024 m e l = (r, e') /\
    shr_m r = m / 2 ^ (e' - e) /\ 0 <= shr_m r < 2 ^ 53 /\
    (l = loc_Exact -> m = (m / 2 ^ (e' - e)) * 2 ^ (e' - e) -> loc_of_shr_record r = loc_Exact).
Proof.
  intros Hm e'. unfold shr_fexp, shr.
  set (r0 := shr_record_of_loc m l). assert (Hr0 : shr_m r0 = m) by (by destruct l as [|[]]).
  assert (Hlt : 0 <= m / 2 ^ (e' - e) < 2 ^ 53).
  { pose proof (Zdigits2_lt m Hm) as [? Hd]. split; [apply Z.div_pos; lia|].
    apply Z.div_lt_upper_bound; [lia|]. rewrite <-Z.pow_add_r by lia.
    eapply Z.lt_le_trans; [exact Hd|]. apply Z.pow_le_mono_r; [lia|].
    unfold e', fexp in *. lia. }
  assert (He' : e' = e \/ exists p, fexp 53 1024 (Zdigits2 m + e) - e = Zpos p /\ e' = e + Zpos p).
  { unfold e'. destruct (fexp 53 1024 (Zdigits2 m + e) - e) as [|p|p] eqn:E; [left; lia|right|left; lia].
    exists p. split; [done|lia]. }
  destruct He' as [He'|(p & Hp & He')].
  - assert (m / 2 ^ (e' - e) = m) as Hq by (rewrite He', Z.sub_diag; apply Z.div_1_r).
    exists r0. rewrite Hq in *. split_and!; [| done | lia | lia |].
    + rewrite He'. change (Z.sub (fexp 53 1024 (Z.add (Zdigits2 m) e)) e)
        with (fexp 53 1024 (Zdigits2 m + e) - e).
      assert (Hle : fexp 53 1024 (Zdigits2 m + e) - e <= 0) by lia.
      revert Hle. generalize (fexp 53 1024 (Zdigits2 m + e) - e). by intros [|p|p].
    + intros -> _. done.
  - exists (SpecFloat.iter_pos shr_1 p r0). rewrite Hp, iter_pos_nat.
    rewrite shr_iter_m by lia. rewrite Hr0, positive_nat_Z.
    replace (Zpos p) with (e' - e) by lia. replace (e + (e' - e)) with e' by lia.
    split_and!; [done|done|lia|lia|]. intros -> Hex. subst r0. cbn [shr_record_of_loc].
    rewrite Hex. replace (e' - e) with (Z.of_nat (Pos.to_nat p)) by lia.
    rewrite shr_iter_exact; [done|]. replace (Z.of_nat (Pos.to_nat p)) with (e' - e) by lia. lia.
Qed.

(** A zero, or a finite number of sign [s], at most 53 bits and exponent at most [E]. *)
Definition sized (s : bool) (E : Z) (x : float) : Prop :=
  match x with
  | S754_zero _ => True
  | S754_finite s' m e => s' = s /\ Zdigits2 (Zpos m) <= 53 /\ e <= E
  | _ => False
  end.

Lemma round_even_bounds m l : m <= round_nearest_even m l <= m + 1.
Proof. destruct l as [|[]]; cbn; try case_match; lia. Qed.

Lemma round_tail s m e E :
  0 <= m <= 2 ^ 53 -> -1074 <= e -> e <= E -> (m = 2 ^ 53 -> e < E) -> E <= 971 ->
  sized s E (let '(mrs, e') := shr_fexp 53 1024 m e loc_Exact in
             match shr_m mrs with
             | Z0 => S754_zero s
             | Zpos m => if Z.leb e' (1024 - 53) then S754_finite s m e' else S754_infinity s
             | _ => S754_nan
             end).
Proof.
  intros Hm He HeE Hc HE.
  destruct (shr_fexp_spec m e loc_Exact ltac:(lia)) as (r & -> & Hr & Hb & _).
  set (e' := Z.max e _) in *.
  assert (e' <= E).
  { unfold e'. destruct (decide (m = 2 ^ 53)) as [->|].
    - change (Zdigits2 (2 ^ 53)) with 54. pose proof (fexp_bounds (54 + e) (e + 1) ltac:(lia) ltac:(lia)). lia.
    - pose proof (Zdigits2_le m 53 ltac:(lia) ltac:(lia)).
      pose proof (fexp_bounds (Zdigits2 m + e) e ltac:(lia) ltac:(lia)). lia. }
  destruct (shr_m r) as [|p|p] eqn:Ep; [done| |lia].
  destruct (Z.leb_spec e' (1024 - 53)); [|lia].
  split_and!; [done| |done]. apply Zdigits2_le; lia.
Qed.

Lemma round_aux_sized s m e l E :
  0 <= m -> e <= E -> -1074 <= E -> Zdigits2 m + e <= 53 + E -> E <= 970 ->
  sized s (E + 1) (binary_round_aux 53 1024 s m e l).
Proof.
  intros Hm He HE Hd HE'. unfold binary_round_aux.
  destruct (shr_fexp_spec m e l Hm) as (r & -> & Hr & Hb & _). set (e' := Z.max e _) in *.
  pose proof (fexp_bounds _ E Hd HE). pose proof (round_even_bounds (shr_m r) (loc_of_shr_record r)).
  apply round_tail; lia.
Qed.

(** Rounding a number that is at most [(2 ^ 53 - 1) * 2 ^ E] does not carry over
    the exponent [E]. *)
Lemma round_aux_no_carry s m e E :
  0 <= m -> e <= E -> -1074 <= E <= 970 -> m <= (2 ^ 53 - 1) * 2 ^ (E - e) ->
  sized s E (binary_round_aux 53 1024 s m e loc_Exact).
Proof.
  intros Hm He HE Hle. unfold binary_round_aux.
  assert (Hd : Zdigits2 m + e <= 53 + E).
  { pose proof (Zdigits2_le m (53 + (E - e)) ltac:(lia)) as H. rewrite Z.pow_add_r in H by lia. nia. }
  destruct (shr_fexp_spec m e loc_Exact Hm) as (r & -> & Hr & Hb & Hex). set (e' := Z.max e _) in *.
  pose proof (fexp_bounds _ E Hd ltac:(lia)).
  pose proof (round_even_bounds (shr_m r) (loc_of_shr_record r)).
  apply round_tail; [lia..| |lia]. intros Hcarry.
  destruct (decide (e' = E)) as [HeE|]; [|lia]. exfalso.
  assert (Hmax : shr_m r = 2 ^ 53 - 1) by lia. rewrite Hmax in *. rewrite HeE in *.
  pose proof (Z.mul_div_le m (2 ^ (E - e)) ltac:(lia)).
  rewrite Hex in Hcarry; [cbn in Hcarry; lia|done|]. rewrite <-Hr in *. lia.
Qed.

(** ** The operators *)

Lemma shl_align_spec m e e' :
  exists mz, shl_align m e e' = (mz, Z.min e e') /\ Zpos mz = Zpos m * 2 ^ (e - Z.min e e').
Proof.
  unfold shl_align. destruct (e' - e) as [|d|d] eqn:E.
  - exists m. split; [f_equal; lia|]. replace (e - Z.min e e') with 0 by lia. lia.
  - exists m. split; [f_equal; lia|]. replace (e - Z.min e e') with 0 by lia. lia.
  - exists (Pos.iter xO m d). split; [f_equal; lia|].
    replace (e - Z.min e e') with (Zpos d) by lia.
    rewrite Pos2Nat.inj_iter, <-(positive_nat_Z d).
    generalize (Pos.to_nat d). intros n. induction n as [|n IH]; [cbn; lia|].
    rewrite Nat2Z.inj_succ, Z.pow_succ_r by lia. cbn [Nat.iter nat_rect].
    rewrite Pos2Z.inj_xO. unfold Nat.iter in IH. rewrite IH. lia.
Qed.

Lemma binary_round_no_carry s m e E :
  e <= E -> -1074 <= E <= 970 -> Zpos m <= (2 ^ 53 - 1) * 2 ^ (E - e) ->
  sized s E (binary_round 53 1024 s m e).
Proof.
  intros He HE Hle. unfold binary_round.
  destruct (shl_align_spec m e (fexp 53 1024 (Zpos (digits2_pos m) + e))) as (mz & -> & Hmz).
  set (ez := Z.min _ _) in *. assert (ez <= e) by (unfold ez; lia).
  apply round_aux_no_carry; [lia..|]. rewrite Hmz.
  replace (E - ez) with ((E - e) + (e - ez)) by lia. rewrite Z.pow_add_r by lia.
  pose proof (Z.pow_pos_nonneg 2 (e - ez)). nia.
Qed.

Lemma binary_round_sized s m e E :
  e <= E -> -1074 <= E <= 969 -> Zpos m < 2 ^ (53 + E - e) ->
  sized s (E + 1) (binary_round 53 1024 s m e).
Proof.
  intros He HE Hlt. apply binary_round_no_carry; [lia..|].
  replace (E + 1 - e) with (1 + (E - e)) by lia.
  replace (53 + E - e) with (53 + (E - e)) in Hlt by lia.
  rewrite Z.pow_add_r in Hlt |- * by lia. nia.
Qed.

(** The numbers [min] and [max] keep [target_t1_size] within. *)
Definition in_range (x : float) : Prop := sized false 0 x.

Lemma float_of_int_in_range n : 0 <= n < 2 ^ 53 -> in_range (float_of_int n).
Proof.
  intros Hn. unfold in_range, float_of_int, binary_normalize. destruct n as [|p|p]; [done| |lia].
  apply binary_round_no_carry; lia.
Qed.

(** An integer of at most 53 bits is represented exactly. *)
Lemma float_of_int_exact n :
  0 < n < 2 ^ 53 ->
  exists m, float_of_int n = S754_finite false m (Zdigits2 n - 53) /\
    Zpos m = n * 2 ^ (53 - Zdigits2 n) /\ 1 <= Zdigits2 n <= 53 /\ 2 ^ 52 <= Zpos m < 2 ^ 53.
Proof.
  intros Hn. set (d := Zdigits2 n).
  assert (Hd : 1 <= d <= 53).
  { split; [unfold d; rewrite Zdigits2_log2 by lia; pose proof (Z.log2_nonneg n); lia|].
    apply Zdigits2_le; lia. }
  assert (Hb : 2 ^ (d - 1) <= n < 2 ^ d).
  { unfold d. rewrite Zdigits2_log2 by lia. pose proof (Z.log2_spec n ltac:(lia)).
    replace (Z.log2 n + 1 - 1) with (Z.log2 n) by lia. exact H. }
  destruct n as [|p|p]; [lia| |lia]. cbn [float_of_int binary_normalize]. unfold float_of_int, binary_normalize, binary_round.
  change (Zpos (digits2_pos p)) with d. replace (fexp 53 1024 (d + 0)) with (d - 53) by (unfold fexp, emin; lia).
  destruct (shl_align_spec p 0 (d - 53)) as (mz & -> & Hmz).
  rewrite Z.min_r in * by lia. replace (0 - (d - 53)) with (53 - d) in Hmz by lia.
  assert (Hz : 2 ^ 52 <= Zpos mz < 2 ^ 53).
  { rewrite Hmz. replace (2 ^ 52) with (2 ^ (d - 1) * 2 ^ (53 - d)) by (rewrite <-Z.pow_add_r by lia; f_equal; lia).
    replace (2 ^ 53) with (2 ^ d * 2 ^ (53 - d)) by (rewrite <-Z.pow_add_r by lia; f_equal; lia).
    pose proof (Z.pow_pos_nonneg 2 (53 - d)). nia. }
  assert (Hdz : Zdigits2 (Zpos mz) = 53).
  { rewrite Zdigits2_log2 by lia. rewrite (Z.log2_unique (Zpos mz) 52); lia. }
  assert (Hshr : exists r, shr_fexp 53 1024 (Zpos mz) (d - 53) loc_Exact = (r, d - 53) /\
                   shr_m r = Zpos mz /\ loc_of_shr_record r = loc_Exact).
  { destruct (shr_fexp_spec (Zpos mz) (d - 53) loc_Exact ltac:(lia)) as (r & Hr & Hm & _ & Hex).
    rewrite Hdz in *. replace (fexp 53 1024 (53 + (d - 53))) with (d - 53) in * by (unfold fexp, emin; lia).
    rewrite Z.max_id, Z.sub_diag, Z.div_1_r in *. exists r. split_and!; [done|done|].
    apply Hex; [done|]. lia. }
  destruct Hshr as (r & Hr & Hm & Hl). exists mz. split_and!; [|lia..].
  unfold binary_round_aux. rewrite Hr, Hl, Hm. cbn [round_nearest_even]. rewrite Hr, Hm.
  destruct (Z.leb_spec (d - 53) (1024 - 53)); [done|lia].
Qed.

Lemma shl_align_min m e e' :
  exists mz, fst (shl_align m e (Z.min e e')) = mz /\ Zpos mz = Zpos m * 2 ^ (e - Z.min e e').
Proof.
  destruct (shl_align_spec m e (Z.min e e')) as (mz & -> & Hz). exists mz.
  replace (Z.min e (Z.min e e')) with (Z.min e e') in Hz by lia. done.
Qed.

Lemma shl_align_min_r m e e' :
  exists mz, fst (shl_align m e' (Z.min e e')) = mz /\ Zpos mz = Zpos m * 2 ^ (e' - Z.min e e').
Proof. rewrite (Z.min_comm e e'). apply shl_align_min. Qed.

Lemma sized_mono s E E' x : E <= E' -> sized s E x -> sized s E' x.
Proof. destruct x; cbn; intros; naive_solver lia. Qed.

Lemma mantissa_lt m E e ez :
  Zdigits2 (Zpos m) <= 53 -> ez <= e -> e <= E -> Zpos m * 2 ^ (e - ez) <= (2 ^ 53 - 1) * 2 ^ (E - ez).
Proof.
  intros Hd He HE. pose proof (Zdigits2_lt (Zpos m) ltac:(lia)) as [_ Hm].
  assert (Zpos m < 2 ^ 53) by (eapply Z.lt_le_trans; [exact Hm|apply Z.pow_le_mono_r; lia]).
  pose proof (Z.pow_le_mono_r 2 (e - ez) (E - ez) ltac:(lia) ltac:(lia)).
  pose proof (Z.pow_pos_nonneg 2 (e - ez)). nia.
Qed.

Lemma fadd_sized x y E :
  -1074 <= E <= 900 -> sized false E x -> sized false E y -> sized false (E + 2) (fadd x y).
Proof.
  intros HE Hx Hy. destruct x as [[]|?| |sx mx ex], y as [[]|?| |sy my ey]; try done;
    try (eapply sized_mono; [|eassumption]; lia).
  destruct Hx as (-> & Hmx & Hex), Hy as (-> & Hmy & Hey).
  unfold fadd, SFadd. cbn [cond_Zopp].
  destruct (shl_align_min mx ex ey) as (zx & -> & Hzx).
  destruct (shl_align_min_r my ex ey) as (zy & -> & Hzy). set (ez := Z.min ex ey) in *.
  pose proof (mantissa_lt mx E ex ez Hmx ltac:(lia) Hex).
  pose proof (mantissa_lt my E ey ez Hmy ltac:(lia) Hey).
  cbn [binary_normalize Z.add]. replace (E + 2) with (E + 1 + 1) by lia.
  apply binary_round_sized; [lia..|].
  replace (53 + (E + 1) - ez) with (54 + (E - ez)) by lia. rewrite Z.pow_add_r by lia.
  pose proof (Z.pow_pos_nonneg 2 (E - ez)). nia.
Qed.

(** The difference of two non-negative numbers does not exceed the first. *)
Lemma fsub_sized x y E E' :
  -1074 <= E <= 900 -> -1074 <= E' <= 900 -> sized false E x -> sized false E' y ->
  sized false E (fsub x y) \/ exists m e, fsub x y = S754_finite true m e.
Proof.
  intros HE HE' Hx Hy. destruct x as [[]|?| |sx mx ex], y as [[]|?| |sy my ey]; try done; try (by left);
    try (destruct Hy as (-> & _); right; by eauto).
  destruct Hx as (-> & Hmx & Hex), Hy as (-> & Hmy & Hey).
  unfold fsub, SFsub. cbn [cond_Zopp].
  destruct (shl_align_min mx ex ey) as (zx & -> & Hzx).
  destruct (shl_align_min_r my ex ey) as (zy & -> & Hzy). set (ez := Z.min ex ey) in *.
  pose proof (mantissa_lt mx E ex ez Hmx ltac:(lia) Hex).
  pose proof (mantissa_lt my E' ey ez Hmy ltac:(lia) Hey).
  destruct (Zpos zx - Zpos zy) as [|z|z] eqn:Ez; [by left| |]; cbn [binary_normalize].
  - left. apply binary_round_no_carry; lia.
  - pose proof (binary_round_no_carry true z ez E' ltac:(lia) ltac:(lia) ltac:(lia)) as H1.
    destruct (binary_round _ _ _ _ _) as [| | |s m e]; try done; [by left|].
    right. destruct H1 as (-> & _). eauto.
Qed.

Lemma int_div_sized a b :
  0 <= a < 2 ^ 53 -> 0 < b < 2 ^ 53 -> exists x, int_div a b = Ok x /\ sized false 54 x.
Proof.
  intros Ha Hb. unfold int_div. destruct (Z.eqb_spec b 0); [lia|]. eexists. split; [done|].
  destruct (float_of_int_exact b Hb) as (mb & -> & _ & Hdb & Hmb).
  destruct (decide (a = 0)) as [->|]; [done|].
  destruct (float_of_int_exact a ltac:(lia)) as (ma & -> & _ & Hda & Hma).
  unfold fdiv, SFdiv, SFdiv_core_binary.
  assert (Hdm : forall m, 2 ^ 52 <= Zpos m < 2 ^ 53 -> Zdigits2 (Zpos m) = 53).
  { intros m Hm. rewrite Zdigits2_log2 by lia. rewrite (Z.log2_unique (Zpos m) 52); lia. }
  rewrite !Hdm by done. set (e := Z.min _ _).
  assert (He : e = Zdigits2 a - Zdigits2 b - 53) by (unfold e, fexp, emin; lia).
  replace (Zdigits2 a - 53 - (Zdigits2 b - 53) - e) with 53 by lia.
  rewrite Z.shiftl_mul_pow2 by lia.
  pose proof (Z_div_mod (Zpos ma * 2 ^ 53) (Zpos mb) ltac:(lia)) as Hq.
  destruct (Z.div_eucl _ _) as [q r]. destruct Hq as [Hq Hr].
  assert (0 <= q) by nia. assert (q < 2 ^ 106) by nia.
  pose proof (Zdigits2_le q 106 ltac:(lia) ltac:(lia)).
  change 54 with (53 + 1). apply round_aux_sized; lia.
Qed.

(** ** The updates of the adaptive target *)

Lemma fmin_in_range x c E :
  in_range c -> sized false E x -> in_range (fmin x c).
Proof.
  intros Hc Hx. unfold fmin, flt, SFltb.
  destruct x as [?|?| |sx mx ex], c as [?|?| |sc mc ec]; try done; cbn.
  { by destruct Hc as (-> & _). }
  { by destruct Hx as (-> & _). }
  destruct Hx as (-> & ? & ?), Hc as (-> & ? & ?). destruct (Z.compare_spec ec ex); cbn.
  - destruct (Pos.compare_cont Eq mc mx); cbn; split_and!; lia || done.
  - split_and!; lia || done.
  - split_and!; lia || done.
Qed.

Lemma target_increase t d c :
  in_range t -> in_range c -> sized false 54 d -> in_range (fmin (fadd t d) c).
Proof.
  intros Ht Hc Hd. eapply fmin_in_range; [done|]. apply (fadd_sized _ _ 54); [lia| |done].
  eapply sized_mono; [|exact Ht]. lia.
Qed.

Lemma target_decrease t d :
  in_range t -> sized false 54 d -> in_range (fmax (fsub t d) (float_of_int 0)).
Proof.
  intros Ht Hd. destruct (fsub_sized t d 0 54 ltac:(lia) ltac:(lia) Ht Hd) as [H|(m & e & ->)]; [|done].
  unfold fmax, flt, SFltb. destruct (fsub t d) as [?|?| |s m e]; try done.
  destruct H as (-> & ? & ?). by split_and!.
Qed.

Lemma fmax_sized s E x y : sized s E x -> sized s E y -> sized s E (fmax x y).
Proof. intros. unfold fmax. by case_match. Qed.

Lemma int_of_float_in_range x :
  in_range x -> exists n, int_of_float x = Ok n /\ 0 <= n < 2 ^ 53.
Proof.
  destruct x as [?|?| |s m e]; try done; [by exists 0|].
  intros (-> & Hd & He). cbn -[Z.div Z.pow].
  pose proof (Zdigits2_lt (Zpos m) ltac:(lia)) as [_ Hm].
  assert (Zpos m < 2 ^ 53) by (eapply Z.lt_le_trans; [exact Hm|apply Z.pow_le_mono_r; lia]).
  eexists. split; [done|]. destruct (Z.leb_spec 0 e).
  - replace e with 0 by lia. lia.
  - pose proof (Z.pow_pos_nonneg 2 (- e)). split; [apply Z.div_pos; lia|].
    apply Z.div_lt_upper_bound; nia.
Qed.

(** ** Signs *)

(** A product of numbers that are not negative truncates to one that is not. *)
Definition not_below_zero (x : float) : Prop :=
  match x with S754_finite s _ _ => s = false | _ => True end.

Lemma round_aux_not_below_zero m e l : not_below_zero (binary_round_aux 53 1024 false m e l).
Proof.
  unfold binary_round_aux. destruct (shr_fexp _ _ _ _ _) as [r e'].
  destruct (shr_fexp _ _ _ _ _) as [r' e'']. destruct (shr_m r'); try done. by destruct (Z.leb e'' _).
Qed.

Lemma float_of_int_not_below_zero n : 0 <= n -> not_below_zero (float_of_int n).
Proof.
  intros Hn. unfold float_of_int, binary_normalize, binary_round.
  destruct n as [|m|m]; [done| |lia]. destruct (shl_align _ _ _). apply round_aux_not_below_zero.
Qed.

Lemma fmul_not_below_zero x y : not_below_zero x -> not_below_zero y -> not_below_zero (fmul x y).
Proof.
  unfold fmul, SFmul. destruct x as [sx|sx| |sx mx ex], y as [sy|sy| |sy my ey]; simpl; try done.
  intros -> ->. apply round_aux_not_below_zero.
Qed.

Lemma fle_zero_not_below_zero x : fle (S754_zero false) x = true -> not_below_zero x.
Proof. by destruct x as [| | |[] m e]. Qed.

Lemma int_of_float_nonneg x n : not_below_zero x -> int_of_float x = Ok n -> 0 <= n.
Proof.
  destruct x as [| | |s m e]; simpl; intros Hx Hn; try done; [by injection Hn as <-|]. subst s.
  injection Hn as <-. destruct (Z.leb_spec 0 e).
  - apply Z.mul_nonneg_nonneg; [lia|by apply Z.pow_nonneg].
  - apply Z.div_pos; [lia|]. apply Z.pow_pos_nonneg; lia.
Qed.
