(* ===== verification/KVCacheManager.v ===== *)
(** [KVCacheManager] of src/upstream/vllm/v1/core/kv_cache_manager.py: what the
    scheduler calls to look up, reserve and give back the KV-cache blocks of a
    request. It adds to the coordinator the admission rules ([allocate_slots])
    and the pins on blocks handed to a KV connector.

    The prefix-cache statistics, the metrics and the annotation of events with
    spec metadata are left out. *)
From S2P Require Import Prelude FreeQueue Request BlockHash BlockPool CacheHit MambaHit SingleType GroupManager AttentionGroup MambaManager Coordinator HybridHit PyFloat.
Open Scope Z_scope.

(** * State *)

(** [KVCacheBlocks]: the pre-constructed object without blocks, which the code
    tests for by identity, or a fresh one. *)
Inductive KVCacheBlocks :=
  | EmptyBlocks
  | FreshBlocks (blocks : list (list bref)).

Record KVCacheManager (M : Type) := mkKVCacheManager {
  coordinator : Coordinator M;
  kv_max_model_len : Z;
  kv_enable_caching : bool;
  kv_enable_events : bool;
  watermark_blocks : Z;
  partial_tail_pins : gmap string (list bref)
}.
Arguments mkKVCacheManager {M}. Arguments coordinator {M}. Arguments kv_max_model_len {M}.
Arguments kv_enable_caching {M}. Arguments kv_enable_events {M}. Arguments watermark_blocks {M}.
Arguments partial_tail_pins {M}.

Definition with_coordinator {M} (c : Coordinator M) (k : KVCacheManager M) : KVCacheManager M :=
  mkKVCacheManager c (kv_max_model_len k) (kv_enable_caching k) (kv_enable_events k)
    (watermark_blocks k) (partial_tail_pins k).
Definition with_pins {M} (pins : gmap string (list bref)) (k : KVCacheManager M) : KVCacheManager M :=
  mkKVCacheManager (coordinator k) (kv_max_model_len k) (kv_enable_caching k) (kv_enable_events k)
    (watermark_blocks k) pins.

Definition num_kv_cache_groups {M} (k : KVCacheManager M) : nat :=
  length (kv_cache_groups (coordinator k)).

(** [__init__]; [watermark] is a float. *)
Definition kv_init `{PoolEnv} (groups : list KVCacheGroupSpec) (num_blocks : Z)
    (needs_kv_cache_zeroing : bool) (max_model_len scheduler_block_size hash_block_size : Z)
    (max_in_flight_tokens : option Z) (caching use_eagle events : bool)
    (dcp_world_size pcp_world_size : Z) (watermark : float) (interval : option Z)
    : result (KVCacheManager AnyManager) :=
  c ← coordinator_init groups num_blocks needs_kv_cache_zeroing max_model_len
        (default max_model_len max_in_flight_tokens) use_eagle caching events dcp_world_size
        pcp_world_size scheduler_block_size hash_block_size interval;
  _ ← assert_ (fle (float_of_int 0) watermark);
  watermark_blocks ← int_of_float (fmul watermark (float_of_int num_blocks));
  Ok (mkKVCacheManager c max_model_len caching events watermark_blocks ∅).

(** * [KVCacheBlocks] *)

(** [self.blocks]. *)
Definition blocks_in (n : nat) (b : KVCacheBlocks) : list (list bref) :=
  match b with EmptyBlocks => replicate n [] | FreshBlocks blocks => blocks end.

(** [create_kv_cache_blocks]. *)
Definition create_kv_cache_blocks (blocks : list (list bref)) : KVCacheBlocks :=
  if existsb (fun l : list bref => negb (zlen l =? 0)) blocks then FreshBlocks blocks else EmptyBlocks.

(** [__add__] (on the block tuples), [get_block_ids], [get_unhashed_block_ids] and
    [get_unhashed_block_ids_all_groups]. *)
Definition add_blocks (a b : list (list bref)) : list (list bref) := zip_with app a b.
Definition ids_of (l : list bref) : list Z := block_id <$> l.
Definition get_block_ids (allow_none : bool) (blocks : list (list bref)) : option (list (list Z)) :=
  if allow_none && forallb (fun l : list bref => zlen l =? 0) blocks then None
  else Some (ids_of <$> blocks).
Definition is_unhashed (p : BlockPool) (b : bref) : bool :=
  bool_decide (block_hash (pheap p b) = None).
Definition get_unhashed_block_ids (p : BlockPool) (blocks : list (list bref)) : result (list Z) :=
  _ ← assert_ (zlen blocks =? 1);
  l ← or_raise IndexError (head blocks);
  Ok (ids_of (filter (fun b => is_unhashed p b = true) l)).
Definition get_unhashed_block_ids_all_groups (p : BlockPool) (blocks : list (list bref))
    : list (list Z) :=
  (fun l => ids_of (filter (fun b => is_unhashed p b && negb (is_null (pheap p b)) = true) l))
    <$> blocks.

Section Operations.
Context `{PoolEnv} `{GroupManager M}.
Implicit Types (k : KVCacheManager M) (c : Coordinator M).

(** * Looking up *)

(** [prefix_cache_lookup_enabled]. *)
Definition prefix_cache_lookup_enabled (r : Request) k : bool :=
  kv_enable_caching k && negb (skip_reading_prefix_cache r).

(** The events for the reused blocks. *)
Fixpoint emit_reused (r : Request) (i : nat) (groups : list KVCacheGroupSpec)
    (computed_blocks : list (list bref)) (p : BlockPool) : result (Request * BlockPool) :=
  match computed_blocks, groups with
  | [], _ => Ok (r, p)
  | _, [] => Raise IndexError
  | blocks :: computed_blocks', g :: groups' =>
      '(r, p) ← (if 0 <? zlen blocks
                 then emit_cached_block_events r (zlen blocks) (spec_block_size (kg_spec g)) (Z.of_nat i) p
                 else Ok (r, p));
      emit_reused r (S i) groups' computed_blocks' p
  end.

(** [get_computed_blocks]; [report_full] is [request.kv_cache_report_mode == "full"]. *)
Definition get_computed_blocks (r : Request) (report_full : bool) k
    : result (KVCacheBlocks * Z * Z * Request * KVCacheManager M) :=
  if negb (prefix_cache_lookup_enabled r k) then Ok (EmptyBlocks, 0, 0, r, k) else
  let c := coordinator k in
  match co_find_longest_cache_hit c (Hashes (block_hashes r)) (num_tokens r - 1) with
  | Raise e => Raise e
  | Ok (computed_blocks, num_new_computed_tokens, num_uncached) =>
      match (if (0 <? num_new_computed_tokens) && kv_enable_events k && report_full
             then emit_reused r 0 (kv_cache_groups c) computed_blocks (block_pool c)
             else Ok (r, block_pool c)) with
      | Raise e => Raise e
      | Ok (r, p) =>
          Ok (create_kv_cache_blocks computed_blocks, num_new_computed_tokens,
              (if num_uncached =? 0 then 0 else num_new_computed_tokens + num_uncached),
              r, with_coordinator (with_managers (single_type_managers c) p c) k)
      end
  end.

(** [get_computed_blocks_for_connector]. *)
Definition get_computed_blocks_for_connector (r : Request) (report_full : bool) k
    : result (KVCacheBlocks * Z * Z * bool * Request * KVCacheManager M) :=
  let c := coordinator k in
  let reconciled :=
    match get_computed_blocks r report_full k with
    | Raise e => Raise e
    | Ok (blocks, n, boundary, r, k) => Ok (blocks, n, boundary, false, r, k)
    end in
  match co_kind c, full_attention_group_id c with
  | Hybrid, Some fa_group_id =>
      if negb (existsb (fun g => is_mamba (spec_kind (kg_spec g))) (kv_cache_groups c)) then reconciled
      else if negb (prefix_cache_lookup_enabled r k) then Ok (EmptyBlocks, 0, 0, false, r, k) else
      match find_longest_cache_hit_per_group c (Hashes (block_hashes r)) (num_tokens r - 1) with
      | Raise e => Raise e
      | Ok (computed, per_group_hits) =>
          match per_group_hits !! fa_group_id with
          | None => Raise IndexError
          | Some num_local =>
              if existsb (fun hit => num_local <? hit) per_group_hits then reconciled
              else Ok (create_kv_cache_blocks computed, num_local, 0,
                       existsb (fun hit => hit <? num_local) per_group_hits, r, k)
          end
      end
  | _, _ => reconciled
  end.

(** * Reserving *)

(** The token counts of [allocate_slots]. *)
Definition slots_for (r : Request) (num_new_tokens num_new_computed_tokens num_lookahead_tokens
    num_external_computed_tokens num_encoder_tokens : Z) k : Slots :=
  let num_local_computed_tokens := num_computed_tokens r + num_new_computed_tokens in
  let total_computed_tokens :=
    Z.min (num_local_computed_tokens + num_external_computed_tokens) (kv_max_model_len k) in
  let num_tokens_main_model := total_computed_tokens + num_new_tokens in
  mkSlots (request_id r) num_local_computed_tokens num_external_computed_tokens
    (Z.min (num_tokens_main_model + num_lookahead_tokens) (kv_max_model_len k))
    num_tokens_main_model num_encoder_tokens.

(** The blocks the whole sequence needs. *)
Definition full_sequence_blocks (r : Request) (s : Slots) (new_computed_blocks : list (list bref))
    (num_lookahead_tokens : Z) k : result Z :=
  let full_num_tokens := Z.min (num_tokens r) (kv_max_model_len k) in
  let full_num_slots := Z.min (full_num_tokens + num_lookahead_tokens) (kv_max_model_len k) in
  co_get_num_blocks_to_allocate (request_id r) full_num_slots new_computed_blocks (sl_encoder s)
    (Z.min (sl_total s) (kv_max_model_len k)) (sl_local s) full_num_tokens true (coordinator k).

(** The blocks this step needs. *)
Definition step_blocks (s : Slots) (new_computed_blocks : list (list bref)) c : result Z :=
  co_get_num_blocks_to_allocate (sl_request s) (sl_tokens s) new_computed_blocks (sl_encoder s)
    (sl_total s) (sl_local s) (sl_main s) false c.

(** The watermark is kept by waiting and preempted requests only. *)
Definition watermark_for (r : Request) (has_scheduled_reqs : bool) k : Z :=
  if has_scheduled_reqs && (bool_decide (status r = WAITING) || bool_decide (status r = PREEMPTED))
  then watermark_blocks k else 0.

(** [if self.enable_caching and not delay_cache_blocks]. *)
Definition cache_new (r : Request) (num_tokens_to_cache : Z) (caches : bool) c
    : result (Request * Coordinator M) :=
  if caches then co_cache_blocks r num_tokens_to_cache c else Ok (r, c).

(** [allocate_slots]. *)
Definition allocate_slots (r : Request) (num_new_tokens num_new_computed_tokens : Z)
    (new_computed_blocks : option KVCacheBlocks) (num_lookahead_tokens num_external_computed_tokens : Z)
    (delay_cache_blocks : bool) (num_encoder_tokens : Z) (full_sequence_must_fit : bool)
    (reserved_blocks : Z) (has_scheduled_reqs : bool) k
    : result (option KVCacheBlocks * Request * KVCacheManager M) :=
  if (num_new_tokens =? 0) && (num_external_computed_tokens =? 0) then Raise ValueError else
  let hits := default EmptyBlocks new_computed_blocks in
  let new_computed_block_list := blocks_in (num_kv_cache_groups k) hits in
  let s := slots_for r num_new_tokens num_new_computed_tokens num_lookahead_tokens
    num_external_computed_tokens num_encoder_tokens k in
  let watermark := watermark_for r has_scheduled_reqs k in
  fits ← (if full_sequence_must_fit then
      num_blocks_to_allocate ← full_sequence_blocks r s new_computed_block_list num_lookahead_tokens k;
      Ok (num_blocks_to_allocate + watermark + reserved_blocks
          <=? get_num_free_blocks (block_pool (coordinator k)))
    else Ok true);
  if negb fits then Ok (None, r, k) else
  c ← co_remove_skipped_blocks (request_id r)
        (Z.max 0 (Z.min (sl_total s) (kv_max_model_len k) - num_in_flight_tokens r))
        (Some (num_prompt_tokens r)) (coordinator k);
  num_blocks_to_allocate ← step_blocks s new_computed_block_list c;
  if get_num_free_blocks (block_pool c) - reserved_blocks <? num_blocks_to_allocate + watermark
  then Ok (None, r, with_coordinator c k) else
  c ← (if match hits with EmptyBlocks => false | FreshBlocks _ => true end
          || (0 <? num_external_computed_tokens)
       then allocate_new_computed_blocks (request_id r) new_computed_block_list (sl_local s)
              num_external_computed_tokens c
       else Ok c);
  '(new_blocks, c) ← co_allocate_new_blocks (request_id r) (sl_tokens s) (sl_main s)
                       num_encoder_tokens c;
  '(r, c) ← cache_new r (Z.min (Z.min (sl_total s) (kv_max_model_len k) + num_new_tokens) (num_tokens r))
              (kv_enable_caching k && negb delay_cache_blocks) c;
  Ok (Some (create_kv_cache_blocks new_blocks), r, with_coordinator c k).

(** [cache_blocks]. *)
Definition kv_cache_blocks (r : Request) (num_computed_tokens : Z) k
    : result (Request * KVCacheManager M) :=
  '(r, c) ← cache_new r num_computed_tokens (kv_enable_caching k) (coordinator k);
  Ok (r, with_coordinator c k).

(** * Giving back *)

(** [free]. *)
Definition kv_free (r : Request) k : result (KVCacheManager M) :=
  let c := coordinator k in
  p ← (match partial_tail_pins k !! request_id r with
       | Some (b :: pins) => free_blocks (b :: pins) (block_pool c)
       | _ => Ok (block_pool c) end);
  c ← co_free (request_id r) (with_managers (single_type_managers c) p c);
  Ok (with_pins (delete (request_id r) (partial_tail_pins k)) (with_coordinator c k)).

(** [remove_skipped_blocks]. *)
Definition kv_remove_skipped_blocks (rid : string) (processed_computed_tokens : Z)
    (num_prompt_tokens : option Z) k : result (KVCacheManager M) :=
  c ← co_remove_skipped_blocks rid processed_computed_tokens num_prompt_tokens (coordinator k);
  Ok (with_coordinator c k).

(** [pop_blocks_for_free]. *)
Definition kv_pop_blocks_for_free (r : Request) k : list bref * KVCacheManager M :=
  let '(blocks, c) := co_pop_blocks_for_free (request_id r) (coordinator k) in
  let k := with_coordinator c k in
  (default [] (partial_tail_pins k !! request_id r) ++ blocks,
   with_pins (delete (request_id r) (partial_tail_pins k)) k).

(** [evict_blocks] and [reset_prefix_cache]. *)
Definition kv_evict_blocks (block_ids : list Z) k : result (KVCacheManager M) :=
  let c := coordinator k in
  p ← evict_blocks block_ids (block_pool c);
  Ok (with_coordinator (with_managers (single_type_managers c) p c) k).
Definition kv_reset_prefix_cache k : bool * KVCacheManager M :=
  let c := coordinator k in
  let '(done, p) := reset_prefix_cache (block_pool c) in
  (done, with_coordinator (with_managers (single_type_managers c) p c) k).

(** * Reading and draining *)

(** [get_num_common_prefix_blocks], [get_blocks] and [get_block_ids]. *)
Definition kv_get_num_common_prefix_blocks (rid : string) k : list Z * KVCacheManager M :=
  let '(counts, c) := co_get_num_common_prefix_blocks rid (coordinator k) in (counts, with_coordinator c k).
Definition kv_get_blocks (rid : string) k : KVCacheBlocks :=
  create_kv_cache_blocks (co_get_blocks rid (coordinator k)).
Definition kv_get_block_ids (rid : string) k : list (list Z) :=
  ids_of <$> blocks_in (num_kv_cache_groups k) (kv_get_blocks rid k).

(** [get_block_ids_for_computed_tokens]. *)
Fixpoint clip_ids (groups : list KVCacheGroupSpec) (block_ids : list (list Z))
    (num_computed_tokens : Z) : list (list Z) :=
  match groups, block_ids with
  | g :: groups', ids :: block_ids' =>
      (match spec_kind (kg_spec g) with
       | MambaSpec _ _ | CrossAttentionSpec => ids
       | _ => py_upto ids (cdiv num_computed_tokens (spec_block_size (kg_spec g))) end)
      :: clip_ids groups' block_ids' num_computed_tokens
  | _, _ => []
  end.
Definition get_block_ids_for_computed_tokens (rid : string) (num_computed_tokens : Z) k
    : list (list Z) :=
  clip_ids (kv_cache_groups (coordinator k)) (kv_get_block_ids rid k) num_computed_tokens.

(** [estimate_cached_tokens]. *)
Definition group_cached_tokens (p : BlockPool) (blocks : list bref) : Z :=
  foldl (fun n b => Z.max n (default 0 (block_hash_num_tokens (pheap p b)))) 0 blocks.
Fixpoint estimate_loop (p : BlockPool) (groups : list KVCacheGroupSpec) (blocks : list (list bref))
    (cached_tokens : option Z) : option Z :=
  match groups, blocks with
  | g :: groups', l :: blocks' =>
      estimate_loop p groups' blocks'
        (match spec_kind (kg_spec g) with
         | CrossAttentionSpec => cached_tokens
         | _ => Some (match cached_tokens with
             | None => group_cached_tokens p l | Some n => Z.min n (group_cached_tokens p l) end)
         end)
  | _, _ => cached_tokens
  end.
Definition estimate_cached_tokens (r : Request) k : Z :=
  default 0 (estimate_loop (block_pool (coordinator k)) (kv_cache_groups (coordinator k))
    (blocks_in (num_kv_cache_groups k) (kv_get_blocks (request_id r) k)) None).

(** [truncate_computed_blocks]. *)
Fixpoint truncate_loop (num_computed_tokens : Z) (ms : list M) (blocks : list (list bref))
    : result (list (list bref)) :=
  match ms, blocks with
  | [], [] => Ok []
  | m :: ms', l :: blocks' =>
      rest ← py_mod num_computed_tokens (gm_block_size m);
      _ ← assert_ (rest =? 0);
      num_blocks ← py_div num_computed_tokens (gm_block_size m);
      _ ← assert_ (num_blocks <=? zlen l);
      truncated ← truncate_loop num_computed_tokens ms' blocks';
      Ok (py_upto l num_blocks :: truncated)
  | _, _ => Raise ValueError
  end.
Definition truncate_computed_blocks (blocks : KVCacheBlocks) (num_computed_tokens : Z) k
    : result KVCacheBlocks :=
  truncated ← truncate_loop num_computed_tokens (single_type_managers (coordinator k))
                (blocks_in (num_kv_cache_groups k) blocks);
  Ok (create_kv_cache_blocks truncated).

(** [take_new_block_ids]. *)
Definition kv_take_new_block_ids k : list Z * KVCacheManager M :=
  let c := coordinator k in
  let taken := gm_take_new_block_ids <$> single_type_managers c in
  (concat taken.*1, with_coordinator (with_managers taken.*2 (block_pool c) c) k).

(** [get_zeroing_block_ids_in_range]. *)
Definition get_zeroing_block_ids_in_range (rid : string) (start_token end_token : Z) k : list Z :=
  concat ((fun m : M =>
    if gm_records_new_block_ids m
    then ids_of (py_slice (gm_blocks m rid) (start_token / gm_block_size m)
           (cdiv end_token (gm_block_size m)))
    else []) <$> single_type_managers (coordinator k)).

(** [record_blocks_for_zeroing]. *)
Definition record_blocks_for_zeroing (rid : string) (start_token : Z) k : result (KVCacheManager M) :=
  let c := coordinator k in
  '(ms, p) ← each_manager (fun _ m p =>
      if gm_records_new_block_ids m then
        rest ← py_mod start_token (gm_block_size m);
        _ ← assert_ (rest =? 0);
        Ok (gm_extend_new_block_ids
              (ids_of (py_from (gm_blocks m rid) (start_token / gm_block_size m))) m, p)
      else Ok (m, p)) (single_type_managers c) (block_pool c);
  Ok (with_coordinator (with_managers ms p c) k).

(** [take_kv_cache_block_copies]: the copies and the blocks they keep alive. *)
Definition take_kv_cache_block_copies k : list (Z * Z) * list bref * KVCacheManager M :=
  let c := coordinator k in
  let taken := gm_take_cow_copies <$> single_type_managers c in
  let pending_copies := concat taken.*1 in
  ((fun pair : bref * bref => (block_id pair.1, block_id pair.2)) <$> pending_copies,
   concat ((fun pair : bref * bref => [pair.1; pair.2]) <$> pending_copies),
   with_coordinator (with_managers taken.*2 (block_pool c) c) k).

(** [take_partial_tail_offloads]: the blocks handed to the connector are pinned. *)
Definition pin_offload (e : string * Z * bref * Z)
    (st : BlockPool * gmap string (list bref) * gmap string (list (Z * Z * Z)))
    : result (BlockPool * gmap string (list bref) * gmap string (list (Z * Z * Z))) :=
  let '(p, pins, offloads) := st in
  let '(req_id, group_id, block, boundary_tokens) := e in
  p ← touch [block] p;
  Ok (p, <[req_id := default [] (pins !! req_id) ++ [block]]> pins,
      <[req_id := default [] (offloads !! req_id) ++ [(group_id, block_id block, boundary_tokens)]]>
        offloads).
Definition take_partial_tail_offloads k
    : result (gmap string (list (Z * Z * Z)) * KVCacheManager M) :=
  let c := coordinator k in
  let taken := gm_take_offloads <$> single_type_managers c in
  match for_each pin_offload (concat taken.*1) (block_pool c, partial_tail_pins k, ∅) with
  | Raise e => Raise e
  | Ok (p, pins, offloads) =>
      Ok (offloads, with_pins pins (with_coordinator (with_managers taken.*2 p c) k))
  end.

(** [new_step_starts]. *)
Definition kv_new_step_starts k : KVCacheManager M :=
  with_coordinator (co_new_step_starts (coordinator k)) k.
End Operations.

(** * Reserving never fails *)

Section Reserve.
Context `{PoolEnv} `{GroupManagerLaws M}.
Implicit Types (k : KVCacheManager M) (c : Coordinator M) (others : nat -> Z).

(** The references held by the managers, by the pins and by [others] are all there
    are. *)
Record kv_ok k (xs : list nat) others : Prop := {
  ko_pool : pool_inv (block_pool (coordinator k)) xs;
  ko_owned : owned (single_type_managers (coordinator k)) (block_pool (coordinator k))
    (fun i => others i + table_refs (partial_tail_pins k) i);
  ko_others i : 0 <= others i;
  ko_pins rid l : partial_tail_pins k !! rid = Some l -> pool_list (block_pool (coordinator k)) l;
  ko_groups : length (single_type_managers (coordinator k)) = num_kv_cache_groups k;
  ko_scheduler : 0 < co_scheduler_block_size (coordinator k);
  ko_watermark : 0 <= watermark_blocks k
}.

Lemma kv_ok_change k c xs xs' others :
  kv_ok k xs others -> same_shape (coordinator k) c -> pool_inv (block_pool c) xs' ->
  same_config (block_pool (coordinator k)) (block_pool c) ->
  owned (single_type_managers c) (block_pool c) (fun i => others i + table_refs (partial_tail_pins k) i) ->
  kv_ok (with_coordinator c k) xs' others.
Proof.
  intros [Hp Ho Hn Hpins Hg Hs Hw] [Hc Hl] Hi Hcfg Ho'. split; simpl; try done.
  - intros rid l Hlk. eapply pool_list_config; [done|by eapply Hpins].
  - rewrite Hl, Hg. unfold num_kv_cache_groups. simpl. by rewrite Hc.
  - by rewrite Hc.
Qed.

(** What [allocate_slots] may be called with: a request that no manager knows, with
    a hit in every group, or one that has its blocks. *)
Definition reservable k (s : Slots) (hits : KVCacheBlocks) : Prop :=
  let ms := single_type_managers (coordinator k) in
  match hits, 0 <? sl_external s with
  | EmptyBlocks, false => Forall (fun m => gm_resumed m s) ms
  | _, _ => admissible ms (block_pool (coordinator k)) s (blocks_in (num_kv_cache_groups k) hits)
  end.

(** The call of the coordinator's [allocate_new_computed_blocks], if any, and the
    new blocks. *)
Definition reserve (s : Slots) (hits : KVCacheBlocks) (n : nat) c
    : result (list (list bref) * Coordinator M) :=
  c ← (if match hits with EmptyBlocks => false | FreshBlocks _ => true end || (0 <? sl_external s)
       then allocate_new_computed_blocks (sl_request s) (blocks_in n hits) (sl_local s) (sl_external s) c
       else Ok c);
  co_allocate_new_blocks (sl_request s) (sl_tokens s) (sl_main s) (sl_encoder s) c.

Lemma reservable_predicts k s hits c rid tokens enc total local main cap :
  length (single_type_managers (coordinator k)) = num_kv_cache_groups k ->
  rid = sl_request s -> reservable k s hits -> c = coordinator k ->
  exists n, co_get_num_blocks_to_allocate rid tokens (blocks_in (num_kv_cache_groups k) hits) enc total local
    main cap c = Ok n.
Proof.
  intros Hlen -> Hr ->. unfold co_get_num_blocks_to_allocate. apply sum_predictions_total.
  intros j m Hj. unfold reservable in Hr. destruct hits as [|blocks].
  - destruct (0 <? sl_external s).
    + destruct (Hr j m Hj) as (l & Hl & Hnew & _). exists l. split; [done|by right].
    + exists []. split; [|by left]. apply lookup_replicate_2. rewrite <-Hlen. by eapply lookup_lt_Some.
  - destruct (Hr j m Hj) as (l & Hl & Hnew & _). exists l. split; [done|by right].
Qed.

(** If the blocks predicted for a step are free, the step gets its blocks. *)
Lemma reserve_Ok k xs others s hits n :
  kv_ok k xs others -> 0 <= sl_external s -> reservable k s hits ->
  step_blocks s (blocks_in (num_kv_cache_groups k) hits) (coordinator k) = Ok n -> n <= zlen xs ->
  exists new c' xs', reserve s hits (num_kv_cache_groups k) (coordinator k) = Ok (new, c') /\
    kv_ok (with_coordinator c' k) xs' others /\ zlen xs - zlen xs' <= n /\
    Forall (fun m => gm_covered m s) (single_type_managers c') /\ length new = num_kv_cache_groups k /\
    same_config (block_pool (coordinator k)) (block_pool c').
Proof.
  intros Hk He Hr Hn Hle. pose proof (ko_pool _ _ _ Hk) as Hi. pose proof (ko_owned _ _ _ Hk) as Ho.
  assert (admissible (single_type_managers (coordinator k)) (block_pool (coordinator k)) s
      (blocks_in (num_kv_cache_groups k) hits) ->
    exists new c' xs', (c ← allocate_new_computed_blocks (sl_request s) (blocks_in (num_kv_cache_groups k) hits)
        (sl_local s) (sl_external s) (coordinator k);
      co_allocate_new_blocks (sl_request s) (sl_tokens s) (sl_main s) (sl_encoder s) c) = Ok (new, c') /\
    kv_ok (with_coordinator c' k) xs' others /\ zlen xs - zlen xs' <= n /\
    Forall (fun m => gm_covered m s) (single_type_managers c') /\ length new = num_kv_cache_groups k /\
    same_config (block_pool (coordinator k)) (block_pool c')) as Hadm.
  { intros Had. destruct (admission_Ok (coordinator k) xs _ s _ n Hi Ho Had He Hn Hle)
      as (c1 & new & c2 & xs' & -> & Ha & Hi2 & Hc2 & Ho2 & Ht & Hcov & Hl & Hsh).
    exists new, c2, xs'. split; [exact Ha|]. rewrite Hl, (ko_groups _ _ _ Hk).
    split_and!; try done. by eapply kv_ok_change. }
  unfold reservable in Hr. unfold reserve. destruct hits as [|blocks]; [|by apply Hadm].
  destruct (0 <? sl_external s) eqn:Eext; [by apply Hadm|].
  destruct (resumed_Ok (coordinator k) xs _ s (replicate (num_kv_cache_groups k) []) n Hi Ho)
    as (new & c' & xs' & Ha & Hi2 & Hc2 & Ho2 & Ht & Hcov & Hl & Hsh); [lia|done| |exact Hn|done|].
  { intros j l Hj. by apply lookup_replicate in Hj as [-> _]. }
  exists new, c', xs'. split; [exact Ha|]. rewrite Hl, (ko_groups _ _ _ Hk).
  split_and!; try done. by eapply kv_ok_change.
Qed.

(** Removing the skipped blocks keeps what the reservation needs. *)
Lemma kv_remove_Ok k xs others s hits processed np :
  kv_ok k xs others -> reservable k s hits ->
  Forall (fun m => gm_removable m (sl_request s) processed np) (single_type_managers (coordinator k)) ->
  exists c xs', co_remove_skipped_blocks (sl_request s) processed np (coordinator k) = Ok c /\
    kv_ok (with_coordinator c k) xs' others /\ reservable (with_coordinator c k) s hits /\
    kv_cache_groups c = kv_cache_groups (coordinator k) /\
    same_config (block_pool (coordinator k)) (block_pool c).
Proof.
  intros Hk Hr Hrm.
  destruct (co_remove_skipped_Ok (coordinator k) xs _ (sl_request s) processed np (ko_pool _ _ _ Hk)
    (ko_owned _ _ _ Hk) Hrm) as (ms & p & xs' & Hc & Hi & Hcfg & Ho & Hrel).
  exists (with_managers ms p (coordinator k)), xs'. split; [exact Hc|].
  assert (length ms = length (single_type_managers (coordinator k))) as Hl
    by (symmetry; by eapply Forall2_length).
  split; [by eapply kv_ok_change; [|by apply same_shape_managers|..]|].
  assert (forall bl, admissible (single_type_managers (coordinator k)) (block_pool (coordinator k)) s bl ->
    admissible ms p s bl) as Hadm.
  { intros bl Had j m' Hj. destruct (Forall2_lookup_r _ _ _ _ _ Hrel Hj) as (m & Hm & Hnew & _ & Hhit).
    destruct (Had j m Hm) as (l & ? & ? & ?). exists l. split_and!; [done|by apply Hnew|].
    apply Hhit. by eapply gm_hit_config. }
  split; [|done]. unfold reservable in *. unfold num_kv_cache_groups in *. simpl in *.
  destruct hits as [|blocks]; [destruct (0 <? sl_external s)|]; [by apply Hadm| |by apply Hadm].
  apply Forall_lookup_2. intros j m' Hj.
  destruct (Forall2_lookup_r _ _ _ _ _ Hrel Hj) as (m & Hm & _ & Hres & _).
  apply Hres; [done|]. by apply (Forall_lookup_1 _ _ _ _ Hr Hm).
Qed.
End Reserve.

Lemma watermark_for_nonneg {M} `{GroupManager M} r sched (k : KVCacheManager M) :
  0 <= watermark_blocks k -> 0 <= watermark_for r sched k.
Proof. intros Hw. unfold watermark_for. by destruct (_ && _). Qed.

Section Allocate.
Context `{PoolEnv} `{GroupManager M}.

(** [allocate_slots] as its two gates, the reservation and the caching. *)
Lemma allocate_slots_eq (k : KVCacheManager M) r num_new_tokens num_new_computed new_computed_blocks
    num_lookahead num_external (delay : bool) num_encoder (full : bool) reserved sched whole free :
  let s := slots_for r num_new_tokens num_new_computed num_lookahead num_external num_encoder k in
  let hits := default EmptyBlocks new_computed_blocks in
  let total := Z.min (sl_total s) (kv_max_model_len k) in
  num_new_tokens <> 0 \/ num_external <> 0 ->
  get_num_free_blocks (block_pool (coordinator k)) = free ->
  full_sequence_blocks r s (blocks_in (num_kv_cache_groups k) hits) num_lookahead k = Ok whole ->
  allocate_slots r num_new_tokens num_new_computed new_computed_blocks num_lookahead
    num_external delay num_encoder full reserved sched k =
  if full && (free <? whole + watermark_for r sched k + reserved) then Ok (None, r, k)
  else c ← co_remove_skipped_blocks (request_id r) (Z.max 0 (total - num_in_flight_tokens r))
             (Some (num_prompt_tokens r)) (coordinator k);
    n ← step_blocks s (blocks_in (num_kv_cache_groups k) hits) c;
    if get_num_free_blocks (block_pool c) - reserved <? n + watermark_for r sched k
    then Ok (None, r, with_coordinator c k) else
    '(new, c) ← reserve s hits (num_kv_cache_groups k) c;
    '(r', c) ← cache_new r (Z.min (total + num_new_tokens) (num_tokens r))
                 (kv_enable_caching k && negb delay) c;
    Ok (Some (create_kv_cache_blocks new), r', with_coordinator c k).
Proof.
  intros s hits total Hnz Hfree Hwhole.
  assert (sl_request s = request_id r) as Hrid by done. assert (sl_external s = num_external) as Hext by done.
  unfold allocate_slots. fold s hits. fold total.
  destruct (Z.eqb_spec num_new_tokens 0), (Z.eqb_spec num_external 0); try (exfalso; lia); cbn [andb].
  all: destruct full; cbn [andb]; [rewrite Hwhole|]; cbn [mbind result_bind].
  all: rewrite ?Hfree, ?Z.leb_antisym, ?negb_involutive; cbn [negb].
  all: try (destruct (free <? _); [done|]).
  all: destruct (co_remove_skipped_blocks _ _ _ _) as [c|]; [|done]; cbn [mbind result_bind].
  all: destruct (step_blocks s _ c) as [n'|]; [|done]; cbn [mbind result_bind].
  all: destruct (_ <? n' + _); [done|]; unfold reserve; rewrite ?Hext, ?Hrid.
  all: destruct (if _ || _ then _ else _) as [c'|]; done.
Qed.
End Allocate.

Section Properties.
Context `{PoolEnv} `{GroupManagerLaws M}.
Implicit Types (k : KVCacheManager M) (c : Coordinator M) (others : nat -> Z).

(** C5: [allocate_slots] admits a request iff its blocks fit, and then it gets them.
    The two gates (the whole sequence when [full_sequence_must_fit], then this
    step's slots after the skipped blocks were freed) compare the predictions
    of all groups, the watermark and the reserved blocks with the free blocks;
    if one fails the answer is [None] and every block is still owned by those
    who held it. Otherwise no group raises: the hits are touched, the external
    and the new blocks are taken, at most as many as predicted, every group
    covers the slots, and all that is left is caching. *)
Theorem allocate_slots_spec k xs others r num_new_tokens num_new_computed new_computed_blocks
    num_lookahead num_external (delay : bool) num_encoder (full : bool) reserved sched :
  let s := slots_for r num_new_tokens num_new_computed num_lookahead num_external num_encoder k in
  let hits := default EmptyBlocks new_computed_blocks in
  let total := Z.min (sl_total s) (kv_max_model_len k) in
  let processed := Z.max 0 (total - num_in_flight_tokens r) in
  kv_ok k xs others -> 0 <= num_external -> num_new_tokens <> 0 \/ num_external <> 0 -> 0 <= reserved ->
  reservable k s hits ->
  Forall (fun m => gm_removable m (request_id r) processed (Some (num_prompt_tokens r)))
    (single_type_managers (coordinator k)) ->
  let result := allocate_slots r num_new_tokens num_new_computed new_computed_blocks num_lookahead
    num_external delay num_encoder full reserved sched k in
  exists whole, full_sequence_blocks r s (blocks_in (num_kv_cache_groups k) hits) num_lookahead k = Ok whole /\
  if full && (zlen xs <? whole + watermark_for r sched k + reserved) then result = Ok (None, r, k) else
  exists c1 xs1 n, co_remove_skipped_blocks (request_id r) processed (Some (num_prompt_tokens r))
      (coordinator k) = Ok c1 /\
    kv_ok (with_coordinator c1 k) xs1 others /\
    step_blocks s (blocks_in (num_kv_cache_groups k) hits) c1 = Ok n /\
  if zlen xs1 - reserved <? n + watermark_for r sched k
  then result = Ok (None, r, with_coordinator c1 k) else
  exists new c2 xs2, kv_ok (with_coordinator c2 k) xs2 others /\ zlen xs1 - zlen xs2 <= n /\
    Forall (fun m => gm_covered m s) (single_type_managers c2) /\ length new = num_kv_cache_groups k /\
    result = '(r', c) ← cache_new r (Z.min (total + num_new_tokens) (num_tokens r))
                          (kv_enable_caching k && negb delay) c2;
             Ok (Some (create_kv_cache_blocks new), r', with_coordinator c k).
Proof.
  intros s hits total processed Hk He Hnz Hres Hr Hrm result.
  assert (sl_request s = request_id r) as Hrid by done. assert (sl_external s = num_external) as Hext by done.
  destruct (reservable_predicts k s hits (coordinator k) (request_id r)
    (Z.min (Z.min (num_tokens r) (kv_max_model_len k) + num_lookahead) (kv_max_model_len k)) (sl_encoder s)
    (Z.min (sl_total s) (kv_max_model_len k)) (sl_local s) (Z.min (num_tokens r) (kv_max_model_len k)) true
    (ko_groups _ _ _ Hk) eq_refl Hr eq_refl) as (whole & Hwhole).
  change (full_sequence_blocks r s (blocks_in (num_kv_cache_groups k) hits) num_lookahead k = Ok whole)
    in Hwhole. exists whole. split; [exact Hwhole|].
  assert (result = _) as -> by exact (allocate_slots_eq k r num_new_tokens num_new_computed
    new_computed_blocks num_lookahead num_external delay num_encoder full reserved sched whole (zlen xs)
    Hnz (pool_inv_free _ _ (ko_pool _ _ _ Hk)) Hwhole).
  fold s hits. fold total. fold processed.
  destruct (full && _); [done|].
  destruct (kv_remove_Ok k xs others s hits processed (Some (num_prompt_tokens r)) Hk Hr Hrm)
    as (c1 & xs1 & Hrem & Hk1 & Hr1 & Hg1 & _).
  destruct (reservable_predicts (with_coordinator c1 k) s hits c1 (sl_request s) (sl_tokens s) (sl_encoder s)
    (sl_total s) (sl_local s) (sl_main s) false (ko_groups _ _ _ Hk1) eq_refl Hr1 eq_refl) as (n & Hn).
  assert (num_kv_cache_groups (with_coordinator c1 k) = num_kv_cache_groups k) as Hng
    by (unfold num_kv_cache_groups; simpl; by rewrite Hg1).
  rewrite Hng in Hn. change (step_blocks s (blocks_in (num_kv_cache_groups k) hits) c1 = Ok n) in Hn.
  exists c1, xs1, n. rewrite Hrid in Hrem. split; [exact Hrem|]. split; [exact Hk1|]. split; [exact Hn|].
  rewrite Hrem. cbn [mbind result_bind]. rewrite Hn. cbn [mbind result_bind].
  assert (get_num_free_blocks (block_pool c1) = zlen xs1) as -> by apply (pool_inv_free _ _ (ko_pool _ _ _ Hk1)).
  destruct (Z.ltb_spec (zlen xs1 - reserved) (n + watermark_for r sched k)); [done|].
  pose proof (watermark_for_nonneg r sched k (ko_watermark _ _ _ Hk)) as Hwm.
  destruct (reserve_Ok (with_coordinator c1 k) xs1 others s hits n Hk1) as
    (new & c2 & xs2 & Hres2 & Hk2 & Ht & Hcov & Hl & _); [by rewrite Hext|done|by rewrite Hng|lia|].
  rewrite Hng in Hres2, Hl. simpl in Hres2. rewrite Hres2. cbn [mbind result_bind].
  exists new, c2, xs2. by split_and!.
Qed.
End Properties.

(** * Concrete inputs *)

Definition demo_request : Request :=
  mkRequest "a"%string 0 example_time 1 WAITING None (Some example_sampling) None None 3 None ∅ 40
    [] (replicate 40 0) [] 0 0 None [] 0 0 [] false.

Lemma demo_resumed m s : m ∈ demo_managers -> 0 <= sl_total s < 40 -> gm_resumed m s.
Proof.
  intros Hm Hs. repeat (apply elem_of_cons in Hm as [->|Hm]); [..|by apply not_elem_of_nil in Hm].
  all: split; [reflexivity|split; [reflexivity|right]].
  1,2: by change (0 / 16 <= 0).
  change (Z.max 0 (sl_total s - 40 + 1) / 16 <= 0). rewrite Z.max_l by lia. done.
Qed.

Lemma demo_removable m rid processed np : m ∈ demo_managers -> 0 <= processed -> (forall n, np = Some n -> 0 <= n) ->
  gm_removable m rid processed np.
Proof.
  intros Hm Hp Hn. repeat (apply elem_of_cons in Hm as [->|Hm]); [..|by apply not_elem_of_nil in Hm].
  all: by split_and!.
Qed.

Lemma demo_kv_ok c : demo_coordinator = Ok c ->
  kv_ok (mkKVCacheManager c 1024 true false 0 ∅) (seq 1 7) (fun _ => 0).
Proof.
  intros Hc. destruct (demo_facts c Hc) as (_ & _ & _ & _ & _ & Hn & _ & Hm & Hi & Ho).
  apply coordinator_init_Ok in Hc as (_ & _ & _ & _ & _ & _ & Hs); [|by repeat constructor].
  split; simpl; try done.
  - unfold num_kv_cache_groups. simpl. by rewrite Hm, Hn.
  - by rewrite Hs.
Qed.

Lemma allocate_slots_spec_witness :
  exists c whole, demo_coordinator = Ok c /\
    let k := mkKVCacheManager c 1024 true false 0 ∅ in
    full_sequence_blocks demo_request (slots_for demo_request 40 0 0 0 0 k)
      (blocks_in (num_kv_cache_groups k) EmptyBlocks) 0 k = Ok whole.
Proof.
  destruct demo_init as [c Hc].
  destruct (demo_facts c Hc) as (_ & _ & _ & _ & _ & _ & _ & Hm & _).
  destruct (allocate_slots_spec (mkKVCacheManager c 1024 true false 0 ∅) (seq 1 7) (fun _ => 0) demo_request
    40 0 None 0 0 false 0 true 0 true) as (whole & Hwhole & _).
  - by apply demo_kv_ok.
  - lia.
  - left. lia.
  - lia.
  - unfold reservable. cbn [default sl_external slots_for]. cbn [coordinator]. rewrite Hm.
    apply Forall_forall. intros m Hin. apply demo_resumed; [done|]. vm_compute. by split.
  - cbn [coordinator]. rewrite Hm. apply Forall_forall. intros m Hin. apply demo_removable; [done|vm_compute; discriminate|].
    intros n [= <-]. vm_compute. discriminate.
  - exists c, whole. split; [exact Hc|exact Hwhole].
Defined.
