(* ===== verification/KVLifecycle.v ===== *)
(** The life of the KV-cache blocks under the scheduler: the calls that
    src/upstream/vllm/v1/core/sched/scheduler.py makes on the [KVCacheManager], as
    a step relation, and the accounting of references that every sequence of
    them keeps. *)
From S2P Require Import Prelude FreeQueue Request BlockHash BlockPool CacheHit MambaHit SingleType GroupManager AttentionGroup MambaManager Coordinator HybridHit PyFloat KVCacheManager.
Open Scope Z_scope.

(** * The calls of the scheduler *)

Section Steps.
Context `{PoolEnv} `{GroupManagerLaws M}.
Implicit Types (k : KVCacheManager M) (held : list bref).

Definition with_pool (p : BlockPool) k : KVCacheManager M :=
  with_coordinator (with_managers (single_type_managers (coordinator k)) p (coordinator k)) k.

(** One call that returned. [held] are the blocks whose references the scheduler
    holds itself: those popped from a request whose last step still runs, and
    those that pending copies keep alive; it gives them back in lists of its own
    choice. Requests are admitted as [reservable] and [gm_removable] say. *)
Inductive kv_step k held : KVCacheManager M -> list bref -> Prop :=
  | kv_allocate r num_new num_new_computed hits lookahead external delay encoder full reserved sched
      new r' k' :
      let s := slots_for r num_new num_new_computed lookahead external encoder k in
      let total := Z.min (sl_total s) (kv_max_model_len k) in
      0 <= external -> 0 <= num_new -> 0 <= reserved -> 0 <= total ->
      reservable k s (default EmptyBlocks hits) ->
      Forall (fun m => gm_removable m (request_id r) (Z.max 0 (total - num_in_flight_tokens r))
        (Some (num_prompt_tokens r))) (single_type_managers (coordinator k)) ->
      allocate_slots r num_new num_new_computed hits lookahead external delay encoder full reserved
        sched k = Ok (new, r', k') -> kv_step k held k' held
  | kv_cache r n r' k' :
      0 <= n -> kv_cache_blocks r n k = Ok (r', k') -> kv_step k held k' held
  | kv_remove rid processed np k' :
      Forall (fun m => gm_removable m rid processed np) (single_type_managers (coordinator k)) ->
      kv_remove_skipped_blocks rid processed np k = Ok k' -> kv_step k held k' held
  | kv_free_request r k' : kv_free r k = Ok k' -> kv_step k held k' held
  | kv_pop r blocks k' :
      kv_pop_blocks_for_free r k = (blocks, k') -> kv_step k held k' (held ++ blocks)
  | kv_copies copies retained k' :
      pool_list (block_pool (coordinator k)) retained ->
      take_kv_cache_block_copies k = (copies, retained, k') -> kv_step k held k' (held ++ retained)
  | kv_release l held' p' :
      held ≡ₚ l ++ held' -> free_blocks l (block_pool (coordinator k)) = Ok p' ->
      kv_step k held (with_pool p' k) held'
  | kv_evict ids k' : kv_evict_blocks ids k = Ok k' -> kv_step k held k' held
  | kv_reset : kv_step k held (kv_reset_prefix_cache k).2 held
  | kv_common rid : kv_step k held (kv_get_num_common_prefix_blocks rid k).2 held
  | kv_new_step : kv_step k held (kv_new_step_starts k) held
  | kv_take_ids : kv_step k held (kv_take_new_block_ids k).2 held.

Inductive kv_steps k held : KVCacheManager M -> list bref -> Prop :=
  | kv_steps_refl : kv_steps k held k held
  | kv_steps_next k1 held1 k2 held2 :
      kv_steps k held k1 held1 -> kv_step k1 held1 k2 held2 -> kv_steps k held k2 held2.

(** * What a step keeps *)

Definition held_ok k held : Prop :=
  pool_list (block_pool (coordinator k)) held /\ exists xs, kv_ok k xs (fun i => refs_in i held).

Lemma kv_ok_others k xs others others' :
  (forall i, others' i = others i) -> kv_ok k xs others -> kv_ok k xs others'.
Proof.
  intros He [Hp Ho Hn Hpins Hg Hs Hw]. split; try done.
  - eapply owned_others; [|exact Ho]. intros i. simpl. by rewrite He.
  - intros i. by rewrite He.
Qed.

(** Only references changed hands, in a pool of the same blocks. *)
Lemma kv_ok_frame k xs xs' others others' p' pins :
  kv_ok k xs others -> pool_inv p' xs' -> same_config (block_pool (coordinator k)) p' ->
  (forall i, 0 <= others' i) -> (forall rid l, pins !! rid = Some l -> pool_list p' l) ->
  (forall i, valid_block p' i ->
    ref_cnt (pheap p' (Blk i)) - (others' i + table_refs pins i) =
    ref_cnt (pheap (block_pool (coordinator k)) (Blk i)) - (others i + table_refs (partial_tail_pins k) i)) ->
  kv_ok (with_pins pins (with_pool p' k)) xs' others'.
Proof.
  intros [Hp Ho Hn Hpins Hg Hs Hw] Hi Hc Hn' Hpl Hr. split; simpl; try done.
  eapply owned_frame; [exact Ho|done| |].
  - intros i. pose proof (table_refs_nonneg pins i). specialize (Hn' i). lia.
  - intros i Hv%(valid_block_config _ p'); [|done]. specialize (Hr i Hv). simpl. lia.
Qed.

(** [free]: the pins and the blocks of the request lose one reference each. *)
Lemma kv_free_Ok k xs others r :
  kv_ok k xs others ->
  exists k' xs', kv_free r k = Ok k' /\ kv_ok k' xs' others /\
    same_config (block_pool (coordinator k)) (block_pool (coordinator k')) /\
    partial_tail_pins k' = delete (request_id r) (partial_tail_pins k) /\
    Forall2 (fun m m' => gm_blocks m' (request_id r) = [] /\
      forall rid, rid <> request_id r -> gm_blocks m' rid = gm_blocks m rid)
      (single_type_managers (coordinator k)) (single_type_managers (coordinator k')).
Proof.
  intros Hk. unfold kv_free. set (p := block_pool (coordinator k)).
  set (l := default [] (partial_tail_pins k !! request_id r)).
  assert (pool_list p l) as Hl.
  { unfold l. destruct (partial_tail_pins k !! request_id r) eqn:E; [by eapply (ko_pins _ _ _ Hk)|].
    apply pool_list_nil. }
  assert (forall i, refs_in i l <= table_refs (partial_tail_pins k) i) as Hle.
  { intros i. unfold l. destruct (partial_tail_pins k !! request_id r) eqn:E; [by eapply table_refs_lookup|].
    change (refs_in i _) with 0. apply table_refs_nonneg. }
  destruct (free_pool_list_Ok l p xs (ko_pool _ _ _ Hk) Hl) as (p1 & xs1 & Hf & Hi1 & Hc1 & Hr1 & _).
  { intros i Hv. pose proof (od_refs _ _ _ (ko_owned _ _ _ Hk) i Hv) as Hod. fold p in Hod. specialize (Hle i).
    pose proof (total_refs_nonneg (single_type_managers (coordinator k)) i).
    pose proof (ko_others _ _ _ Hk i). cbn beta in Hod. lia. }
  set (pins := delete (request_id r) (partial_tail_pins k)).
  assert (exists q ys, (match partial_tail_pins k !! request_id r with
       | Some (b :: pins) => free_blocks (b :: pins) p | _ => Ok p end) = Ok q /\
    pool_inv q ys /\ same_config p q /\
    (forall i, valid_block q i -> ref_cnt (pheap q (Blk i)) = ref_cnt (pheap p (Blk i)) - refs_in i l))
    as (q & ys & -> & Hiq & Hcq & Hrq).
  { unfold l in *. destruct (partial_tail_pins k !! request_id r) as [[|b pl]|].
    2: { exists p1, xs1. split_and!; try done. intros i Hv. apply Hr1. by apply (valid_block_config p p1). }
    all: exists p, xs; split_and!; try done; [apply (ko_pool _ _ _ Hk)|].
    all: intros i _; change (refs_in i _) with 0; lia. }
  cbn [mbind result_bind].
  assert (kv_ok (with_pins pins (with_pool q k)) ys others) as Hk1.
  { eapply kv_ok_frame; [exact Hk|done|done|apply (ko_others _ _ _ Hk)| |].
    - intros rid l' [_ Hlk]%lookup_delete_Some. eapply pool_list_config; [exact Hcq|].
      by eapply (ko_pins _ _ _ Hk).
    - intros i Hv. rewrite Hrq by done. unfold pins. rewrite table_refs_delete. fold l. unfold p. lia. }
  destruct (co_free_Ok (coordinator (with_pins pins (with_pool q k))) ys _ (request_id r)
    (ko_pool _ _ _ Hk1) (ko_owned _ _ _ Hk1)) as (ms & p2 & xs2 & Hco & Hi2 & Hc2 & Ho2 & Hrel).
  cbn [coordinator with_pins with_coordinator with_pool] in Hco. rewrite Hco. cbn [mbind result_bind].
  eexists _, xs2. split; [reflexivity|]. simpl. split_and!; [|by etrans|done|done].
  assert (length ms = length (single_type_managers (coordinator k))) as Hlen
    by (symmetry; by eapply Forall2_length).
  apply (kv_ok_change _ _ ys xs2 others Hk1 (same_shape_managers _ ms p2 Hlen) Hi2 Hc2 Ho2).
Qed.

(** [pop_blocks_for_free]: the same references move to the caller. *)
Lemma kv_pop_Ok k xs others r :
  kv_ok k xs others ->
  let '(blocks, k') := kv_pop_blocks_for_free r k in
  blocks = default [] (partial_tail_pins k !! request_id r) ++ concat (co_get_blocks (request_id r) (coordinator k)) /\
  pool_list (block_pool (coordinator k)) blocks /\
  block_pool (coordinator k') = block_pool (coordinator k) /\
  kv_ok k' xs (fun i => others i + refs_in i blocks) /\
  Forall2 (fun m m' => gm_blocks m' (request_id r) = [] /\
    forall rid, rid <> request_id r -> gm_blocks m' rid = gm_blocks m rid)
    (single_type_managers (coordinator k)) (single_type_managers (coordinator k')).
Proof.
  intros Hk. unfold kv_pop_blocks_for_free.
  pose proof (co_pop_Ok (coordinator k) _ (request_id r) (ko_owned _ _ _ Hk)) as Hpop.
  destruct (co_pop_blocks_for_free (request_id r) (coordinator k)) as [blocks c] eqn:E.
  destruct Hpop as (-> & Hp & Ho & Hrel). cbn [partial_tail_pins with_coordinator].
  set (l := default [] (partial_tail_pins k !! request_id r)).
  assert (pool_list (block_pool (coordinator k)) l) as Hl.
  { unfold l. destruct (partial_tail_pins k !! request_id r) eqn:El; [by eapply (ko_pins _ _ _ Hk)|].
    apply pool_list_nil. }
  assert (length (single_type_managers c) = length (single_type_managers (coordinator k))) as Hlen
    by (symmetry; by eapply Forall2_length).
  assert (c = with_managers (single_type_managers c) (block_pool c) (coordinator k)) as Hshape.
  { unfold co_pop_blocks_for_free in E. by injection E as _ <-. }
  split_and!; [done| |done| |exact Hrel].
  - apply pool_list_app; [done|]. apply pool_list_concat. apply Forall_lookup_2. intros j lj Hj.
    unfold co_get_blocks in Hj. apply list_lookup_fmap_Some in Hj as (m & -> & Hm).
    apply block_list_pool. eapply gm_owns_blocks. exact (od_member _ _ _ (ko_owned _ _ _ Hk) _ _ Hm).
  - assert (kv_ok (with_coordinator c k) xs
      (fun i => others i + refs_in i (concat (co_get_blocks (request_id r) (coordinator k))))) as Hk1.
    { destruct Hk as [Hi _ Hn Hpins Hg Hs Hw]. split; simpl; try done.
      - by rewrite Hp.
      - eapply owned_others; [|exact Ho]. intros i. simpl. lia.
      - intros i. specialize (Hn i). pose proof (refs_in_nonneg i (concat (co_get_blocks (request_id r) (coordinator k)))).
        lia.
      - intros rid l' Hlk. rewrite Hp. by eapply Hpins.
      - unfold num_kv_cache_groups in *. rewrite Hlen, Hg. simpl. by rewrite Hshape.
      - by rewrite Hshape. }
    assert (with_pins (delete (request_id r) (partial_tail_pins k)) (with_coordinator c k) =
      with_pins (delete (request_id r) (partial_tail_pins k)) (with_pool (block_pool c) (with_coordinator c k))) as ->.
    { unfold with_pool, with_pins, with_coordinator. simpl. f_equal. rewrite Hshape at 1. by destruct c. }
    eapply kv_ok_frame; [exact Hk1|exact (ko_pool _ _ _ Hk1)|done| | |].
    + intros i. pose proof (ko_others _ _ _ Hk i).
      pose proof (refs_in_nonneg i (l ++ concat (co_get_blocks (request_id r) (coordinator k)))). lia.
    + intros rid l' [_ Hlk]%lookup_delete_Some. rewrite Hp. by eapply (ko_pins _ _ _ Hk).
    + intros i _. simpl. rewrite table_refs_delete, refs_in_app. unfold l. lia.
Qed.

(** Caching, when it returns. *)
Lemma cache_new_inv k xs others r n (caches : bool) r' c' :
  kv_ok k xs others -> 0 <= n -> cache_new r n caches (coordinator k) = Ok (r', c') ->
  kv_ok (with_coordinator c' k) xs others /\
  same_config (block_pool (coordinator k)) (block_pool c').
Proof.
  intros Hk Hn Hc. unfold cache_new in Hc. destruct caches.
  - destruct (co_cache_inv (coordinator k) _ r n xs r' c' Hn (ko_scheduler _ _ _ Hk) (ko_pool _ _ _ Hk)
      (ko_owned _ _ _ Hk) Hc) as (Hi & Hcfg & Ho & Hsh).
    split; [|done]. by eapply kv_ok_change.
  - injection Hc as <- <-. split; [|done]. by destruct k.
Qed.

Lemma allocate_slots_inv k xs others r num_new num_new_computed hits lookahead external (delay : bool)
    encoder (full : bool) reserved sched new r' k' :
  let s := slots_for r num_new num_new_computed lookahead external encoder k in
  let total := Z.min (sl_total s) (kv_max_model_len k) in
  kv_ok k xs others -> 0 <= external -> 0 <= num_new -> 0 <= reserved -> 0 <= total ->
  reservable k s (default EmptyBlocks hits) ->
  Forall (fun m => gm_removable m (request_id r) (Z.max 0 (total - num_in_flight_tokens r))
    (Some (num_prompt_tokens r))) (single_type_managers (coordinator k)) ->
  allocate_slots r num_new num_new_computed hits lookahead external delay encoder full reserved sched k
    = Ok (new, r', k') ->
  exists xs', kv_ok k' xs' others /\ same_config (block_pool (coordinator k)) (block_pool (coordinator k')).
Proof.
  intros s total Hk He Hnew Hres Htot Hr Hrm Ha.
  assert (num_new <> 0 \/ external <> 0) as Hnz.
  { unfold allocate_slots in Ha. destruct (Z.eqb_spec num_new 0); [|by left].
    destruct (Z.eqb_spec external 0); [done|by right]. }
  destruct (reservable_predicts k s (default EmptyBlocks hits) (coordinator k) (request_id r)
    (Z.min (Z.min (num_tokens r) (kv_max_model_len k) + lookahead) (kv_max_model_len k)) (sl_encoder s)
    (Z.min (sl_total s) (kv_max_model_len k)) (sl_local s) (Z.min (num_tokens r) (kv_max_model_len k)) true
    (ko_groups _ _ _ Hk) eq_refl Hr eq_refl) as (whole & Hwhole).
  rewrite (allocate_slots_eq k r num_new num_new_computed hits lookahead external delay encoder full
    reserved sched whole (zlen xs) Hnz (pool_inv_free _ _ (ko_pool _ _ _ Hk)) Hwhole) in Ha.
  destruct (full && _); [injection Ha as <- <- <-; by exists xs|].
  apply bind_Ok_inv in Ha as (c1 & Hrem & Ha). fold s total in Hrem.
  destruct (kv_remove_Ok k xs others s (default EmptyBlocks hits) _ _ Hk Hr Hrm)
    as (c1' & xs1 & Hrem' & Hk1 & Hr1 & Hg1 & Hcfg1).
  assert (c1' = c1) as -> by (change (sl_request s) with (request_id r) in Hrem'; congruence).
  apply bind_Ok_inv in Ha as (n & Hn & Ha). fold s in Hn.
  assert (get_num_free_blocks (block_pool c1) = zlen xs1) as Hfree
    by apply (pool_inv_free _ _ (ko_pool _ _ _ Hk1)).
  rewrite Hfree in Ha. destruct (Z.ltb_spec (zlen xs1 - reserved) (n + watermark_for r sched k)).
  { injection Ha as <- <- <-. by exists xs1. }
  pose proof (watermark_for_nonneg r sched k (ko_watermark _ _ _ Hk)) as Hwm.
  assert (num_kv_cache_groups (with_coordinator c1 k) = num_kv_cache_groups k) as Hng
    by (unfold num_kv_cache_groups; simpl; by rewrite Hg1).
  apply bind_Ok_inv in Ha as ([new1 c2] & Hres2 & Ha). fold s in Hres2.
  destruct (reserve_Ok (with_coordinator c1 k) xs1 others s (default EmptyBlocks hits) n Hk1 He Hr1)
    as (new2 & c2' & xs2 & Hres2' & Hk2 & _ & _ & _ & Hcfg2); [by rewrite Hng|lia|].
  rewrite Hng in Hres2'. cbn [coordinator with_coordinator] in Hres2'. rewrite Hres2 in Hres2'.
  injection Hres2' as <- <-.
  apply bind_Ok_inv in Ha as ([r1 c3] & Hc3 & Ha). injection Ha as <- <- <-.
  destruct (cache_new_inv (with_coordinator c2 k) xs2 others r (Z.min (total + num_new) (num_tokens r))
    (kv_enable_caching k && negb delay) r1 c3 Hk2) as [Hk3 Hcfg3]; [|exact Hc3|].
  { unfold num_tokens. lia. }
  exists xs2. split; [exact Hk3|]. etrans; [exact Hcfg1|]. etrans; [exact Hcfg2|exact Hcfg3].
Qed.

(** Steps on the managers' own records. *)
Lemma kv_ok_map k xs others (g : M -> M) :
  (forall m p o, gm_owns m p o -> gm_owns (g m) p o) -> kv_ok k xs others ->
  kv_ok (with_coordinator (with_managers (g <$> single_type_managers (coordinator k))
    (block_pool (coordinator k)) (coordinator k)) k) xs others.
Proof.
  intros Hg Hk. eapply kv_ok_change; [exact Hk|by apply same_shape_managers; rewrite length_fmap
    |apply (ko_pool _ _ _ Hk)|done|]. apply owned_map_same; [|apply (ko_owned _ _ _ Hk)]. auto.
Qed.

(** The pool's keys changed, the references did not. *)
Lemma kv_ok_pool k xs xs' others p' :
  kv_ok k xs others -> pool_inv p' xs' -> same_config (block_pool (coordinator k)) p' ->
  (forall i, ref_cnt (pheap p' (Blk i)) = ref_cnt (pheap (block_pool (coordinator k)) (Blk i))) ->
  kv_ok (with_pool p' k) xs' others.
Proof.
  intros Hk Hi Hc Hr.
  assert (kv_ok (with_pins (partial_tail_pins k) (with_pool p' k)) xs' others) as Hk'; [|by destruct k].
  eapply kv_ok_frame; [exact Hk|done|done|apply (ko_others _ _ _ Hk)| |].
  - intros rid l Hl. eapply pool_list_config; [exact Hc|by eapply (ko_pins _ _ _ Hk)].
  - intros i _. by rewrite Hr.
Qed.

Lemma fmap_snd {A B C} (f : A -> B * C) (l : list A) : (f <$> l).*2 = (snd ∘ f) <$> l.
Proof. by rewrite <-list_fmap_compose. Qed.

Lemma kv_step_Ok k held k' held' : held_ok k held -> kv_step k held k' held' -> held_ok k' held'.
Proof.
  intros [Hh (xs & Hk)] Hstep. assert (forall k', same_config (block_pool (coordinator k)) (block_pool (coordinator k')) ->
    (exists xs', kv_ok k' xs' (fun i => refs_in i held)) -> held_ok k' held) as Hsame.
  { intros k2 Hc Hex. split; [by eapply pool_list_config|done]. }
  destruct Hstep as [r num_new nc hits la ext delay enc full reserved sched new r' k' s total He Hn Hres Ht Hr Hrm Ha
    |r n r' k' Hn Hc|rid processed np k' Hrm Hc|r k' Hf|r blocks k' Hp|copies retained k' Hret Hc
    |l held' p' Hperm Hf|ids k' He| |rid| |].
  - destruct (allocate_slots_inv k xs _ r num_new nc hits la ext delay enc full reserved sched new r' k'
      Hk He Hn Hres Ht Hr Hrm Ha) as (xs' & Hk' & Hcfg). eauto.
  - apply bind_Ok_inv in Hc as ([r1 c1] & Hc & [= <- <-]).
    destruct (cache_new_inv k xs _ r n _ r1 c1 Hk Hn Hc) as [Hk' Hcfg]. eauto.
  - apply bind_Ok_inv in Hc as (c1 & Hc & [= <-]).
    destruct (co_remove_skipped_Ok (coordinator k) xs _ rid processed np (ko_pool _ _ _ Hk)
      (ko_owned _ _ _ Hk) Hrm) as (ms & p & xs' & Hc' & Hi & Hcfg & Ho & Hrel).
    rewrite Hc in Hc'. injection Hc' as ->. apply Hsame; [exact Hcfg|]. exists xs'.
    eapply kv_ok_change; [exact Hk|apply same_shape_managers; symmetry; by eapply Forall2_length|done|done|done].
  - destruct (kv_free_Ok k xs _ r Hk) as (k1 & xs' & Hf' & Hk' & Hcfg & _).
    rewrite Hf in Hf'. injection Hf' as <-. eauto.
  - pose proof (kv_pop_Ok k xs _ r Hk) as Hpop. rewrite Hp in Hpop.
    destruct Hpop as (_ & Hb & Hpool & Hk' & _). split; [rewrite Hpool; by apply pool_list_app|].
    exists xs. eapply kv_ok_others; [|exact Hk']. intros i. by rewrite refs_in_app.
  - unfold take_kv_cache_block_copies in Hc. injection Hc as <- <- <-. split; [by apply pool_list_app|].
    exists xs. rewrite fmap_snd. set (t := fun (m : M) (i : nat) => cow_refs (gm_take_cow_copies m).1 i).
    assert (forall m i, 0 <= t m i) as Ht.
    { intros m i. unfold t, cow_refs. pose proof (refs_in_nonneg i (gm_take_cow_copies m).1.*1).
      pose proof (refs_in_nonneg i (gm_take_cow_copies m).1.*2). lia. }
    pose proof (owned_map (snd ∘ gm_take_cow_copies) t _ _ _
      (fun m o Hm => gm_take_cow_copies_ok m _ o Hm) Ht (ko_owned _ _ _ Hk)) as Ho.
    assert (forall i, refs_in i (concat ((fun pair : bref * bref => [pair.1; pair.2]) <$>
      concat (gm_take_cow_copies <$> single_type_managers (coordinator k)).*1)) =
      foldr (fun m acc => t m i + acc) 0 (single_type_managers (coordinator k))) as Hsum.
    { intros i. unfold t. generalize (single_type_managers (coordinator k)) as ms.
      induction ms as [|m ms IH]; [done|]. rewrite !fmap_cons. cbn [concat foldr fst].
      rewrite fmap_app, concat_app, refs_in_app, IH. f_equal. generalize (gm_take_cow_copies m).1 as cs.
      induction cs as [|[a b] cs IHc]; [done|]. rewrite fmap_cons. cbn [concat].
      rewrite refs_in_app, IHc. unfold cow_refs. rewrite !fmap_cons, !(refs_in_cons i _ (_ <$> _)). simpl.
      rewrite !refs_in_cons. change (refs_in i []) with 0. lia. }
    destruct Hk as [Hi _ Hn Hpins Hg Hs Hw]. split; simpl; try done.
    + eapply owned_others; [|exact Ho]. intros i. cbn beta. rewrite refs_in_app, Hsum. lia.
    + intros i. apply refs_in_nonneg.
    + by rewrite length_fmap.
  - assert (pool_list (block_pool (coordinator k)) l /\ pool_list (block_pool (coordinator k)) held') as [Hl Hh'].
    { destruct Hh as (ids & Hids & Hb). subst held. symmetry in Hperm.
      apply Permutation_map_inv in Hperm as (ids' & Hids' & Hp). symmetry in Hids'.
      apply fmap_app_inv in Hids' as (i1 & i2 & -> & -> & ->). rewrite Hp in Hb.
      apply Forall_app in Hb as [? ?]. by split; [exists i1|exists i2]. }
    assert (forall i, refs_in i held = refs_in i l + refs_in i held') as Hrefs.
    { intros i. rewrite <-refs_in_app. unfold refs_in. by rewrite Hperm. }
    destruct (free_pool_list_Ok l _ xs (ko_pool _ _ _ Hk) Hl) as (p1 & xs1 & Hf1 & Hi1 & Hc1 & Hr1 & _).
    { intros i Hv. pose proof (od_refs _ _ _ (ko_owned _ _ _ Hk) i Hv) as Hod. cbn beta in Hod.
      pose proof (total_refs_nonneg (single_type_managers (coordinator k)) i).
      pose proof (table_refs_nonneg (partial_tail_pins k) i).
      pose proof (refs_in_nonneg i held'). specialize (Hrefs i). lia. }
    rewrite Hf in Hf1. injection Hf1 as <-. split; [by eapply pool_list_config|]. exists xs1.
    assert (kv_ok (with_pins (partial_tail_pins k) (with_pool p' k)) xs1 (fun i => refs_in i held')) as Hk'; [|by destruct k].
    eapply kv_ok_frame; [exact Hk|done|done| | |].
    + intros i. apply refs_in_nonneg.
    + intros rid l' Hlk. eapply pool_list_config; [exact Hc1|by eapply (ko_pins _ _ _ Hk)].
    + intros i Hv%(valid_block_config (block_pool (coordinator k)) p'); [|done].
      rewrite Hr1, Hrefs by done. lia.
  - apply bind_Ok_inv in He as (p & He & [= <-]).
    destruct (evict_blocks_inv ids _ p xs (ko_pool _ _ _ Hk) He) as [Hi Hf].
    apply Hsame; [by apply hash_frame_config|]. exists xs.
    eapply kv_ok_pool; [exact Hk|done|by apply hash_frame_config|]. intros i. apply (hf_ref _ _ Hf).
  - unfold kv_reset_prefix_cache.
    destruct (reset_prefix_cache_Ok _ xs (ko_pool _ _ _ Hk)) as [[-> _]|(p & -> & Hi & Hc & _ & _ & _ & Hr)].
    + apply Hsame; [done|]. exists xs. eapply kv_ok_pool; [exact Hk|apply (ko_pool _ _ _ Hk)|done|done].
    + apply Hsame; [done|]. exists xs. by eapply kv_ok_pool.
  - unfold kv_get_num_common_prefix_blocks.
    destruct (co_get_num_common_prefix_blocks rid (coordinator k)) as [counts c] eqn:E.
    assert (c = coordinator k \/ c = with_managers ((snd ∘ (fun m =>
        gm_common_prefix rid m (block_pool (coordinator k)))) <$> single_type_managers (coordinator k))
      (block_pool (coordinator k)) (coordinator k)) as Hc.
    { unfold co_get_num_common_prefix_blocks in E. rewrite fmap_snd in E.
      destruct (co_kind (coordinator k)); injection E as _ <-; auto. }
    destruct Hc as [->| ->]; (apply Hsame; [done|]); exists xs; [by destruct k|].
    pose proof (ko_pool _ _ _ Hk) as Hi. pose proof (ko_owned _ _ _ Hk) as Ho.
    eapply kv_ok_change; [exact Hk|by apply same_shape_managers; rewrite length_fmap|exact Hi|done|].
    apply owned_map_same; [|exact Ho]. intros m o Hm. by apply (gm_common_prefix_ok m _ o rid).
  - apply Hsame; [done|]. exists xs. apply kv_ok_map; [|exact Hk]. intros m p o. apply gm_new_step_ok.
  - unfold kv_take_new_block_ids. apply Hsame; [done|]. exists xs. simpl. rewrite fmap_snd.
    apply kv_ok_map; [|exact Hk]. intros m p o. apply gm_take_new_block_ids_ok.
Qed.
End Steps.

(** * From the start *)

Section Reachable.
Context `{PoolEnv}.

Lemma kv_init_Ok groups num_blocks zeroing mml sbs hbs mift caching eagle events dcp pcp watermark interval k :
  Forall (fun g => group_spec_ok (kg_spec g)) groups -> 0 < sbs ->
  kv_init groups num_blocks zeroing mml sbs hbs mift caching eagle events dcp pcp watermark interval = Ok k ->
  kv_ok k (seq 1 (Z.to_nat num_blocks - 1)) (fun _ => 0) /\ partial_tail_pins k = ∅.
Proof.
  intros Hg Hs Hk. unfold kv_init in Hk. apply bind_Ok_inv in Hk as (c & Hc & Hk).
  apply bind_Ok_inv in Hk as ([] & Hw & Hk). apply bind_Ok_inv in Hk as (n & Hn & [= <-]).
  apply assert_Ok_inv in Hw.
  assert (0 < num_blocks) as Hnum.
  { clear -Hc. unfold coordinator_init in Hc. apply bind_Ok_inv in Hc as (? & _ & Hc).
    apply bind_Ok_inv in Hc as (? & _ & Hc). apply bind_Ok_inv in Hc as ([] & _ & Hc).
    apply bind_Ok_inv in Hc as (p & Hp & _). unfold pool_init in Hp.
    apply bind_Ok_inv in Hp as ([] & Ha & _). apply assert_Ok_inv in Ha. by apply Z.ltb_lt. }
  destruct (coordinator_init_Ok _ _ _ _ _ _ _ _ _ _ _ _ _ c Hg Hc) as (Hi & Ho & _ & _ & Hgr & Hl & Hsb).
  split; [|done]. split; simpl; try done.
  - unfold num_kv_cache_groups. simpl. by rewrite Hgr, Hl.
  - by rewrite Hsb.
  - eapply int_of_float_nonneg; [|exact Hn]. apply fmul_not_below_zero.
    + by apply fle_zero_not_below_zero.
    + apply float_of_int_not_below_zero. lia.
Qed.

Lemma kv_steps_Ok `{GroupManagerLaws M} (k k' : KVCacheManager M) held held' :
  held_ok k held -> kv_steps k held k' held' -> held_ok k' held'.
Proof. intros Hk. induction 1; [done|]. by eapply kv_step_Ok. Qed.

(** What is on a list with as many references as entries is not free. *)
Lemma referenced_not_free p xs i : pool_inv p xs -> i <> 0%nat -> block_of_pool p i ->
  1 <= ref_cnt (pheap p (Blk i)) -> i ∉ xs.
Proof.
  intros Hi Hne _ Hr Hin. assert (i ∈ xs ++ []) as Hin' by by rewrite app_nil_r.
  apply (pi_free _ _ _ Hi) in Hin' as [_ ?]. lia.
Qed.

Lemma pool_list_member p l i : pool_list p l -> i <> 0%nat -> Blk i ∈ l -> valid_block p i.
Proof.
  intros (ids & -> & Hb) Hne (j & [= <-] & Hj)%list_elem_of_fmap.
  by eapply Forall_forall in Hb as [?|?].
Qed.

Lemma accounted `{GroupManagerLaws M} (k : KVCacheManager M) held : held_ok k held ->
  exists xs, let ms := single_type_managers (coordinator k) in
    let p := block_pool (coordinator k) in
    pool_inv p xs /\
    (forall m rid i, m ∈ ms -> i <> 0%nat -> Blk i ∈ gm_blocks m rid ->
      i ∉ xs /\ 1 <= ref_cnt (pheap p (Blk i))) /\
    (forall i, i <> 0%nat -> Blk i ∈ held \/
      (exists rid l, partial_tail_pins k !! rid = Some l /\ Blk i ∈ l) ->
      i ∉ xs /\ 1 <= ref_cnt (pheap p (Blk i))) /\
    (forall i, valid_block p i -> ref_cnt (pheap p (Blk i)) =
      total_refs ms i + table_refs (partial_tail_pins k) i + refs_in i held).
Proof.
  intros [Hh (xs & Hk)]. exists xs. intros ms p. pose proof (ko_pool _ _ _ Hk) as Hi.
  pose proof (ko_owned _ _ _ Hk) as Ho. fold ms p in Ho, Hi.
  assert (forall i, valid_block p i -> ref_cnt (pheap p (Blk i)) =
    total_refs ms i + table_refs (partial_tail_pins k) i + refs_in i held) as Hr.
  { intros i Hv. rewrite (od_refs _ _ _ Ho i Hv). lia. }
  assert (forall i, i <> 0%nat -> valid_block p i ->
    1 <= total_refs ms i \/ 1 <= table_refs (partial_tail_pins k) i \/ 1 <= refs_in i held ->
    i ∉ xs /\ 1 <= ref_cnt (pheap p (Blk i))) as Huse.
  { intros i Hne Hv Hcase. pose proof (total_refs_nonneg ms i).
    pose proof (table_refs_nonneg (partial_tail_pins k) i). pose proof (refs_in_nonneg i held).
    assert (1 <= ref_cnt (pheap p (Blk i))) by (rewrite Hr by done; lia).
    split; [|done]. apply (referenced_not_free p xs i Hi Hne); [by left|done]. }
  split_and!; [done| | |done].
  - intros m rid i Hm Hne Hin. apply list_elem_of_lookup_1 in Hm as [j Hj].
    pose proof (od_member _ _ _ Ho m j Hj) as Hown.
    apply Huse; [done| |left].
    + eapply pool_list_member; [apply block_list_pool; by eapply gm_owns_blocks|done|exact Hin].
    + pose proof (total_refs_member ms m j i Hj). pose proof (gm_blocks_refs m rid i).
      pose proof (refs_in_pos i _ Hin). lia.
  - intros i Hne [Hin|(rid & l & Hl & Hin)].
    + apply Huse; [done|by eapply pool_list_member|right; right]. by apply refs_in_pos.
    + apply Huse; [done| |right; left].
      * eapply pool_list_member; [by eapply (ko_pins _ _ _ Hk)|done|exact Hin].
      * pose proof (table_refs_lookup _ i rid l Hl). pose proof (refs_in_pos i l Hin). lia.
Qed.


(** [free] never fails: the request's pins and its blocks in every group lose
    one reference each, its tables are empty afterwards, the other requests keep
    theirs, and the accounting stays exact. *)
Theorem kv_free_spec `{GroupManagerLaws M} (k : KVCacheManager M) xs others r :
  kv_ok k xs others ->
  exists k' xs', kv_free r k = Ok k' /\ kv_ok k' xs' others /\
    partial_tail_pins k' = delete (request_id r) (partial_tail_pins k) /\
    Forall2 (fun m m' => gm_blocks m' (request_id r) = [] /\
      forall rid, rid <> request_id r -> gm_blocks m' rid = gm_blocks m rid)
      (single_type_managers (coordinator k)) (single_type_managers (coordinator k')).
Proof.
  intros Hk. destruct (kv_free_Ok k xs others r Hk) as (k' & xs' & ? & ? & _ & ? & ?).
  by exists k', xs'.
Qed.
End Reachable.

(** * Concrete inputs *)

Lemma kv_free_spec_witness :
  exists c k', demo_coordinator = Ok c /\
    kv_free demo_request (mkKVCacheManager c 1024 true false 0 ∅) = Ok k'.
Proof.
  destruct demo_init as [c Hc].
  destruct (kv_free_spec (mkKVCacheManager c 1024 true false 0 ∅) (seq 1 7) (fun _ => 0) demo_request)
    as (k' & _ & Hf & _); [by apply demo_kv_ok|].
  exists c, k'. split; [exact Hc|exact Hf].
Defined.

Abbreviation demo_kv :=
  (kv_init demo_groups 8 false 1024 16 16 (Some 256) true false false 1 1 (float_of_int 0) None).
Abbreviation demo_allocate k := (allocate_slots demo_request 20 0 None 0 0 true 0 false 0 true k).

(** A request is admitted with two blocks in each of the three groups, which are
    then popped. *)
Lemma demo_run : exists k0 new r k1 blocks k2, demo_kv = Ok k0 /\ demo_allocate k0 = Ok (new, r, k1) /\
  kv_pop_blocks_for_free demo_request k1 = (blocks, k2) /\
  ids_of blocks = [1; 2; 3; 4; 5; 6] /\ single_type_managers (coordinator k0) = demo_managers /\
  kv_max_model_len k0 = 1024.
Proof.
  assert (match demo_kv with
    | Ok k0 => match demo_allocate k0 with
        | Ok (_, _, k1) => Some (ids_of (kv_pop_blocks_for_free demo_request k1).1,
            single_type_managers (coordinator k0), kv_max_model_len k0)
        | Raise _ => None end
    | Raise _ => None end = Some ([1; 2; 3; 4; 5; 6], demo_managers, 1024)) as Hd by (vm_compute; reflexivity).
  destruct demo_kv as [k0|]; [|discriminate].
  destruct (demo_allocate k0) as [[[new r] k1]|] eqn:Ha; [|discriminate].
  destruct (kv_pop_blocks_for_free demo_request k1) as [blocks k2] eqn:Hp.
  exists k0, new, r, k1, blocks, k2. injection Hd as Hd1 Hd2 Hd3. by split_and!.
Qed.

