(* ===== verification/KVFrame.v ===== *)
(** What the calls of the KV cache manager leave alone, whatever state it is in:
    a request changes at most in its memo of embedding digests, the coordinator
    keeps everything but its managers and its pool, and no lookup reports more
    tokens than it was asked for.

    These are facts about calls that return; they need none of the accounting of
    [KVLifecycle], so the scheduler's theorems can use them in any state. *)
From S2P Require Import Prelude FreeQueue Request BlockHash BlockPool CacheHit MambaHit SingleType GroupManager AttentionGroup MambaManager Coordinator HybridHit PyFloat KVCacheManager KVLifecycle.
Open Scope Z_scope.

(** Takes a hypothesis that a computation returned apart, branch by branch. *)
Ltac peel H :=
  repeat (cbn beta iota in H; first
    [ discriminate H
    | let E := fresh "E" in apply bind_Ok_inv in H as (? & E & H)
    | match type of H with match ?x with _ => _ end = Ok _ => destruct x eqn:? end ]).

(** * Requests *)

(** Only the memo differs. *)
Definition memo_only (r r' : Request) : Prop := exists m, r' = with_memo m r.

#[export] Instance memo_only_preorder : PreOrder memo_only.
Proof.
  split; [intros r; exists (embeds_memo r); by rewrite with_memo_id|].
  intros r1 r2 r3 [m ->] [m' ->]. exists m'. apply with_memo_with_memo.
Qed.

Section Memo.
Context `{PoolEnv}.
Implicit Types (r : Request) (p : BlockPool).

Lemma extra_keys_memo f r a b i keys j r' :
  generate_block_hash_extra_keys f r a b i = Ok (keys, j, r') -> memo_only r r'.
Proof.
  intros Hg. unfold generate_block_hash_extra_keys in Hg. apply bind_Ok_inv in Hg as ([mm j'] & _ & Hg).
  unfold gen_prompt_embeds_extra_hash_keys in Hg. destruct (prompt_embeds r); [|by simplify_eq].
  destruct (embeds_memo r !! (a, b)); simplify_eq; [done|]. by eexists.
Qed.

Lemma cache_full_blocks_memo r l nc nf bsz gid mask p r' p' :
  cache_full_blocks r l nc nf bsz gid mask p = Ok (r', p') -> memo_only r r'.
Proof.
  unfold cache_full_blocks. intros Hc. destruct (nf <=? nc); [by simplify_eq|].
  apply bind_Ok_inv in Hc as (? & _ & Hc). apply bind_Ok_inv in Hc as (? & _ & Hc).
  apply bind_Ok_inv in Hc as (? & _ & Hc). apply bind_Ok_inv in Hc as ([p1 hs] & _ & Hc).
  destruct (negb _); [by simplify_eq|]. apply bind_Ok_inv in Hc as (? & _ & Hc).
  apply bind_Ok_inv in Hc as ([[ks j] r1] & Hf & Hc). simplify_eq.
  apply (for_each_Ok_inv _ (fun s => memo_only r s.2) _ _ _ Hf); [done|].
  intros i [[ks0 j0] r0] [[ks1 j1] r1] Hm Hk. simpl in *. etrans; [exact Hm|].
  unfold collect_extra_keys in Hk. apply bind_Ok_inv in Hk as (b & _ & Hk).
  apply bind_Ok_inv in Hk as (sk & _ & Hk). destruct sk; [by simplify_eq|].
  apply bind_Ok_inv in Hk as ([[k j2] r2] & Hg & Hk). simplify_eq. by eapply extra_keys_memo.
Qed.

Lemma cache_partial_block_memo r b n gid bsz p h r' p' :
  cache_partial_block r b n gid bsz p = Ok (h, r', p') -> memo_only r r'.
Proof.
  unfold cache_partial_block. intros Hc. destruct (is_null _); [by simplify_eq|].
  do 5 (apply bind_Ok_inv in Hc as (? & _ & Hc)). cbn zeta in Hc.
  apply bind_Ok_inv in Hc as (p1 & _ & Hc). destruct (_ && _); [|by simplify_eq].
  apply bind_Ok_inv in Hc as ([par st] & _ & Hc). apply bind_Ok_inv in Hc as ([[k j] r1] & Hg & Hc).
  simplify_eq. by eapply extra_keys_memo.
Qed.

Lemma emit_events_memo r n bsz gid p r' p' :
  emit_cached_block_events r n bsz gid p = Ok (r', p') -> memo_only r r'.
Proof.
  unfold emit_cached_block_events. intros Hc. destruct (_ || _); [by simplify_eq|].
  apply bind_Ok_inv in Hc as (hs & _ & Hc). apply bind_Ok_inv in Hc as ([[[ch ks] j] r1] & Hf & Hc).
  assert (memo_only r r1) as Hm; [|destruct (bool_decide _); by simplify_eq].
  apply (for_each_Ok_inv _ (fun s => memo_only r s.2) _ _ _ Hf); [done|].
  intros i [[[ch0 ks0] j0] r0] s1 Hm0 Hk. simpl in Hm0. etrans; [exact Hm0|].
  apply bind_Ok_inv in Hk as (h & _ & Hk). apply bind_Ok_inv in Hk as ([[k j2] r2] & Hg & Hk).
  simplify_eq. by eapply extra_keys_memo.
Qed.

Lemma emit_reused_memo i gs l r p r' p' : emit_reused r i gs l p = Ok (r', p') -> memo_only r r'.
Proof.
  revert i gs r p. induction l as [|b l IH]; intros i [|g gs] r p He; simpl in He; try by simplify_eq.
  apply bind_Ok_inv in He as ([r1 p1] & H1 & He). etrans; [|by eapply IH].
  destruct (0 <? zlen b); [by eapply emit_events_memo|by simplify_eq].
Qed.

(** ** Managers *)

Lemma base_cache_memo r n ri m p r' m' p' :
  base_cache_blocks r n ri m p = Ok (r', m', p') -> memo_only r r'.
Proof.
  unfold base_cache_blocks. intros Hc. destruct (_ <=? _); [by simplify_eq|].
  apply bind_Ok_inv in Hc as (? & _ & Hc). apply bind_Ok_inv in Hc as ([r1 p1] & Hf & Hc).
  simplify_eq. by eapply cache_full_blocks_memo.
Qed.

Lemma cache_blocks_memo r n ri m p r' m' p' : cache_blocks r n ri m p = Ok (r', m', p') -> memo_only r r'.
Proof.
  unfold cache_blocks. intros Hc. apply bind_Ok_inv in Hc as ([[r1 m1] p1] & Hb & Hc).
  apply base_cache_memo in Hb. destruct (negb _); [by simplify_eq|]. destruct (_ =? _); [by simplify_eq|].
  etrans; [exact Hb|]. unfold cache_partial_tail_block in Hc. apply bind_Ok_inv in Hc as (q & _ & Hc).
  destruct (_ || _); [by simplify_eq|]. destruct (_ =? 0); [by simplify_eq|].
  destruct (_ <=? _); [by simplify_eq|]. apply bind_Ok_inv in Hc as (b & _ & Hc).
  apply bind_Ok_inv in Hc as ([[h r2] p2] & Hp & Hc). simplify_eq. by eapply cache_partial_block_memo.
Qed.

Lemma mamba_tail_memo r n m p h r' m' p' :
  mamba_cache_partial_tail_block r n m p = Ok (h, r', m', p') -> memo_only r r'.
Proof.
  unfold mamba_cache_partial_tail_block. intros Hc. do 2 (destruct (_ =? _); [by simplify_eq|]).
  apply bind_Ok_inv in Hc as (q & _ & Hc). destruct (negb _); [by simplify_eq|].
  apply bind_Ok_inv in Hc as (q' & _ & Hc). destruct (negb _); [by simplify_eq|].
  destruct (_ <=? _); [by simplify_eq|]. apply bind_Ok_inv in Hc as (b & _ & Hc).
  destruct (is_null _); [by simplify_eq|]. apply bind_Ok_inv in Hc as ([[h1 r1] p1] & Hp & Hc).
  destruct h1; simplify_eq; by eapply cache_partial_block_memo.
Qed.

Lemma mamba_cache_memo r n ri m p r' m' p' :
  mamba_cache_blocks r n ri m p = Ok (r', m', p') -> memo_only r r'.
Proof.
  unfold mamba_cache_blocks. intros Hc. apply bind_Ok_inv in Hc as ([[r1 b] p1] & Hb & Hc).
  apply base_cache_memo in Hb. apply bind_Ok_inv in Hc as ([[r2 m2] p2] & Ha & Hc).
  assert (memo_only r r2) as Hm; [|destruct (_ <? _); by simplify_eq]. etrans; [exact Hb|].
  destruct (is_align _); [|by simplify_eq]. apply bind_Ok_inv in Ha as ([[[h r3] m3] p3] & Ht & Ha).
  simplify_eq. by eapply mamba_tail_memo.
Qed.
End Memo.

(** A manager whose [cache_blocks] leaves the request alone but for its memo. *)
Class CacheFrame M `{PoolEnv} `{GroupManager M} :=
  gm_cache_memo r n ri (m : M) p r' m' p' : gm_cache r n ri m p = Ok (r', m', p') -> memo_only r r'.

#[export] Instance attention_cache_frame `{PoolEnv} : CacheFrame Manager.
Proof. intros r n ri m p r' m' p'. apply cache_blocks_memo. Qed.
#[export] Instance mamba_cache_frame `{PoolEnv} : CacheFrame MambaManager.
Proof. intros r n ri m p r' m' p'. apply mamba_cache_memo. Qed.
#[export] Instance cross_cache_frame `{PoolEnv} : CacheFrame CrossManager.
Proof. intros r n ri m p r' m' p' Hc. simpl in Hc. discriminate Hc. Qed.
#[export] Instance sum_cache_frame `{PoolEnv} `{GroupManager A} `{GroupManager B} :
  CacheFrame A -> CacheFrame B -> CacheFrame (A + B).
Proof.
  intros HA HB r n ri [a|b] p r' m' p' Hc; simpl in Hc; unfold lift_cached in Hc;
    apply bind_Ok_inv in Hc as ([[q m1] p1] & Hc & Hr); injection Hr as <- <- <-; [by apply (HA _ _ _ _ _ _ _ _ Hc)|by apply (HB _ _ _ _ _ _ _ _ Hc)].
Qed.

(** * The manager *)

(** Everything but managers, pool and pins is as before. *)
Definition kv_frame {M} (k k' : KVCacheManager M) : Prop := exists ms p pins,
  k' = with_pins pins (with_coordinator (with_managers ms p (coordinator k)) k).

#[export] Instance kv_frame_preorder {M} : PreOrder (@kv_frame M).
Proof.
  split.
  - intros [[] ? ? ? ? pins]. by eexists _, _, pins.
  - intros k1 k2 k3 (ms & p & pins & ->) (ms' & p' & pins' & ->). by exists ms', p', pins'.
Qed.

(** The coordinators of two managers in the same frame. *)
Definition co_frame {M} (c c' : Coordinator M) : Prop := exists ms p, c' = with_managers ms p c.

#[export] Instance co_frame_preorder {M} : PreOrder (@co_frame M).
Proof.
  split; [intros []; by eexists _, _|]. intros c1 c2 c3 (ms & p & ->) (ms' & p' & ->). by exists ms', p'.
Qed.

Lemma kv_frame_co {M} (k : KVCacheManager M) c : co_frame (coordinator k) c -> kv_frame k (with_coordinator c k).
Proof. intros (ms & p & ->). by exists ms, p, (partial_tail_pins k). Qed.

Lemma kv_frame_pins {M} (k k' : KVCacheManager M) pins : kv_frame k k' -> kv_frame k (with_pins pins k').
Proof. intros (ms & p & pins' & ->). by exists ms, p, pins. Qed.

Section Frames.
Context `{PoolEnv} `{GroupManager M}.
Implicit Types (k : KVCacheManager M) (c : Coordinator M) (r : Request).

Lemma co_cache_frame `{!CacheFrame M} r n c r' c' :
  co_cache_blocks r n c = Ok (r', c') -> memo_only r r' /\ co_frame c c'.
Proof.
  unfold co_cache_blocks. intros Hc. apply bind_Ok_inv in Hc as ([[r1 ms] p] & Hm & Hc). simplify_eq.
  split; [|by exists ms, p]. revert Hm. generalize (single_type_managers c) as ms0, (block_pool c) as p0.
  intros ms0. revert r ms p. induction ms0 as [|m ms0 IH]; intros r ms p p0 Hm; simpl in Hm; [by simplify_eq|].
  apply bind_Ok_inv in Hm as ([[r1 m1] p1] & H1 & Hm). apply bind_Ok_inv in Hm as ([[r2 ms2] p2] & H2 & Hm).
  simplify_eq. etrans; [by eapply gm_cache_memo|by eapply IH].
Qed.

Lemma cache_new_frame `{!CacheFrame M} r n caches c r' c' :
  cache_new r n caches c = Ok (r', c') -> memo_only r r' /\ co_frame c c'.
Proof. unfold cache_new. destruct caches; intros Hc; [by eapply co_cache_frame|by simplify_eq]. Qed.

Lemma co_remove_frame rid n np c c' : co_remove_skipped_blocks rid n np c = Ok c' -> co_frame c c'.
Proof.
  unfold co_remove_skipped_blocks. intros Hc. apply bind_Ok_inv in Hc as ([ms p] & _ & Hc).
  simplify_eq. by exists ms, p.
Qed.

Lemma computed_blocks_frame rid l local ext c c' :
  allocate_new_computed_blocks rid l local ext c = Ok c' -> co_frame c c'.
Proof.
  unfold allocate_new_computed_blocks. intros Hc. destruct (existsb _ _).
  - apply bind_Ok_inv in Hc as (? & _ & Hc). by simplify_eq.
  - apply bind_Ok_inv in Hc as ([ms p] & _ & Hc). apply bind_Ok_inv in Hc as ([ms' p'] & _ & Hc).
    simplify_eq. by exists ms', p'.
Qed.

Lemma new_blocks_frame rid n main enc c l c' :
  co_allocate_new_blocks rid n main enc c = Ok (l, c') -> co_frame c c'.
Proof.
  unfold co_allocate_new_blocks. intros Hc. apply bind_Ok_inv in Hc as ([[new ms] p] & _ & Hc).
  simplify_eq. by exists ms, p.
Qed.

Lemma allocate_slots_frame `{!CacheFrame M} r n nc hits look ext delay enc full res sched k new r' k' :
  allocate_slots r n nc hits look ext delay enc full res sched k = Ok (new, r', k') ->
  memo_only r r' /\ kv_frame k k'.
Proof.
  unfold allocate_slots. intros Ha. destruct (_ && _); [done|]. cbn zeta in Ha.
  apply bind_Ok_inv in Ha as (fits & _ & Ha). destruct (negb fits); [by simplify_eq|].
  apply bind_Ok_inv in Ha as (c1 & H1 & Ha). apply co_remove_frame in H1.
  apply bind_Ok_inv in Ha as (nb & _ & Ha).
  destruct (_ <? _); [simplify_eq; split; [done|by apply kv_frame_co]|].
  apply bind_Ok_inv in Ha as (c2 & H2 & Ha). apply bind_Ok_inv in Ha as ([new1 c3] & H3 & Ha).
  apply bind_Ok_inv in Ha as ([r1 c4] & H4 & Ha). simplify_eq.
  apply cache_new_frame in H4 as [Hr H4]. split; [done|]. apply kv_frame_co.
  etrans; [exact H1|]. etrans; [|etrans; [by eapply new_blocks_frame|exact H4]].
  destruct (_ || _); [by eapply computed_blocks_frame|by simplify_eq].
Qed.

Lemma kv_cache_frame `{!CacheFrame M} r n k r' k' :
  kv_cache_blocks r n k = Ok (r', k') -> memo_only r r' /\ kv_frame k k'.
Proof.
  unfold kv_cache_blocks. intros Hc. apply bind_Ok_inv in Hc as ([r1 c] & Hn & Hc). simplify_eq.
  apply cache_new_frame in Hn as [? ?]. split; [done|by apply kv_frame_co].
Qed.

Lemma kv_free_frame r k k' : kv_free r k = Ok k' -> kv_frame k k'.
Proof.
  unfold kv_free. intros Hf. apply bind_Ok_inv in Hf as (p & _ & Hf). apply bind_Ok_inv in Hf as (c & Hc & Hf).
  simplify_eq. apply kv_frame_pins, kv_frame_co. unfold co_free in Hc.
  apply bind_Ok_inv in Hc as ([ms p'] & _ & Hc). simplify_eq. by exists ms, p'.
Qed.

Lemma kv_pop_frame r k l k' : kv_pop_blocks_for_free r k = (l, k') -> kv_frame k k'.
Proof.
  unfold kv_pop_blocks_for_free, co_pop_blocks_for_free. intros [= _ <-].
  apply kv_frame_pins, kv_frame_co. by eexists _, _.
Qed.

Lemma kv_remove_frame rid n np k k' : kv_remove_skipped_blocks rid n np k = Ok k' -> kv_frame k k'.
Proof.
  unfold kv_remove_skipped_blocks. intros Hc. apply bind_Ok_inv in Hc as (c & Hc & Hk). simplify_eq.
  apply kv_frame_co. by eapply co_remove_frame.
Qed.

Lemma kv_pool_frame p k : kv_frame k (with_pool p k).
Proof. apply kv_frame_co. by eexists _, _. Qed.

Lemma kv_evict_frame ids k k' : kv_evict_blocks ids k = Ok k' -> kv_frame k k'.
Proof.
  unfold kv_evict_blocks. intros Hc. apply bind_Ok_inv in Hc as (p & _ & Hk). simplify_eq.
  apply kv_frame_co. by eexists _, _.
Qed.

Lemma kv_reset_frame k : kv_frame k (kv_reset_prefix_cache k).2.
Proof.
  unfold kv_reset_prefix_cache. destruct (reset_prefix_cache _). apply kv_frame_co. by eexists _, _.
Qed.

Lemma kv_new_step_frame k : kv_frame k (kv_new_step_starts k).
Proof. apply kv_frame_co. by eexists _, _. Qed.

Lemma kv_common_frame rid k : kv_frame k (kv_get_num_common_prefix_blocks rid k).2.
Proof.
  unfold kv_get_num_common_prefix_blocks, co_get_num_common_prefix_blocks.
  destruct (co_kind _); simpl; apply kv_frame_co; [done|by eexists _, _..].
Qed.

Lemma kv_take_ids_frame k : kv_frame k (kv_take_new_block_ids k).2.
Proof. apply kv_frame_co. by eexists _, _. Qed.

Lemma kv_copies_frame k copies retained k' :
  take_kv_cache_block_copies k = (copies, retained, k') -> kv_frame k k'.
Proof. unfold take_kv_cache_block_copies. intros [= _ _ <-]. apply kv_frame_co. by eexists _, _. Qed.

Lemma kv_offloads_frame k o k' : take_partial_tail_offloads k = Ok (o, k') -> kv_frame k k'.
Proof.
  unfold take_partial_tail_offloads. intros Hc. cbn zeta in Hc. destruct (for_each _ _ _) as [[[p pins] o1]|]; simplify_eq.
  apply kv_frame_pins, kv_frame_co. by eexists _, _.
Qed.

Lemma kv_zeroing_frame rid n k k' : record_blocks_for_zeroing rid n k = Ok k' -> kv_frame k k'.
Proof.
  unfold record_blocks_for_zeroing. intros Hc. peel Hc; simplify_eq; apply kv_frame_co; by eexists _, _.
Qed.
End Frames.

(** * No lookup reports more than it was asked for *)

(** Every group has at most [n] blocks. *)
Definition at_most (n : Z) (computed : Computed) : Prop := Forall (fun c : list bref => zlen c <= n) computed.

Lemma at_most_mono n n' computed : at_most n computed -> n <= n' -> at_most n' computed.
Proof. intros Hc Hn. eapply Forall_impl; [exact Hc|]. simpl. lia. Qed.

Lemma each_group_at_most f (n n' : Z) computed cached :
  (forall c b, zlen c <= n -> zlen (f c b) <= n') -> n <= n' -> at_most n computed ->
  at_most n' (each_group f computed cached).
Proof.
  intros Hf Hn Hc. revert cached. induction Hc as [|c computed Hc Hcs IH]; intros cached; [constructor|].
  destruct cached as [|b cached]; [by eapply at_most_mono; [constructor|]|].
  constructor; [by apply Hf|apply IH].
Qed.

Lemma append_hit_at_most n computed cached : at_most n computed -> at_most (n + 1) (append_hit computed cached).
Proof. intros Hc. apply (each_group_at_most _ n); [|lia|done]. intros c b. rewrite length_app. simpl. lia. Qed.

Lemma trim_at_most n k computed : at_most n computed -> at_most n (trim k computed).
Proof.
  intros Hc. apply Forall_fmap. eapply Forall_impl; [exact Hc|]. intros c Hn. unfold compose.
  etrans; [|exact Hn]. unfold py_upto. rewrite length_take. lia.
Qed.

Lemma pop_each_at_most n computed computed' :
  pop_each computed = Ok computed' -> at_most n computed -> at_most n computed'.
Proof.
  revert computed'. induction computed as [|c computed IH]; intros computed' Hp Hc.
  { by injection Hp as <-. }
  unfold pop_each in Hp. cbn [map_ok] in Hp.
  apply Forall_cons in Hc as [Hc Hcs]. apply bind_Ok_inv in Hp as (c' & Hc' & Hp).
  apply bind_Ok_inv in Hp as (cs & Hcs' & Hp). simplify_eq. constructor; [|by apply IH].
  assert (c' = removelast c) as -> by (by destruct c; simplify_eq).
  etrans; [|exact Hc]. rewrite removelast_firstn_len, List.length_firstn. lia.
Qed.

Lemma head_len_bound n computed k : at_most n computed -> head_len computed = Ok k -> 0 <= k <= n.
Proof.
  intros Hc Hk. unfold head_len in Hk. apply bind_Ok_inv in Hk as (c & Hi & Hk). simplify_eq.
  split; [lia|]. rewrite py_index_nonneg in Hi by done. apply or_raise_Ok_inv in Hi.
  exact (Forall_lookup_1 _ _ _ _ Hc Hi).
Qed.

Lemma store_hit_at_most n i computed cached : at_most n computed -> at_most n (store_hit i computed cached).
Proof. intros Hc. apply (each_group_at_most _ n); [|done|done]. intros c b. by rewrite length_insert. Qed.

Lemma at_most_replicate n g (l : list bref) : zlen l <= n -> at_most n (replicate g l).
Proof. intros Hl. by apply Forall_replicate. Qed.

Section Bounds.
Context `{PoolEnv}.
Implicit Types (p : BlockPool).

Lemma full_hit_loop_bound p gids hs idxs n computed computed' :
  full_hit_loop p gids hs idxs computed = Ok computed' -> at_most n computed ->
  at_most (n + zlen idxs) computed'.
Proof.
  revert n computed. induction idxs as [|i idxs IH]; intros n computed Hl Hc; simpl in Hl.
  { simplify_eq. eapply at_most_mono; [exact Hc|simpl; lia]. }
  apply bind_Ok_inv in Hl as (h & _ & Hl). apply bind_Ok_inv in Hl as (o & _ & Hl).
  destruct (truthy o) as [cached|]; [|simplify_eq; eapply at_most_mono; [exact Hc|lia]].
  eapply at_most_mono; [eapply IH; [exact Hl|by apply append_hit_at_most]|]. simpl. lia.
Qed.

Lemma tail_hit_loop_bound p gids hs al idxs computed n computed' h :
  tail_hit_loop p gids hs al idxs computed n = Ok (computed', h) ->
  h = n \/ exists i, i ∈ idxs /\ h = (i + 1) * al.
Proof.
  revert computed. induction idxs as [|i idxs IH]; intros computed Hl; simpl in Hl; [left; by simplify_eq|].
  apply bind_Ok_inv in Hl as (hash & _ & Hl). apply bind_Ok_inv in Hl as (o & _ & Hl).
  destruct (truthy o) as [cached|].
  - simplify_eq. right. exists i. split; [left|done].
  - destruct (IH _ Hl) as [?|(j & ? & ?)]; [by left|right]. exists j. split; [by right|done].
Qed.

Lemma elem_of_range_down i a b : i ∈ py_range_down a b -> b < i <= a.
Proof. unfold py_range_down. rewrite elem_of_reverse, elem_of_seqZ. lia. Qed.

Lemma length_py_range a b : zlen (py_range a b) = Z.max 0 (b - a).
Proof. unfold py_range. rewrite length_seqZ. lia. Qed.

Lemma div_mul_bound a b n : 0 < b -> 0 <= a -> n <= a / b -> n * b <= a.
Proof. intros Hb Ha Hn. pose proof (Z.mul_div_le a b Hb). nia. Qed.

Lemma py_div_inv a b q : py_div a b = Ok q -> q = a / b.
Proof. unfold py_div. destruct (_ =? _); congruence. Qed.
Lemma py_mod_inv a b q : py_mod a b = Ok q -> q = a mod b.
Proof. unfold py_mod. destruct (_ =? _); congruence. Qed.

Lemma full_find_bound hs max gids p spec drop al dcp computed h :
  full_find_longest_cache_hit hs max gids p spec drop al dcp = Ok (computed, h) ->
  0 < spec_block_size spec -> 0 < al -> 0 <= h <= Z.max 0 max.
Proof.
  unfold full_find_longest_cache_hit. intros Hf Hbs0 Hal. apply bind_Ok_inv in Hf as (? & _ & Hf).
  cbn zeta in Hf. set (bs := if 1 <? dcp then _ else _) in Hf.
  assert (0 < bs) as Hbs. { unfold bs. destruct (Z.ltb_spec 1 dcp); nia. } clearbody bs.
  apply bind_Ok_inv in Hf as (hs1 & _ & Hf). apply bind_Ok_inv in Hf as (fine & _ & Hf).
  apply bind_Ok_inv in Hf as (hs2 & _ & Hf). apply bind_Ok_inv in Hf as (m & Hm & Hf).
  apply py_div_inv in Hm. destruct (Z.ltb_spec m 0); [done|].
  assert (0 <= max) as Hmax by (subst m; pose proof (Z.mul_div_le max bs Hbs); nia).
  rewrite Z.max_r by done. apply bind_Ok_inv in Hf as (comp & Hl & Hf).
  apply (full_hit_loop_bound _ _ _ _ 0) in Hl; [|by apply at_most_replicate].
  rewrite length_py_range in Hl. apply bind_Ok_inv in Hf as (n & Hn & Hf).
  eapply head_len_bound in Hn; [|exact Hl]. assert (0 <= n * bs <= max) as Hnb.
  { split; [nia|]. apply div_mul_bound; [done..|lia]. }
  apply bind_Ok_inv in Hf as ([comp1 h1] & Ht & Hf). apply bind_Ok_inv in Hf as (rest & Hr & Hf).
  apply py_mod_inv in Hr. assert (0 <= h1 <= max /\ (0 < h1 -> Z.min al bs <= h1)) as [Hh1 Hmin].
  { destruct fine; [|injection Ht as <- <-; split; [exact Hnb|intros; assert (1 <= n) by nia; assert (bs <= n * bs) by nia; lia]]. destruct hs1 as [l|]; [|done].
    apply tail_hit_loop_bound in Ht as [->|(i & Hi%elem_of_range_down & ->)]; [split; [exact Hnb|intros; assert (1 <= n) by nia; assert (bs <= n * bs) by nia; lia]|].
    assert (0 <= bs / al) by (apply Z.div_pos; lia). assert (0 <= i) by nia.
    split; [|nia]. split; [nia|]. apply div_mul_bound; [done..|lia]. }
  simplify_eq. set (h2 := if _ && _ then _ else _) in *. assert (0 <= h2 <= max) as Hh2.
  { unfold h2. destruct (drop && (0 <? h1)) eqn:E; [|lia]. apply andb_true_iff in E as [_ E%Z.ltb_lt]. specialize (Hmin E). lia. }
  pose proof (Z.mod_pos_bound h2 al Hal). pose proof (Z.mod_le h2 al). lia.
Qed.

Lemma window_loop_bound p gids hs need drop bs al n N computed k computed' k' found :
  window_loop p gids hs need drop bs al n computed k = Ok (computed', k', found) ->
  at_most N computed -> at_most N computed'.
Proof.
  revert computed k. induction n as [|n IH]; intros computed k Hl Hc; cbn [window_loop] in Hl; [by simplify_eq|].
  apply bind_Ok_inv in Hl as (h & _ & Hl). apply bind_Ok_inv in Hl as (o & _ & Hl).
  destruct (truthy o); [|by eapply IH]. cbn zeta in Hl. apply bind_Ok_inv in Hl as (u & _ & Hl).
  destruct u; [by eapply IH|]. destruct (need <=? _); [|by eapply IH; [|apply store_hit_at_most]].
  simplify_eq. by apply trim_at_most, store_hit_at_most.
Qed.

Lemma align_blocks_bound N bs al computed computed' :
  align_blocks bs al computed = Ok computed' -> at_most N computed -> at_most N computed'.
Proof.
  unfold align_blocks. generalize (S (length (default [] (head computed)))) as fuel. intros fuel.
  revert computed. induction fuel as [|fuel IH]; intros computed Ha Hc; simpl in Ha; [done|].
  destruct (bs =? al); [by simplify_eq|]. apply bind_Ok_inv in Ha as (n & _ & Ha).
  apply bind_Ok_inv in Ha as (m & _ & Ha). destruct (m =? 0); [by simplify_eq|].
  apply bind_Ok_inv in Ha as (c & Hp & Ha). eapply IH; [exact Ha|]. by eapply pop_each_at_most.
Qed.

Lemma window_find_bound hs max gids p spec drop al dcp pcp computed h :
  window_find_longest_cache_hit hs max gids p spec drop al dcp pcp = Ok (computed, h) ->
  0 < spec_block_size spec -> 0 <= h <= Z.max 0 max.
Proof.
  unfold window_find_longest_cache_hit. intros Hf Hbs. do 5 (apply bind_Ok_inv in Hf as (? & _ & Hf)).
  cbn zeta in Hf. apply bind_Ok_inv in Hf as (hs1 & _ & Hf). set (N := Z.to_nat (max / _)) in Hf.
  apply bind_Ok_inv in Hf as ([[c1 k1] found] & Hl & Hf).
  apply (window_loop_bound _ _ _ _ _ _ _ _ (Z.of_nat N)) in Hl;
    [|apply at_most_replicate; by rewrite length_replicate].
  apply bind_Ok_inv in Hf as (c2 & H2 & Hf). apply bind_Ok_inv in Hf as (c3 & H3 & Hf).
  assert (at_most (Z.of_nat N) c2) as Hc2.
  { destruct found; [by simplify_eq|]. eapply align_blocks_bound; [exact H2|by apply trim_at_most]. }
  assert (at_most (Z.of_nat N) c3) as Hc3.
  { destruct drop; [|by simplify_eq]. apply bind_Ok_inv in H3 as (n & _ & H3).
    destruct (n =? 0); [by simplify_eq|]. apply bind_Ok_inv in H3 as (c4 & Hp & H3).
    eapply align_blocks_bound; [exact H3|by eapply pop_each_at_most]. }
  apply bind_Ok_inv in Hf as (n & Hn & Hf). eapply head_len_bound in Hn; [|exact Hc3]. simplify_eq.
  unfold N in Hn. pose proof (Z.mul_div_le max (spec_block_size spec) Hbs). nia.
Qed.

Lemma chunked_find_bound hs max gids p spec drop al dcp pcp computed h :
  chunked_find_longest_cache_hit hs max gids p spec drop al dcp pcp = Ok (computed, h) ->
  0 < spec_block_size spec -> (forall ch, chunk_of (spec_kind spec) = Some ch -> 0 < ch) ->
  0 <= h <= Z.max 0 max.
Proof.
  unfold chunked_find_longest_cache_hit. intros Hf Hbs Hch. apply bind_Ok_inv in Hf as (ch & Hc & Hf).
  apply or_raise_Ok_inv, Hch in Hc. do 4 (apply bind_Ok_inv in Hf as (? & _ & Hf)). cbn zeta in Hf.
  apply bind_Ok_inv in Hf as (hs1 & _ & Hf). apply bind_Ok_inv in Hf as (m & Hm & Hf). apply py_div_inv in Hm.
  apply bind_Ok_inv in Hf as (start & Hs & Hf). apply bind_Ok_inv in Hf as (c1 & Hl & Hf).
  apply bind_Ok_inv in Hf as (n & Hn & Hf). simplify_eq. set (bs := spec_block_size spec) in *.
  assert (0 <= start <= Z.max 0 max) as Hst.
  { destruct (Z.ltb_spec 0 max); [|simplify_eq; lia]. apply bind_Ok_inv in Hs as (q & Hq & Hs).
    apply py_div_inv in Hq. simplify_eq. pose proof (Z.mul_div_le max ch Hc).
    assert (0 <= max / ch) by (apply Z.div_pos; lia). nia. }
  assert (0 <= start / bs) by (apply Z.div_pos; lia). pose proof (Z.mul_div_le start bs Hbs).
  pose proof (Z.mul_div_le max bs Hbs).
  apply (full_hit_loop_bound _ _ _ _ (start / bs)) in Hl;
    [|apply at_most_replicate; rewrite length_replicate; lia].
  rewrite length_py_range in Hl. eapply head_len_bound in Hn; [|exact Hl].
  destruct (Z.max_spec 0 (max / bs - start / bs)) as [[_ E]|[_ E]]; rewrite E in Hn; nia.
Qed.

Lemma mamba_fine_bound p gids hs sf bs idxs computed computed' h :
  mamba_fine_loop p gids hs sf bs idxs computed = Ok (computed', h) ->
  h = 0 \/ exists i, i ∈ idxs /\ h = (i + 1) * bs.
Proof.
  revert computed. induction idxs as [|i idxs IH]; intros computed Hl; simpl in Hl; [left; by simplify_eq|].
  apply bind_Ok_inv in Hl as (hash & _ & Hl). apply bind_Ok_inv in Hl as (o & _ & Hl).
  destruct (truthy o) as [cached|].
  - simplify_eq. right. exists i. split; [left|done].
  - destruct (IH _ Hl) as [?|(j & ? & ?)]; [by left|right]. exists j. split; [by right|done].
Qed.

Lemma mamba_block_bound p gids hs bs al idxs computed computed' h :
  mamba_block_loop p gids hs bs al idxs computed = Ok (computed', h) ->
  h = 0 \/ exists i, i ∈ idxs /\ h = (i + 1) * bs.
Proof.
  revert computed. induction idxs as [|i idxs IH]; intros computed Hl; simpl in Hl; [left; by simplify_eq|].
  apply bind_Ok_inv in Hl as (hash & _ & Hl). apply bind_Ok_inv in Hl as (o & _ & Hl).
  assert (forall c, mamba_block_loop p gids hs bs al idxs c = Ok (computed', h) ->
    h = 0 \/ exists j, j ∈ i :: idxs /\ h = (j + 1) * bs) as Hrec.
  { intros c Hc. destruct (IH _ Hc) as [?|(j & ? & ?)]; [by left|right]. exists j. split; [by right|done]. }
  destruct (truthy o) as [cached|]; [|by eapply Hrec].
  apply bind_Ok_inv in Hl as (u & _ & Hl). destruct u; [by eapply Hrec|].
  simplify_eq. right. exists i. split; [left|done].
Qed.

Lemma mamba_find_bound hs max gids p spec drop al dcp pcp computed h :
  mamba_find_longest_cache_hit hs max gids p spec drop al dcp pcp = Ok (computed, h) ->
  0 < spec_block_size spec -> 0 < al -> 0 <= h <= Z.max 0 max.
Proof.
  unfold mamba_find_longest_cache_hit. intros Hf Hbs Hal. do 3 (apply bind_Ok_inv in Hf as (? & _ & Hf)).
  cbn zeta in Hf. apply bind_Ok_inv in Hf as (hs1 & _ & Hf). apply bind_Ok_inv in Hf as (fine & _ & Hf).
  destruct fine.
  - destruct hs1 as [l|]; [|done].
    apply mamba_fine_bound in Hf as [->|(i & Hi%elem_of_range_down & ->)]; [lia|].
    pose proof (Z.mul_div_le max al Hal). nia.
  - apply bind_Ok_inv in Hf as (m & Hm & Hf). apply py_div_inv in Hm.
    apply mamba_block_bound in Hf as [->|(i & Hi%elem_of_range_down & ->)]; [lia|].
    pose proof (Z.mul_div_le max _ Hbs). nia.
Qed.
End Bounds.

(** ** The coordinator *)

(** A spec whose sizes are positive. *)
Definition spec_positive (spec : KVCacheSpec) : Prop :=
  0 < spec_block_size spec /\ forall ch, chunk_of (spec_kind spec) = Some ch -> 0 < ch.

(** What the coordinator's constructor sees to: positive sizes. *)
Definition hit_shape {M} (c : Coordinator M) : Prop :=
  Forall (fun g => spec_positive (kg_spec g)) (kv_cache_groups c) /\
  Forall (fun sg => spec_positive (sg_spec sg)) (attention_groups c) /\
  (co_kind c = Unitary -> 0 < unit_block_size c) /\ 0 < cache_hit_alignment_tokens c.

Lemma hit_shape_frame {M} (c c' : Coordinator M) : co_frame c c' -> hit_shape c -> hit_shape c'.
Proof. by intros (ms & p & ->). Qed.

Section Lookups.
Context `{PoolEnv} `{GroupManager M}.
Implicit Types (c : Coordinator M) (k : KVCacheManager M) (r : Request).

Lemma spec_find_bound hs max gids p spec drop al dcp pcp computed h :
  spec_find_longest_cache_hit hs max gids p spec drop al dcp pcp = Ok (computed, h) ->
  spec_positive spec -> 0 < al -> 0 <= h <= Z.max 0 max.
Proof.
  unfold spec_find_longest_cache_hit. intros Hf [Hbs Hch] Hal.
  destruct (spec_kind spec) eqn:E; try done;
    first [by apply (full_find_bound _ _ _ _ _ _ _ _ _ _ Hf)
          |by apply (window_find_bound _ _ _ _ _ _ _ _ _ _ _ Hf)
          |by apply (mamba_find_bound _ _ _ _ _ _ _ _ _ _ _ Hf)
          |apply (chunked_find_bound _ _ _ _ _ _ _ _ _ _ _ Hf); [done|by rewrite E]].
Qed.

(** The lengths a hybrid search keeps. *)
Definition lengths_ok (max : Z) (st : Search) : Prop :=
  Forall (fun n => 0 <= n <= max) (hit_lengths st) /\ 0 <= longest_hit_length st <= max.

Lemma store_hits_lengths max ids computed h blocks lengths :
  0 <= h <= max -> Forall (fun n => 0 <= n <= max) lengths ->
  Forall (fun n => 0 <= n <= max) (store_hits ids computed h blocks lengths).2.
Proof.
  revert computed blocks lengths. induction ids as [|gid ids IH]; intros [|l computed] blocks lengths Hh Hl;
    simpl; try done. apply IH; [done|]. by apply Forall_insert.
Qed.

Lemma visit_group_bound c hs max idx sg curr st curr' st' :
  visit_group c hs max idx sg curr st = Ok (curr', st') -> hit_shape c -> spec_positive (sg_spec sg) ->
  0 <= curr <= max -> lengths_ok max st -> 0 <= curr' <= max /\ lengths_ok max st'.
Proof.
  unfold visit_group. intros Hv (_ & _ & _ & Hal) Hsg Hcurr [Hl Hlong]. cbn zeta in Hv.
  apply bind_Ok_inv in Hv as (gid & _ & Hv). apply bind_Ok_inv in Hv as (m & _ & Hv).
  apply bind_Ok_inv in Hv as (cached & _ & Hv). destruct (_ && bool_decide _).
  - apply bind_Ok_inv in Hv as (n & Hn & Hv). injection Hv as <- <-. apply or_raise_Ok_inv in Hn.
    pose proof (Forall_lookup_1 _ _ _ _ Hl Hn). simpl in *. split; [lia|done].
  - apply bind_Ok_inv in Hv as ([computed h] & Hf & Hv). apply spec_find_bound in Hf; [|done..].
    assert (0 <= h <= max) as Hh.
    { split; [lia|]. destruct Hf as [_ Hf]. etrans; [exact Hf|]. unfold search_bound.
      destruct (_ && negb _); lia. }
    pose proof (store_hits_lengths max (sg_group_ids sg) computed h (hit_blocks st) (hit_lengths st) Hh Hl).
    destruct (store_hits _ _ _ _ _) as [bs ls]. injection Hv as <- <-. split; [done|split; simpl; [done|lia]].
Qed.

Lemma visit_groups_bound c hs max idx sgs curr st curr' st' :
  visit_groups c hs max idx sgs curr st = Ok (curr', st') -> hit_shape c ->
  Forall (fun sg => spec_positive (sg_spec sg)) sgs ->
  0 <= curr <= max -> lengths_ok max st -> 0 <= curr' <= max /\ lengths_ok max st'.
Proof.
  revert idx curr st. induction sgs as [|sg sgs IH]; intros idx curr st Hv Hc Hs Hcurr Hst; simpl in Hv.
  { by simplify_eq. }
  apply Forall_cons in Hs as [Hsg Hs]. apply bind_Ok_inv in Hv as ([curr1 st1] & H1 & Hv).
  destruct (visit_group_bound _ _ _ _ _ _ _ _ _ H1 Hc Hsg Hcurr Hst). by eapply IH.
Qed.

Lemma hybrid_loop_bound fuel c hs max simple hit st hit' st' :
  hybrid_loop fuel c hs max simple hit st = Ok (hit', st') -> hit_shape c ->
  0 <= hit <= max -> lengths_ok max st -> 0 <= hit' <= max.
Proof.
  revert hit st. induction fuel as [|fuel IH]; intros hit st Hl Hc Hhit Hst; simpl in Hl; [done|].
  apply bind_Ok_inv in Hl as ([curr st1] & Hv & Hl).
  destruct (visit_groups_bound _ _ _ _ _ _ _ _ _ Hv Hc (proj1 (proj2 Hc)) Hhit Hst) as [Hcurr Hst1].
  destruct (hit <=? curr); [by simplify_eq|]. destruct simple; [by simplify_eq|]. by eapply IH.
Qed.

Lemma co_find_bound c hs max blocks n u :
  co_find_longest_cache_hit c hs max = Ok (blocks, n, u) -> hit_shape c -> 0 <= max -> 0 <= n <= max.
Proof.
  unfold co_find_longest_cache_hit. intros Hf Hc Hmax. destruct (co_kind c) eqn:Hkind.
  - simplify_eq. lia.
  - destruct Hc as (Hg & _ & Hu & _). apply bind_Ok_inv in Hf as (g & Hhd & Hf).
    apply or_raise_Ok_inv in Hhd. destruct (kv_cache_groups c) as [|g0 gs]; [done|]. injection Hhd as ->.
    apply Forall_cons in Hg as [Hg _]. apply bind_Ok_inv in Hf as ([computed h] & Hf & Hr). simplify_eq.
    apply spec_find_bound in Hf; [lia|done|by apply Hu].
  - unfold hybrid_find_longest_cache_hit in Hf. apply bind_Ok_inv in Hf as (sg & _ & Hf).
    cbn zeta in Hf. apply bind_Ok_inv in Hf as ([h st] & Hl & Hf). apply bind_Ok_inv in Hf as (b & _ & Hf).
    simplify_eq. eapply hybrid_loop_bound; [exact Hl|done..|]. split; simpl; [|lia].
    apply Forall_replicate. lia.
Qed.

Lemma per_group_bound c hs max sgs blocks lengths blocks' lengths' :
  per_group_hits c hs max sgs blocks lengths = Ok (blocks', lengths') -> hit_shape c -> 0 <= max ->
  Forall (fun sg => spec_positive (sg_spec sg)) sgs -> Forall (fun n => 0 <= n <= max) lengths ->
  Forall (fun n => 0 <= n <= max) lengths'.
Proof.
  intros Hf Hc Hmax. revert blocks lengths Hf.
  induction sgs as [|sg sgs IH]; intros blocks lengths Hf Hs Hl; simpl in Hf; [by simplify_eq|].
  apply Forall_cons in Hs as [Hsg Hs]. apply bind_Ok_inv in Hf as ([computed h] & H1 & Hf).
  apply spec_find_bound in H1; [|done|apply Hc].
  pose proof (store_hits_lengths max (sg_group_ids sg) computed h blocks lengths ltac:(lia) Hl) as Hl'.
  destruct (store_hits _ _ _ _ _) as [bs ls]. by eapply IH.
Qed.

(** The two lookups of a waiting request. *)
Lemma get_computed_bound r full k blocks n b r' k' :
  get_computed_blocks r full k = Ok (blocks, n, b, r', k') -> hit_shape (coordinator k) ->
  1 <= num_tokens r -> 0 <= n <= num_tokens r - 1 /\ memo_only r r' /\ kv_frame k k'.
Proof.
  unfold get_computed_blocks. intros Hg Hc Hn. destruct (negb _); [simplify_eq; split_and!; [lia|lia|done|done]|].
  cbn zeta in Hg. destruct (co_find_longest_cache_hit _ _ _) as [[[bs h] u]|] eqn:Hf; [|done].
  apply co_find_bound in Hf; [|done|lia].
  match type of Hg with match ?x with _ => _ end = _ => destruct x as [[r1 p1]|] eqn:He; [|done] end.
  simplify_eq. split_and!; [lia..| |].
  - destruct (_ && _); [by eapply emit_reused_memo|by simplify_eq].
  - apply kv_pool_frame.
Qed.

Lemma get_computed_connector_bound r full k blocks n b d r' k' :
  get_computed_blocks_for_connector r full k = Ok (blocks, n, b, d, r', k') -> hit_shape (coordinator k) ->
  1 <= num_tokens r -> 0 <= n <= num_tokens r - 1 /\ memo_only r r' /\ kv_frame k k'.
Proof.
  unfold get_computed_blocks_for_connector. intros Hg Hc Hn. cbn zeta in Hg.
  set (rec := match get_computed_blocks r full k with Ok _ => _ | Raise e => Raise e end) in Hg.
  assert (rec = Ok (blocks, n, b, d, r', k') -> 0 <= n <= num_tokens r - 1 /\ memo_only r r' /\ kv_frame k k') as Hrec.
  { unfold rec. destruct (get_computed_blocks r full k) as [[[[[bs h] b1] r1] k1]|] eqn:E; [|done].
    intros [= <- <- <- <- <- <-]. by eapply get_computed_bound. }
  clearbody rec. destruct (co_kind _); [by apply Hrec..|].
  destruct (full_attention_group_id _) as [fa|]; [|by apply Hrec]. destruct (negb _); [by apply Hrec|].
  destruct (negb _); [simplify_eq; split_and!; [lia|lia|done|done]|].
  destruct (find_longest_cache_hit_per_group _ _ _) as [[computed hits]|] eqn:Hf; [|done].
  destruct (hits !! fa) as [h|] eqn:Eh; [|done]. destruct (existsb _ _); [by apply Hrec|]. simplify_eq.
  split_and!; [..|done|done].
  all: unfold find_longest_cache_hit_per_group in Hf; cbn zeta in Hf;
    apply bind_Ok_inv in Hf as ([bs ls] & Hf & Hr); simplify_eq;
    eapply per_group_bound in Hf; [|done|lia|apply Hc|apply Forall_replicate; lia];
    pose proof (Forall_lookup_1 _ _ _ _ Hf Eh); simpl in *; lia.
Qed.
End Lookups.
