(* ===== verification/Heapq.v ===== *)
(** Python's [heapq] on a list, as the priority queue of
    src/upstream/vllm/v1/core/sched/request_queue.py uses it: [heappush],
    [heappop] and [heapify] with the standard library's two sifts, and the
    order they keep.

    The two sifts carry an item past a hole that moves through the list; the
    proofs speak of the list with its hole ([hole]). Positions are [nat]. *)
From S2P Require Import Prelude.
From Stdlib Require Import Sorting.Sorted.
Open Scope nat_scope.

(** * The functions of [heapq] *)

Section Heap.
Context {A : Type}.
Variable lt : A -> A -> bool.

Definition parent (pos : nat) : nat := (pos - 1) / 2.

(** [_siftdown]: [pos] walks towards the root while the item is smaller than the
    parent; each step decreases [pos]. *)
Fixpoint siftdown_loop (fuel : nat) (heap : list A) (startpos pos : nat) (newitem : A)
    : result (list A) :=
  match fuel with
  | O => Raise Diverges
  | S fuel =>
      if startpos <? pos then
        par ← or_raise IndexError (heap !! parent pos);
        if lt newitem par then
          siftdown_loop fuel (<[pos := par]> heap) startpos (parent pos) newitem
        else Ok (<[pos := newitem]> heap)
      else Ok (<[pos := newitem]> heap)
  end.
Definition siftdown (heap : list A) (startpos pos : nat) : result (list A) :=
  newitem ← or_raise IndexError (heap !! pos);
  siftdown_loop (S pos) heap startpos pos newitem.

(** The smaller child of [pos], given that its left child exists. *)
Definition smaller_child (heap : list A) (pos : nat) : result nat :=
  let childpos := 2 * pos + 1 in
  let rightpos := childpos + 1 in
  if rightpos <? length heap then
    l ← or_raise IndexError (heap !! childpos);
    r ← or_raise IndexError (heap !! rightpos);
    Ok (if lt l r then childpos else rightpos)
  else Ok childpos.

(** [_siftup]: the smaller children move up until the hole is a leaf, then the item
    is put there and sifted down. *)
Fixpoint siftup_loop (fuel : nat) (heap : list A) (pos : nat) : result (list A * nat) :=
  match fuel with
  | O => Raise Diverges
  | S fuel =>
      if 2 * pos + 1 <? length heap then
        childpos ← smaller_child heap pos;
        child ← or_raise IndexError (heap !! childpos);
        siftup_loop fuel (<[pos := child]> heap) childpos
      else Ok (heap, pos)
  end.
Definition siftup (heap : list A) (pos : nat) : result (list A) :=
  newitem ← or_raise IndexError (heap !! pos);
  '(heap, leaf) ← siftup_loop (S (length heap)) heap pos;
  siftdown (<[leaf := newitem]> heap) pos leaf.

Definition heappush (heap : list A) (item : A) : result (list A) :=
  siftdown (heap ++ [item]) 0 (length heap).

(** [heap.pop()] takes the last item. *)
Definition heappop (heap : list A) : result (A * list A) :=
  match reverse heap with
  | [] => Raise IndexError
  | lastelt :: rest =>
      match reverse rest with
      | [] => Ok (lastelt, [])
      | (returnitem :: _) as heap' =>
          h ← siftup (<[0 := lastelt]> heap') 0;
          Ok (returnitem, h)
      end
  end.

Definition heapify (heap : list A) : result (list A) :=
  for_each (fun i h => siftup h i) (reverse (seq 0 (length heap / 2))) heap.

(** Popping until the heap is empty. *)
Fixpoint drain (fuel : nat) (heap : list A) : result (list A) :=
  match fuel, heap with
  | _, [] => Ok []
  | O, _ => Raise Diverges
  | S fuel, _ =>
      '(x, heap) ← heappop heap;
      xs ← drain fuel heap;
      Ok (x :: xs)
  end.
End Heap.

(** * The order of a heap *)

(** What the proofs need of [<]: incomparable items may be distinct. *)
Class StrictWeakOrder {A} (lt : A -> A -> bool) : Prop := {
  swo_irrefl a : lt a a = false;
  swo_asym a b : lt a b = true -> lt b a = false;
  swo_neg_trans a b c : lt b a = false -> lt c b = false -> lt c a = false
}.

Section Order.
Context {A : Type} (lt : A -> A -> bool) `{!StrictWeakOrder lt}.
Implicit Types (h : list A) (x y : A) (s pos j : nat).

(** [not_after x y]: the code may hand out [x] before [y]. *)
Definition not_after x y : Prop := lt y x = false.

#[local] Instance not_after_preorder : PreOrder not_after.
Proof.
  split; [intros x; apply swo_irrefl|].
  intros x y z Hxy Hyz. by eapply swo_neg_trans.
Qed.

Definition ordered_at h i j : Prop :=
  forall x y, h !! i = Some x -> h !! j = Some y -> not_after x y.

(** Every edge below a parent at or after [s] is ordered. *)
Definition heap_from s h : Prop :=
  forall j, 0 < j -> s <= parent j -> ordered_at h (parent j) j.
Definition is_heap h : Prop := heap_from 0 h.

(** The same with a hole at [pos], whose own parent is ordered with its children. *)
Record hole s h pos : Prop := {
  ho_edges j : 0 < j -> s <= parent j -> j <> pos -> parent j <> pos -> ordered_at h (parent j) j;
  ho_across j : 0 < j -> parent j = pos -> 0 < pos -> s <= parent pos -> ordered_at h (parent pos) j
}.

(** [pos] is [s] or lies below it. *)
Inductive below s : nat -> Prop :=
  | below_refl : below s s
  | below_child pos : s < pos -> below s (parent pos) -> below s pos.

Lemma parent_lt j : 0 < j -> parent j < j.
Proof. intros Hj. unfold parent. apply Nat.Div0.div_lt_upper_bound. lia. Qed.

Lemma parent_child pos j : 0 < j -> parent j = pos <-> j = 2 * pos + 1 \/ j = 2 * pos + 2.
Proof.
  intros Hj. unfold parent. pose proof (Nat.div_mod_eq (j - 1) 2).
  pose proof (Nat.mod_upper_bound (j - 1) 2). lia.
Qed.

Lemma below_le s pos : below s pos -> s <= pos.
Proof. induction 1; lia. Qed.

Lemma below_root pos : below 0 pos.
Proof.
  induction pos as [pos IH] using lt_wf_ind. destruct (decide (pos = 0)) as [->|]; [constructor|].
  apply below_child; [lia|]. apply IH, parent_lt. lia.
Qed.

Lemma below_parent s pos : below s pos -> s < pos -> below s (parent pos).
Proof. intros [|? ? ?]; [lia|done]. Qed.

(** Moving the item at [c] into the hole at [i] leaves a hole at [c]. *)
Lemma swap_Permutation h i c x y :
  i <> c -> h !! c = Some y -> i < length h ->
  <[c := x]> (<[i := y]> h) ≡ₚ <[i := x]> h.
Proof.
  intros Hne Hc [z Hi]%lookup_lt_is_Some.
  assert (forall l k (a b : A), l !! k = Some a -> a :: <[k := b]> l ≡ₚ b :: l) as Hins.
  { intros l k a b Hk. assert (k < length l) by by eapply lookup_lt_Some.
    rewrite insert_take_drop by done. rewrite <-(take_drop_middle l k a Hk) at 3.
    rewrite <-!Permutation_middle. constructor. }
  apply (Permutation_app_inv_l [z; y]). simpl.
  trans (x :: y :: h).
  - trans (z :: x :: <[i := y]> h).
    + constructor. apply Hins. by rewrite list_lookup_insert_ne.
    + trans (x :: z :: <[i := y]> h); [constructor|]. constructor. by apply Hins.
  - trans (y :: x :: h); [constructor|]. trans (y :: z :: <[i := x]> h); [|constructor].
    constructor. symmetry. by apply Hins.
Qed.

Lemma lookup_hole h i j y : h !! j = Some y -> j <> i -> forall x, <[i := x]> h !! j = Some y.
Proof. intros Hj Hne x. by rewrite list_lookup_insert_ne. Qed.

(** Filling the hole with an item that fits above and below. *)
Lemma fill_hole s h pos x :
  hole s h pos ->
  (forall y, 0 < pos -> s <= parent pos -> h !! parent pos = Some y -> not_after y x) ->
  (forall j y, 0 < j -> parent j = pos -> h !! j = Some y -> not_after x y) ->
  heap_from s (<[pos := x]> h).
Proof.
  intros [He _] Hup Hdown j Hj Hs a b Ha Hb. pose proof (parent_lt j Hj) as Hlt.
  destruct (decide (j = pos)) as [->|Hjp]; [|destruct (decide (parent j = pos)) as [Hp|Hp]].
  - rewrite list_lookup_insert_ne in Ha by lia.
    apply list_lookup_insert_Some in Hb as [(_ & -> & _)|[? _]]; [by eapply Hup|done].
  - rewrite list_lookup_insert_ne in Hb by done.
    apply list_lookup_insert_Some in Ha as [(_ & -> & _)|[? _]]; [by eapply Hdown|congruence].
  - rewrite list_lookup_insert_ne in Ha, Hb by done. by eapply (He j).
Qed.

(** The hole moves to the parent. *)
Lemma hole_up s h pos p x y :
  hole s h pos -> 0 < pos -> s <= p -> p = parent pos -> h !! p = Some y -> not_after x y ->
  hole s (<[pos := y]> h) p /\
  (forall j z, 0 < j -> parent j = p -> <[pos := y]> h !! j = Some z -> not_after x z).
Proof.
  intros [He Ha] Hpos Hs -> Hy Hxy. pose proof (parent_lt pos Hpos) as Hlt.
  assert (forall j z, 0 < j -> parent j = parent pos -> <[pos := y]> h !! j = Some z ->
    not_after y z) as Hchild.
  { intros j z Hj Hp Hz. destruct (decide (j = pos)) as [->|Hne].
    - apply list_lookup_insert_Some in Hz as [(_ & -> & _)|[? _]]; done.
    - rewrite list_lookup_insert_ne in Hz by done.
      eapply (He j); [done|by rewrite Hp|done|rewrite Hp; lia|by rewrite Hp|done]. }
  split; [split|].
  - intros j Hj Hsj Hne Hnp a b Hla Hlb.
    destruct (decide (j = pos)) as [->|Hjp]; [done|].
    rewrite (list_lookup_insert_ne h pos j) in Hlb by done.
    destruct (decide (parent j = pos)) as [Hp|Hp].
    + apply list_lookup_insert_Some in Hla as [(_ & -> & _)|[? _]]; [|congruence].
      by eapply (Ha j).
    + rewrite list_lookup_insert_ne in Hla by done. by eapply (He j).
  - intros j Hj Hp Hpp Hsp a b Hla Hlb. pose proof (parent_lt (parent pos) Hpp) as Hlt2.
    rewrite list_lookup_insert_ne in Hla by lia.
    trans y; [eapply (He (parent pos)); try done; lia|exact (Hchild j b Hj Hp Hlb)].
  - intros j z Hj Hp Hz. trans y; [done|exact (Hchild j z Hj Hp Hz)].
Qed.

(** The hole moves to the smaller child. *)
Lemma hole_down s h pos c y :
  hole s h pos -> 0 < c -> parent c = pos -> h !! c = Some y ->
  (forall j z, 0 < j -> parent j = pos -> h !! j = Some z -> not_after y z) ->
  hole s (<[pos := y]> h) c.
Proof.
  intros [He Ha] Hc Hp Hy Hmin. pose proof (parent_lt c Hc) as Hlt. rewrite Hp in Hlt. split.
  - intros j Hj Hsj Hne Hnp a b Hla Hlb. pose proof (parent_lt j Hj) as Hltj.
    destruct (decide (j = pos)) as [->|Hjp]; [|destruct (decide (parent j = pos)) as [Hpj|Hpj]].
    + rewrite list_lookup_insert_ne in Hla by lia.
      apply list_lookup_insert_Some in Hlb as [(_ & -> & _)|[? _]]; [|done]. by eapply (Ha c).
    + rewrite list_lookup_insert_ne in Hlb by done.
      apply list_lookup_insert_Some in Hla as [(_ & -> & _)|[? _]]; [|congruence]. by eapply Hmin.
    + rewrite list_lookup_insert_ne in Hla, Hlb by done. by eapply (He j).
  - intros j Hj Hpj _ Hs a b Hla Hlb. pose proof (parent_lt j Hj) as Hltj.
    rewrite Hp in Hla. rewrite list_lookup_insert_ne in Hlb by lia.
    apply list_lookup_insert_Some in Hla as [(_ & -> & _)|[? _]]; [|done].
    rewrite <-Hpj in Hy. eapply (He j); try done; lia.
Qed.
End Order.

(** * The functions keep the order *)

Section Functions.
Context {A : Type} (lt : A -> A -> bool) `{!StrictWeakOrder lt}.
Implicit Types (h : list A) (x y : A) (s pos j : nat).
Local Abbreviation not_after := (not_after lt).
#[local] Existing Instance not_after_preorder.

Lemma hole_fill s h pos x : hole lt s h pos -> hole lt s (<[pos := x]> h) pos.
Proof.
  intros [He Ha]. split.
  - intros j Hj Hs Hne Hp a b. rewrite !list_lookup_insert_ne by done. by apply (He j).
  - intros j Hj Hp Hpos Hs a b. pose proof (parent_lt pos Hpos). pose proof (parent_lt j Hj).
    rewrite !list_lookup_insert_ne by lia. by apply (Ha j).
Qed.

(** The item ends where it fits. *)
Lemma siftdown_loop_Ok s x fuel : forall h pos,
  pos < fuel -> pos < length h -> below s pos -> hole lt s h pos ->
  (forall j y, 0 < j -> parent j = pos -> h !! j = Some y -> not_after x y) ->
  exists h', siftdown_loop lt fuel h s pos x = Ok h' /\ heap_from lt s h' /\ h' ≡ₚ <[pos := x]> h.
Proof.
  induction fuel as [|fuel IH]; intros h pos Hfuel Hpos Hb Hh Hdown; [lia|]. cbn [siftdown_loop].
  destruct (Nat.ltb_spec s pos) as [Hs|Hs].
  2: { eexists. split_and!; [done| |done]. apply fill_hole; [done| |done].
       intros y Hp Hsp. pose proof (parent_lt pos Hp). lia. }
  assert (0 < pos) as Hp0 by lia. pose proof (parent_lt pos Hp0) as Hlt.
  destruct (lookup_lt_is_Some_2 h (parent pos)) as [y Hy]; [lia|].
  pose proof (below_parent s pos Hb Hs) as Hb'. pose proof (below_le _ _ Hb') as Hsp.
  rewrite Hy. cbn [or_raise mbind result_bind]. destruct (lt x y) eqn:E.
  - destruct (hole_up lt s h pos (parent pos) x y Hh Hp0 Hsp eq_refl Hy (swo_asym _ _ E))
      as [Hh' Hdown'].
    destruct (IH (<[pos := y]> h) (parent pos)) as (h' & Hl & Hheap & Hperm); try done; [lia|..].
    { rewrite length_insert. lia. }
    exists h'. split_and!; [done..|]. rewrite Hperm. apply swap_Permutation; [lia|done..].
  - eexists. split_and!; [done| |done]. apply fill_hole; [done| |done].
    intros z _ _ Hz. by simplify_eq.
Qed.

Lemma smaller_child_Ok h pos :
  2 * pos + 1 < length h ->
  exists c y, smaller_child lt h pos = Ok c /\ h !! c = Some y /\ 0 < c /\ parent c = pos /\
    forall j z, 0 < j -> parent j = pos -> h !! j = Some z -> not_after y z.
Proof.
  intros Hlen. unfold smaller_child.
  destruct (lookup_lt_is_Some_2 h (2 * pos + 1) Hlen) as [l Hl].
  replace (2 * pos + 1 + 1) with (2 * pos + 2) by lia.
  assert (parent (2 * pos + 1) = pos) as Hpl by (apply parent_child; lia).
  assert (parent (2 * pos + 2) = pos) as Hpr by (apply parent_child; lia).
  destruct (Nat.ltb_spec (2 * pos + 2) (length h)) as [Hr|Hr].
  - destruct (lookup_lt_is_Some_2 h (2 * pos + 2) Hr) as [r Hrr]. rewrite Hl, Hrr.
    cbn [or_raise mbind result_bind]. destruct (lt l r) eqn:E.
    + exists (2 * pos + 1), l. split_and!; [done..|lia|done|].
      intros j z Hj [->| ->]%parent_child Hz; [|by simplify_eq; apply swo_asym|done].
      by simplify_eq.
    + exists (2 * pos + 2), r. split_and!; [done..|lia|done|].
      intros j z Hj [->| ->]%parent_child Hz; by simplify_eq.
  - exists (2 * pos + 1), l. split_and!; [done..|lia|done|].
    intros j z Hj [->| ->]%parent_child Hz; [by simplify_eq| |done].
    apply lookup_lt_Some in Hz. lia.
Qed.

(** The hole ends at a leaf. *)
Lemma siftup_loop_Ok s fuel : forall h pos,
  length h - pos < fuel -> pos < length h -> below s pos -> hole lt s h pos ->
  exists h' leaf, siftup_loop lt fuel h pos = Ok (h', leaf) /\ length h' = length h /\
    leaf < length h' /\ below s leaf /\ hole lt s h' leaf /\ length h' <= 2 * leaf + 1 /\
    forall x, <[leaf := x]> h' ≡ₚ <[pos := x]> h.
Proof.
  induction fuel as [|fuel IH]; intros h pos Hfuel Hpos Hb Hh; [lia|]. cbn [siftup_loop].
  destruct (Nat.ltb_spec (2 * pos + 1) (length h)) as [Hc|Hc].
  2: { exists h, pos. by split_and!. }
  destruct (smaller_child_Ok h pos Hc) as (c & y & -> & Hy & Hc0 & Hp & Hmin).
  cbn [mbind result_bind]. rewrite Hy. cbn [or_raise mbind result_bind].
  pose proof (parent_lt c Hc0) as Hlt. rewrite Hp in Hlt. apply lookup_lt_Some in Hy as Hcl.
  destruct (IH (<[pos := y]> h) c) as (h' & leaf & Hl & Hlen & Hleaf & Hb' & Hh' & Hend & Hperm).
  - rewrite length_insert. lia.
  - by rewrite length_insert.
  - apply below_child; [pose proof (below_le _ _ Hb); lia|by rewrite Hp].
  - by eapply hole_down.
  - rewrite length_insert in Hlen. exists h', leaf. split_and!; try done.
    intros x. rewrite Hperm. apply swap_Permutation; [lia|done..].
Qed.

Lemma siftup_Ok s h :
  s < length h -> heap_from lt (S s) h ->
  exists h', siftup lt h s = Ok h' /\ heap_from lt s h' /\ h' ≡ₚ h.
Proof.
  intros Hs Hh. unfold siftup. destruct (lookup_lt_is_Some_2 h s Hs) as [x Hx]. rewrite Hx.
  cbn [or_raise mbind result_bind].
  destruct (siftup_loop_Ok s (S (length h)) h s) as (h' & leaf & -> & Hlen & Hleaf & Hb & Hh' & Hend & Hperm);
    [lia|done|constructor| |].
  { split; [intros j Hj Hsj _ Hne; apply Hh; [done|lia]|].
    intros j _ _ Hs0 Hsp. pose proof (parent_lt s Hs0). lia. }
  cbn [mbind result_bind]. unfold siftdown. rewrite list_lookup_insert_eq by done.
  cbn [or_raise mbind result_bind].
  destruct (siftdown_loop_Ok s x (S leaf) (<[leaf := x]> h') leaf) as (h2 & -> & Hheap & Hp);
    [lia|by rewrite length_insert|done|by apply hole_fill| |].
  { intros j y Hj Hpj Hy. apply lookup_lt_Some in Hy. rewrite length_insert in Hy.
    apply parent_child in Hpj; lia. }
  exists h2. split_and!; [done..|]. rewrite Hp, list_insert_insert_eq, Hperm.
  by rewrite list_insert_id.
Qed.

Lemma heappush_Ok h x :
  is_heap lt h -> exists h', heappush lt h x = Ok h' /\ is_heap lt h' /\ h' ≡ₚ x :: h.
Proof.
  intros Hh. unfold heappush, siftdown. rewrite list_lookup_middle by done.
  cbn [or_raise mbind result_bind].
  destruct (siftdown_loop_Ok 0 x (S (length h)) (h ++ [x]) (length h)) as (h' & -> & Hheap & Hp);
    [lia|rewrite length_app; simpl; lia|apply below_root| | |].
  - split.
    + intros j Hj _ Hne Hpne a b Ha Hb. pose proof (parent_lt j Hj).
      assert (j < length h) by (apply lookup_lt_Some in Hb; rewrite length_app in Hb; simpl in Hb; lia).
      rewrite lookup_app_l in Ha, Hb by lia. by eapply (Hh j); [|lia|..].
    + intros j Hj Hp Hpos _ a b _ Hb. apply lookup_lt_Some in Hb. rewrite length_app in Hb.
      apply parent_child in Hp; simpl in *; lia.
  - intros j y Hj Hp Hy. apply lookup_lt_Some in Hy. rewrite length_app in Hy.
    apply parent_child in Hp; simpl in *; lia.
  - exists h'. split_and!; [done..|]. rewrite Hp.
    rewrite list_insert_id by by apply list_lookup_middle. by rewrite <-Permutation_cons_append.
Qed.

(** The root of a heap comes before everything in it. *)
Lemma heap_root h x : is_heap lt h -> h !! 0 = Some x -> Forall (not_after x) h.
Proof.
  intros Hh Hx. apply Forall_lookup_2. intros i. induction i as [i IH] using lt_wf_ind. intros y Hy.
  destruct (decide (i = 0)) as [->|Hi]; [simplify_eq; done|].
  pose proof (parent_lt i ltac:(lia)) as Hlt. apply lookup_lt_Some in Hy as Hl.
  destruct (lookup_lt_is_Some_2 h (parent i)) as [z Hz]; [lia|].
  trans z; [by eapply IH|]. eapply (Hh i); [lia|lia|done..].
Qed.

Lemma heappop_Ok x0 h0 :
  is_heap lt (x0 :: h0) ->
  exists h', heappop lt (x0 :: h0) = Ok (x0, h') /\ is_heap lt h' /\ h' ≡ₚ h0 /\
    Forall (not_after x0) h'.
Proof.
  intros Hh. pose proof (heap_root _ x0 Hh eq_refl) as Hmin.
  apply Forall_cons in Hmin as [_ Hmin]. unfold heappop.
  destruct (reverse (x0 :: h0)) as [|l r] eqn:E.
  { by apply (f_equal length) in E; rewrite length_reverse in E. }
  assert (x0 :: h0 = reverse r ++ [l]) as Heq.
  { by rewrite <-(reverse_involutive (x0 :: h0)), E, reverse_cons. }
  destruct (reverse r) as [|y tl] eqn:Er; injection Heq as -> ->.
  { exists []. split; [done|]. split; [|by split]. intros j Hj _ a b Ha. by rewrite lookup_nil in Ha. }
  destruct (siftup_Ok 0 (<[0 := l]> (y :: tl))) as (h' & Hs & Hheap & Hp).
  - rewrite length_insert. simpl. lia.
  - intros j Hj Hpj a b Ha Hb. pose proof (parent_lt j Hj).
    rewrite list_lookup_insert_ne in Ha, Hb by lia.
    eapply (Hh j); [done|lia|..]; change (y :: tl ++ [l]) with ((y :: tl) ++ [l]);
      by apply lookup_app_l_Some.
  - change (insert 0 l (y :: tl)) with (l :: tl) in *. rewrite Hs. cbn [mbind result_bind]. exists h'. split_and!; [done..| |].
    + rewrite Hp. by rewrite Permutation_cons_append.
    + rewrite Hp. by rewrite Permutation_cons_append.
Qed.

Lemma heapify_from i : forall h, i <= length h -> heap_from lt i h ->
  exists h', for_each (fun i h => siftup lt h i) (reverse (seq 0 i)) h = Ok h' /\
    is_heap lt h' /\ h' ≡ₚ h.
Proof.
  induction i as [|i IH]; intros h Hi Hh; [by exists h|].
  rewrite seq_S, reverse_app. cbn [Nat.add reverse app]. change (reverse [i]) with [i]. cbn [app for_each].
  destruct (siftup_Ok i h) as (h1 & -> & Hh1 & Hp1); [lia|done|]. cbn [mbind result_bind].
  destruct (IH h1) as (h2 & -> & Hh2 & Hp2); [|done|].
  { rewrite Hp1. lia. }
  exists h2. split_and!; [done..|]. by rewrite Hp2.
Qed.

Lemma heapify_Ok h : exists h', heapify lt h = Ok h' /\ is_heap lt h' /\ h' ≡ₚ h.
Proof.
  unfold heapify. apply heapify_from.
  - apply Nat.Div0.div_le_upper_bound. lia.
  - intros j Hj Hp a b _ Hb. apply lookup_lt_Some in Hb.
    pose proof (Nat.div_mod_eq (length h) 2). pose proof (Nat.mod_upper_bound (length h) 2).
    destruct (proj1 (parent_child (parent j) j Hj) eq_refl); lia.
Qed.

(** Draining a heap sorts it. *)
Lemma drain_Ok fuel : forall h, length h <= fuel -> is_heap lt h ->
  exists xs, drain lt fuel h = Ok xs /\ xs ≡ₚ h /\ StronglySorted not_after xs.
Proof.
  induction fuel as [|fuel IH]; intros [|x h] Hf Hh; try (by exists []; split_and!; [..|constructor]).
  { simpl in Hf. lia. }
  destruct (heappop_Ok x h Hh) as (h1 & Hpop & Hh1 & Hp1 & Hmin).
  change (drain lt (S fuel) (x :: h)) with ('(x, heap) ← heappop lt (x :: h); xs ← drain lt fuel heap; Ok (x :: xs)).
  rewrite Hpop. cbn [mbind result_bind].
  destruct (IH h1) as (xs & -> & Hp & Hs); [rewrite Hp1; simpl in Hf; lia|done|].
  cbn [mbind result_bind]. exists (x :: xs). split_and!; [done|by rewrite Hp, Hp1|].
  constructor; [done|]. by rewrite Hp.
Qed.
End Functions.
