(* ===== verification/RequestQueue.v ===== *)
(** The waiting queues of the scheduler,
    src/upstream/vllm/v1/core/sched/request_queue.py: the interface
    [RequestQueue], its two implementations ([FCFSRequestQueue], a deque, and
    [PriorityRequestQueue], a heap) and what they promise to the scheduler.

    A queue holds references to [Request] objects. A reference is the request's
    id: the scheduler keeps at most one live object per id in [self.requests].
    The comparison of a priority queue reads the objects, so every operation that
    compares takes the order [lt] of the moment. *)
From S2P Require Import Prelude Request Heapq.
From Stdlib Require Import QArith.Qcanon Sorting.Sorted.
Open Scope Z_scope.

(** * The interface *)

Inductive SchedulingPolicy := FCFS | PRIORITY.

#[export] Instance policy_eq_dec : EqDecision SchedulingPolicy.
Proof. solve_decision. Defined.

(** A reference to a request, and the requests behind the references. *)
Definition ref : Type := string.
#[export] Instance ref_eq_dec : EqDecision ref := _.
Definition order : Type := ref -> ref -> bool.
Definition ref_lt (obj : ref -> Request) : order := fun a b => request_lt (obj a) (obj b).

(** [RequestQueue]; [create_request_queue] of the policy is [rq_new] of the
    instance that has it. *)
Class RequestQueue (Q : Type) := {
  rq_policy : SchedulingPolicy;
  rq_new : Q;
  add_request : order -> ref -> Q -> result Q;
  pop_request : order -> Q -> result (ref * Q);
  peek_request : Q -> result ref;
  prepend_request : order -> ref -> Q -> result Q;
  prepend_requests : order -> Q -> Q -> result Q;
  remove_request : order -> ref -> Q -> result Q;
  remove_requests : order -> list ref -> Q -> result Q;
  rq_len : Q -> Z;
  rq_iter : order -> Q -> result (list ref)
}.
Definition rq_bool `{RequestQueue Q} (q : Q) : bool := 0 <? rq_len q.

(** [list.remove] and [deque.remove]: the first occurrence, or [ValueError]. *)
Fixpoint py_remove {A} `{EqDecision A} (x : A) (l : list A) : result (list A) :=
  match l with
  | [] => Raise ValueError
  | y :: l' => if decide (y = x) then Ok l' else l' ← py_remove x l'; Ok (y :: l')
  end.

(** The comprehension of both [remove_requests]. *)
Definition without (rs l : list ref) : list ref := filter (fun r => r ∉ rs) l.

(** * [FCFSRequestQueue] *)

Record FCFSRequestQueue := mkFCFS { fcfs_items : list ref }.

#[export] Instance fcfs_queue : RequestQueue FCFSRequestQueue := {
  rq_policy := FCFS;
  rq_new := mkFCFS [];
  add_request _ r q := Ok (mkFCFS (fcfs_items q ++ [r]));
  pop_request _ q :=
    match fcfs_items q with [] => Raise IndexError | r :: l => Ok (r, mkFCFS l) end;
  peek_request q :=
    match fcfs_items q with [] => Raise IndexError | r :: _ => Ok r end;
  prepend_request _ r q := Ok (mkFCFS (r :: fcfs_items q));
  prepend_requests _ rs q := Ok (mkFCFS (reverse (fcfs_items rs) ++ fcfs_items q));
  remove_request _ r q := l ← py_remove r (fcfs_items q); Ok (mkFCFS l);
  remove_requests _ rs q := Ok (mkFCFS (without rs (fcfs_items q)));
  rq_len q := zlen (fcfs_items q);
  rq_iter _ q := Ok (fcfs_items q)
}.

(** * [PriorityRequestQueue] *)

Record PriorityRequestQueue := mkPriority { pq_heap : list ref }.

Definition pq_push (lt : order) (r : ref) (q : PriorityRequestQueue) : result PriorityRequestQueue :=
  h ← heappush lt (pq_heap q) r; Ok (mkPriority h).
Definition pq_iter (lt : order) (q : PriorityRequestQueue) : result (list ref) :=
  drain lt (length (pq_heap q)) (pq_heap q).

#[export] Instance priority_queue : RequestQueue PriorityRequestQueue := {
  rq_policy := PRIORITY;
  rq_new := mkPriority [];
  add_request := pq_push;
  pop_request lt q := '(r, h) ← heappop lt (pq_heap q); Ok (r, mkPriority h);
  peek_request q :=
    match pq_heap q with [] => Raise IndexError | r :: _ => Ok r end;
  prepend_request := pq_push;
  prepend_requests lt rs q := l ← pq_iter lt rs; for_each (pq_push lt) l q;
  remove_request lt r q :=
    l ← py_remove r (pq_heap q); h ← heapify lt l; Ok (mkPriority h);
  remove_requests lt rs q := h ← heapify lt (without rs (pq_heap q)); Ok (mkPriority h);
  rq_len q := zlen (pq_heap q);
  rq_iter := pq_iter
}.

(** * What the scheduler relies on *)

(** [rq_items] are the references in the queue, in an order that only the
    implementation knows; [rq_inv] is its invariant under the order [lt]. *)
Class RequestQueueLaws (Q : Type) `{RequestQueue Q} := {
  rq_items : Q -> list ref;
  rq_inv : order -> Q -> Prop;
  rq_new_ok lt : rq_inv lt rq_new /\ rq_items rq_new = [];
  rq_inv_ext lt lt' q :
    (forall a b, a ∈ rq_items q -> b ∈ rq_items q -> lt a b = lt' a b) ->
    rq_inv lt q -> rq_inv lt' q;
  rq_len_ok q : rq_len q = zlen (rq_items q);
  add_request_ok lt r q : StrictWeakOrder lt -> rq_inv lt q ->
    exists q', add_request lt r q = Ok q' /\ rq_inv lt q' /\ rq_items q' ≡ₚ r :: rq_items q;
  pop_request_ok lt q : StrictWeakOrder lt -> rq_inv lt q -> rq_items q <> [] ->
    exists r q', pop_request lt q = Ok (r, q') /\ peek_request q = Ok r /\ rq_inv lt q' /\
      rq_items q ≡ₚ r :: rq_items q';
  prepend_request_ok lt r q : StrictWeakOrder lt -> rq_inv lt q ->
    exists q', prepend_request lt r q = Ok q' /\ rq_inv lt q' /\ rq_items q' ≡ₚ r :: rq_items q;
  prepend_requests_ok lt rs q : StrictWeakOrder lt -> rq_inv lt rs -> rq_inv lt q ->
    exists q', prepend_requests lt rs q = Ok q' /\ rq_inv lt q' /\
      rq_items q' ≡ₚ rq_items rs ++ rq_items q;
  remove_requests_ok lt rs q : StrictWeakOrder lt -> rq_inv lt q ->
    exists q', remove_requests lt rs q = Ok q' /\ rq_inv lt q' /\
      rq_items q' ≡ₚ without rs (rq_items q);
  rq_iter_ok lt q : StrictWeakOrder lt -> rq_inv lt q ->
    exists l, rq_iter lt q = Ok l /\ l ≡ₚ rq_items q;
  (* first come, first served: the items stand in the order of the queue *)
  add_fcfs lt r q q' : rq_policy = FCFS -> add_request lt r q = Ok q' -> rq_items q' = rq_items q ++ [r];
  pop_fcfs lt q r q' : rq_policy = FCFS -> pop_request lt q = Ok (r, q') -> rq_items q = r :: rq_items q';
  prepend_fcfs lt r q q' :
    rq_policy = FCFS -> prepend_request lt r q = Ok q' -> rq_items q' = r :: rq_items q;
  prepend_all_fcfs lt rs q q' : rq_policy = FCFS -> prepend_requests lt rs q = Ok q' ->
    rq_items q' = reverse (rq_items rs) ++ rq_items q
}.

#[local] Obligation Tactic := idtac.

#[export] Program Instance fcfs_laws : RequestQueueLaws FCFSRequestQueue := {
  rq_items := fcfs_items;
  rq_inv _ _ := True
}.
Next Obligation. done. Qed.
Next Obligation. done. Qed.
Next Obligation. done. Qed.
Next Obligation. intros lt r q _ _. eexists. split_and!; [done..|]. simpl. by rewrite <-Permutation_cons_append. Qed.
Next Obligation.
  intros lt [[|r l]] _ _ Hne; [done|]. by exists r, (mkFCFS l).
Qed.
Next Obligation. intros lt r q _ _. by eexists. Qed.
Next Obligation. intros lt rs q _ _ _. eexists. split_and!; [done..|]. simpl. by rewrite reverse_Permutation. Qed.
Next Obligation. intros lt rs q _ _. by eexists. Qed.
Next Obligation. intros lt q _ _. by eexists. Qed.
Next Obligation. by intros lt r q q' _ [= <-]. Qed.
Next Obligation. by intros lt [[|x l]] r q' _ [= <- <-]. Qed.
Next Obligation. by intros lt r q q' _ [= <-]. Qed.
Next Obligation. by intros lt rs q q' _ [= <-]. Qed.

Lemma pq_push_Ok lt r q : StrictWeakOrder lt -> is_heap lt (pq_heap q) ->
  exists q', pq_push lt r q = Ok q' /\ is_heap lt (pq_heap q') /\ pq_heap q' ≡ₚ r :: pq_heap q.
Proof.
  intros Hlt Hq. unfold pq_push. destruct (heappush_Ok lt _ r Hq) as (h & -> & Hh & Hp).
  by exists (mkPriority h).
Qed.

Lemma pq_push_all_Ok lt rs : StrictWeakOrder lt -> forall q, is_heap lt (pq_heap q) ->
  exists q', for_each (pq_push lt) rs q = Ok q' /\ is_heap lt (pq_heap q') /\
    pq_heap q' ≡ₚ rs ++ pq_heap q.
Proof.
  intros Hlt. induction rs as [|r rs IH]; intros q Hq; [by exists q|]. cbn [for_each].
  destruct (pq_push_Ok lt r q Hlt Hq) as (q1 & -> & Hq1 & Hp1). cbn [mbind result_bind].
  destruct (IH q1 Hq1) as (q2 & -> & Hq2 & Hp2). exists q2. split_and!; [done..|].
  rewrite Hp2, Hp1. symmetry. apply (Permutation_middle rs (pq_heap q) r).
Qed.

Lemma pq_iter_Ok lt q : StrictWeakOrder lt -> is_heap lt (pq_heap q) ->
  exists l, pq_iter lt q = Ok l /\ l ≡ₚ pq_heap q /\ StronglySorted (not_after lt) l.
Proof. intros Hlt Hq. unfold pq_iter. by apply drain_Ok. Qed.

#[export] Program Instance priority_laws : RequestQueueLaws PriorityRequestQueue := {
  rq_items := pq_heap;
  rq_inv lt q := is_heap lt (pq_heap q)
}.
Next Obligation. intros lt. split; [|done]. intros j _ _ a b Ha. done. Qed.
Next Obligation.
  intros lt lt' q Hext Hq j Hj Hp a b Ha Hb. unfold not_after.
  rewrite <-Hext by (by eapply list_elem_of_lookup_2). by apply (Hq j Hj Hp).
Qed.
Next Obligation. done. Qed.
Next Obligation. intros. by apply pq_push_Ok. Qed.
Next Obligation.
  intros lt [[|r h]] Hlt Hq Hne; [done|]. simpl in *.
  destruct (heappop_Ok lt r h Hq) as (h' & -> & Hh & Hp & _).
  exists r, (mkPriority h'). split_and!; [done..|]. simpl. by rewrite Hp.
Qed.
Next Obligation. intros. by apply pq_push_Ok. Qed.
Next Obligation.
  intros lt rs q Hlt Hrs Hq. simpl. destruct (pq_iter_Ok lt rs Hlt Hrs) as (l & -> & Hl & _).
  cbn [mbind result_bind]. destruct (pq_push_all_Ok lt l Hlt q Hq) as (q' & -> & Hq' & Hp).
  exists q'. split_and!; [done..|]. by rewrite Hp, Hl.
Qed.
Next Obligation.
  intros lt rs q Hlt Hq. simpl.
  destruct (heapify_Ok lt (without rs (pq_heap q))) as (h & -> & Hh & Hp). by exists (mkPriority h).
Qed.
Next Obligation.
  intros lt q Hlt Hq. simpl. destruct (pq_iter_Ok lt q Hlt Hq) as (l & -> & Hl & _). by exists l.
Qed.
Next Obligation. done. Qed.
Next Obligation. done. Qed.
Next Obligation. done. Qed.
Next Obligation. done. Qed.

(** * The order of requests *)

(** Two requests that neither order puts first agree in every key. *)
Definition same_key (a b : Request) : Prop :=
  priority a = priority b /\ arrival_time a = arrival_time b /\
  request_id a = request_id b /\ py_id a = py_id b.

Lemma request_lt_cases a b :
  request_lt a b = true \/ request_lt b a = true \/ same_key a b.
Proof.
  rewrite !request_lt_iff. unfold same_key.
  pose proof (eq_sym (x:=priority a) (y:=priority b)).
  destruct (Z.lt_total (priority a) (priority b)) as [?|[E1|?]]; [tauto| |tauto].
  destruct (Qc_dec (arrival_time a) (arrival_time b)) as [[?|?]|E2]; [tauto..|].
  destruct (decide (request_id a = request_id b)) as [E3|E3].
  - destruct (Z.lt_total (py_id a) (py_id b)) as [?|[?|?]]; [tauto|tauto|].
    right. left. right. split; [done|]. right. split; [done|]. right. split; [done|lia].
  - destruct (string_ltb_total _ _ E3); [tauto|].
    right. left. right. split; [done|]. right. split; [done|]. by left.
Qed.

Lemma same_key_lt a b c : same_key a b -> request_lt a c = request_lt b c /\ request_lt c a = request_lt c b.
Proof. intros (E1 & E2 & E3 & E4). unfold request_lt. by rewrite E1, E2, E3, E4. Qed.

#[export] Instance ref_lt_order obj : StrictWeakOrder (ref_lt obj).
Proof.
  pose proof request_lt_strict_total as (Hirr & Htrans & _). unfold ref_lt. split.
  - done.
  - intros a b Hab. destruct (request_lt (obj b) (obj a)) eqn:E; [|done].
    by rewrite <-(Hirr (obj a)), (Htrans _ _ _ Hab E).
  - intros a b c Hba Hcb. destruct (request_lt (obj c) (obj a)) eqn:E; [|done].
    destruct (request_lt_cases (obj b) (obj c)) as [Hbc|[Hbc|Hk]]; [|congruence|].
    + by rewrite <-Hba, (Htrans _ _ _ Hbc E).
    + destruct (same_key_lt _ _ (obj a) Hk) as [Hl _]. congruence.
Qed.

(** * The specification of a priority queue: a sorted list *)

Record SortedQueue := mkSorted { sorted_items : list ref }.

Fixpoint sorted_insert (lt : order) (r : ref) (l : list ref) : list ref :=
  match l with
  | [] => [r]
  | x :: l' => if lt r x then r :: l else x :: sorted_insert lt r l'
  end.
Definition sorted_add (lt : order) (r : ref) (q : SortedQueue) : result SortedQueue :=
  Ok (mkSorted (sorted_insert lt r (sorted_items q))).

#[export] Instance sorted_queue : RequestQueue SortedQueue := {
  rq_policy := PRIORITY;
  rq_new := mkSorted [];
  add_request := sorted_add;
  pop_request _ q :=
    match sorted_items q with [] => Raise IndexError | r :: l => Ok (r, mkSorted l) end;
  peek_request q :=
    match sorted_items q with [] => Raise IndexError | r :: _ => Ok r end;
  prepend_request := sorted_add;
  prepend_requests lt rs q := for_each (sorted_add lt) (sorted_items rs) q;
  remove_request _ r q := l ← py_remove r (sorted_items q); Ok (mkSorted l);
  remove_requests _ rs q := Ok (mkSorted (without rs (sorted_items q)));
  rq_len q := zlen (sorted_items q);
  rq_iter _ q := Ok (sorted_items q)
}.

(** The operations of a queue, what they answer, and sequences of them. *)
Inductive queue_op :=
  | Add (r : ref) | Prepend (r : ref) | PrependAll (rs : list ref) | Remove (r : ref)
  | RemoveAll (rs : list ref) | Pop | Peek | Iter.

Definition of_list `{RequestQueue Q} (lt : order) (rs : list ref) : result Q :=
  for_each (add_request lt) rs rq_new.
Definition queue_step `{RequestQueue Q} (lt : order) (op : queue_op) (q : Q) : result (list ref * Q) :=
  match op with
  | Add r => q ← add_request lt r q; Ok ([], q)
  | Prepend r => q ← prepend_request lt r q; Ok ([], q)
  | PrependAll rs => q' ← of_list lt rs; q ← prepend_requests lt q' q; Ok ([], q)
  | Remove r => q ← remove_request lt r q; Ok ([], q)
  | RemoveAll rs => q ← remove_requests lt rs q; Ok ([], q)
  | Pop => '(r, q) ← pop_request lt q; Ok ([r], q)
  | Peek => r ← peek_request q; Ok ([r], q)
  | Iter => l ← rq_iter lt q; Ok (l, q)
  end.
(** The answers of a sequence, up to and including the exception that ends it. *)
Fixpoint queue_run `{RequestQueue Q} (lt : order) (ops : list queue_op) (q : Q)
    : list (result (list ref * Z)) :=
  match ops with
  | [] => []
  | op :: ops =>
      match queue_step lt op q with
      | Raise e => [Raise e]
      | Ok (answer, q) => Ok (answer, rq_len q) :: queue_run lt ops q
      end
  end.

(** * A heap is a sorted list *)

Section Refinement.
Variable lt : order.
Context `{Hlt : !StrictWeakOrder lt}.
Hypothesis lt_total : forall a b, a <> b -> lt a b = true \/ lt b a = true.
Local Abbreviation not_after := (not_after lt).

Definition refines (h : PriorityRequestQueue) (l : SortedQueue) : Prop :=
  is_heap lt (pq_heap h) /\ sorted_items l ≡ₚ pq_heap h /\ StronglySorted not_after (sorted_items l).

Lemma not_after_antisym a b : not_after a b -> not_after b a -> a = b.
Proof.
  unfold Heapq.not_after. intros Hab Hba. destruct (decide (a = b)) as [|Hne]; [done|].
  destruct (lt_total a b Hne); congruence.
Qed.

Lemma sorted_unique l1 : forall l2, l1 ≡ₚ l2 ->
  StronglySorted not_after l1 -> StronglySorted not_after l2 -> l1 = l2.
Proof.
  induction l1 as [|a l1 IH]; intros l2 Hp H1 H2; [by apply Permutation_nil in Hp|].
  destruct l2 as [|b l2]; [by symmetry in Hp; apply Permutation_nil in Hp|].
  apply StronglySorted_inv in H1 as [H1 Ha]. apply StronglySorted_inv in H2 as [H2 Hb].
  assert (a = b) as ->.
  { assert (a ∈ b :: l2) as Hin by (rewrite <-Hp; left).
    assert (b ∈ a :: l1) as Hin' by (rewrite Hp; left).
    apply elem_of_cons in Hin as [->|Hin]; [done|]. apply elem_of_cons in Hin' as [->|Hin']; [done|].
    apply not_after_antisym; [by eapply Forall_forall in Ha|by eapply Forall_forall in Hb]. }
  f_equal. apply IH; [|done..]. by eapply Permutation_cons_inv.
Qed.

Lemma sorted_insert_Permutation r l : sorted_insert lt r l ≡ₚ r :: l.
Proof.
  induction l as [|x l IH]; [done|]. simpl. destruct (lt r x); [done|]. rewrite IH. constructor.
Qed.

Lemma sorted_insert_sorted r l :
  StronglySorted not_after l -> StronglySorted not_after (sorted_insert lt r l).
Proof.
  induction 1 as [|x l Hl IH Hx]; [by repeat constructor|]. simpl. destruct (lt r x) eqn:E.
  - pose proof (swo_asym _ _ E) as E'. constructor; [by constructor|]. constructor; [done|].
    eapply Forall_impl; [exact Hx|]. intros y Hy. by eapply swo_neg_trans.
  - constructor; [done|]. rewrite sorted_insert_Permutation. by constructor.
Qed.

Lemma filter_sorted (P : ref -> Prop) `{!forall r, Decision (P r)} l :
  StronglySorted not_after l -> StronglySorted not_after (filter P l).
Proof.
  induction 1 as [|x l Hl IH Hx]; [constructor|]. rewrite filter_cons. case_decide; [|done].
  constructor; [done|]. apply Forall_forall. intros y [_ Hy]%list_elem_of_filter. by eapply Forall_forall in Hx.
Qed.

Lemma py_remove_Permutation (r : ref) (l l' : list ref) :
  l ≡ₚ l' -> match py_remove r l with
    | Ok m => exists m', py_remove r l' = Ok m' /\ m ≡ₚ m' /\ l ≡ₚ r :: m /\ m `sublist_of` l
    | Raise e => e = ValueError /\ py_remove r l' = Raise ValueError end.
Proof.
  assert (forall k : list ref, match py_remove r k with
    | Ok m => k ≡ₚ r :: m /\ m `sublist_of` k | Raise e => e = ValueError /\ r ∉ k end) as Hr.
  { induction k as [|x k IH]; simpl; [set_solver|]. case_decide as E; [subst; split; [done|by constructor]|].
    destruct (py_remove r k) as [m|e]; simpl; [|set_solver].
    destruct IH as [IH Hs]. split; [rewrite IH; constructor|by constructor]. }
  intros Hp. pose proof (Hr l) as H1. pose proof (Hr l') as H2.
  destruct (py_remove r l) as [m|e], (py_remove r l') as [m'|e'].
  - destruct H1 as [H1 Hs]. destruct H2 as [H2 _]. exists m'. split_and!; [done| |done..].
    apply (Permutation_cons_inv (a:=r)). by rewrite <-H1, <-H2.
  - destruct H1 as [H1 _], H2 as [-> H2]. destruct H2. rewrite <-Hp, H1. left.
  - destruct H1 as [-> H1], H2 as [H2 _]. destruct H1. rewrite Hp, H2. left.
  - naive_solver.
Qed.

Lemma sublist_sorted (l l' : list ref) : l `sublist_of` l' -> StronglySorted not_after l' -> StronglySorted not_after l.
Proof.
  induction 1 as [|x l l' Hl IH|x l l' Hl IH]; intros Hs; [done|..];
    apply StronglySorted_inv in Hs as [Hs Hx]; [|by apply IH].
  constructor; [by apply IH|]. apply Forall_forall. intros y Hy.
  eapply Forall_forall in Hx; [done|]. by eapply elem_of_sublist.
Qed.

Lemma refines_add h l r : refines h l ->
  exists h' l', add_request lt r h = Ok h' /\ add_request lt r l = Ok l' /\ refines h' l'.
Proof.
  intros (Hh & Hp & Hs). destruct (pq_push_Ok lt r h Hlt Hh) as (h' & Hadd & Hh' & Hp').
  exists h', (mkSorted (sorted_insert lt r (sorted_items l))). split; [exact Hadd|]. split; [done|].
  split; [done|]. simpl. split; [|by apply sorted_insert_sorted].
  by rewrite sorted_insert_Permutation, Hp, Hp'.
Qed.

Lemma refines_add_all rs : forall h l, refines h l ->
  exists h' l', for_each (add_request lt) rs h = Ok h' /\ for_each (add_request lt) rs l = Ok l' /\
    refines h' l'.
Proof.
  induction rs as [|r rs IH]; intros h l Hr; [by exists h, l|]. cbn [for_each].
  destruct (refines_add h l r Hr) as (h1 & l1 & -> & -> & Hr1). cbn [mbind result_bind]. by apply IH.
Qed.

Lemma refines_iter h l : refines h l -> rq_iter lt h = Ok (sorted_items l).
Proof.
  intros (Hh & Hp & Hs). destruct (pq_iter_Ok lt h Hlt Hh) as (xs & Hi & Hx & Hsx).
  change (rq_iter lt h) with (pq_iter lt h). rewrite Hi. f_equal. apply sorted_unique; [|done..].
  by rewrite Hx, Hp.
Qed.

Lemma refines_head h l : refines h l ->
  match pq_heap h, sorted_items l with
  | [], [] => True | x :: _, y :: _ => x = y | _, _ => False end.
Proof.
  intros (Hh & Hp & Hs). destruct (pq_heap h) as [|x xs] eqn:Eh.
  { symmetry in Hp. apply Permutation_nil in Hp. by rewrite Hp. }
  destruct (sorted_items l) as [|y ys] eqn:El; [by apply Permutation_nil in Hp|].
  apply StronglySorted_inv in Hs as [_ Hy]. apply (heap_root lt _ x) in Hh; [|done].
  assert (y ∈ x :: xs) as Hyin by (rewrite <-Hp; left).
  assert (x ∈ y :: ys) as Hxin by (rewrite Hp; left).
  apply not_after_antisym; [by eapply Forall_forall in Hh|].
  apply elem_of_cons in Hxin as [->|Hin]; [apply swo_irrefl|]. by eapply Forall_forall in Hy.
Qed.

(** One operation: the same answer, the same length, and again a refinement. *)
Lemma queue_step_refines op h l : refines h l ->
  match queue_step lt op l with
  | Ok (answer, l') => exists h', queue_step lt op h = Ok (answer, h') /\ refines h' l' /\
      rq_len h' = rq_len l'
  | Raise e => queue_step lt op h = Raise e
  end.
Proof.
  intros Hr. assert (forall h l, refines h l -> rq_len h = rq_len l) as Hlen.
  { intros h' l' (_ & Hp & _). cbn [rq_len priority_queue sorted_queue]. by rewrite Hp. }
  destruct op as [r|r|rs|r|rs| | |]; cbn [queue_step].
  - destruct (refines_add h l r Hr) as (h1 & l1 & -> & -> & Hr1). cbn [mbind result_bind].
    exists h1. auto.
  - destruct (refines_add h l r Hr) as (h1 & l1 & Hh & Hl & Hr1).
    change (prepend_request lt r h) with (add_request lt r h). rewrite Hh.
    change (prepend_request lt r l) with (add_request lt r l). rewrite Hl.
    cbn [mbind result_bind]. exists h1. auto.
  - destruct (refines_add_all rs rq_new rq_new) as (hr & lr & Hh & Hl & Hrr).
    { split; [exact (proj1 (rq_new_ok (Q:=PriorityRequestQueue) lt))|split; constructor]. }
    unfold of_list. rewrite Hh, Hl. cbn [mbind result_bind].
    change (prepend_requests lt hr h) with (l ← rq_iter lt hr; for_each (add_request lt) l h).
    rewrite (refines_iter hr lr Hrr). cbn [mbind result_bind].
    change (prepend_requests lt lr l) with (for_each (add_request lt) (sorted_items lr) l).
    destruct (refines_add_all (sorted_items lr) h l Hr) as (h1 & l1 & -> & -> & Hr1).
    cbn [mbind result_bind]. exists h1. auto.
  - destruct Hr as (Hh & Hp & Hs). cbn [remove_request priority_queue sorted_queue].
    pose proof (py_remove_Permutation r _ _ Hp) as Hrem.
    destruct (py_remove r (sorted_items l)) as [m|e]; cbn [mbind result_bind].
    + destruct Hrem as (m' & -> & Hm & _ & Hsub). cbn [mbind result_bind].
      destruct (heapify_Ok lt m') as (h' & -> & Hh' & Hp'). cbn [mbind result_bind].
      exists (mkPriority h'). split; [done|].
      assert (refines (mkPriority h') (mkSorted m)); [|auto].
      split; [done|]. split; [simpl; by rewrite Hp'|by eapply sublist_sorted].
    + destruct Hrem as [-> ->]. done.
  - destruct Hr as (Hh & Hp & Hs). cbn [remove_requests priority_queue sorted_queue].
    destruct (heapify_Ok lt (without rs (pq_heap h))) as (h' & -> & Hh' & Hp').
    cbn [mbind result_bind]. exists (mkPriority h'). split; [done|].
    assert (refines (mkPriority h') (mkSorted (without rs (sorted_items l)))); [|auto].
    split; [done|]. split; [simpl; rewrite Hp'; unfold without; by rewrite Hp|by apply filter_sorted].
  - pose proof (refines_head h l Hr) as Hhd. destruct Hr as (Hh & Hp & Hs).
    cbn [pop_request priority_queue sorted_queue].
    destruct h as [[|x xs]], l as [[|y ys]]; try done. simpl in *. subst y.
    destruct (heappop_Ok lt x xs Hh) as (h' & -> & Hh' & Hp' & _). cbn [mbind result_bind].
    exists (mkPriority h'). split; [done|].
    assert (refines (mkPriority h') (mkSorted ys)) as H; [|split; [done|exact (Hlen _ _ H)]].
    apply StronglySorted_inv in Hs as [Hs _]. split; [done|]. split; [|done]. simpl.
    rewrite Hp'. by eapply Permutation_cons_inv.
  - pose proof (refines_head h l Hr) as Hhd. cbn [peek_request priority_queue sorted_queue].
    destruct h as [[|x xs]], l as [[|y ys]]; try done. simpl in *. subst y.
    exists (mkPriority (x :: xs)). split; [done|]. split; [done|exact (Hlen _ _ Hr)].
  - rewrite (refines_iter h l Hr). cbn [rq_iter sorted_queue mbind result_bind].
    exists h. split; [done|]. split; [done|exact (Hlen _ _ Hr)].
Qed.

Lemma queue_run_refines ops : forall h l, refines h l -> queue_run lt ops h = queue_run lt ops l.
Proof.
  induction ops as [|op ops IH]; intros h l Hr; [done|]. cbn [queue_run].
  pose proof (queue_step_refines op h l Hr) as Hstep.
  destruct (queue_step lt op l) as [[answer l']|e]; [|by rewrite Hstep].
  destruct Hstep as (h' & -> & Hr' & ->). f_equal. by apply IH.
Qed.
End Refinement.

(** * Properties *)

(** C33: [PriorityRequestQueue] is a sorted list. Whatever sequence of additions,
    prependings, merges, removals, pops, peeks and iterations is made on it,
    every answer (the requests handed out, the lengths, the exceptions) is that of
    a list kept in the order of [Request.__lt__], whose pop takes the head: the
    next request is always the one of least priority value, then earliest
    arrival, then least id, and no request is lost or handed out twice. *)
Theorem priority_queue_is_sorted (obj : ref -> Request) ops :
  (forall a b, a <> b -> py_id (obj a) <> py_id (obj b)) ->
  queue_run (ref_lt obj) ops (rq_new : PriorityRequestQueue) =
  queue_run (ref_lt obj) ops (rq_new : SortedQueue).
Proof.
  intros Hid. apply queue_run_refines; [apply ref_lt_order| |].
  - intros a b Hne. destruct (request_lt_cases (obj a) (obj b)) as [?|[?|Hk]]; [auto..|].
    destruct (Hid a b Hne). apply Hk.
  - split; [exact (proj1 (rq_new_ok (Q:=PriorityRequestQueue) (ref_lt obj)))|split; constructor].
Qed.

(** * Concrete inputs *)

(** Four requests, [urgent] with the least priority value. *)
Definition demo_objects (r : ref) : Request :=
  let q := example_request (Zpos (encode r)) [] in
  mkRequest r (if decide (r = "urgent"%string) then 0 else 1) (arrival_time q) (py_id q) (status q)
    (stop_reason q) (sampling_params q) (pooling_params q) (lora_request q) (max_tokens q)
    (prompt_embeds q) (embeds_memo q) (num_prompt_tokens q) (output_token_ids q) (all_token_ids q)
    (spec_token_ids q) (num_computed_tokens q) (num_in_flight_tokens q) (cache_salt q) (mm_features q)
    (shared_prefix_boundary q) (num_preemptions q) (block_hashes q) (skip_reading_prefix_cache q).

Lemma priority_queue_is_sorted_witness :
  queue_run (ref_lt demo_objects) [Add "c"; Add "a"; Add "urgent"; Add "b"; Iter; Pop; Remove "b"; Pop; Pop; Pop]%string
    (rq_new : PriorityRequestQueue) =
  [Ok ([], 1); Ok ([], 2); Ok ([], 3); Ok ([], 4); Ok (["urgent"; "a"; "b"; "c"]%string, 4);
   Ok (["urgent"]%string, 3); Ok ([], 2); Ok (["a"]%string, 1); Ok (["c"]%string, 0); Raise IndexError].
Proof.
  rewrite (priority_queue_is_sorted demo_objects); [vm_compute; reflexivity|].
  intros a b Hne Heq. apply Hne. apply (inj encode). by injection Heq.
Defined.
