(* ===== verification/ChunkPlan.v ===== *)
(** How many tokens of a request a step may run: the long-prefill threshold and
    the block-aligned split of Mamba prefills,
    [Scheduler._get_long_prefill_token_threshold] and
    [Scheduler._mamba_block_aligned_split] of
    src/upstream/vllm/v1/core/sched/scheduler.py. Both only read the scheduler;
    what they read is a parameter. *)
From S2P Require Import Prelude Request.
From Stdlib Require Import QArith.Qcanon.
Open Scope Z_scope.

(** * The long-prefill threshold *)

(** [request.num_computed_tokens < request.num_tokens - 1]. *)
Definition prefilling (r : Request) : bool := num_computed_tokens r <? num_tokens r - 1.
Definition count_prefills (rs : list Request) : Z := zlen (filter (fun r => prefilling r = true) rs).

(** [_get_long_prefill_token_threshold]; the last three arguments are the requests
    of [self.running], and of [self.skipped_waiting] and [self.waiting] together. *)
Definition get_long_prefill_token_threshold (threshold : Z) (adaptive : bool)
    (max_num_running_reqs num_waiting_for_streaming_input max_num_scheduled_tokens : Z)
    (running waiting : list Request) : Z :=
  if (threshold =? 0) || negb adaptive then threshold else
  let running_prefills := count_prefills running in
  let running_decodes := zlen running - running_prefills in
  let available_prefill_slots :=
    Z.max (max_num_running_reqs - num_waiting_for_streaming_input - running_decodes) 0 in
  if available_prefill_slots =? 0 then threshold else
  let active_prefills := Z.min (running_prefills + count_prefills waiting) available_prefill_slots in
  if active_prefills =? 0 then threshold
  else Z.max threshold (max_num_scheduled_tokens / active_prefills).

(** * The Mamba split *)

(** What [_mamba_block_aligned_split] reads of the configuration. *)
Record SplitConfig := mkSplit {
  split_block_size : Z;                  (** [self.cache_config.block_size] *)
  split_hash_block_size : Z;             (** [self.hash_block_size] *)
  split_use_eagle : bool;                (** [self.use_eagle] *)
  split_partial_cache_hit : bool;        (** [self.mamba_partial_cache_hit] *)
  split_max_scheduled : Z;               (** [self.max_num_scheduled_tokens] *)
  split_threshold : Z                    (** [long_prefill_token_threshold] *)
}.

Section Split.
Variable c : SplitConfig.
Let block_size := split_block_size c.

(** [max_prefill_tokens]. *)
Definition max_prefill_tokens : Z :=
  if 0 <? split_threshold c then Z.min (split_max_scheduled c) (split_threshold c)
  else split_max_scheduled c.

(** [prefill_end]. *)
Definition prefill_end (r : Request) : Z := Z.max (num_prompt_tokens r) (num_tokens r - 1).

(** [last_cache_position]. *)
Definition last_cache_position (r : Request) : Z :=
  let last := num_tokens r - num_tokens r mod block_size in
  if split_use_eagle c then Z.max (last - block_size) 0 else last.

(** [tail_boundary]. *)
Definition tail_boundary (r : Request) : Z :=
  if split_partial_cache_hit c
  then num_prompt_tokens r / split_hash_block_size c * split_hash_block_size c else 0.

(** The tuple [stops]. *)
Definition split_stops (r : Request) (start end_ : Z) : list Z :=
  [if start mod block_size =? 0 then 0 else (start / block_size + 1) * block_size;
   last_cache_position r;
   if (last_cache_position r <? tail_boundary r) && (tail_boundary r <? num_prompt_tokens r)
   then tail_boundary r else 0;
   if (start <? shared_prefix_boundary r) && (shared_prefix_boundary r <? end_)
   then start + (shared_prefix_boundary r - start) / block_size * block_size else 0].

(** [min(xs, default=d)]. *)
Definition min_default (d : Z) (xs : list Z) : Z :=
  match xs with [] => d | x :: xs' => fold_left Z.min xs' x end.

(** The chunk's end before the stops are looked at. *)
Definition aligned_chunk_end (r : Request) (start num_new_tokens : Z) : Z :=
  let end_ := start + num_new_tokens in
  if end_ <? prefill_end r then
    let aligned_end := end_ / block_size * block_size in
    if (start <? aligned_end) || (block_size <=? max_prefill_tokens) then aligned_end else end_
  else end_.

(** [_mamba_block_aligned_split]. *)
Definition mamba_block_aligned_split (r : Request) (num_new_tokens
    num_new_local_computed_tokens num_external_computed_tokens : Z) : Z :=
  let start := num_computed_tokens r + num_new_local_computed_tokens + num_external_computed_tokens in
  if prefill_end r <=? start then num_new_tokens else
  let end_ := aligned_chunk_end r start num_new_tokens in
  let end_ := min_default end_
    (filter (fun s => start < s /\ s < end_) (split_stops r start end_)) in
  Z.max (end_ - start) 0.
End Split.

(** * Properties *)

Lemma fold_min_spec xs : forall x, fold_left Z.min xs x ∈ x :: xs /\ Forall (Z.le (fold_left Z.min xs x)) (x :: xs).
Proof.
  induction xs as [|y xs IH]; intros x; simpl; [split; [left|by repeat constructor]|].
  destruct (IH (Z.min x y)) as [Hin Hle]. apply Forall_cons in Hle as [Hm Hle]. split.
  - apply elem_of_cons in Hin as [->|Hin]; [|by do 2 right].
    destruct (Z.min_spec x y) as [[_ ->]|[_ ->]]; [left|right; left].
  - constructor; [lia|]. constructor; [lia|done].
Qed.

Lemma min_default_spec d xs :
  (xs = [] /\ min_default d xs = d) \/
  (min_default d xs ∈ xs /\ Forall (Z.le (min_default d xs)) xs).
Proof. destruct xs as [|x xs]; [by left|right]. apply fold_min_spec. Qed.

(** The stops strictly inside a chunk are block boundaries or the tail boundary:
    the first one is. *)
Lemma first_stop_aligned c r start e s :
  0 < split_block_size c -> s ∈ split_stops c r start e -> start < s ->
  Forall (fun s' => start < s' -> s' < e -> s <= s') (split_stops c r start e) -> s < e ->
  s mod split_block_size c = 0 \/ s = tail_boundary c r.
Proof.
  intros Hb Hs Hlt Hfirst Hse. set (b := split_block_size c) in *.
  pose proof (Z.div_mod start b ltac:(lia)) as Hdm. pose proof (Z.mod_pos_bound start b Hb) as Hmod.
  unfold split_stops in Hs, Hfirst. fold b in Hs, Hfirst.
  apply Forall_cons in Hfirst as [Hnext _].
  repeat (apply elem_of_cons in Hs as [Hs|Hs]); [..|by apply not_elem_of_nil in Hs].
  - left. destruct (start mod b =? 0); subst s; [apply Z.mod_0_l; lia|apply Z.mod_mul; lia].
  - left. subst s. unfold last_cache_position. fold b.
    pose proof (Z.div_mod (num_tokens r) b ltac:(lia)) as Ht.
    assert (num_tokens r - num_tokens r mod b = num_tokens r / b * b) as -> by lia.
    destruct (split_use_eagle c); [|apply Z.mod_mul; lia].
    destruct (Z.max_spec (num_tokens r / b * b - b) 0) as [[_ ->]|[_ ->]]; [apply Z.mod_0_l; lia|].
    replace (num_tokens r / b * b - b) with ((num_tokens r / b - 1) * b) by lia. apply Z.mod_mul. lia.
  - destruct (_ && _); [by right|left; subst s; apply Z.mod_0_l; lia].
  - left. destruct (_ && _); [|subst s; apply Z.mod_0_l; lia]. subst s.
    destruct (Z.eqb_spec (start mod b) 0) as [E|E].
    + rewrite Hdm, E, Z.add_0_r, Z.mul_comm, <-Z.mul_add_distr_r. apply Z.mod_mul. lia.
    + set (q := (shared_prefix_boundary r - start) / b) in *.
      assert (1 <= q) by nia. assert (start + b <= start + q * b) by nia. nia.
Qed.

Lemma aligned_chunk_end_bounds c r start n :
  0 < split_block_size c -> 0 <= n -> let e := aligned_chunk_end c r start n in
  e <= start + n /\
  (e < prefill_end r -> split_block_size c <= max_prefill_tokens c ->
    e mod split_block_size c = 0) /\
  (e <= start -> 0 < n -> split_block_size c <= max_prefill_tokens c /\ start + n < prefill_end r /\
    start + n < (start / split_block_size c + 1) * split_block_size c).
Proof.
  intros Hb Hn e. set (b := split_block_size c) in *. unfold e, aligned_chunk_end. fold b.
  pose proof (Z.div_mod (start + n) b ltac:(lia)) as Hdm. pose proof (Z.mod_pos_bound (start + n) b Hb) as Hmod.
  pose proof (Z.div_mod start b ltac:(lia)) as Hdm0. pose proof (Z.mod_pos_bound start b Hb) as Hmod0.
  assert ((start + n) / b * b mod b = 0) as Hal by (apply Z.mod_mul; lia).
  destruct (Z.ltb_spec (start + n) (prefill_end r)); [|split_and!; try lia; auto].
  destruct (Z.ltb_spec start ((start + n) / b * b)); cbn [orb].
  { split_and!; try lia; auto. }
  destruct (Z.leb_spec b (max_prefill_tokens c)); split_and!; try lia; auto.
  intros _ _. split_and!; [done..|].
  assert ((start + n) / b <= start / b) by (apply Z.div_le_lower_bound; lia). nia.
Qed.

(** The split stays within the tokens offered. *)
Lemma mamba_split_bounds c r n local external :
  0 < split_block_size c -> 0 <= n -> 0 <= mamba_block_aligned_split c r n local external <= n.
Proof.
  intros Hb Hn. unfold mamba_block_aligned_split. set (start := num_computed_tokens r + local + external).
  destruct (prefill_end r <=? start); [lia|]. destruct (aligned_chunk_end_bounds c r start n Hb Hn) as (He & _).
  destruct (min_default_spec (aligned_chunk_end c r start n)
    (filter (fun s => start < s /\ s < aligned_chunk_end c r start n)
       (split_stops c r start (aligned_chunk_end c r start n)))) as [[_ ->]|[Hin _]]; [lia|].
  apply list_elem_of_filter in Hin as [[? ?] _]. lia.
Qed.

Section Spec.
Variable c : SplitConfig.
Let block_size := split_block_size c.

(** A prefill chunk of a model with "align" Mamba states ends where a state can
    be kept. The split never asks for more tokens than offered and runs past no
    mandatory stop; unless blocks are wider than any chunk may be, a chunk that
    does not finish the prefill ends at a block boundary or at the prompt's last
    hash boundary; and it is only empty when the tokens offered do not reach the
    next block boundary, so a prefill with enough budget always advances. *)
Theorem mamba_block_aligned_split_spec r n local external :
  let start := num_computed_tokens r + local + external in
  let res := mamba_block_aligned_split c r n local external in
  0 < block_size -> 0 <= n ->
  0 <= res <= n /\
  (prefill_end r <= start -> res = n) /\
  (start < prefill_end r ->
    (forall s, s ∈ split_stops c r start (aligned_chunk_end c r start n) -> start < s -> start + res <= s \/
       aligned_chunk_end c r start n <= s) /\
    (start + res < prefill_end r -> block_size <= max_prefill_tokens c ->
      res = 0 \/ (start + res) mod block_size = 0 \/ start + res = tail_boundary c r) /\
    (res = 0 -> 0 < n -> block_size <= max_prefill_tokens c /\ start + n < prefill_end r /\
      start + n < (start / block_size + 1) * block_size)).
Proof.
  intros start res Hb Hn. unfold res, mamba_block_aligned_split. fold start.
  destruct (Z.leb_spec (prefill_end r) start) as [Hp|Hp]; [split_and!; try lia|].
  destruct (aligned_chunk_end_bounds c r start n Hb Hn) as (He & Hal & Hprog).
  set (e := aligned_chunk_end c r start n) in *. fold block_size in Hal, Hprog.
  set (stops := split_stops c r start e).
  destruct (min_default_spec e (filter (fun s => start < s /\ s < e) stops)) as [[Hnil ->]|[Hin Hmin]].
  - assert (forall s, s ∈ stops -> start < s -> e <= s) as Hnone.
    { intros s Hs Hlt. destruct (Z.le_gt_cases e s); [done|].
      assert (s ∈ filter (fun s => start < s /\ s < e) stops) as H0 by by apply list_elem_of_filter.
      rewrite Hnil in H0. by apply not_elem_of_nil in H0. }
    split_and!; [lia..|]. intros _. split_and!; [by right; apply Hnone| |].
    + intros Hend Hwide. destruct (Z.le_gt_cases e start) as [Hle|Hgt]; [left; lia|right; left].
      rewrite Z.max_l in * by lia. replace (start + (e - start)) with e in * by lia.
      by apply Hal.
    + intros Hz Hpos. apply Hprog; lia.
  - apply list_elem_of_filter in Hin as [[Hlt Hlte] Hin].
    set (m := min_default e _) in *. rewrite Z.max_l by lia. replace (start + (m - start)) with m by lia.
    assert (forall s, s ∈ stops -> start < s -> s < e -> m <= s) as Hfirst.
    { intros s Hs Hs1 Hs2. eapply Forall_forall in Hmin; [exact Hmin|]. by apply list_elem_of_filter. }
    split_and!; [lia..|]. intros _. split_and!.
    + intros s Hs Hs1. destruct (Z.le_gt_cases e s); [by right|left]. by apply Hfirst.
    + intros _ _. right. apply (first_stop_aligned c r start e); [done..| |done].
      apply Forall_forall. intros s Hs. by apply Hfirst.
    + intros. lia.
Qed.
End Spec.

(** * A concrete chunk *)

(** A prompt of 40 tokens, of which 16 are computed, in blocks of 16. *)
Definition split_demo_config : SplitConfig := mkSplit 16 16 false false 64 0.
Definition split_demo_request : Request :=
  mkRequest "a" 0 (Q2Qc (QArith_base.Qmake 0 1)) 1 WAITING None None None None 8 None ∅ 40 [] (replicate 40 7) [] 16 0 None []
    0 0 [] false.

(** Of 20 tokens offered 16 run: the chunk ends at the block boundary 32. *)
Lemma mamba_block_aligned_split_spec_witness :
  mamba_block_aligned_split split_demo_config split_demo_request 20 0 0 = 16 /\ (0 <= 16 <= 20 /\ (40 <= 16 -> 16 = 20) /\ (16 + 16 < 40 -> 16 <= 64 -> 16 = 0 \/ (16 + 16) mod 16 = 0 \/ 16 + 16 = 0)).
Proof.
  split; [reflexivity|].
  pose proof (mamba_block_aligned_split_spec split_demo_config split_demo_request 20 0 0
    ltac:(reflexivity) ltac:(discriminate)) as (H1 & H2 & H3).
  split; [exact H1|]. split; [exact H2|]. intros Ha Hb.
  destruct (H3 ltac:(reflexivity)) as (_ & H4 & _). exact (H4 Ha Hb).
Defined.
