(* ===== verification/EncoderPlan.v ===== *)
(** Which encoder inputs a step runs: [Scheduler._try_schedule_encoder_inputs] and
    [_free_encoder_inputs] of src/upstream/vllm/v1/core/sched/scheduler.py, with
    [get_mm_features_in_window] of multimodal/utils.py and
    [PlaceholderRange.get_embeds_indices_in_range] of multimodal/inputs.py.

    The scheduler talks to an encoder-cache manager of either class through
    [EncoderCache]. No EC connector is modelled ([self.ec_connector] is [None]):
    no input is loaded from a remote encoder cache. *)
From S2P Require Import Prelude Bisect Request EncoderCache.
From Stdlib Require Import Sorting.Sorted.
Open Scope Z_scope.

(** * The encoder cache behind the scheduler *)

(** The order in which Python visits a set of input ids. *)
Class SetOrder := {
  ids_iter : gset Z -> list Z;
  ids_iter_perm s : ids_iter s ≡ₚ elements s
}.

Class EncoderCache (E : Type) := {
  ec_check_and_update_cache : Request -> Z -> E -> result (bool * E);
  ec_can_allocate : Request -> Z -> Z -> Z -> E -> result (bool * E);
  ec_allocate : Request -> Z -> E -> result E;
  ec_get_cached_input_ids : Request -> E -> gset Z;
  ec_free_encoder_input : Request -> Z -> E -> result E;
  ec_free : Request -> E -> result E;
  ec_get_freed_mm_hashes : E -> list mm_hash * E;
  ec_reset : E -> E
}.

#[export] Instance encoder_cache_manager `{SetOrder} : EncoderCache EncoderCacheManager := {
  ec_check_and_update_cache := check_and_update_cache;
  ec_can_allocate := can_allocate;
  ec_allocate := encoder_allocate;
  ec_get_cached_input_ids := get_cached_input_ids;
  ec_free_encoder_input := free_encoder_input;
  ec_free := encoder_free ids_iter;
  ec_get_freed_mm_hashes := get_freed_mm_hashes;
  ec_reset := encoder_cache_reset
}.

#[export] Instance encoder_decoder_cache_manager : EncoderCache EncoderDecoderCacheManager := {
  ec_check_and_update_cache r i s := Ok (ed_check_and_update_cache r i, s);
  ec_can_allocate r i budget sched s := b ← ed_can_allocate r i budget sched s; Ok (b, s);
  ec_allocate := ed_allocate;
  ec_get_cached_input_ids r _ := ed_get_cached_input_ids r;
  ec_free_encoder_input := ed_free_encoder_input;
  ec_free := ed_free;
  ec_get_freed_mm_hashes := ed_get_freed_mm_hashes;
  ec_reset := ed_reset
}.

(** * Features and embeddings in a window *)

Definition feature_start (f : MultiModalFeatureSpec) : Z := offset (mm_position f).
Definition feature_end (f : MultiModalFeatureSpec) : Z := offset (mm_position f) + plength (mm_position f).

(** [get_mm_features_in_window]. *)
Definition get_mm_features_in_window (mm_features : list MultiModalFeatureSpec) (start end_ : Z)
    : result (Z * Z) :=
  lo ← bisect_left (feature_end <$> mm_features) (start + 1);
  hi ← bisect_left (feature_start <$> mm_features) end_;
  Ok (lo, hi).

(** [embeds_cumsum]. *)
Fixpoint cumsum (n : Z) (mask : list bool) : list Z :=
  match mask with
  | [] => []
  | b :: mask' => let n := if b then n + 1 else n in n :: cumsum n mask'
  end.

(** [get_embeds_indices_in_range]. *)
Definition get_embeds_indices_in_range (p : PlaceholderRange) (start_idx end_idx : Z) : result (Z * Z) :=
  match is_embed p with
  | None => Ok (start_idx, end_idx)
  | Some mask =>
      let embeds_cumsum := cumsum 0 mask in
      a ← (if 0 <? start_idx then py_index embeds_cumsum (start_idx - 1) else Ok 0);
      b ← (if 0 <? end_idx then py_index embeds_cumsum (end_idx - 1) else Ok 0);
      Ok (a, b)
  end.

(** * The plan *)

(** The locals of [_try_schedule_encoder_inputs]. *)
Record EncoderPlan (E : Type) := mkPlan {
  inputs_to_schedule : list Z;
  plan_new_tokens : Z;
  plan_budget : Z;
  hashes_to_schedule : list mm_hash;
  embeds_to_schedule : Z;
  plan_cache : E
}.
Arguments mkPlan {E}. Arguments inputs_to_schedule {E}. Arguments plan_new_tokens {E}.
Arguments plan_budget {E}. Arguments hashes_to_schedule {E}. Arguments embeds_to_schedule {E}.
Arguments plan_cache {E}.

Section Plan.
Context `{EncoderCache E}.
Variables (is_encoder_decoder disable_chunked_mm_input : bool).
Variables (r : Request) (computed shift : Z).
Implicit Types st : EncoderPlan E.

Definition with_cache (e : E) st : EncoderPlan E :=
  mkPlan (inputs_to_schedule st) (plan_new_tokens st) (plan_budget st) (hashes_to_schedule st)
    (embeds_to_schedule st) e.
Definition with_new_tokens (n : Z) st : EncoderPlan E :=
  mkPlan (inputs_to_schedule st) n (plan_budget st) (hashes_to_schedule st) (embeds_to_schedule st)
    (plan_cache st).

(** The tests that skip an input; [true] means [continue]. *)
Definition input_available (i : Z) (f : MultiModalFeatureSpec) st : result (bool * EncoderPlan E) :=
  if is_encoder_decoder && (0 <? computed) then
    _ ← assert_ (feature_start f =? 0); Ok (true, st)
  else if is_encoder_decoder then Ok (false, st)
  else if bool_decide (identifier f ∈ hashes_to_schedule st) then Ok (true, st)
  else
    '(hit, e) ← ec_check_and_update_cache r i (plan_cache st);
    Ok (hit, with_cache e st).

(** [disable_chunked_mm_input] and the step would cover only part of the input. *)
Definition partly_covered (f : MultiModalFeatureSpec) st : bool :=
  disable_chunked_mm_input && (computed <? feature_start f) &&
  (computed + plan_new_tokens st <? feature_end f).

(** The tokens that are left when the input does not fit. *)
Definition rolled_back (f : MultiModalFeatureSpec) : Z :=
  if computed + shift <? feature_start f then feature_start f - (computed + shift) else 0.

(** The positions inside the placeholder that the step covers. *)
Definition covered_range (f : MultiModalFeatureSpec) (num_new_tokens : Z) : Z * Z :=
  (Z.max 0 (computed - feature_start f),
   Z.min (plength (mm_position f)) (computed + num_new_tokens - feature_start f)).

(** The loop over the features of the window. *)
Fixpoint encoder_loop (idxs : list Z) st : result (EncoderPlan E) :=
  match idxs with
  | [] => Ok st
  | i :: idxs' =>
      f ← py_index (mm_features r) i;
      '(available, st) ← input_available i f st;
      if (available : bool) then encoder_loop idxs' st else
      if partly_covered f st
      then Ok (with_new_tokens (Z.max 0 (feature_start f - (computed + shift))) st) else
      '(fits, e) ← ec_can_allocate r i (plan_budget st) (embeds_to_schedule st) (plan_cache st);
      let st := with_cache e st in
      if negb fits then Ok (with_new_tokens (rolled_back f) st) else
      let '(start_idx_rel, end_idx_rel) := covered_range f (plan_new_tokens st) in
      '(curr_start, curr_end) ← get_embeds_indices_in_range (mm_position f) start_idx_rel end_idx_rel;
      if curr_end - curr_start =? 0 then encoder_loop idxs' st else
      let n := get_num_embeds (mm_position f) in
      encoder_loop idxs'
        (mkPlan (inputs_to_schedule st ++ [i]) (plan_new_tokens st) (plan_budget st - n)
           (hashes_to_schedule st ++ [identifier f]) (embeds_to_schedule st + n) (plan_cache st))
  end.

(** [_try_schedule_encoder_inputs]: the inputs to run, the tokens, the budget left
    and the cache. *)
Definition try_schedule_encoder_inputs (num_new_tokens encoder_compute_budget : Z) (e : E)
    : result (list Z * Z * Z * E) :=
  if (num_new_tokens =? 0) || negb (has_encoder_inputs r)
  then Ok ([], num_new_tokens, encoder_compute_budget, e) else
  '(lo, hi) ← get_mm_features_in_window (mm_features r) computed (computed + num_new_tokens + shift);
  let lo := if is_encoder_decoder then 0 else lo in
  st ← encoder_loop (py_range lo hi) (mkPlan [] num_new_tokens encoder_compute_budget [] 0 e);
  Ok (inputs_to_schedule st, plan_new_tokens st, plan_budget st, plan_cache st).

(** The calls of [allocate] for the inputs of the plan. *)
Definition allocate_inputs (inputs : list Z) (e : E) : result E := for_each (ec_allocate r) inputs e.

(** [_free_encoder_inputs]; [placeholders] is [num_output_placeholders]. *)
Definition free_input `{SetOrder} (use_eagle : bool) (placeholders : Z) (i : Z) (e : E) : result E :=
  f ← py_index (mm_features r) i;
  let spec_lookahead := if use_eagle then 1 else 0 in
  if is_encoder_decoder && (0 <? num_computed_tokens r) then ec_free_encoder_input r i e
  else if feature_end f + spec_lookahead <=? num_computed_tokens r - placeholders
  then ec_free_encoder_input r i e else Ok e.
Definition free_encoder_inputs `{SetOrder} (use_eagle : bool) (placeholders : Z) (e : E) : result E :=
  for_each (free_input use_eagle placeholders) (ids_iter (ec_get_cached_input_ids r e)) e.
End Plan.

(** * Windows *)

(** Features in the order of their offsets, without overlap, with a mask of the
    placeholder's length where there is one. *)
Definition features_ok (fs : list MultiModalFeatureSpec) : Prop :=
  (forall i f, fs !! i = Some f -> 0 <= plength (mm_position f) /\
     forall mask, is_embed (mm_position f) = Some mask -> zlen mask = plength (mm_position f)) /\
  (forall i j f g, (i < j)%nat -> fs !! i = Some f -> fs !! j = Some g -> feature_end f <= feature_start g).

Lemma features_ascending fs : features_ok fs ->
  ascending (feature_start <$> fs) /\ ascending (feature_end <$> fs).
Proof.
  intros [Hlen Hord]. split; intros i j a b Hij (f & -> & Hf)%list_lookup_fmap_Some (g & -> & Hg)%list_lookup_fmap_Some.
  all: destruct (decide (i = j)) as [->|]; [by simplify_eq; lia|].
  all: pose proof (Hord i j f g ltac:(lia) Hf Hg); destruct (Hlen i f Hf), (Hlen j g Hg).
  all: unfold feature_start, feature_end in *; lia.
Qed.

(** The window holds exactly the features that overlap it. *)
Lemma features_in_window_Ok fs start end_ : features_ok fs ->
  exists lo hi, get_mm_features_in_window fs start end_ = Ok (Z.of_nat lo, Z.of_nat hi) /\
    (hi <= length fs)%nat /\
    forall i f, fs !! i = Some f ->
      (lo <= i < hi)%nat <-> start < feature_end f /\ feature_start f < end_.
Proof.
  intros Hfs. destruct (features_ascending fs Hfs) as [Hs He]. unfold get_mm_features_in_window.
  destruct (bisect_left_Ok _ (start + 1) He) as (lo & -> & _ & Hlo).
  destruct (bisect_left_Ok _ end_ Hs) as (hi & -> & Hhi & Hhi').
  exists lo, hi. split; [done|]. split; [by rewrite length_fmap in Hhi|].
  intros i f Hf. specialize (Hlo i (feature_end f)). specialize (Hhi' i (feature_start f)).
  rewrite list_lookup_fmap, Hf in Hlo, Hhi'. specialize (Hlo eq_refl). specialize (Hhi' eq_refl). lia.
Qed.

(** * Embeddings *)

(** Position [j] of the placeholder is filled by an encoder output. *)
Definition embedded (p : PlaceholderRange) (j : Z) : Prop :=
  0 <= j < plength p /\
  match is_embed p with None => True | Some mask => mask !! Z.to_nat j = Some true end.

Definition count_true (mask : list bool) : Z := zlen (filter (fun b : bool => b = true) mask).

Lemma count_true_app a b : count_true (a ++ b) = count_true a + count_true b.
Proof. unfold count_true. rewrite filter_app, length_app. lia. Qed.

Lemma cumsum_lookup mask : forall n k, (k < length mask)%nat ->
  cumsum n mask !! k = Some (n + count_true (take (S k) mask)).
Proof.
  induction mask as [|b mask IH]; intros n k Hk; simpl in Hk; [lia|].
  assert (count_true [b] = if b then 1 else 0) as Hb by (by destruct b).
  destruct k as [|k].
  - simpl. rewrite take_0. fold (count_true [b]). rewrite Hb. f_equal. destruct b; lia.
  - cbn [cumsum]. cbn [lookup list_lookup]. change (cumsum (if b then n + 1 else n) mask !! k =
      Some (n + count_true (take (S (S k)) (b :: mask)))). rewrite IH by lia.
    change (take (S (S k)) (b :: mask)) with ([b] ++ take (S k) mask).
    rewrite count_true_app, Hb. f_equal. destruct b; lia.
Qed.

Lemma length_cumsum mask : forall n, length (cumsum n mask) = length mask.
Proof. induction mask as [|b mask IH]; intros n; simpl; [done|]. by rewrite IH. Qed.

Lemma cumsum_index mask a : 0 <= a <= zlen mask ->
  (if 0 <? a then py_index (cumsum 0 mask) (a - 1) else Ok 0) = Ok (count_true (take (Z.to_nat a) mask)).
Proof.
  intros Ha. destruct (Z.ltb_spec 0 a).
  - rewrite (py_index_Ok _ _ (count_true (take (Z.to_nat a) mask))); [done|lia|].
    rewrite cumsum_lookup, Z.add_0_l by lia. do 3 f_equal. lia.
  - by replace (Z.to_nat a) with 0%nat by lia.
Qed.

(** The call returns, and equal indices mean that nothing in the range is embedded. *)
Lemma embeds_indices_Ok p a b :
  (forall mask, is_embed p = Some mask -> zlen mask = plength p) ->
  0 <= a -> 0 <= b <= plength p -> a <= plength p ->
  exists x y, get_embeds_indices_in_range p a b = Ok (x, y) /\
    (y - x = 0 -> forall j, a <= j < b -> ~ embedded p j).
Proof.
  intros Hm Ha Hb Hap. unfold get_embeds_indices_in_range, embedded. destruct (is_embed p) as [mask|].
  2: { exists a, b. split; [done|]. intros ? j ?. lia. }
  specialize (Hm mask eq_refl). rewrite !cumsum_index by lia.
  exists (count_true (take (Z.to_nat a) mask)), (count_true (take (Z.to_nat b) mask)). split; [done|].
  intros Heq j Hj [Hj2 Hl].
  assert (take (Z.to_nat b) mask = take (Z.to_nat a) mask ++ take (Z.to_nat b - Z.to_nat a) (drop (Z.to_nat a) mask)) as Ht.
  { rewrite <-(take_drop (Z.to_nat a) (take (Z.to_nat b) mask)) at 1.
    rewrite take_take, Nat.min_l by lia. f_equal. rewrite take_drop_commute. do 2 f_equal. lia. }
  rewrite Ht, count_true_app in Heq. unfold count_true in Heq at 2.
  assert (true ∈ filter (fun b : bool => b = true) (take (Z.to_nat b - Z.to_nat a) (drop (Z.to_nat a) mask))) as Hin.
  { apply list_elem_of_filter. split; [done|]. apply list_elem_of_lookup. exists (Z.to_nat j - Z.to_nat a)%nat.
    rewrite lookup_take_lt, lookup_drop by lia. rewrite <-Hl. f_equal. lia. }
  destruct (filter _ _); [by apply not_elem_of_nil in Hin|]. simpl in Heq. lia.
Qed.

(** * The tokens of a plan *)

(** Whatever the encoder cache answers, a plan keeps at most the tokens offered,
    when the features are in the order of their offsets. *)
Section Bound.
Context `{EncoderCache E}.
Variables (is_encoder_decoder disable_chunked_mm_input : bool).
Variables (r : Request) (computed shift : Z).
Implicit Types st : EncoderPlan E.

Lemma input_available_tokens i f st b st' :
  input_available is_encoder_decoder r computed i f st = Ok (b, st') -> plan_new_tokens st' = plan_new_tokens st.
Proof.
  unfold input_available. intros Hi. destruct (_ && _).
  - apply bind_Ok_inv in Hi as (? & _ & Hi). by simplify_eq.
  - destruct is_encoder_decoder; [by simplify_eq|]. destruct (bool_decide _); [by simplify_eq|].
    apply bind_Ok_inv in Hi as ([hit e] & _ & Hi). by simplify_eq.
Qed.

Lemma encoder_loop_tokens idxs st st' N :
  encoder_loop is_encoder_decoder disable_chunked_mm_input r computed shift idxs st = Ok st' ->
  0 <= N -> plan_new_tokens st = N ->
  (forall i f, i ∈ idxs -> py_index (mm_features r) i = Ok f -> feature_start f < computed + N + shift) ->
  0 <= plan_new_tokens st' <= N.
Proof.
  intros Hl HN. revert st Hl. induction idxs as [|i idxs IH]; intros st Hl Hst Hw; cbn [encoder_loop] in Hl.
  { simplify_eq. lia. }
  apply bind_Ok_inv in Hl as (f & Hf & Hl). specialize (Hw i f ltac:(left) Hf) as Hi.
  assert (forall st, encoder_loop is_encoder_decoder disable_chunked_mm_input r computed shift idxs st = Ok st' ->
    plan_new_tokens st = N -> 0 <= plan_new_tokens st' <= N) as Hrec.
  { intros st0 H0 Hst0. apply (IH st0 H0 Hst0). intros j g Hj. apply Hw. by right. }
  apply bind_Ok_inv in Hl as ([available st1] & Ha & Hl). apply input_available_tokens in Ha.
  rewrite Hst in Ha. destruct available; [by eapply Hrec|].
  destruct (partly_covered _ _ _ _).
  { simplify_eq. cbn [plan_new_tokens with_new_tokens]. lia. }
  apply bind_Ok_inv in Hl as ([fits e] & _ & Hl). cbn zeta in Hl. destruct (negb fits).
  { simplify_eq. cbn [plan_new_tokens with_new_tokens]. unfold rolled_back.
    destruct (Z.ltb_spec (computed + shift) (feature_start f)); lia. }
  destruct (covered_range _ _ _) as [a b]. apply bind_Ok_inv in Hl as ([c d] & _ & Hl).
  destruct (_ =? 0); by eapply Hrec.
Qed.

Lemma try_schedule_tokens n budget e inputs n' budget' e' :
  try_schedule_encoder_inputs is_encoder_decoder disable_chunked_mm_input r computed shift n budget e
    = Ok (inputs, n', budget', e') ->
  ascending (feature_start <$> mm_features r) -> 0 <= n -> 0 <= n' <= n.
Proof.
  unfold try_schedule_encoder_inputs. intros Ht Hasc Hn. destruct (_ || _); [simplify_eq; lia|].
  apply bind_Ok_inv in Ht as ([lo hi] & Hw & Ht). cbn zeta in Ht.
  apply bind_Ok_inv in Ht as (st & Hl & Ht). simplify_eq.
  apply (encoder_loop_tokens _ _ _ _ Hl); [done..|]. intros i f Hi Hf. apply elem_of_py_range in Hi.
  unfold get_mm_features_in_window in Hw. apply bind_Ok_inv in Hw as (lo' & Hlo & Hw).
  destruct (bisect_left_Ok _ (computed + n + shift) Hasc) as (h & Hh & _ & Hspec).
  rewrite Hh in Hw. cbn [mbind result_bind] in Hw. injection Hw as <- <-.
  assert (0 <= lo') as Hlo0.
  { unfold bisect_left in Hlo. apply bind_Ok_inv in Hlo as (x & _ & Hx). simplify_eq. lia. }
  assert (0 <= i) as Hi0 by (destruct is_encoder_decoder; lia).
  rewrite py_index_nonneg in Hf by done. apply or_raise_Ok_inv in Hf.
  apply (Hspec (Z.to_nat i)); [by rewrite list_lookup_fmap, Hf|lia].
Qed.
End Bound.

(** * The plan of a decoder-only model *)

Section Coverage.
Context `{SetOrder}.
Variable sz : mm_hash -> Z.
Variable feats : string -> list MultiModalFeatureSpec.
Hypothesis sz_nonneg : forall h, 0 <= sz h.
Variables (disable_chunked : bool) (r : Request) (computed shift N budget : Z).
Hypothesis r_known : known sz feats r.
Hypothesis r_features : features_ok (mm_features r).
Hypothesis computed_nonneg : 0 <= computed.
Hypothesis N_nonneg : 0 <= N.
Hypothesis shift_range : 0 <= shift <= 1.
Implicit Types (st : EncoderPlan EncoderCacheManager) (s : EncoderCacheManager).

(** [r] holds a reference on the entry of [h]. *)
Definition held s (h : mm_hash) : Prop := exists refs, cached s !! h = Some refs /\ request_id r ∈ refs.

Definition embeds_of (hs : list mm_hash) : Z := foldr (fun h acc => sz h + acc) 0 hs.

Lemma embeds_of_app a b : embeds_of (a ++ b) = embeds_of a + embeds_of b.
Proof. induction a; simpl; lia. Qed.

(** A feature that overlaps the window. *)
Definition in_window (i : Z) (f : MultiModalFeatureSpec) : Prop :=
  0 <= i /\ mm_features r !! Z.to_nat i = Some f /\ computed < feature_end f /\
  feature_start f < computed + N + shift.

(** The first [n] tokens need no encoder output of [f], or have it. *)
Definition provided st (n : Z) (f : MultiModalFeatureSpec) : Prop :=
  identifier f ∈ hashes_to_schedule st \/ held (plan_cache st) (identifier f) \/
  forall p, computed <= p < computed + n -> ~ embedded (mm_position f) (p - feature_start f).

(** The invariant of the loop. *)
Record plan_inv st : Prop := {
  pl_cache : enc_inv sz feats (plan_cache st);
  pl_hashes : Forall2 (fun i h => input_at r i h) (inputs_to_schedule st) (hashes_to_schedule st);
  pl_nodup : NoDup (hashes_to_schedule st);
  pl_uncached : forall h, h ∈ hashes_to_schedule st -> cached (plan_cache st) !! h = None;
  pl_embeds : embeds_to_schedule st = embeds_of (hashes_to_schedule st);
  pl_fits : embeds_to_schedule st <= num_free_slots (plan_cache st);
  pl_budget : plan_budget st = budget - embeds_to_schedule st;
  pl_within : inputs_to_schedule st <> [] -> 0 <= plan_budget st
}.

Lemma in_window_facts i f : in_window i f ->
  py_index (mm_features r) i = Ok f /\ input_at r i (identifier f) /\
  0 <= plength (mm_position f) /\ get_num_embeds (mm_position f) = sz (identifier f) /\
  (forall mask, is_embed (mm_position f) = Some mask -> zlen mask = plength (mm_position f)).
Proof.
  intros (Hi & Hf & _). destruct (proj1 r_features _ _ Hf) as [Hl Hm].
  split_and!; [by apply py_index_Ok|by split; [|exists f]|done| |done].
  apply (proj2 r_known). by eapply list_elem_of_lookup_2.
Qed.

Lemma held_mono s s' h : (forall h' refs, cached s !! h' = Some refs -> refs <> ∅ ->
  exists refs', cached s' !! h' = Some refs' /\ refs ⊆ refs') -> held s h -> held s' h.
Proof using.
  clear.
  intros Hmono (refs & Hc & Hr). destruct (Hmono h refs Hc) as (refs' & ? & ?); [set_solver|].
  exists refs'. split; [done|set_solver].
Qed.

(** What a round of the loop does to the state: either the input is available, or
    the cache is asked for room. *)
Lemma available_Ok i f st : plan_inv st -> in_window i f ->
  exists b st', input_available false r computed i f st = Ok (b, st') /\ plan_inv st' /\
    plan_new_tokens st' = plan_new_tokens st /\
    hashes_to_schedule st' = hashes_to_schedule st /\ inputs_to_schedule st' = inputs_to_schedule st /\
    (forall h, held (plan_cache st) h -> held (plan_cache st') h) /\
    (if b then identifier f ∈ hashes_to_schedule st' \/ held (plan_cache st') (identifier f)
     else identifier f ∉ hashes_to_schedule st' /\ cached (plan_cache st') !! identifier f = None).
Proof.
  intros Hp Hw. destruct (in_window_facts i f Hw) as (_ & Hin & _). unfold input_available. cbn [andb].
  destruct (bool_decide_reflect (identifier f ∈ hashes_to_schedule st)) as [Hh|Hh].
  { exists true, st. split_and!; try done. by left. }
  destruct (check_and_update_cache_Ok sz feats sz_nonneg r i (identifier f) (plan_cache st)
    (pl_cache _ Hp) r_known Hin) as (e & Hc & Hinv & _ & _ & Hfree & Hcached).
  change (ec_check_and_update_cache r i (plan_cache st)) with (check_and_update_cache r i (plan_cache st)).
  rewrite Hc. cbn [mbind result_bind].
  assert (forall h' refs, cached (plan_cache st) !! h' = Some refs -> exists refs',
    cached e !! h' = Some refs' /\ refs ⊆ refs') as Hmono.
  { intros h' refs Hl. destruct (cached (plan_cache st) !! identifier f) as [refs0|] eqn:E.
    - rewrite Hcached. destruct (decide (h' = identifier f)) as [->|Hne].
      + rewrite lookup_insert_eq. simplify_eq. eexists. split; [done|set_solver].
      + rewrite lookup_insert_ne by done. by exists refs.
    - subst e. by exists refs. }
  eexists _, (with_cache e st). split; [done|]. split.
  { destruct Hp. split; simpl; try done; [|by rewrite Hfree].
    intros h Hhs. destruct (cached (plan_cache st) !! identifier f) as [refs0|] eqn:E; [|by subst e; auto].
    rewrite Hcached, lookup_insert_ne; [auto|]. by intros <-. }
  simpl. split_and!; try done.
  { intros h. apply held_mono. intros h' refs Hl _. by apply Hmono. }
  destruct (cached (plan_cache st) !! identifier f) as [refs0|] eqn:E.
  - rewrite bool_decide_true by by eexists. right. exists ({[request_id r]} ∪ refs0).
    rewrite Hcached, lookup_insert_eq. split; [done|set_solver].
  - rewrite bool_decide_false by by intros [? ?]. split; [done|by subst e].
Qed.

Lemma room_Ok i f st : plan_inv st -> in_window i f -> cached (plan_cache st) !! identifier f = None ->
  exists b e, can_allocate r i (plan_budget st) (embeds_to_schedule st) (plan_cache st) = Ok (b, e) /\
    plan_inv (with_cache e st) /\ cached e !! identifier f = None /\
    (forall h, held (plan_cache st) h -> held e h) /\
    (b = true -> sz (identifier f) <= plan_budget st /\
       sz (identifier f) + embeds_to_schedule st <= num_free_slots e).
Proof.
  intros Hp Hw Hnone. destruct (in_window_facts i f Hw) as (_ & Hin & _).
  destruct (can_allocate_Ok sz feats sz_nonneg r i (identifier f) (plan_budget st) (embeds_to_schedule st)
    (plan_cache st) (pl_cache _ Hp) r_known Hin)
    as (b & e & Hc & Hinv & _ & Hb & Hfalse & Htrue & _ & k & Hsplit & _ & _ & Hcd).
  assert (forall h' refs, cached (plan_cache st) !! h' = Some refs -> refs <> ∅ -> cached e !! h' = Some refs) as Hkeep.
  { intros h' refs Hl Hne. rewrite Hcd. destruct (decide (h' ∈ (take k (freeable (plan_cache st))).*1)) as [Hin'|]; [|done].
    apply list_elem_of_fmap in Hin' as ([h0 n] & -> & Hin'). simpl in *.
    assert ((h0, n) ∈ freeable (plan_cache st)) as Hf.
    { rewrite <-(take_drop k (freeable (plan_cache st))). apply elem_of_app. by left. }
    apply (ei_entries _ _ _ (pl_cache _ Hp)) in Hf as [? _]. congruence. }
  assert (forall h', cached (plan_cache st) !! h' = None -> cached e !! h' = None) as Hno.
  { intros h' Hl. rewrite Hcd, Hl. by destruct (decide _). }
  exists b, e. split; [done|]. split; [|split; [by apply Hno|split]].
  - destruct Hp. split; simpl; try done; [by auto|].
    destruct b; [specialize (Htrue eq_refl); pose proof (sz_nonneg (identifier f)); lia|by rewrite Hfalse].
  - intros h. apply held_mono. intros h' refs Hl Hne. exists refs. split; [by apply Hkeep|done].
  - intros ->. split; [by apply Hb|by apply Htrue].
Qed.

Lemma provided_mono st st' n n' f :
  (forall h, h ∈ hashes_to_schedule st -> h ∈ hashes_to_schedule st') ->
  (forall h, held (plan_cache st) h -> held (plan_cache st') h) -> n' <= n ->
  provided st n f -> provided st' n' f.
Proof.
  intros Hh Hc Hn [Hp|[Hp|Hp]]; [left; auto|right; left; auto|right; right].
  intros p Hpr. apply Hp. lia.
Qed.

(** The features before the window need nothing. *)
Lemma encoder_loop_Ok idxs : forall st (seen : list Z),
  plan_inv st -> plan_new_tokens st = N ->
  (forall i f, 0 <= i -> mm_features r !! Z.to_nat i = Some f ->
     i ∈ seen \/ i ∈ idxs \/ feature_end f <= computed \/ computed + N + shift <= feature_start f) ->
  (forall i, i ∈ idxs -> exists f, in_window i f) -> StronglySorted Z.lt idxs ->
  (forall i f, i ∈ seen -> mm_features r !! Z.to_nat i = Some f -> provided st N f) ->
  exists st', encoder_loop false disable_chunked r computed shift idxs st = Ok st' /\ plan_inv st' /\
    0 <= plan_new_tokens st' <= N /\
    forall i f, 0 <= i -> mm_features r !! Z.to_nat i = Some f -> provided st' (plan_new_tokens st') f.
Proof.
  induction idxs as [|i idxs IH]; intros st seen Hp HN Hall Hidx Hsort Hdone.
  { exists st. split; [done|]. split; [done|]. split; [lia|]. intros i f Hi Hf.
    destruct (Hall i f Hi Hf) as [Hd|[Hin|Hout]]; [rewrite HN; by eapply Hdone|by apply not_elem_of_nil in Hin|].
    right. right. intros p Hpr [Hj _]. rewrite HN in Hpr. unfold feature_end, feature_start in *. lia. }
  apply StronglySorted_inv in Hsort as [Hsort Hhd].
  destruct (Hidx i) as [f Hw]; [left|]. destruct (in_window_facts i f Hw) as (Hi & Hin & Hlen & Hsz & Hmask).
  destruct Hw as (Hi0 & Hf & Hend & Hstart). assert (in_window i f) as Hw by (by split_and!).
  cbn [encoder_loop]. rewrite Hi. cbn [mbind result_bind].
  destruct (available_Ok i f st Hp Hw) as (b & st1 & -> & Hp1 & HN1 & Hh1 & Hi1 & Hheld1 & Hb).
  cbn [mbind result_bind].
  (* the next round *)
  assert (forall st2, plan_inv st2 -> plan_new_tokens st2 = N ->
    (forall h, h ∈ hashes_to_schedule st -> h ∈ hashes_to_schedule st2) ->
    (forall h, held (plan_cache st) h -> held (plan_cache st2) h) -> provided st2 N f ->
    exists st', encoder_loop false disable_chunked r computed shift idxs st2 = Ok st' /\ plan_inv st' /\
      0 <= plan_new_tokens st' <= N /\
      forall i f, 0 <= i -> mm_features r !! Z.to_nat i = Some f -> provided st' (plan_new_tokens st') f) as Hnext.
  { intros st2 Hp2 HN2 Hh2 Hc2 Hf2. apply (IH st2 (i :: seen)); try done.
    - intros i' f' Hi' Hf'. destruct (Hall i' f' Hi' Hf') as [?|[[->|?]%elem_of_cons|?]]; [left; by right|left; left|auto..].
    - intros i' Hi'. apply Hidx. by right.
    - intros i' f' [->|Hi']%elem_of_cons Hf'; [by simplify_eq|].
      eapply provided_mono; [exact Hh2|exact Hc2|reflexivity|by eapply Hdone]. }
  (* the loop ends with fewer tokens, all before [f] *)
  assert (forall st2 n, plan_inv st2 ->
    (forall h, h ∈ hashes_to_schedule st -> h ∈ hashes_to_schedule st2) ->
    (forall h, held (plan_cache st) h -> held (plan_cache st2) h) ->
    0 <= n <= N -> (n = 0 \/ computed + n <= feature_start f) ->
    exists st', Ok (with_new_tokens n st2) = Ok st' /\ plan_inv st' /\ 0 <= plan_new_tokens st' <= N /\
      forall i f, 0 <= i -> mm_features r !! Z.to_nat i = Some f -> provided st' (plan_new_tokens st') f) as Hstop.
  { intros st2 n Hp2 Hh2 Hc2 Hn Hbefore. eexists. split; [done|]. split; [by destruct Hp2|].
    split; [done|]. intros i' f' Hi' Hf'. simpl.
    assert (forall g, feature_start f <= feature_start g -> provided (with_new_tokens n st2) n g) as Hlate.
    { intros g Hg. right. right. intros p Hpr [Hj _]. lia. }
    destruct (Hall i' f' Hi' Hf') as [Hd|[[->|Hi'']%elem_of_cons|Hout]].
    - eapply (provided_mono st (with_new_tokens n st2) N n); [exact Hh2|exact Hc2|lia|by eapply Hdone].
    - simplify_eq. by apply Hlate.
    - apply Hlate. eapply Forall_forall in Hhd; [|exact Hi''].
      pose proof (proj2 r_features (Z.to_nat i) (Z.to_nat i') f f' ltac:(lia) Hf Hf').
      unfold feature_end, feature_start in *. lia.
    - right. right. intros p Hpr [Hj _]. unfold feature_end, feature_start in *. lia. }
  destruct b; [apply Hnext; try done; [congruence|by rewrite Hh1|]; by destruct Hb; [left|right; left]|].
  destruct Hb as [Hnew Hnone]. destruct (partly_covered _ _ f st1) eqn:Epc.
  { unfold partly_covered in Epc. apply andb_true_iff in Epc as [Epc1 _]. apply andb_true_iff in Epc1 as [_ Ec].
    apply Z.ltb_lt in Ec. apply Hstop; [done|by rewrite Hh1|done|lia|lia]. }
  change (ec_can_allocate r i (plan_budget st1) (embeds_to_schedule st1) (plan_cache st1))
    with (can_allocate r i (plan_budget st1) (embeds_to_schedule st1) (plan_cache st1)).
  destruct (room_Ok i f st1 Hp1 Hw Hnone) as (fits & e & -> & Hp2 & Hnone2 & Hheld2 & Hfits).
  cbn [mbind result_bind]. destruct fits; cbn [negb].
  2: { apply Hstop; [done|by simpl; rewrite Hh1|by simpl; auto| |]; unfold rolled_back;
       destruct (Z.ltb_spec (computed + shift) (feature_start f)); lia. }
  destruct (Hfits eq_refl) as [Hbud Hroom]. unfold covered_range. cbn [with_cache plan_new_tokens].
  rewrite HN1, HN. unfold feature_end, feature_start in *.
  destruct (embeds_indices_Ok (mm_position f) (Z.max 0 (computed - offset (mm_position f)))
    (Z.min (plength (mm_position f)) (computed + N - offset (mm_position f))) Hmask)
    as (x & y & -> & Hrange); [lia..|]. cbn [mbind result_bind].
  destruct (Z.eqb_spec (y - x) 0) as [Hz|Hz].
  - apply Hnext; simpl; try done; [congruence|by rewrite Hh1|by auto|]. right. right. intros p Hpr Hemb.
    unfold feature_start in Hemb. apply (Hrange Hz (p - offset (mm_position f))); [|done]. destruct Hemb as [Hj _]. lia.
  - rewrite Hsz. apply Hnext; simpl.
    + destruct Hp2 as [? ? ? Hunc Hemb ? Hbd ?]. simpl in *. split; simpl; try done.
      * apply Forall2_app; [done|]. by constructor.
      * apply NoDup_app. split_and!; [done| |apply NoDup_singleton].
        intros h Hh ->%list_elem_of_singleton. done.
      * intros h [Hh| ->%list_elem_of_singleton]%elem_of_app; [by apply Hunc|done].
      * rewrite embeds_of_app. simpl. lia.
      * lia.
      * lia.
      * lia.
    + done.
    + intros h Hh. rewrite Hh1. apply elem_of_app. by left.
    + auto.
    + left. simpl. apply elem_of_app. right. by left.
Qed.

(** The planned inputs can be allocated. *)
Lemma allocate_inputs_Ok inputs hs : Forall2 (fun i h => input_at r i h) inputs hs -> forall s,
  enc_inv sz feats s -> NoDup hs -> (forall h, h ∈ hs -> cached s !! h = None) ->
  embeds_of hs <= num_free_slots s ->
  exists s', allocate_inputs r inputs s = Ok s' /\ enc_inv sz feats s' /\
    (forall h, h ∈ hs -> held s' h) /\ (forall h, held s h -> held s' h).
Proof using sz_nonneg r_known.
  clear r_features computed_nonneg N_nonneg shift_range N shift computed.
  induction 1 as [|i h inputs hs Hin _ IH]; intros s Hinv Hnd Hunc Hfit.
  { exists s. split_and!; try done. intros h Hh. by apply not_elem_of_nil in Hh. }
  apply NoDup_cons in Hnd as [Hh Hnd]. simpl in Hfit.
  assert (0 <= embeds_of hs) as Hnn.
  { clear -sz_nonneg. induction hs as [|h hs IH]; simpl; [lia|]. specialize (sz_nonneg h). lia. }
  destruct (encoder_allocate_Ok sz feats sz_nonneg r i h s Hinv r_known Hin) as (s1 & Ha & Hinv1 & _ & Hc1 & _ & _ & Hf1);
    [apply Hunc; left|lia|].
  assert (forall h', held s h' -> held s1 h') as Hmono.
  { intros h'. apply held_mono. intros h2 refs Hl _. exists refs. split; [|done].
    rewrite Hc1, lookup_insert_ne; [done|]. intros ->. rewrite (Hunc h2) in Hl by left. done. }
  destruct (IH s1 Hinv1 Hnd) as (s' & Hs' & Hinv' & Hheld & Hkeep).
  { intros h' Hh'. rewrite Hc1, lookup_insert_ne; [apply Hunc; by right|]. by intros ->. }
  { lia. }
  exists s'. split; [|split; [done|split; [|by auto]]].
  - unfold allocate_inputs. cbn [for_each].
    change (ec_allocate r i s) with (encoder_allocate r i s). rewrite Ha. exact Hs'.
  - intros h' [->|Hh']%elem_of_cons; [|by apply Hheld]. apply Hkeep. exists {[request_id r]}.
    rewrite Hc1, lookup_insert_eq. split; [done|set_solver].
Qed.

Lemma encoder_plan_Ok s : enc_inv sz feats s -> 0 <= num_free_slots s ->
  exists st, try_schedule_encoder_inputs false disable_chunked r computed shift N budget s =
      Ok (inputs_to_schedule st, plan_new_tokens st, plan_budget st, plan_cache st) /\
    plan_inv st /\ 0 <= plan_new_tokens st <= N /\
    forall i f, 0 <= i -> mm_features r !! Z.to_nat i = Some f -> provided st (plan_new_tokens st) f.
Proof.
  intros Hinv Hfree. set (st0 := mkPlan [] N budget [] 0 s).
  assert (plan_inv st0) as Hp0.
  { split; simpl; try done; [constructor|by intros h Hh%not_elem_of_nil|lia]. }
  unfold try_schedule_encoder_inputs. destruct (Z.eqb_spec N 0) as [HN|HN]; cbn [orb].
  { exists st0. split; [done|]. split; [done|]. simpl. split; [lia|]. intros i f _ _. right. right. intros p Hpr. lia. }
  destruct (has_encoder_inputs r) eqn:Ehas; cbn [negb].
  2: { exists st0. split; [done|]. split; [done|]. simpl. split; [lia|]. intros i f _ Hf.
       apply lookup_lt_Some in Hf. unfold has_encoder_inputs, num_encoder_inputs in Ehas.
       apply Z.ltb_ge in Ehas. lia. }
  destruct (features_in_window_Ok (mm_features r) computed (computed + N + shift) r_features)
    as (lo & hi & -> & Hhi & Hwin). cbn [mbind result_bind].
  change (mkPlan [] N budget [] 0 s) with st0.
  destruct (encoder_loop_Ok (py_range (Z.of_nat lo) (Z.of_nat hi)) st0 []) as (st & -> & Hp & Hn & Hprov); try done.
  - intros i f Hi Hf. right. destruct (decide (lo <= Z.to_nat i < hi)%nat) as [Hin|Hout].
    + left. apply elem_of_py_range. lia.
    + right. pose proof (proj2 (Hwin _ f Hf)) as Hw. lia.
  - intros i Hi%elem_of_py_range. destruct (lookup_lt_is_Some_2 (mm_features r) (Z.to_nat i)) as [f Hf]; [lia|].
    exists f. split; [lia|]. split; [done|]. apply (Hwin _ f Hf). lia.
  - apply py_range_sorted.
  - intros i f Hi. by apply not_elem_of_nil in Hi.
  - exists st. split; [done|]. by split.
Qed.
End Coverage.

(** * Properties *)

Section Properties.
Context `{SetOrder}.
Variable sz : mm_hash -> Z.
Variable feats : string -> list MultiModalFeatureSpec.
Hypothesis sz_nonneg : forall h, 0 <= sz h.

(** C31: the encoder plan of a decoder-only model covers the tokens it lets run.
    In every reachable cache it returns at most the tokens offered and spends
    no more than the budget; the inputs it picks can then all be allocated
    without one assertion failing; and afterwards every placeholder position
    among the tokens to run that an encoder output fills has its output in the
    cache, referenced by the request: computed before, or scheduled now. *)
Theorem encoder_plan_covers_tokens size s (disable_chunked : bool) r computed shift N budget :
  0 <= size -> enc_reachable sz feats size s -> known sz feats r -> features_ok (mm_features r) ->
  0 <= computed -> 0 <= N -> 0 <= shift <= 1 ->
  exists inputs n budget' s1 s2,
    try_schedule_encoder_inputs false disable_chunked r computed shift N budget s = Ok (inputs, n, budget', s1) /\
    0 <= n <= N /\ budget' <= budget /\ (inputs <> [] -> 0 <= budget') /\
    allocate_inputs r inputs s1 = Ok s2 /\ enc_inv sz feats s2 /\
    forall i f p, mm_features r !! i = Some f -> computed <= p < computed + n ->
      embedded (mm_position f) (p - offset (mm_position f)) -> held r s2 (identifier f).
Proof.
  intros Hsize Hr Hk Hf Hc HN Hs. destruct (enc_reachable_inv sz feats sz_nonneg size s Hsize Hr) as [Hinv _].
  destruct (encoder_plan_Ok sz feats sz_nonneg disable_chunked r computed shift N budget Hk Hf Hc HN Hs s
    Hinv (ei_nonneg _ _ _ Hinv)) as (st & Hplan & Hp & Hn & Hprov).
  destruct Hp as [Hci Hh Hnd Hunc Hemb Hfit Hbud Hwithin].
  destruct (allocate_inputs_Ok sz feats sz_nonneg r Hk _ _ Hh _ Hci Hnd Hunc) as (s2 & Ha & Hinv2 & Hheld & Hkeep);
    [by rewrite <-Hemb|].
  exists (inputs_to_schedule st), (plan_new_tokens st), (plan_budget st), (plan_cache st), s2.
  split; [exact Hplan|]. split; [done|]. split; [|split; [done|split; [exact Ha|split; [done|]]]].
  - assert (0 <= embeds_of sz (hashes_to_schedule st)) as Hnn; [|lia].
    generalize (hashes_to_schedule st) as hs. induction hs as [|h hs IH]; simpl; [lia|].
    specialize (sz_nonneg h). lia.
  - intros i f p Hfi Hp Hemb'. destruct (Hprov (Z.of_nat i) f) as [Hin|[Hin|Hno]]; [lia|by rewrite Nat2Z.id| | |].
    + by apply Hheld.
    + by apply Hkeep.
    + by destruct (Hno p Hp).
Qed.
End Properties.

(** The EAGLE drafter reads one position further: the embeddings of the positions
    from [computed + 1] to [computed + n], as [_gather_mm_embeddings] of
    src/upstream/vllm/v1/worker/gpu_model_runner.py gathers them with
    [shift_computed_tokens = 1]. It raises when the output of a feature with an
    embedding there is missing, unless the feature starts at or after
    [computed + n]. *)
Definition drafter_misses (r : Request) (s : EncoderCacheManager) (computed n : Z)
    (f : MultiModalFeatureSpec) : bool :=
  bool_decide (cached s !! identifier f = None) && (feature_start f <? computed + n) &&
  match get_embeds_indices_in_range (mm_position f) (Z.max (computed + 1 - feature_start f) 0)
      (Z.min (computed + 1 - feature_start f + n) (plength (mm_position f))) with
  | Ok (a, b) => negb (a =? b)
  | Raise _ => false
  end.

(** * Concrete inputs *)

#[export] Instance elements_order : SetOrder := {| ids_iter := elements; ids_iter_perm s := reflexivity _ |}.

(** One image of four placeholder tokens at offset 4, whose first token has no
    embedding. *)
Definition masked_feature : MultiModalFeatureSpec :=
  mkFeature (Some "a"%string) (mkRange 4 4 (Some [false; true; true; false])).
Definition masked_request : Request :=
  mkRequest "r"%string 0 example_time 1 WAITING None (Some example_sampling) None None 3 None ∅ 16
    [] (replicate 16 0) [] 0 0 None [masked_feature] 0 0 [] false.

(** The plan does not cover what the drafter reads. A chunk may end one token
    into a placeholder whose first token has no embedding: the plan then runs
    the chunk without the input, and the drafter's read, one position further,
    misses the encoder output. *)
Theorem drafter_reads_unscheduled_input :
  let s := encoder_cache_init 8 in
  try_schedule_encoder_inputs false false masked_request 0 1 5 8 s = Ok ([], 5, 8, s) /\
  drafter_misses masked_request s 0 5 masked_feature = true.
Proof. split; vm_compute; reflexivity. Qed.

Definition masked_size (h : mm_hash) : Z := if bool_decide (h = Some "a"%string) then 2 else 0.
Definition masked_features (rid : string) : list MultiModalFeatureSpec :=
  if bool_decide (rid = "r"%string) then [masked_feature] else [].

(** With seven tokens the input is needed, picked and allocated. *)
Lemma encoder_plan_covers_tokens_witness :
  exists inputs n budget' s1 s2,
    try_schedule_encoder_inputs false false masked_request 0 1 7 8 (encoder_cache_init 8) =
      Ok (inputs, n, budget', s1) /\
    allocate_inputs masked_request inputs s1 = Ok s2 /\
    held masked_request s2 (Some "a"%string).
Proof.
  destruct (encoder_plan_covers_tokens masked_size masked_features) with
    (size := 8) (s := encoder_cache_init 8) (disable_chunked := false) (r := masked_request)
    (computed := 0) (shift := 1) (N := 7) (budget := 8)
    as (inputs & n & budget' & s1 & s2 & Hplan & _ & _ & _ & Ha & _ & Hcov); try lia.
  - intros h. unfold masked_size. case_bool_decide; lia.
  - constructor.
  - split; [reflexivity|]. intros f [->|Hf%elem_of_nil]%elem_of_cons; [vm_compute; reflexivity|destruct Hf].
  - split.
    + intros [|i] f Hf; [injection Hf as <-|discriminate Hf]. split; [vm_compute; discriminate|].
      intros mask [= <-]. reflexivity.
    + intros [|i] [|j] f g Hij Hf Hg; try lia; try discriminate Hf; discriminate Hg.
  - assert (n = 7) as -> by (vm_compute in Hplan; by injection Hplan as <- <- <- <-).
    exists inputs, 7, budget', s1, s2. split; [exact Hplan|]. split; [exact Ha|].
    apply (Hcov 0%nat masked_feature 5 eq_refl); [lia|]. split; [|reflexivity].
    split; [vm_compute; discriminate|reflexivity].
Defined.
