(* ===== verification/SchedMonad.v ===== *)
(** Programs that mutate the scheduler's state, may leave a loop body early and
    may raise: a state monad with Python's [continue], [break] and exceptions, its
    [while] loop, and a calculus of weakest preconditions for it.

    An exception carries its origin: raised by the program's own code ([assert],
    [raise], a loop out of fuel) or by a component it called. A precondition
    [wp] holds of a run that ends as specified or is ended by an exception of a
    callee; the program's own code must not raise. *)
From S2P Require Import Prelude.
Open Scope Z_scope.

Inductive origin := Own | Callee.

Inductive outcome (S A : Type) :=
  | Ret (a : A) (s : S)
  | Continue (s : S)
  | Break (s : S)
  | Fail (o : origin) (e : exn).
Arguments Ret {S A}. Arguments Continue {S A}. Arguments Break {S A}. Arguments Fail {S A}.

Definition prog (S A : Type) : Type := S -> outcome S A.

Section Combinators.
Context {S A B : Type}.
Definition ret (a : A) : prog S A := fun s => Ret a s.
Definition bind (m : prog S A) (k : A -> prog S B) : prog S B := fun s =>
  match m s with
  | Ret a s => k a s
  | Continue s => Continue s
  | Break s => Break s
  | Fail o e => Fail o e
  end.
Definition gets (f : S -> A) : prog S A := fun s => Ret (f s) s.
Definition modify (f : S -> S) : prog S unit := fun s => Ret tt (f s).
Definition raise (e : exn) : prog S A := fun _ => Fail Own e.
Definition check (b : bool) : prog S unit := fun s => if b then Ret tt s else Fail Own AssertionError.
Definition continue_ : prog S A := fun s => Continue s.
Definition break_ : prog S A := fun s => Break s.
(** A call of another component: on the state, or on none of it. *)
Definition call_on (f : S -> result (A * S)) : prog S A := fun s =>
  match f s with Ok (a, s) => Ret a s | Raise e => Fail Callee e end.
Definition call (r : result A) : prog S A := fun s =>
  match r with Ok a => Ret a s | Raise e => Fail Callee e end.
End Combinators.

Notation "'let*' x := m 'in' k" := (bind m (fun x => k))
  (at level 200, x pattern, m at level 100, k at level 200, right associativity).
Notation "m ;; k" := (bind m (fun _ => k)) (at level 100, k at level 200, right associativity).
Definition when {S} (b : bool) (m : prog S unit) : prog S unit := if b then m else ret tt.

(** A program on a part of the state. *)
Definition zoom {S T A} (get : T -> S) (put : S -> T -> T) (m : prog S A) : prog T A := fun t =>
  match m (get t) with
  | Ret a s => Ret a (put s t)
  | Continue s => Continue (put s t)
  | Break s => Break (put s t)
  | Fail o e => Fail o e
  end.

(** [for x in xs: body]. *)
Fixpoint for_in {S X} (body : X -> prog S unit) (xs : list X) : prog S unit :=
  match xs with [] => ret tt | x :: xs' => body x ;; for_in body xs' end.

(** [while cond: body]; a round that ends normally or with [continue] goes on. *)
Fixpoint while_ {S} (fuel : nat) (cond : S -> bool) (body : prog S unit) : prog S unit := fun s =>
  match fuel with
  | O => Fail Own Diverges
  | Datatypes.S fuel =>
      if cond s then
        match body s with
        | Ret _ s | Continue s => while_ fuel cond body s
        | Break s => Ret tt s
        | Fail o e => Fail o e
        end
      else Ret tt s
  end.

(** * Weakest preconditions *)

Section Wp.
Context {S : Type}.

(** [Q] after a normal end, [C] at [continue], [B] at [break]. *)
Definition wp {A} (m : prog S A) (Q : A -> S -> Prop) (C B : S -> Prop) (s : S) : Prop :=
  match m s with
  | Ret a s => Q a s
  | Continue s => C s
  | Break s => B s
  | Fail Own _ => False
  | Fail Callee _ => True
  end.

(** A program without [continue] and [break]. *)
Definition triple {A} (m : prog S A) (Q : A -> S -> Prop) (s : S) : Prop :=
  wp m Q (fun _ => False) (fun _ => False) s.

Lemma wp_mono {A} (m : prog S A) (Q Q' : A -> S -> Prop) (C C' B B' : S -> Prop) s :
  wp m Q C B s -> (forall a s, Q a s -> Q' a s) -> (forall s, C s -> C' s) -> (forall s, B s -> B' s) ->
  wp m Q' C' B' s.
Proof. unfold wp. intros Hm HQ HC HB. destruct (m s) as [| | |[]]; auto. Qed.

Lemma wp_triple {A} (m : prog S A) (Q Q' : A -> S -> Prop) C B s :
  triple m Q s -> (forall a s, Q a s -> Q' a s) -> wp m Q' C B s.
Proof. intros Hm HQ. by eapply wp_mono. Qed.

Lemma wp_bind {A B'} (m : prog S A) (k : A -> prog S B') Q C B s :
  wp m (fun a s => wp (k a) Q C B s) C B s -> wp (bind m k) Q C B s.
Proof. unfold wp, bind. by destruct (m s) as [| | |[]]. Qed.

Lemma wp_ret {A} (a : A) Q C B s : Q a s -> wp (ret a) Q C B s.
Proof. done. Qed.

Lemma wp_gets {A} (f : S -> A) (Q : A -> S -> Prop) C B s : Q (f s) s -> wp (gets f) Q C B s.
Proof. done. Qed.

Lemma wp_modify (f : S -> S) (Q : unit -> S -> Prop) C B s : Q tt (f s) -> wp (modify f) Q C B s.
Proof. done. Qed.

Lemma wp_check b (Q : unit -> S -> Prop) C B s : b = true -> Q tt s -> wp (check b) Q C B s.
Proof. by intros ->. Qed.

Lemma wp_continue {A} (Q : A -> S -> Prop) (C B : S -> Prop) s : C s -> wp continue_ Q C B s.
Proof. done. Qed.

Lemma wp_break {A} (Q : A -> S -> Prop) (C B : S -> Prop) s : B s -> wp break_ Q C B s.
Proof. done. Qed.

Lemma wp_call_on {A} (f : S -> result (A * S)) (Q : A -> S -> Prop) C B s :
  (forall a s', f s = Ok (a, s') -> Q a s') -> wp (call_on f) Q C B s.
Proof. unfold wp, call_on. intros HQ. destruct (f s) as [[a s']|]; auto. Qed.

Lemma wp_call {A} (r : result A) (Q : A -> S -> Prop) C B s :
  (forall a, r = Ok a -> Q a s) -> wp (call r) Q C B s.
Proof. unfold wp, call. intros HQ. destruct r; auto. Qed.

Lemma wp_when b (m : prog S unit) (Q : unit -> S -> Prop) C B s :
  (b = true -> wp m Q C B s) -> (b = false -> Q tt s) -> wp (when b m) Q C B s.
Proof. unfold when. intros Hm HQ. destruct b; [by apply Hm|by apply wp_ret, HQ]. Qed.

Lemma wp_if {A} (b : bool) (m1 m2 : prog S A) Q C B s :
  (b = true -> wp m1 Q C B s) -> (b = false -> wp m2 Q C B s) -> wp (if b then m1 else m2) Q C B s.
Proof. destruct b; auto. Qed.

Lemma wp_for {X} (I : list X -> S -> Prop) (body : X -> prog S unit) (Q : unit -> S -> Prop) C B xs s :
  (forall x xs s, I (x :: xs) s -> triple (body x) (fun _ s => I xs s) s) ->
  I xs s -> (forall s, I [] s -> Q tt s) -> wp (for_in body xs) Q C B s.
Proof.
  intros Hbody. revert s. induction xs as [|x xs IH]; intros s HI HQ; [by apply wp_ret, HQ|].
  cbn [for_in]. apply wp_bind. eapply wp_triple; [by apply Hbody|]. intros a s' HI'. by apply IH.
Qed.

(** A loop whose rounds keep [I] and decrease a measure ends within its fuel. *)
Lemma wp_while (I B' : S -> Prop) (m : S -> nat) fuel cond body (Q : unit -> S -> Prop) C B s :
  (forall s, I s -> cond s = true ->
     wp body (fun _ s' => I s' /\ (m s' < m s)%nat) (fun s' => I s' /\ (m s' < m s)%nat) B' s) ->
  I s -> (m s < fuel)%nat -> (forall s, I s -> cond s = false -> Q tt s) -> (forall s, B' s -> Q tt s) ->
  wp (while_ fuel cond body) Q C B s.
Proof.
  intros Hbody HI Hm Hend Hbreak. revert s HI Hm.
  induction fuel as [|fuel IH]; intros s HI Hm; [lia|]. unfold wp. cbn [while_].
  destruct (cond s) eqn:Ec; [|by apply Hend]. specialize (Hbody s HI Ec). unfold wp in Hbody.
  destruct (body s) as [a s'|s'|s'|[] e]; [..|by apply Hbreak|done|done].
  all: destruct Hbody as [HI' Hlt]; specialize (IH s' HI' ltac:(lia)); exact IH.
Qed.

End Wp.

Lemma wp_zoom {S T A} (get : T -> S) (put : S -> T -> T) (m : prog S A) (Q : A -> T -> Prop) C B t :
  wp m (fun a s => Q a (put s t)) (fun s => C (put s t)) (fun s => B (put s t)) (get t) ->
  wp (zoom get put m) Q C B t.
Proof. unfold wp, zoom. by destruct (m (get t)) as [| | |[]]. Qed.

(** Takes the first step of a program apart. *)
Ltac wp_step :=
  lazymatch goal with
  | |- wp (bind _ _) _ _ _ _ => apply wp_bind
  | |- wp (ret _) _ _ _ _ => apply wp_ret
  | |- wp (gets _) _ _ _ _ => apply wp_gets
  | |- wp (modify _) _ _ _ _ => apply wp_modify
  | |- wp continue_ _ _ _ _ => apply wp_continue
  | |- wp break_ _ _ _ _ => apply wp_break
  | |- wp (call _) _ _ _ _ => apply wp_call
  | |- wp (call_on _) _ _ _ _ => apply wp_call_on
  | |- wp (when _ _) _ _ _ _ => apply wp_when
  | |- wp (zoom _ _ _) _ _ _ _ => apply wp_zoom
  | |- wp (if _ then _ else _) _ _ _ _ => apply wp_if
  end.
