(* ===== verification/SchedState.v ===== *)
(** The state of the scheduler,
    src/upstream/vllm/v1/core/sched/scheduler.py: [Scheduler.__init__]'s
    attributes, the fields of a [Request] that only the scheduler uses, the KV
    connector it may have, and the small operations on all of them.

    [Request] objects live in a store, [objects]; queues and lists hold
    references ([ref]). Attributes that other methods only read are in
    [SchedConfig]. Not modelled: the EC connector (there is none), structured
    output beyond its effect on statuses, routed experts, statistics. *)
From S2P Require Import Prelude FreeQueue Request BlockHash BlockPool EncoderCache CacheHit SingleType GroupManager Coordinator KVCacheManager RequestQueue ChunkPlan EncoderPlan SchedMonad.
From Stdlib Require Import QArith.Qcanon.
Open Scope Z_scope.

(** * Requests, as the scheduler sees them *)

(** [StreamingUpdate]; [update.max_tokens] is never read. *)
Record StreamingUpdate := mkUpdate {
  upd_mm_features : list MultiModalFeatureSpec;
  upd_prompt_token_ids : list Z;
  upd_arrival_time : Qc;
  upd_sampling_params : option SamplingParams
}.

(** [request.structured_output_request.grammar]: absent, compiled or an exception;
    it is set by the structured output manager. *)
Inductive GrammarState := NoGrammar | Compiled | CompileError.

#[export] Instance grammar_eq_dec : EqDecision GrammarState.
Proof. solve_decision. Defined.

(** A [Request] with the fields its model in [Request] leaves out. *)
Record SReq := mkSReq {
  req : Request;
  num_output_placeholders : Z;
  num_stale_output_tokens : Z;
  drop_stale_output : bool;
  is_prefill_chunk : bool;
  next_decode_eligible_step : Z;
  last_sched_seq : Z;
  prompt_token_ids : option (list Z);
  resumable : bool;
  streaming_queue : option (list (option StreamingUpdate));   (** [None] entry: finished *)
  grammar : GrammarState;
  has_prefill_stats : bool;                  (** [prefill_stats is not None] *)
  report_full : bool                         (** [kv_cache_report_mode == "full"] *)
}.

(** Assignments to fields of [Request]. *)
Definition with_counts (computed in_flight : Z) (spec : list Z) (boundary preemptions : Z) (r : Request)
    : Request :=
  mkRequest (request_id r) (priority r) (arrival_time r) (py_id r) (status r) (stop_reason r)
    (sampling_params r) (pooling_params r) (lora_request r) (max_tokens r) (prompt_embeds r)
    (embeds_memo r) (num_prompt_tokens r) (output_token_ids r) (all_token_ids r) spec computed
    in_flight (cache_salt r) (mm_features r) boundary preemptions (block_hashes r)
    (skip_reading_prefix_cache r).
Definition set_status (st : RequestStatus) (r : Request) : Request := with_status st (stop_reason r) r.
Definition set_computed (n : Z) (r : Request) : Request :=
  with_counts n (num_in_flight_tokens r) (spec_token_ids r) (shared_prefix_boundary r) (num_preemptions r) r.
Definition set_in_flight (n : Z) (r : Request) : Request :=
  with_counts (num_computed_tokens r) n (spec_token_ids r) (shared_prefix_boundary r) (num_preemptions r) r.
Definition set_spec (ids : list Z) (r : Request) : Request :=
  with_counts (num_computed_tokens r) (num_in_flight_tokens r) ids (shared_prefix_boundary r)
    (num_preemptions r) r.
Definition set_boundary (b : Z) (r : Request) : Request :=
  with_counts (num_computed_tokens r) (num_in_flight_tokens r) (spec_token_ids r) b (num_preemptions r) r.
Definition set_preemptions (n : Z) (r : Request) : Request :=
  with_counts (num_computed_tokens r) (num_in_flight_tokens r) (spec_token_ids r) (shared_prefix_boundary r) n r.

(** The fields [_update_request_as_session] replaces. *)
Definition as_session (all : list Z) (features : list MultiModalFeatureSpec) (num_prompt : Z) (arrival : Qc)
    (sp : option SamplingParams) (r : Request) : Request :=
  mkRequest (request_id r) (priority r) arrival (py_id r) (status r) (stop_reason r)
    sp (pooling_params r) (lora_request r) (max_tokens r) (prompt_embeds r)
    (embeds_memo r) num_prompt [] all (spec_token_ids r) (num_computed_tokens r)
    (num_in_flight_tokens r) (cache_salt r) features (shared_prefix_boundary r) (num_preemptions r)
    (block_hashes r) (skip_reading_prefix_cache r).

(** Assignments to the scheduler's own fields. *)
Definition with_req (r : Request) (q : SReq) : SReq :=
  mkSReq r (num_output_placeholders q) (num_stale_output_tokens q) (drop_stale_output q)
    (is_prefill_chunk q) (next_decode_eligible_step q) (last_sched_seq q) (prompt_token_ids q)
    (resumable q) (streaming_queue q) (grammar q) (has_prefill_stats q) (report_full q).
Definition on_req (f : Request -> Request) (q : SReq) : SReq := with_req (f (req q)) q.
Definition with_stale (n : Z) (drop : bool) (q : SReq) : SReq :=
  mkSReq (req q) (num_output_placeholders q) n drop
    (is_prefill_chunk q) (next_decode_eligible_step q) (last_sched_seq q) (prompt_token_ids q)
    (resumable q) (streaming_queue q) (grammar q) (has_prefill_stats q) (report_full q).
Definition with_placeholders (n : Z) (q : SReq) : SReq :=
  mkSReq (req q) n (num_stale_output_tokens q) (drop_stale_output q)
    (is_prefill_chunk q) (next_decode_eligible_step q) (last_sched_seq q) (prompt_token_ids q)
    (resumable q) (streaming_queue q) (grammar q) (has_prefill_stats q) (report_full q).
Definition with_chunk (chunk : bool) (eligible seq : Z) (q : SReq) : SReq :=
  mkSReq (req q) (num_output_placeholders q) (num_stale_output_tokens q) (drop_stale_output q)
    chunk eligible seq (prompt_token_ids q)
    (resumable q) (streaming_queue q) (grammar q) (has_prefill_stats q) (report_full q).
Definition with_session (prompt : option (list Z)) (updates : option (list (option StreamingUpdate)))
    (q : SReq) : SReq :=
  mkSReq (req q) (num_output_placeholders q) (num_stale_output_tokens q) (drop_stale_output q)
    (is_prefill_chunk q) (next_decode_eligible_step q) (last_sched_seq q) prompt
    (resumable q) updates (grammar q) (has_prefill_stats q) (report_full q).
Definition with_resumable (b : bool) (q : SReq) : SReq :=
  mkSReq (req q) (num_output_placeholders q) (num_stale_output_tokens q) (drop_stale_output q)
    (is_prefill_chunk q) (next_decode_eligible_step q) (last_sched_seq q) (prompt_token_ids q)
    b (streaming_queue q) (grammar q) (has_prefill_stats q) (report_full q).
Definition without_prefill_stats (q : SReq) : SReq :=
  mkSReq (req q) (num_output_placeholders q) (num_stale_output_tokens q) (drop_stale_output q)
    (is_prefill_chunk q) (next_decode_eligible_step q) (last_sched_seq q) (prompt_token_ids q)
    (resumable q) (streaming_queue q) (grammar q) false (report_full q).

(** * The KV connector *)

(** The scheduler-side methods of [KVConnectorBase_V1] that the scheduler calls;
    each may mutate the connector. [kc_request_finished] stands for
    [request_finished] and [request_finished_all_groups]. *)
Class KVConnector (C : Type) := {
  kc_on_new_request : Request -> C -> result C;
  kc_get_num_new_matched_tokens : Request -> Z -> C -> result (option Z * bool * C);
  kc_update_state_after_alloc : Request -> list (list bref) -> Z -> C -> result C;
  kc_build_connector_meta : list (ref * Z) -> C -> result C;
  kc_request_finished : Request -> list (list Z) -> C -> result (bool * C);
  kc_reset_cache : C -> result (bool * C)    (** [reset_cache() is not False] *)
}.

(** * The scheduler *)

Inductive PauseState := UNPAUSED | PAUSED_NEW | PAUSED_ALL.

#[export] Instance pause_eq_dec : EqDecision PauseState.
Proof. solve_decision. Defined.

(** Attributes set by [__init__] and only read afterwards. *)
Record SchedConfig := mkSchedConfig {
  max_num_running_reqs : Z;
  max_num_scheduled_tokens : Z;
  max_model_len : Z;
  num_sampled_tokens_per_step : Z;
  defer_block_free : bool;
  requires_kv_delivery : bool;
  max_loras : option Z;                      (** [lora_config.max_loras], if there is a [lora_config] *)
  long_prefill_token_threshold : Z;
  adaptive_long_prefill_threshold : bool;
  enable_chunked_prefill : bool;
  disable_chunked_mm_input : bool;
  scheduler_reserve_full_isl : bool;
  num_spec_tokens : Z;
  num_lookahead_tokens : Z;
  dynamic_sd_lookup : option (list Z);
  sched_use_eagle : bool;
  cache_block_size : Z;                      (** [cache_config.block_size] *)
  sched_block_size : Z;                      (** [self.block_size] *)
  sched_hash_block_size : Z;
  need_mamba_block_aligned_split : bool;
  is_encoder_decoder : bool;
  max_num_encoder_input_tokens : Z;
  needs_kv_cache_zeroing : bool;
  is_kv_producer : bool;
  use_v2_model_runner : bool;
  pp_size : Z;
  is_async : bool                            (** an [AsyncScheduler] *)
}.

(** [mamba_partial_cache_hit] and the rest of what the split reads. *)
Definition split_config (c : SchedConfig) : SplitConfig :=
  mkSplit (cache_block_size c) (sched_hash_block_size c) (sched_use_eagle c)
    (need_mamba_block_aligned_split c && (sched_hash_block_size c <? sched_block_size c))
    (max_num_scheduled_tokens c) (long_prefill_token_threshold c).

Record Queues (Q : Type) := mkQueues {
  waiting : Q;
  skipped_waiting : Q;
  running : list ref
}.
Arguments mkQueues {Q}. Arguments waiting {Q}. Arguments skipped_waiting {Q}. Arguments running {Q}.

(** The fence of deferred frees. *)
Record Fences := mkFences {
  sched_step_seq : Z;
  processed_step_seq : Z;
  deferred_frees : list (Z * list bref)
}.

(** What the scheduler notes for later steps. *)
Record Notices := mkNotices {
  finished_req_ids : gset ref;
  reset_preempted_req_ids : gset ref;
  finished_recving_kv_req_ids : gset ref;
  failed_recving_kv_req_ids : gset ref;
  grammar_compile_error_reqs : gset ref;
  skip_zero_block_ids : gset Z
}.

Record Scheduler (M E Q C : Type) := mkScheduler {
  config : SchedConfig;
  objects : ref -> SReq;
  requests : list ref;                       (** the keys of the dict, in order *)
  queues : Queues Q;
  fences : Fences;
  notices : Notices;
  inflight_prefills : gset ref;
  num_waiting_for_streaming_input : Z;
  current_step : Z;
  prefill_capacity_bound : bool;
  pause_state : PauseState;
  kv_cache_manager : KVCacheManager M;
  encoder_cache : E;
  connector : option C
}.
Arguments mkScheduler {M E Q C}. Arguments config {M E Q C}. Arguments objects {M E Q C}.
Arguments requests {M E Q C}. Arguments queues {M E Q C}. Arguments fences {M E Q C}.
Arguments notices {M E Q C}. Arguments inflight_prefills {M E Q C}.
Arguments num_waiting_for_streaming_input {M E Q C}. Arguments current_step {M E Q C}.
Arguments prefill_capacity_bound {M E Q C}. Arguments pause_state {M E Q C}.
Arguments kv_cache_manager {M E Q C}. Arguments encoder_cache {M E Q C}. Arguments connector {M E Q C}.

(** * Assignments *)

Section Assignments.
Context {M E Q C : Type}.
Implicit Types s : Scheduler M E Q C.

Definition set_objects (o : ref -> SReq) s : Scheduler M E Q C :=
  mkScheduler (config s) o (requests s) (queues s) (fences s) (notices s) (inflight_prefills s)
    (num_waiting_for_streaming_input s) (current_step s) (prefill_capacity_bound s) (pause_state s)
    (kv_cache_manager s) (encoder_cache s) (connector s).
Definition set_requests (rs : list ref) s : Scheduler M E Q C :=
  mkScheduler (config s) (objects s) rs (queues s) (fences s) (notices s) (inflight_prefills s)
    (num_waiting_for_streaming_input s) (current_step s) (prefill_capacity_bound s) (pause_state s)
    (kv_cache_manager s) (encoder_cache s) (connector s).
Definition set_queues (q : Queues Q) s : Scheduler M E Q C :=
  mkScheduler (config s) (objects s) (requests s) q (fences s) (notices s) (inflight_prefills s)
    (num_waiting_for_streaming_input s) (current_step s) (prefill_capacity_bound s) (pause_state s)
    (kv_cache_manager s) (encoder_cache s) (connector s).
Definition set_fences (f : Fences) s : Scheduler M E Q C :=
  mkScheduler (config s) (objects s) (requests s) (queues s) f (notices s) (inflight_prefills s)
    (num_waiting_for_streaming_input s) (current_step s) (prefill_capacity_bound s) (pause_state s)
    (kv_cache_manager s) (encoder_cache s) (connector s).
Definition set_notices (n : Notices) s : Scheduler M E Q C :=
  mkScheduler (config s) (objects s) (requests s) (queues s) (fences s) n (inflight_prefills s)
    (num_waiting_for_streaming_input s) (current_step s) (prefill_capacity_bound s) (pause_state s)
    (kv_cache_manager s) (encoder_cache s) (connector s).
Definition set_inflight (i : gset ref) s : Scheduler M E Q C :=
  mkScheduler (config s) (objects s) (requests s) (queues s) (fences s) (notices s) i
    (num_waiting_for_streaming_input s) (current_step s) (prefill_capacity_bound s) (pause_state s)
    (kv_cache_manager s) (encoder_cache s) (connector s).
Definition set_counters (streaming step : Z) (bound : bool) (pause : PauseState) s : Scheduler M E Q C :=
  mkScheduler (config s) (objects s) (requests s) (queues s) (fences s) (notices s) (inflight_prefills s)
    streaming step bound pause
    (kv_cache_manager s) (encoder_cache s) (connector s).
Definition set_kv (k : KVCacheManager M) s : Scheduler M E Q C :=
  mkScheduler (config s) (objects s) (requests s) (queues s) (fences s) (notices s) (inflight_prefills s)
    (num_waiting_for_streaming_input s) (current_step s) (prefill_capacity_bound s) (pause_state s)
    k (encoder_cache s) (connector s).
Definition set_encoder (e : E) s : Scheduler M E Q C :=
  mkScheduler (config s) (objects s) (requests s) (queues s) (fences s) (notices s) (inflight_prefills s)
    (num_waiting_for_streaming_input s) (current_step s) (prefill_capacity_bound s) (pause_state s)
    (kv_cache_manager s) e (connector s).
Definition set_connector (c : option C) s : Scheduler M E Q C :=
  mkScheduler (config s) (objects s) (requests s) (queues s) (fences s) (notices s) (inflight_prefills s)
    (num_waiting_for_streaming_input s) (current_step s) (prefill_capacity_bound s) (pause_state s)
    (kv_cache_manager s) (encoder_cache s) c.

Definition set_streaming (n : Z) s : Scheduler M E Q C :=
  set_counters n (current_step s) (prefill_capacity_bound s) (pause_state s) s.

(** Notes added to and taken from the sets of ids. *)
Definition note_finished (r : ref) (n : Notices) : Notices :=
  mkNotices ({[r]} ∪ finished_req_ids n) (reset_preempted_req_ids n) (finished_recving_kv_req_ids n)
    (failed_recving_kv_req_ids n) (grammar_compile_error_reqs n) (skip_zero_block_ids n).
Definition note_preempted (r : ref) (n : Notices) : Notices :=
  mkNotices (finished_req_ids n) ({[r]} ∪ reset_preempted_req_ids n) (finished_recving_kv_req_ids n)
    (failed_recving_kv_req_ids n) (grammar_compile_error_reqs n) (skip_zero_block_ids n).
Definition with_recving (finished failed : gset ref) (n : Notices) : Notices :=
  mkNotices (finished_req_ids n) (reset_preempted_req_ids n) finished failed
    (grammar_compile_error_reqs n) (skip_zero_block_ids n).
Definition with_grammar_errors (rs : gset ref) (n : Notices) : Notices :=
  mkNotices (finished_req_ids n) (reset_preempted_req_ids n) (finished_recving_kv_req_ids n)
    (failed_recving_kv_req_ids n) rs (skip_zero_block_ids n).
Definition with_skip_zero (ids : gset Z) (n : Notices) : Notices :=
  mkNotices (finished_req_ids n) (reset_preempted_req_ids n) (finished_recving_kv_req_ids n)
    (failed_recving_kv_req_ids n) (grammar_compile_error_reqs n) ids.
Definition clear_step_notes (n : Notices) : Notices :=
  mkNotices ∅ ∅ (finished_recving_kv_req_ids n) (failed_recving_kv_req_ids n)
    (grammar_compile_error_reqs n) (skip_zero_block_ids n).

(** The object behind a reference, read and replaced. *)
Definition request_of s (r : ref) : Request := req (objects s r).
Definition set_object (r : ref) (q : SReq) s : Scheduler M E Q C :=
  set_objects (fun r' => if decide (r' = r) then q else objects s r') s.
Definition order_of s : order := ref_lt (request_of s).
End Assignments.
