(* ===== verification/SchedOps.v ===== *)
(** The smaller methods of the scheduler,
    src/upstream/vllm/v1/core/sched/scheduler.py: its waiting queues, the deferred
    freeing of blocks, freeing and preempting requests, promoting blocked ones,
    streaming sessions and what prefills still need. *)
From S2P Require Import Prelude FreeQueue Request BlockHash BlockPool EncoderCache CacheHit SingleType GroupManager Coordinator KVCacheManager KVLifecycle RequestQueue ChunkPlan EncoderPlan SchedMonad SchedState.
Open Scope Z_scope.

Section Operations.
Context `{PoolEnv} `{GroupManager M} `{EncoderCache E} `{RequestQueue Q} `{KVConnector C}.
Variable hasher : option block_hasher.
Local Abbreviation state := (Scheduler M E Q C).
Implicit Types (r : ref) (s : state).

(** * Access to the parts of the state *)

Definition the_config : prog state SchedConfig := gets config.
Definition the_request r : prog state SReq := gets (fun s => objects s r).
Definition update_request r (f : SReq -> SReq) : prog state unit :=
  modify (fun s => set_object r (f (objects s r)) s).
Definition on_fences (f : Fences -> Fences) : prog state unit :=
  modify (fun s => set_fences (f (fences s)) s).
Definition on_notices (f : Notices -> Notices) : prog state unit :=
  modify (fun s => set_notices (f (notices s)) s).
Definition on_inflight (f : gset ref -> gset ref) : prog state unit :=
  modify (fun s => set_inflight (f (inflight_prefills s)) s).
Definition on_kv {A} (f : KVCacheManager M -> result (A * KVCacheManager M)) : prog state A :=
  call_on (fun s => '(a, k) ← f (kv_cache_manager s); Ok (a, set_kv k s)).
Definition on_encoder {A} (f : E -> result (A * E)) : prog state A :=
  call_on (fun s => '(a, e) ← f (encoder_cache s); Ok (a, set_encoder e s)).
Definition on_connector {A} (c : C) (f : C -> result (A * C)) : prog state A :=
  call_on (fun s => '(a, c) ← f c; Ok (a, set_connector (Some c) s)).
(** A call without an answer. *)
Definition silently {A} (f : A -> result A) (a : A) : result (unit * A) := a ← f a; Ok (tt, a).
(** [kv_cache_manager.cache_blocks] and the like, which also update the request. *)
Definition on_kv_request r (f : Request -> KVCacheManager M -> result (Request * KVCacheManager M))
    : prog state unit :=
  let* q := the_request r in
  let* rq' := on_kv (f (req q)) in
  update_request r (with_req rq').

(** * The waiting queues *)

(** Which of the two queues a local variable is bound to. *)
Inductive Which := Waiting | Skipped.

Definition queue_of (w : Which) s : Q :=
  match w with Waiting => waiting (queues s) | Skipped => skipped_waiting (queues s) end.
Definition set_queue (w : Which) (q : Q) s : state :=
  match w with
  | Waiting => set_queues (mkQueues q (skipped_waiting (queues s)) (running (queues s))) s
  | Skipped => set_queues (mkQueues (waiting (queues s)) q (running (queues s))) s
  end.
Definition set_running (rs : list ref) s : state :=
  set_queues (mkQueues (waiting (queues s)) (skipped_waiting (queues s)) rs) s.
Definition on_queue {A} (w : Which) (f : order -> Q -> result (A * Q)) : prog state A :=
  call_on (fun s => '(a, q) ← f (order_of s) (queue_of w s); Ok (a, set_queue w q s)).
Definition without_answer (f : order -> Q -> result Q) (lt : order) (q : Q) : result (unit * Q) :=
  q ← f lt q; Ok (tt, q).

(** [_is_blocked_waiting_status]. *)
Definition is_blocked_waiting_status (st : RequestStatus) : bool :=
  match st with
  | WAITING_FOR_STRUCTURED_OUTPUT_GRAMMAR | WAITING_FOR_REMOTE_KVS | WAITING_FOR_STREAMING_REQ => true
  | _ => false
  end.

(** [_enqueue_waiting_request]. *)
Definition enqueue_waiting_request r : prog state unit :=
  let* q := the_request r in
  on_queue (if is_blocked_waiting_status (status (req q)) then Skipped else Waiting)
    (without_answer (fun lt => add_request lt r)).

(** [_select_waiting_queue_for_scheduling]: the answer is one of the two queue
    objects or [None]. *)
Definition select_waiting_queue_for_scheduling : prog state (option Which) :=
  let* w := gets (queue_of Waiting) in
  let* sk := gets (queue_of Skipped) in
  match rq_policy (Q := Q) with
  | FCFS => ret (if rq_bool sk then Some Skipped else if rq_bool w then Some Waiting else None)
  | PRIORITY =>
      if rq_bool w && rq_bool sk then
        let* waiting_req := call (peek_request w) in
        let* skipped_req := call (peek_request sk) in
        let* lt := gets order_of in
        ret (Some (if lt waiting_req skipped_req then Waiting else Skipped))
      else ret (if rq_bool w then Some Waiting else if rq_bool sk then Some Skipped else None)
  end.

(** * Freeing blocks, now or later *)

(** [block_pool.free_blocks]. *)
Definition pool_free (l : list bref) (k : KVCacheManager M) : result (KVCacheManager M) :=
  p ← free_blocks l (block_pool (coordinator k)); Ok (with_pool p k).

Definition defer (fence : Z) (blocks : list bref) (f : Fences) : Fences :=
  mkFences (sched_step_seq f) (processed_step_seq f) (deferred_frees f ++ [(fence, blocks)]).

(** [_free_request_blocks]. *)
Definition free_request_blocks r : prog state unit :=
  let* q := the_request r in
  let* c := the_config in
  let* f := gets fences in
  if negb (defer_block_free c) || (last_sched_seq q <=? processed_step_seq f)
  then on_kv (silently (kv_free (req q)))
  else
    let* blocks := on_kv (fun k => Ok (kv_pop_blocks_for_free (req q) k)) in
    when (negb (zlen blocks =? 0)) (on_fences (defer (sched_step_seq f) blocks)).

(** [_free_cow_retained_blocks]. *)
Definition free_cow_retained_blocks (blocks : list bref) (fence_seq : Z) : prog state unit :=
  let* c := the_config in
  let* f := gets fences in
  if negb (defer_block_free c) || (fence_seq <=? processed_step_seq f)
  then on_kv (silently (pool_free blocks))
  else on_fences (defer fence_seq (reverse blocks)).

(** [_drain_deferred_frees]: pops from the left until a fence is still ahead. *)
Fixpoint drain_loop (processed : Z) (l : list (Z * list bref)) (k : KVCacheManager M)
    : result (list (Z * list bref) * KVCacheManager M) :=
  match l with
  | [] => Ok ([], k)
  | (fence, blocks) :: l' =>
      if processed <? fence then Ok (l, k) else
      k ← pool_free (reverse blocks) k; drain_loop processed l' k
  end.
Definition drain_deferred_frees : prog state unit :=
  let* f := gets fences in
  let* rest := on_kv (drain_loop (processed_step_seq f) (deferred_frees f)) in
  on_fences (fun f => mkFences (sched_step_seq f) (processed_step_seq f) rest).

(** * Finishing and preempting *)

(** [_free_blocks]. *)
Definition free_blocks_of r : prog state unit :=
  let* q := the_request r in
  check (is_finished (req q)) ;;
  free_request_blocks r ;;
  let* rs := gets requests in
  match py_remove r rs with
  | Ok rs' => modify (set_requests rs')
  | Raise _ => raise KeyError
  end.

(** [_connector_finished]: whether the connector delays the freeing. *)
Definition connector_finished r : prog state bool :=
  let* c := gets connector in
  match c with
  | None => ret false
  | Some c =>
      let* q := the_request r in
      let n := num_computed_tokens (req q) in
      on_kv (silently (kv_remove_skipped_blocks (request_id (req q))
        (Z.max 0 (n - num_in_flight_tokens (req q))) (Some (num_prompt_tokens (req q))))) ;;
      let* block_ids := gets (fun s => get_block_ids_for_computed_tokens (request_id (req q)) n (kv_cache_manager s)) in
      on_connector c (kc_request_finished (req q) block_ids)
  end.

(** [_free_request]. *)
Definition free_request (delay_free_blocks : bool) r : prog state unit :=
  let* q := the_request r in
  check (is_finished (req q)) ;;
  on_inflight (fun i => i ∖ {[r]}) ;;
  let* connector_delay := connector_finished r in
  on_encoder (silently (ec_free (req q))) ;;
  on_notices (note_finished r) ;;
  when (negb (delay_free_blocks || connector_delay)) (free_blocks_of r).

(** [_preempt_request]. *)
Definition preempt_request (drop : bool) r : prog state unit :=
  let* q := the_request r in
  check (bool_decide (status (req q) = RUNNING)) ;;
  free_request_blocks r ;;
  on_encoder (silently (ec_free (req q))) ;;
  on_inflight (fun i => i ∖ {[r]}) ;;
  update_request r (fun q =>
    on_req (fun rq => set_preemptions (num_preemptions rq + 1)
                        (set_spec [] (set_computed 0 (set_status PREEMPTED rq))))
      (with_placeholders 0
        (with_stale (num_in_flight_tokens (req q))
           (drop || (drop_stale_output q && (0 <? num_stale_output_tokens q))) q))) ;;
  on_queue Waiting (without_answer (fun lt => prepend_request lt r)) ;;
  on_notices (note_preempted r).

(** * Streaming sessions *)

(** [_update_request_as_session]; the update's features are shifted by the number
    of tokens kept. *)
Definition shift_feature (base : Z) (f : MultiModalFeatureSpec) : MultiModalFeatureSpec :=
  mkFeature (identifier f)
    (mkRange (offset (mm_position f) + base) (plength (mm_position f)) (is_embed (mm_position f))).
Definition update_request_as_session r (u : StreamingUpdate) : prog state unit :=
  let* q := the_request r in
  let rq := req q in
  let kept_output_tokens := py_slice (all_token_ids rq) (num_prompt_tokens rq) (num_computed_tokens rq) in
  let all := py_upto (all_token_ids rq) (num_computed_tokens rq) in
  match prompt_token_ids q with
  | None => raise AssertionError
  | Some prompt =>
      let prompt := prompt ++ kept_output_tokens ++ upd_prompt_token_ids u in
      let features := mm_features rq ++ (shift_feature (zlen all) <$> upd_mm_features u) in
      let rq' := as_session (all ++ upd_prompt_token_ids u) features (num_prompt_tokens rq)
                   (arrival_time rq) (sampling_params rq) rq in
      let* rq' := call (update_block_hashes hasher rq') in
      update_request r (fun q => with_session (Some prompt) (streaming_queue q)
        (with_req (as_session (all_token_ids rq') (mm_features rq') (zlen prompt) (upd_arrival_time u)
           (upd_sampling_params u) rq') q)) ;;
      when (bool_decide (status rq = WAITING_FOR_STREAMING_REQ))
        (modify (fun s => set_streaming (num_waiting_for_streaming_input s - 1) s)) ;;
      update_request r (on_req (set_status WAITING))
  end.

(** [_handle_stopped_request]: whether the request is finished. *)
Definition handle_stopped_request r : prog state bool :=
  let* q := the_request r in
  if negb (resumable q) then ret true else
  match streaming_queue q with
  | Some (None :: updates) =>
      update_request r (fun q => with_session (prompt_token_ids q) (Some updates) q) ;; ret true
  | Some (Some u :: updates) =>
      update_request r (fun q => with_session (prompt_token_ids q) (Some updates) q) ;;
      update_request_as_session r u ;;
      enqueue_waiting_request r ;; ret false
  | _ =>
      update_request r (on_req (set_status WAITING_FOR_STREAMING_REQ)) ;;
      modify (fun s => set_streaming (num_waiting_for_streaming_input s + 1) s) ;;
      enqueue_waiting_request r ;; ret false
  end.

(** * Blocks that prefills still need *)

(** [_request_remaining_blocks]. *)
Definition request_remaining_blocks s r : result Z :=
  let c := config s in
  let rq := request_of s r in
  let k := kv_cache_manager s in
  let full_num_tokens := Z.min (num_tokens rq) (max_model_len c) in
  let full_num_slots := Z.min (full_num_tokens + num_lookahead_tokens c) (max_model_len c) in
  co_get_num_blocks_to_allocate (request_id rq) full_num_slots (replicate (num_kv_cache_groups k) []) 0
    (num_computed_tokens rq) (num_computed_tokens rq) full_num_tokens true (coordinator k).

(** [_inflight_prefill_reserved_blocks]. *)
Fixpoint sum_results {A} (f : A -> result Z) (xs : list A) : result Z :=
  match xs with [] => Ok 0 | x :: xs' => n ← f x; m ← sum_results f xs'; Ok (n + m) end.
Definition inflight_prefill_reserved_blocks s : result Z :=
  sum_results (request_remaining_blocks s) (elements (inflight_prefills s)).

(** [_get_long_prefill_token_threshold]. *)
Definition long_prefill_threshold : prog state Z :=
  let* s := gets (fun s : state => s) in
  let c := config s in
  let* skipped := call (rq_iter (order_of s) (queue_of Skipped s)) in
  let* waiting := call (rq_iter (order_of s) (queue_of Waiting s)) in
  ret (get_long_prefill_token_threshold (long_prefill_token_threshold c)
    (adaptive_long_prefill_threshold c) (max_num_running_reqs c) (num_waiting_for_streaming_input s)
    (max_num_scheduled_tokens c) (request_of s <$> running (queues s)) (request_of s <$> skipped ++ waiting)).

(** * Promoting blocked requests *)

(** [_update_waiting_for_remote_kv]. *)
Definition update_waiting_for_remote_kv r : prog state unit :=
  let* c := gets connector in
  check (match c with Some _ => true | None => false end) ;;
  let* q := the_request r in
  let* n := gets notices in
  let* c := the_config in
  let computed := num_computed_tokens (req q) in
  (if bool_decide (r ∈ failed_recving_kv_req_ids n) then
     (if negb (computed =? 0) then
        on_kv_request r (fun rq => kv_cache_blocks rq computed) ;;
        when (needs_kv_cache_zeroing c)
          (on_kv (silently (record_blocks_for_zeroing (request_id (req q)) computed)))
      else on_kv (silently (kv_free (req q)))) ;;
     on_notices (fun n => with_recving (finished_recving_kv_req_ids n) (failed_recving_kv_req_ids n ∖ {[r]}) n)
   else
     on_kv_request r (fun rq => kv_cache_blocks rq computed) ;;
     let* q := the_request r in
     when (computed =? num_tokens (req q)) (update_request r (on_req (set_computed (num_tokens (req q) - 1))))) ;;
  let* n := gets notices in
  if bool_decide (r ∈ finished_recving_kv_req_ids n)
  then on_notices (fun n => with_recving (finished_recving_kv_req_ids n ∖ {[r]}) (failed_recving_kv_req_ids n) n)
  else raise KeyError.

(** [_try_promote_blocked_waiting_request]. *)
Definition try_promote_blocked_waiting_request r : prog state bool :=
  let* q := the_request r in
  match status (req q) with
  | WAITING_FOR_REMOTE_KVS =>
      let* n := gets notices in
      if negb (bool_decide (r ∈ finished_recving_kv_req_ids n)) then ret false else
      update_waiting_for_remote_kv r ;;
      update_request r (fun q => on_req (set_status (if num_preemptions (req q) =? 0 then WAITING else PREEMPTED)) q) ;;
      ret true
  | WAITING_FOR_STRUCTURED_OUTPUT_GRAMMAR =>
      match grammar q with
      | NoGrammar => ret false
      | CompileError =>
          on_notices (fun n => with_grammar_errors ({[r]} ∪ grammar_compile_error_reqs n) n) ;; ret false
      | Compiled => update_request r (on_req (set_status WAITING)) ;; ret true
      end
  | WAITING_FOR_STREAMING_REQ =>
      check (match streaming_queue q with Some (_ :: _) => false | _ => true end) ;; ret false
  | _ => raise AssertionError
  end.
End Operations.
