(* ===== verification/Schedule.v ===== *)
(** [Scheduler.schedule] of src/upstream/vllm/v1/core/sched/scheduler.py: the loop
    over the running requests, which may preempt some of them, the loop over the
    waiting ones, and the end of the step with [_update_after_schedule] and the
    override of async_scheduler.py.

    A [Pass] holds the locals of one call. The parts of the scheduler's output
    that are copied from the state for the workers ([NewRequestData],
    [CachedRequestData], grammar and connector metadata) are left out. *)
From S2P Require Import Prelude FreeQueue Request BlockHash BlockPool EncoderCache CacheHit SingleType GroupManager Coordinator KVCacheManager KVLifecycle RequestQueue ChunkPlan EncoderPlan SchedMonad SchedState SchedOps.
From Stdlib Require Import QArith.Qcanon.
Open Scope Z_scope.

(** * The locals of [schedule] *)

(** The four lists of requests. *)
Record Picked := mkPicked {
  scheduled_new_reqs : list ref;
  scheduled_resumed_reqs : list ref;
  scheduled_running_reqs : list ref;
  preempted_reqs : list ref
}.

(** The dicts keyed by request. *)
Record Shares := mkShares {
  req_to_new_blocks : list (ref * KVCacheBlocks);
  num_scheduled_tokens : list (ref * Z);
  scheduled_spec_decode_tokens : list (ref * list Z);
  scheduled_encoder_inputs : list (ref * list Z)
}.

Record Pass (Q : Type) := mkPass {
  req_index : Z;
  token_budget : Z;
  encoder_compute_budget : Z;
  picked : Picked;
  shares : Shares;
  prefill_scheduled : bool;
  scheduled_loras : gset Z;
  step_skipped_waiting : Q
}.
Arguments mkPass {Q}. Arguments req_index {Q}. Arguments token_budget {Q}.
Arguments encoder_compute_budget {Q}. Arguments picked {Q}. Arguments shares {Q}.
Arguments prefill_scheduled {Q}. Arguments scheduled_loras {Q}. Arguments step_skipped_waiting {Q}.

Section PassAssignments.
Context {Q : Type}.
Implicit Types p : Pass Q.
Definition set_index (i : Z) p : Pass Q :=
  mkPass i (token_budget p) (encoder_compute_budget p) (picked p) (shares p) (prefill_scheduled p)
    (scheduled_loras p) (step_skipped_waiting p).
Definition set_budgets (tokens encoder : Z) p : Pass Q :=
  mkPass (req_index p) tokens encoder (picked p) (shares p) (prefill_scheduled p)
    (scheduled_loras p) (step_skipped_waiting p).
Definition set_picked (x : Picked) p : Pass Q :=
  mkPass (req_index p) (token_budget p) (encoder_compute_budget p) x (shares p) (prefill_scheduled p)
    (scheduled_loras p) (step_skipped_waiting p).
Definition set_shares (x : Shares) p : Pass Q :=
  mkPass (req_index p) (token_budget p) (encoder_compute_budget p) (picked p) x (prefill_scheduled p)
    (scheduled_loras p) (step_skipped_waiting p).
Definition set_prefill (b : bool) p : Pass Q :=
  mkPass (req_index p) (token_budget p) (encoder_compute_budget p) (picked p) (shares p) b
    (scheduled_loras p) (step_skipped_waiting p).
Definition set_loras (l : gset Z) p : Pass Q :=
  mkPass (req_index p) (token_budget p) (encoder_compute_budget p) (picked p) (shares p) (prefill_scheduled p)
    l (step_skipped_waiting p).
Definition set_skipped (q : Q) p : Pass Q :=
  mkPass (req_index p) (token_budget p) (encoder_compute_budget p) (picked p) (shares p) (prefill_scheduled p)
    (scheduled_loras p) q.
End PassAssignments.

(** Additions to the lists. *)
Definition pick_running (r : ref) (x : Picked) : Picked :=
  mkPicked (scheduled_new_reqs x) (scheduled_resumed_reqs x) (scheduled_running_reqs x ++ [r]) (preempted_reqs x).
Definition pick_preempted (r : ref) (x : Picked) : Picked :=
  mkPicked (scheduled_new_reqs x) (scheduled_resumed_reqs x) (scheduled_running_reqs x) (preempted_reqs x ++ [r]).
Definition pick_new (r : ref) (x : Picked) : Picked :=
  mkPicked (scheduled_new_reqs x ++ [r]) (scheduled_resumed_reqs x) (scheduled_running_reqs x) (preempted_reqs x).
Definition pick_resumed (r : ref) (x : Picked) : Picked :=
  mkPicked (scheduled_new_reqs x) (scheduled_resumed_reqs x ++ [r]) (scheduled_running_reqs x) (preempted_reqs x).
Definition unpick_running (rs : list ref) (x : Picked) : Picked :=
  mkPicked (scheduled_new_reqs x) (scheduled_resumed_reqs x) rs (preempted_reqs x).

(** Assignments to the dicts, and a request's entries taken out of all of them. *)
Definition share_tokens (r : ref) (blocks : KVCacheBlocks) (n : Z) (x : Shares) : Shares :=
  mkShares (od_set r blocks (req_to_new_blocks x)) (od_set r n (num_scheduled_tokens x))
    (scheduled_spec_decode_tokens x) (scheduled_encoder_inputs x).
Definition share_spec (r : ref) (ids : list Z) (x : Shares) : Shares :=
  mkShares (req_to_new_blocks x) (num_scheduled_tokens x) (od_set r ids (scheduled_spec_decode_tokens x))
    (scheduled_encoder_inputs x).
Definition share_inputs (r : ref) (inputs : list Z) (x : Shares) : Shares :=
  mkShares (req_to_new_blocks x) (num_scheduled_tokens x) (scheduled_spec_decode_tokens x)
    (od_set r inputs (scheduled_encoder_inputs x)).
Definition unshare (r : ref) (x : Shares) : Shares :=
  mkShares (od_del r (req_to_new_blocks x)) (od_del r (num_scheduled_tokens x))
    (od_del r (scheduled_spec_decode_tokens x)) (od_del r (scheduled_encoder_inputs x)).

(** * Choices that only read a request *)

(** The key of [max(self.running, key=...)], and the first maximum. *)
Definition key_lt (a b : Request) : bool :=
  if bool_decide (priority a <> priority b) then priority a <? priority b
  else bool_decide (Qclt (arrival_time a) (arrival_time b)).
Definition py_max (lt : ref -> ref -> bool) (best : ref) (rs : list ref) : ref :=
  fold_left (fun best r => if lt best r then r else best) rs best.

(** Reasons to leave a running request out of this step. *)
Definition certainly_finished (q : SReq) : bool :=
  (0 <? num_output_placeholders q) &&
  (num_prompt_tokens (req q) + max_tokens (req q)
     <=? num_computed_tokens (req q) + 2 - num_output_placeholders q).
Definition left_out (step : Z) (defer_prefills : bool) (q : SReq) : bool :=
  certainly_finished q || (step <? next_decode_eligible_step q) || (defer_prefills && is_prefill_chunk q).

(** The tokens of a running request before the encoder and the Mamba split. *)
Definition running_tokens (c : SchedConfig) (threshold budget : Z) (q : SReq) : Z :=
  let n := num_tokens_with_spec (req q) + num_output_placeholders q - num_computed_tokens (req q) in
  let n := if (0 <? threshold) && (threshold <? n) then threshold else n in
  let n := Z.min n budget in
  Z.min n (max_model_len c - num_computed_tokens (req q) - num_sampled_tokens_per_step c).

(** The draft tokens a running request gets scheduled. *)
Definition scheduled_spec (q : SReq) (num_new_tokens : Z) : list Z :=
  let n := num_new_tokens + num_computed_tokens (req q) - num_tokens (req q) - num_output_placeholders q in
  if 0 <? n then (if n <? zlen (spec_token_ids (req q)) then py_upto (spec_token_ids (req q)) n
                  else spec_token_ids (req q))
  else [].

Definition lora_id (q : SReq) : option Z := lora_int_id <$> lora_request (req q).

Section Schedule.
Context `{PoolEnv} `{GroupManager M} `{EncoderCache E} `{RequestQueue Q} `{KVConnector C}.
Local Abbreviation sched := (Scheduler M E Q C).
Local Abbreviation step := (Scheduler M E Q C * Pass Q)%type.
Implicit Types (r : ref) (p : Pass Q).

(** * Access *)

Definition on_sched {A} (m : prog sched A) : prog step A := zoom fst (fun s t => (s, t.2)) m.
Definition the_pass : prog step (Pass Q) := gets snd.
Definition the_sched : prog step sched := gets fst.
Definition on_pass (f : Pass Q -> Pass Q) : prog step unit := modify (fun t => (t.1, f t.2)).
Definition on_picked (f : Picked -> Picked) : prog step unit := on_pass (fun p => set_picked (f (picked p)) p).
Definition on_shares (f : Shares -> Shares) : prog step unit := on_pass (fun p => set_shares (f (shares p)) p).
(** A lookup of the program's own. *)
Definition own {S A} (r : result A) : prog S A := fun s =>
  match r with Ok a => Ret a s | Raise e => Fail Own e end.

(** [req_index += 1]. *)
Definition next_index : prog step unit := on_pass (fun p => set_index (req_index p + 1) p).

(** The encoder inputs of a step that starts after [computed] tokens; without
    inputs of its own a request is not looked at. *)
Definition plan_encoder r (computed num_new_tokens : Z) : prog step (list Z * Z * Z) :=
  let* s := the_sched in
  let* p := the_pass in
  let c := config s in
  let rq := request_of s r in
  if has_encoder_inputs rq then
    on_sched (on_encoder (fun e =>
      '(inputs, n, budget, e) ← try_schedule_encoder_inputs (is_encoder_decoder c) (disable_chunked_mm_input c)
        rq computed (if sched_use_eagle c then 1 else 0) num_new_tokens (encoder_compute_budget p) e;
      Ok ((inputs, n, budget), e)))
  else ret ([], num_new_tokens, encoder_compute_budget p).

(** The end of both loops' bodies: the inputs are recorded and allocated. *)
Definition allocate_encoder_inputs r (inputs : list Z) (new_encoder_compute_budget : Z) : prog step unit :=
  when (negb (zlen inputs =? 0))
    (on_shares (share_inputs r inputs) ;;
     let* s := the_sched in
     on_sched (on_encoder (silently (allocate_inputs (request_of s r) inputs))) ;;
     on_pass (fun p => set_budgets (token_budget p) new_encoder_compute_budget p)).

(** * The running requests *)

(** The victim of a preemption leaves [self.running], and its share of this step
    is given back. *)
Definition take_back r : prog step unit :=
  let* s := the_sched in
  let* p := the_pass in
  let x := picked p in
  if bool_decide (r ∈ scheduled_running_reqs x) then
    let* rs := own (py_remove r (scheduled_running_reqs x)) in
    on_picked (unpick_running rs) ;;
    let* n := own (or_raise KeyError (od_get r (num_scheduled_tokens (shares p)))) in
    let* _ := own (or_raise KeyError (od_get r (req_to_new_blocks (shares p)))) in
    let* restored := call (sum_results (get_num_encoder_embeds (request_of s r))
      (default [] (od_get r (scheduled_encoder_inputs (shares p))))) in
    on_shares (unshare r) ;;
    on_pass (fun p => set_index (req_index p - 1)
                        (set_budgets (token_budget p + n) (encoder_compute_budget p + restored) p))
  else ret tt.

Definition pick_victim : prog step ref :=
  let* s := the_sched in
  match rq_policy (Q := Q), running (queues s) with
  | _, [] => raise IndexError
  | PRIORITY, r :: rs =>
      let victim := py_max (fun a b => key_lt (request_of s a) (request_of s b)) r rs in
      let* rs := own (py_remove victim (r :: rs)) in
      on_sched (modify (set_running rs)) ;;
      take_back victim ;;
      ret victim
  | FCFS, (r :: rs) as l =>
      on_sched (modify (set_running (removelast l))) ;;
      ret (List.last l r)
  end.

(** The [while True] loop: allocate, or preempt and try again. Each round takes a
    request out of [self.running]. *)
Fixpoint allocate_or_preempt (fuel : nat) r (num_new_tokens : Z) : prog step (option KVCacheBlocks) :=
  match fuel with
  | O => raise Diverges
  | S fuel =>
      let* s := the_sched in
      let* answer := on_sched (on_kv (fun k =>
        '(new_blocks, rq, k) ← allocate_slots (request_of s r) num_new_tokens 0 None
          (num_lookahead_tokens (config s)) 0 false 0 false 0 true k;
        Ok ((new_blocks, rq), k))) in
      let '(new_blocks, rq) := answer in
      on_sched (update_request r (with_req rq)) ;;
      match new_blocks with
      | Some blocks => ret (Some blocks)
      | None =>
          let* victim := pick_victim in
          on_sched (preempt_request (requires_kv_delivery (config s)) victim) ;;
          on_picked (pick_preempted victim) ;;
          if decide (victim = r) then ret None else allocate_or_preempt fuel r num_new_tokens
      end
  end.

(** A running request has its blocks: it is scheduled. *)
Definition schedule_running r (num_new_tokens : Z) (blocks : KVCacheBlocks) (inputs : list Z)
    (new_encoder_compute_budget : Z) : prog step unit :=
  on_picked (pick_running r) ;;
  let* s := the_sched in
  let q := objects s r in
  on_pass (fun p => set_prefill (prefill_scheduled p || is_prefill_chunk q) p) ;;
  on_shares (share_tokens r blocks num_new_tokens) ;;
  on_pass (fun p => set_budgets (token_budget p - num_new_tokens) (encoder_compute_budget p) p) ;;
  next_index ;;
  when (negb (zlen (spec_token_ids (req q)) =? 0))
    (let spec := scheduled_spec q num_new_tokens in
     when (negb (zlen spec =? 0)) (on_shares (share_spec r spec)) ;;
     on_sched (update_request r (on_req (set_spec [])))) ;;
  allocate_encoder_inputs r inputs new_encoder_compute_budget.

(** The body of the loop over [self.running]. *)
Definition running_body (threshold : Z) (defer_prefills : bool) : prog step unit :=
  let* s := the_sched in
  let* p := the_pass in
  let c := config s in
  let* r := own (py_index (running (queues s)) (req_index p)) in
  let q := objects s r in
  if left_out (current_step s) defer_prefills q then next_index ;; continue_ else
  let n := running_tokens c threshold (token_budget p) q in
  let* plan := plan_encoder r (num_computed_tokens (req q)) n in
  let '(inputs, n, new_budget) := plan in
  let n := if need_mamba_block_aligned_split c
           then mamba_block_aligned_split (split_config c) (req q) n 0 0 else n in
  if n =? 0 then next_index ;; continue_ else
  let* new_blocks := allocate_or_preempt (S (length (running (queues s)))) r n in
  match new_blocks with
  | None => break_
  | Some blocks => schedule_running r n blocks inputs new_budget
  end.

Definition more_running (t : step) : bool :=
  (req_index t.2 <? zlen (running (queues t.1))) && (0 <? token_budget t.2).

(** Every round advances [req_index] or shortens [self.running] (or both), so one
    round per running request and one more are enough. *)
Definition running_loop (threshold : Z) (defer_prefills : bool) : prog step unit :=
  fun t => while_ (S (length (running (queues t.1)))) more_running
             (running_body threshold defer_prefills) t.

(** [if self.lora_config: scheduled_loras = ...]. *)
Definition record_loras : prog step unit :=
  let* s := the_sched in
  let* p := the_pass in
  match max_loras (config s) with
  | None => ret tt
  | Some max =>
      let ids := list_to_set (filter (fun i => 0 < i)
        (omap (fun r => lora_id (objects s r)) (scheduled_running_reqs (picked p)))) : gset Z in
      on_pass (set_loras ids) ;;
      check (Z.of_nat (size ids) <=? max)
  end.

(** * The waiting requests *)

(** [request_queue.pop_request()] and [step_skipped_waiting.prepend_request]. *)
Definition skip_request (w : Which) r : prog step unit :=
  let* _ := on_sched (on_queue w pop_request) in
  let* s := the_sched in
  let* p := the_pass in
  let* q := call (prepend_request (order_of s) r (step_skipped_waiting p)) in
  on_pass (set_skipped q).

(** The LoRA of the request would exceed [max_loras]. *)
Definition exceeds_loras (c : SchedConfig) p (q : SReq) : bool :=
  match max_loras c, lora_id q with
  | Some max, Some id =>
      (Z.of_nat (size (scheduled_loras p)) =? max) && negb (bool_decide (id ∈ scheduled_loras p))
  | _, _ => false
  end.

(** What the lookups of a waiting request find. *)
Record Lookup := mkLookup {
  lk_blocks : KVCacheBlocks;
  lk_local : Z;
  lk_external : Z;
  lk_computed : Z;
  lk_async : bool
}.

(** A lookup in the local cache; the request learns its [shared_prefix_boundary]. *)
Definition local_lookup r : prog step (KVCacheBlocks * Z) :=
  let* s := the_sched in
  let* answer := on_sched (on_kv (fun k =>
    '(blocks, n, boundary, rq, k) ← get_computed_blocks (request_of s r) (report_full (objects s r)) k;
    Ok ((blocks, n, boundary, rq), k))) in
  let '(blocks, n, boundary, rq) := answer in
  on_sched (update_request r (with_req (set_boundary boundary rq))) ;;
  ret (blocks, n).

(** The same for a connector, and whether the groups' hits diverged. *)
Definition diverging_lookup r : prog step (KVCacheBlocks * Z * bool) :=
  let* s := the_sched in
  let* answer := on_sched (on_kv (fun k =>
    '(blocks, n, boundary, diverged, rq, k) ←
      get_computed_blocks_for_connector (request_of s r) (report_full (objects s r)) k;
    Ok ((blocks, n, boundary, diverged, rq), k))) in
  let '(blocks, n, boundary, diverged, rq) := answer in
  on_sched (update_request r (with_req (set_boundary boundary rq))) ;;
  ret (blocks, n, diverged).

(** [truncate_computed_blocks], which changes nothing. *)
Definition truncated (blocks : KVCacheBlocks) (n : Z) : prog step KVCacheBlocks :=
  let* s := the_sched in call (truncate_computed_blocks blocks n (kv_cache_manager s)).

(** The lookups of a request without computed tokens. A connector that cannot
    answer yet makes the request wait ([continue]). *)
Definition connector_lookup (w : Which) (c : C) r : prog step (KVCacheBlocks * Z * Z * bool) :=
  let* found := diverging_lookup r in
  let '(blocks, local, diverged) := found in
  let* s := the_sched in
  let partial_tail := local mod sched_block_size (config s) in
  let block_aligned_local := local - partial_tail in
  let* answer := on_sched (on_connector c
    (kc_get_num_new_matched_tokens (request_of s r) block_aligned_local)) in
  match answer with
  | (None, _) => skip_request w r ;; continue_
  | (Some ext_tokens, load_kv_async) =>
      let* trimmed :=
        (if negb (partial_tail =? 0) && (partial_tail <? ext_tokens) then
           let* blocks := truncated blocks block_aligned_local in
           ret (blocks, block_aligned_local, ext_tokens, load_kv_async)
         else if negb (partial_tail =? 0) then ret (blocks, local, 0, false)
         else ret (blocks, local, ext_tokens, load_kv_async)) in
      let '(blocks, local, external, load_kv_async) := trimmed in
      if diverged && (external =? 0) then
        let* again := local_lookup r in
        ret (again.1, again.2, external, load_kv_async)
      else ret (blocks, local, external, load_kv_async)
  end.

Definition find_computed (w : Which) r : prog step Lookup :=
  let* s := the_sched in
  let q := objects s r in
  if num_computed_tokens (req q) =? 0 then
    let* found :=
      (match connector s with
       | None => let* l := local_lookup r in ret (l.1, l.2, 0, false)
       | Some c => connector_lookup w c r
       end) in
    let '(blocks, local, external, load_kv_async) := found in
    let num_computed_tokens := local + external in
    let* s := the_sched in
    let q := objects s r in
    check (num_computed_tokens <=? num_tokens (req q)) ;;
    when (has_prefill_stats q && (num_preemptions (req q) <=? 0))
      (check (num_computed_tokens <=? num_prompt_tokens (req q))) ;;
    ret (mkLookup blocks local external num_computed_tokens load_kv_async)
  else ret (mkLookup EmptyBlocks 0 0 (num_computed_tokens (req q)) false).

(** A single-token decode joins a batch of decodes: its drafts are padded. *)
Definition pads_spec_decode (c : SchedConfig) p (num_new_tokens : Z) : bool :=
  (0 <? num_spec_tokens c) && match dynamic_sd_lookup c with None => true | Some _ => false end &&
  (0 <? num_sampled_tokens_per_step c) && (num_new_tokens =? 1) &&
  negb (zlen (scheduled_running_reqs (picked p)) =? 0) && negb (prefill_scheduled p).

(** The tokens of a waiting request, and whether its drafts are padded; [break]
    where the code breaks. *)
Definition waiting_tokens (threshold : Z) r (num_computed_tokens : Z) : prog step (Z * bool) :=
  let* s := the_sched in
  let* p := the_pass in
  let c := config s in
  let n := num_tokens (request_of s r) - num_computed_tokens in
  let pad := pads_spec_decode c p n in
  let n := if pad then 1 + num_spec_tokens c else n in
  if pad && ((token_budget p <? n) || (max_model_len c <? num_computed_tokens + n)) then break_ else
  let n := if (0 <? threshold) && (threshold <? n) then threshold else n in
  if negb (enable_chunked_prefill c) && (token_budget p <? n) then break_ else
  let n := Z.min n (token_budget p) in
  check (0 <? n) ;;
  ret (n, pad).

(** The work of this step for a waiting request: tokens, padding, encoder inputs
    and the encoder budget left. *)
Definition plan_waiting (threshold : Z) (defer_prefills : bool) r (l : Lookup)
    : prog step (Z * bool * list Z * Z) :=
  let* s := the_sched in
  let* p := the_pass in
  let c := config s in
  let* planned :=
    (if lk_async l then
       check (0 <? lk_external l) ;; ret (0, false, [], encoder_compute_budget p)
     else if defer_prefills && (lk_computed l <? num_tokens (request_of s r) - 1) then break_
     else
       let* tokens := waiting_tokens threshold r (lk_computed l) in
       let* plan := plan_encoder r (lk_computed l) tokens.1 in
       let '(inputs, n, new_budget) := plan in
       if has_encoder_inputs (request_of s r) && (n =? 0) then break_
       else ret (n, tokens.2, inputs, new_budget)) in
  let '(n, pad, inputs, new_budget) := planned in
  if need_mamba_block_aligned_split c && negb (lk_async l) then
    let n := mamba_block_aligned_split (split_config c) (request_of s r) n (lk_local l) (lk_external l) in
    if n =? 0 then break_ else ret (n, pad, inputs, new_budget)
  else ret (n, pad, inputs, new_budget).

(** [allocate_slots] for a waiting request; [break] when it does not fit. *)
Definition allocate_waiting r (l : Lookup) (n : Z) (inputs : list Z) : prog step unit :=
  let* s := the_sched in
  let c := config s in
  let rq := request_of s r in
  let lookahead := if lk_async l && (0 <? num_lookahead_tokens c) then 0 else num_lookahead_tokens c in
  let* num_encoder_tokens :=
    (if is_encoder_decoder c && has_encoder_inputs rq
     then call (sum_results (get_num_encoder_embeds rq) inputs) else ret 0) in
  let* reserved_blocks := call (inflight_prefill_reserved_blocks s) in
  let* answer := on_sched (on_kv (fun k =>
    '(new_blocks, rq, k) ← allocate_slots rq n (lk_local l) (Some (lk_blocks l)) lookahead (lk_external l)
      (lk_async l) num_encoder_tokens (scheduler_reserve_full_isl c) reserved_blocks
      (negb (zlen (running (queues s)) =? 0)) k;
    Ok ((new_blocks, rq), k))) in
  let '(new_blocks, rq) := answer in
  on_sched (update_request r (with_req rq)) ;;
  match new_blocks with
  | Some _ => ret tt
  | None =>
      when (has_encoder_inputs rq) (on_sched (on_encoder (silently (ec_free rq)))) ;;
      break_
  end.

(** The connector learns what was allocated. *)
Definition tell_connector r (l : Lookup) : prog step unit :=
  let* s := the_sched in
  match connector s with
  | None => ret tt
  | Some c =>
      on_sched (on_connector c (fun c =>
        c ← kc_update_state_after_alloc (request_of s r)
          (blocks_in (num_kv_cache_groups (kv_cache_manager s))
             (kv_get_blocks (request_id (request_of s r)) (kv_cache_manager s))) (lk_external l) c;
        Ok (tt, c)))
  end.

(** An asynchronous load: the request waits for it. *)
Definition await_load r (l : Lookup) : prog step unit :=
  on_sched (update_request r (on_req (set_status WAITING_FOR_REMOTE_KVS))) ;;
  let* s := the_sched in
  let* p := the_pass in
  let* q := call (prepend_request (order_of s) r (step_skipped_waiting p)) in
  on_pass (set_skipped q) ;;
  on_sched (update_request r (on_req (set_computed (lk_computed l)))) ;;
  on_sched (on_inflight (fun i => {[r]} ∪ i)) ;;
  when (needs_kv_cache_zeroing (config s))
    (on_sched (on_notices (fun n => with_skip_zero
       (skip_zero_block_ids n ∪ list_to_set (get_zeroing_block_ids_in_range (request_id (request_of s r))
          (lk_local l) (lk_computed l) (kv_cache_manager s))) n))).

(** The request starts to run. *)
Definition start_running r (l : Lookup) (n : Z) (pad : bool) (inputs : list Z)
    (new_encoder_compute_budget : Z) : prog step unit :=
  on_sched (modify (fun s => set_running (running (queues s) ++ [r]) s)) ;;
  let* s := the_sched in
  let q := objects s r in
  match status (req q) with
  | WAITING => on_picked (pick_new r)
  | PREEMPTED => on_picked (pick_resumed r)
  | _ => raise RuntimeError
  end ;;
  match max_loras (config s), lora_id q with
  | Some _, Some id => on_pass (fun p => set_loras ({[id]} ∪ scheduled_loras p) p)
  | _, _ => ret tt
  end ;;
  on_shares (share_tokens r (kv_get_blocks (request_id (req q)) (kv_cache_manager s)) n) ;;
  on_pass (fun p => set_budgets (token_budget p - n) (encoder_compute_budget p) p) ;;
  on_sched (update_request r (on_req (fun rq => set_computed (lk_computed l) (set_status RUNNING rq)))) ;;
  when pad (on_shares (share_spec r (replicate (Z.to_nat (num_spec_tokens (config s))) (-1)))) ;;
  when (lk_computed l + n <? num_tokens (req q)) (on_sched (on_inflight (fun i => {[r]} ∪ i))) ;;
  allocate_encoder_inputs r inputs new_encoder_compute_budget.

(** The body of the loop over the waiting requests. *)
Definition waiting_body (threshold : Z) (defer_prefills : bool) : prog step unit :=
  let* s := the_sched in
  let* p := the_pass in
  let c := config s in
  if max_num_running_reqs c <=? zlen (running (queues s)) + num_waiting_for_streaming_input s
  then break_ else
  let* selected := on_sched select_waiting_queue_for_scheduling in
  match selected with
  | None => raise AssertionError
  | Some w =>
      let* r := call (peek_request (queue_of w s)) in
      let* promoted :=
        (if is_blocked_waiting_status (status (request_of s r))
         then on_sched (try_promote_blocked_waiting_request r) else ret true) in
      if negb promoted then skip_request w r ;; continue_ else
      let* s := the_sched in
      let q := objects s r in
      if (0 <? num_stale_output_tokens q) && negb (drop_stale_output q)
      then skip_request w r ;; continue_ else
      if exceeds_loras c p q then skip_request w r ;; continue_ else
      let* l := find_computed w r in
      let* planned := plan_waiting threshold defer_prefills r l in
      let '(n, pad, inputs, new_budget) := planned in
      allocate_waiting r l n inputs ;;
      tell_connector r l ;;
      let* r := on_sched (on_queue w pop_request) in
      if lk_async l then await_load r l ;; continue_
      else start_running r l n pad inputs new_budget
  end.

Definition more_waiting (t : step) : bool :=
  (rq_bool (queue_of Waiting t.1) || rq_bool (queue_of Skipped t.1)) && (0 <? token_budget t.2).

(** Every round takes a request out of a waiting queue. *)
Definition waiting_loop (threshold : Z) (defer_prefills : bool) : prog step unit :=
  fun t => while_ (S (Z.to_nat (rq_len (queue_of Waiting t.1) + rq_len (queue_of Skipped t.1)))) more_waiting
             (waiting_body threshold defer_prefills) t.

(** The waiting part of a step: skipped requests come back in front of the older
    skipped ones. *)
Definition schedule_waiting (threshold : Z) (defer_prefills : bool) : prog step unit :=
  let* s := the_sched in
  let* p := the_pass in
  when ((zlen (preempted_reqs (picked p)) =? 0) && bool_decide (pause_state s = UNPAUSED))
    (waiting_loop threshold defer_prefills ;;
     let* p := the_pass in
     when (rq_bool (step_skipped_waiting p))
       (on_sched (on_queue Skipped (without_answer (fun lt =>
          prepend_requests lt (step_skipped_waiting p))))) ;;
     when (negb defer_prefills)
       (on_sched (modify (fun s => set_counters (num_waiting_for_streaming_input s) (current_step s)
          (rq_bool (queue_of Waiting s)) (pause_state s) s)))).

(** * The end of the step *)

(** The parts of [SchedulerOutput] that are computed here. *)
Record SchedulerOutput := mkOutput {
  out_picked : Picked;
  out_shares : Shares;
  total_num_scheduled_tokens : Z;
  num_common_prefix_blocks : list Z;
  out_finished_req_ids : gset ref;
  out_preempted_req_ids : gset ref;
  free_encoder_mm_hashes : list mm_hash;
  new_block_ids_to_zero : option (list Z);
  kv_cache_block_copies : list (Z * Z);
  partial_tail_offloads : gmap string (list (Z * Z * Z));
  num_spec_tokens_to_schedule : Z
}.

Definition sum_shares (d : list (ref * Z)) : Z := foldr (fun e acc => e.2 + acc) 0 d.

(** [_get_new_block_ids_to_zero]. *)
Definition get_new_block_ids_to_zero : prog sched (option (list Z)) :=
  let* ids := on_kv (fun k => Ok (kv_take_new_block_ids k)) in
  let* c := the_config in
  if negb (needs_kv_cache_zeroing c) then ret None else
  let* n := gets notices in
  let ids := filter (fun i => i ∉ skip_zero_block_ids n) ids in
  on_notices (with_skip_zero ∅) ;;
  ret (if zlen ids =? 0 then None else Some ids).

(** [Scheduler._update_after_schedule] for one request. *)
Definition after_schedule (d : ref * Z) : prog sched unit :=
  let '(r, num_scheduled_token) := d in
  update_request r (fun q =>
    on_req (fun rq => set_in_flight (num_in_flight_tokens rq + num_scheduled_token)
                        (set_computed (num_computed_tokens rq + num_scheduled_token) rq)) q) ;;
  let* c := the_config in
  let* f := gets fences in
  update_request r (fun q =>
    with_chunk (num_computed_tokens (req q) <? num_tokens (req q) + num_output_placeholders q)
      (next_decode_eligible_step q)
      (if defer_block_free c then sched_step_seq f else last_sched_seq q) q) ;;
  let* q := the_request r in
  when (negb (is_prefill_chunk q)) (on_inflight (fun i => i ∖ {[r]})).

(** The override of [AsyncScheduler] for one request. *)
Definition after_schedule_async (out : SchedulerOutput) (d : ref * Z) : prog sched unit :=
  let r := d.1 in
  let* q := the_request r in
  let* c := the_config in
  let* step := gets current_step in
  if is_prefill_chunk q then ret tt else
  let cur_num_spec_tokens := zlen (default [] (od_get r (scheduled_spec_decode_tokens (out_shares out)))) in
  update_request r (fun q =>
    on_req (set_spec (replicate (Z.to_nat (num_spec_tokens_to_schedule out)) (-1)))
      (with_placeholders (num_output_placeholders q + num_sampled_tokens_per_step c + cur_num_spec_tokens) q)) ;;
  when (use_v2_model_runner c)
    (update_request r (fun q => with_chunk (is_prefill_chunk q) (step + pp_size c) (last_sched_seq q) q)).

(** [_update_after_schedule]. *)
Definition update_after_schedule (out : SchedulerOutput) : prog sched unit :=
  let shares := num_scheduled_tokens (out_shares out) in
  for_in after_schedule shares ;;
  on_notices clear_step_notes ;;
  let* c := the_config in
  when (is_async c) (for_in (after_schedule_async out) shares).

(** The checks of the scheduling constraints. *)
Definition check_constraints : prog step Z :=
  let* s := the_sched in
  let* p := the_pass in
  let c := config s in
  let x := picked p in
  let total := sum_shares (num_scheduled_tokens (shares p)) in
  check (total <=? max_num_scheduled_tokens c) ;;
  check (0 <=? token_budget p) ;;
  check (zlen (running (queues s)) <=? max_num_running_reqs c) ;;
  check (zlen (scheduled_new_reqs x) + zlen (scheduled_resumed_reqs x) + zlen (scheduled_running_reqs x)
           <=? zlen (running (queues s))) ;;
  ret total.

(** From the checked constraints to the output. *)
Definition make_output (total : Z) p : prog sched SchedulerOutput :=
  let* c := the_config in
  let* rs := gets (fun s => running (queues s)) in
  let* groups := gets (fun s => num_kv_cache_groups (kv_cache_manager s)) in
  let* common :=
    (match rs with
     | [] => ret (replicate groups 0)
     | r :: _ =>
         let* q := the_request r in
         on_kv (fun k => Ok (kv_get_num_common_prefix_blocks (request_id (req q)) k))
     end) in
  let* conn := gets connector in
  let* offloads :=
    (match conn with
     | Some _ => if is_kv_producer c then on_kv take_partial_tail_offloads else ret ∅
     | None => ret ∅
     end) in
  let* copies := on_kv (fun k =>
    let '(copies, retained, k) := take_kv_cache_block_copies k in Ok ((copies, retained), k)) in
  let* f := gets fences in
  when (negb (zlen copies.1 =? 0)) (free_cow_retained_blocks copies.2 (sched_step_seq f + 1)) ;;
  let d := num_scheduled_tokens (shares p) in
  let* k :=
    (match dynamic_sd_lookup c with
     | Some lookup => if 0 <? zlen d then own (py_index lookup (zlen d)) else ret (num_spec_tokens c)
     | None => ret (num_spec_tokens c)
     end) in
  let* n := gets notices in
  let* freed_hashes := on_encoder (fun e => Ok (ec_get_freed_mm_hashes e)) in
  let* zeroed := get_new_block_ids_to_zero in
  ret (mkOutput (picked p) (shares p) total common (finished_req_ids n) (reset_preempted_req_ids n)
         freed_hashes zeroed copies.1 offloads k).

(** [self.connector.build_connector_meta]. *)
Definition build_connector_meta (out : SchedulerOutput) : prog sched unit :=
  let* conn := gets connector in
  match conn with
  | None => ret tt
  | Some c => on_connector c (fun c =>
      c ← kc_build_connector_meta (num_scheduled_tokens (out_shares out)) c; Ok (tt, c))
  end.

(** * [schedule] *)

Definition initial_pass (s : sched) : Pass Q :=
  let c := config s in
  mkPass 0 (if bool_decide (pause_state s = PAUSED_ALL) then 0 else max_num_scheduled_tokens c)
    (max_num_encoder_input_tokens c) (mkPicked [] [] [] []) (mkShares [] [] [] []) false ∅ rq_new.

(** [throttle_prefills and not self.prefill_capacity_bound and any(...)]. *)
Definition defers_prefills (throttle_prefills : bool) (s : sched) : bool :=
  throttle_prefills && negb (prefill_capacity_bound s) &&
  existsb (fun r => negb (is_prefill_chunk (objects s r))) (running (queues s)).

(** The body of [schedule] up to the checks. *)
Definition schedule_requests (throttle_prefills : bool) : prog step Z :=
  let* threshold := on_sched long_prefill_threshold in
  on_sched (on_kv (fun k => Ok (tt, kv_new_step_starts k))) ;;
  let* s := the_sched in
  let defer_prefills := defers_prefills throttle_prefills s in
  running_loop threshold defer_prefills ;;
  record_loras ;;
  schedule_waiting threshold defer_prefills ;;
  check_constraints.

Definition in_pass {A} (m : prog step A) : prog sched (A * Pass Q) := fun s =>
  match m (s, initial_pass s) with
  | Ret a (s, p) => Ret (a, p) s
  | Continue (s, _) => Continue s
  | Break (s, _) => Break s
  | Fail o e => Fail o e
  end.

Definition schedule (throttle_prefills : bool) : prog sched SchedulerOutput :=
  modify (fun s => set_counters (num_waiting_for_streaming_input s) (current_step s + 1)
                     (prefill_capacity_bound s) (pause_state s) s) ;;
  let* done := in_pass (schedule_requests throttle_prefills) in
  let '(total, p) := done in
  let* out := make_output total p in
  build_connector_meta out ;;
  let* c := the_config in
  when (defer_block_free c && (0 <? total))
    (on_fences (fun f => mkFences (sched_step_seq f + 1) (processed_step_seq f) (deferred_frees f))) ;;
  update_after_schedule out ;;
  ret out.
End Schedule.
