(* ===== verification/SchedOutput.v ===== *)
(** What happens to the scheduler between two calls of [schedule]: the outputs of
    the model runner ([update_from_output] of
    src/upstream/vllm/v1/core/sched/scheduler.py with the override of
    async_scheduler.py), new draft tokens, new and finished requests, resets.

    Of an output, the sampled tokens, the presence of a pooler output and the
    signals of the KV connector are modelled; what is sent to the clients is not.
    The structured output manager is a parameter: [rejects] says that its grammar
    refuses the new tokens of a request, [validated] which draft tokens it
    keeps. *)
From S2P Require Import Prelude FreeQueue Request BlockHash BlockPool EncoderCache CacheHit SingleType GroupManager Coordinator KVCacheManager KVLifecycle RequestQueue ChunkPlan EncoderPlan SchedMonad SchedState SchedOps Schedule.
Open Scope Z_scope.

(** [ModelRunnerOutput]. *)
Record RunnerOutput := mkRunner {
  req_id_to_index : list (ref * Z);
  sampled_token_ids : list (list Z);
  pooler_outputs : list bool;                (** [pooler_outputs[i] is not None] *)
  invalid_block_ids : list Z;
  finished_recving : list ref;
  finished_sending : list ref
}.

(** What the loop over the scheduled requests collects. *)
Record Stopped := mkStopped {
  stopped_running_reqs : list ref;
  stopped_preempted_reqs : list ref
}.

Section Output.
Context `{PoolEnv} `{SetOrder} `{GroupManager M} `{EncoderCache E} `{RequestQueue Q} `{KVConnector C}.
Variable hasher : option block_hasher.
Variable rejects : SReq -> list Z -> bool.
Variable validated : SReq -> list Z -> list Z.
Variable recompute_kv_load_failures : bool.
Local Abbreviation sched := (Scheduler M E Q C).
Local Abbreviation loop := (Scheduler M E Q C * Stopped)%type.
Implicit Types (r : ref).

(** * Tokens of one request *)

(** [_update_request_with_output] of both schedulers: whether the request stopped. *)
Definition update_request_tokens r (new_token_ids : list Z) (is_stale : bool)
    : prog sched (list Z * bool) :=
  let* q := the_request r in
  let* c := the_config in
  let status_before_update := status (req q) in
  let* answer := call (update_request_with_output hasher (max_model_len c) (req q) new_token_ids) in
  let '(kept, stopped, rq) := answer in
  update_request r (with_req rq) ;;
  when (is_async c)
    (when (negb is_stale)
       (update_request r (fun q => with_placeholders (num_output_placeholders q - zlen kept) q) ;;
        let* q := the_request r in
        check (0 <=? num_output_placeholders q)) ;;
     when (bool_decide (status_before_update = RUNNING))
       (let* q := the_request r in
        on_kv_request r (fun rq => kv_cache_blocks rq (num_computed_tokens rq - num_output_placeholders q)))) ;;
  ret (kept, stopped).

(** [request is not None]: an output's request may be gone. *)
Definition is_known r (s : sched) : bool := bool_decide (r ∈ requests s).

(** The shares of the step leave the counters; whether the output is stale. *)
Definition drain_counters (d : ref * Z) : prog sched bool :=
  let '(r, num_tokens_scheduled) := d in
  check (0 <? num_tokens_scheduled) ;;
  let* known := gets (is_known r) in
  if negb known then ret false else
  update_request r (fun q => on_req (fun rq => set_in_flight (num_in_flight_tokens rq - num_tokens_scheduled) rq) q) ;;
  let* q := the_request r in
  if 0 <? num_stale_output_tokens q then
    update_request r (fun q => with_stale (num_stale_output_tokens q - num_tokens_scheduled) (drop_stale_output q) q) ;;
    let* q := the_request r in
    check (0 <=? num_stale_output_tokens q) ;;
    ret true
  else ret false.

(** Draft tokens that were rejected are taken back. *)
Definition take_back_rejected r (scheduled generated : list Z) (output_is_stale : bool) : prog sched unit :=
  let* c := the_config in
  if negb (zlen scheduled =? 0) && (negb (zlen generated =? 0) || (num_sampled_tokens_per_step c =? 0)) then
    let num_accepted := Z.max (zlen generated - num_sampled_tokens_per_step c) 0 in
    let num_rejected := zlen scheduled - num_accepted in
    when (negb output_is_stale)
      (update_request r (fun q =>
         if 0 <? num_computed_tokens (req q)
         then on_req (set_computed (num_computed_tokens (req q) - num_rejected)) q else q) ;;
       update_request r (fun q =>
         if 0 <? num_output_placeholders q
         then with_placeholders (num_output_placeholders q - num_rejected) q else q))
  else ret tt.

(** The encoder inputs behind the processed tokens. *)
Definition free_processed_inputs r : prog sched unit :=
  let* q := the_request r in
  let* c := the_config in
  when (has_encoder_inputs (req q))
    (on_encoder (silently (free_encoder_inputs (is_encoder_decoder c) (req q) (sched_use_eagle c)
       (num_output_placeholders q)))).

(** A grammar error ends the request for good. *)
Definition advance_grammar r (new_token_ids : list Z) (stopped : bool) : prog sched bool :=
  let* q := the_request r in
  if negb (zlen new_token_ids =? 0) && rejects q new_token_ids then
    update_request r (fun q => with_resumable false (on_req (set_status FINISHED_ERROR) q)) ;;
    ret true
  else ret stopped.

(** The part of the loop's body that handles the output of a live request:
    whether it stopped, and its status before. *)
Definition process_output (out : SchedulerOutput) (run : RunnerOutput) r (output_is_stale : bool)
    : prog sched (bool * RequestStatus) :=
  let* req_index := own (or_raise KeyError (od_get r (req_id_to_index run))) in
  let* generated := own (if zlen (sampled_token_ids run) =? 0 then Ok [] else py_index (sampled_token_ids run) req_index) in
  let scheduled := default [] (od_get r (scheduled_spec_decode_tokens (out_shares out))) in
  take_back_rejected r scheduled generated output_is_stale ;;
  free_processed_inputs r ;;
  let* pooled := own (if zlen (pooler_outputs run) =? 0 then Ok false else py_index (pooler_outputs run) req_index) in
  let* q := the_request r in
  let status_before_stop := status (req q) in
  let* updated :=
    (if negb (zlen generated =? 0) then update_request_tokens r generated output_is_stale
     else if bool_decide (is_Some (pooling_params (req q))) && pooled then
       update_request r (on_req (set_status FINISHED_STOPPED)) ;; ret ([], true)
     else ret ([], false)) in
  let '(new_token_ids, stopped) := updated in
  let* stopped := advance_grammar r new_token_ids stopped in
  when (negb (zlen new_token_ids =? 0) || pooled || stopped) (update_request r without_prefill_stats) ;;
  ret (stopped, status_before_stop).

(** [if stopped:]. *)
Definition finish_stopped r : prog sched unit :=
  let* finished := handle_stopped_request hasher r in
  when finished (free_request false r).

(** * [update_from_output] *)

Definition on_loop {A} (m : prog sched A) : prog loop A := zoom fst (fun s t => (s, t.2)) m.
Definition note_stopped r (was : RequestStatus) (x : Stopped) : Stopped :=
  if bool_decide (was = RUNNING)
  then mkStopped (stopped_running_reqs x ++ [r]) (stopped_preempted_reqs x)
  else mkStopped (stopped_running_reqs x) (stopped_preempted_reqs x ++ [r]).

(** The body of the loop over [num_scheduled_tokens]. *)
Definition output_body (out : SchedulerOutput) (run : RunnerOutput) (failed : gset ref) (d : ref * Z)
    : prog loop unit :=
  let r := d.1 in
  let* output_is_stale := on_loop (drain_counters d) in
  if bool_decide (r ∈ failed) then ret tt else
  let* s := gets fst in
  if negb (is_known r s) || is_finished (request_of s r) then ret tt else
  if output_is_stale && drop_stale_output (objects s r) then ret tt else
  let* answer := on_loop (process_output out run r output_is_stale) in
  let '(stopped, was) := answer in
  when stopped
    (on_loop (finish_stopped r) ;;
     modify (fun t => (t.1, note_stopped r was t.2))).

(** [finish_requests] for a list of ids; the requests that were finished. *)
Definition to_finish (s : sched) (rs : list ref) : list ref :=
  filter (fun r => is_known r s && negb (is_finished (request_of s r)) = true) rs.

Definition finish_one (finished_status : RequestStatus) r : prog sched unit :=
  let* q := the_request r in
  let* n := gets notices in
  let waits := bool_decide (status (req q) = WAITING_FOR_REMOTE_KVS) in
  let delay_free_blocks := waits && negb (bool_decide (r ∈ finished_recving_kv_req_ids n)) in
  when waits
    (on_notices (fun n => with_recving (finished_recving_kv_req_ids n ∖ {[r]})
                            (failed_recving_kv_req_ids n ∖ {[r]}) n)) ;;
  update_request r (on_req (set_status finished_status)) ;;
  free_request delay_free_blocks r.

Definition finish_requests (ids : list ref) (finished_status : RequestStatus) : prog sched (list ref) :=
  check (status_is_finished finished_status) ;;
  let* s := gets (fun s : sched => s) in
  let valid := to_finish s ids in
  let status_of r := status (request_of s r) in
  let in_running := filter (fun r => status_of r = RUNNING) valid in
  let in_waiting := filter (fun r => status_of r <> RUNNING) valid in
  let streaming := filter (fun r => status_of r = WAITING_FOR_STREAMING_REQ) valid in
  modify (fun s => set_streaming (num_waiting_for_streaming_input s - zlen streaming) s) ;;
  when (negb (zlen in_running =? 0))
    (modify (fun s => set_running (remove_all (running (queues s)) in_running) s)) ;;
  when (negb (zlen in_waiting =? 0))
    (on_queue Waiting (without_answer (fun lt => remove_requests lt in_waiting)) ;;
     on_queue Skipped (without_answer (fun lt => remove_requests lt in_waiting))) ;;
  for_in (finish_one finished_status) valid ;;
  ret valid.

(** [_update_from_kv_xfer_finished]. *)
Definition recving_done r : prog sched unit :=
  let* s := gets (fun s : sched => s) in
  check (is_known r s) ;;
  if bool_decide (status (request_of s r) = WAITING_FOR_REMOTE_KVS)
  then on_notices (fun n => with_recving ({[r]} ∪ finished_recving_kv_req_ids n) (failed_recving_kv_req_ids n) n)
  else check (is_finished (request_of s r)) ;; free_blocks_of r.
Definition sending_done r : prog sched unit :=
  let* s := gets (fun s : sched => s) in
  check (is_known r s) ;; free_blocks_of r.

(** * Invalid blocks *)

(** [_update_requests_with_invalid_blocks] over the blocks of one request: its
    computed tokens, whether it is affected, whether it marked a block and the
    marked blocks. *)
Record Scan := mkScan {
  scan_computed : Z;
  is_affected : bool;
  marked_invalid_block : bool;
  marked_invalid_block_ids : gset Z
}.
Fixpoint scan_blocks (invalid : gset Z) (block_size : Z) (idx : Z) (ids : list Z) (x : Scan) : Scan :=
  match ids with
  | [] => x
  | id :: ids' =>
      scan_blocks invalid block_size (idx + 1) ids'
        (if bool_decide (id ∉ invalid) then x
         else if bool_decide (id ∈ marked_invalid_block_ids x)
         then mkScan (scan_computed x) true (marked_invalid_block x) (marked_invalid_block_ids x)
         else if marked_invalid_block x
         then mkScan (scan_computed x) true true ({[id]} ∪ marked_invalid_block_ids x)
         else mkScan (idx * block_size) true true ({[id]} ∪ marked_invalid_block_ids x))
  end.

(** For one request: the affected ids, the marked blocks and those to evict. *)
Definition scan_request (invalid : gset Z) (scheduled : list (ref * Z)) (evict : bool) r
    (acc : list ref * gset Z * gset Z) : prog sched (list ref * gset Z * gset Z) :=
  let '(affected, marked, to_evict) := acc in
  let* s := gets (fun s : sched => s) in
  let block_size := sched_block_size (config s) in
  let rq := request_of s r in
  match kv_get_block_ids (request_id rq) (kv_cache_manager s) with
  | [req_block_ids] =>
      let req_num_computed_tokens := num_computed_tokens rq - default 0 (od_get r scheduled) in
      let req_num_computed_blocks := (req_num_computed_tokens + block_size - 1) / block_size in
      let x := scan_blocks invalid block_size 0 (py_upto req_block_ids (Z.max 0 req_num_computed_blocks))
        (mkScan (num_computed_tokens rq) false false marked) in
      (* the first block the request marked: it and all that follow it are evicted *)
      let first := scan_computed x / block_size in
      let to_evict := if evict && marked_invalid_block x
        then list_to_set (py_from req_block_ids first) ∪ to_evict else to_evict in
      let computed := if is_affected x && negb (marked_invalid_block x)
        then req_num_computed_tokens else scan_computed x in
      update_request r (on_req (set_computed computed)) ;;
      ret (if is_affected x then affected ++ [r] else affected, marked_invalid_block_ids x, to_evict)
  | _ => raise ValueError
  end.
Fixpoint scan_requests (invalid : gset Z) (scheduled : list (ref * Z)) (evict : bool) (rs : list ref)
    (acc : list ref * gset Z * gset Z) : prog sched (list ref * gset Z * gset Z) :=
  match rs with
  | [] => ret acc
  | r :: rs' =>
      let* acc := scan_request invalid scheduled evict r acc in
      scan_requests invalid scheduled evict rs' acc
  end.

(** [_handle_invalid_blocks]: the requests whose outputs are skipped. *)
Definition handle_invalid_blocks (invalid : gset Z) (scheduled : list (ref * Z)) : prog sched (gset ref) :=
  let* s := gets (fun s : sched => s) in
  let* skipped := call (rq_iter (order_of s) (queue_of Skipped s)) in
  let async := filter (fun r => status (request_of s r) = WAITING_FOR_REMOTE_KVS) skipped in
  let* a := scan_requests invalid scheduled false async ([], ∅, ∅) in
  let* rs := gets (fun s => running (queues s)) in
  let* b := scan_requests invalid scheduled true rs ([], ∅, ∅) in
  let '(async_failed, _, _) := a in
  let '(sync_failed, _, to_evict) := b in
  if (zlen async_failed + zlen sync_failed =? 0) then ret ∅ else
  when (negb (bool_decide (to_evict = ∅)) && negb recompute_kv_load_failures)
    (on_kv (silently (kv_evict_blocks (elements to_evict)))) ;;
  if negb recompute_kv_load_failures then ret (list_to_set (async_failed ++ sync_failed)) else
  on_notices (fun n => with_recving (finished_recving_kv_req_ids n)
                         (list_to_set async_failed ∪ failed_recving_kv_req_ids n) n) ;;
  ret (list_to_set sync_failed).

(** The whole of [update_from_output]. *)
Definition count_processed (out : SchedulerOutput) : prog sched unit :=
  let* c := the_config in
  when (defer_block_free c && (0 <? total_num_scheduled_tokens out))
    (on_fences (fun f => mkFences (sched_step_seq f) (processed_step_seq f + 1) (deferred_frees f)) ;;
     drain_deferred_frees).

Definition process_outputs (out : SchedulerOutput) (run : RunnerOutput) (failed : gset ref)
    : prog sched Stopped := fun s =>
  match for_in (output_body out run failed) (num_scheduled_tokens (out_shares out)) (s, mkStopped [] []) with
  | Ret _ (s, x) => Ret x s
  | Continue (s, _) => Continue s
  | Break (s, _) => Break s
  | Fail o e => Fail o e
  end.

Definition remove_stopped (x : Stopped) : prog sched unit :=
  when (negb (zlen (stopped_running_reqs x) =? 0))
    (modify (fun s => set_running (remove_all (running (queues s)) (stopped_running_reqs x)) s)) ;;
  when (negb (zlen (stopped_preempted_reqs x) =? 0))
    (on_queue Waiting (without_answer (fun lt => remove_requests lt (stopped_preempted_reqs x))) ;;
     on_queue Skipped (without_answer (fun lt => remove_requests lt (stopped_preempted_reqs x)))).

(** [self.kv_cache_manager.take_events()]; the events are published. *)
Definition take_kv_events : prog sched (list KVCacheEvent) :=
  on_kv (fun k => let '(events, p) := take_events (block_pool (coordinator k)) in
                  Ok (events, with_pool p k)).

Definition update_from_output (out : SchedulerOutput) (run : RunnerOutput)
    : prog sched (list KVCacheEvent) :=
  count_processed out ;;
  let* failed :=
    (if zlen (invalid_block_ids run) =? 0 then ret ∅
     else handle_invalid_blocks (list_to_set (invalid_block_ids run)) (num_scheduled_tokens (out_shares out))) in
  let* x := process_outputs out run failed in
  remove_stopped x ;;
  let* n := gets notices in
  let errors := grammar_compile_error_reqs n ∪ (if recompute_kv_load_failures then ∅ else failed) in
  on_notices (with_grammar_errors ∅) ;;
  when (negb (bool_decide (errors = ∅)))
    (let* _ := finish_requests (elements errors) FINISHED_ERROR in ret tt) ;;
  for_in recving_done (finished_recving run) ;;
  for_in sending_done (finished_sending run) ;;
  take_kv_events.

(** * Draft tokens *)

(** [update_draft_token_ids]. *)
Definition update_draft (d : ref * list Z) : prog sched unit :=
  let '(r, spec) := d in
  let* s := gets (fun s : sched => s) in
  let q := objects s r in
  if negb (is_known r s) || is_finished (req q) then ret tt else
  if is_prefill_chunk q then update_request r (on_req (set_spec []))
  else update_request r (on_req (set_spec (validated q spec))).
Definition update_draft_token_ids (drafts : list (ref * list Z)) : prog sched unit := for_in update_draft drafts.

(** [update_draft_token_ids_in_output]: the scheduled draft tokens with the
    drafts filled in, padded to their number. *)
Definition fill_draft (s : sched) (spec : list (ref * list Z)) (d : ref * list Z) : list (ref * list Z) :=
  let '(r, drafts) := d in
  let q := objects s r in
  if negb (is_known r s) || is_finished (req q) then spec else
  match od_get r spec with
  | None | Some [] => spec
  | Some placeholders =>
      let drafts := validated q (take (length placeholders) drafts) in
      od_set r (drafts ++ replicate (length placeholders - length drafts) (-1)) spec
  end.
Definition update_draft_token_ids_in_output (drafts : list (ref * list Z)) (out : SchedulerOutput)
    (s : sched) : list (ref * list Z) :=
  foldl (fill_draft s) (scheduled_spec_decode_tokens (out_shares out)) drafts.

(** * Requests coming and going *)

(** [add_request]; [q] is the new object. *)
Definition add_new_request r (q : SReq) : prog sched unit :=
  let* known := gets (is_known r) in
  if known then
    let* existing := the_request r in
    let update := if resumable q
      then Some (mkUpdate (mm_features (req q)) (default [] (prompt_token_ids q)) (arrival_time (req q))
                   (sampling_params (req q)))
      else None in
    if bool_decide (status (req existing) <> WAITING_FOR_STREAMING_REQ) then
      match streaming_queue existing with
      | None => raise AssertionError
      | Some updates => update_request r (fun e => with_session (prompt_token_ids e) (Some (updates ++ [update])) e)
      end
    else
      match update with
      | Some u => update_request_as_session hasher r u
      | None => let* _ := finish_requests [r] FINISHED_ABORTED in ret tt
      end
  else
    let q := if resumable q then with_session (prompt_token_ids q) (Some []) q else q in
    modify (set_object r q) ;;
    enqueue_waiting_request r ;;
    modify (fun s => set_requests (requests s ++ [r]) s) ;;
    let* conn := gets connector in
    match conn with
    | None => ret tt
    | Some c => on_connector c (fun c => c ← kc_on_new_request (req q) c; Ok (tt, c))
    end.

(** [reset_prefix_cache] and [reset_connector_cache]. *)
Definition preempt_last : prog sched unit :=
  let* rs := gets (fun s => running (queues s)) in
  match rs with
  | [] => raise IndexError
  | r :: _ =>
      modify (set_running (removelast rs)) ;;
      preempt_request true (List.last rs r)
  end.
Definition reset_connector_cache : prog sched bool :=
  let* conn := gets connector in
  match conn with None => ret true | Some c => on_connector c kc_reset_cache end.
Definition sched_reset_prefix_cache (reset_running_requests reset_connector : bool) : prog sched bool :=
  when reset_running_requests
    (fun s => while_ (Datatypes.S (length (running (queues s))))
                (fun s : sched => negb (zlen (running (queues s)) =? 0)) preempt_last s) ;;
  let* done := on_kv (fun k => Ok (kv_reset_prefix_cache k)) in
  if reset_running_requests && negb done then raise RuntimeError else
  if reset_connector then let* b := reset_connector_cache in ret (b && done) else ret done.
Definition reset_encoder_cache : prog sched unit := on_encoder (fun e => Ok (tt, ec_reset e)).

(** * Counts *)

(** [get_request_counts], [get_num_unfinished_requests] and [has_finished_requests]. *)
Definition get_request_counts (s : sched) : Z * Z :=
  (zlen (running (queues s)), rq_len (queue_of Waiting s) + rq_len (queue_of Skipped s)).
Definition get_num_unfinished_requests (s : sched) : Z :=
  match pause_state s with
  | PAUSED_ALL => 0
  | PAUSED_NEW => zlen (running (queues s))
  | UNPAUSED =>
      rq_len (queue_of Waiting s) + rq_len (queue_of Skipped s) - num_waiting_for_streaming_input s
      + zlen (running (queues s))
  end.
Definition has_finished_requests (s : sched) : bool :=
  if negb (bool_decide (finished_req_ids (notices s) = ∅)) then true else
  match connector s with
  | None => false
  | Some _ =>
      rq_len (queue_of Waiting s) + rq_len (queue_of Skipped s) + zlen (running (queues s))
        <? zlen (requests s)
  end.
End Output.
