(* ===== verification/SchedFrame.v ===== *)
(** What the smaller methods of the scheduler change and what they leave alone:
    rules for the calls of the other components, and a relation between the states
    before and after that every step of a scheduling pass keeps. *)
From S2P Require Import Prelude FreeQueue Request BlockHash BlockPool EncoderCache CacheHit SingleType GroupManager Coordinator KVCacheManager KVLifecycle KVFrame Heapq RequestQueue ChunkPlan EncoderPlan SchedMonad SchedState SchedOps Schedule.
From Stdlib Require Import QArith.Qcanon.
Open Scope Z_scope.

Section Rules.
Context `{PoolEnv} `{GroupManager M} `{EncoderCache E} `{RequestQueue Q} `{KVConnector C}.
Local Abbreviation state := (Scheduler M E Q C).
Local Abbreviation step := (Scheduler M E Q C * Pass Q)%type.
Implicit Types (r : ref) (s : state) (p : Pass Q).

(** * Rules *)

Lemma wp_the_request r (Qp : SReq -> state -> Prop) Cp Bp s : Qp (objects s r) s -> wp (the_request r) Qp Cp Bp s.
Proof. done. Qed.
Lemma wp_the_config (Qp : SchedConfig -> state -> Prop) Cp Bp s : Qp (config s) s -> wp the_config Qp Cp Bp s.
Proof. done. Qed.
Lemma wp_update_request r f (Qp : unit -> state -> Prop) Cp Bp s :
  Qp tt (set_object r (f (objects s r)) s) -> wp (update_request r f) Qp Cp Bp s.
Proof. done. Qed.
Lemma wp_on_fences f (Qp : unit -> state -> Prop) Cp Bp s :
  Qp tt (set_fences (f (fences s)) s) -> wp (on_fences f) Qp Cp Bp s.
Proof. done. Qed.
Lemma wp_on_notices f (Qp : unit -> state -> Prop) Cp Bp s :
  Qp tt (set_notices (f (notices s)) s) -> wp (on_notices f) Qp Cp Bp s.
Proof. done. Qed.
Lemma wp_on_inflight f (Qp : unit -> state -> Prop) Cp Bp s :
  Qp tt (set_inflight (f (inflight_prefills s)) s) -> wp (on_inflight f) Qp Cp Bp s.
Proof. done. Qed.
Lemma wp_on_kv {A} (f : KVCacheManager M -> result (A * KVCacheManager M)) (Qp : A -> state -> Prop) Cp Bp s :
  (forall a k, f (kv_cache_manager s) = Ok (a, k) -> Qp a (set_kv k s)) -> wp (on_kv f) Qp Cp Bp s.
Proof.
  intros HQ. apply wp_call_on. intros a s' Hf. apply bind_Ok_inv in Hf as ([a' k] & Hf & Hs). simplify_eq.
  by apply HQ.
Qed.
Lemma wp_on_encoder {A} (f : E -> result (A * E)) (Qp : A -> state -> Prop) Cp Bp s :
  (forall a e, f (encoder_cache s) = Ok (a, e) -> Qp a (set_encoder e s)) -> wp (on_encoder f) Qp Cp Bp s.
Proof.
  intros HQ. apply wp_call_on. intros a s' Hf. apply bind_Ok_inv in Hf as ([a' k] & Hf & Hs). simplify_eq.
  by apply HQ.
Qed.
Lemma wp_on_connector {A} c (f : C -> result (A * C)) (Qp : A -> state -> Prop) Cp Bp s :
  (forall a c', f c = Ok (a, c') -> Qp a (set_connector (Some c') s)) -> wp (on_connector c f) Qp Cp Bp s.
Proof.
  intros HQ. apply wp_call_on. intros a s' Hf. apply bind_Ok_inv in Hf as ([a' k] & Hf & Hs). simplify_eq.
  by apply HQ.
Qed.
Lemma wp_on_queue {A} w (f : order -> Q -> result (A * Q)) (Qp : A -> state -> Prop) Cp Bp s :
  (forall a q, f (order_of s) (queue_of w s) = Ok (a, q) -> Qp a (set_queue w q s)) ->
  wp (on_queue w f) Qp Cp Bp s.
Proof.
  intros HQ. apply wp_call_on. intros a s' Hf. apply bind_Ok_inv in Hf as ([a' k] & Hf & Hs). simplify_eq.
  by apply HQ.
Qed.
Lemma wp_own {T A} (x : result A) a (Qp : A -> T -> Prop) Cp Bp t : x = Ok a -> Qp a t -> wp (own x) Qp Cp Bp t.
Proof. by intros ->. Qed.

(** The same inside a pass. *)
Lemma wp_on_sched {A} (m : prog state A) (Qp : A -> step -> Prop) Cp Bp s p :
  wp m (fun a s => Qp a (s, p)) (fun s => Cp (s, p)) (fun s => Bp (s, p)) s ->
  wp (on_sched m) Qp Cp Bp (s, p).
Proof. intros Hm. unfold on_sched. by apply wp_zoom. Qed.
Lemma wp_the_pass (Qp : Pass Q -> step -> Prop) Cp Bp s p : Qp p (s, p) -> wp the_pass Qp Cp Bp (s, p).
Proof. done. Qed.
Lemma wp_the_sched (Qp : state -> step -> Prop) Cp Bp s p : Qp s (s, p) -> wp the_sched Qp Cp Bp (s, p).
Proof. done. Qed.
Lemma wp_on_pass f (Qp : unit -> step -> Prop) Cp Bp s p : Qp tt (s, f p) -> wp (on_pass f) Qp Cp Bp (s, p).
Proof. done. Qed.
Lemma wp_on_picked f (Qp : unit -> step -> Prop) Cp Bp s p :
  Qp tt (s, set_picked (f (picked p)) p) -> wp (on_picked f) Qp Cp Bp (s, p).
Proof. done. Qed.
Lemma wp_on_shares f (Qp : unit -> step -> Prop) Cp Bp s p :
  Qp tt (s, set_shares (f (shares p)) p) -> wp (on_shares f) Qp Cp Bp (s, p).
Proof. done. Qed.
Lemma wp_next_index (Qp : unit -> step -> Prop) Cp Bp s p :
  Qp tt (s, set_index (req_index p + 1) p) -> wp next_index Qp Cp Bp (s, p).
Proof. done. Qed.

Lemma silently_inv {A} (f : A -> result A) a u a' : silently f a = Ok (u, a') -> f a = Ok a'.
Proof. unfold silently. intros Hf. apply bind_Ok_inv in Hf as (x & Hx & Hf). by simplify_eq. Qed.
Lemma without_answer_inv (f : order -> Q -> result Q) lt q u q' :
  without_answer f lt q = Ok (u, q') -> f lt q = Ok q'.
Proof. unfold without_answer. intros Hf. apply bind_Ok_inv in Hf as (x & Hx & Hf). by simplify_eq. Qed.
End Rules.

(** Runs a program up to its next branch or unknown call. *)
Ltac wp_one :=
  lazymatch goal with
  | |- wp (the_request _) _ _ _ _ => apply wp_the_request
  | |- wp the_config _ _ _ _ => apply wp_the_config
  | |- wp (update_request _ _) _ _ _ _ => apply wp_update_request
  | |- wp (on_fences _) _ _ _ _ => apply wp_on_fences
  | |- wp (on_notices _) _ _ _ _ => apply wp_on_notices
  | |- wp (on_inflight _) _ _ _ _ => apply wp_on_inflight
  | |- wp (on_kv _) _ _ _ _ => apply wp_on_kv; let Hc := fresh "Hc" in intros ? ? Hc
  | |- wp (on_encoder _) _ _ _ _ => apply wp_on_encoder; let Hc := fresh "Hc" in intros ? ? Hc
  | |- wp (on_connector _ _) _ _ _ _ => apply wp_on_connector; let Hc := fresh "Hc" in intros ? ? Hc
  | |- wp (on_queue _ _) _ _ _ _ => apply wp_on_queue; let Hc := fresh "Hc" in intros ? ? Hc
  | |- wp (on_sched _) _ _ _ _ => apply wp_on_sched
  | |- wp the_pass _ _ _ _ => apply wp_the_pass
  | |- wp the_sched _ _ _ _ => apply wp_the_sched
  | |- wp (on_pass _) _ _ _ _ => apply wp_on_pass
  | |- wp (on_picked _) _ _ _ _ => apply wp_on_picked
  | |- wp (on_shares _) _ _ _ _ => apply wp_on_shares
  | |- wp next_index _ _ _ _ => apply wp_next_index
  | |- wp (bind _ _) _ _ _ _ => apply wp_bind
  | |- wp (ret _) _ _ _ _ => apply wp_ret
  | |- wp (gets _) _ _ _ _ => apply wp_gets
  | |- wp (modify _) _ _ _ _ => apply wp_modify
  | |- wp continue_ _ _ _ _ => apply wp_continue
  | |- wp break_ _ _ _ _ => apply wp_break
  | |- wp (call _) _ _ _ _ => apply wp_call; let Hc := fresh "Hc" in intros ? Hc
  end.
Ltac wp_go := repeat (wp_one; cbn beta iota).

(** * What a scheduling step keeps *)

(** What a scheduling pass leaves alone in every request: the keys that the
    references' order reads, its LoRA, its tokens and those in flight. *)
Definition same_identity (rq rq' : Request) : Prop :=
  same_key rq rq' /\ lora_request rq' = lora_request rq /\ all_token_ids rq' = all_token_ids rq /\
  num_in_flight_tokens rq' = num_in_flight_tokens rq.
Definition same_keys (o o' : ref -> SReq) : Prop := forall r, same_identity (req (o r)) (req (o' r)).

#[export] Instance same_keys_preorder : PreOrder same_keys.
Proof.
  split; [by intros o r|]. intros o1 o2 o3 H1 H2 r.
  destruct (H1 r) as ((? & ? & ? & ?) & ? & ? & ?), (H2 r) as ((? & ? & ? & ?) & ? & ? & ?).
  unfold same_identity, same_key. split_and!; congruence.
Qed.

Lemma same_keys_lt o o' a b : same_keys o o' -> ref_lt (fun r => req (o r)) a b = ref_lt (fun r => req (o' r)) a b.
Proof.
  intros Hk. unfold ref_lt. destruct (same_key_lt _ _ (req (o b)) (proj1 (Hk a))) as [-> _].
  by destruct (same_key_lt _ _ (req (o' a)) (proj1 (Hk b))) as [_ ->].
Qed.

(** A memo changes none of it. *)
Lemma memo_identity rq rq' : memo_only rq rq' -> same_identity rq rq'.
Proof. by intros [m ->]. Qed.

Section Keeps.
Context `{PoolEnv} `{GroupManager M} `{EncoderCache E} `{RequestQueueLaws Q} `{KVConnector C}.
Local Abbreviation state := (Scheduler M E Q C).
Implicit Types (r : ref) (s : state) (p : Pass Q).

(** All but the objects, the queues and what only later steps look at. *)
Record keeps s s' : Prop := {
  kp_config : config s' = config s;
  kp_requests : requests s' = requests s;
  kp_streaming : num_waiting_for_streaming_input s' = num_waiting_for_streaming_input s;
  kp_step : current_step s' = current_step s;
  kp_pause : pause_state s' = pause_state s;
  kp_connector : is_Some (connector s) -> is_Some (connector s');
  kp_failed : failed_recving_kv_req_ids (notices s') ⊆ failed_recving_kv_req_ids (notices s);
  kp_kv : kv_frame (kv_cache_manager s) (kv_cache_manager s');
  kp_keys : same_keys (objects s) (objects s')
}.

#[export] Instance keeps_preorder : PreOrder keeps.
Proof.
  split; [by intros s|]. intros s1 s2 s3 [] []. split; try congruence; [by auto|set_solver|by etrans..].
Qed.

Lemma keeps_lt s s' a b : keeps s s' -> order_of s a b = order_of s' a b.
Proof. intros Hk. exact (same_keys_lt _ _ _ _ (kp_keys _ _ Hk)). Qed.

Lemma keeps_inv s s' q : keeps s s' -> rq_inv (order_of s) q -> rq_inv (order_of s') q.
Proof. intros Hk. apply rq_inv_ext. intros a b _ _. by apply keeps_lt. Qed.

(** The steps that keep everything. *)
Lemma keeps_kv s k : kv_frame (kv_cache_manager s) k -> keeps s (set_kv k s).
Proof. by split. Qed.
Lemma keeps_encoder s e : keeps s (set_encoder e s).
Proof. by split. Qed.
Lemma keeps_connector s c : keeps s (set_connector (Some c) s).
Proof. by split. Qed.
Lemma keeps_fences s f : keeps s (set_fences f s).
Proof. by split. Qed.
Lemma keeps_inflight s i : keeps s (set_inflight i s).
Proof. by split. Qed.
Lemma keeps_queues s q : keeps s (set_queues q s).
Proof. by split. Qed.
Lemma keeps_notices s n :
  failed_recving_kv_req_ids n ⊆ failed_recving_kv_req_ids (notices s) -> keeps s (set_notices n s).
Proof. by split. Qed.
Lemma keeps_object s r q : same_identity (req (objects s r)) (req q) -> keeps s (set_object r q s).
Proof. intros Hq. split; try done. intros r'. simpl. by destruct (decide (r' = r)) as [->|]. Qed.
Lemma keeps_queue s w q : keeps s (set_queue w q s).
Proof. destruct w; apply keeps_queues. Qed.
End Keeps.
#[export] Hint Resolve keeps_kv keeps_encoder keeps_connector keeps_fences keeps_inflight keeps_queues
  keeps_notices keeps_object keeps_queue : vllm.

(** * Giving blocks back, and preemption *)

(** A request's object after its preemption. *)
Definition preempted_object (drop : bool) (q : SReq) : SReq :=
  on_req (fun rq => set_preemptions (num_preemptions rq + 1)
                      (set_spec [] (set_computed 0 (set_status PREEMPTED rq))))
    (with_placeholders 0
      (with_stale (num_in_flight_tokens (req q))
         (drop || (drop_stale_output q && (0 <? num_stale_output_tokens q))) q)).

Section Preempt.
Context `{PoolEnv} `{GroupManager M} `{EncoderCache E} `{RequestQueueLaws Q} `{KVConnector C}.
Local Abbreviation state := (Scheduler M E Q C).
Implicit Types (r : ref) (s : state) (p : Pass Q).

(** Nothing but what [keeps] forgets changed, and neither did objects or queues. *)
Definition only_blocks s s' : Prop := keeps s s' /\ objects s' = objects s /\ queues s' = queues s.

#[export] Instance only_blocks_preorder : PreOrder only_blocks.
Proof.
  split; [by intros s|]. intros s1 s2 s3 (? & ? & ?) (? & ? & ?). split_and!; [by etrans|congruence..].
Qed.

Lemma free_request_blocks_spec r s : triple (free_request_blocks r) (fun _ s' => only_blocks s s') s.
Proof.
  unfold triple, free_request_blocks. wp_go. apply wp_if; intros _.
  - wp_go. apply silently_inv, kv_free_frame in Hc. split; [by apply keeps_kv|done].
  - wp_go. set (s1 := set_kv _ s). assert (only_blocks s s1) as Hs1.
    { split; [|done]. apply keeps_kv, (kv_pop_frame (req (objects s r)) _ a). congruence. }
    apply wp_when; intros _; [|done]. wp_go. etrans; [exact Hs1|]. split; [apply keeps_fences|done].
Qed.

Lemma preempt_request_spec drop r s :
  status (request_of s r) = RUNNING -> rq_inv (order_of s) (waiting (queues s)) ->
  triple (preempt_request drop r) (fun _ s' =>
    keeps s s' /\ running (queues s') = running (queues s) /\
    skipped_waiting (queues s') = skipped_waiting (queues s) /\
    (forall r', objects s' r' = if decide (r' = r) then preempted_object drop (objects s r) else objects s r') /\
    rq_inv (order_of s') (waiting (queues s')) /\
    rq_items (waiting (queues s')) ≡ₚ r :: rq_items (waiting (queues s)) /\
    (rq_policy (Q:=Q) = FCFS -> rq_items (waiting (queues s')) = r :: rq_items (waiting (queues s)))) s.
Proof.
  intros Hst Hinv. unfold triple, preempt_request. wp_go. apply wp_check; [by apply bool_decide_eq_true|].
  apply wp_bind. eapply wp_triple; [apply free_request_blocks_spec|]. intros _ s1 (Hk1 & Ho1 & Hq1). cbn beta.
  wp_go. set (s4 := set_object r _ _) in *.
  assert (keeps s1 s4) as Hk4.
  { etrans; [|apply keeps_object; by destruct (objects s1 r) as [[]]].
    etrans; [apply keeps_encoder|apply keeps_inflight]. }
  assert (keeps s s4) as Hk by by etrans. apply without_answer_inv in Hc0.
  change (queue_of Waiting s4) with (waiting (queues s1)) in Hc0. rewrite Hq1 in Hc0.
  destruct (prepend_request_ok (order_of s4) r (waiting (queues s)) _) as (q' & Hq & Hinv' & Hp);
    [by eapply keeps_inv|]. rewrite Hc0 in Hq. injection Hq as <-.
  split; [|split_and!].
  - etrans; [exact Hk|]. etrans; [by apply keeps_queue|]. by apply keeps_notices.
  - simpl. by rewrite Hq1.
  - simpl. by rewrite Hq1.
  - intros r'. simpl. by rewrite Ho1.
  - exact Hinv'.
  - exact Hp.
  - intros Hf. by eapply prepend_fcfs.
Qed.
End Preempt.
