(* ===== verification/SchedRunning.v ===== *)
(** The loop over the running requests of [Scheduler.schedule],
    src/upstream/vllm/v1/core/sched/scheduler.py: its invariant, and that it ends
    with the invariant, whatever is preempted on the way. *)
From S2P Require Import Prelude Bisect FreeQueue Request BlockHash BlockPool EncoderCache CacheHit SingleType GroupManager Coordinator KVCacheManager KVLifecycle KVFrame Heapq RequestQueue ChunkPlan EncoderPlan SchedMonad SchedState SchedOps Schedule SchedFrame.
From Stdlib Require Import QArith.Qcanon.
Open Scope Z_scope.

(** * Lists and dicts *)

Lemma py_remove_split {A} `{EqDecision A} (x : A) l l' : py_remove x l = Ok l' ->
  exists l1 l2, l = l1 ++ x :: l2 /\ l' = l1 ++ l2 /\ x ∉ l1.
Proof.
  revert l'. induction l as [|y l IH]; intros l' Hr; simpl in Hr; [done|]. destruct (decide (y = x)) as [->|Hne].
  { simplify_eq. exists [], l'. split_and!; [done..|]. apply not_elem_of_nil. }
  apply bind_Ok_inv in Hr as (l0 & Hl & Hr). simplify_eq. destruct (IH _ Hl) as (l1 & l2 & -> & -> & Hx).
  exists (y :: l1), l2. split_and!; [done..|]. by apply not_elem_of_cons.
Qed.

Lemma py_remove_is_Ok {A} `{EqDecision A} (x : A) l : x ∈ l -> exists l', py_remove x l = Ok l'.
Proof.
  induction 1 as [x l|x y l Hx IH]; simpl; [rewrite decide_True by done; eauto|].
  destruct (decide (y = x)); [eauto|]. destruct IH as [l' ->]. eauto.
Qed.

Lemma py_remove_keys {V} (x : ref) (d : list (ref * V)) l' :
  py_remove x (od_keys d) = Ok l' -> od_keys (od_del x d) = l'.
Proof.
  unfold od_keys. revert l'. induction d as [|[k v] d IH]; intros l' Hr; csimpl in *; [done|].
  destruct (decide (x = k)) as [->|Hne]; [rewrite decide_True in Hr by done; by simplify_eq|].
  rewrite decide_False in Hr by done. apply bind_Ok_inv in Hr as (l0 & Hl & Hr). simplify_eq.
  csimpl. f_equal. by apply IH.
Qed.

Lemma sum_shares_app d d' : sum_shares (d ++ d') = sum_shares d + sum_shares d'.
Proof. unfold sum_shares. induction d as [|e d IH]; simpl; lia. Qed.

Lemma sum_shares_del r n d : od_get r d = Some n -> sum_shares (od_del r d) = sum_shares d - n.
Proof.
  unfold sum_shares. induction d as [|[k v] d IH]; simpl; [done|]. destruct (decide (r = k)) as [->|Hne].
  - intros [= ->]. lia.
  - intros Hd. simpl. rewrite IH by done. lia.
Qed.

(** Without one element there is less behind any index. *)
Lemma elem_of_drop_without {A} k (l1 l2 : list A) x y :
  x ∈ drop k (l1 ++ l2) -> x ∈ drop k (l1 ++ y :: l2).
Proof.
  intros (i & Hi)%list_elem_of_lookup. rewrite lookup_drop in Hi.
  destruct (Nat.lt_ge_cases (k + i) (length l1)) as [Hlt|Hge].
  - rewrite lookup_app_l in Hi by done. apply list_elem_of_lookup. exists i.
    by rewrite lookup_drop, lookup_app_l.
  - rewrite lookup_app_r in Hi by done. apply list_elem_of_lookup. exists (S i).
    rewrite lookup_drop, lookup_app_r by lia. replace (k + S i - length l1)%nat with (S (k + i - length l1)) by lia.
    done.
Qed.

Lemma drop_mono {A} k k' (l : list A) x : (k <= k')%nat -> x ∈ drop k' l -> x ∈ drop k l.
Proof.
  intros Hk (i & Hi)%list_elem_of_lookup. rewrite lookup_drop in Hi. apply list_elem_of_lookup.
  exists (k' - k + i)%nat. rewrite lookup_drop, <-Hi. f_equal. lia.
Qed.

(** * Requests that may run *)

(** A running request: its counters leave room for the tokens of its next step. *)
Record request_runs (c : SchedConfig) (q : SReq) : Prop := {
  rr_status : status (req q) = RUNNING;
  rr_tokens : num_computed_tokens (req q) <= num_tokens_with_spec (req q) + num_output_placeholders q;
  rr_length : num_computed_tokens (req q) + num_sampled_tokens_per_step c <= max_model_len c;
  rr_features : ascending (feature_start <$> mm_features (req q))
}.

(** The share of a running request: more than nothing, no more than it has, and
    within the model's length. *)
Definition share_fits (c : SchedConfig) (q : SReq) (n : Z) : Prop :=
  0 < n /\
  num_computed_tokens (req q) + n <= num_tokens_with_spec (req q) + num_output_placeholders q /\
  num_computed_tokens (req q) + n + num_sampled_tokens_per_step c <= max_model_len c.

(** Only the memo of the request behind the object differs. *)
Definition memo_object (q q' : SReq) : Prop := exists rq, memo_only (req q) rq /\ q' = with_req rq q.

Lemma memo_object_refl q : memo_object q q.
Proof. exists (req q). split; [done|by destruct q]. Qed.

Lemma memo_object_next q q' rq : memo_object q q' -> memo_only (req q') rq -> memo_object q (with_req rq q').
Proof. intros (rq' & Hm & ->) Hr. exists rq. split; [by etrans|done]. Qed.

Lemma memo_object_runs c q q' : memo_object q q' -> request_runs c q -> request_runs c q'.
Proof. intros (rq' & [m ->] & ->) []. by split. Qed.

Lemma memo_object_fits c q q' n : memo_object q q' -> share_fits c q' n <-> share_fits c q n.
Proof. by intros (rq' & [m ->] & ->). Qed.

(** The configuration. *)
Record config_ok (c : SchedConfig) : Prop := {
  co_max_tokens : 0 <= max_num_scheduled_tokens c;
  co_max_running : 0 <= max_num_running_reqs c;
  co_block_size : need_mamba_block_aligned_split c = true -> 0 < cache_block_size c;
  co_sched_block_size : 0 < sched_block_size c
}.

(** The tokens of a running request. *)
Lemma running_tokens_bounds c threshold budget q :
  request_runs c q -> 0 < budget -> let n := running_tokens c threshold budget q in
  0 <= n <= budget /\ (n <> 0 -> share_fits c q n).
Proof.
  intros [Hst Ht Hl Hf] Hb n. unfold n, running_tokens, share_fits.
  destruct (Z.ltb_spec 0 threshold); cbn [andb]; [destruct (Z.ltb_spec threshold
    (num_tokens_with_spec (req q) + num_output_placeholders q - num_computed_tokens (req q)))|]; lia.
Qed.

Lemma share_fits_less c q n n' : share_fits c q n -> 0 < n' <= n -> share_fits c q n'.
Proof. unfold share_fits. lia. Qed.

(** The locals that the encoder inputs leave alone. *)
Definition same_tally {Q} (p p' : Pass Q) : Prop :=
  picked p' = picked p /\ num_scheduled_tokens (shares p') = num_scheduled_tokens (shares p) /\
  req_to_new_blocks (shares p') = req_to_new_blocks (shares p) /\ token_budget p' = token_budget p /\
  step_skipped_waiting p' = step_skipped_waiting p /\ req_index p' = req_index p /\
  scheduled_loras p' = scheduled_loras p /\ prefill_scheduled p' = prefill_scheduled p.

(** * The encoder inputs of a step *)

Section Inputs.
Context `{PoolEnv} `{GroupManager M} `{EncoderCache E} `{RequestQueueLaws Q} `{KVConnector C}.
Local Abbreviation state := (Scheduler M E Q C).
Implicit Types (r : ref) (s : state) (p : Pass Q).

Lemma plan_encoder_spec r computed n s p :
  ascending (feature_start <$> mm_features (request_of s r)) -> 0 <= n ->
  triple (plan_encoder r computed n) (fun plan t =>
    only_blocks s t.1 /\ t.2 = p /\ 0 <= plan.1.2 <= n) (s, p).
Proof.
  intros Hasc Hn. unfold triple, plan_encoder. wp_go. apply wp_if; intros _; wp_go; [|split_and!; [done|done|simpl; lia..]].
  apply bind_Ok_inv in Hc as ([[[inputs n'] b] e'] & Ht & Hc). simplify_eq.
  apply try_schedule_tokens in Ht; [|done..]. split_and!; [|done|simpl; lia..]. split; [apply keeps_encoder|done].
Qed.

Lemma allocate_inputs_spec r inputs budget s p :
  triple (allocate_encoder_inputs r inputs budget) (fun _ t => only_blocks s t.1 /\ same_tally p t.2) (s, p).
Proof.
  unfold triple, allocate_encoder_inputs. apply wp_when; intros _; [|by split].
  wp_go. split; [|done]. split; [apply keeps_encoder|done].
Qed.
End Inputs.

Section Running.
Context `{PoolEnv} `{GroupManager M} `{!CacheFrame M} `{EncoderCache E} `{RequestQueueLaws Q} `{KVConnector C}.
Local Abbreviation state := (Scheduler M E Q C).
Local Abbreviation step := (Scheduler M E Q C * Pass Q)%type.
Implicit Types (r : ref) (s : state) (p : Pass Q).

(** The state the loop starts in, and the tokens it may hand out. *)
Variable s0 : state.
Variable p0 : Pass Q.
Variable B : Z.
Local Abbreviation running_of s := (running (queues s)).
Local Abbreviation scheduled p := (scheduled_running_reqs (picked p)).
Local Abbreviation preempted p := (preempted_reqs (picked p)).
Local Abbreviation c0 := (config s0).

(** The shares handed out: one per scheduled request, within the budget. *)
Record tally (keys : list ref) p : Prop := {
  ta_keys : od_keys (num_scheduled_tokens (shares p)) = keys;
  ta_blocks : od_keys (req_to_new_blocks (shares p)) = keys;
  ta_sum : token_budget p + sum_shares (num_scheduled_tokens (shares p)) = B;
  ta_budget : 0 <= token_budget p;
  ta_fits r n : (r, n) ∈ num_scheduled_tokens (shares p) -> share_fits c0 (objects s0 r) n
}.

(** The invariant; the requests from index [i] on are still to be looked at. *)
Record run_inv (i : Z) s p : Prop := {
  ri_keeps : keeps s0 s;
  ri_none : scheduled_new_reqs (picked p) = [] /\ scheduled_resumed_reqs (picked p) = [];
  ri_perm : running_of s ++ preempted p ≡ₚ running_of s0;
  ri_queue : rq_inv (order_of s) (waiting (queues s));
  ri_waiting : rq_items (waiting (queues s)) ≡ₚ preempted p ++ rq_items (waiting (queues s0));
  ri_skipped : skipped_waiting (queues s) = skipped_waiting (queues s0);
  ri_fcfs : rq_policy (Q:=Q) = FCFS -> running_of s0 = running_of s ++ reverse (preempted p) /\
    rq_items (waiting (queues s)) = reverse (preempted p) ++ rq_items (waiting (queues s0));
  ri_status r : r ∈ running_of s -> status (request_of s r) = RUNNING;
  ri_computed r : r ∈ running_of s ->
    num_computed_tokens (request_of s r) = num_computed_tokens (request_of s0 r);
  ri_preempted r : r ∈ preempted p -> status (request_of s r) = PREEMPTED;
  ri_others r : r ∉ running_of s0 -> objects s r = objects s0 r;
  ri_todo r : r ∈ drop (Z.to_nat i) (running_of s) ->
    r ∉ scheduled p /\ memo_object (objects s0 r) (objects s r);
  ri_index : 0 <= i;
  ri_tally : tally (scheduled p) p;
  ri_scheduled : NoDup (scheduled p) /\ forall r, r ∈ scheduled p -> r ∈ running_of s;
  ri_pass : step_skipped_waiting p = step_skipped_waiting p0
}.

Lemma run_inv_later i i' s p : run_inv i s p -> i <= i' -> run_inv i' s p.
Proof.
  intros [] Hi. split; try done; [|lia]. intros r Hr. apply ri_todo0.
  eapply drop_mono; [|exact Hr]. lia.
Qed.

Hypothesis Hnodup : NoDup (running_of s0).

Lemma run_inv_NoDup i s p : run_inv i s p -> NoDup (running_of s).
Proof.
  intros Hi. pose proof Hnodup as Hn. rewrite <-(ri_perm _ _ _ Hi), NoDup_app in Hn. by destruct Hn as [? _].
Qed.

(** Changes of the state that the invariant does not see. *)
Lemma run_inv_blocks i s s' p : run_inv i s p -> only_blocks s s' -> run_inv i s' p.
Proof.
  intros [] (Hk & Ho & Hq). split; rewrite ?Hq; try done.
  - by etrans.
  - by eapply keeps_inv.
  - intros r Hr. unfold request_of. rewrite Ho. by apply ri_status0.
  - intros r Hr. unfold request_of. rewrite Ho. by apply ri_computed0.
  - intros r Hr. unfold request_of. rewrite Ho. by apply ri_preempted0.
  - intros r Hr. rewrite Ho. by apply ri_others0.
  - intros r Hr. rewrite Ho. by apply ri_todo0.
Qed.

(** Changes of the locals that it does not see. *)
Lemma run_inv_pass i s p p' : run_inv i s p -> same_tally p p' -> run_inv i s p'.
Proof.
  intros [] (Hp & Hn & Hb & Ht & Hsk & _). split; rewrite ?Hp, ?Hsk; try done.
  destruct ri_tally0. by split; rewrite ?Hn, ?Hb, ?Ht.
Qed.

(** A request of [running] gets a new memo. *)
Lemma run_inv_memo i s p r rq : run_inv i s p -> memo_only (request_of s r) rq -> r ∈ running_of s ->
  run_inv i (set_object r (with_req rq (objects s r)) s) p.
Proof.
  intros [] Hm Hr. assert (same_identity (request_of s r) rq) as Hkey by by apply memo_identity.
  assert (keeps s (set_object r (with_req rq (objects s r)) s)) as Hk by by apply keeps_object.
  split; try done.
  - by etrans.
  - by eapply keeps_inv.
  - intros r' Hr'. unfold request_of. simpl. destruct (decide (r' = r)) as [->|]; [|by apply ri_status0].
    destruct Hm as [m ->]. simpl. by apply ri_status0.
  - intros r' Hr'. unfold request_of. simpl. destruct (decide (r' = r)) as [->|]; [|by apply ri_computed0].
    destruct Hm as [m ->]. simpl. by apply ri_computed0.
  - intros r' Hr'. unfold request_of. simpl. destruct (decide (r' = r)) as [->|]; [|by apply ri_preempted0].
    destruct Hm as [m ->]. simpl. by apply ri_preempted0.
  - intros r' Hr'. simpl. rewrite decide_False; [by apply ri_others0|]. intros ->. apply Hr'.
    rewrite <-ri_perm0. apply elem_of_app. by left.
  - intros r' Hr'. simpl. destruct (decide (r' = r)) as [->|]; [|by apply ri_todo0].
    destruct (ri_todo0 _ Hr') as [? ?]. split; [done|]. by apply memo_object_next.
Qed.

(** ** Preempting *)

(** While blocks for request [r] are looked for: it is still to be scheduled, and
    its index is at most the current one. *)
Record mid_inv r (n K : Z) s p : Prop := {
  mi_run : run_inv (req_index p + 1) s p;
  mi_index : 0 <= req_index p;
  mi_in : exists j, running_of s !! j = Some r /\ Z.of_nat j <= req_index p /\
    (rq_policy (Q:=Q) = FCFS -> Z.of_nat j = req_index p);
  mi_fresh : r ∉ scheduled p;
  mi_object : memo_object (objects s0 r) (objects s r);
  mi_budget : n <= token_budget p;
  mi_measure : zlen (running_of s) - req_index p <= K
}.

(** The locals after [v]'s share was taken back, when it had one. *)
Definition gave_back v p p' : Prop :=
  (v ∉ scheduled p /\ p' = p) \/
  exists sc m e, v ∈ scheduled p /\ py_remove v (scheduled p) = Ok sc /\
    od_get v (num_scheduled_tokens (shares p)) = Some m /\
    p' = set_index (req_index p - 1) (set_budgets (token_budget p + m) (encoder_compute_budget p + e)
           (set_shares (unshare v (shares p)) (set_picked (unpick_running sc (picked p)) p))).

Lemma gave_back_tally v p p' : gave_back v p p' -> tally (scheduled p) p -> NoDup (scheduled p) ->
  tally (scheduled p') p' /\ (forall r, r ∈ scheduled p' <-> r ∈ scheduled p /\ r <> v) /\
  NoDup (scheduled p') /\ preempted p' = preempted p /\
  scheduled_new_reqs (picked p') = scheduled_new_reqs (picked p) /\
  scheduled_resumed_reqs (picked p') = scheduled_resumed_reqs (picked p) /\
  step_skipped_waiting p' = step_skipped_waiting p /\ token_budget p <= token_budget p' /\
  req_index p' = req_index p - (if decide (v ∈ scheduled p) then 1 else 0).
Proof.
  intros [[Hv ->]|(sc & m & e & Hv & Hsc & Hm & ->)] [Hk Hb Hs Hbud Hf] Hnd; cbn -[sum_shares].
  - rewrite decide_False by done. split_and!; try done; [|lia]. intros r. split; [|tauto].
    intros Hr. split; [done|]. by intros ->.
  - rewrite decide_True by done. pose proof (Hf _ _ (od_get_Some_elem_of _ _ _ Hm)) as Hfit.
    pose proof Hsc as Hsplit. apply py_remove_split in Hsplit as (l1 & l2 & Hl & Hsc' & Hv1).
    assert (forall r, r ∈ sc <-> r ∈ scheduled p /\ r <> v) as Hin.
    { intros r. rewrite Hl in Hnd |- *. subst sc. rewrite NoDup_app, NoDup_cons in Hnd.
      destruct Hnd as (_ & _ & Hv2 & _). rewrite !elem_of_app, elem_of_cons. split; [|tauto].
      intros Hr. split; [tauto|]. by intros ->; tauto. }
    split_and!; try done; [split; cbn -[sum_shares]|..].
    + apply py_remove_keys. by rewrite Hk.
    + apply py_remove_keys. by rewrite Hb.
    + rewrite (sum_shares_del _ m) by done. lia.
    + destruct Hfit. lia.
    + intros r n Hrn. apply Hf. eapply elem_of_sublist; [exact Hrn|]. clear.
      induction (num_scheduled_tokens (shares p)) as [|[k x] d IH]; simpl; [done|].
      destruct (decide (v = k)); [by constructor|by constructor].
    + rewrite Hl in Hnd. subst sc. rewrite NoDup_app, NoDup_cons in Hnd. apply NoDup_app.
      destruct Hnd as (? & Hd & ? & ?). split_and!; [done| |done]. intros x Hx Hx2. apply (Hd x Hx). by right.
    + destruct Hfit. lia.
Qed.

(** *** A victim left [self.running] and was preempted *)

Section Victim.
Context (r v : ref) (n K : Z) (s s2 : state) (p p1 : Pass Q) (l1 l2 : list ref) (dropped : bool).
Hypothesis Hmid : mid_inv r n K s p.
Hypothesis Hrun : running_of s = l1 ++ v :: l2.
Hypothesis Hlast : rq_policy (Q:=Q) = FCFS -> l2 = [] /\ p1 = p.
Hypothesis Hfresh : rq_policy (Q:=Q) = FCFS -> v ∉ scheduled p.
Hypothesis Hback : gave_back v p p1.

(** The locals afterwards. *)
Local Abbreviation p2 := (set_picked (pick_preempted v (picked p1)) p1).

Lemma victim_tally : tally (scheduled p1) p1 /\ (forall x, x ∈ scheduled p1 <-> x ∈ scheduled p /\ x <> v) /\
  NoDup (scheduled p1) /\ preempted p1 = preempted p /\
  scheduled_new_reqs (picked p1) = scheduled_new_reqs (picked p) /\
  scheduled_resumed_reqs (picked p1) = scheduled_resumed_reqs (picked p) /\
  step_skipped_waiting p1 = step_skipped_waiting p /\ token_budget p <= token_budget p1 /\
  req_index p1 = req_index p - (if decide (v ∈ scheduled p) then 1 else 0).
Proof using Hmid Hback.
  destruct Hmid as [[] _ _ _ _ _ _]. apply gave_back_tally; [done|done|apply ri_scheduled0].
Qed.

Lemma victim_rest x : x ∈ l1 ++ l2 <-> x ∈ running_of s /\ x <> v.
Proof using Hmid Hrun Hnodup.
  pose proof (run_inv_NoDup _ _ _ (mi_run _ _ _ _ _ Hmid)) as Hnd. rewrite Hrun in Hnd |- *.
  apply NoDup_app in Hnd as (_ & Hd & [Hv2 _]%NoDup_cons). rewrite !elem_of_app, elem_of_cons.
  split; [|tauto]. intros Hx. split; [tauto|]. intros ->. destruct Hx as [Hx|Hx]; [|done].
  apply (Hd v Hx). left.
Qed.

Lemma victim_all : running_of s0 ≡ₚ l1 ++ v :: l2 ++ preempted p.
Proof using Hmid Hrun.
  rewrite <-(ri_perm _ _ _ (mi_run _ _ _ _ _ Hmid)), Hrun, <-(assoc_L (++)). done.
Qed.

(** A victim that had been scheduled stood before the index. *)
Lemma victim_before : v ∈ scheduled p -> (length l1 <= Z.to_nat (req_index p))%nat.
Proof using Hmid Hrun.
  intros Hv. destruct (Nat.le_gt_cases (length l1) (Z.to_nat (req_index p))); [done|]. exfalso.
  assert (v ∈ drop (Z.to_nat (req_index p + 1)) (running_of s)) as Hvd.
  { rewrite Hrun. apply list_elem_of_lookup. exists (length l1 - Z.to_nat (req_index p + 1))%nat.
    pose proof (mi_index _ _ _ _ _ Hmid). rewrite lookup_drop, lookup_app_r by lia.
    replace (_ - _)%nat with 0%nat by lia. done. }
  by apply (ri_todo _ _ _ (mi_run _ _ _ _ _ Hmid)) in Hvd as [? _].
Qed.

(** The index, corrected, leaves the same requests to look at. *)
Lemma victim_index : v <> r \/ v ∉ scheduled p -> req_index p1 <= req_index p /\ 0 <= req_index p1 /\
  forall x, x ∈ drop (Z.to_nat (req_index p1 + 1)) (l1 ++ l2) ->
    x ∈ drop (Z.to_nat (req_index p + 1)) (running_of s).
Proof using Hmid Hrun Hback.
  intros Hvr. pose proof victim_tally as (_ & _ & _ & _ & _ & _ & _ & _ & Hidx1).
  destruct Hmid as [_ Hidx (j & Hj & Hji & _) _ _ _ _]. rewrite Hidx1. destruct (decide (v ∈ scheduled p)) as [Hv|Hv].
  - pose proof (victim_before Hv) as Hl1. destruct Hvr as [Hvr|]; [|done].
    assert (running_of s !! length l1 = Some v) as Hvl.
    { rewrite Hrun, lookup_app_r, Nat.sub_diag by done. done. }
    assert (j <> length l1) by (intros ->; rewrite Hj in Hvl; by injection Hvl as ->).
    rewrite Hrun. split_and!; [lia| |intros x Hx].
    + destruct (decide (req_index p = 0)) as [Hz|]; [|lia]. rewrite Hz in Hji, Hl1. simpl in Hl1. lia.
    + replace (Z.to_nat (req_index p - 1 + 1)) with (Z.to_nat (req_index p)) in Hx by lia.
      rewrite drop_app_ge in Hx by done. rewrite drop_app_ge by lia.
      replace (Z.to_nat (req_index p + 1) - length l1)%nat with (S (Z.to_nat (req_index p) - length l1)) by lia.
      exact Hx.
  - split_and!; [lia|lia|]. intros x Hx. rewrite Hrun. apply elem_of_drop_without.
    by replace (Z.to_nat (req_index p - 0 + 1)) with (Z.to_nat (req_index p + 1)) in Hx by lia.
Qed.

(** Where [r] stands in the shorter list. *)
Lemma victim_position : v <> r -> exists j, (l1 ++ l2) !! j = Some r /\ Z.of_nat j <= req_index p1 /\
  (rq_policy (Q:=Q) = FCFS -> Z.of_nat j = req_index p1).
Proof using Hmid Hrun Hback Hlast Hfresh Hnodup.
  intros Hvr. pose proof victim_tally as (_ & _ & _ & _ & _ & _ & _ & _ & Hidx1).
  pose proof (run_inv_NoDup _ _ _ (mi_run _ _ _ _ _ Hmid)) as Hnd. pose proof (mi_index _ _ _ _ _ Hmid) as Hidx.
  destruct (mi_in _ _ _ _ _ Hmid) as (j & Hj & Hji & Hjf).
  pose proof Hj as Hjr. rewrite Hrun in Hjr. destruct (Nat.lt_trichotomy j (length l1)) as [Hlt|[->|Hgt]].
  - rewrite lookup_app_l in Hjr by done. exists j. rewrite lookup_app_l by done. split; [done|].
    rewrite Hidx1. destruct (decide (v ∈ scheduled p)) as [Hv|Hv].
    + pose proof (victim_before Hv). split; [lia|]. intros Hf. by specialize (Hfresh Hf).
    + split; [lia|]. intros Hf. rewrite <-Hjf by done. lia.
  - rewrite lookup_app_r, Nat.sub_diag in Hjr by done. simpl in Hjr. by simplify_eq.
  - rewrite lookup_app_r in Hjr by lia. replace (j - length l1)%nat with (S (j - length l1 - 1)) in Hjr by lia.
    simpl in Hjr. exists (j - 1)%nat. rewrite lookup_app_r by lia.
    replace (j - 1 - length l1)%nat with (j - length l1 - 1)%nat by lia. split; [done|]. rewrite Hidx1. split.
    + destruct (decide _); lia.
    + intros Hf. destruct (Hlast Hf) as [-> _]. done.
Qed.

Hypothesis Hk : keeps s s2.
Hypothesis Hrun2 : running_of s2 = l1 ++ l2.
Hypothesis Hsk : skipped_waiting (queues s2) = skipped_waiting (queues s).
Hypothesis Ho : forall x, objects s2 x = if decide (x = v) then preempted_object dropped (objects s v) else objects s x.
Hypothesis Hqi : rq_inv (order_of s2) (waiting (queues s2)).
Hypothesis Hqp : rq_items (waiting (queues s2)) ≡ₚ v :: rq_items (waiting (queues s)).
Hypothesis Hqf : rq_policy (Q:=Q) = FCFS -> rq_items (waiting (queues s2)) = v :: rq_items (waiting (queues s)).

Lemma after_victim_run : run_inv (req_index p2 + 1) s2 p2.
Proof using All.
  pose proof victim_all as Hperm0. pose proof victim_tally as (Ht1 & Hsub1 & Hnd1 & Hpre1 & Hnew1 & Hres1 & Hskp1 & _ & _).
  assert (v <> r \/ v ∉ scheduled p) as Hvr.
  { destruct (decide (v = r)) as [->|]; [right; apply (mi_fresh _ _ _ _ _ Hmid)|by left]. }
  destruct (victim_index Hvr) as (_ & Hnn & Hdrop). destruct Hmid as [[] _ _ _ _ _ _].
  assert (preempted p2 = preempted p ++ [v]) as Hpre2 by (cbn; by rewrite Hpre1).
  assert (forall x, x ∈ l1 ++ l2 -> objects s2 x = objects s x) as Hobj.
  { intros x [_ Hx]%victim_rest. by rewrite Ho, decide_False. }
  split; rewrite ?Hrun2, ?Hpre2, ?Hsk; try done; cbn [picked req_index set_picked]; unfold request_of.
  - by etrans.
  - cbn. by rewrite Hnew1, Hres1.
  - rewrite Hperm0, <-(assoc_L (++)). apply Permutation_app_head.
    rewrite (assoc_L (++)). by rewrite <-Permutation_cons_append.
  - rewrite Hqp, ri_waiting0. rewrite <-(assoc_L (++)). apply Permutation_middle.
  - intros Hf. destruct (ri_fcfs0 Hf) as [Hr0 Hw0], (Hlast Hf) as [-> ->].
    rewrite reverse_app, Hqf, Hw0, Hr0, Hrun by done. simpl. by rewrite app_nil_r, <-(assoc_L (++)).
  - intros x Hx. rewrite Hobj by done. by apply ri_status0, victim_rest.
  - intros x Hx. rewrite Hobj by done. by apply ri_computed0, victim_rest.
  - intros x Hx. rewrite Ho. destruct (decide (x = v)) as [->|Hne]; [done|].
    apply elem_of_app in Hx as [Hx|Hx%list_elem_of_singleton]; [by apply ri_preempted0|done].
  - intros x Hx. rewrite Ho, decide_False; [by apply ri_others0|]. intros ->. apply Hx. rewrite Hperm0.
    apply elem_of_app. right. left.
  - intros x Hx. pose proof (Hdrop _ Hx) as [? Hm]%ri_todo0. cbn. split; [rewrite Hsub1; tauto|].
    rewrite Hobj; [done|]. eapply elem_of_sublist; [exact Hx|apply sublist_drop].
  - lia.
  - cbn. destruct Ht1. by split.
  - cbn. split; [done|]. intros x [Hx Hne]%Hsub1. apply victim_rest. split; [|done]. by apply ri_scheduled0.
  - by rewrite <-ri_pass0.
Qed.

Lemma after_victim_mid : v <> r -> mid_inv r n K s2 p2.
Proof using All.
  intros Hvr. pose proof after_victim_run. pose proof victim_tally as (_ & Hsub1 & _ & _ & _ & _ & _ & Hbud1 & Hidx1).
  destruct (victim_index (or_introl Hvr)) as (_ & Hnn & _), (victim_position Hvr) as (j & Hj & Hji & Hjf).
  destruct Hmid. split; [done|done| | | | |]; rewrite ?Hrun2; cbn.
  - by exists j.
  - rewrite Hsub1. tauto.
  - by rewrite Ho, decide_False.
  - lia.
  - rewrite Hidx1. rewrite Hrun in mi_measure0. rewrite !length_app in *. cbn [length] in mi_measure0.
    destruct (decide _); lia.
Qed.
End Victim.

Lemma take_back_spec v s p : tally (scheduled p) p ->
  triple (take_back v) (fun _ t => t.1 = s /\ gave_back v p t.2) (s, p).
Proof.
  intros Ht. unfold triple, take_back. wp_go. apply wp_if; intros Hv.
  2:{ apply bool_decide_eq_false in Hv. apply wp_ret. split; [done|by left]. }
  apply bool_decide_eq_true in Hv. apply wp_bind. destruct (py_remove_is_Ok v _ Hv) as [sc Hsc].
  eapply wp_own; [exact Hsc|]. wp_go.
  assert (is_Some (od_get v (num_scheduled_tokens (shares p)))) as [m Hm]
    by (apply od_get_elem_of; by rewrite (ta_keys _ _ Ht)).
  assert (is_Some (od_get v (req_to_new_blocks (shares p)))) as [b Hb]
    by (apply od_get_elem_of; by rewrite (ta_blocks _ _ Ht)).
  eapply wp_own; [by rewrite Hm|]. apply wp_bind. eapply wp_own; [by rewrite Hb|]. wp_go.
  split; [done|]. right. by exists sc, m, a.
Qed.

(** The last running request, when it is not [r], is still to be looked at. *)
Lemma mid_inv_last r n K s p l v : mid_inv r n K s p -> running_of s = l ++ [v] ->
  rq_policy (Q:=Q) = FCFS -> v ∉ scheduled p.
Proof.
  intros [Hi Hidx (j & Hj & _ & Hjf) Hfresh _ _ _] Hl Hf. specialize (Hjf Hf).
  destruct (decide (v = r)) as [->|Hne]; [done|].
  assert (running_of s !! length l = Some v) as Hv by (rewrite Hl, lookup_app_r, Nat.sub_diag by done; done).
  apply lookup_lt_Some in Hj as Hlt. rewrite Hl, length_app in Hlt. cbn [length] in Hlt.
  assert (j <> length l) by (intros ->; congruence).
  apply (ri_todo _ _ _ Hi). apply list_elem_of_lookup. exists (length l - Z.to_nat (req_index p + 1))%nat.
  rewrite lookup_drop, <-Hv. f_equal. lia.
Qed.

Lemma pick_victim_spec r n K s p : mid_inv r n K s p ->
  triple pick_victim (fun v t => exists l1 l2, running_of s = l1 ++ v :: l2 /\
    t.1 = set_running (l1 ++ l2) s /\ gave_back v p t.2 /\
    (rq_policy (Q:=Q) = FCFS -> l2 = [] /\ t.2 = p) /\ (rq_policy (Q:=Q) = FCFS -> v ∉ scheduled p)) (s, p).
Proof.
  intros Hmid. pose proof Hmid as [Hi _ (j & Hj & _) _ _ _ _]. unfold triple, pick_victim. wp_go.
  destruct (running_of s) as [|x xs] eqn:Hrun; [done|]. destruct (rq_policy (Q:=Q)) eqn:Hpol.
  - wp_go. pose proof (@app_removelast_last _ (x :: xs) x ltac:(done)) as Hl.
    pose proof (mid_inv_last _ _ _ _ _ _ _ Hmid ltac:(by rewrite Hrun) Hpol) as Hv.
    exists (removelast (x :: xs)), []. rewrite app_nil_r. split_and!; [done|done|by left|done|done].
  - set (v := py_max _ _ _). assert (v ∈ x :: xs) as Hv.
    { unfold v, py_max. clear. revert x. induction xs as [|y xs IH]; intros x; simpl; [left|].
      destruct (key_lt _ _); [right; apply IH|]. specialize (IH x). apply elem_of_cons in IH as [->|?]; [left|by do 2 right]. }
    apply wp_bind. destruct (py_remove_is_Ok v _ Hv) as [rs Hrs]. eapply wp_own; [exact Hrs|]. wp_go.
    apply py_remove_split in Hrs as (l1 & l2 & Hl & -> & _).
    eapply wp_triple; [apply take_back_spec, (ri_tally _ _ _ Hi)|]. intros _ [s' p'] [Hs Hg]. simpl in Hs, Hg.
    subst s'. apply wp_ret. by exists l1, l2.
Qed.

(** ** Allocating, if need be by preempting others *)

Lemma allocate_or_preempt_spec r n K fuel s p :
  mid_inv r n K s p -> (length (running_of s) < fuel)%nat ->
  triple (allocate_or_preempt fuel r n) (fun o t =>
    match o with Some _ => mid_inv r n K t.1 t.2 | None => exists i, run_inv i t.1 t.2 end) (s, p).
Proof.
  revert s p. induction fuel as [|fuel IH]; intros s p Hmid Hf; [lia|]. unfold triple. cbn [allocate_or_preempt].
  wp_go. destruct a as [o rq]. apply bind_Ok_inv in Hc as ([[o1 rq1] k1] & Ha & Hc). injection Hc as -> -> ->.
  apply allocate_slots_frame in Ha as [Hmemo Hk]. wp_go.
  set (s1 := set_object r _ _). assert (mid_inv r n K s1 p) as Hmid1.
  { destruct Hmid as [Hi Hidx Hin Hfr Hob Hb Hm]. pose proof Hin as (j & Hj & _).
    apply list_elem_of_lookup_2 in Hj. split; try done; cbn.
    - apply (run_inv_memo (req_index p + 1) (set_kv k s) p r rq); [|done|done].
      eapply run_inv_blocks; [exact Hi|]. split; [by apply keeps_kv|done].
    - rewrite decide_True by done. by apply memo_object_next. }
  destruct o as [blocks|]; [by apply wp_ret|]. wp_go.
  eapply wp_triple; [by eapply pick_victim_spec|].
  intros v [s2 p2] (l1 & l2 & Hrun & Hs2 & Hback & Hfc & Hfr). cbn [fst snd] in Hs2, Hback, Hfc. subst s2. wp_go.
  eapply wp_triple; [apply preempt_request_spec|].
  - change (request_of (set_running (l1 ++ l2) s1) v) with (request_of s1 v).
    apply (ri_status _ _ _ (mi_run _ _ _ _ _ Hmid1)). rewrite Hrun. apply elem_of_app. right. left.
  - eapply keeps_inv; [apply keeps_queues|]. apply (ri_queue _ _ _ (mi_run _ _ _ _ _ Hmid1)).
  - intros _ s3 (Hk3 & Hr3 & Hsk3 & Ho3 & Hq3 & Hp3 & Hf3). wp_go.
    assert (keeps s1 s3) as Hk13 by (etrans; [apply keeps_queues|exact Hk3]).
    destruct (decide (v = r)) as [->|Hne].
    { apply wp_ret. eexists. by eapply (after_victim_run r r n K s1 s3 p p2 l1 l2). }
    apply IH; [by eapply (after_victim_mid r v n K s1 s3 p p2 l1 l2)|]. cbn. rewrite Hr3. cbn. change (running_of s1) with (running_of s) in Hrun.
    rewrite Hrun in Hf. rewrite length_app in Hf |- *. cbn [length] in Hf. lia.
Qed.

(** ** The body *)

Hypothesis Hruns : forall r, r ∈ running_of s0 -> request_runs c0 (objects s0 r).
Hypothesis Hconfig : config_ok c0.

(** A scheduled request gets its entry. *)
Lemma tally_share keys p r blocks n : tally keys p -> r ∉ keys -> n <= token_budget p ->
  share_fits c0 (objects s0 r) n -> forall p',
  num_scheduled_tokens (shares p') = od_set r n (num_scheduled_tokens (shares p)) ->
  req_to_new_blocks (shares p') = od_set r blocks (req_to_new_blocks (shares p)) ->
  token_budget p' = token_budget p - n -> tally (keys ++ [r]) p'.
Proof.
  intros [Hk Hb Hs Hbud Hf] Hr Hn Hfit p' Hn' Hb' Ht'. rewrite od_set_fresh in Hn' by by rewrite Hk.
  split; rewrite ?Hn', ?Hb', ?Ht'.
  - rewrite <-Hk. unfold od_keys. by rewrite fmap_app.
  - rewrite od_keys_set. rewrite Hb. by rewrite decide_False.
  - rewrite sum_shares_app. unfold sum_shares at 2. simpl. lia.
  - lia.
  - intros r' n' [Hin|Hin%list_elem_of_singleton]%elem_of_app; [by apply Hf|by simplify_eq].
Qed.

(** The request's draft tokens are used up. *)
Lemma run_inv_spec i s p r : run_inv i s p -> r ∈ running_of s -> r ∉ drop (Z.to_nat i) (running_of s) ->
  run_inv i (set_object r (on_req (set_spec []) (objects s r)) s) p.
Proof.
  intros [] Hr Hd. assert (keeps s (set_object r (on_req (set_spec []) (objects s r)) s)) as Hk by by apply keeps_object.
  split; try done.
  - by etrans.
  - by eapply keeps_inv.
  - intros r' Hr'. unfold request_of. simpl. destruct (decide (r' = r)) as [->|]; by apply ri_status0.
  - intros r' Hr'. unfold request_of. simpl. destruct (decide (r' = r)) as [->|]; by apply ri_computed0.
  - intros r' Hr'. unfold request_of. simpl. destruct (decide (r' = r)) as [->|]; by apply ri_preempted0.
  - intros r' Hr'. simpl. rewrite decide_False; [by apply ri_others0|]. intros ->. apply Hr'.
    rewrite <-ri_perm0. apply elem_of_app. by left.
  - intros r' Hr'. simpl. rewrite decide_False; [by apply ri_todo0|]. by intros ->.
Qed.

Lemma schedule_running_spec r n K blocks inputs budget s p :
  mid_inv r n K s p -> share_fits c0 (objects s0 r) n ->
  triple (schedule_running r n blocks inputs budget) (fun _ t =>
    run_inv (req_index t.2) t.1 t.2 /\ zlen (running_of t.1) - req_index t.2 <= K - 1) (s, p).
Proof.
  intros [Hi Hidx (j & Hj & Hji & _) Hfr Hob Hb Hm] Hfit. unfold triple, schedule_running. wp_go.
  set (p1 := set_index _ _). pose proof (run_inv_NoDup _ _ _ Hi) as Hnd.
  assert (r ∈ running_of s) as Hr by by eapply list_elem_of_lookup_2.
  assert (r ∉ drop (Z.to_nat (req_index p1)) (running_of s)) as Hnot.
  { intros (i & Hl)%list_elem_of_lookup. rewrite lookup_drop in Hl.
    pose proof (NoDup_lookup _ _ _ _ Hnd Hj Hl). subst j. cbn in Hji. lia. }
  assert (run_inv (req_index p1) s p1) as Hi1.
  { destruct Hi. split; try done; cbn.
    - intros x Hx. destruct (ri_todo0 x Hx) as [Hx1 Hx2]. split; [|done].
      intros [Hs| ->%list_elem_of_singleton]%elem_of_app; [done|]. by apply Hnot.
    - by eapply tally_share.
    - destruct ri_scheduled0 as [Hnds Hsub]. split.
      + apply NoDup_app. split; [done|]. split; [|apply NoDup_singleton].
        intros x Hx ->%list_elem_of_singleton. done.
      + intros x [Hx| ->%list_elem_of_singleton]%elem_of_app; [by apply Hsub|done]. }
  assert (forall s2 p2, run_inv (req_index p1) s2 p2 -> req_index p2 = req_index p1 ->
    running_of s2 = running_of s -> wp (allocate_encoder_inputs r inputs budget) (fun _ t =>
      run_inv (req_index t.2) t.1 t.2 /\ zlen (running_of t.1) - req_index t.2 <= K - 1)
      (fun _ => False) (fun _ => False) (s2, p2)) as Hend.
  { intros s2 p2 Hi2 Hx2 Hr2. eapply wp_triple; [apply allocate_inputs_spec|].
    intros _ [s3 p3] [Hob3 Ht3]. cbn [fst snd] in *. pose proof Ht3 as (_ & _ & _ & _ & _ & Hx3 & _).
    rewrite Hx3, Hx2. destruct Hob3 as (? & ? & Hq3). split.
    - eapply run_inv_pass; [|exact Ht3]. by eapply run_inv_blocks.
    - rewrite Hq3, Hr2. cbn. lia. }
  apply wp_when; intros _; [|by apply Hend]. wp_go.
  apply wp_when; intros _; wp_go; (apply Hend; [|done|done]); apply run_inv_spec; try done.
  by eapply run_inv_pass.
Qed.

(** A request is left out of this step. *)
Lemma run_inv_skip s p : run_inv (req_index p) s p ->
  run_inv (req_index (set_index (req_index p + 1) p)) s (set_index (req_index p + 1) p).
Proof.
  intros Hi. apply (run_inv_later _ (req_index p + 1)) in Hi; [|lia]. destruct Hi. split; try done.
  destruct ri_tally0. by split.
Qed.

(** The Mamba split of a running request's tokens. *)
Lemma split_tokens_bounds c rq n : config_ok c -> 0 <= n ->
  0 <= (if need_mamba_block_aligned_split c then mamba_block_aligned_split (split_config c) rq n 0 0 else n) <= n.
Proof.
  intros Hc Hn. destruct (need_mamba_block_aligned_split c) eqn:Hneed; [|lia].
  apply mamba_split_bounds; [|done]. by apply (co_block_size _ Hc).
Qed.

Definition room s p : Z := zlen (running_of s) - req_index p.

Lemma running_body_spec threshold defer_prefills s p :
  run_inv (req_index p) s p -> 0 < token_budget p -> req_index p < zlen (running_of s) ->
  let next t := run_inv (req_index t.2) t.1 t.2 /\ room t.1 t.2 < room s p in
  wp (running_body threshold defer_prefills) (fun _ => next) next
    (fun t => exists i, run_inv i t.1 t.2) (s, p).
Proof.
  intros Hi Hbud Hidx next. pose proof (ri_index _ _ _ Hi) as Hnn. unfold running_body. wp_go.
  destruct (lookup_lt_is_Some_2 (running_of s) (Z.to_nat (req_index p))) as [r Hr]; [lia|].
  eapply wp_own; [by apply py_index_Ok|]. assert (next (s, set_index (req_index p + 1) p)) as Hskip.
  { split; [by apply run_inv_skip|]. unfold room. cbn. lia. }
  assert (r ∉ scheduled p /\ memo_object (objects s0 r) (objects s r)) as [Hfr Hob].
  { apply (ri_todo _ _ _ Hi), list_elem_of_lookup. exists 0%nat. by rewrite lookup_drop, Nat.add_0_r. }
  assert (r ∈ running_of s0) as Hr0.
  { rewrite <-(ri_perm _ _ _ Hi). apply elem_of_app. left. by eapply list_elem_of_lookup_2. }
  pose proof (memo_object_runs _ _ _ Hob (Hruns r Hr0)) as Hq. pose proof (kp_config _ _ (ri_keeps _ _ _ Hi)) as Hcfg.
  apply wp_if; intros _; [by wp_go|]. wp_go. rewrite Hcfg.
  destruct (running_tokens_bounds c0 threshold (token_budget p) _ Hq Hbud) as [Hn Hfit].
  eapply wp_triple; [apply plan_encoder_spec; [apply (rr_features _ _ Hq)|apply Hn]|].
  intros [[inputs n1] new_budget] [s1 p1] (Hob1 & Hp1 & Hn1). cbn [fst snd] in Hob1, Hp1, Hn1. subst p1. cbn beta iota.
  destruct (split_tokens_bounds c0 (req (objects s r)) n1 Hconfig (proj1 Hn1)) as [Hn2 Hn2'].
  set (n2 := if need_mamba_block_aligned_split c0 then _ else n1) in *.
  pose proof (run_inv_blocks _ _ _ _ Hi Hob1) as Hi1. pose proof Hob1 as (_ & Hos1 & Hqs1).
  apply wp_if; intros Hz.
  { wp_go. split; [by apply run_inv_skip|]. unfold room. cbn. rewrite Hqs1. lia. }
  apply Z.eqb_neq in Hz. wp_go. apply (share_fits_less _ _ _ n2) in Hfit; [|lia|lia].
  apply (memo_object_fits _ _ _ _ Hob) in Hfit.
  assert (mid_inv r n2 (room s p) s1 p) as Hmid.
  { split; try done.
    - eapply run_inv_later; [exact Hi1|lia].
    - exists (Z.to_nat (req_index p)). rewrite Hqs1. split_and!; [done|lia|lia].
    - by rewrite Hos1.
    - lia.
    - rewrite Hqs1. unfold room. lia. }
  eapply wp_triple; [apply (allocate_or_preempt_spec r n2 (room s p)); [exact Hmid|rewrite Hqs1; lia]|].
  intros [blocks|] [s2 p2] Hres; [|by wp_go]. cbn [fst snd] in Hres.
  eapply wp_triple; [by eapply schedule_running_spec|]. intros _ t [Ht Hm]. split; [done|]. unfold room in *. lia.
Qed.

Lemma running_loop_spec threshold defer_prefills : run_inv (req_index p0) s0 p0 ->
  triple (running_loop threshold defer_prefills) (fun _ t => exists i, run_inv i t.1 t.2) (s0, p0).
Proof.
  intros Hi. unfold triple, running_loop.
  apply (wp_while (fun t => run_inv (req_index t.2) t.1 t.2) (fun t => exists i, run_inv i t.1 t.2)
    (fun t => Z.to_nat (room t.1 t.2))).
  - intros [s p] Hs Hc. unfold more_running in Hc. apply andb_true_iff in Hc as [Hidx%Z.ltb_lt Hbud%Z.ltb_lt].
    cbn [fst snd] in *. eapply wp_mono; [by apply running_body_spec| | |done]; cbn beta;
      unfold room; intros; destruct_and?; split; try done; lia.
  - done.
  - unfold room. pose proof (ri_index _ _ _ Hi). cbn. lia.
  - intros [s p] Hs _. by eexists.
  - done.
Qed.
End Running.
