(* ===== verification/SchedWaiting.v ===== *)
(** The loop over the waiting requests of [Scheduler.schedule],
    src/upstream/vllm/v1/core/sched/scheduler.py: its invariant, and that it ends
    with it; no request is lost, and under first come, first served the queues'
    order is kept. *)
From S2P Require Import Prelude Bisect FreeQueue Request BlockHash BlockPool EncoderCache CacheHit SingleType GroupManager Coordinator KVCacheManager KVLifecycle KVFrame Heapq RequestQueue ChunkPlan EncoderPlan SchedMonad SchedState SchedOps Schedule SchedFrame SchedRunning.
From Stdlib Require Import QArith.Qcanon.
Open Scope Z_scope.

(** * Requests that wait *)

(** A lookup leaves at most a memo and a boundary behind. *)
Definition looked (q q' : SReq) : Prop :=
  exists m b, q' = with_req (set_boundary b (with_memo m (req q))) q.

#[export] Instance looked_preorder : PreOrder looked.
Proof.
  split; [intros [[] ]; by eexists _, _|]. intros q1 q2 q3 (m & b & ->) (m' & b' & ->). by exists m', b'.
Qed.

Lemma looked_memo q rq : memo_only (req q) rq -> looked q (with_req rq q).
Proof. intros [m ->]. exists m, (shared_prefix_boundary (req q)). by destruct q as [[]]. Qed.

Lemma looked_boundary q rq b : memo_only (req q) rq -> looked q (with_req (set_boundary b rq) q).
Proof. intros [m ->]. by exists m, b. Qed.

Lemma looked_identity q q' : looked q q' -> same_identity (req q) (req q').
Proof. by intros (m & b & ->). Qed.

(** A request that may start to run. *)
Record ready (q : SReq) : Prop := {
  rd_status : status (req q) = WAITING \/ status (req q) = PREEMPTED;
  rd_computed : 0 <= num_computed_tokens (req q) < num_tokens (req q);
  rd_fresh : has_prefill_stats q = true -> num_preemptions (req q) <= 0 ->
    num_tokens (req q) <= num_prompt_tokens (req q);
  rd_features : ascending (feature_start <$> mm_features (req q))
}.

Lemma looked_ready q q' : looked q q' -> ready q -> ready q'.
Proof. intros (m & b & ->) []. by split. Qed.

(** The statuses of the queues' requests. *)
Definition waiting_status (st : RequestStatus) : Prop :=
  st = WAITING \/ st = PREEMPTED \/ is_blocked_waiting_status st = true.

Lemma ready_waits q : ready q -> waiting_status (status (req q)).
Proof. intros [[|] _ _ _]; [by left|by right; left]. Qed.

(** What [schedule] relies on when a KV connector reports [ext] tokens beyond the
    [n] local ones: an asynchronous load loads something (the documentation of
    [get_num_new_matched_tokens]), no load goes past the request ([schedule] asserts
    this), and a synchronous one leaves a token to compute (it asserts
    [num_new_tokens > 0]). *)
Class ConnectorLaws (C : Type) `{KVConnector C} :=
  matched_tokens rq n (c : C) ext async c' :
    kc_get_num_new_matched_tokens rq n c = Ok (Some ext, async, c') -> 0 <= n < num_tokens rq ->
    0 <= ext /\ n + ext <= num_tokens rq /\
    if async then 0 < ext else n + ext < num_tokens rq.

Section Attends.
Context `{PoolEnv} `{GroupManager M} `{!CacheFrame M} `{EncoderCache E} `{RequestQueueLaws Q} `{KVConnector C}.
Local Abbreviation state := (Scheduler M E Q C).
Local Abbreviation step := (Scheduler M E Q C * Pass Q)%type.
Implicit Types (r : ref) (s : state) (p : Pass Q).

(** A request in a queue. *)
Record request_waits s r : Prop := {
  rw_status : waiting_status (status (request_of s r));
  rw_tokens : 1 <= num_tokens (request_of s r);
  rw_computed : 0 <= num_computed_tokens (request_of s r);
  rw_unblocked : status (request_of s r) <> WAITING_FOR_REMOTE_KVS ->
    num_computed_tokens (request_of s r) < num_tokens (request_of s r);
  rw_remote : status (request_of s r) = WAITING_FOR_REMOTE_KVS -> is_Some (connector s) /\
    num_computed_tokens (request_of s r) <= num_tokens (request_of s r) /\
    (r ∈ failed_recving_kv_req_ids (notices s) ->
       num_computed_tokens (request_of s r) < num_tokens (request_of s r));
  rw_streaming : status (request_of s r) = WAITING_FOR_STREAMING_REQ ->
    streaming_queue (objects s r) = None \/ streaming_queue (objects s r) = Some [];
  rw_fresh : has_prefill_stats (objects s r) = true -> num_preemptions (request_of s r) <= 0 ->
    num_tokens (request_of s r) <= num_prompt_tokens (request_of s r);
  rw_features : ascending (feature_start <$> mm_features (request_of s r))
}.

Lemma request_waits_ready s r :
  request_waits s r -> is_blocked_waiting_status (status (request_of s r)) = false -> ready (objects s r).
Proof.
  intros [[Hs|[Hs|Hs]]] Hb; unfold request_of in *; try congruence; split; auto;
    split; auto; apply rw_unblocked0; congruence.
Qed.

Lemma request_waits_keeps s s' r :
  keeps s s' -> objects s' r = objects s r -> request_waits s r -> request_waits s' r.
Proof.
  intros Hk Ho []. unfold request_of in *. split; unfold request_of; rewrite ?Ho; try done.
  intros Hs. destruct (rw_remote0 Hs) as (Hc & ? & Hf). split_and!; [by apply (kp_connector _ _ Hk)|done|].
  intros Hr. apply Hf, (kp_failed _ _ Hk), Hr.
Qed.

(** Nothing but [r]'s object and what [keeps] forgets changed. *)
Definition attends r s s' : Prop :=
  keeps s s' /\ queues s' = queues s /\ forall r', r' <> r -> objects s' r' = objects s r'.

#[export] Instance attends_preorder r : PreOrder (attends r).
Proof.
  split; [by intros s|]. intros s1 s2 s3 (? & Hq1 & Ho1) (? & Hq2 & Ho2). split_and!; [by etrans|congruence|].
  intros r' Hr'. by rewrite Ho2, Ho1.
Qed.

Lemma attends_blocks r s s' : only_blocks s s' -> attends r s s'.
Proof. intros (? & Ho & ?). split_and!; [done..|]. intros r' _. by rewrite Ho. Qed.

Lemma attends_object r s q : same_identity (req (objects s r)) (req q) -> attends r s (set_object r q s).
Proof.
  intros Hq. split_and!; [by apply keeps_object|done|]. intros r' Hr'. simpl. by rewrite decide_False.
Qed.

(** * Promoting a blocked request *)

(** A load is over: the object gets a count below its length, and a memo. *)
Definition received (q q' : SReq) : Prop := exists m n,
  q' = with_req (set_computed n (with_memo m (req q))) q /\ 0 <= n < num_tokens (req q).

Lemma wp_on_kv_request r f (Qp : unit -> state -> Prop) Cp Bp s :
  (forall rq k, f (request_of s r) (kv_cache_manager s) = Ok (rq, k) ->
     Qp tt (set_object r (with_req rq (objects s r)) (set_kv k s))) ->
  wp (on_kv_request r f) Qp Cp Bp s.
Proof. intros HQ. unfold on_kv_request. wp_go. by apply HQ. Qed.

Lemma received_memo q m : 0 <= num_computed_tokens (req q) < num_tokens (req q) ->
  received q (with_req (with_memo m (req q)) q).
Proof. intros Hn. exists m, (num_computed_tokens (req q)). split; [by destruct q as [[]]|done]. Qed.

Lemma received_same q : 0 <= num_computed_tokens (req q) < num_tokens (req q) -> received q q.
Proof.
  intros Hn. exists (embeds_memo (req q)), (num_computed_tokens (req q)). split; [by destruct q as [[]]|done].
Qed.

Lemma attends_kv_object r s rq k : memo_only (request_of s r) rq -> kv_frame (kv_cache_manager s) k ->
  attends r s (set_object r (with_req rq (objects s r)) (set_kv k s)).
Proof.
  intros Hm Hk. etrans; [|apply attends_object; by apply memo_identity].
  split_and!; [by apply keeps_kv|done..].
Qed.

Lemma attends_kv r s k : kv_frame (kv_cache_manager s) k -> attends r s (set_kv k s).
Proof. intros Hk. split_and!; [by apply keeps_kv|done..]. Qed.

Lemma attends_notices r s n :
  failed_recving_kv_req_ids n ⊆ failed_recving_kv_req_ids (notices s) -> attends r s (set_notices n s).
Proof. intros Hn. split_and!; [by apply keeps_notices|done..]. Qed.

Lemma update_remote_spec r s : request_waits s r -> status (request_of s r) = WAITING_FOR_REMOTE_KVS ->
  r ∈ finished_recving_kv_req_ids (notices s) ->
  triple (update_waiting_for_remote_kv r) (fun _ s' => attends r s s' /\ received (objects s r) (objects s' r)) s.
Proof.
  intros Hw Hst Hfin. destruct (rw_remote _ _ Hw Hst) as ([c Hc] & Hle & Hfail).
  pose proof (rw_computed _ _ Hw) as Hnn. pose proof (rw_tokens _ _ Hw) as Hn.
  unfold triple, update_waiting_for_remote_kv. wp_go. apply wp_check; [by rewrite Hc|]. wp_go.
  set (post := fun (_ : unit) s' => attends r s s' /\ received (objects s r) (objects s' r)).
  assert (forall s1, post tt s1 -> finished_recving_kv_req_ids (notices s1) = finished_recving_kv_req_ids (notices s) ->
    wp (let* n := gets notices in
        if bool_decide (r ∈ finished_recving_kv_req_ids n)
        then on_notices (fun n => with_recving (finished_recving_kv_req_ids n ∖ {[r]}) (failed_recving_kv_req_ids n) n)
        else raise KeyError) post (fun _ => False) (fun _ => False) s1) as Hend.
  { intros s1 [Ha Hr] Hf. wp_go. rewrite bool_decide_true by by rewrite Hf. wp_go. split; [|done].
    etrans; [exact Ha|]. split_and!; [by apply keeps_notices|done..]. }
  apply wp_if; intros Hfailed.
  - apply bool_decide_eq_true in Hfailed. specialize (Hfail Hfailed). apply wp_bind.
    assert (forall s1, post tt s1 -> notices s1 = notices s -> post tt (set_notices (with_recving
      (finished_recving_kv_req_ids (notices s1)) (failed_recving_kv_req_ids (notices s1) ∖ {[r]}) (notices s1)) s1)) as Hnote.
    { intros s1 [Ha Hr] Hs1. split; [|done]. etrans; [exact Ha|]. apply attends_notices. set_solver. }
    apply wp_if; intros Hz.
    + wp_go. apply wp_on_kv_request. intros rq k Hk. apply kv_cache_frame in Hk as [Hm Hk].
      set (s1 := set_object r _ _). assert (post tt s1) as Hs1.
      { split; [by apply attends_kv_object|]. simpl. rewrite decide_True by done.
        destruct Hm as [m ->]. by apply received_memo. }
      apply wp_when; intros _; wp_go; apply Hend; try done; [|by apply Hnote].
      apply silently_inv, kv_zeroing_frame in Hc0. apply (Hnote (set_kv _ s1)); [|done].
      destruct Hs1 as [Ha Hr]. split; [|done]. etrans; [exact Ha|]. by apply attends_kv.
    + wp_go. apply Hend; [|done]. apply (Hnote (set_kv _ s)); [|done].
      apply silently_inv, kv_free_frame in Hc0. split; [by apply attends_kv|].
      by apply received_same.
  - wp_go. apply wp_on_kv_request. intros rq k Hk. apply kv_cache_frame in Hk as [Hm Hk].
    set (s1 := set_object r _ _). assert (attends r s s1) as Ha by by apply attends_kv_object.
    assert (objects s1 r = with_req rq (objects s r)) as Ho by (simpl; by rewrite decide_True).
    wp_go. rewrite Ho. destruct Hm as [m ->]. apply wp_when; intros Hz; wp_go; apply Hend; try done.
    + split; [etrans; [exact Ha|]; apply attends_object; by rewrite Ho|]. rewrite Ho. simpl.
      rewrite decide_True by done. exists m, (num_tokens (request_of s r) - 1). split; [done|].
      change (num_tokens (request_of s r)) with (num_tokens (req (objects s r))) in *. lia.
    + split; [done|]. rewrite Ho. apply received_memo. apply Z.eqb_neq in Hz. unfold request_of in *.
      change (num_computed_tokens (req (objects s r)) <> num_tokens (req (objects s r))) in Hz. lia.
Qed.

Lemma promote_spec r s : request_waits s r -> is_blocked_waiting_status (status (request_of s r)) = true ->
  triple (try_promote_blocked_waiting_request r) (fun b s' => attends r s s' /\
    if b then ready (objects s' r) else objects s' r = objects s r) s.
Proof.
  intros Hw Hb. pose proof Hw as []. unfold triple, try_promote_blocked_waiting_request. wp_go.
  unfold request_of in *. destruct (status (req (objects s r))) eqn:Hst; try done.
  - destruct (grammar (objects s r)); wp_go; [done| |].
    + split; [by apply attends_object|]. simpl. rewrite decide_True by done.
      split; try done; [by left|]. split; [done|]. by apply rw_unblocked0.
    + split; [by apply attends_notices|done].
  - wp_go. apply wp_if; intros Hfin; [by wp_go|]. apply negb_false_iff, bool_decide_eq_true in Hfin. wp_go.
    eapply wp_triple; [by apply update_remote_spec|]. intros _ s1 (Ha & m & n & Ho & Hn). wp_go.
    split; [etrans; [exact Ha|]; by apply attends_object|]. simpl. rewrite decide_True, Ho by done. simpl.
    split; try done. simpl. case_match; [by left|by right].
  - wp_go. apply wp_check; [|by wp_go]. by destruct (rw_streaming0 eq_refl) as [->| ->].
Qed.

(** * What a waiting request has computed *)

Definition lookup_ok (q : SReq) (l : Lookup) : Prop :=
  0 <= lk_computed l <= num_tokens (req q) /\
  if lk_async l then 0 < lk_external l else lk_computed l < num_tokens (req q).

(** A request was looked up. *)
Definition looks r s s' : Prop := attends r s s' /\ looked (objects s r) (objects s' r).

#[export] Instance looks_preorder r : PreOrder (looks r).
Proof. split; [by intros s|]. intros s1 s2 s3 [] []. split; by etrans. Qed.

Lemma looks_blocks r s s' : only_blocks s s' -> looks r s s'.
Proof. intros Hb. split; [by apply attends_blocks|]. destruct Hb as (_ & -> & _). done. Qed.

Lemma looks_object r s q : looked (objects s r) q -> looks r s (set_object r q s).
Proof.
  intros Hq. split; [by apply attends_object, looked_identity|]. simpl. by rewrite decide_True.
Qed.

Lemma looks_kv r s k : kv_frame (kv_cache_manager s) k -> looks r s (set_kv k s).
Proof. intros Hk. apply looks_blocks. split; [by apply keeps_kv|done]. Qed.

Lemma looks_tokens r s s' : looks r s s' -> num_tokens (req (objects s' r)) = num_tokens (req (objects s r)).
Proof. by intros [_ (m & b & ->)]. Qed.

(** The coordinator was set up for lookups. *)
Definition lookups_ok s : Prop := hit_shape (coordinator (kv_cache_manager s)).

Lemma lookups_ok_keeps s s' : keeps s s' -> lookups_ok s -> lookups_ok s'.
Proof.
  intros Hk. apply hit_shape_frame. destruct (kp_kv _ _ Hk) as (ms & p & pins & ->). by exists ms, p.
Qed.

Lemma local_lookup_spec r s p : lookups_ok s -> 1 <= num_tokens (request_of s r) ->
  triple (local_lookup r) (fun a t => looks r s t.1 /\ t.2 = p /\ 0 <= a.2 <= num_tokens (request_of s r) - 1) (s, p).
Proof.
  intros Hc Hn. unfold triple, local_lookup. wp_go. destruct a as [[[blocks n] b] rq].
  apply bind_Ok_inv in Hc0 as ([[[[bs n1] b1] rq1] k1] & Hg & Hr). injection Hr as -> -> -> -> ->.
  apply get_computed_bound in Hg as (Hb & Hm & Hk); [|done..]. wp_go. split_and!; [|done|simpl; lia..].
  etrans; [by apply looks_kv|]. by apply looks_object, looked_boundary.
Qed.

Lemma diverging_lookup_spec r s p : lookups_ok s -> 1 <= num_tokens (request_of s r) ->
  triple (diverging_lookup r) (fun a t =>
    looks r s t.1 /\ t.2 = p /\ 0 <= a.1.2 <= num_tokens (request_of s r) - 1) (s, p).
Proof.
  intros Hc Hn. unfold triple, diverging_lookup. wp_go. destruct a as [[[[blocks n] b] d] rq].
  apply bind_Ok_inv in Hc0 as ([[[[[bs n1] b1] d1] rq1] k1] & Hg & Hr). injection Hr as -> -> -> -> -> ->.
  apply get_computed_connector_bound in Hg as (Hb & Hm & Hk); [|done..]. wp_go. split_and!; [|done|simpl; lia..].
  etrans; [by apply looks_kv|]. by apply looks_object, looked_boundary.
Qed.

Section Lookup.
Context `{!ConnectorLaws C}.
Variable w : Which.

(** What a lookup that makes the request wait reaches. *)
Variable waited : step -> Prop.
Definition waits_after r s p : Prop := forall s', looks r s s' ->
  triple (skip_request w r) (fun _ => waited) (s', p).

Lemma waits_after_looks r s s' p : waits_after r s p -> looks r s s' -> waits_after r s' p.
Proof. intros Hw Hl s2 Hl2. apply Hw. by etrans. Qed.

(** The connector's answer, trimmed to whole blocks of the local hit. *)
Definition found_ok (q : SReq) (local external : Z) (async : bool) : Prop :=
  0 <= local < num_tokens (req q) /\ 0 <= local + external <= num_tokens (req q) /\
  if async then 0 < external else local + external < num_tokens (req q).
Definition found_lookup (q : SReq) (a : KVCacheBlocks * Z * Z * bool) : Prop :=
  let '(blocks, local, external, async) := a in
  lookup_ok q (mkLookup blocks local external (local + external) async).

Lemma relook_spec r s0 s p (d async : bool) blocks local external :
  looks r s0 s -> lookups_ok s0 -> found_ok (objects s0 r) local external async ->
  triple (if d && (external =? 0) then
            let* again := local_lookup r in ret (again.1, again.2, external, async)
          else ret (blocks, local, external, async))
    (fun a t => looks r s0 t.1 /\ t.2 = p /\ found_lookup (objects s0 r) a) (s, p).
Proof.
  intros Hs Hl (Hloc & Hle & Has). unfold triple. apply wp_if; intros He; [|apply wp_ret; by split_and!].
  apply andb_true_iff in He as [_ He%Z.eqb_eq]. subst external. destruct async; [lia|].
  pose proof (looks_tokens _ _ _ Hs). apply wp_bind. eapply wp_triple; [apply local_lookup_spec|].
  - eapply lookups_ok_keeps; [apply (proj1 Hs)|done].
  - unfold request_of. lia.
  - intros [bs n] [s3 p3] (Hs3 & Hp3 & Hn3). cbn [fst snd] in *. apply wp_ret. unfold request_of in *.
    split; [by etrans|]. split; [done|]. unfold found_lookup, lookup_ok. simpl. lia.
Qed.

Lemma connector_lookup_spec c r s p : lookups_ok s -> config_ok (config s) ->
  1 <= num_tokens (request_of s r) -> waits_after r s p ->
  wp (connector_lookup w c r) (fun a t => looks r s t.1 /\ t.2 = p /\
    found_lookup (objects s r) a) waited (fun _ => False) (s, p).
Proof.
  intros Hl Hcfg Hn Hwait. unfold connector_lookup. apply wp_bind.
  eapply wp_triple; [by apply diverging_lookup_spec|].
  intros [[blocks local] d] [s1 p1] (Hs1 & Hp1 & Hloc). cbn [fst snd] in Hs1, Hp1, Hloc. subst p1. wp_go.
  rewrite (kp_config _ _ (proj1 (proj1 Hs1))) in Hc |- *. set (tail := local mod _) in *.
  assert (0 <= tail <= local) as Htail.
  { pose proof (co_sched_block_size _ Hcfg). unfold tail. split; [by apply Z.mod_pos_bound|].
    apply Z.mod_le; lia. }
  destruct a as [[ext|] got_async].
  2:{ wp_go. eapply wp_triple; [apply Hwait|by wp_go]. etrans; [exact Hs1|]. apply looks_blocks.
      split; [apply keeps_connector|done]. }
  apply matched_tokens in Hc; [|pose proof (looks_tokens _ _ _ Hs1); unfold request_of in *; lia].
  set (s2 := set_connector _ _). assert (looks r s s2) as Hs2.
  { etrans; [exact Hs1|]. apply looks_blocks. split; [apply keeps_connector|done]. }
  pose proof (looks_tokens _ _ _ Hs1) as Ht. unfold request_of in *. unfold lookup_ok. apply wp_bind.
  assert (forall blocks1 local1 external1 (async1 : bool), found_ok (objects s r) local1 external1 async1 ->
    wp (if d && (external1 =? 0) then
          let* again := local_lookup r in ret (again.1, again.2, external1, async1)
        else ret (blocks1, local1, external1, async1))
      (fun a t => looks r s t.1 /\ t.2 = p /\ found_lookup (objects s r) a) waited (fun _ => False) (s2, p)) as Hend.
  { intros blocks1 local1 external1 async1 Hf. eapply wp_triple; [by apply relook_spec|]. done. }
  apply wp_if; intros Htr.
  - unfold truncated. wp_go. apply andb_true_iff in Htr as [_ Htr%Z.ltb_lt]. apply Hend. unfold found_ok. split; [lia|].
    destruct got_async; lia.
  - apply wp_if; intros Htz; wp_go; apply Hend; unfold found_ok; [lia|].
    apply negb_false_iff, Z.eqb_eq in Htz. split; [lia|]. destruct got_async; lia.
Qed.

Lemma find_computed_spec r s p : lookups_ok s -> config_ok (config s) -> ready (objects s r) ->
  waits_after r s p ->
  wp (find_computed w r) (fun l t => looks r s t.1 /\ t.2 = p /\ lookup_ok (objects s r) l)
    waited (fun _ => False) (s, p).
Proof.
  intros Hl Hcfg Hr Hwait. pose proof Hr as []. unfold find_computed. wp_go.
  apply wp_if; intros Hz.
  2:{ wp_go. split; [done|]. split; [done|]. unfold lookup_ok. simpl. lia. }
  apply wp_bind. set (found := fun a (t : step) => looks r s t.1 /\ t.2 = p /\ found_lookup (objects s r) a).
  assert (forall a t, found a t ->
    wp (let '(blocks, local, external, load_kv_async) := a in
        let* s1 := the_sched in
        check (local + external <=? num_tokens (req (objects s1 r))) ;;
        when (has_prefill_stats (objects s1 r) && (num_preemptions (req (objects s1 r)) <=? 0))
          (check (local + external <=? num_prompt_tokens (req (objects s1 r)))) ;;
        ret (mkLookup blocks local external (local + external) load_kv_async))
      (fun l t => looks r s t.1 /\ t.2 = p /\ lookup_ok (objects s r) l) waited (fun _ => False) t) as Hend.
  { intros [[[blocks local] external] async] [s1 p1] (Hs1 & Hp1 & Hf). cbn [fst snd] in Hs1, Hp1. subst p1.
    wp_go. pose proof Hf as [Hle _]. cbn in Hle. pose proof (proj2 Hs1) as (m & b & Ho). rewrite Ho.
    apply wp_check; [apply Z.leb_le; cbn; exact (proj2 Hle)|]. apply wp_bind.
    apply wp_when; intros Hst; [|by wp_go]. apply wp_check; [|by wp_go]. apply Z.leb_le.
    apply andb_true_iff in Hst as [Hst Hpre%Z.leb_le]. specialize (rd_fresh0 Hst Hpre). cbn. lia. }
  destruct (connector s) as [c|].
  - eapply wp_mono; [apply connector_lookup_spec; [done|done|unfold request_of; lia|done]| |done..].
    intros a t Ha. by apply (Hend a t).
  - apply wp_bind. eapply wp_triple; [apply local_lookup_spec; [done|unfold request_of; lia]|].
    intros [bs n] t (Hs1 & Hp1 & Hn). apply wp_ret. apply (Hend (bs, n, 0, false)). unfold request_of in Hn. cbn [fst snd] in Hn.
    split; [done|]. split; [done|]. unfold found_lookup, lookup_ok. simpl. lia.
Qed.
End Lookup.

(** * The tokens of a waiting request *)

(** Its share: more than nothing, and no more than it has, or, when its drafts are
    padded, within the model's length. *)
Definition admitted_fits (c : SchedConfig) (rq : Request) (computed n : Z) : Prop :=
  0 < n /\ computed + n <= Z.max (num_tokens rq) (max_model_len c).

Lemma waiting_tokens_spec threshold r computed s p :
  computed < num_tokens (request_of s r) -> 0 < token_budget p ->
  wp (waiting_tokens threshold r computed) (fun a t => t = (s, p) /\
    a.1 <= token_budget p /\ admitted_fits (config s) (request_of s r) computed a.1)
    (fun _ => False) (fun t => t = (s, p)) (s, p).
Proof.
  intros Hc Hb. unfold waiting_tokens, admitted_fits. wp_go. set (pad := pads_spec_decode _ _ _).
  assert (pad = true -> 0 < num_spec_tokens (config s)) as Hpad.
  { unfold pad, pads_spec_decode. rewrite !andb_true_iff, Z.ltb_lt. tauto. }
  apply wp_if; intros Hbr; [by wp_go|]. apply wp_if; intros _; [by wp_go|]. apply wp_bind.
  set (n := if pad then _ else _) in *.
  assert (0 < n /\ computed + n <= Z.max (num_tokens (request_of s r)) (max_model_len (config s))) as [Hn Hle].
  { unfold n. destruct pad; simpl in Hbr; [|lia]. apply orb_false_iff in Hbr as [_ Hm%Z.ltb_ge].
    specialize (Hpad eq_refl). fold n in Hm |- *. unfold n. lia. }
  set (n' := if (0 <? threshold) && (threshold <? n) then threshold else n).
  assert (0 < n' <= n) as Hn'.
  { unfold n'. destruct (Z.ltb_spec 0 threshold); cbn [andb]; [destruct (Z.ltb_spec threshold n)|]; lia. }
  apply wp_check; [apply Z.ltb_lt; lia|]. wp_go. split; [done|]. cbn [fst]. lia.
Qed.

Lemma plan_inputs_spec r computed n s p :
  ascending (feature_start <$> mm_features (request_of s r)) -> 0 < n ->
  triple (plan_encoder r computed n) (fun plan t => only_blocks s t.1 /\ t.2 = p /\
    0 <= plan.1.2 <= n /\ (has_encoder_inputs (request_of s r) = false -> plan.1.2 = n)) (s, p).
Proof.
  intros Hasc Hn. destruct (has_encoder_inputs (request_of s r)) eqn:Henc.
  - eapply wp_mono; [apply plan_encoder_spec; [done|lia]| |done..]. intros a t (? & ? & ?).
    split; [done|]. split; [done|]. by split.
  - unfold triple, plan_encoder. wp_go. rewrite Henc. wp_go. split; [done|]. split; [done|].
    split; [simpl; lia|done].
Qed.

Lemma plan_waiting_spec threshold defer_prefills r l s p :
  lookup_ok (objects s r) l -> ascending (feature_start <$> mm_features (request_of s r)) ->
  config_ok (config s) -> 0 < token_budget p ->
  wp (plan_waiting threshold defer_prefills r l) (fun a t => only_blocks s t.1 /\ t.2 = p /\
    (lk_async l = false -> a.1.1.1 <= token_budget p /\
       admitted_fits (config s) (request_of s r) (lk_computed l) a.1.1.1))
    (fun _ => False) (fun t => only_blocks s t.1 /\ t.2 = p) (s, p).
Proof.
  intros [Hle Hl] Hasc Hcfg Hb. unfold plan_waiting. wp_go. destruct (lk_async l) eqn:Has.
  { apply wp_bind, wp_check; [by apply Z.ltb_lt|]. wp_go. rewrite andb_false_r. wp_go. by split. }
  rewrite andb_true_r. apply wp_if; intros _; [by wp_go; split|]. apply wp_bind.
  eapply wp_mono; [by apply waiting_tokens_spec| |done|by intros t ->].
  intros [n pad] t (-> & Hn & Hfit). cbn [fst snd] in *. apply wp_bind.
  eapply wp_triple; [apply plan_inputs_spec; [done|apply Hfit]|].
  intros [[inputs n1] nb] [s1 p1] (Hs1 & Hp1 & Hn1 & Hne). cbn [fst snd] in *. subst p1.
  apply wp_if; intros Hz; [by wp_go|]. wp_go.
  assert (0 < n1) as Hpos.
  { destruct (has_encoder_inputs (request_of s r)); [|rewrite Hne by done; apply Hfit].
    apply Z.eqb_neq in Hz. lia. }
  assert (forall m, 0 < m <= n1 -> m <= token_budget p /\ admitted_fits (config s) (request_of s r) (lk_computed l) m) as Hm.
  { intros m Hm. unfold admitted_fits in *. lia. }
  apply wp_if; intros Hmam; [|wp_go; split; [done|]; split; [done|]; intros _; apply Hm; cbn [fst]; lia].
  destruct (mamba_split_bounds (split_config (config s)) (request_of s r) n1 (lk_local l) (lk_external l)).
  { by apply (co_block_size _ Hcfg). } { lia. }
  apply wp_if; intros Hz2; [by wp_go|]. apply Z.eqb_neq in Hz2. wp_go.
  split; [done|]. split; [done|]. intros _. apply Hm. cbn [fst]. lia.
Qed.

Lemma allocate_waiting_spec r l n inputs s p :
  wp (allocate_waiting r l n inputs) (fun _ t => looks r s t.1 /\ t.2 = p) (fun _ => False)
    (fun t => looks r s t.1 /\ t.2 = p) (s, p).
Proof.
  unfold allocate_waiting. wp_go. apply wp_if; intros _; wp_go.
  all: match goal with |- wp (let '(_, _) := ?a in _) _ _ _ (set_kv ?k _, _) =>
    destruct a as [o rq]; match goal with Ha : _ = Ok (_, k) |- _ =>
      apply bind_Ok_inv in Ha as ([[o1 rq1] k1] & Ha & Hr); injection Hr as -> -> ->;
      apply allocate_slots_frame in Ha as [Hm Hk] end end.
  all: wp_go; match goal with |- wp _ _ _ _ (?x, _) => assert (looks r s x) as Hs1 end;
    [etrans; [by apply looks_kv|]; by apply looks_object, looked_memo|].
  all: destruct o; [by wp_go|]; apply wp_bind; apply wp_when; intros _; wp_go; split; try done.
  all: etrans; [exact Hs1|]; apply looks_blocks; split; [apply keeps_encoder|done].
Qed.

Lemma tell_connector_spec r l s p :
  triple (tell_connector r l) (fun _ t => only_blocks s t.1 /\ t.2 = p) (s, p).
Proof.
  unfold triple, tell_connector. wp_go. destruct (connector s); wp_go; [|done].
  split; [|done]. split; [apply keeps_connector|done].
Qed.
End Attends.
