(* ===== verification/SchedAdmission.v ===== *)
(** The rounds of the loop over the waiting requests: what every round keeps, that
    each takes a request out of the queues, and that the loop ends. Nothing is
    lost or duplicated between the queues and [self.running], and under first come,
    first served neither the admitted nor the remaining requests change places. *)
From S2P Require Import Prelude Bisect FreeQueue Request BlockHash BlockPool EncoderCache CacheHit SingleType GroupManager Coordinator KVCacheManager KVLifecycle KVFrame Heapq RequestQueue ChunkPlan EncoderPlan SchedMonad SchedState SchedOps Schedule SchedFrame SchedRunning SchedWaiting.
From Stdlib Require Import QArith.Qcanon.
Open Scope Z_scope.

Section Admission.
Context `{PoolEnv} `{GroupManager M} `{!CacheFrame M} `{EncoderCache E} `{RequestQueueLaws Q} `{KVConnector C} `{!ConnectorLaws C}.
Local Abbreviation state := (Scheduler M E Q C).
Local Abbreviation step := (Scheduler M E Q C * Pass Q)%type.
Implicit Types (r : ref) (s : state) (p : Pass Q).

(** The requests of both queues; under FCFS in the order they are tried. *)
Definition waiting_items s : list ref :=
  rq_items (skipped_waiting (queues s)) ++ rq_items (waiting (queues s)).

(** The state the loop starts in. *)
Variable s1 : state.
Variable p1 : Pass Q.
Local Abbreviation c1 := (config s1).

(** The invariant; [held] was taken out of a queue and is not yet elsewhere, [adm]
    was admitted. *)
Record wait_inv (held adm : list ref) s p : Prop := {
  wi_keeps : keeps s1 s;
  wi_running : running (queues s) = running (queues s1) ++ adm;
  wi_new : scheduled_new_reqs (picked p) ++ scheduled_resumed_reqs (picked p) ≡ₚ adm;
  wi_picked : scheduled_running_reqs (picked p) = scheduled_running_reqs (picked p1) /\
    preempted_reqs (picked p) = preempted_reqs (picked p1);
  wi_queues w : rq_inv (order_of s) (queue_of w s);
  wi_step : rq_inv (order_of s) (step_skipped_waiting p);
  wi_perm : held ++ waiting_items s ++ rq_items (step_skipped_waiting p) ++ adm ≡ₚ waiting_items s1;
  wi_fcfs : rq_policy (Q:=Q) = FCFS -> exists seen, waiting_items s1 = seen ++ held ++ waiting_items s /\
    adm `sublist_of` seen /\ reverse (rq_items (step_skipped_waiting p)) `sublist_of` seen;
  wi_status r : r ∈ waiting_items s ++ rq_items (step_skipped_waiting p) ->
    waiting_status (status (request_of s r));
  wi_admitted r : r ∈ adm -> status (request_of s r) = RUNNING;
  wi_others r : r ∉ waiting_items s1 -> objects s r = objects s1 r;
  wi_shares : exists new, num_scheduled_tokens (shares p) = num_scheduled_tokens (shares p1) ++ new /\
    od_keys new = adm /\ token_budget p + sum_shares new = token_budget p1 /\
    Forall (fun e => admitted_fits c1 (request_of s e.1) (num_computed_tokens (request_of s e.1)) e.2) new;
  wi_budget : 0 <= token_budget p;
  wi_limit : adm = [] \/ zlen (running (queues s)) + num_waiting_for_streaming_input s1 <= max_num_running_reqs c1
}.

(** Requests still in a queue are as they were. *)
Definition untouched s : Prop := forall r, r ∈ waiting_items s -> objects s r = objects s1 r.

Hypothesis Hnodup : NoDup (waiting_items s1).

Lemma wait_inv_NoDup held adm s p : wait_inv held adm s p ->
  NoDup (held ++ waiting_items s ++ rq_items (step_skipped_waiting p) ++ adm).
Proof. intros Hi. rewrite (wi_perm _ _ _ _ Hi). exact Hnodup. Qed.

(** A request not yet admitted is looked at. *)
Lemma wait_inv_attends held adm s s' p r :
  wait_inv held adm s p -> r ∈ held ++ waiting_items s ++ rq_items (step_skipped_waiting p) -> attends r s s' ->
  waiting_status (status (request_of s' r)) -> wait_inv held adm s' p.
Proof.
  intros Hi Hr (Hk & Hq & Ho) Hst. pose proof (wait_inv_NoDup _ _ _ _ Hi) as Hnd. destruct Hi.
  assert (waiting_items s' = waiting_items s) as Hw by (unfold waiting_items; by rewrite Hq).
  assert (r ∉ adm) as Hadm.
  { rewrite !(assoc_L (++)), <-(assoc_L (++) held) in Hnd. apply NoDup_app in Hnd as (_ & Hd & _). intros Ha.
    by apply (Hd r Hr). }
  assert (forall x, x ∈ adm -> request_of s' x = request_of s x) as Hox.
  { intros x Hx. unfold request_of. rewrite Ho; [done|]. by intros ->. }
  split; rewrite ?Hq, ?Hw; try done.
  - by etrans.
  - intros w. replace (queue_of w s') with (queue_of w s) by (destruct w; simpl; by rewrite Hq).
    by eapply keeps_inv.
  - by eapply keeps_inv.
  - intros x Hx. destruct (decide (x = r)) as [->|Hne]; [done|]. unfold request_of. rewrite Ho by done.
    by apply wi_status0.
  - intros x Hx. rewrite Hox by done. by apply wi_admitted0.
  - intros x Hx. rewrite Ho; [by apply wi_others0|]. intros ->. apply Hx. rewrite <-wi_perm0.
    rewrite !elem_of_app in Hr. rewrite !elem_of_app. tauto.
  - destruct wi_shares0 as (new & Hn & Hkeys & Hsum & Hfit). exists new. split_and!; try done.
    rewrite Forall_forall in Hfit |- *. intros [x n] Hx. simpl. rewrite Hox; [by apply (Hfit (x, n))|].
    rewrite <-Hkeys. unfold od_keys. apply list_elem_of_fmap. by exists (x, n).
Qed.

(** ** Choosing a queue and taking its first request *)

Lemma rq_bool_items (q : Q) : rq_bool q = true <-> rq_items q <> [].
Proof.
  unfold rq_bool. rewrite rq_len_ok, Z.ltb_lt. destruct (rq_items q); simpl; split; intros; try done; lia.
Qed.

(** The queue whose first request is next. *)
Definition next_queue w s : Prop :=
  rq_items (queue_of w s) <> [] /\
  (rq_policy (Q:=Q) = FCFS -> w = Skipped \/ rq_items (skipped_waiting (queues s)) = []).

Lemma select_spec s : rq_bool (queue_of Waiting s) || rq_bool (queue_of Skipped s) = true ->
  triple (select_waiting_queue_for_scheduling) (fun o s' => s' = s /\ exists w, o = Some w /\ next_queue w s) s.
Proof.
  intros Hb. unfold triple, select_waiting_queue_for_scheduling, next_queue. wp_go.
  destruct (rq_policy (Q:=Q)).
  - wp_go. split; [done|]. destruct (rq_bool (queue_of Skipped s)) eqn:Hsk.
    { exists Skipped. apply rq_bool_items in Hsk. split_and!; [done..|]. by left. }
    rewrite orb_false_r in Hb. rewrite Hb. exists Waiting. apply rq_bool_items in Hb. split_and!; [done..|].
    intros _. right. destruct (rq_items (skipped_waiting (queues s))) eqn:Hi; [done|].
    assert (rq_bool (queue_of Skipped s) = true) by (apply rq_bool_items; simpl; by rewrite Hi). congruence.
  - apply wp_if; intros Hboth.
    + apply andb_true_iff in Hboth as [Hw Hsk]. wp_go. split; [done|].
      case_match; eexists; split_and!; try done; by apply rq_bool_items.
    + wp_go. split; [done|]. destruct (rq_bool (queue_of Waiting s)) eqn:Hw.
      { exists Waiting. split_and!; try done. by apply rq_bool_items. }
      rewrite orb_false_l in Hb. rewrite Hb. exists Skipped. split_and!; try done. by apply rq_bool_items.
Qed.

Lemma pop_spec w r adm s p : wait_inv [] adm s p -> next_queue w s -> peek_request (queue_of w s) = Ok r ->
  wp (on_sched (on_queue w pop_request)) (fun a t => a = r /\ t.2 = p /\ wait_inv [r] adm t.1 p /\
    objects t.1 = objects s /\ waiting_items s ≡ₚ r :: waiting_items t.1)
    (fun _ => False) (fun _ => False) (s, p).
Proof.
  intros [] [Hne Hfc] Hpk. wp_go.
  destruct (pop_request_ok (order_of s) (queue_of w s) _ (wi_queues0 w) Hne) as (r' & q' & Hpop & Hpk' & Hq' & Hp).
  rewrite Hc in Hpop. injection Hpop as -> ->. rewrite Hpk in Hpk'. injection Hpk' as <-. set (s' := set_queue w q' s).
  assert (keeps s s') as Hk by apply keeps_queue.
  assert (waiting_items s ≡ₚ r :: waiting_items s') as Hitems.
  { unfold waiting_items. destruct w; simpl in *; rewrite Hp; [by rewrite Permutation_middle|done]. }
  assert (forall x, x ∈ waiting_items s' -> x ∈ waiting_items s) as Hsub.
  { intros x Hx. rewrite Hitems. by right. }
  assert (objects s' = objects s) as Hos by by destruct w.
  cbn [fst snd]. split; [done|]. split; [done|]. split_and!; [split; unfold request_of; rewrite ?Hos; try done|done|done].
  - by etrans.
  - destruct w; done.
  - intros w'. destruct w, w'; simpl in *; try done; first [exact Hq'|apply (wi_queues0 Waiting)|apply (wi_queues0 Skipped)].
  - by eapply keeps_inv.
  - rewrite <-wi_perm0, Hitems. done.
  - intros Hf. destruct (wi_fcfs0 Hf) as (seen & Hs & Hrest). exists seen. split; [|done]. rewrite Hs. f_equal.
    unfold waiting_items in *. apply (pop_fcfs _ _ _ _ Hf) in Hc. destruct w; simpl in *; [|by rewrite Hc].
    destruct (Hfc Hf) as [?|Hnil]; [done|]. by rewrite Hnil, Hc.
  - intros x Hx. apply wi_status0. apply elem_of_app in Hx as [Hx|Hx]; apply elem_of_app; [left; by apply Hsub|by right].
  - by destruct w.
Qed.

(** ** A request is set aside *)

Lemma wait_inv_skip r adm s p q : wait_inv [r] adm s p -> waiting_status (status (request_of s r)) ->
  prepend_request (order_of s) r (step_skipped_waiting p) = Ok q -> wait_inv [] adm s (set_skipped q p).
Proof.
  intros [] Hst Hq. destruct (prepend_request_ok (order_of s) r _ _ wi_step0) as (q' & Hq' & Hinv & Hp).
  rewrite Hq in Hq'. injection Hq' as <-. split; try done; cbn.
  - rewrite <-wi_perm0, Hp. simpl. by rewrite <-Permutation_middle.
  - intros Hf. destruct (wi_fcfs0 Hf) as (seen & Hs & Hadm & Hsk). exists (seen ++ [r]).
    split_and!; [by rewrite <-(assoc_L (++))|by apply sublist_inserts_r|].
    rewrite (prepend_fcfs _ _ _ _ Hf Hq), reverse_cons. by apply sublist_app.
  - intros x Hx. rewrite Hp in Hx. apply elem_of_app in Hx as [Hx|[->|Hx]%elem_of_cons]; [|done|];
      apply wi_status0, elem_of_app; tauto.
Qed.

(** What a round that does not admit its request leaves. *)
Definition set_aside r adm s (t : step) : Prop :=
  wait_inv [] adm t.1 t.2 /\ (forall x, x <> r -> objects t.1 x = objects s x) /\
  waiting_items s ≡ₚ r :: waiting_items t.1.

Lemma skip_request_spec w r adm s p : wait_inv [] adm s p -> next_queue w s ->
  peek_request (queue_of w s) = Ok r -> waiting_status (status (request_of s r)) ->
  triple (skip_request w r) (fun _ => set_aside r adm s) (s, p).
Proof.
  intros Hi Hw Hpk Hst. unfold triple, skip_request. apply wp_bind.
  eapply wp_mono; [by apply pop_spec| |done..]. intros a [s2 p2] (-> & Hp2 & Hi2 & Ho & Hitems).
  cbn [fst snd] in *. subst p2. wp_go. split; [|split; [cbn [fst]; intros x _; by rewrite Ho|done]].
  cbn [fst snd]. eapply wait_inv_skip; [done| |done]. unfold request_of. by rewrite Ho.
Qed.

Lemma wait_inv_blocks held adm s s' p : wait_inv held adm s p -> only_blocks s s' -> wait_inv held adm s' p.
Proof.
  intros [] (Hk & Ho & Hq). assert (waiting_items s' = waiting_items s) as Hw by (unfold waiting_items; by rewrite Hq).
  split; unfold request_of; rewrite ?Hw, ?Ho, ?Hq; try done.
  - by etrans.
  - intros w. replace (queue_of w s') with (queue_of w s) by (destruct w; simpl; by rewrite Hq).
    by eapply keeps_inv.
  - by eapply keeps_inv.
Qed.

Lemma wait_inv_pass held adm s p p' : wait_inv held adm s p -> same_tally p p' -> wait_inv held adm s p'.
Proof.
  intros [] (Hp & Hn & _ & Ht & Hsk & _). by split; rewrite ?Hp, ?Hsk, ?Ht, ?Hn.
Qed.

(** ** A request waits for its load *)

Lemma await_load_spec r l adm s p : wait_inv [r] adm s p -> waiting_status (status (request_of s r)) ->
  triple (await_load r l) (fun _ t => wait_inv [] adm t.1 t.2 /\
    (forall x, x <> r -> objects t.1 x = objects s x) /\ waiting_items t.1 = waiting_items s) (s, p).
Proof.
  intros Hi Hst. unfold triple, await_load. wp_go. set (s2 := set_object r _ s) in *.
  assert (attends r s s2) as Ha2 by by apply attends_object.
  assert (wait_inv [r] adm s2 p) as Hi2.
  { eapply wait_inv_attends; [done|by left|done|]. unfold request_of. simpl. rewrite decide_True by done. by do 2 right. }
  assert (wait_inv [] adm s2 (set_skipped a p)) as Hi3.
  { eapply wait_inv_skip; [done| |done]. unfold request_of. simpl. rewrite decide_True by done. by do 2 right. }
  assert (r ∈ rq_items a) as Hra.
  { destruct (prepend_request_ok (order_of s2) r _ _ (wi_step _ _ _ _ Hi2)) as (q' & Hq' & _ & Hp).
    rewrite Hc in Hq'. injection Hq' as <-. rewrite Hp. left. }
  set (s3 := set_object r _ s2). set (s4 := set_inflight _ s3).
  assert (attends r s2 s4) as Ha4.
  { assert (attends r s2 s3) as Ha3 by by apply attends_object.
    etrans; [exact Ha3|]. split_and!; [apply keeps_inflight|done..]. }
  assert (wait_inv [] adm s4 (set_skipped a p)) as Hi4.
  { eapply wait_inv_attends; [exact Hi3| |exact Ha4|].
    - apply elem_of_app. right. apply elem_of_app. by right.
    - unfold request_of. simpl. rewrite !decide_True by done. by do 2 right. }
  assert (forall x, x <> r -> objects s4 x = objects s x) as Ho4.
  { intros x Hx. by rewrite (proj2 (proj2 Ha4)), (proj2 (proj2 Ha2)). }
  apply wp_when; intros _; wp_go; [|done]. split_and!; [|done..].
  eapply wait_inv_blocks; [exact Hi4|]. split; [|done]. by apply keeps_notices.
Qed.

(** ** A request is admitted *)

Hypothesis Hkeys : forall r, r ∈ waiting_items s1 -> r ∉ od_keys (num_scheduled_tokens (shares p1)).

(** The object of an admitted request. *)
Definition admitted_object (n : Z) (q : SReq) : SReq :=
  on_req (fun rq => set_computed n (set_status RUNNING rq)) q.

(** What [start_running] does to state and locals, the encoder inputs apart. *)
Record admits r n computed s p (t : step) : Prop := {
  ad_keeps : keeps s t.1;
  ad_running : running (queues t.1) = running (queues s) ++ [r];
  ad_queue w : queue_of w t.1 = queue_of w s;
  ad_objects x : objects t.1 x = if decide (x = r) then admitted_object computed (objects s r) else objects s x;
  ad_new : scheduled_new_reqs (picked t.2) ++ scheduled_resumed_reqs (picked t.2) ≡ₚ
    r :: scheduled_new_reqs (picked p) ++ scheduled_resumed_reqs (picked p);
  ad_picked : scheduled_running_reqs (picked t.2) = scheduled_running_reqs (picked p) /\
    preempted_reqs (picked t.2) = preempted_reqs (picked p);
  ad_shares : num_scheduled_tokens (shares t.2) = od_set r n (num_scheduled_tokens (shares p));
  ad_budget : token_budget t.2 = token_budget p - n;
  ad_step : step_skipped_waiting t.2 = step_skipped_waiting p
}.

Lemma wait_inv_admit r n computed adm s p t : wait_inv [r] adm s p -> admits r n computed s p t ->
  n <= token_budget p -> admitted_fits c1 (request_of s r) computed n ->
  zlen (running (queues s)) + num_waiting_for_streaming_input s1 < max_num_running_reqs c1 ->
  wait_inv [] (adm ++ [r]) t.1 t.2.
Proof.
  intros Hi [] Hn Hfit Hlim. destruct t as [s' p']. cbn [fst snd] in *.
  pose proof (wait_inv_NoDup _ _ _ _ Hi) as Hnd. destruct Hi.
  assert (waiting_items s' = waiting_items s) as Hw.
  { unfold waiting_items. pose proof (ad_queue0 Waiting). pose proof (ad_queue0 Skipped). simpl in *. congruence. }
  apply NoDup_cons in Hnd as [Hr _]. rewrite !elem_of_app in Hr.
  assert (forall x, x <> r -> request_of s' x = request_of s x) as Hox.
  { intros x Hx. unfold request_of. by rewrite ad_objects0, decide_False. }
  assert (r ∈ waiting_items s1) as Hr1 by (rewrite <-wi_perm0; left).
  destruct wi_shares0 as (new & Hnew & Hk & Hsum & Hfits).
  assert (r ∉ od_keys (num_scheduled_tokens (shares p))) as Hfresh.
  { rewrite Hnew. unfold od_keys in *. rewrite fmap_app, Hk, elem_of_app. intros [Hx|Hx]; [|tauto].
    by apply (Hkeys r). }
  split; rewrite ?Hw, ?ad_step0; try done.
  - by etrans.
  - by rewrite ad_running0, wi_running0, (assoc_L (++)).
  - by rewrite ad_new0, wi_new0, Permutation_cons_append.
  - destruct ad_picked0 as [-> ->]. done.
  - intros w. rewrite ad_queue0. by eapply keeps_inv.
  - by eapply keeps_inv.
  - rewrite <-wi_perm0. simpl. rewrite !(assoc_L (++)). by rewrite <-Permutation_cons_append.
  - intros Hf. destruct (wi_fcfs0 Hf) as (seen & Hs & Hadm & Hsk). exists (seen ++ [r]).
    split_and!; [by rewrite <-(assoc_L (++))|by apply sublist_app|by apply sublist_inserts_r].
  - intros x Hx. rewrite Hox; [by apply wi_status0|]. intros ->. apply elem_of_app in Hx. tauto.
  - intros x [Hx| ->%list_elem_of_singleton]%elem_of_app.
    + rewrite Hox; [by apply wi_admitted0|]. intros ->. tauto.
    + unfold request_of. by rewrite ad_objects0, decide_True.
  - intros x Hx. rewrite ad_objects0, decide_False; [by apply wi_others0|]. by intros ->.
  - exists (new ++ [(r, n)]). rewrite ad_shares0, ad_budget0. rewrite od_set_fresh by done.
    split_and!; [by rewrite Hnew, <-(assoc_L (++))|unfold od_keys in *; by rewrite fmap_app, Hk| |].
    + rewrite sum_shares_app. unfold sum_shares at 2. simpl. lia.
    + apply Forall_app. split; [|apply Forall_singleton].
      * rewrite Forall_forall in Hfits |- *. intros [x m] Hx. simpl. rewrite Hox; [by apply (Hfits (x, m))|].
        intros ->. assert (r ∈ adm); [|tauto]. rewrite <-Hk. apply list_elem_of_fmap. by exists (r, m).
      * unfold request_of. simpl. by rewrite ad_objects0, decide_True.
  - lia.
  - right. rewrite ad_running0, length_app. cbn [length]. lia.
Qed.

(** The request is added to one of the lists of picked requests. *)
Definition picks (f : Picked -> Picked) r : Prop := forall x,
  scheduled_new_reqs (f x) ++ scheduled_resumed_reqs (f x) ≡ₚ
    r :: scheduled_new_reqs x ++ scheduled_resumed_reqs x /\
  scheduled_running_reqs (f x) = scheduled_running_reqs x /\ preempted_reqs (f x) = preempted_reqs x.

Lemma picks_new r : picks (pick_new r) r.
Proof. intros x. split_and!; [|done..]. simpl. by rewrite <-Permutation_cons_append. Qed.

Lemma picks_resumed r : picks (pick_resumed r) r.
Proof. intros x. split_and!; [|done..]. simpl. rewrite (assoc_L (++)). by rewrite <-Permutation_cons_append. Qed.

(** From the scheduled LoRAs on. *)
Lemma admit_tail_spec f r l n (pad : bool) inputs budget loras s p :
  let q := objects s r in let s2 := set_running (running (queues s) ++ [r]) s in
  let post := fun (_ : unit) (t : step) => exists t0,
    admits r n (lk_computed l) s p t0 /\ only_blocks t0.1 t.1 /\ same_tally t0.2 t.2 in
  picks f r ->
  triple (on_shares (share_tokens r (kv_get_blocks (request_id (req q)) (kv_cache_manager s2)) n) ;;
      on_pass (fun p => set_budgets (token_budget p - n) (encoder_compute_budget p) p) ;;
      on_sched (update_request r (on_req (fun rq => set_computed (lk_computed l) (set_status RUNNING rq)))) ;;
      when pad (on_shares (share_spec r (replicate (Z.to_nat (num_spec_tokens (config s2))) (-1)))) ;;
      when (lk_computed l + n <? num_tokens (req q)) (on_sched (on_inflight (fun i => {[r]} ∪ i))) ;;
      allocate_encoder_inputs r inputs budget) post
    (s2, set_loras loras (set_picked (f (picked p)) p)).
Proof.
  intros q s2 post Hf. unfold triple. wp_go. set (s3 := set_object r _ s2).
  assert (forall s0 q0, admits r n (lk_computed l) s p (s0, q0) ->
    wp (allocate_encoder_inputs r inputs budget) post (fun _ => False) (fun _ => False) (s0, q0)) as Hlast.
  { intros s0 q0 Ha. eapply wp_triple; [apply allocate_inputs_spec|]. intros ? t Ht. by exists (s0, q0). }
  assert (forall i, keeps s (set_inflight i s3)) as Hk.
  { intros i. etrans; [apply keeps_queues|]. etrans; [|apply keeps_inflight]. by apply keeps_object. }
  destruct (Hf (picked p)) as (? & ? & ?).
  apply wp_when; intros _; wp_go; apply wp_when; intros _; wp_go; apply Hlast; split; try done;
    first [apply Hk|apply (Hk (inflight_prefills s3))].
Qed.

Lemma start_running_spec r l n pad inputs budget s p :
  status (request_of s r) = WAITING \/ status (request_of s r) = PREEMPTED ->
  triple (start_running r l n pad inputs budget) (fun _ t => exists t0,
    admits r n (lk_computed l) s p t0 /\ only_blocks t0.1 t.1 /\ same_tally t0.2 t.2) (s, p).
Proof.
  intros Hst. unfold triple, start_running. do 3 (wp_one; cbn beta iota). wp_go.
  set (s2 := set_running _ s). change (objects s2 r) with (objects s r).
  assert (forall f, picks f r -> wp (match max_loras (config s2), lora_id (objects s r) with
    | Some _, Some id => on_pass (fun p => set_loras ({[id]} ∪ scheduled_loras p) p)
    | _, _ => ret tt
    end) (fun _ t => exists loras, t = (s2, set_loras loras (set_picked (f (picked p)) p)))
   (fun _ => False) (fun _ => False) (s2, set_picked (f (picked p)) p)) as Hloras.
  { intros f _. repeat case_match; wp_go; first [by eexists|exists (scheduled_loras p); by destruct p]. }
  destruct Hst as [Hst|Hst]; unfold request_of in Hst; rewrite Hst; wp_go.
  - eapply wp_mono; [apply (Hloras (pick_new r)), picks_new| |done..]. intros _ t (loras & ->).
    apply (admit_tail_spec (pick_new r)), picks_new.
  - eapply wp_mono; [apply (Hloras (pick_resumed r)), picks_resumed| |done..]. intros _ t (loras & ->).
    apply (admit_tail_spec (pick_resumed r)), picks_resumed.
Qed.

(** ** A round *)

Hypothesis Hconfig : config_ok c1.
Hypothesis Hlookups : lookups_ok s1.
Hypothesis Hwaits : forall r, r ∈ waiting_items s1 -> request_waits s1 r.

(** A round leaves the invariant and fewer requests. *)
Definition round s (t : step) : Prop := exists adm,
  wait_inv [] adm t.1 t.2 /\ untouched t.1 /\ zlen (waiting_items t.1) < zlen (waiting_items s).

Lemma round_intro r adm adm' s p t : wait_inv [] adm s p -> untouched s -> wait_inv [] adm' t.1 t.2 ->
  (forall x, x <> r -> objects t.1 x = objects s x) -> waiting_items s ≡ₚ r :: waiting_items t.1 -> round s t.
Proof.
  intros Hi Hu Hi' Ho Hp. exists adm'. split; [done|]. pose proof (wait_inv_NoDup _ _ _ _ Hi) as Hnd.
  simpl in Hnd. apply NoDup_app in Hnd as [Hnd _]. rewrite Hp in Hnd. apply NoDup_cons in Hnd as [Hr _].
  split; [|rewrite Hp; cbn [length]; lia]. intros x Hx. rewrite Ho by by intros ->. apply Hu. rewrite Hp. by right.
Qed.

Lemma set_aside_round r adm s s' p t : wait_inv [] adm s p -> untouched s -> attends r s s' ->
  set_aside r adm s' t -> round s t.
Proof.
  intros Hi Hu (_ & Hq & Ho) (Hi' & Ho' & Hp). assert (waiting_items s' = waiting_items s) as Hw.
  { unfold waiting_items. by rewrite Hq. }
  eapply round_intro; try done; [|by rewrite <-Hw]. intros x Hx. by rewrite Ho', Ho.
Qed.

(** The request of a round, before it leaves its queue: the invariant holds
    whatever was looked up. *)
Lemma at_head r adm s s' p w : wait_inv [] adm s p -> next_queue w s -> peek_request (queue_of w s) = Ok r ->
  attends r s s' -> waiting_status (status (request_of s' r)) ->
  wait_inv [] adm s' p /\ next_queue w s' /\ peek_request (queue_of w s') = Ok r.
Proof.
  intros Hi Hw Hpk Ha Hst. assert (queue_of w s' = queue_of w s) as Hq by (destruct w; simpl; by rewrite (proj1 (proj2 Ha))).
  split; [|unfold next_queue; rewrite Hq, (proj1 (proj2 Ha)); done].
  eapply wait_inv_attends; [done| |done|done]. destruct (pop_request_ok (order_of s) (queue_of w s) _
    (wi_queues _ _ _ _ Hi w) (proj1 Hw)) as (r' & q' & _ & Hpk' & _ & Hp). rewrite Hpk in Hpk'. injection Hpk' as <-.
  apply elem_of_app. right. apply elem_of_app. left. unfold waiting_items.
  assert (r ∈ rq_items (queue_of w s)) as Hr by (rewrite Hp; left).
  destruct w; simpl in Hr; apply elem_of_app; tauto.
Qed.

Lemma admit_round r w l n pad inputs budget adm s s2 p :
  wait_inv [] adm s p -> untouched s -> next_queue w s -> peek_request (queue_of w s) = Ok r ->
  attends r s s2 -> ready (objects s2 r) ->
  zlen (running (queues s)) + num_waiting_for_streaming_input s1 < max_num_running_reqs c1 ->
  (lk_async l = false -> n <= token_budget p /\ admitted_fits c1 (request_of s2 r) (lk_computed l) n) ->
  wp (let* r := on_sched (on_queue w pop_request) in
      if lk_async l then await_load r l ;; continue_
      else start_running r l n pad inputs budget) (fun _ => round s) (round s) (fun _ => False) (s2, p).
Proof.
  intros Hi Hu Hw Hpk Ha Hr Hlim Hn.
  destruct (at_head _ _ _ _ _ _ Hi Hw Hpk Ha (ready_waits _ Hr)) as (Hi2 & Hw2 & Hpk2). apply wp_bind.
  assert (waiting_items s2 = waiting_items s) as Hws by (unfold waiting_items; by rewrite (proj1 (proj2 Ha))).
  eapply wp_mono; [by eapply pop_spec| |done..]. intros a [s3 p3] (-> & Hp3 & Hi3 & Ho3 & Hitems).
  cbn [fst snd] in *. subst p3. rewrite Hws in Hitems.
  assert (request_of s3 r = request_of s2 r) as Hreq by (unfold request_of; by rewrite Ho3).
  apply wp_if; intros Has.
  - apply wp_bind. eapply wp_triple; [eapply await_load_spec; [done|rewrite Hreq; by apply ready_waits]|].
    intros _ [s4 p4] (Hi4 & Ho4 & Hw4). cbn [fst snd] in *. wp_go. eapply round_intro; try done; cbn [fst].
    + intros x Hx. by rewrite Ho4, Ho3, (proj2 (proj2 Ha)).
    + by rewrite Hw4.
  - specialize (Hn Has). eapply wp_triple; [apply start_running_spec; rewrite Hreq; apply Hr|].
    intros _ [s5 p5] ([s4 p4] & Hadm & Hb & Ht). cbn [fst snd] in *.
    assert (running (queues s3) = running (queues s)) as Hrun3.
    { by rewrite (wi_running _ _ _ _ Hi3), (wi_running _ _ _ _ Hi). }
    pose proof (wait_inv_admit r n _ adm s3 p (s4, p4) Hi3 Hadm (proj1 Hn) ltac:(rewrite Hreq; apply Hn)
      ltac:(by rewrite Hrun3)) as Hi4.
    pose proof (wait_inv_pass _ _ _ _ _ (wait_inv_blocks _ _ _ _ _ Hi4 Hb) Ht) as Hi5.
    destruct Hb as (_ & Ho5 & Hq5). assert (waiting_items s5 = waiting_items s3) as Hw5.
    { unfold waiting_items. rewrite Hq5.
      pose proof (ad_queue _ _ _ _ _ _ Hadm Waiting). pose proof (ad_queue _ _ _ _ _ _ Hadm Skipped). simpl in *. congruence. }
    eapply round_intro; try done; cbn [fst]; [|by rewrite Hw5].
    intros x Hx. by rewrite Ho5, (ad_objects _ _ _ _ _ _ Hadm), decide_False, Ho3, (proj2 (proj2 Ha)) by done.
Qed.

Lemma head_waits r adm s p w : wait_inv [] adm s p -> untouched s -> next_queue w s ->
  peek_request (queue_of w s) = Ok r -> request_waits s r.
Proof.
  intros Hi Hu Hw Hpk. destruct (pop_request_ok (order_of s) (queue_of w s) _
    (wi_queues _ _ _ _ Hi w) (proj1 Hw)) as (r' & q' & _ & Hpk' & _ & Hp). rewrite Hpk in Hpk'. injection Hpk' as <-.
  assert (r ∈ waiting_items s) as Hr.
  { unfold waiting_items. assert (r ∈ rq_items (queue_of w s)) by (rewrite Hp; left).
    destruct w; simpl in *; apply elem_of_app; tauto. }
  eapply request_waits_keeps; [apply (wi_keeps _ _ _ _ Hi)|by apply Hu|]. apply Hwaits.
  rewrite <-(wi_perm _ _ _ _ Hi), !elem_of_app. tauto.
Qed.

(** The round's request is set aside, before or after it was looked up. *)
Lemma skip_round r adm s s' p w : wait_inv [] adm s p -> untouched s -> next_queue w s ->
  peek_request (queue_of w s) = Ok r -> attends r s s' -> waiting_status (status (request_of s' r)) ->
  triple (skip_request w r) (fun _ => round s) (s', p).
Proof.
  intros Hi Hu Hw Hpk Ha Hst. destruct (at_head _ _ _ _ _ _ Hi Hw Hpk Ha Hst) as (Hi' & Hw' & Hpk').
  eapply wp_triple; [by apply skip_request_spec|]. intros ? t Ht. by eapply set_aside_round.
Qed.

(** The part of the body for a request that may start. *)
Lemma start_round threshold defer_prefills r adm s s2 p w :
  wait_inv [] adm s p -> untouched s -> next_queue w s -> peek_request (queue_of w s) = Ok r ->
  attends r s s2 -> ready (objects s2 r) -> 0 < token_budget p ->
  zlen (running (queues s)) + num_waiting_for_streaming_input s1 < max_num_running_reqs c1 ->
  wp (let* l := find_computed w r in
      let* planned := plan_waiting threshold defer_prefills r l in
      let '(n, pad, inputs, new_budget) := planned in
      allocate_waiting r l n inputs ;;
      tell_connector r l ;;
      let* r := on_sched (on_queue w pop_request) in
      if lk_async l then await_load r l ;; continue_
      else start_running r l n pad inputs new_budget)
    (fun _ => round s) (round s) (fun t => exists adm, wait_inv [] adm t.1 t.2) (s2, p).
Proof.
  intros Hi Hu Hw Hpk Ha Hr Hb Hlim. pose proof (wi_keeps _ _ _ _ Hi) as Hk1.
  assert (keeps s1 s2) as Hk2 by (etrans; [exact Hk1|apply Ha]). pose proof (kp_config _ _ Hk2) as Hcfg.
  assert (forall s', looks r s2 s' -> attends r s s' /\ ready (objects s' r)) as Hlook.
  { intros s' [Ha' Hl]. split; [by etrans|by eapply looked_ready]. }
  assert (forall t, looks r s2 t.1 /\ t.2 = p -> exists adm, wait_inv [] adm t.1 t.2) as Hbreak.
  { intros [s' p'] [Hl Hp']. cbn [fst snd] in *. subst p'. destruct (Hlook _ Hl) as [Ha' Hr']. exists adm.
    eapply at_head; try done. by apply ready_waits. }
  apply wp_bind. eapply wp_mono; [apply (find_computed_spec w (round s))| |done|done].
  - by eapply lookups_ok_keeps.
  - by rewrite Hcfg.
  - done.
  - intros s' Hl. destruct (Hlook _ Hl) as [Ha' Hr']. eapply skip_round; try done. by apply ready_waits.
  - intros l [s3 p3] (Hl3 & Hp3 & Hok). cbn [fst snd] in *. subst p3. destruct (Hlook _ Hl3) as [Ha3 Hr3].
    pose proof (kp_config _ _ (proj1 (proj1 Hl3))) as Hcfg3.
    apply wp_bind. eapply wp_mono; [apply plan_waiting_spec| |done|].
    + unfold lookup_ok in *. by rewrite (looks_tokens _ _ _ Hl3).
    + apply Hr3.
    + by rewrite Hcfg3, Hcfg.
    + done.
    + intros [[[n pad] inputs] nb] [s4 p4] (Hb4 & Hp4 & Hn). cbn [fst snd] in *. subst p4.
      assert (looks r s2 s4) as Hl4 by (etrans; [exact Hl3|by apply looks_blocks]).
      apply wp_bind. eapply wp_mono; [apply allocate_waiting_spec| |done|].
      2:{ intros t [Ht Hp]. apply Hbreak. split; [by etrans|done]. }
      intros _ [s5 p5] [Hl5 Hp5]. cbn [fst snd] in *. subst p5. apply wp_bind.
      eapply wp_triple; [apply tell_connector_spec|]. intros _ [s6 p6] [Hb6 Hp6]. cbn [fst snd] in *. subst p6.
      assert (looks r s2 s6) as Hl6.
      { etrans; [exact Hl4|]. etrans; [exact Hl5|]. by apply looks_blocks. }
      destruct (Hlook _ Hl6) as [Ha6 Hr6].
      eapply wp_mono; [eapply admit_round; try done| done..]. intros Has. destruct (Hn Has) as [? Hfit].
      split; [done|]. rewrite Hcfg3, Hcfg in Hfit. unfold admitted_fits, request_of in *.
      rewrite (looks_tokens _ _ _ Hl6). by rewrite (looks_tokens _ _ _ Hl3) in Hfit.
    + intros t [Ht Hp]. apply Hbreak. split; [|done]. etrans; [exact Hl3|]. by apply looks_blocks.
Qed.

Lemma waiting_body_spec threshold defer_prefills adm s p :
  wait_inv [] adm s p -> untouched s -> more_waiting (s, p) = true ->
  wp (waiting_body threshold defer_prefills) (fun _ => round s) (round s)
    (fun t => exists adm, wait_inv [] adm t.1 t.2) (s, p).
Proof.
  intros Hi Hu Hmore. unfold more_waiting in Hmore. apply andb_true_iff in Hmore as [Hmore Hb%Z.ltb_lt].
  cbn [fst snd] in *. pose proof (wi_keeps _ _ _ _ Hi) as Hk. unfold waiting_body. wp_go.
  apply wp_if; intros Hlim; [wp_go; by exists adm|].
  apply Z.leb_gt in Hlim. rewrite (kp_config _ _ Hk), (kp_streaming _ _ Hk) in Hlim. wp_go.
  eapply wp_triple; [by apply select_spec|]. intros o s' (-> & w & -> & Hw). wp_go. rename a into r, Hc into Hpk.
  pose proof (head_waits _ _ _ _ _ Hi Hu Hw Hpk) as Hrw.
  assert (forall (b : bool) s', attends r s s' -> (if b then ready (objects s' r) else objects s' r = objects s r) ->
    waiting_status (status (request_of s' r))) as Hstatus.
  { intros b s' _ Hb'. unfold request_of. destruct b; [by apply ready_waits|]. rewrite Hb'. apply (rw_status _ _ Hrw). }
  eapply (wp_triple _ (fun b t => attends r s t.1 /\ t.2 = p /\
    if (b : bool) then ready (objects t.1 r) else objects t.1 r = objects s r)).
  { unfold triple. apply wp_if; intros Hbl.
    - wp_go. eapply wp_triple; [by apply promote_spec|]. by intros b s' [? ?].
    - wp_go. split_and!; [done|done|]. by eapply request_waits_ready. }
  intros b [s2 p2] (Ha & Hp2 & Hrd). cbn [fst snd] in *. subst p2. pose proof (Hstatus b s2 Ha Hrd) as Hst.
  assert (wp (skip_request w r ;; continue_) (fun _ : unit => round s) (round s)
    (fun t => exists adm, wait_inv [] adm t.1 t.2) (s2, p)) as Hskip.
  { apply wp_bind. eapply wp_triple; [by eapply skip_round|]. intros ? t Ht. by wp_go. }
  apply wp_if; intros Hpro; [done|]. destruct b; [|done]. do 2 (wp_one; cbn beta iota).
  apply wp_if; intros _; [done|]. apply wp_if; intros _; [done|].
  eapply wp_mono; [eapply start_round; try done|done..].
Qed.

Lemma waiting_loop_spec threshold defer_prefills : wait_inv [] [] s1 p1 ->
  triple (waiting_loop threshold defer_prefills) (fun _ t => exists adm, wait_inv [] adm t.1 t.2) (s1, p1).
Proof.
  intros Hi. unfold triple, waiting_loop.
  apply (wp_while (fun t => (exists adm, wait_inv [] adm t.1 t.2) /\ untouched t.1)
    (fun t => exists adm, wait_inv [] adm t.1 t.2) (fun t => Z.to_nat (zlen (waiting_items t.1)))).
  - intros [s p] [[adm Hs] Hu] Hc. cbn [fst snd] in *.
    eapply wp_mono; [by eapply waiting_body_spec| | |done]; cbn beta; intros; unfold round in *;
      destruct_and?.
    all: match goal with Hr : exists adm, _ |- _ => destruct Hr as (adm' & Hi' & Hu' & Hlt) end;
      split; [split; [by exists adm'|done]|lia].
  - split; [by exists []|]. by intros r Hr.
  - unfold waiting_items. cbn [fst queue_of]. rewrite !rq_len_ok, length_app. lia.
  - by intros [s p] [Hs _] _.
  - done.
Qed.
End Admission.
