(* ===== verification/SchedStep.v ===== *)
(** A whole scheduling pass, [Scheduler.schedule] of
    src/upstream/vllm/v1/core/sched/scheduler.py: from a state whose queues are
    sound it ends, none of its own assertions fails, and what it hands out is
    within the limits. *)
From S2P Require Import Prelude Bisect FreeQueue Request BlockHash BlockPool EncoderCache CacheHit SingleType GroupManager Coordinator KVCacheManager KVLifecycle KVFrame Heapq RequestQueue ChunkPlan EncoderPlan SchedMonad SchedState SchedOps Schedule SchedFrame SchedRunning SchedWaiting SchedAdmission.
From Stdlib Require Import QArith.Qcanon.
Open Scope Z_scope.

Section Step.
Context `{PoolEnv} `{GroupManager M} `{!CacheFrame M} `{EncoderCache E} `{RequestQueueLaws Q} `{KVConnector C}.
Local Abbreviation state := (Scheduler M E Q C).
Local Abbreviation step := (Scheduler M E Q C * Pass Q)%type.
Implicit Types (r : ref) (s : state) (p : Pass Q).
Local Abbreviation running_of s := (running (queues s)).
Local Abbreviation scheduled p := (scheduled_running_reqs (picked p)).
Local Abbreviation preempted p := (preempted_reqs (picked p)).

(** * States to schedule from *)

(** The LoRAs of some requests. *)
Definition lora_ids s (rs : list ref) : gset Z :=
  list_to_set (filter (fun i => 0 < i) (omap (fun r => lora_id (objects s r)) rs)).

Record sched_ok s : Prop := {
  so_config : config_ok (config s);
  so_lookups : lookups_ok s;
  so_nodup : NoDup (running_of s ++ waiting_items s);
  so_queues w : rq_inv (order_of s) (queue_of w s);
  so_running r : r ∈ running_of s -> request_runs (config s) (objects s r);
  so_waiting r : r ∈ waiting_items s -> request_waits s r;
  so_room : zlen (running_of s) <= max_num_running_reqs (config s);
  so_streaming : 0 <= num_waiting_for_streaming_input s;
  so_loras m : max_loras (config s) = Some m -> Z.of_nat (size (lora_ids s (running_of s))) <= m
}.

Lemma lora_ids_keeps s s' rs rs' : keeps s s' -> (forall r, r ∈ rs' -> r ∈ rs) ->
  lora_ids s' rs' ⊆ lora_ids s rs.
Proof.
  intros Hk Hrs i. unfold lora_ids. rewrite !elem_of_list_to_set, !list_elem_of_filter, !list_elem_of_omap.
  intros (Hi & r & Hr & Hl). split; [done|]. exists r. split; [by apply Hrs|].
  unfold lora_id in *. destruct (kp_keys _ _ Hk r) as (_ & Heq & _). by rewrite Heq in Hl.
Qed.

(** * The running loop and the LoRAs *)

Lemma run_inv_init s0 p0 : (forall r, r ∈ running_of s0 -> status (request_of s0 r) = RUNNING) ->
  rq_inv (order_of s0) (waiting (queues s0)) -> picked p0 = mkPicked [] [] [] [] ->
  shares p0 = mkShares [] [] [] [] -> 0 <= token_budget p0 -> req_index p0 = 0 ->
  run_inv s0 p0 (token_budget p0) 0 s0 p0.
Proof.
  intros Hst Hq Hp Hs Hb Hi. split; rewrite ?Hp; try done.
  - by rewrite app_nil_r.
  - intros _. by rewrite app_nil_r.
  - intros r Hr. by apply not_elem_of_nil in Hr.
  - intros r Hr. split; [apply not_elem_of_nil|apply memo_object_refl].
  - split; rewrite ?Hs; cbn; try done; [lia|]. intros r n Hr. by apply not_elem_of_nil in Hr.
  - split; [constructor|]. intros r Hr. by apply not_elem_of_nil in Hr.
Qed.

Lemma run_inv_loras s0 p0 B i s p l : run_inv s0 p0 B i s p -> run_inv s0 p0 B i s (set_loras l p).
Proof. intros []. split; try done. by destruct ri_tally; split. Qed.

Lemma record_loras_spec s0 p0 B i s p : run_inv s0 p0 B i s p ->
  (forall m, max_loras (config s0) = Some m -> Z.of_nat (size (lora_ids s0 (running_of s0))) <= m) ->
  triple record_loras (fun _ t => t.1 = s /\ run_inv s0 p0 B i s t.2) (s, p).
Proof.
  intros Hi Hl. pose proof (ri_keeps _ _ _ _ _ _ Hi) as Hk. unfold triple, record_loras. wp_go.
  rewrite (kp_config _ _ Hk). destruct (max_loras (config s0)) as [m|] eqn:Hm; [|by wp_go]. wp_go.
  apply wp_check; [|split; [done|by apply run_inv_loras]]. apply Z.leb_le. etrans; [|by apply Hl].
  apply inj_le, subseteq_size, (lora_ids_keeps s0 s); [done|]. intros r Hr.
  rewrite <-(ri_perm _ _ _ _ _ _ Hi). apply elem_of_app. left. by apply (ri_scheduled _ _ _ _ _ _ Hi).
Qed.

(** * The waiting part *)

Lemma wait_inv_init s p : (forall w, rq_inv (order_of s) (queue_of w s)) ->
  (forall r, r ∈ waiting_items s -> request_waits s r) -> step_skipped_waiting p = rq_new ->
  scheduled_new_reqs (picked p) = [] -> scheduled_resumed_reqs (picked p) = [] -> 0 <= token_budget p ->
  wait_inv s p [] [] s p.
Proof.
  intros Hq Hw Hsk Hn Hr Hb. destruct (rq_new_ok (order_of s)) as [Hnew Hitems].
  split; rewrite ?Hsk, ?Hitems, ?Hn, ?Hr; try done.
  - by rewrite app_nil_r.
  - simpl. by rewrite app_nil_r.
  - intros _. exists []. split_and!; [done|constructor|constructor].
  - intros r Hin. rewrite app_nil_r in Hin. by apply Hw.
  - intros r Hin. by apply not_elem_of_nil in Hin.
  - exists []. rewrite app_nil_r. split_and!; try done. unfold sum_shares. simpl. lia.
  - by left.
Qed.

(** What the waiting part leaves; it need not have run. *)
Record waiting_done s2 p2 (adm : list ref) s p : Prop := {
  wd_keeps : keeps s2 s;
  wd_running : running_of s = running_of s2 ++ adm;
  wd_new : scheduled_new_reqs (picked p) ++ scheduled_resumed_reqs (picked p) ≡ₚ adm;
  wd_picked : scheduled p = scheduled p2 /\ preempted p = preempted p2;
  wd_queues w : rq_inv (order_of s) (queue_of w s);
  wd_perm : waiting_items s ++ adm ≡ₚ waiting_items s2;
  wd_fcfs : rq_policy (Q:=Q) = FCFS ->
    adm `sublist_of` waiting_items s2 /\ waiting_items s `sublist_of` waiting_items s2;
  wd_status r : r ∈ waiting_items s -> waiting_status (status (request_of s r));
  wd_admitted r : r ∈ adm -> status (request_of s r) = RUNNING;
  wd_others r : r ∉ waiting_items s2 -> objects s r = objects s2 r;
  wd_shares : exists new, num_scheduled_tokens (shares p) = num_scheduled_tokens (shares p2) ++ new /\
    od_keys new = adm /\ token_budget p + sum_shares new = token_budget p2 /\
    Forall (fun e => admitted_fits (config s2) (request_of s e.1) (num_computed_tokens (request_of s e.1)) e.2) new;
  wd_budget : 0 <= token_budget p;
  wd_limit : adm = [] \/
    zlen (running_of s) + num_waiting_for_streaming_input s2 <= max_num_running_reqs (config s2);
  wd_closed : adm = [] \/ preempted p2 = [] /\ pause_state s2 = UNPAUSED
}.

(** Keeping everything but the queues, which are told. *)
Lemma waiting_done_intro s2 p2 adm s p s' :
  wait_inv s2 p2 [] adm s p -> preempted p2 = [] -> pause_state s2 = UNPAUSED ->
  keeps s s' -> objects s' = objects s -> running_of s' = running_of s ->
  (forall w, rq_inv (order_of s') (queue_of w s')) ->
  waiting_items s' ≡ₚ rq_items (step_skipped_waiting p) ++ waiting_items s ->
  (rq_policy (Q:=Q) = FCFS -> waiting_items s' = reverse (rq_items (step_skipped_waiting p)) ++ waiting_items s) ->
  waiting_done s2 p2 adm s' p.
Proof.
  intros [] Hpre Hun Hk Ho Hr Hq Hperm Hfc. split; unfold request_of; rewrite ?Ho, ?Hr; try done.
  - by etrans.
  - rewrite <-wi_perm, Hperm. simpl. rewrite (assoc_L (++)). by rewrite (Permutation_app_comm (rq_items _)).
  - intros Hf. destruct (wi_fcfs Hf) as (seen & -> & Hadm & Hsk). split.
    + by apply sublist_inserts_r.
    + rewrite (Hfc Hf). by apply sublist_app.
  - intros r Hin. apply wi_status. rewrite Hperm in Hin. rewrite !elem_of_app in *. tauto.
  - by right.
Qed.

Lemma waiting_done_nothing s p :
  (forall w, rq_inv (order_of s) (queue_of w s)) ->
  (forall r, r ∈ waiting_items s -> waiting_status (status (request_of s r))) ->
  scheduled_new_reqs (picked p) = [] -> scheduled_resumed_reqs (picked p) = [] -> 0 <= token_budget p ->
  waiting_done s p [] s p.
Proof.
  intros Hq Hw Hn Hr Hb. split; rewrite ?Hn, ?Hr, ?app_nil_r; try done.
  - intros _. split; [apply sublist_nil_l|done].
  - intros r Hin. by apply not_elem_of_nil in Hin.
  - exists []. rewrite app_nil_r. split_and!; try done. unfold sum_shares. simpl. lia.
  - by left.
  - by left.
Qed.

Lemma waiting_items_skipped s q :
  waiting_items (set_queue Skipped q s) = rq_items q ++ rq_items (waiting (queues s)).
Proof. done. Qed.

(** Putting the skipped requests back. *)
Lemma put_back_spec s2 p2 adm s p (defer_prefills : bool) :
  wait_inv s2 p2 [] adm s p -> preempted p2 = [] -> pause_state s2 = UNPAUSED ->
  triple (let* p := the_pass in
     when (rq_bool (step_skipped_waiting p))
       (on_sched (on_queue Skipped (without_answer (fun lt => prepend_requests lt (step_skipped_waiting p))))) ;;
     when (negb defer_prefills)
       (on_sched (modify (fun s => set_counters (num_waiting_for_streaming_input s) (current_step s)
          (rq_bool (queue_of Waiting s)) (pause_state s) s))))
    (fun _ t => waiting_done s2 p2 adm t.1 t.2) (s, p).
Proof.
  intros Hi Hpre Hun. pose proof Hi as []. unfold triple. do 2 (wp_one; cbn beta iota). apply wp_bind.
  assert (forall s', waiting_done s2 p2 adm s' p -> forall b : bool, wp (when b
    (on_sched (modify (fun s => set_counters (num_waiting_for_streaming_input s) (current_step s)
       (rq_bool (queue_of Waiting s)) (pause_state s) s))))
    (fun _ t => waiting_done s2 p2 adm t.1 t.2) (fun _ => False) (fun _ => False) (s', p)) as Hend.
  { intros s' [] b. apply wp_when; intros _; [|done]. wp_go. split; try done. by etrans. }
  apply wp_when; intros Hb; [|apply Hend].
  - wp_go. apply Hend. apply without_answer_inv in Hc.
    destruct (prepend_requests_ok (order_of s) _ _ _ wi_step (wi_queues Skipped)) as (q' & Hq' & Hinv & Hp).
    rewrite Hc in Hq'. injection Hq' as <-.
    eapply waiting_done_intro; [exact Hi|done|done|apply keeps_queue|done|done| | |].
    + intros []; [apply (wi_queues Waiting)|exact Hinv].
    + rewrite waiting_items_skipped, Hp. by rewrite <-(assoc_L (++)).
    + intros Hf. rewrite waiting_items_skipped, (prepend_all_fcfs _ _ _ _ Hf Hc). by rewrite <-(assoc_L (++)).
  - assert (rq_items (step_skipped_waiting p) = []) as Hnil.
    { destruct (rq_items (step_skipped_waiting p)) eqn:Hit; [done|].
      assert (rq_bool (step_skipped_waiting p) = true) by (apply rq_bool_items; by rewrite Hit). congruence. }
    eapply waiting_done_intro; try done; rewrite Hnil; done.
Qed.

Lemma schedule_waiting_spec `{!ConnectorLaws C} threshold defer_prefills s p :
  (forall w, rq_inv (order_of s) (queue_of w s)) ->
  (forall r, r ∈ waiting_items s -> waiting_status (status (request_of s r))) ->
  scheduled_new_reqs (picked p) = [] -> scheduled_resumed_reqs (picked p) = [] -> 0 <= token_budget p ->
  step_skipped_waiting p = rq_new -> config_ok (config s) -> lookups_ok s ->
  (preempted p = [] -> NoDup (waiting_items s) /\
    (forall r, r ∈ waiting_items s -> r ∉ od_keys (num_scheduled_tokens (shares p))) /\
    (forall r, r ∈ waiting_items s -> request_waits s r)) ->
  triple (schedule_waiting threshold defer_prefills) (fun _ t => exists adm, waiting_done s p adm t.1 t.2) (s, p).
Proof.
  intros Hq Hst Hn Hr Hb Hsk Hcfg Hl Hpre. unfold triple, schedule_waiting. do 4 (wp_one; cbn beta iota).
  apply wp_when; intros Hgo; [|exists []; by apply waiting_done_nothing].
  apply andb_true_iff in Hgo as [Hz%Z.eqb_eq Hun%bool_decide_eq_true].
  destruct (preempted p) as [|x l] eqn:Hp; [|cbn [length] in Hz; lia].
  destruct (Hpre eq_refl) as (Hnd & Hk & Hw). apply wp_bind.
  eapply wp_triple; [apply waiting_loop_spec; try done; by apply wait_inv_init|].
  intros _ [s3 p3] [adm Hi]. eapply wp_triple; [by apply put_back_spec|]. intros ? t Ht. by exists adm.
Qed.

(** * A pass *)

(** A queued request is not running. *)
Lemma queued_not_running s r : sched_ok s -> r ∈ waiting_items s -> r ∉ running_of s.
Proof. intros Hok Hr Hr'. pose proof (so_nodup _ Hok) as Hnd. apply NoDup_app in Hnd as (_ & Hd & _). by apply (Hd r). Qed.

(** What a pass that admits [adm] and hands out [total] tokens leaves. *)
Record pass_done s (adm : list ref) (total : Z) s' p : Prop := {
  pd_keeps : keeps s s';
  pd_total : total = sum_shares (num_scheduled_tokens (shares p)) /\ 0 <= token_budget p /\
    token_budget p + total = token_budget (initial_pass s);
  pd_keys : od_keys (num_scheduled_tokens (shares p)) = scheduled p ++ adm;
  pd_new : scheduled_new_reqs (picked p) ++ scheduled_resumed_reqs (picked p) ≡ₚ adm;
  pd_distinct : NoDup (scheduled p ++ adm) /\ forall r, r ∈ scheduled p -> r ∈ running_of s /\ r ∈ running_of s';
  pd_fits r n : (r, n) ∈ num_scheduled_tokens (shares p) ->
    (r ∈ scheduled p /\ share_fits (config s) (objects s r) n) \/
    (r ∈ adm /\ admitted_fits (config s) (request_of s' r) (num_computed_tokens (request_of s' r)) n);
  pd_computed r : r ∈ scheduled p ->
    num_computed_tokens (request_of s' r) = num_computed_tokens (request_of s r);
  pd_conserved : running_of s' ++ waiting_items s' ≡ₚ running_of s ++ waiting_items s;
  pd_running : running_of s' ++ preempted p ≡ₚ running_of s ++ adm;
  pd_closed : adm = [] \/ preempted p = [] /\ pause_state s = UNPAUSED;
  pd_limit : zlen (running_of s') <= max_num_running_reqs (config s);
  pd_status r : r ∈ running_of s' -> status (request_of s' r) = RUNNING;
  pd_waiting r : r ∈ waiting_items s' -> waiting_status (status (request_of s' r));
  pd_queues w : rq_inv (order_of s') (queue_of w s');
  pd_fcfs : rq_policy (Q:=Q) = FCFS ->
    running_of s' ++ reverse (preempted p) = running_of s ++ adm /\ adm `sublist_of` waiting_items s /\
    waiting_items s' `sublist_of`
      rq_items (skipped_waiting (queues s)) ++ reverse (preempted p) ++ rq_items (waiting (queues s))
}.

Section Compose.
Context (s s2 s3 : state) (p0 p2 p3 : Pass Q) (i : Z) (adm : list ref).
Hypothesis Hok : sched_ok s.
Hypothesis Hp0 : p0 = initial_pass s.
Hypothesis Hrun : run_inv s p0 (token_budget p0) i s2 p2.
Hypothesis Hwait : waiting_done s2 p2 adm s3 p3.

Lemma run_items : waiting_items s2 ≡ₚ preempted p2 ++ waiting_items s.
Proof using Hrun.
  clear -Hrun. destruct Hrun. unfold waiting_items. rewrite ri_skipped, ri_waiting, !(assoc_L (++)).
  by rewrite (Permutation_app_comm (rq_items _)).
Qed.

Lemma compose_conserved : running_of s2 ++ waiting_items s2 ≡ₚ running_of s ++ waiting_items s /\
  running_of s3 ++ waiting_items s3 ≡ₚ running_of s2 ++ waiting_items s2 /\
  running_of s3 ++ preempted p3 ≡ₚ running_of s ++ adm.
Proof using Hrun Hwait.
  clear Hok Hp0. pose proof run_items as Hitems. destruct Hrun, Hwait. destruct wd_picked0 as [_ ->].
  rewrite wd_running0. split_and!.
  - rewrite Hitems, (assoc_L (++)). by rewrite ri_perm.
  - rewrite <-(assoc_L (++)), (Permutation_app_comm adm). by rewrite wd_perm0.
  - rewrite <-(assoc_L (++)), (Permutation_app_comm adm), (assoc_L (++)). by rewrite ri_perm.
Qed.

Lemma compose_fcfs : rq_policy (Q:=Q) = FCFS ->
  running_of s3 ++ reverse (preempted p3) = running_of s ++ adm /\ adm `sublist_of` waiting_items s /\
  waiting_items s3 `sublist_of`
    rq_items (skipped_waiting (queues s)) ++ reverse (preempted p3) ++ rq_items (waiting (queues s)).
Proof using Hrun Hwait.
  clear Hok Hp0. intros Hf. destruct Hrun, Hwait. destruct (ri_fcfs Hf) as [Hr Hw], (wd_fcfs0 Hf) as [Ha Hs].
  assert (waiting_items s2 = rq_items (skipped_waiting (queues s)) ++ reverse (preempted p2) ++
    rq_items (waiting (queues s))) as Hw2 by (unfold waiting_items; by rewrite ri_skipped, Hw).
  destruct wd_picked0 as [_ ->]. rewrite wd_running0, Hr. rewrite Hw2 in Hs, Ha.
  split_and!; [| |done].
  - destruct wd_closed0 as [->|[-> _]]; by rewrite ?app_nil_r.
  - destruct wd_closed0 as [->|[Hpre _]]; [apply sublist_nil_l|]. by rewrite Hpre in Ha.
Qed.

Lemma compose_distinct : NoDup (scheduled p3 ++ adm) /\
  (forall r, r ∈ scheduled p3 -> r ∈ running_of s /\ r ∈ running_of s3) /\
  (forall r, r ∈ running_of s2 -> r ∉ waiting_items s2).
Proof using Hok Hrun Hwait.
  clear Hp0. destruct compose_conserved as (Hc2 & Hc3 & _). pose proof (so_nodup _ Hok) as Hnd.
  rewrite <-Hc2 in Hnd. assert (forall r, r ∈ running_of s2 -> r ∉ waiting_items s2) as Hdis.
  { apply NoDup_app in Hnd as (_ & Hd & _). exact Hd. }
  rewrite <-Hc3 in Hnd. apply NoDup_app in Hnd as (Hnd & _).
  destruct Hrun, Hwait. destruct wd_picked0 as [-> _], ri_scheduled as [Hnds Hsub]. rewrite wd_running0 in Hnd |- *.
  apply NoDup_app in Hnd as (_ & Hda & Hna). split_and!; [|intros r Hr|done].
  - apply NoDup_app. split_and!; [done| |done]. intros r Hr. by apply Hda, Hsub.
  - split; [rewrite <-ri_perm|]; apply elem_of_app; left; by apply Hsub.
Qed.

Lemma compose_computed r : r ∈ scheduled p3 ->
  num_computed_tokens (request_of s3 r) = num_computed_tokens (request_of s r).
Proof using Hok Hrun Hwait.
  clear Hp0. destruct compose_distinct as (_ & _ & Hdis). destruct Hrun, Hwait. destruct wd_picked0 as [-> _].
  intros Hr%ri_scheduled. unfold request_of. rewrite wd_others0 by by apply Hdis. by apply ri_computed.
Qed.

Lemma compose_fits r n : (r, n) ∈ num_scheduled_tokens (shares p3) ->
  (r ∈ scheduled p3 /\ share_fits (config s) (objects s r) n) \/
  (r ∈ adm /\ admitted_fits (config s) (request_of s3 r) (num_computed_tokens (request_of s3 r)) n).
Proof using Hrun Hwait.
  clear Hok Hp0. destruct Hrun, Hwait. destruct wd_shares0 as (new & -> & Hk & _ & Hf).
  destruct wd_picked0 as [-> _]. intros [Hin|Hin]%elem_of_app; [left|right].
  - split; [|by apply (ta_fits _ _ _ _ ri_tally)]. rewrite <-(ta_keys _ _ _ _ ri_tally).
    apply list_elem_of_fmap. by exists (r, n).
  - split; [rewrite <-Hk; apply list_elem_of_fmap; by exists (r, n)|].
    rewrite Forall_forall in Hf. rewrite <-(kp_config _ _ ri_keeps). by apply (Hf (r, n)).
Qed.

Lemma compose_total : sum_shares (num_scheduled_tokens (shares p3)) + token_budget p3 = token_budget p0 /\
  od_keys (num_scheduled_tokens (shares p3)) = scheduled p3 ++ adm.
Proof using Hrun Hwait.
  clear Hok Hp0. destruct Hrun, Hwait. destruct wd_shares0 as (new & -> & Hk & Hsum & _), wd_picked0 as [-> _].
  destruct ri_tally. unfold od_keys in *. rewrite fmap_app, ta_keys, Hk, sum_shares_app. split; [lia|done].
Qed.

Lemma compose_pass : pass_done s adm (sum_shares (num_scheduled_tokens (shares p3))) s3 p3.
Proof using All.
  destruct compose_conserved as (Hc2 & Hc3 & Hr3), compose_total as [Htot Hkeys], compose_distinct as (Hnd & Hin & Hdis).
  pose proof compose_fits. pose proof compose_fcfs. pose proof compose_computed. destruct Hok, Hrun, Hwait. split; try done.
  - by etrans.
  - split; [done|]. rewrite <-Hp0. lia.
  - by rewrite Hc3.
  - destruct wd_closed0 as [?|[? ?]]; [by left|right]. destruct wd_picked0 as [_ ->].
    rewrite <-(kp_pause _ _ ri_keeps). done.
  - rewrite <-(kp_config _ _ ri_keeps) in *. rewrite <-(kp_streaming _ _ ri_keeps) in so_streaming0.
    destruct wd_limit0 as [->|]; [|lia]. rewrite wd_running0, app_nil_r. etrans; [|exact so_room0].
    apply inj_le. rewrite <-ri_perm, length_app. lia.
  - intros r Hr. rewrite wd_running0 in Hr. apply elem_of_app in Hr as [Hr|Hr]; [|by apply wd_admitted0].
    unfold request_of. rewrite wd_others0 by by apply Hdis. by apply ri_status.
Qed.
End Compose.

(** Whatever was scheduled is running. *)
Lemma pass_done_running s adm total s' p : pass_done s adm total s' p -> scheduled p ++ adm ⊆+ running_of s'.
Proof.
  intros []. destruct pd_distinct0 as [Hnd Hin]. apply NoDup_submseteq; [done|].
  intros r [Hr|Hr]%elem_of_app; [by apply Hin|].
  assert (r ∈ running_of s' ++ preempted p) as Hr' by (rewrite pd_running0; apply elem_of_app; by right).
  destruct pd_closed0 as [->|[Hpre _]]; [by apply not_elem_of_nil in Hr|]. by rewrite Hpre, app_nil_r in Hr'.
Qed.

Lemma check_constraints_spec s adm s' p :
  pass_done s adm (sum_shares (num_scheduled_tokens (shares p))) s' p -> sched_ok s ->
  triple check_constraints (fun total t => t = (s', p) /\ pass_done s adm total s' p) (s', p).
Proof.
  intros Hd Hok. pose proof Hd as []. destruct pd_total0 as (_ & Hb & Htot). unfold triple, check_constraints. wp_go.
  pose proof (kp_config _ _ pd_keeps0) as Hcfg. rewrite Hcfg.
  apply wp_check.
  { apply Z.leb_le. unfold initial_pass in Htot. cbn -[sum_shares] in Htot.
    pose proof (co_max_tokens _ (so_config _ Hok)). destruct (bool_decide _); lia. }
  apply wp_bind, wp_check; [by apply Z.leb_le|]. apply wp_bind, wp_check; [by apply Z.leb_le|].
  apply wp_bind, wp_check; [|by wp_go]. apply Z.leb_le.
  rewrite <-Nat2Z.inj_add, <-length_app, pd_new0.
  apply pass_done_running, submseteq_length in Hd. rewrite length_app in Hd. lia.
Qed.

(** ** From any state that is sound *)

Lemma compose_distinct_running s s2 p0 p2 i : sched_ok s -> run_inv s p0 (token_budget p0) i s2 p2 ->
  NoDup (waiting_items s2) /\ forall r, r ∈ running_of s2 -> r ∉ waiting_items s2.
Proof.
  intros Hok Hi. pose proof (run_items _ _ _ _ _ Hi) as Hitems. pose proof (so_nodup _ Hok) as Hnd.
  assert (running_of s2 ++ waiting_items s2 ≡ₚ running_of s ++ waiting_items s) as Hp.
  { rewrite Hitems, (assoc_L (++)). by rewrite (ri_perm _ _ _ _ _ _ Hi). }
  rewrite <-Hp in Hnd. apply NoDup_app in Hnd as (_ & Hd & Hn). by split.
Qed.

Lemma sched_ok_blocks s s' : only_blocks s s' -> sched_ok s -> sched_ok s'.
Proof.
  intros (Hk & Ho & Hq) []. pose proof (kp_config _ _ Hk) as Hcfg.
  assert (waiting_items s' = waiting_items s) as Hw by (unfold waiting_items; by rewrite Hq).
  split; rewrite ?Hcfg, ?Hq, ?Ho, ?Hw; try done.
  - by eapply lookups_ok_keeps.
  - intros w. replace (queue_of w s') with (queue_of w s) by (destruct w; simpl; by rewrite Hq).
    by eapply keeps_inv.
  - intros r Hr. eapply request_waits_keeps; [done|by rewrite Ho|by apply so_waiting0].
  - by rewrite (kp_streaming _ _ Hk).
  - intros m Hm. etrans; [|by apply so_loras0]. apply inj_le, subseteq_size. by apply lora_ids_keeps.
Qed.

Lemma pass_done_blocks s s1 adm total s' p : only_blocks s s1 -> pass_done s1 adm total s' p ->
  pass_done s adm total s' p.
Proof.
  intros (Hk & Ho & Hq) []. pose proof (kp_config _ _ Hk) as Hcfg.
  assert (waiting_items s1 = waiting_items s) as Hw by (unfold waiting_items; by rewrite Hq).
  unfold initial_pass in pd_total0. rewrite Hcfg, (kp_pause _ _ Hk) in pd_total0.
  rewrite ?Hcfg, ?Ho, ?Hq, ?Hw, ?(kp_pause _ _ Hk) in *. split; rewrite ?Hcfg; try done; [by etrans|].
  intros r Hr. rewrite pd_computed0 by done. unfold request_of. by rewrite Ho.
Qed.

Lemma schedule_loops_spec `{!ConnectorLaws C} threshold defer_prefills s : sched_ok s ->
  triple (running_loop threshold defer_prefills ;; record_loras ;;
          schedule_waiting threshold defer_prefills ;; check_constraints)
    (fun total t => exists adm, pass_done s adm total t.1 t.2) (s, initial_pass s).
Proof.
  intros Hok. pose proof Hok as []. set (p0 := initial_pass s).
  assert (0 <= token_budget p0) as Hb0.
  { pose proof (co_max_tokens _ so_config0). unfold p0, initial_pass. cbn. destruct (bool_decide _); lia. }
  unfold triple. apply wp_bind. eapply wp_triple.
  { apply (running_loop_spec s p0 (token_budget p0)); try done.
    - by apply NoDup_app in so_nodup0 as [? _].
    - apply run_inv_init; try done; [|by apply (so_queues0 Waiting)]. intros r Hr. by apply (rr_status _ _ (so_running0 r Hr)). }
  intros _ [s2 p2] [i Hi]. cbn [fst snd] in Hi. apply wp_bind.
  eapply wp_triple; [by eapply record_loras_spec|]. intros _ [s2' p2'] [Hs Hi']. cbn [fst snd] in *. subst s2'. clear Hi p2.
  pose proof Hi' as []. pose proof (run_items _ _ _ _ _ Hi') as Hitems. apply wp_bind. eapply wp_triple.
  - destruct (compose_distinct_running _ _ _ _ _ Hok Hi') as [Hnd2 Hdis].
    apply schedule_waiting_spec; try apply ri_none; try done.
    + intros []; [done|]. simpl. rewrite ri_skipped. eapply keeps_inv; [exact ri_keeps|apply (so_queues0 Skipped)].
    + intros r Hr. rewrite Hitems in Hr. apply elem_of_app in Hr as [Hr|Hr].
      * right. left. by apply ri_preempted.
      * unfold request_of. rewrite ri_others by by apply (queued_not_running s). apply (rw_status _ _ (so_waiting0 r Hr)).
    + apply ri_tally.
    + by rewrite (kp_config _ _ ri_keeps).
    + by eapply lookups_ok_keeps.
    + intros Hpre. rewrite Hpre in Hitems. simpl in Hitems. split_and!; [done| |].
      * intros r Hr. rewrite (ta_keys _ _ _ _ ri_tally). intros Hs. apply ri_scheduled in Hs. by apply (Hdis r).
      * intros r Hr. rewrite Hitems in Hr. eapply request_waits_keeps; [exact ri_keeps| |by apply so_waiting0].
        apply ri_others. by apply (queued_not_running s).
  - intros _ [s3 p3] [adm Hdone]. cbn [fst snd] in Hdone.
    eapply wp_triple; [eapply check_constraints_spec; [|exact Hok]; by eapply (compose_pass s s2 s3 p0)|].
    intros total t [-> Ht]. by exists adm.
Qed.

(** The pass itself, from [schedule]'s first line to the checks. *)
Lemma schedule_requests_spec `{!ConnectorLaws C} throttle s : sched_ok s ->
  triple (schedule_requests throttle) (fun total t => exists adm, pass_done s adm total t.1 t.2)
    (s, initial_pass s).
Proof.
  intros Hok. unfold triple, schedule_requests. apply wp_bind.
  eapply (wp_triple _ (fun _ t => t = (s, initial_pass s))).
  { unfold triple, long_prefill_threshold. by wp_go. }
  intros threshold t ->. do 4 (wp_one; cbn beta iota). injection Hc as <- <-. do 1 (wp_one; cbn beta iota).
  set (s1 := set_kv _ s). assert (only_blocks s s1) as Hs1 by (split; [apply keeps_kv, kv_new_step_frame|done]).
  eapply wp_triple; [apply (schedule_loops_spec _ _ s1); by eapply sched_ok_blocks|].
  intros total t [adm Ht]. exists adm. by eapply pass_done_blocks.
Qed.
End Step.
