(* ===== verification/SchedUpdate.v ===== *)
(** The end of a scheduling step: the output is assembled, the connector is told,
    and [_update_after_schedule] (with the override of async_scheduler.py) counts
    the tokens handed out as computed and in flight. Together with the pass of
    [SchedStep] this is the specification of [Scheduler.schedule]. *)
From S2P Require Import Prelude FreeQueue Request BlockHash BlockPool EncoderCache CacheHit SingleType GroupManager Coordinator KVCacheManager KVLifecycle KVFrame Heapq RequestQueue ChunkPlan EncoderPlan SchedMonad SchedState SchedOps Schedule SchedFrame SchedRunning SchedWaiting SchedAdmission SchedStep.
From Stdlib Require Import QArith.Qcanon.
Open Scope Z_scope.

(** A request's entry, or nothing. *)
Definition share_of (d : list (ref * Z)) (r : ref) : Z := default 0 (od_get r d).

Lemma share_of_app d r n x : r ∉ od_keys d ->
  share_of (d ++ [(r, n)]) x = share_of d x + (if decide (x = r) then n else 0).
Proof.
  unfold share_of, od_keys. induction d as [|[k v] d IH]; intros Hr; csimpl in *.
  - destruct (decide (x = r)); [|done]. simpl. lia.
  - apply not_elem_of_cons in Hr as [Hne Hr]. destruct (decide (x = k)) as [->|]; [|by apply IH].
    rewrite decide_False by done. simpl. lia.
Qed.

(** The tokens of [n] more are computed and in flight; draft tokens may be replaced. *)
Definition bumped (n : Z) (spec : list Z) (rq : Request) : Request :=
  with_counts (num_computed_tokens rq + n) (num_in_flight_tokens rq + n) spec
    (shared_prefix_boundary rq) (num_preemptions rq) rq.
Definition counted (n : Z) (rq rq' : Request) : Prop := exists spec, rq' = bumped n spec rq.

Lemma counted_none rq : counted 0 rq rq.
Proof. exists (spec_token_ids rq). destruct rq. unfold bumped, with_counts. cbn. by rewrite !Z.add_0_r. Qed.

Lemma counted_add n m rq rq1 rq2 : counted n rq rq1 -> counted m rq1 rq2 -> counted (n + m) rq rq2.
Proof.
  intros [sp ->] [sp' ->]. exists sp'. destruct rq. unfold bumped, with_counts. cbn. by rewrite !Z.add_assoc.
Qed.

Lemma counted_in_flight n rq :
  counted n rq (set_in_flight (num_in_flight_tokens rq + n) (set_computed (num_computed_tokens rq + n) rq)).
Proof. exists (spec_token_ids rq). by destruct rq. Qed.

Lemma counted_spec sp rq : counted 0 rq (set_spec sp rq).
Proof. exists sp. destruct rq. unfold bumped, set_spec, with_counts. cbn. by rewrite !Z.add_0_r. Qed.

Section Update.
Context `{PoolEnv} `{GroupManager M} `{!CacheFrame M} `{EncoderCache E} `{RequestQueueLaws Q} `{KVConnector C}.
Local Abbreviation state := (Scheduler M E Q C).
Implicit Types (r : ref) (s : state) (p : Pass Q).

(** * Counting the shares *)

(** The requests of [d] were counted, and nothing else but fences, notices and the
    requests' scheduling marks changed. *)
Record advanced (d : list (ref * Z)) s s' : Prop := {
  av_config : config s' = config s;
  av_queues : queues s' = queues s;
  av_requests : requests s' = requests s;
  av_streaming : num_waiting_for_streaming_input s' = num_waiting_for_streaming_input s;
  av_counted r : counted (share_of d r) (request_of s r) (request_of s' r)
}.

Lemma advanced_none s : advanced [] s s.
Proof. split; try done. intros r. apply counted_none. Qed.

(** One more request is counted. *)
Lemma advanced_snoc d s s' r n q (t : state) : advanced d s s' -> r ∉ od_keys d ->
  (forall x, objects t x = if decide (x = r) then q else objects s' x) ->
  counted n (request_of s' r) (req q) -> config t = config s' -> queues t = queues s' ->
  requests t = requests s' -> num_waiting_for_streaming_input t = num_waiting_for_streaming_input s' ->
  advanced (d ++ [(r, n)]) s t.
Proof.
  intros [] Hr Ho Hq Hc Hqs Hrs Hst. split; [by rewrite Hc|by rewrite Hqs|by rewrite Hrs|by rewrite Hst|]. intros x. unfold request_of in *. rewrite Ho, share_of_app by done.
  destruct (decide (x = r)) as [->|]; [|by rewrite Z.add_0_r].
  by eapply counted_add.
Qed.

(** Changes that do not count. *)
Lemma advanced_more d s s' (t : state) : advanced d s s' ->
  (forall x, counted 0 (request_of s' x) (request_of t x)) -> config t = config s' -> queues t = queues s' ->
  requests t = requests s' -> num_waiting_for_streaming_input t = num_waiting_for_streaming_input s' ->
  advanced d s t.
Proof.
  intros [] Ho Hc Hqs Hrs Hst. split; [by rewrite Hc|by rewrite Hqs|by rewrite Hrs|by rewrite Hst|]. intros x.
  rewrite <-(Z.add_0_r (share_of d x)). by eapply counted_add.
Qed.

Lemma after_schedule_spec d s s' r n : advanced d s s' -> r ∉ od_keys d ->
  triple (after_schedule (r, n)) (fun _ => advanced (d ++ [(r, n)]) s) s'.
Proof.
  intros Ha Hr. unfold triple, after_schedule. wp_go.
  match goal with |- wp _ _ _ _ (set_object r ?q ?x) => set (s2 := set_object r q x) end.
  assert (advanced (d ++ [(r, n)]) s s2) as Ha2.
  { eapply (advanced_snoc _ _ _ _ _ (objects s2 r)); [exact Ha|done| |..|done|done|done|done].
    - intros x. simpl. by repeat case_decide.
    - simpl. rewrite !decide_True by done. apply counted_in_flight. }
  apply wp_when; intros _; [|done]. wp_go. eapply advanced_more; try done. intros x. apply counted_none.
Qed.

Lemma after_async_spec out e d s s' : advanced d s s' -> triple (after_schedule_async out e) (fun _ => advanced d s) s'.
Proof.
  intros Ha. unfold triple, after_schedule_async. wp_go. apply wp_if; intros _; [by wp_go|]. wp_go.
  match goal with |- wp _ _ _ _ (set_object e.1 ?q ?x) => set (s2 := set_object e.1 q x) end.
  assert (advanced d s s2) as Ha2.
  { eapply advanced_more; [exact Ha| |done..]. intros x. unfold request_of. simpl.
    case_decide as Hx; [|apply counted_none]. subst x. apply counted_spec. }
  apply wp_when; intros _; [|done]. wp_go. eapply advanced_more; [exact Ha2| |done..].
  intros x. unfold request_of. simpl. case_decide as Hx; [|apply counted_none]. subst x.
  rewrite decide_True by done. apply counted_none.
Qed.

Lemma update_after_schedule_spec out s : NoDup (od_keys (num_scheduled_tokens (out_shares out))) ->
  triple (update_after_schedule out) (fun _ => advanced (num_scheduled_tokens (out_shares out)) s) s.
Proof.
  intros Hnd. unfold triple, update_after_schedule. set (d := num_scheduled_tokens _) in *. apply wp_bind.
  apply (wp_for (fun rest s' => exists d', d = d' ++ rest /\ advanced d' s s')).
  - intros [r n] rest s' (d' & Hd & Ha). eapply wp_triple; [apply (after_schedule_spec d'); [done|]|].
    + rewrite Hd in Hnd. unfold od_keys in *. rewrite fmap_app in Hnd. csimpl in Hnd.
      apply NoDup_app in Hnd as (_ & Hx & _). intros Hr. apply (Hx r Hr). left.
    + intros ? t Ht. exists (d' ++ [(r, n)]). by rewrite <-(assoc_L (++)).
  - exists []. split; [done|apply advanced_none].
  - intros s' (d' & Hd & Ha). rewrite app_nil_r in Hd. subst d'. wp_go.
    set (s2 := set_notices _ s'). assert (advanced d s s2) as Ha2.
    { eapply advanced_more; [exact Ha| |done..]. intros x. apply counted_none. }
    apply wp_when; intros _; [|done]. apply (wp_for (fun _ => advanced d s)); [|exact Ha2|done].
    intros e rest t Ht. by apply after_async_spec.
Qed.

(** * The output *)

(** [num_spec_tokens_to_schedule] has an entry for every batch size. *)
Definition drafts_ok (c : SchedConfig) : Prop :=
  forall lookup, dynamic_sd_lookup c = Some lookup -> max_num_running_reqs c < zlen lookup.

Lemma free_cow_spec blocks fence s : triple (free_cow_retained_blocks blocks fence) (fun _ => only_blocks s) s.
Proof.
  unfold triple, free_cow_retained_blocks. wp_go. apply wp_if; intros _; wp_go.
  - apply silently_inv in Hc. unfold pool_free in Hc. apply bind_Ok_inv in Hc as (pool & _ & Hp). injection Hp as <-.
    split; [apply keeps_kv, kv_pool_frame|done].
  - split; [apply keeps_fences|done].
Qed.

Lemma zeroed_spec s : triple get_new_block_ids_to_zero (fun _ => only_blocks s) s.
Proof.
  unfold triple, get_new_block_ids_to_zero. wp_go.
  assert (only_blocks s (set_kv k s)) as Hs.
  { split; [|done]. apply keeps_kv. pose proof (kv_take_ids_frame (kv_cache_manager s)) as Hk.
    destruct (kv_take_new_block_ids _). by simplify_eq. }
  apply wp_if; intros _; wp_go; [done|]. etrans; [exact Hs|]. split; [by apply keeps_notices|done].
Qed.

Lemma make_output_spec total p s : drafts_ok (config s) ->
  zlen (num_scheduled_tokens (shares p)) <= max_num_running_reqs (config s) ->
  triple (make_output total p) (fun out s' => only_blocks s s' /\ out_picked out = picked p /\
    out_shares out = shares p /\ total_num_scheduled_tokens out = total) s.
Proof.
  intros Hd Hlen. unfold triple, make_output. do 6 (wp_one; cbn beta iota). apply wp_bind.
  eapply (wp_triple _ (fun _ => only_blocks s)).
  { unfold triple. destruct (running (queues s)) as [|r rs]; wp_go; [done|]. split; [|done]. apply keeps_kv.
    pose proof (kv_common_frame (request_id (req (objects s r))) (kv_cache_manager s)) as Hk.
    destruct (kv_get_num_common_prefix_blocks _ _). by simplify_eq. }
  intros common s1 Hs1. do 2 (wp_one; cbn beta iota). apply wp_bind.
  eapply (wp_triple _ (fun _ => only_blocks s)).
  { unfold triple. destruct (connector s1); wp_go; [|done]. apply wp_if; intros _; wp_go; [|done].
    etrans; [exact Hs1|]. split; [|done]. by apply keeps_kv, (kv_offloads_frame _ a). }
  intros offloads s2 Hs2. wp_one. apply wp_on_kv. intros [copies retained] k Hk. cbn beta iota.
  assert (only_blocks s (set_kv k s2)) as Hs3.
  { etrans; [exact Hs2|]. split; [|done]. apply keeps_kv.
    destruct (take_kv_cache_block_copies (kv_cache_manager s2)) as [[cp rt] k'] eqn:Ht.
    injection Hk as <- <- <-. by eapply kv_copies_frame. }
  do 2 (wp_one; cbn beta iota). apply wp_bind. eapply (wp_triple _ (fun _ => only_blocks s)).
  { unfold triple. apply wp_when; intros _; [|done].
    eapply wp_triple; [apply free_cow_spec|]. intros ? t Ht. by etrans. }
  intros _ s4 Hs4. apply wp_bind. eapply (wp_triple _ (fun _ => only_blocks s)).
  { unfold triple. destruct (dynamic_sd_lookup (config s)) as [lookup|] eqn:Hl; [|by wp_go].
    apply wp_if; intros Hz; [|by wp_go]. apply Z.ltb_lt in Hz. specialize (Hd _ Hl).
    destruct (lookup_lt_is_Some_2 lookup (Z.to_nat (zlen (num_scheduled_tokens (shares p))))) as [x Hx]; [lia|].
    eapply wp_own; [apply py_index_Ok; [lia|exact Hx]|done]. }
  intros k' s5 Hs5. do 2 (wp_one; cbn beta iota). wp_one. apply wp_on_encoder. intros h e He. apply wp_bind.
  eapply wp_triple; [apply zeroed_spec|]. intros z s6 Hs6. wp_go. split; [|done].
  etrans; [exact Hs5|]. etrans; [|exact Hs6]. split; [apply keeps_encoder|done].
Qed.

Lemma connector_meta_spec out s : triple (build_connector_meta out) (fun _ => only_blocks s) s.
Proof.
  unfold triple, build_connector_meta. wp_go. destruct (connector s); wp_go; [|done].
  split; [apply keeps_connector|done].
Qed.

(** * [schedule] *)

(** The state [schedule] plans in: the step is counted. *)
Definition next_step s : state :=
  set_counters (num_waiting_for_streaming_input s) (current_step s + 1) (prefill_capacity_bound s) (pause_state s) s.

(** The pass and what becomes of it. *)
Record scheduled_to s (out : SchedulerOutput) s' (adm : list ref) (mid : state) p : Prop := {
  sc_pass : pass_done (next_step s) adm (total_num_scheduled_tokens out) mid p;
  sc_picked : out_picked out = picked p;
  sc_shares : out_shares out = shares p;
  sc_counted : advanced (num_scheduled_tokens (shares p)) mid s'
}.

Lemma next_step_ok s : sched_ok s -> sched_ok (next_step s).
Proof.
  intros Hok. split; try apply Hok. intros r Hr. by destruct (so_waiting _ Hok r Hr).
Qed.

Lemma pass_done_limit s adm total s' p : pass_done s adm total s' p ->
  zlen (num_scheduled_tokens (shares p)) <= max_num_running_reqs (config s') /\
  NoDup (od_keys (num_scheduled_tokens (shares p))).
Proof.
  intros Hd. pose proof (submseteq_length _ _ (pass_done_running _ _ _ _ _ Hd)) as Hlen.
  destruct Hd as [Hk _ Hkeys _ [Hnd _] _ _ _ _ _ Hlim _ _ _ _]. rewrite <-Hkeys in Hlen, Hnd.
  rewrite (kp_config _ _ Hk). unfold od_keys in Hlen. rewrite length_fmap in Hlen. split; [lia|done].
Qed.

Lemma wp_in_pass {A} (m : prog (Scheduler M E Q C * Pass Q) A) (Qp : A * Pass Q -> state -> Prop) s :
  triple m (fun a t => Qp (a, t.2) t.1) (s, initial_pass s) ->
  triple (in_pass m) Qp s.
Proof. unfold triple, wp, in_pass. by destruct (m _) as [a []|[]|[]|[]]. Qed.

(** The counting only needs the objects. *)
Lemma advanced_blocks d s s1 s' : only_blocks s s1 -> advanced d s1 s' -> advanced d s s'.
Proof.
  intros (Hk & Ho & Hq) []. unfold request_of in *. split.
  - by rewrite <-(kp_config _ _ Hk).
  - by rewrite <-Hq.
  - by rewrite <-(kp_requests _ _ Hk).
  - by rewrite <-(kp_streaming _ _ Hk).
  - intros r. unfold request_of. by rewrite <-Ho.
Qed.

Lemma schedule_Ok `{!ConnectorLaws C} throttle s : sched_ok s -> drafts_ok (config s) ->
  triple (schedule throttle) (fun out s' => exists adm mid p, scheduled_to s out s' adm mid p) s.
Proof.
  intros Hok Hd. unfold triple, schedule. do 2 (wp_one; cbn beta iota). fold (next_step s). apply wp_bind.
  eapply (wp_triple _ (fun a s' => exists adm, pass_done (next_step s) adm a.1 s' a.2)).
  { by apply wp_in_pass, schedule_requests_spec, next_step_ok. }
  intros [total p] mid [adm Hpass]. cbn [fst snd] in Hpass. apply wp_bind.
  destruct (pass_done_limit _ _ _ _ _ Hpass) as [Hlim Hnd].
  pose proof (kp_config _ _ (pd_keeps _ _ _ _ _ Hpass)) as Hcfg.
  eapply wp_triple; [apply make_output_spec; [by rewrite Hcfg|done]|].
  intros out s2 (Hs2 & Hpk & Hsh & Htot). apply wp_bind. eapply wp_triple; [apply connector_meta_spec|].
  intros ? s3 Hs3. do 2 (wp_one; cbn beta iota). apply wp_bind. eapply (wp_triple _ (fun _ => only_blocks mid)).
  { assert (only_blocks mid s3) by by etrans. unfold triple. apply wp_when; intros _; [|done]. wp_go. etrans; [done|].
    split; [apply keeps_fences|done]. }
  intros ? s4 Hs4. apply wp_bind. eapply wp_triple; [apply update_after_schedule_spec; by rewrite Hsh|].
  intros ? s' Ha. wp_go. exists adm, mid, p. split; [by rewrite Htot|done|done|].
  rewrite Hsh in Ha. by eapply advanced_blocks.
Qed.
End Update.
