(* ===== verification/SchedTheorems.v ===== *)
(** What [Scheduler.schedule] of src/upstream/vllm/v1/core/sched/scheduler.py
    promises, and where a step on a concrete scheduler surprises. *)
From S2P Require Import Prelude FreeQueue Request BlockHash BlockPool EncoderCache CacheHit MambaHit SingleType GroupManager AttentionGroup MambaManager Coordinator HybridHit PyFloat KVCacheManager KVLifecycle KVFrame Heapq RequestQueue ChunkPlan EncoderPlan SchedMonad SchedState SchedOps Schedule SchedFrame SchedRunning SchedWaiting SchedAdmission SchedStep SchedUpdate.
From Stdlib Require Import QArith.Qcanon.
Open Scope Z_scope.

Section Theorems.
Context `{PoolEnv} `{GroupManager M} `{!CacheFrame M} `{EncoderCache E} `{RequestQueueLaws Q} `{KVConnector C} `{!ConnectorLaws C}.
Local Abbreviation state := (Scheduler M E Q C).
Implicit Types (r : ref) (s : state).

(** The requests a step admits. *)
Definition admitted (out : SchedulerOutput) : list ref :=
  scheduled_new_reqs (out_picked out) ++ scheduled_resumed_reqs (out_picked out).



(** C4: first come, first served. With the FCFS queues a step changes nobody's
    place: the running requests keep their order, those preempted are taken from
    the end, youngest first, and stand again in their old order at the head of
    [self.waiting]; requests are admitted in the order in which the queues are
    tried, and those that stay keep theirs. *)
Theorem schedule_keeps_fcfs_order throttle s : rq_policy (Q:=Q) = FCFS -> sched_ok s -> drafts_ok (config s) ->
  triple (schedule throttle) (fun out s' => exists new,
    let preempted := preempted_reqs (out_picked out) in
    new ≡ₚ admitted out /\
    running (queues s') ++ reverse preempted = running (queues s) ++ new /\
    new `sublist_of` waiting_items s /\
    waiting_items s' `sublist_of`
      rq_items (skipped_waiting (queues s)) ++ reverse preempted ++ rq_items (waiting (queues s))) s.
Proof.
  intros Hf Hok Hd. eapply wp_mono; [by apply schedule_Ok| |done..].
  intros out s' (adm & mid & p & [[] Hpk Hsh []]). exists adm. unfold admitted. cbn zeta. rewrite Hpk, av_queues.
  assert (waiting_items s' = waiting_items mid) as -> by (unfold waiting_items; by rewrite av_queues).
  destruct (pd_fcfs Hf) as (? & ? & ?). by split_and!.
Qed.
End Theorems.

(** * A concrete scheduler *)

(** A connector that has loaded up to [n] tokens of any request, asynchronously, but
    never its last token. *)
Definition demo_matched (rq : Request) (local n : Z) : Z := Z.max 0 (Z.min n (num_tokens rq - 1 - local)).
#[export] Instance demo_connector : KVConnector Z := {
  kc_on_new_request _ n := Ok n;
  kc_get_num_new_matched_tokens rq local n :=
    Ok (Some (demo_matched rq local n), 0 <? demo_matched rq local n, n);
  kc_update_state_after_alloc _ _ _ n := Ok n;
  kc_build_connector_meta _ n := Ok n;
  kc_request_finished _ _ n := Ok (false, n);
  kc_reset_cache n := Ok (true, n)
}.

#[export] Instance demo_connector_laws : ConnectorLaws Z.
Proof.
  intros rq n c ext async c' [= <- <- <-] Hn. unfold demo_matched.
  destruct (Z.ltb_spec 0 (Z.max 0 (Z.min c (num_tokens rq - 1 - n)))); lia.
Qed.

Definition demo_config (lora : option Z) : SchedConfig :=
  mkSchedConfig 4 16 64 1 false false lora 0 false true false false 0 0 None false 4 4 4 false false 8
    false false false 1 false.

(** One group of full attention over blocks of four tokens, six of them free. *)
Abbreviation demo_sched_kv :=
  (kv_init [mkGroupSpec (mkSpec 4 FullAttentionSpec) "full" false] 7 false 64 4 4 (Some 64) false false false 1 1
     (float_of_int 0) None).

(** A request with [n] tokens, of which the first [prompt] are its prompt. *)
Definition demo_req (id : string) (prio : Z) (lora : option LoRARequest) (st : RequestStatus)
    (prompt n computed : Z) : Request :=
  mkRequest id prio example_time 1 st None (Some example_sampling) None lora 8 None ∅ prompt
    (replicate (Z.to_nat (n - prompt)) 5) (replicate (Z.to_nat n) 5) [] computed 0 None [] 0 0 [] false.
Definition demo_object (rq : Request) : SReq :=
  mkSReq rq 0 0 false false 0 0 None false None NoGrammar false false.

Section Demo.
Context {Q : Type} `{RequestQueue Q}.
Definition demo_state (c : SchedConfig) (o : ref -> SReq) (rs : list ref) (w : Q) (k : KVCacheManager AnyManager)
    : Scheduler AnyManager EncoderCacheManager Q Z :=
  mkScheduler c o rs (mkQueues w rq_new []) (mkFences 0 0 []) (mkNotices ∅ ∅ ∅ ∅ ∅ ∅) ∅ 0 0 false UNPAUSED k
    (encoder_cache_init 8) None.
End Demo.

(** The store of some objects. *)
Definition demo_store (l : list (ref * SReq)) (r : ref) : SReq :=
  default (demo_object (demo_req r 0 None WAITING 1 1 0)) (od_get r l).

Definition ran {S A B} (f : A -> S -> B) (o : outcome S A) : option B :=
  match o with Ret a s => Some (f a s) | _ => None end.

(** Three requests of 7, 8 and 9 tokens wait. *)
Definition demo_waiting (k : KVCacheManager AnyManager) :=
  demo_state (demo_config None)
    (demo_store [("a", demo_object (demo_req "a" 0 None WAITING 7 7 0));
                 ("b", demo_object (demo_req "b" 0 None WAITING 8 8 0));
                 ("c", demo_object (demo_req "c" 0 None WAITING 9 9 0))])%string
    ["a"; "b"; "c"]%string (mkFCFS ["a"; "b"; "c"]%string) k.

(** The first step fills its budget with the first two and one token of the third. *)
Lemma demo_step : match demo_sched_kv with
  | Ok k => ran (fun out s => (running (queues s), num_scheduled_tokens (out_shares out)))
      (schedule false (demo_waiting k))
  | Raise _ => None
  end = Some (["a"; "b"; "c"], [("a", 7); ("b", 8); ("c", 1)])%string.
Proof. vm_compute. reflexivity. Qed.

(** ** A victim that was passed over *)

(** Blocks for requests that run already. *)
Definition demo_allocated (rqs : list (Request * Z)) : result (KVCacheManager AnyManager) :=
  k ← demo_sched_kv;
  for_each (fun e k => '(_, _, k) ← allocate_slots (set_computed 0 e.1) e.2 0 None 0 0 false 0 false 0 true k; Ok k) rqs k.

Definition demo_low : Request := demo_req "low" 9 None RUNNING 16 16 15.
Definition demo_mid : Request := demo_req "mid" 5 None RUNNING 5 5 4.
Definition demo_top : Request := demo_req "top" 1 None RUNNING 3 3 2.

(** Three running requests hold all blocks; [mid] needs one more. [low], the least
    important, may decode again from step [eligible] on. *)
Definition demo_running (eligible : Z) (k : KVCacheManager AnyManager)
    : Scheduler AnyManager EncoderCacheManager PriorityRequestQueue Z :=
  set_running ["low"; "mid"; "top"]%string
    (demo_state (demo_config None)
       (demo_store [("low", with_chunk false eligible 0 (demo_object demo_low)); ("mid", demo_object demo_mid);
                    ("top", demo_object demo_top)]%string)
       ["low"; "mid"; "top"]%string (mkPriority []) k).

Definition demo_priority (eligible : Z) :=
  match demo_allocated [(demo_low, 16); (demo_mid, 4); (demo_top, 3)] with
  | Ok k => ran (fun out s => (running (queues s), preempted_reqs (out_picked out), num_scheduled_tokens (out_shares out)))
      (schedule false (demo_running eligible k))
  | Raise _ => None
  end.
(** A passed-over victim costs another request its turn. Under PRIORITY
    scheduling, [low] was scheduled before it is preempted for [mid]: its share is
    given back, the index is corrected, and [top], the most important request,
    is scheduled. But when [low] was only passed over (its next decode is not due),
    its preemption shortens [self.running] below the index without correcting it:
    [top] is left out of the step, with fifteen of sixteen tokens and all it
    needs at hand. *)
Theorem preempting_passed_over_skips_next :
  demo_priority 0 = Some (["mid"; "top"], ["low"], [("mid", 1); ("top", 1)])%string /\
  demo_priority 5 = Some (["mid"; "top"], ["low"], [("mid", 1)])%string.
Proof. split; vm_compute; reflexivity. Qed.

(** ** LoRAs of requests left out *)

(** Decoding in every other step, as the V2 model runner does with two pipeline
    stages; one LoRA at a time. *)
Definition demo_lora_config : SchedConfig :=
  mkSchedConfig 4 16 64 1 false false (Some 1) 0 false true false false 0 0 None false 4 4 4 false false 8
    false false true 2 true.

Definition demo_decode : Request := demo_req "one" 0 (Some (mkLoRA "first" 1)) RUNNING 3 3 3.
Definition demo_prefill : Request := demo_req "two" 0 (Some (mkLoRA "second" 2)) WAITING 20 20 0.

(** One request decodes with the first LoRA, its next token due in step 2; another
    waits with the second LoRA and a prompt longer than a step's budget. *)
Definition demo_loras (k : KVCacheManager AnyManager)
    : Scheduler AnyManager EncoderCacheManager FCFSRequestQueue Z :=
  set_running ["one"]%string
    (demo_state demo_lora_config
       (demo_store [("one", with_placeholders 1 (with_chunk false 2 0 (demo_object demo_decode)));
                    ("two", demo_object demo_prefill)]%string)
       ["one"; "two"]%string (mkFCFS ["two"]%string) k).

(** The outcome of the first step and of the second. *)
Definition demo_two_steps :=
  match demo_allocated [(demo_decode, 3)] with
  | Ok k =>
      match schedule false (demo_loras k) with
      | Ret out s => Some (running (queues s), num_scheduled_tokens (out_shares out),
          lora_ids s (running (queues s)), match schedule false s with Fail o e => Some (o, e) | _ => None end)
      | _ => None
      end
  | Raise _ => None
  end.


(** ** The theorems at a concrete state *)

Lemma demo_kv_facts : match demo_sched_kv with
  | Ok k => Some (kg_spec <$> kv_cache_groups (coordinator k), attention_groups (coordinator k), co_kind (coordinator k),
      cache_hit_alignment_tokens (coordinator k))
  | Raise _ => None
  end = Some ([mkSpec 4 FullAttentionSpec], [], NoPrefixCache, 4).
Proof. vm_compute. reflexivity. Qed.

Lemma demo_sched_ok k : demo_sched_kv = Ok k -> sched_ok (demo_waiting k).
Proof.
  intros Hk. pose proof demo_kv_facts as Hf. rewrite Hk in Hf. injection Hf as Hg Ha Hkd Hal.
  split; try done.
  - change (hit_shape (coordinator k)). split; [|rewrite Ha, Hkd, Hal; by split_and!].
    destruct (kv_cache_groups (coordinator k)) as [|g [|]]; try done. injection Hg as Hg.
    apply Forall_singleton. rewrite Hg. by split.
  - apply (bool_decide_unpack _). vm_compute. exact I.
  - intros r Hr. by apply not_elem_of_nil in Hr.
  - intros r Hr. repeat (apply elem_of_cons in Hr as [->|Hr]); [..|by apply not_elem_of_nil in Hr].
    all: split; try (vm_compute; congruence).
    all: by left.
Qed.

(** A run that is known to return satisfies its triple's postcondition. *)
Lemma triple_ran {S A B} (m : prog S A) (P : A -> S -> Prop) s (f : A -> S -> B) x :
  triple m P s -> ran f (m s) = Some x -> exists a s', m s = Ret a s' /\ P a s' /\ f a s' = x.
Proof. unfold triple, wp, ran. intros Ht Hr. destruct (m s) as [a s'| | |]; [|done..]. injection Hr as <-. eauto. Qed.

Lemma demo_ran : exists k, demo_sched_kv = Ok k /\
  ran (fun out s => (running (queues s), num_scheduled_tokens (out_shares out))) (schedule false (demo_waiting k)) =
    Some (["a"; "b"; "c"], [("a", 7); ("b", 8); ("c", 1)])%string.
Proof. pose proof demo_step as Hs. destruct demo_sched_kv as [k|]; [by exists k|done]. Qed.



Lemma schedule_keeps_fcfs_order_witness : exists k out s' new, demo_sched_kv = Ok k /\
  schedule false (demo_waiting k) = Ret out s' /\ new ≡ₚ admitted out /\
  ["a"; "b"; "c"]%string ++ reverse (preempted_reqs (out_picked out)) = new.
Proof.
  destruct demo_ran as (k & Hk & Hr).
  destruct (triple_ran _ _ _ _ _ (schedule_keeps_fcfs_order false (demo_waiting k) ltac:(done)
    (demo_sched_ok k Hk) ltac:(done)) Hr) as (out & s' & He & (new & Hnew & Hrun & _) & Hx).
  exists k, out, s', new. injection Hx as Hx _. rewrite Hx in Hrun. by split_and!.
Defined.
