(* ===== verification/OffloadPolicy.v ===== *)
(** * Replacement policies of the CPU offloading cache

    v1/kv_offload/cpu/policies/base.py, lru.py and arc.py.

    A [BlockStatus] is an object: the policy's dicts and the manager's local
    variables share it by reference, and the manager changes [ref_cnt] through
    such a reference. Objects therefore live in a store, and policies hold
    addresses. [CachePolicy] is the abstract class of the source;
    [CachePolicyLaws] is what the manager may rely on, stated about the blocks a
    policy holds ([entries]). [LRUCachePolicy] and [ARCCachePolicy] implement
    both. *)
From S2P Require Import Prelude PyFloat BlockHash.

(** ** Offload keys (v1/kv_offload/base.py) *)

Abbreviation OffloadKey := bytes.

Definition make_offload_key (block_hash : bytes) (group_idx : Z) : result OffloadKey :=
  suffix ← to_bytes_big 4 group_idx;
  Ok (block_hash ++ suffix).

Definition get_offload_block_hash (key : OffloadKey) : bytes := py_upto key (-4).

Definition get_offload_group_idx (key : OffloadKey) : Z := from_bytes_big (py_from key (-4)).

(** The layout is that of the GPU cache's keys. *)
Lemma make_offload_key_layout h g : make_offload_key h g = make_block_hash_with_group_id h g.
Proof. done. Qed.

Lemma offload_key_parts h g key :
  make_offload_key h g = Ok key ->
  get_offload_block_hash key = h /\ get_offload_group_idx key = g /\ 0 <= g < 2 ^ 32.
Proof. rewrite make_offload_key_layout. intros Hk. by apply get_parts_make in Hk as (? & ? & ? & _). Qed.

(** ** Block status objects *)

(** [ref_cnt] is a [c_int32]: assignment keeps the low 32 bits. *)
Definition int32 (z : Z) : Z := (z + 2 ^ 31) `mod` 2 ^ 32 - 2 ^ 31.

Record BlockStatus := mkBlockStatus {
  ref_cnt : Z;
  block_id : Z;
}.

Definition new_BlockStatus (block_id : Z) : BlockStatus := mkBlockStatus (-1) block_id.

Definition is_ready (b : BlockStatus) : bool := 0 <=? ref_cnt b.

(** The objects created so far; an address is an index. *)
Abbreviation addr := nat.
Abbreviation status_store := (list BlockStatus).

(** Reading and writing through a reference; a reference the model hands out
    always denotes an object. *)
Definition read (st : status_store) (a : addr) : BlockStatus :=
  default (mkBlockStatus (-1) (-1)) (st !! a).

Definition set_ref (st : status_store) (a : addr) (r : Z) : status_store :=
  <[a := mkBlockStatus (int32 r) (block_id (read st a))]> st.

Definition idle (st : status_store) (a : addr) : bool := ref_cnt (read st a) =? 0.

(** ** The abstract class *)

(** The blocks an eviction returns, in order. *)
Abbreviation evicted := (list (OffloadKey * addr)).

Class CachePolicy (P : Type) := {
  policy_init : Z -> P;
  policy_get : P -> OffloadKey -> option addr;
  policy_insert : status_store -> OffloadKey -> addr -> P -> result P;
  policy_remove : OffloadKey -> P -> result P;
  policy_touch : status_store -> list OffloadKey -> P -> result P;
  policy_evict : status_store -> Z -> gset OffloadKey -> P -> result (P * option evicted);
  policy_clear : P -> P;
  policy_mark_evictable : OffloadKey -> P -> P;
  policy_mark_non_evictable : OffloadKey -> P -> result P;
}.

(** ** What the manager relies on *)

(** Every key holds an existing object of its own. *)
Record entries_ok (st : status_store) (m : gmap OffloadKey addr) : Prop := {
  entries_live k a : m !! k = Some a -> (a < length st)%nat;
  entries_inj k k' a : m !! k = Some a -> m !! k' = Some a -> k = k';
}.

(** [l] are [n] different blocks that [m] holds, idle and not protected. *)
Record evictable_selection (st : status_store) (m : gmap OffloadKey addr)
    (prot : gset OffloadKey) (n : Z) (l : evicted) : Prop := {
  selection_length : zlen l = n;
  selection_NoDup : NoDup l.*1;
  selection_held k a : (k, a) ∈ l -> m !! k = Some a;
  selection_idle k a : (k, a) ∈ l -> idle st a = true;
  selection_unprotected k a : (k, a) ∈ l -> k ∉ prot;
}.

Class CachePolicyLaws (P : Type) `{CachePolicy P} := {
  entries : P -> gmap OffloadKey addr;
  policy_inv : Z -> status_store -> P -> Prop;

  init_law cap st : 0 <= cap < 2 ^ 53 ->
    policy_inv cap st (policy_init cap) /\ entries (policy_init cap) = ∅;
  entries_law cap st p : policy_inv cap st p -> entries_ok st (entries p);
  get_law cap st p k : policy_inv cap st p -> policy_get p k = entries p !! k;

  (** New objects do not concern the policy; a count may change through a
      reference as long as it does not become or stop being zero. *)
  alloc_law cap st st' p : policy_inv cap st p -> policy_inv cap (st ++ st') p;
  set_ref_law cap st p a r : policy_inv cap st p -> (a < length st)%nat ->
    - 2 ^ 31 <= r < 2 ^ 31 -> idle st a = false -> r <> 0 -> policy_inv cap (set_ref st a r) p;

  (** The manager inserts blocks that are being written. *)
  insert_law cap st p k a : policy_inv cap st p -> (a < length st)%nat ->
    entries p !! k = None -> (forall k', entries p !! k' <> Some a) ->
    idle st a = false ->
    exists p', policy_insert st k a p = Ok p' /\ policy_inv cap st p' /\
      entries p' = <[k := a]> (entries p);
  remove_law cap st p k a : policy_inv cap st p -> entries p !! k = Some a ->
    exists p', policy_remove k p = Ok p' /\ policy_inv cap st p' /\
      entries p' = delete k (entries p);
  touch_law cap st p ks : policy_inv cap st p ->
    exists p', policy_touch st ks p = Ok p' /\ policy_inv cap st p' /\ entries p' = entries p;
  clear_law cap st p : policy_inv cap st p ->
    policy_inv cap st (policy_clear p) /\ entries (policy_clear p) = ∅;

  (** The count is set first, then the policy is told. *)
  mark_evictable_law cap st p k a : policy_inv cap st p -> entries p !! k = Some a ->
    idle st a = false ->
    policy_inv cap (set_ref st a 0) (policy_mark_evictable k p) /\
    entries (policy_mark_evictable k p) = entries p;
  (** The policy is told first, then the count is increased. *)
  mark_non_evictable_law cap st p k a r : policy_inv cap st p -> entries p !! k = Some a ->
    idle st a = true -> 0 < r < 2 ^ 31 ->
    exists p', policy_mark_non_evictable k p = Ok p' /\
      policy_inv cap (set_ref st a r) p' /\ entries p' = entries p;

  (** All or nothing. *)
  evict_law cap st p n prot : policy_inv cap st p -> 0 < n ->
    exists p' o, policy_evict st n prot p = Ok (p', o) /\
      match o with
      | None => p' = p
      | Some l => evictable_selection st (entries p) prot n l /\ policy_inv cap st p' /\
          entries p' = foldr (fun kv m => delete kv.1 m) (entries p) l
      end;
}.

(** ** The store *)

Lemma int32_id r : - 2 ^ 31 <= r < 2 ^ 31 -> int32 r = r.
Proof. intros Hr. unfold int32. rewrite Z.mod_small; lia. Qed.

Lemma length_set_ref st a r : length (set_ref st a r) = length st.
Proof. apply length_insert. Qed.

Lemma read_set_ref st a a' r :
  (a < length st)%nat ->
  read (set_ref st a r) a' =
    if decide (a' = a) then mkBlockStatus (int32 r) (block_id (read st a)) else read st a'.
Proof.
  intros Ha. unfold set_ref. unfold read at 1. destruct (decide (a' = a)) as [->|].
  - by rewrite list_lookup_insert_eq.
  - by rewrite list_lookup_insert_ne.
Qed.

Lemma block_id_set_ref st a a' r :
  (a < length st)%nat -> block_id (read (set_ref st a r) a') = block_id (read st a').
Proof. intros Ha. rewrite read_set_ref by done. by case_decide; subst. Qed.

Lemma ref_cnt_of_set_ref st a a' r :
  (a < length st)%nat -> - 2 ^ 31 <= r < 2 ^ 31 ->
  ref_cnt (read (set_ref st a r) a') = if decide (a' = a) then r else ref_cnt (read st a').
Proof. intros Ha Hr. rewrite read_set_ref by done. case_decide; [by apply int32_id|done]. Qed.

Lemma idle_set_ref st a a' r :
  (a < length st)%nat -> - 2 ^ 31 <= r < 2 ^ 31 ->
  idle (set_ref st a r) a' = if decide (a' = a) then r =? 0 else idle st a'.
Proof. intros Ha Hr. unfold idle. rewrite ref_cnt_of_set_ref by done. by case_decide. Qed.

Lemma read_app st st' a : (a < length st)%nat -> read (st ++ st') a = read st a.
Proof. intros Ha. unfold read. by rewrite lookup_app_l. Qed.

Lemma idle_app st st' a : (a < length st)%nat -> idle (st ++ st') a = idle st a.
Proof. intros Ha. unfold idle. by rewrite read_app. Qed.

(** ** The blocks of a policy *)

Lemma entries_ok_empty st : entries_ok st ∅.
Proof. split; intros *; by rewrite lookup_empty. Qed.

Lemma entries_ok_length st st' m :
  (length st <= length st')%nat -> entries_ok st m -> entries_ok st' m.
Proof. intros Hl [H1 H2]. split; [|done]. intros k a Hk. specialize (H1 k a Hk). lia. Qed.

Lemma entries_ok_set_ref st a r m : entries_ok st m -> entries_ok (set_ref st a r) m.
Proof. apply entries_ok_length. by rewrite length_set_ref. Qed.

Lemma entries_ok_app st st' m : entries_ok st m -> entries_ok (st ++ st') m.
Proof. apply entries_ok_length. rewrite length_app. lia. Qed.

Lemma entries_ok_insert st m k a :
  entries_ok st m -> (a < length st)%nat -> (forall k', m !! k' <> Some a) ->
  entries_ok st (<[k := a]> m).
Proof.
  intros [H1 H2] Ha Hf. split.
  - intros k' a' [[-> ->]|[? ?]]%lookup_insert_Some; eauto.
  - intros k1 k2 a' [[-> ->]|[? ?]]%lookup_insert_Some [[-> Heq]|[? ?]]%lookup_insert_Some;
      subst; try done; [by destruct (Hf k2)|by destruct (Hf k1)|by eapply H2].
Qed.

Lemma entries_ok_sub st m m' : m' ⊆ m -> entries_ok st m -> entries_ok st m'.
Proof. intros Hs [H1 H2]. split; intros; eauto using lookup_weaken. Qed.

Lemma entries_ok_delete st m k : entries_ok st m -> entries_ok st (delete k m).
Proof. apply entries_ok_sub, delete_subseteq. Qed.

Lemma lookup_delete_all {V} (l : list (OffloadKey * V)) (m : gmap OffloadKey addr) k :
  foldr (fun kv m => delete kv.1 m) m l !! k = if decide (k ∈ l.*1) then None else m !! k.
Proof.
  induction l as [|[k0 v0] l IH]; csimpl; [done|].
  destruct (decide (k = k0)) as [->|Hne].
  - rewrite lookup_delete_eq, decide_True; [done|by left].
  - rewrite lookup_delete_ne, IH by done. repeat decide_goal; set_solver.
Qed.

Lemma delete_all_sub {V} (l : list (OffloadKey * V)) (m : gmap OffloadKey addr) :
  foldr (fun kv m => delete kv.1 m) m l ⊆ m.
Proof.
  apply map_subseteq_spec. intros k a. rewrite lookup_delete_all. by case_decide.
Qed.
