(* ===== verification/LruPolicy.v ===== *)
(** * Least-recently-used replacement

    v1/kv_offload/cpu/policies/lru.py. Besides all blocks, the policy keeps the
    idle ones in an [OrderedDict], least recently used first. *)
From S2P Require Import Prelude OffloadPolicy.

Record LRUCachePolicy := mkLRU {
  lru_capacity : Z;
  evictable_blocks : list (OffloadKey * unit);
  blocks : gmap OffloadKey addr;
}.

Definition LRUCachePolicy_init (cache_capacity : Z) : LRUCachePolicy := mkLRU cache_capacity [] ∅.

Definition lru_get (p : LRUCachePolicy) (key : OffloadKey) : option addr := blocks p !! key.

Definition lru_insert (st : status_store) (key : OffloadKey) (block : addr) (p : LRUCachePolicy)
    : result LRUCachePolicy :=
  let p := mkLRU (lru_capacity p) (evictable_blocks p) (<[key := block]> (blocks p)) in
  if ref_cnt (read st block) =? 0 then
    Ok (mkLRU (lru_capacity p) (od_set key tt (evictable_blocks p)) (blocks p))
  else Ok p.

Definition lru_remove (key : OffloadKey) (p : LRUCachePolicy) : result LRUCachePolicy :=
  bs ← map_remove key (blocks p);
  Ok (mkLRU (lru_capacity p) (od_del key (evictable_blocks p)) bs).

Definition lru_touch_one (key : OffloadKey) (ev : list (OffloadKey * unit))
    : result (list (OffloadKey * unit)) :=
  if od_mem key ev then od_move_to_end key ev else Ok ev.

Definition lru_touch (st : status_store) (keys : list OffloadKey) (p : LRUCachePolicy)
    : result LRUCachePolicy :=
  ev ← for_each lru_touch_one (reverse keys) (evictable_blocks p);
  Ok (mkLRU (lru_capacity p) ev (blocks p)).

Definition lru_clear (p : LRUCachePolicy) : LRUCachePolicy := mkLRU (lru_capacity p) [] ∅.

(** The loop of [evict] over [evictable_blocks]; it stops at [n] candidates. *)
Fixpoint lru_candidates (st : status_store) (n : Z) (prot : gset OffloadKey)
    (bs : gmap OffloadKey addr) (ev : list (OffloadKey * unit)) (candidates : evicted)
    : result evicted :=
  match ev with
  | [] => Ok candidates
  | (key, _) :: ev' =>
      if decide (key ∈ prot) then lru_candidates st n prot bs ev' candidates else
      block ← or_raise KeyError (bs !! key);
      _ ← assert_ (ref_cnt (read st block) =? 0);
      let candidates := candidates ++ [(key, block)] in
      if zlen candidates =? n then Ok candidates
      else lru_candidates st n prot bs ev' candidates
  end.

Definition lru_evict_one (kv : OffloadKey * addr) (p : LRUCachePolicy) : result LRUCachePolicy :=
  ev ← od_remove kv.1 (evictable_blocks p);
  bs ← map_remove kv.1 (blocks p);
  Ok (mkLRU (lru_capacity p) ev bs).

Definition lru_evict (st : status_store) (n : Z) (prot : gset OffloadKey) (p : LRUCachePolicy)
    : result (LRUCachePolicy * option evicted) :=
  if n =? 0 then Ok (p, Some []) else
  candidates ← lru_candidates st n prot (blocks p) (evictable_blocks p) [];
  if zlen candidates <? n then Ok (p, None) else
  p ← for_each lru_evict_one candidates p;
  Ok (p, Some candidates).

Definition lru_mark_evictable (key : OffloadKey) (p : LRUCachePolicy) : LRUCachePolicy :=
  mkLRU (lru_capacity p) (od_set key tt (evictable_blocks p)) (blocks p).

Definition lru_mark_non_evictable (key : OffloadKey) (p : LRUCachePolicy) : result LRUCachePolicy :=
  ev ← od_remove key (evictable_blocks p);
  Ok (mkLRU (lru_capacity p) ev (blocks p)).

#[export] Instance lru_policy : CachePolicy LRUCachePolicy := {
  policy_init := LRUCachePolicy_init;
  policy_get := lru_get;
  policy_insert := lru_insert;
  policy_remove := lru_remove;
  policy_touch := lru_touch;
  policy_evict := lru_evict;
  policy_clear := lru_clear;
  policy_mark_evictable := lru_mark_evictable;
  policy_mark_non_evictable := lru_mark_non_evictable;
}.

(** ** The invariant: the evictable dict holds exactly the idle blocks *)

Record lru_inv (cap : Z) (st : status_store) (p : LRUCachePolicy) : Prop := {
  lru_entries : entries_ok st (blocks p);
  lru_NoDup : NoDup (od_keys (evictable_blocks p));
  lru_idle k : k ∈ od_keys (evictable_blocks p) <->
    exists a, blocks p !! k = Some a /\ idle st a = true;
}.


Lemma lru_init cap st :
  lru_inv cap st (LRUCachePolicy_init cap) /\ blocks (LRUCachePolicy_init cap) = ∅.
Proof.
  split; [|done]. split; cbn [evictable_blocks blocks lru_capacity]; [apply entries_ok_empty|constructor|].
  intros k. rewrite elem_of_nil. split; [done|]. intros (a & Ha & _).
  cbn in Ha. by rewrite lookup_empty in Ha.
Qed.

(** The invariant follows a change of the store that leaves the held blocks
    there and as idle as they were. *)
Lemma lru_inv_store cap st st' p :
  lru_inv cap st p -> (length st <= length st')%nat ->
  (forall k a, blocks p !! k = Some a -> idle st' a = idle st a) -> lru_inv cap st' p.
Proof.
  intros [He Hn Hi] Hl Hsame. split; [by eapply entries_ok_length|done|].
  intros k. rewrite Hi. split; intros (a & Ha & Hid); exists a;
    pose proof (Hsame _ _ Ha); (split; [done|congruence]).
Qed.

Lemma lru_alloc cap st st' p : lru_inv cap st p -> lru_inv cap (st ++ st') p.
Proof.
  intros H. eapply lru_inv_store; [done|rewrite length_app; lia|].
  intros k a Ha. apply idle_app. by eapply entries_live; [apply H|].
Qed.

Lemma lru_set_ref cap st p a r :
  lru_inv cap st p -> (a < length st)%nat -> - 2 ^ 31 <= r < 2 ^ 31 ->
  idle st a = false -> r <> 0 -> lru_inv cap (set_ref st a r) p.
Proof.
  intros H Hl Hr Ha Hr0. eapply lru_inv_store; [done|by rewrite length_set_ref|].
  intros k a' Ha'. rewrite idle_set_ref by done. case_decide; [|done]. subst.
  rewrite Ha. by apply Z.eqb_neq.
Qed.

Lemma lru_insert_Ok cap st p k a :
  lru_inv cap st p -> (a < length st)%nat -> blocks p !! k = None ->
  (forall k', blocks p !! k' <> Some a) -> idle st a = false ->
  exists p', lru_insert st k a p = Ok p' /\ lru_inv cap st p' /\ blocks p' = <[k := a]> (blocks p).
Proof.
  intros [He Hn Hi] Hl Hk Hf Ha. unfold lru_insert, idle in *. rewrite Ha.
  eexists. split_and!; [done| |done]. split; cbn [evictable_blocks blocks lru_capacity]; [by apply entries_ok_insert|done|].
  intros k'. rewrite Hi. split; intros (a' & Ha' & Hid); exists a'; (split; [|done]).
  - rewrite lookup_insert_ne; [done|]. intros ->. congruence.
  - apply lookup_insert_Some in Ha' as [[-> ->]|[? ?]]; [|done].
    unfold idle in Hid. congruence.
Qed.

Lemma lru_remove_Ok cap st p k a :
  lru_inv cap st p -> blocks p !! k = Some a ->
  exists p', lru_remove k p = Ok p' /\ lru_inv cap st p' /\ blocks p' = delete k (blocks p).
Proof.
  intros [He Hn Hi] Hk. unfold lru_remove, map_remove. rewrite Hk. eexists.
  split_and!; [done| |done]. split; cbn [evictable_blocks blocks lru_capacity]; [by apply entries_ok_delete|by apply od_del_NoDup|].
  intros k'. rewrite elem_of_od_del, Hi by done.
  setoid_rewrite lookup_delete_Some. naive_solver.
Qed.

(** ** Recency *)

(** What [touch] does to the order: touched blocks move to the most recently
    used end, the first key of the call last of all. *)
Definition lru_touched (keys ks : list OffloadKey) : list OffloadKey :=
  filter (fun k => k ∉ keys) ks ++ reverse (filter (fun k => k ∈ ks) keys).

Lemma od_unit_eq (d d' : list (OffloadKey * unit)) : od_keys d = od_keys d' -> d = d'.
Proof.
  revert d'. induction d as [|[k []] d IH]; intros [|[k' []] d']; cbn; intros; simplify_eq; [done|].
  f_equal; auto.
Qed.

Lemma od_keys_del k (d : list (OffloadKey * unit)) :
  NoDup (od_keys d) -> od_keys (od_del k d) = filter (fun k' => k' <> k) (od_keys d).
Proof.
  unfold od_keys. induction d as [|[k0 []] d IH]; csimpl; [done|].
  intros [Hk0 Hd]%NoDup_cons. rewrite filter_cons. destruct (decide (k = k0)) as [->|].
  - rewrite decide_False by tauto. rewrite list_filter_all; [done|].
    intros k' Hk' ->. done.
  - rewrite decide_True by done. csimpl. by rewrite IH.
Qed.

Lemma lru_touch_one_keys k ev :
  NoDup (od_keys ev) ->
  exists ev', lru_touch_one k ev = Ok ev' /\ NoDup (od_keys ev') /\
    (forall k', k' ∈ od_keys ev' <-> k' ∈ od_keys ev) /\
    od_keys ev' = filter (fun k' => k' <> k) (od_keys ev) ++
                  (if decide (k ∈ od_keys ev) then [k] else []).
Proof.
  intros Hn. unfold lru_touch_one. destruct (od_mem k ev) eqn:Hk.
  - apply od_mem_true in Hk. destruct (od_get k ev) as [[]|] eqn:Hg;
      [|by apply od_get_None in Hg].
    eexists. rewrite (od_move_to_end_Ok k tt) by done.
    assert (Heq : od_keys (od_del k ev ++ [(k, tt)]) =
                  filter (fun k' => k' <> k) (od_keys ev) ++ [k])
      by (by rewrite od_keys_app, od_keys_del).
    split_and!; [done| | |by rewrite decide_True].
    + rewrite Heq. apply NoDup_app. split_and!; [by apply NoDup_filter| |apply NoDup_singleton].
      intros x Hx%list_elem_of_filter. set_solver.
    + intros k'. rewrite Heq, elem_of_app, list_elem_of_filter, list_elem_of_singleton.
      destruct (decide (k' = k)) as [->|]; tauto.
  - assert (k ∉ od_keys ev) by (rewrite <-od_mem_true; congruence).
    exists ev. split_and!; [done|done|done|]. rewrite decide_False, app_nil_r by done.
    symmetry. apply list_filter_all. intros k' Hk' ->. done.
Qed.

Lemma lru_touch_ev ks ev :
  NoDup (od_keys ev) ->
  exists ev', for_each lru_touch_one ks ev = Ok ev' /\ NoDup (od_keys ev') /\
    (forall k', k' ∈ od_keys ev' <-> k' ∈ od_keys ev) /\
    (NoDup ks -> od_keys ev' =
       filter (fun k => k ∉ ks) (od_keys ev) ++ filter (fun k => k ∈ od_keys ev) ks).
Proof.
  intros Hn. induction ks as [|k ks IH] using rev_ind.
  - exists ev. split_and!; [done..|]. intros _. cbn [filter list_filter]. rewrite app_nil_r.
    symmetry. apply list_filter_all. intros x _. apply not_elem_of_nil.
  - destruct IH as (ev1 & Hr & Hn1 & Hm1 & Ho1).
    destruct (lru_touch_one_keys k ev1 Hn1) as (ev2 & Hr2 & Hn2 & Hm2 & Ho2).
    exists ev2. rewrite for_each_app, Hr. cbn. rewrite Hr2. split_and!; [done|done| |].
    { intros k'. by rewrite Hm2, Hm1. }
    assert (Hif : (if decide (k ∈ od_keys ev1) then [k] else []) = filter (fun k => k ∈ od_keys ev) [k]).
    { rewrite filter_cons. cbn [filter list_filter]. specialize (Hm1 k).
      repeat decide_goal; done || tauto. }
    intros [Hks [Hd _]]%NoDup_app. rewrite Ho2, Hif, (Ho1 Hks), !filter_app.
    assert (k ∉ ks) by (intros ?; eapply Hd; [done|by apply list_elem_of_singleton]).
    rewrite <-app_assoc. f_equal.
    + rewrite list_filter_filter. apply list_filter_iff. intros x. set_solver.
    + f_equal. apply list_filter_all. intros x [_ ?]%list_elem_of_filter. by intros ->.
Qed.

Lemma lru_touch_Ok cap st ks p :
  lru_inv cap st p ->
  exists p', lru_touch st ks p = Ok p' /\ lru_inv cap st p' /\ blocks p' = blocks p /\
    (NoDup ks -> od_keys (evictable_blocks p') = lru_touched ks (od_keys (evictable_blocks p))).
Proof.
  intros [He Hn Hi]. destruct (lru_touch_ev (reverse ks) _ Hn) as (ev & Hr & Hn' & Hm & Ho).
  unfold lru_touch. rewrite Hr. eexists. split_and!; [done| |done|].
  - split; cbn [evictable_blocks blocks lru_capacity]; [done..|]. intros k. by rewrite Hm.
  - intros Hks. cbn [evictable_blocks]. rewrite Ho by (by rewrite reverse_Permutation).
    unfold lru_touched. rewrite filter_reverse. f_equal.
    apply list_filter_iff. intros x. by rewrite elem_of_reverse.
Qed.

(** ** Eviction *)

Lemma lru_candidates_Ok st n prot bs ev acc :
  0 < n -> zlen acc < n ->
  (forall k, k ∈ od_keys ev -> exists a, bs !! k = Some a /\ idle st a = true) ->
  exists l, lru_candidates st n prot bs ev acc = Ok (acc ++ l) /\
    l.*1 = take (Z.to_nat (n - zlen acc)) (filter (fun k => k ∉ prot) (od_keys ev)) /\
    (forall k a, (k, a) ∈ l -> bs !! k = Some a).
Proof.
  intros Hn. revert acc. induction ev as [|[k []] ev IH]; intros acc Hacc Hev; cbn [lru_candidates].
  - exists []. rewrite app_nil_r. split_and!; [done|cbn; by rewrite take_nil|]. intros k a. by rewrite elem_of_nil.
  - assert (Hev' : forall k, k ∈ od_keys ev -> exists a, bs !! k = Some a /\ idle st a = true)
      by (intros k' Hk'; apply Hev; by right).
    unfold od_keys. csimpl. rewrite filter_cons. destruct (decide (k ∈ prot)) as [Hp|Hp].
    + rewrite decide_False by tauto. by apply IH.
    + rewrite decide_True by done. destruct (Hev k ltac:(by left)) as (a & Ha & Hid).
      rewrite Ha. cbn. unfold idle in Hid. rewrite Hid. cbn.
      rewrite length_app. cbn [length].
      destruct (Z.eqb_spec (Z.of_nat (length acc + 1)) n) as [Heq|Hne].
      * exists [(k, a)]. replace (Z.to_nat (n - zlen acc)) with 1%nat by lia.
        split_and!; [done|done|]. intros k' a' ?%list_elem_of_singleton. by simplify_eq.
      * destruct (IH (acc ++ [(k, a)])) as (l & -> & Hl & Hb);
          [rewrite length_app; cbn [length]; lia|done|].
        exists ((k, a) :: l). rewrite <-app_assoc. split_and!; [done| |].
        -- csimpl. rewrite Hl, length_app. cbn [length].
           replace (Z.to_nat (n - zlen acc)) with (S (Z.to_nat (n - Z.of_nat (length acc + 1)))) by lia.
           done.
        -- intros k' a' [?|?]%elem_of_cons; [by simplify_eq|by apply Hb].
Qed.

Lemma lru_apply_Ok cap st p l :
  lru_inv cap st p -> NoDup l.*1 ->
  (forall k a, (k, a) ∈ l -> blocks p !! k = Some a /\ k ∈ od_keys (evictable_blocks p)) ->
  exists p', for_each lru_evict_one l p = Ok p' /\ lru_inv cap st p' /\
    blocks p' = foldr (fun kv m => delete kv.1 m) (blocks p) l /\
    od_keys (evictable_blocks p') = filter (fun k => k ∉ l.*1) (od_keys (evictable_blocks p)).
Proof.
  revert p. induction l as [|[k a] l IH]; intros p [He Hn Hi] Hl Hh; cbn [for_each foldr].
  - exists p. split_and!; [done|done|done|]. symmetry. apply list_filter_all. intros x _. apply not_elem_of_nil.
  - csimpl in *. apply NoDup_cons in Hl as [Hk Hl].
    destruct (Hh k a) as [Hb Hk']; [by left|].
    set (p1 := mkLRU (lru_capacity p) (od_del k (evictable_blocks p)) (delete k (blocks p))).
    assert (Hone : lru_evict_one (k, a) p = Ok p1).
    { unfold lru_evict_one, map_remove. cbn [fst]. by rewrite od_remove_Ok, Hb. }
    rewrite Hone. cbn [mbind result_bind].
    destruct (IH p1) as (p' & Hr & Hinv & Hbs & Hev); [|done| |].
    + split; cbn [evictable_blocks blocks lru_capacity p1];
        [by apply entries_ok_delete|by apply od_del_NoDup|].
      intros k0. rewrite elem_of_od_del, Hi by done. setoid_rewrite lookup_delete_Some. naive_solver.
    + intros k0 a0 Hin. destruct (Hh k0 a0) as [? ?]; [by right|].
      assert (k0 <> k) by (intros ->; apply Hk, list_elem_of_fmap; by exists (k, a0)).
      cbn [evictable_blocks blocks p1]. by rewrite lookup_delete_ne, elem_of_od_del.
    + exists p'. split_and!; [done|done| |].
      * rewrite Hbs. cbn [p1 blocks]. apply map_eq. intros k0.
        rewrite lookup_delete_all. destruct (decide (k0 = k)) as [->|].
        -- rewrite !lookup_delete_eq. by case_decide.
        -- rewrite !lookup_delete_ne, lookup_delete_all by done. done.
      * rewrite Hev. cbn [evictable_blocks p1]. rewrite od_keys_del, list_filter_filter by done.
        apply list_filter_iff. intros x. rewrite elem_of_cons. naive_solver.
Qed.

(** The victims of an eviction: the least recently used unprotected blocks. *)
Definition lru_victims (n : Z) (prot : gset OffloadKey) (p : LRUCachePolicy) : list OffloadKey :=
  take (Z.to_nat n) (filter (fun k => k ∉ prot) (od_keys (evictable_blocks p))).

Lemma lru_evict_Ok cap st p n prot :
  lru_inv cap st p -> 0 < n ->
  exists p' o, lru_evict st n prot p = Ok (p', o) /\
    if zlen (lru_victims n prot p) <? n then p' = p /\ o = None
    else exists l, o = Some l /\ l.*1 = lru_victims n prot p /\
      evictable_selection st (blocks p) prot n l /\ lru_inv cap st p' /\
      blocks p' = foldr (fun kv m => delete kv.1 m) (blocks p) l /\
      od_keys (evictable_blocks p') =
        filter (fun k => k ∉ lru_victims n prot p) (od_keys (evictable_blocks p)).
Proof.
  intros Hinv Hn. pose proof Hinv as [He Hnd Hi].
  destruct (lru_candidates_Ok st n prot (blocks p) (evictable_blocks p) []) as (l & Hr & Hl & Hb);
    [done|cbn; lia|intros k; apply Hi|].
  cbn [app length] in Hr, Hl. replace (n - Z.of_nat 0) with n in Hl by lia.
  fold (lru_victims n prot p) in Hl. unfold lru_evict.
  destruct (Z.eqb_spec n 0); [lia|]. rewrite Hr. cbn [mbind result_bind].
  assert (Hlen : zlen l = zlen (lru_victims n prot p)) by (by rewrite <-Hl, length_fmap).
  rewrite Hlen. destruct (Z.ltb_spec (zlen (lru_victims n prot p)) n) as [|Hge]; [by exists p, None|].
  assert (Hsub : forall k, k ∈ l.*1 -> k ∈ od_keys (evictable_blocks p) /\ k ∉ prot).
  { intros k Hk. rewrite Hl in Hk. unfold lru_victims in Hk.
    apply elem_of_take in Hk as (i & Hk & _). apply list_elem_of_lookup_2 in Hk.
    apply list_elem_of_filter in Hk. tauto. }
  assert (Hnl : NoDup l.*1) by (rewrite Hl; eapply sublist_NoDup; [|apply sublist_take]; apply NoDup_filter, Hnd).
  assert (Hin : forall k a, (k, a) ∈ l -> k ∈ l.*1)
    by (intros k a Hk; apply list_elem_of_fmap; by exists (k, a)).
  destruct (lru_apply_Ok cap st p l Hinv Hnl) as (p' & Hr' & Hinv' & Hbs & Hev).
  { intros k a Hk. split; [by apply Hb|]. by apply Hsub, (Hin k a). }
  rewrite Hr'. exists p', (Some l). split; [done|]. exists l.
  split_and!; [done|done| |done|done|by rewrite Hev, Hl].
  split; [|done|done| |].
  - assert (zlen (lru_victims n prot p) <= n); [|lia].
    unfold lru_victims. rewrite length_take. lia.
  - intros k a Hk. destruct (Hsub k (Hin k a Hk)) as [Hk' _].
    apply Hi in Hk' as (a' & Ha' & Hid). rewrite (Hb k a Hk) in Ha'. by simplify_eq.
  - intros k a Hk. by apply Hsub, (Hin k a).
Qed.

(** ** The laws *)

#[export] Program Instance lru_laws : CachePolicyLaws LRUCachePolicy := {
  entries := blocks;
  policy_inv := lru_inv;
}.
Next Obligation. intros. apply lru_init. Qed.
Next Obligation. intros. by eapply lru_entries. Qed.
Next Obligation. done. Qed.
Next Obligation. intros. by apply lru_alloc. Qed.
Next Obligation. intros. by apply lru_set_ref. Qed.
Next Obligation. intros. by apply (lru_insert_Ok cap). Qed.
Next Obligation. intros. by eapply (lru_remove_Ok cap). Qed.
Next Obligation.
  intros cap st p ks Hinv. destruct (lru_touch_Ok cap st ks p Hinv) as (p' & ? & ? & ? & _).
  by exists p'.
Qed.
Next Obligation.
  intros cap st p _. destruct (lru_init (lru_capacity p) st) as [[? ? ?] _]. by split.
Qed.
Next Obligation.
  intros cap st p k a [He Hn Hi] Hk Ha. split; [|done].
  pose proof (entries_live _ _ He _ _ Hk) as Hl.
  split; cbn [policy_mark_evictable lru_policy lru_mark_evictable evictable_blocks blocks];
    [by apply entries_ok_set_ref|by apply od_set_NoDup|].
  intros k'. assert (Hset : k' ∈ od_keys (od_set k tt (evictable_blocks p)) <->
                            k' = k \/ k' ∈ od_keys (evictable_blocks p)).
  { rewrite od_keys_set. case_decide; [set_solver|]. rewrite elem_of_app, list_elem_of_singleton. tauto. }
  rewrite Hset, Hi. split.
  - intros [->|(a' & Ha' & Hid)]; [exists a|exists a'];
      (split; [done|]); rewrite idle_set_ref by (done || lia); case_decide; congruence || done.
  - intros (a' & Ha' & Hid). destruct (decide (k' = k)) as [|Hne]; [by left|]. right. exists a'.
    split; [done|]. rewrite idle_set_ref in Hid by (done || lia).
    rewrite decide_False in Hid; [done|]. intros ->. apply Hne. by eapply (entries_inj st (blocks p)).
Qed.
Next Obligation.
  intros cap st p k a r [He Hn Hi] Hk Ha Hr. pose proof (entries_live _ _ He _ _ Hk) as Hl.
  cbn [policy_mark_non_evictable lru_policy]. unfold lru_mark_non_evictable.
  rewrite od_remove_Ok by (apply Hi; by exists a). eexists. split_and!; [done| |done].
  split; cbn [evictable_blocks blocks]; [by apply entries_ok_set_ref|by apply od_del_NoDup|].
  intros k'. rewrite elem_of_od_del, Hi by done. split.
  - intros (Hne & a' & Ha' & Hid). exists a'. split; [done|]. rewrite idle_set_ref by lia.
    rewrite decide_False; [done|]. intros ->. apply Hne. by eapply (entries_inj st (blocks p)).
  - intros (a' & Ha' & Hid). rewrite idle_set_ref in Hid by lia.
    case_decide; [lia|]. split; [congruence|by exists a'].
Qed.
Next Obligation.
  intros cap st p n prot Hinv Hn.
  destruct (lru_evict_Ok cap st p n prot Hinv Hn) as (p' & o & Hr & Ho). exists p', o.
  split; [done|]. case_match; [by destruct Ho as [-> ->]|].
  destruct Ho as (l & -> & _ & Hsel & Hinv' & Hbs & _). done.
Qed.
