(* ===== verification/ArcPolicy.v ===== *)
(** * Adaptive replacement

    v1/kv_offload/cpu/policies/arc.py: blocks used once ([t1]) and repeatedly
    ([t2]), ghosts of the keys evicted from either ([b1], [b2]), and a target
    size of [t1] that ghost hits move. The target is a float ([PyFloat]). *)
From S2P Require Import Prelude PyFloat OffloadPolicy.

Record ARCCachePolicy := mkARC {
  arc_capacity : Z;
  target_t1_size : float;
  t1 : list (OffloadKey * addr);
  t2 : list (OffloadKey * addr);
  b1 : list (OffloadKey * unit);
  b2 : list (OffloadKey * unit);
}.

Definition ARCCachePolicy_init (cache_capacity : Z) : ARCCachePolicy :=
  mkARC cache_capacity (float_of_int 0) [] [] [] [].

Definition arc_get (p : ARCCachePolicy) (key : OffloadKey) : option addr :=
  match od_get key (t1 p) with Some block => Some block | None => od_get key (t2 p) end.

Definition arc_insert (st : status_store) (key : OffloadKey) (block : addr) (p : ARCCachePolicy)
    : result ARCCachePolicy :=
  Ok (mkARC (arc_capacity p) (target_t1_size p) (od_set key block (t1 p)) (t2 p)
        (od_del key (b1 p)) (od_del key (b2 p))).

Definition arc_remove (key : OffloadKey) (p : ARCCachePolicy) : result ARCCachePolicy :=
  match od_get key (t1 p) with
  | Some _ => Ok (mkARC (arc_capacity p) (target_t1_size p) (od_del key (t1 p)) (t2 p) (b1 p) (b2 p))
  | None => Ok (mkARC (arc_capacity p) (target_t1_size p) (t1 p) (od_del key (t2 p)) (b1 p) (b2 p))
  end.

(** The body of the loop of [touch]. *)
Definition arc_touch_one (st : status_store) (key : OffloadKey) (p : ARCCachePolicy)
    : result ARCCachePolicy :=
  let 'mkARC cap target t1 t2 b1 b2 := p in
  match od_get key t1 with
  | Some block =>
      let t1 := od_del key t1 in
      if negb (is_ready (read st block)) then Ok (mkARC cap target (od_set key block t1) t2 b1 b2)
      else Ok (mkARC cap target t1 (od_set key block t2) b1 b2)
  | None =>
      if od_mem key t2 then
        t2 ← od_move_to_end key t2;
        Ok (mkARC cap target t1 t2 b1 b2)
      else if od_mem key b1 then
        quotient ← int_div (zlen b2) (zlen b1);
        let delta := fmax (float_of_int 1) quotient in
        let target := fmin (fadd target delta) (float_of_int cap) in
        b1 ← od_move_to_end key b1;
        Ok (mkARC cap target t1 t2 b1 b2)
      else if od_mem key b2 then
        quotient ← int_div (zlen b1) (zlen b2);
        let delta := fmax (float_of_int 1) quotient in
        let target := fmax (fsub target delta) (float_of_int 0) in
        b2 ← od_move_to_end key b2;
        Ok (mkARC cap target t1 t2 b1 b2)
      else Ok p
  end.

Definition arc_touch (st : status_store) (keys : list OffloadKey) (p : ARCCachePolicy)
    : result ARCCachePolicy :=
  for_each (arc_touch_one st) (reverse keys) p.

Definition arc_clear (p : ARCCachePolicy) : ARCCachePolicy :=
  mkARC (arc_capacity p) (float_of_int 0) [] [] [] [].

(** ** Eviction *)

(** The first block of a list that may be taken. *)
Fixpoint arc_find (st : status_store) (prot selected : gset OffloadKey)
    (d : list (OffloadKey * addr)) : option (OffloadKey * addr) :=
  match d with
  | [] => None
  | (key, block) :: d' =>
      if (ref_cnt (read st block) =? 0) && bool_decide (key ∉ prot) && bool_decide (key ∉ selected)
      then Some (key, block) else arc_find st prot selected d'
  end.

(** Candidates carry whether they come from [t1]. *)
Abbreviation arc_candidates := (list (OffloadKey * addr * bool)).

(** The simulation of [n] evictions; [None] when one finds no candidate. *)
Fixpoint arc_select (n : nat) (st : status_store) (prot : gset OffloadKey) (p : ARCCachePolicy)
    (candidates : arc_candidates) (already_selected : gset OffloadKey) (virtual_t1_size : Z)
    : result (option arc_candidates) :=
  match n with
  | O => Ok (Some candidates)
  | S n' =>
      target ← int_of_float (target_t1_size p);
      match (if target <=? virtual_t1_size then arc_find st prot already_selected (t1 p) else None) with
      | Some (key, block) =>
          arc_select n' st prot p (candidates ++ [(key, block, true)])
            ({[key]} ∪ already_selected) (virtual_t1_size - 1)
      | None =>
          match arc_find st prot already_selected (t2 p) with
          | Some (key, block) =>
              arc_select n' st prot p (candidates ++ [(key, block, false)])
                ({[key]} ∪ already_selected) virtual_t1_size
          | None => Ok None
          end
      end
  end.

Definition arc_apply_one (c : OffloadKey * addr * bool) (p : ARCCachePolicy) : result ARCCachePolicy :=
  let '(key, _, from_t1) := c in
  let 'mkARC cap target t1 t2 b1 b2 := p in
  if (from_t1 : bool) then
    t1 ← od_remove key t1;
    Ok (mkARC cap target t1 t2 (od_set key tt b1) b2)
  else
    t2 ← od_remove key t2;
    Ok (mkARC cap target t1 t2 b1 (od_set key tt b2)).

Definition arc_trim (cap : Z) (ghost : list (OffloadKey * unit)) : result (list (OffloadKey * unit)) :=
  for_each (fun (_ : Z) g => kv ← od_popfirst g; Ok kv.2) (py_range 0 (zlen ghost - cap)) ghost.

Definition arc_evict (st : status_store) (n : Z) (prot : gset OffloadKey) (p : ARCCachePolicy)
    : result (ARCCachePolicy * option evicted) :=
  if n =? 0 then Ok (p, Some []) else
  o ← arc_select (Z.to_nat n) st prot p [] ∅ (zlen (t1 p));
  match o with
  | None => Ok (p, None)
  | Some candidates =>
      p ← for_each arc_apply_one candidates p;
      b1 ← arc_trim (arc_capacity p) (b1 p);
      b2 ← arc_trim (arc_capacity p) (b2 p);
      Ok (mkARC (arc_capacity p) (target_t1_size p) (t1 p) (t2 p) b1 b2, Some candidates.*1)
  end.

#[export] Instance arc_policy : CachePolicy ARCCachePolicy := {
  policy_init := ARCCachePolicy_init;
  policy_get := arc_get;
  policy_insert := arc_insert;
  policy_remove := arc_remove;
  policy_touch := arc_touch;
  policy_evict := arc_evict;
  policy_clear := arc_clear;
  (* inherited from the abstract class, where they do nothing *)
  policy_mark_evictable := fun _ p => p;
  policy_mark_non_evictable := fun _ p => Ok p;
}.

(** ** The invariant *)

Definition arc_entries (p : ARCCachePolicy) : gmap OffloadKey addr := list_to_map (t1 p ++ t2 p).

(** A key is in at most one of the four lists. *)
Definition arc_keys (p : ARCCachePolicy) : list OffloadKey :=
  od_keys (t1 p) ++ od_keys (t2 p) ++ od_keys (b1 p) ++ od_keys (b2 p).

Record arc_wf (cap : Z) (st : status_store) (p : ARCCachePolicy) : Prop := {
  arc_cap : arc_capacity p = cap;
  arc_target : in_range (target_t1_size p);
  arc_NoDup : NoDup (arc_keys p);
  arc_entries_ok : entries_ok st (arc_entries p);
}.

Record arc_inv (cap : Z) (st : status_store) (p : ARCCachePolicy) : Prop := {
  arc_cap_bounds : 0 <= cap < 2 ^ 53;
  arc_inv_wf : arc_wf cap st p;
  arc_b1_bound : zlen (b1 p) <= cap;
  arc_b2_bound : zlen (b2 p) <= cap;
}.

(** ** Keys and entries under the dict operations *)

Lemma arc_keys_NoDup (l1 l2 l3 l4 : list OffloadKey) :
  NoDup (l1 ++ l2 ++ l3 ++ l4) <->
  NoDup l1 /\ NoDup l2 /\ NoDup l3 /\ NoDup l4 /\
  (forall k, k ∈ l1 -> k ∉ l2 /\ k ∉ l3 /\ k ∉ l4) /\
  (forall k, k ∈ l2 -> k ∉ l3 /\ k ∉ l4) /\ (forall k, k ∈ l3 -> k ∉ l4).
Proof. rewrite !NoDup_app. set_solver. Qed.

Lemma arc_entries_lookup p k :
  arc_entries p !! k = match od_get k (t1 p) with Some a => Some a | None => od_get k (t2 p) end.
Proof. unfold arc_entries. by rewrite list_to_map_od_get, od_get_app. Qed.

Lemma elem_of_od_set {V} (k k' : OffloadKey) (v : V) d :
  k' ∈ od_keys (od_set k v d) <-> k' = k \/ k' ∈ od_keys d.
Proof. rewrite od_keys_set. case_decide; set_solver. Qed.

Lemma elem_of_od_move {V} (k k' : OffloadKey) (v : V) d :
  NoDup (od_keys d) -> k ∈ od_keys d ->
  k' ∈ od_keys (od_del k d ++ [(k, v)]) <-> k' ∈ od_keys d.
Proof.
  intros Hd Hk. rewrite od_keys_app, elem_of_app, elem_of_od_del by done.
  unfold od_keys at 2. cbn. rewrite list_elem_of_singleton. destruct (decide (k' = k)) as [->|]; tauto.
Qed.

Lemma od_move_NoDup {V} (k : OffloadKey) (v : V) d :
  NoDup (od_keys d) -> NoDup (od_keys (od_del k d ++ [(k, v)])).
Proof.
  intros Hd. rewrite od_keys_app. apply NoDup_app. split_and!; [by apply od_del_NoDup| |apply NoDup_singleton].
  intros x Hx%elem_of_od_del; [|done]. cbn. rewrite list_elem_of_singleton. tauto.
Qed.

(** What every operation of the policy has to show for [arc_wf]. *)
Lemma arc_wf_intro cap st p p' :
  arc_wf cap st p -> arc_capacity p' = cap -> in_range (target_t1_size p') ->
  NoDup (arc_keys p') -> arc_entries p' ⊆ arc_entries p -> arc_wf cap st p'.
Proof. intros [? ? ? He] ? ? ? Hs. split; [done..|]. by eapply entries_ok_sub. Qed.

Ltac arc_solve_NoDup :=
  repeat match goal with
  | H : arc_wf _ _ _ |- _ =>
      let Hk := fresh "Hk" in
      pose proof (arc_NoDup _ _ _ H) as Hk; clear H;
      unfold arc_keys in Hk; cbn [t1 t2 b1 b2] in Hk; apply arc_keys_NoDup in Hk
  end;
  unfold arc_keys; cbn [t1 t2 b1 b2]; apply arc_keys_NoDup;
  destruct_and?; split_and!;
    auto using od_del_NoDup, od_set_NoDup, od_move_NoDup;
    intros ?; rewrite ?elem_of_od_set, ?elem_of_od_del, ?elem_of_od_move by auto using od_del_NoDup;
    set_solver.

Lemma arc_init cap st :
  0 <= cap < 2 ^ 53 -> arc_inv cap st (ARCCachePolicy_init cap) /\ arc_entries (ARCCachePolicy_init cap) = ∅.
Proof.
  intros Hc. split; [|done]. split; [done| |cbn; lia..].
  split; [done|done|constructor|apply entries_ok_empty].
Qed.

Lemma arc_inv_store cap st st' p :
  arc_inv cap st p -> (length st <= length st')%nat -> arc_inv cap st' p.
Proof.
  intros [Hc [? ? ? He] ? ?] Hl. split; [done| |done..]. split; [done..|by eapply entries_ok_length].
Qed.

Lemma arc_insert_Ok cap st p k a :
  arc_inv cap st p -> (a < length st)%nat -> arc_entries p !! k = None ->
  (forall k', arc_entries p !! k' <> Some a) ->
  exists p', arc_insert st k a p = Ok p' /\ arc_inv cap st p' /\
    arc_entries p' = <[k := a]> (arc_entries p).
Proof.
  intros [Hc Hwf Hb1 Hb2] Hl Hk Hf. eexists. split; [done|].
  rewrite arc_entries_lookup in Hk. destruct (od_get k (t1 p)) eqn:Hk1; [done|].
  set (p' := mkARC _ _ _ _ _ _).
  assert (He : arc_entries p' = <[k := a]> (arc_entries p)).
  { apply map_eq. intros k'. rewrite lookup_insert, !arc_entries_lookup. cbn [p' t1 t2].
    rewrite od_get_set. repeat decide_goal; subst; congruence. }
  split; [|done]. pose proof Hwf as [? ? _ Heo]. apply od_get_None in Hk1, Hk.
  assert (Hlen : forall d : list (OffloadKey * unit), zlen (od_del k d) <= zlen d).
  { intros d. destruct (decide (k ∈ od_keys d)) as [Hin|]; [|by rewrite od_del_fresh].
    pose proof (od_length_del k d Hin). lia. }
  split; [done| |cbn [p' b1 b2]..].
  - split; [done|done| |rewrite He; by apply entries_ok_insert].
    clear He Heo Hf. subst p'. destruct p. cbn [t1 t2 b1 b2] in *. arc_solve_NoDup.
  - pose proof (Hlen (b1 p)). lia.
  - pose proof (Hlen (b2 p)). lia.
Qed.

Lemma arc_remove_Ok cap st p k a :
  arc_inv cap st p -> arc_entries p !! k = Some a ->
  exists p', arc_remove k p = Ok p' /\ arc_inv cap st p' /\ arc_entries p' = delete k (arc_entries p).
Proof.
  intros [Hc Hwf Hb1 Hb2] Hk. rewrite arc_entries_lookup in Hk. unfold arc_remove.
  pose proof (arc_NoDup _ _ _ Hwf) as Hnd. unfold arc_keys in Hnd. apply arc_keys_NoDup in Hnd.
  destruct Hnd as (Hn1 & Hn2 & _ & _ & Hd & _).
  destruct (od_get k (t1 p)) as [a'|] eqn:Hk1; (eexists; split; [done|]); set (p' := mkARC _ _ _ _ _ _);
    (assert (He : arc_entries p' = delete k (arc_entries p));
      [|split; [|done]; split; [done| |done..];
        (eapply arc_wf_intro; [done|by destruct Hwf..| |rewrite He; apply delete_subseteq]);
        subst p'; destruct p; clear - Hwf; arc_solve_NoDup]);
    apply map_eq; intros k'; rewrite lookup_delete, !arc_entries_lookup; cbn [p' t1 t2];
    rewrite od_get_del by done; decide_goal; subst; try done.
  - destruct (Hd k) as (? & _); [apply od_get_elem_of; by eexists|].
    rewrite decide_True by done. by apply od_get_None.
  - by rewrite decide_False.
  - by rewrite decide_True, Hk1.
  - by rewrite decide_False.
Qed.

(** ** Touching *)

Lemma od_move_length {V} (k : OffloadKey) (v : V) d :
  k ∈ od_keys d -> length (od_del k d ++ [(k, v)]) = length d.
Proof. intros Hk. rewrite length_app, (od_length_del k d Hk). cbn. lia. Qed.

Lemma arc_inv_intro cap st p p' :
  arc_inv cap st p -> arc_capacity p' = arc_capacity p -> in_range (target_t1_size p') ->
  NoDup (arc_keys p') -> arc_entries p' = arc_entries p ->
  length (b1 p') = length (b1 p) -> length (b2 p') = length (b2 p) -> arc_inv cap st p'.
Proof.
  intros [Hc Hwf ? ?] Hcap Ht Hn He H1 H2. split; [done| |lia..].
  eapply arc_wf_intro; [done| |done|done|by rewrite He]. rewrite Hcap. apply Hwf.
Qed.

(** A ghost hit moves the target by a quotient that stays a finite number. *)
Lemma ghost_delta a b :
  0 <= a < 2 ^ 53 -> 0 < b < 2 ^ 53 ->
  exists q, int_div a b = Ok q /\ sized false 54 (fmax (float_of_int 1) q).
Proof.
  intros Ha Hb. destruct (int_div_sized a b Ha Hb) as (q & Hq & Hs). exists q. split; [done|].
  apply fmax_sized; [|done]. apply (sized_mono _ 0); [lia|]. by apply float_of_int_in_range.
Qed.

Lemma od_pos_length {V} (k : OffloadKey) (d : list (OffloadKey * V)) : k ∈ od_keys d -> 0 < zlen d.
Proof. intros Hk. rewrite (od_length_del k d Hk). lia. Qed.

Lemma arc_touch_one_Ok cap st k p :
  arc_inv cap st p ->
  exists p', arc_touch_one st k p = Ok p' /\ arc_inv cap st p' /\ arc_entries p' = arc_entries p.
Proof.
  intros Hinv. pose proof Hinv as [Hc Hwf Hb1 Hb2]. pose proof Hwf as [Hcap Ht Hn _].
  unfold arc_keys in Hn. apply arc_keys_NoDup in Hn as (Hn1 & Hn2 & Hn3 & Hn4 & Hd1 & Hd2 & Hd3).
  destruct p as [c target d1 d2 g1 g2]. cbn [arc_capacity target_t1_size t1 t2 b1 b2] in *. subst c.
  cbn [arc_touch_one]. destruct (od_get k d1) as [a|] eqn:Hk1.
  - assert (Hin1 : k ∈ od_keys d1) by (apply od_get_elem_of; by eexists).
    destruct (Hd1 k Hin1) as (Hk2 & _ & _). destruct (negb _); eexists; (split; [done|]).
    + assert (He : arc_entries (mkARC cap target (od_set k a (od_del k d1)) d2 g1 g2) =
                   arc_entries (mkARC cap target d1 d2 g1 g2)).
      { apply map_eq. intros k'. rewrite !arc_entries_lookup. cbn [t1 t2].
        rewrite od_get_set, od_get_del by done. decide_goal; [subst; by rewrite Hk1|done]. }
      split; [|done]. eapply arc_inv_intro; [done|done|done| |done..].
      clear - Hwf Hin1. arc_solve_NoDup.
    + assert (He : arc_entries (mkARC cap target (od_del k d1) (od_set k a d2) g1 g2) =
                   arc_entries (mkARC cap target d1 d2 g1 g2)).
      { apply map_eq. intros k'. rewrite !arc_entries_lookup. cbn [t1 t2].
        rewrite od_get_set, od_get_del by done. decide_goal; [subst; by rewrite Hk1|done]. }
      split; [|done]. eapply arc_inv_intro; [done|done|done| |done..].
      clear - Hwf Hin1. arc_solve_NoDup.
  - destruct (od_mem k d2) eqn:Hk2; [|destruct (od_mem k g1) eqn:Hk3; [|destruct (od_mem k g2) eqn:Hk4]].
    + apply od_mem_true in Hk2. destruct (od_get k d2) as [a|] eqn:Hg; [|by apply od_get_None in Hg].
      rewrite (od_move_to_end_Ok k a) by done. eexists. split; [done|].
      assert (He : arc_entries (mkARC cap target d1 (od_del k d2 ++ [(k, a)]) g1 g2) =
                   arc_entries (mkARC cap target d1 d2 g1 g2)).
      { apply map_eq. intros k'. rewrite !arc_entries_lookup. cbn [t1 t2].
        rewrite od_get_app, od_get_del by done. cbn. repeat decide_goal; subst; rewrite ?Hg; try done.
        by destruct (od_get k' d1), (od_get k' d2). }
      split; [|done]. eapply arc_inv_intro; [done|done|done| |done..].
      clear - Hwf Hk2. arc_solve_NoDup.
    + apply od_mem_true in Hk3. destruct (od_get k g1) as [[]|] eqn:Hg; [|by apply od_get_None in Hg].
      pose proof (od_pos_length k g1 Hk3).
      destruct (ghost_delta (zlen g2) (zlen g1)) as (q & -> & Hq); [lia..|]. cbn [mbind result_bind].
      rewrite (od_move_to_end_Ok k tt) by done. eexists. split; [done|]. split; [|done].
      eapply arc_inv_intro; [done|done| | |done|by apply od_move_length|done].
      * cbn [target_t1_size]. apply target_increase; [done|by apply float_of_int_in_range|done].
      * clear - Hwf Hk3. arc_solve_NoDup.
    + apply od_mem_true in Hk4. destruct (od_get k g2) as [[]|] eqn:Hg; [|by apply od_get_None in Hg].
      pose proof (od_pos_length k g2 Hk4).
      destruct (ghost_delta (zlen g1) (zlen g2)) as (q & -> & Hq); [lia..|]. cbn [mbind result_bind].
      rewrite (od_move_to_end_Ok k tt) by done. eexists. split; [done|]. split; [|done].
      eapply arc_inv_intro; [done|done| | |done|done|by apply od_move_length].
      * cbn [target_t1_size]. by apply target_decrease.
      * clear - Hwf Hk4. arc_solve_NoDup.
    + eexists. split; [done|]. by split.
Qed.

Lemma arc_touch_Ok cap st ks p :
  arc_inv cap st p ->
  exists p', arc_touch st ks p = Ok p' /\ arc_inv cap st p' /\ arc_entries p' = arc_entries p.
Proof.
  intros Hinv. unfold arc_touch.
  destruct (for_each_inv (arc_touch_one st)
    (fun _ q => arc_inv cap st q /\ arc_entries q = arc_entries p) (reverse ks) p) as (p' & Hr & ? & ?);
    [done| |by exists p'].
  intros k _ q [Hq He]. destruct (arc_touch_one_Ok cap st k q Hq) as (q' & Hr & Hq' & He').
  exists q'. by rewrite He', He.
Qed.

(** ** Evicting *)

Lemma arc_find_Some st prot sel d k a :
  arc_find st prot sel d = Some (k, a) ->
  (k, a) ∈ d /\ idle st a = true /\ k ∉ prot /\ k ∉ sel.
Proof.
  induction d as [|[k0 a0] d IH]; cbn [arc_find]; [done|].
  destruct (_ && _) eqn:Hc; intros Hf.
  - bools. simplify_eq. split_and!; [by left|unfold idle; by apply Z.eqb_eq|done|done].
  - destruct (IH Hf) as (? & ? & ? & ?). split_and!; try done. by right.
Qed.

(** A candidate is an idle, unprotected block of the list it claims to be from. *)
Definition arc_candidate_ok (st : status_store) (prot : gset OffloadKey) (p : ARCCachePolicy)
    (c : OffloadKey * addr * bool) : Prop :=
  c.1 ∈ (if c.2 then t1 p else t2 p) /\ idle st c.1.2 = true /\ c.1.1 ∉ prot.

Lemma arc_select_Ok st prot p n cands sel v :
  in_range (target_t1_size p) ->
  exists o, arc_select n st prot p cands sel v = Ok o /\
    forall l, o = Some l -> exists l', l = cands ++ l' /\ length l' = n /\
      (forall c, c ∈ l' -> arc_candidate_ok st prot p c /\ c.1.1 ∉ sel) /\ NoDup l'.*1.*1.
Proof.
  intros Ht. destruct (int_of_float_in_range _ Ht) as (target & Htgt & _). revert cands sel v.
  induction n as [|n IH]; intros cands sel v; cbn [arc_select].
  - eexists. split; [done|]. intros l [= <-]. exists []. rewrite app_nil_r.
    split_and!; [done|done| |constructor]. intros c. by rewrite elem_of_nil.
  - rewrite Htgt. cbn [mbind result_bind].
    assert (Hstep : forall (k : OffloadKey) (a : addr) (f : bool) (v' : Z), (k, a) ∈ (if f then t1 p else t2 p) -> idle st a = true ->
      k ∉ prot -> k ∉ sel ->
      exists o, arc_select n st prot p (cands ++ [(k, a, f)]) ({[k]} ∪ sel) v' = Ok o /\
        forall l, o = Some l -> exists l', l = cands ++ l' /\ length l' = S n /\
          (forall c, c ∈ l' -> arc_candidate_ok st prot p c /\ c.1.1 ∉ sel) /\ NoDup l'.*1.*1).
    { intros k a f v' Hin Hid Hp Hs.
      destruct (IH (cands ++ [(k, a, f)]) ({[k]} ∪ sel) v') as (o & Hr & Ho). exists o. split; [done|].
      intros l Hl. destruct (Ho l Hl) as (l' & -> & Hlen & Hall & Hnd).
      exists ((k, a, f) :: l'). rewrite <-app_assoc. split_and!; [done|cbn; lia| |].
      - intros c [->|Hc]%elem_of_cons; [by split_and!|]. destruct (Hall c Hc). set_solver.
      - csimpl. apply NoDup_cons. split; [|done]. intros Hk.
        apply list_elem_of_fmap in Hk as ([k' a'] & -> & Hk).
        apply list_elem_of_fmap in Hk as (c & Hk & Hc). destruct (Hall c Hc) as [_ Hns].
        rewrite <-Hk in Hns. cbn in Hns. set_solver. }
    destruct (if target <=? v then arc_find st prot sel (t1 p) else None) as [[k a]|] eqn:Hf1.
    + destruct (target <=? v); [|done]. apply arc_find_Some in Hf1 as (? & ? & ? & ?).
      by apply (Hstep k a true).
    + destruct (arc_find _ _ _ (t2 p)) as [[k a]|] eqn:Hf2; [|by eexists].
      apply arc_find_Some in Hf2 as (? & ? & ? & ?). by apply (Hstep k a false).
Qed.

Lemma arc_apply_one_Ok cap st p k a f :
  arc_wf cap st p -> (k, a) ∈ (if f : bool then t1 p else t2 p) ->
  exists p', arc_apply_one (k, a, f) p = Ok p' /\ arc_wf cap st p' /\
    arc_entries p !! k = Some a /\ arc_entries p' = delete k (arc_entries p) /\
    (forall k' a', k' <> k -> (k', a') ∈ t1 p -> (k', a') ∈ t1 p') /\
    (forall k' a', k' <> k -> (k', a') ∈ t2 p -> (k', a') ∈ t2 p').
Proof.
  intros Hwf Hin. pose proof (arc_NoDup _ _ _ Hwf) as Hn. unfold arc_keys in Hn.
  apply arc_keys_NoDup in Hn as (Hn1 & Hn2 & Hn3 & Hn4 & Hd1 & Hd2 & Hd3).
  assert (Hk : arc_entries p !! k = Some a /\ (if f then k ∈ od_keys (t1 p) else k ∉ od_keys (t1 p) /\ k ∈ od_keys (t2 p))).
  { rewrite arc_entries_lookup. destruct f; apply od_elem_of_get in Hin; try done.
    - rewrite Hin. split; [done|]. apply od_get_elem_of. by eexists.
    - assert (Hk2 : k ∈ od_keys (t2 p)) by (apply od_get_elem_of; by eexists).
      assert (Hk1 : k ∉ od_keys (t1 p)) by (intros H; by destruct (Hd1 k H)).
      split; [|done]. by rewrite (proj2 (od_get_None k (t1 p)) Hk1). }
  destruct Hk as [Hk Hkl]. destruct p as [c target d1 d2 g1 g2]. cbn [t1 t2 b1 b2] in *. cbn [arc_apply_one].
  destruct f.
  - rewrite (od_remove_Ok k d1) by done. cbn [mbind result_bind]. set (p' := mkARC _ _ _ _ _ _).
    assert (He : arc_entries p' = delete k (arc_entries (mkARC c target d1 d2 g1 g2))).
    { apply map_eq. intros k'. rewrite lookup_delete, !arc_entries_lookup. cbn [p' t1 t2].
      rewrite od_get_del by done. repeat decide_goal; subst; try done.
      apply od_get_None. by apply Hd1. }
    exists p'. split_and!; [done| |done|done| |done].
    + eapply arc_wf_intro; [done|apply Hwf|apply Hwf| |rewrite He; apply delete_subseteq].
      clear - Hwf Hkl. subst p'. arc_solve_NoDup.
    + intros k' a' Hne Hin'. by apply od_del_elem.
  - destruct Hkl as [Hk1 Hk2]. rewrite (od_remove_Ok k d2) by done. cbn [mbind result_bind].
    set (p' := mkARC _ _ _ _ _ _).
    assert (He : arc_entries p' = delete k (arc_entries (mkARC c target d1 d2 g1 g2))).
    { apply map_eq. intros k'. rewrite lookup_delete, !arc_entries_lookup. cbn [p' t1 t2].
      rewrite od_get_del by done. repeat decide_goal; subst; try done.
      by rewrite (proj2 (od_get_None k d1) Hk1). }
    exists p'. split_and!; [done| |done|done|done|].
    + eapply arc_wf_intro; [done|apply Hwf|apply Hwf| |rewrite He; apply delete_subseteq].
      clear - Hwf Hk2. subst p'. arc_solve_NoDup.
    + intros k' a' Hne Hin'. by apply od_del_elem.
Qed.

Lemma arc_apply_Ok cap st p (l : arc_candidates) :
  arc_wf cap st p -> NoDup l.*1.*1 -> (forall c : OffloadKey * addr * bool, c ∈ l -> c.1 ∈ (if c.2 then t1 p else t2 p)) ->
  exists p', for_each arc_apply_one l p = Ok p' /\ arc_wf cap st p' /\
    arc_entries p' = foldr (fun kv m => delete kv.1 m) (arc_entries p) l.*1 /\
    forall k a, (k, a) ∈ l.*1 -> arc_entries p !! k = Some a.
Proof.
  revert p. induction l as [|[[k a] f] l IH]; intros p Hwf Hnd Hl.
  - exists p. split_and!; [done|done|done|]. intros k a. by rewrite elem_of_nil.
  - csimpl in Hnd. apply NoDup_cons in Hnd as [Hk Hnd].
    destruct (arc_apply_one_Ok cap st p k a f Hwf) as (p1 & Hr1 & Hwf1 & Hka & He1 & Hm1 & Hm2);
      [apply (Hl (k, a, f)); by left|].
    destruct (IH p1 Hwf1 Hnd) as (p' & Hr & Hwf' & He & Hall).
    { intros [[k' a'] f'] Hc. pose proof (Hl (k', a', f') ltac:(by right)) as Hin. cbn in Hin |- *.
      assert (k' <> k).
      { intros ->. apply Hk, list_elem_of_fmap. exists (k, a'). split; [done|].
        apply list_elem_of_fmap. by exists (k, a', f'). }
      destruct f'; auto. }
    cbn [for_each fmap list_fmap fst foldr]. rewrite Hr1. cbn [mbind result_bind]. exists p'. split_and!; [done|done| |].
    + rewrite He, He1. apply map_eq. intros k0. rewrite lookup_delete_all, !lookup_delete, lookup_delete_all.
      by repeat decide_goal.
    + intros k0 a0 [?|Hin]%elem_of_cons; [by simplify_eq|].
      specialize (Hall k0 a0 Hin). rewrite He1 in Hall. by apply lookup_delete_Some in Hall as [_ ?].
Qed.

Lemma arc_trim_Ok cap g : 0 <= cap -> arc_trim cap g = Ok (drop (length g - Z.to_nat cap) g).
Proof.
  intros Hc. unfold arc_trim. remember (length g - Z.to_nat cap)%nat as n eqn:Hn.
  assert (Hlen : length (py_range 0 (zlen g - cap)) = n)
    by (unfold py_range; rewrite length_seqZ; lia).
  assert (Hle : (n <= length g)%nat) by lia. clear Hn. revert Hlen Hle.
  generalize (py_range 0 (zlen g - cap)). intros l. revert n g.
  induction l as [|x l IH]; intros n g <- Hle; cbn [length drop for_each]; [done|].
  destruct g as [|kv g]; cbn in Hle; [lia|]. cbn. apply IH; [done|lia].
Qed.

Lemma arc_evict_Ok cap st p n prot :
  arc_inv cap st p -> 0 < n ->
  exists p' o, arc_evict st n prot p = Ok (p', o) /\
    match o with
    | None => p' = p
    | Some l => evictable_selection st (arc_entries p) prot n l /\ arc_inv cap st p' /\
        arc_entries p' = foldr (fun kv m => delete kv.1 m) (arc_entries p) l
    end.
Proof.
  intros [Hc Hwf Hb1 Hb2] Hn. unfold arc_evict. destruct (Z.eqb_spec n 0); [lia|].
  destruct (arc_select_Ok st prot p (Z.to_nat n) [] ∅ (zlen (t1 p))) as (o & Hr & Ho); [apply Hwf|].
  rewrite Hr. cbn [mbind result_bind]. destruct o as [l|]; [|by exists p, None].
  destruct (Ho l eq_refl) as (l' & Heq & Hlen & Hall & Hnd). cbn in Heq. subst l'.
  destruct (arc_apply_Ok cap st p l Hwf Hnd) as (p1 & Hr1 & Hwf1 & He1 & Hheld);
    [intros c Hin; by apply Hall|].
  rewrite Hr1. cbn [mbind result_bind]. pose proof Hwf1 as [Hcap1 Ht1 Hnd1 Heo1].
  rewrite Hcap1, !arc_trim_Ok by lia. cbn [mbind result_bind]. eexists _, _. split; [done|].
  split_and!; [|split; [done| |cbn [b1 b2]; rewrite length_drop; lia..]|done].
  - split; [rewrite length_fmap; lia|done|done| |]; intros k a Hin;
      apply list_elem_of_fmap in Hin as ([[k' a'] f] & Heq & Hin); cbn in Heq; simplify_eq;
      destruct (Hall _ Hin) as [(_ & ? & ?) _]; done.
  - eapply arc_wf_intro; [exact Hwf1|done|done| |done].
    unfold arc_keys in *. cbn [t1 t2 b1 b2]. apply arc_keys_NoDup in Hnd1 as (? & ? & ? & ? & ? & ? & ?).
    assert (Hd : forall m (g : list (OffloadKey * unit)), NoDup (od_keys g) ->
      NoDup (od_keys (drop m g)) /\ forall k, k ∈ od_keys (drop m g) -> k ∈ od_keys g).
    { intros m g Hg. unfold od_keys. rewrite fmap_drop. split.
      - eapply sublist_NoDup; [exact Hg|apply sublist_drop].
      - intros k Hk. eapply elem_of_sublist; [exact Hk|apply sublist_drop]. }
    destruct (Hd (length (b1 p1) - Z.to_nat cap)%nat (b1 p1)) as [? ?]; [done|].
    destruct (Hd (length (b2 p1) - Z.to_nat cap)%nat (b2 p1)) as [? ?]; [done|].
    apply arc_keys_NoDup. split_and!; try done; set_solver.
Qed.

(** ** The laws *)

#[export] Program Instance arc_laws : CachePolicyLaws ARCCachePolicy := {
  entries := arc_entries;
  policy_inv := arc_inv;
}.
Next Obligation. intros. by apply arc_init. Qed.
Next Obligation. intros cap st p H. apply H. Qed.
Next Obligation. intros. by rewrite arc_entries_lookup. Qed.
Next Obligation. intros cap st st' p H. eapply arc_inv_store; [done|]. rewrite length_app. lia. Qed.
Next Obligation. intros. eapply arc_inv_store; [done|]. by rewrite length_set_ref. Qed.
Next Obligation. intros. by apply (arc_insert_Ok cap). Qed.
Next Obligation. intros. by eapply (arc_remove_Ok cap). Qed.
Next Obligation. intros. by apply arc_touch_Ok. Qed.
Next Obligation.
  intros cap st p [Hc [Hcap _ _ _] _ _]. cbn [policy_clear arc_policy]. unfold arc_clear. rewrite Hcap.
  by apply arc_init.
Qed.
Next Obligation. intros. split; [|done]. eapply arc_inv_store; [done|]. by rewrite length_set_ref. Qed.
Next Obligation.
  intros. eexists. split_and!; [done| |done]. eapply arc_inv_store; [done|]. by rewrite length_set_ref.
Qed.
Next Obligation. intros. by apply arc_evict_Ok. Qed.

(** ** How much of [t1] an eviction may take *)

(** Unless [t2] has something to give, [t1] is not shrunk below the target. *)
Lemma arc_select_shortage st prot p n cands sel v target :
  int_of_float (target_t1_size p) = Ok target ->
  (forall sel', arc_find st prot sel' (t2 p) = None) ->
  Z.max 0 (v - target + 1) < Z.of_nat n ->
  arc_select n st prot p cands sel v = Ok None.
Proof.
  intros Ht H2. revert cands sel v. induction n as [|n IH]; intros cands sel v Hn; [lia|].
  cbn [arc_select]. rewrite Ht. cbn [mbind result_bind]. rewrite H2.
  destruct (Z.leb_spec target v); [|done].
  destruct (arc_find st prot sel (t1 p)) as [[k a]|]; [|done]. apply IH. lia.
Qed.

Lemma arc_find_none st prot sel d :
  (forall k a, (k, a) ∈ d -> idle st a = false \/ k ∈ prot) -> arc_find st prot sel d = None.
Proof.
  intros Hd. destruct (arc_find st prot sel d) as [[k a]|] eqn:E; [|done].
  apply arc_find_Some in E as (Hin & Hid & Hp & _). destruct (Hd k a Hin); congruence.
Qed.

Lemma arc_evict_shortage_Ok cap st p n prot target :
  arc_inv cap st p -> int_of_float (target_t1_size p) = Ok target ->
  (forall k a, (k, a) ∈ t2 p -> idle st a = false \/ k ∈ prot) ->
  Z.max 0 (zlen (t1 p) - target + 1) < n -> arc_evict st n prot p = Ok (p, None).
Proof.
  intros _ Ht H2 Hn. unfold arc_evict. destruct (Z.eqb_spec n 0); [lia|].
  rewrite (arc_select_shortage _ _ _ _ _ _ _ target); [done|done| |lia].
  intros sel'. by apply arc_find_none.
Qed.
