(* ===== verification/OffloadManager.v ===== *)
(** * The CPU offloading manager

    v1/kv_offload/cpu/manager.py with the vocabulary of v1/kv_offload/base.py:
    which KV blocks are kept in the CPU buffer, in which slot, and whether a
    transfer reads or writes them. The manager is parameterised by a replacement
    policy; its theorems use the policy's laws only. *)
From S2P Require Import Prelude PyFloat OffloadPolicy.

(** ** Results (v1/kv_offload/base.py) *)

Inductive Medium := CPU | STORAGE.

Inductive LookupResult := MISS | HIT | HIT_PENDING | RETRY.

Record OffloadingEvent := mkOffloadingEvent {
  event_keys : list OffloadKey;
  event_medium : Medium;
  event_removed : bool;
}.

(** The store spec is the list of buffer slots ([CPULoadStoreSpec]). *)
Record PrepareStoreOutput := mkPrepareStoreOutput {
  keys_to_store : list OffloadKey;
  store_spec : list Z;
  evicted_keys : list OffloadKey;
}.

(** What [get_stats] reports. *)
Record OffloadingStats := mkOffloadingStats {
  cache_usage : float;
  allocation_sizes : list Z;
  cache_write_usage : float;
  cache_read_usage : float;
  stores_skipped : option Z;
}.

Section Manager.
Context {P : Type} `{!CachePolicy P}.

(** ** State; [store] holds the [BlockStatus] objects *)

Record CPUOffloadingManager := mkCPUOffloadingManager {
  num_blocks : Z;
  num_allocated_blocks : Z;
  free_list : list Z;
  events : option (list OffloadingEvent);
  policy : P;
  num_evictable_cache_blocks : Z;
  num_write_pending_blocks : Z;
  store_threshold : Z;
  max_tracker_size : Z;
  stores_skipped_in_current_batch : Z;
  allocation_sizes_in_current_batch : list Z;
  counts : option (list (OffloadKey * Z));
  store : status_store;
}.

Definition CPUOffloadingManager_init (num_blocks : Z) (enable_events : bool)
    (store_threshold max_tracker_size : Z) : CPUOffloadingManager :=
  mkCPUOffloadingManager num_blocks 0 [] (if enable_events then Some [] else None)
    (policy_init num_blocks) 0 0 store_threshold max_tracker_size 0 []
    (if 2 <=? store_threshold then Some [] else None) [].

Implicit Types m : CPUOffloadingManager.

(** Assignments to the fields. *)
Definition with_pool (allocated : Z) (free : list Z) (st : status_store) m :=
  mkCPUOffloadingManager (num_blocks m) allocated free (events m) (policy m)
    (num_evictable_cache_blocks m) (num_write_pending_blocks m) (store_threshold m)
    (max_tracker_size m) (stores_skipped_in_current_batch m)
    (allocation_sizes_in_current_batch m) (counts m) st.

Definition with_policy (p : P) m :=
  mkCPUOffloadingManager (num_blocks m) (num_allocated_blocks m) (free_list m) (events m) p
    (num_evictable_cache_blocks m) (num_write_pending_blocks m) (store_threshold m)
    (max_tracker_size m) (stores_skipped_in_current_batch m)
    (allocation_sizes_in_current_batch m) (counts m) (store m).

Definition with_counters (evictable pending : Z) m :=
  mkCPUOffloadingManager (num_blocks m) (num_allocated_blocks m) (free_list m) (events m) (policy m)
    evictable pending (store_threshold m) (max_tracker_size m) (stores_skipped_in_current_batch m)
    (allocation_sizes_in_current_batch m) (counts m) (store m).

Definition with_events (ev : option (list OffloadingEvent)) m :=
  mkCPUOffloadingManager (num_blocks m) (num_allocated_blocks m) (free_list m) ev (policy m)
    (num_evictable_cache_blocks m) (num_write_pending_blocks m) (store_threshold m)
    (max_tracker_size m) (stores_skipped_in_current_batch m)
    (allocation_sizes_in_current_batch m) (counts m) (store m).

Definition with_batch (skipped : Z) (sizes : list Z) (c : option (list (OffloadKey * Z))) m :=
  mkCPUOffloadingManager (num_blocks m) (num_allocated_blocks m) (free_list m) (events m) (policy m)
    (num_evictable_cache_blocks m) (num_write_pending_blocks m) (store_threshold m)
    (max_tracker_size m) skipped sizes c (store m).

(** ** The pool of slots *)

Definition get_num_free_blocks m : Z := zlen (free_list m) + num_blocks m - num_allocated_blocks m.

(** [BlockStatus(id)]: a new object, returned by reference. *)
Definition create_block (id : Z) m : addr * CPUOffloadingManager :=
  (length (store m),
   with_pool (num_allocated_blocks m) (free_list m) (store m ++ [new_BlockStatus id]) m).

Definition allocate_fresh (s : CPUOffloadingManager * list addr)
    : result (CPUOffloadingManager * list addr) :=
  let '(m, blocks) := s in
  let '(block, m) := create_block (num_allocated_blocks m) m in
  Ok (with_pool (num_allocated_blocks m + 1) (free_list m) (store m) m, blocks ++ [block]).

Definition allocate_reused (s : CPUOffloadingManager * list addr)
    : result (CPUOffloadingManager * list addr) :=
  let '(m, blocks) := s in
  '(id, free) ← py_pop (free_list m);
  let '(block, m) := create_block id (with_pool (num_allocated_blocks m) free (store m) m) in
  Ok (m, blocks ++ [block]).

Definition allocate_blocks (keys : list OffloadKey) m : result (list addr * CPUOffloadingManager) :=
  let num_fresh := Z.min (zlen keys) (num_blocks m - num_allocated_blocks m) in
  let num_reused := zlen keys - num_fresh in
  _ ← assert_ (num_reused <=? zlen (free_list m));
  s ← for_each (fun _ => allocate_fresh) (py_range 0 num_fresh) (m, []);
  s ← for_each (fun _ => allocate_reused) (py_range 0 num_reused) s;
  Ok (s.2, s.1).

Definition free_block (block : addr) m : CPUOffloadingManager :=
  with_pool (num_allocated_blocks m) (free_list m ++ [block_id (read (store m) block)]) (store m) m.

Definition get_load_store_spec (blocks : list addr) m : list Z :=
  (fun a => block_id (read (store m) a)) <$> blocks.

(** An assignment to [block.ref_cnt]. *)
Definition set_ref_cnt (block : addr) (r : Z) m : CPUOffloadingManager :=
  with_pool (num_allocated_blocks m) (free_list m) (set_ref (store m) block r) m.

(** ** Looking up and loading *)

(** The reference counter of [lookup]; the tracker drops its oldest entry when full. *)
Definition count_lookup (key : OffloadKey) m : result CPUOffloadingManager :=
  match counts m with
  | None => Ok m
  | Some c =>
      c ← (if od_mem key c then
             c ← od_move_to_end key c;
             Ok (od_set key (default 0 (od_get key c) + 1) c)
           else
             c ← (if max_tracker_size m <=? zlen c then kv ← od_popfirst c; Ok kv.2 else Ok c);
             Ok (od_set key 1 c));
      Ok (with_batch (stores_skipped_in_current_batch m) (allocation_sizes_in_current_batch m) (Some c) m)
  end.

Definition lookup (key : OffloadKey) m : result (LookupResult * CPUOffloadingManager) :=
  m ← count_lookup key m;
  match policy_get (policy m) key with
  | None => Ok (MISS, m)
  | Some block => if is_ready (read (store m) block) then Ok (HIT, m) else Ok (HIT_PENDING, m)
  end.

Definition prepare_load_one (key : OffloadKey) (s : CPUOffloadingManager * list addr)
    : result (CPUOffloadingManager * list addr) :=
  let '(m, blocks) := s in
  block ← or_raise AssertionError (policy_get (policy m) key);
  _ ← assert_ (is_ready (read (store m) block));
  m ← (if ref_cnt (read (store m) block) =? 0 then
         p ← policy_mark_non_evictable key (policy m);
         let m := with_counters (num_evictable_cache_blocks m - 1) (num_write_pending_blocks m)
                    (with_policy p m) in
         _ ← assert_ (0 <=? num_evictable_cache_blocks m);
         Ok m
       else Ok m);
  Ok (set_ref_cnt block (ref_cnt (read (store m) block) + 1) m, blocks ++ [block]).

Definition prepare_load (keys : list OffloadKey) m : result (list Z * CPUOffloadingManager) :=
  s ← for_each prepare_load_one keys (m, []);
  Ok (get_load_store_spec s.2 s.1, s.1).

Definition touch (keys : list OffloadKey) m : result CPUOffloadingManager :=
  p ← policy_touch (store m) keys (policy m);
  Ok (with_policy p m).

Definition complete_load_one (key : OffloadKey) m : result CPUOffloadingManager :=
  block ← or_raise AssertionError (policy_get (policy m) key);
  _ ← assert_ (0 <? ref_cnt (read (store m) block));
  let m := set_ref_cnt block (ref_cnt (read (store m) block) - 1) m in
  if ref_cnt (read (store m) block) =? 0 then
    let m := with_counters (num_evictable_cache_blocks m + 1) (num_write_pending_blocks m) m in
    Ok (with_policy (policy_mark_evictable key (policy m)) m)
  else Ok m.

Definition complete_load (keys : list OffloadKey) m : result CPUOffloadingManager :=
  for_each complete_load_one keys m.

(** ** Storing *)

(** The keys that reached the threshold, and the skipped-store counter. *)
Definition filter_by_threshold (keys : list OffloadKey) m : list OffloadKey * CPUOffloadingManager :=
  match counts m with
  | None => (keys, m)
  | Some c =>
      let kept := filter (fun k => store_threshold m <= default 0 (od_get k c)) keys in
      (kept, with_batch (stores_skipped_in_current_batch m + (zlen keys - zlen kept))
               (allocation_sizes_in_current_batch m) (Some c) m)
  end.

(** The eviction of [prepare_store]: [None] when not enough blocks may go. *)
Definition make_room (num_blocks_to_evict : Z) (keys : list OffloadKey) m
    : result (option (list OffloadKey) * CPUOffloadingManager) :=
  if 0 <? num_blocks_to_evict then
    if num_evictable_cache_blocks m <? num_blocks_to_evict then Ok (None, m) else
    '(p, o) ← policy_evict (store m) num_blocks_to_evict (list_to_set keys) (policy m);
    let m := with_policy p m in
    match o with
    | None => Ok (None, m)
    | Some ev =>
        let m := with_counters (num_evictable_cache_blocks m - zlen ev) (num_write_pending_blocks m) m in
        _ ← assert_ (0 <=? num_evictable_cache_blocks m);
        Ok (Some ev.*1, foldl (fun m kv => free_block kv.2 m) m ev)
    end
  else Ok (Some [], m).

Definition append_event (keys : list OffloadKey) (removed : bool) m : CPUOffloadingManager :=
  match keys, events m with
  | _ :: _, Some ev => with_events (Some (ev ++ [mkOffloadingEvent keys CPU removed])) m
  | _, _ => m
  end.

Definition insert_one (kb : OffloadKey * addr) m : result CPUOffloadingManager :=
  p ← policy_insert (store m) kb.1 kb.2 (policy m);
  Ok (with_policy p m).

Definition prepare_store (keys : list OffloadKey) m
    : result (option PrepareStoreOutput * CPUOffloadingManager) :=
  let '(keys, m) := filter_by_threshold keys m in
  let to_store := filter (fun k => policy_get (policy m) k = None) keys in
  match to_store with
  | [] => Ok (Some (mkPrepareStoreOutput [] [] []), m)
  | _ :: _ =>
      let m := with_batch (stores_skipped_in_current_batch m)
                 (allocation_sizes_in_current_batch m ++ [zlen to_store]) (counts m) m in
      '(o, m) ← make_room (zlen to_store - get_num_free_blocks m) keys m;
      match o with
      | None => Ok (None, m)
      | Some to_evict =>
          let m := append_event to_evict true m in
          '(blocks, m) ← allocate_blocks to_store m;
          _ ← assert_ (zlen blocks =? zlen to_store);
          m ← for_each insert_one (zip to_store blocks) m;
          let m := with_counters (num_evictable_cache_blocks m)
                     (num_write_pending_blocks m + zlen to_store) m in
          Ok (Some (mkPrepareStoreOutput to_store (get_load_store_spec blocks m) to_evict), m)
      end
  end.

Definition complete_store_success_one (key : OffloadKey) (s : CPUOffloadingManager * list OffloadKey)
    : result (CPUOffloadingManager * list OffloadKey) :=
  let '(m, stored_keys) := s in
  match policy_get (policy m) key with
  | Some block =>
      if is_ready (read (store m) block) then Ok (m, stored_keys) else
      let m := set_ref_cnt block 0 m in
      let m := with_counters (num_evictable_cache_blocks m + 1) (num_write_pending_blocks m - 1) m in
      Ok (with_policy (policy_mark_evictable key (policy m)) m, stored_keys ++ [key])
  | None => Ok (m, stored_keys)
  end.

Definition complete_store_failure_one (key : OffloadKey) m : result CPUOffloadingManager :=
  match policy_get (policy m) key with
  | Some block =>
      if is_ready (read (store m) block) then Ok m else
      let m := with_counters (num_evictable_cache_blocks m) (num_write_pending_blocks m - 1) m in
      p ← policy_remove key (policy m);
      Ok (free_block block (with_policy p m))
  | None => Ok m
  end.

Definition complete_store (keys : list OffloadKey) (success : bool) m : result CPUOffloadingManager :=
  if success then
    s ← for_each complete_store_success_one keys (m, []);
    Ok (append_event s.2 false s.1)
  else for_each complete_store_failure_one keys m.

(** ** The rest *)

Definition reset_cache m : CPUOffloadingManager :=
  let m := with_policy (policy_clear (policy m)) m in
  let m := with_counters 0 0 m in
  with_pool 0 [] (store m) m.

(** The generator is run to its end. *)
Definition take_events m : list OffloadingEvent * CPUOffloadingManager :=
  match events m with
  | Some ev => (ev, with_events (Some []) m)
  | None => ([], m)
  end.

Definition usage_ratio (used : Z) m : result float :=
  if 0 <? num_blocks m then int_div used (num_blocks m) else Ok (float_of_int 0).

Definition get_stats m : result (OffloadingStats * CPUOffloadingManager) :=
  usage ← usage_ratio (num_allocated_blocks m - zlen (free_list m) - num_evictable_cache_blocks m) m;
  write_usage ← usage_ratio (num_write_pending_blocks m) m;
  let read_usage := fmax (fsub usage write_usage) (float_of_int 0) in
  let skipped := if 2 <=? store_threshold m then Some (stores_skipped_in_current_batch m) else None in
  Ok (mkOffloadingStats usage (allocation_sizes_in_current_batch m) write_usage read_usage skipped,
      with_batch (if 2 <=? store_threshold m then 0 else stores_skipped_in_current_batch m) []
        (counts m) m).

(** ** Histories

    The calls of the scheduler. A load adds a reader to each of its blocks, and
    there are fewer than [2 ^ 31] readers of one block; a store names a key once. *)

Definition with_result {A} (r : result (A * CPUOffloadingManager)) : result CPUOffloadingManager :=
  '(_, m) ← r; Ok m.

Definition readers_bounded (keys : list OffloadKey) m : Prop :=
  Forall (fun k => forall a, policy_get (policy m) k = Some a ->
                   ref_cnt (read (store m) a) + zlen keys < 2 ^ 31) keys.

Inductive manager_step m : CPUOffloadingManager -> Prop :=
  | step_lookup key m' : with_result (lookup key m) = Ok m' -> manager_step m m'
  | step_prepare_load keys m' :
      readers_bounded keys m -> with_result (prepare_load keys m) = Ok m' -> manager_step m m'
  | step_touch keys m' : touch keys m = Ok m' -> manager_step m m'
  | step_complete_load keys m' : complete_load keys m = Ok m' -> manager_step m m'
  | step_prepare_store keys m' :
      NoDup keys -> with_result (prepare_store keys m) = Ok m' -> manager_step m m'
  | step_complete_store keys success m' : complete_store keys success m = Ok m' -> manager_step m m'
  | step_reset_cache : manager_step m (reset_cache m)
  | step_take_events : manager_step m (take_events m).2
  | step_get_stats m' : with_result (get_stats m) = Ok m' -> manager_step m m'.

Definition manager_reachable (num_blocks : Z) m : Prop :=
  exists events threshold tracker,
    rtc manager_step (CPUOffloadingManager_init num_blocks events threshold tracker) m.

End Manager.
Global Arguments CPUOffloadingManager : clear implicits.

(** * Properties *)

Section Properties.
Context {P : Type} `{!CachePolicy P} `{!CachePolicyLaws P}.
Implicit Types m : CPUOffloadingManager P.

(** ** What a manager holds: reference count and slot per key *)

Definition held m : gmap OffloadKey addr := entries (policy m).
Definition status m : gmap OffloadKey Z := (fun a => ref_cnt (read (store m) a)) <$> held m.
Definition slots m : gmap OffloadKey Z := (fun a => block_id (read (store m) a)) <$> held m.

Definition held_slots m : list Z := (map_to_list (slots m)).*2.
Definition count_status (r : Z) (s : gmap OffloadKey Z) : Z :=
  msum (fun _ x => if x =? r then 1 else 0) s.

(** Every slot handed out so far is free or belongs to exactly one block, and
    the two counters are those of the idle and of the unwritten blocks. *)
Record manager_inv m : Prop := {
  inv_policy : policy_inv (num_blocks m) (store m) (policy m);
  inv_allocated : 0 <= num_allocated_blocks m <= num_blocks m;
  inv_slots : held_slots m ++ free_list m ≡ₚ seqZ 0 (num_allocated_blocks m);
  inv_status k r : status m !! k = Some r -> -1 <= r < 2 ^ 31;
  inv_evictable : num_evictable_cache_blocks m = count_status 0 (status m);
  inv_pending : num_write_pending_blocks m = count_status (-1) (status m);
}.

Lemma status_lookup m k r :
  status m !! k = Some r <-> exists a, held m !! k = Some a /\ ref_cnt (read (store m) a) = r.
Proof. unfold status. rewrite lookup_fmap_Some. naive_solver. Qed.

Lemma get_held m k : manager_inv m -> policy_get (policy m) k = held m !! k.
Proof. intros Hm. apply (get_law (num_blocks m) (store m)), Hm. Qed.

Lemma held_ok m : manager_inv m -> entries_ok (store m) (held m).
Proof. intros Hm. apply (entries_law (num_blocks m)), Hm. Qed.

Lemma count_status_insert r s k x y :
  s !! k = Some x ->
  count_status r (<[k := y]> s) =
    count_status r s - (if x =? r then 1 else 0) + (if y =? r then 1 else 0).
Proof. apply (msum_update (fun _ x => if x =? r then 1 else 0)). Qed.

Lemma count_status_delete r s k x :
  s !! k = Some x -> count_status r (delete k s) = count_status r s - (if x =? r then 1 else 0).
Proof. apply (msum_delete (fun _ x => if x =? r then 1 else 0)). Qed.

Lemma count_status_fresh r s k x :
  s !! k = None -> count_status r (<[k := x]> s) = (if x =? r then 1 else 0) + count_status r s.
Proof. apply (msum_fresh (fun _ x => if x =? r then 1 else 0)). Qed.

Lemma count_status_nonneg r s : 0 <= count_status r s.
Proof. apply msum_nonneg. intros. by case_match. Qed.

Lemma count_status_pos s k r : s !! k = Some r -> 0 < count_status r s.
Proof.
  intros Hk. rewrite <-(insert_id s k r Hk), <-insert_delete_eq, count_status_fresh by apply lookup_delete_eq.
  rewrite Z.eqb_refl. pose proof (count_status_nonneg r (delete k s)). lia.
Qed.

(** ** The effect of the primitives on the view *)

Lemma status_set_ref m k a r :
  manager_inv m -> held m !! k = Some a -> - 2 ^ 31 <= r < 2 ^ 31 ->
  ((fun a' => ref_cnt (read (set_ref (store m) a r) a')) <$> held m) = <[k := r]> (status m).
Proof.
  intros Hm Hk Hr. pose proof (held_ok m Hm) as Hok. pose proof (entries_live _ _ Hok _ _ Hk).
  apply map_eq. intros k'. rewrite lookup_fmap. unfold status. destruct (decide (k' = k)) as [->|Hne].
  - rewrite lookup_insert_eq, Hk. cbn. by rewrite ref_cnt_of_set_ref, decide_True.
  - rewrite lookup_insert_ne, lookup_fmap by done. destruct (held m !! k') as [a'|] eqn:Hk'; [|done].
    cbn. rewrite ref_cnt_of_set_ref, decide_False; [done| |done|done].
    intros ->. apply Hne. by eapply (entries_inj (store m) (held m)).
Qed.

Lemma slots_set_ref m k a r :
  manager_inv m -> held m !! k = Some a ->
  ((fun a' => block_id (read (set_ref (store m) a r) a')) <$> held m) = slots m.
Proof.
  intros Hm Hk. pose proof (held_ok m Hm) as Hok. pose proof (entries_live _ _ Hok _ _ Hk).
  apply map_fmap_ext. intros k' a' _. by apply block_id_set_ref.
Qed.

(** An operation that changes one count, and tells the policy and the counters. *)
Lemma manager_inv_set_status m m' k a r0 r :
  manager_inv m -> held m !! k = Some a -> status m !! k = Some r0 -> -1 <= r < 2 ^ 31 ->
  num_blocks m' = num_blocks m -> num_allocated_blocks m' = num_allocated_blocks m ->
  free_list m' = free_list m -> store m' = set_ref (store m) a r -> held m' = held m ->
  policy_inv (num_blocks m) (store m') (policy m') ->
  num_evictable_cache_blocks m' =
    num_evictable_cache_blocks m - (if r0 =? 0 then 1 else 0) + (if r =? 0 then 1 else 0) ->
  num_write_pending_blocks m' =
    num_write_pending_blocks m - (if r0 =? -1 then 1 else 0) + (if r =? -1 then 1 else 0) ->
  manager_inv m' /\ status m' = <[k := r]> (status m) /\ slots m' = slots m.
Proof.
  intros Hm Hk Hr0 Hr Hnb Hna Hfl Hst Hh Hp He Hw.
  assert (Hs : status m' = <[k := r]> (status m)).
  { unfold status at 1. rewrite Hst, Hh. apply status_set_ref; [done|done|lia]. }
  assert (Hsl : slots m' = slots m) by (unfold slots at 1; rewrite Hst, Hh; by eapply slots_set_ref).
  split; [|done]. destruct Hm as [? ? Hperm Hsts Hev Hpe]. split.
  - by rewrite Hnb.
  - by rewrite Hnb, Hna.
  - unfold held_slots. by rewrite Hsl, Hfl, Hna.
  - intros k' r'. rewrite Hs. intros [[-> ->]|[_ ?]]%lookup_insert_Some; [done|by eapply Hsts].
  - by rewrite He, Hev, Hs, (count_status_insert 0 _ k r0).
  - by rewrite Hw, Hpe, Hs, (count_status_insert (-1) _ k r0).
Qed.

(** Fields the view does not mention. *)
Lemma manager_inv_frame m m' :
  manager_inv m -> num_blocks m' = num_blocks m -> num_allocated_blocks m' = num_allocated_blocks m ->
  free_list m' = free_list m -> store m' = store m -> held m' = held m ->
  policy_inv (num_blocks m) (store m) (policy m') ->
  num_evictable_cache_blocks m' = num_evictable_cache_blocks m ->
  num_write_pending_blocks m' = num_write_pending_blocks m ->
  manager_inv m' /\ status m' = status m /\ slots m' = slots m.
Proof.
  intros [? ? Hperm ? ? ?] Hnb Hna Hfl Hst Hh Hp He Hw.
  assert (Hs : status m' = status m) by (unfold status; by rewrite Hst, Hh).
  assert (Hsl : slots m' = slots m) by (unfold slots; by rewrite Hst, Hh).
  split; [|done]. split; rewrite ?Hnb, ?Hna, ?Hs, ?Hst; try done; try congruence.
  unfold held_slots. by rewrite Hsl, Hfl.
Qed.

(** ** Loads *)

(** Arithmetic over the counters' case distinctions. *)
Ltac eqb_lia :=
  repeat match goal with |- context [?x =? ?y] => destruct (Z.eqb_spec x y) end; lia.

Lemma status_held m k r : status m !! k = Some r ->
  exists a, held m !! k = Some a /\ ref_cnt (read (store m) a) = r.
Proof. apply status_lookup. Qed.

Lemma idle_status m k a r :
  held m !! k = Some a -> ref_cnt (read (store m) a) = r -> idle (store m) a = (r =? 0).
Proof. intros _ <-. done. Qed.

Lemma prepare_load_one_Ok m k a r bs :
  manager_inv m -> held m !! k = Some a -> ref_cnt (read (store m) a) = r -> 0 <= r -> r + 1 < 2 ^ 31 ->
  exists m', prepare_load_one k (m, bs) = Ok (m', bs ++ [a]) /\ manager_inv m' /\
    held m' = held m /\ status m' = <[k := r + 1]> (status m) /\ slots m' = slots m.
Proof.
  intros Hm Hk Hr H0 H1. pose proof (held_ok m Hm) as Hok. pose proof (entries_live _ _ Hok _ _ Hk) as Ha.
  assert (Hs : status m !! k = Some r) by (apply status_lookup; by exists a).
  unfold prepare_load_one. rewrite get_held, Hk by done. cbn [or_raise mbind result_bind].
  unfold is_ready. rewrite Hr, (proj2 (Z.leb_le 0 r)) by done. cbn [assert_ mbind result_bind].
  destruct (Z.eqb_spec r 0) as [->|Hne].
  - destruct (mark_non_evictable_law _ _ (policy m) k a (0 + 1) (inv_policy m Hm) Hk) as (p' & -> & Hp' & He');
      [by rewrite (idle_status m k a 0)|lia|]. cbn [mbind result_bind].
    assert (0 < num_evictable_cache_blocks m) by (rewrite (inv_evictable m Hm); by eapply count_status_pos).
    cbn [num_evictable_cache_blocks with_counters with_policy]. rewrite (proj2 (Z.leb_le _ _)) by lia.
    cbn [assert_ mbind result_bind]. eexists. cbn [store with_policy with_counters]. rewrite Hr. split; [done|].
    destruct (manager_inv_set_status m (set_ref_cnt a (0 + 1) (with_counters
      (num_evictable_cache_blocks m - 1) (num_write_pending_blocks m) (with_policy p' m))) k a 0 (0 + 1))
      as (? & ? & ?); try done; cbn; eqb_lia.
  - cbn [mbind result_bind]. eexists. rewrite Hr. split; [done|].
    destruct (manager_inv_set_status m (set_ref_cnt a (r + 1) m) k a r (r + 1)) as (? & ? & ?); try done.
    + lia.
    + cbn. apply set_ref_law; [apply Hm|done|lia| |lia].
      rewrite (idle_status m k a r) by done. by apply Z.eqb_neq.
    + cbn. eqb_lia.
    + cbn. eqb_lia.
Qed.

Lemma complete_load_one_Ok m k a r :
  manager_inv m -> held m !! k = Some a -> ref_cnt (read (store m) a) = r -> 0 < r ->
  exists m', complete_load_one k m = Ok m' /\ manager_inv m' /\
    held m' = held m /\ status m' = <[k := r - 1]> (status m) /\ slots m' = slots m.
Proof.
  intros Hm Hk Hr H0. pose proof (held_ok m Hm) as Hok. pose proof (entries_live _ _ Hok _ _ Hk) as Ha.
  assert (Hs : status m !! k = Some r) by (apply status_lookup; by exists a).
  pose proof (inv_status m Hm k r Hs).
  assert (Hni : idle (store m) a = false)
    by (rewrite (idle_status m k a r) by done; apply Z.eqb_neq; lia).
  unfold complete_load_one. rewrite get_held, Hk by done. cbn [or_raise mbind result_bind].
  rewrite Hr, (proj2 (Z.ltb_lt 0 r)) by done. cbn [assert_ mbind result_bind].
  cbn [store set_ref_cnt with_pool]. rewrite ref_cnt_of_set_ref, decide_True by (done || lia).
  destruct (Z.eqb_spec (r - 1) 0) as [Heq|Hne].
  - destruct (mark_evictable_law _ _ (policy m) k a (inv_policy m Hm) Hk Hni) as (Hp' & He').
    eexists. split; [done|]. rewrite Heq.
    destruct (manager_inv_set_status m (with_policy (policy_mark_evictable k (policy m)) (with_counters
      (num_evictable_cache_blocks m + 1) (num_write_pending_blocks m) (set_ref_cnt a 0 m))) k a r 0)
      as (? & ? & ?); try done; cbn; eqb_lia.
  - eexists. split; [done|].
    destruct (manager_inv_set_status m (set_ref_cnt a (r - 1) m) k a r (r - 1)) as (? & ? & ?); try done.
    + lia.
    + cbn. apply set_ref_law; [apply Hm|done|lia|done|done].
    + cbn. eqb_lia.
    + cbn. eqb_lia.
Qed.

(** How often a call names a key. *)
Definition occurrences (k : OffloadKey) (keys : list OffloadKey) : Z :=
  zlen (filter (fun k' => k' = k) keys).

Lemma occurrences_cons k k' keys :
  occurrences k (k' :: keys) = (if decide (k' = k) then 1 else 0) + occurrences k keys.
Proof. unfold occurrences. rewrite filter_cons. decide_goal; csimpl; lia. Qed.

Lemma occurrences_nonneg k keys : 0 <= occurrences k keys.
Proof. unfold occurrences. lia. Qed.

Lemma occurrences_le k keys : occurrences k keys <= zlen keys.
Proof. unfold occurrences. pose proof (length_filter (fun k' => k' = k) keys). lia. Qed.

(** Every reader the call adds or drops is accounted for. *)
Definition readers_changed (d : Z) (keys : list OffloadKey) (s s' : gmap OffloadKey Z) : Prop :=
  forall k, s' !! k = (fun r => r + d * occurrences k keys) <$> s !! k.

Lemma readers_changed_nil d s : readers_changed d [] s s.
Proof.
  intros k. destruct (s !! k) as [r|]; [|done]. cbn. f_equal. unfold occurrences. cbn. lia.
Qed.

Lemma readers_changed_cons d k keys s s' r :
  s !! k = Some r -> readers_changed d keys (<[k := r + d]> s) s' -> readers_changed d (k :: keys) s s'.
Proof.
  intros Hk Hc k'. rewrite (Hc k'), occurrences_cons. destruct (decide (k = k')) as [->|].
  - rewrite lookup_insert_eq, Hk. cbn. f_equal. lia.
  - rewrite lookup_insert_ne by done. by destruct (s !! k').
Qed.

#[local] Instance lookup_ex_dec (s : gmap OffloadKey Z) k (Q : Z -> Prop) `{!forall r, Decision (Q r)} :
  Decision (exists r, s !! k = Some r /\ Q r).
Proof.
  destruct (s !! k) as [r|]; [|right; by intros (r & ? & _)].
  destruct (decide (Q r)); [left; by exists r|right; intros (r' & ? & ?); by simplify_eq].
Defined.

Definition loadable m (k : OffloadKey) : Prop := exists r, status m !! k = Some r /\ 0 <= r.

Lemma prepare_load_loop keys m bs :
  manager_inv m ->
  (forall k r, k ∈ keys -> status m !! k = Some r -> r + zlen keys < 2 ^ 31) ->
  match for_each prepare_load_one keys (m, bs) with
  | Ok (m', bs') => Forall (loadable m) keys /\ manager_inv m' /\
      readers_changed 1 keys (status m) (status m') /\ slots m' = slots m /\ held m' = held m /\
      exists l, bs' = bs ++ l /\ Forall2 (fun k a => held m !! k = Some a) keys l
  | Raise e => e = AssertionError /\ ~ Forall (loadable m) keys
  end.
Proof.
  revert m bs. induction keys as [|k keys IH]; intros m bs Hm Hb; cbn [for_each].
  { split_and!; [done|done| |done|done|exists []; by rewrite app_nil_r].
    apply readers_changed_nil. }
  destruct (decide (exists r, status m !! k = Some r /\ 0 <= r)) as [(r & Hr & H0)|Hn].
  2:{ assert (Hraise : prepare_load_one k (m, bs) = Raise AssertionError).
      { unfold prepare_load_one. rewrite get_held by done. destruct (held m !! k) as [a|] eqn:Hk; [|done].
        cbn. unfold is_ready. destruct (Z.leb_spec 0 (ref_cnt (read (store m) a))); [|done].
        destruct Hn. exists (ref_cnt (read (store m) a)). split; [|done]. apply status_lookup. by exists a. }
      rewrite Hraise. split; [done|]. by intros [? _]%Forall_cons. }
  destruct (status_held m k r Hr) as (a & Hk & Ha).
  pose proof (Hb k r ltac:(by left) Hr) as Hlt. cbn [length] in Hlt.
  destruct (prepare_load_one_Ok m k a r bs Hm Hk Ha H0 ltac:(lia)) as (m1 & -> & Hm1 & Hh1 & Hs1 & Hsl1).
  cbn [mbind result_bind].
  assert (Hl1 : forall k', loadable m1 k' <-> loadable m k').
  { intros k'. unfold loadable. rewrite Hs1. destruct (decide (k = k')) as [->|].
    - rewrite lookup_insert_eq. split; intros _; [by exists r|exists (r + 1); split; [done|lia]].
    - by rewrite lookup_insert_ne. }
  specialize (IH m1 (bs ++ [a]) Hm1).
  destruct (for_each prepare_load_one keys (m1, bs ++ [a])) as [[m' bs']|e].
  - destruct IH as (Hf & Hm' & Hch & Hsl & Hh & l & -> & Hl).
    { intros k' r' Hin. rewrite Hs1. pose proof (Hb k' r' ltac:(by right)) as Hb'. cbn [length] in Hb'.
      intros [[-> <-]|[_ ?]]%lookup_insert_Some; [lia|]. specialize (Hb' ltac:(done)). lia. }
    split_and!; [|done| |congruence|congruence|].
    + apply Forall_cons. split; [by exists r|]. eapply Forall_impl; [done|]. intros k'. apply Hl1.
    + eapply readers_changed_cons; [done|]. by rewrite <-Hs1.
    + exists (a :: l). rewrite <-app_assoc. split; [done|]. constructor; [done|]. by rewrite <-Hh1.
  - destruct IH as [-> Hnf].
    { intros k' r' Hin. rewrite Hs1. pose proof (Hb k' r' ltac:(by right)) as Hb'. cbn [length] in Hb'.
      intros [[-> <-]|[_ ?]]%lookup_insert_Some; [lia|]. specialize (Hb' ltac:(done)). lia. }
    split; [done|]. intros [_ Hf]%Forall_cons. apply Hnf. eapply Forall_impl; [done|]. intros k'. apply Hl1.
Qed.

(** A load that has been prepared can be completed. *)
Definition completable m (keys : list OffloadKey) : Prop :=
  Forall (fun k => exists r, status m !! k = Some r /\ occurrences k keys <= r) keys.

Lemma complete_load_loop keys m :
  manager_inv m ->
  match complete_load keys m with
  | Ok m' => completable m keys /\ manager_inv m' /\
      readers_changed (-1) keys (status m) (status m') /\ slots m' = slots m /\ held m' = held m
  | Raise e => e = AssertionError /\ ~ completable m keys
  end.
Proof.
  unfold complete_load. revert m. induction keys as [|k keys IH]; intros m Hm; cbn [for_each].
  { split_and!; [constructor|done|apply readers_changed_nil|done|done]. }
  pose proof (occurrences_nonneg k keys) as Hocc.
  destruct (decide (exists r, status m !! k = Some r /\ 0 < r)) as [(r & Hr & H0)|Hn].
  2:{ assert (Hraise : complete_load_one k m = Raise AssertionError).
      { unfold complete_load_one. rewrite get_held by done. destruct (held m !! k) as [a|] eqn:Hk; [|done].
        cbn. destruct (Z.ltb_spec 0 (ref_cnt (read (store m) a))); [|done].
        destruct Hn. exists (ref_cnt (read (store m) a)). split; [|done]. apply status_lookup. by exists a. }
      rewrite Hraise. split; [done|]. intros [(r & Hr & Hle) _]%Forall_cons. apply Hn. exists r.
      rewrite occurrences_cons, decide_True in Hle by done. split; [done|lia]. }
  destruct (status_held m k r Hr) as (a & Hk & Ha).
  destruct (complete_load_one_Ok m k a r Hm Hk Ha H0) as (m1 & -> & Hm1 & Hh1 & Hs1 & Hsl1).
  cbn [mbind result_bind].
  assert (Hc : completable m (k :: keys) <-> completable m1 keys /\ occurrences k (k :: keys) <= r).
  { unfold completable. rewrite Forall_cons. setoid_rewrite occurrences_cons.
    rewrite (decide_True (P := k = k)) by done. split.
    - intros [(r' & Hr' & Hle) Hf]. assert (r' = r) as -> by congruence. split; [|done].
      eapply Forall_impl; [done|]. intros k' (r1 & Hr1 & Hle1). rewrite Hs1.
      destruct (decide (k = k')) as [->|]; [|exists r1; rewrite lookup_insert_ne by done; split; [done|lia]].
      exists (r - 1). rewrite lookup_insert_eq. split; [done|]. assert (r1 = r) by congruence. lia.
    - intros [Hf Hle]. split; [by exists r|]. eapply Forall_impl; [done|]. intros k' (r1 & Hr1 & Hle1).
      rewrite Hs1 in Hr1. destruct (decide (k = k')) as [->|].
      + rewrite lookup_insert_eq in Hr1. injection Hr1 as Hr1. exists r. split; [done|lia].
      + rewrite lookup_insert_ne in Hr1 by done. exists r1. split; [done|lia]. }
  specialize (IH m1 Hm1). destruct (for_each complete_load_one keys m1) as [m'|e].
  - destruct IH as (Hf & Hm' & Hch & Hsl & Hh). split_and!; [|done| |congruence|congruence].
    + apply Hc. split; [done|]. rewrite occurrences_cons, decide_True by done.
      destruct (decide (k ∈ keys)) as [Hin|Hni].
      * unfold completable in Hf. rewrite Forall_forall in Hf. destruct (Hf k Hin) as (r1 & Hr1 & Hle).
        rewrite Hs1, lookup_insert_eq in Hr1. injection Hr1 as Hr1. lia.
      * unfold occurrences. rewrite list_filter_none; [cbn; lia|]. intros k' ? ->. done.
    + eapply readers_changed_cons; [done|]. replace (r + -1) with (r - 1) by lia. by rewrite <-Hs1.
  - destruct IH as [-> Hnf]. split; [done|]. intros [? _]%Hc. done.
Qed.

(** ** Slots *)

Definition pool_with (allocated : Z) (free ids : list Z) m : CPUOffloadingManager P :=
  with_pool allocated free (store m ++ (new_BlockStatus <$> ids)) m.

Lemma allocate_fresh_loop (l : list Z) m bs :
  for_each (fun _ => allocate_fresh) l (m, bs) =
    Ok (pool_with (num_allocated_blocks m + zlen l) (free_list m)
          (seqZ (num_allocated_blocks m) (zlen l)) m,
        bs ++ seq (length (store m)) (length l)).
Proof.
  revert m bs. induction l as [|x l IH]; intros m bs.
  - cbn [for_each length seq]. rewrite app_nil_r. unfold pool_with. rewrite seqZ_nil by lia.
    cbn [fmap list_fmap]. rewrite app_nil_r, Z.add_0_r. by destruct m.
  - cbn [for_each].
    change (allocate_fresh (m, bs)) with
      (Ok (pool_with (num_allocated_blocks m + 1) (free_list m) [num_allocated_blocks m] m,
           bs ++ [length (store m)])).
    cbn [mbind result_bind]. rewrite IH. unfold pool_with. cbn [store num_allocated_blocks free_list with_pool].
    f_equal. f_equal.
    + cbn [length]. rewrite Nat2Z.inj_succ.
      replace (seqZ (num_allocated_blocks m) (Z.succ (zlen l)))
        with (num_allocated_blocks m :: seqZ (num_allocated_blocks m + 1) (zlen l))
        by (rewrite (seqZ_cons (num_allocated_blocks m)) by lia; do 2 f_equal; lia).
      rewrite <-app_assoc. unfold with_pool. cbn. f_equal. lia.
    + rewrite length_app. cbn [length seq]. rewrite <-app_assoc. cbn. do 3 f_equal. lia.
Qed.

Lemma allocate_reused_loop (l : list Z) m bs free ids :
  free_list m = free ++ reverse ids -> length ids = length l ->
  for_each (fun _ => allocate_reused) l (m, bs) =
    Ok (pool_with (num_allocated_blocks m) free ids m, bs ++ seq (length (store m)) (length l)).
Proof.
  revert m bs ids. induction l as [|x l IH]; intros m bs ids Hf Hl.
  - apply length_zero_iff_nil in Hl as ->. rewrite reverse_nil, app_nil_r in Hf. subst free.
    cbn [for_each length seq]. unfold pool_with. cbn [fmap list_fmap]. rewrite !app_nil_r. by destruct m.
  - destruct ids as [|id ids]; [done|]. rewrite reverse_cons, app_assoc in Hf.
    cbn [for_each].
    assert (Hone : allocate_reused (m, bs) =
      Ok (pool_with (num_allocated_blocks m) (free ++ reverse ids) [id] m, bs ++ [length (store m)]))
      by (unfold allocate_reused; rewrite Hf, py_pop_snoc; done).
    rewrite Hone. cbn [mbind result_bind]. rewrite (IH _ _ ids); [|done|by injection Hl]. unfold pool_with.
    cbn [store num_allocated_blocks free_list with_pool]. f_equal. f_equal.
    + rewrite <-app_assoc. done.
    + rewrite length_app. cbn [length seq]. rewrite <-app_assoc. cbn. do 3 f_equal. lia.
Qed.

(** New slots first, then freed ones, the last freed first. *)
Lemma allocate_blocks_Ok keys m :
  num_allocated_blocks m <= num_blocks m -> zlen keys <= get_num_free_blocks m ->
  exists fresh free ids,
    allocate_blocks keys m =
      Ok (seq (length (store m)) (length keys),
          pool_with (num_allocated_blocks m + fresh) free
            (seqZ (num_allocated_blocks m) fresh ++ ids) m) /\
    free_list m = free ++ reverse ids /\ 0 <= fresh /\ fresh + zlen ids = zlen keys /\
    num_allocated_blocks m + fresh <= num_blocks m.
Proof.
  intros Ha Hfree. unfold get_num_free_blocks in Hfree.
  set (fresh := Z.min (zlen keys) (num_blocks m - num_allocated_blocks m)).
  set (r := zlen keys - fresh). assert (Hr : 0 <= r <= zlen (free_list m)) by (unfold r, fresh; lia).
  set (n := (length (free_list m) - Z.to_nat r)%nat).
  exists fresh, (take n (free_list m)), (reverse (drop n (free_list m))).
  rewrite reverse_involutive, take_drop, length_reverse, length_drop.
  split_and!; [|done|unfold fresh; lia|unfold n, r, fresh in *; lia|unfold fresh; lia].
  unfold allocate_blocks. fold fresh r. rewrite (proj2 (Z.leb_le _ _)) by lia. cbn [assert_ mbind result_bind].
  rewrite allocate_fresh_loop. unfold py_range. rewrite !Z.sub_0_r, length_seqZ.
  cbn [mbind result_bind].
  rewrite (allocate_reused_loop _ _ _ (take n (free_list m)) (reverse (drop n (free_list m)))).
  - cbn [mbind result_bind fst snd]. f_equal. f_equal.
    + cbn [store pool_with with_pool]. rewrite length_app, length_fmap, !length_seqZ. cbn [app].
      rewrite Nat2Z.id, <-seq_app. f_equal. unfold r, fresh. lia.
    + unfold pool_with. cbn [store num_allocated_blocks with_pool]. rewrite fmap_app, app_assoc.
      unfold with_pool. cbn. f_equal; [unfold fresh; lia|]. do 4 f_equal. unfold fresh. lia.
  - cbn [free_list pool_with with_pool]. by rewrite reverse_involutive, take_drop.
  - rewrite length_reverse, length_drop, length_seqZ. unfold n. lia.
Qed.

(** ** Making room *)

Definition delete_keys {V} (ks : list OffloadKey) (s : gmap OffloadKey V) : gmap OffloadKey V :=
  foldr delete s ks.

Lemma delete_keys_pairs (l : evicted) (s : gmap OffloadKey addr) :
  foldr (fun kv s => delete kv.1 s) s l = delete_keys l.*1 s.
Proof. induction l as [|kv l IH]; [done|]. cbn. by rewrite IH. Qed.

Lemma delete_keys_fmap {V W} (f : V -> W) (ks : list OffloadKey) (s : gmap OffloadKey V) :
  f <$> delete_keys ks s = delete_keys ks (f <$> s).
Proof.
  induction ks as [|k ks IH]; [done|]. cbn [delete_keys foldr]. fold (delete_keys ks s) (delete_keys ks (f <$> s)).
  by rewrite fmap_delete, IH.
Qed.

Lemma delete_keys_lookup {V} (ks : list OffloadKey) (s : gmap OffloadKey V) k :
  delete_keys ks s !! k = if decide (k ∈ ks) then None else s !! k.
Proof.
  induction ks as [|k0 ks IH]; [done|]. cbn [delete_keys foldr]. rewrite lookup_delete.
  fold (delete_keys ks s). rewrite IH. repeat decide_goal; set_solver.
Qed.

Lemma delete_keys_values (l : list (OffloadKey * Z)) (s : gmap OffloadKey Z) :
  NoDup l.*1 -> (forall k v, (k, v) ∈ l -> s !! k = Some v) ->
  (map_to_list s).*2 ≡ₚ l.*2 ++ (map_to_list (delete_keys l.*1 s)).*2.
Proof.
  induction l as [|[k v] l IH]; csimpl; [done|]. intros [Hk Hnd]%NoDup_cons Hl.
  rewrite IH by (done || intros; apply Hl; by right).
  assert (Hkv : delete_keys l.*1 s !! k = Some v).
  { rewrite delete_keys_lookup, decide_False by done. apply Hl. by left. }
  rewrite <-(map_to_list_delete _ _ _ Hkv). csimpl. by rewrite Permutation_middle.
Qed.

Lemma delete_keys_count (r : Z) (ks : list OffloadKey) (s : gmap OffloadKey Z) :
  NoDup ks -> (forall k, k ∈ ks -> s !! k = Some 0) ->
  count_status r (delete_keys ks s) = count_status r s - (if 0 =? r then zlen ks else 0).
Proof.
  induction ks as [|k ks IH]; cbn [delete_keys foldr length]; [intros; case_match; lia|].
  intros [Hk Hnd]%NoDup_cons Hks. fold (delete_keys ks s).
  rewrite (count_status_delete r _ k 0).
  - rewrite IH by (done || intros; apply Hks; by right). destruct (0 =? r); lia.
  - rewrite delete_keys_lookup, decide_False by done. apply Hks. by left.
Qed.

Lemma free_all (l : evicted) m :
  foldl (fun m kv => free_block kv.2 m) m l =
    with_pool (num_allocated_blocks m)
      (free_list m ++ ((fun kv => block_id (read (store m) kv.2)) <$> l)) (store m) m.
Proof.
  revert m. induction l as [|kv l IH]; intros m; cbn [foldl fmap list_fmap].
  - rewrite app_nil_r. by destruct m.
  - rewrite IH. unfold free_block at 2 3 4. cbn [num_allocated_blocks free_list store with_pool].
    unfold free_block, with_pool. cbn. by rewrite <-app_assoc.
Qed.

(** The fields [make_room] leaves alone. *)
Definition same_config m m' : Prop :=
  num_blocks m' = num_blocks m /\ num_allocated_blocks m' = num_allocated_blocks m /\
  store m' = store m /\ events m' = events m /\ counts m' = counts m /\
  store_threshold m' = store_threshold m /\
  stores_skipped_in_current_batch m' = stores_skipped_in_current_batch m /\
  allocation_sizes_in_current_batch m' = allocation_sizes_in_current_batch m.

(** Blocks taken away were idle and not among [keys]. *)
Definition evicts m (keys to_evict : list OffloadKey) m' : Prop :=
  NoDup to_evict /\ Forall (fun k => status m !! k = Some 0 /\ k ∉ keys) to_evict /\
  held m' = delete_keys to_evict (held m).

Lemma evicted_inv m (p' : P) (l : evicted) (n : Z) (prot : gset OffloadKey) :
  manager_inv m -> evictable_selection (store m) (held m) prot n l ->
  policy_inv (num_blocks m) (store m) p' -> entries p' = delete_keys l.*1 (held m) ->
  manager_inv (with_pool (num_allocated_blocks m)
    (free_list m ++ ((fun kv => block_id (read (store m) kv.2)) <$> l)) (store m)
    (with_counters (num_evictable_cache_blocks m - zlen l) (num_write_pending_blocks m)
       (with_policy p' m))).
Proof.
  intros Hm [Hlen Hnd Hheld Hidle _] Hp' He. set (m' := with_pool _ _ _ _).
  assert (Hst : status m' = delete_keys l.*1 (status m)).
  { unfold status, held. cbn [m' policy store with_pool with_policy with_counters].
    by rewrite He, delete_keys_fmap. }
  assert (Hsl : slots m' = delete_keys l.*1 (slots m)).
  { unfold slots, held. cbn [m' policy store with_pool with_policy with_counters].
    by rewrite He, delete_keys_fmap. }
  assert (H0 : forall k, k ∈ l.*1 -> status m !! k = Some 0).
  { intros k ([k' a] & -> & Hin)%list_elem_of_fmap. apply status_lookup. exists a.
    split; [by apply Hheld|]. specialize (Hidle _ _ Hin). by apply Z.eqb_eq. }
  pose proof Hm as [_ ? Hslots Hs Hev Hpe]. split; try done.
  - cbn [free_list num_allocated_blocks with_pool m']. rewrite <-Hslots.
    set (l' := (fun kv : OffloadKey * addr => (kv.1, block_id (read (store m) kv.2))) <$> l).
    assert (Hl1 : l'.*1 = l.*1) by (unfold l'; rewrite <-list_fmap_compose; done).
    assert (Hl2 : l'.*2 = (fun kv => block_id (read (store m) kv.2)) <$> l)
      by (unfold l'; rewrite <-list_fmap_compose; done).
    unfold held_slots. rewrite Hsl, (delete_keys_values l' (slots m)); [|by rewrite Hl1|].
    + rewrite Hl1, Hl2. rewrite (Permutation_app_comm (free_list m)), app_assoc.
      f_equiv. apply Permutation_app_comm.
    + unfold l'. intros k v ([k' a] & [= -> ->] & Hin)%list_elem_of_fmap.
      unfold slots. by rewrite lookup_fmap, (Hheld _ _ Hin).
  - intros k r. rewrite Hst, delete_keys_lookup. case_decide; [done|]. apply Hs.
  - cbn [num_evictable_cache_blocks with_counters with_pool m']. rewrite Hst, delete_keys_count by (done || by rewrite ?Hl1).
    rewrite length_fmap. cbn. lia.
  - cbn [num_write_pending_blocks with_counters with_pool m']. rewrite Hst, delete_keys_count by done. cbn. lia.
Qed.

Lemma make_room_Ok n keys m :
  manager_inv m ->
  exists o m', make_room n keys m = Ok (o, m') /\
    match o with
    | None => m' = m /\ 0 < n
    | Some to_evict => manager_inv m' /\ same_config m m' /\ evicts m keys to_evict m' /\
        zlen to_evict = Z.max 0 n /\ get_num_free_blocks m' = get_num_free_blocks m + Z.max 0 n
    end.
Proof.
  intros Hm. unfold make_room. destruct (Z.ltb_spec 0 n) as [Hn|Hn].
  2:{ exists (Some []), m. split; [done|]. split_and!; try done; try (cbn; lia).
      split_and!; [constructor|constructor|done]. }
  destruct (num_evictable_cache_blocks m <? n); [by exists None, m|].
  destruct (evict_law (num_blocks m) (store m) (policy m) n (list_to_set keys) (inv_policy m Hm) Hn)
    as (p' & o & -> & Ho). cbn [mbind result_bind]. destruct o as [l|].
  2:{ exists None, m. subst p'. split; [by destruct m|done]. }
  destruct Ho as (Hsel & Hp' & He). rewrite delete_keys_pairs in He.
  pose proof (evicted_inv m p' l n _ Hm Hsel Hp' He) as Hm'.
  assert (Hge : 0 <= num_evictable_cache_blocks m - zlen l).
  { pose proof (inv_evictable _ Hm') as Hev. cbn in Hev. rewrite Hev. apply count_status_nonneg. }
  cbn [num_evictable_cache_blocks with_counters with_policy]. rewrite (proj2 (Z.leb_le _ _)) by done.
  cbn [assert_ mbind result_bind]. rewrite free_all. cbn [store free_list with_counters with_policy num_allocated_blocks].
  eexists _, _. split; [done|]. pose proof Hsel as [Hlen Hnd Hheld Hidle Hprot].
  split_and!; [exact Hm'|done|split_and!; [done| |done]| |].
  - apply Forall_forall. intros k ([k' a] & -> & Hin)%list_elem_of_fmap. cbn. split.
    + apply status_lookup. exists a. split; [by apply Hheld|]. specialize (Hidle _ _ Hin). by apply Z.eqb_eq.
    + specialize (Hprot _ _ Hin). by rewrite elem_of_list_to_set in Hprot.
  - rewrite length_fmap. lia.
  - unfold get_num_free_blocks. cbn. rewrite length_app, length_fmap. lia.
Qed.

(** ** Storing *)

Definition insert_all {V} (l : list (OffloadKey * V)) (s : gmap OffloadKey V) : gmap OffloadKey V :=
  list_to_map l ∪ s.

Lemma insert_all_cons {V} (k : OffloadKey) (v : V) (l : list (OffloadKey * V)) (s : gmap OffloadKey V) :
  insert_all ((k, v) :: l) s = <[k := v]> (insert_all l s).
Proof. unfold insert_all. cbn [list_to_map foldr]. by rewrite insert_union_l. Qed.

Lemma insert_all_lookup_None {V} (l : list (OffloadKey * V)) (k : OffloadKey) (s : gmap OffloadKey V) :
  k ∉ l.*1 -> s !! k = None -> insert_all l s !! k = None.
Proof. intros Hl Hk. unfold insert_all. rewrite lookup_union_None, <-not_elem_of_list_to_map. done. Qed.

Lemma insert_all_const_lookup (x : Z) (ks : list OffloadKey) (s : gmap OffloadKey Z) k :
  insert_all ((fun k => (k, x)) <$> ks) s !! k = if decide (k ∈ ks) then Some x else s !! k.
Proof.
  induction ks as [|k0 ks IH].
  - rewrite decide_False by apply not_elem_of_nil. unfold insert_all. cbn [fmap list_fmap list_to_map foldr].
    by rewrite (left_id_L ∅ (∪)).
  - rewrite fmap_cons, insert_all_cons, lookup_insert, IH. repeat decide_goal; set_solver.
Qed.

Lemma insert_all_fmap {V W} (f : V -> W) (l : list (OffloadKey * V)) (s : gmap OffloadKey V) :
  f <$> insert_all l s = insert_all (prod_map id f <$> l) (f <$> s).
Proof. unfold insert_all. by rewrite map_fmap_union, list_to_map_fmap. Qed.

Lemma insert_all_values (l : list (OffloadKey * Z)) (s : gmap OffloadKey Z) :
  NoDup l.*1 -> (forall k, k ∈ l.*1 -> s !! k = None) ->
  (map_to_list (insert_all l s)).*2 ≡ₚ l.*2 ++ (map_to_list s).*2.
Proof.
  induction l as [|[k v] l IH]; csimpl.
  - intros _ _. unfold insert_all. cbn [list_to_map foldr]. by rewrite (left_id_L ∅ (∪)).
  - intros [Hk Hnd]%NoDup_cons Hs. rewrite insert_all_cons, map_to_list_insert.
    + csimpl. rewrite IH; [done|done|]. intros k' Hk'. apply Hs. by right.
    + apply insert_all_lookup_None; [done|]. apply Hs. by left.
Qed.

Lemma insert_all_count (r x : Z) (l : list (OffloadKey * Z)) (s : gmap OffloadKey Z) :
  NoDup l.*1 -> (forall k, k ∈ l.*1 -> s !! k = None) -> Forall (fun kv => kv.2 = x) l ->
  count_status r (insert_all l s) = (if x =? r then zlen l else 0) + count_status r s.
Proof.
  induction l as [|[k v] l IH]; csimpl.
  - intros _ _ _. unfold insert_all. cbn [list_to_map foldr]. rewrite (left_id_L ∅ (∪)). case_match; lia.
  - intros [Hk Hnd]%NoDup_cons Hs [Hv Hf]%Forall_cons. cbn in Hv. subst v.
    rewrite insert_all_cons, count_status_fresh.
    + rewrite IH; [destruct (x =? r); lia|done| |done]. intros k' Hk'. apply Hs. by right.
    + apply insert_all_lookup_None; [done|]. apply Hs. by left.
Qed.

(** Fresh objects enter the policy under fresh keys. *)
Lemma insert_loop (l : evicted) m :
  policy_inv (num_blocks m) (store m) (policy m) -> NoDup l.*1 -> NoDup l.*2 ->
  (forall k a, (k, a) ∈ l -> (a < length (store m))%nat /\ idle (store m) a = false /\
     held m !! k = None /\ forall k', held m !! k' <> Some a) ->
  exists p', for_each insert_one l m = Ok (with_policy p' m) /\
    policy_inv (num_blocks m) (store m) p' /\ entries p' = insert_all l (held m).
Proof.
  revert m. induction l as [|[k a] l IH]; intros m Hp Hn1 Hn2 Hl.
  - exists (policy m). split_and!; [by destruct m|done|].
    unfold insert_all. cbn [list_to_map foldr]. by rewrite (left_id_L ∅ (∪)).
  - csimpl in Hn1. csimpl in Hn2. apply NoDup_cons in Hn1 as [Hk Hn1]. apply NoDup_cons in Hn2 as [Ha Hn2].
    destruct (Hl k a ltac:(by left)) as (Hlt & Hid & Hnone & Hfr).
    destruct (insert_law (num_blocks m) (store m) (policy m) k a Hp Hlt Hnone Hfr Hid)
      as (p1 & Hr1 & Hp1 & He1).
    destruct (IH (with_policy p1 m)) as (p' & Hr & Hp' & He); [done|done|done| |].
    + intros k' a' Hin. destruct (Hl k' a' ltac:(by right)) as (? & ? & Hnone' & Hfr').
      assert (k' <> k) by (intros ->; apply Hk, list_elem_of_fmap; by exists (k, a')).
      assert (a' <> a) by (intros ->; apply Ha, list_elem_of_fmap; by exists (k', a)).
      unfold held. cbn [store policy with_policy]. rewrite He1. split_and!; [done|done| |].
      * by rewrite lookup_insert_ne.
      * intros k0 [[_ ?]|[_ ?]]%lookup_insert_Some; [done|by apply (Hfr' k0)].
    + exists p'. cbn [for_each].
      assert (Hone : insert_one (k, a) m = Ok (with_policy p1 m))
        by (unfold insert_one; cbn [fst snd]; by rewrite Hr1).
      rewrite Hone. cbn [mbind result_bind].
      split_and!; [done|done|]. rewrite He. unfold held. cbn [policy with_policy]. rewrite He1.
      rewrite insert_all_cons. unfold insert_all. rewrite insert_union_r; [done|].
      by apply not_elem_of_list_to_map.
Qed.

Lemma read_new st ids i id :
  ids !! i = Some id -> read (st ++ (new_BlockStatus <$> ids)) (length st + i) = new_BlockStatus id.
Proof.
  intros Hi. unfold read. rewrite lookup_app_r by lia.
  replace (length st + i - length st)%nat with i by lia. by rewrite list_lookup_fmap, Hi.
Qed.

Lemma fmap_new {A} (f : BlockStatus -> A) st ids :
  (fun a => f (read (st ++ (new_BlockStatus <$> ids)) a)) <$> seq (length st) (length ids) =
  (fun id => f (new_BlockStatus id)) <$> ids.
Proof.
  apply list_eq. intros i. rewrite !list_lookup_fmap. destruct (ids !! i) as [id|] eqn:Hi.
  - rewrite lookup_seq_lt by (by eapply lookup_lt_Some). cbn. by rewrite (read_new _ _ _ id).
  - rewrite lookup_seq_ge; [done|]. by apply lookup_ge_None.
Qed.

Lemma fmap_held_alloc {A} (f : BlockStatus -> A) m st' :
  manager_inv m -> (fun a => f (read (store m ++ st') a)) <$> held m = (fun a => f (read (store m) a)) <$> held m.
Proof.
  intros Hm. apply map_fmap_ext. intros k a Hk. f_equal. apply read_app.
  by eapply (entries_live _ _ (held_ok m Hm)).
Qed.

Lemma zip_const {A B} (ks : list A) (l : list B) (x : Z) :
  length ks = length l -> zip ks ((fun _ => x) <$> l) = (fun k => (k, x)) <$> ks.
Proof. revert l. induction ks; intros [|? l] Hl; cbn in *; try done. f_equal. auto. Qed.

Lemma zip_fmap_prod {A B C} (f : B -> C) (ks : list A) (l : list B) :
  prod_map id f <$> zip ks l = zip ks (f <$> l).
Proof. revert l. induction ks; intros [|? l]; cbn; try done. f_equal. auto. Qed.

(** Slots are allocated and the new blocks inserted. *)
Definition placed ks m (blocks : list addr) m2 : Prop :=
  manager_inv m2 /\ status m2 = insert_all ((fun k => (k, -1)) <$> ks) (status m) /\
  slots m2 = insert_all (zip ks (get_load_store_spec blocks m2)) (slots m) /\
  length (get_load_store_spec blocks m2) = length ks.

Lemma place_Ok ks m :
  manager_inv m -> NoDup ks -> (forall k, k ∈ ks -> held m !! k = None) ->
  zlen ks <= get_num_free_blocks m ->
  exists blocks m1 p', allocate_blocks ks m = Ok (blocks, m1) /\ length blocks = length ks /\
    for_each insert_one (zip ks blocks) m1 = Ok (with_policy p' m1) /\
    placed ks m blocks (with_counters (num_evictable_cache_blocks m1)
      (num_write_pending_blocks m1 + zlen ks) (with_policy p' m1)).
Proof.
  intros Hm Hnd Hfresh Hfree. pose proof Hm as [Hp Ha Hslots Hs Hev Hpe]. pose proof (held_ok m Hm) as Hok.
  destruct (allocate_blocks_Ok ks m) as (fresh & free & ids & Hr & Hfl & Hf0 & Hlen & Hnb); [lia|done|].
  set (IDs := seqZ (num_allocated_blocks m) fresh ++ ids) in *.
  assert (HIDs : length IDs = length ks) by (unfold IDs; rewrite length_app, length_seqZ; lia).
  set (blocks := seq (length (store m)) (length ks)) in *.
  assert (Hbl : length blocks = length ks) by apply length_seq.
  set (m1 := pool_with (num_allocated_blocks m + fresh) free IDs m) in *.
  assert (Hz1 : (zip ks blocks).*1 = ks) by (apply fst_zip; lia).
  destruct (insert_loop (zip ks blocks) m1) as (p' & Hr' & Hp' & He').
  { cbn [num_blocks store policy m1 pool_with with_pool]. by apply alloc_law. }
  { by rewrite Hz1. }
  { rewrite snd_zip by lia. apply NoDup_seq. }
  { intros k a Hin. pose proof (elem_of_zip_l _ _ _ _ Hin) as Hk. pose proof (elem_of_zip_r _ _ _ _ Hin) as Hb.
    apply elem_of_seq in Hb. cbn [store m1 pool_with with_pool]. rewrite length_app, length_fmap.
    destruct (lookup_lt_is_Some_2 IDs (a - length (store m))) as [id Hid]; [lia|].
    split_and!; [lia| |by apply Hfresh|].
    - unfold idle. replace a with (length (store m) + (a - length (store m)))%nat by lia.
      by rewrite (read_new _ _ _ id).
    - intros k' Hk'. pose proof (entries_live _ _ Hok _ _ Hk'). lia. }
  exists blocks, m1, p'. split_and!; [done|done|done|].
  set (m2 := with_counters _ _ _).
  assert (Hh2 : held m2 = insert_all (zip ks blocks) (held m)) by (exact He').
  assert (Hst : status m2 = insert_all ((fun k => (k, -1)) <$> ks) (status m)).
  { unfold status at 1. rewrite Hh2, insert_all_fmap, zip_fmap_prod. cbn [store m2 m1 pool_with with_pool with_policy with_counters].
    rewrite (fmap_held_alloc ref_cnt) by done. unfold blocks. rewrite <-HIDs, (fmap_new ref_cnt). cbn [ref_cnt new_BlockStatus].
    by rewrite zip_const. }
  assert (Hspec : get_load_store_spec blocks m2 = IDs).
  { unfold get_load_store_spec, blocks. rewrite <-HIDs. cbn [store m2 m1 pool_with with_pool with_policy with_counters].
    rewrite (fmap_new block_id). cbn [block_id new_BlockStatus]. apply list_fmap_id. }
  assert (Hsl : slots m2 = insert_all (zip ks IDs) (slots m)).
  { unfold slots at 1. rewrite Hh2, insert_all_fmap, zip_fmap_prod. cbn [store m2 m1 pool_with with_pool with_policy with_counters].
    rewrite (fmap_held_alloc block_id) by done. 
    change (insert_all (zip ks (get_load_store_spec blocks m2)) (slots m) = insert_all (zip ks IDs) (slots m)).
    by rewrite Hspec. }
  assert (Hnone : forall (f : addr -> Z) k, k ∈ ks -> (f <$> held m) !! k = None)
    by (intros f k Hk; by rewrite lookup_fmap, Hfresh).
  split_and!; [|done|by rewrite Hspec|by rewrite Hspec].
  assert (Hk1 : ((fun k : OffloadKey => (k, -1)) <$> ks).*1 = ks).
  { rewrite <-list_fmap_compose. apply list_fmap_id. }
  split.
  - exact Hp'.
  - cbn. lia.
  - unfold held_slots. rewrite Hsl. cbn [free_list num_allocated_blocks m2 m1 pool_with with_pool with_policy with_counters].
    rewrite insert_all_values; [|by rewrite fst_zip by lia|rewrite fst_zip by lia; apply Hnone].
    rewrite snd_zip by lia. rewrite seqZ_app by lia. rewrite Z.add_0_l, <-Hslots, Hfl.
    fold (held_slots m). unfold IDs. rewrite (reverse_Permutation ids). solve_Permutation.
  - intros k r. rewrite Hst. intros [Hr1|[_ Hr1]]%lookup_union_Some_raw; [|by apply (Hs k)].
    apply elem_of_list_to_map_2 in Hr1. apply list_elem_of_fmap in Hr1 as (? & [= -> ->] & _). lia.
  - rewrite Hst, (insert_all_count 0 (-1)); [cbn; exact Hev|by rewrite Hk1| |].
    + intros k. rewrite Hk1. apply Hnone.
    + by apply Forall_fmap, Forall_true.
  - rewrite Hst, (insert_all_count (-1) (-1)); [|by rewrite Hk1| |].
    + cbn. rewrite length_fmap, Hpe. lia.
    + intros k. rewrite Hk1. apply Hnone.
    + by apply Forall_fmap, Forall_true.
Qed.

Lemma manager_inv_batch skipped sizes c m : manager_inv m -> manager_inv (with_batch skipped sizes c m).
Proof. intros Hm. eapply (manager_inv_frame m); try done. apply Hm. Qed.

Lemma manager_inv_events ev m : manager_inv m -> manager_inv (with_events ev m).
Proof. intros Hm. eapply (manager_inv_frame m); try done. apply Hm. Qed.

Lemma append_event_view keys b m :
  (manager_inv m -> manager_inv (append_event keys b m)) /\
  status (append_event keys b m) = status m /\ slots (append_event keys b m) = slots m /\
  held (append_event keys b m) = held m /\
  get_num_free_blocks (append_event keys b m) = get_num_free_blocks m.
Proof.
  unfold append_event. destruct keys; [done|]. destruct (events m); [|done].
  split_and!; [apply manager_inv_events|done..].
Qed.

(** The keys of a call that reached the reuse threshold. *)
Definition wanted (keys : list OffloadKey) m : list OffloadKey := (filter_by_threshold keys m).1.

Lemma wanted_sublist keys m : wanted keys m `sublist_of` keys.
Proof. unfold wanted, filter_by_threshold. destruct (counts m); [apply sublist_filter|done]. Qed.

(** The keys of a call that have to be stored. *)
Definition missing (keys : list OffloadKey) m : list OffloadKey :=
  filter (fun k => status m !! k = None) (wanted keys m).

(** A store that goes ahead takes idle blocks it does not name, as few as it
    can, and puts the missing keys into slots of their own. *)
Definition stored (keys : list OffloadKey) m (out : PrepareStoreOutput) m' : Prop :=
  keys_to_store out = missing keys m /\
  length (store_spec out) = length (keys_to_store out) /\
  NoDup (evicted_keys out) /\
  Forall (fun k => status m !! k = Some 0 /\ k ∉ wanted keys m) (evicted_keys out) /\
  zlen (evicted_keys out) = Z.max 0 (zlen (missing keys m) - get_num_free_blocks m) /\
  status m' = insert_all ((fun k => (k, -1)) <$> keys_to_store out)
                (delete_keys (evicted_keys out) (status m)) /\
  slots m' = insert_all (zip (keys_to_store out) (store_spec out))
               (delete_keys (evicted_keys out) (slots m)).

(** A store that is refused changes no block. *)
Definition refused (keys : list OffloadKey) m m' : Prop :=
  get_num_free_blocks m < zlen (missing keys m) /\
  status m' = status m /\ slots m' = slots m /\ free_list m' = free_list m.

(** The eviction decides the outcome. *)
Definition decided_by_room (keys : list OffloadKey) m (o : option (list OffloadKey)) : Prop :=
  (missing keys m = [] /\ o = Some []) \/
  exists m0 m1, policy m0 = policy m /\ store m0 = store m /\
    num_evictable_cache_blocks m0 = num_evictable_cache_blocks m /\
    make_room (zlen (missing keys m) - get_num_free_blocks m) (wanted keys m) m0 = Ok (o, m1).

Lemma free_nonneg m : manager_inv m -> 0 <= get_num_free_blocks m.
Proof. intros Hm. unfold get_num_free_blocks. pose proof (inv_allocated m Hm). lia. Qed.

Lemma prepare_store_Ok keys m :
  manager_inv m -> NoDup keys ->
  exists o m', prepare_store keys m = Ok (o, m') /\ manager_inv m' /\
    match o with Some out => stored keys m out m' | None => refused keys m m' end /\
    decided_by_room keys m (evicted_keys <$> o).
Proof.
  intros Hm Hnd. pose proof (free_nonneg m Hm) as Hf0. unfold prepare_store.
  assert (Hmb : exists skipped, filter_by_threshold keys m =
    (wanted keys m, with_batch skipped (allocation_sizes_in_current_batch m) (counts m) m)).
  { unfold wanted, filter_by_threshold. destruct (counts m) as [c|] eqn:Hc; [by eexists|].
    exists (stores_skipped_in_current_batch m). rewrite <-Hc. by destruct m. }
  destruct Hmb as (skipped & ->). cbn [policy with_batch].
  assert (Hfilter : filter (fun k => policy_get (policy m) k = None) (wanted keys m) = missing keys m).
  { apply list_filter_iff. intros k. rewrite get_held by done. unfold status. by rewrite lookup_fmap, fmap_None. }
  rewrite Hfilter. assert (Hndm : NoDup (missing keys m)).
  { eapply sublist_NoDup; [exact Hnd|]. etrans; [apply sublist_filter|apply wanted_sublist]. }
  assert (Hmiss : forall k, k ∈ missing keys m -> held m !! k = None /\ k ∈ wanted keys m).
  { intros k [Hk ?]%list_elem_of_filter. unfold status in Hk. by rewrite lookup_fmap, fmap_None in Hk. }
  destruct (missing keys m) as [|k0 ks0] eqn:Hms.
  { eexists _, _. split; [done|]. split; [by apply manager_inv_batch|].
    split; [|by left].
    unfold stored. rewrite Hms. cbn [keys_to_store store_spec evicted_keys fmap list_fmap zip zip_with length].
    split_and!; try done; try constructor; try (cbn; lia);
      unfold insert_all; cbn [list_to_map foldr delete_keys]; by rewrite (left_id_L ∅ (∪)). }
  rewrite <-Hms in *. set (ks := missing keys m) in *.
  set (mb := with_batch _ _ _ (with_batch _ _ _ _)).
  assert (Hmb : manager_inv mb) by (by do 2 apply manager_inv_batch).
  destruct (make_room_Ok (zlen ks - get_num_free_blocks mb) (wanted keys m) mb Hmb) as (o & m1 & Hroom & Ho).
  rewrite Hroom. change (get_num_free_blocks mb) with (get_num_free_blocks m) in *. cbn [mbind result_bind].
  assert (Hdec : decided_by_room keys m o).
  { right. by exists mb, m1. }
  destruct o as [to_evict|].
  2:{ destruct Ho as [-> Hlt]. exists None, mb. split_and!; [done|done| |exact Hdec]. split_and!; [fold ks; lia|done..]. }
  destruct Ho as (Hm1 & Hcfg & (Hnde & Hev & Hh1) & Hlen & Hfree1). change (status mb) with (status m) in *.
  change (held mb) with (held m) in *. set (me := append_event to_evict true m1).
  destruct (append_event_view to_evict true m1) as (Hme & Hste & Hsle & Hhe & Hfe).
  fold me in Hme, Hste, Hsle, Hhe, Hfe.
  destruct (place_Ok ks me) as (blocks & m2 & p' & -> & Hbl & Hins & Hm3 & Hst3 & Hsl3 & Hsp3).
  { by apply Hme. }
  { done. }
  { intros k Hk. rewrite Hhe, Hh1, delete_keys_lookup. case_decide; [done|]. by apply Hmiss. }
  { rewrite Hfe, Hfree1. lia. }
  cbn [mbind result_bind]. rewrite (proj2 (Z.eqb_eq _ _)) by lia. cbn [assert_ mbind result_bind].
  rewrite Hins. cbn [mbind result_bind]. eexists _, _. split; [done|]. split; [exact Hm3|]. split; [|exact Hdec].
  destruct Hcfg as (_ & _ & Hstore & _). change (store mb) with (store m) in Hstore.
  assert (Hst1 : status m1 = delete_keys to_evict (status m))
    by (unfold status at 1; by rewrite Hh1, Hstore, delete_keys_fmap).
  assert (Hsl1 : slots m1 = delete_keys to_evict (slots m))
    by (unfold slots at 1; by rewrite Hh1, Hstore, delete_keys_fmap).
  split_and!; [done|exact Hsp3|done|done|exact Hlen| |]; cbn [evicted_keys keys_to_store store_spec].
  - by rewrite <-Hst1, <-Hste.
  - by rewrite <-Hsl1, <-Hsle.
Qed.

(** ** Completing a store *)

Lemma not_ready_status m k a :
  manager_inv m -> held m !! k = Some a -> is_ready (read (store m) a) = false <-> status m !! k = Some (-1).
Proof.
  intros Hm Hk. assert (Hs : status m !! k = Some (ref_cnt (read (store m) a))) by (apply status_lookup; by exists a).
  pose proof (inv_status m Hm k _ Hs). unfold is_ready. rewrite Hs, Z.leb_gt. split; [intros; f_equal; lia|].
  intros [= ->]. lia.
Qed.

Lemma complete_store_success_one_Ok k m l :
  manager_inv m ->
  exists m' l', complete_store_success_one k (m, l) = Ok (m', l') /\ manager_inv m' /\
    slots m' = slots m /\
    status m' = (if decide (status m !! k = Some (-1)) then <[k := 0]> (status m) else status m).
Proof.
  intros Hm. unfold complete_store_success_one. rewrite get_held by done.
  destruct (held m !! k) as [a|] eqn:Hk.
  2:{ exists m, l. split_and!; try done. rewrite decide_False; [done|].
      unfold status. by rewrite lookup_fmap, Hk. }
  pose proof (not_ready_status m k a Hm Hk) as Hiff. destruct (is_ready (read (store m) a)) eqn:Hready.
  { exists m, l. split_and!; try done. rewrite decide_False; [done|]. intros ?%Hiff. done. }
  pose proof (proj1 Hiff eq_refl) as Hs. rewrite decide_True by done.
  destruct (status_held m k (-1) Hs) as (a' & Hk' & Hr). rewrite Hk in Hk'. injection Hk' as <-.
  destruct (mark_evictable_law _ _ (policy m) k a (inv_policy m Hm) Hk) as (Hp' & He').
  { by rewrite (idle_status m k a (-1)). }
  eexists _, _. split; [done|].
  destruct (manager_inv_set_status m (with_policy (policy_mark_evictable k (policy m)) (with_counters
    (num_evictable_cache_blocks m + 1) (num_write_pending_blocks m - 1) (set_ref_cnt a 0 m))) k a (-1) 0)
    as (? & ? & ?); try done; cbn; lia.
Qed.

Lemma complete_store_failure_one_Ok k m :
  manager_inv m ->
  exists m', complete_store_failure_one k m = Ok m' /\ manager_inv m' /\
    (status m' = if decide (status m !! k = Some (-1)) then delete k (status m) else status m) /\
    (slots m' = if decide (status m !! k = Some (-1)) then delete k (slots m) else slots m).
Proof.
  intros Hm. unfold complete_store_failure_one. rewrite get_held by done.
  destruct (held m !! k) as [a|] eqn:Hk.
  2:{ exists m. assert (status m !! k <> Some (-1)) by (unfold status; by rewrite lookup_fmap, Hk).
      split_and!; try done; by rewrite decide_False. }
  pose proof (not_ready_status m k a Hm Hk) as Hiff. destruct (is_ready (read (store m) a)) eqn:Hready.
  { exists m. assert (status m !! k <> Some (-1)) by (intros ?%Hiff; done).
    split_and!; try done; by rewrite decide_False. }
  pose proof (proj1 Hiff eq_refl) as Hs. rewrite !decide_True by done.
  cbn [policy with_counters].
  destruct (remove_law _ _ (policy m) k a (inv_policy m Hm) Hk) as (p' & -> & Hp' & He').
  cbn [mbind result_bind]. eexists. split; [done|]. set (m' := free_block _ _).
  assert (Hst : status m' = delete k (status m))
    by (unfold status, held; cbn [m' free_block with_pool with_policy with_counters policy store];
        by rewrite He', fmap_delete).
  assert (Hsl : slots m' = delete k (slots m))
    by (unfold slots, held; cbn [m' free_block with_pool with_policy with_counters policy store];
        by rewrite He', fmap_delete).
  split; [|done]. pose proof Hm as [_ Ha Hslots Hsts Hev Hpe]. split; [exact Hp'|exact Ha| | | |].
  - cbn [m' free_block with_pool with_policy with_counters free_list num_allocated_blocks store].
    unfold held_slots. rewrite Hsl, <-Hslots.
    assert (Hid : slots m !! k = Some (block_id (read (store m) a)))
      by (unfold slots; by rewrite lookup_fmap, Hk).
    pose proof (map_to_list_delete (slots m) k _ Hid) as Hperm.
    unfold held_slots. rewrite <-(fmap_Permutation snd _ _ Hperm). csimpl. solve_Permutation.
  - intros k' r. rewrite Hst. intros [_ ?]%lookup_delete_Some. by eapply Hsts.
  - rewrite Hst, (count_status_delete 0 _ k (-1)) by done. cbn. rewrite Hev. lia.
  - rewrite Hst, (count_status_delete (-1) _ k (-1)) by done. cbn. rewrite Hpe. lia.
Qed.

(** What [complete_store] makes of a block: pending blocks it names become
    idle, or go. *)
Definition completed (keys : list OffloadKey) (success : bool) (s s' : gmap OffloadKey Z) : Prop :=
  forall k, s' !! k =
    if decide (k ∈ keys /\ s !! k = Some (-1)) then (if success then Some 0 else None) else s !! k.

Lemma completed_cons (k : OffloadKey) (keys : list OffloadKey) (success : bool) (s s1 s' : gmap OffloadKey Z) :
  s1 = (if decide (s !! k = Some (-1)) then (if success then <[k := 0]> s else delete k s) else s) ->
  completed keys success s1 s' -> completed (k :: keys) success s s'.
Proof.
  intros -> Hc k'. rewrite (Hc k'). destruct (decide (s !! k = Some (-1))) as [Hk|Hk].
  - destruct (decide (k' = k)) as [->|Hne].
    + rewrite (decide_True (P := k ∈ k :: keys /\ _)) by (split; [by left|done]).
      destruct success; rewrite ?lookup_insert_eq, ?lookup_delete_eq, decide_False by naive_solver; done.
    + assert (Heq : (if success then <[k := 0]> s else delete k s) !! k' = s !! k')
        by (destruct success; by rewrite ?lookup_insert_ne, ?lookup_delete_ne).
      rewrite Heq. repeat decide_goal; set_solver.
  - repeat decide_goal; set_solver.
Qed.

Lemma completed_nil success s : completed [] success s s.
Proof. intros k. rewrite decide_False; [done|]. intros [?%elem_of_nil _]. done. Qed.

Lemma complete_store_Ok keys success m :
  manager_inv m ->
  exists m', complete_store keys success m = Ok m' /\ manager_inv m' /\
    completed keys success (status m) (status m') /\
    (forall k, slots m' !! k = if decide (status m' !! k = None) then None else slots m !! k).
Proof.
  intros Hm. assert (Hself : forall m, forall k, slots m !! k = if decide (status m !! k = None) then None else slots m !! k).
  { intros m0 k. decide_goal; [|done]. unfold slots, status in *. rewrite lookup_fmap in *. by destruct (held m0 !! k). }
  unfold complete_store. destruct success.
  - assert (Hloop : forall m l, manager_inv m -> exists m' l',
      for_each complete_store_success_one keys (m, l) = Ok (m', l') /\ manager_inv m' /\
      completed keys true (status m) (status m') /\ slots m' = slots m).
    { clear. induction keys as [|k keys IH]; intros m l Hm.
      - exists m, l. split_and!; try done; apply completed_nil.
      - destruct (complete_store_success_one_Ok k m l Hm) as (m1 & l1 & Hr & Hm1 & Hsl1 & Hst1).
        destruct (IH m1 l1 Hm1) as (m' & l' & Hr' & Hm' & Hc & Hsl). exists m', l'.
        cbn [for_each]. rewrite Hr. cbn [mbind result_bind]. rewrite Hsl, Hsl1. split_and!; try done.
        by eapply completed_cons. }
    destruct (Hloop m [] Hm) as (m' & l' & -> & Hm' & Hc & Hsl). cbn [mbind result_bind fst snd].
    destruct (append_event_view l' false m') as (Hme & Hste & Hsle & _). eexists. split; [done|].
    rewrite Hste, Hsle. split_and!; [by apply Hme|done|]. intros k. rewrite <-Hsl. apply Hself.
  - revert m Hm. induction keys as [|k keys IH]; intros m Hm.
    + exists m. split_and!; [done|done|apply completed_nil|apply Hself].
    + destruct (complete_store_failure_one_Ok k m Hm) as (m1 & Hr & Hm1 & Hst1 & Hsl1).
      destruct (IH m1 Hm1) as (m' & Hr' & Hm' & Hc & Hsl). exists m'.
      cbn [for_each]. rewrite Hr. cbn [mbind result_bind]. split_and!; try done.
      * by eapply completed_cons.
      * intros k'. rewrite Hsl. destruct (decide (status m' !! k' = None)) as [|Hne]; [done|].
        rewrite Hsl1. destruct (decide (status m !! k = Some (-1))); [|done].
        destruct (decide (k' = k)) as [->|]; [|by rewrite lookup_delete_ne]. destruct Hne.
        rewrite (Hc k), Hst1, lookup_delete_eq. by rewrite decide_False by naive_solver.
Qed.

(** ** The other operations *)

Lemma offload_touch_Ok keys m :
  manager_inv m -> exists m', touch keys m = Ok m' /\ manager_inv m' /\ status m' = status m /\ slots m' = slots m.
Proof.
  intros Hm. unfold touch.
  destruct (touch_law (num_blocks m) (store m) (policy m) keys (inv_policy m Hm)) as (p' & -> & Hp' & He').
  eexists. split; [done|]. by eapply (manager_inv_frame m).
Qed.

Lemma count_lookup_inv key m m' :
  manager_inv m -> count_lookup key m = Ok m' -> manager_inv m' /\ status m' = status m /\ slots m' = slots m.
Proof.
  intros Hm. unfold count_lookup. destruct (counts m) as [c|]; intros Hr; inv_result; [|done].
  split; [by apply manager_inv_batch|done].
Qed.

Lemma lookup_inv key m r m' :
  manager_inv m -> lookup key m = Ok (r, m') ->
  manager_inv m' /\ status m' = status m /\ slots m' = slots m /\
  r = match status m !! key with None => MISS | Some n => if 0 <=? n then HIT else HIT_PENDING end.
Proof.
  intros Hm Hr. unfold lookup in Hr. apply bind_Ok_inv in Hr as (m1 & Hc & Hr).
  apply count_lookup_inv in Hc as (Hm1 & Hst & Hsl); [|done]. rewrite get_held in Hr by done.
  assert (Hk : status m !! key = (fun a => ref_cnt (read (store m1) a)) <$> held m1 !! key)
    by (rewrite <-Hst; apply lookup_fmap).
  rewrite Hk. unfold is_ready in Hr. destruct (held m1 !! key) as [a|]; cbn; [|by simplify_eq].
  destruct (0 <=? ref_cnt (read (store m1) a)); by simplify_eq.
Qed.

Lemma reset_cache_inv m : 0 <= num_blocks m -> manager_inv m -> manager_inv (reset_cache m) /\ status (reset_cache m) = ∅.
Proof.
  intros Hn Hm. destruct (clear_law _ _ _ (inv_policy m Hm)) as [Hp He].
  assert (Hst : status (reset_cache m) = ∅) by (unfold status, held; cbn; by rewrite He, fmap_empty).
  split; [|done]. split; rewrite ?Hst; try done.
  - unfold held_slots, slots, held. cbn. by rewrite He, fmap_empty, map_to_list_empty.
Qed.

Lemma manager_init_inv nb ev th tr :
  0 <= nb < 2 ^ 53 -> manager_inv (CPUOffloadingManager_init nb ev th tr).
Proof.
  intros Hn. destruct (init_law nb [] Hn) as [Hp He].
  assert (Hst : status (CPUOffloadingManager_init nb ev th tr) = ∅)
    by (unfold status, held; cbn; by rewrite He, fmap_empty).
  split; rewrite ?Hst; try done.
  - cbn. lia.
  - unfold held_slots, slots, held. cbn. by rewrite He, fmap_empty, map_to_list_empty.
Qed.

Lemma usage_ratio_Ok used m : exists x, usage_ratio used m = Ok x.
Proof.
  unfold usage_ratio, int_div. destruct (Z.ltb_spec 0 (num_blocks m)); [|by eexists].
  destruct (Z.eqb_spec (num_blocks m) 0); [lia|by eexists].
Qed.

Lemma get_stats_Ok m :
  exists s skipped sizes, get_stats m = Ok (s, with_batch skipped sizes (counts m) m).
Proof.
  unfold get_stats. destruct (usage_ratio_Ok (num_allocated_blocks m - zlen (free_list m) - num_evictable_cache_blocks m) m) as (u & ->).
  destruct (usage_ratio_Ok (num_write_pending_blocks m) m) as (w & ->). by eexists _, _, _.
Qed.

Lemma with_result_Ok {A} (r : result (A * CPUOffloadingManager P)) m' :
  with_result r = Ok m' -> exists x, r = Ok (x, m').
Proof. destruct r as [[x m]|e]; cbn; [intros [= ->]; by eexists|done]. Qed.

Lemma manager_step_inv m m' : manager_inv m -> manager_step m m' -> manager_inv m'.
Proof.
  intros Hm Hs. destruct Hs as [key m' Hr|keys m' Hb Hr|keys m' Hr|keys m' Hr|keys m' Hnd Hr|keys b m' Hr| | |m' Hr].
  - apply with_result_Ok in Hr as (x & Hr). by eapply lookup_inv.
  - apply with_result_Ok in Hr as (x & Hr). unfold prepare_load in Hr.
    apply bind_Ok_inv in Hr as ([m1 bs] & Hl & [= _ <-]).
    pose proof (prepare_load_loop keys m [] Hm) as Hloop. rewrite Hl in Hloop. cbn. apply Hloop.
    intros k r Hk Hst. destruct (status_held m k r Hst) as (a & Ha & <-).
    unfold readers_bounded in Hb. rewrite Forall_forall in Hb. apply (Hb k Hk). by rewrite get_held.
  - destruct (offload_touch_Ok keys m Hm) as (m1 & Hr1 & ? & _). rewrite Hr in Hr1. by injection Hr1 as ->.
  - pose proof (complete_load_loop keys m Hm) as Hloop. rewrite Hr in Hloop. apply Hloop.
  - apply with_result_Ok in Hr as (x & Hr).
    destruct (prepare_store_Ok keys m Hm Hnd) as (o & m1 & Hr1 & ? & _). rewrite Hr in Hr1. by injection Hr1 as _ ->.
  - destruct (complete_store_Ok keys b m Hm) as (m1 & Hr1 & ? & _). rewrite Hr in Hr1. by injection Hr1 as ->.
  - apply reset_cache_inv; [|done]. pose proof (inv_allocated m Hm). lia.
  - unfold take_events. destruct (events m); [by apply manager_inv_events|done].
  - apply with_result_Ok in Hr as (x & Hr).
    destruct (get_stats_Ok m) as (s & sk & sz & Hr1). rewrite Hr in Hr1. injection Hr1 as _ ->.
    by apply manager_inv_batch.
Qed.

Lemma manager_reachable_inv nb m : 0 <= nb < 2 ^ 53 -> manager_reachable nb m -> manager_inv m.
Proof.
  intros Hn (ev & th & tr & Hr). eapply rtc_ind_r; [by apply manager_init_inv| |exact Hr].
  intros m1 m2 _ Hs Hm1. by eapply manager_step_inv.
Qed.
End Properties.
