(* ===== verification/OffloadCorrect.v ===== *)
(** * The offloading cache: what it guarantees

    The properties of [OffloadManager] for any lawful policy, and what the two
    policies of the source add: which blocks go first and when room is found. *)
From Stdlib Require Import Strings.Byte.
From S2P Require Import Prelude PyFloat OffloadPolicy LruPolicy ArcPolicy OffloadManager.

(** ** Any policy *)

Section AnyPolicy.
Context {P : Type} `{!CachePolicy P} `{!CachePolicyLaws P}.
Implicit Types m : CPUOffloadingManager P.

(** C21: in every reachable state the slots handed out are exactly the free ones
    and those of the cached blocks, each belonging to one block; the evictable
    counter is the number of idle blocks and the write-pending counter that of
    the blocks being written; no reference count is below -1. *)
Theorem offload_accounting nb m :
  0 <= nb < 2 ^ 53 -> manager_reachable nb m ->
  0 <= num_allocated_blocks m <= num_blocks m /\
  held_slots m ++ free_list m ≡ₚ seqZ 0 (num_allocated_blocks m) /\
  (forall k k' id, slots m !! k = Some id -> slots m !! k' = Some id -> k = k') /\
  num_evictable_cache_blocks m = count_status 0 (status m) /\
  num_write_pending_blocks m = count_status (-1) (status m) /\
  (forall k r, status m !! k = Some r -> -1 <= r).
Proof.
  intros Hn Hr. pose proof (manager_reachable_inv nb m Hn Hr) as Hm.
  destruct Hm as [? ? Hperm Hst ? ?]. split_and!; try done; try lia; [|intros k r Hk; by apply (Hst k)].
  assert (Hnd : NoDup (held_slots m)).
  { eapply (NoDup_app _ (free_list m)). rewrite Hperm. apply NoDup_seqZ. }
  intros k k' id Hk Hk'. apply elem_of_map_to_list in Hk, Hk'.
  apply list_elem_of_lookup in Hk as [i Hi], Hk' as [j Hj].
  assert (i = j) as ->; [|congruence]. eapply (NoDup_lookup (held_slots m) i j id); [done| |];
    unfold held_slots; by rewrite list_lookup_fmap, ?Hi, ?Hj.
Qed.


(** Preparing a load raises [AssertionError] exactly when some key is not
    loadable, completing one exactly when some key has fewer readers than the
    call drops; otherwise each adds, respectively drops, one reader per
    occurrence of a key, and a prepared load returns the slots of its keys. *)
Theorem load_errors nb m keys :
  0 <= nb < 2 ^ 53 -> manager_reachable nb m -> readers_bounded keys m ->
  match prepare_load keys m with
  | Ok (spec, m') => Forall (loadable m) keys /\ readers_changed 1 keys (status m) (status m') /\
      slots m' = slots m /\ Forall2 (fun k id => slots m !! k = Some id) keys spec
  | Raise e => e = AssertionError /\ ~ Forall (loadable m) keys
  end /\
  match complete_load keys m with
  | Ok m' => completable m keys /\ readers_changed (-1) keys (status m) (status m') /\ slots m' = slots m
  | Raise e => e = AssertionError /\ ~ completable m keys
  end.
Proof.
  intros Hn Hr Hb. pose proof (manager_reachable_inv nb m Hn Hr) as Hm. split.
  - assert (Hb' : forall k r, k ∈ keys -> status m !! k = Some r -> r + zlen keys < 2 ^ 31).
    { intros k r Hk Hst. destruct (status_held m k r Hst) as (a & Ha & <-).
      unfold readers_bounded in Hb. rewrite Forall_forall in Hb. apply (Hb k Hk). by rewrite get_held. }
    pose proof (prepare_load_loop keys m [] Hm Hb') as Hloop. unfold prepare_load.
    destruct (for_each prepare_load_one keys (m, [])) as [[m' bs]|e]; cbn [mbind result_bind fst snd]; [|done].
    destruct Hloop as (? & Hm' & ? & Hsl & Hh & l & -> & Hl). split_and!; try done.
    unfold get_load_store_spec. cbn [app]. apply Forall2_fmap_r. eapply Forall2_impl; [exact Hl|].
    intros k a Hk. cbn. rewrite <-Hsl. unfold slots. by rewrite lookup_fmap, Hh, Hk.
  - pose proof (complete_load_loop keys m Hm) as Hloop.
    destruct (complete_load keys m); [|done]. destruct Hloop as (? & ? & ? & ? & ?). done.
Qed.

(** C38: a store that is prepared and then completed makes exactly its new keys
    readable in addition to what survived the eviction; if the transfer failed,
    only the eviction remains. *)
Theorem store_roundtrip nb m keys out m1 success :
  0 <= nb < 2 ^ 53 -> manager_reachable nb m -> NoDup keys ->
  prepare_store keys m = Ok (Some out, m1) ->
  exists m2, complete_store (keys_to_store out) success m1 = Ok m2 /\
    status m2 = (if success : bool then insert_all ((fun k => (k, 0)) <$> keys_to_store out)
                                          (delete_keys (evicted_keys out) (status m))
                 else delete_keys (evicted_keys out) (status m)).
Proof.
  intros Hn Hr Hk Hp. pose proof (manager_reachable_inv nb m Hn Hr) as Hm.
  destruct (prepare_store_Ok keys m Hm Hk) as (o & m' & Hp' & Hm1 & Ho & _).
  rewrite Hp in Hp'. injection Hp' as <- <-. destruct Ho as (Hks & _ & _ & _ & _ & Hst & _).
  destruct (complete_store_Ok (keys_to_store out) success m1 Hm1) as (m2 & -> & _ & Hc & _).
  exists m2. split; [done|]. apply map_eq. intros k. rewrite (Hc k), Hst.
  assert (Hold : k ∈ keys_to_store out -> delete_keys (evicted_keys out) (status m) !! k = None).
  { rewrite Hks. intros [Hnone _]%list_elem_of_filter. rewrite delete_keys_lookup. by case_decide. }
  rewrite insert_all_const_lookup. destruct (decide (k ∈ keys_to_store out)) as [Hin|Hni].
  - rewrite decide_True by done. destruct success; [|by rewrite Hold].
    by rewrite insert_all_const_lookup, decide_True.
  - rewrite decide_False by tauto. destruct success; [|done].
    by rewrite insert_all_const_lookup, decide_False.
Qed.
End AnyPolicy.

(** ** The LRU policy *)

Section LRU.
Implicit Types m : CPUOffloadingManager LRUCachePolicy.

(** The blocks a store may evict, least recently used first. *)
Definition lru_evictable (keys : list OffloadKey) m : list OffloadKey :=
  filter (fun k => k ∉ wanted keys m) (od_keys (evictable_blocks (policy m))).

Lemma lru_idle_status m k :
  manager_inv m -> k ∈ od_keys (evictable_blocks (policy m)) <-> status m !! k = Some 0.
Proof.
  intros Hm. pose proof (lru_idle _ _ _ (inv_policy m Hm) k) as ->. rewrite status_lookup.
  unfold held, idle. cbn [entries lru_laws]. setoid_rewrite Z.eqb_eq. done.
Qed.

Lemma idle_bound (ks : list OffloadKey) (s : gmap OffloadKey Z) :
  NoDup ks -> (forall k, k ∈ ks -> s !! k = Some 0) -> zlen ks <= count_status 0 s.
Proof.
  intros Hnd Hks. pose proof (delete_keys_count 0 ks s Hnd Hks) as Hc. cbn in Hc.
  pose proof (count_status_nonneg 0 (delete_keys ks s)). lia.
Qed.

Lemma lru_evictable_spec keys m k :
  manager_inv m -> k ∈ lru_evictable keys m <-> status m !! k = Some 0 /\ k ∉ wanted keys m.
Proof. intros Hm. unfold lru_evictable. rewrite list_elem_of_filter, lru_idle_status by done. tauto. Qed.

Lemma lru_room n keys m m0 :
  manager_inv m -> policy m0 = policy m -> store m0 = store m ->
  num_evictable_cache_blocks m0 = num_evictable_cache_blocks m ->
  exists m1, make_room n (wanted keys m) m0 =
    Ok (if decide (n <= zlen (lru_evictable keys m)) then Some (take (Z.to_nat n) (lru_evictable keys m))
        else None, m1).
Proof.
  intros Hm Hp Hs He. unfold make_room. rewrite Hp, Hs, He. destruct (Z.ltb_spec 0 n) as [Hn|Hn].
  2:{ rewrite decide_True by lia. replace (Z.to_nat n) with 0%nat by lia. by eexists. }
  assert (Hcount : zlen (lru_evictable keys m) <= num_evictable_cache_blocks m).
  { rewrite (inv_evictable m Hm). apply idle_bound.
    - eapply sublist_NoDup; [|apply sublist_filter]. apply (lru_NoDup _ _ _ (inv_policy m Hm)).
    - intros k Hk. by apply lru_evictable_spec in Hk as [? _]. }
  destruct (Z.ltb_spec (num_evictable_cache_blocks m) n) as [Hlt|Hge].
  { rewrite decide_False by lia. by eexists. }
  destruct (lru_evict_Ok _ _ _ n (list_to_set (wanted keys m)) (inv_policy m Hm) Hn) as (p' & o & Hr & Ho).
  cbn [policy_evict lru_policy]. rewrite Hr. cbn [mbind result_bind].
  assert (Hv : lru_victims n (list_to_set (wanted keys m)) (policy m) = take (Z.to_nat n) (lru_evictable keys m)).
  { unfold lru_victims, lru_evictable. f_equal. apply list_filter_iff. intros k. by rewrite elem_of_list_to_set. }
  rewrite Hv in Ho. rewrite length_take in Ho.
  destruct (decide (n <= zlen (lru_evictable keys m))) as [Hle|Hnle].
  - destruct (Z.ltb_spec (Z.of_nat (Z.to_nat n `min` length (lru_evictable keys m))) n); [lia|].
    destruct Ho as (l & -> & Hl & Hsel & _). cbn [num_evictable_cache_blocks with_counters with_policy].
    rewrite (selection_length _ _ _ _ _ Hsel), He, (proj2 (Z.leb_le _ _)) by lia. cbn [assert_ mbind result_bind].
    rewrite Hl. by eexists.
  - destruct (Z.ltb_spec (Z.of_nat (Z.to_nat n `min` length (lru_evictable keys m))) n); [|lia].
    destruct Ho as [-> ->]. by eexists.
Qed.

Lemma lru_store_Ok keys m :
  manager_inv m -> NoDup keys ->
  let need := zlen (missing keys m) - get_num_free_blocks m in
  exists o m', prepare_store keys m = Ok (o, m') /\
    if decide (need <= zlen (lru_evictable keys m))
    then evicted_keys <$> o = Some (take (Z.to_nat need) (lru_evictable keys m))
    else o = None.
Proof.
  intros Hm Hnd need. destruct (prepare_store_Ok keys m Hm Hnd) as (o & m' & Hr & _ & _ & Hdec).
  exists o, m'. split; [done|]. pose proof (free_nonneg m Hm).
  destruct Hdec as [[Hms Ho]|(m0 & m1 & Hp & Hs & He & Hroom)].
  - unfold need. rewrite Hms, decide_True by (cbn; lia). rewrite Ho. cbn [length].
    by replace (Z.to_nat (Z.of_nat 0 - get_num_free_blocks m)) with 0%nat by lia.
  - destruct (lru_room need keys m m0 Hm Hp Hs He) as (m2 & Hroom2). fold need in Hroom.
    rewrite Hroom in Hroom2. injection Hroom2 as Ho _. decide_goal; [done|]. by destruct o.
Qed.
End LRU.

(** With the LRU policy a store goes ahead exactly when the free slots and
    the idle blocks it does not want make enough room, and then the least
    recently used of those go. *)
Theorem lru_store_goes_ahead nb (m : CPUOffloadingManager LRUCachePolicy) keys :
  0 <= nb < 2 ^ 53 -> manager_reachable nb m -> NoDup keys ->
  let need := zlen (missing keys m) - get_num_free_blocks m in
  (forall k, k ∈ lru_evictable keys m <-> status m !! k = Some 0 /\ k ∉ wanted keys m) /\
  (need <= zlen (lru_evictable keys m) -> exists out m', prepare_store keys m = Ok (Some out, m') /\
     evicted_keys out = take (Z.to_nat need) (lru_evictable keys m)) /\
  (zlen (lru_evictable keys m) < need -> exists m', prepare_store keys m = Ok (None, m')).
Proof.
  intros Hn Hr Hk need. pose proof (manager_reachable_inv nb m Hn Hr) as Hm.
  destruct (lru_store_Ok keys m Hm Hk) as (o & m' & Hp & Ho). fold need in Ho.
  split_and!; [intros k; by apply lru_evictable_spec| |].
  - intros Hle. rewrite decide_True in Ho by done. destruct o as [out|]; [|done].
    injection Ho as Ho. by exists out, m'.
  - intros Hlt. rewrite decide_False in Ho by lia. subst o. by exists m'.
Qed.

(** Touching moves the touched idle blocks behind all others, the first key
    of the call last, so an eviction takes untouched blocks first, in their old
    order. *)
Theorem lru_touch_evict_order cap st p ks n prot :
  lru_inv cap st p -> NoDup ks -> 0 < n ->
  exists p1 p2 o, lru_touch st ks p = Ok p1 /\ lru_evict st n prot p1 = Ok (p2, o) /\
    let order := lru_touched ks (od_keys (evictable_blocks p)) in
    let victims := take (Z.to_nat n) (filter (fun k => k ∉ prot) order) in
    (fun l : evicted => l.*1) <$> o = (if decide (n <= zlen (filter (fun k => k ∉ prot) order)) then Some victims else None).
Proof.
  intros Hinv Hks Hn. destruct (lru_touch_Ok cap st ks p Hinv) as (p1 & Hr1 & Hinv1 & _ & Ho).
  destruct (lru_evict_Ok cap st p1 n prot Hinv1 Hn) as (p2 & o & Hr2 & Hc).
  exists p1, p2, o. split_and!; [done|done|]. cbn zeta. unfold lru_victims in Hc. rewrite Ho in Hc by done.
  rewrite length_take in Hc. set (c := filter _ _) in *. case_match.
  - destruct Hc as [_ ->]. rewrite decide_False; [done|]. bools. lia.
  - destruct Hc as (l & -> & Hl & _). rewrite decide_True; [cbn; by rewrite Hl|]. bools. lia.
Qed.

(** ** The ARC policy *)

(** When the twice-used list has nothing to evict, ARC refuses to take more
    from the once-used list than exceeds its target size by less than one, even
    if all blocks of that list are idle. *)
Theorem arc_evict_shortage cap st p n prot target :
  arc_inv cap st p -> int_of_float (target_t1_size p) = Ok target ->
  (forall k a, (k, a) ∈ t2 p -> idle st a = false \/ k ∈ prot) ->
  Z.max 0 (zlen (t1 p) - target + 1) < n -> arc_evict st n prot p = Ok (p, None).
Proof. apply arc_evict_shortage_Ok. Qed.

(** ** A history of two slots, under either policy *)

Section Demo.
Context {P : Type} `{!CachePolicy P}.

Definition key_a : OffloadKey := [x01].
Definition key_b : OffloadKey := [x02].
Definition key_c : OffloadKey := [x03].

Definition demo_init : CPUOffloadingManager P := CPUOffloadingManager_init 2 true 1 10.
Definition or_stay {A} (r : result (A * CPUOffloadingManager P)) (m : CPUOffloadingManager P) :=
  match r with Ok (_, m') => m' | Raise _ => m end.
Definition or_stay' (r : result (CPUOffloadingManager P)) (m : CPUOffloadingManager P) :=
  match r with Ok m' => m' | Raise _ => m end.

(** Two blocks are stored ... *)
Definition demo_full : CPUOffloadingManager P :=
  let m := or_stay (prepare_store [key_a; key_b] demo_init) demo_init in
  or_stay' (complete_store [key_a; key_b] true m) m.

(** ... the first makes room for a third and is then asked for twice. *)
Definition demo_ghost : CPUOffloadingManager P :=
  let m := or_stay (prepare_store [key_c] demo_full) demo_full in
  let m := or_stay' (complete_store [key_c] true m) m in
  let m := or_stay' (touch [key_a] m) m in
  or_stay' (touch [key_a] m) m.
End Demo.

Lemma keys_NoDup : NoDup [key_a; key_b].
Proof. apply NoDup_cons. split; [|apply NoDup_singleton]. intros H%list_elem_of_singleton. done. Qed.

Lemma lru_demo_reachable : manager_reachable 2 (demo_full (P := LRUCachePolicy)).
Proof.
  exists true, 1, 10. eapply rtc_l.
  { apply (step_prepare_store _ [key_a; key_b]); [apply keys_NoDup|vm_compute; reflexivity]. }
  eapply rtc_l; [|apply rtc_refl].
  apply (step_complete_store _ [key_a; key_b] true). vm_compute. reflexivity.
Qed.

Lemma arc_demo_reachable : manager_reachable 2 (demo_ghost (P := ARCCachePolicy)).
Proof.
  exists true, 1, 10. eapply rtc_l.
  { apply (step_prepare_store _ [key_a; key_b]); [apply keys_NoDup|vm_compute; reflexivity]. }
  eapply rtc_l; [apply (step_complete_store _ [key_a; key_b] true); vm_compute; reflexivity|].
  eapply rtc_l; [apply (step_prepare_store _ [key_c]); [apply NoDup_singleton|vm_compute; reflexivity]|].
  eapply rtc_l; [apply (step_complete_store _ [key_c] true); vm_compute; reflexivity|].
  eapply rtc_l; [apply (step_touch _ [key_a]); vm_compute; reflexivity|].
  eapply rtc_l; [|apply rtc_refl]. apply (step_touch _ [key_a]). vm_compute. reflexivity.
Qed.

Lemma lru_demo_inv : lru_inv 2 (store (demo_full (P := LRUCachePolicy))) (policy demo_full).
Proof.
  pose proof (inv_policy _ (manager_reachable_inv 2 _ ltac:(lia) lru_demo_reachable)) as H.
  assert (Hn : num_blocks (demo_full (P := LRUCachePolicy)) = 2) by (vm_compute; reflexivity).
  rewrite Hn in H. exact H.
Qed.

Lemma arc_demo_inv : arc_inv 2 (store (demo_ghost (P := ARCCachePolicy))) (policy demo_ghost).
Proof.
  pose proof (inv_policy _ (manager_reachable_inv 2 _ ltac:(lia) arc_demo_reachable)) as H.
  assert (Hn : num_blocks (demo_ghost (P := ARCCachePolicy)) = 2) by (vm_compute; reflexivity).
  rewrite Hn in H. exact H.
Qed.

Lemma offload_accounting_witness :
  let m := demo_full (P := LRUCachePolicy) in
  held_slots m ++ free_list m ≡ₚ seqZ 0 2 /\ num_evictable_cache_blocks m = 2.
Proof.
  pose proof (offload_accounting 2 _ ltac:(lia) lru_demo_reachable) as (_ & H & _).
  split; [exact H|vm_compute; reflexivity].
Defined.


Lemma demo_readers : readers_bounded [key_a] (demo_full (P := LRUCachePolicy)).
Proof.
  constructor; [|constructor]. intros a Ha.
  assert (Hg : policy_get (policy (demo_full (P := LRUCachePolicy))) key_a = Some 0%nat)
    by (vm_compute; reflexivity).
  rewrite Hg in Ha. injection Ha as <-. vm_compute. reflexivity.
Qed.

Lemma load_errors_witness :
  complete_load [key_a] (demo_full (P := LRUCachePolicy)) = Raise AssertionError /\
  ~ completable (demo_full (P := LRUCachePolicy)) [key_a].
Proof.
  pose proof (load_errors 2 _ [key_a] ltac:(lia) lru_demo_reachable demo_readers) as [_ H].
  assert (Hr : complete_load [key_a] (demo_full (P := LRUCachePolicy)) = Raise AssertionError)
    by (vm_compute; reflexivity).
  rewrite Hr in H. split; [exact Hr|apply H].
Defined.

Lemma store_roundtrip_witness :
  let m := demo_full (P := LRUCachePolicy) in
  exists m1 m2, prepare_store [key_c] m = Ok (Some (mkPrepareStoreOutput [key_c] [0] [key_a]), m1) /\
    complete_store [key_c] true m1 = Ok m2 /\ status m2 = insert_all [(key_c, 0)] (delete_keys [key_a] (status m)).
Proof.
  cbn zeta. set (m := demo_full).
  assert (Hp : prepare_store [key_c] m =
    Ok (Some (mkPrepareStoreOutput [key_c] [0] [key_a]), or_stay (prepare_store [key_c] m) m))
    by (vm_compute; reflexivity).
  destruct (store_roundtrip 2 m [key_c] _ _ true ltac:(lia) lru_demo_reachable (NoDup_singleton _) Hp)
    as (m2 & H2 & Hst).
  exists (or_stay (prepare_store [key_c] m) m), m2. split_and!; [exact Hp|exact H2|exact Hst].
Defined.

Lemma lru_store_goes_ahead_witness :
  exists out m', prepare_store [key_c] (demo_full (P := LRUCachePolicy)) = Ok (Some out, m') /\
    evicted_keys out = [key_a].
Proof.
  destruct (lru_store_goes_ahead 2 _ [key_c] ltac:(lia) lru_demo_reachable (NoDup_singleton _)) as (_ & H & _).
  destruct H as (out & m' & Hr & He); [vm_compute; done|]. exists out, m'. split; [exact Hr|].
  rewrite He. vm_compute. reflexivity.
Defined.

Lemma lru_touch_evict_order_witness :
  let m := demo_full (P := LRUCachePolicy) in
  exists p1 p2 o, lru_touch (store m) [key_a] (policy m) = Ok p1 /\
    lru_evict (store m) 1 ∅ p1 = Ok (p2, o) /\ (fun l : evicted => l.*1) <$> o = Some [key_b].
Proof.
  cbn zeta. set (m := demo_full).
  assert (Hinv : lru_inv 2 (store m) (policy m))
    by exact (lru_demo_inv).
  destruct (lru_touch_evict_order 2 _ _ [key_a] 1 ∅ Hinv (NoDup_singleton _) ltac:(lia))
    as (p1 & p2 & o & H1 & H2 & Ho).
  exists p1, p2, o. split_and!; [exact H1|exact H2|]. rewrite Ho. vm_compute. reflexivity.
Defined.

(** Both cached blocks are idle, both would have to go, and ARC refuses. *)
Lemma arc_evict_shortage_witness :
  let m := demo_ghost (P := ARCCachePolicy) in
  arc_evict (store m) 2 ∅ (policy m) = Ok (policy m, None) /\ num_evictable_cache_blocks m = 2.
Proof.
  cbn zeta. set (m := demo_ghost).
  assert (Hinv : arc_inv 2 (store m) (policy m))
    by exact (arc_demo_inv).
  split; [|vm_compute; reflexivity].
  apply (arc_evict_shortage 2 (store m) (policy m) 2 ∅ 2 Hinv).
  - vm_compute. reflexivity.
  - intros k a Hin. assert (t2 (policy m) = []) as Heq by (vm_compute; reflexivity).
    rewrite Heq in Hin. destruct (not_elem_of_nil _ Hin).
  - vm_compute. reflexivity.
Defined.
