(* ===== verification/Ngram.v ===== *)
(** The n-gram proposer of speculative decoding,
    src/upstream/vllm/v1/spec_decode/ngram_proposer.py: the tokens that followed an
    earlier occurrence of the longest n-gram at the end of a request are proposed
    as drafts. The search is a Knuth-Morris-Pratt scan of the reversed tokens
    whose failure table is cut off at [max_ngram]; it is proved equal to the
    naive search that the docstring describes.

    Arrays are lists. Reads outside an array, which Numba does not check, raise
    here and are shown not to happen. The iterations of [prange] touch one row
    each; they run in an order that is a parameter. The number of threads is not
    modelled. *)
From S2P Require Import Prelude.
Open Scope Z_scope.

(** * The search *)

(** The locals of the loop of [_find_longest_matched_ngram_and_propose_tokens]. *)
Record NgramScan := mkScan {
  lps : list Z;
  longest_ngram : Z;
  position : Z;
  prev_lps : Z;
  scan_i : Z
}.

Section Search.
Variables (tokens : list Z) (max_ngram : Z).

(** The loop's body; [tokens] are the reversed ones. *)
Definition ngram_step (s : NgramScan) : result NgramScan :=
  let i := scan_i s in
  a ← py_index tokens (prev_lps s);
  b ← py_index tokens i;
  if a =? b then
    let prev := prev_lps s + 1 in
    let '(longest, pos) :=
      if longest_ngram s <=? prev then (prev, i) else (longest_ngram s, position s) in
    table ← (if i <? max_ngram then py_set (lps s) i prev else Ok (lps s));
    next ← (if prev =? max_ngram then py_index table (max_ngram - 1) else Ok prev);
    Ok (mkScan table longest pos next (i + 1))
  else if negb (prev_lps s =? 0) then
    next ← py_index (lps s) (prev_lps s - 1);
    Ok (mkScan (lps s) (longest_ngram s) (position s) next i)
  else Ok (mkScan (lps s) (longest_ngram s) (position s) (prev_lps s) (i + 1)).

(** [while i < total_token]. *)
Fixpoint ngram_loop (fuel : nat) (s : NgramScan) : result NgramScan :=
  match fuel with
  | O => Raise Diverges
  | S fuel =>
      if scan_i s <? zlen tokens then s ← ngram_step s; ngram_loop fuel s else Ok s
  end.
End Search.

Definition scan_start (max_ngram : Z) : NgramScan := mkScan (replicate (Z.to_nat max_ngram) 0) 0 0 0 1.
Definition scan_fuel (tokens : list Z) : nat := (2 * length tokens + 1)%nat.

(** [_find_longest_matched_ngram_and_propose_tokens]. *)
Definition find_longest_matched_ngram_and_propose_tokens (origin_tokens : list Z)
    (min_ngram max_ngram max_model_len k : Z) : result (list Z) :=
  let total_token := zlen origin_tokens in
  if total_token <? min_ngram then Ok [] else
  let k := Z.min k (max_model_len - total_token) in
  if k <=? 0 then Ok [] else
  s ← ngram_loop (reverse origin_tokens) max_ngram (scan_fuel origin_tokens) (scan_start max_ngram);
  if longest_ngram s <? min_ngram then Ok [] else
  let start_position := total_token - 1 - position s + longest_ngram s in
  let k := Z.min k (total_token - start_position) in
  Ok (py_slice origin_tokens start_position (start_position + k)).

(** ** The naive search *)

(** The last [n] tokens also stand at [s]. *)
Definition ngram_at (tokens : list Z) (n s : Z) : bool :=
  bool_decide (py_slice tokens s (s + n) = py_from tokens (zlen tokens - n)).

(** The first place of the last [n] tokens, other than the end. *)
Definition earliest_ngram (tokens : list Z) (n : Z) : option Z :=
  head (filter (fun s => ngram_at tokens n s = true) (py_range 0 (zlen tokens - n))).

(** The first length that has a place, with that place. *)
Fixpoint first_ngram (tokens : list Z) (lengths : list Z) : option (Z * Z) :=
  match lengths with
  | [] => None
  | n :: lengths' =>
      match earliest_ngram tokens n with
      | Some s => Some (n, s)
      | None => first_ngram tokens lengths'
      end
  end.

(** The longest length comes first; up to [k] tokens after it are proposed. *)
Definition reference_draft (tokens : list Z) (min_ngram max_ngram max_model_len k : Z) : list Z :=
  let k := Z.min k (max_model_len - zlen tokens) in
  match first_ngram tokens (py_range_down max_ngram (min_ngram - 1)) with
  | Some (n, s) => if k <=? 0 then [] else py_slice tokens (s + n) (s + n + k)
  | None => []
  end.

(** * The proposer *)

(** The attributes of [NgramProposer]; the last two are its buffers. *)
Record NgramProposer := mkNgram {
  min_n : Z;
  max_n : Z;
  num_drafts : Z;                            (** [self.k] *)
  ngram_max_model_len : Z;
  valid_ngram_draft : list (list Z);
  valid_ngram_num_drafts : list Z
}.

Definition with_buffers (drafts : list (list Z)) (nums : list Z) (p : NgramProposer) : NgramProposer :=
  mkNgram (min_n p) (max_n p) (num_drafts p) (ngram_max_model_len p) drafts nums.

Section Propose.
(** The order in which [prange] runs its iterations. *)
Variable prange_order : list Z -> list Z.

(** An iteration of [batch_propose_numba]: the drafts of request [idx] go to the
    front of its row. *)
Definition propose_row (num_tokens_no_spec : list Z) (token_ids_cpu : list (list Z)) (k idx : Z)
    (p : NgramProposer) : result NgramProposer :=
  num_tokens ← py_index num_tokens_no_spec idx;
  row ← py_index token_ids_cpu idx;
  drafter_output ← find_longest_matched_ngram_and_propose_tokens (py_upto row num_tokens)
    (min_n p) (max_n p) (ngram_max_model_len p) k;
  nums ← py_set (valid_ngram_num_drafts p) idx (zlen drafter_output);
  drafts ← (if zlen drafter_output =? 0 then Ok (valid_ngram_draft p) else
    old ← py_index (valid_ngram_draft p) idx;
    if zlen old <? zlen drafter_output then Raise ValueError
    else py_set (valid_ngram_draft p) idx (drafter_output ++ drop (length drafter_output) old));
  Ok (with_buffers drafts nums p).

Definition batch_propose_numba (valid_ngram_requests num_tokens_no_spec : list Z)
    (token_ids_cpu : list (list Z)) (k : Z) (p : NgramProposer) : result NgramProposer :=
  for_each (propose_row num_tokens_no_spec token_ids_cpu k) (prange_order valid_ngram_requests) p.

(** One request's drafts, read from the buffers. *)
Definition read_draft (valid_ngram_requests : list Z) (p : NgramProposer) (i : Z) : result (list Z) :=
  if bool_decide (i ∈ valid_ngram_requests) then
    n ← py_index (valid_ngram_num_drafts p) i;
    if 0 <? n then row ← py_index (valid_ngram_draft p) i; Ok (py_upto row n) else Ok []
  else Ok [].

Definition batch_propose (num_requests : Z) (valid_ngram_requests num_tokens_no_spec : list Z)
    (token_ids_cpu : list (list Z)) (k : Z) (p : NgramProposer) : result (list (list Z) * NgramProposer) :=
  p ← (if zlen valid_ngram_requests =? 0 then Ok p
       else batch_propose_numba valid_ngram_requests num_tokens_no_spec token_ids_cpu k p);
  drafts ← mapM (read_draft valid_ngram_requests p) (py_range 0 num_requests);
  Ok (drafts, p).

(** [valid_ngram_requests]. *)
Definition note_valid (num_tokens_no_spec : list Z) (max_model_len : Z) (e : Z * list Z) (valid : list Z)
    : result (list Z) :=
  let '(i, sampled_ids) := e in
  if zlen sampled_ids =? 0 then Ok valid else
  num_tokens ← py_index num_tokens_no_spec i;
  if max_model_len <=? num_tokens then Ok valid else Ok (valid ++ [i]).
Definition valid_requests (num_tokens_no_spec : list Z) (max_model_len : Z) (sampled_token_ids : list (list Z))
    : result (list Z) :=
  for_each (note_valid num_tokens_no_spec max_model_len) (enumerate sampled_token_ids) [].

Definition propose (num_speculative_tokens : Z) (sampled_token_ids : list (list Z))
    (num_tokens_no_spec : list Z) (token_ids_cpu : list (list Z)) (p : NgramProposer)
    : result (list (list Z) * NgramProposer) :=
  _ ← assert_ (num_speculative_tokens <=? num_drafts p);
  valid ← valid_requests num_tokens_no_spec (ngram_max_model_len p) sampled_token_ids;
  batch_propose (zlen sampled_token_ids) valid num_tokens_no_spec token_ids_cpu num_speculative_tokens p.

(** [__init__]: zeroed buffers, and a first call to compile the search. *)
Definition ngram_init (prompt_lookup_min prompt_lookup_max k max_model_len max_num_seqs : Z) : result NgramProposer :=
  let p := mkNgram prompt_lookup_min prompt_lookup_max k max_model_len
    (replicate (Z.to_nat max_num_seqs) (replicate (Z.to_nat k) 0)) (replicate (Z.to_nat max_num_seqs) 0) in
  '(_, p) ← propose k (replicate 1024 []) (replicate 1024 0)
    (replicate 1024 (replicate (Z.to_nat max_model_len) 0)) p;
  Ok p.
End Propose.

Example ngram_demo :
  find_longest_matched_ngram_and_propose_tokens [1; 2; 3; 4; 1; 2; 3; 5; 1; 2; 3] 2 3 32 4 = Ok [4; 1; 2; 3] /\
  reference_draft [1; 2; 3; 4; 1; 2; 3; 5; 1; 2; 3] 2 3 32 4 = [4; 1; 2; 3].
Proof. by vm_compute. Qed.

(** * Borders *)

Section Borders.
Variable t : list Z.
Implicit Types (u v i x : Z).

Definition tok i : option Z := t !! Z.to_nat i.

(** The first [v] tokens also end at [i]; [v <= i] makes the two places differ. *)
Definition border v i : Prop :=
  0 <= v <= i /\ forall j, 0 <= j < v -> tok j = tok (i + 1 - v + j).

(** [v] is the longest such length. *)
Definition longest_border v i : Prop := border v i /\ forall u, border u i -> u <= v.

Lemma border_0 i : 0 <= i -> border 0 i.
Proof. intros Hi. split; [lia|]. intros j Hj. lia. Qed.

Lemma border_grow v i : border v i -> tok v = tok (i + 1) -> border (v + 1) (i + 1).
Proof.
  intros [Hv Hb] Ht. split; [lia|]. intros j Hj.
  destruct (decide (j = v)) as [->|]; [by replace (i + 1 + 1 - (v + 1) + v) with (i + 1) by lia|].
  rewrite Hb by lia. f_equal. lia.
Qed.

Lemma border_shrink v i : 1 <= v -> border v (i + 1) -> border (v - 1) i /\ tok (v - 1) = tok (i + 1).
Proof.
  intros Hv [Hvi Hb]. split; [split; [lia|]|]; [intros j Hj|]; rewrite Hb by lia; f_equal; lia.
Qed.

(** The borders below a border are the borders of its prefix. *)
Lemma border_chain u v i : border v i -> 0 <= u < v -> border u i <-> border u (v - 1).
Proof.
  intros [Hv Hb] Hu. split; intros [Hui Hub]; split; try lia; intros j Hj; rewrite Hub by lia.
  - rewrite (Hb (v - 1 + 1 - u + j)) by lia. f_equal. lia.
  - rewrite (Hb (v - 1 + 1 - u + j)) by lia. f_equal. lia.
Qed.

(** ** The scan *)

Variable max : Z.

(** What the table holds for the positions before [i]. *)
Definition table_ok (table : list Z) i : Prop :=
  zlen table = max /\
  (forall x, 0 <= x < i -> x < max -> exists v, table !! Z.to_nat x = Some v /\ longest_border v x) /\
  (forall x, 0 <= i <= x -> x < max -> table !! Z.to_nat x = Some 0).

(** The best n-gram that ends before [i], the last one of its length. *)
Definition best_before longest pos i : Prop :=
  0 <= longest <= max /\
  (forall v x, 1 <= x < i -> v <= max -> border v x -> v <= longest) /\
  (0 < longest -> 1 <= pos < i /\ border longest pos /\ forall x, pos < x < i -> ~ border longest x).

Record scan_inv (s : NgramScan) : Prop := {
  sn_i : 1 <= scan_i s <= Z.max 1 (zlen t);
  sn_prev : border (prev_lps s) (scan_i s - 1) /\ prev_lps s < max;
  sn_next v : v < max -> border v (scan_i s - 1) -> tok v = tok (scan_i s) -> v <= prev_lps s;
  sn_table : table_ok (lps s) (scan_i s);
  sn_best : best_before (longest_ngram s) (position s) (scan_i s)
}.

Definition scan_measure (s : NgramScan) : Z := 2 * (zlen t - scan_i s) + prev_lps s.

Lemma table_ok_read table i x : table_ok table i -> 0 <= x < i -> x < max ->
  exists v, py_index table x = Ok v /\ longest_border v x.
Proof.
  intros (Hl & Ht & _) Hx Hm. destruct (Ht x Hx Hm) as (v & Hv & Hb). exists v. split; [|done].
  apply py_index_Ok; [lia|done].
Qed.

Lemma table_ok_write table i v : table_ok table i -> 0 <= i -> (i < max -> longest_border v i) ->
  exists table', (if i <? max then py_set table i v else Ok table) = Ok table' /\ table_ok table' (i + 1).
Proof.
  intros (Hl & Ht & Hz) Hi Hv. destruct (Z.ltb_spec i max).
  - exists (<[Z.to_nat i := v]> table). split; [apply py_set_Ok; lia|]. split; [by rewrite length_insert|]. split.
    + intros x Hx Hm. destruct (decide (x = i)) as [->|].
      * exists v. split; [|by apply Hv]. apply list_lookup_insert_eq. lia.
      * destruct (Ht x) as (w & Hw & Hb); [lia..|]. exists w. split; [|done].
        rewrite list_lookup_insert_ne by lia. done.
    + intros x Hx Hm. rewrite list_lookup_insert_ne by lia. apply Hz; lia.
  - exists table. split; [done|]. split; [done|]. split; intros x Hx Hm; [apply Ht; lia|apply Hz; lia].
Qed.

(** A table entry that is never written is still zero. *)
Lemma table_ok_skip table i : table_ok table i -> 0 <= i -> (i < max -> longest_border 0 i) -> table_ok table (i + 1).
Proof.
  intros (Hl & Ht & Hz) Hi Hv. split; [done|]. split; [|intros x Hx Hm; apply Hz; lia].
  intros x Hx Hm. destruct (decide (x = i)) as [->|]; [|apply Ht; lia].
  exists 0. split; [apply Hz; lia|by apply Hv].
Qed.

(** The longest border at [i], capped, once the tokens match. *)
Lemma match_longest s : scan_inv s -> tok (prev_lps s) = tok (scan_i s) ->
  border (prev_lps s + 1) (scan_i s) /\
  forall v, v <= max -> border v (scan_i s) -> v <= prev_lps s + 1.
Proof.
  intros [Hi [Hb Hm] Hn _ _] He. set (i := scan_i s) in *. replace i with (i - 1 + 1) in * by lia. split.
  - apply border_grow; [by replace (i - 1) with (i - 1 + 1 - 1) by lia|done].
  - intros v Hv Hbv. destruct (decide (v < 1)); [pose proof (proj1 Hb); lia|].
    apply border_shrink in Hbv as [Hbv Ht]; [|lia]. replace (i - 1 + 1 - 1) with (i - 1) in * by lia.
    assert (v - 1 <= prev_lps s); [|lia]. apply Hn; [lia|done..].
Qed.

(** No border at all when the shortest candidate fails. *)
Lemma mismatch_longest s : scan_inv s -> tok (prev_lps s) <> tok (scan_i s) -> prev_lps s = 0 ->
  forall v, v <= max -> border v (scan_i s) -> v <= 0.
Proof.
  intros [Hi [Hb Hm] Hn _ _] He Hz v Hv Hbv. set (i := scan_i s) in *. destruct (decide (v < 1)); [lia|].
  replace i with (i - 1 + 1) in Hbv by lia. apply border_shrink in Hbv as [Hbv Ht]; [|lia].
  replace (i - 1 + 1) with i in * by lia. assert (v - 1 <= prev_lps s) by (apply Hn; [lia|done..]).
  assert (v - 1 = prev_lps s) as Hvp by lia. rewrite Hvp in Ht. done.
Qed.

Lemma best_match longest pos i m : best_before longest pos i -> 1 <= i -> 0 < m <= max ->
  border m i -> (forall v, v <= max -> border v i -> v <= m) ->
  let '(longest', pos') := if longest <=? m then (m, i) else (longest, pos) in best_before longest' pos' (i + 1).
Proof.
  intros (Hl & Hall & Hpos) Hi Hm Hb Hmax. destruct (Z.leb_spec longest m); split; try lia; split.
  - intros v x Hx Hv Hbv. destruct (decide (x = i)) as [->|]; [by apply Hmax|].
    trans longest; [|done]. apply (Hall v x); [lia|done..].
  - intros _. split; [lia|]. split; [done|]. intros x Hx. lia.
  - intros v x Hx Hv Hbv. destruct (decide (x = i)) as [->|]; [trans m; [by apply Hmax|lia]|].
    apply (Hall v x); [lia|done..].
  - intros Hp. destruct (Hpos Hp) as (? & ? & Hlast). split; [lia|]. split; [done|]. intros x Hx.
    destruct (decide (x = i)) as [->|]; [|apply Hlast; lia]. intros Hbx. apply Hmax in Hbx; lia.
Qed.

Lemma best_mismatch longest pos i : best_before longest pos i -> 1 <= i ->
  (forall v, v <= max -> border v i -> v <= 0) -> best_before longest pos (i + 1).
Proof.
  intros (Hl & Hall & Hpos) Hi Hmax. split; [done|]. split.
  - intros v x Hx Hv Hbv. destruct (decide (x = i)) as [->|]; [trans 0; [by apply Hmax|lia]|].
    apply (Hall v x); [lia|done..].
  - intros Hp. destruct (Hpos Hp) as (? & ? & Hlast). split; [lia|]. split; [done|]. intros x Hx.
    destruct (decide (x = i)) as [->|]; [|apply Hlast; lia]. intros Hbx. apply Hmax in Hbx; lia.
Qed.

(** Below [max] nothing is capped. *)
Lemma longest_uncapped v i : border v i -> (forall u, u <= max -> border u i -> u <= v) -> i < max -> longest_border v i.
Proof. intros Hb Hmax Hi. split; [done|]. intros u Hu. apply Hmax; [|done]. pose proof (proj1 Hu). lia. Qed.

Lemma scan_match s : scan_inv s -> scan_i s < zlen t -> tok (prev_lps s) = tok (scan_i s) ->
  exists s', ngram_step t max s = Ok s' /\ scan_inv s' /\ scan_measure s' < scan_measure s.
Proof.
  intros Hinv Hlt He. destruct (match_longest s Hinv He) as [Hb Hmax].
  destruct Hinv as [Hi [Hpb Hpm] _ Ht Hbest]. set (i := scan_i s) in *. pose proof (proj1 Hpb) as Hp.
  destruct (py_index_is_Ok t (prev_lps s)) as (a & Ha & Hra); [lia|].
  destruct (py_index_is_Ok t i) as (b & Hbv & Hrb); [lia|].
  unfold tok in He. rewrite Ha, Hbv in He. injection He as <-. unfold ngram_step. fold i. rewrite Hra. cbn. rewrite Hrb. cbn.
  rewrite Z.eqb_refl. pose proof (best_match _ _ _ (prev_lps s + 1) Hbest (proj1 Hi) ltac:(lia) Hb Hmax) as Hbest'.
  destruct (if longest_ngram s <=? prev_lps s + 1 then _ else _) as [longest pos].
  destruct (table_ok_write _ _ (prev_lps s + 1) Ht ltac:(lia)) as (table & Htab & Ht').
  { by apply longest_uncapped. }
  rewrite Htab. cbn. destruct (Z.eqb_spec (prev_lps s + 1) max) as [Hc|Hc].
  - destruct (table_ok_read _ _ (max - 1) Ht') as (v & Hv & Hvb & Hvmax); [pose proof (proj1 Hb); lia..|].
    rewrite Hv. cbn. eexists. split; [done|]. pose proof (proj1 Hvb) as Hv0. pose proof (proj1 Hb) as Hb0.
    rewrite Hc in Hb. split; [split; cbn; try done|].
    + lia.
    + replace (i + 1 - 1) with i by lia. split; [|lia]. apply (border_chain _ max); [done|lia|done].
    + intros u Hu Hub _. replace (i + 1 - 1) with i in Hub by lia. apply Hvmax.
      apply (border_chain u max i); [done| |done]. pose proof (proj1 Hub). lia.
    + unfold scan_measure. cbn. fold i. lia.
  - cbn. eexists. split; [done|]. split; [split; cbn; try done|].
    + lia.
    + replace (i + 1 - 1) with i by lia. split; [done|lia].
    + intros u Hu Hub _. replace (i + 1 - 1) with i in Hub by lia. apply Hmax; [lia|done].
    + unfold scan_measure. cbn. fold i. lia.
Qed.

Lemma scan_mismatch s : scan_inv s -> scan_i s < zlen t -> tok (prev_lps s) <> tok (scan_i s) ->
  exists s', ngram_step t max s = Ok s' /\ scan_inv s' /\ scan_measure s' < scan_measure s.
Proof.
  intros Hinv Hlt He. pose proof (mismatch_longest s Hinv He) as Hnone.
  destruct Hinv as [Hi [Hpb Hpm] Hn Ht Hbest]. set (i := scan_i s) in *. pose proof (proj1 Hpb) as Hp.
  destruct (py_index_is_Ok t (prev_lps s)) as (a & Ha & Hra); [lia|].
  destruct (py_index_is_Ok t i) as (b & Hbv & Hrb); [lia|].
  unfold ngram_step. fold i. rewrite Hra. cbn. rewrite Hrb. cbn.
  destruct (Z.eqb_spec a b) as [->|Hab]; [by rewrite <-Hbv in Ha|].
  destruct (Z.eqb_spec (prev_lps s) 0) as [Hz|Hz]; cbn.
  - eexists. split; [done|]. specialize (Hnone Hz). split; [split; cbn|].
    + lia.
    + split; [|lia]. rewrite Hz. apply border_0. lia.
    + intros u Hu Hub _. replace (i + 1 - 1) with i in Hub by lia. rewrite Hz. apply Hnone; [lia|done].
    + apply table_ok_skip; [done|lia|]. apply longest_uncapped; [apply border_0; lia|done].
    + by apply best_mismatch; [|lia|].
    + unfold scan_measure. cbn. fold i. lia.
  - destruct (table_ok_read _ _ (prev_lps s - 1) Ht) as (v & Hv & Hvb & Hvmax); [lia..|].
    rewrite Hv. cbn. eexists. split; [done|]. pose proof (proj1 Hvb) as Hv0. split; [split; cbn; try done|].
    + split; [|lia]. apply (border_chain v (prev_lps s)); [done|lia|done].
    + intros u Hu Hub Htu. apply Hvmax. pose proof (proj1 Hub). assert (u <= prev_lps s) by by apply Hn.
      assert (u <> prev_lps s) by (intros ->; done). apply (border_chain u (prev_lps s) (i - 1)); [done|lia|done].
    + unfold scan_measure. cbn. fold i. lia.
Qed.

Lemma scan_start_inv : 0 < max -> scan_inv (scan_start max).
Proof.
  intros Hm. split; cbn.
  - lia.
  - split; [apply border_0|]; lia.
  - intros v _ [Hv _] _. lia.
  - split; [rewrite length_replicate; lia|]. split; intros x Hx Hxm.
    + exists 0. split; [apply lookup_replicate_2; lia|]. assert (x = 0) as -> by lia.
      split; [by apply border_0|]. intros u [Hu _]. lia.
    + apply lookup_replicate_2. lia.
  - split; [lia|]. split; [intros; lia|lia].
Qed.

(** The loop ends within its fuel, inside its arrays. *)
Lemma scan_loop fuel s : scan_inv s -> 0 < Z.of_nat fuel -> scan_measure s < Z.of_nat fuel ->
  exists s', ngram_loop t max fuel s = Ok s' /\ best_before (longest_ngram s') (position s') (Z.max 1 (zlen t)).
Proof.
  revert s. induction fuel as [|fuel IH]; intros s Hinv Hpos Hf; [lia|]. cbn [ngram_loop].
  pose proof (sn_i _ Hinv) as Hi. destruct (Z.ltb_spec (scan_i s) (zlen t)) as [Hlt|Hge].
  - assert (exists s', ngram_step t max s = Ok s' /\ scan_inv s' /\ scan_measure s' < scan_measure s)
      as (s' & -> & Hinv' & Hm).
    { destruct (decide (tok (prev_lps s) = tok (scan_i s))); [by apply scan_match|by apply scan_mismatch]. }
    cbn. pose proof (proj1 (proj1 (sn_prev _ Hinv))). apply IH; [done|unfold scan_measure in *; lia|lia].
  - exists s. split; [done|]. replace (Z.max 1 (zlen t)) with (scan_i s) by lia. apply sn_best, Hinv.
Qed.
End Borders.

(** * The scan and the naive search *)

Section Equivalence.
Variable tokens : list Z.
Let total := zlen tokens.

Lemma tok_reverse j : 0 <= j < total -> tok (reverse tokens) j = tokens !! Z.to_nat (total - 1 - j).
Proof using Type.
  intros Hj. unfold tok. rewrite reverse_lookup by (unfold total in Hj; lia). f_equal. unfold total in *. lia.
Qed.

(** An n-gram in [tokens] is a border in the reversed list. *)
Lemma ngram_at_border n s : 0 <= n -> 0 <= s < total - n ->
  ngram_at tokens n s = true <-> border (reverse tokens) n (total - 1 - s).
Proof using Type.
  intros Hn Hs. unfold ngram_at. rewrite bool_decide_eq_true. fold total.
  rewrite py_slice_nonneg, py_from_nonneg by lia. split.
  - intros He. split; [lia|]. intros j Hj. rewrite !tok_reverse by lia.
    apply (f_equal (.!! Z.to_nat (n - 1 - j))) in He. rewrite lookup_take_lt, !lookup_drop in He by lia.
    etrans; [|etrans; [symmetry; exact He|]]; f_equal; lia.
  - intros [_ Hb]. apply list_eq. intros m. rewrite lookup_drop. destruct (decide (m < Z.to_nat n)%nat).
    + rewrite lookup_take_lt, lookup_drop by lia. specialize (Hb (n - 1 - Z.of_nat m)). rewrite !tok_reverse in Hb by lia.
      etrans; [|etrans; [symmetry; apply Hb; lia|]]; f_equal; lia.
    + rewrite lookup_take_ge by lia. symmetry. apply lookup_ge_None. unfold total in *. lia.
Qed.

Lemma earliest_ngram_Some n s : 0 <= n -> earliest_ngram tokens n = Some s <->
  0 <= s < total - n /\ ngram_at tokens n s = true /\ forall s', 0 <= s' < s -> ngram_at tokens n s' = false.
Proof using Type.
  intros Hn. unfold earliest_ngram. fold total. set (P := fun s => ngram_at tokens n s = true).
  assert (forall k a, 0 <= a -> k = Z.to_nat (total - n - a) ->
    head (filter P (py_range a (total - n))) = Some s <->
    a <= s < total - n /\ P s /\ forall s', a <= s' < s -> ngram_at tokens n s' = false) as Hgen.
  { induction k as [|k IH]; intros a Ha Hk.
    - rewrite py_range_nil by lia. split; [done|lia].
    - rewrite py_range_cons by lia. destruct (decide (P a)) as [Hp|Hp].
      + rewrite filter_cons_True by done. cbn. split.
        * intros [= <-]. split; [lia|]. split; [done|]. lia.
        * intros (Hs & Hps & Hlt). f_equal. destruct (decide (a = s)); [done|].
          specialize (Hlt a ltac:(lia)). unfold P in Hp. congruence.
      + rewrite filter_cons_False by done. rewrite IH by lia. split; intros (Hs & Hps & Hlt).
        * split; [lia|]. split; [done|]. intros s' Hs'. destruct (decide (s' = a)) as [->|]; [|apply Hlt; lia].
          unfold P in Hp. by destruct (ngram_at tokens n a).
        * assert (s <> a) by (intros ->; done). split; [lia|]. split; [done|]. intros s' Hs'. apply Hlt. lia. }
  by apply (Hgen (Z.to_nat (total - n - 0))).
Qed.

Lemma earliest_ngram_None n : 0 <= n -> (forall s, 0 <= s < total - n -> ngram_at tokens n s = false) ->
  earliest_ngram tokens n = None.
Proof using Type.
  intros Hn Hs. destruct (earliest_ngram tokens n) as [s|] eqn:Es; [|done].
  apply earliest_ngram_Some in Es as (Hr & Ha & _); [|done]. rewrite Hs in Ha by done. done.
Qed.

Lemma first_ngram_None lengths : (forall n, n ∈ lengths -> earliest_ngram tokens n = None) -> first_ngram tokens lengths = None.
Proof using Type.
  induction lengths as [|n ns IH]; intros Hn; [done|]. cbn. rewrite Hn by left. apply IH. intros m Hm. apply Hn. by right.
Qed.

(** The lengths are tried from the longest one down. *)
Lemma first_ngram_at a b n s : b < n <= a -> earliest_ngram tokens n = Some s ->
  (forall m, n < m <= a -> earliest_ngram tokens m = None) -> first_ngram tokens (py_range_down a b) = Some (n, s).
Proof using Type.
  intros Hn Hs Hm. remember (Z.to_nat (a - n)) as k eqn:Hk. revert a Hn Hm Hk.
  induction k as [|k IH]; intros a Hn Hm Hk; rewrite py_range_down_cons by lia; cbn.
  - replace a with n by lia. by rewrite Hs.
  - rewrite Hm by lia. apply IH; [lia| |lia]. intros m ?. apply Hm. lia.
Qed.

Variables min_ngram max_ngram : Z.
Hypothesis Hmin : 1 <= min_ngram.

(** What the scan ends with is what the search over lengths and places finds. *)
Lemma best_is_first longest pos : best_before (reverse tokens) max_ngram longest pos (Z.max 1 total) ->
  first_ngram tokens (py_range_down max_ngram (min_ngram - 1)) =
    if longest <? min_ngram then None else Some (longest, total - 1 - pos).
Proof using Hmin.
  intros (Hl & Hall & Hpos). assert (forall m, 1 <= m <= max_ngram -> longest < m -> earliest_ngram tokens m = None) as Hlonger.
  { intros m Hm Hlt. apply earliest_ngram_None; [lia|]. intros s Hs. apply not_true_is_false.
    rewrite ngram_at_border by lia. intros Hb. apply Hall in Hb; lia. }
  destruct (Z.ltb_spec longest min_ngram) as [Hlt|Hge].
  - apply first_ngram_None. intros n Hn. unfold py_range_down in Hn.
    rewrite elem_of_reverse, elem_of_seqZ in Hn. apply Hlonger; lia.
  - destruct (Hpos ltac:(lia)) as (Hp & Hb & Hlast). pose proof (proj1 Hb) as Hb0. apply first_ngram_at; [lia| |].
    + apply earliest_ngram_Some; [lia|]. split; [lia|]. split.
      * apply ngram_at_border; [lia..|]. by replace (total - 1 - (total - 1 - pos)) with pos by lia.
      * intros s' Hs'. apply not_true_is_false. rewrite ngram_at_border by lia. apply Hlast. lia.
    + intros m Hm. apply Hlonger; lia.
Qed.

Lemma find_ngram_Ok max_model_len k : 0 < max_ngram ->
  find_longest_matched_ngram_and_propose_tokens tokens min_ngram max_ngram max_model_len k =
    Ok (reference_draft tokens min_ngram max_ngram max_model_len k).
Proof using Hmin.
  intros Hmax. unfold find_longest_matched_ngram_and_propose_tokens, reference_draft. fold total.
  set (k' := Z.min k (max_model_len - total)).
  destruct (scan_loop (reverse tokens) max_ngram (scan_fuel tokens) (scan_start max_ngram)) as (s & Hs & Hbest).
  { by apply scan_start_inv. }
  { unfold scan_fuel. lia. }
  { unfold scan_measure, scan_fuel. rewrite length_reverse. cbn. lia. }
  rewrite length_reverse in Hbest. fold total in Hbest. rewrite (best_is_first _ _ Hbest), Hs.
  destruct Hbest as (Hl & _ & Hpos). destruct (Z.ltb_spec total min_ngram) as [Hshort|Hshort].
  { destruct (Z.ltb_spec (longest_ngram s) min_ngram); [done|].
    destruct (Hpos ltac:(lia)) as (? & [? _] & _). lia. }
  destruct (Z.leb_spec k' 0); [by destruct (_ <? _)|]. cbn. destruct (Z.ltb_spec (longest_ngram s) min_ngram); [done|].
  destruct (Hpos ltac:(lia)) as (Hp & [Hb _] & _). f_equal. rewrite !py_slice_nonneg by lia.
  set (start := total - 1 - position s + longest_ngram s). fold total.
  destruct (Z.min_spec k' (total - start)) as [[_ ->]|[Hge ->]]; [done|].
  trans (drop (Z.to_nat start) tokens); [|symmetry]; apply take_ge; rewrite length_drop; unfold total, start in *; lia.
Qed.
End Equivalence.

(** * The proposer *)

Section Proposer.
Variable prange_order : list Z -> list Z.
Hypothesis prange_runs_all : forall l, prange_order l ≡ₚ l.
Variables (num_tokens_no_spec : list Z) (token_ids_cpu : list (list Z)) (k : Z).

(** The buffers have a row of [self.k] entries for each of [n] requests. *)
Record buffers_ok (n : Z) (p : NgramProposer) : Prop := {
  bo_rows : n <= zlen (valid_ngram_draft p);
  bo_row row : row ∈ valid_ngram_draft p -> zlen row = num_drafts p;
  bo_nums : n <= zlen (valid_ngram_num_drafts p)
}.

(** Request [i] has [m] tokens, [tokens]. *)
Definition request_tokens (i m : Z) (tokens : list Z) : Prop :=
  num_tokens_no_spec !! Z.to_nat i = Some m /\ 0 <= m /\
  exists row, token_ids_cpu !! Z.to_nat i = Some row /\ m <= zlen row /\ tokens = take (Z.to_nat m) row.

Definition same_config (p p' : NgramProposer) : Prop :=
  min_n p' = min_n p /\ max_n p' = max_n p /\ num_drafts p' = num_drafts p /\ ngram_max_model_len p' = ngram_max_model_len p.

Definition draft_of (p : NgramProposer) (tokens : list Z) : list Z :=
  reference_draft tokens (min_n p) (max_n p) (ngram_max_model_len p) k.

(** The buffers hold [d] for request [i]. *)
Definition holds_draft (p : NgramProposer) (i : Z) (d : list Z) : Prop :=
  valid_ngram_num_drafts p !! Z.to_nat i = Some (zlen d) /\
  (d <> [] -> exists rest, valid_ngram_draft p !! Z.to_nat i = Some (d ++ rest)).

Lemma reference_draft_fits tokens lo hi len : 0 < lo ->
  let d := reference_draft tokens lo hi len k in d = [] \/ zlen d <= k /\ zlen tokens + zlen d <= len.
Proof using Type.
  intros Hlo. unfold reference_draft. set (k' := Z.min k (len - zlen tokens)).
  destruct (first_ngram _ _) as [[n s]|]; [|by left]. destruct (Z.leb_spec k' 0); [by left|]. right.
  unfold py_slice. rewrite length_take.
  assert (slice_bound (zlen tokens) (s + n + k') - slice_bound (zlen tokens) (s + n) <= k'); [|lia].
  unfold slice_bound. destruct (Z.ltb_spec (s + n + k') 0), (Z.ltb_spec (s + n) 0); lia.
Qed.

Lemma propose_row_Ok p n i m tokens : 1 <= min_n p -> 0 < max_n p -> k <= num_drafts p -> buffers_ok n p ->
  0 <= i < n -> request_tokens i m tokens ->
  exists p', propose_row num_tokens_no_spec token_ids_cpu k i p = Ok p' /\ same_config p p' /\ buffers_ok n p' /\
    holds_draft p' i (draft_of p tokens) /\
    forall j d, 0 <= j -> j <> i -> holds_draft p j d -> holds_draft p' j d.
Proof using Type.
  intros Hmin Hmax Hk [Hrows Hrow Hnums] Hi (Hm & Hm0 & row & Hr & Hlen & ->). unfold propose_row.
  rewrite (py_index_Ok num_tokens_no_spec i m), (py_index_Ok token_ids_cpu i row) by (done || lia). cbn.
  rewrite py_upto_nonneg, find_ngram_Ok by lia. cbn. fold (draft_of p (take (Z.to_nat m) row)).
  set (d := draft_of p _). assert (zlen d = 0 \/ zlen d <= num_drafts p) as Hd.
  { destruct (reference_draft_fits (take (Z.to_nat m) row) (min_n p) (max_n p) (ngram_max_model_len p)) as [Hd|[Hd _]];
      [lia| |]; fold (draft_of p (take (Z.to_nat m) row)) in Hd; fold d in Hd; [left; by rewrite Hd|right; lia]. }
  rewrite py_set_Ok by lia. cbn. destruct (Z.eqb_spec (zlen d) 0) as [Hz|Hz]; cbn.
  - eexists. split; [done|]. split; [done|]. split; [split; cbn; rewrite ?length_insert; done|]. split; [split|]; cbn.
    + apply list_lookup_insert_eq. lia.
    + intros Hne. by destruct d.
    + intros j d' Hj Hji [Hn Hdr]. split; cbn; [rewrite list_lookup_insert_ne by lia|]; done.
  - destruct (py_index_is_Ok (valid_ngram_draft p) i) as (old & Hold & ->); [lia|]. cbn.
    pose proof (Hrow old ltac:(by eapply list_elem_of_lookup_2)) as Hw. destruct (Z.ltb_spec (zlen old) (zlen d)); [lia|].
    rewrite py_set_Ok by lia. cbn. eexists. split; [done|]. split; [done|]. split; [|split; [split|]]; cbn.
    + split; cbn; rewrite ?length_insert; try done. intros r [j Hj]%list_elem_of_lookup.
      apply list_lookup_insert_Some in Hj as [(_ & <- & _)|[_ Hj]]; [rewrite length_app, length_drop; lia|].
      apply Hrow. by eapply list_elem_of_lookup_2.
    + apply list_lookup_insert_eq. lia.
    + intros _. eexists. apply list_lookup_insert_eq. lia.
    + intros j d' Hj Hji [Hn Hdr]. split; cbn; rewrite list_lookup_insert_ne by lia; done.
Qed.

Lemma batch_numba_Ok p n valid (tokens : Z -> list Z) : 1 <= min_n p -> 0 < max_n p -> k <= num_drafts p ->
  buffers_ok n p -> NoDup valid -> (forall i, i ∈ valid -> 0 <= i < n /\ exists m, request_tokens i m (tokens i)) ->
  exists p', batch_propose_numba prange_order valid num_tokens_no_spec token_ids_cpu k p = Ok p' /\
    same_config p p' /\ buffers_ok n p' /\ forall i, i ∈ valid -> holds_draft p' i (draft_of p (tokens i)).
Proof using prange_runs_all.
  intros Hmin Hmax Hk Hb Hnd Hv. unfold batch_propose_numba.
  destruct (for_each_inv (propose_row num_tokens_no_spec token_ids_cpu k)
    (fun rest p' => same_config p p' /\ buffers_ok n p' /\ NoDup rest /\ (forall i, i ∈ rest -> i ∈ valid) /\
       forall i, i ∈ valid -> i ∉ rest -> holds_draft p' i (draft_of p (tokens i)))
    (prange_order valid) p) as (p' & Hp' & Hc & Hb' & _ & _ & Hdone).
  - split; [done|]. split; [done|]. split; [by rewrite prange_runs_all|]. split; [by intros i; rewrite prange_runs_all|].
    intros i Hi Hn. by rewrite prange_runs_all in Hn.
  - intros i rest q ((Hc1 & Hc2 & Hc3 & Hc4) & Hbq & [Hni Hndr]%NoDup_cons & Hin & Hdone).
    destruct (Hv i) as (Hi & m & Ht); [apply Hin; left|].
    destruct (propose_row_Ok q n i m (tokens i)) as (q' & Hq & (? & ? & ? & ?) & Hbq' & Hh & Hkeep); try lia; try done.
    exists q'. split; [done|]. split; [split_and!; congruence|]. split; [done|]. split; [done|].
    split; [intros j Hj; apply Hin; by right|]. intros j Hj Hjr. destruct (decide (j = i)) as [->|Hne].
    + assert (draft_of p (tokens i) = draft_of q (tokens i)) as ->; [|done]. unfold draft_of. congruence.
    + apply Hkeep; [apply Hv, Hj|done|]. apply Hdone; [done|]. by apply not_elem_of_cons.
  - exists p'. split; [done|]. split; [done|]. split; [done|]. intros i Hi. apply Hdone; [done|apply not_elem_of_nil].
Qed.

Lemma read_draft_Ok p n valid i d : buffers_ok n p -> 0 <= i < n -> (i ∈ valid -> holds_draft p i d) ->
  read_draft valid p i = Ok (if bool_decide (i ∈ valid) then d else []).
Proof using Type.
  intros Hb Hi Hd. unfold read_draft. case_bool_decide as Hv; [|done]. destruct (Hd Hv) as [Hn Hr].
  rewrite (py_index_Ok _ i (zlen d)) by (done || lia). cbn. destruct (Z.ltb_spec 0 (zlen d)) as [Hp|Hp].
  - destruct Hr as [rest Hr]; [by destruct d|]. rewrite (py_index_Ok _ i (d ++ rest)) by (done || lia). cbn.
    by rewrite py_upto_nonneg, Nat2Z.id, take_app_length by lia.
  - by destruct d.
Qed.

(** The requests that get drafts: something was sampled, and there is room. *)
Definition wants_draft (max_model_len : Z) (sampled_token_ids : list (list Z)) (i : Z) : Prop :=
  0 <= i /\ exists ids m, sampled_token_ids !! Z.to_nat i = Some ids /\ ids <> [] /\
    num_tokens_no_spec !! Z.to_nat i = Some m /\ m < max_model_len.

Lemma valid_requests_Ok max_model_len sampled : zlen sampled <= zlen num_tokens_no_spec ->
  exists valid, valid_requests num_tokens_no_spec max_model_len sampled = Ok valid /\ NoDup valid /\
    forall i, i ∈ valid <-> wants_draft max_model_len sampled i.
Proof using Type.
  intros Hlen. unfold valid_requests. set (wants := wants_draft max_model_len sampled).
  destruct (for_each_inv (note_valid num_tokens_no_spec max_model_len) (fun rest valid => exists n, rest = drop n (enumerate sampled) /\
    NoDup valid /\ forall i, i ∈ valid <-> wants i /\ i < Z.of_nat n) (enumerate sampled) []) as (valid & Hv & n & Hn & Hnd & Hw).
  - exists 0%nat. split; [done|]. split; [constructor|]. intros i. rewrite elem_of_nil. split; [done|].
    intros [[? _] ?]. lia.
  - intros x rest valid (n & Hd & Hnd & Hw). destruct (drop_enumerate _ _ _ _ Hd) as (Hi & Hids & Hrest).
    destruct x as [i ids]. cbn [fst snd] in *. subst i. pose proof (lookup_lt_Some _ _ _ Hids) as Hnl.
    destruct (lookup_lt_is_Some_2 num_tokens_no_spec n) as [m Hm]; [lia|].
    assert (wants (Z.of_nat n) <-> ids <> [] /\ m < max_model_len) as Hwn.
    { unfold wants, wants_draft. rewrite Nat2Z.id. split; [|intros []; split; [lia|]; exists ids, m; by split_and!].
      intros (_ & ids' & m' & ? & ? & ? & ?). by simplify_eq. }
    assert (forall v : list Z, (forall i, i ∈ v <-> i ∈ valid \/ i = Z.of_nat n /\ wants (Z.of_nat n)) ->
      forall i, i ∈ v <-> wants i /\ i < Z.of_nat (S n)) as Hnext.
    { intros v Hvv i. rewrite Hvv, Hw. split; [intros [[? ?]|[-> ?]]; (split; [done|lia])|].
      intros [Hwi Hlt]. destruct (decide (i = Z.of_nat n)) as [->|]; [by right|left; split; [done|lia]]. }
    unfold note_valid. destruct (Z.eqb_spec (zlen ids) 0) as [Hz|Hz].
    { exists valid. split; [done|]. exists (S n). split; [done|]. split; [done|]. apply Hnext. intros i. rewrite Hwn.
      split; [by left|]. intros [|(_ & Hne & _)]; [done|by destruct ids]. }
    rewrite (py_index_Ok num_tokens_no_spec (Z.of_nat n) m) by (rewrite ?Nat2Z.id; done || lia).
    cbn. destruct (Z.leb_spec max_model_len m).
    { exists valid. split; [done|]. exists (S n). split; [done|]. split; [done|]. apply Hnext. intros i. rewrite Hwn.
      split; [by left|]. intros [|(_ & _ & ?)]; [done|lia]. }
    eexists. split; [done|]. exists (S n). split; [done|]. split.
    + apply NoDup_app. split; [done|]. split; [|apply NoDup_singleton]. intros i Hi.
      rewrite list_elem_of_singleton. intros ->. apply Hw in Hi. lia.
    + apply Hnext. intros i. rewrite elem_of_app, list_elem_of_singleton. rewrite Hwn. split; [|tauto].
      intros [ | -> ]; [by left|right; split; [done|]]. split; [by destruct ids|done].
  - exists valid. split; [done|]. split; [done|]. intros i. rewrite Hw. split; [tauto|]. intros Hwi. split; [done|].
    destruct Hwi as (Hi & ids & m & Hids & _). pose proof (lookup_lt_Some _ _ _ Hids).
    apply (f_equal length) in Hn. unfold enumerate in Hn. rewrite length_drop, length_imap in Hn.
    cbn in Hn. lia.
Qed.
End Proposer.

(** * What the proposer promises *)

(** The tokens of the request in row [i]. *)
Definition context_of (num_tokens_no_spec : list Z) (token_ids_cpu : list (list Z)) (i : nat) : list Z :=
  match num_tokens_no_spec !! i, token_ids_cpu !! i with
  | Some m, Some row => take (Z.to_nat m) row
  | _, _ => []
  end.

(** Every request has a row that holds its tokens. *)
Definition rows_ok (num_tokens_no_spec : list Z) (token_ids_cpu : list (list Z)) (n : nat) : Prop :=
  forall i, (i < n)%nat -> exists m row,
    num_tokens_no_spec !! i = Some m /\ token_ids_cpu !! i = Some row /\ 0 <= m <= zlen row.

(** The drafts of request [i]. *)
Definition expected_draft (p : NgramProposer) (num_speculative_tokens : Z) (num_tokens_no_spec : list Z)
    (token_ids_cpu : list (list Z)) (i : nat) (sampled_ids : list Z) : list Z :=
  match sampled_ids with
  | [] => []
  | _ => reference_draft (context_of num_tokens_no_spec token_ids_cpu i) (min_n p) (max_n p)
           (ngram_max_model_len p) num_speculative_tokens
  end.

Lemma reference_draft_full tokens lo hi len k : len <= zlen tokens -> reference_draft tokens lo hi len k = [].
Proof.
  intros Hlen. unfold reference_draft. destruct (first_ngram _ _) as [[n s]|]; [|done].
  destruct (Z.leb_spec (Z.min k (len - zlen tokens)) 0); [done|lia].
Qed.

Section Batch.
Variables (num_tokens_no_spec : list Z) (token_ids_cpu : list (list Z)) (sampled : list (list Z)).
Hypothesis Hrows : rows_ok num_tokens_no_spec token_ids_cpu (length sampled).

Lemma rows_ok_tokens i : (i < length sampled)%nat -> exists m, num_tokens_no_spec !! i = Some m /\
  request_tokens num_tokens_no_spec token_ids_cpu (Z.of_nat i) m (context_of num_tokens_no_spec token_ids_cpu i) /\
  zlen (context_of num_tokens_no_spec token_ids_cpu i) = m.
Proof using Hrows.
  intros Hi. destruct (Hrows i Hi) as (m & row & Hm & Hr & Hlen). exists m. split; [done|].
  unfold context_of, request_tokens. rewrite Nat2Z.id, Hm, Hr. split; [|rewrite length_take; lia].
  split; [done|]. split; [lia|]. exists row. split; [done|]. split; [lia|done].
Qed.

Lemma rows_ok_length : zlen sampled <= zlen num_tokens_no_spec.
Proof using Hrows.
  destruct (length sampled) as [|n] eqn:Hn; [lia|]. destruct (Hrows n) as (m & _ & Hm & _); [lia|].
  apply lookup_lt_Some in Hm. lia.
Qed.

Lemma read_drafts p p' k valid : buffers_ok (zlen sampled) p' ->
  (forall i, i ∈ valid <-> wants_draft num_tokens_no_spec (ngram_max_model_len p) sampled i) ->
  (forall i, i ∈ valid -> holds_draft p' i (draft_of k p (context_of num_tokens_no_spec token_ids_cpu (Z.to_nat i)))) ->
  mapM (read_draft valid p') (py_range 0 (zlen sampled)) =
    Ok (imap (expected_draft p k num_tokens_no_spec token_ids_cpu) sampled).
Proof using Hrows.
  intros Hb Hv Hh. apply mapM_Ok, Forall2_same_length_lookup_2.
  { unfold py_range. rewrite length_imap, length_seqZ. lia. }
  intros i x d Hx Hd. unfold py_range in Hx. apply lookup_seqZ in Hx as [-> Hi]. rewrite Z.add_0_l.
  rewrite list_lookup_imap in Hd. destruct (sampled !! i) as [ids|] eqn:Hids; [|done]. injection Hd as <-.
  pose proof (lookup_lt_Some _ _ _ Hids) as Hlt. destruct (rows_ok_tokens i Hlt) as (m & Hm & _ & Hlen).
  rewrite (read_draft_Ok p' (zlen sampled) valid (Z.of_nat i)
    (draft_of k p (context_of num_tokens_no_spec token_ids_cpu i))); [|done|lia|].
  2:{ intros Hin. specialize (Hh _ Hin). by rewrite Nat2Z.id in Hh. }
  f_equal. specialize (Hv (Z.of_nat i)). unfold wants_draft in Hv. rewrite Nat2Z.id in Hv.
  unfold expected_draft. case_bool_decide as Hin.
  - apply Hv in Hin as (_ & ids' & m' & ? & Hne & _). simplify_eq. by case_match.
  - destruct ids as [|x ids]; [done|]. symmetry. apply reference_draft_full.
    destruct (decide (ngram_max_model_len p <= m)); [lia|]. destruct Hin. apply Hv. split; [lia|].
    exists (x :: ids), m. split_and!; [done..|lia].
Qed.

Lemma expected_draft_fits p k i ids : 0 < min_n p ->
  let d := expected_draft p k num_tokens_no_spec token_ids_cpu i ids in
  d = [] \/ zlen d <= k /\ zlen (context_of num_tokens_no_spec token_ids_cpu i) + zlen d <= ngram_max_model_len p.
Proof using Type. intros Hmin. destruct ids; [by left|]. by apply reference_draft_fits. Qed.
End Batch.

(** C19: The Knuth-Morris-Pratt scan over the reversed tokens, with its failure table
    cut off at [max_ngram], ends within its fuel, never reads or writes outside
    its arrays, and returns what the naive search of the docstring returns: take
    the longest n-gram of length [min_ngram] to [max_ngram] that ends the tokens
    and also stands elsewhere in them, at its earliest place, and return up to
    [k] tokens that follow it, as many as the model's length leaves room for. *)
Theorem ngram_search_is_reference tokens min_ngram max_ngram max_model_len k :
  1 <= min_ngram -> 0 < max_ngram ->
  find_longest_matched_ngram_and_propose_tokens tokens min_ngram max_ngram max_model_len k =
    Ok (reference_draft tokens min_ngram max_ngram max_model_len k).
Proof. intros Hmin. by apply find_ngram_Ok. Qed.

Lemma ngram_search_is_reference_witness :
  1 <= 2 /\ 0 < 3 /\ reference_draft [7; 1; 2; 7; 1; 2; 9; 1; 2; 7; 1; 2] 2 3 64 3 = [7; 1; 2] /\
  find_longest_matched_ngram_and_propose_tokens [7; 1; 2; 7; 1; 2; 9; 1; 2; 7; 1; 2] 2 3 64 3 = Ok [7; 1; 2].
Proof.
  split; [lia|]. split; [lia|]. split; [by vm_compute|].
  exact (ngram_search_is_reference [7; 1; 2; 7; 1; 2; 9; 1; 2; 7; 1; 2] 2 3 64 3 ltac:(lia) ltac:(lia)).
Defined.

(** A call of the proposer for a batch returns, whatever earlier calls left in the
    shared buffers and in whatever order the parallel loop runs: a request for
    which nothing was sampled gets no drafts, every other one the drafts of the
    reference search over its own tokens, never more than asked for and never
    past the model's length; and the buffers are fit for the next call. *)
Theorem propose_spec (prange_order : list Z -> list Z) p num_speculative_tokens sampled num_tokens_no_spec token_ids_cpu :
  (forall l, prange_order l ≡ₚ l) -> 1 <= min_n p -> 0 < max_n p -> num_speculative_tokens <= num_drafts p ->
  buffers_ok (zlen sampled) p -> rows_ok num_tokens_no_spec token_ids_cpu (length sampled) ->
  exists drafts p', propose prange_order num_speculative_tokens sampled num_tokens_no_spec token_ids_cpu p = Ok (drafts, p') /\
    buffers_ok (zlen sampled) p' /\
    drafts = imap (expected_draft p num_speculative_tokens num_tokens_no_spec token_ids_cpu) sampled /\
    forall i d, drafts !! i = Some d -> d = [] \/
      zlen d <= num_speculative_tokens /\
      zlen (context_of num_tokens_no_spec token_ids_cpu i) + zlen d <= ngram_max_model_len p.
Proof.
  intros Hord Hmin Hmax Hk Hbuf Hrows. unfold propose. rewrite assert_true by (by apply Z.leb_le). cbn.
  destruct (valid_requests_Ok num_tokens_no_spec (ngram_max_model_len p) sampled) as (valid & -> & Hnd & Hv).
  { exact (rows_ok_length _ _ _ Hrows). }
  cbn. unfold batch_propose.
  assert (exists p', (if zlen valid =? 0 then Ok p else batch_propose_numba prange_order valid num_tokens_no_spec
      token_ids_cpu num_speculative_tokens p) = Ok p' /\ buffers_ok (zlen sampled) p' /\ forall i, i ∈ valid ->
      holds_draft p' i (draft_of num_speculative_tokens p (context_of num_tokens_no_spec token_ids_cpu (Z.to_nat i))))
    as (p' & -> & Hb' & Hh).
  { destruct (Z.eqb_spec (zlen valid) 0) as [Hz|Hz].
    - exists p. split; [done|]. split; [done|]. intros i Hi. destruct valid; [by apply not_elem_of_nil in Hi|done].
    - destruct (batch_numba_Ok prange_order Hord num_tokens_no_spec token_ids_cpu num_speculative_tokens p (zlen sampled)
        valid (fun i => context_of num_tokens_no_spec token_ids_cpu (Z.to_nat i))) as (p' & Hp' & _ & Hb' & Hh); try done.
      { intros i (Hi & ids & _ & Hids & _)%Hv. apply lookup_lt_Some in Hids. split; [lia|].
        destruct (rows_ok_tokens _ _ _ Hrows _ Hids) as (m & _ & Ht & _). exists m. by rewrite Z2Nat.id in Ht. }
      by exists p'. }
  cbn. rewrite (read_drafts _ _ _ Hrows p p' num_speculative_tokens valid Hb' Hv Hh). cbn. eexists _, p'. split; [done|]. split; [done|]. split; [done|].
  intros i d Hd. rewrite list_lookup_imap in Hd. destruct (sampled !! i); [|done]. injection Hd as <-.
  apply (expected_draft_fits num_tokens_no_spec token_ids_cpu p). lia.
Qed.

Lemma propose_spec_witness : exists p drafts p',
  ngram_init reverse 2 3 4 32 2 = Ok p /\
  propose reverse 3 [[2]; [5]] [5; 4] [[1; 2; 3; 1; 2; 0]; [4; 5; 4; 5; 9; 9]] p = Ok (drafts, p') /\
  drafts = [[3; 1; 2]; [4; 5]].
Proof.
  set (p := mkNgram 2 3 4 32 (replicate 2 (replicate 4 0)) (replicate 2 0)).
  destruct (propose_spec reverse p 3 [[2]; [5]] [5; 4] [[1; 2; 3; 1; 2; 0]; [4; 5; 4; 5; 9; 9]])
    as (drafts & p' & He & _ & Hd & _).
  - intros l. apply reverse_Permutation.
  - cbn. lia.
  - cbn. lia.
  - cbn. lia.
  - split; [cbn; lia| |cbn; lia]. intros row [->|[->|[]%not_elem_of_nil]%elem_of_cons]%elem_of_cons; done.
  - intros [|[|i]] Hi; [..|cbn in Hi; lia]; eexists _, _; (split; [done|]; split; [done|]; cbn; lia).
  - exists p, drafts, p'. split; [by vm_compute|]. split; [done|]. rewrite Hd. by vm_compute.
Defined.
