(* ===== verification/CaptureSizes.v ===== *)
(** The batch sizes for which CUDA graphs are captured:
    [VllmConfig._set_cudagraph_sizes] of src/upstream/vllm/config/vllm.py, with
    [post_init_cudagraph_sizes] and [adjust_cudagraph_sizes_for_spec_decode] of
    config/compilation.py. What these read of the configuration is a record; the
    warnings and the compile sizes are left out. *)
From S2P Require Import Prelude.
From stdpp Require Import sorting.
Open Scope Z_scope.

(** [round_up]. *)
Definition round_up (x y : Z) : Z := (x + y - 1) / y * y.

(** [range(a, b, step)] for a positive step. *)
Definition py_range_step (a b step : Z) : list Z := (fun i => a + i * step) <$> seqZ 0 (cdiv (b - a) step).

(** [sorted(set(l))]. *)
Definition sorted_set (l : list Z) : list Z := merge_sort Z.le (remove_dups l).

(** What the configuration says about CUDA graphs. *)
Record SizeConfig := mkSizeConfig {
  uses_cudagraphs : bool;                    (** there is a model, not eager, and a mode other than NONE *)
  user_capture_sizes : option (list Z);      (** [compilation_config.cudagraph_capture_sizes] *)
  user_max_size : option Z;                  (** [compilation_config.max_cudagraph_capture_size] *)
  sz_max_num_seqs : Z;
  sz_num_speculative_tokens : Z;
  max_num_batched_tokens : Z;
  interactivity : bool;                      (** [performance_mode == "interactivity"] *)
  tensor_parallel_size : Z;
  enable_sp : bool
}.

Section Sizes.
Variable c : SizeConfig.

(** [max_cudagraph_capture_size] before the sizes are known. *)
Definition initial_max_size : Z :=
  Z.min (max_num_batched_tokens c)
    (default (Z.min (sz_max_num_seqs c * (1 + sz_num_speculative_tokens c) * 2) 512) (user_max_size c)).

(** The sizes when the user names none. *)
Definition default_sizes (m : Z) : list Z :=
  let sizes :=
    (if interactivity c then py_range 1 (Z.min m 32 + 1) else filter (fun i => i <= m) [1; 2; 4])
    ++ (if 8 <=? m then py_range_step 8 (Z.min (m + 1) 256) 8 else [])
    ++ (if 256 <=? m then py_range_step 256 (m + 1) 16 else []) in
  let n := max_num_batched_tokens c in
  sorted_set (if (n <=? m) && negb (bool_decide (n ∈ sizes)) then sizes ++ [n] else sizes).

(** [update_sizes_for_sequence_parallelism]. *)
Definition update_sizes_for_sequence_parallelism (possible_sizes : list Z) : list Z :=
  filter (fun size => size mod tensor_parallel_size c = 0) possible_sizes.

(** [cudagraph_capture_sizes[-1] if cudagraph_capture_sizes else 0]. *)
Definition last_or_0 (sizes : list Z) : Z := default 0 (last sizes).

(** [_set_cudagraph_sizes]: the final sizes and the largest of them. *)
Definition set_cudagraph_sizes : result (list Z * Z) :=
  if negb (uses_cudagraphs c) then Ok ([], 0) else
  let m := initial_max_size in
  _ ← assert_ (1 <=? m);
  sizes ← match user_capture_sizes c with
    | Some sizes =>
        _ ← assert_ (0 <? zlen sizes);
        Ok (merge_sort Z.le (filter (fun i => i <= max_num_batched_tokens c) (remove_dups sizes)))
    | None => Ok (default_sizes m)
    end;
  let sizes := if (1 <? tensor_parallel_size c) && enable_sp c
    then update_sizes_for_sequence_parallelism sizes else sizes in
  let valid_max_size := last_or_0 sizes in
  if bool_decide (is_Some (user_max_size c)) && negb (bool_decide (user_max_size c = Some valid_max_size))
     && bool_decide (is_Some (user_capture_sizes c))
  then Raise ValueError else
  (* [post_init_cudagraph_sizes] *)
  let sizes := merge_sort Z.le sizes in
  _ ← (if zlen sizes =? 0 then Ok tt else
       l ← py_index sizes (-1); assert_ (l =? valid_max_size));
  Ok (sizes, valid_max_size).

(** [adjust_cudagraph_sizes_for_spec_decode] on the sizes and their maximum. *)
Definition adjust_cudagraph_sizes_for_spec_decode (uniform_decode_query_len : Z) (sizes : list Z) (max_size : Z)
    : result (list Z * Z) :=
  let with_sp := (1 <? tensor_parallel_size c) && enable_sp c in
  let multiple_of :=
    if with_sp then Z.max uniform_decode_query_len (tensor_parallel_size c) else uniform_decode_query_len in
  if with_sp && (negb (multiple_of mod uniform_decode_query_len =? 0)
                 || negb (multiple_of mod tensor_parallel_size c =? 0)) then Raise ValueError else
  if (zlen sizes =? 0) || (multiple_of <=? 1) then Ok (sizes, max_size) else
  let rounded := sorted_set (filter (fun s => s <= max_size) ((fun s => round_up s multiple_of) <$> sizes)) in
  let rounded := if (zlen rounded =? 0) && (multiple_of <=? max_size) then [multiple_of] else rounded in
  if zlen rounded =? 0 then Raise ValueError else
  l ← py_index rounded (-1); Ok (rounded, l).
End Sizes.

(** * Strictly ascending lists *)

(** What the sizes must be: positive, strictly ascending, with their maximum. *)
Record sizes_ok (sizes : list Z) (m : Z) : Prop := {
  sz_sorted : StronglySorted Z.lt sizes;
  sz_pos : Forall (Z.lt 0) sizes;
  sz_last : last_or_0 sizes = m
}.

Lemma sorted_le_lt l : StronglySorted Z.le l -> NoDup l -> StronglySorted Z.lt l.
Proof.
  induction 1 as [|x l Hs IH Hx]; intros Hnd; [constructor|]. apply NoDup_cons in Hnd as [Hn Hnd].
  constructor; [by apply IH|]. apply Forall_forall. intros y Hy. rewrite Forall_forall in Hx.
  specialize (Hx y Hy). assert (x <> y) by (intros ->; done). lia.
Qed.

Lemma sorted_lt_NoDup l : StronglySorted Z.lt l -> NoDup l.
Proof.
  induction 1 as [|x l Hs IH Hx]; constructor; [|done]. intros Hin. rewrite Forall_forall in Hx.
  specialize (Hx x Hin). lia.
Qed.

Lemma merge_sort_lt l : NoDup l -> StronglySorted Z.lt (merge_sort Z.le l).
Proof. intros Hnd. apply sorted_le_lt; [apply StronglySorted_merge_sort; apply _|by rewrite merge_sort_Permutation]. Qed.

Lemma elem_of_merge_sort x l : x ∈ merge_sort Z.le l <-> x ∈ l.
Proof. by rewrite merge_sort_Permutation. Qed.

Lemma sorted_set_lt l : StronglySorted Z.lt (sorted_set l).
Proof. apply merge_sort_lt, NoDup_remove_dups. Qed.

Lemma elem_of_sorted_set x l : x ∈ sorted_set l <-> x ∈ l.
Proof. unfold sorted_set. by rewrite elem_of_merge_sort, elem_of_remove_dups. Qed.

Lemma merge_sort_sorted l : StronglySorted Z.lt l -> merge_sort Z.le l = l.
Proof.
  intros Hl. apply (StronglySorted_unique Z.le); [apply StronglySorted_merge_sort; apply _| |apply merge_sort_Permutation].
  clear -Hl. induction Hl as [|x l Hs IH Hx]; constructor; [done|]. eapply Forall_impl; [exact Hx|]. intros y. cbn. lia.
Qed.

Lemma sorted_filter P `{!forall x : Z, Decision (P x)} l : StronglySorted Z.lt l -> StronglySorted Z.lt (filter P l).
Proof.
  induction 1 as [|x l Hs IH Hx]; [constructor|]. destruct (decide (P x)).
  - rewrite filter_cons_True by done. constructor; [done|]. apply Forall_forall. intros y Hy.
    apply list_elem_of_filter in Hy as [_ Hy]. rewrite Forall_forall in Hx. by apply Hx.
  - by rewrite filter_cons_False.
Qed.

Lemma last_or_0_max sizes x : StronglySorted Z.lt sizes -> x ∈ sizes -> x <= last_or_0 sizes /\ last_or_0 sizes ∈ sizes.
Proof.
  intros Hs. destruct (decide (sizes = [])) as [->|Hne]; [by intros ?%not_elem_of_nil|].
  destruct (last_is_Some sizes) as [_ [z Hz]]; [done|]. unfold last_or_0. rewrite Hz. cbn.
  apply last_Some in Hz as [l ->]. intros [Hx|Hx%list_elem_of_singleton]%elem_of_app.
  - split; [|apply elem_of_app; right; left]. apply StronglySorted_app in Hs as [Hs _].
    specialize (Hs x z Hx ltac:(left)). lia.
  - subst. split; [done|]. apply elem_of_app. right. left.
Qed.

Lemma sizes_ok_le sizes m x : sizes_ok sizes m -> x ∈ sizes -> 0 < x <= m.
Proof.
  intros [Hs Hp Hl] Hx. rewrite Forall_forall in Hp. split; [by apply Hp|]. rewrite <-Hl. by apply last_or_0_max.
Qed.

Lemma sizes_ok_max sizes m : sizes_ok sizes m -> sizes = [] /\ m = 0 \/ m ∈ sizes.
Proof.
  intros [Hs Hp Hl]. destruct sizes as [|x l]; [left; by rewrite <-Hl|right].
  rewrite <-Hl. apply (last_or_0_max (x :: l) x Hs). left.
Qed.

Lemma py_index_last_size sizes : sizes <> [] -> py_index sizes (-1) = Ok (last_or_0 sizes).
Proof.
  intros Hne. destruct (last_is_Some sizes) as [_ [z Hz]]; [done|]. unfold last_or_0. rewrite Hz.
  apply last_Some in Hz as [l ->]. apply py_index_last.
Qed.

(** * The sizes of a configuration *)

Section Properties.
Variable c : SizeConfig.

(** The sizes before those are filtered for sequence parallelism. *)
Definition candidate_sizes : list Z :=
  match user_capture_sizes c with
  | Some sizes => merge_sort Z.le (filter (fun i => i <= max_num_batched_tokens c) (remove_dups sizes))
  | None => default_sizes c (initial_max_size c)
  end.

Lemma elem_of_py_range_step a b step x : 0 < step -> x ∈ py_range_step a b step -> a <= x < b.
Proof using Type.
  intros Hs Hx. unfold py_range_step in Hx. apply list_elem_of_fmap in Hx as (i & -> & Hi).
  apply elem_of_seqZ in Hi. pose proof (cdiv_bounds (b - a) step Hs). nia.
Qed.

Lemma default_sizes_bounds m x : x ∈ default_sizes c m -> 0 < max_num_batched_tokens c -> 0 < x <= m.
Proof using Type.
  unfold default_sizes. rewrite elem_of_sorted_set. set (l := _ ++ _).
  assert (x ∈ l -> 0 < x <= m) as Hl.
  { unfold l. rewrite !elem_of_app. intros [Hx|[Hx|Hx]].
    - destruct (interactivity c); [apply elem_of_py_range in Hx; lia|].
      apply list_elem_of_filter in Hx as [? Hx]. rewrite !elem_of_cons, elem_of_nil in Hx. lia.
    - destruct (8 <=? m); [apply elem_of_py_range_step in Hx; lia|by apply not_elem_of_nil in Hx].
    - destruct (256 <=? m); [apply elem_of_py_range_step in Hx; lia|by apply not_elem_of_nil in Hx]. }
  destruct (Z.leb_spec (max_num_batched_tokens c) m); cbn [andb]; [|by auto].
  destruct (negb _); [|by auto]. rewrite elem_of_app, list_elem_of_singleton. intros [ | -> ]; [by auto|lia].
Qed.

(** The largest batch is captured when it is not too large. *)
Lemma default_sizes_top m : max_num_batched_tokens c <= m -> max_num_batched_tokens c ∈ default_sizes c m.
Proof using Type.
  intros Hm. unfold default_sizes. rewrite elem_of_sorted_set. set (l := _ ++ _).
  destruct (Z.leb_spec (max_num_batched_tokens c) m); [|lia]. case_bool_decide; cbn; [done|].
  apply elem_of_app. right. left.
Qed.

Hypothesis Htokens : 0 < max_num_batched_tokens c.
Hypothesis Huser : forall sizes, user_capture_sizes c = Some sizes -> Forall (Z.lt 0) sizes.

Lemma candidate_sizes_ok : StronglySorted Z.lt candidate_sizes /\
  forall x, x ∈ candidate_sizes -> 0 < x <= max_num_batched_tokens c.
Proof using Htokens Huser.
  unfold candidate_sizes. destruct (user_capture_sizes c) as [sizes|].
  - split; [apply merge_sort_lt, NoDup_filter, NoDup_remove_dups|]. intros x.
    rewrite elem_of_merge_sort, list_elem_of_filter, elem_of_remove_dups. intros [? Hx].
    specialize (Huser sizes eq_refl). rewrite Forall_forall in Huser. split; [by apply Huser|done].
  - split; [apply sorted_set_lt|]. intros x Hx. apply default_sizes_bounds in Hx; [|done].
    unfold initial_max_size in Hx. lia.
Qed.

(** The final sizes. *)
Definition final_sizes : list Z :=
  if (1 <? tensor_parallel_size c) && enable_sp c
  then update_sizes_for_sequence_parallelism c candidate_sizes else candidate_sizes.

Lemma final_sizes_ok : sizes_ok final_sizes (last_or_0 final_sizes) /\
  forall x, x ∈ final_sizes -> x <= max_num_batched_tokens c.
Proof using Htokens Huser.
  destruct candidate_sizes_ok as [Hs Hb].
  assert (StronglySorted Z.lt final_sizes /\ forall x, x ∈ final_sizes -> x ∈ candidate_sizes) as [Hs' Hin].
  { unfold final_sizes. destruct (_ && _); [|done]. split; [by apply sorted_filter|].
    intros x. unfold update_sizes_for_sequence_parallelism. rewrite list_elem_of_filter. tauto. }
  split; [|intros x Hx; by apply Hb, Hin]. split; [done| |done]. apply Forall_forall. intros x Hx. by apply Hb, Hin.
Qed.

(** [set_cudagraph_sizes] returns these, or raises. *)
Lemma set_cudagraph_sizes_cases : uses_cudagraphs c = true ->
  set_cudagraph_sizes c =
    if negb (1 <=? initial_max_size c) then Raise AssertionError
    else if bool_decide (user_capture_sizes c = Some []) then Raise AssertionError
    else if bool_decide (is_Some (user_max_size c)) && negb (bool_decide (user_max_size c = Some (last_or_0 final_sizes)))
            && bool_decide (is_Some (user_capture_sizes c)) then Raise ValueError
    else Ok (final_sizes, last_or_0 final_sizes).
Proof using Htokens Huser.
  intros Hu. destruct final_sizes_ok as [Hok _]. unfold set_cudagraph_sizes. rewrite Hu. cbn [negb].
  destruct (1 <=? initial_max_size c); [|done]. cbn [negb assert_ mbind result_bind].
  assert (match user_capture_sizes c with
    | Some sizes => _ ← assert_ (0 <? zlen sizes);
        Ok (merge_sort Z.le (filter (fun i => i <= max_num_batched_tokens c) (remove_dups sizes)))
    | None => Ok (default_sizes c (initial_max_size c)) end =
    if bool_decide (user_capture_sizes c = Some []) then Raise AssertionError else Ok candidate_sizes) as ->.
  { unfold candidate_sizes. destruct (user_capture_sizes c) as [[|x l]|]; cbn; done. }
  destruct (bool_decide (user_capture_sizes c = Some [])); [done|]. cbn [mbind result_bind]. fold final_sizes.
  destruct (bool_decide (is_Some (user_max_size c)) && _ && _) eqn:Hx; [done|].
  rewrite merge_sort_sorted by apply (sz_sorted _ _ Hok).
  destruct (Z.eqb_spec (zlen final_sizes) 0) as [Hz|Hz]; [done|].
  rewrite py_index_last_size by (intros He; by rewrite He in Hz). cbn. by rewrite Z.eqb_refl.
Qed.

Lemma sizes_ok_nil : sizes_ok [] 0.
Proof using Type. by repeat constructor. Qed.

(** ** Rounding for speculative decoding *)

Lemma round_up_spec x y : 0 < y -> x <= round_up x y < x + y /\ (y | round_up x y).
Proof using Type.
  intros Hy. unfold round_up. pose proof (Z.div_mod (x + y - 1) y ltac:(lia)).
  pose proof (Z.mod_pos_bound (x + y - 1) y Hy). split; [nia|apply Z.divide_factor_r].
Qed.

(** The rounded sizes of [adjust_cudagraph_sizes_for_spec_decode]. *)
Definition rounded_sizes (k : Z) (sizes : list Z) (m : Z) : list Z :=
  let rounded := sorted_set (filter (fun s => s <= m) ((fun s => round_up s k) <$> sizes)) in
  if (zlen rounded =? 0) && (k <=? m) then [k] else rounded.

Lemma rounded_sizes_spec k sizes m : 1 < k -> sizes_ok sizes m ->
  StronglySorted Z.lt (rounded_sizes k sizes m) /\
  (forall x, x ∈ rounded_sizes k sizes m -> 0 < x <= m /\ (k | x)) /\
  (rounded_sizes k sizes m = [] <-> m < k).
Proof using Type.
  intros Hk Hok. unfold rounded_sizes. set (r := sorted_set _).
  assert (forall x, x ∈ r -> k <= x <= m /\ (k | x)) as Hr.
  { intros x Hx. unfold r in Hx. rewrite elem_of_sorted_set, list_elem_of_filter in Hx. destruct Hx as [Hm Hx].
    apply list_elem_of_fmap in Hx as (y & -> & Hy). destruct (round_up_spec y k) as [Hb Hd]; [lia|].
    pose proof (sizes_ok_le _ _ _ Hok Hy). split; [|done]. split; [|done]. destruct Hd as [z Hz]. rewrite Hz in *.
    assert (0 < z) by nia. nia. }
  destruct (Z.eqb_spec (zlen r) 0) as [Hz|Hz]; cbn [andb].
  - destruct (Z.leb_spec k m).
    + split; [repeat constructor|]. split; [intros x ->%list_elem_of_singleton; split; [lia|done]|]. split; [done|lia].
    + split; [apply sorted_set_lt|]. split; [intros x Hx; apply Hr in Hx; lia|]. split; [done|]. by destruct r.
  - split; [apply sorted_set_lt|]. split; [intros x Hx; apply Hr in Hx as [? ?]; split; [lia|done]|].
    split; [intros He; by rewrite He in Hz|]. intros Hlt. destruct r as [|x r']; [done|].
    destruct (Hr x ltac:(left)). lia.
Qed.

Lemma adjust_cases q sizes m : sizes_ok sizes m -> (1 <? tensor_parallel_size c) && enable_sp c = false ->
  adjust_cudagraph_sizes_for_spec_decode c q sizes m =
    if bool_decide (sizes = []) || (q <=? 1) then Ok (sizes, m)
    else if m <? q then Raise ValueError
    else Ok (rounded_sizes q sizes m, last_or_0 (rounded_sizes q sizes m)).
Proof using Type.
  intros Hok Hsp. unfold adjust_cudagraph_sizes_for_spec_decode. rewrite Hsp. cbn [andb].
  destruct (Z.eqb_spec (zlen sizes) 0) as [Hz|Hz].
  { destruct sizes; [|done]. by rewrite bool_decide_true. }
  rewrite bool_decide_false by (by intros ->). cbn [orb]. destruct (Z.leb_spec q 1); [done|].
  fold (rounded_sizes q sizes m). destruct (rounded_sizes_spec q sizes m) as (_ & _ & He); [done..|].
  destruct (Z.ltb_spec m q) as [Hlt|Hge].
  - apply He in Hlt. by rewrite Hlt.
  - assert (rounded_sizes q sizes m <> []) as Hne by (intros Hr; apply He in Hr; lia).
    destruct (Z.eqb_spec (zlen (rounded_sizes q sizes m)) 0) as [Hr|_]; [by destruct (rounded_sizes q sizes m)|].
    by rewrite py_index_last_size.
Qed.
End Properties.

Example sizes_demo :
  set_cudagraph_sizes (mkSizeConfig true None None 8 3 8192 false 1 false) =
    Ok ([1; 2; 4; 8; 16; 24; 32; 40; 48; 56; 64], 64) /\
  adjust_cudagraph_sizes_for_spec_decode (mkSizeConfig true None None 8 3 8192 false 1 false) 3 [1; 2; 4; 8; 16] 16 =
    Ok ([3; 6; 9], 9).
Proof. by vm_compute. Qed.

(** * What the configuration promises *)

Lemma adjusted_ok c q sizes m : sizes_ok sizes m -> (1 <? tensor_parallel_size c) && enable_sp c = false ->
  match adjust_cudagraph_sizes_for_spec_decode c q sizes m with
  | Ok (sizes', m') => sizes_ok sizes' m' /\ m' <= m /\ (1 < q -> Forall (fun x => (q | x)) sizes')
  | Raise e => e = ValueError /\ m < q
  end.
Proof.
  intros Hok Hsp. rewrite adjust_cases by done. case_bool_decide as Hnil; cbn [orb].
  { subst. split; [done|]. split; [done|]. intros _. constructor. }
  destruct (Z.leb_spec q 1); [split; [done|split; [done|lia]]|]. destruct (Z.ltb_spec m q); [done|].
  destruct (rounded_sizes_spec q sizes m) as (Hs & Hr & He); [done..|].
  assert (sizes_ok (rounded_sizes q sizes m) (last_or_0 (rounded_sizes q sizes m))) as Hok'.
  { split; [done| |done]. apply Forall_forall. intros x Hx. by apply Hr. }
  split; [done|]. split; [|intros _; apply Forall_forall; intros x Hx; by apply Hr].
  destruct (sizes_ok_max _ _ Hok') as [[Hn _]|Hin]; [apply He in Hn; lia|by apply Hr].
Qed.


Definition example_sizes : SizeConfig := mkSizeConfig true None None 8 2 40 false 1 false.

