(* ===== verification/CudaGraph.v ===== *)
(** Which captured CUDA graph runs a batch: [CudagraphDispatcher] of
    src/upstream/vllm/v1/cudagraph_dispatcher.py, with [CUDAGraphMode]
    (config/compilation.py), [BatchDescriptor] (forward_context.py) and
    [get_captured_lora_counts] (lora/utils.py).

    The dispatcher keeps, per runtime mode, a set of batch descriptors: the keys of
    the graphs to capture. [dispatch] pads a batch to the next captured size and
    looks its descriptor up. The set that a caller passes as [valid_modes] is not
    shared with anything (every caller builds a fresh one), so that its in-place
    difference is modelled as a new set. *)
From S2P Require Import Prelude Bisect CaptureSizes.
From stdpp Require Import sorting.
Open Scope Z_scope.

(** * Modes and descriptors *)

Inductive CUDAGraphMode := NONE | PIECEWISE | FULL | FULL_DECODE_ONLY | FULL_AND_PIECEWISE.

#[export] Instance mode_eq_dec : EqDecision CUDAGraphMode.
Proof. solve_decision. Defined.
Definition mode_index (m : CUDAGraphMode) : nat :=
  match m with NONE => 0 | PIECEWISE => 1 | FULL => 2 | FULL_DECODE_ONLY => 3 | FULL_AND_PIECEWISE => 4 end.
#[export] Instance mode_countable : Countable CUDAGraphMode.
Proof.
  refine (inj_countable' mode_index (fun n =>
    match n with 0 => NONE | 1 => PIECEWISE | 2 => FULL | 3 => FULL_DECODE_ONLY | _ => FULL_AND_PIECEWISE end%nat) _).
  by intros [].
Defined.

(** The value is a tuple. *)
Definition separate_routine (m : CUDAGraphMode) : bool :=
  match m with FULL_DECODE_ONLY | FULL_AND_PIECEWISE => true | _ => false end.
Definition decode_mode (m : CUDAGraphMode) : CUDAGraphMode := if separate_routine m then FULL else m.
Definition mixed_mode (m : CUDAGraphMode) : CUDAGraphMode :=
  match m with FULL_DECODE_ONLY => NONE | FULL_AND_PIECEWISE => PIECEWISE | _ => m end.
Definition has_mode (m mode : CUDAGraphMode) : result bool :=
  _ ← assert_ (negb (separate_routine mode));
  Ok (if separate_routine m then bool_decide (mode = decode_mode m) || bool_decide (mode = mixed_mode m)
      else bool_decide (m = mode)).
Definition valid_runtime_modes : gset CUDAGraphMode := {[NONE; PIECEWISE; FULL]}.

Record BatchDescriptor := mkBatch {
  num_tokens : Z;
  num_reqs : option Z;
  uniform : bool;
  max_seq_len : option Z;
  tq_spec_decode_shared : bool;
  has_lora : bool;
  num_active_loras : Z
}.

#[export] Instance batch_eq_dec : EqDecision BatchDescriptor.
Proof. solve_decision. Defined.
#[export] Instance batch_countable : Countable BatchDescriptor.
Proof.
  refine (inj_countable' (fun d => (num_tokens d, num_reqs d, uniform d, max_seq_len d, tq_spec_decode_shared d,
      has_lora d, num_active_loras d)) (fun '(n, r, u, m, t, h, a) => mkBatch n r u m t h a) _).
  by intros [].
Defined.

(** [BatchDescriptor(num_tokens)]. *)
Definition plain_batch (n : Z) : BatchDescriptor := mkBatch n None false None false false 0.
(** [replace(d, ...)]. *)
Definition replace_variant (len : option Z) (shared : bool) (d : BatchDescriptor) : BatchDescriptor :=
  mkBatch (num_tokens d) (num_reqs d) (uniform d) len shared (has_lora d) (num_active_loras d).
Definition relax_reqs (d : BatchDescriptor) : BatchDescriptor :=
  mkBatch (num_tokens d) None false (max_seq_len d) (tq_spec_decode_shared d) (has_lora d) (num_active_loras d).

(** * The dispatcher *)

(** [LoRAConfig]. *)
Record LoRAConfig := mkLoRAConfig {
  max_loras : Z;
  specialize_active_lora : bool
}.

(** What the dispatcher reads of the configuration. *)
Record DispatchConfig := mkDispatchConfig {
  max_cudagraph_capture_size : option Z;
  cudagraph_capture_sizes : option (list Z);
  compile_sizes : list Z;                    (** empty for [None] *)
  cudagraph_specialize_lora : bool;
  lora_config : option LoRAConfig;
  max_num_seqs : Z;
  num_speculative_tokens : Z
}.

Record Dispatcher := mkDispatcher {
  vllm_config : DispatchConfig;
  uniform_decode_query_len : Z;
  piecewise_keys : gset BatchDescriptor;     (** [cudagraph_keys[PIECEWISE]] *)
  full_keys : gset BatchDescriptor;          (** [cudagraph_keys[FULL]] *)
  keys_initialized : bool;
  cudagraph_mode : CUDAGraphMode;
  bs_to_padded_graph_size : list Z;
  captured_lora_counts : list Z
}.

Definition with_keys (piecewise full : gset BatchDescriptor) (d : Dispatcher) : Dispatcher :=
  mkDispatcher (vllm_config d) (uniform_decode_query_len d) piecewise full (keys_initialized d) (cudagraph_mode d)
    (bs_to_padded_graph_size d) (captured_lora_counts d).
Definition with_setup (mode : CUDAGraphMode) (table counts : list Z) (d : Dispatcher) : Dispatcher :=
  mkDispatcher (vllm_config d) (uniform_decode_query_len d) (piecewise_keys d) (full_keys d) (keys_initialized d) mode
    table counts.
Definition initialized (d : Dispatcher) : Dispatcher :=
  mkDispatcher (vllm_config d) (uniform_decode_query_len d) (piecewise_keys d) (full_keys d) true (cudagraph_mode d)
    (bs_to_padded_graph_size d) (captured_lora_counts d).

(** [__init__]; the last two arguments say whether attention is compiled
    piecewise and whether breakable graphs are enabled. *)
Definition dispatcher_init (c : DispatchConfig) (config_mode : CUDAGraphMode) (piecewise breakable : bool)
    : result Dispatcher :=
  requires ← has_mode config_mode PIECEWISE;
  _ ← assert_ (negb requires || piecewise || breakable);
  Ok (mkDispatcher c (1 + num_speculative_tokens c) ∅ ∅ false NONE [] []).

(** [self.specialize_lora_count]. *)
Definition specialize_lora_count (d : Dispatcher) : bool :=
  match lora_config (vllm_config d) with Some l => specialize_active_lora l | None => false end.

(** ** Padding *)

(** The sizes from [start] to [end_ - 1] in the table: [start] itself is captured,
    the others are padded to [end_]. *)
Definition fill_range (e : Z * Z) (table : list Z) : result (list Z) :=
  let '(end_, start) := e in
  for_each (fun bs table => py_set table bs (if bs =? start then start else end_)) (py_range start end_) table.

(** The table [_bs_to_padded_graph_size]. *)
Definition padded_table (capture_sizes : list Z) (max_size : Z) : result (list Z) :=
  for_each fill_range (zip (capture_sizes ++ [max_size + 1]) (0 :: capture_sizes))
    (replicate (Z.to_nat (max_size + 1)) 0).

(** Compile sizes must not be changed by padding. *)
Definition check_compile_size (table : list Z) (max_size size : Z) (_ : unit) : result unit :=
  if size <=? max_size then
    padded ← py_index table size;
    if padded =? size then Ok tt else Raise ValueError
  else Ok tt.

(** [_compute_bs_to_padded_graph_size] under a mode. *)
Definition compute_bs_to_padded_graph_size (c : DispatchConfig) (mode : CUDAGraphMode) : result (list Z) :=
  max_size ← or_raise AssertionError (max_cudagraph_capture_size c);
  capture_sizes ← or_raise AssertionError (cudagraph_capture_sizes c);
  table ← padded_table capture_sizes max_size;
  _ ← (if negb (bool_decide (mode = NONE)) then
    for_each (check_compile_size table max_size) (compile_sizes c) tt
    else Ok tt);
  Ok table.

(** ** LoRA counts *)

(** [get_captured_lora_counts]. *)
Definition get_captured_lora_counts (max_loras : Z) (specialize : bool) : list Z :=
  if negb specialize then [max_loras + 1]
  else filter (fun n => Z.land n (n - 1) = 0 \/ n = max_loras + 1) (py_range 1 (max_loras + 2)).

(** [_get_lora_cases]. *)
Definition get_lora_cases (d : Dispatcher) : list Z :=
  match lora_config (vllm_config d) with
  | None => [0]
  | Some l =>
      if cudagraph_specialize_lora (vllm_config d)
      then 0 :: get_captured_lora_counts (max_loras l) (specialize_lora_count d)
      else [max_loras l + 1]
  end.

(** ** Keys *)

(** [_create_padded_batch_descriptor]. *)
Definition create_padded_batch_descriptor (n : Z) (uniform_decode lora : bool) (active : Z) (d : Dispatcher)
    : result BatchDescriptor :=
  let seqs := max_num_seqs (vllm_config d) in
  padded ← py_index (bs_to_padded_graph_size d) n;
  full ← (if uniform_decode then has_mode (cudagraph_mode d) FULL else Ok false);
  if uniform_decode && full then
    if uniform_decode_query_len d =? 0 then Raise ZeroDivisionError else
    let reqs := Z.min (padded / uniform_decode_query_len d) seqs in
    _ ← assert_ (padded mod uniform_decode_query_len d =? 0);
    Ok (mkBatch padded (Some reqs) true None false lora active)
  else Ok (mkBatch padded (Some (Z.min padded seqs)) false None false lora active).

Definition add_cudagraph_key (mode : CUDAGraphMode) (b : BatchDescriptor) (d : Dispatcher) : result Dispatcher :=
  match mode with
  | PIECEWISE => Ok (with_keys ({[b]} ∪ piecewise_keys d) (full_keys d) d)
  | FULL => Ok (with_keys (piecewise_keys d) ({[b]} ∪ full_keys d) d)
  | _ => Raise AssertionError
  end.

(** The bodies of the two loops of [initialize_cudagraph_keys]. *)
Definition add_mixed_key (mode : CUDAGraphMode) (e : Z * Z) (d : Dispatcher) : result Dispatcher :=
  let '(bs, active) := e in
  b ← create_padded_batch_descriptor bs false (0 <? active) active d;
  add_cudagraph_key mode (if bool_decide (mode = PIECEWISE) then relax_reqs b else b) d.
Definition add_decode_key (e : Z * Z) (d : Dispatcher) : result Dispatcher :=
  let '(bs, active) := e in
  b ← create_padded_batch_descriptor bs true (0 <? active) active d;
  add_cudagraph_key FULL b d.

(** [initialize_cudagraph_keys]. *)
Definition initialize_cudagraph_keys (mode : CUDAGraphMode) (query_len : Z) (d : Dispatcher) : result Dispatcher :=
  let c := vllm_config d in
  if bool_decide (mode = NONE)
  then Ok (initialized (with_setup mode (bs_to_padded_graph_size d) (captured_lora_counts d) d)) else
  table ← compute_bs_to_padded_graph_size c mode;
  let lora_cases := get_lora_cases d in
  let d := with_setup mode table (filter (fun n => n <> 0) lora_cases) d in
  d ← (if bool_decide (mixed_mode mode = NONE) then Ok d else
    sizes ← or_raise AssertionError (cudagraph_capture_sizes c);
    for_each (add_mixed_key (mixed_mode mode)) (list_prod sizes lora_cases) d);
  d ← (if bool_decide (decode_mode mode = FULL) && separate_routine mode then
    sizes ← or_raise AssertionError (cudagraph_capture_sizes c);
    let max_num_tokens := query_len * max_num_seqs c in
    let sizes := filter (fun x => x <= max_num_tokens /\ query_len <= x) sizes in
    for_each add_decode_key (list_prod sizes lora_cases) d
    else Ok d);
  Ok (initialized d).

(** [specialize_full_cudagraphs_by_max_seq_len]. *)
Definition specialize_by_max_seq_len (max_seq_lens : list Z) (d : Dispatcher) : result Dispatcher :=
  _ ← assert_ (keys_initialized d);
  _ ← assert_ (negb (zlen max_seq_lens =? 0) && bool_decide (Forall (fun v => 0 < v) max_seq_lens));
  _ ← assert_ (bool_decide (NoDup max_seq_lens));
  _ ← assert_ (bool_decide (set_Forall (fun b => max_seq_len b = None) (full_keys d)));
  Ok (with_keys (piecewise_keys d)
    (list_to_set (b ← elements (full_keys d); len ← max_seq_lens; [replace_variant (Some len) (tq_spec_decode_shared b) b])) d).

(** [specialize_full_cudagraphs_for_tq_spec_decode]. *)
Definition specialize_for_tq_spec_decode (eligible_num_tokens : list Z) (d : Dispatcher) : result Dispatcher :=
  _ ← assert_ (keys_initialized d);
  _ ← assert_ (negb (zlen eligible_num_tokens =? 0));
  _ ← assert_ (bool_decide (set_Forall (fun b => tq_spec_decode_shared b = false) (full_keys d)));
  let shared := set_map (fun b => replace_variant (max_seq_len b) true b)
    (filter (fun b => uniform b = true /\ num_tokens b ∈ eligible_num_tokens) (full_keys d)) in
  Ok (with_keys (piecewise_keys d) (full_keys d ∪ shared) d).

(** ** Dispatch *)

(** [valid_modes or valid_runtime_modes()], less the invalid ones. *)
Definition allowed_modes (valid invalid : option (gset CUDAGraphMode)) : gset CUDAGraphMode :=
  let allowed := match valid with
    | Some v => if bool_decide (v = ∅) then valid_runtime_modes else v
    | None => valid_runtime_modes
    end in
  allowed ∖ default ∅ invalid.

(** [effective_num_active_loras]. *)
Definition effective_num_active_loras (lora : bool) (active : Z) (d : Dispatcher) : result Z :=
  if lora && (0 <? active) then
    if specialize_lora_count d then
      idx ← bisect_left (captured_lora_counts d) active;
      if idx <? zlen (captured_lora_counts d) then py_index (captured_lora_counts d) idx else Ok active
    else
      l ← or_raise AssertionError (lora_config (vllm_config d));
      Ok (max_loras l + 1)
  else Ok active.

(** A batch, as a caller of [dispatch] describes it. *)
Record Batch := mkQuery {
  q_tokens : Z;
  q_uniform_decode : bool;
  q_has_lora : bool;
  q_active_loras : Z;
  q_max_seq_len : option Z;
  q_shared : bool
}.

Definition dispatch (q : Batch) (valid invalid : option (gset CUDAGraphMode)) (d : Dispatcher)
    : result (CUDAGraphMode * BatchDescriptor) :=
  let allowed := allowed_modes valid invalid in
  _ ← assert_ (negb (bool_decide (allowed = ∅)));
  let eager := (NONE, plain_batch (q_tokens q)) in
  if negb (keys_initialized d) || bool_decide (cudagraph_mode d = NONE)
     || match max_cudagraph_capture_size (vllm_config d) with None => true | Some m => m <? q_tokens q end
     || bool_decide (allowed ⊆ {[NONE]})
  then Ok eager else
  active ← effective_num_active_loras (q_has_lora q) (q_active_loras q) d;
  let normalized_uniform := q_uniform_decode q && separate_routine (cudagraph_mode d) in
  b ← create_padded_batch_descriptor (q_tokens q) normalized_uniform (q_has_lora q) active d;
  let full := replace_variant (q_max_seq_len q) (q_shared q) b in
  if bool_decide (FULL ∈ allowed) && bool_decide (full ∈ full_keys d) then Ok (FULL, full) else
  let piecewise := relax_reqs (replace_variant None false b) in
  if bool_decide (PIECEWISE ∈ allowed) && bool_decide (piecewise ∈ piecewise_keys d) then Ok (PIECEWISE, piecewise) else
  _ ← assert_ (bool_decide (NONE ∈ allowed));
  Ok eager.

(** ** Capturing *)

(** The sort key of [get_capture_descs], compared as Python compares tuples. *)
Definition capture_key (b : BatchDescriptor) : Z * Z * Z * Z :=
  (num_tokens b, num_active_loras b, default 0 (max_seq_len b), if tq_spec_decode_shared b then 1 else 0).
Definition capture_ge (b1 b2 : BatchDescriptor) : Prop :=
  let '(n1, a1, m1, t1) := capture_key b1 in
  let '(n2, a2, m2, t2) := capture_key b2 in
  n2 < n1 \/ n1 = n2 /\ (a2 < a1 \/ a1 = a2 /\ (m2 < m1 \/ m1 = m2 /\ t2 <= t1)).
#[export] Instance capture_ge_dec b1 b2 : Decision (capture_ge b1 b2).
Proof. unfold capture_ge, capture_key. apply _. Defined.

(** [get_capture_descs]. *)
Definition get_capture_descs (d : Dispatcher) : list (CUDAGraphMode * list BatchDescriptor) :=
  if negb (keys_initialized d) || bool_decide (cudagraph_mode d = NONE) then [] else
  let of_mode mode keys :=
    if bool_decide (keys = ∅) then [] else [(mode, merge_sort capture_ge (elements keys))] in
  of_mode PIECEWISE (piecewise_keys d) ++ of_mode FULL (full_keys d).

(** * Padding *)

(** The captured size a batch of [n] tokens is padded to: the smallest that holds
    it; an empty batch stays empty. *)
Definition next_size (sizes : list Z) (n p : Z) : Prop :=
  p ∈ 0 :: sizes /\ n <= p /\ forall s, s ∈ 0 :: sizes -> n <= s -> p <= s.

Lemma next_size_unique sizes n p p' : next_size sizes n p -> next_size sizes n p' -> p = p'.
Proof.
  intros (Hp & Hn & Hl) (Hp' & Hn' & Hl'). specialize (Hl p' Hp' Hn'). specialize (Hl' p Hp Hn). lia.
Qed.

Lemma next_size_self sizes n : n ∈ 0 :: sizes -> next_size sizes n n.
Proof. intros Hn. by split. Qed.

(** A loop that sets the entries of a range to [f]. *)
Lemma fill_entries (f : Z -> Z) a b table : 0 <= a -> b <= zlen table ->
  exists table', for_each (fun bs t => py_set t bs (f bs)) (py_range a b) table = Ok table' /\ zlen table' = zlen table /\
    forall n, 0 <= n < zlen table -> table' !! Z.to_nat n = if bool_decide (a <= n < b) then Some (f n) else table !! Z.to_nat n.
Proof.
  intros Ha Hb. remember (Z.to_nat (b - a)) as k eqn:Hk. revert a table Ha Hb Hk.
  induction k as [|k IH]; intros a table Ha Hb Hk.
  - exists table. rewrite py_range_nil by lia. split; [done|]. split; [done|]. intros n Hn.
    rewrite bool_decide_false by lia. done.
  - rewrite py_range_cons by lia. cbn [for_each]. rewrite py_set_Ok by lia. cbn [mbind result_bind].
    destruct (IH (a + 1) (<[Z.to_nat a := f a]> table)) as (t' & -> & Hl & Ht); [lia|rewrite length_insert; lia|lia|].
    exists t'. split; [done|]. rewrite length_insert in Hl, Ht. split; [done|]. intros n Hn. rewrite Ht by done.
    destruct (decide (n = a)) as [->|Hne].
    + rewrite bool_decide_false, bool_decide_true by lia. apply list_lookup_insert_eq. lia.
    + rewrite list_lookup_insert_ne by lia. repeat case_bool_decide; done || lia.
Qed.

Section Table.
Context (sizes : list Z) (m : Z).
Hypothesis Hok : sizes_ok sizes m.

Lemma zero_sorted : StronglySorted Z.lt (0 :: sizes).
Proof using Hok. constructor; apply Hok. Qed.

Lemma zero_sizes_le x : x ∈ 0 :: sizes -> 0 <= x <= m.
Proof using Hok.
  assert (0 <= m) as Hm by (destruct (sizes_ok_max _ _ Hok) as [[_ ->]|Hin]; [done|apply (sizes_ok_le _ _ _ Hok) in Hin; lia]).
  intros [->|Hx]%elem_of_cons; [done|]. apply (sizes_ok_le _ _ _ Hok) in Hx. lia.
Qed.

Lemma zero_sizes_last before x : 0 :: sizes = before ++ [x] -> x = m.
Proof using Hok.
  intros Heq. rewrite <-(sz_last _ _ Hok). unfold last_or_0.
  destruct sizes as [|y l]; [destruct before as [|b [|b' before]]; by simplify_eq/=|].
  apply (f_equal last) in Heq. rewrite last_snoc in Heq. change (last (y :: l) = Some x) in Heq. by rewrite Heq.
Qed.

(** Between two captured sizes the larger one is the next. *)
Lemma next_between before start e rest n : 0 :: sizes = before ++ start :: e :: rest -> start < n <= e ->
  next_size sizes n e.
Proof using Hok.
  intros Heq Hn. pose proof zero_sorted as Hs. unfold next_size. rewrite Heq in *.
  apply StronglySorted_app in Hs as (Hbefore & _ & Hrest). apply StronglySorted_inv in Hrest as [Hrest _].
  apply StronglySorted_inv in Hrest as [_ He]. rewrite Forall_forall in He.
  split; [apply elem_of_app; right; right; left|]. split; [lia|].
  intros s [Hin|[->|[->|Hin]%elem_of_cons]%elem_of_cons]%elem_of_app Hle; [|lia|done|].
  - specialize (Hbefore s start Hin ltac:(left)). lia.
  - specialize (He s Hin). lia.
Qed.

(** The table below [start] is right and the sizes from [start] on are [rest]. *)
Lemma fill_table rest : forall start table before,
  0 :: sizes = before ++ start :: rest -> zlen table = m + 1 ->
  (forall n, 0 <= n < start -> exists p, table !! Z.to_nat n = Some p /\ next_size sizes n p) ->
  exists table', for_each fill_range (zip (rest ++ [m + 1]) (start :: rest)) table = Ok table' /\ zlen table' = m + 1 /\
    forall n, 0 <= n <= m -> exists p, table' !! Z.to_nat n = Some p /\ next_size sizes n p.
Proof using Hok.
  induction rest as [|e rest IH]; intros start table before Heq Hl Hbelow.
  - cbn [app zip zip_with for_each fill_range]. assert (start = m) as -> by by eapply zero_sizes_last.
    assert (m ∈ 0 :: sizes) as Hin by (rewrite Heq; apply elem_of_app; right; left). pose proof (zero_sizes_le m Hin).
    destruct (fill_entries (fun bs => if bs =? m then m else m + 1) m (m + 1) table) as (t & Ht & Htl & Hte); [lia..|].
    rewrite Ht. cbn. exists t. split; [done|]. split; [lia|]. intros n Hn. rewrite Hte by lia.
    case_bool_decide; [|apply Hbelow; lia]. assert (n = m) as -> by lia. rewrite Z.eqb_refl. exists m. split; [done|].
    by apply next_size_self.
  - cbn [app]. change (zip (e :: rest ++ [m + 1]) (start :: e :: rest)) with
      ((e, start) :: zip (rest ++ [m + 1]) (e :: rest)). cbn [for_each fill_range].
    assert (start ∈ 0 :: sizes /\ e ∈ 0 :: sizes) as [Hstart He].
    { rewrite Heq. split; apply elem_of_app; right; [left|right; left]. }
    pose proof (zero_sizes_le _ Hstart). pose proof (zero_sizes_le _ He).
    destruct (fill_entries (fun bs => if bs =? start then start else e) start e table) as (t & Ht & Htl & Hte); [lia..|].
    rewrite Ht. cbn [mbind result_bind]. apply (IH e t (before ++ [start])); [by rewrite <-(assoc_L (++))|lia|].
    intros n Hn. rewrite Hte by lia. case_bool_decide; [|apply Hbelow; lia]. eexists. split; [done|].
    destruct (Z.eqb_spec n start) as [->|Hne]; [by apply next_size_self|].
    eapply next_between; [exact Heq|lia].
Qed.

Lemma padded_table_Ok : exists table, padded_table sizes m = Ok table /\ zlen table = m + 1 /\
  forall n, 0 <= n <= m -> exists p, table !! Z.to_nat n = Some p /\ next_size sizes n p.
Proof using Hok.
  pose proof (zero_sizes_le 0 ltac:(left)). unfold padded_table. apply (fill_table sizes 0 _ []); [done| |lia].
  rewrite length_replicate. lia.
Qed.
End Table.

(** * Descriptors *)

Definition keys_of (mode : CUDAGraphMode) (d : Dispatcher) : gset BatchDescriptor :=
  match mode with PIECEWISE => piecewise_keys d | FULL => full_keys d | _ => ∅ end.

(** A dispatcher whose table and counts have been set up for [sizes]. *)
Record dispatcher_ready (d : Dispatcher) (sizes : list Z) (m : Z) : Prop := {
  dr_max : max_cudagraph_capture_size (vllm_config d) = Some m;
  dr_ok : sizes_ok sizes m;
  dr_length : zlen (bs_to_padded_graph_size d) = m + 1;
  dr_table n : 0 <= n <= m -> exists p, bs_to_padded_graph_size d !! Z.to_nat n = Some p /\ next_size sizes n p;
  dr_query : 0 < uniform_decode_query_len d;
  dr_counts : ascending (captured_lora_counts d)
}.

(** [self.cudagraph_mode.has_mode(CUDAGraphMode.FULL)]. *)
Definition has_full (m : CUDAGraphMode) : bool := bool_decide (m = FULL) || separate_routine m.

Lemma has_mode_full m : has_mode m FULL = Ok (has_full m).
Proof. by destruct m. Qed.

(** The descriptors of uniform and of other batches. *)
Definition uniform_batch (d : Dispatcher) (p : Z) (lora : bool) (active : Z) : BatchDescriptor :=
  mkBatch p (Some (Z.min (p / uniform_decode_query_len d) (max_num_seqs (vllm_config d)))) true None false lora active.
Definition mixed_batch (d : Dispatcher) (p : Z) (lora : bool) (active : Z) : BatchDescriptor :=
  mkBatch p (Some (Z.min p (max_num_seqs (vllm_config d)))) false None false lora active.

Section Ready.
Context (d : Dispatcher) (sizes : list Z) (m : Z).
Hypothesis Hready : dispatcher_ready d sizes m.

Lemma create_padded_Ok n u lora active p : 0 <= n <= m -> next_size sizes n p ->
  create_padded_batch_descriptor n u lora active d =
    if u && has_full (cudagraph_mode d) then
      if p mod uniform_decode_query_len d =? 0 then Ok (uniform_batch d p lora active) else Raise AssertionError
    else Ok (mixed_batch d p lora active).
Proof using Hready.
  intros Hn Hp. unfold create_padded_batch_descriptor. destruct (dr_table _ _ _ Hready n Hn) as (p' & Hp' & Hnext).
  rewrite (next_size_unique _ _ _ _ Hp Hnext). rewrite (py_index_Ok _ n p') by (done || lia). cbn [mbind result_bind].
  pose proof (dr_query _ _ _ Hready). destruct u; cbn [andb]; [|done]. rewrite has_mode_full. cbn [mbind result_bind].
  destruct (has_full _); [|done]. destruct (Z.eqb_spec (uniform_decode_query_len d) 0); [lia|].
  by destruct (p' mod uniform_decode_query_len d =? 0).
Qed.

(** The LoRA count of the graph covers that of the batch. *)
Lemma effective_loras_cover lora active n : effective_num_active_loras lora active d = Ok n ->
  (forall l, lora_config (vllm_config d) = Some l -> active <= max_loras l + 1) -> active <= n.
Proof using Hready.
  intros He Hl. unfold effective_num_active_loras in He. destruct (lora && (0 <? active)); [|injection He as <-; lia].
  destruct (specialize_lora_count d).
  - destruct (bisect_left_Ok (captured_lora_counts d) active (dr_counts _ _ _ Hready)) as (i & Hi & Hlen & Hs).
    rewrite Hi in He. cbn [mbind result_bind] in He. destruct (Z.ltb_spec (Z.of_nat i) (zlen (captured_lora_counts d))).
    + destruct (lookup_lt_is_Some_2 (captured_lora_counts d) i) as [x Hx]; [lia|].
      rewrite (py_index_Ok _ _ x) in He; [|lia|by rewrite Nat2Z.id]. injection He as <-. specialize (Hs i x Hx). lia.
    + injection He as <-. lia.
  - destruct (lora_config (vllm_config d)) as [l|]; [|done]. cbn in He. injection He as <-. by apply Hl.
Qed.

(** The requests of a batch fit the graph it is padded to. *)
Lemma uniform_batch_fits p lora active r : r <= max_num_seqs (vllm_config d) -> r * uniform_decode_query_len d <= p ->
  exists n, num_reqs (uniform_batch d p lora active) = Some n /\ r <= n.
Proof using Hready.
  intros Hr Hp. eexists. split; [done|]. pose proof (dr_query _ _ _ Hready).
  assert (r <= p / uniform_decode_query_len d); [by apply le_div_iff|]. lia.
Qed.
End Ready.

(** What a graph for a batch must provide. *)
Record graph_serves (d : Dispatcher) (sizes : list Z) (q : Batch) (b : BatchDescriptor) : Prop := {
  gs_tokens : next_size sizes (q_tokens q) (num_tokens b);
  gs_lora : has_lora b = q_has_lora q /\ q_active_loras q <= num_active_loras b;
  gs_uniform : uniform b = true -> q_uniform_decode q = true;
  gs_reqs r n : r <= max_num_seqs (vllm_config d) ->
    r * (if uniform b then uniform_decode_query_len d else 1) <= q_tokens q -> num_reqs b = Some n -> r <= n
}.

Lemma graph_serves_relax d sizes q b : graph_serves d sizes q b -> graph_serves d sizes q (relax_reqs b).
Proof. intros []. by split. Qed.

Lemma graph_serves_variant d sizes q b len shared : graph_serves d sizes q b ->
  graph_serves d sizes q (replace_variant len shared b).
Proof. intros []. by split. Qed.

Lemma created_serves d sizes m q n b : dispatcher_ready d sizes m -> 0 <= q_tokens q <= m -> q_active_loras q <= n ->
  create_padded_batch_descriptor (q_tokens q) (q_uniform_decode q && separate_routine (cudagraph_mode d)) (q_has_lora q) n d
    = Ok b -> graph_serves d sizes q b.
Proof.
  intros Hr Hq Hn Hb. destruct (dr_table _ _ _ Hr _ Hq) as (p & _ & Hp). pose proof (proj1 (proj2 Hp)).
  rewrite (create_padded_Ok d sizes m Hr _ _ _ _ p Hq Hp) in Hb. destruct (_ && has_full _) eqn:Hu.
  - destruct (_ =? 0); [|done]. injection Hb as <-. split; try done.
    + intros _. by apply andb_true_iff in Hu as [[? _]%andb_true_iff _].
    + intros r k Hrs Hrq Hk. cbn in Hrq.
      destruct (uniform_batch_fits d sizes m Hr p (q_has_lora q) n r) as (k' & Hk' & Hle); [done|lia|].
      rewrite Hk in Hk'. by simplify_eq.
  - injection Hb as <-. split; try done. intros r k Hrs Hrq [= <-]. cbn in Hrq. lia.
Qed.

(** * Dispatching *)

(** What [dispatch] returns when it does not raise: an eager batch, or a graph. *)
Lemma dispatch_Ok_inv d sizes m q valid invalid mode b : dispatcher_ready d sizes m -> 0 <= q_tokens q ->
  (forall l, lora_config (vllm_config d) = Some l -> q_active_loras q <= max_loras l + 1) ->
  dispatch q valid invalid d = Ok (mode, b) ->
  mode = NONE /\ b = plain_batch (q_tokens q) \/
  (mode = PIECEWISE \/ mode = FULL) /\ mode ∈ allowed_modes valid invalid /\ b ∈ keys_of mode d /\
    graph_serves d sizes q b /\
    (if decide (mode = FULL) then max_seq_len b = q_max_seq_len q /\ tq_spec_decode_shared b = q_shared q
     else num_reqs b = None /\ max_seq_len b = None /\ tq_spec_decode_shared b = false).
Proof.
  intros Hr Hq Hl Hd. unfold dispatch in Hd. apply bind_Ok_inv in Hd as (_ & _ & Hd).
  rewrite (dr_max _ _ _ Hr) in Hd. destruct (_ || bool_decide (allowed_modes _ _ ⊆ _)) eqn:Heager.
  { left. by injection Hd as <- <-. }
  apply orb_false_iff in Heager as [[[_ _]%orb_false_iff Hm]%orb_false_iff _]. apply Z.ltb_ge in Hm.
  apply bind_Ok_inv in Hd as (n & Hn & Hd). apply bind_Ok_inv in Hd as (b0 & Hb & Hd).
  assert (graph_serves d sizes q b0) as Hs.
  { eapply created_serves; [exact Hr|lia|by eapply effective_loras_cover|exact Hb]. }
  destruct (bool_decide (FULL ∈ _) && _) eqn:Hf.
  { injection Hd as <- <-. right. apply andb_true_iff in Hf as [Ha%bool_decide_eq_true Hk%bool_decide_eq_true].
    split; [by right|]. split; [done|]. split; [done|]. split; [by apply graph_serves_variant|done]. }
  destruct (bool_decide (PIECEWISE ∈ _) && _) eqn:Hp.
  { injection Hd as <- <-. right. apply andb_true_iff in Hp as [Ha%bool_decide_eq_true Hk%bool_decide_eq_true].
    split; [by left|]. split; [done|]. split; [done|]. split; [by apply graph_serves_relax, graph_serves_variant|done]. }
  apply bind_Ok_inv in Hd as (_ & _ & Hd). left. by injection Hd as <- <-.
Qed.

(** Only its own assertions can fail: no mode is allowed, none of the allowed ones
    fits, or a uniform batch pads to no multiple of the query length. *)
Lemma dispatch_Raise_inv d sizes m q valid invalid e : dispatcher_ready d sizes m -> 0 <= q_tokens q ->
  dispatch q valid invalid d = Raise e -> e = AssertionError.
Proof.
  intros Hr Hq Hd. unfold dispatch in Hd.
  destruct (negb (bool_decide (allowed_modes valid invalid = ∅))); [|by injection Hd as <-].
  cbn [assert_ mbind result_bind] in Hd. rewrite (dr_max _ _ _ Hr) in Hd.
  destruct (_ || bool_decide (allowed_modes _ _ ⊆ _)) eqn:Heager; [done|].
  apply orb_false_iff in Heager as [[[_ _]%orb_false_iff Hm]%orb_false_iff _]. apply Z.ltb_ge in Hm.
  destruct (effective_num_active_loras _ _ d) as [n|e'] eqn:Hn; cbn [mbind result_bind] in Hd.
  - destruct (dr_table _ _ _ Hr (q_tokens q)) as (p & _ & Hp); [lia|].
    rewrite (create_padded_Ok d sizes m Hr _ _ _ _ p) in Hd by (done || lia).
    destruct (_ && has_full _); [destruct (_ =? 0)|]; cbn [mbind result_bind] in Hd; [|by injection Hd as <-|].
    all: destruct (_ && _); [done|]; destruct (_ && _); [done|].
    all: destruct (bool_decide (NONE ∈ _)); [done|by injection Hd as <-].
  - injection Hd as <-. unfold effective_num_active_loras in Hn. destruct (_ && _); [|done].
    destruct (specialize_lora_count d).
    + destruct (bisect_left_Ok (captured_lora_counts d) (q_active_loras q) (dr_counts _ _ _ Hr)) as (i & Hi & Hlen & _).
      rewrite Hi in Hn. cbn [mbind result_bind] in Hn. destruct (Z.ltb_spec (Z.of_nat i) (zlen (captured_lora_counts d))); [|done].
      destruct (py_index_is_Ok (captured_lora_counts d) (Z.of_nat i)) as (x & _ & Hx); [lia|]. by rewrite Hx in Hn.
    + destruct (lora_config (vllm_config d)); [done|]. by injection Hn as <-.
Qed.

(** * Initialization *)

Section Loop.
Variables (mode : CUDAGraphMode) (key : Z * Z -> BatchDescriptor) (body : Z * Z -> Dispatcher -> result Dispatcher).
Variable d : Dispatcher.
Hypothesis Hmode : mode = PIECEWISE \/ mode = FULL.

(** Only the keys differ, and none is gone. *)
Definition more_keys (d' : Dispatcher) : Prop :=
  d' = with_keys (piecewise_keys d') (full_keys d') d /\ piecewise_keys d ⊆ piecewise_keys d' /\ full_keys d ⊆ full_keys d'.

Lemma more_keys_refl : more_keys d.
Proof using Type. split; [by destruct d|done]. Qed.

Lemma more_keys_trans d1 d2 : more_keys d1 -> (d2 = with_keys (piecewise_keys d2) (full_keys d2) d1 /\
  piecewise_keys d1 ⊆ piecewise_keys d2 /\ full_keys d1 ⊆ full_keys d2) -> more_keys d2.
Proof using Type. intros (He1 & Hp1 & Hf1) (He2 & Hp2 & Hf2). split; [rewrite He2, He1; done|]. split; by etrans. Qed.

Lemma add_key_Ok b d' : more_keys d' -> exists d'', add_cudagraph_key mode b d' = Ok d'' /\ more_keys d'' /\
  b ∈ keys_of mode d'' /\ forall k, k ∈ keys_of mode d' -> k ∈ keys_of mode d''.
Proof using Hmode.
  intros (He & Hp & Hf). destruct d' as [c q pk fk i mo t n]. unfold with_keys in He. cbn in He, Hp, Hf.
  injection He as -> -> -> -> -> ->. destruct Hmode as [-> | ->]; cbn; eexists; (split; [done|]); cbn.
  - split; [split; [done|cbn; set_solver]|set_solver].
  - split; [split; [done|cbn; set_solver]|set_solver].
Qed.

Lemma add_keys_loop es d0 : more_keys d0 ->
  (forall e d', e ∈ es -> more_keys d' -> body e d' = add_cudagraph_key mode (key e) d') ->
  exists d', for_each body es d0 = Ok d' /\ more_keys d' /\ (forall e, e ∈ es -> key e ∈ keys_of mode d') /\
    forall k, k ∈ keys_of mode d0 -> k ∈ keys_of mode d'.
Proof using Hmode.
  revert d0. induction es as [|e es IH]; intros d0 Hd0 Hbody.
  { exists d0. split; [done|]. split; [done|]. split; [by intros ? ?%not_elem_of_nil|done]. }
  cbn [for_each]. rewrite Hbody by (done || left). destruct (add_key_Ok (key e) d0 Hd0) as (d1 & -> & Hd1 & Hin & Hk).
  cbn [mbind result_bind]. destruct (IH d1 Hd1 ltac:(intros; apply Hbody; [by right|done])) as (d' & Hd' & Hm & Hks & Hkeep).
  exists d'. split; [done|]. split; [done|]. split; [|by auto].
  intros x [->|Hx]%elem_of_cons; [by apply Hkeep|by apply Hks].
Qed.
End Loop.

(** ** LoRA cases *)

Lemma sorted_ascending l : StronglySorted Z.lt l -> ascending l.
Proof.
  intros Hs i j a b Hij Ha Hb. destruct (decide (i = j)) as [->|Hne]; [simplify_eq; done|].
  rewrite <-(take_drop_middle _ _ _ Ha) in Hs, Hb. apply StronglySorted_app in Hs as (_ & _ & Hs).
  apply StronglySorted_inv in Hs as [_ Hs]. rewrite Forall_forall in Hs.
  rewrite lookup_app_r in Hb by (rewrite length_take; lia). pose proof (lookup_lt_Some _ _ _ Ha).
  rewrite length_take, Nat.min_l in Hb by lia. destruct (j - i)%nat as [|k] eqn:Hk; [lia|]. cbn in Hb.
  apply list_elem_of_lookup_2, Hs in Hb. lia.
Qed.

(** There is room for a LoRA when there is a LoRA configuration. *)
Definition lora_ok (c : DispatchConfig) : Prop := forall l, lora_config c = Some l -> 0 < max_loras l.

Lemma captured_counts_spec n specialize : 0 < n ->
  StronglySorted Z.lt (get_captured_lora_counts n specialize) /\ (n + 1) ∈ get_captured_lora_counts n specialize /\
  forall x, x ∈ get_captured_lora_counts n specialize -> 0 < x.
Proof.
  intros Hn. unfold get_captured_lora_counts. destruct specialize; cbn [negb].
  - split; [apply sorted_filter, py_range_sorted|]. split.
    + apply list_elem_of_filter. split; [by right|]. apply elem_of_py_range. lia.
    + intros x [_ Hx]%list_elem_of_filter. apply elem_of_py_range in Hx. lia.
  - split; [repeat constructor|]. split; [left|]. intros x ->%list_elem_of_singleton. lia.
Qed.

Lemma lora_cases_sorted d : lora_ok (vllm_config d) -> StronglySorted Z.lt (get_lora_cases d).
Proof.
  intros Hl. unfold get_lora_cases. destruct (lora_config _) as [l|] eqn:Hc; [|repeat constructor].
  specialize (Hl l Hc). destruct (cudagraph_specialize_lora _); [|repeat constructor].
  destruct (captured_counts_spec (max_loras l) (specialize_lora_count d) Hl) as (Hs & _ & Hp). constructor; [done|].
  by apply Forall_forall.
Qed.

(** A batch whose LoRAs have a graph: none without a configuration; with one, its
    adapters, and no adapters only where the case is captured of its own. *)
Definition lora_covered (c : DispatchConfig) (q : Batch) : Prop :=
  0 <= q_active_loras q /\ q_has_lora q = (0 <? q_active_loras q) /\
  match lora_config c with
  | None => q_active_loras q = 0
  | Some l => q_active_loras q <= max_loras l + 1 /\ (cudagraph_specialize_lora c = false -> 0 < q_active_loras q)
  end.

Lemma effective_loras_captured d q : lora_ok (vllm_config d) -> lora_covered (vllm_config d) q ->
  captured_lora_counts d = filter (fun n => n <> 0) (get_lora_cases d) ->
  exists n, effective_num_active_loras (q_has_lora q) (q_active_loras q) d = Ok n /\ n ∈ get_lora_cases d /\
    q_has_lora q = (0 <? n).
Proof.
  intros Hl (H0 & Hlora & Hc) Hcounts. unfold effective_num_active_loras. rewrite Hlora, andb_diag.
  pose proof (lora_cases_sorted d Hl) as Hsorted.
  assert (ascending (captured_lora_counts d)) as Hasc by (rewrite Hcounts; by apply sorted_ascending, sorted_filter).
  unfold get_lora_cases in *. destruct (lora_config (vllm_config d)) as [l|] eqn:Hlc.
  2:{ rewrite Hc. exists 0. split; [done|]. split; [left|done]. }
  specialize (Hl l Hlc). destruct Hc as [Hle Hspec].
  destruct (captured_counts_spec (max_loras l) (specialize_lora_count d) Hl) as (_ & Htop & Hpos).
  destruct (Z.ltb_spec 0 (q_active_loras q)) as [Hact|Hact].
  2:{ exists (q_active_loras q). assert (q_active_loras q = 0) as -> by lia. split; [done|].
      destruct (cudagraph_specialize_lora _); [split; [left|done]|lia]. }
  assert (forall x, x ∈ captured_lora_counts d -> x ∈ (if cudagraph_specialize_lora (vllm_config d)
    then 0 :: get_captured_lora_counts (max_loras l) (specialize_lora_count d) else [max_loras l + 1]) /\ 0 < x) as Hin.
  { intros x. rewrite Hcounts, list_elem_of_filter. intros [Hx Hin]. split; [done|].
    destruct (cudagraph_specialize_lora _); [|apply list_elem_of_singleton in Hin; lia].
    apply elem_of_cons in Hin as [->|Hin]; [done|by apply Hpos]. }
  assert (max_loras l + 1 ∈ captured_lora_counts d) as Hmax.
  { rewrite Hcounts, list_elem_of_filter. split; [lia|]. destruct (cudagraph_specialize_lora _); [by right|left]. }
  destruct (specialize_lora_count d).
  - destruct (bisect_left_Ok (captured_lora_counts d) (q_active_loras q) Hasc) as (i & Hi & Hlen & Hs). rewrite Hi.
    cbn [mbind result_bind]. apply list_elem_of_lookup in Hmax as [j Hj]. pose proof (lookup_lt_Some _ _ _ Hj).
    assert (i <= j)%nat by (apply Nat.nlt_ge; intros Hlt; apply (Hs j _ Hj) in Hlt; lia).
    destruct (Z.ltb_spec (Z.of_nat i) (zlen (captured_lora_counts d))); [|lia].
    destruct (lookup_lt_is_Some_2 (captured_lora_counts d) i) as [x Hx]; [lia|].
    rewrite (py_index_Ok _ (Z.of_nat i) x) by (rewrite ?Nat2Z.id; done || lia). exists x. split; [done|].
    destruct (Hin x) as [? ?]; [by eapply list_elem_of_lookup_2|]. split; [done|]. symmetry. by apply Z.ltb_lt.
  - cbn [or_raise mbind result_bind]. exists (max_loras l + 1). split; [done|]. split; [by apply Hin|].
    symmetry. apply Z.ltb_lt. lia.
Qed.

(** ** [initialize_cudagraph_keys] *)

(** A configuration whose sizes are in order, with compile sizes that padding does
    not change and, where decode batches get graphs of their own, sizes that are
    multiples of the decode query length. *)
Record dispatch_config_ok (c : DispatchConfig) (mode : CUDAGraphMode) (query_len : Z) (sizes : list Z) (m : Z) : Prop := {
  dc_max : max_cudagraph_capture_size c = Some m;
  dc_sizes : cudagraph_capture_sizes c = Some sizes;
  dc_ok : sizes_ok sizes m;
  dc_compile : Forall (fun s => 0 <= s /\ (s <= m -> s ∈ 0 :: sizes)) (compile_sizes c);
  dc_loras : lora_ok c;
  dc_query : 0 < query_len;
  dc_multiples : separate_routine mode = true -> Forall (fun s => (query_len | s)) sizes
}.

(** The keys of mixed and of uniform decode batches. *)
Definition mixed_key (mode : CUDAGraphMode) (d : Dispatcher) (e : Z * Z) : BatchDescriptor :=
  let b := mixed_batch d e.1 (0 <? e.2) e.2 in if bool_decide (mode = PIECEWISE) then relax_reqs b else b.
Definition decode_key (d : Dispatcher) (e : Z * Z) : BatchDescriptor := uniform_batch d e.1 (0 <? e.2) e.2.

Section Initialize.
Context (d : Dispatcher) (mode : CUDAGraphMode) (sizes : list Z) (m : Z).
Let c := vllm_config d.
Hypothesis Hc : dispatch_config_ok c mode (uniform_decode_query_len d) sizes m.
Hypothesis Hmode : mode <> NONE.

Lemma compute_table_Ok : exists table, compute_bs_to_padded_graph_size c mode = Ok table /\ zlen table = m + 1 /\
  forall n, 0 <= n <= m -> exists p, table !! Z.to_nat n = Some p /\ next_size sizes n p.
Proof using Hc Hmode.
  destruct Hc. destruct (padded_table_Ok sizes m dc_ok0) as (table & Ht & Hl & Hn). exists table. split; [|done].
  unfold compute_bs_to_padded_graph_size. rewrite dc_max0, dc_sizes0. cbn [or_raise mbind result_bind]. rewrite Ht.
  cbn [mbind result_bind]. rewrite bool_decide_false by done. cbn [negb].
  assert (for_each (check_compile_size table m) (compile_sizes c) tt = Ok tt) as ->; [|done]. clear Ht.
  induction dc_compile0 as [|s ss [H0 Hs] Hss IH]; [done|]. cbn [for_each].
  assert (check_compile_size table m s tt = Ok tt) as ->; [|exact IH]. unfold check_compile_size.
  destruct (Z.leb_spec s m) as [Hle|]; [|done]. destruct (Hn s ltac:(lia)) as (p & Hp & Hnext).
  rewrite (py_index_Ok _ s p) by (done || lia). cbn [mbind result_bind].
  by rewrite (next_size_unique _ _ _ _ Hnext (next_size_self sizes s (Hs Hle))), Z.eqb_refl.
Qed.

(** With the table in place, the body of each loop adds the key of its case. *)
Definition set_up (table : list Z) : Dispatcher := with_setup mode table (filter (fun n => n <> 0) (get_lora_cases d)) d.

Lemma set_up_ready table : zlen table = m + 1 ->
  (forall n, 0 <= n <= m -> exists p, table !! Z.to_nat n = Some p /\ next_size sizes n p) ->
  dispatcher_ready (set_up table) sizes m.
Proof using Hc.
  intros Hl Hn. destruct Hc. split; try done. apply sorted_ascending, sorted_filter, lora_cases_sorted, dc_loras0.
Qed.

Lemma ready_more_keys d1 d2 : more_keys d1 d2 -> dispatcher_ready d1 sizes m -> dispatcher_ready d2 sizes m.
Proof using Type. intros (-> & _) []. by split. Qed.

Lemma add_mixed_key_Ok table e d' : dispatcher_ready (set_up table) sizes m -> more_keys (set_up table) d' ->
  e.1 ∈ sizes -> add_mixed_key (mixed_mode mode) e d' = add_cudagraph_key (mixed_mode mode) (mixed_key (mixed_mode mode) d e) d'.
Proof using Hc.
  intros Hr Hd' Hin. pose proof (ready_more_keys _ _ Hd' Hr) as Hr'. destruct e as [bs active]. unfold add_mixed_key.
  pose proof (sizes_ok_le _ _ _ (dc_ok _ _ _ _ _ Hc) Hin). cbn in Hin.
  rewrite (create_padded_Ok d' sizes m Hr' _ _ _ _ bs); [|cbn in *; lia|apply next_size_self; by right].
  cbn [andb mbind result_bind]. destruct Hd' as (-> & _). done.
Qed.

Lemma add_decode_key_Ok table e d' : separate_routine mode = true -> dispatcher_ready (set_up table) sizes m ->
  more_keys (set_up table) d' -> e.1 ∈ sizes -> add_decode_key e d' = add_cudagraph_key FULL (decode_key d e) d'.
Proof using Hc.
  intros Hsep Hr Hd' Hin. pose proof (ready_more_keys _ _ Hd' Hr) as Hr'. destruct e as [bs active]. unfold add_decode_key.
  pose proof (sizes_ok_le _ _ _ (dc_ok _ _ _ _ _ Hc) Hin). cbn in Hin.
  pose proof (dc_multiples _ _ _ _ _ Hc Hsep) as Hdiv. rewrite Forall_forall in Hdiv. specialize (Hdiv bs Hin).
  rewrite (create_padded_Ok d' sizes m Hr' _ _ _ _ bs); [|cbn in *; lia|apply next_size_self; by right].
  assert (cudagraph_mode d' = mode /\ uniform_decode_query_len d' = uniform_decode_query_len d) as [-> ->].
  { destruct Hd' as (-> & _). done. }
  unfold has_full. rewrite Hsep, orb_true_r. cbn [andb].
  apply Z.mod_divide in Hdiv; [|pose proof (dc_query _ _ _ _ _ Hc); lia]. rewrite Hdiv. cbn [mbind result_bind Z.eqb].
  destruct Hd' as (-> & _). done.
Qed.

Lemma initialize_Ok : exists d', initialize_cudagraph_keys mode (uniform_decode_query_len d) d = Ok d' /\
  dispatcher_ready d' sizes m /\ keys_initialized d' = true /\ cudagraph_mode d' = mode /\ vllm_config d' = c /\
  uniform_decode_query_len d' = uniform_decode_query_len d /\
  captured_lora_counts d' = filter (fun n => n <> 0) (get_lora_cases d) /\
  (mixed_mode mode <> NONE -> forall bs l, bs ∈ sizes -> l ∈ get_lora_cases d ->
     mixed_key (mixed_mode mode) d (bs, l) ∈ keys_of (mixed_mode mode) d') /\
  (separate_routine mode = true -> forall bs l, bs ∈ sizes -> l ∈ get_lora_cases d ->
     uniform_decode_query_len d <= bs <= uniform_decode_query_len d * max_num_seqs c -> decode_key d (bs, l) ∈ full_keys d').
Proof using Hc Hmode.
  destruct compute_table_Ok as (table & Ht & Hl & Hn). pose proof (set_up_ready table Hl Hn) as Hr.
  unfold initialize_cudagraph_keys. rewrite bool_decide_false by done. fold c. rewrite Ht. cbn [mbind result_bind].
  rewrite (dc_sizes _ _ _ _ _ Hc). cbn [or_raise mbind result_bind]. fold (set_up table).
  assert (exists d1, (if bool_decide (mixed_mode mode = NONE) then Ok (set_up table)
      else for_each (add_mixed_key (mixed_mode mode)) (list_prod sizes (get_lora_cases d)) (set_up table)) = Ok d1 /\
    more_keys (set_up table) d1 /\ (mixed_mode mode <> NONE -> forall bs l, bs ∈ sizes -> l ∈ get_lora_cases d ->
     mixed_key (mixed_mode mode) d (bs, l) ∈ keys_of (mixed_mode mode) d1)) as (d1 & Hd1 & Hm1 & Hk1).
  { case_bool_decide as Hnone; [exists (set_up table); split; [done|split; [apply more_keys_refl|done]]|].
    destruct (add_keys_loop (mixed_mode mode) (mixed_key (mixed_mode mode) d) (add_mixed_key (mixed_mode mode)) (set_up table))
      with (es := list_prod sizes (get_lora_cases d)) (d0 := set_up table) as (d1 & Hd1 & Hm1 & Hk1 & _).
    - destruct mode; cbn in Hnone |- *; tauto.
    - apply more_keys_refl.
    - intros [bs l] d' Hin Hd'. apply (add_mixed_key_Ok table); [done|done|].
      by apply list_elem_of_In, in_prod_iff in Hin as [?%list_elem_of_In _].
    - exists d1. split; [done|]. split; [done|]. intros _ bs l Hbs Hlc. apply Hk1.
      apply list_elem_of_In, in_prod_iff. by rewrite <-!list_elem_of_In. }
  rewrite Hd1. cbn [mbind result_bind].
  assert (bool_decide (decode_mode mode = FULL) && separate_routine mode = separate_routine mode) as ->.
  { by destruct mode. }
  destruct (separate_routine mode) eqn:Hsep.
  2:{ exists (initialized d1). split; [done|]. pose proof (ready_more_keys _ _ Hm1 Hr) as Hr1. destruct Hm1 as (He & _).
      split; [by destruct Hr1|]. split; [done|]. rewrite He. do 4 (split; [done|]). split; [|done]. by rewrite He in Hk1. }
  set (es := list_prod (filter _ sizes) (get_lora_cases d)).
  destruct (add_keys_loop FULL (decode_key d) add_decode_key d1) with (es := es) (d0 := d1)
    as (d2 & Hd2 & Hm2 & Hk2 & _); [by right|apply more_keys_refl| |].
  { intros [bs l] d' Hin Hd'. apply (add_decode_key_Ok table); [done..|by eapply more_keys_trans|].
    apply list_elem_of_In, in_prod_iff in Hin as [Hin _]. apply list_elem_of_In, list_elem_of_filter in Hin. apply Hin. }
  rewrite Hd2. exists (initialized d2). split; [done|]. pose proof (more_keys_trans _ _ _ Hm1 Hm2) as Hm.
  pose proof (ready_more_keys _ _ Hm Hr) as Hr2. split; [by destruct Hr2|].
  assert (d2 = with_keys (piecewise_keys d2) (full_keys d2) (set_up table)) as He by apply Hm.
  split; [done|]. split; [by rewrite He|]. split; [by rewrite He|]. split; [by rewrite He|]. split; [by rewrite He|]. split.
  - intros Hnone bs l Hbs Hlc. specialize (Hk1 Hnone bs l Hbs Hlc). destruct Hm2 as (_ & Hp & Hf).
    destruct mode; cbn in Hk1 |- *; set_solver.
  - intros _ bs l Hbs Hlc Hb. change (full_keys (initialized d2)) with (keys_of FULL d2). apply Hk2.
    apply list_elem_of_In, in_prod_iff. rewrite <-!list_elem_of_In. split; [|done]. apply list_elem_of_filter. split; [lia|done].
Qed.
End Initialize.

(** * Every batch finds its graph *)

Lemma default_modes : bool_decide (allowed_modes None None = ∅) = false /\
  bool_decide (allowed_modes None None ⊆ {[NONE]}) = false /\ bool_decide (FULL ∈ allowed_modes None None) = true /\
  bool_decide (PIECEWISE ∈ allowed_modes None None) = true /\ bool_decide (NONE ∈ allowed_modes None None) = true.
Proof. by vm_compute. Qed.

(** A batch without the variants of specialized graphs. *)
Definition plain_query (q : Batch) : Prop := q_max_seq_len q = None /\ q_shared q = false.

Section Finds.
Context (d : Dispatcher) (mode : CUDAGraphMode) (sizes : list Z) (m : Z).
Let c := vllm_config d.
Hypothesis Hready : dispatcher_ready d sizes m.
Hypothesis Hinit : keys_initialized d = true /\ cudagraph_mode d = mode /\ mode <> NONE.
Hypothesis Hmultiples : separate_routine mode = true -> Forall (fun s => (uniform_decode_query_len d | s)) sizes.
Variable q : Batch.
Hypothesis Hq : 1 <= q_tokens q <= m.
Variables n p : Z.
Hypothesis Hn : effective_num_active_loras (q_has_lora q) (q_active_loras q) d = Ok n /\ q_has_lora q = (0 <? n).
Hypothesis Hp : next_size sizes (q_tokens q) p.
Hypothesis Hplain : plain_query q.

(** The descriptor that is looked up. *)
Definition looked_up : BatchDescriptor :=
  if q_uniform_decode q && separate_routine mode then decode_key d (p, n) else mixed_batch d p (0 <? n) n.

Lemma padded_captured : p ∈ sizes.
Proof using Hp Hq. destruct Hp as ([->|Hin]%elem_of_cons & Hle & _); [lia|done]. Qed.

Lemma dispatch_looks_up : dispatch q None None d =
  if bool_decide (looked_up ∈ full_keys d) then Ok (FULL, looked_up)
  else if bool_decide (relax_reqs looked_up ∈ piecewise_keys d) then Ok (PIECEWISE, relax_reqs looked_up)
  else Ok (NONE, plain_batch (q_tokens q)).
Proof using Hready Hinit Hmultiples Hq Hn Hp Hplain.
  unfold dispatch. destruct default_modes as (-> & -> & -> & -> & ->). destruct Hinit as (-> & -> & Hmode).
  rewrite (dr_max _ _ _ Hready), bool_decide_false by done. destruct (Z.ltb_spec m (q_tokens q)); [lia|].
  cbn [negb orb assert_ mbind result_bind andb]. destruct Hn as [-> ->]. cbn [mbind result_bind].
  assert (create_padded_batch_descriptor (q_tokens q) (q_uniform_decode q && separate_routine mode) (0 <? n) n d
    = Ok looked_up) as ->.
  { rewrite (create_padded_Ok d sizes m Hready _ _ _ _ p) by (done || lia). unfold looked_up, has_full.
    destruct Hinit as (_ & -> & _). destruct (q_uniform_decode q); cbn [andb]; [|done].
    destruct (separate_routine mode) eqn:Hsep; cbn [andb]; [|done]. rewrite orb_true_r.
    specialize (Hmultiples eq_refl). rewrite Forall_forall in Hmultiples. specialize (Hmultiples p padded_captured).
    apply Z.mod_divide in Hmultiples; [|pose proof (dr_query _ _ _ Hready); lia]. by rewrite Hmultiples. }
  cbn [mbind result_bind]. destruct Hplain as [-> ->].
  assert (replace_variant None false looked_up = looked_up) as ->; [|done].
  unfold looked_up. by destruct (_ && _).
Qed.

Lemma looked_up_serves : looked_up ∈ full_keys d \/ relax_reqs looked_up ∈ piecewise_keys d ->
  q_active_loras q <= n ->
  exists mode' b, dispatch q None None d = Ok (mode', b) /\ mode' <> NONE /\ graph_serves d sizes q b.
Proof using Hready Hinit Hmultiples Hq Hn Hp Hplain.
  intros Hin Hact. rewrite dispatch_looks_up.
  assert (graph_serves d sizes q looked_up) as Hs.
  { destruct (dr_table _ _ _ Hready (q_tokens q)) as (p' & _ & _); [lia|]. destruct Hn as [_ Hl].
    pose proof (proj1 (proj2 Hp)) as Hle. unfold looked_up. destruct (_ && _) eqn:Hu; split; try done.
    - intros _. by apply andb_true_iff in Hu as [? _].
    - intros r k Hr Hrq Hk. cbn in Hrq. unfold decode_key in Hk. cbn [fst snd] in Hk.
      destruct (uniform_batch_fits d sizes m Hready p (0 <? n) n r) as (k' & Hk' & ?); [done|lia|].
      rewrite Hk in Hk'. by simplify_eq.
    - intros r k Hr Hrq [= <-]. cbn in Hrq. lia. }
  case_bool_decide as Hf; [by eexists _, _|]. destruct Hin as [|Hin]; [done|]. rewrite bool_decide_true by done.
  eexists _, _. split; [done|]. split; [done|]. by apply graph_serves_relax.
Qed.
End Finds.

(** C16: A graph that is chosen serves the batch: it was captured, its mode is allowed,
    it is the smallest captured size that holds the tokens, it has room for every
    request of the batch (for uniform decode batches only if the graph is uniform),
    it covers the active LoRAs, and it is of the variant asked for. Otherwise the
    batch runs eagerly with its own number of tokens. Only the dispatcher's own
    assertions can fail. *)
Theorem dispatch_serves_batch d sizes m q valid invalid : dispatcher_ready d sizes m -> 0 <= q_tokens q ->
  (forall l, lora_config (vllm_config d) = Some l -> q_active_loras q <= max_loras l + 1) ->
  match dispatch q valid invalid d with
  | Ok (NONE, b) => b = plain_batch (q_tokens q)
  | Ok (mode, b) =>
      (mode = PIECEWISE \/ mode = FULL) /\ mode ∈ allowed_modes valid invalid /\ b ∈ keys_of mode d /\
      graph_serves d sizes q b /\
      (if decide (mode = FULL) then max_seq_len b = q_max_seq_len q /\ tq_spec_decode_shared b = q_shared q
       else num_reqs b = None /\ max_seq_len b = None /\ tq_spec_decode_shared b = false)
  | Raise e => e = AssertionError
  end.
Proof.
  intros Hr Hq Hl. destruct (dispatch q valid invalid d) as [[mode b]|] eqn:Hd; [|by eapply dispatch_Raise_inv].
  destruct (dispatch_Ok_inv d sizes m q valid invalid mode b Hr Hq Hl Hd) as [[-> ->]|H]; [done|].
  destruct H as ([-> | ->] & H); cbn [decide]; by split; [auto|].
Qed.


(** * A concrete dispatcher *)

Definition demo_dispatch_config (specialize : bool) : DispatchConfig :=
  mkDispatchConfig (Some 12) (Some [3; 6; 9; 12]) [3; 12] specialize (Some (mkLoRAConfig 3 true)) 3 2.

Definition demo_dispatcher (specialize : bool) : result Dispatcher :=
  d ← dispatcher_init (demo_dispatch_config specialize) FULL_AND_PIECEWISE true false;
  initialize_cudagraph_keys FULL_AND_PIECEWISE 3 d.

Lemma demo_dispatch_config_ok specialize :
  dispatch_config_ok (demo_dispatch_config specialize) FULL_AND_PIECEWISE 3 [3; 6; 9; 12] 12.
Proof.
  split; try done.
  - split; [repeat constructor|repeat constructor|done].
  - repeat constructor; try lia; intros _; apply (bool_decide_unpack _); vm_compute; exact I.
  - intros l [= <-]. cbn. lia.
  - intros _. apply Forall_forall. intros s Hs. rewrite !elem_of_cons, elem_of_nil in Hs.
    assert (s = s / 3 * 3) as Heq by (destruct Hs as [->|[->|[->|[->|[]]]]]; done). by exists (s / 3).
Qed.


Lemma demo_ready specialize d : demo_dispatcher specialize = Ok d -> dispatcher_ready d [3; 6; 9; 12] 12 /\
  vllm_config d = demo_dispatch_config specialize.
Proof.
  intros Hd. destruct (initialize_Ok (mkDispatcher (demo_dispatch_config specialize) 3 ∅ ∅ false NONE [] [])
    FULL_AND_PIECEWISE [3; 6; 9; 12] 12) as (d' & Hd' & Hr & _ & _ & Hc & _); [apply demo_dispatch_config_ok|done|].
  unfold demo_dispatcher in Hd.
  change (initialize_cudagraph_keys FULL_AND_PIECEWISE 3 (mkDispatcher (demo_dispatch_config specialize) 3 ∅ ∅ false NONE [] [])
    = Ok d) in Hd. assert (Ok d = Ok d') as [= <-] by exact (eq_trans (eq_sym Hd) Hd'). by split.
Qed.

Lemma dispatch_serves_batch_witness : exists d b, demo_dispatcher true = Ok d /\
  dispatch (mkQuery 7 false true 3 None false) None (Some {[FULL]}) d = Ok (PIECEWISE, b) /\
  graph_serves d [3; 6; 9; 12] (mkQuery 7 false true 3 None false) b.
Proof.
  assert (exists d, demo_dispatcher true = Ok d /\ exists b,
    dispatch (mkQuery 7 false true 3 None false) None (Some {[FULL]}) d = Ok (PIECEWISE, b)) as (d & Hd & b & Hb).
  { assert ((d ← demo_dispatcher true; '(mode, b) ← dispatch (mkQuery 7 false true 3 None false) None (Some {[FULL]}) d;
      Ok mode) = Ok PIECEWISE) as He by by vm_compute.
    apply bind_Ok_inv in He as (d & Hd & He). apply bind_Ok_inv in He as ([mode b] & Hb & He). injection He as ->.
    by exists d; split; [|exists b]. }
  destruct (demo_ready true d Hd) as [Hr Hc]. exists d, b. split; [done|]. split; [done|].
  pose proof (dispatch_serves_batch d [3; 6; 9; 12] 12 (mkQuery 7 false true 3 None false) None (Some {[FULL]}) Hr) as H.
  rewrite Hb in H. apply H; [cbn; lia|]. rewrite Hc. intros l [= <-]. cbn. lia.
Defined.

(** With [cudagraph_specialize_lora] off, graphs are only captured with LoRA, to be
    used for all batches: the option's documentation says that the LoRA graph
    runs even when no adapter is active. But such a batch is looked up without
    LoRA, so that it finds no graph of any size and runs eagerly. *)
Theorem base_batch_finds_no_lora_graph : exists d, demo_dispatcher false = Ok d /\
  Forall (fun n => dispatch (mkQuery n false true 1 None false) None None d <> Ok (NONE, plain_batch n) /\
                   dispatch (mkQuery n false false 0 None false) None None d = Ok (NONE, plain_batch n))
    (py_range 1 13).
Proof.
  assert (is_ok (demo_dispatcher false) = true) as Hok by by vm_compute.
  destruct (demo_dispatcher false) as [d|] eqn:Hd; [|done]. exists d. split; [done|].
  apply (bool_decide_unpack _).
  assert (match demo_dispatcher false with Ok d => bool_decide (Forall (fun n =>
      dispatch (mkQuery n false true 1 None false) None None d <> Ok (NONE, plain_batch n) /\
      dispatch (mkQuery n false false 0 None false) None None d = Ok (NONE, plain_batch n)) (py_range 1 13))
    | Raise _ => false end = true) as H by by vm_compute.
  rewrite Hd in H. by rewrite H.
Qed.
