(* ===== verification/TurboGraph.v ===== *)
(** How the model runner asks for a CUDA graph when the KV cache is quantized with
    TurboQuant: the parts of [execute_model], [_prepare_inputs],
    [_can_use_tq_spec_decode_shared_graph], [_is_uniform_decode] and
    [_determine_batch_execution_and_padding] of
    src/upstream/vllm/v1/worker/gpu_model_runner.py that lead to the dispatcher,
    and the Python-side choices of src/upstream/vllm/v1/attention/backends/
    turboquant_attn.py that a graph freezes.

    A FULL graph is captured once per bucket of context lengths, because the kernel
    picks its tile and its grid by the longest context; and an eligible batch of
    speculative rows may run a graph that dequantizes each request's keys once for
    all its rows, which is exact only while its rows are split alike. Data and
    sequence parallelism and forced eager runs are left out. *)
From S2P Require Import Prelude Bisect CaptureSizes CudaGraph.
Open Scope Z_scope.

(** * Constants *)

Definition TURBOQUANT_DECODE_TILE_CONTEXT_THRESHOLD : Z := 8192.
Definition TURBOQUANT_HEAD_PARALLEL_CONTEXT_THRESHOLD : Z := 32768.
Definition TURBOQUANT_FULL_CUDAGRAPH_MAX_SEQ_LENS : list Z :=
  [TURBOQUANT_DECODE_TILE_CONTEXT_THRESHOLD - 1; TURBOQUANT_DECODE_TILE_CONTEXT_THRESHOLD;
   TURBOQUANT_HEAD_PARALLEL_CONTEXT_THRESHOLD].
Definition TURBOQUANT_SPEC_DECODE_NUM_SPLITS : Z := 32.
Definition TURBOQUANT_SPEC_NUM_KV_HEADS : Z := 4.
Definition TURBOQUANT_SPEC_SLOT_SIZE_BYTES : Z := 268.
Definition TURBOQUANT_SPEC_PAIR_MIN_KV_BYTES : Z := 90 * 1024 * 1024.

(** * What a graph freezes *)

(** [block_kv] and [use_head_parallel_stage1] of [_decode_attention], for [rows]
    query rows and the longest context [max_seq_len]. *)
Definition block_kv (max_seq_len : Z) : Z :=
  if max_seq_len <? TURBOQUANT_DECODE_TILE_CONTEXT_THRESHOLD then 4 else 2.
Definition use_head_parallel_stage1 (rows max_seq_len : Z) : bool :=
  (rows <=? 3) || (rows =? 4) && (TURBOQUANT_HEAD_PARALLEL_CONTEXT_THRESHOLD <=? max_seq_len).

(** * The runner *)

Record GraphRunner := mkGraphRunner {
  full_cudagraph_max_seq_len_buckets : option (list Z);
  decode_query_len : Z;                      (** [self.uniform_decode_query_len] *)
  num_spec_tokens : Z;
  optimistic_seq_lens_cpu : list Z;
  cudagraph_dispatcher : Dispatcher
}.

(** A step: per request of the batch the computed tokens, the scheduled ones and,
    if there are drafts, their numbers. *)
Record Step := mkStep {
  num_computed : list Z;
  num_scheduled : list Z;
  num_draft_tokens : option (list Z);        (** [spec_decode_metadata] *)
  active_loras : Z;
  disable_full : bool                        (** cascade attention or encoder output *)
}.

(** [_is_uniform_decode] without a forced answer. *)
Definition is_uniform_decode (max_scheduled query_len tokens reqs : Z) : bool :=
  (max_scheduled =? query_len) && (tokens =? max_scheduled * reqs).

(** The loop over [buckets[1:]]. *)
Fixpoint bucket_loop (bucket max_seq_len : Z) (buckets : list Z) : Z :=
  match buckets with
  | [] => bucket
  | b :: buckets' => if max_seq_len <? b then bucket else bucket_loop b max_seq_len buckets'
  end.

(** [xs.max()]. *)
Definition array_max (xs : list Z) : result Z :=
  match xs with [] => Raise ValueError | x :: xs' => Ok (fold_left Z.max xs' x) end.

(** [full_cudagraph_max_seq_len]. *)
Definition select_bucket (buckets : option (list Z)) (seq_lens : list Z) : result (option Z) :=
  match buckets with
  | None => Ok None
  | Some buckets =>
      max_seq_len ← array_max seq_lens;
      b ← py_index buckets 0;
      Ok (Some (bucket_loop b max_seq_len (tail buckets)))
  end.

(** [_prepare_inputs]: the optimistic lengths of this step. *)
Definition prepare_seq_lens (s : Step) (old : list Z) : list Z :=
  let new := zip_with Z.add (num_computed s) (num_scheduled s) in
  new ++ replicate (length old - length new) 0.

(** The lengths after up to [num_spec] tokens fewer keep one split length each. *)
Definition one_split_length (num_spec upper_bound : Z) : bool :=
  forallb (fun correction =>
    let actual_end := upper_bound - correction in
    let first_row := actual_end - num_spec in
    cdiv first_row TURBOQUANT_SPEC_DECODE_NUM_SPLITS =? cdiv actual_end TURBOQUANT_SPEC_DECODE_NUM_SPLITS)
    (py_range 0 (num_spec + 1)).

(** [sum] over the lengths of the unique tokens of each request. *)
Definition min_unique_tokens (num_spec : Z) (upper_bounds : list Z) : Z :=
  foldr (fun v acc => Z.max (v - num_spec) 0 + acc) 0 upper_bounds.

(** [_can_use_tq_spec_decode_shared_graph]. *)
Definition can_use_tq_spec_decode_shared_graph (r : GraphRunner) (reqs tokens : Z) (s : Step) : bool :=
  let query_len := decode_query_len r in
  let k := num_spec_tokens r in
  if bool_decide (full_cudagraph_max_seq_len_buckets r = None) || negb (query_len =? 4) || negb (k =? 3)
     || negb (bool_decide (reqs ∈ [2; 3; 4])) || negb (tokens =? reqs * query_len)
     || match num_draft_tokens s with None => true | Some ds => existsb (fun n => negb (n =? k)) ds end
     || existsb (fun n => negb (n =? query_len)) (num_scheduled s)
  then false else
  let upper_bounds := take (Z.to_nat reqs) (optimistic_seq_lens_cpu r) in
  if negb (forallb (one_split_length k) upper_bounds) then false else
  if reqs =? 2 then
    TURBOQUANT_SPEC_PAIR_MIN_KV_BYTES <=?
      min_unique_tokens k upper_bounds * TURBOQUANT_SPEC_NUM_KV_HEADS * TURBOQUANT_SPEC_SLOT_SIZE_BYTES
  else true.

(** [_determine_batch_execution_and_padding]: the dispatch. *)
Definition determine_batch_execution (r : GraphRunner) (reqs tokens max_scheduled : Z) (s : Step)
    (bucket : option Z) (shared : bool) : result (CUDAGraphMode * BatchDescriptor) :=
  let uniform_decode := is_uniform_decode max_scheduled (decode_query_len r) tokens reqs in
  dispatch (mkQuery tokens uniform_decode (0 <? active_loras s) (active_loras s) bucket shared)
    None (if disable_full s then Some {[FULL]} else None) (cudagraph_dispatcher r).

Definition with_seq_lens (lens : list Z) (r : GraphRunner) : GraphRunner :=
  mkGraphRunner (full_cudagraph_max_seq_len_buckets r) (decode_query_len r) (num_spec_tokens r) lens
    (cudagraph_dispatcher r).

(** [execute_model] up to the choice of the graph, in its order: the bucket is
    chosen, then the inputs are prepared. *)
Definition execute_dispatch (s : Step) (r : GraphRunner)
    : result (CUDAGraphMode * BatchDescriptor * GraphRunner) :=
  let reqs := zlen (num_scheduled s) in
  max_scheduled ← array_max (num_scheduled s);
  let tokens := foldr Z.add 0 (num_scheduled s) in
  bucket ← select_bucket (full_cudagraph_max_seq_len_buckets r) (py_upto (optimistic_seq_lens_cpu r) reqs);
  let r := with_seq_lens (prepare_seq_lens s (optimistic_seq_lens_cpu r)) r in
  let shared := can_use_tq_spec_decode_shared_graph r reqs tokens s in
  '(mode, b) ← determine_batch_execution r reqs tokens max_scheduled s bucket shared;
  Ok (mode, b, r).

(** The part of [_check_and_update_cudagraph_mode] that sets the dispatcher up. *)
Definition initialize_turboquant (mode : CUDAGraphMode) (query_len : Z) (d : Dispatcher) : result Dispatcher :=
  d ← initialize_cudagraph_keys mode query_len d;
  d ← specialize_by_max_seq_len TURBOQUANT_FULL_CUDAGRAPH_MAX_SEQ_LENS d;
  if query_len =? 4 then specialize_for_tq_spec_decode [8; 16] d else Ok d.

(** * Buckets *)

Lemma array_max_spec xs m : array_max xs = Ok m -> m ∈ xs /\ Forall (fun x => x <= m) xs.
Proof.
  destruct xs as [|x xs]; [done|]. cbn. intros [= <-]. revert x. induction xs as [|y xs IH]; intros x; cbn.
  - split; [left|by repeat constructor].
  - destruct (IH (Z.max x y)) as [Hin Hle]. apply Forall_cons in Hle as [Hm Hle]. split.
    + apply elem_of_cons in Hin as [->|Hin]; [|by right; right].
      destruct (Z.max_spec x y) as [[_ ->]|[_ ->]]; [right; left|left].
    + constructor; [lia|]. constructor; [lia|done].
Qed.

Lemma array_max_Ok xs : xs <> [] -> exists m, array_max xs = Ok m.
Proof. destruct xs as [|x xs]; [done|]. intros _. by eexists. Qed.

Lemma turbo_bucket m : bucket_loop (TURBOQUANT_DECODE_TILE_CONTEXT_THRESHOLD - 1) m (tail TURBOQUANT_FULL_CUDAGRAPH_MAX_SEQ_LENS) =
  if m <? 8192 then 8191 else if m <? 32768 then 8192 else 32768.
Proof.
  cbn. unfold TURBOQUANT_DECODE_TILE_CONTEXT_THRESHOLD, TURBOQUANT_HEAD_PARALLEL_CONTEXT_THRESHOLD.
  by destruct (m <? 8192), (m <? 32768).
Qed.

Lemma select_turbo_bucket lens m : array_max lens = Ok m ->
  select_bucket (Some TURBOQUANT_FULL_CUDAGRAPH_MAX_SEQ_LENS) lens =
    Ok (Some (if m <? 8192 then 8191 else if m <? 32768 then 8192 else 32768)).
Proof. intros Hm. unfold select_bucket. rewrite Hm. cbn [mbind result_bind]. rewrite <-turbo_bucket. done. Qed.

Lemma turbo_bucket_in m : (if m <? 8192 then 8191 else if m <? 32768 then 8192 else 32768) ∈ TURBOQUANT_FULL_CUDAGRAPH_MAX_SEQ_LENS.
Proof. destruct (m <? 8192); [left|]. destruct (m <? 32768); [right; left|right; right; left]. Qed.



(** * Shared rows *)

Lemma one_split_length_rows k ub actual row : one_split_length k ub = true -> ub - k <= actual <= ub -> 0 <= row <= k ->
  cdiv (actual - row) TURBOQUANT_SPEC_DECODE_NUM_SPLITS = cdiv actual TURBOQUANT_SPEC_DECODE_NUM_SPLITS.
Proof.
  intros Hs Ha Hr. unfold one_split_length in Hs. rewrite forallb_forall in Hs.
  assert (In (ub - actual) (py_range 0 (k + 1))) as Hin by (apply list_elem_of_In, elem_of_py_range; lia).
  specialize (Hs _ Hin).
  apply Z.eqb_eq in Hs. replace (ub - (ub - actual)) with actual in Hs by lia.
  pose proof (cdiv_mono (actual - k) (actual - row) 32 ltac:(lia) ltac:(lia)).
  pose proof (cdiv_mono (actual - row) actual 32 ltac:(lia) ltac:(lia)).
  unfold TURBOQUANT_SPEC_DECODE_NUM_SPLITS in *. lia.
Qed.

Lemma shared_graph_cases r reqs tokens s : can_use_tq_spec_decode_shared_graph r reqs tokens s = true ->
  reqs ∈ [2; 3; 4] /\ tokens = 4 * reqs /\ Forall (fun n => n = 4) (num_scheduled s) /\
  (exists ds, num_draft_tokens s = Some ds /\ Forall (fun n => n = 3) ds) /\
  (forall ub actual row, ub ∈ take (Z.to_nat reqs) (optimistic_seq_lens_cpu r) -> ub - 3 <= actual <= ub -> 0 <= row <= 3 ->
     cdiv (actual - row) TURBOQUANT_SPEC_DECODE_NUM_SPLITS = cdiv actual TURBOQUANT_SPEC_DECODE_NUM_SPLITS) /\
  (reqs = 2 -> TURBOQUANT_SPEC_PAIR_MIN_KV_BYTES <=
     min_unique_tokens 3 (take 2 (optimistic_seq_lens_cpu r)) * TURBOQUANT_SPEC_NUM_KV_HEADS * TURBOQUANT_SPEC_SLOT_SIZE_BYTES).
Proof.
  unfold can_use_tq_spec_decode_shared_graph. destruct (_ || existsb _ (num_scheduled s)) eqn:Hpre; [done|].
  apply orb_false_iff in Hpre as [Hpre Hsch]. apply orb_false_iff in Hpre as [Hpre Hdr]. apply orb_false_iff in Hpre as [Hpre Htok].
  apply orb_false_iff in Hpre as [Hpre Hreq]. apply orb_false_iff in Hpre as [Hpre Hk]. apply orb_false_iff in Hpre as [_ Hq].
  bools. rewrite Hk, ?Hq in *.
  destruct (forallb (one_split_length 3) _) eqn:Hsplit; [|done]. cbn [negb]. intros Hbytes.
  assert (forall n xs, existsb (fun x => negb (x =? n)) xs = false -> Forall (fun x => x = n) xs) as Hall.
  { intros n xs. induction xs as [|x xs IH]; [constructor|]. cbn. intros [Hx Hxs]%orb_false_iff. bools. constructor; auto. }
  split; [done|]. split; [lia|]. split; [by apply Hall|]. split.
  { destruct (num_draft_tokens s) as [ds|]; [|done]. exists ds. split; [done|]. by apply Hall. }
  split.
  - intros ub actual row Hub Ha Hr. apply (one_split_length_rows 3 ub); [|done..].
    rewrite forallb_forall in Hsplit. by apply Hsplit, list_elem_of_In.
  - intros ->. by apply Z.leb_le in Hbytes.
Qed.

Lemma shared_needs_few r reqs tokens s : can_use_tq_spec_decode_shared_graph r reqs tokens s = true -> reqs ∈ [2; 3; 4].
Proof. intros Hs. apply (shared_graph_cases _ _ _ _ Hs). Qed.

(** C35: A batch only runs a shared graph when sharing is exact: it has two to four
    requests of four rows each, all of them a token and three drafts, and
    however many of the previous drafts turn out to have been rejected, all rows
    of a request are cut into pieces of one length, so that one dequantized
    piece serves them all. Two requests also share only from 90 MiB of keys and
    values on. *)
Theorem shared_rows_split_alike r reqs tokens s : can_use_tq_spec_decode_shared_graph r reqs tokens s = true ->
  reqs ∈ [2; 3; 4] /\ tokens = 4 * reqs /\ Forall (fun n => n = 4) (num_scheduled s) /\
  (exists ds, num_draft_tokens s = Some ds /\ Forall (fun n => n = 3) ds) /\
  (forall ub actual row, ub ∈ take (Z.to_nat reqs) (optimistic_seq_lens_cpu r) -> ub - 3 <= actual <= ub -> 0 <= row <= 3 ->
     cdiv (actual - row) TURBOQUANT_SPEC_DECODE_NUM_SPLITS = cdiv actual TURBOQUANT_SPEC_DECODE_NUM_SPLITS) /\
  (reqs = 2 -> TURBOQUANT_SPEC_PAIR_MIN_KV_BYTES <=
     min_unique_tokens 3 (take 2 (optimistic_seq_lens_cpu r)) * TURBOQUANT_SPEC_NUM_KV_HEADS * TURBOQUANT_SPEC_SLOT_SIZE_BYTES).
Proof. apply shared_graph_cases. Qed.

(** * The deployed profile *)

(** The server arguments of benchmarks/profiles/r107-sm120.md: four sequences, three
    draft tokens, 12480 tokens per step, FULL_AND_PIECEWISE, no LoRA. *)
Definition r107_sizes : SizeConfig := mkSizeConfig true None None 4 3 12480 false 1 false.
Definition r107_config (sizes : list Z) (m : Z) : DispatchConfig :=
  mkDispatchConfig (Some m) (Some sizes) [] true None 4 3.
Definition r107_dispatcher : result Dispatcher :=
  '(sizes, m) ← set_cudagraph_sizes r107_sizes;
  '(sizes, m) ← adjust_cudagraph_sizes_for_spec_decode r107_sizes 4 sizes m;
  d ← dispatcher_init (r107_config sizes m) FULL_AND_PIECEWISE true false;
  initialize_turboquant FULL_AND_PIECEWISE 4 d.
Definition r107_runner (d : Dispatcher) (lens : list Z) : GraphRunner :=
  mkGraphRunner (Some TURBOQUANT_FULL_CUDAGRAPH_MAX_SEQ_LENS) 4 3 lens d.

Lemma r107_captured_sizes :
  ('(sizes, m) ← set_cudagraph_sizes r107_sizes; adjust_cudagraph_sizes_for_spec_decode r107_sizes 4 sizes m) =
    Ok ([4; 8; 16; 24; 32], 32).
Proof. by vm_compute. Qed.

(** Three requests, and the lengths at which their rows are split alike. *)
Definition example_step : Step := mkStep [123; 60; 156] [4; 4; 4] (Some [3; 3; 3]) 0 false.

Definition example_runner : GraphRunner :=
  r107_runner (mkDispatcher (r107_config [4; 8; 16; 24; 32] 32) 4 ∅ ∅ false NONE [] []) [127; 64; 160; 0].

Lemma shared_rows_split_alike_witness :
  can_use_tq_spec_decode_shared_graph example_runner 3 12 example_step = true /\ cdiv (126 - 2) 32 = cdiv 126 32.
Proof.
  assert (can_use_tq_spec_decode_shared_graph example_runner 3 12 example_step = true) as Hs by reflexivity.
  split; [exact Hs|]. destruct (shared_rows_split_alike _ 3 12 _ Hs) as (_ & _ & _ & _ & Hrows & _).
  apply (Hrows 127 126 2); [left|lia|lia].
Defined.

(** The size a decode batch of up to four requests is padded to. *)
Definition r107_padded (reqs : Z) : Z := if reqs =? 1 then 4 else if reqs =? 2 then 8 else 16.

(** What the dispatcher answers for such a batch, in every bucket and variant. *)
Definition r107_answer (reqs bucket : Z) (shared : bool) : CUDAGraphMode * BatchDescriptor :=
  (FULL, mkBatch (r107_padded reqs) (Some (r107_padded reqs / 4)) true (Some bucket) shared false 0).
Definition r107_answers (d : Dispatcher) (reqs bucket : Z) (shared : bool) : bool :=
  bool_decide (dispatch (mkQuery (reqs * 4) true false 0 (Some bucket) shared) None None d = Ok (r107_answer reqs bucket shared)).

Lemma r107_table : exists d, r107_dispatcher = Ok d /\
  forall reqs bucket shared, 1 <= reqs <= 4 -> bucket ∈ TURBOQUANT_FULL_CUDAGRAPH_MAX_SEQ_LENS ->
    (shared = true -> reqs ∈ [2; 3; 4]) -> r107_answers d reqs bucket shared = true.
Proof.
  assert (match r107_dispatcher with
    | Ok d => forallb (fun reqs => forallb (fun bucket => r107_answers d reqs bucket false &&
        ((reqs =? 1) || r107_answers d reqs bucket true)) TURBOQUANT_FULL_CUDAGRAPH_MAX_SEQ_LENS) [1; 2; 3; 4]
    | Raise _ => false end = true) as H by by vm_compute.
  destruct r107_dispatcher as [d|]; [|discriminate H]. exists d. split; [reflexivity|]. intros reqs bucket shared Hr Hb Hs.
  rewrite forallb_forall in H. specialize (H reqs).
  assert (In reqs [1; 2; 3; 4]) as Hin by (cbn; lia). specialize (H Hin). rewrite forallb_forall in H.
  specialize (H bucket (proj1 (list_elem_of_In _ _) Hb)). apply andb_true_iff in H as [Hf Ht].
  destruct shared; [|exact Hf]. apply orb_true_iff in Ht as [Ht|Ht]; [|exact Ht]. apply Z.eqb_eq in Ht. subst reqs.
  specialize (Hs eq_refl). rewrite !elem_of_cons, elem_of_nil in Hs. lia.
Qed.

Lemma sum_of_fours xs : Forall (fun n => n = 4) xs -> foldr Z.add 0 xs = zlen xs * 4.
Proof. induction 1 as [|x xs -> _ IH]; [done|]. cbn [foldr length]. rewrite IH. lia. Qed.

Lemma max_of_fours xs : Forall (fun n => n = 4) xs -> xs <> [] -> array_max xs = Ok 4.
Proof.
  intros Hall Hne. destruct (array_max_Ok xs Hne) as [m Hm]. rewrite Hm. f_equal.
  destruct (array_max_spec _ _ Hm) as [Hin _]. rewrite Forall_forall in Hall. by apply Hall.
Qed.

(** On the deployed server every decode batch of one to four requests runs a FULL,
    uniform graph of at most 16 tokens with room for its requests, of the bucket
    chosen for it, and of the shared variant exactly when sharing was found to be
    possible: three requests are padded to four, so that the two sizes for which
    shared graphs are captured cover all that may share. *)
Theorem r107_decode_runs_full : exists d, r107_dispatcher = Ok d /\ forall lens s,
  let reqs := zlen (num_scheduled s) in
  1 <= reqs <= 4 -> reqs <= zlen lens -> Forall (fun n => n = 4) (num_scheduled s) ->
  active_loras s = 0 -> disable_full s = false ->
  exists bucket, let r := r107_runner d (prepare_seq_lens s lens) in
    select_bucket (Some TURBOQUANT_FULL_CUDAGRAPH_MAX_SEQ_LENS) (py_upto lens reqs) = Ok (Some bucket) /\
    execute_dispatch s (r107_runner d lens) =
      Ok (r107_answer reqs bucket (can_use_tq_spec_decode_shared_graph r reqs (reqs * 4) s), r) /\
    reqs <= r107_padded reqs / 4 /\ r107_padded reqs <= 16.
Proof.
  destruct r107_table as (d & Hd & Htable). exists d. split; [exact Hd|]. intros lens s reqs Hreqs Hlens Hfours Hlora Hfull.
  assert (num_scheduled s <> []) as Hne by (intros He; unfold reqs in Hreqs; rewrite He in Hreqs; cbn in Hreqs; lia).
  destruct (array_max_Ok (py_upto lens reqs)) as [m Hm].
  { intros He. apply (f_equal length) in He. rewrite py_upto_nonneg, length_take in He by lia. cbn in He. lia. }
  pose proof (select_turbo_bucket _ _ Hm) as Hb. set (bucket := if m <? 8192 then _ else _) in Hb.
  exists bucket. cbn zeta. split; [exact Hb|]. split.
  - unfold execute_dispatch. fold reqs. rewrite max_of_fours, (sum_of_fours _ Hfours) by assumption. fold reqs.
    cbn [mbind result_bind full_cudagraph_max_seq_len_buckets r107_runner optimistic_seq_lens_cpu]. rewrite Hb.
    cbn [mbind result_bind]. change (with_seq_lens (prepare_seq_lens s lens) (r107_runner d lens))
      with (r107_runner d (prepare_seq_lens s lens)).
    set (shared := can_use_tq_spec_decode_shared_graph _ _ _ s). unfold determine_batch_execution. rewrite Hlora, Hfull.
    assert (is_uniform_decode 4 (decode_query_len (r107_runner d (prepare_seq_lens s lens))) (reqs * 4) reqs = true) as ->.
    { unfold is_uniform_decode. cbn [decode_query_len r107_runner]. apply andb_true_iff. split; [done|]. apply Z.eqb_eq. lia. }
    assert (r107_answers d reqs bucket shared = true) as Ha.
    { apply Htable; [done|apply turbo_bucket_in|]. intros Hs. by apply shared_needs_few in Hs. }
    apply bool_decide_eq_true in Ha. cbn [cudagraph_dispatcher r107_runner]. change (0 <? 0) with false. rewrite Ha. reflexivity.
  - clear -Hreqs. clearbody reqs. unfold r107_padded. assert (reqs = 1 \/ reqs = 2 \/ reqs = 3 \/ reqs = 4) as [ -> | [ -> | [ -> | -> ]]] by lia; done.
Qed.

Lemma r107_decode_runs_full_witness : exists d b r, r107_dispatcher = Ok d /\
  execute_dispatch example_step (r107_runner d [127; 64; 160; 0]) = Ok (FULL, b, r) /\
  num_tokens b = 16 /\ num_reqs b = Some 4 /\ tq_spec_decode_shared b = true.
Proof.
  destruct r107_decode_runs_full as (d & Hd & Hall). exists d.
  destruct (Hall [127; 64; 160; 0] example_step) as (bucket & Hb & He & _); [cbn; lia|cbn; lia|by repeat constructor|reflexivity|reflexivity|].
  eexists _, _. split; [exact Hd|]. split; [exact He|]. split; [reflexivity|]. split; reflexivity.
Defined.

