(* ===== verification/Tokenizers.v ===== *)
(** Tokens into text: src/upstream/vllm/tokenizers/detokenizer_utils.py.

    A [str] is a list of code points. The tokenizer itself is third-party code:
    the record [Tokenizer] holds the methods and attributes that are read from it. *)
From stdpp Require Import strings.
From S2P Require Import Prelude.
Open Scope Z_scope.

Abbreviation text := (list Z).

(** The replacement character U+FFFD, the space and the sign Metaspace puts for it. *)
Definition replacement_char : Z := 65533.
Definition space : Z := 32.
Definition metaspace : text := [9601].

(** [s.endswith] of the replacement character. *)
Definition ends_incomplete (s : text) : bool := bool_decide (last s = Some replacement_char).

(** One entry of the tokenizer's configuration, and its ["pre_tokenizer"]. *)
Record PreEntry := mkPre { pre_type : option string; pre_replacement : option text }.
Record PreTokenizer := mkPreTokenizer { pre : PreEntry; pretokenizers : list PreEntry }.

Record Tokenizer := mkTokenizer {
  vocab_len : Z;                                            (** [len(tokenizer)] *)
  is_fast : bool;
  added_vocab : list text;                                  (** [get_added_vocab()] *)
  all_special_tokens : list text;
  convert_ids_to_tokens : bool -> list Z -> list (option text);   (** [skip_special_tokens] first *)
  convert_tokens_to_string : list text -> text;
  decode : list Z -> text;
  pre_tokenizer : option PreTokenizer                       (** [None]: no configuration to read *)
}.

Section Tokenizers.
Variable tk : Tokenizer.

(** [_get_leading_space_marker], without its cache. *)
Definition metaspace_marker (e : PreEntry) : option text :=
  if bool_decide (pre_type e = Some "Metaspace"%string) then Some (default metaspace (pre_replacement e)) else None.
Fixpoint first_marker (subs : list PreEntry) : option text :=
  match subs with
  | [] => None
  | sub :: subs => match metaspace_marker sub with Some m => Some m | None => first_marker subs end
  end.
Definition get_leading_space_marker : option text :=
  p ← pre_tokenizer tk;
  if bool_decide (pre_type (pre p) = Some "Metaspace"%string) then metaspace_marker (pre p)
  else if bool_decide (pre_type (pre p) = Some "Sequence"%string) then first_marker (pretokenizers p) else None.

(** The length of the longest prefix whose characters satisfy [P]. *)
Fixpoint leading (P : Z -> bool) (s : text) : Z :=
  match s with
  | ch :: s => if P ch then 1 + leading P s else 0
  | [] => 0
  end.

Definition restore_leading_spaces (raw_token token_str marker : text) : text :=
  let num_markers := leading (fun ch => bool_decide ([ch] = marker)) raw_token in
  if num_markers =? 0 then token_str else
  let missing := num_markers - leading (Z.eqb space) token_str in
  if 0 <? missing then replicate (Z.to_nat missing) space ++ token_str else token_str.

(** A piece that is [None] cannot be iterated over. *)
Definition convert_ids_list_to_tokens (token_ids : list Z) : result (list text) :=
  if bool_decide (token_ids = []) then Ok [] else
  match get_leading_space_marker with
  | None => Ok ((fun tid => decode tk [tid]) <$> token_ids)
  | Some marker =>
      mapM (fun '(tid, raw) => raw ← or_raise TypeError raw; Ok (restore_leading_spaces raw (decode tk [tid]) marker))
        (zip token_ids (convert_ids_to_tokens tk false token_ids))
  end.

Definition replace_none_with_empty (tokens : list (option text)) : list text := default [] <$> tokens.

(** The loop of [_convert_tokens_to_string_with_added_encoders]: [sub_texts], [current_sub_text]. *)
Definition flush_sub_text (st : list text * list text) : list text * list text :=
  let '(sub_texts, current) := st in
  if bool_decide (current = []) then st else (sub_texts ++ [convert_tokens_to_string tk current], []).
Definition add_token (skip_special_tokens : bool) (st : list text * list text) (token : text) : list text * list text :=
  if skip_special_tokens && bool_decide (token ∈ all_special_tokens tk) then st else
  if bool_decide (token ∈ added_vocab tk) then
    let '(sub_texts, current) := flush_sub_text st in (sub_texts ++ [token], current)
  else (st.1, st.2 ++ [token]).
Fixpoint join (sep : text) (ts : list text) : text :=
  match ts with [] => [] | [t] => t | t :: ts => t ++ sep ++ join sep ts end.
Definition convert_tokens_to_string_with_added_encoders (output_tokens : list text)
    (skip_special_tokens spaces_between_special_tokens : bool) : text :=
  let '(sub_texts, _) := flush_sub_text (fold_left (add_token skip_special_tokens) output_tokens ([], [])) in
  join (if spaces_between_special_tokens then [space] else []) sub_texts.

Definition INITIAL_INCREMENTAL_DETOKENIZATION_OFFSET : Z := 5.

Definition convert_prompt_ids_to_tokens (prompt_ids : list Z) (skip_special_tokens : bool) : list text * Z * Z :=
  let new_tokens := convert_ids_to_tokens tk skip_special_tokens
    (py_from prompt_ids (- INITIAL_INCREMENTAL_DETOKENIZATION_OFFSET - 2)) in
  let read_offset := zlen new_tokens in
  (replace_none_with_empty new_tokens, Z.max (read_offset - INITIAL_INCREMENTAL_DETOKENIZATION_OFFSET) 0, read_offset).

(** The text of some tokens, by the branch [detokenize_incrementally] takes. *)
Definition tokens_text (skip_special_tokens spaces_between_special_tokens : bool) (tokens : list text) : text :=
  if is_fast tk || bool_decide (added_vocab tk = []) then convert_tokens_to_string tk tokens
  else convert_tokens_to_string_with_added_encoders tokens skip_special_tokens spaces_between_special_tokens.

(** [convert_ids_to_tokens] on a list returns a list. *)
Definition detokenize_incrementally (all_input_ids : list Z) (prev_tokens : option (list text)) (prefix_offset read_offset : Z)
    (skip_special_tokens spaces_between_special_tokens : bool) : result (list text * text * Z * Z) :=
  new_token_id ← py_index all_input_ids (-1);
  let '(prev, prefix_offset, read_offset) :=
    match prev_tokens with
    | None => convert_prompt_ids_to_tokens (removelast all_input_ids) skip_special_tokens
    | Some prev => (prev, prefix_offset, read_offset)
    end in
  let new_tokens := if (0 <=? new_token_id) && (new_token_id <? vocab_len tk)
    then replace_none_with_empty (convert_ids_to_tokens tk skip_special_tokens [new_token_id]) else [[]] in
  let output_tokens := prev ++ new_tokens in
  let new_tokens := match prev_tokens with None => output_tokens | Some _ => new_tokens end in
  let to_text := tokens_text skip_special_tokens spaces_between_special_tokens in
  let prefix_text := to_text (py_slice output_tokens prefix_offset read_offset) in
  let new_text := to_text (py_from output_tokens prefix_offset) in
  if (zlen new_text <=? zlen prefix_text) || ends_incomplete new_text then Ok (new_tokens, [], prefix_offset, read_offset)
  else Ok (new_tokens, py_from new_text (zlen prefix_text), read_offset, zlen output_tokens).
End Tokenizers.
