(* ===== verification/Detokenizer.v ===== *)
(** Turning tokens into text and stopping at stop strings:
    [BaseIncrementalDetokenizer], [FastIncrementalDetokenizer] and
    [check_stop_strings] of src/upstream/vllm/v1/engine/detokenizer.py.

    How tokens become text is the interface [Decoder], the abstract method
    [decode_next]; the fast detokenizer implements it over the [DecodeStream] of
    the tokenizers library, which is a parameter, the slow one in
    [SlowDetokenizer]. The theorems hold for any decoder. *)
From S2P Require Import Prelude Tokenizers.
Open Scope Z_scope.

(** * Stop strings *)

(** [s.find(sub, start)]. *)
Definition py_find (s sub : text) (start : Z) : Z :=
  default (-1) (head (filter (fun i => py_slice s i (i + zlen sub) = sub)
    (py_range (if start <? 0 then Z.max 0 (start + zlen s) else start) (zlen s - zlen sub + 1)))).

(** [sys.maxsize]. *)
Definition maxsize : Z := 2 ^ 63 - 1.

(** [best_stop_str], [best_stop_index] and [best_end]. *)
Definition best : Type := option text * Z * Z.

(** The body of the loop over [stop]. *)
Definition consider_stop (output_text : text) (new_char_count : Z) (b : best) (stop_str : text) : best :=
  let '(_, _, best_end) := b in
  let stop_string_len := zlen stop_str in
  let stop_index := py_find output_text stop_str (1 - new_char_count - stop_string_len) in
  if stop_index =? -1 then b else
  let end_ := stop_index + stop_string_len in
  if end_ <? best_end then (Some stop_str, stop_index, end_) else b.

Definition check_stop_strings (output_text : text) (new_char_count : Z) (stop : list text) (include_in_output : bool)
    : option (text * Z) :=
  if (new_char_count =? 0) || (zlen stop =? 0) then None else
  let '(best_stop_str, best_stop_index, best_end) :=
    fold_left (consider_stop output_text new_char_count) stop (None, 0, maxsize) in
  match best_stop_str with
  | None => None
  | Some s =>
      if include_in_output
      then if zlen output_text <=? best_end then Some (s, -1) else Some (s, best_end)
      else Some (s, best_stop_index)
  end.

(** * The detokenizer *)

(** [decode_next]: it sees all token ids, the new one last. *)
Class Decoder (D : Type) := decode_next : list Z -> D -> result (text * D).

(** The sampling parameters and what [__init__] derives from them; the prompt
    stands at the front of [token_ids] in the slow detokenizer only. *)
Record DetokConfig := mkDetokConfig {
  stop : list text;
  min_tokens : Z;
  include_stop_str_in_output : bool;
  prompt_len : Z
}.

Definition stop_buffer_length (c : DetokConfig) : Z :=
  if negb (zlen (stop c) =? 0) && negb (include_stop_str_in_output c)
  then foldr Z.max 0 ((fun s => zlen s) <$> stop c) - 1 else 0.

Record Detok (D : Type) := mkDetok {
  token_ids : list Z;
  output_text : text;
  last_output_text_offset : Z;
  decoder : D
}.
Arguments mkDetok {D}. Arguments token_ids {D}. Arguments output_text {D}. Arguments last_output_text_offset {D}.
Arguments decoder {D}.

Section Detokenizer.
Context `{Decoder D}.
Variable c : DetokConfig.
Implicit Types (d : Detok D).

Definition num_output_tokens d : Z := zlen (token_ids d) - prompt_len c.
Definition output_token_ids d : list Z := if prompt_len c =? 0 then token_ids d else py_from (token_ids d) (prompt_len c).

Definition with_text (t : text) d : Detok D := mkDetok (token_ids d) t (last_output_text_offset d) (decoder d).
Definition with_ids (ids : list Z) d : Detok D := mkDetok ids (output_text d) (last_output_text_offset d) (decoder d).

(** The loop over the new tokens, with [stop_check_offset]. *)
Definition decode_one (id : Z) (s : Detok D * Z) : result (Detok D * Z) :=
  let '(d, offset) := s in
  let ids := token_ids d ++ [id] in
  '(t, dec) ← decode_next ids (decoder d);
  let d := mkDetok ids (output_text d ++ t) (last_output_text_offset d) dec in
  Ok (d, if negb (min_tokens c =? 0) && (num_output_tokens d <=? min_tokens c) then zlen (output_text d) else offset).

(** Step 2 of [update]. *)
Definition evaluate_stop (stop_check_offset : Z) d : option text * Detok D :=
  if negb (zlen (stop c) =? 0) && (min_tokens c <? num_output_tokens d) then
    match check_stop_strings (output_text d) (zlen (output_text d) - stop_check_offset) (stop c)
            (include_stop_str_in_output c) with
    | Some (s, truncate_to) =>
        (Some s, if negb (truncate_to =? -1) then with_text (py_upto (output_text d) truncate_to) d else d)
    | None => (None, d)
    end
  else (None, d).

Definition update (new_token_ids : list Z) (stop_terminated : bool) d : result (option text * Detok D) :=
  if zlen new_token_ids =? 0 then Ok (None, d) else
  let skips := stop_terminated && negb (include_stop_str_in_output c) in
  let skipped := if skips then last new_token_ids else None in
  let new_token_ids := if skips then removelast new_token_ids else new_token_ids in
  '(d, offset) ← for_each decode_one new_token_ids (d, zlen (output_text d));
  let d := match skipped with Some id => with_ids (token_ids d ++ [id]) d | None => d end in
  Ok (evaluate_stop offset d).

Definition get_next_output_text (finished delta : bool) d : text * Detok D :=
  let buffer_length := if finished then 0 else stop_buffer_length c in
  if negb delta then
    (if buffer_length =? 0 then output_text d else py_upto (output_text d) (- buffer_length), d)
  else
    let length := zlen (output_text d) - buffer_length in
    let last_offset := last_output_text_offset d in
    if last_offset <? length then
      (py_slice (output_text d) last_offset length, mkDetok (token_ids d) (output_text d) length (decoder d))
    else ([], d).
End Detokenizer.

(** * The fast detokenizer *)

(** What [DecodeStream.step] can do: return text or nothing, or raise. *)
Inductive step_error :=
  | BadToken (e : exn)                       (** [OverflowError] or [TypeError] *)
  | InvalidPrefix (e : exn)                  (** "Invalid prefix encountered" *)
  | OtherError (e : exn).
Definition raised (e : step_error) : exn := match e with BadToken e | InvalidPrefix e | OtherError e => e end.
Class DecodeStream (T : Type) := {
  stream_step : Z -> T -> (option text + step_error) * T;
  stream_new : T                             (** [DecodeStream(skip_special_tokens=...)] *)
}.

Record FastDecoder (T : Type) := mkFast {
  stream : T;
  spaces_between_special_tokens : bool;
  added_token_ids : gmap Z text;
  last_special : bool
}.
Arguments mkFast {T}. Arguments stream {T}. Arguments spaces_between_special_tokens {T}. Arguments added_token_ids {T}.
Arguments last_special {T}.

Section Fast.
Context `{DecodeStream T}.
Implicit Types (f : FastDecoder T).

Definition with_stream (s : T) f : FastDecoder T :=
  mkFast s (spaces_between_special_tokens f) (added_token_ids f) (last_special f).

(** [_protected_step]. *)
Definition protected_step (id : Z) f : result (option text * FastDecoder T) :=
  match stream_step id (stream f) with
  | (inl t, s) => Ok (t, with_stream s f)
  | (inr (BadToken _), s) => Ok (None, with_stream s f)
  | (inr (OtherError e), _) => Raise e
  | (inr (InvalidPrefix _), _) =>
      match stream_step id stream_new with
      | (inl t, s) => Ok (t, with_stream s f)
      | (inr e, _) => Raise (raised e)
      end
  end.

(** [decode_next]; the new id is the last of [ids]. *)
Definition fast_decode_next (ids : list Z) (f : FastDecoder T) : result (text * FastDecoder T) :=
  id ← py_index ids (-1);
  '(token, f) ← protected_step id f;
  if spaces_between_special_tokens f then Ok (default [] token, f) else
  let special_token := added_token_ids f !! id in
  let is_special := bool_decide (is_Some special_token) in
  let token := if is_special && last_special f then special_token else token in
  Ok (default [] token, mkFast (stream f) (spaces_between_special_tokens f) (added_token_ids f) is_special).

#[export] Instance fast_decoder : Decoder (FastDecoder T) := fast_decode_next.

(** [__init__]: [added] are the added tokens of the tokenizer. *)
Definition fast_init (s : T) (skip_special_tokens spaces : bool) (added : gmap Z text) : FastDecoder T :=
  let spaces := skip_special_tokens || spaces in
  if spaces then mkFast s true ∅ false
  else if bool_decide (added = ∅) then mkFast s true ∅ false else mkFast s false added false.
End Fast.

(** * Occurrences *)

Section Occurrences.
Implicit Types (t s x : text).

(** [s] ends at [e] in [t]. *)
Definition ends_at t s (e : Z) : Prop := zlen s <= e <= zlen t /\ py_slice t (e - zlen s) e = s.

(** The stop string [s] that completes first after [lo] in [t], at [e]; among those
    that complete together, the first in the list. *)
Definition completes t (stops : list text) (lo : Z) s (e : Z) : Prop := exists l1 l2,
  stops = l1 ++ s :: l2 /\ lo < e /\ ends_at t s e /\
  (forall x e', x ∈ stops -> lo < e' -> ends_at t x e' -> e <= e') /\ (forall x, x ∈ l1 -> ~ ends_at t x e).

Definition none_completes t (stops : list text) (lo : Z) : Prop :=
  forall x e, x ∈ stops -> lo < e -> ~ ends_at t x e.

Lemma ends_at_prefix t t' s e : e <= zlen t -> ends_at (t ++ t') s e <-> ends_at t s e.
Proof.
  intros He. unfold ends_at. rewrite length_app.
  assert (zlen s <= e -> py_slice (t ++ t') (e - zlen s) e = py_slice t (e - zlen s) e) as Heq.
  { intros Hs. rewrite !py_slice_nonneg by lia. rewrite drop_app_le by lia.
    rewrite take_app_le; [done|]. rewrite length_drop. lia. }
  split; intros [Hb Hsl]; (split; [lia|]); [rewrite <-Heq by lia|rewrite Heq by lia]; exact Hsl.
Qed.

Lemma completes_unique t stops lo s e s' e' : completes t stops lo s e -> completes t stops lo s' e' -> s = s' /\ e = e'.
Proof.
  intros (l1 & l2 & Hl & Hlo & Hs & Hmin & Hfirst) (l1' & l2' & Hl' & Hlo' & Hs' & Hmin' & Hfirst').
  assert (s ∈ stops) as Hin by (rewrite Hl; apply elem_of_app; right; left).
  assert (s' ∈ stops) as Hin' by (rewrite Hl'; apply elem_of_app; right; left).
  assert (e = e') as <-.
  { specialize (Hmin s' e' Hin' Hlo' Hs'). specialize (Hmin' s e Hin Hlo Hs). lia. }
  split; [|done]. rewrite Hl in Hl'. destruct (decide (length l1 < length l1')%nat) as [Hlt|Hge].
  - exfalso. apply (Hfirst' s); [|done]. apply (f_equal (.!! length l1)) in Hl'. rewrite list_lookup_middle in Hl' by done.
    rewrite lookup_app_l in Hl' by done. symmetry in Hl'. by eapply list_elem_of_lookup_2.
  - destruct (decide (length l1' < length l1)%nat) as [Hlt|Hge'].
    + exfalso. apply (Hfirst s'); [|done]. apply (f_equal (.!! length l1')) in Hl'.
      rewrite (list_lookup_middle l1') in Hl' by done. rewrite lookup_app_l in Hl' by done. by eapply list_elem_of_lookup_2.
    + apply app_inj_1 in Hl' as [_ Hl']; [by injection Hl'|lia].
Qed.

Lemma completes_none t stops lo s e : completes t stops lo s e -> none_completes t stops lo -> False.
Proof.
  intros (l1 & l2 & -> & Hlo & Hs & _) Hn. apply (Hn s e); [|done..]. apply elem_of_app. right. left.
Qed.

(** Nothing that completes later matters. *)
Lemma completes_prefix t t' stops lo s e : completes t stops lo s e -> completes (t ++ t') stops lo s e.
Proof.
  intros (l1 & l2 & Hl & Hlo & Hs & Hmin & Hfirst). exists l1, l2. pose proof (proj1 Hs) as Hb.
  split; [done|]. split; [done|]. split; [apply ends_at_prefix; [lia|done]|]. split.
  - intros x e' Hx He' Hxe. destruct (decide (e' <= zlen t)); [|lia]. apply (Hmin x e' Hx He').
    apply (proj1 (ends_at_prefix t t' x e' l)), Hxe.
  - intros x Hx Hxe. apply (Hfirst x Hx). apply (ends_at_prefix t t' x e); [lia|exact Hxe].
Qed.

(** Where nothing completes up to [lo'], the search may start there. *)
Lemma completes_later t stops lo lo' s e : lo <= lo' ->
  (forall x e', x ∈ stops -> lo < e' <= lo' -> ~ ends_at t x e') ->
  completes t stops lo' s e -> completes t stops lo s e.
Proof.
  intros Hle Hnone (l1 & l2 & Hl & Hlo & Hs & Hmin & Hfirst). exists l1, l2. split; [done|]. split; [lia|]. split; [done|].
  split; [|done]. intros x e' Hx He' Hxe. apply (Hmin x e' Hx); [|done].
  destruct (decide (e' <= lo')); [|lia]. exfalso. by apply (Hnone x e').
Qed.

(** ** [str.find] *)

Lemma py_find_cases t s a : 0 <= a ->
  let r := default (-1) (head (filter (fun i => py_slice t i (i + zlen s) = s) (py_range a (zlen t - zlen s + 1)))) in
  r = -1 /\ (forall i, a <= i -> ~ ends_at t s (i + zlen s)) \/
  a <= r /\ ends_at t s (r + zlen s) /\ forall i, a <= i -> ends_at t s (i + zlen s) -> r <= i.
Proof.
  intros Ha. assert (forall i, 0 <= i -> ends_at t s (i + zlen s) <-> i < zlen t - zlen s + 1 /\ py_slice t i (i + zlen s) = s) as He.
  { intros i Hi. unfold ends_at. replace (i + zlen s - zlen s) with i by lia. split; intros [? ?]; split; lia || done. }
  set (b := zlen t - zlen s + 1) in *. remember (Z.to_nat (b - a)) as k eqn:Hk. revert a Ha Hk.
  induction k as [|k IH]; intros a Ha Hk.
  - rewrite py_range_nil by lia. left. split; [done|]. intros i Hi Hx. apply He in Hx; lia.
  - rewrite py_range_cons by lia. destruct (decide (py_slice t a (a + zlen s) = s)) as [Hs|Hs].
    + rewrite filter_cons_True by done. cbn. right. split; [lia|]. split; [apply He; [lia|split; [lia|done]]|]. lia.
    + rewrite filter_cons_False by done. destruct (IH (a + 1)) as [[-> Hn]|(Hr & Hx & Hl)]; [lia|lia| |].
      * left. split; [done|]. intros i Hi Hx. destruct (decide (i = a)) as [->|]; [apply He in Hx as [_ Hx]; [done|lia]|].
        apply (Hn i); [lia|done].
      * right. split; [lia|]. split; [done|]. intros i Hi Hxi.
        destruct (decide (i = a)) as [->|]; [apply He in Hxi as [_ Hxi]; [done|lia]|]. apply Hl; [lia|done].
Qed.

(** The search that skips the old text finds the first end in the new one. *)
Lemma find_new t s n : s <> [] -> 0 < n <= zlen t ->
  let i := py_find t s (1 - n - zlen s) in
  i = -1 /\ (forall e, zlen t - n < e -> ~ ends_at t s e) \/
  0 <= i /\ zlen t - n < i + zlen s /\ ends_at t s (i + zlen s) /\
    forall e, zlen t - n < e -> ends_at t s e -> i + zlen s <= e.
Proof.
  intros Hs Hn. assert (0 < zlen s) by (destruct s; [done|cbn; lia]). unfold py_find.
  destruct (Z.ltb_spec (1 - n - zlen s) 0); [|lia].
  set (a := Z.max 0 (1 - n - zlen s + zlen t)).
  assert (forall e, zlen t - n < e -> ends_at t s e -> a <= e - zlen s) as Ha.
  { intros e He [Hb _]. lia. }
  destruct (py_find_cases t s a ltac:(lia)) as [[-> Hnone]|(Hr & Hx & Hl)]; [left|right].
  - split; [done|]. intros e He Hx. apply (Hnone (e - zlen s)); [by apply Ha|]. by replace (e - zlen s + zlen s) with e by lia.
  - split; [lia|]. split; [lia|]. split; [done|]. intros e He Hxe.
    assert (default (-1) (head (filter (fun i => py_slice t i (i + zlen s) = s) (py_range a (zlen t - zlen s + 1)))) <= e - zlen s); [|lia].
    apply Hl; [by apply Ha|]. by replace (e - zlen s + zlen s) with e by lia.
Qed.
End Occurrences.

(** * [check_stop_strings] *)

Section CheckStopStrings.
Implicit Types (t s x : text).

(** What the loop over [stop] knows after the strings [seen]. *)
Definition best_of t (lo : Z) (seen : list text) (b : best) : Prop :=
  b = (None, 0, maxsize) /\ none_completes t seen lo \/
  exists s i, b = (Some s, i, i + zlen s) /\ 0 <= i /\ completes t seen lo s (i + zlen s).

Lemma completes_snoc_other t seen x lo s e : completes t seen lo s e ->
  (forall e', lo < e' -> ends_at t x e' -> e <= e') -> completes t (seen ++ [x]) lo s e.
Proof.
  intros (l1 & l2 & -> & Hlo & Hs & Hmin & Hfirst) Hx. exists l1, (l2 ++ [x]). rewrite <-app_assoc. split; [done|].
  split; [done|]. split; [done|]. split; [|done]. intros y e' Hy He' Hye. rewrite app_assoc in Hy.
  apply elem_of_app in Hy as [Hy|Hy%list_elem_of_singleton]; [by apply (Hmin y e')|subst y; by apply Hx].
Qed.

Lemma completes_snoc_new t seen x lo e : lo < e -> ends_at t x e ->
  (forall y e', y ∈ seen -> lo < e' -> ends_at t y e' -> e < e') ->
  (forall e', lo < e' -> ends_at t x e' -> e <= e') -> completes t (seen ++ [x]) lo x e.
Proof.
  intros Hlo He Hseen Hx. exists seen, []. split; [done|]. split; [done|]. split; [done|]. split.
  - intros y e' Hy He' Hye. apply elem_of_app in Hy as [Hy|Hy%list_elem_of_singleton]; [|subst y; by apply Hx].
    specialize (Hseen y e' Hy He' Hye). lia.
  - intros y Hy Hye. specialize (Hseen y e Hy Hlo Hye). lia.
Qed.

Lemma consider_stop_best t n seen b x : 0 < n <= zlen t -> zlen t < maxsize -> x <> [] ->
  best_of t (zlen t - n) seen b -> best_of t (zlen t - n) (seen ++ [x]) (consider_stop t n b x).
Proof.
  intros Hn Hmax Hx Hb. pose proof (find_new t x n Hx Hn) as Hf. cbn zeta in Hf.
  destruct b as [[bs bi] be]. unfold consider_stop. set (i := py_find _ _ _) in *. clearbody i.
  destruct (Z.eqb_spec i (-1)) as [->|Hi].
  - destruct Hf as [[_ Hf]|Hf]; [|lia]. destruct Hb as [[-> Hb]|(s & j & -> & Hj & Hb)].
    + left. split; [done|]. intros y e Hy He. apply elem_of_app in Hy as [Hy|Hy%list_elem_of_singleton]; [by apply Hb|].
      subst y. by apply Hf.
    + right. exists s, j. split; [done|]. split; [done|]. apply completes_snoc_other; [done|].
      intros e' He' Hxe. destruct (Hf e' He' Hxe).
  - destruct Hf as [[? _]|(Hi0 & Hlo & He & Hmin)]; [done|]. pose proof (proj1 He) as Hbound.
    destruct Hb as [[[= -> -> ->] Hb]|(s & j & [= -> -> ->] & Hj & Hb)].
    + destruct (Z.ltb_spec (i + zlen x) maxsize); [|lia]. right. exists x, i. split; [done|]. split; [done|].
      apply completes_snoc_new; [done|done| |done]. intros y e' Hy He' Hye. destruct (Hb y e' Hy He' Hye).
    + destruct (Z.ltb_spec (i + zlen x) (j + zlen s)) as [Hlt|Hge]; right.
      * exists x, i. split; [done|]. split; [done|]. destruct Hb as (l1 & l2 & Hl & _ & _ & Hmin' & _).
        apply completes_snoc_new; [done|done| |done]. intros y e' Hy He' Hye. specialize (Hmin' y e' Hy He' Hye). lia.
      * exists s, j. split; [done|]. split; [done|]. apply completes_snoc_other; [done|].
        intros e' He' Hxe. specialize (Hmin e' He' Hxe). lia.
Qed.

Lemma consider_stops_best t n todo : 0 < n <= zlen t -> zlen t < maxsize -> Forall (.≠ []) todo ->
  forall seen b, best_of t (zlen t - n) seen b ->
  best_of t (zlen t - n) (seen ++ todo) (fold_left (consider_stop t n) todo b).
Proof.
  intros Hn Hmax. induction 1 as [|x todo Hx _ IH]; intros seen b Hb; cbn; [by rewrite app_nil_r|].
  replace (seen ++ x :: todo) with ((seen ++ [x]) ++ todo) by by rewrite <-app_assoc.
  apply IH. by apply consider_stop_best.
Qed.

(** Where the text is cut for a stop string that ends at [e]. *)
Definition cut_at (include_in_output : bool) t s (e : Z) : Z :=
  if include_in_output then if zlen t <=? e then -1 else e else e - zlen s.

Lemma check_stop_strings_Ok t n stops incl : 0 <= n <= zlen t -> zlen t < maxsize -> Forall (.≠ []) stops ->
  (exists s e, completes t stops (zlen t - n) s e /\ check_stop_strings t n stops incl = Some (s, cut_at incl t s e)) \/
  none_completes t stops (zlen t - n) /\ check_stop_strings t n stops incl = None.
Proof.
  intros Hn Hmax Hstops. unfold check_stop_strings. destruct (Z.eqb_spec n 0) as [->|Hn0].
  { right. split; [|done]. intros x e _ He [Hb _]. lia. }
  destruct (Z.eqb_spec (zlen stops) 0) as [Hs|Hs].
  { right. split; [|done]. destruct stops; [|cbn in Hs; lia]. by intros x e Hx%not_elem_of_nil. }
  cbn [orb]. pose proof (consider_stops_best t n stops ltac:(lia) Hmax Hstops [] (None, 0, maxsize)) as Hb.
  cbn [app] in Hb. destruct Hb as [[-> Hb]|(s & i & -> & Hi & Hb)].
  - left. split; [done|]. by intros x e Hx%not_elem_of_nil.
  - by right.
  - left. exists s, (i + zlen s). split; [done|]. unfold cut_at. destruct incl; [by destruct (_ <=? _)|].
    by replace (i + zlen s - zlen s) with i by lia.
Qed.
End CheckStopStrings.

(** * [update] *)

Section Update.
Context `{Decoder D}.
Variable c : DetokConfig.
Implicit Types (d : Detok D).

(** The text [update] leaves when [s] ends at [e]. *)
Definition cut_text (t : text) (s : text) (e : Z) : text :=
  py_upto t (if include_stop_str_in_output c then e else e - zlen s).

Lemma cut_text_take t s e : zlen s <= e ->
  cut_text t s e = take (Z.to_nat (if include_stop_str_in_output c then e else e - zlen s)) t.
Proof. intros He. apply py_upto_nonneg. destruct (include_stop_str_in_output c); lia. Qed.

Lemma cut_text_app t t' s e : zlen s <= e <= zlen t -> cut_text (t ++ t') s e = cut_text t s e.
Proof.
  intros He. rewrite !cut_text_take by lia. apply take_app_le. destruct (include_stop_str_in_output c); lia.
Qed.

(** A stop string is never empty ([SamplingParams] refuses one), nor are the counts negative. *)
Definition config_ok : Prop := Forall (.≠ []) (stop c) /\ 0 <= min_tokens c.

Lemma evaluate_stop_early off d : num_output_tokens c d <= min_tokens c -> evaluate_stop c off d = (None, d).
Proof.
  intros Hn. unfold evaluate_stop. destruct (Z.ltb_spec (min_tokens c) (num_output_tokens c d)); [lia|]. by rewrite andb_false_r.
Qed.

Lemma evaluate_stop_nothing off d : off = zlen (output_text d) -> evaluate_stop c off d = (None, d).
Proof. intros ->. unfold evaluate_stop, check_stop_strings. rewrite Z.sub_diag. by destruct (_ && _). Qed.

Lemma evaluate_stop_Ok off d : config_ok -> 0 <= off <= zlen (output_text d) -> zlen (output_text d) < maxsize ->
  min_tokens c < num_output_tokens c d ->
  (exists s e, completes (output_text d) (stop c) off s e /\
     evaluate_stop c off d = (Some s, with_text (cut_text (output_text d) s e) d)) \/
  none_completes (output_text d) (stop c) off /\ evaluate_stop c off d = (None, d).
Proof.
  intros [Hstops _] Hoff Hmax Hn. unfold evaluate_stop. destruct (Z.ltb_spec (min_tokens c) (num_output_tokens c d)); [|lia].
  rewrite andb_true_r. destruct (Z.eqb_spec (zlen (stop c)) 0) as [Hs|Hs]; cbn [negb].
  { right. split; [|done]. destruct (stop c); [|cbn in Hs; lia]. by intros x e Hx%not_elem_of_nil. }
  destruct (check_stop_strings_Ok (output_text d) (zlen (output_text d) - off) (stop c) (include_stop_str_in_output c)
    ltac:(lia) Hmax Hstops) as [(s & e & Hc & Hr)|[Hc Hr]];
    replace (zlen (output_text d) - (zlen (output_text d) - off)) with off in Hc by lia; rewrite Hr; [left|by right].
  exists s, e. split; [done|]. f_equal. destruct Hc as (_ & _ & _ & _ & [Hb _] & _).
  unfold cut_at, cut_text. destruct (include_stop_str_in_output c).
  - destruct (Z.leb_spec (zlen (output_text d)) e); cbn.
    + rewrite py_upto_nonneg, take_ge by lia. by destruct d.
    + by destruct (Z.eqb_spec e (-1)); [lia|].
  - by destruct (Z.eqb_spec (e - zlen s) (-1)); [lia|].
Qed.

(** ** The loop over the new tokens *)

Lemma decode_one_Ok id d off d' off' : decode_one c id (d, off) = Ok (d', off') ->
  token_ids d' = token_ids d ++ [id] /\ last_output_text_offset d' = last_output_text_offset d /\
  (exists t, output_text d' = output_text d ++ t) /\
  off' = if negb (min_tokens c =? 0) && (num_output_tokens c d' <=? min_tokens c) then zlen (output_text d') else off.
Proof.
  unfold decode_one. intros Hd. apply bind_Ok_inv in Hd as ([t dec] & _ & Hd). simplify_eq/=.
  split; [done|]. split; [done|]. split; [by exists t|done].
Qed.

Lemma decode_one_offset id d off off1 d' off' : decode_one c id (d, off) = Ok (d', off') ->
  decode_one c id (d, off1) =
    Ok (d', if negb (min_tokens c =? 0) && (num_output_tokens c d' <=? min_tokens c) then zlen (output_text d') else off1).
Proof.
  unfold decode_one. intros Hd. apply bind_Ok_inv in Hd as ([t dec] & Hdec & Hd). rewrite Hdec. cbn. by simplify_eq/=.
Qed.

Lemma decode_num id d off d' off' : decode_one c id (d, off) = Ok (d', off') ->
  num_output_tokens c d' = num_output_tokens c d + 1.
Proof. intros (Hids & _)%decode_one_Ok. unfold num_output_tokens. rewrite Hids, length_app. cbn. lia. Qed.

(** The loop: what it appends, and where the search for stop strings will start. *)
Lemma decode_all_Ok ids : forall d off d' off', for_each (decode_one c) ids (d, off) = Ok (d', off') ->
  0 <= off <= zlen (output_text d) ->
  token_ids d' = token_ids d ++ ids /\ last_output_text_offset d' = last_output_text_offset d /\
  (exists t, output_text d' = output_text d ++ t) /\ off <= off' <= zlen (output_text d') /\
  (off' = off \/ zlen (output_text d) <= off').
Proof.
  induction ids as [|id ids IH]; cbn [for_each]; intros d off d' off' Hd Hoff.
  { simplify_eq. rewrite app_nil_r. repeat split; try lia. exists []. by rewrite app_nil_r. }
  apply bind_Ok_inv in Hd as ([d1 off1] & Hd1 & Hd). apply decode_one_Ok in Hd1 as (Hids & Hl & [t Ht] & Hoff1).
  assert (zlen (output_text d) <= zlen (output_text d1)) by (rewrite Ht, length_app; lia).
  apply IH in Hd as (Hids' & Hl' & [t' Ht'] & Hoff' & Hreset); [|destruct (_ && _); lia].
  rewrite Hids', Hids, <-app_assoc, Hl', Hl. split; [done|]. split; [done|].
  split; [exists (t ++ t'); by rewrite Ht', Ht, app_assoc|]. destruct (_ && _); lia.
Qed.

(** Past [min_tokens] the start of the search does not move. *)
Lemma decode_past_min ids : forall d off d' off', for_each (decode_one c) ids (d, off) = Ok (d', off') ->
  min_tokens c < num_output_tokens c d -> off' = off /\ min_tokens c < num_output_tokens c d'.
Proof.
  induction ids as [|id ids IH]; cbn [for_each]; intros d off d' off' Hd Hn; [by simplify_eq|].
  apply bind_Ok_inv in Hd as ([d1 off1] & Hd1 & Hd). pose proof (decode_num _ _ _ _ _ Hd1) as Hnum.
  apply decode_one_Ok in Hd1 as (_ & _ & _ & Hoff1).
  destruct (Z.leb_spec (num_output_tokens c d1) (min_tokens c)); [lia|]. rewrite andb_false_r in Hoff1. subst off1.
  apply (IH _ _ _ _ Hd). lia.
Qed.
End Update.

(** ** One token at a time *)

Section OneByOne.
Context `{Decoder D}.
Variable c : DetokConfig.
Implicit Types (d : Detok D).

(** The tokens of an update that become text. *)
Definition detokenized (new_token_ids : list Z) (stop_terminated : bool) : list Z :=
  if stop_terminated && negb (include_stop_str_in_output c) then removelast new_token_ids else new_token_ids.

(** The reference: the same tokens, one by one, up to the first that completes a stop string. *)
Fixpoint update_each (ids : list Z) (stop_terminated : bool) d : result (option text * Detok D) :=
  match ids with
  | [] => Ok (None, d)
  | id :: ids =>
      '(s, d) ← update c [id] (stop_terminated && bool_decide (ids = [])) d;
      match s with Some _ => Ok (s, d) | None => update_each ids stop_terminated d end
  end.

Lemma update_one id d d' off' : decode_one c id (d, zlen (output_text d)) = Ok (d', off') ->
  update c [id] false d = Ok (evaluate_stop c off' d').
Proof. intros Hd. unfold update. cbn. cbn in Hd. by rewrite Hd. Qed.

(** What the batch finds at its end, the single steps find on the way. *)
Lemma update_each_run ids : config_ok c -> forall d off dn offn,
  for_each (decode_one c) ids (d, off) = Ok (dn, offn) -> 0 <= off <= zlen (output_text d) ->
  none_completes (output_text d) (stop c) off -> 0 <= num_output_tokens c d -> zlen (output_text dn) < maxsize ->
  (exists s e d2, completes (output_text dn) (stop c) offn s e /\ min_tokens c < num_output_tokens c dn /\
     update_each ids false d = Ok (Some s, d2) /\ output_text d2 = cut_text c (output_text dn) s e) \/
  none_completes (output_text dn) (stop c) offn /\ update_each ids false d = Ok (None, dn).
Proof.
  intros Hc. induction ids as [|id ids IH]; cbn [for_each]; intros d off dn offn Hd Hoff Hnone Hnum Hmax.
  { right. by simplify_eq. }
  apply bind_Ok_inv in Hd as ([d1 off1] & Hd1 & Hd). cbn [update_each andb].
  pose proof (decode_num _ _ _ _ _ _ Hd1) as Hnum1.
  rewrite (update_one _ _ _ _ (decode_one_offset _ _ _ _ (zlen (output_text d)) _ _ Hd1)).
  apply decode_one_Ok in Hd1 as (_ & _ & [t Ht] & Hoff1).
  assert (zlen (output_text d) <= zlen (output_text d1)) as Hlen1 by (rewrite Ht, length_app; lia).
  assert (0 <= off1 <= zlen (output_text d1)) as Hoff1' by (destruct (_ && _); lia).
  pose proof (decode_all_Ok c _ _ _ _ _ Hd Hoff1') as (_ & _ & [tn Htn] & _).
  assert (zlen (output_text d1) <= zlen (output_text dn)) as Hlenn by (rewrite Htn, length_app; lia).
  destruct (negb (min_tokens c =? 0) && (num_output_tokens c d1 <=? min_tokens c)) eqn:Hmin.
  - rewrite evaluate_stop_nothing by done. cbn. apply (IH _ _ _ _ Hd); [done| |lia|done].
    intros x e _ He [Hb _]. lia.
  - assert (min_tokens c < num_output_tokens c d1) as Hpast.
    { destruct Hc as [_ Hc]. destruct (Z.eqb_spec (min_tokens c) 0), (Z.leb_spec (num_output_tokens c d1) (min_tokens c)); cbn in Hmin; done || lia. }
    subst off1. destruct (evaluate_stop_Ok c (zlen (output_text d)) d1 Hc ltac:(lia) ltac:(lia) Hpast)
      as [(s & e & Hs & ->)|[Hn ->]]; cbn.
    + left. destruct (decode_past_min _ _ _ _ _ _ Hd Hpast) as [-> Hpastn]. exists s, e. eexists. rewrite Htn.
      split; [|split; [done|split; [done|]]].
      * apply completes_prefix. apply (completes_later _ _ off (zlen (output_text d))); [lia| |done].
        intros x e' Hx He' Hxe. rewrite Ht in Hxe. apply (proj1 (ends_at_prefix _ _ _ _ (proj2 He'))) in Hxe.
        apply (Hnone x e'); [done|lia|done].
      * destruct Hs as (_ & _ & _ & _ & [Hb _] & _). by rewrite cut_text_app.
    + apply (IH _ _ _ _ Hd); [lia| |lia|done]. intros x e Hx He Hxe.
      destruct (decide (zlen (output_text d) < e)); [by apply (Hn x e)|].
      rewrite Ht in Hxe. apply (proj1 (ends_at_prefix (output_text d) t x e ltac:(lia))) in Hxe. by apply (Hnone x e).
Qed.

(** A stop token that is not detokenized changes no text. *)
Lemma update_skipped id d : include_stop_str_in_output c = false ->
  update c [id] true d = Ok (None, with_ids (token_ids d ++ [id]) d).
Proof. intros Hi. unfold update. rewrite Hi. cbn. by rewrite evaluate_stop_nothing. Qed.

Lemma update_each_false ids stop_terminated : stop_terminated && negb (include_stop_str_in_output c) = false ->
  forall d, update_each ids stop_terminated d = update_each ids false d.
Proof.
  intros Hs. induction ids as [|id ids IH]; intros d; [done|]. cbn [update_each andb].
  assert (update c [id] (stop_terminated && bool_decide (ids = [])) d = update c [id] false d) as ->.
  { unfold update. rewrite <-andb_assoc, (andb_comm (bool_decide _)), andb_assoc, Hs. done. }
  destruct (update c [id] false d) as [[[s|] d']|]; cbn; [done|apply IH|done].
Qed.

Lemma update_each_snoc ids id d : include_stop_str_in_output c = false ->
  update_each (ids ++ [id]) true d =
    '(s, d) ← update_each ids false d;
    match s with Some _ => Ok (s, d) | None => Ok (None, with_ids (token_ids d ++ [id]) d) end.
Proof.
  intros Hi. revert d. induction ids as [|x ids IH]; intros d; cbn [update_each app andb].
  { rewrite bool_decide_true by done. by rewrite update_skipped. }
  rewrite bool_decide_false by by destruct ids. destruct (update c [x] false d) as [[[s|] d']|]; cbn; [done|apply IH|done].
Qed.

Lemma evaluate_stop_Some off d s e : config_ok c -> 0 <= off <= zlen (output_text d) -> zlen (output_text d) < maxsize ->
  min_tokens c < num_output_tokens c d -> completes (output_text d) (stop c) off s e ->
  evaluate_stop c off d = (Some s, with_text (cut_text c (output_text d) s e) d).
Proof.
  intros Hc Hoff Hmax Hn Hs. destruct (evaluate_stop_Ok c off d Hc Hoff Hmax Hn) as [(s' & e' & Hs' & ->)|[Hno _]].
  - by destruct (completes_unique _ _ _ _ _ _ _ Hs Hs') as [-> ->].
  - by destruct (completes_none _ _ _ _ _ Hs Hno).
Qed.

Lemma evaluate_stop_None off d : config_ok c -> 0 <= off <= zlen (output_text d) -> zlen (output_text d) < maxsize ->
  none_completes (output_text d) (stop c) off -> evaluate_stop c off d = (None, d).
Proof.
  intros Hc Hoff Hmax Hno. destruct (Z.lt_ge_cases (min_tokens c) (num_output_tokens c d)) as [Hn|Hn]; [|by apply evaluate_stop_early].
  destruct (evaluate_stop_Ok c off d Hc Hoff Hmax Hn) as [(s' & e' & Hs' & _)|[_ ->]]; [|done].
  by destruct (completes_none _ _ _ _ _ Hs' Hno).
Qed.

(** What the update makes of the decoded text [t], searched from [off]. *)
Definition stopped_text (t : text) (off : Z) (s : option text) (t' : text) : Prop :=
  match s with
  | Some s => exists e, completes t (stop c) off s e /\ t' = cut_text c t s e
  | None => none_completes t (stop c) off /\ t' = t
  end.

Lemma update_Ok new_token_ids stop_terminated d dn offn : config_ok c -> 0 <= num_output_tokens c d ->
  for_each (decode_one c) (detokenized new_token_ids stop_terminated) (d, zlen (output_text d)) = Ok (dn, offn) ->
  zlen (output_text dn) < maxsize ->
  exists s d1 d2, update c new_token_ids stop_terminated d = Ok (s, d1) /\ update_each new_token_ids stop_terminated d = Ok (s, d2) /\
    output_text d1 = output_text d2 /\ stopped_text (output_text dn) offn s (output_text d1) /\
    last_output_text_offset d1 = last_output_text_offset d.
Proof.
  intros Hc Hnum Hd Hmax. assert (none_completes (output_text d) (stop c) (zlen (output_text d))) as Hnone by (intros x e _ He [Hb _]; lia).
  pose proof (decode_all_Ok c _ _ _ _ _ Hd ltac:(lia)) as (Hids & Hl & _ & Hoff & _).
  pose proof (update_each_run _ Hc _ _ _ _ Hd ltac:(lia) Hnone Hnum Hmax) as Hrun. unfold update.
  destruct (Z.eqb_spec (zlen new_token_ids) 0) as [Hz|Hz].
  { destruct new_token_ids; [|cbn in Hz; lia]. unfold detokenized in *. destruct (stop_terminated && _); cbn in Hd; simplify_eq;
      exists None, dn, dn; repeat split; done. }
  unfold detokenized in *. destruct (stop_terminated && negb (include_stop_str_in_output c)) eqn:Hskip.
  - apply andb_true_iff in Hskip as [-> Hi%negb_true_iff]. destruct (exists_last (l := new_token_ids) ltac:(by intros ->)) as (ids & id & ->).
    rewrite last_snoc, removelast_last in *. rewrite Hd, update_each_snoc by done. cbn [mbind result_bind].
    set (d1 := with_ids (token_ids dn ++ [id]) dn). assert (num_output_tokens c dn <= num_output_tokens c d1)
      by (unfold num_output_tokens; cbn; rewrite length_app; lia).
    destruct Hrun as [(s & e & d2 & Hs & Hmin & -> & Ht)|[Hno ->]]; cbn [mbind result_bind].
    + rewrite (evaluate_stop_Some offn d1 s e) by (done || lia || (cbn; lia)). do 3 eexists. split; [done|]. split; [done|].
      rewrite Ht. split; [done|]. split; [by exists e|]. apply Hl.
    + rewrite evaluate_stop_None by (done || (cbn; lia)). do 3 eexists. split; [done|]. split; [done|]. split; [done|]. split; [done|]. apply Hl.
  - rewrite Hd, update_each_false by done. cbn [mbind result_bind].
    destruct Hrun as [(s & e & d2 & Hs & Hmin & -> & Ht)|[Hno ->]].
    + rewrite (evaluate_stop_Some offn dn s e) by (done || lia). do 3 eexists. split; [done|]. split; [done|].
      rewrite Ht. split; [done|]. split; [by exists e|]. apply Hl.
    + rewrite evaluate_stop_None by (done || lia). do 3 eexists. split; [done|]. split; [done|]. split; [done|]. split; [done|]. apply Hl.
Qed.
End OneByOne.

(** The text an update leaves: the old text with the new one after it, or a prefix of that which
    still holds what was not held back for stop strings. *)
Section Kept.
Context `{Decoder D}.
Variable c : DetokConfig.
Implicit Types (d : Detok D).

Lemma consider_stop_index t n lo b x : x ∈ stop c -> x <> [] -> 0 < n <= zlen t -> zlen t - n = lo ->
  (forall s i e, b = (Some s, i, e) -> s ∈ stop c /\ 0 <= i /\ e = i + zlen s /\ lo < e) ->
  forall s i e, consider_stop t n b x = (Some s, i, e) -> s ∈ stop c /\ 0 <= i /\ e = i + zlen s /\ lo < e.
Proof.
  intros Hx Hne Hn Hlo Hb s i e. destruct b as [[bs bi] be]. unfold consider_stop.
  pose proof (find_new t x n Hne Hn) as Hf. cbn zeta in Hf. set (j := py_find _ _ _) in *. clearbody j.
  destruct (Z.eqb_spec j (-1)) as [|Hj]; [apply Hb|]. destruct Hf as [[? _]|(Hj0 & Hjlo & _)]; [done|].
  destruct (j + zlen x <? be); [|apply Hb]. intros ?; simplify_eq. split; [done|]. lia.
Qed.

Lemma stop_buffer_bound s : s ∈ stop c -> include_stop_str_in_output c = false -> zlen s - 1 <= stop_buffer_length c.
Proof.
  intros Hs Hi. unfold stop_buffer_length. rewrite Hi, andb_true_r.
  destruct (Z.eqb_spec (zlen (stop c)) 0) as [Hz|_]; cbn [negb].
  { destruct (stop c); [by apply not_elem_of_nil in Hs|cbn in Hz; lia]. }
  clear Hi. induction (stop c) as [|x l IH]; [by apply not_elem_of_nil in Hs|]. cbn [fmap list_fmap foldr].
  apply elem_of_cons in Hs as [->|Hs]; [lia|]. specialize (IH Hs). lia.
Qed.

Lemma stop_buffer_nonneg : Forall (.≠ []) (stop c) -> 0 <= stop_buffer_length c.
Proof.
  intros Hs. unfold stop_buffer_length. destruct (_ && _) eqn:Hb; [|done].
  destruct (stop c) as [|x l]; [done|]. apply Forall_cons in Hs as [Hx _]. destruct x; [done|]. cbn. lia.
Qed.

Lemma check_stop_strings_kept t n s k : config_ok c -> 0 <= n <= zlen t ->
  check_stop_strings t n (stop c) (include_stop_str_in_output c) = Some (s, k) ->
  s ∈ stop c /\ (k = -1 \/ zlen t - n - stop_buffer_length c <= k /\ 0 <= k).
Proof.
  intros [Hstops _] Hn. unfold check_stop_strings. destruct (Z.eqb_spec n 0) as [|Hn0]; [done|].
  destruct (zlen (stop c) =? 0); [done|]. cbn [orb].
  assert (forall l, Forall (fun x => x ∈ stop c /\ x <> []) l -> forall b,
    (forall s i e, b = (Some s, i, e) -> s ∈ stop c /\ 0 <= i /\ e = i + zlen s /\ zlen t - n < e) ->
    forall s i e, fold_left (consider_stop t n) l b = (Some s, i, e) ->
      s ∈ stop c /\ 0 <= i /\ e = i + zlen s /\ zlen t - n < e) as Hfold.
  { induction 1 as [|x l [Hx Hne] _ IH]; intros b Hb; cbn; [exact Hb|]. apply IH.
    apply (consider_stop_index t n (zlen t - n) b x Hx Hne ltac:(lia) eq_refl Hb). }
  destruct (fold_left _ _ _) as [[[s'|] i] e] eqn:Hf; [|done].
  destruct (Hfold (stop c) ltac:(rewrite Forall_forall in *; auto) (None, 0, maxsize) ltac:(done) _ _ _ Hf) as (Hs & Hi & -> & Hlo).
  pose proof (stop_buffer_nonneg Hstops). destruct (include_stop_str_in_output c) eqn:Hincl.
  - intros Hr. destruct (_ <=? _); simplify_eq; (split; [done|]); [by left|]. right. lia.
  - intros ?; simplify_eq. split; [done|]. right. pose proof (stop_buffer_bound s Hs Hincl). lia.
Qed.

Definition fed (new_token_ids : list Z) d := token_ids d ++ new_token_ids.

Lemma update_kept new_token_ids stop_terminated d s d' : config_ok c ->
  update c new_token_ids stop_terminated d = Ok (s, d') ->
  token_ids d' = fed new_token_ids d /\ last_output_text_offset d' = last_output_text_offset d /\
  exists t, match s with
  | None => output_text d' = output_text d ++ t
  | Some x => x ∈ stop c /\ exists k, output_text d' = take k (output_text d ++ t) /\ zlen (output_text d) - stop_buffer_length c <= Z.of_nat k
  end.
Proof.
  intros Hc. unfold update, fed. destruct (Z.eqb_spec (zlen new_token_ids) 0) as [Hz|Hz].
  { destruct new_token_ids; [|cbn in Hz; lia]. intros ?; simplify_eq. rewrite app_nil_r.
    split; [done|]. split; [done|]. exists []. by rewrite app_nil_r. }
  intros Hu. apply bind_Ok_inv in Hu as ([dn offn] & Hd & Hu). pose proof (decode_all_Ok c _ _ _ _ _ Hd ltac:(lia)) as (Hids & Hl & [t Ht] & Hoff & _).
  assert (zlen (output_text d) <= offn) as Hoffd by lia.
  set (d1 := match _ with Some id => with_ids (token_ids dn ++ [id]) dn | None => dn end) in Hu.
  assert (token_ids d1 = token_ids d ++ new_token_ids /\ last_output_text_offset d1 = last_output_text_offset d /\ output_text d1 = output_text dn) as (Hids1 & Hl1 & Ht1).
  { unfold d1. destruct (stop_terminated && negb (include_stop_str_in_output c)); [|by rewrite Hids, Hl].
    destruct (exists_last (l := new_token_ids) ltac:(by intros ->)) as (ids & id & ->).
    rewrite last_snoc, removelast_last in *. cbn. by rewrite Hids, <-app_assoc, Hl. }
  clear Hd. clearbody d1. injection Hu as Hu. unfold evaluate_stop in Hu. destruct (negb (zlen (stop c) =? 0) && _).
  2: { simplify_eq. split; [done|]. split; [done|]. exists t. by rewrite Ht1. }
  destruct (check_stop_strings _ _ _ _) as [[x k]|] eqn:Hcheck; simplify_eq.
  2: { split; [done|]. split; [done|]. exists t. by rewrite Ht1. }
  rewrite Ht1 in Hcheck. apply check_stop_strings_kept in Hcheck as [Hx Hk]; [|done|lia].
  destruct (Z.eqb_spec k (-1)) as [->|Hk1]; cbn [negb].
  - split; [done|]. split; [done|]. exists t. split; [done|]. exists (length (output_text dn)). rewrite Ht1, <-Ht, take_ge by lia.
    split; [done|]. pose proof (stop_buffer_nonneg (proj1 Hc)). lia.
  - destruct Hk as [|[Hk Hk0]]; [done|]. split; [done|]. split; [done|]. exists t. split; [done|]. exists (Z.to_nat k).
    rewrite <-Ht. cbn. rewrite Ht1, py_upto_nonneg by done. split; [done|]. lia.
Qed.

(** ** [get_next_output_text] *)

(** What has been streamed never reaches into the text held back. *)
Definition offset_ok d : Prop := 0 <= last_output_text_offset d <= Z.max 0 (zlen (output_text d) - stop_buffer_length c).

Lemma next_text_Ok finished d : Forall (.≠ []) (stop c) ->
  0 <= last_output_text_offset d -> (finished = false -> offset_ok d) -> last_output_text_offset d <= zlen (output_text d) ->
  forall t d', get_next_output_text c finished true d = (t, d') ->
  output_text d' = output_text d /\ token_ids d' = token_ids d /\ decoder d' = decoder d /\
  take (Z.to_nat (last_output_text_offset d)) (output_text d) ++ t = take (Z.to_nat (last_output_text_offset d')) (output_text d) /\
  last_output_text_offset d <= last_output_text_offset d' <= zlen (output_text d) /\
  (if finished then last_output_text_offset d' = zlen (output_text d) else offset_ok d').
Proof.
  intros Hs H0 Hok Hle t d'. pose proof (stop_buffer_nonneg Hs) as Hbuf. unfold get_next_output_text. cbn [negb].
  set (b := if finished then 0 else stop_buffer_length c). assert (0 <= b) by (unfold b; by destruct finished).
  destruct (Z.ltb_spec (last_output_text_offset d) (zlen (output_text d) - b)) as [Hlt|Hge]; intros ?; simplify_eq/=.
  - split; [done|]. split; [done|]. split; [done|]. split; [|split; [lia|]].
    + rewrite py_slice_nonneg by lia. rewrite <-Z2Nat.inj_sub by lia. rewrite Z2Nat.inj_sub by lia.
      rewrite take_take_drop. f_equal. lia.
    + unfold b, offset_ok in *. destruct finished; cbn; lia.
  - rewrite app_nil_r. split; [done|]. split; [done|]. split; [done|]. split; [done|]. split; [lia|].
    unfold b in *. destruct finished; [lia|by apply Hok].
Qed.
End Kept.

(** * Many tokens at once *)

(** C12: An update that appends several tokens (speculative decoding) reports the same stop string and
    leaves the same text as feeding it the tokens one at a time and stopping at the first match; the stop
    string is the one that completes first in the text decoded past [min_tokens], and the text is
    cut before it, or after it when it is to be included. *)
Theorem update_matches_single_tokens `{Decoder D} (c : DetokConfig) new_token_ids stop_terminated (d dn : Detok D) offn :
  config_ok c -> 0 <= num_output_tokens c d ->
  for_each (decode_one c) (detokenized c new_token_ids stop_terminated) (d, zlen (output_text d)) = Ok (dn, offn) ->
  zlen (output_text dn) < maxsize ->
  exists s d1 d2, update c new_token_ids stop_terminated d = Ok (s, d1) /\
    update_each c new_token_ids stop_terminated d = Ok (s, d2) /\
    output_text d1 = output_text d2 /\ stopped_text c (output_text dn) offn s (output_text d1).
Proof.
  intros Hc Hn Hd Hmax. destruct (update_Ok c _ _ _ _ _ Hc Hn Hd Hmax) as (s & d1 & d2 & H1 & H2 & Ht & Hs & _).
  by exists s, d1, d2.
Qed.

(** A decoder whose tokens are characters. *)
Definition echo_decoder : Decoder unit := fun ids _ => id ← py_index ids (-1); Ok ([id], tt).
Definition echo_config : DetokConfig := mkDetokConfig [[3; 4]; [2; 3]; [5]] 0 false 0.
Definition echo_start : Detok unit := mkDetok [] [] 0 tt.

Lemma update_matches_single_tokens_witness :
  exists d1, @update _ echo_decoder echo_config [1; 2; 3; 4; 5] false echo_start = Ok (Some [2; 3], d1) /\ output_text d1 = [1].
Proof.
  assert (config_ok echo_config) as Hc by (split; [by repeat constructor|done]).
  destruct (@update_matches_single_tokens _ echo_decoder echo_config [1; 2; 3; 4; 5] false echo_start
    (mkDetok [1; 2; 3; 4; 5] [1; 2; 3; 4; 5] 0 tt) 0 Hc ltac:(done) ltac:(reflexivity) ltac:(done))
    as (s & d1 & d2 & H1 & _).
  assert (@update _ echo_decoder echo_config [1; 2; 3; 4; 5] false echo_start = Ok (Some [2; 3], mkDetok [1; 2; 3; 4; 5] [1] 0 tt))
    as Hu by (vm_compute; reflexivity).
  exists d1. rewrite Hu in H1 |- *. injection H1 as <- <-. split; reflexivity.
Defined.
