(* ===== verification/SlowDetokenizer.v ===== *)
(** [SlowIncrementalDetokenizer] of src/upstream/vllm/v1/engine/detokenizer.py:
    the decoder that goes through [detokenize_incrementally], and what its text
    is when the tokenizer respects complete characters. *)
From S2P Require Import Prelude Tokenizers Detokenizer.
Open Scope Z_scope.

Record SlowDecoder := mkSlow {
  tokens : list text;
  prefix_offset : Z;
  read_offset : Z
}.

Section Slow.
Variable tk : Tokenizer.
Variable skip_special_tokens spaces_between_special_tokens : bool.

(** [decode_next]; the new id is the last of [ids]. *)
Definition slow_decode_next (ids : list Z) (s : SlowDecoder) : result (text * SlowDecoder) :=
  '(new_tokens, decoded_text, p, r) ←
    detokenize_incrementally tk ids (Some (tokens s)) (prefix_offset s) (read_offset s)
      skip_special_tokens spaces_between_special_tokens;
  Ok (decoded_text, mkSlow (tokens s ++ new_tokens) p r).

#[local] Instance slow_decoder : Decoder SlowDecoder := slow_decode_next.

(** [__init__]; a prompt of embeddings has [prompt_len] rows and no ids. *)
Definition slow_init (prompt_token_ids : option (list Z)) (prompt_len : Z) : Detok SlowDecoder :=
  let s := match prompt_token_ids with
    | Some ids => let '(t, p, r) := convert_prompt_ids_to_tokens tk ids skip_special_tokens in mkSlow t p r
    | None => mkSlow (replicate (Z.to_nat prompt_len) []) 0 0
    end in
  mkDetok (match prompt_token_ids with Some [] | None => replicate (Z.to_nat prompt_len) 0 | Some ids => ids end) [] 0 s.

(** The pieces of one output token. *)
Definition pieces (id : Z) : list text :=
  if (0 <=? id) && (id <? vocab_len tk) then replace_none_with_empty (convert_ids_to_tokens tk skip_special_tokens [id]) else [[]].

(** ** The text of the output *)

Let to_text := tokens_text tk skip_special_tokens spaces_between_special_tokens.

(** A tokenizer may change the text before a character that is not complete, never before one that is. *)
Hypothesis text_nil : to_text [] = [].
Hypothesis text_app : forall a b, ends_incomplete (to_text a) = false -> to_text (a ++ b) = to_text a ++ to_text b.

Lemma ends_incomplete_app s t : t <> [] -> ends_incomplete (s ++ t) = ends_incomplete t.
Proof. intros Ht. unfold ends_incomplete. rewrite last_app. destruct (last t) eqn:Hl; [done|]. by apply last_None in Hl. Qed.

(** The decoder looks back on the pieces [B] and has not returned the text of [C]. *)
Definition slow_at (s : SlowDecoder) (A B C : list text) : Prop :=
  tokens s = A ++ B ++ C /\ prefix_offset s = zlen A /\ read_offset s = zlen A + zlen B /\
  ends_incomplete (to_text B) = false.

(** Text that is held back: none, or one that ends in the middle of a character. *)
Definition held_back (t : text) : Prop := t = [] \/ ends_incomplete t = true.

Lemma slow_step ids id s A B C : slow_at s A B C -> exists t s' A' B' C',
  slow_decode_next (ids ++ [id]) s = Ok (t, s') /\ slow_at s' A' B' C' /\
  (t = [] /\ C' = C ++ pieces id /\ held_back (to_text C') \/
   t = to_text (C ++ pieces id) /\ C' = [] /\ ends_incomplete t = false).
Proof.
  intros (Ht & Hp & Hr & HB). unfold slow_decode_next, detokenize_incrementally.
  rewrite py_index_last. cbn [mbind result_bind]. fold (pieces id). fold to_text.
  set (out := tokens s ++ pieces id). assert (out = A ++ B ++ C ++ pieces id) as Hout by (unfold out; rewrite Ht, <-!app_assoc; done).
  assert (py_slice out (prefix_offset s) (read_offset s) = B) as ->.
  { rewrite py_slice_nonneg, Hp, Hr by lia. rewrite Nat2Z.id, Hout, drop_app_length.
    replace (Z.to_nat (zlen A + zlen B) - length A)%nat with (length B) by lia. apply take_app_length. }
  assert (py_from out (prefix_offset s) = B ++ C ++ pieces id) as ->.
  { rewrite py_from_nonneg, Hp by lia. rewrite Nat2Z.id, Hout. apply drop_app_length. }
  rewrite (text_app B) by done. rewrite length_app.
  destruct (Z.leb_spec (Z.of_nat (length (to_text B) + length (to_text (C ++ pieces id)))) (zlen (to_text B))) as [Hle|Hgt]; cbn [orb].
  - cbn. exists [], (mkSlow out (prefix_offset s) (read_offset s)), A, B, (C ++ pieces id).
    split; [done|]. split; [done|]. left. split; [done|]. split; [done|]. left. apply nil_length_inv. lia.
  - assert (to_text (C ++ pieces id) <> []) as Hne by (intros Hn; rewrite Hn in Hgt; cbn in Hgt; lia).
    rewrite ends_incomplete_app by done. destruct (ends_incomplete (to_text (C ++ pieces id))) eqn:Hinc; cbn.
    + exists [], (mkSlow out (prefix_offset s) (read_offset s)), A, B, (C ++ pieces id).
      split; [done|]. split; [done|]. left. split; [done|]. split; [done|]. by right.
    + exists (to_text (C ++ pieces id)), (mkSlow out (read_offset s) (zlen out)), (A ++ B), (C ++ pieces id), [].
      split.
      * rewrite py_from_nonneg by lia. by rewrite Nat2Z.id, drop_app_length.
      * split; [|by right]. unfold slow_at. cbn. rewrite app_nil_r, Hout, <-app_assoc, !length_app. split; [done|]. split; [lia|]. split; [lia|done].
Qed.

(** What holds after the output pieces [O] were read. *)
Definition slow_read (d : Detok SlowDecoder) (O : list text) : Prop := exists A B C O1,
  slow_at (decoder d) A B C /\ O = O1 ++ C /\ output_text d = to_text O1 /\ ends_incomplete (to_text O1) = false /\
  held_back (to_text C).

Lemma slow_read_step c id d off O : slow_read d O -> exists d' off',
  decode_one c id (d, off) = Ok (d', off') /\ slow_read d' (O ++ pieces id).
Proof.
  intros (A & B & C & O1 & Hat & -> & Hout & Hc & Hh). destruct (slow_step (token_ids d) id _ _ _ _ Hat)
    as (t & s' & A' & B' & C' & Hs & Hat' & Hcase). unfold decode_one, decode_next, slow_decoder. rewrite Hs. cbn [mbind result_bind].
  eexists _, _. split; [done|]. rewrite <-app_assoc. destruct Hcase as [(-> & -> & Hh')|(-> & -> & Hc')].
  - exists A', B', (C ++ pieces id), O1. cbn. by rewrite app_nil_r.
  - exists A', B', [], (O1 ++ C ++ pieces id). cbn. rewrite app_nil_r, (text_app O1), Hout by done.
    split; [done|]. split; [done|]. split; [done|]. split; [|left; apply text_nil].
    destruct (decide (to_text (C ++ pieces id) = [])) as [Hn|Hn]; [by rewrite Hn, app_nil_r|by rewrite ends_incomplete_app].
Qed.

Lemma slow_read_all c ids : forall d off O, slow_read d O -> exists d' off',
  for_each (decode_one c) ids (d, off) = Ok (d', off') /\ slow_read d' (O ++ concat (pieces <$> ids)).
Proof.
  induction ids as [|id ids IH]; intros d off O Hd; cbn [for_each fmap list_fmap concat].
  - exists d, off. by rewrite app_nil_r.
  - destruct (slow_read_step c id d off O Hd) as (d1 & off1 & -> & Hd1). cbn [mbind result_bind].
    destruct (IH d1 off1 _ Hd1) as (d' & off' & Hr & Hd'). exists d', off'. split; [done|]. by rewrite app_assoc.
Qed.

(** The pieces of the prompt the decoder looks back on. *)
Definition prompt_tail (prompt_token_ids : list Z) : list text :=
  let '(t, p, _) := convert_prompt_ids_to_tokens tk prompt_token_ids skip_special_tokens in py_from t p.

Lemma slow_init_read prompt n : ends_incomplete (to_text (prompt_tail prompt)) = false -> slow_read (slow_init (Some prompt) n) [].
Proof.
  unfold prompt_tail, slow_init, convert_prompt_ids_to_tokens. cbn. set (ts := convert_ids_to_tokens tk _ _).
  assert (zlen (replace_none_with_empty ts) = zlen ts) as Hlen by (unfold replace_none_with_empty; by rewrite length_fmap).
  set (p := Z.max (zlen ts - INITIAL_INCREMENTAL_DETOKENIZATION_OFFSET) 0). rewrite py_from_nonneg by lia. intros Hc.
  assert (0 <= p <= zlen ts) by (unfold p, INITIAL_INCREMENTAL_DETOKENIZATION_OFFSET; lia).
  exists (take (Z.to_nat p) (replace_none_with_empty ts)), (drop (Z.to_nat p) (replace_none_with_empty ts)), [], [].
  cbn. rewrite text_nil. split; [|done || (split; [done|]; split; [done|]; split; [done|by left])].
  unfold slow_at. cbn. rewrite app_nil_r, take_drop, length_take, length_drop. split; [done|]. split; [lia|]. split; [lia|done].
Qed.

Lemma slow_text_Ok c prompt n ids : ends_incomplete (to_text (prompt_tail prompt)) = false -> exists d off held,
  for_each (decode_one c) ids (slow_init (Some prompt) n, 0) = Ok (d, off) /\
  to_text (concat (pieces <$> ids)) = output_text d ++ held /\ held_back held.
Proof.
  intros Hc. destruct (slow_read_all c ids _ 0 _ (slow_init_read prompt n Hc)) as (d & off & Hr & A & B & C & O1 & _ & HO & Ht & Hc1 & Hh).
  exists d, off, (to_text C). split; [done|]. split; [|done]. cbn in HO. by rewrite HO, text_app, Ht.
Qed.
End Slow.

(** * What has been returned *)


(** A tokenizer whose tokens are bytes; byte 1 starts a character of two bytes. *)
Fixpoint pair_decode (bytes : list Z) : text :=
  match bytes with
  | 1 :: x :: rest => (100 + x) :: pair_decode rest
  | [1] => [replacement_char]
  | x :: rest => x :: pair_decode rest
  | [] => []
  end.
Definition pair_tokenizer : Tokenizer :=
  mkTokenizer 256 true [] [] (fun _ ids => (fun id => Some [id]) <$> ids) (fun ts => pair_decode (concat ts)) pair_decode None.

Lemma pair_decode_cons x l : x <> 1 -> pair_decode (x :: l) = x :: pair_decode l.
Proof. intros Hx. cbn. destruct x as [|p|p]; try done. destruct p; done. Qed.

Lemma ends_incomplete_cons x s : s <> [] -> ends_incomplete (x :: s) = ends_incomplete s.
Proof. apply (ends_incomplete_app [x]). Qed.

Lemma pair_decode_nil s : pair_decode s = [] -> s = [].
Proof.
  destruct s as [|x s]; [done|]. destruct (decide (x = 1)) as [->|Hx]; [by destruct s|by rewrite pair_decode_cons].
Qed.

Lemma pair_decode_app n : forall a b, (length a <= n)%nat -> ends_incomplete (pair_decode a) = false ->
  pair_decode (a ++ b) = pair_decode a ++ pair_decode b.
Proof.
  assert (forall y l, ends_incomplete (y :: pair_decode l) = false -> ends_incomplete (pair_decode l) = false) as Htail.
  { intros y l. destruct (decide (pair_decode l = [])) as [->|Hne]; [done|]. by rewrite ends_incomplete_cons. }
  induction n as [|n IH]; intros a b Hlen Ha; [by destruct a; [|cbn in Hlen; lia]|].
  destruct a as [|x a]; [done|]. cbn in Hlen. destruct (decide (x = 1)) as [->|Hx].
  - destruct a as [|y a]; [by vm_compute in Ha|]. cbn in Hlen. cbn [app]. change (pair_decode (1 :: y :: a ++ b)) with ((100 + y) :: pair_decode (a ++ b)).
    change (pair_decode (1 :: y :: a)) with ((100 + y) :: pair_decode a) in *. rewrite (IH a) by (lia || by apply Htail in Ha). done.
  - cbn [app]. rewrite !pair_decode_cons in * by done. rewrite (IH a) by (lia || by apply Htail in Ha). done.
Qed.

