(* ===== verification/Logprobs.v ===== *)
(** Log probabilities of a request: the containers of src/upstream/vllm/logprobs.py
    (a list of dicts, or [FlatLogprobs], which keeps them in a few flat lists)
    and [LogprobsProcessor] of src/upstream/vllm/v1/engine/logprobs.py.

    A [dict] is an association list in insertion order, because the first key
    of a position is read back as its sampled token. *)
From S2P Require Import Prelude PyFloat Tokenizers.
Open Scope Z_scope.

(** * Containers *)

Record Logprob := mkLogprob { logprob : float; rank : option Z; decoded_token : option text }.

(** [dict[int, Logprob]]. *)
Abbreviation LogprobsOnePosition := (list (Z * Logprob)).

(** [d[k] = v]: the key keeps its place. *)
Fixpoint dict_set (d : LogprobsOnePosition) (k : Z) (v : Logprob) : LogprobsOnePosition :=
  match d with
  | [] => [(k, v)]
  | (k', v') :: d' => if k' =? k then (k', v) :: d' else (k', v') :: dict_set d' k v
  end.
Definition dict_of (rows : list (Z * Logprob)) : LogprobsOnePosition :=
  fold_left (fun d '(k, v) => dict_set d k v) rows [].

Record FlatLogprobs := mkFlat {
  start_indices : list Z;
  end_indices : list Z;
  token_ids : list Z;
  logprobs : list float;
  ranks : list (option Z);
  decoded_tokens : list (option text)
}.
Definition flat_empty : FlatLogprobs := mkFlat [] [] [] [] [] [].

(** [append] and [append_fast]: one position, its rows appended to the flat lists. *)
Definition append_row (f : FlatLogprobs) (row : Z * Logprob) : FlatLogprobs :=
  let '(token_id, lp) := row in
  mkFlat (start_indices f) (end_indices f) (token_ids f ++ [token_id]) (logprobs f ++ [logprob lp])
    (ranks f ++ [rank lp]) (decoded_tokens f ++ [decoded_token lp]).
Definition append_rows (f : FlatLogprobs) (rows : list (Z * Logprob)) : FlatLogprobs :=
  let f := mkFlat (start_indices f ++ [zlen (logprobs f)]) (end_indices f) (token_ids f) (logprobs f) (ranks f) (decoded_tokens f) in
  let f := fold_left append_row rows f in
  mkFlat (start_indices f) (end_indices f ++ [zlen (logprobs f)]) (token_ids f) (logprobs f) (ranks f) (decoded_tokens f).
Definition flat_append (f : FlatLogprobs) (logprobs_one_position : option LogprobsOnePosition) : FlatLogprobs :=
  append_rows f (default [] logprobs_one_position).
Definition flat_extend (f : FlatLogprobs) (logprobs_multi_positions : list (option LogprobsOnePosition)) : FlatLogprobs :=
  fold_left flat_append logprobs_multi_positions f.

Definition flat_len (f : FlatLogprobs) : Z := zlen (start_indices f).

(** [__getitem__] of an index: the dict comprehension. *)
Definition flat_row (f : FlatLogprobs) (i : Z) : result (Z * Logprob) :=
  token_id ← py_index (token_ids f) i; lp ← py_index (logprobs f) i;
  r ← py_index (ranks f) i; tok ← py_index (decoded_tokens f) i;
  Ok (token_id, mkLogprob lp r tok).
Definition flat_get (f : FlatLogprobs) (index : Z) : result LogprobsOnePosition :=
  a ← py_index (start_indices f) index; b ← py_index (end_indices f) index;
  rows ← mapM (flat_row f) (py_range a b);
  Ok (dict_of rows).

(** [__getitem__] of the slice [a:]. *)
Definition flat_from (f : FlatLogprobs) (a : Z) : result FlatLogprobs :=
  let starts := py_from (start_indices f) a in
  let ends := py_from (end_indices f) a in
  min_index ← py_index starts 0; max_index ← py_index ends (-1);
  Ok (mkFlat ((fun i => i - min_index) <$> starts) ((fun i => i - min_index) <$> ends)
    (py_slice (token_ids f) min_index max_index) (py_slice (logprobs f) min_index max_index)
    (py_slice (ranks f) min_index max_index) (py_slice (decoded_tokens f) min_index max_index)).

(** [__iter__]. *)
Definition flat_iter (f : FlatLogprobs) : result (list LogprobsOnePosition) :=
  mapM (flat_get f) (py_range 0 (zlen (start_indices f))).

(** [PromptLogprobs], [SampleLogprobs]. *)
Inductive Logprobs := Flat (f : FlatLogprobs) | Dicts (l : list (option LogprobsOnePosition)).

Definition create_sample_logprobs (flat_logprobs : bool) : Logprobs := if flat_logprobs then Flat flat_empty else Dicts [].
Definition create_prompt_logprobs (flat_logprobs : bool) : Logprobs :=
  if flat_logprobs then Flat (flat_append flat_empty None) else Dicts [None].

Definition logprobs_len (c : Logprobs) : Z := match c with Flat f => flat_len f | Dicts l => zlen l end.

(** [c[a:]]; iterating over [c]; [c.extend(more)]. *)
Definition logprobs_from (c : Logprobs) (a : Z) : result Logprobs :=
  match c with Flat f => f ← flat_from f a; Ok (Flat f) | Dicts l => Ok (Dicts (py_from l a)) end.
Definition positions_of (c : Logprobs) : result (list (option LogprobsOnePosition)) :=
  match c with Flat f => fmap (M := result) (fmap (M := list) Some) (flat_iter f) | Dicts l => Ok l end.
Definition logprobs_extend (c more : Logprobs) : result Logprobs :=
  positions ← positions_of more;
  Ok (match c with Flat f => Flat (flat_extend f positions) | Dicts l => Dicts (l ++ positions) end).

(** The rows of the [zip]; [NONES] never ends. *)
Definition position_rows (token_ids : list Z) (lps : list float) (decoded : option (list text)) (rank num_logprobs : Z)
    : list (Z * Logprob) :=
  let num_logprobs := if num_logprobs =? -1 then zlen lps else num_logprobs in
  let ranks := rank :: py_range 1 (num_logprobs + 1) in
  let decoded := match decoded with Some l => Some <$> l | None => replicate (length token_ids) None end in
  (fun '(token_id, (lp, (r, tok))) => (token_id, mkLogprob lp (Some r) tok)) <$> zip token_ids (zip lps (zip ranks decoded)).

Definition append_logprobs_for_next_position (c : Logprobs) (token_ids : list Z) (lps : list float)
    (decoded : option (list text)) (rank num_logprobs : Z) : Logprobs :=
  let rows := position_rows token_ids lps decoded rank num_logprobs in
  match c with
  | Flat f => Flat (append_rows f rows)
  | Dicts l => Dicts (l ++ [Some (dict_of rows)])
  end.

(** * The processor *)

(** [LogprobsLists]: a row per position. [LogprobsTensors] of a prompt: the same, as a matrix. *)
Record LogprobsLists := mkLists {
  lists_token_ids : list (list Z);
  lists_logprobs : list (list float);
  lists_ranks : list Z
}.

Record LogprobsProcessor := mkProcessor {
  tokenizer : option Tokenizer;
  sample_logprobs : option Logprobs;              (** [logprobs] *)
  prompt_logprobs : option Logprobs;
  cumulative_logprob : option float;
  num_logprobs : option Z;
  num_prompt_logprobs : option Z
}.

Definition processor_from_new_request (tk : option Tokenizer) (flat_logprobs : bool) (num num_prompt : option Z) : LogprobsProcessor :=
  mkProcessor tk ((fun _ => create_sample_logprobs flat_logprobs) <$> num) ((fun _ => create_prompt_logprobs flat_logprobs) <$> num_prompt)
    ((fun _ => float_of_int 0) <$> num) num num_prompt.

(** [_get_sampled_context_ids]. An empty dict has no first key. *)
Definition max_context : Z := 4.
Definition flat_context (f : FlatLogprobs) : result (list Z) :=
  let n := flat_len f in
  ids ← mapM (fun i =>
    a ← py_index (start_indices f) i; b ← py_index (end_indices f) i;
    if a <? b then t ← py_index (token_ids f) a; Ok [t] else Ok []) (py_range (Z.max 0 (n - max_context)) n);
  Ok (concat ids).
Definition dicts_context (l : list (option LogprobsOnePosition)) : result (list Z) :=
  ids ← mapM (fun entry => match entry with
    | Some ((t, _) :: _) => Ok [t]
    | Some [] => Raise StopIteration
    | None => Ok []
    end) (py_from l (Z.max 0 (zlen l - max_context)));
  Ok (concat ids).
Definition get_sampled_context_ids (source : option Logprobs) : result (list Z) :=
  match source with
  | None => Ok []
  | Some (Flat f) => if flat_len f =? 0 then Ok [] else flat_context f
  | Some (Dicts l) => if zlen l =? 0 then Ok [] else dicts_context l
  end.

Section Correct.
Variable tk : Tokenizer.

(** The loop that looks for the end of the complete context tokens. *)
Fixpoint clean_end_loop (context : list Z) (js : list Z) (clean_end : Z) : result Z :=
  match js with
  | [] => Ok clean_end
  | j :: js => x ← py_index context j;
      if ends_incomplete (decode tk [x]) then clean_end_loop context js j else Ok clean_end
  end.

Fixpoint common_len (a b : text) : Z :=
  match a, b with
  | x :: a, y :: b => if x =? y then 1 + common_len a b else 0
  | _, _ => 0
  end.

(** The loop of [_correct_decoded_token] over [num_ctx]. *)
Fixpoint correct_loop (token_id : Z) (context_token_ids : list Z) (num_ctxs : list Z) : result text :=
  match num_ctxs with
  | [] => Ok []
  | num_ctx :: num_ctxs =>
      let context := py_from context_token_ids (- num_ctx) in
      let full_decoded := decode tk (context ++ [token_id]) in
      if ends_incomplete full_decoded then correct_loop token_id context_token_ids num_ctxs else
      clean_end ← clean_end_loop context (py_range_down (zlen context - 1) (-1)) (zlen context);
      let clean_prefix := if 0 <? clean_end then decode tk (py_upto context clean_end) else [] in
      if bool_decide (clean_prefix `prefix_of` full_decoded) then Ok (py_from full_decoded (zlen clean_prefix))
      else Ok (py_from full_decoded (common_len clean_prefix full_decoded))
  end.
Definition correct_decoded_token (token_id : Z) (context_token_ids : list Z) : result text :=
  let max_ctx := Z.min (zlen context_token_ids) 4 in
  correct_loop token_id context_token_ids (py_range 1 (max_ctx + 1)).

(** [_verify_tokens] with the context its callers pass. *)
Definition verify_tokens (decoded_tokens_list : list text) (tokens context_token_ids : list Z) : result (list text) :=
  mapM (fun '(idx, t) =>
    if ends_incomplete t then x ← py_index tokens idx; correct_decoded_token x context_token_ids else Ok t)
    (enumerate decoded_tokens_list).
End Correct.

(** The decoded tokens of one position. *)
Definition decode_position (tk : option Tokenizer) (source : option Logprobs) (token_ids : list Z) : result (option (list text)) :=
  match tk with
  | None => Ok None
  | Some tk =>
      decoded ← convert_ids_list_to_tokens tk token_ids;
      context ← get_sampled_context_ids source;
      decoded ← verify_tokens tk decoded token_ids context;
      Ok (Some decoded)
  end.

(** [_update_sample_logprobs]. *)
Definition sample_step (tk : option Tokenizer) (num : Z) (row : Z * (list float * list Z)) (s : Logprobs * float) : result (Logprobs * float) :=
  let '(rank, (lps, token_ids)) := row in
  let '(c, cumulative) := s in
  decoded ← decode_position tk (Some c) token_ids;
  sampled_token_logprob ← py_index lps 0;
  Ok (append_logprobs_for_next_position c token_ids lps decoded rank num, fadd cumulative sampled_token_logprob).
Definition update_sample_logprobs (lists : LogprobsLists) (p : LogprobsProcessor) : result LogprobsProcessor :=
  num ← or_raise AssertionError (num_logprobs p);
  c ← or_raise AssertionError (sample_logprobs p);
  cumulative ← or_raise AssertionError (cumulative_logprob p);
  '(c, cumulative) ← for_each (sample_step (tokenizer p) num)
    (zip (lists_ranks lists) (zip (lists_logprobs lists) (lists_token_ids lists))) (c, cumulative);
  Ok (mkProcessor (tokenizer p) (Some c) (prompt_logprobs p) (Some cumulative) (num_logprobs p) (num_prompt_logprobs p)).

(** [_update_prompt_logprobs]: the ids are decoded all together, then taken apart again. *)
Definition prompt_step (tk : option Tokenizer) (num width : Z) (all_decoded : option (list text)) (tensors : LogprobsLists) (pos : Z)
    (c : Logprobs) : result Logprobs :=
  token_ids ← py_index (lists_token_ids tensors) pos;
  decoded ← match tk, all_decoded with
    | Some tk, Some all =>
        context ← get_sampled_context_ids (Some c);
        decoded ← verify_tokens tk (py_slice all (pos * width) (pos * width + width)) token_ids context;
        Ok (Some decoded)
    | _, _ => Ok None
    end;
  lps ← py_index (lists_logprobs tensors) pos;
  rank ← py_index (lists_ranks tensors) pos;
  Ok (append_logprobs_for_next_position c token_ids lps decoded rank num).
Definition update_prompt_logprobs (tensors : LogprobsLists) (width : Z) (p : LogprobsProcessor) : result LogprobsProcessor :=
  num ← or_raise AssertionError (num_prompt_logprobs p);
  c ← or_raise AssertionError (prompt_logprobs p);
  all_decoded ← match tokenizer p with
    | None => Ok None
    | Some tk => l ← convert_ids_list_to_tokens tk (concat (lists_token_ids tensors)); Ok (Some l)
    end;
  c ← for_each (prompt_step (tokenizer p) num width all_decoded tensors) (py_range 0 (zlen (lists_logprobs tensors))) c;
  Ok (mkProcessor (tokenizer p) (sample_logprobs p) (Some c) (cumulative_logprob p) (num_logprobs p) (num_prompt_logprobs p)).

(** [pop_prompt_logprobs]: what was collected is returned and forgotten; an empty container stays. *)
Definition pop_prompt_logprobs (p : LogprobsProcessor) : option Logprobs * LogprobsProcessor :=
  let plp := prompt_logprobs p in
  (plp, match plp with
   | Some c => if logprobs_len c =? 0 then p
               else mkProcessor (tokenizer p) (sample_logprobs p) (Some (Dicts [])) (cumulative_logprob p) (num_logprobs p) (num_prompt_logprobs p)
   | None => p
   end).

(** [update_from_output]; the second component of the prompt part is the width of its matrix. *)
Definition logprobs_update_from_output (new_logprobs : option LogprobsLists) (new_prompt : option (LogprobsLists * Z))
    (p : LogprobsProcessor) : result LogprobsProcessor :=
  p ← (match new_logprobs with Some l => update_sample_logprobs l p | None => Ok p end : result LogprobsProcessor);
  match new_prompt with Some (t, w) => update_prompt_logprobs t w p | None => Ok p end.
