(* ===== verification/LogprobsCorrect.v ===== *)
(** [FlatLogprobs] behaves like the list of dicts it stands for, the processor
    collects the same positions with either container, and no corrected token
    ends in the middle of a character. *)
From S2P Require Import Prelude PyFloat Tokenizers Logprobs.
Open Scope Z_scope.

(** * The flat lists of a list of positions *)

Abbreviation Rows := (list (Z * Logprob)).
Implicit Types (chunks : list Rows) (rows : Rows).

Fixpoint starts (o : Z) chunks : list Z :=
  match chunks with [] => [] | rows :: chunks => o :: starts (o + zlen rows) chunks end.
Fixpoint ends (o : Z) chunks : list Z :=
  match chunks with [] => [] | rows :: chunks => (o + zlen rows) :: ends (o + zlen rows) chunks end.

Definition columns (sts ens : list Z) (all : Rows) : FlatLogprobs :=
  mkFlat sts ens (fst <$> all) ((fun x => logprob x.2) <$> all) ((fun x => rank x.2) <$> all) ((fun x => decoded_token x.2) <$> all).
Definition flatten chunks : FlatLogprobs := columns (starts 0 chunks) (ends 0 chunks) (concat chunks).

Lemma zlen_app {A} (l k : list A) : zlen (l ++ k) = zlen l + zlen k.
Proof. rewrite length_app. lia. Qed.

Lemma starts_app o chunks chunks' : starts o (chunks ++ chunks') = starts o chunks ++ starts (o + zlen (concat chunks)) chunks'.
Proof.
  revert o. induction chunks as [|rows chunks IH]; intros o; cbn; [by rewrite Z.add_0_r|].
  rewrite IH, zlen_app. do 2 f_equal. f_equal. lia.
Qed.

Lemma ends_app o chunks chunks' : ends o (chunks ++ chunks') = ends o chunks ++ ends (o + zlen (concat chunks)) chunks'.
Proof.
  revert o. induction chunks as [|rows chunks IH]; intros o; cbn; [by rewrite Z.add_0_r|].
  rewrite IH, zlen_app. do 2 f_equal. f_equal. lia.
Qed.

Lemma length_starts o chunks : length (starts o chunks) = length chunks.
Proof. revert o. induction chunks as [|rows chunks IH]; intros o; cbn; [done|by rewrite IH]. Qed.

Lemma length_ends o chunks : length (ends o chunks) = length chunks.
Proof. revert o. induction chunks as [|rows chunks IH]; intros o; cbn; [done|by rewrite IH]. Qed.

Lemma shift_starts m o chunks : (fun i => i - m) <$> starts o chunks = starts (o - m) chunks.
Proof. revert o. induction chunks as [|rows chunks IH]; intros o; cbn; [done|]. rewrite IH. do 2 f_equal. lia. Qed.

Lemma shift_ends m o chunks : (fun i => i - m) <$> ends o chunks = ends (o - m) chunks.
Proof. revert o. induction chunks as [|rows chunks IH]; intros o; cbn; [done|]. rewrite IH. f_equal; [lia|]. f_equal. lia. Qed.

Lemma append_row_columns sts ens all row : append_row (columns sts ens all) row = columns sts ens (all ++ [row]).
Proof. unfold columns. destruct row. by rewrite !fmap_app. Qed.

Lemma append_rows_columns sts ens rows : forall all, fold_left append_row rows (columns sts ens all) = columns sts ens (all ++ rows).
Proof.
  induction rows as [|row rows IH]; intros all; cbn [fold_left]; [by rewrite app_nil_r|].
  by rewrite append_row_columns, IH, <-app_assoc.
Qed.

(** [append] adds a position. *)
Lemma flatten_append chunks rows : append_rows (flatten chunks) rows = flatten (chunks ++ [rows]).
Proof.
  unfold append_rows, flatten. rewrite starts_app, ends_app, concat_app. cbn [concat starts ends]. rewrite app_nil_r.
  cbn [start_indices end_indices token_ids logprobs ranks decoded_tokens columns].
  change (mkFlat _ (ends 0 chunks) _ _ _ _) with (columns (starts 0 chunks ++ [zlen ((fun x : Z * Logprob => logprob x.2) <$> concat chunks)]) (ends 0 chunks) (concat chunks)).
  rewrite append_rows_columns. cbn [start_indices end_indices token_ids logprobs ranks decoded_tokens columns].
  by rewrite !length_fmap, zlen_app.
Qed.

(** ** Reading *)

Lemma flat_row_at sts ens all k : (k < length all)%nat -> exists row, all !! k = Some row /\ flat_row (columns sts ens all) (Z.of_nat k) = Ok row.
Proof.
  intros Hk. destruct (lookup_lt_is_Some_2 all k Hk) as [[i [lp r t]] Hrow]. exists (i, mkLogprob lp r t). split; [done|].
  unfold flat_row, columns. cbn [token_ids logprobs ranks decoded_tokens].
  rewrite (py_index_Ok _ _ i), (py_index_Ok _ _ lp), (py_index_Ok _ _ r), (py_index_Ok _ _ t); try lia; [done|..];
    rewrite Nat2Z.id, list_lookup_fmap, Hrow; done.
Qed.

Lemma flat_rows_range sts ens all n : forall a, (a + n <= length all)%nat ->
  mapM (flat_row (columns sts ens all)) (py_range (Z.of_nat a) (Z.of_nat (a + n))) = Ok (take n (drop a all)).
Proof.
  induction n as [|n IH]; intros a Ha; [by rewrite py_range_nil by lia|].
  rewrite py_range_cons by lia. destruct (flat_row_at sts ens all a ltac:(lia)) as (row & Hrow & Hf).
  cbn [mapM]. rewrite Hf. cbn [mbind result_bind]. replace (Z.of_nat a + 1) with (Z.of_nat (S a)) by lia.
  replace (a + S n)%nat with (S a + n)%nat by lia. rewrite IH by lia. by rewrite (drop_S all row a Hrow).
Qed.

Lemma lookup_starts chunks i : (i < length chunks)%nat -> starts 0 chunks !! i = Some (zlen (concat (take i chunks))).
Proof.
  intros Hi. rewrite <-(take_drop i chunks) at 1. rewrite starts_app, lookup_app_r; rewrite length_starts, length_take; [|lia].
  replace (i - i `min` length chunks)%nat with 0%nat by lia. destruct (drop i chunks) eqn:Hd; [|done].
  apply (f_equal length) in Hd. rewrite length_drop in Hd. cbn in Hd. lia.
Qed.

Lemma lookup_ends chunks i rows : chunks !! i = Some rows -> ends 0 chunks !! i = Some (zlen (concat (take i chunks)) + zlen rows).
Proof.
  intros Hi. pose proof (lookup_lt_Some _ _ _ Hi). rewrite <-(take_drop i chunks) at 1. rewrite ends_app, lookup_app_r; rewrite length_ends, length_take; [|lia].
  replace (i - i `min` length chunks)%nat with 0%nat by lia. by rewrite (drop_S _ _ _ Hi).
Qed.

Lemma concat_take_drop chunks i rows : chunks !! i = Some rows ->
  take (length rows) (drop (length (concat (take i chunks))) (concat chunks)) = rows /\
  (length (concat (take i chunks)) + length rows <= length (concat chunks))%nat.
Proof.
  intros Hi. assert (concat chunks = concat (take i chunks) ++ rows ++ concat (drop (S i) chunks)) as ->.
  { rewrite <-(take_drop i chunks) at 1. rewrite concat_app. by rewrite (drop_S _ _ _ Hi). }
  rewrite drop_app_length, take_app_length, !length_app. split; [done|lia].
Qed.

Lemma flat_get_nat chunks i rows : chunks !! i = Some rows ->
  py_index (starts 0 chunks) (Z.of_nat i) = Ok (zlen (concat (take i chunks))) /\
  py_index (ends 0 chunks) (Z.of_nat i) = Ok (zlen (concat (take i chunks)) + zlen rows) /\
  mapM (flat_row (flatten chunks)) (py_range (zlen (concat (take i chunks))) (zlen (concat (take i chunks)) + zlen rows)) = Ok rows.
Proof.
  intros Hi. pose proof (lookup_lt_Some _ _ _ Hi) as Hlt. destruct (concat_take_drop _ _ _ Hi) as [Heq Hle].
  split; [|split].
  - apply py_index_Ok; [lia|]. rewrite Nat2Z.id. by apply lookup_starts.
  - apply py_index_Ok; [lia|]. rewrite Nat2Z.id. by apply lookup_ends.
  - rewrite <-Nat2Z.inj_add. unfold flatten. rewrite flat_rows_range by done. by rewrite Heq.
Qed.

(** The place an index stands for in a list of [n]. *)
Definition place (n : nat) (i : Z) : option nat :=
  let j := if i <? 0 then i + Z.of_nat n else i in
  if (0 <=? j) && (j <? Z.of_nat n) then Some (Z.to_nat j) else None.

Lemma place_lt n i k : place n i = Some k -> (k < n)%nat.
Proof.
  unfold place. set (j := if i <? 0 then _ else _). destruct (Z.leb_spec 0 j), (Z.ltb_spec j (Z.of_nat n)); cbn; try done.
  intros [= <-]. lia.
Qed.

Lemma py_index_place {A} n (l : list A) i : length l = n ->
  py_index l i = match place n i with Some k => py_index l (Z.of_nat k) | None => Raise IndexError end.
Proof.
  intros <-. unfold py_index, place. set (j := if i <? 0 then i + zlen l else i).
  destruct (Z.ltb_spec j 0), (Z.leb_spec 0 j), (Z.ltb_spec j (zlen l)); cbn [andb]; try lia; [done|..].
  - destruct (Z.ltb_spec (Z.of_nat (Z.to_nat j)) 0); [lia|]. destruct (Z.ltb_spec (Z.of_nat (Z.to_nat j)) 0); [lia|]. by rewrite Nat2Z.id.
  - by rewrite lookup_ge_None_2 by lia.
Qed.

(** Indexing, with any index: the dict of the position, or the error of a list. *)
Lemma flatten_get chunks i : flat_get (flatten chunks) i = (rows ← py_index chunks i; Ok (dict_of rows)).
Proof.
  unfold flat_get. change (start_indices (flatten chunks)) with (starts 0 chunks). change (end_indices (flatten chunks)) with (ends 0 chunks).
  rewrite (py_index_place (length chunks) (starts 0 chunks)), (py_index_place (length chunks) (ends 0 chunks)), (py_index_place (length chunks) chunks)
    by (done || apply length_starts || apply length_ends).
  destruct (place (length chunks) i) as [n|] eqn:Hn; [|done]. apply place_lt in Hn.
  destruct (lookup_lt_is_Some_2 chunks n Hn) as [rows Hrows]. destruct (flat_get_nat _ _ _ Hrows) as (H1 & H2 & H3).
  rewrite H1, H2. cbn [mbind result_bind]. rewrite H3. cbn [mbind result_bind].
  rewrite (py_index_Ok chunks (Z.of_nat n) rows); [done|lia|by rewrite Nat2Z.id].
Qed.

(** Iterating. *)
Lemma flatten_iter chunks : flat_iter (flatten chunks) = Ok (dict_of <$> chunks).
Proof.
  unfold flat_iter. change (start_indices (flatten chunks)) with (starts 0 chunks). rewrite length_starts.
  apply mapM_Ok. apply Forall2_same_length_lookup_2.
  { unfold py_range. rewrite length_seqZ, length_fmap. lia. }
  intros k x y Hx Hy. unfold py_range in Hx. apply lookup_seqZ in Hx as [-> Hk]. rewrite list_lookup_fmap in Hy.
  apply fmap_Some in Hy as (rows & Hrows & ->). rewrite Z.add_0_l, flatten_get.
  rewrite (py_index_Ok chunks (Z.of_nat k) rows); [done|lia|by rewrite Nat2Z.id].
Qed.

(** ** The slice [a:] *)

Lemma flatten_from chunks a :
  flat_from (flatten chunks) a = if bool_decide (py_from chunks a = []) then Raise IndexError else Ok (flatten (py_from chunks a)).
Proof.
  unfold flat_from, py_from. change (start_indices (flatten chunks)) with (starts 0 chunks). change (end_indices (flatten chunks)) with (ends 0 chunks).
  rewrite length_starts, length_ends. set (k := Z.to_nat (slice_bound (zlen chunks) a)).
  assert (drop k (starts 0 chunks) = starts (zlen (concat (take k chunks))) (drop k chunks)) as ->.
  { rewrite <-(take_drop k chunks) at 1. rewrite starts_app, drop_app, length_starts. rewrite drop_ge by (rewrite length_starts, length_take; lia).
    rewrite length_take. destruct (decide (k <= length chunks)%nat); [by replace (k - k `min` length chunks)%nat with 0%nat by lia|].
    rewrite (drop_ge chunks) by lia. cbn. by rewrite drop_nil. }
  assert (drop k (ends 0 chunks) = ends (zlen (concat (take k chunks))) (drop k chunks)) as ->.
  { rewrite <-(take_drop k chunks) at 1. rewrite ends_app, drop_app, length_ends. rewrite drop_ge by (rewrite length_ends, length_take; lia).
    rewrite length_take. destruct (decide (k <= length chunks)%nat); [by replace (k - k `min` length chunks)%nat with 0%nat by lia|].
    rewrite (drop_ge chunks) by lia. cbn. by rewrite drop_nil. }
  set (m := zlen (concat (take k chunks))). destruct (drop k chunks) as [|rows rest] eqn:Hd; [done|].
  rewrite bool_decide_false by done. rewrite <-Hd. assert (py_index (starts m (drop k chunks)) 0 = Ok m) as -> by by rewrite Hd.
  assert (py_index (ends m (drop k chunks)) (-1) = Ok (m + zlen (concat (drop k chunks)))) as ->.
  { assert (drop k chunks <> []) as Hne by by rewrite Hd. destruct (exists_last Hne) as (l & x & ->).
    rewrite ends_app, concat_app. cbn [ends concat]. rewrite py_index_last, app_nil_r, zlen_app. f_equal. lia. }
  cbn [mbind result_bind]. rewrite shift_starts, shift_ends, Z.sub_diag. unfold flatten at 5, columns.
  assert (forall A (g : Z * Logprob -> A), py_slice (g <$> concat chunks) m (m + zlen (concat (drop k chunks))) = g <$> concat (drop k chunks)) as Hcol.
  { intros A g. rewrite py_slice_nonneg by lia. rewrite <-(take_drop k chunks) at 2. rewrite concat_app, fmap_app.
    rewrite drop_app_length' by (rewrite length_fmap; unfold m; lia). apply take_ge. rewrite length_fmap. lia. }
  cbn [token_ids logprobs ranks decoded_tokens flatten columns]. by rewrite !Hcol.
Qed.

Lemma flatten_extend chunks more : flat_extend (flatten chunks) more = flatten (chunks ++ (default [] <$> more)).
Proof.
  unfold flat_extend. revert chunks. induction more as [|p more IH]; intros chunks; cbn; [by rewrite app_nil_r|].
  unfold flat_append at 2. rewrite flatten_append, IH, <-app_assoc. done.
Qed.

(** * The same positions in either container *)

(** A position without rows was appended as [None], as a prompt's first is. *)
Definition entry_of (rows : Rows) : option LogprobsOnePosition := if bool_decide (rows = []) then None else Some (dict_of rows).
Definition same_container (cf cl : Logprobs) : Prop :=
  exists chunks, cf = Flat (flatten chunks) /\ cl = Dicts (entry_of <$> chunks).

Lemma dict_set_head k v d k' v' : exists v'', head (dict_set ((k, v) :: d) k' v') = Some (k, v'').
Proof. cbn. destruct (Z.eqb_spec k k') as [->|]; eauto. Qed.

Lemma dict_of_head k v rows : exists v', head (dict_of ((k, v) :: rows)) = Some (k, v').
Proof.
  unfold dict_of. cbn [fold_left dict_set].
  assert (forall d v, exists v', head (fold_left (fun d '(k, v) => dict_set d k v) rows ((k, v) :: d)) = Some (k, v')) as H; [|apply H].
  induction rows as [|[k' v'] rows IH]; intros d w; cbn [fold_left]; [eauto|].
  cbn [dict_set]. destruct (k =? k'); apply IH.
Qed.

(** The sampled token of a position. *)
Definition sampled (rows : Rows) : list Z := match rows with [] => [] | row :: _ => [row.1] end.

Lemma mapM_Ok_fmap {A B} (f : A -> result B) (g : A -> B) l : Forall (fun x => f x = Ok (g x)) l -> mapM f l = Ok (g <$> l).
Proof. intros Hf. apply mapM_Ok. induction Hf; by constructor. Qed.

Lemma dicts_context_Ok chunks : dicts_context (entry_of <$> chunks) =
  Ok (concat (sampled <$> drop (Z.to_nat (zlen chunks - max_context)) chunks)).
Proof.
  unfold dicts_context. rewrite length_fmap, py_from_nonneg by lia. replace (Z.to_nat (Z.max 0 (zlen chunks - max_context))) with (Z.to_nat (zlen chunks - max_context)) by lia.
  rewrite <-fmap_drop. set (l := drop _ chunks). clearbody l.
  assert (mapM (M := result) (fun entry : option LogprobsOnePosition => match entry with
    | Some ((t, _) :: _) => Ok [t] | Some [] => Raise StopIteration | None => Ok [] end) (entry_of <$> l) = Ok (sampled <$> l)) as ->; [|done].
  apply mapM_Ok. induction l as [|rows l IH]; [constructor|]. cbn [fmap list_fmap]. constructor; [|exact IH].
  unfold entry_of. destruct rows as [|[k v] rows]; [done|]. rewrite bool_decide_false by done.
  destruct (dict_of_head k v rows) as [v' Hv]. destruct (dict_of ((k, v) :: rows)) as [|[k' w] d]; [done|]. by injection Hv as -> ->.
Qed.

Lemma flat_context_Ok chunks : flat_context (flatten chunks) =
  Ok (concat (sampled <$> drop (Z.to_nat (zlen chunks - max_context)) chunks)).
Proof.
  unfold flat_context, flat_len. change (start_indices (flatten chunks)) with (starts 0 chunks). change (end_indices (flatten chunks)) with (ends 0 chunks).
  rewrite length_starts. set (a := Z.max 0 (zlen chunks - max_context)).
  rewrite (mapM_Ok _ _ (sampled <$> drop (Z.to_nat (zlen chunks - max_context)) chunks)); [done|].
  assert (0 <= a <= zlen chunks) by (unfold a, max_context; lia).
  apply Forall2_same_length_lookup_2.
  { unfold py_range. rewrite length_seqZ, length_fmap, length_drop. unfold a in *. lia. }
  intros k x y Hx Hy. unfold py_range in Hx. apply lookup_seqZ in Hx as [-> Hk]. rewrite list_lookup_fmap, lookup_drop in Hy.
  apply fmap_Some in Hy as (rows & Hrows & ->). replace (Z.to_nat (zlen chunks - max_context) + k)%nat with (Z.to_nat a + k)%nat in Hrows by lia.
  destruct (flat_get_nat _ _ _ Hrows) as (H1 & H2 & _). replace (a + Z.of_nat k) with (Z.of_nat (Z.to_nat a + k)) by lia.
  rewrite H1, H2. cbn [mbind result_bind]. destruct rows as [|row rows].
  { by destruct (Z.ltb_spec (zlen (concat (take (Z.to_nat a + k) chunks))) (zlen (concat (take (Z.to_nat a + k) chunks)) + zlen (@nil (Z * Logprob)))); [cbn in *; lia|]. }
  destruct (Z.ltb_spec (zlen (concat (take (Z.to_nat a + k) chunks))) (zlen (concat (take (Z.to_nat a + k) chunks)) + zlen (row :: rows))); [|cbn in *; lia].
  destruct (concat_take_drop _ _ _ Hrows) as [Heq _]. cbn [flatten columns token_ids].
  rewrite (py_index_Ok _ _ row.1); [done|lia|]. rewrite Nat2Z.id, list_lookup_fmap.
  apply (f_equal (.!! 0%nat)) in Heq. rewrite lookup_take_lt, lookup_drop, Nat.add_0_r in Heq by (cbn; lia). by rewrite Heq.
Qed.

Lemma same_context cf cl : same_container cf cl -> get_sampled_context_ids (Some cf) = get_sampled_context_ids (Some cl) /\
  is_ok (get_sampled_context_ids (Some cf)).
Proof.
  intros (chunks & -> & ->). cbn [get_sampled_context_ids]. unfold flat_len. change (start_indices (flatten chunks)) with (starts 0 chunks).
  rewrite length_starts, length_fmap, flat_context_Ok, dicts_context_Ok. by destruct (_ =? 0).
Qed.

(** ** One position *)

(** Two computations that raise the same exception, or return related values. *)
Definition same_result {A B} (R : A -> B -> Prop) (x : result A) (y : result B) : Prop :=
  match x, y with Ok a, Ok b => R a b | Raise e, Raise e' => e = e' | _, _ => False end.

Lemma same_result_bind {A B A' B'} (R : A -> B -> Prop) (R' : A' -> B' -> Prop) x y f g :
  same_result R x y -> (forall a b, R a b -> same_result R' (f a) (g b)) -> same_result R' (x ≫= f) (y ≫= g).
Proof. intros Hxy Hfg. destruct x, y; cbn in *; try done. by apply Hfg. Qed.

Lemma same_result_refl {A} (x : result A) : same_result eq x x.
Proof. by destruct x. Qed.

Lemma same_append cf cl ids lps decoded r num : same_container cf cl -> position_rows ids lps decoded r num <> [] ->
  same_container (append_logprobs_for_next_position cf ids lps decoded r num) (append_logprobs_for_next_position cl ids lps decoded r num).
Proof.
  intros (chunks & -> & ->) Hrows. exists (chunks ++ [position_rows ids lps decoded r num]). cbn [append_logprobs_for_next_position].
  rewrite flatten_append, fmap_app. split; [done|]. cbn [fmap list_fmap]. unfold entry_of at 3. by rewrite bool_decide_false.
Qed.

(** The tokenizer returns a piece per id. *)
Definition pieces_match (tk : option Tokenizer) : Prop :=
  forall t ids, tk = Some t -> length (convert_ids_to_tokens t false ids) = length ids.

Lemma mapM_length {A B} (f : A -> result B) l k : mapM f l = Ok k -> length k = length l.
Proof.
  revert k. induction l as [|x l IH]; cbn; intros k Hk; [by injection Hk as <-|]. apply bind_Ok_inv in Hk as (y & _ & Hk).
  apply bind_Ok_inv in Hk as (k' & Hk' & Hk). injection Hk as <-. cbn. f_equal. apply IH. exact Hk'.
Qed.

Lemma convert_ids_length t ids l : length (convert_ids_to_tokens t false ids) = length ids ->
  convert_ids_list_to_tokens t ids = Ok l -> length l = length ids.
Proof.
  intros Hl. unfold convert_ids_list_to_tokens. destruct (bool_decide_reflect (ids = [])) as [->|]; [by intros [= <-]|].
  destruct (get_leading_space_marker t); intros Hr; [|injection Hr as <-; by rewrite length_fmap].
  apply mapM_length in Hr. rewrite Hr, length_zip_with, Hl. lia.
Qed.

Lemma position_rows_nonempty ids lps decoded r num : ids <> [] -> lps <> [] ->
  (forall l, decoded = Some l -> length l = length ids) -> position_rows ids lps decoded r num <> [].
Proof.
  intros Hi Hl Hd. destruct ids as [|i ids]; [done|]. destruct lps as [|lp lps]; [done|]. unfold position_rows.
  destruct decoded as [l|]; [|done]. specialize (Hd l eq_refl). by destruct l.
Qed.

Lemma decode_position_length tk source ids decoded l : pieces_match tk ->
  decode_position tk source ids = Ok decoded -> decoded = Some l -> length l = length ids.
Proof.
  intros Htk Hd ->. unfold decode_position in Hd. destruct tk as [t|]; [|done].
  apply bind_Ok_inv in Hd as (d1 & Hd1 & Hd). apply bind_Ok_inv in Hd as (cx & _ & Hd). apply bind_Ok_inv in Hd as (d2 & Hd2 & Hd).
  injection Hd as ->. apply mapM_length in Hd2. unfold enumerate in Hd2. rewrite length_imap in Hd2.
  apply (convert_ids_length t ids d1) in Hd1; [lia|by apply Htk].
Qed.

Lemma same_decode_position tk cf cl ids : same_container cf cl -> decode_position tk (Some cf) ids = decode_position tk (Some cl) ids.
Proof. intros Hc. unfold decode_position. destruct tk; [|done]. by destruct (same_context cf cl Hc) as [-> _]. Qed.

(** ** The processor *)

Definition same_lists (x y : Logprobs * float) : Prop := same_container x.1 y.1 /\ x.2 = y.2.

Lemma same_sample_step tk num row x y : pieces_match tk -> row.2.2 <> [] -> same_lists x y ->
  same_result same_lists (sample_step tk num row x) (sample_step tk num row y).
Proof.
  destruct row as [r [lps ids]], x as [cf cum], y as [cl cum']. cbn. intros Htk Hids [Hc He]. cbn in Hc, He. subst cum'.
  rewrite (same_decode_position tk cf cl ids Hc). destruct (decode_position tk (Some cl) ids) as [decoded|] eqn:Hd; [|done].
  cbn [mbind result_bind]. destruct lps as [|lp lps]; [done|]. cbn. split; [|done]. apply same_append; [done|].
  apply position_rows_nonempty; [done|done|]. intros l Hl. by apply (decode_position_length tk (Some cl) ids decoded).
Qed.

Lemma same_for_each {A S S'} (R : S -> S' -> Prop) (P : A -> Prop) f g (xs : list A) :
  (forall x s s', P x -> R s s' -> same_result R (f x s) (g x s')) -> Forall P xs ->
  forall s s', R s s' -> same_result R (for_each f xs s) (for_each g xs s').
Proof.
  intros Hfg. induction 1 as [|x xs Hx _ IH]; intros s s' Hs; cbn [for_each]; [done|].
  apply (same_result_bind R); [by apply Hfg|]. intros a b Hab. by apply IH.
Qed.

(** Two processors that differ in their containers only. *)
Definition same_option (x y : option Logprobs) : Prop :=
  match x, y with Some cf, Some cl => same_container cf cl | None, None => True | _, _ => False end.
Record same_processor (pf pl : LogprobsProcessor) : Prop := {
  same_tokenizer : tokenizer pf = tokenizer pl;
  same_sample : same_option (sample_logprobs pf) (sample_logprobs pl);
  same_prompt : same_option (prompt_logprobs pf) (prompt_logprobs pl);
  same_cumulative : cumulative_logprob pf = cumulative_logprob pl;
  same_num : num_logprobs pf = num_logprobs pl;
  same_num_prompt : num_prompt_logprobs pf = num_prompt_logprobs pl
}.

Lemma same_from_new_request tk num num_prompt :
  same_processor (processor_from_new_request tk true num num_prompt) (processor_from_new_request tk false num num_prompt).
Proof.
  split; try done; cbn.
  - destruct num; [|done]. by exists [].
  - destruct num_prompt; [|done]. by exists [[]].
Qed.

Lemma same_or_raise (x y : option Logprobs) : same_option x y -> same_result same_container (or_raise AssertionError x) (or_raise AssertionError y).
Proof. by destruct x, y. Qed.

(** The rows of a position: its token ids come with their log probabilities. *)
Definition lists_ok (l : LogprobsLists) : Prop := Forall (.≠ []) (lists_token_ids l).

Lemma zip_third {A B C} (P : C -> Prop) (xs : list A) (ys : list B) (zs : list C) :
  Forall P zs -> Forall (fun row => P row.2.2) (zip xs (zip ys zs)).
Proof.
  revert xs ys. induction zs as [|z zs IH]; intros xs ys Hz; [destruct xs, ys; constructor|].
  apply Forall_cons in Hz as [Hz Hzs]. destruct xs, ys; try constructor; [done|by apply IH].
Qed.

Lemma same_update_sample lists pf pl : pieces_match (tokenizer pf) -> lists_ok lists -> same_processor pf pl ->
  same_result same_processor (update_sample_logprobs lists pf) (update_sample_logprobs lists pl).
Proof.
  intros Htk Hl [Ht Hs Hp Hc Hn Hnp]. unfold update_sample_logprobs. rewrite <-Ht, <-Hc, <-Hn, <-Hnp.
  destruct (num_logprobs pf) as [num|]; [|done]. cbn [or_raise mbind result_bind].
  apply (same_result_bind same_container); [by apply same_or_raise|]. intros cf cl Hcc.
  destruct (cumulative_logprob pf) as [cum|]; [|done]. cbn [or_raise mbind result_bind].
  apply (same_result_bind same_lists).
  - apply (same_for_each same_lists (fun row => row.2.2 <> [])); [|by apply (zip_third (.≠ []))|done].
    intros row x y Hrow Hxy. by apply same_sample_step.
  - intros [cf' x] [cl' y] [Hc' Hxy]. cbn in Hc', Hxy. subst y. split; cbn; done.
Qed.

(** A prompt's tensors: matrices of the same number of rows, [width] wide. *)
Record matrix_ok (t : LogprobsLists) (width : Z) : Prop := {
  matrix_width : 0 < width;
  matrix_ids : Forall (fun row => zlen row = width) (lists_token_ids t);
  matrix_lps : Forall (fun row => zlen row = width) (lists_logprobs t);
  matrix_rows : length (lists_token_ids t) = length (lists_logprobs t)
}.

Lemma concat_width {A} (l : list (list A)) w : Forall (fun row => zlen row = w) l -> zlen (concat l) = zlen l * w.
Proof. induction 1 as [|row l Hrow _ IH]; [done|]. cbn [concat length]. rewrite zlen_app, IH, Hrow. lia. Qed.

Lemma verify_length tk l toks ctx l' : verify_tokens tk l toks ctx = Ok l' -> length l' = length l.
Proof. intros Hv%mapM_length. unfold enumerate in Hv. by rewrite length_imap in Hv. Qed.

Lemma same_prompt_step tk num width all t pos cf cl : matrix_ok t width -> 0 <= pos < zlen (lists_logprobs t) ->
  (forall l, all = Some l -> length l = length (concat (lists_token_ids t))) -> same_container cf cl ->
  same_result same_container (prompt_step tk num width all t pos cf) (prompt_step tk num width all t pos cl).
Proof.
  intros [Hw Hids Hlps Hrows] Hpos Hall Hc. unfold prompt_step.
  destruct (py_index_is_Ok (lists_token_ids t) pos ltac:(lia)) as (ids & Hid & ->).
  destruct (py_index_is_Ok (lists_logprobs t) pos ltac:(lia)) as (lps & Hlp & ->). cbn [mbind result_bind].
  pose proof (Forall_lookup_1 _ _ _ _ Hids Hid) as Hidw. pose proof (Forall_lookup_1 _ _ _ _ Hlps Hlp) as Hlpw. cbn in Hidw, Hlpw.
  assert (ids <> [] /\ lps <> []) as [Hidne Hlpne] by (split; intros ->; cbn in *; lia).
  destruct (same_context cf cl Hc) as [-> _].
  assert (forall decoded : option (list text), (forall l, decoded = Some l -> length l = length ids) -> forall r,
    same_result same_container (Ok (append_logprobs_for_next_position cf ids lps decoded r num))
      (Ok (append_logprobs_for_next_position cl ids lps decoded r num))) as Happ.
  { intros decoded Hd r. apply same_append; [done|]. by apply position_rows_nonempty. }
  assert (forall decoded : option (list text), (forall l, decoded = Some l -> length l = length ids) ->
    same_result same_container (rank ← py_index (lists_ranks t) pos; Ok (append_logprobs_for_next_position cf ids lps decoded rank num))
      (rank ← py_index (lists_ranks t) pos; Ok (append_logprobs_for_next_position cl ids lps decoded rank num))) as Hrank.
  { intros decoded Hd. destruct (py_index (lists_ranks t) pos); [by apply Happ|done]. }
  destruct tk as [tk|]; [|by apply Hrank]. destruct all as [all|]; [|by apply Hrank].
  destruct (get_sampled_context_ids (Some cl)) as [ctx|]; [|done]. cbn [mbind result_bind].
  destruct (verify_tokens tk _ ids ctx) as [decoded|] eqn:Hv; [|done]. cbn [mbind result_bind]. apply Hrank.
  intros l [= <-]. apply verify_length in Hv. rewrite Hv. specialize (Hall all eq_refl).
  pose proof (concat_width _ _ Hids) as Hcw. apply Nat2Z.inj. rewrite length_py_slice by nia. lia.
Qed.

Lemma same_update_prompt t width pf pl : pieces_match (tokenizer pf) -> matrix_ok t width -> same_processor pf pl ->
  same_result same_processor (update_prompt_logprobs t width pf) (update_prompt_logprobs t width pl).
Proof.
  intros Htk Hm [Ht Hs Hp Hc Hn Hnp]. unfold update_prompt_logprobs. rewrite <-Ht, <-Hc, <-Hn, <-Hnp.
  destruct (num_prompt_logprobs pf) as [num|]; [|done]. cbn [or_raise mbind result_bind].
  apply (same_result_bind same_container); [by apply same_or_raise|]. intros cf cl Hcc.
  apply (same_result_bind (fun x y => x = y /\ forall l, x = Some l -> length l = length (concat (lists_token_ids t)))).
  - destruct (tokenizer pf) as [tk|]; [|done]. destruct (convert_ids_list_to_tokens tk _) as [l|] eqn:Hl; [|done]. cbn.
    split; [done|]. intros l' [= <-]. apply (convert_ids_length tk _ _ (Htk _ _ eq_refl) Hl).
  - intros all all' [<- Hall]. apply (same_result_bind same_container).
    + apply (same_for_each same_container (fun pos => 0 <= pos < zlen (lists_logprobs t))); [|apply Forall_forall; intros pos; apply elem_of_py_range|done].
      intros pos x y Hpos Hxy. by apply same_prompt_step.
    + intros cf' cl' Hc'. by split.
Qed.

(** What one output of the engine brings. *)
Definition output_ok (o : option LogprobsLists * option (LogprobsLists * Z)) : Prop :=
  (forall l, o.1 = Some l -> lists_ok l) /\ (forall t w, o.2 = Some (t, w) -> matrix_ok t w).
Definition update_step (o : option LogprobsLists * option (LogprobsLists * Z)) (p : LogprobsProcessor) : result LogprobsProcessor :=
  logprobs_update_from_output o.1 o.2 p.

Lemma update_tokenizer_sample l p p' : update_sample_logprobs l p = Ok p' -> tokenizer p' = tokenizer p.
Proof.
  unfold update_sample_logprobs. intros Hu. do 3 (apply bind_Ok_inv in Hu as (? & _ & Hu)).
  apply bind_Ok_inv in Hu as ([? ?] & _ & Hu). by injection Hu as <-.
Qed.

Lemma update_tokenizer_prompt t w p p' : update_prompt_logprobs t w p = Ok p' -> tokenizer p' = tokenizer p.
Proof.
  unfold update_prompt_logprobs. intros Hu. do 4 (apply bind_Ok_inv in Hu as (? & _ & Hu)). by injection Hu as <-.
Qed.

Lemma same_update_step o pf pl : pieces_match (tokenizer pf) -> output_ok o -> same_processor pf pl ->
  same_result (fun x y => same_processor x y /\ tokenizer x = tokenizer pf) (update_step o pf) (update_step o pl).
Proof.
  destruct o as [new np]. intros Htk [Hnew Hnp] Hp. unfold update_step, logprobs_update_from_output. cbn [fst snd] in *.
  apply (same_result_bind (fun x y => same_processor x y /\ tokenizer x = tokenizer pf)).
  - destruct new as [l|]; [|by split]. specialize (Hnew l eq_refl). pose proof (same_update_sample l pf pl Htk Hnew Hp) as Hs.
    destruct (update_sample_logprobs l pf) eqn:Hu, (update_sample_logprobs l pl); try done. split; [done|]. by apply update_tokenizer_sample in Hu.
  - intros a b [Hab Ha]. destruct np as [[t w]|]; [|by split]. specialize (Hnp t w eq_refl).
    pose proof (same_update_prompt t w a b ltac:(by rewrite Ha) Hnp Hab) as Hs.
    destruct (update_prompt_logprobs t w a) eqn:Hu, (update_prompt_logprobs t w b); try done. split; [done|].
    apply update_tokenizer_prompt in Hu. by rewrite Hu.
Qed.

Lemma same_updates os pf pl : pieces_match (tokenizer pf) -> Forall output_ok os -> same_processor pf pl ->
  same_result same_processor (for_each update_step os pf) (for_each update_step os pl).
Proof.
  intros Htk Hos. revert pf pl Htk. induction Hos as [|o os Ho _ IH]; intros pf pl Htk Hp; cbn [for_each]; [done|].
  apply (same_result_bind (fun x y => same_processor x y /\ tokenizer x = tokenizer pf)); [by apply same_update_step|].
  intros a b [Hab Ha]. apply IH; [by rewrite Ha|done].
Qed.

(** * Corrected tokens *)

Section Corrected.
Variable tk : Tokenizer.

Lemma ends_incomplete_drop n s : ends_incomplete s = false -> ends_incomplete (drop n s) = false.
Proof.
  intros Hs. unfold ends_incomplete in *. rewrite <-(take_drop n s), last_app in Hs.
  by destruct (last (drop n s)).
Qed.

Lemma common_len_nonneg a b : 0 <= common_len a b.
Proof. revert b. induction a as [|x a IH]; intros [|y b]; cbn; try done. destruct (x =? y); [specialize (IH b)|]; lia. Qed.

Lemma clean_end_loop_Ok context js : Forall (fun j => 0 <= j < zlen context) js -> forall k, 0 <= k <= zlen context ->
  exists k', clean_end_loop tk context js k = Ok k' /\ 0 <= k' <= zlen context.
Proof.
  induction 1 as [|j js Hj _ IH]; intros k Hk; cbn [clean_end_loop]; [by exists k|].
  destruct (py_index_is_Ok context j Hj) as (x & _ & ->). cbn [mbind result_bind].
  destruct (ends_incomplete (decode tk [x])); [apply IH; lia|by exists k].
Qed.

Lemma correct_loop_Ok token_id context num_ctxs : exists t, correct_loop tk token_id context num_ctxs = Ok t /\ ends_incomplete t = false.
Proof.
  induction num_ctxs as [|n num_ctxs IH]; cbn [correct_loop]; [by exists []|].
  destruct (ends_incomplete (decode tk (py_from context (- n) ++ [token_id]))) eqn:Hfull; [exact IH|].
  set (cx := py_from context (- n)) in *. destruct (clean_end_loop_Ok cx (py_range_down (zlen cx - 1) (-1))) with (k := zlen cx) as (k & -> & _); [|lia|].
  { apply Forall_forall. intros j Hj. unfold py_range_down in Hj. rewrite elem_of_reverse, elem_of_seqZ in Hj. lia. }
  cbn [mbind result_bind]. destruct (bool_decide _); eexists; (split; [done|]); rewrite py_from_nonneg by (lia || apply common_len_nonneg);
    by apply ends_incomplete_drop.
Qed.

Lemma verify_tokens_Ok decoded tokens context : (length decoded <= length tokens)%nat -> exists l,
  verify_tokens tk decoded tokens context = Ok l /\
  Forall2 (fun t t' => ends_incomplete t' = false /\ (ends_incomplete t = false -> t' = t)) decoded l.
Proof.
  intros Hl. unfold verify_tokens. set (f := fun '(idx, t) => _).
  assert (forall k, (k <= length decoded)%nat -> exists l, mapM f (drop k (enumerate decoded)) = Ok l /\
    Forall2 (fun t t' => ends_incomplete t' = false /\ (ends_incomplete t = false -> t' = t)) (drop k decoded) l) as H; [|apply (H 0%nat); lia].
  intros k. remember (length decoded - k)%nat as n eqn:Hn. revert k Hn. induction n as [|n IH]; intros k Hn Hk.
  - exists []. rewrite !drop_ge by (unfold enumerate; rewrite ?length_imap; lia). by split.
  - destruct (lookup_lt_is_Some_2 decoded k ltac:(lia)) as [t Ht]. rewrite (drop_S decoded t k Ht).
    rewrite (drop_S (enumerate decoded) (Z.of_nat k, t) k) by (unfold enumerate; by rewrite list_lookup_imap, Ht).
    destruct (IH (S k) ltac:(lia) ltac:(lia)) as (l & Hm & Hf). cbn [mapM]. rewrite Hm. unfold f at 1.
    destruct (ends_incomplete t) eqn:Hinc.
    + destruct (py_index_is_Ok tokens (Z.of_nat k) ltac:(lia)) as (x & _ & ->). cbn [mbind result_bind].
      unfold correct_decoded_token. destruct (correct_loop_Ok x context (py_range 1 (Z.min (zlen context) 4 + 1))) as (t' & -> & Ht').
      exists (t' :: l). split; [done|]. constructor; [|done]. by rewrite Hinc.
    + exists (t :: l). split; [done|]. by constructor.
Qed.
End Corrected.

(** * Properties *)

(** A container built by appends is the list of its positions: indexing (with the errors of a
    list), iterating, its length, the slice [a:] (an error where it would be empty) and [extend]. *)
Theorem flat_logprobs_is_a_list chunks :
  let f := fold_left append_rows chunks flat_empty in
  (forall i, flat_get f i = (rows ← py_index chunks i; Ok (dict_of rows))) /\
  flat_iter f = Ok (dict_of <$> chunks) /\ flat_len f = zlen chunks /\
  (forall a, flat_from f a = if bool_decide (py_from chunks a = []) then Raise IndexError
                             else Ok (fold_left append_rows (py_from chunks a) flat_empty)) /\
  (forall more, flat_extend f more = fold_left append_rows (chunks ++ (default [] <$> more)) flat_empty).
Proof.
  assert (forall l, fold_left append_rows l flat_empty = flatten l) as Hf.
  { intros l. induction l as [|rows l IH] using rev_ind; [done|]. by rewrite fold_left_app, IH, <-flatten_append. }
  cbn zeta. rewrite Hf. split; [apply flatten_get|]. split; [apply flatten_iter|].
  split; [unfold flat_len; cbn; by rewrite length_starts|].
  split; [intros a; rewrite Hf; apply flatten_from|]. intros more. rewrite Hf. apply flatten_extend.
Qed.

(** The positions two containers hold, a missing one counted as empty. *)
Definition same_positions (x y : option Logprobs) : Prop :=
  match x, y with
  | Some cf, Some cl => exists l l', positions_of cf = Ok l /\ positions_of cl = Ok l' /\ default [] <$> l = default [] <$> l'
  | None, None => True
  | _, _ => False
  end.

Lemma same_option_positions x y : same_option x y -> same_positions x y.
Proof.
  destruct x as [cf|], y as [cl|]; try done. intros (chunks & -> & ->). cbn. exists (Some <$> (dict_of <$> chunks)), (entry_of <$> chunks).
  rewrite flatten_iter. split; [done|]. split; [done|]. rewrite <-!list_fmap_compose. apply list_fmap_ext. intros i rows _. cbn.
  unfold entry_of. by destruct (bool_decide_reflect (rows = [])) as [->|].
Qed.

(** C18: Flat or not, the processor collects the same: over any sequence of outputs the two
    requests raise the same exception or hold the same sample and prompt positions and the same
    cumulative log probability. *)
Theorem flat_processor_refines_dicts tk num num_prompt os :
  pieces_match tk -> Forall output_ok os ->
  same_result (fun pf pl => same_positions (sample_logprobs pf) (sample_logprobs pl) /\
      same_positions (prompt_logprobs pf) (prompt_logprobs pl) /\ cumulative_logprob pf = cumulative_logprob pl)
    (for_each update_step os (processor_from_new_request tk true num num_prompt))
    (for_each update_step os (processor_from_new_request tk false num num_prompt)).
Proof.
  intros Htk Hos. pose proof (same_updates os (processor_from_new_request tk true num num_prompt) _ Htk Hos (same_from_new_request tk num num_prompt)) as Hs.
  destruct (for_each _ _ _) as [pf|], (for_each _ _ _) as [pl|]; try done. destruct Hs as [_ Hsa Hpr Hcu _ _].
  split; [by apply same_option_positions|]. split; [by apply same_option_positions|done].
Qed.

(** A tokenizer of bytes in which byte 200 alone decodes to the replacement character, and
    two of them to one letter. *)
Definition pairs_of_200 (ids : list Z) : text :=
  match ids with
  | [200] => [replacement_char]
  | 200 :: 200 :: rest => 960 :: rest
  | _ => ids
  end.
Definition byte_tokenizer : Tokenizer :=
  mkTokenizer 256 true [] [] (fun _ ids => (fun id => Some [id]) <$> ids) (fun ts => concat ts) pairs_of_200 None.
Definition one_row (token : Z) : option LogprobsLists * option (LogprobsLists * Z) :=
  (Some (mkLists [[token; 65]] [[float_of_int (-1); float_of_int (-2)]] [1]), None).

Lemma flat_processor_refines_dicts_witness :
  same_result (fun pf pl => same_positions (sample_logprobs pf) (sample_logprobs pl) /\
      same_positions (prompt_logprobs pf) (prompt_logprobs pl) /\ cumulative_logprob pf = cumulative_logprob pl)
    (for_each update_step [one_row 200; one_row 200] (processor_from_new_request (Some byte_tokenizer) true (Some 1) (Some 0)))
    (for_each update_step [one_row 200; one_row 200] (processor_from_new_request (Some byte_tokenizer) false (Some 1) (Some 0))) /\
  is_ok (for_each update_step [one_row 200; one_row 200] (processor_from_new_request (Some byte_tokenizer) true (Some 1) (Some 0))) = true.
Proof.
  split; [|vm_compute; reflexivity]. apply (flat_processor_refines_dicts (Some byte_tokenizer) (Some 1) (Some 0) [one_row 200; one_row 200]).
  - intros t ids [= <-]. cbn. apply length_fmap.
  - assert (output_ok (one_row 200)) by (split; [intros l [= <-]; by repeat constructor|done]). by apply Forall_cons_2; [|apply Forall_cons_2].
Defined.

(** No token reported next to a log probability ends in the middle of a character: one
    that did is replaced by the text it completes (or by nothing), the others stay as they are, and no
    index is out of range. *)
Theorem verified_tokens_are_complete tk decoded tokens context : (length decoded <= length tokens)%nat -> exists l,
  verify_tokens tk decoded tokens context = Ok l /\
  Forall2 (fun t t' => ends_incomplete t' = false /\ (ends_incomplete t = false -> t' = t)) decoded l.
Proof. apply verify_tokens_Ok. Qed.

Lemma verified_tokens_are_complete_witness : exists l,
  verify_tokens byte_tokenizer [[replacement_char]; [65]] [200; 65] [200] = Ok l /\
  Forall2 (fun t t' => ends_incomplete t' = false /\ (ends_incomplete t = false -> t' = t)) [[replacement_char]; [65]] l.
Proof. apply (verified_tokens_are_complete byte_tokenizer [[replacement_char]; [65]] [200; 65] [200]). cbn. lia. Defined.

Example completed_letter : verify_tokens byte_tokenizer [[replacement_char]; [65]] [200; 65] [200] = Ok [[960]; [65]].
Proof. vm_compute. reflexivity. Qed.
