(* ===== verification/RequestOutput.v ===== *)
(** What a client is handed: [CompletionOutput] and [RequestOutput] of
    src/upstream/vllm/outputs.py, and [RequestOutputCollector] of
    src/upstream/vllm/v1/engine/output_processor.py, which holds one output for the
    consumer and merges the next ones into it.

    [K] stands for the connector parameters, [E] for the rows of routed experts,
    [X] for a pooled tensor. Metrics and LoRA names are left out. *)
From stdpp Require Import strings.
From S2P Require Import Prelude PyFloat Request Tokenizers Logprobs.
Open Scope Z_scope.

Inductive RequestOutputKind := CUMULATIVE | DELTA | FINAL_ONLY.

#[export] Instance output_kind_eq_dec : EqDecision RequestOutputKind.
Proof. solve_decision. Defined.

#[export] Instance finish_reason_eq_dec : EqDecision FinishReason.
Proof. solve_decision. Defined.

Inductive OutputStopReason := StopToken (token_id : Z) | StopString (s : text).

Section Outputs.
Context {K E X : Type}.

Record CompletionOutput := mkCompletion {
  index : Z;
  co_text : text;
  co_token_ids : list Z;
  cumulative : option float;
  co_logprobs : option Logprobs;
  routed_experts : option (list E);
  finish_reason : option FinishReason;
  co_stop_reason : option OutputStopReason
}.

(** [finished()]. *)
Definition completion_finished (c : CompletionOutput) : bool := bool_decide (is_Some (finish_reason c)).

(** A slot of [outputs] that no child has filled is [None]. *)
Record RequestOutput := mkRequestOutput {
  ro_request_id : string;
  ro_prompt : option text;
  ro_prompt_token_ids : option (list Z);
  ro_prompt_logprobs : option Logprobs;
  outputs : list (option CompletionOutput);
  finished : bool;
  kv_transfer_params : option K;
  ec_transfer_params : option K;
  ro_num_cached_tokens : Z;
  ro_num_cache_creation_tokens : Z
}.

Definition with_finished (f : bool) (o : RequestOutput) : RequestOutput :=
  mkRequestOutput (ro_request_id o) (ro_prompt o) (ro_prompt_token_ids o) (ro_prompt_logprobs o) (outputs o) f
    (kv_transfer_params o) (ec_transfer_params o) (ro_num_cached_tokens o) (ro_num_cache_creation_tokens o).

(** ** [RequestOutput.add] *)

Definition has_logprobs (l : option Logprobs) : bool := match l with Some c => negb (logprobs_len c =? 0) | None => false end.

(** The aggregating branch, for two completions of the same index. *)
Definition merge_completion (completion next : CompletionOutput) : result CompletionOutput :=
  lps ← (if has_logprobs (co_logprobs next) then
           c ← or_raise AssertionError (co_logprobs completion);
           more ← or_raise AssertionError (co_logprobs next);
           l ← logprobs_extend c more; Ok (Some l)
         else Ok (co_logprobs completion) : result (option Logprobs));
  Ok (mkCompletion (index completion) (co_text completion ++ co_text next) (co_token_ids completion ++ co_token_ids next)
        (cumulative next) lps (routed_experts completion) (finish_reason next) (co_stop_reason next)).

(** The inner loop, with its [else]. *)
Fixpoint add_completion (aggregate : bool) (outs : list (option CompletionOutput)) (next : CompletionOutput)
    : result (list (option CompletionOutput)) :=
  match outs with
  | [] => Ok [Some next]
  | None :: _ => Raise AttributeError
  | Some completion :: outs =>
      if index completion =? index next then
        c ← (if aggregate then merge_completion completion next else Ok next);
        Ok (Some c :: outs)
      else outs ← add_completion aggregate outs next; Ok (Some completion :: outs)
  end.

Definition add (self next_output : RequestOutput) (aggregate : bool) : result RequestOutput :=
  outs ← for_each (fun next outs =>
      match next with
      | Some next => add_completion aggregate outs next
      | None => if bool_decide (outs = []) then Ok [None] else Raise AttributeError
      end) (outputs next_output) (outputs self);
  Ok (mkRequestOutput (ro_request_id self) (ro_prompt self) (ro_prompt_token_ids self) (ro_prompt_logprobs self) outs
        (finished self || finished next_output) (kv_transfer_params next_output) (ec_transfer_params next_output)
        (ro_num_cached_tokens self) (ro_num_cache_creation_tokens self)).

Record PoolingRequestOutput := mkPoolingOutput {
  po_request_id : string;
  po_data : X;
  po_prompt_token_ids : list Z;
  po_num_cached_tokens : Z;
  po_finished : bool
}.

Inductive Output := Completions (o : RequestOutput) | Pooled (o : PoolingRequestOutput).

Definition output_finished (o : Output) : bool := match o with Completions o => finished o | Pooled o => po_finished o end.
Definition set_unfinished (o : Output) : Output :=
  match o with
  | Completions o => Completions (with_finished false o)
  | Pooled o => Pooled (mkPoolingOutput (po_request_id o) (po_data o) (po_prompt_token_ids o) (po_num_cached_tokens o) false)
  end.

Definition STREAM_FINISHED : Output := Completions (mkRequestOutput "" None None None [] true None None 0 0).

(** ** [RequestOutputCollector] *)

Inductive Item := Produced (o : Output) | Failed (e : exn).

Record RequestOutputCollector := mkCollector {
  aggregate : bool;
  output : option Item;
  ready : bool                              (** [ready.is_set()] *)
}.

Definition collector_init (kind : RequestOutputKind) : RequestOutputCollector := mkCollector (bool_decide (kind = DELTA)) None false.

Definition put (item : Item) (q : RequestOutputCollector) : result RequestOutputCollector :=
  match output q, item with
  | None, _ | _, Failed _ => Ok (mkCollector (aggregate q) (Some item) true)
  | Some (Produced (Completions o)), Produced (Completions next) =>
      o ← add o next (aggregate q); Ok (mkCollector (aggregate q) (Some (Produced (Completions o))) (ready q))
  | Some (Produced (Pooled _)), Produced (Pooled next) =>
      Ok (mkCollector (aggregate q) (Some (Produced (Pooled next))) (ready q))
  | _, _ => Ok q
  end.

(** [get_nowait], and [get] once something is there: the exception is raised after the slot is cleared. *)
Definition get_nowait (q : RequestOutputCollector) : result (option Output) * RequestOutputCollector :=
  match output q with
  | None => (Ok None, q)
  | Some item =>
      (match item with Produced o => Ok (Some o) | Failed e => Raise e end, mkCollector (aggregate q) None false)
  end.
End Outputs.
Arguments CompletionOutput : clear implicits. Arguments RequestOutput : clear implicits. Arguments Output : clear implicits.
Arguments PoolingRequestOutput : clear implicits. Arguments Item : clear implicits. Arguments RequestOutputCollector : clear implicits.
