(* ===== verification/ParallelSampling.v ===== *)
(** A request for several completions: [ParentRequest] of
    src/upstream/vllm/v1/engine/parallel_sampling.py. *)
From stdpp Require Import strings pretty.
From S2P Require Import Prelude PyFloat Request Tokenizers Logprobs RequestOutput.
Open Scope Z_scope.

(** The fields of [SamplingParams] that the output side reads. *)
Record OutputParams := mkOutputParams {
  n : Z;
  seed : option Z;
  output_kind : RequestOutputKind;
  detokenize : bool;
  params_stream_interval : option Z;
  stop_strings : list text;
  params_min_tokens : Z;
  params_include_stop_str : bool;
  params_logprobs : option Z;
  params_prompt_logprobs : option Z;
  flat_logprobs : bool
}.

Definition child_params (p : OutputParams) (seed : option Z) : OutputParams :=
  mkOutputParams 1 seed (output_kind p) (detokenize p) (params_stream_interval p) (stop_strings p) (params_min_tokens p)
    (params_include_stop_str p) (params_logprobs p) (params_prompt_logprobs p) (flat_logprobs p).

Section Parent.
Context {E : Type}.

Record ParentRequest := mkParent {
  parent_id : string;
  parent_external_id : string;
  sampling_params : OutputParams;
  child_requests : gset string;
  output_aggregator : list (option (CompletionOutput E));
  cached_child_sampling_params : option OutputParams
}.

Definition parent_init (request_id external_req_id : string) (p : OutputParams) : ParentRequest :=
  mkParent request_id external_req_id p ∅ (if bool_decide (output_kind p = FINAL_ONLY) then replicate (Z.to_nat (n p)) None else []) None.

(** [_get_child_sampling_params]. *)
Definition get_child_sampling_params (index : Z) (pr : ParentRequest) : OutputParams * ParentRequest :=
  match cached_child_sampling_params pr with
  | Some p => (p, pr)
  | None =>
      match seed (sampling_params pr) with
      | None => let p := child_params (sampling_params pr) None in
          (p, mkParent (parent_id pr) (parent_external_id pr) (sampling_params pr) (child_requests pr) (output_aggregator pr) (Some p))
      | Some s => (child_params (sampling_params pr) (Some (s + index)), pr)
      end
  end.

Definition child_id (index : Z) (request_id : string) : string := (pretty index +:+ "_" +:+ request_id)%string.

Definition with_children (c : gset string) (pr : ParentRequest) : ParentRequest :=
  mkParent (parent_id pr) (parent_external_id pr) (sampling_params pr) c (output_aggregator pr) (cached_child_sampling_params pr).

Definition get_child_info (index : Z) (pr : ParentRequest) : string * OutputParams * ParentRequest :=
  let child_req_id := child_id index (parent_id pr) in
  let pr := with_children ({[child_req_id]} ∪ child_requests pr) pr in
  let '(p, pr) := get_child_sampling_params index pr in
  (child_req_id, p, pr).

(** [get_outputs]. *)
Definition get_outputs (child_request_id : string) (completion : CompletionOutput E) (pr : ParentRequest)
    : result (list (option (CompletionOutput E)) * bool * ParentRequest) :=
  let known := bool_decide (child_request_id ∈ child_requests pr) in
  let already_finished_and_returned := completion_finished completion && negb known in
  let pr := if completion_finished completion && known then with_children (child_requests pr ∖ {[child_request_id]}) pr else pr in
  let last := bool_decide (child_requests pr = ∅) in
  if negb (bool_decide (output_kind (sampling_params pr) = FINAL_ONLY)) then
    Ok (if already_finished_and_returned then [] else [Some completion], last, pr)
  else
    agg ← py_set (output_aggregator pr) (index completion) (Some completion);
    let pr := mkParent (parent_id pr) (parent_external_id pr) (sampling_params pr) (child_requests pr) agg (cached_child_sampling_params pr) in
    Ok (if last then agg else [], last, pr).
End Parent.
Arguments ParentRequest : clear implicits.

(** * Fan-out and collection *)

Section Collect.
Context {E : Type}.
Implicit Types (pr : ParentRequest E).

(** The loop of [add_request] in v1/engine/llm_engine.py (and in async_llm.py): ids and parameters of the children. *)
Definition fan_out_step (st : list (string * OutputParams) * ParentRequest E) (idx : Z) : list (string * OutputParams) * ParentRequest E :=
  let '(cs, pr) := st in let '(c, p, pr) := get_child_info idx pr in (cs ++ [(c, p)], pr).
Definition fan_out (k : Z) pr : list (string * OutputParams) * ParentRequest E := fold_left fan_out_step (py_range 0 k) ([], pr).

(** The children's final completions, handed over in some order. *)
Abbreviation Collected := (ParentRequest E * list (list (option (CompletionOutput E)) * bool))%type.
Definition collect_step (comps : Z -> CompletionOutput E) (idx : Z) (st : Collected) : result Collected :=
  let '(pr, returned) := st in
  '(outs, fin, pr) ← get_outputs (child_id idx (parent_id pr)) (comps idx) pr;
  Ok (pr, returned ++ [(outs, fin)]).
Definition collect (comps : Z -> CompletionOutput E) (order : list Z) pr : result Collected := for_each (collect_step comps) order (pr, []).

Lemma string_length_app (s t : string) : String.length (s +:+ t)%string = (String.length s + String.length t)%nat.
Proof. induction s as [|a s IH]; [done|]. exact (f_equal S IH). Qed.

Lemma append_cancel_r (s s' t : string) : (s +:+ t = s' +:+ t)%string -> s = s'.
Proof.
  revert s'. induction s as [|a s IH]; intros [|a' s'] Heq; [done|..].
  - apply (f_equal String.length) in Heq. rewrite !string_length_app in Heq. cbn in Heq. lia.
  - apply (f_equal String.length) in Heq. rewrite !string_length_app in Heq. cbn in Heq. lia.
  - cbn in Heq. injection Heq as -> Heq. f_equal. by apply IH.
Qed.

Lemma child_id_inj rid j k : child_id j rid = child_id k rid -> j = k.
Proof.
  unfold child_id. intros Heq. change (pretty j +:+ "_" +:+ rid)%string with (pretty j +:+ ("_" +:+ rid))%string in Heq.
  apply append_cancel_r in Heq. by apply (inj pretty).
Qed.

(** What the children are given. *)
Definition child_seed (p : OutputParams) (idx : Z) : option Z := (fun s => s + idx) <$> seed p.

Lemma fan_out_Ok rid ext p k : 0 <= k ->
  let '(cs, pr) := fan_out k (parent_init (E := E) rid ext p) in
  cs = (fun idx => (child_id idx rid, child_params p (child_seed p idx))) <$> py_range 0 k /\
  child_requests pr = list_to_set ((fun idx => child_id idx rid) <$> py_range 0 k) /\
  parent_id pr = rid /\ sampling_params pr = p /\ output_aggregator pr = output_aggregator (parent_init (E := E) rid ext p).
Proof.
  intros Hk. unfold fan_out.
  assert (forall m, let '(cs, pr) := fold_left fan_out_step (py_range 0 (Z.of_nat m)) ([], parent_init (E := E) rid ext p) in
    cs = (fun idx => (child_id idx rid, child_params p (child_seed p idx))) <$> py_range 0 (Z.of_nat m) /\
    child_requests pr = list_to_set ((fun idx => child_id idx rid) <$> py_range 0 (Z.of_nat m)) /\
    parent_id pr = rid /\ sampling_params pr = p /\ output_aggregator pr = output_aggregator (parent_init (E := E) rid ext p) /\
    (forall q, cached_child_sampling_params pr = Some q -> seed p = None /\ q = child_params p None)) as H.
  2: { specialize (H (Z.to_nat k)). rewrite Z2Nat.id in H by done. destruct (fold_left _ _ _). tauto. }
  intros m; induction m as [|m IH]; [done|]. unfold py_range in *. rewrite Z.sub_0_r in *.
  rewrite seqZ_S, fold_left_app. destruct (fold_left fan_out_step (seqZ 0 (Z.of_nat m)) _) as [cs pr]. destruct IH as (-> & Hc & Hid & Hp & Ha & Hcache).
  cbn [fold_left]. unfold fan_out_step at 1, get_child_info, get_child_sampling_params. cbn. rewrite Hp, Hid, !fmap_app, list_to_set_app_L, Hc. cbn.
  destruct (cached_child_sampling_params pr) as [q|] eqn:Hq.
  - destruct (Hcache q eq_refl) as [Hs ->]. cbn. unfold child_seed at 3. rewrite Hs. cbn. split; [done|].
    split; [set_solver|]. split; [done|]. split; [done|]. split; [done|]. rewrite Hq. by intros ? [= <-].
  - unfold child_seed at 3. destruct (seed p) as [s|] eqn:Hs; cbn; (split; [done|]); (split; [set_solver|]); (split; [done|]); (split; [done|]); (split; [done|]).
    + by rewrite Hq.
    + by intros ? [= <-].
Qed.

(** The completions received so far, by index. *)
Definition collected (comps : Z -> CompletionOutput E) (k : Z) (received : list Z) : list (option (CompletionOutput E)) :=
  (fun idx => if bool_decide (idx ∈ received) then Some (comps idx) else None) <$> py_range 0 k.

Lemma collected_step comps k received idx : 0 <= idx < k ->
  py_set (collected comps k received) idx (Some (comps idx)) = Ok (collected comps k (received ++ [idx])).
Proof.
  intros Hi. assert (zlen (collected comps k received) = k) as Hlen by (unfold collected, py_range; rewrite length_fmap, length_seqZ; lia).
  rewrite py_set_Ok by lia. f_equal. apply list_eq. intros j. destruct (decide (j = Z.to_nat idx)) as [->|Hj].
  - rewrite list_lookup_insert_eq by lia. unfold collected, py_range. rewrite list_lookup_fmap, (lookup_seqZ_lt _ _ _) by lia. cbn.
    rewrite bool_decide_true; [f_equal; f_equal; f_equal; lia|]. apply elem_of_app. right. apply list_elem_of_singleton. lia.
  - rewrite list_lookup_insert_ne by done. unfold collected. rewrite !list_lookup_fmap. unfold py_range.
    destruct (seqZ 0 (k - 0) !! j) as [x|] eqn:Hx; [|done]. cbn. apply lookup_seqZ in Hx as [-> Hx].
    assert ((0 + Z.of_nat j ∈ received ++ [idx]) <-> (0 + Z.of_nat j ∈ received)) as Hiff.
    { rewrite elem_of_app, list_elem_of_singleton. split; [intros [?|?]; [done|lia]|by left]. }
    destruct (bool_decide_reflect (0 + Z.of_nat j ∈ received)), (bool_decide_reflect (0 + Z.of_nat j ∈ received ++ [idx])); tauto.
Qed.

Lemma list_to_set_remove (f : Z -> string) idx rest : (forall j k, f j = f k -> j = k) -> NoDup (idx :: rest) ->
  (list_to_set (f <$> idx :: rest) : gset string) ∖ {[f idx]} = list_to_set (f <$> rest).
Proof.
  intros Hf [Hidx _]%NoDup_cons. cbn. apply set_eq. intros x. rewrite elem_of_difference, elem_of_union, !elem_of_singleton, elem_of_list_to_set.
  split; [intros [[?|?] ?]; done|]. intros Hx. split; [by right|]. intros ->. apply list_elem_of_fmap in Hx as (y & Hy & Hyr).
  apply Hf in Hy as ->. done.
Qed.

Lemma collect_run comps k rid p todo : output_kind p = FINAL_ONLY ->
  (forall idx, 0 <= idx < k -> index (comps idx) = idx /\ completion_finished (comps idx) = true) ->
  Forall (fun idx => 0 <= idx < k) todo -> NoDup todo -> todo <> [] ->
  forall received pr returned, parent_id pr = rid -> sampling_params pr = p ->
    child_requests pr = list_to_set ((fun idx => child_id idx rid) <$> todo) -> output_aggregator pr = collected comps k received ->
  exists pr', for_each (collect_step comps) todo (pr, returned) =
    Ok (pr', returned ++ replicate (length todo - 1) ([], false) ++ [(collected comps k (received ++ todo), true)]).
Proof.
  intros Hkind Hcomps Htodo. induction Htodo as [|idx todo Hidx Htodo IH]; intros Hnd Hne received pr returned Hid Hp Hch Hagg; [done|].
  destruct (Hcomps idx Hidx) as [Hi Hf]. cbn [for_each]. unfold collect_step at 2, get_outputs. rewrite Hid, Hf.
  rewrite (bool_decide_true (child_id idx rid ∈ child_requests pr)) by (rewrite Hch; cbn; set_solver).
  cbn [andb negb with_children output_aggregator child_requests sampling_params]. cbv zeta.
  cbn [with_children output_aggregator child_requests sampling_params parent_id parent_external_id cached_child_sampling_params].
  rewrite Hp, Hkind, (bool_decide_true (FINAL_ONLY = FINAL_ONLY)) by done. cbn [negb].
  rewrite Hagg, Hi, collected_step by done. cbn [mbind result_bind].
  rewrite Hch, (list_to_set_remove (fun idx => child_id idx rid)) by (done || apply child_id_inj).
  destruct todo as [|idx' todo].
  - rewrite bool_decide_true by done. cbn. eexists. reflexivity.
  - rewrite bool_decide_false by (cbn; set_solver). apply NoDup_cons in Hnd as [_ Hnd].
    destruct (IH Hnd ltac:(done) (received ++ [idx]) (mkParent rid (parent_external_id pr) p (list_to_set ((fun idx => child_id idx rid) <$> idx' :: todo))
      (collected comps k (received ++ [idx])) (cached_child_sampling_params pr)) (returned ++ [([], false)]) eq_refl eq_refl ltac:(reflexivity) eq_refl) as (pr' & Hrun).
    exists pr'. cbn [parent_id with_children] in *. rewrite ?Hid, ?Hp. etransitivity; [exact Hrun|]. do 2 f_equal. rewrite <-!app_assoc. cbn.
    do 2 f_equal. by rewrite Nat.sub_0_r.
Qed.

Lemma parent_collects_Ok rid ext p k comps order : 0 < k -> n p = k -> output_kind p = FINAL_ONLY ->
  (forall idx, 0 <= idx < k -> index (comps idx) = idx /\ completion_finished (comps idx) = true) -> order ≡ₚ py_range 0 k ->
  let '(cs, pr) := fan_out k (parent_init rid ext p) in
  cs = (fun idx => (child_id idx rid, child_params p (child_seed p idx))) <$> py_range 0 k /\ NoDup cs.*1 /\
  exists pr', collect comps order pr =
    Ok (pr', replicate (Z.to_nat k - 1) ([], false) ++ [((fun idx => Some (comps idx)) <$> py_range 0 k, true)]).
Proof.
  intros Hk Hn Hkind Hcomps Horder. pose proof (fan_out_Ok rid ext p k ltac:(lia)) as Hfan. destruct (fan_out k _) as [cs pr].
  destruct Hfan as (-> & Hch & Hid & Hp & Hagg). split; [done|]. split.
  { rewrite <-list_fmap_compose. apply NoDup_fmap_2_strong; [|apply NoDup_seqZ]. intros x y _ _. apply child_id_inj. }
  assert (length order = Z.to_nat k) as Hlen by (rewrite Horder; unfold py_range; rewrite length_seqZ; lia).
  destruct (collect_run comps k rid p order Hkind Hcomps) with (received := @nil Z) (pr := pr) (returned := @nil (list (option (CompletionOutput E)) * bool)%type) as (pr' & Hrun).
  - apply Forall_forall. intros idx Hidx. rewrite Horder, elem_of_py_range in Hidx. lia.
  - rewrite Horder. apply NoDup_seqZ.
  - intros ->. cbn in Hlen. lia.
  - done.
  - done.
  - rewrite Hch. apply set_eq. intros x. rewrite !elem_of_list_to_set, !list_elem_of_fmap. by setoid_rewrite Horder.
  - rewrite Hagg. unfold parent_init. cbn. rewrite Hkind, bool_decide_true by done. rewrite Hn. unfold collected, py_range.
    apply list_eq_same_length with (n := Z.to_nat k); [rewrite length_fmap, length_seqZ; lia|by rewrite length_replicate|].
    intros i x y Hi Hx Hy. apply lookup_replicate in Hx as [-> _]. rewrite list_lookup_fmap in Hy.
    apply fmap_Some in Hy as (z & _ & ->). by rewrite bool_decide_false by apply not_elem_of_nil.
  - exists pr'. unfold collect. rewrite Hrun. cbn [app]. rewrite Hlen. do 3 f_equal. f_equal. f_equal. unfold collected.
    apply list_fmap_ext. intros i x Hx. rewrite bool_decide_true; [done|]. rewrite Horder. by apply list_elem_of_lookup_2 in Hx.
Qed.
End Collect.


Definition demo_completion (idx : Z) : CompletionOutput unit := mkCompletion idx [65 + idx] [idx] None None None (Some STOP) None.
Definition demo_parent_params : OutputParams := mkOutputParams 3 (Some 40) FINAL_ONLY true None [] 0 false None None false.

