(* ===== verification/OutputProcessor.v ===== *)
(** Outputs of the engine to outputs of the client: [RequestState] and
    [OutputProcessor] of src/upstream/vllm/v1/engine/output_processor.py.

    [ParentRequest]s and [RequestOutputCollector]s are shared between the states
    of several requests, so they live in stores ([parents], [queues]) and are referred to
    by a number. Statistics, LoRA states and tracing are left out. The order in
    which the children of an aborted parent are taken from its set is a
    parameter, [children_order]. *)
From stdpp Require Import strings.
From S2P Require Import Prelude PyFloat Request Tokenizers Detokenizer Logprobs RequestOutput ParallelSampling.
Open Scope Z_scope.

Section OutputProcessor.
Context `{Decoder D} {K E X : Type}.

(** [IncrementalDetokenizer]: without a tokenizer it only counts the tokens. *)
Inductive Detokenization :=
  | NoTokenizer (ids : list Z)
  | Tokenized (c : DetokConfig) (d : Detok D).

Definition detok_update (new_token_ids : list Z) (stop_terminated : bool) (x : Detokenization) : result (option text * Detokenization) :=
  match x with
  | NoTokenizer ids => Ok (None, NoTokenizer (ids ++ new_token_ids))
  | Tokenized c d => '(s, d) ← update c new_token_ids stop_terminated d; Ok (s, Tokenized c d)
  end.
Definition detok_next_text (finished delta : bool) (x : Detokenization) : text * Detokenization :=
  match x with
  | NoTokenizer _ => ([], x)
  | Tokenized c d => let '(t, d) := get_next_output_text c finished delta d in (t, Tokenized c d)
  end.
Definition detok_num_output_tokens (x : Detokenization) : Z :=
  match x with NoTokenizer ids => zlen ids | Tokenized c d => num_output_tokens c d end.
Definition detok_output_token_ids (x : Detokenization) : list Z :=
  match x with NoTokenizer ids => ids | Tokenized c d => output_token_ids c d end.

(** * State *)

(** What the constructor of a [RequestState] fixes. *)
Record RequestInfo := mkInfo {
  request_id : string;
  external_req_id : string;
  parent_req : option Z;
  request_index : Z;
  kind : RequestOutputKind;
  prompt_embeds_len : option Z;
  queue : option Z;
  stream_interval : Z
}.

Record StreamingUpdate := mkStreaming {
  upd_prompt : option text;
  upd_prompt_token_ids : option (list Z);
  upd_final : bool
}.

(** [processors]: the detokenizer and the logprobs processor of a sampling request. *)
Record RequestState := mkState {
  info : RequestInfo;
  prompt : option text;
  prompt_token_ids : option (list Z);
  processors : option (Detokenization * LogprobsProcessor);
  is_prefilling : bool;
  num_cached_tokens : Z;
  num_cache_creation_tokens : Z;
  routed_experts_chunks : list (list E);
  sent_tokens_offset : Z;
  streaming_input : bool;
  input_chunk_queue : option (list StreamingUpdate)
}.

Record OutputProcessor := mkProcessorState {
  engine_stream_interval : Z;
  has_tokenizer : option Tokenizer;
  request_states : gmap string RequestState;
  parent_requests : gmap string Z;
  external_req_ids : gmap string (list string);
  parents : gmap Z (ParentRequest E);
  queues : gmap Z (RequestOutputCollector K E X)
}.

Definition set_processors (p : option (Detokenization * LogprobsProcessor)) (rs : RequestState) : RequestState :=
  mkState (info rs) (prompt rs) (prompt_token_ids rs) p (is_prefilling rs) (num_cached_tokens rs) (num_cache_creation_tokens rs)
    (routed_experts_chunks rs) (sent_tokens_offset rs) (streaming_input rs) (input_chunk_queue rs).
Definition set_sent (off : Z) (rs : RequestState) : RequestState :=
  mkState (info rs) (prompt rs) (prompt_token_ids rs) (processors rs) (is_prefilling rs) (num_cached_tokens rs)
    (num_cache_creation_tokens rs) (routed_experts_chunks rs) off (streaming_input rs) (input_chunk_queue rs).
Definition set_streaming (s : bool) (q : option (list StreamingUpdate)) (rs : RequestState) : RequestState :=
  mkState (info rs) (prompt rs) (prompt_token_ids rs) (processors rs) (is_prefilling rs) (num_cached_tokens rs)
    (num_cache_creation_tokens rs) (routed_experts_chunks rs) (sent_tokens_offset rs) s q.
Definition set_states (m : gmap string RequestState) (op : OutputProcessor) : OutputProcessor :=
  mkProcessorState (engine_stream_interval op) (has_tokenizer op) m (parent_requests op) (external_req_ids op) (parents op) (queues op).
Definition set_parents (m : gmap Z (ParentRequest E)) (op : OutputProcessor) : OutputProcessor :=
  mkProcessorState (engine_stream_interval op) (has_tokenizer op) (request_states op) (parent_requests op) (external_req_ids op) m (queues op).
Definition set_parent_requests (m : gmap string Z) (op : OutputProcessor) : OutputProcessor :=
  mkProcessorState (engine_stream_interval op) (has_tokenizer op) (request_states op) m (external_req_ids op) (parents op) (queues op).
Definition set_external (m : gmap string (list string)) (op : OutputProcessor) : OutputProcessor :=
  mkProcessorState (engine_stream_interval op) (has_tokenizer op) (request_states op) (parent_requests op) m (parents op) (queues op).
Definition set_queues (m : gmap Z (RequestOutputCollector K E X)) (op : OutputProcessor) : OutputProcessor :=
  mkProcessorState (engine_stream_interval op) (has_tokenizer op) (request_states op) (parent_requests op) (external_req_ids op) (parents op) m.

(** * [RequestState] *)

(** [a or b] on optional strings and lists: an empty one counts as missing. *)
Definition nonempty {A} (o : option (list A)) : option (list A) := match o with Some (_ :: _) => o | _ => None end.

Definition apply_streaming_update (u : StreamingUpdate) (rs : RequestState) : RequestState :=
  let p := match nonempty (upd_prompt u) with
    | Some t => Some (default [] (nonempty (prompt rs)) ++ t)
    | None => prompt rs
    end in
  let ids := match nonempty (prompt_token_ids rs) with
    | Some ids => ids ++ default [] (upd_prompt_token_ids u)
    | None => default [] (upd_prompt_token_ids u)
    end in
  mkState (info rs) p (Some ids) (processors rs) true (num_cached_tokens rs) (num_cache_creation_tokens rs)
    (routed_experts_chunks rs) (sent_tokens_offset rs) (negb (upd_final u)) (input_chunk_queue rs).

(** [_new_completion_output]; [delta and logprobs] looks at the number of positions. *)
Definition new_completion_output (token_ids : list Z) (fin : option FinishReason) (stop : option OutputStopReason) (rs : RequestState)
    : result (CompletionOutput E * RequestState) :=
  '(dt, lp) ← or_raise AssertionError (processors rs);
  let fin_ := bool_decide (is_Some fin) in
  let delta := bool_decide (kind (info rs) = DELTA) in
  let '(t, dt) := detok_next_text fin_ delta dt in
  let token_ids := if delta then token_ids else detok_output_token_ids dt in
  lps ← (match sample_logprobs lp with
         | Some c => if delta && negb (logprobs_len c =? 0) then l ← logprobs_from c (- zlen token_ids); Ok (Some l) else Ok (Some c)
         | None => Ok None
         end : result (option Logprobs));
  let experts := if fin_ && negb (bool_decide (routed_experts_chunks rs = [])) then Some (concat (routed_experts_chunks rs)) else None in
  Ok (mkCompletion (request_index (info rs)) t token_ids (cumulative_logprob lp) lps experts fin (if fin_ then stop else None),
      set_processors (Some (dt, lp)) rs).

(** [_new_request_output] for completions. *)
Definition prompt_ids_of (rs : RequestState) : result (list Z) :=
  match prompt_token_ids rs, prompt_embeds_len (info rs) with
  | Some ids, _ => Ok ids
  | None, Some k => Ok (replicate (Z.to_nat k) 0)
  | None, None => Raise AssertionError
  end.
Definition new_request_output (external : string) (outs : list (option (CompletionOutput E))) (fin : bool) (kv ec : option K)
    (rs : RequestState) : result (Output K E X * RequestState) :=
  ids ← prompt_ids_of rs;
  '(dt, lp) ← or_raise AssertionError (processors rs);
  let '(plp, lp) := if bool_decide (kind (info rs) = DELTA) then pop_prompt_logprobs lp else (prompt_logprobs lp, lp) in
  Ok (Completions (mkRequestOutput external (prompt rs) (Some ids) plp outs fin kv ec (num_cached_tokens rs) (num_cache_creation_tokens rs)),
      set_processors (Some (dt, lp)) rs).

(** [make_request_output]; [ps] is the store of the parents. *)
Definition make_request_output (new_token_ids : list Z) (pooling_output : option X) (fin : option FinishReason) (stop : option OutputStopReason)
    (kv ec : option K) (ps : gmap Z (ParentRequest E)) (rs : RequestState)
    : result (option (Output K E X) * gmap Z (ParentRequest E) * RequestState) :=
  let fin_ := bool_decide (is_Some fin) in
  if negb fin_ && bool_decide (kind (info rs) = FINAL_ONLY) then Ok (None, ps, rs) else
  '(send, new_token_ids, rs) ←
    (if 1 <? stream_interval (info rs) then
       '(dt, _) ← or_raise AssertionError (processors rs);
       if negb (fin_ || (sent_tokens_offset rs =? 0) || (stream_interval (info rs) <=? detok_num_output_tokens dt - sent_tokens_offset rs))
       then Ok (false, new_token_ids, rs)
       else if bool_decide (kind (info rs) = DELTA) then
         Ok (true, py_from (detok_output_token_ids dt) (sent_tokens_offset rs), set_sent (detok_num_output_tokens dt) rs)
       else Ok (true, new_token_ids, rs)
     else Ok (true, new_token_ids, rs) : result (bool * list Z * RequestState));
  if negb send then Ok (None, ps, rs) else
  let external := external_req_id (info rs) in
  match pooling_output with
  | Some x =>
      ids ← prompt_ids_of rs;
      Ok (Some (Pooled (mkPoolingOutput external x ids (num_cached_tokens rs) fin_)), ps, rs)
  | None =>
      '(output, rs) ← new_completion_output new_token_ids fin stop rs;
      match parent_req (info rs) with
      | None =>
          '(o, rs) ← new_request_output external [Some output] fin_ kv ec rs;
          Ok (Some o, ps, rs)
      | Some pref =>
          pr ← or_raise AttributeError (ps !! pref);
          '(outs, fin_, pr) ← get_outputs (request_id (info rs)) output pr;
          let ps := <[pref := pr]> ps in
          if bool_decide (outs = []) then Ok (None, ps, rs) else
          '(o, rs) ← new_request_output (parent_external_id pr) outs fin_ kv ec rs;
          Ok (Some o, ps, rs)
      end
  end.

(** * Adding requests *)

(** [EngineCoreRequest]; [inl]: sampling parameters, [inr]: those of a pooling request. *)
Record EngineCoreRequest := mkCoreRequest {
  core_request_id : string;
  core_external_req_id : option string;
  core_prompt_token_ids : option (list Z);
  core_prompt_embeds_len : option Z;
  core_params : OutputParams + RequestOutputKind;
  resumable : bool
}.

(** [__init__] of the decoder the tokenizer calls for. *)
Variable new_decoder : Tokenizer -> EngineCoreRequest -> Detok D.
(** [length_from_prompt_token_ids_or_embeds] for the detokenizer that keeps the prompt, 0 for the other. *)
Variable kept_prompt_len : Tokenizer -> EngineCoreRequest -> Z.

(** [IncrementalDetokenizer.from_new_request]. *)
Definition detok_from_new_request (tk : option Tokenizer) (p : OutputParams) (r : EngineCoreRequest) : Detokenization :=
  match tk with
  | None => NoTokenizer []
  | Some tk => Tokenized (mkDetokConfig (stop_strings p) (params_min_tokens p) (params_include_stop_str p) (kept_prompt_len tk r)) (new_decoder tk r)
  end.

(** [RequestState.from_new_request]. *)
Definition state_from_new_request (tk : option Tokenizer) (r : EngineCoreRequest) (prompt : option text) (parent : option Z) (index : Z)
    (q : option Z) (interval : Z) : result RequestState :=
  external ← or_raise AssertionError (core_external_req_id r);
  let '(out_kind, interval, procs) := match core_params r with
    | inl p =>
        let tk := if detokenize p then tk else None in
        (output_kind p, match params_stream_interval p with Some i => Z.max i interval | None => interval end,
         Some (detok_from_new_request tk p r,
               processor_from_new_request tk (flat_logprobs p) (params_logprobs p) (params_prompt_logprobs p)))
    | inr out_kind => (out_kind, interval, None)
    end in
  Ok (mkState (mkInfo (core_request_id r) external parent index out_kind (core_prompt_embeds_len r) q interval)
        prompt (core_prompt_token_ids r) procs true 0 0 [] 0 (resumable r) (if resumable r then Some [] else None)).

(** [self.queues[q].put(item)]. *)
Definition put_to (q : option Z) (item : Item K E X) (op : OutputProcessor) : result OutputProcessor :=
  match q with
  | None => Raise AttributeError
  | Some q => c ← or_raise AttributeError (queues op !! q); c ← put item c; Ok (set_queues (<[q := c]> (queues op)) op)
  end.

(** [l.remove(x)]: the first occurrence. *)
Fixpoint list_remove (x : string) (l : list string) : result (list string) :=
  match l with
  | [] => Raise ValueError
  | y :: l => if bool_decide (y = x) then Ok l else l ← list_remove x l; Ok (y :: l)
  end.

(** The lines that take an id out of [external_req_ids], a [defaultdict(list)]. *)
Definition forget_external (external r : string) (op : OutputProcessor) : result OutputProcessor :=
  internal_ids ← list_remove r (default [] (external_req_ids op !! external));
  Ok (set_external (if bool_decide (internal_ids = []) then delete external (external_req_ids op)
                    else <[external := internal_ids]> (external_req_ids op)) op).

(** [_finish_request]. *)
Definition finish_request (rs : RequestState) (op : OutputProcessor) : result OutputProcessor :=
  let r := request_id (info rs) in
  _ ← or_raise KeyError (request_states op !! r);
  op ← forget_external (external_req_id (info rs)) r (set_states (delete r (request_states op)) op);
  match parent_req (info rs) with
  | None => Ok op
  | Some pref =>
      pr ← or_raise AttributeError (parents op !! pref);
      Ok (if bool_decide (child_requests pr = ∅) then set_parent_requests (delete (parent_id pr) (parent_requests op)) op else op)
  end.

(** [_update_streaming_request_state]. *)
Definition update_streaming_request_state (rs : RequestState) (r : EngineCoreRequest) (prompt : option text) (op : OutputProcessor)
    : result OutputProcessor :=
  let save (rs : RequestState) := Ok (set_states (<[request_id (info rs) := rs]> (request_states op)) op) in
  if negb (resumable r) then
    match input_chunk_queue rs with
    | None =>
        op ← finish_request rs op;
        match queue (info rs) with Some q => put_to (Some q) (Produced STREAM_FINISHED) op | None => Ok op end
    | Some [] => save (set_streaming false (Some []) rs)
    | Some (u :: us) =>
        save (set_streaming (streaming_input rs) (Some (removelast (u :: us) ++
          match last (u :: us) with Some l => [mkStreaming (upd_prompt l) (upd_prompt_token_ids l) true] | None => [] end)) rs)
    end
  else
    let u := mkStreaming prompt (core_prompt_token_ids r) false in
    match input_chunk_queue rs with
    | None => let rs := apply_streaming_update u rs in save (set_streaming (streaming_input rs) (Some []) rs)
    | Some us => save (set_streaming (streaming_input rs) (Some (us ++ [u])) rs)
    end.

(** [add_request]. *)
Definition add_request (r : EngineCoreRequest) (prompt : option text) (parent : option Z) (index : Z) (q : option Z) (op : OutputProcessor)
    : result OutputProcessor :=
  match request_states op !! core_request_id r with
  | Some rs => update_streaming_request_state rs r prompt op
  | None =>
      rs ← state_from_new_request (has_tokenizer op) r prompt parent index q (engine_stream_interval op);
      let op := set_states (<[core_request_id r := rs]> (request_states op)) op in
      op ← match parent with
        | Some pref => pr ← or_raise AttributeError (parents op !! pref);
                       Ok (set_parent_requests (<[parent_id pr := pref]> (parent_requests op)) op)
        | None => Ok op
        end;
      let external := external_req_id (info rs) in
      Ok (set_external (<[external := default [] (external_req_ids op !! external) ++ [core_request_id r]]> (external_req_ids op)) op)
  end.

(** * Outputs of the engine *)

Record EngineCoreOutput := mkCoreOutput {
  out_request_id : string;
  new_token_ids : list Z;
  new_logprobs : option LogprobsLists;
  new_prompt_logprobs_tensors : option (LogprobsLists * Z);
  pooling_output : option X;
  out_finish_reason : option FinishReason;
  out_stop_reason : option OutputStopReason;
  out_kv_transfer_params : option K;
  out_ec_transfer_params : option K;
  prefill_stats : option (Z * Z);            (** [num_cached_tokens], [num_cache_creation_tokens] *)
  out_routed_experts : option (list E)
}.

(** The lines of [process_outputs] before the detokenizer. *)
Definition note_output (o : EngineCoreOutput) (rs : RequestState) : RequestState :=
  let '(cached, creation) := match prefill_stats o with
    | Some s => if is_prefilling rs then s else (num_cached_tokens rs, num_cache_creation_tokens rs)
    | None => (num_cached_tokens rs, num_cache_creation_tokens rs)
    end in
  mkState (info rs) (prompt rs) (prompt_token_ids rs) (processors rs) false cached creation
    (routed_experts_chunks rs ++ match out_routed_experts o with Some x => [x] | None => [] end)
    (sent_tokens_offset rs) (streaming_input rs) (input_chunk_queue rs).

(** Steps 2 and 3: the new state and the reason the request finishes for. *)
Definition take_output (o : EngineCoreOutput) (rs : RequestState)
    : result (RequestState * option FinishReason * option OutputStopReason) :=
  match pooling_output o with
  | Some _ => Ok (rs, out_finish_reason o, out_stop_reason o)
  | None =>
      '(dt, lp) ← or_raise AssertionError (processors rs);
      '(stop_string, dt) ← detok_update (new_token_ids o) (bool_decide (out_finish_reason o = Some STOP)) dt;
      lp ← logprobs_update_from_output (new_logprobs o) (new_prompt_logprobs_tensors o) lp;
      let rs := set_processors (Some (dt, lp)) rs in
      Ok (match nonempty stop_string with
          | Some s => (rs, Some STOP, Some (StopString s))
          | None => (rs, out_finish_reason o, out_stop_reason o)
          end)
  end.

(** What [process_outputs] returns so far: [request_outputs], [reqs_to_abort]. *)
Abbreviation Returned := (list (Output K E X) * list string)%type.

(** The end of an iteration, for a request that is done. *)
Definition close_output (engine_finished : bool) (rs : RequestState) (st : OutputProcessor * Returned) : result (OutputProcessor * Returned) :=
  let '(op, (outs, aborts)) := st in
  if streaming_input rs then
    let rs := match input_chunk_queue rs with
      | Some (u :: us) => apply_streaming_update u (set_streaming (streaming_input rs) (Some us) rs)
      | _ => set_streaming (streaming_input rs) None rs
      end in
    Ok (set_states (<[request_id (info rs) := rs]> (request_states op)) op, (outs, aborts))
  else
    op ← finish_request rs op;
    Ok (op, (outs, if engine_finished then aborts else aborts ++ [request_id (info rs)])).

(** One iteration of the loop of [process_outputs]. *)
Definition process_output (o : EngineCoreOutput) (st : OutputProcessor * Returned) : result (OutputProcessor * Returned) :=
  let '(op, (outs, aborts)) := st in
  match request_states op !! out_request_id o with
  | None => Ok st
  | Some rs =>
      '(rs, fin, stop) ← take_output o (note_output o rs);
      '(out, ps, rs) ← make_request_output (new_token_ids o) (pooling_output o) fin stop (out_kv_transfer_params o)
        (out_ec_transfer_params o) (parents op) rs;
      let op := set_parents ps (set_states (<[request_id (info rs) := rs]> (request_states op)) op) in
      '(op, outs) ← match out with
        | None => Ok (op, outs)
        | Some out =>
            let out := if streaming_input rs then set_unfinished out else out in
            match queue (info rs) with
            | Some q => op ← put_to (Some q) (Produced out) op; Ok (op, outs)
            | None => Ok (op, outs ++ [out])
            end
        end;
      if bool_decide (is_Some fin) then close_output (bool_decide (is_Some (out_finish_reason o))) rs (op, (outs, aborts))
      else Ok (op, (outs, aborts))
  end.

Definition process_outputs (engine_core_outputs : list EngineCoreOutput) (op : OutputProcessor) : result (OutputProcessor * Returned) :=
  for_each process_output engine_core_outputs (op, ([], [])).

(** [propagate_error]. *)
Definition propagate_error (e : exn) (op : OutputProcessor) : result OutputProcessor :=
  for_each (fun '(_, rs) op => _ ← assert_ (bool_decide (is_Some (queue (info rs)))); put_to (queue (info rs)) (Failed e) op)
    (map_to_list (request_states op)) op.

(** * Aborting *)

Variable children_order : gset string -> list string.

(** [EMPTY_CPU_TENSOR]. *)
Variable empty_tensor : X.

(** The first loop of [abort_requests]. *)
Definition collect_internal (internal : bool) (request_id : string) (st : OutputProcessor * list string) : result (OutputProcessor * list string) :=
  let '(op, ids) := st in
  if internal then
    match request_states op !! request_id with
    | Some rs => op ← forget_external (external_req_id (info rs)) request_id op; Ok (op, ids ++ [request_id])
    | None => Ok (op, ids ++ [request_id])
    end
  else Ok (set_external (delete request_id (external_req_ids op)) op, ids ++ default [] (external_req_ids op !! request_id)).

(** The body of the second loop for a request that is still there. *)
Definition abort_state (rs : RequestState) (op : OutputProcessor) : result OutputProcessor :=
  match queue (info rs) with
  | None => Ok op
  | Some q =>
      '(out, ps, _) ← make_request_output [] (match processors rs with None => Some empty_tensor | Some _ => None end)
        (Some ABORT) None None None (parents op) rs;
      let op := set_parents ps op in
      match out with Some out => put_to (Some q) (Produced out) op | None => Ok op end
  end.

(** The body of the second loop, over the recursive call for the children of a parent. *)
Definition abort_one (rec : list string -> OutputProcessor -> result (OutputProcessor * list string))
    (request_id : string) (st : OutputProcessor * list string) : result (OutputProcessor * list string) :=
  let '(op, aborted) := st in
  match request_states op !! request_id with
  | Some rs =>
      op ← abort_state rs (set_states (delete request_id (request_states op)) op);
      Ok (op, aborted ++ [request_id])
  | None =>
      match parent_requests op !! request_id with
      | None => Ok st
      | Some pref =>
          pr ← or_raise AttributeError (parents op !! pref);
          '(op, aborted) ←
            (if bool_decide (child_requests pr = ∅) then Ok st
             else '(op, child_reqs) ← rec (children_order (child_requests pr)) op; Ok (op, aborted ++ child_reqs));
          Ok (set_parent_requests (delete request_id (parent_requests op)) op, aborted)
      end
  end.

(** [abort_requests], to a depth of [fuel] calls; Python's limit is a [RecursionError]. *)
Fixpoint abort_requests (fuel : nat) (internal : bool) (request_ids : list string) (op : OutputProcessor) : result (OutputProcessor * list string) :=
  match fuel with
  | O => Raise Diverges
  | S fuel =>
      '(op, ids) ← for_each (collect_internal internal) request_ids (op, []);
      for_each (abort_one (abort_requests fuel true)) ids (op, [])
  end.
End OutputProcessor.
