(* ===== verification/OutputStream.v ===== *)
(** What the consumer of a streamed request receives: however the outputs of
    the engine and the reads of the consumer interleave, and whatever other requests do,
    the deltas add up to the text and the tokens that were generated. *)
From stdpp Require Import strings.
From S2P Require Import Prelude PyFloat Request Tokenizers Logprobs Detokenizer RequestOutput ParallelSampling OutputProcessor.
Open Scope Z_scope.

(** * Outputs of one completion *)

Section Outputs.
Context {K E X : Type}.
Implicit Types (o : RequestOutput K E) (x : Output K E X) (q : RequestOutputCollector K E X).

Definition completion_text (c : option (CompletionOutput E)) : text := match c with Some c => co_text c | None => [] end.
Definition completion_tokens (c : option (CompletionOutput E)) : list Z := match c with Some c => co_token_ids c | None => [] end.
Definition text_of x : text := match x with Completions o => concat (completion_text <$> outputs o) | Pooled _ => [] end.
Definition tokens_of x : list Z := match x with Completions o => concat (completion_tokens <$> outputs o) | Pooled _ => [] end.

(** The output waiting in a collector. *)
Definition waiting q : list (Output K E X) := match output q with Some (Produced x) => [x] | _ => [] end.

(** An output with the completion of index [i] alone. *)
Definition single (i : Z) x : Prop := exists o c, x = Completions o /\ outputs o = [Some c] /\ index c = i.
Definition holds_single (i : Z) q : Prop := match output q with None => True | Some (Produced x) => single i x | Some (Failed _) => False end.

Lemma merge_completion_Ok (c c' : CompletionOutput E) m : merge_completion c c' = Ok m ->
  index m = index c /\ co_text m = co_text c ++ co_text c' /\ co_token_ids m = co_token_ids c ++ co_token_ids c'.
Proof. unfold merge_completion. intros Hm. apply bind_Ok_inv in Hm as (l & _ & Hm). by injection Hm as <-. Qed.

(** [put] loses nothing of a streamed completion. *)
Lemma put_single i x q q' : aggregate q = true -> holds_single i q -> single i x -> put (Produced x) q = Ok q' ->
  aggregate q' = true /\ holds_single i q' /\ exists y, waiting q' = [y] /\
  text_of y = concat (text_of <$> waiting q) ++ text_of x /\ tokens_of y = concat (tokens_of <$> waiting q) ++ tokens_of x /\
  output_finished y = existsb output_finished (waiting q) || output_finished x.
Proof.
  intros Ha Hq (o' & c' & -> & Ho' & Hi'). unfold put, holds_single, waiting in *. destruct (output q) as [[x|e]|].
  - destruct Hq as (o & c & -> & Ho & Hi). intros Hp. apply bind_Ok_inv in Hp as (m & Hm & [= <-]). cbn. rewrite Ha in *.
    unfold add in Hm. rewrite Ho, Ho' in Hm. cbn [for_each add_completion] in Hm. rewrite Hi, Hi', Z.eqb_refl in Hm.
    apply bind_Ok_inv in Hm as (outs & Houts & [= <-]). apply bind_Ok_inv in Houts as (outs1 & Houts1 & [= <-]).
    apply bind_Ok_inv in Houts1 as (c2 & Hc2 & [= <-]). apply merge_completion_Ok in Hc2 as (Hi2 & Ht2 & Hk2).
    split; [done|]. split; [do 2 eexists; split; [done|]; cbn; split; [done|by rewrite Hi2]|]. eexists. split; [done|].
    cbn. rewrite Ho, Ho'. cbn. rewrite Ht2, Hk2, !app_nil_r, orb_false_r. done.
  - done.
  - intros [= <-]. cbn. split; [done|]. split; [by exists o', c'|]. eexists. split; [done|]. done.
Qed.

Lemma put_total i q o c : holds_single i q -> outputs o = [Some c] -> index c = i -> co_logprobs c = None ->
  exists q', put (Produced (Completions o)) q = Ok q'.
Proof.
  unfold put, holds_single. intros Hq Ho Hi Hl. destruct (output q) as [[x|e]|]; [|done|by eexists].
  destruct Hq as (o1 & c1 & -> & Ho1 & Hi1). unfold add. rewrite Ho, Ho1. cbn [for_each add_completion].
  rewrite Hi, Hi1, Z.eqb_refl. unfold merge_completion. rewrite Hl. cbn. destruct (aggregate q); by eexists.
Qed.

Lemma get_single i q r q' : holds_single i q -> get_nowait q = (r, q') ->
  aggregate q' = aggregate q /\ holds_single i q' /\ waiting q' = [] /\
  r = Ok (match waiting q with x :: _ => Some x | [] => None end).
Proof.
  unfold get_nowait, holds_single, waiting. destruct (output q) as [[x|e]|] eqn:Ho; [|done|].
  - intros _ [= <- <-]. done.
  - intros _ [= <- <-]. by rewrite Ho.
Qed.
End Outputs.

(** * One request *)

Lemma list_remove_total x l : x ∈ l -> exists l', list_remove x l = Ok l'.
Proof.
  induction l as [|y l IH]; [by intros ?%not_elem_of_nil|]. cbn. intros Hx. destruct (bool_decide_reflect (y = x)); [eauto|].
  apply elem_of_cons in Hx as [->|Hx]; [done|]. destruct (IH Hx) as [l' ->]. by exists (y :: l').
Qed.

Section Stream.
Context `{Decoder D} {K E X : Type}.
Abbreviation RequestState := (RequestState (D := D) (E := E)).
Abbreviation OutputProcessor := (OutputProcessor (D := D) (K := K) (E := E) (X := X)).
Implicit Types (rs : RequestState) (op : OutputProcessor) (o : EngineCoreOutput (K := K) (E := E) (X := X)) (d : Detok D).

Lemma take_output_info o rs rs' fin stop : take_output o rs = Ok (rs', fin, stop) -> info rs' = info rs.
Proof.
  unfold take_output. destruct (pooling_output o); [by intros [= <- _ _]|]. intros Ht.
  apply bind_Ok_inv in Ht as ([dt lp] & _ & Ht). apply bind_Ok_inv in Ht as ([s dt'] & _ & Ht). apply bind_Ok_inv in Ht as (lp' & _ & Ht).
  by destruct (nonempty s); injection Ht as <- _ _.
Qed.

Lemma note_output_info o rs : info (note_output o rs) = info rs.
Proof. unfold note_output. destruct (prefill_stats o) as [[? ?]|]; [destruct (is_prefilling rs)|]; done. Qed.

Lemma new_completion_info ids fin stop rs c rs' : new_completion_output ids fin stop rs = Ok (c, rs') -> info rs' = info rs.
Proof.
  unfold new_completion_output. intros Hc. apply bind_Ok_inv in Hc as ([dt lp] & _ & Hc).
  destruct (detok_next_text _ _ _) as [t1 dt1]. apply bind_Ok_inv in Hc as (lps & _ & Hc). by injection Hc as _ <-.
Qed.

Lemma new_request_info ext outs f kv ec rs x rs' : new_request_output (K := K) (X := X) ext outs f kv ec rs = Ok (x, rs') -> info rs' = info rs.
Proof.
  unfold new_request_output. intros Hn. apply bind_Ok_inv in Hn as (ids & _ & Hn). apply bind_Ok_inv in Hn as ([dt lp] & _ & Hn).
  destruct (if bool_decide _ then _ else _). by injection Hn as _ <-.
Qed.

Lemma make_request_info ids pool fin stop kv ec ps rs out ps' rs' :
  make_request_output (K := K) (X := X) ids pool fin stop kv ec ps rs = Ok (out, ps', rs') -> info rs' = info rs.
Proof.
  unfold make_request_output. destruct (_ && _); [by intros [= _ _ <-]|]. intros Hm.
  apply bind_Ok_inv in Hm as ([[send ids'] rs1] & Hs & Hm).
  assert (info rs1 = info rs) as <-.
  { destruct (1 <? _); [|by injection Hs as _ _ <-]. apply bind_Ok_inv in Hs as ([dt lp] & _ & Hs).
    destruct (negb _); [by injection Hs as _ _ <-|]. by destruct (bool_decide _); injection Hs as _ _ <-. }
  destruct (negb send); [by injection Hm as _ _ <-|]. destruct pool as [x|].
  - apply bind_Ok_inv in Hm as (l & _ & Hm). by injection Hm as _ _ <-.
  - apply bind_Ok_inv in Hm as ([c rs2] & Hc & Hm). apply new_completion_info in Hc. destruct (parent_req (info rs2)) as [pref|].
    + apply bind_Ok_inv in Hm as (pr & _ & Hm). apply bind_Ok_inv in Hm as ([[outs f] pr'] & _ & Hm).
      destruct (bool_decide (outs = [])); [by injection Hm as _ _ <-|]. apply bind_Ok_inv in Hm as ([x rs3] & Hn & Hm). injection Hm as _ _ <-.
      apply new_request_info in Hn. by rewrite Hn.
    + apply bind_Ok_inv in Hm as ([x rs3] & Hn & Hm). injection Hm as _ _ <-. apply new_request_info in Hn. by rewrite Hn.
Qed.

(** ** What an iteration leaves alone *)

(** A state is filed under its own id. *)
Definition keyed op : Prop := forall r rs, request_states op !! r = Some rs -> request_id (info rs) = r.

Lemma put_to_frame qo item op op' : put_to qo item op = Ok op' ->
  request_states op' = request_states op /\ exists q, qo = Some q /\ (forall q', q' <> q -> queues op' !! q' = queues op !! q') /\
  exists c c', queues op !! q = Some c /\ put item c = Ok c' /\ queues op' !! q = Some c'.
Proof.
  unfold put_to. destruct qo as [q|]; [|done]. intros Hp. apply bind_Ok_inv in Hp as (c & Hc & Hp). apply or_raise_Ok_inv in Hc.
  apply bind_Ok_inv in Hp as (c' & Hc' & [= <-]). split; [done|]. exists q. split; [done|]. cbn. split.
  - intros q' Hq. by rewrite lookup_insert_ne.
  - exists c, c'. split; [done|]. split; [done|]. apply lookup_insert_eq.
Qed.

Lemma put_to_external qo item op op' : put_to qo item op = Ok op' ->
  external_req_ids op' = external_req_ids op /\ parent_requests op' = parent_requests op.
Proof.
  unfold put_to. destruct qo as [q|]; [|done]. intros Hp. apply bind_Ok_inv in Hp as (c & _ & Hp). by apply bind_Ok_inv in Hp as (c' & _ & [= <-]).
Qed.

Lemma forget_external_frame e r op op' : forget_external e r op = Ok op' ->
  request_states op' = request_states op /\ queues op' = queues op.
Proof. unfold forget_external. intros Hf. by apply bind_Ok_inv in Hf as (l & _ & [= <-]). Qed.

Lemma finish_request_frame rs op op' : finish_request rs op = Ok op' ->
  request_states op' = delete (request_id (info rs)) (request_states op) /\ queues op' = queues op.
Proof.
  unfold finish_request. intros Hf. apply bind_Ok_inv in Hf as (x & _ & Hf). apply bind_Ok_inv in Hf as (op1 & H1 & Hf).
  apply forget_external_frame in H1 as [Hs Hq]. cbn in Hs, Hq. rewrite <-Hs, <-Hq. destruct (parent_req (info rs)); [|by injection Hf as <-].
  apply bind_Ok_inv in Hf as (pr & _ & Hf). by destruct (bool_decide _); injection Hf as <-.
Qed.

(** The queue part of an iteration. *)
Definition deliver (out : option (Output K E X)) rs op (outs : list (Output K E X)) : result (OutputProcessor * list (Output K E X)) :=
  match out with
  | None => Ok (op, outs)
  | Some out =>
      let out := if streaming_input rs then set_unfinished out else out in
      match queue (info rs) with
      | Some q => op ← put_to (Some q) (Produced out) op; Ok (op, outs)
      | None => Ok (op, outs ++ [out])
      end
  end.

Lemma deliver_frame out rs op outs op' outs' : deliver out rs op outs = Ok (op', outs') ->
  request_states op' = request_states op /\ (forall q, queue (info rs) <> Some q -> queues op' !! q = queues op !! q).
Proof.
  unfold deliver. destruct out as [out|]; [|by intros [= <- _]]. destruct (queue (info rs)) as [q|] eqn:Hq; [|by intros [= <- _]].
  intros Hd. apply bind_Ok_inv in Hd as (op1 & Hp & [= <- _]). apply put_to_frame in Hp as (Hs & q1 & [= <-] & Hne & _).
  split; [done|]. intros q' Hq'. apply Hne. congruence.
Qed.

Lemma close_output_frame b rs op ret op' ret' : close_output b rs (op, ret) = Ok (op', ret') ->
  queues op' = queues op /\ (forall r, r <> request_id (info rs) -> request_states op' !! r = request_states op !! r) /\
  (streaming_input rs = false -> request_states op' !! request_id (info rs) = None) /\
  (forall rs', request_states op' !! request_id (info rs) = Some rs' -> info rs' = info rs).
Proof.
  unfold close_output. destruct ret as [outs aborts]. destruct (streaming_input rs).
  - set (rs1 := match input_chunk_queue rs with Some (u :: us) => _ | _ => _ end). intros [= <- _]. cbn.
    assert (info rs1 = info rs) as -> by (unfold rs1; by destruct (input_chunk_queue rs) as [[|u us]|]). split; [done|].
    split; [intros r Hr; by rewrite lookup_insert_ne|]. split; [done|]. rewrite lookup_insert_eq. intros rs' [= <-].
    unfold rs1. by destruct (input_chunk_queue rs) as [[|u us]|].
  - intros Hc. apply bind_Ok_inv in Hc as (op1 & Hf & [= <- _]). apply finish_request_frame in Hf as [Hs Hq]. rewrite Hs.
    split; [done|]. split; [intros r Hr; by rewrite lookup_delete_ne|]. by rewrite lookup_delete_eq.
Qed.

(** An iteration for a request that is there, step by step. *)
Lemma process_output_steps o op outs aborts rs op' ret' : request_states op !! out_request_id o = Some rs ->
  process_output o (op, (outs, aborts)) = Ok (op', ret') ->
  exists rs1 fin stop out ps rs2 op2 outs2,
    take_output o (note_output o rs) = Ok (rs1, fin, stop) /\
    make_request_output (new_token_ids o) (pooling_output o) fin stop (out_kv_transfer_params o) (out_ec_transfer_params o) (parents op) rs1
      = Ok (out, ps, rs2) /\
    deliver out rs2 (set_parents ps (set_states (<[request_id (info rs2) := rs2]> (request_states op)) op)) outs = Ok (op2, outs2) /\
    (if bool_decide (is_Some fin) then close_output (bool_decide (is_Some (out_finish_reason o))) rs2 (op2, (outs2, aborts))
     else Ok (op2, (outs2, aborts))) = Ok (op', ret').
Proof.
  intros Hrs. unfold process_output. rewrite Hrs. intros Hp. apply bind_Ok_inv in Hp as ([[rs1 fin] stop] & Ht & Hp).
  apply bind_Ok_inv in Hp as ([[out ps] rs2] & Hm & Hp). apply bind_Ok_inv in Hp as ([op2 outs2] & Hd & Hp).
  by exists rs1, fin, stop, out, ps, rs2, op2, outs2.
Qed.

Lemma process_output_frame o op ret op' ret' : keyed op -> process_output o (op, ret) = Ok (op', ret') ->
  (forall r, r <> out_request_id o -> request_states op' !! r = request_states op !! r) /\
  (forall rs', request_states op' !! out_request_id o = Some rs' -> exists rs, request_states op !! out_request_id o = Some rs /\ info rs' = info rs) /\
  (forall q, (forall rs, request_states op !! out_request_id o = Some rs -> queue (info rs) <> Some q) -> queues op' !! q = queues op !! q).
Proof.
  intros Hk Hp. destruct (request_states op !! out_request_id o) as [rs|] eqn:Hrs.
  2: { unfold process_output in Hp. destruct ret as [outs aborts]. rewrite Hrs in Hp. injection Hp as <- _. by rewrite Hrs. }
  destruct ret as [outs aborts]. destruct (process_output_steps _ _ _ _ _ _ _ Hrs Hp) as (rs1 & fin & stop & out & ps & rs2 & op2 & outs2 & Ht & Hm & Hd & Hc).
  pose proof (make_request_info _ _ _ _ _ _ _ _ _ _ _ Hm) as Hi2. apply take_output_info in Ht. rewrite note_output_info in Ht. rewrite Ht in Hi2.
  pose proof (Hk _ _ Hrs) as Hid. apply deliver_frame in Hd as [Hs2 Hq2]. cbn in Hs2, Hq2. rewrite Hi2, Hid in Hs2. rewrite Hi2 in Hq2.
  assert (forall r, r <> out_request_id o -> request_states op2 !! r = request_states op !! r) as Hne.
  { intros r Hr. rewrite Hs2. by apply lookup_insert_ne. }
  destruct (bool_decide (is_Some fin)).
  - apply close_output_frame in Hc as (Hq & Hs & _ & Hi). rewrite Hi2, Hid in Hs, Hi. rewrite Hq. split; [|split].
    + intros r Hr. by rewrite Hs, Hne.
    + intros rs' Hrs'. exists rs. split; [done|]. exact (Hi _ Hrs').
    + intros q Hq'. by apply Hq2, Hq'.
  - injection Hc as <- _. split; [exact Hne|]. split.
    + intros rs'. rewrite Hs2, lookup_insert_eq. intros [= <-]. by exists rs.
    + intros q Hq'. by apply Hq2, Hq'.
Qed.

Lemma process_output_keyed o op ret op' ret' : keyed op -> process_output o (op, ret) = Ok (op', ret') -> keyed op'.
Proof.
  intros Hk Hp r rs' Hrs'. destruct (process_output_frame _ _ _ _ _ Hk Hp) as (Hne & Hsame & _).
  destruct (decide (r = out_request_id o)) as [->|Hr]; [|rewrite Hne in Hrs' by done; by apply Hk].
  destruct (Hsame _ Hrs') as (rs & Hrs & ->). by apply Hk.
Qed.

(** ** What has been sent *)

(** The parts of the text and of the tokens that the client has been handed. *)
Definition sent_text d : text := take (Z.to_nat (last_output_text_offset d)) (output_text d).
Definition sent_tokens (c : DetokConfig) rs d : list Z :=
  if 1 <? stream_interval (info rs) then take (Z.to_nat (sent_tokens_offset rs)) (output_token_ids c d) else output_token_ids c d.

(** A streamed request for one completion. *)
Definition stream_info (q i : Z) (inf : RequestInfo) : Prop :=
  kind inf = DELTA /\ parent_req inf = None /\ queue inf = Some q /\ request_index inf = i.

Definition has_prompt (c : DetokConfig) d : Prop := 0 <= prompt_len c <= zlen (token_ids d).

Lemma output_ids_app c d d' ids : has_prompt c d -> token_ids d' = token_ids d ++ ids ->
  output_token_ids c d' = output_token_ids c d ++ ids /\ has_prompt c d'.
Proof.
  unfold has_prompt, output_token_ids. intros Hp ->. rewrite length_app. destruct (Z.eqb_spec (prompt_len c) 0); [split; [done|lia]|].
  rewrite !py_from_nonneg, drop_app_le by lia. split; [done|lia].
Qed.

Lemma num_output_ids c d : has_prompt c d -> num_output_tokens c d = zlen (output_token_ids c d).
Proof.
  unfold has_prompt, num_output_tokens, output_token_ids. intros Hp. destruct (Z.eqb_spec (prompt_len c) 0) as [->|]; [lia|].
  rewrite py_from_nonneg, length_drop by lia. lia.
Qed.

Lemma update_sent c ids st d s d' : config_ok c -> offset_ok c d -> update c ids st d = Ok (s, d') ->
  token_ids d' = token_ids d ++ ids /\ sent_text d' = sent_text d /\ 0 <= last_output_text_offset d' <= zlen (output_text d') /\
  match s with Some x => x <> [] | None => offset_ok c d' end.
Proof.
  intros Hc Hoff Hu. apply update_kept in Hu as (Hids & Hl & t & Ht); [|done]. unfold fed in Hids. split; [done|].
  pose proof (stop_buffer_nonneg c (proj1 Hc)) as Hbuf. unfold sent_text, offset_ok in *. rewrite Hl.
  destruct s as [x|].
  - destruct Ht as (Hx & k & Ht & Hk). rewrite Ht, take_take, length_take, length_app.
    rewrite Nat.min_l by lia. rewrite take_app_le by lia. split; [done|]. split; [lia|].
    destruct Hc as [Hc _]. rewrite Forall_forall in Hc. by apply Hc.
  - rewrite Ht, take_app_le, length_app by lia. split; [done|]. split; lia.
Qed.

Lemma make_stream c q i ids fin stop kv ec ps rs out ps' rs' d lp T :
  config_ok c -> has_prompt c d -> stream_info q i (info rs) -> processors rs = Some (Tokenized c d, lp) ->
  0 <= last_output_text_offset d <= zlen (output_text d) -> (fin = None -> offset_ok c d) ->
  0 <= sent_tokens_offset rs <= num_output_tokens c d ->
  (if 1 <? stream_interval (info rs) then T = take (Z.to_nat (sent_tokens_offset rs)) (output_token_ids c d)
   else output_token_ids c d = T ++ ids) ->
  make_request_output (K := K) (X := X) ids None fin stop kv ec ps rs = Ok (out, ps', rs') ->
  exists d' lp', processors rs' = Some (Tokenized c d', lp') /\ streaming_input rs' = streaming_input rs /\
    output_text d' = output_text d /\ token_ids d' = token_ids d /\ decoder d' = decoder d /\
    (fin = None -> offset_ok c d') /\ 0 <= sent_tokens_offset rs' <= num_output_tokens c d' /\
    match out with
    | None => fin = None /\ sent_text d' = sent_text d /\ sent_tokens c rs' d' = T
    | Some x => single i x /\ output_finished x = bool_decide (is_Some fin) /\
        sent_text d' = sent_text d ++ text_of x /\ sent_tokens c rs' d' = T ++ tokens_of x /\
        (fin <> None -> sent_text d' = output_text d' /\ sent_tokens c rs' d' = output_token_ids c d')
    end.
Proof.
  intros Hc Hp (Hkind & Hpar & Hq & Hi) Hproc Hoff Hok Hsent HT Hm. unfold make_request_output in Hm.
  rewrite Hkind in Hm. rewrite (bool_decide_false (DELTA = FINAL_ONLY)), andb_false_r in Hm by done.
  apply bind_Ok_inv in Hm as ([[send ids'] rs1] & Hs & Hm).
  assert (info rs1 = info rs /\ processors rs1 = Some (Tokenized c d, lp) /\ streaming_input rs1 = streaming_input rs /\
    0 <= sent_tokens_offset rs1 <= num_output_tokens c d /\
    (if send then T ++ ids' = (if 1 <? stream_interval (info rs) then take (Z.to_nat (sent_tokens_offset rs1)) (output_token_ids c d) else output_token_ids c d) /\
       (fin <> None -> T ++ ids' = output_token_ids c d)
     else fin = None /\ 1 < stream_interval (info rs) /\ rs1 = rs)) as (Hi1 & Hp1 & Hst1 & Hsent1 & Hids).
  { destruct (Z.ltb_spec 1 (stream_interval (info rs))) as [Hint|Hint].
    - rewrite Hproc in Hs. cbn [or_raise mbind result_bind] in Hs.
      destruct (negb _) eqn:Hskip in Hs.
      + injection Hs as <- <- <-. repeat split; try done; try lia. destruct fin; [by cbn in Hskip|done].
      + rewrite (bool_decide_true (DELTA = DELTA)) in Hs by done. injection Hs as <- <- <-. cbn.
        split; [done|]. split; [done|]. split; [done|]. split; [lia|].
        assert (T ++ py_from (output_token_ids c d) (sent_tokens_offset rs) = output_token_ids c d) as ->.
        { rewrite HT, py_from_nonneg by lia. apply take_drop. }
        split; [|done]. rewrite take_ge; [done|]. pose proof (num_output_ids c d Hp). lia.
    - injection Hs as <- <- <-. by rewrite <-HT. }
  destruct send; cbn [negb] in Hm.
  2: { injection Hm as <- _ <-. destruct Hids as (-> & Hint & ->). exists d, lp. split; [done|]. split; [done|]. split; [done|]. split; [done|]. split; [done|].
       split; [done|]. split; [done|]. split; [done|]. split; [done|]. unfold sent_tokens.
       destruct (Z.ltb_spec 1 (stream_interval (info rs))); [done|lia]. }
  apply bind_Ok_inv in Hm as ([co rs2] & Hco & Hm). pose proof (new_completion_info _ _ _ _ _ _ Hco) as Hi2.
  unfold new_completion_output in Hco. rewrite Hp1 in Hco. cbn [or_raise mbind result_bind] in Hco. rewrite Hi1, Hkind in Hco.
  rewrite (bool_decide_true (DELTA = DELTA)) in Hco by done. unfold detok_next_text in Hco.
  destruct (get_next_output_text c (bool_decide (is_Some fin)) true d) as [t d'] eqn:Hnext.
  apply bind_Ok_inv in Hco as (lps & _ & Hco). injection Hco as <- <-. rewrite Hi2, Hi1, Hpar in Hm.
  apply bind_Ok_inv in Hm as ([x rs3] & Hx & Hm). injection Hm as <- <- <-. unfold new_request_output in Hx.
  apply bind_Ok_inv in Hx as (pids & _ & Hx). cbn [set_processors processors or_raise mbind result_bind] in Hx.
  destruct (if bool_decide _ then pop_prompt_logprobs lp else _) as [plp lp'] in Hx. injection Hx as <- <-.
  apply (next_text_Ok c) in Hnext as (Htext & Htok & Hdec & Htake & Hoff' & Hfin); [|by destruct Hc|lia| |lia].
  2: { intros Hf. apply Hok. destruct fin; [by apply bool_decide_eq_false in Hf; destruct Hf|done]. }
  exists d', lp'. cbn [set_processors processors streaming_input]. split; [done|]. split; [done|]. split; [done|]. split; [done|]. split; [done|].
  assert (sent_text d' = sent_text d ++ t) as Hsent' by (unfold sent_text; by rewrite Htext, <-Htake).
  assert (forall l : list Z, output_token_ids c d' = output_token_ids c d) as Hout by (intros _; unfold output_token_ids; by rewrite Htok).
  split; [intros ->; exact Hfin|]. split; [unfold num_output_tokens in *; rewrite Htok; cbn; lia|].
  split; [do 2 eexists; split; [done|]; split; [done|exact Hi]|]. split; [done|]. cbn. rewrite !app_nil_r. split; [done|].
  destruct Hids as [Hids Hall]. unfold sent_tokens. cbn. rewrite Hi1, (Hout []). split; [by rewrite Hids|].
  intros Hf. split.
  - unfold sent_text. destruct fin as [f|]; [|by destruct (Hf eq_refl)]. cbn in Hfin. rewrite Hfin, Htext. apply take_ge. lia.
  - etransitivity; [symmetry; exact Hids|by apply Hall].
Qed.

(** Without log probabilities an output can always be made. *)
Lemma make_total ids fin stop kv ec ps rs dt lp pids : kind (info rs) = DELTA -> parent_req (info rs) = None ->
  processors rs = Some (dt, lp) -> sample_logprobs lp = None -> prompt_logprobs lp = None -> prompt_ids_of rs = Ok pids ->
  exists out rs' dt', make_request_output (K := K) (X := X) ids None fin stop kv ec ps rs = Ok (out, ps, rs') /\
    info rs' = info rs /\ streaming_input rs' = streaming_input rs /\ processors rs' = Some (dt', lp) /\ prompt_ids_of rs' = Ok pids /\
    match out with
    | Some x => exists ro co, x = Completions ro /\ outputs ro = [Some co] /\ index co = request_index (info rs) /\ co_logprobs co = None
    | None => True
    end.
Proof.
  intros Hkind Hpar Hproc Hsl Hpl Hpids. unfold make_request_output. rewrite Hkind, (bool_decide_false (DELTA = FINAL_ONLY)), andb_false_r by done.
  assert (exists send ids' rs1, (if 1 <? stream_interval (info rs) then _ else _) = Ok (send, ids', rs1) /\
    (rs1 = rs \/ rs1 = set_sent (detok_num_output_tokens dt) rs)) as (send & ids' & rs1 & -> & Hrs1).
  { destruct (1 <? _); [|by eexists _, _, _; split; [done|left]]. rewrite Hproc. cbn [or_raise mbind result_bind].
    destruct (negb _); [by eexists _, _, _; split; [done|left]|]. rewrite (bool_decide_true (DELTA = DELTA)) by done.
    by eexists _, _, _; split; [done|right]. }
  assert (info rs1 = info rs /\ streaming_input rs1 = streaming_input rs /\ processors rs1 = Some (dt, lp) /\ prompt_ids_of rs1 = Ok pids)
    as (Hi & Hst & Hp1 & Hpi1) by (by destruct Hrs1 as [-> | ->]).
  cbn [mbind result_bind]. destruct send; cbn [negb]; [|by exists None, rs1, dt].
  unfold new_completion_output. rewrite Hp1. cbn [or_raise mbind result_bind]. rewrite Hi, Hkind.
  rewrite (bool_decide_true (DELTA = DELTA)) by done. destruct (detok_next_text _ _ _) as [t dt']. rewrite Hsl.
  cbn [mbind result_bind set_processors info]. rewrite Hi, Hpar. unfold new_request_output.
  change (prompt_ids_of (set_processors (Some (dt', lp)) rs1)) with (prompt_ids_of rs1). rewrite Hpi1.
  cbn [set_processors processors info or_raise mbind result_bind]. rewrite Hi, Hkind, (bool_decide_true (DELTA = DELTA)) by done.
  unfold pop_prompt_logprobs. rewrite Hpl. eexists _, _, dt'. split; [done|]. split; [exact Hi|]. split; [exact Hst|]. split; [done|].
  split; [exact Hpi1|]. by eexists _, _.
Qed.

(** ** Producing and consuming *)

Inductive event := Produce (o : EngineCoreOutput (K := K) (E := E) (X := X)) | Consume.

(** An output of the engine is processed, or the consumer of the queue [q] takes what is there. *)
Definition stream_step (q : Z) (ev : event) (st : OutputProcessor * list (Output K E X)) : result (OutputProcessor * list (Output K E X)) :=
  let '(op, got) := st in
  match ev with
  | Produce o => '(op, _) ← process_output o (op, ([], [])); Ok (op, got)
  | Consume =>
      col ← or_raise AttributeError (queues op !! q);
      let '(r, col) := get_nowait col in
      x ← r; Ok (set_queues (<[q := col]> (queues op)) op, got ++ match x with Some x => [x] | None => [] end)
  end.

(** The text and tokens that were generated for request [r]: every output is detokenized up to the
    one that finishes the request. *)
Definition generate_step (r : string) (c : DetokConfig) (ev : event) (st : Detok D * bool) : result (Detok D * bool) :=
  let '(d, fin) := st in
  match ev with
  | Produce o =>
      if fin || negb (bool_decide (out_request_id o = r)) then Ok st else
      '(s, d) ← update c (new_token_ids o) (bool_decide (out_finish_reason o = Some STOP)) d;
      Ok (d, bool_decide (is_Some s) || bool_decide (is_Some (out_finish_reason o)))
  | Consume => Ok st
  end.

Definition sampled_event (r : string) (ev : event) : Prop :=
  match ev with Produce o => out_request_id o = r -> pooling_output o = None | Consume => True end.

(** A generated text: the detokenizer's fields that do not depend on what was sent. *)
Definition same_text (d d' : Detok D) : Prop := token_ids d = token_ids d' /\ output_text d = output_text d' /\ decoder d = decoder d'.

Section Request.
Variables (r : string) (q i : Z) (c : DetokConfig).

(** The states of other requests do not refer to the queue. *)
Definition own_queue op : Prop := forall r' rs, request_states op !! r' = Some rs -> queue (info rs) = Some q -> r' = r.

Definition live op (all : list (Output K E X)) (g : Detok D) : Prop := exists rs d lp,
  request_states op !! r = Some rs /\ stream_info q i (info rs) /\ streaming_input rs = false /\
  processors rs = Some (Tokenized c d, lp) /\ same_text d g /\ has_prompt c d /\ offset_ok c d /\
  0 <= sent_tokens_offset rs <= num_output_tokens c d /\
  concat (text_of <$> all) = sent_text d /\ concat (tokens_of <$> all) = sent_tokens c rs d /\
  Forall (fun x => output_finished x = false) all.

Definition done op (all : list (Output K E X)) (g : Detok D) : Prop :=
  request_states op !! r = None /\
  concat (text_of <$> all) = output_text g /\ concat (tokens_of <$> all) = output_token_ids c g /\
  exists init x, all = init ++ [x] /\ output_finished x = true /\ Forall (fun x => output_finished x = false) init.

Record stream_inv op (got : list (Output K E X)) (g : Detok D) (fin : bool) : Prop := {
  inv_keyed : keyed op;
  inv_own : own_queue op;
  inv_queue : exists col, queues op !! q = Some col /\ aggregate col = true /\ holds_single i col /\
    if fin then done op (got ++ waiting col) g else live op (got ++ waiting col) g
}.

Lemma consume_inv op got g fin st : stream_inv op got g fin -> stream_step q Consume (op, got) = Ok st ->
  exists op' got', st = (op', got') /\ stream_inv op' got' g fin.
Proof.
  intros [Hk Ho (col & Hcol & Ha & Hs & Hd)] Hstep. cbn in Hstep. rewrite Hcol in Hstep. cbn [or_raise mbind result_bind] in Hstep.
  destruct (get_nowait col) as [x col'] eqn:Hg. destruct (get_single i _ _ _ Hs Hg) as (Ha' & Hs' & Hw & ->). cbn in Hstep.
  injection Hstep as <-. eexists _, _. split; [done|]. split; [done|done|]. cbn. rewrite lookup_insert_eq. exists col'. split; [done|].
  rewrite Ha', Hw, app_nil_r. split; [done|]. split; [done|].
  assert (got ++ match match waiting col with [] => None | x :: _ => Some x end with Some x => [x] | None => [] end = got ++ waiting col) as ->; [|exact Hd].
  f_equal. unfold waiting. by destruct (output col) as [[x|e]|].
Qed.

Lemma own_queue_step o op ret op' ret' : keyed op -> own_queue op -> process_output o (op, ret) = Ok (op', ret') -> own_queue op'.
Proof.
  intros Hk Ho Hp r' rs' Hrs' Hq. destruct (process_output_frame _ _ _ _ _ Hk Hp) as (Hne & Hsame & _).
  destruct (decide (r' = out_request_id o)) as [->|Hr]; [|rewrite Hne in Hrs' by done; by apply (Ho r' rs')].
  destruct (Hsame _ Hrs') as (rs & Hrs & Hi). rewrite Hi in Hq. by apply (Ho _ rs).
Qed.

(** The outputs of other requests, and those that come after the request is done, change nothing here. *)
Lemma produce_other o op got g fin op' ret ret' : stream_inv op got g fin -> out_request_id o <> r \/ fin = true ->
  process_output o (op, ret) = Ok (op', ret') -> stream_inv op' got g fin.
Proof.
  intros [Hk Ho (col & Hcol & Ha & Hs & Hd)] Hother Hp. split; [by eapply process_output_keyed|by eapply own_queue_step|].
  destruct (process_output_frame _ _ _ _ _ Hk Hp) as (Hne & Hsame & Hq). exists col.
  assert (queues op' !! q = queues op !! q) as ->.
  { apply Hq. intros rs Hrs Hqr. pose proof (Ho _ _ Hrs Hqr) as Hr. destruct Hother as [ | -> ]; [done|].
    destruct Hd as [Hnone _]. rewrite Hr in Hrs. congruence. }
  split; [done|]. split; [done|]. split; [done|]. destruct fin.
  - destruct Hd as (Hnone & Hd). split; [|done]. destruct (decide (out_request_id o = r)) as [Hr|Hr]; [|by rewrite Hne].
    destruct (request_states op' !! r) eqn:Hrs'; [|done]. rewrite <-Hr in Hrs'. destruct (Hsame _ Hrs') as (rs & Hrs & _). rewrite Hr in Hrs. congruence.
  - destruct Hother as [Hr|]; [|done]. destruct Hd as (rs & d & lp & Hd). exists rs, d, lp. by rewrite Hne.
Qed.

(** ** The update does not look at what was sent *)

Definition with_offset (z : Z) d : Detok D := mkDetok (token_ids d) (output_text d) z (decoder d).

Lemma decode_one_with_offset z id d off : decode_one c id (with_offset z d, off) =
  '(d, off) ← decode_one c id (d, off); Ok (with_offset z d, off).
Proof. unfold decode_one. cbn. by destruct (decode_next (token_ids d ++ [id]) (decoder d)) as [[t dec]|]. Qed.

Lemma decode_with_offset z ids : forall d off, for_each (decode_one c) ids (with_offset z d, off) =
  '(d, off) ← for_each (decode_one c) ids (d, off); Ok (with_offset z d, off).
Proof.
  induction ids as [|id ids IH]; intros d off; [done|]. cbn [for_each]. rewrite decode_one_with_offset.
  destruct (decode_one c id (d, off)) as [[d1 off1]|]; [apply IH|done].
Qed.

Lemma evaluate_with_offset z off d : evaluate_stop c off (with_offset z d) = (let '(s, d) := evaluate_stop c off d in (s, with_offset z d)).
Proof.
  unfold evaluate_stop. cbn. change (num_output_tokens c (with_offset z d)) with (num_output_tokens c d). destruct (_ && _); [|done].
  destruct (check_stop_strings _ _ _ _) as [[s k]|]; [|done]. by destruct (negb (k =? -1)).
Qed.

Lemma update_with_offset z ids st d : update c ids st (with_offset z d) = ('(s, d) ← update c ids st d; Ok (s, with_offset z d)).
Proof.
  unfold update. destruct (zlen ids =? 0); [done|]. cbn [with_offset output_text]. rewrite decode_with_offset.
  destruct (for_each _ _ _) as [[d1 off]|]; [|done]. cbn [mbind result_bind].
  set (ids1 := if st && negb _ then last ids else None). destruct ids1 as [id|].
  - change (with_ids (token_ids (with_offset z d1) ++ [id]) (with_offset z d1)) with (with_offset z (with_ids (token_ids d1 ++ [id]) d1)).
    rewrite evaluate_with_offset. by destruct (evaluate_stop _ _ _).
  - rewrite evaluate_with_offset. by destruct (evaluate_stop _ _ _).
Qed.

Lemma update_same_text ids st d g s d' : same_text d g -> update c ids st d = Ok (s, d') ->
  exists g', update c ids st g = Ok (s, g') /\ same_text d' g'.
Proof.
  intros (Hi & Ht & Hd) Hu. assert (g = with_offset (last_output_text_offset g) d) as ->.
  { destruct g. unfold with_offset. cbn in *. by rewrite Hi, Ht, Hd. }
  rewrite update_with_offset, Hu. cbn. eexists. split; [done|]. done.
Qed.

Lemma deliver_stream x rs op outs op' outs' col got : queues op !! q = Some col -> aggregate col = true -> holds_single i col ->
  queue (info rs) = Some q -> streaming_input rs = false -> single i x ->
  Forall (fun x => output_finished x = false) (got ++ waiting col) ->
  deliver (Some x) rs op outs = Ok (op', outs') ->
  exists col', queues op' !! q = Some col' /\ aggregate col' = true /\ holds_single i col' /\
    concat (text_of <$> got ++ waiting col') = concat (text_of <$> got ++ waiting col) ++ text_of x /\
    concat (tokens_of <$> got ++ waiting col') = concat (tokens_of <$> got ++ waiting col) ++ tokens_of x /\
    exists init y, got ++ waiting col' = init ++ [y] /\ output_finished y = output_finished x /\
      Forall (fun x => output_finished x = false) init.
Proof.
  intros Hcol Ha Hs Hq Hst Hx Hfins Hd. unfold deliver in Hd. rewrite Hst, Hq in Hd. apply bind_Ok_inv in Hd as (op1 & Hp & [= <- _]).
  apply put_to_frame in Hp as (_ & q1 & [= <-] & _ & c1 & c1' & Hc1 & Hput & Hq1). rewrite Hcol in Hc1. injection Hc1 as <-.
  destruct (put_single i x col c1' Ha Hs Hx Hput) as (Ha' & Hs' & y & Hw & Ht & Hk & Hf). exists c1'. split; [done|]. split; [done|]. split; [done|].
  rewrite Hw, !fmap_app, !concat_app. cbn [fmap list_fmap concat]. rewrite Ht, Hk, !app_nil_r, !app_assoc. split; [done|]. split; [done|].
  apply Forall_app in Hfins as [Hgot Hwait]. exists got, y. split; [done|]. split; [|done]. rewrite Hf.
  destruct (existsb output_finished (waiting col)) eqn:Hex; [|done]. apply existsb_exists in Hex as (z & Hz & Hzf).
  rewrite Forall_forall in Hwait. apply list_elem_of_In in Hz. by rewrite (Hwait z Hz) in Hzf.
Qed.

(** ** An output for the request *)

Hypothesis Hc : config_ok c.

Lemma produce_live o op got g op' ret' : stream_inv op got g false -> out_request_id o = r -> pooling_output o = None ->
  process_output o (op, ([], [])) = Ok (op', ret') ->
  exists g' fin, generate_step r c (Produce o) (g, false) = Ok (g', fin) /\ stream_inv op' got g' fin.
Proof.
  intros [Hk Ho (col & Hcol & Ha & Hs & rs & d & lp & Hrs & Hinfo & Hst & Hproc & Hg & Hp & Hoff & Hsent & Htext & Htok & Hfins)] Hr Hpool Hpo.
  pose proof (process_output_keyed _ _ _ _ _ Hk Hpo) as Hk'. pose proof (own_queue_step _ _ _ _ _ Hk Ho Hpo) as Ho'.
  rewrite <-Hr in Hrs. destruct (process_output_steps _ _ _ _ _ _ _ Hrs Hpo) as (rs1 & fin & stop & out & ps & rs2 & op2 & outs2 & Ht & Hm & Hdl & Hcl).
  rewrite Hr in Hrs. clear Hpo. unfold take_output in Ht. rewrite Hpool in Ht, Hm.
  assert (processors (note_output o rs) = processors rs /\ sent_tokens_offset (note_output o rs) = sent_tokens_offset rs /\
    streaming_input (note_output o rs) = streaming_input rs) as (Hproc1 & Hsent1 & Hst1).
  { unfold note_output. by destruct (prefill_stats o) as [[? ?]|]; [destruct (is_prefilling rs)|]. }
  rewrite Hproc1, Hproc in Ht. cbn [or_raise mbind result_bind detok_update] in Ht.
  apply bind_Ok_inv in Ht as ([s dt1] & Hu & Ht). apply bind_Ok_inv in Hu as ([s1 d1] & Hu & [= <- <-]).
  apply bind_Ok_inv in Ht as (lp1 & _ & Ht).
  destruct (update_sent c _ _ _ _ _ Hc Hoff Hu) as (Hids & Hsentt & Hoff1 & Hstop).
  destruct (update_same_text _ _ _ _ _ _ Hg Hu) as (g' & Hug & Hg').
  destruct (output_ids_app c _ _ _ Hp Hids) as [Hout Hp1].
  assert (rs1 = set_processors (Some (Tokenized c d1, lp1)) (note_output o rs) /\
    bool_decide (is_Some fin) = bool_decide (is_Some s1) || bool_decide (is_Some (out_finish_reason o)) /\ (fin = None -> s1 = None)) as (-> & Hfin & Hfin1).
  { destruct s1 as [[|ch s1]|]; cbn in Ht; injection Ht as <- <- <-; done. }
  set (rs1 := set_processors (Some (Tokenized c d1, lp1)) (note_output o rs)) in *.
  assert (info rs1 = info rs) as Hinfo1 by apply note_output_info.
  assert (fin = None -> offset_ok c d1) as Hok1 by (intros Hn; by rewrite (Hfin1 Hn) in Hstop).
  assert (0 <= sent_tokens_offset rs1 <= num_output_tokens c d1) as Hb1.
  { cbn. rewrite Hsent1. unfold num_output_tokens in *. rewrite Hids, length_app. lia. }
  assert (if 1 <? stream_interval (info rs1) then sent_tokens c rs d = take (Z.to_nat (sent_tokens_offset rs1)) (output_token_ids c d1)
    else output_token_ids c d1 = sent_tokens c rs d ++ new_token_ids o) as HT1.
  { rewrite Hinfo1. cbn. rewrite Hsent1. unfold sent_tokens. rewrite Hout. destruct (1 <? _); [|done].
    rewrite take_app_le; [done|]. rewrite (num_output_ids c d Hp) in Hsent. lia. }
  rewrite <-Hinfo1 in Hinfo.
  destruct (make_stream c q i _ _ _ _ _ _ _ _ _ _ d1 lp1 (sent_tokens c rs d) Hc Hp1 Hinfo eq_refl Hoff1 Hok1 Hb1 HT1 Hm)
    as (d2 & lp2 & Hproc2 & Hst2 & Htext2 & Htok2 & Hdec2 & Hoff2 & Hsent2 & Hout2).
  exists g', (bool_decide (is_Some fin)). split.
  { cbn [generate_step orb]. rewrite (bool_decide_true (out_request_id o = r)) by done. cbn [negb]. rewrite Hug. cbn. by rewrite Hfin. }
  pose proof (make_request_info _ _ _ _ _ _ _ _ _ _ _ Hm) as Hinfo2.
  change (streaming_input rs1) with (streaming_input (note_output o rs)) in Hst2. rewrite Hst1, Hst in Hst2.
  assert (same_text d2 g') as Hg2 by (destruct Hg' as (? & ? & ?); split; [|split]; congruence).
  destruct (deliver_frame _ _ _ _ _ _ Hdl) as [Hs2 _]. cbn [set_parents set_states request_states] in Hs2.
  assert (request_id (info rs2) = r) as Hid by (rewrite Hinfo2, Hinfo1; by apply Hk). rewrite Hid in Hs2.
  assert (stream_info q i (info rs2)) as Hi2 by by rewrite Hinfo2. split; [done|done|]. destruct out as [x|].
  - destruct Hout2 as (Hx & Hxf & Hsx & Htx & Hlast).
    destruct (deliver_stream x rs2 (set_parents ps (set_states (<[request_id (info rs2) := rs2]> (request_states op)) op)) [] op2 outs2 col got
        Hcol Ha Hs (proj1 (proj2 (proj2 Hi2))) Hst2 Hx Hfins Hdl) as (col' & Hcol' & Ha' & Hs' & Hat & Hak & init & y & Hall & Hyf & Hinit).
    exists col'. destruct (bool_decide (is_Some fin)) eqn:Hb.
    + apply close_output_frame in Hcl as (Hq' & _ & Hgone & _). rewrite Hq'. split; [done|]. split; [done|]. split; [done|].
      apply bool_decide_eq_true in Hb. assert (fin <> None) as Hne by (destruct Hb as [f ->]; done). destruct (Hlast Hne) as [Hall1 Hall2].
      split; [rewrite <-Hid; by apply Hgone|]. rewrite Hat, Hak, Htext, Htok, <-Hsentt, <-Hsx, <-Htx, Hall1, Hall2. destruct Hg2 as (Hg2i & Hg2t & _).
      split; [done|]. split; [unfold output_token_ids; by rewrite Hg2i|]. exists init, y. split; [done|]. split; [|done]. by rewrite Hyf.
    + injection Hcl as <- _. split; [done|]. split; [done|]. split; [done|]. exists rs2, d2, lp2.
      assert (fin = None) as Hn by (destruct fin; [by apply bool_decide_eq_false in Hb; destruct Hb|done]).
      split; [rewrite Hs2; apply lookup_insert_eq|]. split; [done|]. split; [done|]. split; [done|]. split; [done|].
      split; [unfold has_prompt in *; by rewrite Htok2|]. split; [by apply Hoff2|]. split; [done|]. rewrite Hat, Hak, Htext, Htok, <-Hsentt.
      split; [done|]. split; [done|]. rewrite Hall. apply Forall_app_2; [done|]. constructor; [|done]. by rewrite Hyf, Hxf.
  - destruct Hout2 as (-> & Hsx & Htx). injection Hdl as <- _. cbn in Hcl. injection Hcl as <- _. exists col. split; [done|]. split; [done|]. split; [done|].
    exists rs2, d2, lp2. split; [rewrite Hs2; apply lookup_insert_eq|]. split; [done|]. split; [done|]. split; [done|]. split; [done|].
    split; [unfold has_prompt in *; by rewrite Htok2|]. split; [by apply Hoff2|]. split; [done|]. rewrite Htext, Htok, Hsx, Htx, Hsentt. done.
Qed.

Lemma stream_events evs : Forall (sampled_event r) evs -> forall op got g fin op' got', stream_inv op got g fin ->
  for_each (stream_step q) evs (op, got) = Ok (op', got') ->
  exists g' fin', for_each (generate_step r c) evs (g, fin) = Ok (g', fin') /\ stream_inv op' got' g' fin'.
Proof.
  induction 1 as [|ev evs Hev _ IH]; intros op got g fin op' got' Hi Hrun; cbn [for_each] in *.
  { injection Hrun as <- <-. by exists g, fin. }
  apply bind_Ok_inv in Hrun as ([op1 got1] & Hstep & Hrun).
  assert (exists g1 fin1, generate_step r c ev (g, fin) = Ok (g1, fin1) /\ stream_inv op1 got1 g1 fin1) as (g1 & fin1 & -> & Hi1).
  { destruct ev as [o|].
    - apply bind_Ok_inv in Hstep as ([op2 ret] & Hp & [= <- <-]). cbn in Hev.
      destruct (decide (out_request_id o = r /\ fin = false)) as [[Hr ->]|Hn]; [by apply (produce_live o op got g op2 ret Hi Hr (Hev Hr))|].
      exists g, fin. split; [|eapply produce_other; [exact Hi| |exact Hp]; destruct fin; tauto]. cbn [generate_step].
      destruct fin; [done|]. cbn [orb]. by rewrite bool_decide_false by tauto.
    - destruct (consume_inv _ _ _ _ _ Hi Hstep) as (op2 & got2 & [= <- <-] & Hi2). by exists g, fin. }
  cbn [mbind result_bind]. by apply (IH op1 got1).
Qed.
(** ** Nothing stops the stream *)

(** The request collects no log probabilities, has a prompt and is listed under its client's id. *)
Definition goes_on op : Prop := exists rs dt lp ids,
  request_states op !! r = Some rs /\ processors rs = Some (dt, lp) /\ sample_logprobs lp = None /\ prompt_logprobs lp = None /\
  prompt_ids_of rs = Ok ids /\ r ∈ default [] (external_req_ids op !! external_req_id (info rs)).

Definition plain_event (ev : event) : Prop :=
  match ev with
  | Produce o => out_request_id o = r /\ pooling_output o = None /\ new_logprobs o = None /\ new_prompt_logprobs_tensors o = None
  | Consume => True
  end.

Lemma finish_total rs op : request_states op !! request_id (info rs) = Some rs -> parent_req (info rs) = None ->
  request_id (info rs) ∈ default [] (external_req_ids op !! external_req_id (info rs)) ->
  exists op', finish_request rs op = Ok op'.
Proof.
  intros Hrs Hp Hin. unfold finish_request, forget_external. rewrite Hrs, Hp. cbn.
  destruct (list_remove_total _ _ Hin) as [l ->]. by eexists.
Qed.

Lemma produce_total o op got g g' fin : stream_inv op got g false -> goes_on op -> plain_event (Produce o) ->
  generate_step r c (Produce o) (g, false) = Ok (g', fin) ->
  exists op' ret, process_output o (op, ([], [])) = Ok (op', ret) /\ (fin = false -> goes_on op').
Proof.
  intros [Hk _ (col & Hcol & _ & Hs & rs & d & lp & Hrs & (Hkind & Hpar & Hq & Hi) & Hst & Hproc & (Hg1 & Hg2 & Hg3) & _)]
    (rs' & dt & lp' & ids & Hrs' & Hproc' & Hsl & Hpl & Hids & Hext) (Hr & Hpool & Hnl & Hnp) Hgen.
  rewrite Hrs in Hrs'. injection Hrs' as <-. rewrite Hproc in Hproc'. injection Hproc' as <- <-.
  cbn [generate_step orb] in Hgen. rewrite (bool_decide_true (out_request_id o = r)) in Hgen by done. cbn [negb] in Hgen.
  apply bind_Ok_inv in Hgen as ([s g1] & Hu & [= <- <-]).
  destruct (update_same_text _ _ g d _ _ ltac:(done) Hu) as (d1 & Hud & _).
  assert (info (note_output o rs) = info rs /\ streaming_input (note_output o rs) = false /\ prompt_ids_of (note_output o rs) = Ok ids /\
    processors (note_output o rs) = processors rs) as (Hn1 & Hn2 & Hn3 & Hn4).
  { unfold note_output. by destruct (prefill_stats o) as [[? ?]|]; [destruct (is_prefilling rs)|]. }
  set (rs1 := set_processors (Some (Tokenized c d1, lp)) (note_output o rs)).
  assert (exists fin1 stop, take_output o (note_output o rs) = Ok (rs1, fin1, stop) /\
    (fin1 <> None -> bool_decide (is_Some s) || bool_decide (is_Some (out_finish_reason o)) = true)) as (fin1 & stop & Ht & Hf1).
  { unfold take_output. rewrite Hpool, Hn4, Hproc, Hnl, Hnp. cbn [or_raise mbind result_bind detok_update]. rewrite Hud. cbn [mbind result_bind logprobs_update_from_output].
    destruct (nonempty s) as [t|] eqn:Hne; eexists _, _; (split; [done|]).
    - intros _. by destruct s.
    - intros Hf. apply orb_true_iff. right. apply bool_decide_eq_true. destruct (out_finish_reason o); [by eexists|done]. }
  destruct (make_total (new_token_ids o) fin1 stop (out_kv_transfer_params o) (out_ec_transfer_params o) (parents op) rs1 (Tokenized c d1) lp ids)
    as (out & rs2 & dt2 & Hm & Hi2 & Hst2 & Hproc2 & Hids2 & Hout); try done; try (cbn; by rewrite Hn1).
  cbn [rs1 set_processors info streaming_input] in Hi2, Hst2. rewrite Hn1 in Hi2. rewrite Hn2 in Hst2.
  assert (request_id (info rs2) = r) as Hid by (rewrite Hi2; by apply Hk).
  set (op1 := set_parents (parents op) (set_states (<[request_id (info rs2) := rs2]> (request_states op)) op)).
  assert (exists op2 outs2, deliver out rs2 op1 [] = Ok (op2, outs2) /\ external_req_ids op2 = external_req_ids op /\ request_states op2 = request_states op1)
    as (op2 & outs2 & Hd & Hext2 & Hs2).
  { unfold deliver. destruct out as [x|]; [|by eexists _, _]. destruct Hout as (oo & cc & -> & Ho & Hci & Hcl). cbn [rs1 set_processors info] in Hci. rewrite Hn1, Hi in Hci.
    rewrite Hst2, Hi2, Hq. unfold put_to. change (queues op1) with (queues op). rewrite Hcol. cbn [or_raise mbind result_bind].
    destruct (put_total i col oo cc Hs Ho Hci Hcl) as [col' ->]. by eexists _, _. }
  assert (goes_on op2) as Hgo.
  { exists rs2, dt2, lp, ids. rewrite Hs2, Hext2, Hi2. cbn. rewrite Hid. by rewrite lookup_insert_eq. }
  assert (exists st, process_output o (op, ([], [])) = Ok st /\ (bool_decide (is_Some fin1) = false -> st.1 = op2)) as ([op' ret] & Hp & Hop).
  { unfold process_output. rewrite Hr, Hrs, Ht. cbn [mbind result_bind]. rewrite Hpool, Hm. cbn [mbind result_bind].
    change (match out with None => Ok (_, []) | Some _ => _ end) with (deliver out rs2 op1 []). rewrite Hd. cbn [mbind result_bind].
    destruct (bool_decide (is_Some fin1)); [|by eexists].
    unfold close_output. rewrite Hst2. destruct (finish_total rs2 op2) as [op3 ->]; [| | |by eexists].
    - rewrite Hs2. cbn. apply lookup_insert_eq.
    - by rewrite Hi2.
    - rewrite Hid, Hext2, Hi2. exact Hext. }
  exists op', ret. split; [exact Hp|]. intros Hfin. cbn in Hop. rewrite Hop; [exact Hgo|].
  apply bool_decide_eq_false. intros [f Hf]. rewrite Hf1 in Hfin; [done|by rewrite Hf].
Qed.

Lemma stream_total evs : Forall plain_event evs -> forall op got g fin g' fin', stream_inv op got g fin -> (fin = false -> goes_on op) ->
  for_each (generate_step r c) evs (g, fin) = Ok (g', fin') -> exists op' got', for_each (stream_step q) evs (op, got) = Ok (op', got').
Proof.
  induction 1 as [|ev evs Hev _ IH]; intros op got g fin g' fin' Hi Hgo Hgen; cbn [for_each] in *; [by eexists _, _|].
  apply bind_Ok_inv in Hgen as ([g1 fin1] & Hstep & Hgen).
  assert (exists op1 got1, stream_step q ev (op, got) = Ok (op1, got1) /\ stream_inv op1 got1 g1 fin1 /\ (fin1 = false -> goes_on op1))
    as (op1 & got1 & -> & Hi1 & Hgo1); [|by apply (IH op1 got1 g1 fin1 g' fin')].
  destruct ev as [o|].
  - destruct fin.
    + assert (process_output o (op, ([], [])) = Ok (op, ([], []))) as Hp.
      { unfold process_output. destruct Hev as [-> _]. by destruct Hi as [_ _ (col & _ & _ & _ & -> & _)]. }
      cbn [generate_step orb] in Hstep. injection Hstep as <- <-. exists op, got. unfold stream_step. rewrite Hp. done.
    + destruct (produce_total o op got g g1 fin1 Hi (Hgo eq_refl) Hev Hstep) as (op' & ret & Hp & Hgo').
      destruct (produce_live o op got g op' ret Hi (proj1 Hev) (proj1 (proj2 Hev)) Hp) as (g2 & fin2 & Hstep2 & Hi2).
      rewrite Hstep in Hstep2. injection Hstep2 as <- <-. exists op', got. unfold stream_step. by rewrite Hp.
  - cbn in Hstep. injection Hstep as <- <-. pose proof Hi as [_ _ (col & Hcol & _ & Hs & _)].
    destruct (get_nowait col) as [x col'] eqn:Hget. destruct (get_single i _ _ _ Hs Hget) as (_ & _ & _ & ->).
    assert (exists got', stream_step q Consume (op, got) = Ok (set_queues (<[q := col']> (queues op)) op, got')) as [got' Hc'].
    { cbn. rewrite Hcol. cbn [or_raise mbind result_bind]. rewrite Hget. by eexists. }
    destruct (consume_inv _ _ _ _ _ Hi Hc') as (op1 & got1 & [= <- <-] & Hi1). eexists _, _. split; [exact Hc'|]. by split.
Qed.
End Request.

(** ** From the start of the request *)

Variable new_decoder : Tokenizer -> EngineCoreRequest -> Detok D.
Variable kept_prompt_len : Tokenizer -> EngineCoreRequest -> Z.

(** A new request for one completion, its deltas to be put in the new queue [q]. *)
Record streamed (req : EngineCoreRequest) (p : OutputParams) (tk : Tokenizer) (q : Z) op : Prop := {
  streamed_params : core_params req = inl p /\ output_kind p = DELTA /\ detokenize p = true /\ resumable req = false;
  streamed_tokenizer : has_tokenizer op = Some tk;
  streamed_stop : Forall (.≠ []) (stop_strings p) /\ 0 <= params_min_tokens p;
  streamed_decoder : output_text (new_decoder tk req) = [] /\ last_output_text_offset (new_decoder tk req) = 0 /\
    zlen (token_ids (new_decoder tk req)) = kept_prompt_len tk req;
  streamed_new : request_states op !! core_request_id req = None;
  streamed_queue : queues op !! q = Some (collector_init DELTA);
  streamed_others : keyed op /\ forall r rs, request_states op !! r = Some rs -> queue (info rs) <> Some q
}.

Definition detok_config (req : EngineCoreRequest) (p : OutputParams) (tk : Tokenizer) : DetokConfig :=
  mkDetokConfig (stop_strings p) (params_min_tokens p) (params_include_stop_str p) (kept_prompt_len tk req).

Lemma add_request_stream req p tk q i pr op op0 : streamed req p tk q op ->
  add_request new_decoder kept_prompt_len req pr None i (Some q) op = Ok op0 ->
  stream_inv (core_request_id req) q i (detok_config req p tk) op0 [] (new_decoder tk req) false.
Proof.
  intros [(Hp & Hk & Hd & Hres) Htk [Hstop Hmin] (Ht & Hoff & Hlen) Hnew Hq [Hkey Hothers]] Hadd. unfold add_request in Hadd. rewrite Hnew in Hadd.
  apply bind_Ok_inv in Hadd as (rs & Hrs & Hadd). unfold state_from_new_request in Hrs. apply bind_Ok_inv in Hrs as (e & _ & Hrs).
  rewrite Hp, Hd, Htk, Hres in Hrs. injection Hrs as <-. cbn [mbind result_bind] in Hadd. injection Hadd as <-.
  set (rs := mkState _ _ _ _ _ _ _ _ _ _ _). split; cbn.
  - intros r rs' Hr. cbn in Hr. destruct (decide (r = core_request_id req)) as [->|Hne].
    + rewrite lookup_insert_eq in Hr. by injection Hr as <-.
    + rewrite lookup_insert_ne in Hr by done. by apply Hkey.
  - intros r rs' Hr Hqr. cbn in Hr. destruct (decide (r = core_request_id req)) as [->|Hne]; [done|].
    rewrite lookup_insert_ne in Hr by done. by destruct (Hothers _ _ Hr).
  - exists (collector_init DELTA). split; [done|]. split; [done|]. split; [done|]. exists rs, (new_decoder tk req).
    eexists. cbn. split; [apply lookup_insert_eq|]. split; [done|]. split; [done|]. split; [done|]. split; [done|].
    unfold has_prompt, offset_ok, sent_text, sent_tokens, num_output_tokens, detok_config. cbn. rewrite Ht, Hoff, Hlen. cbn.
    split; [lia|]. split; [pose proof (stop_buffer_nonneg (detok_config req p tk) Hstop); unfold detok_config in *; lia|]. split; [lia|].
    split; [done|]. split; [|done]. destruct (1 <? _); [done|]. unfold output_token_ids. cbn.
    destruct (Z.eqb_spec (kept_prompt_len tk req) 0) as [Hz|Hz]; [symmetry; apply nil_length_inv; lia|].
    rewrite py_from_nonneg, drop_ge by lia. done.
Qed.

(** Everything a client has been handed or has waiting. *)
Definition received q op (got : list (Output K E X)) : list (Output K E X) :=
  got ++ match queues op !! q with Some col => waiting col | None => [] end.

Lemma stream_Ok req p tk q i pr op op0 evs op' got : streamed req p tk q op ->
  add_request new_decoder kept_prompt_len req pr None i (Some q) op = Ok op0 ->
  Forall (sampled_event (core_request_id req)) evs -> for_each (stream_step q) evs (op0, []) = Ok (op', got) ->
  exists g fin, for_each (generate_step (core_request_id req) (detok_config req p tk)) evs (new_decoder tk req, false) = Ok (g, fin) /\
    (fin = true -> concat (text_of <$> received q op' got) = output_text g /\
       concat (tokens_of <$> received q op' got) = output_token_ids (detok_config req p tk) g /\
       exists init x, received q op' got = init ++ [x] /\ output_finished x = true /\ Forall (fun x => output_finished x = false) init) /\
    (fin = false -> concat (text_of <$> received q op' got) `prefix_of` output_text g /\
       concat (tokens_of <$> received q op' got) `prefix_of` output_token_ids (detok_config req p tk) g /\
       Forall (fun x => output_finished x = false) (received q op' got)).
Proof.
  intros Hs Hadd Hevs Hrun. pose proof (add_request_stream _ _ _ _ _ _ _ _ Hs Hadd) as Hi.
  assert (config_ok (detok_config req p tk)) as Hc by apply Hs.
  destruct (stream_events (core_request_id req) q i _ Hc evs Hevs _ _ _ _ _ _ Hi Hrun) as (g & fin & Hg & [_ _ (col & Hcol & _ & _ & Hd)]).
  exists g, fin. split; [exact Hg|]. unfold received. rewrite Hcol. split; intros ->.
  - by destruct Hd as (_ & Hd).
  - destruct Hd as (rs & d & lp & _ & _ & _ & _ & (Hgi & Hgt & _) & _ & _ & _ & -> & -> & Hf). split; [|split; [|done]].
    + unfold sent_text. rewrite Hgt. apply prefix_take.
    + unfold sent_tokens. assert (output_token_ids (detok_config req p tk) d = output_token_ids (detok_config req p tk) g) as -> by (unfold output_token_ids; by rewrite Hgi).
      destruct (1 <? _); [apply prefix_take|done].
Qed.
(** A request without log probabilities. *)
Record plain_request (req : EngineCoreRequest) (p : OutputParams) : Prop := {
  plain_external : is_Some (core_external_req_id req);
  plain_logprobs : params_logprobs p = None /\ params_prompt_logprobs p = None;
  plain_prompt : is_Some (core_prompt_token_ids req) \/ is_Some (core_prompt_embeds_len req)
}.

Lemma add_request_goes_on req p tk q i pr op : streamed req p tk q op -> plain_request req p ->
  exists op0, add_request new_decoder kept_prompt_len req pr None i (Some q) op = Ok op0 /\ goes_on (core_request_id req) op0.
Proof.
  intros [(Hp & Hk & Hd & Hres) Htk _ _ Hnew _ _] [[e He] [Hl Hpl] Hpr]. unfold add_request, state_from_new_request. rewrite Hnew, He, Hp, Hd, Hres.
  cbn [or_raise mbind result_bind]. eexists. split; [done|]. set (rs := mkState _ _ _ _ _ _ _ _ _ _ _).
  assert (exists ids, prompt_ids_of rs = Ok ids) as [ids Hids].
  { unfold prompt_ids_of. cbn. destruct (core_prompt_token_ids req); [by eexists|]. destruct Hpr as [[? ?]|[k ->]]; [done|by eexists]. }
  exists rs. eexists _, _, ids. cbn. split; [apply lookup_insert_eq|]. split; [done|]. cbn. rewrite Hl, Hpl. split; [done|]. split; [done|].
  split; [exact Hids|]. rewrite lookup_insert_eq. cbn. apply elem_of_app. right. left.
Qed.

Lemma stream_runs req p tk q i pr op evs g fin : streamed req p tk q op -> plain_request req p ->
  Forall (plain_event (core_request_id req)) evs ->
  for_each (generate_step (core_request_id req) (detok_config req p tk)) evs (new_decoder tk req, false) = Ok (g, fin) ->
  exists op0 op' got, add_request new_decoder kept_prompt_len req pr None i (Some q) op = Ok op0 /\ for_each (stream_step q) evs (op0, []) = Ok (op', got).
Proof.
  intros Hs Hp Hevs Hgen. destruct (add_request_goes_on _ _ _ _ i pr _ Hs Hp) as (op0 & Hadd & Hgo).
  pose proof (add_request_stream _ _ _ _ _ _ _ _ Hs Hadd) as Hi. assert (config_ok (detok_config req p tk)) as Hc by apply Hs.
  destruct (stream_total (core_request_id req) q i _ Hc evs Hevs _ _ _ _ _ _ Hi (fun _ => Hgo) Hgen) as (op' & got & Hrun). by exists op0, op', got.
Qed.
End Stream.

(** * Streaming delivers everything *)

(** C7: For a streamed request, over any interleaving of engine outputs (of this and other requests,
    merged in the collector when the consumer is slow, held back by the stream interval) with reads of the consumer:
    the deltas received or waiting are a prefix of the generated text and tokens with none marked finished, and once
    the request is done they are all of the final text, cut at its stop string, and all of its tokens, the last one alone
    marked finished. And the run does go on: for a request without log probabilities nothing fails as long as its tokens
    can be detokenized. *)
Theorem stream_delivers_all `{Decoder D} {K E X : Type} new_decoder kept_prompt_len req p tk q i pr
    (op : OutputProcessor (D := D) (K := K) (E := E) (X := X)) evs :
  streamed new_decoder kept_prompt_len req p tk q op ->
  (forall g fin, plain_request req p -> Forall (plain_event (core_request_id req)) evs ->
   for_each (generate_step (core_request_id req) (detok_config kept_prompt_len req p tk)) evs (new_decoder tk req, false) = Ok (g, fin) ->
   exists op0 op' got, add_request new_decoder kept_prompt_len req pr None i (Some q) op = Ok op0 /\
     for_each (stream_step q) evs (op0, []) = Ok (op', got)) /\
  forall op0 op' got, add_request new_decoder kept_prompt_len req pr None i (Some q) op = Ok op0 ->
  Forall (sampled_event (core_request_id req)) evs -> for_each (stream_step q) evs (op0, []) = Ok (op', got) ->
  exists g fin, for_each (generate_step (core_request_id req) (detok_config kept_prompt_len req p tk)) evs (new_decoder tk req, false) = Ok (g, fin) /\
    (fin = true -> concat (text_of <$> received q op' got) = output_text g /\
       concat (tokens_of <$> received q op' got) = output_token_ids (detok_config kept_prompt_len req p tk) g /\
       exists init x, received q op' got = init ++ [x] /\ output_finished x = true /\ Forall (fun x => output_finished x = false) init) /\
    (fin = false -> concat (text_of <$> received q op' got) `prefix_of` output_text g /\
       concat (tokens_of <$> received q op' got) `prefix_of` output_token_ids (detok_config kept_prompt_len req p tk) g /\
       Forall (fun x => output_finished x = false) (received q op' got)).
Proof.
  intros Hs. split; [intros g fin Hp Hevs Hgen; by eapply stream_runs|].
  intros op0 op' got Hadd Hevs Hrun. by eapply stream_Ok.
Qed.

(** Two outputs merge before the consumer reads; the stop string [3; 4] is not delivered. *)
Definition demo_params : OutputParams := mkOutputParams 1 None DELTA true None [[3; 4]] 0 false None None false.
Definition demo_request : EngineCoreRequest := mkCoreRequest "r" (Some "e") (Some [9]) None (inl demo_params) false.
Definition demo_tokenizer : Tokenizer := mkTokenizer 256 true [] [] (fun _ ids => (fun id => Some [id]) <$> ids) (fun ts => concat ts) (fun ids => ids) None.
Definition demo_processor : OutputProcessor (D := unit) (K := unit) (E := unit) (X := unit) :=
  mkProcessorState 1 (Some demo_tokenizer) ∅ ∅ ∅ ∅ {[0 := collector_init DELTA]}.
Definition demo_output (ids : list Z) (fin : option FinishReason) : EngineCoreOutput (K := unit) (E := unit) (X := unit) :=
  mkCoreOutput "r" ids None None None fin None None None None None.
Definition demo_events : list (event (K := unit) (E := unit) (X := unit)) :=
  [Produce (demo_output [1; 2] None); Consume; Produce (demo_output [7] None); Produce (demo_output [3; 4; 5] None); Consume].

Lemma stream_delivers_all_witness : exists op0 op' got,
  @add_request unit unit unit unit (fun _ _ => echo_start) (fun _ _ => 0) demo_request None None 0 (Some 0) demo_processor = Ok op0 /\
  for_each (@stream_step unit echo_decoder unit unit unit 0) demo_events (op0, []) = Ok (op', got) /\
  concat (text_of <$> received 0 op' got) = [1; 2; 7] /\ concat (tokens_of <$> received 0 op' got) = [1; 2; 7; 3; 4; 5].
Proof.
  destruct (@stream_delivers_all unit echo_decoder unit unit unit (fun _ _ => echo_start) (fun _ _ => 0) demo_request demo_params demo_tokenizer
    0 0 None demo_processor demo_events) as [Hruns Hall].
  { split; try done. split; [by repeat constructor|done]. }
  destruct (for_each (@generate_step unit echo_decoder unit unit unit "r" (detok_config (fun _ _ => 0) demo_request demo_params demo_tokenizer)) demo_events (echo_start, false))
    as [[g fin]|] eqn:Hg; [|vm_compute in Hg; discriminate].
  destruct (Hruns g fin) as (op0 & op' & got & Hadd & Hrun); [split; [by eexists|done|left; by eexists]|by repeat constructor|exact Hg|].
  exists op0, op', got. split; [exact Hadd|]. split; [exact Hrun|].
  destruct (Hall op0 op' got Hadd) as (g1 & fin1 & Hg1 & Hfin & _); [repeat constructor|exact Hrun|].
  vm_compute in Hg1. injection Hg1 as <- <-. destruct (Hfin eq_refl) as (-> & -> & _). split; reflexivity.
Defined.
