(* ===== verification/OutputIndex.v ===== *)
(** The index from client ids to request ids: [external_req_ids] of the output
    processor lists exactly the requests that are there, after any sequence of
    additions, outputs and aborts, and an abort by client id removes
    exactly its requests. *)
From stdpp Require Import strings.
From S2P Require Import Prelude PyFloat Request Tokenizers Logprobs Detokenizer RequestOutput ParallelSampling OutputProcessor OutputStream.
Open Scope Z_scope.

Section Index.
Context `{Decoder D} {K E X : Type}.
Abbreviation RequestState := (RequestState (D := D) (E := E)).
Abbreviation OutputProcessor := (OutputProcessor (D := D) (K := K) (E := E) (X := X)).
Implicit Types (rs : RequestState) (op : OutputProcessor) (P : string -> Prop) (l : list string).

(** The requests outside [P] are listed under their client id, and nothing else is. *)
Record index_mod op P : Prop := {
  index_keyed : keyed op;
  index_listed : forall r rs, request_states op !! r = Some rs -> ~ P r -> r ∈ default [] (external_req_ids op !! external_req_id (info rs));
  index_entries : forall e l, external_req_ids op !! e = Some l -> l <> [] /\ NoDup l /\
    forall r, r ∈ l -> ~ P r /\ exists rs, request_states op !! r = Some rs /\ external_req_id (info rs) = e
}.
Definition index_ok op : Prop := index_mod op (fun _ => False).

Lemma list_remove_Ok x l l' : NoDup l -> list_remove x l = Ok l' -> x ∈ l /\ NoDup l' /\ forall y, y ∈ l' <-> y ∈ l /\ y <> x.
Proof.
  revert l'. induction l as [|y l IH]; intros l' Hnd Hr; [done|]. cbn in Hr. apply NoDup_cons in Hnd as [Hy Hnd].
  destruct (bool_decide_reflect (y = x)) as [->|Hne].
  - injection Hr as <-. split; [left|]. split; [done|]. intros z. rewrite elem_of_cons. split; [intros Hz; split; [by right|by intros ->]|].
    intros [[->|Hz] Hzx]; done.
  - apply bind_Ok_inv in Hr as (l1 & Hl1 & [= <-]). destruct (IH l1 Hnd Hl1) as (Hx & Hnd1 & Hl). split; [by right|]. split.
    + apply NoDup_cons. split; [|done]. by rewrite Hl; intros [? _].
    + intros z. rewrite !elem_of_cons, Hl. split; [intros [->|[? ?]]; tauto|tauto].
Qed.

(** Only the entries change that mention [r]. *)
Lemma forget_external_Ok e r op op' P : index_mod op P -> (forall rs, request_states op !! r = Some rs -> external_req_id (info rs) = e) ->
  forget_external e r op = Ok op' ->
  index_mod op' (fun x => P x \/ x = r) /\ request_states op' = request_states op /\ parent_requests op' = parent_requests op /\ parents op' = parents op.
Proof.
  intros [Hk Hl He] Hr Hf. unfold forget_external in Hf. apply bind_Ok_inv in Hf as (l' & Hl' & [= <-]). cbn.
  destruct (external_req_ids op !! e) as [l|] eqn:Hel; [|done]. cbn in Hl'. destruct (He e l Hel) as (_ & Hnd & Hin).
  destruct (list_remove_Ok r l l' Hnd Hl') as (Hrl & Hnd' & Hmem). split; [|done]. split; [exact Hk| |].
  - intros x rs Hx Hnx. cbn in *. assert (x <> r) by tauto. specialize (Hl x rs Hx ltac:(tauto)).
    destruct (decide (external_req_id (info rs) = e)) as [He'|Hne].
    + rewrite He' in *. rewrite Hel in Hl. cbn in Hl. assert (x ∈ l') as Hx' by (rewrite Hmem; done).
      rewrite bool_decide_false by (intros ->; by apply not_elem_of_nil in Hx'). by rewrite lookup_insert_eq.
    + destruct (bool_decide (l' = [])); [by rewrite lookup_delete_ne|by rewrite lookup_insert_ne].
  - intros e' k He'. cbn in He'. destruct (decide (e' = e)) as [->|Hne].
    + destruct (bool_decide_reflect (l' = [])) as [|Hne']; [by rewrite lookup_delete_eq in He'|]. rewrite lookup_insert_eq in He'. injection He' as <-.
      split; [done|]. split; [done|]. intros x Hx. apply Hmem in Hx as [Hx Hxr]. destruct (Hin x Hx) as [Hnp Hs]. split; [tauto|done].
    + assert (external_req_ids op !! e' = Some k) as Hk' by (destruct (bool_decide (l' = [])); [by rewrite lookup_delete_ne in He'|by rewrite lookup_insert_ne in He']).
      destruct (He e' k Hk') as (Hkn & Hkd & Hkin). split; [done|]. split; [done|]. intros x Hx. destruct (Hkin x Hx) as [Hnp Hs].
      split; [|done]. intros [ ? | -> ]; [done|]. destruct Hs as (rs & Hrs & Hers). by rewrite (Hr rs Hrs) in Hers.
Qed.

(** A state may be replaced by one of the same request. *)
Lemma index_set_state op P r rs rs' : index_mod op P -> request_states op !! r = Some rs -> info rs' = info rs ->
  index_mod (set_states (<[r := rs']> (request_states op)) op) P.
Proof.
  intros [Hk Hl He] Hrs Hi. split.
  - intros x rs1 Hx. cbn in Hx. destruct (decide (x = r)) as [->|Hne]; [|rewrite lookup_insert_ne in Hx by done; by apply Hk].
    rewrite lookup_insert_eq in Hx. injection Hx as <-. rewrite Hi. by apply Hk.
  - intros x rs1 Hx Hnp. cbn in *. destruct (decide (x = r)) as [->|Hne]; [|rewrite lookup_insert_ne in Hx by done; by apply Hl].
    rewrite lookup_insert_eq in Hx. injection Hx as <-. rewrite Hi. by apply Hl.
  - intros e l Hel. cbn in Hel. destruct (He e l Hel) as (Hn & Hd & Hin). split; [done|]. split; [done|]. intros x Hx.
    destruct (Hin x Hx) as (Hnp & rs1 & Hrs1 & Hers). split; [done|]. cbn. destruct (decide (x = r)) as [->|Hne].
    + exists rs'. rewrite lookup_insert_eq, Hi. split; [done|]. congruence.
    + exists rs1. by rewrite lookup_insert_ne.
Qed.

(** A request that is not listed may go. *)
Lemma index_delete_state op P Q r : index_mod op P -> P r -> (forall x, x <> r -> P x -> Q x) -> (forall x, Q x -> P x) ->
  index_mod (set_states (delete r (request_states op)) op) Q.
Proof.
  intros [Hk Hl He] Hr HPQ HQP. split.
  - intros x rs Hx. cbn in Hx. apply lookup_delete_Some in Hx as [_ Hx]. by apply Hk.
  - intros x rs Hx Hnq. cbn in *. apply lookup_delete_Some in Hx as [Hne Hx]. apply Hl; [done|]. intros Hp. apply Hnq, HPQ; done.
  - intros e l Hel. destruct (He e l Hel) as (Hn & Hd & Hin). split; [done|]. split; [done|]. intros x Hx.
    destruct (Hin x Hx) as (Hnp & rs & Hrs & Hers). split; [by intros Hq%HQP|]. exists rs. cbn. rewrite lookup_delete_ne; [done|]. by intros ->.
Qed.

Lemma index_weaken op P Q : index_mod op P -> (forall x, Q x -> P x) -> (forall x, P x -> Q x \/ request_states op !! x = None) -> index_mod op Q.
Proof.
  intros [Hk Hl He] HQP HPQ. split; [done| |].
  - intros x rs Hx Hnq. apply Hl; [done|]. intros Hp. destruct (HPQ x Hp); [done|congruence].
  - intros e l Hel. destruct (He e l Hel) as (Hn & Hd & Hin). split; [done|]. split; [done|]. intros x Hx. destruct (Hin x Hx) as [Hnp Hs].
    split; [|done]. by intros Hq%HQP.
Qed.

(** The stores do not matter. *)
Lemma index_frame op op' P : index_mod op P -> request_states op' = request_states op -> external_req_ids op' = external_req_ids op -> index_mod op' P.
Proof. intros [Hk Hl He] Hs Hx. split; unfold keyed in *; rewrite ?Hs, ?Hx; done. Qed.

(** ** Finishing, adding, processing *)

Lemma finish_request_index rs op op' r : index_ok op -> request_states op !! r = Some rs -> finish_request rs op = Ok op' -> index_ok op'.
Proof.
  intros Hi Hr Hf. pose proof (index_keyed _ _ Hi r rs Hr) as Hid. unfold finish_request in Hf. rewrite Hid in Hf.
  apply bind_Ok_inv in Hf as (x & _ & Hf). apply bind_Ok_inv in Hf as (op1 & H1 & Hf).
  set (op0 := set_states (delete r (request_states op)) op) in *.
  assert (forget_external (external_req_id (info rs)) r op = Ok (set_states (request_states op) op1)) as H1'.
  { unfold forget_external in *. apply bind_Ok_inv in H1 as (l' & Hl' & [= <-]). change (external_req_ids op0) with (external_req_ids op) in Hl'. by rewrite Hl'. }
  destruct (forget_external_Ok (external_req_id (info rs)) r op (set_states (request_states op) op1) (fun _ => False) Hi
    ltac:(intros rs' Hrs'; congruence) H1') as (Hi1 & _).
  assert (index_ok op1) as Hok.
  { apply (index_delete_state _ _ (fun _ => False) r) in Hi1; [|by right|by intros y Hy [?|?]|done].
    apply (index_frame _ op1) in Hi1; [done| |done]. cbn. apply forget_external_frame in H1 as [-> _]. done. }
  destruct (parent_req (info rs)) as [pref|]; [|by injection Hf as <-]. apply bind_Ok_inv in Hf as (pr & _ & Hf).
  destruct (bool_decide _); injection Hf as <-; [|done]. by apply (index_frame op1).
Qed.

Lemma add_request_index new_decoder kept req prompt parent i q op op' : index_ok op ->
  add_request new_decoder kept req prompt parent i q op = Ok op' -> index_ok op'.
Proof.
  intros Hi Ha. unfold add_request in Ha. destruct (request_states op !! core_request_id req) as [rs|] eqn:Hrs.
  - pose proof (index_keyed _ _ Hi _ _ Hrs) as Hid. unfold update_streaming_request_state in Ha.
    assert (forall rs' op', Ok (set_states (<[request_id (info rs') := rs']> (request_states op)) op) = Ok op' -> info rs' = info rs -> index_ok op') as Hset.
    { intros rs' op1 [= <-] Hi'. rewrite Hi', Hid. by apply (index_set_state op _ _ rs). }
    destruct (resumable req); cbn [negb] in Ha.
    + destruct (input_chunk_queue rs) as [us|]; by apply Hset in Ha.
    + destruct (input_chunk_queue rs) as [[|u us]|]; [by apply Hset in Ha|by apply Hset in Ha|].
      apply bind_Ok_inv in Ha as (op1 & Hf & Ha). apply (finish_request_index _ _ _ _ Hi Hrs) in Hf.
      destruct (queue (info rs)); [|by injection Ha as <-]. pose proof (put_to_external _ _ _ _ Ha) as [He _]. apply put_to_frame in Ha as [Hs _].
      by apply (index_frame op1).
  - apply bind_Ok_inv in Ha as (rs & Hnew & Ha). apply bind_Ok_inv in Ha as (op1 & H1 & [= <-]).
    assert (external_req_ids op1 = external_req_ids op /\ request_states op1 = <[core_request_id req := rs]> (request_states op)) as [He Hs].
    { destruct parent as [pref|]; [|by injection H1 as <-]. by apply bind_Ok_inv in H1 as (pr & _ & [= <-]). }
    assert (request_id (info rs) = core_request_id req) as Hid.
    { unfold state_from_new_request in Hnew. apply bind_Ok_inv in Hnew as (e & _ & Hnew).
      by destruct (core_params req); injection Hnew as <-. }
    destruct Hi as [Hk Hl Hent]. set (r := core_request_id req) in *. set (e := external_req_id (info rs)).
    assert (forall e' l, external_req_ids op !! e' = Some l -> r ∉ l) as Hfresh.
    { intros e' l Hel Hin. destruct (Hent e' l Hel) as (_ & _ & Hin'). destruct (Hin' r Hin) as (_ & rs' & Hrs' & _). congruence. }
    split; cbn; rewrite ?Hs, ?He.
    + intros x rs' Hx. cbn in Hx. rewrite Hs in Hx. destruct (decide (x = r)) as [->|Hne].
      * rewrite lookup_insert_eq in Hx. by injection Hx as <-.
      * rewrite lookup_insert_ne in Hx by done. by apply Hk.
    + intros x rs' Hx _. destruct (decide (x = r)) as [->|Hne].
      * rewrite lookup_insert_eq in Hx. injection Hx as <-. fold e. rewrite lookup_insert_eq. cbn. apply elem_of_app. right. left.
      * rewrite lookup_insert_ne in Hx by done. specialize (Hl x rs' Hx ltac:(tauto)). destruct (decide (external_req_id (info rs') = e)) as [He'|He'].
        -- rewrite He' in *. rewrite lookup_insert_eq. cbn. apply elem_of_app. by left.
        -- by rewrite lookup_insert_ne.
    + intros e' l Hel. destruct (decide (e' = e)) as [->|Hne].
      * rewrite lookup_insert_eq in Hel. injection Hel as <-. split; [by destruct (default [] _)|].
        assert (forall x, x ∈ default [] (external_req_ids op !! e) -> x <> r /\ exists rs', request_states op !! x = Some rs' /\ external_req_id (info rs') = e) as Hold.
        { intros x Hx. destruct (external_req_ids op !! e) as [l|] eqn:Hel; [|by apply not_elem_of_nil in Hx]. cbn in Hx.
          destruct (Hent e l Hel) as (_ & _ & Hin). destruct (Hin x Hx) as [_ Hs']. split; [intros ->; by apply (Hfresh e l)|done]. }
        split.
        -- apply NoDup_app. split; [destruct (external_req_ids op !! e) as [l|] eqn:Hel; [by destruct (Hent e l Hel) as (_ & ? & _)|constructor]|].
           split; [|apply NoDup_singleton]. intros x Hx ->%list_elem_of_singleton. by destruct (Hold _ Hx).
        -- intros x [Hx | ->%list_elem_of_singleton]%elem_of_app; (split; [tauto|]).
           ++ destruct (Hold x Hx) as (Hne & rs' & Hrs' & He'). exists rs'. by rewrite lookup_insert_ne.
           ++ exists rs. by rewrite lookup_insert_eq.
      * rewrite lookup_insert_ne in Hel by done. destruct (Hent e' l Hel) as (Hn & Hd & Hin). split; [done|]. split; [done|].
        intros x Hx. split; [tauto|]. destruct (Hin x Hx) as (_ & rs' & Hrs' & He'). exists rs'. rewrite lookup_insert_ne; [done|].
        intros <-. by apply (Hfresh e' l).
Qed.

Lemma deliver_external out rs op outs op' outs' : deliver out rs op outs = Ok (op', outs') -> external_req_ids op' = external_req_ids op.
Proof.
  unfold deliver. destruct out as [out|]; [|by intros [= <- _]]. destruct (queue (info rs)); [|by intros [= <- _]].
  intros Hd. apply bind_Ok_inv in Hd as (op1 & Hp & [= <- _]). by apply put_to_external in Hp as [-> _].
Qed.

Lemma process_output_index o op ret op' ret' : index_ok op -> process_output o (op, ret) = Ok (op', ret') -> index_ok op'.
Proof.
  intros Hi Hp. destruct ret as [outs aborts]. destruct (request_states op !! out_request_id o) as [rs|] eqn:Hrs.
  2: { unfold process_output in Hp. rewrite Hrs in Hp. by injection Hp as <- _. }
  pose proof (index_keyed _ _ Hi _ _ Hrs) as Hid.
  destruct (process_output_steps _ _ _ _ _ _ _ Hrs Hp) as (rs1 & fin & stop & out & ps & rs2 & op2 & outs2 & Ht & Hm & Hd & Hc).
  apply make_request_info in Hm. apply take_output_info in Ht. rewrite note_output_info in Ht. rewrite Ht in Hm.
  pose proof (deliver_external _ _ _ _ _ _ Hd) as He2. apply deliver_frame in Hd as [Hs2 _]. cbn in He2, Hs2. rewrite Hm, Hid in Hs2.
  assert (index_ok op2) as Hi2.
  { apply (index_set_state op _ (out_request_id o) rs rs2 Hi Hrs) in Hm. by apply (index_frame _ op2 _ Hm). }
  destruct (bool_decide (is_Some fin)); [|by injection Hc as <- _]. unfold close_output in Hc.
  assert (request_states op2 !! out_request_id o = Some rs2) as Hrs2 by (rewrite Hs2; apply lookup_insert_eq).
  destruct (streaming_input rs2).
  - injection Hc as <- _. set (rs3 := match input_chunk_queue rs2 with Some (u :: us) => _ | _ => _ end).
    assert (info rs3 = info rs2) as Hi3 by (unfold rs3; by destruct (input_chunk_queue rs2) as [[|u us]|]).
    rewrite Hi3, Hm, Hid. by apply (index_set_state op2 _ _ rs2).
  - apply bind_Ok_inv in Hc as (op3 & Hf & [= <- _]). by apply (finish_request_index _ _ _ _ Hi2 Hrs2) in Hf.
Qed.

Lemma process_outputs_index os op op' ret : index_ok op -> process_outputs os op = Ok (op', ret) -> index_ok op'.
Proof.
  intros Hi Hp. unfold process_outputs in Hp.
  apply (for_each_Ok_inv _ (fun st => index_ok st.1)) in Hp; [done|done|]. intros o [op1 ret1] [op2 ret2] H1 H2. by apply process_output_index in H2.
Qed.

(** ** Aborting *)

Variable children_order : gset string -> list string.
Variable empty_tensor : X.

Lemma abort_state_frame rs op op' : abort_state empty_tensor rs op = Ok op' ->
  request_states op' = request_states op /\ external_req_ids op' = external_req_ids op /\ parent_requests op' = parent_requests op.
Proof.
  unfold abort_state. destruct (queue (info rs)) as [q|]; [|by intros [= <-]]. intros Ha.
  apply bind_Ok_inv in Ha as ([[out ps] rs'] & _ & Ha). destruct out as [out|]; [|by injection Ha as <-].
  pose proof (put_to_external _ _ _ _ Ha) as [-> ->]. by apply put_to_frame in Ha as [-> _].
Qed.

(** The first loop: what it collects is no longer listed. *)
Lemma collect_index internal ids : forall op acc op' acc' P, index_mod op (fun x => P x \/ x ∈ acc) ->
  for_each (collect_internal internal) ids (op, acc) = Ok (op', acc') ->
  index_mod op' (fun x => P x \/ x ∈ acc') /\ request_states op' = request_states op /\ parent_requests op' = parent_requests op.
Proof.
  induction ids as [|r ids IH]; intros op acc op' acc' P Hi Hrun; cbn [for_each] in Hrun; [by injection Hrun as <- <-|].
  apply bind_Ok_inv in Hrun as ([op1 acc1] & Hstep & Hrun).
  assert (index_mod op1 (fun x => P x \/ x ∈ acc1) /\ request_states op1 = request_states op /\ parent_requests op1 = parent_requests op) as (Hi1 & Hs1 & Hp1).
  { unfold collect_internal in Hstep. destruct internal.
    - destruct (request_states op !! r) as [rs|] eqn:Hrs.
      + apply bind_Ok_inv in Hstep as (op2 & Hf & [= <- <-]). destruct (forget_external_Ok (external_req_id (info rs)) r op op2 _ Hi ltac:(intros rs' Hrs'; congruence) Hf)
          as (Hi2 & Hs2 & Hp2 & _). split; [|done]. apply (index_weaken _ _ _ Hi2).
        * intros x [?|[?|Hx%list_elem_of_singleton]%elem_of_app]; tauto.
        * intros x [[?|?]| -> ]; left; [by left|right; apply elem_of_app; by left|right; apply elem_of_app; right; left].
      + injection Hstep as <- <-. split; [|done]. destruct Hi as [Hk Hl He]. split; [done| |].
        * intros x rs Hx Hnp. apply Hl; [done|]. intros [?|?]; apply Hnp; [by left|right; apply elem_of_app; by left].
        * intros e l Hel. destruct (He e l Hel) as (Hn & Hd & Hin). split; [done|]. split; [done|]. intros x Hx.
          destruct (Hin x Hx) as (Hnp & rs & Hrs' & Hers). split; [|by exists rs].
          intros [?|[?| -> %list_elem_of_singleton]%elem_of_app]; [tauto|tauto|congruence].
    - injection Hstep as <- <-. split; [|done]. destruct Hi as [Hk Hl He]. split; cbn.
      + exact Hk.
      + intros x rs Hx Hnp. assert (~ (P x \/ x ∈ acc)) as Hnp' by (intros [?|?]; apply Hnp; [by left|right; apply elem_of_app; by left]).
        specialize (Hl x rs Hx Hnp'). destruct (decide (external_req_id (info rs) = r)) as [Her|Her]; [|by rewrite lookup_delete_ne].
        rewrite Her in Hl. destruct Hnp. right. apply elem_of_app. by right.
      + intros e l Hel. apply lookup_delete_Some in Hel as [Hne Hel]. destruct (He e l Hel) as (Hn & Hd & Hin). split; [done|]. split; [done|].
        intros x Hx. destruct (Hin x Hx) as (Hnp & rs & Hrs & Hers). split; [|by exists rs].
        intros [?|[?|Hxr]%elem_of_app]; [tauto|tauto|]. destruct (external_req_ids op !! r) as [l'|] eqn:Hl'; [|by apply not_elem_of_nil in Hxr].
        destruct (He r l' Hl') as (_ & _ & Hin'). destruct (Hin' x Hxr) as (_ & rs' & Hrs' & Hers'). congruence. }
  destruct (IH op1 acc1 op' acc' P Hi1 Hrun) as (Hi' & Hs' & Hp'). split; [done|]. by rewrite Hs', Hs1, Hp', Hp1.
Qed.

(** Both loops, and the recursion into the children. *)
Lemma abort_index fuel : forall internal ids op op' aborted P, index_mod op P ->
  abort_requests children_order empty_tensor fuel internal ids op = Ok (op', aborted) ->
  index_mod op' P /\ forall x, request_states op !! x = None -> request_states op' !! x = None.
Proof.
  induction fuel as [|fuel IH]; intros internal ids op op' aborted P Hi Ha; [done|]. cbn [abort_requests] in Ha.
  apply bind_Ok_inv in Ha as ([op1 acc] & Hc & Ha).
  destruct (collect_index internal ids op [] op1 acc P) as (Hi1 & Hs1 & _); [|done|].
  { apply (index_weaken _ _ _ Hi); [intros x [?|?%not_elem_of_nil]; done|intros x ?; left; by left]. }
  rewrite <-Hs1. clear Hc Hi Hs1 op. revert op1 Hi1 Ha. generalize (@nil string). induction acc as [|r acc IHacc]; intros got op1 Hi1 Ha; cbn [for_each] in Ha.
  { injection Ha as <- <-. split; [|done]. apply (index_weaken _ _ _ Hi1); [by left|intros x [?|?%not_elem_of_nil]; [by left|done]]. }
  apply bind_Ok_inv in Ha as ([op2 got2] & Hstep & Ha).
  assert (index_mod op2 (fun x => P x \/ x ∈ acc) /\ forall x, request_states op1 !! x = None -> request_states op2 !! x = None) as [Hi2 Hmono].
  { assert (forall op3, index_mod op3 (fun x => P x \/ x ∈ r :: acc) -> request_states op3 !! r = None -> index_mod op3 (fun x => P x \/ x ∈ acc)) as Hgone.
    { intros op3 Hi3 Hnone. apply (index_weaken _ _ _ Hi3); [intros x [?|?]; [by left|right; by right]|].
      intros x [?|[-> |?]%elem_of_cons]; [left; by left|by right|left; by right]. }
    unfold abort_one in Hstep. destruct (request_states op1 !! r) as [rs|] eqn:Hrs.
    - apply bind_Ok_inv in Hstep as (op3 & Hs & [= <- <-]). apply abort_state_frame in Hs as (Hs & He & _). split.
      + apply (index_delete_state op1 _ (fun x => (P x \/ x ∈ r :: acc)) r) in Hi1; [|right; left|done|done].
        apply (index_frame _ op3) in Hi1; [|done|done]. apply Hgone; [done|]. rewrite Hs. cbn. apply lookup_delete_eq.
      + intros x Hx. rewrite Hs. cbn. apply lookup_delete_None. by right.
    - destruct (parent_requests op1 !! r) as [pref|]; [|injection Hstep as <- <-; split; [by apply Hgone|done]].
      apply bind_Ok_inv in Hstep as (pr & _ & Hstep). apply bind_Ok_inv in Hstep as ([op3 got3] & Hrec & [= <- <-]).
      assert (index_mod op3 (fun x => P x \/ x ∈ r :: acc) /\ forall x, request_states op1 !! x = None -> request_states op3 !! x = None) as [Hi3 Hm3].
      { destruct (bool_decide _); [injection Hrec as <- <-; done|]. apply bind_Ok_inv in Hrec as ([op4 kids] & Hrec & [= <- <-]).
        by apply (IH _ _ _ _ _ _ Hi1 Hrec). }
      split; [|done]. apply (index_frame op3); [|done|done]. apply Hgone; [done|]. by apply Hm3. }
  destruct (IHacc _ _ Hi2 Ha) as [Hi' Hm']. split; [done|]. intros x Hx. by apply Hm', Hmono.
Qed.

(** ** An abort by client id *)

Definition of_clients (ids : list string) op (r : string) : Prop :=
  exists rs, request_states op !! r = Some rs /\ external_req_id (info rs) ∈ ids.

Lemma collect_clients ids : forall op acc op' acc', index_mod op (fun x => x ∈ acc) -> NoDup acc ->
  for_each (collect_internal false) ids (op, acc) = Ok (op', acc') ->
  NoDup acc' /\ forall x, x ∈ acc' <-> x ∈ acc \/ of_clients ids op x.
Proof.
  induction ids as [|e ids IH]; intros op acc op' acc' Hi Hnd Hrun; cbn [for_each] in Hrun.
  { injection Hrun as <- <-. split; [done|]. intros x. split; [by left|]. intros [?|(rs & _ & ?%not_elem_of_nil)]; done. }
  apply bind_Ok_inv in Hrun as ([op1 acc1] & Hstep & Hrun). cbn in Hstep.
  destruct (collect_index false [e] op acc op1 acc1 (fun _ => False)) as (Hi1 & Hs1 & _).
  { apply (index_weaken _ _ _ Hi); [by intros x [?|?]|intros x ?; left; by right]. }
  { cbn. injection Hstep as <- <-. done. }
  injection Hstep as <- <-. set (l := default [] (external_req_ids op !! e)) in *.
  assert (forall x, x ∈ l -> ~ x ∈ acc /\ exists rs, request_states op !! x = Some rs /\ external_req_id (info rs) = e) as Hl.
  { intros x Hx. unfold l in Hx. destruct (external_req_ids op !! e) as [l'|] eqn:Hel; [|by apply not_elem_of_nil in Hx].
    destruct (index_entries _ _ Hi e l' Hel) as (_ & _ & Hin). by apply Hin. }
  assert (NoDup (acc ++ l)) as Hnd1.
  { apply NoDup_app. split; [done|]. split; [intros x Hx Hxl; by destruct (Hl x Hxl)|]. unfold l.
    destruct (external_req_ids op !! e) as [l'|] eqn:Hel; [by destruct (index_entries _ _ Hi e l' Hel) as (_ & ? & _)|constructor]. }
  destruct (IH _ _ op' acc' ltac:(apply (index_weaken _ _ _ Hi1); [intros x ?; by right|intros x [?|?]; [done|by left]]) Hnd1 Hrun) as [Hnd' Hmem].
  split; [done|]. intros x. rewrite Hmem, elem_of_app. unfold of_clients. cbn. split.
  - intros [[?|Hx]|(rs & Hrs & He)]; [by left| |].
    + destruct (Hl x Hx) as (_ & rs & Hrs & He). right. exists rs. split; [done|]. rewrite He. left.
    + right. exists rs. split; [done|by right].
  - intros [?|(rs & Hrs & [He|He]%elem_of_cons)]; [by left; left| |right; by exists rs].
    destruct (decide (x ∈ acc)) as [Hx|Hx]; [by left; left|]. left. right. unfold l. rewrite <-He.
    apply (index_listed _ _ Hi x rs Hrs Hx).
Qed.

Lemma abort_states rec acc : forall op got op' aborted, NoDup acc -> (forall x, x ∈ acc -> is_Some (request_states op !! x)) ->
  for_each (abort_one children_order empty_tensor rec) acc (op, got) = Ok (op', aborted) ->
  aborted = got ++ acc /\ parent_requests op' = parent_requests op /\
  forall x rs, request_states op' !! x = Some rs <-> request_states op !! x = Some rs /\ x ∉ acc.
Proof.
  induction acc as [|r acc IH]; intros op got op' aborted Hnd Hin Hrun; cbn [for_each] in Hrun.
  { injection Hrun as <- <-. rewrite app_nil_r. split; [done|]. split; [done|]. intros x rs. split; [intros ?; split; [done|apply not_elem_of_nil]|by intros [? _]]. }
  apply bind_Ok_inv in Hrun as ([op1 got1] & Hstep & Hrun). apply NoDup_cons in Hnd as [Hr Hnd].
  destruct (Hin r ltac:(left)) as [rs Hrs]. unfold abort_one in Hstep. rewrite Hrs in Hstep.
  apply bind_Ok_inv in Hstep as (op2 & Ha & [= <- <-]). apply abort_state_frame in Ha as (Hs & _ & Hp). cbn in Hs, Hp.
  destruct (IH op2 (got ++ [r]) op' aborted Hnd) as (-> & Hp' & Hs'); [|done|].
  { intros x Hx. rewrite Hs, lookup_delete_ne by (by intros ->). apply Hin. by right. }
  rewrite <-app_assoc. split; [done|]. split; [congruence|]. intros x rs'. rewrite Hs', Hs, lookup_delete_Some, not_elem_of_cons. naive_solver.
Qed.

Lemma abort_clients fuel ids op op' aborted : index_ok op ->
  abort_requests children_order empty_tensor (S fuel) false ids op = Ok (op', aborted) ->
  NoDup aborted /\ (forall r, r ∈ aborted <-> of_clients ids op r) /\ parent_requests op' = parent_requests op /\
  forall r rs, request_states op' !! r = Some rs <-> request_states op !! r = Some rs /\ external_req_id (info rs) ∉ ids.
Proof.
  intros Hi Ha. cbn [abort_requests] in Ha. apply bind_Ok_inv in Ha as ([op1 acc] & Hc & Ha).
  destruct (collect_clients ids op [] op1 acc) as [Hnd Hmem]; [|constructor|done|].
  { apply (index_weaken _ _ _ Hi); [by intros x ?%not_elem_of_nil|done]. }
  destruct (collect_index false ids op [] op1 acc (fun _ => False)) as (_ & Hs1 & Hp1); [|done|].
  { apply (index_weaken _ _ _ Hi); [by intros x [?|?%not_elem_of_nil]|done]. }
  assert (forall x, x ∈ acc -> is_Some (request_states op1 !! x)) as Hin.
  { intros x Hx. rewrite Hs1. apply Hmem in Hx as [?%not_elem_of_nil|(rs & -> & _)]; done. }
  destruct (abort_states _ acc op1 [] op' aborted Hnd Hin Ha) as (-> & Hp & Hs).
  cbn [app]. split; [done|]. split; [intros r; rewrite Hmem; split; [by intros [?%not_elem_of_nil|?]|by right]|]. split; [congruence|].
  intros r rs. rewrite Hs, Hs1, Hmem. split.
  - intros [Hrs Hn]. split; [done|]. intros He. apply Hn. right. by exists rs.
  - intros [Hrs Hn]. split; [done|]. intros [?%not_elem_of_nil|(rs' & Hrs' & He)]; [done|]. congruence.
Qed.

(** Without queues nothing can fail. *)
Lemma abort_state_no_queue rs op : queue (info rs) = None -> abort_state empty_tensor rs op = Ok op.
Proof. intros Hq. unfold abort_state. by rewrite Hq. Qed.

Lemma collect_external_total ids : forall op acc, exists op' acc', for_each (collect_internal false) ids (op, acc) = Ok (op', acc').
Proof. induction ids as [|e ids IH]; intros op acc; cbn [for_each]; [by eexists _, _|]. apply IH. Qed.

Lemma abort_states_total rec acc : forall op got, NoDup acc ->
  (forall x, x ∈ acc -> exists rs, request_states op !! x = Some rs /\ queue (info rs) = None) ->
  exists op' aborted, for_each (abort_one children_order empty_tensor rec) acc (op, got) = Ok (op', aborted).
Proof.
  induction acc as [|r acc IH]; intros op got Hnd Hin; cbn [for_each]; [by eexists _, _|].
  apply NoDup_cons in Hnd as [Hr Hnd]. destruct (Hin r ltac:(left)) as (rs & Hrs & Hq).
  assert (abort_one children_order empty_tensor rec r (op, got) = Ok (set_states (delete r (request_states op)) op, got ++ [r])) as ->
    by (unfold abort_one; by rewrite Hrs, abort_state_no_queue).
  apply IH; [done|].
  intros x Hx. cbn. rewrite lookup_delete_ne by (by intros ->). apply Hin. by right.
Qed.

Lemma abort_clients_total fuel ids op : index_ok op ->
  (forall r rs, request_states op !! r = Some rs -> external_req_id (info rs) ∈ ids -> queue (info rs) = None) ->
  exists op' aborted, abort_requests children_order empty_tensor (S fuel) false ids op = Ok (op', aborted).
Proof.
  intros Hi Hq. cbn [abort_requests]. destruct (collect_external_total ids op []) as (op1 & acc & Hc). rewrite Hc.
  destruct (collect_clients ids op [] op1 acc) as [Hnd Hmem]; [|constructor|done|].
  { apply (index_weaken _ _ _ Hi); [by intros x ?%not_elem_of_nil|done]. }
  destruct (collect_index false ids op [] op1 acc (fun _ => False)) as (_ & Hs1 & _); [|done|].
  { apply (index_weaken _ _ _ Hi); [by intros x [?|?%not_elem_of_nil]|done]. }
  apply abort_states_total; [done|]. intros x Hx. apply Hmem in Hx as [?%not_elem_of_nil|(rs & Hrs & He)]; [done|].
  exists rs. rewrite Hs1. split; [done|by apply (Hq x)].
Qed.

(** ** Reachable states *)

Variable new_decoder : Tokenizer -> EngineCoreRequest -> Detok D.
Variable kept_prompt_len : Tokenizer -> EngineCoreRequest -> Z.

(** The operations of the output processor, as they return; [step_stores]: a parent or a queue is created, or
    a queue is read. *)
Inductive step op : OutputProcessor -> Prop :=
  | step_add req prompt parent i q op' : add_request new_decoder kept_prompt_len req prompt parent i q op = Ok op' -> step op op'
  | step_outputs os op' ret : process_outputs os op = Ok (op', ret) -> step op op'
  | step_abort fuel internal ids op' aborted : abort_requests children_order empty_tensor fuel internal ids op = Ok (op', aborted) -> step op op'
  | step_error e op' : propagate_error e op = Ok op' -> step op op'
  | step_stores ps qs : step op (set_queues qs (set_parents ps op)).

Inductive reachable (interval : Z) (tk : option Tokenizer) : OutputProcessor -> Prop :=
  | reachable_init ps qs : reachable interval tk (mkProcessorState interval tk ∅ ∅ ∅ ps qs)
  | reachable_step op op' : reachable interval tk op -> step op op' -> reachable interval tk op'.

Lemma propagate_error_frame e op op' : propagate_error e op = Ok op' ->
  request_states op' = request_states op /\ external_req_ids op' = external_req_ids op.
Proof.
  unfold propagate_error. intros Hp. apply (for_each_Ok_inv _ (fun op1 => request_states op1 = request_states op /\ external_req_ids op1 = external_req_ids op)) in Hp;
    [done|done|]. intros [r rs] op1 op2 [Hs He] H1. apply bind_Ok_inv in H1 as (u & _ & H1).
  pose proof (put_to_external _ _ _ _ H1) as [-> _]. by apply put_to_frame in H1 as [-> _].
Qed.

Lemma step_index op op' : index_ok op -> step op op' -> index_ok op'.
Proof.
  intros Hi [req prompt parent i q op1 Ha|os op1 ret Hp|fuel internal ids op1 aborted Ha|e op1 Hp|ps qs].
  - by apply add_request_index in Ha.
  - by apply process_outputs_index in Hp.
  - by apply (abort_index _ _ _ _ _ _ (fun _ => False)) in Ha as [? _].
  - apply propagate_error_frame in Hp as [Hs He]. by apply (index_frame op).
  - by apply (index_frame op).
Qed.

Lemma reachable_index interval tk op : reachable interval tk op -> index_ok op.
Proof.
  induction 1 as [ps qs|op op' _ IH Hs]; [|by apply (step_index op)].
  split; [by intros r rs|by intros r rs|]. intros e l He. cbn in He; by rewrite lookup_empty in He.
Qed.
End Index.

(** C20: In every reachable state of the output processor each request is listed exactly once under its
    client id, and every listed id is a request that is there. *)
Theorem external_ids_are_the_requests `{Decoder D} {K E X : Type} children_order (empty_tensor : X) new_decoder kept_prompt_len interval tk
    (op : OutputProcessor (D := D) (K := K) (E := E) (X := X)) :
  reachable children_order empty_tensor new_decoder kept_prompt_len interval tk op ->
  (forall r rs, request_states op !! r = Some rs -> request_id (info rs) = r /\ r ∈ default [] (external_req_ids op !! external_req_id (info rs))) /\
  (forall e l, external_req_ids op !! e = Some l -> l <> [] /\ NoDup l /\
     forall r, r ∈ l -> exists rs, request_states op !! r = Some rs /\ external_req_id (info rs) = e).
Proof.
  intros Hr. apply reachable_index in Hr as [Hk Hl He]. split.
  - intros r rs Hrs. split; [by apply Hk|by apply Hl; [|tauto]].
  - intros e l Hel. destruct (He e l Hel) as (Hn & Hd & Hin). split; [done|]. split; [done|]. intros r Hrl. by destruct (Hin r Hrl).
Qed.

(** C26: An abort by client ids removes exactly the requests of these clients, each once, and leaves
    every other request; the parents of removed children stay registered. It does not recur, and without queues (the
    synchronous engine) it cannot fail. *)
Theorem abort_removes_clients_requests `{Decoder D} {K E X : Type} children_order (empty_tensor : X) new_decoder kept_prompt_len interval tk
    (op : OutputProcessor (D := D) (K := K) (E := E) (X := X)) fuel ids :
  reachable children_order empty_tensor new_decoder kept_prompt_len interval tk op ->
  ((forall r rs, request_states op !! r = Some rs -> external_req_id (info rs) ∈ ids -> queue (info rs) = None) ->
   exists op' aborted, abort_requests children_order empty_tensor (S fuel) false ids op = Ok (op', aborted)) /\
  forall op' aborted, abort_requests children_order empty_tensor (S fuel) false ids op = Ok (op', aborted) ->
    NoDup aborted /\
    (forall r, r ∈ aborted <-> exists rs, request_states op !! r = Some rs /\ external_req_id (info rs) ∈ ids) /\
    (forall r rs, request_states op' !! r = Some rs <-> request_states op !! r = Some rs /\ external_req_id (info rs) ∉ ids) /\
    parent_requests op' = parent_requests op.
Proof.
  intros Hr%reachable_index. split; [by apply abort_clients_total|]. intros op' aborted Ha.
  by destruct (abort_clients _ _ _ _ _ _ _ Hr Ha) as (Hnd & Hin & Hp & Hs).
Qed.

(** ** Two requests of one client *)

Definition demo_request2 : EngineCoreRequest := mkCoreRequest "r2" (Some "e") (Some [9]) None (inl demo_params) false.
Definition index_demo : result (OutputProcessor (D := unit) (K := unit) (E := unit) (X := unit)) :=
  op ← @add_request unit unit unit unit (fun _ _ => echo_start) (fun _ _ => 0) demo_request None None 0 (Some 0) demo_processor;
  @add_request unit unit unit unit (fun _ _ => echo_start) (fun _ _ => 0) demo_request2 None None 0 None op.

Lemma index_demo_reachable op : index_demo = Ok op ->
  @reachable unit echo_decoder unit unit unit elements tt (fun _ _ => echo_start) (fun _ _ => 0) 1 (Some demo_tokenizer) op.
Proof.
  unfold index_demo. intros Hd. apply bind_Ok_inv in Hd as (op1 & H1 & H2).
  eapply reachable_step; [eapply reachable_step; [apply reachable_init|eapply step_add; exact H1]|eapply step_add; exact H2].
Qed.

Lemma external_ids_are_the_requests_witness : exists op, index_demo = Ok op /\ external_req_ids op !! "e"%string = Some ["r"; "r2"]%string /\
  exists rs, request_states op !! "r2"%string = Some rs /\ external_req_id (info rs) = "e"%string.
Proof.
  destruct index_demo as [op|] eqn:Hd; [|vm_compute in Hd; discriminate]. exists op. split; [reflexivity|].
  assert (external_req_ids op !! "e"%string = Some ["r"; "r2"]%string) as He by (vm_compute in Hd; injection Hd as <-; vm_compute; reflexivity).
  split; [exact He|].
  destruct (@external_ids_are_the_requests unit echo_decoder unit unit unit elements tt (fun _ _ => echo_start) (fun _ _ => 0) 1 (Some demo_tokenizer) op
    (index_demo_reachable op Hd)) as [_ Hall].
  destruct (Hall "e"%string _ He) as (_ & _ & Hin). apply Hin. right. left.
Defined.

Lemma abort_removes_clients_requests_witness : exists op op' aborted, index_demo = Ok op /\
  abort_requests elements tt 1 false ["e"]%string op = Ok (op', aborted) /\ aborted = ["r"; "r2"]%string /\
  request_states op' !! "r"%string = None.
Proof.
  destruct index_demo as [op|] eqn:Hd; [|vm_compute in Hd; discriminate]. exists op.
  destruct (@abort_requests unit unit unit unit elements tt 1 false ["e"]%string op) as [[op' aborted]|] eqn:Ha;
    [|vm_compute in Hd; injection Hd as <-; vm_compute in Ha; discriminate].
  exists op', aborted. split; [reflexivity|]. split; [reflexivity|].
  destruct (@abort_removes_clients_requests unit echo_decoder unit unit unit elements tt (fun _ _ => echo_start) (fun _ _ => 0) 1 (Some demo_tokenizer)
    op 0%nat ["e"]%string (index_demo_reachable op Hd)) as [_ Hall]. destruct (Hall op' aborted Ha) as (_ & _ & Hs & _).
  assert (forall rs, request_states op !! "r"%string = Some rs -> external_req_id (info rs) = "e"%string) as He
    by (intros rs Hrs; vm_compute in Hd; injection Hd as <-; vm_compute in Hrs; injection Hrs as <-; reflexivity).
  split.
  - vm_compute in Hd; injection Hd as <-; vm_compute in Ha; injection Ha as _ <-; reflexivity.
  - destruct (request_states op' !! "r"%string) as [rs|] eqn:Hrs; [|reflexivity]. apply Hs in Hrs as [Hrs Hn]. destruct Hn. rewrite (He rs Hrs). left.
Defined.
