(* ===== verification/OutputEdges.v ===== *)
(** Where the output processor does something else than it says: outputs of pooling requests
    under a stream interval, the interval of cumulative outputs, the log probabilities of an abort and the routed
    experts of merged deltas. *)
From stdpp Require Import strings.
From S2P Require Import Prelude PyFloat Request Tokenizers Logprobs Detokenizer RequestOutput ParallelSampling OutputProcessor OutputStream.
Open Scope Z_scope.

Section Edges.
Context `{Decoder D} {K E X : Type}.
Implicit Types (rs : RequestState (D := D) (E := E)).

(** Every output of a pooling request that could be returned raises when the engine streams at intervals: the interval
    is looked at before the kind of the output, and asserts a detokenizer. *)
Lemma pooling_interval_raises ids (x : X) fin stop kv ec ps rs : processors rs = None -> 1 < stream_interval (info rs) ->
  fin <> None \/ kind (info rs) <> FINAL_ONLY ->
  make_request_output (K := K) ids (Some x) fin stop kv ec ps rs = Raise AssertionError.
Proof.
  intros Hp Hi Hf. unfold make_request_output.
  assert (negb (bool_decide (is_Some fin)) && bool_decide (kind (info rs) = FINAL_ONLY) = false) as ->.
  { destruct fin; [done|]. destruct Hf as [Hf|Hf]; [by destruct (Hf eq_refl)|]. rewrite (bool_decide_false (kind (info rs) = FINAL_ONLY)) by done. apply andb_false_r. }
  destruct (Z.ltb_spec 1 (stream_interval (info rs))); [|lia]. by rewrite Hp.
Qed.

(** The interval has no effect on cumulative outputs: nothing moves [sent_tokens_offset] from 0, so every output is
    sent. *)
Lemma cumulative_always_sent ids fin stop kv ec ps rs out ps' rs' : kind (info rs) = CUMULATIVE -> sent_tokens_offset rs = 0 ->
  parent_req (info rs) = None ->
  make_request_output (K := K) (X := X) ids None fin stop kv ec ps rs = Ok (out, ps', rs') -> out <> None /\ sent_tokens_offset rs' = 0.
Proof.
  intros Hk Hs Hpar Hm. unfold make_request_output in Hm. rewrite Hk, (bool_decide_false (CUMULATIVE = FINAL_ONLY)), andb_false_r in Hm by done.
  apply bind_Ok_inv in Hm as ([[send ids'] rs1] & Hsend & Hm).
  assert (send = true /\ rs1 = rs) as [-> ->].
  { destruct (1 <? _); [|by injection Hsend as <- _ <-]. apply bind_Ok_inv in Hsend as ([dt lp] & _ & Hsend).
    rewrite Hs, orb_true_r in Hsend. cbn [orb negb] in Hsend. rewrite (bool_decide_false (CUMULATIVE = DELTA)) in Hsend by done. by injection Hsend as <- _ <-. }
  cbn [negb] in Hm. apply bind_Ok_inv in Hm as ([co rs2] & Hco & Hm). pose proof (new_completion_info _ _ _ _ _ _ Hco) as Hi2. rewrite Hi2, Hpar in Hm.
  apply bind_Ok_inv in Hm as ([o rs3] & Ho & [= <- _ <-]). split; [done|].
  unfold new_completion_output in Hco. apply bind_Ok_inv in Hco as ([dt lp] & _ & Hco). destruct (detok_next_text _ _ _) as [t1 dt1].
  apply bind_Ok_inv in Hco as (lps & _ & Hco). injection Hco as _ <-.
  unfold new_request_output in Ho. apply bind_Ok_inv in Ho as (pids & _ & Ho). apply bind_Ok_inv in Ho as ([dt2 lp2] & _ & Ho).
  destruct (if bool_decide _ then _ else _) in Ho. by injection Ho as _ <-.
Qed.

(** A delta without tokens, as the output of an abort is, carries all log probabilities again: [logprobs[-0:]]. *)
Lemma empty_delta_repeats_logprobs fin stop rs dt lp l c rs' : kind (info rs) = DELTA -> processors rs = Some (dt, lp) ->
  sample_logprobs lp = Some (Dicts l) -> new_completion_output [] fin stop rs = Ok (c, rs') ->
  co_token_ids c = [] /\ co_logprobs c = Some (Dicts l).
Proof.
  intros Hk Hp Hl Hc. unfold new_completion_output in Hc. rewrite Hp, Hk, (bool_decide_true (DELTA = DELTA)) in Hc by done. cbn [or_raise mbind result_bind] in Hc.
  destruct (detok_next_text _ _ _) as [t1 dt1]. rewrite Hl in Hc. cbn [andb] in Hc. destruct (negb (logprobs_len (Dicts l) =? 0)); cbn in Hc; injection Hc as <- _; [|done].
  split; [done|]. cbn. by rewrite py_from_nonneg by done.
Qed.
End Edges.

(** A collector that merges the last delta into one that is still waiting drops the routed experts: they come with the
    last delta alone, and the merged output keeps those of the first. *)
Theorem merged_delta_drops_experts {K E X : Type} (q : RequestOutputCollector K E X) o o' c c' q' :
  aggregate q = true -> output q = Some (Produced (Completions o)) -> outputs o = [Some c] -> outputs o' = [Some c'] ->
  index c = index c' -> put (Produced (Completions o')) q = Ok q' ->
  exists m mc, output q' = Some (Produced (Completions m)) /\ outputs m = [Some mc] /\
    finish_reason mc = finish_reason c' /\ routed_experts mc = routed_experts c.
Proof.
  intros Ha Ho Hc Hc' Hi Hp. unfold put in Hp. rewrite Ho in Hp. apply bind_Ok_inv in Hp as (m & Hm & [= <-]). rewrite Ha in Hm.
  unfold add in Hm. rewrite Hc, Hc' in Hm. cbn [for_each add_completion] in Hm. rewrite Hi, Z.eqb_refl in Hm.
  apply bind_Ok_inv in Hm as (outs & Houts & [= <-]). apply bind_Ok_inv in Houts as (outs1 & Houts1 & [= <-]).
  apply bind_Ok_inv in Houts1 as (mc & Hmc & [= <-]). unfold merge_completion in Hmc. apply bind_Ok_inv in Hmc as (l & _ & [= <-]).
  do 2 eexists. split; [done|]. split; [done|]. done.
Qed.

Definition edge_output (experts : option (list Z)) (fin : option FinishReason) : RequestOutput unit Z :=
  mkRequestOutput "e" None (Some []) None [Some (mkCompletion 0 [65] [65] None None experts fin None)] (bool_decide (is_Some fin)) None None 0 0.

Lemma merged_delta_drops_experts_witness : exists q' m mc,
  put (Produced (Completions (edge_output (Some [7; 8]) (Some STOP)))) (mkCollector (X := unit) true (Some (Produced (Completions (edge_output None None)))) true) = Ok q' /\
  output q' = Some (Produced (Completions m)) /\ outputs m = [Some mc] /\ finish_reason mc = Some STOP /\ routed_experts mc = None.
Proof.
  destruct (put (Produced (Completions (edge_output (Some [7; 8]) (Some STOP)))) (mkCollector (X := unit) true (Some (Produced (Completions (edge_output None None)))) true))
    as [q'|] eqn:Hp; [|vm_compute in Hp; discriminate].
  destruct (merged_delta_drops_experts (mkCollector (X := unit) true (Some (Produced (Completions (edge_output None None)))) true)
    (edge_output None None) (edge_output (Some [7; 8]) (Some STOP)) (mkCompletion 0 [65] [65] None None None None None)
    (mkCompletion 0 [65] [65] None None (Some [7; 8]) (Some STOP) None) q' eq_refl eq_refl eq_refl eq_refl eq_refl Hp) as (m & mc & H1 & H2 & H3 & H4).
  exists q', m, mc. split; [reflexivity|]. split; [exact H1|]. split; [exact H2|]. split; [exact H3|exact H4].
Defined.

(** A pooling request served by an engine with a stream interval above 1 fails on its output. *)
Theorem pooling_output_raises_under_interval `{Decoder D} {K E X : Type} (o : EngineCoreOutput (K := K) (E := E) (X := X)) op ret rs x fin :
  request_states op !! out_request_id o = Some rs -> processors rs = None -> 1 < stream_interval (info rs) ->
  pooling_output o = Some x -> out_finish_reason o = Some fin ->
  process_output (D := D) o (op, ret) = Raise AssertionError.
Proof.
  intros Hrs Hp Hi Hx Hf. unfold process_output. destruct ret as [outs aborts]. rewrite Hrs. unfold take_output. rewrite Hx, Hf. cbn [mbind result_bind].
  assert (processors (note_output o rs) = processors rs) as Hp1.
  { unfold note_output. by destruct (prefill_stats o) as [[? ?]|]; [destruct (is_prefilling rs)|]. }
  rewrite pooling_interval_raises; [done|by rewrite Hp1|by rewrite note_output_info|by left].
Qed.

Lemma pooling_output_raises_under_interval_witness :
  let rs := mkState (mkInfo "r" "e" None 0 FINAL_ONLY None None 4) None (Some [1]) None true 0 0 [] 0 false None in
  let op := mkProcessorState (D := unit) (K := unit) (E := unit) (X := Z) 4 None {["r"%string := rs]} ∅ {["e"%string := ["r"%string]]} ∅ ∅ in
  @process_output unit echo_decoder unit unit Z (mkCoreOutput "r" [] None None (Some 5) (Some STOP) None None None None None) (op, ([], [])) = Raise AssertionError.
Proof.
  intros rs op. apply (@pooling_output_raises_under_interval unit echo_decoder unit unit Z) with (rs := rs) (x := 5) (fin := STOP); reflexivity.
Defined.
